(* ===== verification/_CoqProject ===== *)
-Q . S2P
Prelude.v
BTree.v
Bytes.v
Message.v
Codec.v
Framing.v
Envelope.v
Flow.v
Channels.v
Admission.v
SubChannel.v
Pipe.v
Connection.v
AltScreen.v
Replay.v
Outbox.v
Fanout.v
Session.v
Streams.v
Retained.v
ResizeFold.v
Resize.v
Detached.v
Document.v
Cells.v
Liveness.v
Ladder.v
Verbs.v
Mirror.v
Frames.v
Subscriber.v
HostDoc.v
Sync.v
Converge.v
Store.v
Gf256.v
LinAlg.v
RsMatrix.v
Fec.v
Fragment.v
AdaptiveFec.v
Interleave.v
Packetizer.v
Reassembler.v
Reception.v
Delivery.v
Verdicts.v
RetransmitRing.v
Repair.v
Float.v
Tree.v
TreeLaws.v
Layout.v
LayoutLaws.v
Identity.v
Workspace.v
TreeOps.v
WorkspaceLaws.v
OpsLaws.v
TabLaws.v
CloseLaws.v
Requests.v
RetileLaws.v
MintLaws.v
TabOrder.v
OrderLaws.v
Budget.v
Intent.v
Topology.v
TopologyLaws.v
Apply.v
ApplyLaws.v
HandlerLaws.v
HostIntent.v
Staging.v
