(* ===== verification/Prelude.v ===== *)
(** * slopdesk: the transport, the pane sessions and the shared workspace, verified

    slopdesk streams terminals and screens from a host to its clients. Everything a terminal session says
    travels over one pair of links per connection: messages are encoded into length-prefixed frames,
    frames are wrapped in the envelopes of a mux that carries many channels, and each channel is flow-
    controlled by credit. The host keeps what a client has not confirmed in a replay buffer, and several
    clients may share one pane, each fed by threads of its own. Video travels as fragments over
    datagrams, protected by an erasure code. Which panes there are, and how a window arranges them, is a
    document the host keeps, saves, and sends every client as snapshots and diffs. This development
    models these parts as the code writes them, with executable definitions, and proves what the layers
    above rely on.

    ** The parts and how they interact

    - [Prelude]: results, bytes, machine integers (an [n]-bit integer is a [Z], with its wrap-around
      written out), bounds-checked slices, the scope and the tactics the other files share.
    - [Bytes] ([slopdesk-wire/src/bytes.rs], [error.rs]): the writer over its two sinks, an owned vector
      and a lent slice that keeps counting past its end, and the bounds-checked reader as a parser monad;
      the UTF-8 check and the clamp that cuts a string at a character boundary.
    - [Message] and [Codec] ([message.rs], [codec.rs]): the inner messages, their sizes, encode into both
      sinks, and decode in its copying and its eliding mode (the latter answers where the opaque run of
      the message lies instead of copying it).
    - [Framing] ([framing.rs], [frame.rs]): [PrefixedReader], the buffer with a read offset, a deferred
      compaction and a fault latch, and the frame decoder over it.  Its abstract specification is
      [Receiver], the bytes not yet consumed and the fault if any; [abs_reader] abstracts to it.
      [FramedCodec] is the interface a codec offers to the reader, with the law reassembly needs; the
      wire codec and the mux codec are its two instances.
    - [Envelope] ([mux/envelope.rs], [mux/mod.rs], [mux/decoder.rs]): the mux frames, codec and decoder.
    - [Flow] ([mux/flow.rs]): the tunables, the credit window, the grant accountant, the bounded queue
      and the pausable gate.  The environment the tunables read is a parameter.
    - [Channels] ([mux/channels.rs]): the channel table, the per-channel close machine, the ring that
      bounds dead entries, the demux rule.
    - [Admission] ([mux/admission.rs]): what may pass the door and what an ending tears down.
    - [SubChannel] ([slopdesk-muxnet/src/subchannel.rs], [link.rs]): one channel over one link.
    - [Pipe]: two data sub-channels, the data link between them and the link that carries the grants
      back, as one transition system; each step is one call, or one turn of the send loop.
    - [Connection] ([slopdesk-muxnet/src/connection.rs]): a connection with its two channel tables, its
      dispatch maps and the store of sub-channels both maps and owners share.
    - [AltScreen] ([slopdesk-altscreen/src/lib.rs] and the escape skimmer of
      [slopdesk-sanitize/src/vtscan.rs]): the scanner that answers which alternate-screen state a cut of
      the terminal stream would lose.  Its specification is a stream of well-formed sequences.
    - [Replay] ([replay.rs]): the un-acknowledged tail, the ring of acknowledged history with its
      line-aligned eviction that [AltScreen] repairs, replay, re-chunking, folds and snapshot adoption.
      The distiller of histories is a parameter, as it is in the code.
    - [BTree]: a [BTreeMap] as a [gmap] read in key order, with the minimum and maximum of an iterator;
      it models no file of the program.
    - [Outbox] ([slopdesk-muxsession/src/outbox.rs], and [Outbound] of [slopdesk-hostsession/src/shared.rs]):
      the queue between the producers of a pane and its drain thread, with its wake flag, and the drain
      thread ([drain.rs]) as a machine.  Its specification is a queue of chunks and exits ([Entry]).
    - [Fanout] ([slopdesk-muxsession/src/fanout.rs]): the members of a pane, their cursors, and the folds
      over them: retention floor, send frontier, laggards, the eviction latch.
    - [Session] ([shared.rs], [drain.rs], [subscriber.rs], [session.rs] of [slopdesk-hostsession]): the
      threads of one pane over [Replay], [Flow]'s gate, [Outbox] and [Fanout].  A [Sec] is what a thread
      does under one lock, [sec_...] is the body of that section, and a step runs one section of one
      thread.  [Streams] follows what each member hears, [Retained] what the ring keeps for it.
    - [ResizeFold] ([slopdesk-muxsession/src/resize_fold.rs]) and [Resize] ([resize.rs], [timer.rs] of
      [slopdesk-hostsession], [slopdesk-hostpane/src/pane.rs]): the fold of the members' sizes into one, the
      timers around it and the terminal it is applied to, as overlapping threads.
    - [Detached] ([slopdesk-hostserver/src/detached.rs], [deadline.rs], and
      [slopdesk-muxsession/src/detach_retention.rs]): the panes nobody is attached to, their time to live
      and the cap, as overlapping calls and callbacks.
    - [Document] and [Cells] ([slopdesk-wire/src/document/state.rs], [codec.rs]): the workspace document as
      a map of cells, its diffs, and everything of it on the wire.  [Liveness] ([liveness.rs],
      [fields.rs], the filter of [state_file.rs]): a pane's record in it, and the reconciler.
    - [Ladder] ([slopdesk-workspace/src/sync_ladder.rs]): what one subscriber may be sent next and against
      which base, over a fixed window with released slots.  Its specification [Spec] keeps the payloads
      in place.
    - [Verbs] ([slopdesk-wire/src/workspace.rs]): the payloads of the workspace channel, behind the
      interface [Payload].  [Mirror] ([slopdesk-wire/src/document/mirror.rs]): a client's replica, its
      overlay and its optimistic patches; [Frames] is what the host's frames do to it.
    - [Subscriber] ([slopdesk-hostserver/src/subscriber.rs]): the inbox of a subscriber and its pump
      thread, a program counter with one step per lock section or send.  [HostDoc] ([workspace.rs],
      [wsserve.rs]): the host's document and the service that handles a client's requests.  [Sync] runs
      host, pumps, an adversarial link and a replica together; [Converge] runs one pump against one
      honest client.
    - [Store] ([slopdesk-hostd/src/workspacestore.rs]): the debounced writer of the document.
    - [Identity] ([slopdesk-ids/src/identity.rs]): identities and the class [IdSource] of sources of fresh
      ones, which the operations below thread.  [Float]: [f64] as its bit pattern, over the Standard
      Library's reference of IEEE 754; it models no file of the program.
    - [Tree] ([slopdesk-tree/src/split_tree.rs]): the split tree of a tab, its operations and the repair of
      an untrusted one; [TreeLaws] is what each keeps.
    - [Layout] ([geometry.rs], [split_layout.rs], [focus.rs]): the rectangles of a tree, the seams and their
      drag, focus by direction; [LayoutLaws].
    - [Workspace] ([session.rs], [workspace.rs]): tabs, sessions, the side tables, detached panes and the
      repairs of a hand-edited file; [WorkspaceLaws] has its invariant [ws_wf].
    - [TreeOps] ([tree_ops.rs]): every operation on the arrangement.  [OpsLaws] is the record [effect] of what
      an operation may do and the operations that split, close and mint; [TabLaws] has the moves, detached
      panes and tabs, [CloseLaws] the closes; [Requests] puts one constructor on each and has the theorem
      over all.  [RetileLaws] is the re-tilings, [MintLaws] the identities a repair may spend.
    - [TabOrder] and [OrderLaws] ([tab_ordering.rs]): the sections of the sidebar and where a close goes.
    - [Intent] ([document/intent.rs]): the ops a client may send and the arguments of each on the wire.
      [Budget] is the bookkeeping of how many bytes a reader takes for what it answers; it models no code.
    - [Topology] ([document/topology.rs], [fields.rs]): the arrangement, with what the host keeps beside it,
      as entries of the document and back; [TopologyLaws] has when it fits the cells, and the round trip.
    - [Apply] ([document/apply.rs]): one handler per op, over [TreeOps], and the gate every result passes.
      [ApplyLaws] is the record [change] of what an applied intent did to the panes and the reopen ring, and
      how a workspace's [effect] becomes one; [HandlerLaws] has the handlers and the theorem over the
      dispatcher.
    - [HostIntent] puts the applier and the projection into the host's [apply_intent] of [HostDoc];
      [Staging] ([mirror.rs]) runs the same applier at a replica and puts the patch over its document.
    - [Gf256] ([slopdesk-video/src/gf256.rs] and the portable kernels of [slopdesk-gfsimd]): the field of
      256 elements from its logarithm tables.  [LinAlg] holds the linear algebra over any field the next
      file needs (sums, the Cauchy matrix, the invariant of Gauss-Jordan); it models no code.
    - [RsMatrix] ([rs_matrix.rs]): the coefficient block and the inversion over a flat buffer.
    - [Fec] ([fec.rs]): the codec, parity and in-place recovery, on the XOR path and the matrix path.
    - [Fragment] ([fragment.rs], [bytes.rs]) and [AdaptiveFec] ([adaptive_fec.rs]): the datagram header,
      its flags, and what a tier on the wire means for the groups of a frame.
    - [Packetizer] ([packetizer.rs]) and [Interleave] ([interleaver.rs]): one encoded frame becomes data
      and parity datagrams, in the order they go out.  [RetransmitRing] ([retransmit_ring.rs]) remembers
      them.
    - [Reassembler] ([reassembler.rs]): the receive path; a pending frame is a [Pending], and [ingest] is
      the whole handler.  [Reception] splits [ingest] into cases and follows honest traffic through it,
      [Delivery] puts packetizer and reassembler together for one frame, [Verdicts] follows a session of
      any calls, [Repair] closes the loop between a retransmit request and the history.

    ** What the theorems show

    - Codec and framing: every message and every mux frame survives the wire, however the stream is cut
      into reads; the copying and the eliding decoders agree on every input; what a decoder answers on
      hostile bytes is well-formed, its faults are final and its memory is bounded; encoding into a lent
      buffer is encoding, and says exactly how much room it needs.
    - Channel: the pipe is a reliable FIFO under every interleaving, credit is conserved, and when each
      frame fits half the window it cannot wedge; the bound of half a window is tight.
    - Connection: a hostile peer cannot grow a host's tables past a cap or revive a dead channel, with a
      larger cap once the connection is down, since the teardown leaves the entries of its channels; a
      frame only ever touches the channel it names; when a link dies nothing is left waiting, except a
      channel opened by a frame the other link's thread routes after the teardown, which the code does not
      exclude.
    - Replay: after any run of productions and acknowledgements, a client that reconnects is sent
      exactly what it lacks; the byte counts the back-pressure reads are exact; a rendered history
      replaces the ring only while it is still the one rendered; a cut of the ring never loses the
      alternate-screen state.
    - Pane session: the drain loses no wake, terminates, and ships what was appended, in order, each frame
      cut to the cap and the credit window of the environment its take read; every
      member hears its screen and then every frame since, once and in order, however the threads
      interleave, as long as joins come one after the other, and not when they overlap; retention waits
      for every member though a floor is computed under one lock and applied under another; a join
      leaves no gap between the screen it was given and the stream; an eviction dooms exactly the
      laggards.
    - Sizes and stays: the folded size is the smallest credited offer and the terminal settles at it, with
      the runs in which it does not; every stay of a detached pane ends once, its timers are exact when
      calls do not overlap, and a cancel that comes late can hit the next stay.
    - Workspace: diffs are exact and survive the wire; a restart shows every arranged pane dead and no
      other; the ladder is the one that keeps its payloads in place, for fewer than 2^32 - 1 calls; a
      replica only ever holds a document the host had, under any link, restart and interleaving; over an
      honest link it ends at the host's document under every fair schedule, and in a bounded number of
      steps under the one that delivers first, unless an offer falls between the pump's look and its
      claim, which loses it, while an unfair schedule can spin the pump for ever; a request with no
      subscriber is dropped, and every other intent that decodes is answered with the applier's verdict;
      what any payload of the channel decodes to is bounded; the disk ends with the last save under four
      conditions on writes, threads and flushes, with a run that loses a save for each.
    - Arrangement: the tree's operations change exactly the panes they say and keep its shape; the repairs
      of a loaded file end in a well-formed workspace and leave one alone; every operation keeps the
      workspace well formed and loses, repeats or invents no pane, given identities that are new; a solved
      layout frames every pane above its floor; the re-tilings keep the panes and their order; a repair
      spends no more identities than it announced; the sidebar's order is that of its headers, and a
      close moves to a tab of the same project while one is left.
    - Intents: the arguments of every op survive the wire and a peer's bytes decode within the limits or
      not at all; the arrangement survives the document cell by cell; whatever a client asks, the host keeps
      a whole workspace in which every pane is accounted for, the reopen ring apart from it; the document
      becomes the write of the new arrangement, and what the replica shows meanwhile is that write; the
      shells killed are those of the tabs' panes only, so a detached pane loses its shell when it is
      detached and keeps it when it is closed.  The bootstrap upload is the exception: it is checked for
      its spec table and its depth only.
    - Erasure code: the tables form the field, elimination inverts exactly the invertible, any [k]
      survivors decode, a frame with losses within its budget comes back byte for byte, and hostile
      parity changes nothing but holes.
    - Video path: of the fragments of a frame, exactly the sets with enough parity complete it, whatever
      their order and repetition, and with exactly its bytes; each frame of a session gets one verdict
      and is asked for again at most once; the constant-time completeness decision is the scan it
      stands for, even on hostile fragments; what the client holds is bounded; a retransmit answered
      from the history heals the frame.  One frame escapes the sweep: one whose parity does not decode.

    ** Fuel and bounds

    Loops that consume input carry fuel: the drains run with one unit more than the bytes buffered, and
    each turn consumes at least the four prefix bytes, so the fuel is never what stops them
    ([Framing.drain_refines] and [SubChannel.drain_settles] say so). The scanner of [AltScreen] runs with
    the length of what it scans ([AltScreen.scan_enough]); recovery runs with one unit more than the
    fragments of the frame, and more fuel changes nothing ([Fec.recover_loop_only]); the eviction of
    [RetransmitRing] runs with one unit more than the frames it holds. [usize] is 64 bits wide; the drain
    thread needs none, its steps are bounded by [Outbox.potential], and the honest link of [Converge] comes
    to rest within [Converge.toil] steps of the schedule that delivers and acknowledges first; a reconciler that is kicked runs once more for each kick
    ([HostDoc.reconcile_now]); matrix and fragment indices, far
    below that bound, are [nat].

    ** Not modelled

    Sockets, threads and locks as such: a method that runs under a lock is one step, a condition variable
    is a step that is not enabled, and the two receive threads are interleavings of steps. In [Session]
    the reader of the pty, the input path with its gate, the composition of snapshots, the control messages a join re-asserts and the latches of the teardown ladder are left out; a member's
    control batch goes out in one step, a thread that is to be spawned always is, what follows a join's
    admission in its own thread is a thread of its own, and the wait for an exit's delivery, which only
    bounds a delay, is not a step. Instants are integers. Of the workspace the applier of intents and the
    projection of the topology are arguments of [HostDoc], and [HostIntent] gives it the modelled ones; the
    bootstrap upload is accepted as it is decoded, so [HandlerLaws] leaves it out and [HostIntent] says what
    little of it is checked; the JSON text
    of the state file and the client's own channel code are left out; split weights are the bits of their doubles. Of the layout the
    percent labels of a drag are left out, and the table of the Unicode lower case is an argument of the tab
    order. Allocation failure is not
    modelled. Of the video path the floating-
    point loss ladder of [adaptive_fec.rs] is left out, and sorting by wrapping distance is an insertion
    sort where that comparison is no total order, for which the standard library promises nothing. The
    rest of the program is listed with the reasons in the manifest beside this directory. *)

From Stdlib Require Export ZArith Lia.
From Stdlib Require Import Strings.Byte.
From stdpp Require Export base tactics option list.
From stdpp Require Export strings.

Declare Scope slop_scope.
Delimit Scope slop_scope with slop.
#[global] Open Scope slop_scope.
#[global] Open Scope Z_scope.

(** ** Fallible computations: Rust's [Result] *)

Inductive result (E A : Type) : Type :=
| Ok (a : A)
| Err (e : E).
Arguments Ok {E A} a.
Arguments Err {E A} e.

#[export] Instance result_ret {E} : MRet (result E) := fun _ a => Ok a.
#[export] Instance result_bind {E} : MBind (result E) :=
  fun _ _ k m => match m with Ok a => k a | Err e => Err e end.

(** [Result::map_err] and [Option::ok_or]. *)
Definition map_err {E F A} (f : E -> F) (m : result E A) : result F A :=
  match m with Ok a => Ok a | Err e => Err (f e) end.
Definition ok_or {E A} (o : option A) (e : E) : result E A :=
  match o with Some a => Ok a | None => Err e end.

#[export] Instance result_eq_dec {E A} `{EqDecision E, EqDecision A} :
  EqDecision (result E A).
Proof. solve_decision. Defined.

(** ** Bytes *)

Abbreviation byte := Byte.byte.

#[export] Instance byte_eq_dec : EqDecision byte := Byte.byte_eq_dec.

Definition byte_to_Z (b : byte) : Z := Z.of_N (Byte.to_N b).
Definition byte_of_Z (z : Z) : byte :=
  default Byte.x00 (Byte.of_N (Z.to_N (z mod 256))).

Lemma byte_to_Z_range b : 0 <= byte_to_Z b < 256.
Proof.
  unfold byte_to_Z. pose proof (Byte.to_N_bounded b). lia.
Qed.

Lemma byte_of_Z_to_Z b : byte_of_Z (byte_to_Z b) = b.
Proof.
  unfold byte_of_Z. rewrite Z.mod_small by apply byte_to_Z_range.
  unfold byte_to_Z. by rewrite N2Z.id, Byte.of_to_N.
Qed.

Lemma byte_to_Z_of_Z z : byte_to_Z (byte_of_Z z) = z mod 256.
Proof.
  unfold byte_of_Z, byte_to_Z.
  pose proof (Z.mod_pos_bound z 256 ltac:(lia)) as Hr.
  destruct (Byte.of_N (Z.to_N (z mod 256))) as [b|] eqn:E; simpl.
  - apply Byte.to_of_N in E. rewrite E. lia.
  - apply Byte.of_N_None_iff in E. lia.
Qed.

Lemma byte_to_Z_inj b c : byte_to_Z b = byte_to_Z c -> b = c.
Proof.
  intros H. rewrite <- (byte_of_Z_to_Z b), <- (byte_of_Z_to_Z c). by f_equal.
Qed.

Lemma byte_to_Z_of_Z_small z : 0 <= z < 256 -> byte_to_Z (byte_of_Z z) = z.
Proof. intros. rewrite byte_to_Z_of_Z. by apply Z.mod_small. Qed.

(** Exhaustive checks over the 256 bytes. *)
Definition all_bytes : list byte := map (fun n => byte_of_Z (Z.of_nat n)) (seq 0 256).

Lemma all_bytes_complete b : In b all_bytes.
Proof.
  unfold all_bytes. apply in_map_iff. exists (Z.to_nat (byte_to_Z b)).
  pose proof (byte_to_Z_range b). split.
  - rewrite Z2Nat.id by lia. apply byte_of_Z_to_Z.
  - apply in_seq. lia.
Qed.

Lemma forallb_all_bytes (P : byte -> bool) :
  forallb P all_bytes = true -> forall b, P b = true.
Proof. rewrite forallb_forall. auto using all_bytes_complete. Qed.

(** ** Machine integers, at their width *)

Definition usize_max : Z := 2 ^ 64 - 1.
Definition i64_max : Z := 2 ^ 63 - 1.
Definition i64_min : Z := - 2 ^ 63.
Definition u32_max : Z := 2 ^ 32 - 1.

Definition saturating_add_usize (a b : Z) : Z := Z.min (a + b) usize_max.
Definition saturating_sub_usize (a b : Z) : Z := Z.max (a - b) 0.
Definition checked_add_usize (a b : Z) : option Z :=
  if a + b <=? usize_max then Some (a + b) else None.

(** [i64::saturating_add]. *)
Definition saturating_add_i64 (a b : Z) : Z := Z.max i64_min (Z.min (a + b) i64_max).

(** [u64::wrapping_add], of the exact sum. *)
Definition wrap64 (z : Z) : Z := z mod 2 ^ 64.

(** Two's-complement reinterpretation at width [w]: [cast_unsigned], [cast_signed]. *)
Definition cast_unsigned (w v : Z) : Z := v mod 2 ^ w.
Definition cast_signed (w v : Z) : Z := if v <? 2 ^ (w - 1) then v else v - 2 ^ w.

Definition u_range (w v : Z) : Prop := 0 <= v < 2 ^ w.
Definition i_range (w v : Z) : Prop := - 2 ^ (w - 1) <= v < 2 ^ (w - 1).

Lemma cast_signed_unsigned w v :
  0 < w -> i_range w v -> cast_signed w (cast_unsigned w v) = v.
Proof.
  unfold i_range, cast_signed, cast_unsigned. intros Hw [Hlo Hhi].
  assert (E : 2 ^ w = 2 * 2 ^ (w - 1)).
  { rewrite <- Z.pow_succ_r by lia. f_equal. lia. }
  destruct (Z.ltb_spec v 0).
  - replace (v mod 2 ^ w) with (v + 2 ^ w).
    + destruct (Z.ltb_spec (v + 2 ^ w) (2 ^ (w - 1))); lia.
    + apply (Z.mod_unique _ _ (-1)); lia.
  - rewrite Z.mod_small by lia. destruct (Z.ltb_spec v (2 ^ (w - 1))); lia.
Qed.

Lemma cast_unsigned_range w v : 0 <= w -> u_range w (cast_unsigned w v).
Proof. intros. apply Z.mod_pos_bound. lia. Qed.

Lemma cast_signed_range w v : 0 < w -> u_range w v -> i_range w (cast_signed w v).
Proof.
  unfold u_range, i_range, cast_signed. intros Hw [Hlo Hhi].
  assert (E : 2 ^ w = 2 * 2 ^ (w - 1)).
  { rewrite <- Z.pow_succ_r by lia. f_equal. lia. }
  destruct (Z.ltb_spec v (2 ^ (w - 1))); lia.
Qed.

(** [usize::div_ceil], on counts small enough to be [nat]. *)
Definition div_ceil (a b : nat) : nat := ((a + b - 1) / b)%nat.

Lemma div_ceil_spec a b : (0 < b)%nat -> (a <= div_ceil a b * b)%nat /\ (div_ceil a b * b < a + b)%nat.
Proof.
  intros Hb. unfold div_ceil. pose proof (Nat.div_mod_eq (a + b - 1) b).
  pose proof (Nat.mod_upper_bound (a + b - 1) b ltac:(lia)). nia.
Qed.

Lemma div_ceil_unique a b q : (0 < b)%nat -> (a <= q * b)%nat -> (q * b < a + b)%nat -> div_ceil a b = q.
Proof. intros Hb H1 H2. destruct (div_ceil_spec a b Hb). nia. Qed.

Lemma div_ceil_mono a a' b : (0 < b)%nat -> (a <= a')%nat -> (div_ceil a b <= div_ceil a' b)%nat.
Proof. intros Hb Ha. unfold div_ceil. apply Nat.Div0.div_le_mono. lia. Qed.

(** ** Big-endian integers over byte lists *)

Fixpoint to_be_bytes (n : nat) (v : Z) : list byte :=
  match n with
  | O => []
  | S n' => byte_of_Z (Z.shiftr v (8 * Z.of_nat n')) :: to_be_bytes n' v
  end.

Definition from_be_bytes (bs : list byte) : Z :=
  foldl (fun acc b => acc * 256 + byte_to_Z b) 0 bs.

Lemma length_to_be_bytes n v : length (to_be_bytes n v) = n.
Proof. induction n; simpl; auto. Qed.

Lemma foldl_be_acc bs acc :
  foldl (fun acc b => acc * 256 + byte_to_Z b) acc bs
  = acc * 256 ^ Z.of_nat (length bs) + from_be_bytes bs.
Proof.
  unfold from_be_bytes. revert acc.
  induction bs as [|b bs IH]; intros acc; cbn [foldl length].
  - change (Z.of_nat 0) with 0. lia.
  - rewrite IH, (IH (0 * 256 + _)), Nat2Z.inj_succ, Z.pow_succ_r by lia. lia.
Qed.

Lemma from_be_bytes_cons b bs :
  from_be_bytes (b :: bs) = byte_to_Z b * 256 ^ Z.of_nat (length bs) + from_be_bytes bs.
Proof. unfold from_be_bytes at 1. cbn [foldl]. rewrite foldl_be_acc. lia. Qed.

Lemma from_be_bytes_range bs : 0 <= from_be_bytes bs < 256 ^ Z.of_nat (length bs).
Proof.
  induction bs as [|b bs IH].
  - cbn. lia.
  - rewrite from_be_bytes_cons. cbn [length].
    rewrite Nat2Z.inj_succ, Z.pow_succ_r by lia.
    pose proof (byte_to_Z_range b). nia.
Qed.

Lemma from_to_be_bytes n v :
  from_be_bytes (to_be_bytes n v) = v mod 256 ^ Z.of_nat n.
Proof.
  induction n as [|n IH]; cbn [to_be_bytes].
  - cbn. by rewrite Z.mod_1_r.
  - rewrite from_be_bytes_cons, length_to_be_bytes, IH, byte_to_Z_of_Z.
    rewrite Z.shiftr_div_pow2 by lia.
    replace (2 ^ (8 * Z.of_nat n)) with (256 ^ Z.of_nat n)
      by (rewrite Z.pow_mul_r by lia; reflexivity).
    rewrite Nat2Z.inj_succ, Z.pow_succ_r by lia.
    rewrite (Z.mul_comm 256), Z.rem_mul_r by lia. lia.
Qed.

Lemma from_to_be_bytes_small n v :
  0 <= v < 256 ^ Z.of_nat n -> from_be_bytes (to_be_bytes n v) = v.
Proof. intros. rewrite from_to_be_bytes. by apply Z.mod_small. Qed.

(** Adding a multiple of [256 ^ m] does not change the low [m] bytes. *)
Lemma to_be_bytes_high m k v j :
  (j <= m)%nat -> to_be_bytes j (k * 256 ^ Z.of_nat m + v) = to_be_bytes j v.
Proof.
  induction j as [|j IHj]; intros Hj; cbn [to_be_bytes]; [done|].
  f_equal; [|apply IHj; lia].
  apply byte_to_Z_inj. rewrite !byte_to_Z_of_Z, !Z.shiftr_div_pow2 by lia.
  replace (2 ^ (8 * Z.of_nat j)) with (256 ^ Z.of_nat j)
    by (rewrite Z.pow_mul_r by lia; reflexivity).
  replace (Z.of_nat m) with (Z.of_nat j + Z.succ (Z.of_nat (m - j - 1))) by lia.
  rewrite Z.pow_add_r, Z.pow_succ_r by lia.
  replace (k * (256 ^ Z.of_nat j * (256 * 256 ^ Z.of_nat (m - j - 1))) + v)
    with (k * 256 * 256 ^ Z.of_nat (m - j - 1) * 256 ^ Z.of_nat j + v) by lia.
  rewrite Z.div_add_l by lia.
  replace (k * 256 * 256 ^ Z.of_nat (m - j - 1) + v / 256 ^ Z.of_nat j)
    with (v / 256 ^ Z.of_nat j + (k * 256 ^ Z.of_nat (m - j - 1)) * 256) by lia.
  apply Z.mod_add. lia.
Qed.

Lemma to_from_be_bytes bs : to_be_bytes (length bs) (from_be_bytes bs) = bs.
Proof.
  induction bs as [|b bs IH]; cbn [length to_be_bytes]; [done|].
  rewrite from_be_bytes_cons, to_be_bytes_high, IH by lia. f_equal.
  rewrite Z.shiftr_div_pow2 by lia.
  replace (2 ^ (8 * Z.of_nat (length bs))) with (256 ^ Z.of_nat (length bs))
    by (rewrite Z.pow_mul_r by lia; reflexivity).
  pose proof (from_be_bytes_range bs).
  rewrite Z.div_add_l, Z.div_small by lia.
  rewrite Z.add_0_r. apply byte_of_Z_to_Z.
Qed.

(** ** Slices: [slice::get] by a [usize] index or range *)

(** Lengths are [usize] values, kept in [Z]. *)
Abbreviation zlen l := (Z.of_nat (length l)).

Section Slices.
Context {A : Type}.
Implicit Types l bs : list A.

(** [l.get(i)] *)
Definition get (l : list A) (i : Z) : option A :=
  if (0 <=? i) && (i <? zlen l) then l !! Z.to_nat i else None.

(** [l.get(a..b)] *)
Definition get_range (l : list A) (a b : Z) : option (list A) :=
  if (0 <=? a) && (a <=? b) && (b <=? zlen l)
  then Some (take (Z.to_nat (b - a)) (drop (Z.to_nat a) l))
  else None.

(** [l.get(a..)] *)
Definition get_from (l : list A) (a : Z) : option (list A) := get_range l a (zlen l).

(** [slot.copy_from_slice(bs)] where [slot = l[a..a + bs.len()]] *)
Definition overwrite (l : list A) (a : Z) (bs : list A) : list A :=
  take (Z.to_nat a) l ++ bs ++ drop (Z.to_nat a + length bs) l.

Lemma get_app_r l1 x l2 : get (l1 ++ x :: l2) (zlen l1) = Some x.
Proof.
  unfold get. rewrite length_app. cbn [length].
  destruct (Z.ltb_spec (zlen l1) (Z.of_nat (length l1 + S (length l2)))); [|lia].
  destruct (Z.leb_spec 0 (zlen l1)); [|lia]. simpl.
  by rewrite Nat2Z.id, lookup_app_r, Nat.sub_diag by lia.
Qed.

Lemma get_range_Some l a b :
  0 <= a <= b -> b <= zlen l ->
  get_range l a b = Some (take (Z.to_nat (b - a)) (drop (Z.to_nat a) l)).
Proof.
  intros. unfold get_range.
  destruct (Z.leb_spec 0 a), (Z.leb_spec a b), (Z.leb_spec b (zlen l)); try lia.
  done.
Qed.

Lemma get_range_app l1 l2 l3 a b :
  a = zlen l1 -> b = a + zlen l2 -> get_range (l1 ++ l2 ++ l3) a b = Some l2.
Proof.
  intros -> ->. rewrite get_range_Some by (rewrite ?length_app; lia).
  f_equal. rewrite Nat2Z.id, drop_app_length.
  replace (Z.to_nat _) with (length l2) by lia. by rewrite take_app_length.
Qed.

Lemma get_range_length l a b bs : get_range l a b = Some bs -> zlen bs = b - a.
Proof.
  unfold get_range. intros H.
  destruct (Z.leb_spec 0 a), (Z.leb_spec a b), (Z.leb_spec b (zlen l));
    simplify_eq/=. rewrite length_take, length_drop. lia.
Qed.

Lemma get_range_inv l a b bs :
  get_range l a b = Some bs -> 0 <= a <= b /\ b <= zlen l /\
  exists l1 l3, l = l1 ++ bs ++ l3 /\ zlen l1 = a.
Proof.
  unfold get_range. intros H.
  destruct (Z.leb_spec 0 a), (Z.leb_spec a b), (Z.leb_spec b (zlen l));
    simplify_eq/=. repeat split; try lia.
  exists (take (Z.to_nat a) l), (drop (Z.to_nat (b - a)) (drop (Z.to_nat a) l)).
  rewrite !take_drop. split; [done|]. rewrite length_take. lia.
Qed.

Lemma length_overwrite l a bs :
  0 <= a -> a + zlen bs <= zlen l -> length (overwrite l a bs) = length l.
Proof.
  intros. unfold overwrite. rewrite !length_app, length_take, length_drop. lia.
Qed.

Lemma overwrite_app l1 l2 l3 a bs :
  a = zlen l1 -> length l2 = length bs ->
  overwrite (l1 ++ l2 ++ l3) a bs = l1 ++ bs ++ l3.
Proof.
  intros -> Hl. unfold overwrite. rewrite Nat2Z.id, take_app_length.
  f_equal. f_equal. rewrite <- Hl, <- length_app, app_assoc.
  by rewrite drop_app_length.
Qed.
End Slices.

(** ** Filters that keep everything, or nothing *)

Lemma filter_all {A} (P : A -> Prop) `{!forall x, Decision (P x)} (l : list A) :
  (forall x, x ∈ l -> P x) -> filter P l = l.
Proof.
  induction l as [|x l IH]; intros Hall; [done|]. rewrite filter_cons_True by (apply Hall; left).
  f_equal. apply IH. intros; apply Hall; by right.
Qed.

Lemma filter_none {A} (P : A -> Prop) `{!forall x, Decision (P x)} (l : list A) :
  (forall x, x ∈ l -> ~ P x) -> filter P l = [].
Proof.
  induction l as [|x l IH]; intros Hall; [done|]. rewrite filter_cons_False by (apply Hall; left).
  apply IH. intros; apply Hall; by right.
Qed.

Lemma filter_full {A} (P : A -> Prop) `{!forall x, Decision (P x)} (l : list A) :
  length (filter P l) = length l -> forall x, x ∈ l -> P x.
Proof.
  induction l as [|y l IH]; intros Hl x Hx; [by apply elem_of_nil in Hx|].
  pose proof (length_filter P l). rewrite filter_cons in Hl. destruct (decide (P y)); cbn [length] in Hl; [|lia].
  apply elem_of_cons in Hx as [->|Hx]; [done|]. apply IH; [lia|done].
Qed.

(** [Range<usize>] *)
Record Range : Type := mkRange { r_start : Z; r_end : Z }.

#[export] Instance range_eq_dec : EqDecision Range.
Proof. solve_decision. Defined.

(** ** A list of threads, each the steps it still has to take *)

Lemma concat_thread {A} (l : list (list A)) i x rest :
  l !! i = Some (x :: rest) ->
  exists others, concat l ≡ₚ x :: rest ++ others /\ forall t, concat (<[i := t]> l) ≡ₚ t ++ others.
Proof.
  intros Hi. exists (concat (take i l) ++ concat (drop (S i) l)). split.
  - rewrite <- (take_drop_middle l i _ Hi) at 1. rewrite concat_app. cbn [concat app]. solve_Permutation.
  - intros t. assert (Hlen : (i < length l)%nat) by (by apply lookup_lt_Some in Hi).
    rewrite insert_take_drop by done. rewrite concat_app. cbn [concat]. solve_Permutation.
Qed.

(** ** Automation shared by the components *)

Create HintDb slop discriminated.
Create Rewrite HintDb slop_len.
Create Rewrite HintDb slop_assoc.
#[export] Hint Resolve byte_to_Z_range cast_unsigned_range : slop.
#[export] Hint Rewrite @length_app @length_to_be_bytes @length_take @length_drop @length_cons
  @length_replicate : slop_len.
#[export] Hint Rewrite <- @app_assoc : slop_assoc.

(** Destruct every comparison a boolean guard of the goal is made of. *)
Ltac case_Z :=
  repeat match goal with
  | |- context [Z.leb ?a ?b] => destruct (Z.leb_spec a b)
  | |- context [Z.ltb ?a ?b] => destruct (Z.ltb_spec a b)
  | |- context [Z.eqb ?a ?b] => destruct (Z.eqb_spec a b)
  end.

(** The same for the hypotheses. *)
Ltac case_Z_in H :=
  repeat match type of H with
  | context [Z.leb ?a ?b] => destruct (Z.leb_spec a b)
  | context [Z.ltb ?a ?b] => destruct (Z.ltb_spec a b)
  | context [Z.eqb ?a ?b] => destruct (Z.eqb_spec a b)
  end.

(** Normalise lengths, then solve by linear arithmetic. *)
Ltac len_lia := autorewrite with slop_len in *; cbn [length] in *; lia.
