(* ===== verification/BTree.v ===== *)
(** * BTree: ordered maps

    A [BTreeMap] of the code is a finite map, and what the code sees of its order is the order of
    iteration: [btree_by] walks a map by ascending key, for the order of the keys it is given.  It
    models no file of the program; the components that iterate over a tree share it. *)

From stdpp Require Import gmap sorting.
From S2P Require Import Prelude.

Section Iter.
Context {K : Type} `{Countable K} (le : relation K) `{!RelDecision le}.

Definition key_le {A} (a b : K * A) : Prop := le a.1 b.1.
#[export] Instance key_le_dec {A} : RelDecision (@key_le A) := fun a b => decide (le a.1 b.1).

Definition btree_by {A} (m : gmap K A) : list (K * A) := merge_sort key_le (map_to_list m).

Lemma btree_by_perm {A} (m : gmap K A) : btree_by m ≡ₚ map_to_list m.
Proof. apply merge_sort_Permutation. Qed.

Lemma elem_of_btree_by {A} (m : gmap K A) k x : (k, x) ∈ btree_by m <-> m !! k = Some x.
Proof. by rewrite btree_by_perm, elem_of_map_to_list. Qed.

Lemma btree_by_keys {A} (m : gmap K A) : NoDup (btree_by m).*1.
Proof. rewrite btree_by_perm. apply NoDup_fst_map_to_list. Qed.

Lemma length_btree_by {A} (m : gmap K A) : length (btree_by m) = size m.
Proof. rewrite btree_by_perm. apply length_map_to_list. Qed.

Lemma btree_by_empty {A} : btree_by (∅ : gmap K A) = [].
Proof. unfold btree_by. by rewrite map_to_list_empty. Qed.

Lemma btree_by_nil {A} (m : gmap K A) : btree_by m = [] <-> m = ∅.
Proof.
  split; [|intros ->; apply btree_by_empty]. intros E. apply map_size_empty_inv.
  by rewrite <- length_btree_by, E.
Qed.

(** The keys and the values in key order, as [keys()] and [values()] give them. *)
Definition keys_by {A} (m : gmap K A) : list K := (btree_by m).*1.
Definition values_by {A} (m : gmap K A) : list A := (btree_by m).*2.

Lemma elem_of_keys_by {A} (m : gmap K A) k : k ∈ keys_by m <-> is_Some (m !! k).
Proof.
  unfold keys_by. rewrite list_elem_of_fmap. split.
  - intros ([k' x] & -> & Hin). apply elem_of_btree_by in Hin. by exists x.
  - intros [x Hx]. exists (k, x). by rewrite elem_of_btree_by.
Qed.

Lemma elem_of_values_by {A} (m : gmap K A) x : x ∈ values_by m <-> exists k, m !! k = Some x.
Proof.
  unfold values_by. rewrite list_elem_of_fmap. split.
  - intros ([k y] & -> & Hin). exists k. by apply elem_of_btree_by.
  - intros [k Hk]. exists (k, x). by rewrite elem_of_btree_by.
Qed.

Lemma btree_by_sorted {A} (m : gmap K A) : Total le -> Sorted (@key_le A) (btree_by m).
Proof. intros Ht. apply Sorted_merge_sort. intros a b. apply Ht. Qed.
End Iter.

(** Integer keys. *)
Definition btree_iter {A} (m : gmap Z A) : list (Z * A) := btree_by Z.le m.

(** [Iterator::min] and [Iterator::max] of integers. *)
Definition iter_min (l : list Z) : option Z :=
  match l with [] => None | x :: l => Some (foldl Z.min x l) end.
Definition iter_max (l : list Z) : option Z :=
  match l with [] => None | x :: l => Some (foldl Z.max x l) end.

Lemma foldl_min_spec l : forall x,
  (foldl Z.min x l = x \/ foldl Z.min x l ∈ l) /\ foldl Z.min x l <= x /\ forall y, y ∈ l -> foldl Z.min x l <= y.
Proof.
  induction l as [|z l IH]; intros x; cbn [foldl].
  - split_and!; [by left|lia|by intros y ?%elem_of_nil].
  - destruct (IH (Z.min x z)) as ([E|E] & Hle & Hall); split_and!; try lia.
    + destruct (Z.min_dec x z) as [M|M]; rewrite E, M; [by left|right; left].
    + intros y [->|Hy]%elem_of_cons; [lia|auto].
    + right; by right.
    + intros y [->|Hy]%elem_of_cons; [lia|auto].
Qed.

Lemma foldl_max_spec l : forall x,
  (foldl Z.max x l = x \/ foldl Z.max x l ∈ l) /\ x <= foldl Z.max x l /\ forall y, y ∈ l -> y <= foldl Z.max x l.
Proof.
  induction l as [|z l IH]; intros x; cbn [foldl].
  - split_and!; [by left|lia|by intros y ?%elem_of_nil].
  - destruct (IH (Z.max x z)) as ([E|E] & Hle & Hall); split_and!; try lia.
    + destruct (Z.max_dec x z) as [M|M]; rewrite E, M; [by left|right; left].
    + intros y [->|Hy]%elem_of_cons; [lia|auto].
    + right; by right.
    + intros y [->|Hy]%elem_of_cons; [lia|auto].
Qed.

Lemma iter_min_spec l m :
  iter_min l = Some m <-> m ∈ l /\ forall y, y ∈ l -> m <= y.
Proof.
  destruct l as [|x l]; cbn.
  - split; [done|]. by intros [?%elem_of_nil _].
  - destruct (foldl_min_spec l x) as (Hin & Hx & Hall).
    assert (Hm : foldl Z.min x l ∈ x :: l) by (destruct Hin as [->|]; [left|by right]).
    assert (Hl : forall y, y ∈ x :: l -> foldl Z.min x l <= y) by (intros y [->|]%elem_of_cons; auto).
    split.
    + by intros [= <-].
    + intros [H1 H2]. f_equal. apply Z.le_antisymm; auto.
Qed.

Lemma iter_max_spec l m :
  iter_max l = Some m <-> m ∈ l /\ forall y, y ∈ l -> y <= m.
Proof.
  destruct l as [|x l]; cbn.
  - split; [done|]. by intros [?%elem_of_nil _].
  - destruct (foldl_max_spec l x) as (Hin & Hx & Hall).
    assert (Hm : foldl Z.max x l ∈ x :: l) by (destruct Hin as [->|]; [left|by right]).
    assert (Hl : forall y, y ∈ x :: l -> y <= foldl Z.max x l) by (intros y [->|]%elem_of_cons; auto).
    split.
    + by intros [= <-].
    + intros [H1 H2]. f_equal. apply Z.le_antisymm; auto.
Qed.

Lemma iter_min_none l : iter_min l = None <-> l = [].
Proof. by destruct l. Qed.
Lemma iter_max_none l : iter_max l = None <-> l = [].
Proof. by destruct l. Qed.
