(* ===== verification/Bytes.v ===== *)
(** * Bytes: the big-endian writer and reader of the terminal wire

    Models [slopdesk-wire/src/bytes.rs] and [slopdesk-wire/src/error.rs]: the fault type, the
    clamp of a string to a length field at a [char] boundary, [ByteWriter] over an owned or a lent
    buffer, and [ByteReader] with every fallible read.  A Rust [str] is the list of its bytes;
    [utf8_valid] is the check [core::str::from_utf8] performs. *)

From S2P Require Import Prelude.

(** ** [error.rs] *)

Inductive WireError : Type :=
| FrameTooLarge (claimed : Z)
| Truncated
| UnknownMessageType (type_byte : byte)
| MalformedBody (hint : string).

#[export] Instance wire_error_eq_dec : EqDecision WireError.
Proof. solve_decision. Defined.

Definition malformed (hint : string) : WireError := MalformedBody hint.

Abbreviation wresult := (result WireError).

(** ** Strict UTF-8 *)

(** Is the byte in the (inclusive) range, by value? *)
Definition byte_in (lo hi : Z) (b : byte) : bool :=
  (lo <=? byte_to_Z b) && (byte_to_Z b <=? hi).

(** The well-formed sequences of two, three and four bytes (Unicode table 3-7). *)
Definition utf8_2 (b0 b1 : byte) : bool :=
  byte_in 0xC2 0xDF b0 && byte_in 0x80 0xBF b1.
Definition utf8_3 (b0 b1 b2 : byte) : bool :=
  ((byte_in 0xE0 0xE0 b0 && byte_in 0xA0 0xBF b1)
   || (byte_in 0xE1 0xEC b0 && byte_in 0x80 0xBF b1)
   || (byte_in 0xED 0xED b0 && byte_in 0x80 0x9F b1)
   || (byte_in 0xEE 0xEF b0 && byte_in 0x80 0xBF b1))
  && byte_in 0x80 0xBF b2.
Definition utf8_4 (b0 b1 b2 b3 : byte) : bool :=
  ((byte_in 0xF0 0xF0 b0 && byte_in 0x90 0xBF b1)
   || (byte_in 0xF1 0xF3 b0 && byte_in 0x80 0xBF b1)
   || (byte_in 0xF4 0xF4 b0 && byte_in 0x80 0x8F b1))
  && byte_in 0x80 0xBF b2 && byte_in 0x80 0xBF b3.

(** The [char]s of a byte string, each as its UTF-8 encoding: [str::char_indices] without the
    indices; [None] when the bytes are not UTF-8. *)
Fixpoint utf8_chars (l : list byte) : option (list (list byte)) :=
  match l with
  | [] => Some []
  | b0 :: l1 =>
    if byte_in 0 0x7F b0 then option_map (cons [b0]) (utf8_chars l1) else
    match l1 with
    | [] => None
    | b1 :: l2 =>
      if utf8_2 b0 b1 then option_map (cons [b0; b1]) (utf8_chars l2) else
      match l2 with
      | [] => None
      | b2 :: l3 =>
        if utf8_3 b0 b1 b2 then option_map (cons [b0; b1; b2]) (utf8_chars l3) else
        match l3 with
        | [] => None
        | b3 :: l4 =>
          if utf8_4 b0 b1 b2 b3
          then option_map (cons [b0; b1; b2; b3]) (utf8_chars l4) else None
        end
      end
    end
  end.

Definition utf8_valid (l : list byte) : bool :=
  match utf8_chars l with Some _ => true | None => false end.

(** [utf8]: the strict decode, naming the field in the fault. *)
Definition utf8 (bytes : list byte) (field : string) : wresult (list byte) :=
  if utf8_valid bytes then Ok bytes
  else Err (malformed (field +:+ ": invalid UTF-8")).

(** ** Clamping a string to a length field *)

Definition MAX_LENGTH_PREFIXED_BYTES : Z := 65535.

(** The loop of [clamp_utf8] over [value.char_indices()]. *)
Fixpoint clamp_loop (chars : list (list byte)) (index e max_bytes : Z) : Z :=
  match chars with
  | [] => e
  | ch :: rest =>
    let next := index + zlen ch in
    if max_bytes <? next then e else clamp_loop rest next next max_bytes
  end.

Definition clamp_utf8 (value : list byte) (max_bytes : Z) : list byte :=
  if zlen value <=? max_bytes then value else
  let e := clamp_loop (default [] (utf8_chars value)) 0 0 max_bytes in
  default value (get_range value 0 e).

Definition clamp_u16_field (value : list byte) : list byte :=
  clamp_utf8 value MAX_LENGTH_PREFIXED_BYTES.

Definition truncating_u16 (value : Z) : Z := Z.land value 0xFFFF.

(** ** [ByteWriter] *)

Inductive Sink : Type :=
| Owned (buf : list byte)
| Borrowed (buf : list byte) (len : Z).

Record ByteWriter : Type := mkWriter { sink : Sink }.

Definition writer_new : ByteWriter := mkWriter (Owned []).
(** [with_capacity] only pre-sizes the allocation. *)
Definition writer_with_capacity (capacity : Z) : ByteWriter := mkWriter (Owned []).
Definition writer_borrowing (buf : list byte) : ByteWriter := mkWriter (Borrowed buf 0).

Definition put_slice (w : ByteWriter) (bytes : list byte) : ByteWriter :=
  match sink w with
  | Owned buf => mkWriter (Owned (buf ++ bytes))
  | Borrowed buf len =>
    let e := saturating_add_usize len (zlen bytes) in
    let buf' := match get_range buf len e with
                | Some _ => overwrite buf len bytes
                | None => buf
                end in
    mkWriter (Borrowed buf' e)
  end.

Definition put_u8 (w : ByteWriter) (v : byte) : ByteWriter := put_slice w [v].
Definition put_bool (w : ByteWriter) (v : bool) : ByteWriter :=
  put_slice w [byte_of_Z (if v then 1 else 0)].
Definition put_u16 (w : ByteWriter) (v : Z) : ByteWriter := put_slice w (to_be_bytes 2 v).
Definition put_u32 (w : ByteWriter) (v : Z) : ByteWriter := put_slice w (to_be_bytes 4 v).
Definition put_u64 (w : ByteWriter) (v : Z) : ByteWriter := put_slice w (to_be_bytes 8 v).
Definition put_i32 (w : ByteWriter) (v : Z) : ByteWriter := put_u32 w (cast_unsigned 32 v).
Definition put_i64 (w : ByteWriter) (v : Z) : ByteWriter := put_u64 w (cast_unsigned 64 v).
Definition put_bytes (w : ByteWriter) (bytes : list byte) : ByteWriter := put_slice w bytes.

(** [u16::try_from(len).unwrap_or(u16::MAX)] *)
Definition u16_try_from_or_max (v : Z) : Z := if v <=? 65535 then v else 65535.

Definition put_length_prefixed_str (w : ByteWriter) (value : list byte) : ByteWriter :=
  let bytes := clamp_u16_field value in
  put_bytes (put_u16 w (u16_try_from_or_max (zlen bytes))) bytes.

Definition writer_len (w : ByteWriter) : Z :=
  match sink w with Owned buf => zlen buf | Borrowed _ len => len end.
Definition writer_is_empty (w : ByteWriter) : bool := writer_len w =? 0.

Definition as_slice (w : ByteWriter) : list byte :=
  match sink w with
  | Owned buf => buf
  | Borrowed buf len => default buf (get_range buf 0 len)
  end.

Definition patch_u32 (w : ByteWriter) (offset value : Z) : ByteWriter :=
  let e := saturating_add_usize offset 4 in
  let patched buf := match get_range buf offset e with
                     | Some _ => overwrite buf offset (to_be_bytes 4 value)
                     | None => buf
                     end in
  match sink w with
  | Owned buf => mkWriter (Owned (patched buf))
  | Borrowed buf len => mkWriter (Borrowed (patched buf) len)
  end.

Definition into_vec (w : ByteWriter) : list byte :=
  match sink w with
  | Owned buf => buf
  | Borrowed buf len => default buf (get_range buf 0 len)
  end.

(** ** [ByteReader] *)

Record ByteReader : Type := mkReader { rd_data : list byte; rd_offset : Z }.

Definition reader_new (data : list byte) : ByteReader := mkReader data 0.
Definition position (r : ByteReader) : Z := rd_offset r.
Definition bytes_remaining (r : ByteReader) : Z := zlen (rd_data r) - rd_offset r.

(** A read: it may fault, and otherwise answers a value and the advanced reader. *)
Definition Parser (A : Type) : Type := ByteReader -> wresult (A * ByteReader).

#[export] Instance parser_ret : MRet Parser := fun _ a r => Ok (a, r).
#[export] Instance parser_bind : MBind Parser :=
  fun _ _ k p r => match p r with Ok (a, r') => k a r' | Err e => Err e end.

Definition parser_fail {A} (e : WireError) : Parser A := fun _ => Err e.
(** A fallible step that reads nothing. *)
Definition parser_lift {A} (m : wresult A) : Parser A :=
  fun r => match m with Ok a => Ok (a, r) | Err e => Err e end.

(** [reader.position()], as a step of the reader. *)
Definition read_position : Parser Z := fun r => Ok (position r, r).
(** [reader.bytes_remaining()], as a step of the reader. *)
Definition read_bytes_remaining : Parser Z := fun r => Ok (bytes_remaining r, r).

Definition next_byte : Parser byte := fun r =>
  match get (rd_data r) (rd_offset r) with
  | Some b => Ok (b, mkReader (rd_data r) (rd_offset r + 1))
  | None => Err Truncated
  end.

Definition read_u8 : Parser byte := next_byte.
Definition read_bool : Parser bool :=
  b ← next_byte; mret (negb (byte_to_Z b =? 0)).

Definition read_u16 : Parser Z :=
  b0 ← next_byte;
  b1 ← next_byte;
  mret (Z.lor (Z.shiftl (byte_to_Z b0) 8 mod 2 ^ 16) (byte_to_Z b1)).

(** [for _ in 0..n { value = (value << 8) | next_byte()? }] at width [w]. *)
Fixpoint read_be_loop (w : Z) (n : nat) (value : Z) : Parser Z :=
  match n with
  | O => mret value
  | S n' =>
    b ← next_byte;
    read_be_loop w n' (Z.lor (Z.shiftl value 8 mod 2 ^ w) (byte_to_Z b))
  end.

Definition read_u32 : Parser Z := read_be_loop 32 4 0.
Definition read_u64 : Parser Z := read_be_loop 64 8 0.
Definition read_i32 : Parser Z := v ← read_u32; mret (cast_signed 32 v).
Definition read_i64 : Parser Z := v ← read_u64; mret (cast_signed 64 v).

Definition read_bytes (count : Z) : Parser (list byte) := fun r =>
  match checked_add_usize (rd_offset r) count with
  | None => Err Truncated
  | Some e =>
    match get_range (rd_data r) (rd_offset r) e with
    | None => Err Truncated
    | Some slice => Ok (slice, mkReader (rd_data r) e)
    end
  end.

Definition remaining : Parser (list byte) := fun r =>
  Ok (default [] (get_from (rd_data r) (rd_offset r)),
      mkReader (rd_data r) (zlen (rd_data r))).

Definition read_length_prefixed_str (field : string) : Parser (list byte) :=
  len ← read_u16;
  bytes ← read_bytes len;
  parser_lift (utf8 bytes field).

Definition remaining_str (field : string) : Parser (list byte) :=
  bytes ← remaining; parser_lift (utf8 bytes field).

(** ** The writer's laws

    Every [put_*] is one [put_slice]; a run of them over an owned buffer appends the concatenation,
    and over a lent buffer with room writes it in place. *)

Definition put_all (w : ByteWriter) (chunks : list (list byte)) : ByteWriter :=
  foldl put_slice w chunks.

Lemma put_all_owned buf chunks :
  put_all (mkWriter (Owned buf)) chunks = mkWriter (Owned (buf ++ concat chunks)).
Proof.
  revert buf. induction chunks as [|c cs IH]; intros buf; cbn.
  - by rewrite app_nil_r.
  - unfold put_all in IH. by rewrite IH, app_assoc.
Qed.

(** Over a lent buffer whose first [len] bytes are written and which has room for the rest. *)
Lemma put_all_borrowed done_ room chunks :
  zlen (done_ ++ room) <= usize_max ->
  zlen (concat chunks) <= zlen room ->
  put_all (mkWriter (Borrowed (done_ ++ room) (zlen done_))) chunks
  = mkWriter (Borrowed (done_ ++ concat chunks ++ drop (length (concat chunks)) room)
                (zlen done_ + zlen (concat chunks))).
Proof.
  revert done_ room. induction chunks as [|c cs IH]; intros d room Hmax Hfit; cbn.
  - by rewrite Z.add_0_r.
  - cbn [concat] in Hfit. rewrite length_app in Hmax, Hfit.
    unfold put_slice; cbn.
    unfold saturating_add_usize. rewrite Z.min_l by lia.
    rewrite get_range_Some by (rewrite ?length_app; lia).
    rewrite <- (take_drop (length c) room) at 1.
    rewrite overwrite_app by (rewrite ?length_take; lia).
    rewrite (app_assoc d c). replace (zlen d + zlen c) with (zlen (d ++ c)) by len_lia.
    unfold put_all in IH. rewrite IH by len_lia.
    f_equal. f_equal; [|len_lia].
    by rewrite drop_drop, length_app, <- !app_assoc.
Qed.

(** The length counts what was asked for, whatever the buffer. *)
Lemma writer_len_put_all w chunks :
  0 <= writer_len w -> writer_len w + zlen (concat chunks) <= usize_max ->
  writer_len (put_all w chunks) = writer_len w + zlen (concat chunks).
Proof.
  revert w. induction chunks as [|c cs IH]; intros w H0 Hmax; cbn.
  - lia.
  - cbn [concat] in Hmax. rewrite length_app in Hmax.
    assert (Hc : writer_len (put_slice w c) = writer_len w + zlen c).
    { unfold put_slice, writer_len in *. destruct (sink w); cbn; [len_lia|].
      unfold saturating_add_usize. lia. }
    unfold put_all in IH. rewrite IH by lia. len_lia.
Qed.

(** ** The back-patched length prefix *)

Lemma writer_len_patch w v : writer_len (patch_u32 w 0 v) = writer_len w.
Proof.
  unfold patch_u32, writer_len. destruct (sink w) as [buf|]; cbn [sink]; [|done].
  change (saturating_add_usize 0 4) with 4.
  destruct (get_range buf 0 4) as [bs|] eqn:E; [|done].
  destruct (get_range_inv _ _ _ _ E) as (_ & He & _).
  by rewrite length_overwrite by len_lia.
Qed.

Lemma patch_prefix v body rest :
  match get_range (to_be_bytes 4 0 ++ body ++ rest) 0 (saturating_add_usize 0 4) with
  | Some _ => overwrite (to_be_bytes 4 0 ++ body ++ rest) 0 (to_be_bytes 4 v)
  | None => to_be_bytes 4 0 ++ body ++ rest
  end = to_be_bytes 4 v ++ body ++ rest.
Proof.
  change (saturating_add_usize 0 4) with 4.
  pose proof (get_range_app [] (to_be_bytes 4 0) (body ++ rest) 0 4 eq_refl eq_refl) as E.
  cbn [app] in E. rewrite E.
  by apply (overwrite_app []).
Qed.

Lemma sat_sub_prefix (l : list byte) :
  saturating_sub_usize (zlen (to_be_bytes 4 0 ++ l)) 4 = zlen l.
Proof. unfold saturating_sub_usize. len_lia. Qed.

(** Over a buffer the writer grows itself. *)
Lemma patched_owned chunks v :
  patch_u32 (put_all (mkWriter (Owned [])) (to_be_bytes 4 0 :: chunks)) 0 v
  = mkWriter (Owned (to_be_bytes 4 v ++ concat chunks)).
Proof.
  rewrite put_all_owned. unfold patch_u32. cbn [sink app concat].
  pose proof (patch_prefix v (concat chunks) []) as P. rewrite !app_nil_r in P. by rewrite P.
Qed.

(** Over a lent buffer with room: the frame lands at its front and the rest is untouched. *)
Lemma patched_borrowed out chunks v :
  zlen out <= usize_max -> zlen (to_be_bytes 4 0 ++ concat chunks) <= zlen out ->
  patch_u32 (put_all (writer_borrowing out) (to_be_bytes 4 0 :: chunks)) 0 v
  = let frame := to_be_bytes 4 v ++ concat chunks in
    mkWriter (Borrowed (frame ++ drop (length frame) out) (zlen frame)).
Proof.
  intros Hmax Hfit. cbv zeta. unfold writer_borrowing.
  pose proof (put_all_borrowed [] out (to_be_bytes 4 0 :: chunks) Hmax Hfit) as P.
  cbn [app concat] in P. change (zlen (@nil byte)) with 0 in P. rewrite P, Z.add_0_l.
  assert (El : forall u, length (to_be_bytes 4 u ++ concat chunks)
                         = length (to_be_bytes 4 0 ++ concat chunks)).
  { intros u. by rewrite !length_app, !length_to_be_bytes. }
  rewrite (El v), <- !app_assoc. unfold patch_u32. cbn [sink].
  by rewrite patch_prefix.
Qed.

(** ** The clamp *)

Lemma utf8_chars_concat l cs : utf8_chars l = Some cs -> concat cs = l.
Proof.
  revert cs. induction l as [l IH] using (well_founded_induction
    (well_founded_ltof _ (@length byte))). unfold ltof in IH.
  intros cs H. destruct l as [|b0 l1]; cbn in H; [by simplify_eq|].
  repeat case_match; try discriminate;
    repeat match goal with
    | H : option_map _ ?o = Some _ |- _ => destruct o eqn:?; simplify_eq/=
    end;
    cbn; repeat f_equal; apply IH; (assumption || cbn; lia).
Qed.

(** Each [char] of a decomposition is itself a valid one-[char] string. *)
Lemma utf8_chars_each l cs :
  utf8_chars l = Some cs ->
  Forall (fun c => forall l' cs', utf8_chars l' = Some cs' ->
                                  utf8_chars (c ++ l') = Some (c :: cs')) cs.
Proof.
  revert cs. induction l as [l IH] using (well_founded_induction
    (well_founded_ltof _ (@length byte))). unfold ltof in IH.
  intros cs H. destruct l as [|b0 l1]; cbn in H; [by simplify_eq|].
  repeat case_match; try discriminate;
    repeat match goal with
    | H : option_map _ ?o = Some _ |- _ => destruct o eqn:?; simplify_eq/=
    end;
    (constructor; [|eapply IH; [|eassumption]; cbn; lia]);
    intros l' cs' Hl'; cbn [app utf8_chars];
    repeat match goal with H : _ = ?b |- context [match ?x with _ => _ end] =>
      match type of H with x = _ => rewrite H end end; by rewrite Hl'.
Qed.

Lemma utf8_chars_of_chars cs :
  Forall (fun c => forall l' cs', utf8_chars l' = Some cs' ->
                                  utf8_chars (c ++ l') = Some (c :: cs')) cs ->
  utf8_chars (concat cs) = Some cs.
Proof. induction 1; cbn; auto. Qed.

(** The loop stops after a prefix of the [char]s, the longest whose bytes fit. *)
Lemma clamp_loop_spec chars index max_bytes :
  exists n, clamp_loop chars index index max_bytes = index + zlen (concat (take n chars))
    /\ (n <= length chars)%nat
    /\ (index <= max_bytes -> index + zlen (concat (take n chars)) <= max_bytes)
    /\ ((n < length chars)%nat -> max_bytes < index + zlen (concat (take (S n) chars))).
Proof.
  revert index. induction chars as [|c cs IH]; intros index; cbn [clamp_loop].
  - exists O. cbn. lia.
  - destruct (Z.ltb_spec max_bytes (index + zlen c)).
    + exists O. cbn. rewrite take_0. cbn. rewrite app_nil_r. lia.
    + destruct (IH (index + zlen c)) as (n & E & Hn & Hle & Hgt).
      exists (S n). rewrite E. cbn [take concat length] in *. rewrite !length_app.
      split_and!; [lia|lia|lia|]. intros Hlt.
      specialize (Hgt ltac:(lia)). destruct cs as [|c' cs']; [cbn in Hlt; lia|].
      cbn [take concat] in *. rewrite length_app in *. lia.
Qed.

(** What the clamp answers: a prefix of whole [char]s that fits, and no longer one does. *)
Lemma clamp_utf8_prefix value chars max_bytes :
  0 <= max_bytes -> utf8_chars value = Some chars ->
  exists n, clamp_utf8 value max_bytes = concat (take n chars)
    /\ utf8_chars (clamp_utf8 value max_bytes) = Some (take n chars)
    /\ zlen (clamp_utf8 value max_bytes) <= max_bytes
    /\ ((n < length chars)%nat -> max_bytes < zlen (concat (take (S n) chars))).
Proof.
  intros Hmax Hv. pose proof (utf8_chars_concat _ _ Hv) as Hcat.
  pose proof (utf8_chars_each _ _ Hv) as Hall.
  unfold clamp_utf8. rewrite Hv. cbn [default from_option id]. cbv zeta.
  destruct (Z.leb_spec (zlen value) max_bytes).
  - exists (length chars). rewrite take_ge by lia. rewrite Hcat.
    split_and!; try done. lia.
  - destruct (clamp_loop_spec chars 0 max_bytes) as (n & E & Hn & Hle & Hgt).
    exists n. rewrite E.
    assert (Hr : get_range value 0 (0 + zlen (concat (take n chars)))
                 = Some (concat (take n chars))).
    { rewrite <- Hcat at 1. rewrite <- (take_drop n chars) at 1. rewrite concat_app.
      by apply (get_range_app []). }
    rewrite Hr. cbn [default from_option id]. split_and!; [done| |lia|intros; by apply Hgt].
    apply utf8_chars_of_chars. by apply Forall_take.
Qed.

Lemma clamp_u16_length value :
  utf8_valid value = true -> zlen (clamp_u16_field value) <= 65535.
Proof.
  unfold utf8_valid. destruct (utf8_chars value) eqn:E; [|done]. intros _.
  destruct (clamp_utf8_prefix value _ MAX_LENGTH_PREFIXED_BYTES ltac:(done) E)
    as (n & _ & _ & H & _). exact H.
Qed.

Lemma clamp_u16_valid value :
  utf8_valid value = true -> utf8_valid (clamp_u16_field value) = true.
Proof.
  unfold utf8_valid. destruct (utf8_chars value) eqn:E; [|done]. intros _.
  destruct (clamp_utf8_prefix value _ MAX_LENGTH_PREFIXED_BYTES ltac:(done) E)
    as (n & _ & H & _). unfold clamp_u16_field. by rewrite H.
Qed.

Lemma clamp_u16_id value : zlen value <= 65535 -> clamp_u16_field value = value.
Proof.
  intros. unfold clamp_u16_field, clamp_utf8, MAX_LENGTH_PREFIXED_BYTES.
  by case_Z; [|lia].
Qed.

#[export] Hint Resolve clamp_u16_length clamp_u16_valid : slop.

(** ** The reader's laws

    [runs_at p n bs v]: positioned [n] bytes into a slice, on exactly [bs], the parser [p] answers
    [v] and consumes [bs], whatever follows.  [ends_at] is the same for a parser that takes
    everything that is left. *)

Definition runs_at {A} (p : Parser A) (n : Z) (bs : list byte) (v : A) : Prop :=
  forall pre rest, zlen pre = n -> zlen (pre ++ bs ++ rest) <= usize_max ->
  p (mkReader (pre ++ bs ++ rest) n) = Ok (v, mkReader (pre ++ bs ++ rest) (n + zlen bs)).

Definition ends_at {A} (p : Parser A) (n : Z) (bs : list byte) (v : A) : Prop :=
  forall pre, zlen pre = n -> zlen (pre ++ bs) <= usize_max ->
  p (mkReader (pre ++ bs) n) = Ok (v, mkReader (pre ++ bs) (n + zlen bs)).

Lemma runs_ends {A} (p : Parser A) n bs v : runs_at p n bs v -> ends_at p n bs v.
Proof. intros H pre Hpre Hmax. specialize (H pre []). rewrite app_nil_r in H. auto. Qed.

Lemma runs_ret {A} n (v : A) : runs_at (mret v) n [] v.
Proof. intros pre rest Hn _. cbn. by rewrite Z.add_0_r. Qed.

Lemma runs_bind {A B} (p : Parser A) (k : A -> Parser B) n bs1 bs2 v1 v2 :
  runs_at p n bs1 v1 -> runs_at (k v1) (n + zlen bs1) bs2 v2 ->
  runs_at (p ≫= k) n (bs1 ++ bs2) v2.
Proof.
  intros H1 H2 pre rest Hn Hmax. unfold mbind, parser_bind.
  rewrite <- app_assoc in *. rewrite H1 by done.
  rewrite app_assoc in *. rewrite H2 by len_lia.
  do 2 f_equal. f_equal. rewrite length_app. lia.
Qed.

Lemma ends_bind {A B} (p : Parser A) (k : A -> Parser B) n bs1 bs2 v1 v2 :
  runs_at p n bs1 v1 -> ends_at (k v1) (n + zlen bs1) bs2 v2 ->
  ends_at (p ≫= k) n (bs1 ++ bs2) v2.
Proof.
  intros H1 H2 pre Hn Hmax. unfold mbind, parser_bind.
  rewrite H1 by (rewrite ?app_assoc in *; done).
  rewrite app_assoc in *. rewrite H2 by len_lia.
  do 2 f_equal. f_equal. rewrite length_app. lia.
Qed.

(** A bind whose second half reads nothing. *)
Lemma runs_map {A B} (p : Parser A) (f : A -> B) n bs v :
  runs_at p n bs v -> runs_at (p ≫= fun a => mret (f a)) n bs (f v).
Proof.
  intros H pre rest Hn Hmax. unfold mbind, parser_bind. by rewrite H.
Qed.
Lemma runs_lift {A B} (p : Parser A) (f : A -> wresult B) n bs v v' :
  runs_at p n bs v -> f v = Ok v' -> runs_at (p ≫= fun a => parser_lift (f a)) n bs v'.
Proof.
  intros H Hf pre rest Hn Hmax. unfold mbind, parser_bind, parser_lift.
  by rewrite H, Hf.
Qed.
Lemma ends_map {A B} (p : Parser A) (f : A -> B) n bs v :
  ends_at p n bs v -> ends_at (p ≫= fun a => mret (f a)) n bs (f v).
Proof. intros H pre Hn Hmax. unfold mbind, parser_bind. by rewrite H. Qed.
Lemma ends_lift {A B} (p : Parser A) (f : A -> wresult B) n bs v v' :
  ends_at p n bs v -> f v = Ok v' -> ends_at (p ≫= fun a => parser_lift (f a)) n bs v'.
Proof.
  intros H Hf pre Hn Hmax. unfold mbind, parser_bind, parser_lift.
  by rewrite H, Hf.
Qed.

Lemma runs_position n : runs_at read_position n [] n.
Proof. intros pre rest Hn _. cbn. by rewrite Z.add_0_r. Qed.

Lemma runs_next_byte n b : runs_at next_byte n [b] b.
Proof.
  intros pre rest <- Hmax. unfold next_byte. cbn [rd_data rd_offset app].
  by rewrite get_app_r.
Qed.

Lemma runs_read_bool n v : runs_at read_bool n [byte_of_Z (if v : bool then 1 else 0)] v.
Proof.
  unfold read_bool. replace v with (negb (byte_to_Z (byte_of_Z (if v then 1 else 0)) =? 0))
    at 2 by (destruct v; reflexivity).
  apply (runs_map _ (fun b => negb (byte_to_Z b =? 0))), runs_next_byte.
Qed.

(** One step of the shift-and-or loop is one step of the base-256 sum. *)
Lemma be_step w value b :
  8 <= w -> 0 <= value < 2 ^ (w - 8) ->
  Z.lor (Z.shiftl value 8 mod 2 ^ w) (byte_to_Z b) = value * 256 + byte_to_Z b.
Proof.
  intros Hw Hv. pose proof (byte_to_Z_range b) as Hb.
  assert (E : 2 ^ w = 2 ^ (w - 8) * 256).
  { change 256 with (2 ^ 8). rewrite <- Z.pow_add_r by lia. f_equal. lia. }
  rewrite Z.shiftl_mul_pow2 by lia. change (2 ^ 8) with 256.
  rewrite Z.mod_small by lia.
  rewrite <- Z.add_lor_land.
  replace (Z.land (value * 256) (byte_to_Z b)) with 0; [lia|].
  symmetry. apply Z.bits_inj'. intros i Hi. rewrite Z.land_spec, Z.bits_0.
  change 256 with (2 ^ 8). destruct (Z.ltb_spec i 8).
  - by rewrite Z.mul_pow2_bits_low.
  - rewrite (Z.bits_above_log2 (byte_to_Z b) i), andb_false_r; [done|lia|].
    destruct (Z.eq_dec (byte_to_Z b) 0) as [->|]; [cbn; lia|].
    apply Z.log2_lt_pow2; [lia|]. apply Z.lt_le_trans with (2 ^ 8); [lia|].
    apply Z.pow_le_mono_r; lia.
Qed.

Lemma runs_read_be_loop w value n bs :
  8 * zlen bs <= w -> 0 <= value -> value * 256 ^ zlen bs < 2 ^ w ->
  runs_at (read_be_loop w (length bs) value) n bs
    (value * 256 ^ zlen bs + from_be_bytes bs).
Proof.
  revert value n. induction bs as [|b bs IH]; intros value n Hw H0 Hlt; cbn [length] in *.
  - change (256 ^ zlen []) with 1. rewrite Z.mul_1_r, Z.add_0_r. apply runs_ret.
  - rewrite Nat2Z.inj_succ, Z.pow_succ_r in * by lia. cbn [read_be_loop].
    eapply (runs_bind _ _ _ [b] bs); [apply runs_next_byte|].
    assert (Hp : 1 <= 256 ^ zlen bs) by (pose proof (Z.pow_pos_nonneg 256 (zlen bs)); lia).
    assert (E : 2 ^ w = 256 * 2 ^ (w - 8)).
    { change 256 with (2 ^ 8). rewrite <- Z.pow_add_r by lia. f_equal. lia. }
    rewrite be_step by nia.
    replace (value * (256 * 256 ^ zlen bs) + from_be_bytes (b :: bs))
      with ((value * 256 + byte_to_Z b) * 256 ^ zlen bs + from_be_bytes bs)
      by (rewrite from_be_bytes_cons; lia).
    apply IH; [lia|pose proof (byte_to_Z_range b); lia|].
    pose proof (byte_to_Z_range b). pose proof (from_be_bytes_range bs).
    assert (Hd : value * 256 ^ zlen bs < 2 ^ (w - 8)) by nia.
    assert (Hdiv : 2 ^ (w - 8) = 256 ^ zlen bs * 2 ^ (w - 8 - 8 * zlen bs)).
    { change 256 with (2 ^ 8). rewrite <- Z.pow_mul_r, <- Z.pow_add_r by lia.
      f_equal. lia. }
    rewrite Hdiv in *. assert (value + 1 <= 2 ^ (w - 8 - 8 * zlen bs)) by nia. nia.
Qed.

Lemma runs_read_u16_bytes n b0 b1 : runs_at read_u16 n [b0; b1] (from_be_bytes [b0; b1]).
Proof.
  unfold read_u16. change [b0; b1] with ([b0] ++ [b1]).
  eapply runs_bind; [apply runs_next_byte|].
  replace (from_be_bytes ([b0] ++ [b1]))
    with (Z.lor (Z.shiftl (byte_to_Z b0) 8 mod 2 ^ 16) (byte_to_Z b1)).
  - apply (runs_map _ (fun b => Z.lor _ (byte_to_Z b))), runs_next_byte.
  - rewrite be_step by (try apply byte_to_Z_range; lia). reflexivity.
Qed.

Lemma runs_read_u16 n v : u_range 16 v -> runs_at read_u16 n (to_be_bytes 2 v) v.
Proof.
  intros Hv. rewrite <- (from_to_be_bytes_small 2 v) at 2 by done.
  apply runs_read_u16_bytes.
Qed.

Lemma runs_read_u32_bytes n bs :
  length bs = 4%nat -> runs_at read_u32 n bs (from_be_bytes bs).
Proof.
  intros Hl. pose proof (runs_read_be_loop 32 0 n bs) as H. rewrite Hl in H.
  apply H; lia.
Qed.

Lemma runs_read_u32 n v : u_range 32 v -> runs_at read_u32 n (to_be_bytes 4 v) v.
Proof.
  intros Hv. rewrite <- (from_to_be_bytes_small 4 v) at 2 by done.
  by apply runs_read_u32_bytes.
Qed.

Lemma runs_read_u64 n v : u_range 64 v -> runs_at read_u64 n (to_be_bytes 8 v) v.
Proof.
  intros Hv. rewrite <- (from_to_be_bytes_small 8 v) at 2 by done.
  apply (runs_read_be_loop 64 0 n (to_be_bytes 8 v)); cbn; lia.
Qed.

Lemma runs_read_i32 n v :
  i_range 32 v -> runs_at read_i32 n (to_be_bytes 4 (cast_unsigned 32 v)) v.
Proof.
  intros Hv. unfold read_i32. rewrite <- (cast_signed_unsigned 32 v) at 2 by (done || lia).
  apply runs_map, runs_read_u32, cast_unsigned_range. lia.
Qed.

Lemma runs_read_i64 n v :
  i_range 64 v -> runs_at read_i64 n (to_be_bytes 8 (cast_unsigned 64 v)) v.
Proof.
  intros Hv. unfold read_i64. rewrite <- (cast_signed_unsigned 64 v) at 2 by (done || lia).
  apply runs_map, runs_read_u64, cast_unsigned_range. lia.
Qed.

Lemma runs_read_bytes n bs k : k = zlen bs -> runs_at (read_bytes k) n bs bs.
Proof.
  intros -> pre rest <- Hmax. unfold read_bytes, checked_add_usize. cbn [rd_data rd_offset].
  destruct (Z.leb_spec (zlen pre + zlen bs) usize_max); [|len_lia].
  by rewrite (get_range_app pre bs rest).
Qed.

Lemma ends_remaining n bs : ends_at remaining n bs bs.
Proof.
  intros pre <- Hmax. unfold remaining, get_from. cbn [rd_data rd_offset].
  pose proof (get_range_app pre bs [] (zlen pre) (zlen (pre ++ bs))) as E.
  rewrite app_nil_r in E. rewrite E by len_lia. cbn. do 3 f_equal. len_lia.
Qed.

Lemma runs_read_length_prefixed_str n field value :
  utf8_valid value = true ->
  runs_at (read_length_prefixed_str field) n
    (to_be_bytes 2 (u16_try_from_or_max (zlen (clamp_u16_field value)))
     ++ clamp_u16_field value)
    (clamp_u16_field value).
Proof.
  intros Hv. pose proof (clamp_u16_length _ Hv). unfold u16_try_from_or_max.
  destruct (Z.leb_spec (zlen (clamp_u16_field value)) 65535); [|lia].
  unfold read_length_prefixed_str.
  eapply runs_bind; [apply runs_read_u16; unfold u_range; lia|].
  eapply runs_lift; [by apply runs_read_bytes|].
  unfold utf8. by rewrite clamp_u16_valid.
Qed.

Lemma ends_remaining_str n field value :
  utf8_valid value = true -> ends_at (remaining_str field) n value value.
Proof.
  intros Hv. unfold remaining_str. eapply ends_lift; [apply ends_remaining|].
  unfold utf8. by rewrite Hv.
Qed.

(** ** What every read guarantees, on any input

    [yields p P]: from a well-positioned reader, whatever [p] answers satisfies [P], and the reader
    it leaves is well positioned, over the same bytes, and never earlier. *)

Definition rd_ok (r : ByteReader) : Prop := 0 <= rd_offset r <= zlen (rd_data r).

Definition rd_advances (r r' : ByteReader) : Prop :=
  rd_data r' = rd_data r /\ rd_offset r <= rd_offset r' <= zlen (rd_data r).

Definition yields {A} (p : Parser A) (P : A -> Prop) : Prop :=
  forall r a r', rd_ok r -> p r = Ok (a, r') -> P a /\ rd_advances r r'.

Lemma rd_advances_ok r r' : rd_ok r -> rd_advances r r' -> rd_ok r'.
Proof. intros H [E1 E2]. unfold rd_ok in *. rewrite E1. lia. Qed.

Lemma rd_advances_trans r1 r2 r3 :
  rd_advances r1 r2 -> rd_advances r2 r3 -> rd_advances r1 r3.
Proof. intros [E1 ?] [E2 ?]. rewrite E1 in *. split; [congruence|lia]. Qed.

Lemma rd_advances_refl r : rd_ok r -> rd_advances r r.
Proof. unfold rd_ok, rd_advances. intros. split; [done|lia]. Qed.

Lemma yields_ret {A} (a : A) (P : A -> Prop) : P a -> yields (mret a) P.
Proof.
  intros H r a' r' Hok E. unfold mret, parser_ret in E. simplify_eq.
  auto using rd_advances_refl.
Qed.

Lemma yields_bind {A B} (p : Parser A) (k : A -> Parser B) (P : A -> Prop) (Q : B -> Prop) :
  yields p P -> (forall a, P a -> yields (k a) Q) -> yields (p ≫= k) Q.
Proof.
  intros Hp Hk r b r' Hok E. unfold mbind, parser_bind in E.
  destruct (p r) as [[a r1]|] eqn:Ep; [|done].
  destruct (Hp _ _ _ Hok Ep) as [Ha Hadv].
  destruct (Hk _ Ha _ _ _ (rd_advances_ok _ _ Hok Hadv) E) as [Hb Hadv'].
  eauto using rd_advances_trans.
Qed.

Lemma yields_weaken {A} (p : Parser A) (P Q : A -> Prop) :
  yields p P -> (forall a, P a -> Q a) -> yields p Q.
Proof. intros Hp HPQ r a r' Hok E. destruct (Hp _ _ _ Hok E). auto. Qed.

Lemma yields_lift {A} (m : wresult A) (P : A -> Prop) :
  (forall a, m = Ok a -> P a) -> yields (parser_lift m) P.
Proof.
  intros H r a r' Hok E. unfold parser_lift in E. destruct m; simplify_eq.
  auto using rd_advances_refl.
Qed.

Lemma yields_fail {A} e (P : A -> Prop) : yields (parser_fail e) P.
Proof. intros r a r' Hok E. done. Qed.

Lemma yields_next_byte : yields next_byte (fun _ => True).
Proof.
  intros [d o] b r' Hok E. unfold next_byte, get, rd_ok, rd_advances in *; cbn in *.
  case_Z_in E; cbn in E; try done.
  destruct (d !! Z.to_nat o); simplify_eq; cbn. split_and!; try done; lia.
Qed.

Lemma yields_position : yields read_position (fun n => 0 <= n).
Proof.
  intros r n r' Hok E. cbv in E. simplify_eq.
  destruct (rd_advances_refl _ Hok). split; [apply Hok|by split].
Qed.
Lemma yields_bytes_remaining : yields read_bytes_remaining (fun n => 0 <= n).
Proof.
  intros r n r' Hok E. unfold read_bytes_remaining, bytes_remaining in E. simplify_eq.
  unfold rd_ok in Hok. split; [lia|by apply rd_advances_refl].
Qed.

Lemma yields_read_be_loop w n value :
  0 < w -> u_range w value -> (8 <= w) -> yields (read_be_loop w n value) (u_range w).
Proof.
  intros Hw Hv H8. revert value Hv. induction n as [|n IH]; intros value Hv; cbn [read_be_loop].
  - by apply yields_ret.
  - eapply yields_bind; [apply yields_next_byte|]. intros b _. apply IH.
    pose proof (byte_to_Z_range b). pose proof (Z.mod_pos_bound (Z.shiftl value 8) (2 ^ w)).
    assert (256 <= 2 ^ w) by (change 256 with (2 ^ 8); apply Z.pow_le_mono_r; lia).
    split; [apply Z.lor_nonneg; lia|].
    destruct (Z.eq_dec (Z.lor (Z.shiftl value 8 mod 2 ^ w) (byte_to_Z b)) 0) as [->|Hnz]; [lia|].
    assert (0 <= Z.lor (Z.shiftl value 8 mod 2 ^ w) (byte_to_Z b))
      by (apply Z.lor_nonneg; lia).
    apply Z.log2_lt_pow2; [lia|]. rewrite Z.log2_lor by lia.
    apply Z.max_lub_lt.
    + destruct (Z.eq_dec (Z.shiftl value 8 mod 2 ^ w) 0) as [->|]; [cbn; lia|].
      apply Z.log2_lt_pow2; lia.
    + destruct (Z.eq_dec (byte_to_Z b) 0) as [->|]; [cbn; lia|].
      apply Z.log2_lt_pow2; lia.
Qed.

Lemma yields_read_u32 : yields read_u32 (u_range 32).
Proof. apply yields_read_be_loop; unfold u_range; lia. Qed.
Lemma yields_read_u64 : yields read_u64 (u_range 64).
Proof. apply yields_read_be_loop; unfold u_range; lia. Qed.

Lemma yields_read_i32 : yields read_i32 (i_range 32).
Proof.
  eapply yields_bind; [apply yields_read_u32|]. intros v Hv.
  apply yields_ret, cast_signed_range; [lia|done].
Qed.
Lemma yields_read_i64 : yields read_i64 (i_range 64).
Proof.
  eapply yields_bind; [apply yields_read_u64|]. intros v Hv.
  apply yields_ret, cast_signed_range; [lia|done].
Qed.

Lemma yields_read_u16 : yields read_u16 (u_range 16).
Proof.
  eapply yields_bind; [apply yields_next_byte|]. intros b0 _.
  eapply yields_bind; [apply yields_next_byte|]. intros b1 _. apply yields_ret.
  pose proof (byte_to_Z_range b0). pose proof (byte_to_Z_range b1).
  rewrite be_step by (change (2 ^ (16 - 8)) with 256; lia). unfold u_range. lia.
Qed.

Lemma yields_read_bool : yields read_bool (fun _ => True).
Proof. eapply yields_bind; [apply yields_next_byte|]. intros. by apply yields_ret. Qed.

Lemma yields_read_bytes k :
  0 <= k -> yields (read_bytes k) (fun bs => zlen bs = k).
Proof.
  intros Hk [d o] bs r' Hok E. unfold read_bytes, checked_add_usize, rd_ok, rd_advances in *.
  cbn in *. destruct (o + k <=? usize_max); [|done].
  destruct (get_range d o (o + k)) eqn:Eg; simplify_eq; cbn.
  pose proof (get_range_length _ _ _ _ Eg).
  destruct (get_range_inv _ _ _ _ Eg) as (? & ? & _). split_and!; try done; lia.
Qed.

Lemma yields_remaining : yields remaining (fun _ => True).
Proof.
  intros [d o] bs r' Hok E. unfold remaining, rd_ok, rd_advances in *.
  cbn in *. simplify_eq; cbn. split_and!; try done; lia.
Qed.

Lemma yields_utf8 bytes field :
  yields (parser_lift (utf8 bytes field)) (fun s => utf8_valid s = true).
Proof.
  apply yields_lift. unfold utf8. intros a. destruct (utf8_valid bytes) eqn:E;
    intros; by simplify_eq.
Qed.

Lemma yields_read_length_prefixed_str field :
  yields (read_length_prefixed_str field) (fun s => utf8_valid s = true /\ zlen s <= 65535).
Proof.
  eapply yields_bind; [apply yields_read_u16|]. intros k [Hk0 Hk1].
  eapply yields_bind; [by apply yields_read_bytes|]. intros bs Hbs. cbn beta in Hbs.
  apply yields_lift. unfold utf8. intros a. destruct (utf8_valid bs) eqn:E;
    intros; simplify_eq. split; [done|]. change (2 ^ 16) with 65536 in *. lia.
Qed.

Lemma yields_remaining_str field :
  yields (remaining_str field) (fun s => utf8_valid s = true).
Proof.
  eapply yields_bind; [apply yields_remaining|]. intros. apply yields_utf8.
Qed.

#[export] Hint Resolve yields_position yields_bytes_remaining yields_next_byte yields_read_u16 yields_read_u32 yields_read_u64
  yields_read_i32 yields_read_i64 yields_read_bool yields_remaining
  yields_read_length_prefixed_str yields_remaining_str : slop.
