(* ===== verification/Message.v ===== *)
(** * Message: the message table of the terminal wire

    Models [slopdesk-wire/src/message.rs]: one decoded message, its type byte, its channel, and the
    size of its frame.  Multi-byte integers are [Z] at the width [wf_message] states, [u8] fields
    are bytes, a [String] is the list of its UTF-8 bytes, a [RawUuid] the list of its 16. *)

From S2P Require Import Prelude Bytes.

Abbreviation RawUuid := (list byte).
Definition SESSION_ID_BYTE_COUNT : Z := 16.
Definition NEW_SESSION_ID : RawUuid := replicate 16 (byte_of_Z 0).
Definition PROTOCOL_VERSION : Z := 1.
Definition MAX_FRAME_PAYLOAD_LENGTH : Z := 16 * 1024 * 1024.

Inductive Channel : Type := ChannelIsData | ChannelIsControl.

Inductive CommandStatus : Type :=
| Running
| Idle (exit_code : option Z) (duration_ms : Z).

Record ProjectGitStatus : Type := mkGitStatus {
  repo_root : list byte;
  branch : list byte;
  ahead : Z;
  behind : Z;
  stash_count : Z;
  staged : Z;
  modified : Z;
  untracked : Z;
  conflicted : Z;
  changed_count : Z;
}.

Inductive WireMessage : Type :=
| Output (seq : Z) (bytes : list byte)
| Exit (code : Z)
| Input (bytes : list byte)
| Hello (protocol_version : Z) (session_id : RawUuid) (last_received_seq : Z)
| Resize (cols rows px_width px_height : Z)
| Ack (seq : Z)
| Bye
| Ping (timestamp_ms : Z)
| RequestBlockOutput (index : Z)
| MetadataRequest (request_id : Z) (verb : byte) (payload : list byte)
| WorkspaceRequest (request_seq : Z) (verb : byte) (payload : list byte)
| HelloAck (session_id : RawUuid) (resume_from_seq : Z) (returning_client : bool)
| Title (text : list byte)
| Bell
| CommandStatusMsg (status : CommandStatus)
| Pong (timestamp_ms : Z)
| Notification (title body : list byte)
| ForegroundProcess (name : list byte)
| ClaudeStatus (state kind : byte) (label : list byte)
| CommandBlock (index : Z) (exit_code duration_ms : option Z) (complete : bool)
    (output_len : Z) (command_text : list byte) (prompt_ordinal : Z)
| BlockOutput (index : Z) (output : list byte)
| MetadataResponse (request_id : Z) (status : byte) (payload : list byte)
| InputEcho (enabled : bool)
| Progress (state percent : byte)
| Cwd (text : list byte)
| ProjectKey (text : list byte)
| ProjectGitStatusMsg (status : ProjectGitStatus)
| AgentSessionIntent (text : list byte)
| WorkspaceEvent (kind : byte) (epoch : RawUuid) (base_state_num new_state_num : Z)
    (payload : list byte).

#[export] Instance command_status_eq_dec : EqDecision CommandStatus.
Proof. solve_decision. Defined.
#[export] Instance git_status_eq_dec : EqDecision ProjectGitStatus.
Proof. solve_decision. Defined.
#[export] Instance wire_message_eq_dec : EqDecision WireMessage.
Proof. solve_decision. Defined.

(** [message_type] *)
Definition message_type (m : WireMessage) : byte :=
  byte_of_Z match m with
  | Output _ _ => 1
  | Exit _ => 2
  | Input _ => 3
  | Hello _ _ _ => 10
  | Resize _ _ _ _ => 11
  | Ack _ => 12
  | Bye => 13
  | Ping _ => 14
  | RequestBlockOutput _ => 15
  | MetadataRequest _ _ _ => 16
  | WorkspaceRequest _ _ _ => 17
  | HelloAck _ _ _ => 20
  | Title _ => 21
  | Bell => 22
  | CommandStatusMsg _ => 23
  | Pong _ => 24
  | Notification _ _ => 25
  | ForegroundProcess _ => 26
  | ClaudeStatus _ _ _ => 27
  | CommandBlock _ _ _ _ _ _ _ => 28
  | BlockOutput _ _ => 29
  | MetadataResponse _ _ _ => 30
  | InputEcho _ => 31
  | Progress _ _ => 32
  | Cwd _ => 33
  | ProjectKey _ => 34
  | ProjectGitStatusMsg _ => 35
  | AgentSessionIntent _ => 36
  | WorkspaceEvent _ _ _ _ _ => 37
  end.

Definition channel (m : WireMessage) : Channel :=
  match m with
  | Output _ _ | Exit _ | Input _ => ChannelIsData
  | _ => ChannelIsControl
  end.

(** [opaque_run] (codec.rs): the byte run the codec never looks inside. *)
Definition opaque_run (m : WireMessage) : list byte :=
  match m with
  | Output _ bytes | Input bytes => bytes
  | BlockOutput _ output => output
  | MetadataRequest _ _ payload | MetadataResponse _ _ payload
  | WorkspaceRequest _ _ payload | WorkspaceEvent _ _ _ _ payload => payload
  | _ => []
  end.

(** [wire_byte_count] *)
Definition wire_byte_count (m : WireMessage) : Z :=
  let body :=
    match m with
    | Output _ bytes => 8 + zlen bytes
    | Exit _ | RequestBlockOutput _ => 4
    | Input bytes => zlen bytes
    | Hello _ _ _ => 2 + SESSION_ID_BYTE_COUNT + 8
    | Resize _ _ _ _ | Ack _ | Ping _ | Pong _ => 8
    | Bye | Bell => 0
    | MetadataRequest _ _ payload | MetadataResponse _ _ payload
    | WorkspaceRequest _ _ payload => 4 + 1 + 4 + zlen payload
    | WorkspaceEvent _ _ _ _ payload => 1 + 16 + 8 + 8 + 4 + zlen payload
    | HelloAck _ _ _ => SESSION_ID_BYTE_COUNT + 8 + 1
    | Title text | Cwd text | ProjectKey text | AgentSessionIntent text => zlen text
    | ForegroundProcess name => zlen name
    | CommandStatusMsg status =>
        match status with
        | Running => 1
        | Idle _ _ => 1 + 1 + 4 + 4
        end
    | Notification title body => 2 + zlen (clamp_u16_field title) + zlen body
    | ClaudeStatus _ _ label => 1 + 1 + 2 + zlen (clamp_u16_field label)
    | CommandBlock _ _ _ _ _ command_text _ =>
        4 + 1 + 4 + 1 + 4 + 1 + 4 + 4 + 2 + zlen (clamp_u16_field command_text)
    | BlockOutput _ output => 4 + 4 + zlen output
    | InputEcho _ => 1
    | Progress _ _ => 2
    | ProjectGitStatusMsg status =>
        2 + zlen (clamp_u16_field (repo_root status))
        + 2 + zlen (clamp_u16_field (branch status))
        + 12 + 20
    end in
  4 + 1 + body.

(** [wire_byte_count_with_run] *)
Definition wire_byte_count_with_run (m : WireMessage) (run_len : Z) : Z :=
  saturating_add_usize
    (saturating_sub_usize (wire_byte_count m) (zlen (opaque_run m))) run_len.

(** ** The types of the fields, as a predicate on the model's integers and lists *)

Definition is_uuid (u : RawUuid) : Prop := length u = 16%nat.
Definition is_str (s : list byte) : Prop := utf8_valid s = true.
Definition opt_range (P : Z -> Prop) (o : option Z) : Prop :=
  match o with Some v => P v | None => True end.

Definition wf_message (m : WireMessage) : Prop :=
  match m with
  | Output seq bytes => i_range 64 seq
  | Exit code => i_range 32 code
  | Input bytes => True
  | Hello v sid seq => u_range 16 v /\ is_uuid sid /\ i_range 64 seq
  | Resize c r pw ph => u_range 16 c /\ u_range 16 r /\ u_range 16 pw /\ u_range 16 ph
  | Ack seq => i_range 64 seq
  | Bye | Bell => True
  | Ping t | Pong t => u_range 64 t
  | RequestBlockOutput i => u_range 32 i
  | MetadataRequest id _ p | MetadataResponse id _ p | WorkspaceRequest id _ p => u_range 32 id
  | HelloAck sid seq _ => is_uuid sid /\ i_range 64 seq
  | Title t | Cwd t | ProjectKey t | AgentSessionIntent t => is_str t
  | ForegroundProcess n => is_str n
  | CommandStatusMsg s =>
      match s with
      | Running => True
      | Idle e d => opt_range (i_range 32) e /\ u_range 32 d
      end
  | Notification t b => is_str t /\ is_str b
  | ClaudeStatus _ _ l => is_str l
  | CommandBlock i e d _ ol ct po =>
      u_range 32 i /\ opt_range (i_range 32) e /\ opt_range (u_range 32) d
      /\ u_range 32 ol /\ is_str ct /\ u_range 32 po
  | BlockOutput i _ => u_range 32 i
  | InputEcho _ => True
  | Progress _ _ => True
  | ProjectGitStatusMsg s =>
      is_str (repo_root s) /\ is_str (branch s)
      /\ i_range 32 (ahead s) /\ i_range 32 (behind s) /\ i_range 32 (stash_count s)
      /\ u_range 32 (staged s) /\ u_range 32 (modified s) /\ u_range 32 (untracked s)
      /\ u_range 32 (conflicted s) /\ u_range 32 (changed_count s)
  | WorkspaceEvent _ ep b n _ => is_uuid ep /\ i_range 64 b /\ i_range 64 n
  end.
