(* ===== verification/Codec.v ===== *)
(** * Codec: the byte layout of every message

    Models [slopdesk-wire/src/codec.rs]: [WireMessage::encode], [encode_with_run_into], [decode] and
    [decode_leaving_opaque_run], over the writer and the reader of [Bytes]. *)

From stdpp Require Import pretty.
From S2P Require Import Prelude Bytes Message.

(** [wire_length]: the [u32] a [usize] length occupies. *)
Definition wire_length (value : Z) : Z := Z.land value 0xFFFFFFFF.

(** ** Encoding *)

Definition encode_into (m : WireMessage) (run : list byte) (w : ByteWriter) : ByteWriter :=
  let w := put_u32 w 0 in
  let w := put_u8 w (message_type m) in
  let w :=
    match m with
    | Output seq _ => put_bytes (put_i64 w seq) run
    | Exit code => put_i32 w code
    | Input _ => put_bytes w run
    | Hello protocol_version session_id last_received_seq =>
        let w := put_u16 w protocol_version in
        let w := put_bytes w session_id in
        put_i64 w last_received_seq
    | Resize cols rows px_width px_height =>
        let w := put_u16 w cols in
        let w := put_u16 w rows in
        let w := put_u16 w px_width in
        put_u16 w px_height
    | Ack seq => put_i64 w seq
    | Bye | Bell => w
    | Ping timestamp_ms | Pong timestamp_ms => put_u64 w timestamp_ms
    | RequestBlockOutput index => put_u32 w index
    | HelloAck session_id resume_from_seq returning_client =>
        let w := put_bytes w session_id in
        let w := put_i64 w resume_from_seq in
        put_bool w returning_client
    | Title text | Cwd text | ProjectKey text | AgentSessionIntent text => put_bytes w text
    | ForegroundProcess name => put_bytes w name
    | ProjectGitStatusMsg status =>
        let w := put_length_prefixed_str w (repo_root status) in
        let w := put_length_prefixed_str w (branch status) in
        let w := put_i32 w (ahead status) in
        let w := put_i32 w (behind status) in
        let w := put_i32 w (stash_count status) in
        let w := put_u32 w (staged status) in
        let w := put_u32 w (modified status) in
        let w := put_u32 w (untracked status) in
        let w := put_u32 w (conflicted status) in
        put_u32 w (changed_count status)
    | Notification title body =>
        let w := put_length_prefixed_str w title in
        put_bytes w body
    | ClaudeStatus state kind label =>
        let w := put_u8 w state in
        let w := put_u8 w kind in
        put_length_prefixed_str w label
    | CommandBlock index exit_code duration_ms complete output_len command_text
        prompt_ordinal =>
        let w := put_u32 w index in
        let w := put_bool w (bool_decide (is_Some exit_code)) in
        let w := put_i32 w (default 0 exit_code) in
        let w := put_bool w (bool_decide (is_Some duration_ms)) in
        let w := put_u32 w (default 0 duration_ms) in
        let w := put_bool w complete in
        let w := put_u32 w output_len in
        let w := put_u32 w prompt_ordinal in
        put_length_prefixed_str w command_text
    | BlockOutput index _ =>
        let w := put_u32 w index in
        let w := put_u32 w (wire_length (zlen run)) in
        put_bytes w run
    | MetadataRequest id tag _ | MetadataResponse id tag _ | WorkspaceRequest id tag _ =>
        let w := put_u32 w id in
        let w := put_u8 w tag in
        let w := put_u32 w (wire_length (zlen run)) in
        put_bytes w run
    | WorkspaceEvent kind epoch base_state_num new_state_num _ =>
        let w := put_u8 w kind in
        let w := put_bytes w epoch in
        let w := put_i64 w base_state_num in
        let w := put_i64 w new_state_num in
        let w := put_u32 w (wire_length (zlen run)) in
        put_bytes w run
    | InputEcho enabled => put_bool w enabled
    | Progress state percent => put_u8 (put_u8 w state) percent
    | CommandStatusMsg status =>
        match status with
        | Running => put_u8 w (byte_of_Z 0)
        | Idle exit_code duration_ms =>
            let w := put_u8 w (byte_of_Z 1) in
            let w := put_bool w (bool_decide (is_Some exit_code)) in
            let w := put_i32 w (default 0 exit_code) in
            put_u32 w duration_ms
        end
    end in
  let payload_length := wire_length (saturating_sub_usize (writer_len w) 4) in
  patch_u32 w 0 payload_length.

Definition encode (m : WireMessage) : list byte :=
  into_vec (encode_into m (opaque_run m) (writer_with_capacity (wire_byte_count m))).

(** The lent buffer after the call, and the size answered. *)
Definition encode_with_run_into (m : WireMessage) (run out : list byte) : list byte * Z :=
  let needed := wire_byte_count_with_run m (zlen run) in
  if zlen out <? needed then (out, needed) else
  let w := encode_into m run (writer_borrowing out) in
  (match sink w with Borrowed buf _ => buf | Owned buf => buf end, writer_len w).

(** ** Decoding *)

Definition read_uuid (field : string) : Parser RawUuid :=
  bytes ← read_bytes SESSION_ID_BYTE_COUNT;
  parser_lift (if decide (length bytes = 16%nat) then Ok bytes
               else Err (malformed (field +:+ ": invalid uuid bytes"))).

Definition read_sized_payload (elide : bool) : Parser (list byte * Range) :=
  len ← read_u32;
  start ← read_position;
  bytes ← read_bytes len;
  mret (if elide then [] else bytes,
        mkRange start (saturating_add_usize start (zlen bytes))).

Definition read_trailing_payload (elide : bool) : Parser (list byte * Range) :=
  start ← read_position;
  bytes ← remaining;
  mret (if elide then [] else bytes,
        mkRange start (saturating_add_usize start (zlen bytes))).

(** An arm with no opaque run leaves [run] as the caller's [0..0]. *)
Definition no_run (m : WireMessage) : WireMessage * Range := (m, mkRange 0 0).

(** [has.then_some(raw)] *)
Definition then_some (has : bool) (raw : Z) : option Z := if has then Some raw else None.

Definition decode_inner (elide : bool) : Parser (WireMessage * Range) :=
  message_type ← read_u8;
  match byte_to_Z message_type with
  | 1 =>
      seq ← read_i64;
      '(bytes, run) ← read_trailing_payload elide;
      mret (Output seq bytes, run)
  | 2 => code ← read_i32; mret (no_run (Exit code))
  | 3 => '(bytes, run) ← read_trailing_payload elide; mret (Input bytes, run)
  | 10 =>
      protocol_version ← read_u16;
      session_id ← read_uuid "hello";
      last_received_seq ← read_i64;
      mret (no_run (Hello protocol_version session_id last_received_seq))
  | 11 =>
      cols ← read_u16;
      rows ← read_u16;
      px_width ← read_u16;
      px_height ← read_u16;
      mret (no_run (Resize cols rows px_width px_height))
  | 12 => seq ← read_i64; mret (no_run (Ack seq))
  | 13 => mret (no_run Bye)
  | 14 => timestamp_ms ← read_u64; mret (no_run (Ping timestamp_ms))
  | 15 => index ← read_u32; mret (no_run (RequestBlockOutput index))
  | 16 =>
      request_id ← read_u32;
      verb ← read_u8;
      '(payload, run) ← read_sized_payload elide;
      mret (MetadataRequest request_id verb payload, run)
  | 17 =>
      request_seq ← read_u32;
      verb ← read_u8;
      '(payload, run) ← read_sized_payload elide;
      mret (WorkspaceRequest request_seq verb payload, run)
  | 20 =>
      session_id ← read_uuid "helloAck";
      resume_from_seq ← read_i64;
      returning_client ← read_bool;
      mret (no_run (HelloAck session_id resume_from_seq returning_client))
  | 21 => text ← remaining_str "title"; mret (no_run (Title text))
  | 22 => mret (no_run Bell)
  | 23 =>
      tag ← read_u8;
      match byte_to_Z tag with
      | 0 => mret (no_run (CommandStatusMsg Running))
      | 1 =>
          has_exit ← read_bool;
          exit_raw ← read_i32;
          duration_ms ← read_u32;
          mret (no_run (CommandStatusMsg (Idle (then_some has_exit exit_raw) duration_ms)))
      | _ => parser_fail (malformed ("commandStatus: invalid tag "
                                     +:+ pretty (Z.to_N (byte_to_Z tag))))
      end
  | 24 => timestamp_ms ← read_u64; mret (no_run (Pong timestamp_ms))
  | 25 =>
      title ← read_length_prefixed_str "notification title";
      body ← remaining_str "notification body";
      mret (no_run (Notification title body))
  | 26 => name ← remaining_str "foregroundProcess"; mret (no_run (ForegroundProcess name))
  | 27 =>
      state ← read_u8;
      kind ← read_u8;
      label ← read_length_prefixed_str "claudeStatus label";
      mret (no_run (ClaudeStatus state kind label))
  | 28 =>
      index ← read_u32;
      has_exit ← read_bool;
      exit_raw ← read_i32;
      has_duration ← read_bool;
      duration_raw ← read_u32;
      complete ← read_bool;
      output_len ← read_u32;
      prompt_ordinal ← read_u32;
      command_text ← read_length_prefixed_str "commandBlock commandText";
      mret (no_run (CommandBlock index (then_some has_exit exit_raw)
                      (then_some has_duration duration_raw) complete output_len
                      command_text prompt_ordinal))
  | 29 =>
      index ← read_u32;
      '(output, run) ← read_sized_payload elide;
      mret (BlockOutput index output, run)
  | 30 =>
      request_id ← read_u32;
      status ← read_u8;
      '(payload, run) ← read_sized_payload elide;
      mret (MetadataResponse request_id status payload, run)
  | 31 => enabled ← read_bool; mret (no_run (InputEcho enabled))
  | 32 => state ← read_u8; percent ← read_u8; mret (no_run (Progress state percent))
  | 33 => text ← remaining_str "cwd"; mret (no_run (Cwd text))
  | 34 => text ← remaining_str "projectKey"; mret (no_run (ProjectKey text))
  | 35 =>
      repo_root ← read_length_prefixed_str "projectGitStatus repoRoot";
      branch ← read_length_prefixed_str "projectGitStatus branch";
      ahead ← read_i32;
      behind ← read_i32;
      stash_count ← read_i32;
      staged ← read_u32;
      modified ← read_u32;
      untracked ← read_u32;
      conflicted ← read_u32;
      changed_count ← read_u32;
      mret (no_run (ProjectGitStatusMsg
        (mkGitStatus repo_root branch ahead behind stash_count staged modified untracked
           conflicted changed_count)))
  | 36 =>
      text ← remaining_str "agentSessionIntent";
      mret (no_run (AgentSessionIntent text))
  | 37 =>
      kind ← read_u8;
      epoch ← read_uuid "workspaceEvent epoch";
      base_state_num ← read_i64;
      new_state_num ← read_i64;
      '(payload, run) ← read_sized_payload elide;
      mret (WorkspaceEvent kind epoch base_state_num new_state_num payload, run)
  | _ => parser_fail (UnknownMessageType message_type)
  end.

Definition decode (payload : list byte) : wresult WireMessage :=
  '((m, _), _) ← decode_inner false (reader_new payload); mret m.

Definition decode_leaving_opaque_run (payload : list byte) : wresult (WireMessage * Range) :=
  '(mr, _) ← decode_inner true (reader_new payload); mret mr.

Example decode_exit : decode [byte_of_Z 2; byte_of_Z 255; byte_of_Z 255; byte_of_Z 255; byte_of_Z 254]
  = Ok (Exit (-2)).
Proof. vm_compute. reflexivity. Qed.

Example encode_progress : map byte_to_Z (encode (Progress (byte_of_Z 1) (byte_of_Z 50)))
  = [0; 0; 0; 3; 32; 1; 50].
Proof. vm_compute. reflexivity. Qed.

(** ** The frame as a list of bytes *)

(** The two chunks [put_length_prefixed_str] writes. *)
Definition str_chunks (s : list byte) : list (list byte) :=
  [to_be_bytes 2 (u16_try_from_or_max (zlen (clamp_u16_field s))); clamp_u16_field s].
Definition bool_chunk (v : bool) : list byte := [byte_of_Z (if v then 1 else 0)].
Definition i32_chunk (v : Z) : list byte := to_be_bytes 4 (cast_unsigned 32 v).
Definition i64_chunk (v : Z) : list byte := to_be_bytes 8 (cast_unsigned 64 v).
Definition sized_chunks (run : list byte) : list (list byte) :=
  [to_be_bytes 4 (wire_length (zlen run)); run].

(** Everything after the type byte, in the order it is written. *)
Definition body_chunks (m : WireMessage) (run : list byte) : list (list byte) :=
  match m with
  | Output seq _ => [i64_chunk seq; run]
  | Exit code => [i32_chunk code]
  | Input _ => [run]
  | Hello v sid seq => [to_be_bytes 2 v; sid; i64_chunk seq]
  | Resize c r pw ph => [to_be_bytes 2 c; to_be_bytes 2 r; to_be_bytes 2 pw; to_be_bytes 2 ph]
  | Ack seq => [i64_chunk seq]
  | Bye | Bell => []
  | Ping t | Pong t => [to_be_bytes 8 t]
  | RequestBlockOutput i => [to_be_bytes 4 i]
  | HelloAck sid seq b => [sid; i64_chunk seq; bool_chunk b]
  | Title t | Cwd t | ProjectKey t | AgentSessionIntent t => [t]
  | ForegroundProcess n => [n]
  | ProjectGitStatusMsg s =>
      str_chunks (repo_root s) ++ str_chunks (branch s) ++
      [i32_chunk (ahead s); i32_chunk (behind s); i32_chunk (stash_count s);
       to_be_bytes 4 (staged s); to_be_bytes 4 (modified s); to_be_bytes 4 (untracked s);
       to_be_bytes 4 (conflicted s); to_be_bytes 4 (changed_count s)]
  | Notification t b => str_chunks t ++ [b]
  | ClaudeStatus s k l => [s] :: [k] :: str_chunks l
  | CommandBlock i e d c ol ct po =>
      [to_be_bytes 4 i; bool_chunk (bool_decide (is_Some e)); i32_chunk (default 0 e);
       bool_chunk (bool_decide (is_Some d)); to_be_bytes 4 (default 0 d); bool_chunk c;
       to_be_bytes 4 ol; to_be_bytes 4 po] ++ str_chunks ct
  | BlockOutput i _ => to_be_bytes 4 i :: sized_chunks run
  | MetadataRequest id tag _ | MetadataResponse id tag _ | WorkspaceRequest id tag _ =>
      to_be_bytes 4 id :: [tag] :: sized_chunks run
  | WorkspaceEvent k e b n _ => [k] :: e :: i64_chunk b :: i64_chunk n :: sized_chunks run
  | InputEcho b => [bool_chunk b]
  | Progress s p => [[s]; [p]]
  | CommandStatusMsg s =>
      match s with
      | Running => [[byte_of_Z 0]]
      | Idle e d => [[byte_of_Z 1]; bool_chunk (bool_decide (is_Some e));
                     i32_chunk (default 0 e); to_be_bytes 4 d]
      end
  end.

(** The payload: the type byte and the body. *)
Definition payload_bytes (m : WireMessage) (run : list byte) : list byte :=
  message_type m :: concat (body_chunks m run).

(** The frame: the length prefix and the payload. *)
Definition frame_bytes (m : WireMessage) (run : list byte) : list byte :=
  to_be_bytes 4 (wire_length (zlen (payload_bytes m run))) ++ payload_bytes m run.

(** The encoder is a run of writes, then the back-patch of the prefix. *)
Lemma encode_into_chunks m run w :
  encode_into m run w
  = let w' := put_all w (to_be_bytes 4 0 :: [message_type m] :: body_chunks m run) in
    patch_u32 w' 0 (wire_length (saturating_sub_usize (writer_len w') 4)).
Proof. destruct m as [| | | | | | | | | | | | | | [] | | | | | | | | | | | | | |]; reflexivity. Qed.

(** Over a buffer it grows itself the encoder produces exactly the frame. *)
Lemma encode_frame m : encode m = frame_bytes m (opaque_run m).
Proof.
  unfold encode. rewrite encode_into_chunks. cbv zeta. unfold writer_with_capacity.
  rewrite patched_owned. cbn [into_vec sink].
  by rewrite put_all_owned; unfold writer_len; cbn [sink app concat]; rewrite sat_sub_prefix.
Qed.

Lemma concat_app_chunks (a b : list (list byte)) : concat (a ++ b) = concat a ++ concat b.
Proof. apply concat_app. Qed.

Lemma length_str_chunks s :
  zlen (concat (str_chunks s)) = 2 + zlen (clamp_u16_field s).
Proof. unfold str_chunks. cbn [concat]. len_lia. Qed.

(** Does the message end in an opaque run? *)
Definition carries_run (m : WireMessage) : bool :=
  match m with
  | Output _ _ | Input _ | BlockOutput _ _ | MetadataRequest _ _ _ | MetadataResponse _ _ _
  | WorkspaceRequest _ _ _ | WorkspaceEvent _ _ _ _ _ => true
  | _ => false
  end.

Ltac unfold_chunks :=
  unfold i32_chunk, i64_chunk, bool_chunk, sized_chunks, str_chunks; cbn [concat app].

(** The frame is as long as the table of [wire_byte_count] says, with the run substituted. *)
Lemma frame_bytes_length m run :
  wf_message m ->
  zlen (frame_bytes m run)
  = wire_byte_count m - zlen (opaque_run m) + (if carries_run m then zlen run else 0).
Proof.
  intros Hwf. unfold frame_bytes, payload_bytes, wire_byte_count, SESSION_ID_BYTE_COUNT.
  rewrite length_app, length_to_be_bytes. cbn [length].
  destruct m; cbn [body_chunks opaque_run carries_run]; cbn in Hwf; unfold is_uuid in *;
    try match goal with s : CommandStatus |- _ => destruct s end;
    unfold_chunks; autorewrite with slop_len; cbn [length]; lia.
Qed.

(** ** Reading back what was written *)

(** What the decoder answers for an encoded message: the strings that travel behind a [u16] length
    are clamped by the encoder; everything else comes back as it was. *)
Definition clamp_message (m : WireMessage) : WireMessage :=
  match m with
  | Notification t b => Notification (clamp_u16_field t) b
  | ClaudeStatus s k l => ClaudeStatus s k (clamp_u16_field l)
  | CommandBlock i e d c ol ct po => CommandBlock i e d c ol (clamp_u16_field ct) po
  | ProjectGitStatusMsg s => ProjectGitStatusMsg
      (mkGitStatus (clamp_u16_field (repo_root s)) (clamp_u16_field (branch s)) (ahead s)
         (behind s) (stash_count s) (staged s) (modified s) (untracked s) (conflicted s)
         (changed_count s))
  | _ => m
  end.

(** The message without its opaque run. *)
Definition clear_run (m : WireMessage) : WireMessage :=
  match m with
  | Output seq _ => Output seq []
  | Input _ => Input []
  | BlockOutput i _ => BlockOutput i []
  | MetadataRequest id t _ => MetadataRequest id t []
  | MetadataResponse id t _ => MetadataResponse id t []
  | WorkspaceRequest id t _ => WorkspaceRequest id t []
  | WorkspaceEvent k e b n _ => WorkspaceEvent k e b n []
  | _ => m
  end.

(** Where the run sits in the payload. *)
Definition run_span (m : WireMessage) : Range :=
  if carries_run m
  then mkRange (wire_byte_count m - 4 - zlen (opaque_run m)) (wire_byte_count m - 4)
  else mkRange 0 0.

Lemma ends_chunk {A B} (p : Parser A) (k : A -> Parser B) n c cs v1 v2 :
  runs_at p n c v1 -> ends_at (k v1) (n + zlen c) (concat cs) v2 ->
  ends_at (p ≫= k) n (concat (c :: cs)) v2.
Proof. apply ends_bind. Qed.

Lemma ends_chunk2 {A B} (p : Parser A) (k : A -> Parser B) n c d cs v1 v2 :
  runs_at p n (c ++ d) v1 -> ends_at (k v1) (n + zlen (c ++ d)) (concat cs) v2 ->
  ends_at (p ≫= k) n (concat (c :: d :: cs)) v2.
Proof. intros H1 H2. cbn [concat]. rewrite app_assoc. by eapply ends_bind. Qed.

Lemma ends_last {A B} (p : Parser A) (k : A -> Parser B) n c v1 v2 :
  ends_at p n c v1 -> k v1 = mret v2 -> ends_at (p ≫= k) n (concat [c]) v2.
Proof.
  intros H1 H2 pre Hn. cbn [concat]. rewrite app_nil_r. intros Hmax.
  unfold mbind, parser_bind. rewrite H1 by done. by rewrite H2.
Qed.

Lemma ends_nil {A} n (v v' : A) : v = v' -> ends_at (mret v) n (concat []) v'.
Proof. intros <-. apply runs_ends, runs_ret. Qed.

Lemma runs_read_uuid field n u : is_uuid u -> runs_at (read_uuid field) n u u.
Proof.
  unfold is_uuid. intros Hu. unfold read_uuid.
  eapply runs_lift; [apply runs_read_bytes; unfold SESSION_ID_BYTE_COUNT; lia|].
  by rewrite decide_True.
Qed.

(** The value of an [ends_at] goal may depend on a bound that the slice itself gives. *)
Lemma ends_trailing elide n bs :
  0 <= n ->
  ends_at (read_trailing_payload elide) n bs
    (if elide then [] else bs, mkRange n (n + zlen bs)).
Proof.
  intros H0 pre Hn Hmax. unfold read_trailing_payload, mbind, parser_bind.
  cbn [read_position position rd_offset]. rewrite ends_remaining by done.
  unfold mret, parser_ret, saturating_add_usize. rewrite Z.min_l by len_lia. done.
Qed.

Lemma ends_sized elide n bs :
  0 <= n -> zlen bs < 2 ^ 32 ->
  ends_at (read_sized_payload elide) n (concat (sized_chunks bs))
    (if elide then [] else bs, mkRange (n + 4) (n + 4 + zlen bs)).
Proof.
  intros H0 Hlen. unfold read_sized_payload, sized_chunks.
  eapply ends_chunk.
  { apply runs_read_u32. unfold wire_length. change 0xFFFFFFFF with (Z.ones 32).
    rewrite Z.land_ones by lia. apply Z.mod_pos_bound. lia. }
  rewrite length_to_be_bytes. intros pre Hn Hmax. cbn [concat] in *.
  rewrite app_nil_r in *. unfold mbind, parser_bind. cbn [read_position position rd_offset].
  pose proof (runs_ends _ (n + 4) _ _ (runs_read_bytes (n + 4) bs _ eq_refl)) as R.
  unfold wire_length. change 0xFFFFFFFF with (Z.ones 32).
  rewrite Z.land_ones, Z.mod_small by lia.
  change (Z.of_nat 4) with 4 in *. rewrite R by done.
  unfold mret, parser_ret, saturating_add_usize. rewrite Z.min_l by len_lia. done.
Qed.

Create HintDb slop_reads discriminated.

(** The default of an absent optional is in range. *)
Lemma default_i32 e : opt_range (i_range 32) e -> i_range 32 (default 0 e).
Proof. destruct e; cbn; [done|]. unfold i_range. lia. Qed.
Lemma default_u32 e : opt_range (u_range 32) e -> u_range 32 (default 0 e).
Proof. destruct e; cbn; [done|]. unfold u_range. lia. Qed.
#[export] Hint Resolve default_i32 default_u32 : slop_reads.

Lemma then_some_default (e : option Z) :
  then_some (bool_decide (is_Some e)) (default 0 e) = e.
Proof. by destruct e. Qed.

Lemma ends_sized_last {B} (k : list byte * Range -> Parser B) (elide : bool) n bs v2 :
  0 <= n -> zlen bs < 2 ^ 32 ->
  k (if elide then [] else bs, mkRange (n + 4) (n + 4 + zlen bs)) = mret v2 ->
  ends_at (read_sized_payload elide ≫= k) n (concat (sized_chunks bs)) v2.
Proof.
  intros H0 Hl Hk pre Hn Hmax. unfold mbind, parser_bind.
  rewrite ends_sized by done. by rewrite Hk.
Qed.

(** The answer of an arm that ends in a run: the message, whole or without the run, and its span. *)
Ltac finish_run elide :=
  cbv beta iota; apply f_equal; apply f_equal2;
  [ by destruct elide
  | unfold run_span, wire_byte_count, is_uuid in *; cbn [carries_run opaque_run];
    apply f_equal2; len_lia ].

(** Discharge one read of a chunk by the law of that read. *)
Ltac solve_read :=
  lazymatch goal with
  | |- runs_at next_byte _ _ _ => apply runs_next_byte
  | |- runs_at read_u8 _ _ _ => apply runs_next_byte
  | |- runs_at read_bool _ _ _ => apply runs_read_bool
  | |- runs_at read_u16 _ _ _ => apply runs_read_u16
  | |- runs_at read_u32 _ _ _ => apply runs_read_u32
  | |- runs_at read_u64 _ _ _ => apply runs_read_u64
  | |- runs_at read_i32 _ _ _ => apply runs_read_i32
  | |- runs_at read_i64 _ _ _ => apply runs_read_i64
  | |- runs_at (read_uuid _) _ _ _ => apply runs_read_uuid
  | |- runs_at (read_length_prefixed_str _) _ _ _ => apply runs_read_length_prefixed_str
  end; eauto with slop_reads.

Ltac read_chunk :=
  lazymatch goal with
  | |- ends_at (mbind _ (read_length_prefixed_str _)) _ _ _ => eapply ends_chunk2
  | |- ends_at (mbind _ (read_trailing_payload _)) _ _ _ => fail
  | |- ends_at (mbind _ (read_sized_payload _)) _ _ _ => fail
  | |- ends_at (mbind _ (remaining_str _)) _ _ _ => fail
  | |- ends_at (mbind _ _) _ _ _ => eapply ends_chunk
  end; [solve [solve_read]|]; cbv beta iota.

(** Compute the type byte a message carries, so that the decoder's table picks its arm. *)
Ltac fold_type_byte :=
  repeat match goal with
  | |- context [byte_to_Z (byte_of_Z (Zpos ?k))] =>
      change (byte_to_Z (byte_of_Z (Zpos k))) with (Zpos k)
  | |- context [byte_to_Z (byte_of_Z 0)] => change (byte_to_Z (byte_of_Z 0)) with 0
  end.

Lemma decode_payload elide m :
  wf_message m -> zlen (opaque_run m) < 2 ^ 32 ->
  ends_at (decode_inner elide) 0 (payload_bytes m (opaque_run m))
    ((if elide then clear_run (clamp_message m) else clamp_message m), run_span m).
Proof.
  intros Hwf Hrun. unfold payload_bytes, decode_inner, read_u8.
  change (message_type m :: concat (body_chunks m (opaque_run m)))
    with (concat ([message_type m] :: body_chunks m (opaque_run m))).
  eapply ends_chunk; [apply runs_next_byte|].
  destruct m as [| | | | | | | | | | | | | | [] | | | | | | | | | | | | | |];
    cbn [body_chunks opaque_run] in *; cbn in Hwf; destruct_and?;
    unfold message_type; fold_type_byte; cbv beta iota;
    unfold bool_chunk, i32_chunk, i64_chunk, read_u8; repeat read_chunk;
    fold_type_byte; cbv beta iota; repeat read_chunk.
  all: first
    [ solve [apply ends_nil; unfold no_run; rewrite ?then_some_default; by destruct elide]
    | solve [eapply ends_last; [by apply ends_remaining_str|]; by destruct elide]
    | solve [eapply ends_last; [apply ends_trailing; lia|]; finish_run elide]
    | solve [apply ends_sized_last; [lia|assumption|]; finish_run elide] ].
Qed.

(** ** The two decoders on any input *)

(** [eliding p q]: on the same input, [p] answers what [q] answers, less the opaque run, and the
    range both answer names exactly that run. *)
Section Eliding.
Context {M : Type} (clear : M -> M) (run_of : M -> list byte).

Definition eliding (p q : Parser (M * Range)) : Prop :=
  forall r, rd_ok r -> zlen (rd_data r) <= usize_max ->
  match q r with
  | Ok (m, rg, r') =>
      p r = Ok (clear m, rg, r')
      /\ get_range (rd_data r) (r_start rg) (r_end rg) = Some (run_of m)
  | Err e => p r = Err e
  end.

Lemma eliding_bind {A} (p : Parser A) P k1 k2 :
  yields p P -> (forall a, P a -> eliding (k1 a) (k2 a)) ->
  eliding (p ≫= k1) (p ≫= k2).
Proof.
  intros Hp Hk r Hok Hmax. unfold mbind, parser_bind.
  destruct (p r) as [[a r1]|e] eqn:E; [|done].
  destruct (Hp _ _ _ Hok E) as [Ha Hadv].
  pose proof (Hk a Ha r1 (rd_advances_ok _ _ Hok Hadv)) as H.
  destruct Hadv as [Ed _]. rewrite Ed in H. by apply H.
Qed.

Lemma eliding_pure m :
  clear m = m -> run_of m = [] ->
  eliding (mret (m, mkRange 0 0)) (mret (m, mkRange 0 0)).
Proof.
  intros Hc Ho r Hok Hmax. cbn. rewrite Hc, Ho. split; [done|].
  rewrite get_range_Some by lia. done.
Qed.

Lemma eliding_fail e : eliding (parser_fail e) (parser_fail e).
Proof. by intros r Hok Hmax. Qed.
End Eliding.

Abbreviation eliding_wire := (eliding clear_run opaque_run).

Section Runs.
Context (C : list byte -> WireMessage).
Hypothesis C_clear : forall p, clear_run (C p) = C [].
Hypothesis C_run : forall p, opaque_run (C p) = p.

Lemma eliding_trailing :
  eliding_wire ('(p, run) ← read_trailing_payload true; mret (C p, run))
          ('(p, run) ← read_trailing_payload false; mret (C p, run)).
Proof.
  intros [d o] Hok Hmax. unfold rd_ok in Hok. cbn in Hok, Hmax.
  unfold read_trailing_payload, mbind, parser_bind.
  cbn [read_position position rd_offset remaining rd_data].
  unfold mret, parser_ret, get_from. rewrite get_range_Some by lia.
  cbn [default from_option id rd_data]. rewrite C_clear, C_run. split; [done|].
  cbn [r_start r_end]. unfold saturating_add_usize. rewrite Z.min_l by len_lia.
  rewrite get_range_Some by len_lia. f_equal. f_equal. len_lia.
Qed.

Lemma eliding_sized :
  eliding_wire ('(p, run) ← read_sized_payload true; mret (C p, run))
          ('(p, run) ← read_sized_payload false; mret (C p, run)).
Proof.
  intros r Hok Hmax. unfold read_sized_payload, mbind, parser_bind.
  destruct (read_u32 r) as [[len r1]|] eqn:E1; [|done].
  destruct (yields_read_u32 _ _ _ Hok E1) as [Hlen Hadv].
  pose proof (rd_advances_ok _ _ Hok Hadv) as Hok1. unfold u_range in Hlen.
  cbn [read_position]. destruct (read_bytes len r1) as [[bs r2]|] eqn:E2; [|done].
  unfold mret, parser_ret. rewrite C_clear, C_run. split; [done|].
  destruct r1 as [d o], Hadv as [Ed Hadv]. cbn in Ed, Hadv. rewrite <- Ed in *.
  unfold read_bytes, rd_ok, position in *. cbn [rd_data rd_offset r_start r_end] in *.
  destruct (checked_add_usize o len) as [e|] eqn:E3; [|done].
  destruct (get_range d o e) as [s|] eqn:E4; [|done]. simplify_eq.
  unfold checked_add_usize in E3. case_Z_in E3; simplify_eq.
  pose proof (get_range_length _ _ _ _ E4). unfold saturating_add_usize.
  rewrite Z.min_l by lia. rewrite <- E4. f_equal. lia.
Qed.
End Runs.

Lemma yields_read_uuid field : yields (read_uuid field) is_uuid.
Proof.
  eapply yields_bind; [by apply yields_read_bytes|]. intros bs Hbs.
  apply yields_lift. intros a. case_decide; intros; by simplify_eq.
Qed.
#[export] Hint Resolve yields_read_uuid : slop.

Ltac solve_eliding :=
  repeat first
    [ apply eliding_fail
    | apply eliding_pure; reflexivity
    | eapply eliding_trailing; intros; reflexivity
    | eapply eliding_sized; intros; reflexivity
    | eapply eliding_bind; [solve [eauto with slop nocore]|]; intros ? _ ].

(** Split a match of the model on a byte's value into its arms. *)
Ltac split_table :=
  match goal with
  | |- context [match ?x with Z0 => _ | Zpos _ => _ | Zneg _ => _ end] =>
      let p := fresh "p" in
      destruct x as [|p|p]; [|do 6 (try destruct p as [p|p|])|]
  end.

Lemma decode_inner_eliding : eliding_wire (decode_inner true) (decode_inner false).
Proof.
  unfold decode_inner, read_u8.
  eapply eliding_bind; [apply yields_next_byte|]. intros t _.
  split_table; cbv beta iota; solve_eliding.
  split_table; cbv beta iota; solve_eliding.
Qed.

(** ** The decoder's type: whatever it answers is a well-formed message *)

Definition wf_answer (mr : WireMessage * Range) : Prop := wf_message (fst mr).

Lemma yields_trailing elide : yields (read_trailing_payload elide) (fun _ => True).
Proof.
  eapply yields_bind; [apply yields_position|]. intros.
  eapply yields_bind; [apply yields_remaining|]. intros. by apply yields_ret.
Qed.

Lemma yields_sized elide : yields (read_sized_payload elide) (fun _ => True).
Proof.
  eapply yields_bind; [apply yields_read_u32|]. intros len [? ?].
  eapply yields_bind; [apply yields_position|]. intros.
  eapply yields_bind; [by apply yields_read_bytes|]. intros. by apply yields_ret.
Qed.

Lemma opt_range_then_some P b v : P v -> opt_range P (then_some b v).
Proof. by destruct b. Qed.

#[export] Hint Resolve yields_trailing yields_sized : slop.

Ltac solve_wf :=
  repeat first
    [ apply yields_fail
    | apply yields_ret; unfold wf_answer, no_run, is_str; cbn; cbv beta in *;
      destruct_and?; split_and?; solve [assumption | apply opt_range_then_some; assumption | exact I]
    | eapply yields_bind; [solve [eauto with slop nocore]|];
      first [intros [? ?] _ | intros ? ?] ].

Lemma decode_inner_wf elide : yields (decode_inner elide) wf_answer.
Proof.
  unfold decode_inner, read_u8.
  eapply yields_bind; [apply yields_next_byte|]. intros t _.
  split_table; cbv beta iota; solve_wf.
  split_table; cbv beta iota; solve_wf.
Qed.

Lemma rd_ok_new payload : rd_ok (reader_new payload).
Proof. unfold rd_ok, reader_new. cbn. lia. Qed.

(** The message with its opaque run replaced. *)
Definition set_run (m : WireMessage) (run : list byte) : WireMessage :=
  match m with
  | Output seq _ => Output seq run
  | Input _ => Input run
  | BlockOutput i _ => BlockOutput i run
  | MetadataRequest id t _ => MetadataRequest id t run
  | MetadataResponse id t _ => MetadataResponse id t run
  | WorkspaceRequest id t _ => WorkspaceRequest id t run
  | WorkspaceEvent k e b n _ => WorkspaceEvent k e b n run
  | _ => m
  end.

Lemma set_run_clear m : set_run (clear_run m) (opaque_run m) = m.
Proof. by destruct m. Qed.

Lemma frame_prefix m run :
  drop 4 (frame_bytes m run) = payload_bytes m run.
Proof. unfold frame_bytes. by rewrite drop_app_ge, length_to_be_bytes by len_lia. Qed.

Lemma wire_length_small v : 0 <= v < 2 ^ 32 -> wire_length v = v.
Proof.
  intros. unfold wire_length. change 0xFFFFFFFF with (Z.ones 32).
  rewrite Z.land_ones by lia. by apply Z.mod_small.
Qed.

Lemma encode_length m : wf_message m -> zlen (encode m) = wire_byte_count m.
Proof.
  intros Hwf. rewrite encode_frame, frame_bytes_length by done.
  destruct m; cbn; lia.
Qed.

(** The clamp changes no size: what the receiver counts is what the sender wrote. *)
Lemma clamp_u16_idem s : is_str s -> clamp_u16_field (clamp_u16_field s) = clamp_u16_field s.
Proof. intros. by apply clamp_u16_id, clamp_u16_length. Qed.

Lemma wire_byte_count_clamp m :
  wf_message m -> wire_byte_count (clamp_message m) = wire_byte_count m.
Proof.
  intros Hwf. unfold wire_byte_count. destruct m; cbn in *; destruct_and?;
    rewrite ?clamp_u16_idem by done; done.
Qed.

Lemma opaque_run_le m : wf_message m -> zlen (opaque_run m) <= wire_byte_count m.
Proof.
  intros Hwf. unfold wire_byte_count, SESSION_ID_BYTE_COUNT.
  destruct m; cbn [opaque_run length]; try lia. destruct status; lia.
Qed.

Lemma decode_payload_bytes elide m :
  wf_message m -> wire_byte_count m < 2 ^ 32 ->
  exists r', decode_inner elide (reader_new (payload_bytes m (opaque_run m)))
    = Ok ((if elide then clear_run (clamp_message m) else clamp_message m), run_span m, r').
Proof.
  intros Hwf Hlen. pose proof (opaque_run_le m Hwf).
  pose proof (frame_bytes_length m (opaque_run m) Hwf) as Hf.
  unfold frame_bytes in Hf. rewrite length_app, length_to_be_bytes in Hf.
  pose proof (decode_payload elide m Hwf ltac:(lia) [] eq_refl) as D. cbn [app] in D.
  eexists. apply D. unfold usize_max. destruct (carries_run m); lia.
Qed.

(** ** The codec's contract *)

(** C20: [WireMessage::decode] reads back every message [encode] writes.  The four prefix bytes hold
    the length of what follows; decoding what follows answers the message, with the strings that
    travel behind a [u16] length clamped at a character boundary (and so unchanged when they
    fit). *)
Theorem wire_roundtrip m :
  wf_message m -> wire_byte_count m < 2 ^ 32 ->
  from_be_bytes (take 4 (encode m)) = zlen (encode m) - 4
  /\ decode (drop 4 (encode m)) = Ok (clamp_message m).
Proof.
  intros Hwf Hlen. pose proof (encode_length m Hwf) as El.
  rewrite encode_frame in *. split.
  - unfold frame_bytes in *. rewrite length_app, length_to_be_bytes in *.
    rewrite take_app_le, take_ge by len_lia.
    rewrite wire_length_small, from_to_be_bytes_small
      by (try change (256 ^ Z.of_nat 4) with (2 ^ 32); lia). lia.
  - rewrite frame_prefix. unfold decode.
    destruct (decode_payload_bytes false m Hwf Hlen) as [r' ->]. done.
Qed.

Definition sample_message : WireMessage :=
  ProjectGitStatusMsg (mkGitStatus (map byte_of_Z [47; 114; 195; 169]) [] (-1) 2 0 1 2 3 0 6).

Lemma wire_roundtrip_witness :
  wf_message sample_message /\ decode (drop 4 (encode sample_message)) = Ok sample_message.
Proof.
  assert (H : wf_message sample_message).
  { repeat split; try reflexivity; vm_compute; intuition congruence. }
  split; [exact H|]. apply (wire_roundtrip sample_message H). vm_compute. reflexivity.
Defined.

(** [wire_byte_count] is the exact size of the frame [encode] produces, for every well-formed
    message: the receiver's credit equals the sender's debit. *)
Theorem wire_byte_count_exact m :
  wf_message m -> zlen (encode m) = wire_byte_count m.
Proof. apply encode_length. Qed.

Lemma wire_byte_count_exact_witness : zlen (encode (Exit (-7))) = wire_byte_count (Exit (-7)).
Proof. apply (wire_byte_count_exact (Exit (-7))). vm_compute. intuition congruence. Defined.

Lemma decode_leaving_agrees_raw payload :
  zlen payload <= usize_max ->
  match decode_leaving_opaque_run payload with
  | Ok (m, rg) => exists run, get_range payload (r_start rg) (r_end rg) = Some run
                              /\ decode payload = Ok (set_run m run)
  | Err e => decode payload = Err e
  end.
Proof.
  intros Hmax. pose proof (decode_inner_eliding _ (rd_ok_new payload) Hmax) as H.
  unfold decode_leaving_opaque_run, decode.
  destruct (decode_inner false (reader_new payload)) as [[[m rg] r']|e].
  - destruct H as [-> Hrun]. cbn. exists (opaque_run m). by rewrite set_run_clear.
  - by rewrite H.
Qed.

(** [decode_leaving_opaque_run] is [decode] with the copy left out, on EVERY input: both fault
    with the same error, or both answer, and then the range names, inside the payload, exactly the
    bytes that complete the eliding answer into the other. *)
Theorem decode_leaving_agrees payload :
  zlen payload <= usize_max ->
  match decode_leaving_opaque_run payload with
  | Ok (m, rg) => exists run, get_range payload (r_start rg) (r_end rg) = Some run
                              /\ decode payload = Ok (set_run m run)
  | Err e => decode payload = Err e
  end.
Proof. apply decode_leaving_agrees_raw. Qed.

Lemma decode_leaving_agrees_witness :
  decode_leaving_opaque_run (map byte_of_Z [3; 104; 105]) = Ok (Input [], mkRange 1 3)
  /\ exists run, get_range (map byte_of_Z [3; 104; 105]) 1 3 = Some run
     /\ decode (map byte_of_Z [3; 104; 105]) = Ok (Input run).
Proof.
  split; [vm_compute; reflexivity|].
  exact (decode_leaving_agrees (map byte_of_Z [3; 104; 105]) ltac:(vm_compute; congruence)).
Defined.

(** C22: whatever [decode] answers, on any bytes a peer can send, is a well-formed message: every
    integer is within its width, every UUID is 16 bytes, every string is valid UTF-8. *)
Theorem decode_well_formed payload m : decode payload = Ok m -> wf_message m.
Proof.
  unfold decode. destruct (decode_inner false (reader_new payload)) as [[[m' rg] r']|e] eqn:E;
    cbn; unfold mret, result_ret; intros H; simplify_eq.
  destruct (decode_inner_wf false _ _ _ (rd_ok_new payload) E) as [Hw _]. exact Hw.
Qed.

Lemma decode_well_formed_witness : wf_message (Title (map byte_of_Z [226; 130; 172])).
Proof.
  apply (decode_well_formed (map byte_of_Z [21; 226; 130; 172])). vm_compute. reflexivity.
Defined.

(** Over a lent buffer with room, the writes land at its front and the rest is untouched. *)
Lemma encode_into_borrowed m run out :
  zlen out <= usize_max -> zlen (frame_bytes m run) <= zlen out ->
  encode_into m run (writer_borrowing out)
  = mkWriter (Borrowed (frame_bytes m run ++ drop (length (frame_bytes m run)) out)
                (zlen (frame_bytes m run))).
Proof.
  intros Hmax Hfit. unfold frame_bytes in Hfit. rewrite length_app, length_to_be_bytes in Hfit.
  rewrite encode_into_chunks. cbv zeta.
  assert (E : forall chunks, zlen (to_be_bytes 4 0 ++ concat chunks) <= zlen out ->
    writer_len (put_all (writer_borrowing out) (to_be_bytes 4 0 :: chunks))
    = zlen (to_be_bytes 4 0 ++ concat chunks)).
  { intros chunks Hc. by rewrite writer_len_put_all by (cbn [writer_len writer_borrowing sink concat]; lia). }
  assert (Hc : zlen (to_be_bytes 4 0 ++ payload_bytes m run) <= zlen out) by len_lia.
  rewrite E, sat_sub_prefix, patched_borrowed by done. done.
Qed.

Lemma frame_set_run m run : frame_bytes (set_run m run) run = frame_bytes m run.
Proof. by destruct m. Qed.

Lemma opaque_set_run m run : carries_run m = true -> opaque_run (set_run m run) = run.
Proof. by destruct m. Qed.

(** [encode_with_run_into] is [encode] into a lent buffer.  With the run held apart from the
    message it answers the size the frame needs; when the buffer has that much room the front of it
    holds exactly the bytes [encode] gives the message carrying that run and the rest is untouched,
    and when it has not, nothing is written. *)
Theorem encode_with_run_into_refines m run out :
  wf_message m -> carries_run m = true ->
  zlen out <= usize_max -> wire_byte_count m <= usize_max ->
  wire_byte_count (set_run m run) <= usize_max ->
  encode_with_run_into m run out =
    let frame := encode (set_run m run) in
    if zlen out <? zlen frame then (out, zlen frame)
    else (frame ++ drop (length frame) out, zlen frame).
Proof.
  intros Hwf Hrun Hout Hm Hset.
  assert (Ef : encode (set_run m run) = frame_bytes m run).
  { by rewrite encode_frame, opaque_set_run, frame_set_run. }
  assert (Hwf' : wf_message (set_run m run)) by (by destruct m).
  pose proof (encode_length _ Hwf') as El. rewrite Ef in El.
  pose proof (frame_bytes_length m run Hwf) as Hl. rewrite Hrun in Hl.
  pose proof (opaque_run_le m Hwf).
  unfold encode_with_run_into, wire_byte_count_with_run, saturating_add_usize,
    saturating_sub_usize. cbv zeta. rewrite Ef, Z.max_l, Z.min_l, <- Hl by lia.
  destruct (Z.ltb_spec (zlen out) (zlen (frame_bytes m run))); [done|].
  by rewrite encode_into_borrowed by lia.
Qed.

Lemma encode_with_run_into_refines_witness :
  encode_with_run_into (Output 1 []) [byte_of_Z 65] (replicate 15 (byte_of_Z 7))
  = (encode (Output 1 [byte_of_Z 65]) ++ [byte_of_Z 7], 14).
Proof.
  rewrite (encode_with_run_into_refines (Output 1 []) [byte_of_Z 65]
             (replicate 15 (byte_of_Z 7))).
  - vm_compute. reflexivity.
  - vm_compute. intuition congruence.
  - reflexivity.
  - vm_compute. congruence.
  - vm_compute. congruence.
  - vm_compute. congruence.
Defined.
