(* ===== verification/Framing.v ===== *)
(** * Framing: the length-prefixed receive buffer

    Models [slopdesk-wire/src/framing.rs], the [PrefixedReader] both streaming decoders read
    through, and [slopdesk-wire/src/frame.rs], the [FrameDecoder] of terminal messages.

    The contract the reader promises its clients is an abstract receiver that holds only the bytes
    not yet consumed, or the fault that ended it ([Receiver]); the reader, with its cursor, its lazy
    and its deferred compaction, refines it. *)

From S2P Require Import Prelude Bytes Message Codec.

Definition PREFIX_LENGTH : Z := 4.
Definition COMPACTION_THRESHOLD : Z := 64 * 1024.

(** ** [PrefixedReader] *)

Record PrefixedReader : Type := mkPrefixedReader {
  buffer : list byte;
  read_offset : Z;
  fault : option WireError;
  deferred_compaction : bool;
}.

Definition reader_init : PrefixedReader := mkPrefixedReader [] 0 None false.

(** [compact_consumed]: [buffer.drain(..read_offset)]. *)
Definition compact_consumed (st : PrefixedReader) : PrefixedReader :=
  if 0 <? read_offset st
  then mkPrefixedReader (drop (Z.to_nat (read_offset st)) (buffer st)) 0 (fault st)
         (deferred_compaction st)
  else st.

Definition set_deferred (st : PrefixedReader) (b : bool) : PrefixedReader :=
  mkPrefixedReader (buffer st) (read_offset st) (fault st) b.
Definition set_read_offset (st : PrefixedReader) (o : Z) : PrefixedReader :=
  mkPrefixedReader (buffer st) o (fault st) (deferred_compaction st).

Definition settle_owed_compaction (st : PrefixedReader) : PrefixedReader :=
  if deferred_compaction st then compact_consumed (set_deferred st false) else st.

Definition compact (st : PrefixedReader) (elide : bool) : PrefixedReader :=
  if elide then set_deferred st true else compact_consumed st.

Definition append (st : PrefixedReader) (data : list byte) : PrefixedReader :=
  match fault st with
  | Some _ => st
  | None =>
    let st := settle_owed_compaction st in
    mkPrefixedReader (buffer st ++ data) (read_offset st) (fault st) (deferred_compaction st)
  end.

Definition buffered_byte_count (st : PrefixedReader) : Z := zlen (buffer st).

Definition bytes (st : PrefixedReader) (run : Range) : list byte :=
  default [] (get_range (buffer st) (r_start run) (r_end run)).

(** [poison]: the poisoned reader; the fault itself is answered by the caller. *)
Definition poison (st : PrefixedReader) (error : WireError) : PrefixedReader :=
  mkPrefixedReader [] 0 (Some error) false.

Definition read_prefix (st : PrefixedReader) : Z :=
  match get_range (buffer st) (read_offset st) (read_offset st + PREFIX_LENGTH) with
  | Some prefix => from_be_bytes prefix
  | None => 0
  end.

Section NextPayload.
Context {T : Type} (decode : list byte -> wresult (T * Range)).

Definition next_payload (elide : bool) (st : PrefixedReader)
  : wresult (option (T * Range)) * PrefixedReader :=
  match fault st with
  | Some f => (Err f, st)
  | None =>
    let st := settle_owed_compaction st in
    let available := zlen (buffer st) - read_offset st in
    if available <? PREFIX_LENGTH then (Ok None, compact st elide) else
    let payload_length := read_prefix st in
    if MAX_FRAME_PAYLOAD_LENGTH <? payload_length
    then let e := FrameTooLarge payload_length in (Err e, poison st e) else
    let frame_length := PREFIX_LENGTH + payload_length in
    if available <? frame_length then (Ok None, compact st elide) else
    let payload_start := read_offset st + PREFIX_LENGTH in
    let payload_end := read_offset st + frame_length in
    let decoded :=
      payload ← ok_or (get_range (buffer st) payload_start payload_end) Truncated;
      decode payload in
    let st := set_read_offset st (read_offset st + frame_length) in
    let st := if COMPACTION_THRESHOLD <=? read_offset st then compact st elide else st in
    match decoded with
    | Ok (value, run) =>
        (Ok (Some (value, mkRange (saturating_add_usize payload_start (r_start run))
                                  (saturating_add_usize payload_start (r_end run)))), st)
    | Err error => (Err error, poison st error)
    end
  end.
End NextPayload.

(** ** The abstract receiver *)

Inductive Receiver : Type :=
| Live (pending : list byte)
| Dead (e : WireError).

Definition recv_append (s : Receiver) (data : list byte) : Receiver :=
  match s with Live p => Live (p ++ data) | Dead e => Dead e end.

(** What the first frame of the pending bytes is. *)
Inductive frame_view : Type :=
| Incomplete
| TooLarge (claimed : Z)
| Whole (payload rest : list byte).

Definition first_frame (p : list byte) : frame_view :=
  if zlen p <? 4 then Incomplete else
  let n := from_be_bytes (take 4 p) in
  if MAX_FRAME_PAYLOAD_LENGTH <? n then TooLarge n else
  if zlen p <? 4 + n then Incomplete
  else Whole (take (Z.to_nat n) (drop 4 p)) (drop (Z.to_nat n) (drop 4 p)).

Definition recv_next {T} (decode : list byte -> wresult T) (s : Receiver)
  : wresult (option T) * Receiver :=
  match s with
  | Dead e => (Err e, Dead e)
  | Live p =>
    match first_frame p with
    | Incomplete => (Ok None, Live p)
    | TooLarge n => (Err (FrameTooLarge n), Dead (FrameTooLarge n))
    | Whole payload rest =>
      match decode payload with
      | Ok t => (Ok (Some t), Live rest)
      | Err e => (Err e, Dead e)
      end
    end
  end.

(** ** The reader refines the receiver *)

Definition pending (st : PrefixedReader) : list byte :=
  drop (Z.to_nat (read_offset st)) (buffer st).

Definition abs_reader (st : PrefixedReader) : Receiver :=
  match fault st with Some e => Dead e | None => Live (pending st) end.

(** The cursor stays inside the buffer; the wasted head is bounded, or its reclaim is owed; a
    poisoned reader holds nothing. *)
Record reader_inv (st : PrefixedReader) : Prop := {
  inv_offset : 0 <= read_offset st <= zlen (buffer st);
  inv_head : read_offset st < COMPACTION_THRESHOLD \/ deferred_compaction st = true;
  inv_fault : fault st <> None -> buffer st = [] /\ deferred_compaction st = false;
}.

Lemma reader_inv_init : reader_inv reader_init.
Proof. split; cbn; [lia|left; done|done]. Qed.

Lemma reader_inv_poison st e : reader_inv (poison st e).
Proof. split; cbn; [lia|left; done|done]. Qed.

Lemma compact_consumed_pending st : pending (compact_consumed st) = pending st.
Proof.
  unfold compact_consumed, pending.
  destruct (Z.ltb_spec 0 (read_offset st)); [|done]. done.
Qed.

Lemma compact_consumed_inv st : reader_inv st -> reader_inv (compact_consumed st).
Proof.
  intros [Ho Hh Hf]. unfold compact_consumed.
  destruct (Z.ltb_spec 0 (read_offset st)); [|by split].
  split; cbn; [lia|left; done|]. intros Hne. destruct (Hf Hne) as [-> ->]. by rewrite drop_nil.
Qed.

Lemma set_deferred_false_inv st :
  reader_inv st -> reader_inv (compact_consumed (set_deferred st false)).
Proof.
  intros [Ho Hh Hf]. unfold compact_consumed. cbn.
  destruct (Z.ltb_spec 0 (read_offset st)).
  - split; cbn; [lia|left; done|]. intros Hne. destruct (Hf Hne) as [-> _]. by rewrite drop_nil.
  - split; cbn; [lia|left; unfold COMPACTION_THRESHOLD; lia|]. intros Hne. by destruct (Hf Hne).
Qed.

Lemma settle_inv st : reader_inv st -> reader_inv (settle_owed_compaction st).
Proof.
  intros H. unfold settle_owed_compaction. destruct (deferred_compaction st); [|done].
  by apply set_deferred_false_inv.
Qed.

(** After settling, nothing is owed and the head is bounded. *)
Lemma settle_settled st :
  reader_inv st ->
  deferred_compaction (settle_owed_compaction st) = false
  /\ read_offset (settle_owed_compaction st) < COMPACTION_THRESHOLD
  /\ fault (settle_owed_compaction st) = fault st
  /\ pending (settle_owed_compaction st) = pending st.
Proof.
  intros [Ho Hh Hf]. unfold settle_owed_compaction.
  destruct (deferred_compaction st) eqn:Ed.
  - unfold compact_consumed, pending. cbn.
    destruct (Z.ltb_spec 0 (read_offset st)); cbn; split_and!; try done.
    unfold COMPACTION_THRESHOLD; lia.
  - split_and!; try done. destruct Hh; [done|congruence].
Qed.

Lemma compact_inv st elide :
  0 <= read_offset st <= zlen (buffer st) -> fault st = None ->
  (elide = true \/ deferred_compaction st = false) ->
  reader_inv (compact st elide) /\ fault (compact st elide) = None
  /\ pending (compact st elide) = pending st
  /\ (elide = true -> buffer (compact st elide) = buffer st).
Proof.
  intros Ho Hf He. unfold compact, compact_consumed, pending, set_deferred.
  destruct elide; cbn.
  - split_and!; try done. split; cbn; [lia|by right|congruence].
  - destruct (Z.ltb_spec 0 (read_offset st)); cbn; split_and!; try done;
      split; cbn; try lia; try congruence; try (left; unfold COMPACTION_THRESHOLD; lia).
Qed.

Lemma pending_length st :
  0 <= read_offset st <= zlen (buffer st) ->
  zlen (pending st) = zlen (buffer st) - read_offset st.
Proof. intros. unfold pending. rewrite length_drop. lia. Qed.

Lemma read_prefix_pending st :
  0 <= read_offset st -> 4 <= zlen (buffer st) - read_offset st ->
  read_prefix st = from_be_bytes (take 4 (pending st)).
Proof.
  intros. unfold read_prefix, PREFIX_LENGTH, pending.
  rewrite get_range_Some by lia. do 2 f_equal. lia.
Qed.

Lemma append_refines st data :
  reader_inv st ->
  reader_inv (append st data)
  /\ abs_reader (append st data) = recv_append (abs_reader st) data.
Proof.
  intros Hinv. unfold append, abs_reader. destruct (fault st) eqn:Ef.
  - rewrite Ef. done.
  - destruct (settle_settled st Hinv) as (Hd & Hb & Hf & Hp).
    pose proof (settle_inv st Hinv) as [Ho _ _].
    rewrite Ef in Hf. cbn. rewrite Hf. split.
    + split; cbn; [len_lia|by left|congruence].
    + cbn. f_equal. rewrite <- Hp. unfold pending. cbn.
      rewrite drop_app_le by lia. done.
Qed.

#[export] Instance result_fmap {E} : FMap (result E) :=
  fun _ _ f m => match m with Ok a => Ok (f a) | Err e => Err e end.

(** What an answer and the reader it leaves have to do with the first pending frame. *)
Definition answers {T} (decode : list byte -> wresult (T * Range)) (elide : bool)
    (pending0 : list byte) (ans : wresult (option (T * Range))) (st' : PrefixedReader) : Prop :=
  match first_frame pending0 with
  | Incomplete => ans = Ok None /\ abs_reader st' = Live pending0
      /\ (elide = false -> read_offset st' = 0)
  | TooLarge n => ans = Err (FrameTooLarge n) /\ abs_reader st' = Dead (FrameTooLarge n)
  | Whole payload rest =>
    match decode payload with
    | Ok (v, rg) => exists rg', ans = Ok (Some (v, rg')) /\ abs_reader st' = Live rest
        /\ (elide = true -> forall bs, get_range payload (r_start rg) (r_end rg) = Some bs ->
              bytes st' rg' = bs)
    | Err e => ans = Err e /\ abs_reader st' = Dead e
    end
  end.

(** A run named in payload coordinates, rebased by where the payload starts. *)
Lemma rebased_run (buf payload bs : list byte) start rg :
  get_range buf start (start + zlen payload) = Some payload ->
  get_range payload (r_start rg) (r_end rg) = Some bs ->
  zlen buf <= usize_max ->
  get_range buf (saturating_add_usize start (r_start rg))
    (saturating_add_usize start (r_end rg)) = Some bs.
Proof.
  intros Eg Hbs Hmax.
  destruct (get_range_inv _ _ _ _ Hbs) as (? & ? & l1 & l3 & El & Hl1).
  pose proof (get_range_length _ _ _ _ Hbs).
  destruct (get_range_inv _ _ _ _ Eg) as (? & ? & k1 & k3 & Ek & Hk).
  unfold saturating_add_usize. rewrite !Z.min_l by lia.
  rewrite Ek, El, <- !app_assoc, (app_assoc k1).
  by rewrite (get_range_app (k1 ++ l1) bs) by len_lia.
Qed.

(** Settling and compacting only ever shrink the buffer. *)
Lemma compact_shrinks st : zlen (buffer (compact_consumed st)) <= zlen (buffer st).
Proof. unfold compact_consumed. case_Z; cbn; len_lia. Qed.
Lemma settle_shrinks st : zlen (buffer (settle_owed_compaction st)) <= zlen (buffer st).
Proof.
  unfold settle_owed_compaction. destruct (deferred_compaction st); [|lia].
  etransitivity; [apply compact_shrinks|done].
Qed.

Lemma next_payload_answers {T} (decode : list byte -> wresult (T * Range)) elide st0 :
  fault st0 = None -> reader_inv st0 -> zlen (buffer st0) <= usize_max ->
  reader_inv (next_payload decode elide st0).2
  /\ answers decode elide (pending st0) (next_payload decode elide st0).1
       (next_payload decode elide st0).2.
Proof.
  intros Hf Hinv Hmax.
  destruct (settle_settled st0 Hinv) as (Hd & Hb & Hf' & Hp).
  pose proof (settle_inv st0 Hinv) as [Ho _ _].
  pose proof (settle_shrinks st0) as Hlen.
  unfold next_payload. rewrite Hf. cbv zeta. rewrite <- Hp.
  set (st := settle_owed_compaction st0) in *. rewrite Hf in Hf'. clearbody st.
  pose proof (pending_length st Ho) as Hpl. unfold answers, first_frame, PREFIX_LENGTH. rewrite Hpl.
  destruct (compact_inv st elide Ho Hf' (or_intror Hd)) as (Ci & Cf & Cp & _).
  assert (Hinc : elide = false -> read_offset (compact st elide) = 0).
  { intros ->. unfold compact, compact_consumed. case_Z; cbn; lia. }
  assert (Hlive : abs_reader (compact st elide) = Live (pending st))
    by (unfold abs_reader; by rewrite Cf, Cp).
  destruct (Z.ltb_spec (zlen (buffer st) - read_offset st) 4); [done|].
  rewrite read_prefix_pending by lia. set (n := from_be_bytes (take 4 (pending st))).
  assert (Hn : 0 <= n) by apply from_be_bytes_range.
  destruct (Z.ltb_spec MAX_FRAME_PAYLOAD_LENGTH n); [by split; [apply reader_inv_poison|]|].
  destruct (Z.ltb_spec (zlen (buffer st) - read_offset st) (4 + n)); [done|].
  assert (Eg : get_range (buffer st) (read_offset st + 4) (read_offset st + (4 + n))
               = Some (take (Z.to_nat n) (drop 4 (pending st)))).
  { rewrite get_range_Some by lia. f_equal. unfold pending. rewrite drop_drop.
    f_equal; [lia|f_equal; lia]. }
  rewrite Eg. cbn [ok_or mbind result_bind]. set (payload := take (Z.to_nat n) (drop 4 (pending st))) in *.
  set (st1 := set_read_offset st (read_offset st + (4 + n))).
  assert (Hp1 : pending st1 = drop (Z.to_nat n) (drop 4 (pending st))).
  { unfold pending, st1. cbn. rewrite !drop_drop. f_equal. lia. }
  set (st2 := if COMPACTION_THRESHOLD <=? read_offset st1 then compact st1 elide else st1).
  assert (H2 : reader_inv st2 /\ fault st2 = None /\ pending st2 = pending st1
               /\ (elide = true -> buffer st2 = buffer st)).
  { subst st2. destruct (Z.leb_spec COMPACTION_THRESHOLD (read_offset st1)).
    - apply (compact_inv st1 elide); [cbn; lia|done|by right].
    - split_and!; try done. split; cbn; [lia|by left|congruence]. }
  destruct H2 as (Hi2 & Hf2 & Hp2 & Hb2).
  destruct (decode payload) as [[v rg]|e]; cbn [fst snd].
  - split; [done|]. eexists. split_and!; [done| |].
    + unfold abs_reader. by rewrite Hf2, Hp2, Hp1.
    + intros He bs Hbs. unfold bytes. rewrite Hb2 by done. cbn [r_start r_end].
      erewrite rebased_run; [done| |exact Hbs|lia]. rewrite <- Eg. f_equal.
      pose proof (get_range_length _ _ _ _ Eg). unfold payload in *. lia.
  - split; [apply reader_inv_poison|done].
Qed.

(** ** Draining and feeding

    What a receive loop does with the decoder: append a chunk, then take messages until none is
    whole.  The loop is stated over any [next], so that it runs on the reader and on the receiver
    alike; [fuel] bounds the frames one chunk can complete. *)

Section Drain.
Context {S T : Type} (next : S -> wresult (option T) * S).

Fixpoint drain (fuel : nat) (s : S) : list T * option WireError * S :=
  match fuel with
  | O => ([], None, s)
  | Datatypes.S fuel' =>
    match next s with
    | (Ok (Some v), s') => let '(vs, e, s'') := drain fuel' s' in (v :: vs, e, s'')
    | (Ok None, s') => ([], None, s')
    | (Err e, s') => ([], Some e, s')
    end
  end.
End Drain.

(** The loop over successive chunks; it ends at the first fault. *)
Section Receive.
Context {S T : Type} (next : S -> wresult (option T) * S).
Context (append : S -> list byte -> S) (size : S -> nat).

Fixpoint receive (s : S) (chunks : list (list byte)) : list T * option WireError * S :=
  match chunks with
  | [] => ([], None, s)
  | c :: cs =>
    let s := append s c in
    match drain next (Datatypes.S (size s)) s with
    | (vs, Some e, s) => (vs, Some e, s)
    | (vs, None, s) => let '(vs', e, s) := receive s cs in (vs ++ vs', e, s)
    end
  end.
End Receive.

(** [decode(payload).map(|message| (message, 0..0))] *)
Definition copying {T} (decode : list byte -> wresult T) (payload : list byte)
  : wresult (T * Range) := (fun m => (m, mkRange 0 0)) <$> decode payload.

(** [.map(|(message, _)| message)] under the two layers of the answer. *)
Definition without_run {T} (ans : wresult (option (T * Range))) : wresult (option T) :=
  (fun o : option (T * Range) => fst <$> o) <$> ans.

(** One step of a message decoder over the reader, the span left out. *)
Definition next_of {T} (decode : list byte -> wresult T) (st : PrefixedReader)
  : wresult (option T) * PrefixedReader :=
  let '(ans, st') := next_payload (copying decode) false st in (without_run ans, st').

Definition receive_stream {T} (decode : list byte -> wresult T) :=
  receive (next_of decode) append (fun st => length (buffer st)).

Lemma next_payload_shrinks {T} (decode : list byte -> wresult (T * Range)) elide st :
  zlen (buffer (next_payload decode elide st).2) <= zlen (buffer st).
Proof.
  unfold next_payload. destruct (fault st); [done|]. cbv zeta.
  pose proof (settle_shrinks st). set (st1 := settle_owed_compaction st) in *. clearbody st1.
  assert (Hc : forall st2, buffer st2 = buffer st1 -> zlen (buffer (compact st2 elide)) <= zlen (buffer st)).
  { intros st2 E2. pose proof (compact_shrinks st2). rewrite E2 in *.
    unfold compact. destruct elide; cbn; [rewrite E2|]; lia. }
  repeat case_match; cbn; try lia; try (by apply Hc); done.
Qed.

(** The reader's step is the receiver's: same answer, related states. *)
Lemma next_of_refines {T} (decode : list byte -> wresult T) st :
  reader_inv st -> zlen (buffer st) <= usize_max ->
  reader_inv (next_of decode st).2
  /\ recv_next decode (abs_reader st) = ((next_of decode st).1, abs_reader (next_of decode st).2)
  /\ ((next_of decode st).1 = Ok None -> read_offset (next_of decode st).2 = 0).
Proof.
  intros Hinv Hmax. destruct (fault st) as [e|] eqn:Ef.
  - unfold next_of, next_payload, abs_reader. rewrite Ef. cbn. by rewrite Ef.
  - pose proof (next_payload_answers (copying decode)
                  false st Ef Hinv Hmax) as [Hi Ha].
    unfold next_of. destruct (next_payload _ _ _) as [ans st']. cbn [fst snd] in *.
    split; [done|]. unfold abs_reader at 1. rewrite Ef. unfold recv_next, answers, copying in *.
    destruct (first_frame (pending st)) as [|n|payload rest].
    + destruct Ha as (-> & -> & Ho). by auto.
    + destruct Ha as (-> & ->). done.
    + destruct (decode payload) as [v|e]; cbn in Ha.
      * destruct Ha as (rg & -> & -> & _). done.
      * destruct Ha as (-> & ->). done.
Qed.

Section StreamLaws.
Context {T : Type} (decode : list byte -> wresult T).

(** Draining the reader is draining the receiver, at any fuel. *)
Lemma drain_refines fuel st vs e st' :
  reader_inv st -> zlen (buffer st) <= usize_max ->
  drain (next_of decode) fuel st = (vs, e, st') ->
  drain (recv_next decode) fuel (abs_reader st) = (vs, e, abs_reader st')
  /\ reader_inv st' /\ zlen (buffer st') <= zlen (buffer st).
Proof.
  revert st vs e st'. induction fuel as [|fuel IH]; intros st vs e st' Hinv Hmax; cbn.
  { intros; by simplify_eq. }
  pose proof (next_of_refines decode st Hinv Hmax) as (Hi & -> & _).
  assert (Hsh : zlen (buffer (next_of decode st).2) <= zlen (buffer st)).
  { unfold next_of. pose proof (next_payload_shrinks
      (copying decode) false st).
    by destruct (next_payload _ _ _). }
  destruct (next_of decode st) as [[[v|]|err] st1]; cbn [fst snd] in *.
  - destruct (drain (next_of decode) fuel st1) as [[vs1 e1] st2] eqn:Ed.
    destruct (IH _ _ _ _ Hi ltac:(lia) Ed) as (-> & Hi2 & Hs2).
    intros; simplify_eq. split_and!; [done|done|lia].
  - intros; by simplify_eq.
  - intros; by simplify_eq.
Qed.

(** A frame the stream holds whole is taken; a strict prefix of one is waited for. *)
Definition whole_frame (f : list byte) (v : T) : Prop :=
  exists payload, f = to_be_bytes 4 (zlen payload) ++ payload
    /\ zlen payload <= MAX_FRAME_PAYLOAD_LENGTH /\ decode payload = Ok v.

Lemma first_frame_whole f v rest :
  whole_frame f v ->
  exists payload, first_frame (f ++ rest) = Whole payload rest /\ decode payload = Ok v.
Proof.
  intros (payload & -> & Hle & Hd). exists payload. split; [|done].
  unfold first_frame, MAX_FRAME_PAYLOAD_LENGTH in *. rewrite <- !app_assoc, !length_app, length_to_be_bytes.
  rewrite take_app_le, take_ge, from_to_be_bytes_small
    by (change (256 ^ Z.of_nat 4) with (2 ^ 32); len_lia).
  case_Z; try lia. rewrite drop_app_ge, length_to_be_bytes by len_lia.
  rewrite Nat2Z.id, drop_0.
  by rewrite take_app_length, drop_app_length.
Qed.

Lemma first_frame_short p rest :
  first_frame p = Incomplete -> forall q, p = q ++ rest -> first_frame q = Incomplete.
Proof.
  intros Hp q ->. unfold first_frame in *. rewrite length_app in Hp.
  case_Z; try done; rewrite take_app_le in Hp by lia; case_Z_in Hp; try done; lia.
Qed.

Lemma first_frame_prefix f v q rest :
  whole_frame f v -> f = q ++ rest -> rest <> [] -> first_frame q = Incomplete.
Proof.
  intros (payload & -> & Hle & _) E Hne. assert (0 < zlen rest) by (destruct rest; [done|cbn; lia]).
  unfold first_frame. pose proof (f_equal length E) as El. rewrite !length_app in El.
  rewrite length_to_be_bytes in El.
  destruct (Z.ltb_spec (zlen q) 4); [done|].
  assert (Hq : take 4 q = to_be_bytes 4 (zlen payload)).
  { rewrite <- (take_app_le q rest 4), <- E by lia.
    rewrite take_app_le, take_ge by len_lia. done. }
  unfold MAX_FRAME_PAYLOAD_LENGTH in *.
  rewrite Hq, from_to_be_bytes_small by (change (256 ^ Z.of_nat 4) with (2 ^ 32); lia).
  case_Z; try lia. done.
Qed.

(** Draining any prefix of a stream of whole frames and an incomplete tail takes a prefix of the
    values and leaves less than a frame. *)
Lemma drain_prefix fuel p rest frames vs tail :
  Forall2 whole_frame frames vs -> first_frame tail = Incomplete ->
  p ++ rest = concat frames ++ tail -> (length p < fuel)%nat ->
  exists k p', drain (recv_next decode) fuel (Live p) = (take k vs, None, Live p')
    /\ p' ++ rest = concat (drop k frames) ++ tail /\ first_frame p' = Incomplete.
Proof.
  revert p frames vs. induction fuel as [|fuel IH]; intros p frames vs Hall Ht E Hf; [lia|].
  assert (Hstop : first_frame p = Incomplete ->
    exists k p', drain (recv_next decode) (Datatypes.S fuel) (Live p) = (take k vs, None, Live p')
    /\ p' ++ rest = concat (drop k frames) ++ tail /\ first_frame p' = Incomplete).
  { intros Hp. exists O, p. cbn [drain recv_next]. by rewrite Hp, take_0, drop_0. }
  destruct Hall as [|f v frames vs Hfr Hall].
  - apply Hstop. by eapply first_frame_short; [exact Ht|].
  - cbn [concat] in E. rewrite <- app_assoc in E.
    destruct (decide (length f <= length p)%nat) as [Hle|Hgt].
    + rewrite <- (take_drop (length f) p) in E. rewrite <- app_assoc in E.
      apply app_inj_1 in E as [E1 E2]; [|rewrite length_take; lia].
      rewrite <- (take_drop (length f) p), E1.
      destruct (first_frame_whole f v (drop (length f) p) Hfr) as (payload & Ew & Hd).
      assert (length f <> 0%nat) by (destruct Hfr as (? & -> & _); len_lia).
      destruct (IH (drop (length f) p) frames vs Hall Ht E2) as (k & p' & Ek & ? & ?);
        [rewrite length_drop; lia|].
      exists (S k), p'. cbn [drain recv_next]. rewrite Ew, Hd, Ek. done.
    + apply Hstop. eapply (first_frame_prefix f v p (drop (length p) f) Hfr).
      * assert (Ep : take (length p) f = p).
        { rewrite <- (take_app_le f (concat frames ++ tail)) by lia.
          by rewrite <- E, take_app_length. }
        by rewrite <- Ep at 1; rewrite take_drop.
      * intros Hn. apply (f_equal length) in Hn. rewrite length_drop in Hn. cbn in Hn. lia.
Qed.

(** The receive loop over any chunking of the stream. *)
Lemma receive_prefix chunks st frames vs tail :
  reader_inv st -> fault st = None -> zlen (buffer st) + zlen (concat chunks) <= usize_max ->
  Forall2 whole_frame frames vs -> first_frame tail = Incomplete ->
  first_frame (pending st) = Incomplete ->
  pending st ++ concat chunks = concat frames ++ tail ->
  exists st', receive_stream decode st chunks = (vs, None, st')
    /\ reader_inv st' /\ fault st' = None /\ pending st' = tail.
Proof.
  revert st frames vs. induction chunks as [|c cs IH];
    intros st frames vs Hinv Hf Hmax Hall Ht Hp E; cbn [concat] in *.
  - rewrite app_nil_r in E. exists st. destruct Hall as [|f v frames vs Hfr Hall].
    + done.
    + exfalso. destruct (first_frame_whole f v (concat frames ++ tail) Hfr) as (? & Ew & _).
      cbn [concat] in E. rewrite <- app_assoc in E. rewrite E in Hp. congruence.
  - unfold receive_stream in *. cbn [receive].
    destruct (append_refines st c Hinv) as [Hi1 Ha1].
    unfold abs_reader in Ha1. rewrite Hf in Ha1. cbn in Ha1.
    assert (Hlen1 : zlen (buffer (append st c)) <= zlen (buffer st) + zlen c).
    { unfold append. rewrite Hf. pose proof (settle_shrinks st). cbn. len_lia. }
    set (st1 := append st c) in *.
    destruct (drain (next_of decode) (S (length (buffer st1))) st1) as [[vs1 e1] st2] eqn:Ed.
    destruct (drain_refines _ _ _ _ _ Hi1 ltac:(len_lia) Ed) as (Ed2 & Hi2 & Hs2).
    assert (Ea1 : abs_reader st1 = Live (pending st ++ c)) by exact Ha1.
    rewrite Ea1 in Ed2.
    assert (Hfu : (length (pending st ++ c) < S (length (buffer st1)))%nat).
    { unfold st1, append. rewrite Hf. cbn. rewrite !length_app.
      rewrite <- (proj2 (proj2 (proj2 (settle_settled st Hinv)))).
      unfold pending. rewrite length_drop. lia. }
    rewrite app_assoc in E.
    destruct (drain_prefix _ _ _ _ _ _ Hall Ht E Hfu) as (k & p' & Ek & E' & Hp').
    rewrite Ek in Ed2. injection Ed2 as <- <- Ep.
    assert (Hst2 : fault st2 = None /\ pending st2 = p').
    { unfold abs_reader in Ep. destruct (fault st2); simplify_eq; done. }
    destruct Hst2 as [Hf2 <-].
    destruct (IH st2 (drop k frames) (drop k vs) Hi2 Hf2 ltac:(len_lia)
      (Forall2_drop _ _ _ _ Hall) Ht Hp' E') as (st' & Er & ? & ? & ?).
    exists st'. rewrite Er. by rewrite take_drop.
Qed.
End StreamLaws.

(** ** The interface between a codec and the reader

    What the reader asks of a codec: every value the sender may hold is framed as a length prefix
    and a payload within the cap, and the decoder answers that payload with the value (normalised
    when the codec clamps). *)
Class FramedCodec (M : Type) : Type := {
  fc_encode : M -> list byte;
  fc_decode : list byte -> wresult M;
  fc_ok : M -> Prop;
  fc_norm : M -> M;
  fc_frame : forall m, fc_ok m -> whole_frame fc_decode (fc_encode m) (fc_norm m);
}.

(** Any chunking of a stream of framed values, followed by less than a frame, is reassembled. *)
Lemma stream_reassembly `{FramedCodec M} chunks (ms : list M) tail :
  Forall fc_ok ms -> concat chunks = concat (map fc_encode ms) ++ tail ->
  first_frame tail = Incomplete -> zlen (concat chunks) <= usize_max ->
  exists st, receive_stream fc_decode reader_init chunks = (map fc_norm ms, None, st)
    /\ reader_inv st /\ fault st = None /\ pending st = tail.
Proof.
  intros Hall E Ht Hmax.
  apply (receive_prefix fc_decode chunks reader_init (map fc_encode ms) (map fc_norm ms) tail);
    [apply reader_inv_init|done|by cbn| |done|done|done].
  clear E. induction Hall as [|m ms Hm Hall IH]; cbn; constructor; [by apply fc_frame|done].
Qed.

(** ** [FrameDecoder] *)

(** The decoder is its reader. *)
Abbreviation FrameDecoder := PrefixedReader.

Definition next_inner (elide : bool) (st : FrameDecoder)
  : wresult (option (WireMessage * Range)) * FrameDecoder :=
  next_payload (fun payload =>
    if elide then decode_leaving_opaque_run payload
    else copying decode payload) elide st.

Definition next_message (st : FrameDecoder) : wresult (option WireMessage) * FrameDecoder :=
  let '(ans, st') := next_inner false st in (without_run ans, st').

Definition next_message_leaving_opaque_run (st : FrameDecoder)
  : wresult (option (WireMessage * Range)) * FrameDecoder := next_inner true st.

Definition run_bytes (st : FrameDecoder) (run : Range) : list byte := bytes st run.

(** A terminal message fits a frame. *)
Definition sendable (m : WireMessage) : Prop :=
  wf_message m /\ wire_byte_count m <= 4 + MAX_FRAME_PAYLOAD_LENGTH.

Lemma wire_frame m : sendable m -> whole_frame decode (encode m) (clamp_message m).
Proof.
  intros [Hwf Hlen]. unfold MAX_FRAME_PAYLOAD_LENGTH in *.
  pose proof (encode_length m Hwf) as El.
  destruct (decode_payload_bytes false m Hwf ltac:(lia)) as [r' D].
  rewrite encode_frame in *. unfold frame_bytes in *.
  rewrite length_app, length_to_be_bytes in El.
  exists (payload_bytes m (opaque_run m)). split_and!.
  - by rewrite wire_length_small by lia.
  - unfold MAX_FRAME_PAYLOAD_LENGTH. lia.
  - unfold decode. by rewrite D.
Qed.

#[export] Instance wire_framed : FramedCodec WireMessage := {|
  fc_encode := encode; fc_decode := decode; fc_ok := sendable; fc_norm := clamp_message;
  fc_frame := wire_frame |}.

(** ** The contract *)

(** C21: the frame decoder reassembles the stream: however the bytes of a sequence of encoded
    messages are cut into reads, the receive loop answers exactly those messages, in order, once
    each, and keeps the bytes of the unfinished frame that follows them. *)
Theorem frame_stream_reassembly chunks ms tail :
  Forall sendable ms -> concat chunks = concat (map encode ms) ++ tail ->
  first_frame tail = Incomplete -> zlen (concat chunks) <= usize_max ->
  exists st, receive next_message append (fun st => length (buffer st)) reader_init chunks
    = (map clamp_message ms, None, st) /\ fault st = None /\ pending st = tail.
Proof.
  intros Hall E Ht Hmax.
  destruct (@stream_reassembly _ wire_framed chunks ms tail Hall E Ht Hmax) as (st & Er & _ & ? & ?).
  by exists st.
Qed.

Definition two_frames : list byte := encode (Exit 3) ++ encode Bell.

Lemma frame_stream_reassembly_witness :
  exists st, receive next_message append (fun st => length (buffer st)) reader_init
      [take 3 two_frames; []; take 8 (drop 3 two_frames); drop 11 two_frames ++ [byte_of_Z 0]]
    = ([Exit 3; Bell], None, st) /\ fault st = None /\ pending st = [byte_of_Z 0].
Proof.
  apply (frame_stream_reassembly _ [Exit 3; Bell] [byte_of_Z 0]).
  - repeat constructor; vm_compute; congruence.
  - vm_compute. reflexivity.
  - vm_compute. reflexivity.
  - vm_compute. congruence.
Defined.

(** the eliding step and the copying step are the same step: on every reader they fault
    together or wait together, they leave the same bytes pending, and when they answer, the run the
    eliding one left in the buffer is still there, at the span it named, and completes its message
    into the copying one's. *)
Theorem next_message_elide_agrees st :
  reader_inv st -> zlen (buffer st) <= usize_max ->
  let copied := next_message st in
  let elided := next_message_leaving_opaque_run st in
  abs_reader elided.2 = abs_reader copied.2 /\ reader_inv elided.2 /\
  match elided.1 with
  | Ok (Some (m, span)) => copied.1 = Ok (Some (set_run m (run_bytes elided.2 span)))
  | Ok None => copied.1 = Ok None
  | Err e => copied.1 = Err e
  end.
Proof.
  intros Hinv Hmax. cbv zeta.
  assert (En : next_message st = next_of decode st) by done. rewrite En. clear En.
  destruct (next_of_refines decode st Hinv Hmax) as (_ & Hr & _).
  unfold next_message_leaving_opaque_run, next_inner. cbn match.
  change (fun payload => decode_leaving_opaque_run payload) with decode_leaving_opaque_run.
  destruct (fault st) as [e|] eqn:Ef.
  { unfold next_of, next_payload. by rewrite Ef. }
  destruct (next_payload_answers decode_leaving_opaque_run true st Ef Hinv Hmax) as [Hi Ha].
  unfold abs_reader in Hr at 1. rewrite Ef in Hr. unfold recv_next, answers in *.
  destruct (first_frame (pending st)) as [|n|payload rest] eqn:Efr.
  - injection Hr as <- <-. destruct Ha as (-> & -> & _). done.
  - injection Hr as <- <-. destruct Ha as (-> & ->). done.
  - assert (Hp : zlen payload <= usize_max).
    { unfold first_frame in Efr. case_Z_in Efr; simplify_eq. unfold pending. 
      rewrite !length_take, !length_drop. lia. }
    pose proof (decode_leaving_agrees_raw payload Hp) as Hd.
    destruct (decode_leaving_opaque_run payload) as [[m rg]|e].
    + destruct Hd as (run & Hrun & Hd). rewrite Hd in Hr. injection Hr as <- <-.
      destruct Ha as (rg' & -> & -> & Hb). split_and!; [done|done|].
      unfold run_bytes. by rewrite (Hb eq_refl run Hrun).
    + rewrite Hd in Hr. injection Hr as <- <-. destruct Ha as (-> & ->). done.
Qed.

Definition buffered_output : PrefixedReader :=
  append reader_init (encode (Output 7 (map byte_of_Z [104; 105])) ++ [byte_of_Z 0]).

Lemma next_message_elide_agrees_witness :
  reader_inv buffered_output
  /\ (next_message_leaving_opaque_run buffered_output).1 = Ok (Some (Output 7 [], mkRange 13 15))
  /\ (next_message buffered_output).1 = Ok (Some (Output 7 (map byte_of_Z [104; 105]))).
Proof.
  assert (H : reader_inv buffered_output) by apply append_refines, reader_inv_init.
  split; [exact H|]. split; [vm_compute; reflexivity|].
  exact (proj2 (proj2 (next_message_elide_agrees buffered_output H
                         ltac:(vm_compute; congruence)))).
Defined.

(** the decoder is fail-stop and its memory is bounded.  Once a step faults, nothing is
    buffered, whatever is appended afterwards is dropped, and every later step answers the same
    fault.  When a step answers that no frame is whole, the buffer holds less than one frame of the
    largest allowed size, and nothing already consumed. *)
Theorem next_message_fail_stop_and_bounded st :
  reader_inv st -> zlen (buffer st) <= usize_max ->
  (forall e, (next_message st).1 = Err e ->
     forall chunks, receive next_message append (fun st => length (buffer st))
                      (next_message st).2 chunks
       = ([], match chunks with [] => None | _ => Some e end, (next_message st).2)
     /\ buffer (next_message st).2 = [])
  /\ ((next_message st).1 = Ok None ->
      buffer (next_message st).2 = pending st
      /\ zlen (buffer (next_message st).2) < PREFIX_LENGTH + MAX_FRAME_PAYLOAD_LENGTH).
Proof.
  intros Hinv Hmax.
  assert (En : next_message st = next_of decode st) by done. rewrite En. clear En.
  destruct (next_of_refines decode st Hinv Hmax) as (Hi & Hr & Ho).
  destruct (next_of decode st) as [ans st'] eqn:En. cbn [fst snd] in *. split.
  - intros e ->. assert (Hd : fault st' = Some e).
    { assert (Ha : abs_reader st' = Dead e).
      { unfold recv_next in Hr. repeat case_match; simplify_eq; done. }
      unfold abs_reader in Ha. destruct (fault st'); simplify_eq; done. }
    intros chunks. split; [|by apply Hi; rewrite Hd].
    destruct chunks as [|c cs]; [done|]. cbn [receive].
    assert (Ea : append st' c = st') by (unfold append; by rewrite Hd).
    rewrite Ea. cbn [drain]. unfold next_message, next_inner, next_payload. by rewrite Hd.
  - intros ->. specialize (Ho eq_refl).
    assert (Ha : abs_reader st' = abs_reader st /\ first_frame (pending st) = Incomplete).
    { unfold recv_next, abs_reader in *. repeat case_match; simplify_eq; split; congruence. }
    destruct Ha as [Ha Hf]. unfold recv_next in Hr.
    assert (Hp : pending st' = pending st).
    { unfold abs_reader in *. repeat case_match; simplify_eq; done. }
    unfold pending in Hp at 1. rewrite Ho in Hp. cbn in Hp. rewrite drop_0 in Hp.
    split; [done|]. rewrite Hp. unfold first_frame, PREFIX_LENGTH, MAX_FRAME_PAYLOAD_LENGTH in *.
    pose proof (from_be_bytes_range (take 4 (pending st))).
    case_Z_in Hf; try done; lia.
Qed.

Lemma next_message_fail_stop_and_bounded_witness :
  let st := append reader_init (map byte_of_Z [0; 0; 0; 1; 9; 0; 0]) in
  (next_message st).1 = Err (UnknownMessageType (byte_of_Z 9))
  /\ receive next_message append (fun st => length (buffer st)) (next_message st).2
       [encode Bell; encode Bye]
     = ([], Some (UnknownMessageType (byte_of_Z 9)), (next_message st).2).
Proof.
  intros st. split; [vm_compute; reflexivity|].
  assert (Hi : reader_inv st) by apply append_refines, reader_inv_init.
  exact (proj1 (proj1 (next_message_fail_stop_and_bounded st Hi ltac:(vm_compute; congruence))
                  _ ltac:(vm_compute; reflexivity) _)).
Defined.
