(* ===== verification/Envelope.v ===== *)
(** * Envelope: the mux frame that carries many channels over one connection

    Models [slopdesk-wire/src/mux/envelope.rs], the channel class of [mux/mod.rs] and the streaming
    decoder of [mux/decoder.rs], over the reader of [Framing]. *)

From S2P Require Import Prelude Bytes Message Codec Framing.

Definition MIN_MUX_FRAME_LENGTH : Z := 4 + 1.

(** ** The types *)

Inductive MuxFrameType : Type :=
| TChannelOpen | TChannelOpenAck | TChannelData | TChannelClose | TWindowAdjust.

Definition type_from_byte (b : byte) : option MuxFrameType :=
  match byte_to_Z b with
  | 1 => Some TChannelOpen
  | 2 => Some TChannelOpenAck
  | 3 => Some TChannelData
  | 4 => Some TChannelClose
  | 5 => Some TWindowAdjust
  | _ => None
  end.

Definition type_as_byte (t : MuxFrameType) : byte :=
  byte_of_Z match t with
    | TChannelOpen => 1 | TChannelOpenAck => 2 | TChannelData => 3
    | TChannelClose => 4 | TWindowAdjust => 5
    end.

Inductive MuxCloseReason : Type := Retired | SubscriberEvicted.

#[export] Instance close_reason_eq_dec : EqDecision MuxCloseReason.
Proof. solve_decision. Defined.

Definition from_byte_or_retired (b : byte) : MuxCloseReason :=
  match byte_to_Z b with 1 => SubscriberEvicted | _ => Retired end.

Definition reason_as_byte (r : MuxCloseReason) : byte :=
  byte_of_Z match r with Retired => 0 | SubscriberEvicted => 1 end.

Inductive MuxChannelClass : Type := Pane | Workspace.

Definition class_from_byte (b : byte) : option MuxChannelClass :=
  match byte_to_Z b with 0 => Some Pane | 1 => Some Workspace | _ => None end.

Definition class_as_byte (c : MuxChannelClass) : byte :=
  byte_of_Z match c with Pane => 0 | Workspace => 1 end.

Inductive MuxFrame : Type :=
| ChannelOpen (channel_id : Z) (session_id : RawUuid) (last_received_seq : Z)
    (channel_class : byte) (initial_cwd : option (list byte))
| ChannelOpenAck (channel_id : Z) (accepted : bool) (resume_from_seq : Z)
| ChannelData (channel_id : Z) (payload : list byte)
| ChannelClose (channel_id : Z) (reason : MuxCloseReason)
| WindowAdjust (channel_id : Z) (bytes_to_add : Z).

#[export] Instance mux_frame_eq_dec : EqDecision MuxFrame.
Proof. solve_decision. Defined.

Definition frame_channel_id (f : MuxFrame) : Z :=
  match f with
  | ChannelOpen channel_id _ _ _ _ | ChannelOpenAck channel_id _ _ | ChannelData channel_id _
  | ChannelClose channel_id _ | WindowAdjust channel_id _ => channel_id
  end.

Definition mux_type (f : MuxFrame) : MuxFrameType :=
  match f with
  | ChannelOpen _ _ _ _ _ => TChannelOpen
  | ChannelOpenAck _ _ _ => TChannelOpenAck
  | ChannelData _ _ => TChannelData
  | ChannelClose _ _ => TChannelClose
  | WindowAdjust _ _ => TWindowAdjust
  end.

Definition opaque_payload (f : MuxFrame) : list byte :=
  match f with ChannelData _ payload => payload | _ => [] end.

(** ** Encoding *)

(** [u32::try_from(v).unwrap_or(u32::MAX)] *)
Definition u32_try_from_or_max (v : Z) : Z := if v <=? u32_max then v else u32_max.

Definition mux_encode_into (f : MuxFrame) (payload : list byte) (out : ByteWriter) : ByteWriter :=
  let out := put_u32 out 0 in
  let out := put_u32 out (frame_channel_id f) in
  let out := put_u8 out (type_as_byte (mux_type f)) in
  let out :=
    match f with
    | ChannelOpen _ session_id last_received_seq channel_class initial_cwd =>
        let out := put_bytes out session_id in
        let out := put_i64 out last_received_seq in
        let out := put_u8 out channel_class in
        match initial_cwd with
        | Some cwd => put_length_prefixed_str out cwd
        | None => out
        end
    | ChannelOpenAck _ accepted resume_from_seq =>
        put_i64 (put_bool out accepted) resume_from_seq
    | ChannelData _ _ => put_bytes out payload
    | ChannelClose _ reason =>
        if decide (reason = Retired) then out else put_u8 out (reason_as_byte reason)
    | WindowAdjust _ bytes_to_add => put_u32 out bytes_to_add
    end in
  let inner_length := u32_try_from_or_max (saturating_sub_usize (writer_len out) PREFIX_LENGTH) in
  patch_u32 out 0 inner_length.

Definition encoded_hint (f : MuxFrame) : Z :=
  let body :=
    match f with
    | ChannelOpen _ _ _ _ initial_cwd =>
        SESSION_ID_BYTE_COUNT + 8 + 1
        + match initial_cwd with Some c => 2 + zlen c | None => 0 end
    | ChannelOpenAck _ _ _ => 1 + 8
    | ChannelData _ payload => zlen payload
    | ChannelClose _ _ => 1
    | WindowAdjust _ _ => 4
    end in
  PREFIX_LENGTH + MIN_MUX_FRAME_LENGTH + body.

Definition mux_encode (f : MuxFrame) : list byte :=
  into_vec (mux_encode_into f (opaque_payload f) (writer_with_capacity (encoded_hint f))).

Definition encoded_byte_count_with_payload (f : MuxFrame) (payload_len : Z) : Z :=
  saturating_add_usize (writer_len (mux_encode_into f [] (writer_borrowing []))) payload_len.

(** The lent buffer after the call, and the size answered. *)
Definition encode_with_payload_into (f : MuxFrame) (payload out : list byte) : list byte * Z :=
  let needed := encoded_byte_count_with_payload f (zlen payload) in
  if zlen out <? needed then (out, needed) else
  let w := mux_encode_into f payload (writer_borrowing out) in
  (match sink w with Borrowed buf _ => buf | Owned buf => buf end, writer_len w).

(** ** Decoding *)

(** The cwd field of an open, when bytes are left for one. *)
Definition read_present_cwd : Parser (option (list byte)) :=
  len ← read_u16;
  bytes ← read_bytes len;
  left1 ← read_bytes_remaining;
  if negb (left1 =? 0) then parser_fail (malformed "channelOpen: trailing cwd bytes") else
  if len =? 0 then mret None else
  parser_lift (if utf8_valid bytes then Ok (Some bytes)
               else Err (malformed "channelOpen: invalid cwd UTF-8")).

(** The resume verdict of an ack, when bytes are left for one. *)
Definition read_present_seq : Parser Z :=
  seq ← read_i64;
  left1 ← read_bytes_remaining;
  if negb (left1 =? 0) then parser_fail (malformed "channelOpenAck: trailing bytes")
  else mret seq.

Definition mux_decode_inner (elide : bool) : Parser (MuxFrame * Range) :=
  channel_id ← read_u32;
  type_byte ← read_u8;
  match type_from_byte type_byte with
  | None => parser_fail (UnknownMessageType type_byte)
  | Some TChannelOpen =>
      id_bytes ← read_bytes SESSION_ID_BYTE_COUNT;
      last_received_seq ← read_i64;
      channel_class ← read_u8;
      session_id ← parser_lift (if decide (length id_bytes = 16%nat) then Ok id_bytes
                                else Err (malformed "channelOpen: invalid sessionID bytes"));
      left0 ← read_bytes_remaining;
      initial_cwd ← (if left0 =? 0 then mret None else read_present_cwd);
      mret (ChannelOpen channel_id session_id last_received_seq channel_class initial_cwd,
            mkRange 0 0)
  | Some TChannelOpenAck =>
      accepted ← read_bool;
      left0 ← read_bytes_remaining;
      resume_from_seq ← (if left0 =? 0 then mret 0 else read_present_seq);
      mret (ChannelOpenAck channel_id accepted resume_from_seq, mkRange 0 0)
  | Some TChannelData =>
      start ← read_position;
      payload ← remaining;
      mret (ChannelData channel_id (if elide then [] else payload),
            mkRange start (saturating_add_usize start (zlen payload)))
  | Some TChannelClose =>
      left0 ← read_bytes_remaining;
      if left0 =? 0 then mret (ChannelClose channel_id Retired, mkRange 0 0) else
      reason_byte ← read_u8;
      left1 ← read_bytes_remaining;
      if negb (left1 =? 0) then parser_fail (malformed "channelClose: trailing bytes") else
      mret (ChannelClose channel_id (from_byte_or_retired reason_byte), mkRange 0 0)
  | Some TWindowAdjust =>
      bytes_to_add ← read_u32;
      mret (WindowAdjust channel_id bytes_to_add, mkRange 0 0)
  end.

Definition mux_decode (inner : list byte) : wresult MuxFrame :=
  match mux_decode_inner false (reader_new inner) with
  | Ok (f, _, _) => Ok f
  | Err e => Err e
  end.

Definition decode_leaving_payload (inner : list byte) : wresult (MuxFrame * Range) :=
  match mux_decode_inner true (reader_new inner) with
  | Ok (f, run, _) => Ok (f, run)
  | Err e => Err e
  end.

(** ** [MuxFrameDecoder] *)

Abbreviation MuxFrameDecoder := PrefixedReader.

Definition mux_next_inner (elide : bool) (st : MuxFrameDecoder)
  : wresult (option (MuxFrame * Range)) * MuxFrameDecoder :=
  next_payload (fun inner =>
    if elide then decode_leaving_payload inner else copying mux_decode inner) elide st.

Definition next_frame (st : MuxFrameDecoder) : wresult (option MuxFrame) * MuxFrameDecoder :=
  let '(ans, st') := mux_next_inner false st in (without_run ans, st').

Definition next_frame_leaving_payload (st : MuxFrameDecoder)
  : wresult (option (MuxFrame * Range)) * MuxFrameDecoder := mux_next_inner true st.

Definition mux_payload_bytes (st : MuxFrameDecoder) (payload : Range) : list byte :=
  bytes st payload.

Example default_close_is_nine_bytes :
  map byte_to_Z (mux_encode (ChannelClose 6 Retired)) = [0; 0; 0; 5; 0; 0; 0; 6; 4].
Proof. vm_compute. reflexivity. Qed.

Example unknown_close_reason_still_closes :
  mux_decode (map byte_of_Z [0; 0; 0; 6; 4; 127]) = Ok (ChannelClose 6 Retired).
Proof. vm_compute. reflexivity. Qed.

(** ** The envelope as a list of bytes *)

Definition wf_frame (f : MuxFrame) : Prop :=
  u_range 32 (frame_channel_id f) /\
  match f with
  | ChannelOpen _ sid seq _ cwd =>
      is_uuid sid /\ i_range 64 seq /\ match cwd with Some c => is_str c | None => True end
  | ChannelOpenAck _ _ seq => i_range 64 seq
  | ChannelData _ _ | ChannelClose _ _ => True
  | WindowAdjust _ n => u_range 32 n
  end.

Definition mux_chunks (f : MuxFrame) (payload : list byte) : list (list byte) :=
  to_be_bytes 4 (frame_channel_id f) :: [type_as_byte (mux_type f)] ::
  match f with
  | ChannelOpen _ sid seq class cwd =>
      sid :: i64_chunk seq :: [class] :: match cwd with Some c => str_chunks c | None => [] end
  | ChannelOpenAck _ accepted seq => [bool_chunk accepted; i64_chunk seq]
  | ChannelData _ _ => [payload]
  | ChannelClose _ reason => match reason with Retired => [] | r => [[reason_as_byte r]] end
  | WindowAdjust _ n => [to_be_bytes 4 n]
  end.

Definition inner_bytes (f : MuxFrame) (payload : list byte) : list byte :=
  concat (mux_chunks f payload).

Lemma mux_encode_into_chunks f payload w :
  mux_encode_into f payload w
  = let w' := put_all w (to_be_bytes 4 0 :: mux_chunks f payload) in
    patch_u32 w' 0 (u32_try_from_or_max (saturating_sub_usize (writer_len w') 4)).
Proof. destruct f as [? ? ? ? []| | |? []|]; reflexivity. Qed.

Definition mux_frame_bytes (f : MuxFrame) (payload : list byte) : list byte :=
  to_be_bytes 4 (u32_try_from_or_max (zlen (inner_bytes f payload))) ++ inner_bytes f payload.

Lemma mux_encode_frame f : mux_encode f = mux_frame_bytes f (opaque_payload f).
Proof.
  unfold mux_encode. rewrite mux_encode_into_chunks. cbv zeta. unfold writer_with_capacity.
  rewrite patched_owned. cbn [into_vec sink].
  rewrite put_all_owned. unfold writer_len. cbn [sink app]. rewrite concat_cons, sat_sub_prefix.
  done.
Qed.

(** ** Reading back what was written *)

(** What the decoder answers for an encoded frame: the cwd is clamped by the encoder, and an empty
    one is read back as no opinion. *)
Definition norm_cwd (cwd : option (list byte)) : option (list byte) :=
  match cwd with
  | Some [] | None => None
  | Some c => Some (clamp_u16_field c)
  end.

Definition norm_frame (f : MuxFrame) : MuxFrame :=
  match f with
  | ChannelOpen id sid seq class cwd => ChannelOpen id sid seq class (norm_cwd cwd)
  | _ => f
  end.

Definition clear_payload (f : MuxFrame) : MuxFrame :=
  match f with ChannelData id _ => ChannelData id [] | _ => f end.

Definition set_payload (f : MuxFrame) (payload : list byte) : MuxFrame :=
  match f with ChannelData id _ => ChannelData id payload | _ => f end.

Definition payload_span (f : MuxFrame) : Range :=
  match f with ChannelData _ payload => mkRange 5 (5 + zlen payload) | _ => mkRange 0 0 end.

Lemma ends_count {A} (k : Z -> Parser A) n bs v :
  ends_at (k (zlen bs)) n bs v -> ends_at (read_bytes_remaining ≫= k) n bs v.
Proof.
  intros H pre Hn Hmax. unfold mbind, parser_bind, read_bytes_remaining, bytes_remaining.
  cbn [rd_data rd_offset]. replace (zlen (pre ++ bs) - n) with (zlen bs) by len_lia. by apply H.
Qed.

(** A conditional read that ends the frame, then an answer that reads nothing. *)
Lemma ends_then {A B} (p : Parser A) (k : A -> Parser B) n bs v1 v2 :
  ends_at p n bs v1 -> k v1 = mret v2 -> ends_at (p ≫= k) n bs v2.
Proof.
  intros H1 H2 pre Hn Hmax. unfold mbind, parser_bind. rewrite H1 by done. by rewrite H2.
Qed.

(** A field, then the check that nothing follows it. *)
Lemma ends_checked {A B} (p : Parser A) (k : A -> Z -> Parser B) n bs v1 v2 :
  runs_at p n bs v1 -> k v1 0 = mret v2 ->
  ends_at (a ← p; rest ← read_bytes_remaining; k a rest) n bs v2.
Proof.
  intros H1 H2. rewrite <- (app_nil_r bs). eapply ends_bind; [exact H1|].
  apply ends_count. change (zlen (@nil byte)) with 0. rewrite H2. apply runs_ends, runs_ret.
Qed.

Lemma ends_assoc {A B C} (p : Parser A) (q : A -> Parser B) (k : B -> Parser C) n bs v :
  ends_at ((p ≫= q) ≫= k) n bs v -> ends_at (a ← p; b ← q a; k b) n bs v.
Proof.
  intros H pre Hn Hmax. rewrite <- (H pre Hn Hmax). unfold mbind, parser_bind.
  by destruct (p _) as [[? ?]|].
Qed.

Lemma clamp_nonempty c : utf8_valid c = true -> c <> [] -> clamp_u16_field c <> [].
Proof.
  intros Hv Hne. unfold clamp_u16_field. unfold utf8_valid in Hv. destruct (utf8_chars c) as [cs|] eqn:E; [|done].
  destruct (clamp_utf8_prefix c cs MAX_LENGTH_PREFIXED_BYTES ltac:(done) E)
    as (n & -> & Hc & _ & Hgt).
  pose proof (utf8_chars_concat _ _ E) as Hcat.
  destruct cs as [|ch cs]; [by subst|]. destruct n as [|n].
  - exfalso. specialize (Hgt ltac:(cbn; lia)). cbn in Hgt. rewrite app_nil_r in Hgt.
    assert (zlen ch <= 4); [|unfold MAX_LENGTH_PREFIXED_BYTES in *; lia].
    clear -E. destruct c as [|b0 c]; cbn in E; [done|].
    repeat case_match; try done; simplify_eq/=;
      match goal with H : option_map _ ?o = Some _ |- _ => destruct o; simplify_eq/=; lia end.
  - cbn. intros Hn. apply app_eq_nil in Hn as [-> _].
    pose proof (utf8_chars_each _ _ E) as Hall. inversion Hall as [|? ? Hc1 _]; subst.
    specialize (Hc1 [] [] eq_refl). done.
Qed.

Lemma ends_cwd n cwd :
  match cwd with Some c => is_str c | None => True end ->
  ends_at
    (left0 ← read_bytes_remaining; if left0 =? 0 then mret None else read_present_cwd)
    n (concat match cwd with Some c => str_chunks c | None => [] end) (norm_cwd cwd).
Proof.
  intros Hc. destruct cwd as [c|]; [|apply ends_count, runs_ends, runs_ret].
  pose proof (clamp_u16_length c Hc). pose proof (clamp_u16_valid c Hc) as Hv.
  apply ends_count. rewrite length_str_chunks.
  destruct (Z.eqb_spec (2 + zlen (clamp_u16_field c)) 0); [lia|].
  unfold u16_try_from_or_max, str_chunks. unfold u16_try_from_or_max.
  destruct (Z.leb_spec (zlen (clamp_u16_field c)) 65535); [|lia].
  unfold read_present_cwd. eapply ends_chunk; [apply runs_read_u16; unfold u_range; lia|].
  cbn [concat]. rewrite app_nil_r. eapply ends_checked; [by apply runs_read_bytes|].
  rewrite Hv. change (negb (0 =? 0)) with false. cbv iota.
  destruct c as [|b c'] eqn:Ec; [done|].
  destruct (Z.eqb_spec (zlen (clamp_u16_field (b :: c'))) 0) as [Hz|]; [|done].
  exfalso. apply (clamp_nonempty (b :: c') Hc); [done|].
  destruct (clamp_u16_field (b :: c')); [done|]. cbn in Hz. lia.
Qed.

Lemma type_byte_roundtrip t : type_from_byte (type_as_byte t) = Some t.
Proof. by destruct t. Qed.

Lemma mux_decode_chunks elide f :
  wf_frame f ->
  ends_at (mux_decode_inner elide) 0 (inner_bytes f (opaque_payload f))
    ((if elide then clear_payload (norm_frame f) else norm_frame f), payload_span f).
Proof.
  intros [Hid Hwf]. unfold mux_decode_inner, inner_bytes, read_u8.
  eapply ends_chunk; [by apply runs_read_u32|]. eapply ends_chunk; [apply runs_next_byte|].
  rewrite type_byte_roundtrip. rewrite length_to_be_bytes. cbn [length].
  change (0 + Z.of_nat 4 + Z.of_nat 1) with 5.
  destruct f as [id sid seq class cwd|id acc seq|id payload|id reason|id add];
    cbn [mux_type frame_channel_id opaque_payload norm_frame clear_payload payload_span] in *.
  - destruct Hwf as (Hsid & Hseq & Hcwd). unfold is_uuid in Hsid.
    eapply ends_chunk; [apply runs_read_bytes; unfold SESSION_ID_BYTE_COUNT; lia|].
    eapply ends_chunk; [by apply runs_read_i64|]. eapply ends_chunk; [apply runs_next_byte|].
    rewrite decide_True by done.
    refine (ends_bind _ _ _ [] _ sid _ (runs_ret _ _) _).
    change (zlen (@nil byte)) with 0. rewrite Z.add_0_r. apply ends_assoc.
    eapply ends_then; [by apply ends_cwd|]. by destruct elide.
  - eapply ends_chunk; [apply runs_read_bool|]. apply ends_count. unfold i64_chunk.
    cbn [concat]. rewrite app_nil_r. change (zlen (to_be_bytes 8 _) =? 0) with false. cbv iota.
    eapply ends_then.
    + unfold read_present_seq. eapply ends_checked; [by apply runs_read_i64|done].
    + by destruct elide.
  - cbn [concat]. rewrite app_nil_r. intros pre Hn Hmax. unfold mbind, parser_bind.
    cbn [read_position position rd_offset]. rewrite ends_remaining by done.
    unfold mret, parser_ret, saturating_add_usize. rewrite Z.min_l by len_lia.
    by destruct elide.
  - destruct reason; cbn [concat app].
    + apply ends_count. cbn [length]. apply runs_ends. destruct elide; apply runs_ret.
    + apply ends_count. change (zlen [reason_as_byte SubscriberEvicted] =? 0) with false.
      cbv iota. eapply ends_checked; [apply runs_next_byte|]. by destruct elide.
  - cbn [concat]. rewrite app_nil_r. eapply ends_then.
    + apply runs_ends. by apply runs_read_u32.
    + by destruct elide.
Qed.

Lemma inner_bytes_length f payload :
  wf_frame f -> 5 <= zlen (inner_bytes f payload).
Proof. intros _. unfold inner_bytes, mux_chunks. cbn [concat]. len_lia. Qed.

Lemma mux_decode_bytes f :
  wf_frame f -> zlen (inner_bytes f (opaque_payload f)) <= usize_max ->
  mux_decode (inner_bytes f (opaque_payload f)) = Ok (norm_frame f).
Proof.
  intros Hwf Hmax. unfold mux_decode, reader_new.
  pose proof (mux_decode_chunks false f Hwf [] eq_refl Hmax) as E. cbn [app] in E. by rewrite E.
Qed.

(** A mux frame fits the receiver's cap. *)
Definition mux_sendable (f : MuxFrame) : Prop :=
  wf_frame f /\ zlen (inner_bytes f (opaque_payload f)) <= MAX_FRAME_PAYLOAD_LENGTH.

Lemma mux_frame_whole f :
  mux_sendable f -> whole_frame mux_decode (mux_encode f) (norm_frame f).
Proof.
  intros [Hwf Hle]. exists (inner_bytes f (opaque_payload f)).
  unfold MAX_FRAME_PAYLOAD_LENGTH in *. split_and!; [|done|].
  - rewrite mux_encode_frame. unfold mux_frame_bytes, u32_try_from_or_max, u32_max.
    by case_Z; [|lia].
  - apply mux_decode_bytes; [done|unfold usize_max; lia].
Qed.

#[export] Instance mux_framed : FramedCodec MuxFrame := {|
  fc_encode := mux_encode; fc_decode := mux_decode; fc_ok := mux_sendable;
  fc_norm := norm_frame; fc_frame := mux_frame_whole |}.

(** ** The two decoders on any input *)

Abbreviation eliding_mux := (eliding clear_payload opaque_payload).

Lemma eliding_data id :
  eliding_mux
    (start ← read_position; payload ← remaining;
     mret (ChannelData id [], mkRange start (saturating_add_usize start (zlen payload))))
    (start ← read_position; payload ← remaining;
     mret (ChannelData id payload, mkRange start (saturating_add_usize start (zlen payload)))).
Proof.
  intros [d o] Hok Hmax. unfold rd_ok in Hok. cbn in Hok, Hmax. unfold mbind, parser_bind.
  cbn [read_position position rd_offset remaining rd_data].
  unfold mret, parser_ret, get_from. rewrite get_range_Some by lia.
  cbn [default from_option Datatypes.id rd_data clear_payload opaque_payload r_start r_end].
  split; [done|]. unfold saturating_add_usize. rewrite Z.min_l by len_lia.
  rewrite get_range_Some by len_lia. do 2 f_equal. len_lia.
Qed.

(** ** What the decoder answers, on any input *)

Lemma yields_if {A} (b : bool) (p q : Parser A) P :
  yields p P -> yields q P -> yields (if b then p else q) P.
Proof. by destruct b. Qed.

Definition wf_cwd (cwd : option (list byte)) : Prop :=
  match cwd with Some c => is_str c | None => True end.

Lemma yields_present_cwd : yields read_present_cwd wf_cwd.
Proof.
  eapply yields_bind; [apply yields_read_u16|]. intros k [Hk _].
  eapply yields_bind; [by apply yields_read_bytes|]. intros bs _.
  eapply yields_bind; [apply yields_bytes_remaining|]. intros left1 _.
  apply yields_if; [apply yields_fail|]. apply yields_if; [by apply yields_ret|].
  apply yields_lift. unfold wf_cwd, is_str. intros a.
  destruct (utf8_valid bs) eqn:E; intros; by simplify_eq.
Qed.

Lemma yields_present_seq : yields read_present_seq (i_range 64).
Proof.
  eapply yields_bind; [apply yields_read_i64|]. intros v Hv.
  eapply yields_bind; [apply yields_bytes_remaining|]. intros left1 _.
  apply yields_if; [apply yields_fail|]. by apply yields_ret.
Qed.

Lemma mux_eliding : eliding_mux (mux_decode_inner true) (mux_decode_inner false).
Proof.
  unfold mux_decode_inner, read_u8.
  eapply eliding_bind; [apply yields_read_u32|]. intros id _.
  eapply eliding_bind; [apply yields_next_byte|]. intros t _.
  destruct (type_from_byte t) as [[]|]; [| | | | |apply eliding_fail].
  - eapply eliding_bind; [by apply yields_read_bytes|]. intros bs _.
    eapply eliding_bind; [apply yields_read_i64|]. intros seq _.
    eapply eliding_bind; [apply yields_next_byte|]. intros class _.
    eapply eliding_bind; [apply yields_lift with (P := fun _ => True); done|]. intros sid _.
    eapply eliding_bind; [apply yields_bytes_remaining|]. intros left0 _.
    eapply eliding_bind; [apply yields_if with (P := wf_cwd); [by apply yields_ret|apply yields_present_cwd]|].
    intros cwd _. by apply eliding_pure.
  - eapply eliding_bind; [apply yields_read_bool|]. intros acc _.
    eapply eliding_bind; [apply yields_bytes_remaining|]. intros left0 _.
    eapply eliding_bind;
      [apply yields_if with (P := i_range 64); [by apply yields_ret|apply yields_present_seq]|].
    intros seq _. by apply eliding_pure.
  - apply eliding_data.
  - eapply eliding_bind; [apply yields_bytes_remaining|]. intros left0 _.
    destruct (left0 =? 0); [by apply eliding_pure|].
    eapply eliding_bind; [apply yields_next_byte|]. intros r _.
    eapply eliding_bind; [apply yields_bytes_remaining|]. intros left1 _.
    destruct (left1 =? 0); [by apply eliding_pure|apply eliding_fail].
  - eapply eliding_bind; [apply yields_read_u32|]. intros n _. by apply eliding_pure.
Qed.

Lemma set_payload_clear f : set_payload (clear_payload f) (opaque_payload f) = f.
Proof. by destruct f. Qed.

Lemma mux_wf elide : yields (mux_decode_inner elide) (fun a => wf_frame a.1).
Proof.
  unfold mux_decode_inner, read_u8.
  eapply yields_bind; [apply yields_read_u32|]. intros id Hid.
  eapply yields_bind; [apply yields_next_byte|]. intros t _.
  destruct (type_from_byte t) as [[]|]; [| | | | |apply yields_fail].
  - eapply yields_bind; [by apply yields_read_bytes|]. intros bs _.
    eapply yields_bind; [apply yields_read_i64|]. intros seq Hseq.
    eapply yields_bind; [apply yields_next_byte|]. intros class _.
    eapply yields_bind; [apply yields_lift with (P := is_uuid)|].
    { intros a. case_decide; intros; by simplify_eq. }
    intros sid Hsid.
    eapply yields_bind; [apply yields_bytes_remaining|]. intros left0 _.
    eapply yields_bind; [apply yields_if with (P := wf_cwd); [by apply yields_ret|apply yields_present_cwd]|].
    intros cwd Hcwd. by apply yields_ret.
  - eapply yields_bind; [apply yields_read_bool|]. intros acc _.
    eapply yields_bind; [apply yields_bytes_remaining|]. intros left0 _.
    eapply yields_bind;
      [apply yields_if with (P := i_range 64); [by apply yields_ret|apply yields_present_seq]|].
    intros seq Hseq. by apply yields_ret.
  - eapply yields_bind; [apply yields_position|]. intros start _.
    eapply yields_bind; [apply yields_remaining|]. intros p _. by apply yields_ret.
  - eapply yields_bind; [apply yields_bytes_remaining|]. intros left0 _.
    apply yields_if; [by apply yields_ret|].
    eapply yields_bind; [apply yields_next_byte|]. intros r _.
    eapply yields_bind; [apply yields_bytes_remaining|]. intros left1 _.
    apply yields_if; [apply yields_fail|by apply yields_ret].
  - eapply yields_bind; [apply yields_read_u32|]. intros n Hn. by apply yields_ret.
Qed.

(** ** The contract *)

Lemma mux_roundtrip_raw f :
  wf_frame f -> zlen (mux_encode f) <= 2 ^ 32 ->
  from_be_bytes (take 4 (mux_encode f)) = zlen (mux_encode f) - 4
  /\ mux_decode (drop 4 (mux_encode f)) = Ok (norm_frame f).
Proof.
  intros Hwf. rewrite mux_encode_frame. unfold mux_frame_bytes.
  rewrite length_app, length_to_be_bytes. intros Hlen.
  set (inner := inner_bytes f (opaque_payload f)) in *.
  unfold u32_try_from_or_max, u32_max. destruct (Z.leb_spec (zlen inner) (2 ^ 32 - 1)); [|lia].
  rewrite take_app_le, take_ge, drop_app_ge by len_lia. rewrite length_to_be_bytes, drop_0.
  rewrite from_to_be_bytes_small by (change (256 ^ Z.of_nat 4) with (2 ^ 32); lia).
  split; [lia|]. apply mux_decode_bytes; [done|]. fold inner. unfold usize_max. lia.
Qed.

(** every mux frame survives the wire.  The prefix counts what follows it, and decoding what
    follows answers the frame, with its cwd clamped at a character boundary and an empty cwd read as
    none. *)
Theorem mux_roundtrip f :
  wf_frame f -> zlen (mux_encode f) <= 2 ^ 32 ->
  from_be_bytes (take 4 (mux_encode f)) = zlen (mux_encode f) - 4
  /\ mux_decode (drop 4 (mux_encode f)) = Ok (norm_frame f).
Proof. apply mux_roundtrip_raw. Qed.

Definition sample_open : MuxFrame :=
  ChannelOpen 7 (replicate 16 (byte_of_Z 9)) (-1) (byte_of_Z 1) (Some (map byte_of_Z [47; 195; 169])).

Lemma mux_roundtrip_witness :
  from_be_bytes (take 4 (mux_encode sample_open)) = 35
  /\ mux_decode (drop 4 (mux_encode sample_open)) = Ok sample_open.
Proof.
  apply (mux_roundtrip sample_open).
  - repeat split; try reflexivity; vm_compute; intuition congruence.
  - vm_compute. congruence.
Defined.

(** the mux decoder is safe on every input: what it answers is a well-formed frame, and the
    eliding decode answers it too, less its payload, with the span where the payload lies. *)
Theorem mux_decode_any_input inner :
  zlen inner <= usize_max ->
  match decode_leaving_payload inner with
  | Ok (f, rg) => exists payload, get_range inner (r_start rg) (r_end rg) = Some payload
      /\ mux_decode inner = Ok (set_payload f payload) /\ wf_frame (set_payload f payload)
  | Err e => mux_decode inner = Err e
  end.
Proof.
  intros Hmax. pose proof (mux_eliding _ (rd_ok_new inner) Hmax) as H.
  unfold decode_leaving_payload, mux_decode.
  destruct (mux_decode_inner false (reader_new inner)) as [[[f rg] r']|e] eqn:E.
  - destruct H as [-> Hrun]. exists (opaque_payload f). rewrite set_payload_clear.
    destruct (mux_wf false _ _ _ (rd_ok_new inner) E) as [Hw _]. done.
  - by rewrite H.
Qed.

Lemma mux_decode_any_input_witness :
  exists payload, get_range (map byte_of_Z [0; 0; 0; 1; 3; 8]) 5 6 = Some payload
    /\ mux_decode (map byte_of_Z [0; 0; 0; 1; 3; 8]) = Ok (ChannelData 1 payload)
    /\ wf_frame (ChannelData 1 payload).
Proof.
  exact (mux_decode_any_input (map byte_of_Z [0; 0; 0; 1; 3; 8]) ltac:(vm_compute; congruence)).
Defined.

(** a close always closes: whatever byte a peer sends as the reason, known or not, or none at
    all, the frame decodes as a close of that channel; only bytes past the reason are a fault. *)
Theorem close_always_closes id body :
  u_range 32 id -> zlen body <= MAX_FRAME_PAYLOAD_LENGTH ->
  mux_decode (to_be_bytes 4 id ++ type_as_byte TChannelClose :: body)
  = match body with
    | [] => Ok (ChannelClose id Retired)
    | [b] => Ok (ChannelClose id (from_byte_or_retired b))
    | _ => Err (malformed "channelClose: trailing bytes")
    end.
Proof.
  intros Hid Hb. unfold MAX_FRAME_PAYLOAD_LENGTH in Hb.
  unfold mux_decode, mux_decode_inner, read_u8, reader_new.
  set (t := type_as_byte TChannelClose).
  pose proof (runs_read_u32 0 id Hid [] (t :: body) eq_refl
                ltac:(unfold usize_max; cbn [app]; len_lia)) as E4. cbn [app] in E4.
  unfold mbind at 1, parser_bind at 1. rewrite E4, length_to_be_bytes. change (0 + Z.of_nat 4) with 4.
  pose proof (runs_next_byte 4 t (to_be_bytes 4 id) body eq_refl
                ltac:(unfold usize_max; cbn [app]; len_lia)) as E5. cbn [app] in E5.
  unfold mbind at 1, parser_bind at 1. rewrite E5. unfold t at 1. rewrite type_byte_roundtrip.
  change (4 + zlen [t]) with 5. unfold mbind, parser_bind, read_bytes_remaining, bytes_remaining.
  cbn [rd_data rd_offset].
  replace (zlen (to_be_bytes 4 id ++ t :: body) - 5) with (zlen body) by len_lia.
  destruct body as [|b body]; [done|]. destruct (Z.eqb_spec (zlen (b :: body)) 0); [cbn in *; lia|].
  pose proof (runs_next_byte 5 b (to_be_bytes 4 id ++ [t]) body eq_refl
                ltac:(unfold usize_max; len_lia)) as E6.
  rewrite <- app_assoc in E6. cbn [app] in E6. rewrite E6. cbn [rd_data rd_offset].
  replace (zlen (to_be_bytes 4 id ++ t :: b :: body) - (5 + zlen [b])) with (zlen body) by len_lia.
  destruct body; [done|]. destruct (Z.eqb_spec (zlen (b0 :: body)) 0); [cbn in *; lia|done].
Qed.

Lemma close_always_closes_witness :
  mux_decode (to_be_bytes 4 6 ++ [type_as_byte TChannelClose; byte_of_Z 0x7F])
  = Ok (ChannelClose 6 Retired).
Proof. apply (close_always_closes 6 [byte_of_Z 0x7F]); vm_compute; intuition congruence. Defined.

Lemma encode_with_payload_into_raw f payload out :
  let frame := mux_encode (set_payload f payload) in
  (payload = [] \/ mux_type f = TChannelData) ->
  zlen out <= usize_max -> zlen frame <= usize_max ->
  encoded_byte_count_with_payload f (zlen payload) = zlen frame
  /\ encode_with_payload_into f payload out
     = if zlen out <? zlen frame then (out, zlen frame)
       else (frame ++ drop (length frame) out, zlen frame).
Proof.
  cbv zeta. intros Hp Hout.
  assert (Ei : inner_bytes (set_payload f payload) (opaque_payload (set_payload f payload))
               = inner_bytes f payload).
  { destruct f; destruct Hp as [->|Hp]; done. }
  assert (Ef : mux_encode (set_payload f payload) = mux_frame_bytes f payload).
  { rewrite mux_encode_frame. unfold mux_frame_bytes. by rewrite Ei. }
  rewrite Ef. clear Ei Ef. intros Hfr. unfold mux_frame_bytes in Hfr.
  rewrite length_app, length_to_be_bytes in Hfr.
  assert (Hlen0 : zlen (inner_bytes f payload) = zlen (inner_bytes f []) + zlen payload).
  { unfold inner_bytes, mux_chunks. destruct Hp as [->|Hp]; [cbn [length]; lia|].
    destruct f; try done. cbn [concat]. len_lia. }
  assert (Hwl : forall p out', zlen (to_be_bytes 4 0 ++ inner_bytes f p) <= usize_max ->
    writer_len (put_all (writer_borrowing out') (to_be_bytes 4 0 :: mux_chunks f p))
    = zlen (to_be_bytes 4 0 ++ inner_bytes f p)).
  { intros p out' Hl. rewrite writer_len_put_all; [done|done|]. cbn [writer_len writer_borrowing sink].
    by rewrite concat_cons. }
  assert (Hneed : encoded_byte_count_with_payload f (zlen payload)
                  = zlen (mux_frame_bytes f payload)).
  { unfold encoded_byte_count_with_payload. rewrite mux_encode_into_chunks. cbv zeta.
    rewrite writer_len_patch. rewrite Hwl by len_lia.
    unfold saturating_add_usize, mux_frame_bytes. rewrite Z.min_l by len_lia. len_lia. }
  split; [done|]. unfold encode_with_payload_into. rewrite Hneed. cbv zeta.
  destruct (Z.ltb_spec (zlen out) (zlen (mux_frame_bytes f payload))) as [|Hroom]; [done|].
  unfold mux_frame_bytes in Hroom. rewrite length_app, length_to_be_bytes in Hroom.
  assert (Hc : zlen (to_be_bytes 4 0 ++ concat (mux_chunks f payload)) <= zlen out)
    by (fold (inner_bytes f payload); len_lia).
  rewrite mux_encode_into_chunks. cbv zeta. rewrite Hwl by len_lia.
  rewrite sat_sub_prefix, patched_borrowed by done. done.
Qed.

(** writing an envelope into a lent buffer, with the payload held apart, is [encode]: the size
    answered is exact, a buffer with that room receives exactly the encoded frame and keeps the rest
    of its bytes, and a smaller one is left alone. *)
Theorem encode_with_payload_into_refines f payload out :
  let frame := mux_encode (set_payload f payload) in
  (payload = [] \/ mux_type f = TChannelData) ->
  zlen out <= usize_max -> zlen frame <= usize_max ->
  encoded_byte_count_with_payload f (zlen payload) = zlen frame
  /\ encode_with_payload_into f payload out
     = if zlen out <? zlen frame then (out, zlen frame)
       else (frame ++ drop (length frame) out, zlen frame).
Proof. apply encode_with_payload_into_raw. Qed.

Lemma encode_with_payload_into_refines_witness :
  encode_with_payload_into (ChannelData 3 []) [byte_of_Z 65] (replicate 12 (byte_of_Z 7))
  = (mux_encode (ChannelData 3 [byte_of_Z 65]) ++ replicate 2 (byte_of_Z 7), 10).
Proof.
  apply (encode_with_payload_into_refines (ChannelData 3 []) [byte_of_Z 65]
           (replicate 12 (byte_of_Z 7))).
  - by right.
  - vm_compute. congruence.
  - vm_compute. congruence.
Defined.

(** the mux decoder reassembles the connection's stream: however the bytes of a sequence of
    frames are cut into reads, the loop answers those frames, in order, once each. *)
Theorem mux_stream_reassembly chunks fs tail :
  Forall mux_sendable fs -> concat chunks = concat (map mux_encode fs) ++ tail ->
  first_frame tail = Incomplete -> zlen (concat chunks) <= usize_max ->
  exists st, receive next_frame append (fun st => length (buffer st)) reader_init chunks
    = (map norm_frame fs, None, st) /\ fault st = None /\ pending st = tail.
Proof.
  intros Hall E Ht Hmax.
  destruct (@stream_reassembly _ mux_framed chunks fs tail Hall E Ht Hmax) as (st & Er & _ & ? & ?).
  by exists st.
Qed.

Definition two_envelopes : list byte :=
  mux_encode (WindowAdjust 3 65536) ++ mux_encode (ChannelData 3 [byte_of_Z 1]).

Lemma mux_stream_reassembly_witness :
  exists st, receive next_frame append (fun st => length (buffer st)) reader_init
      [take 5 two_envelopes; drop 5 two_envelopes]
    = ([WindowAdjust 3 65536; ChannelData 3 [byte_of_Z 1]], None, st)
    /\ fault st = None /\ pending st = [].
Proof.
  apply (mux_stream_reassembly _ [WindowAdjust 3 65536; ChannelData 3 [byte_of_Z 1]] []).
  - repeat constructor; vm_compute; congruence.
  - vm_compute. reflexivity.
  - vm_compute. reflexivity.
  - vm_compute. congruence.
Defined.
