(* ===== verification/Flow.v ===== *)
(** * Flow: per-channel credit flow control

    Models [slopdesk-wire/src/mux/flow.rs]: the constants and their environment overrides, the
    sender's window [FlowCreditPolicy], the receiver's [ReceiveWindowAccountant], the producer bound
    [BoundedQueuePolicy] and the backpressure gate [PausableQueueGate].  The environment, as parsed
    integers, is a parameter. *)

From S2P Require Import Prelude.

(** [value.div_euclid(2)] *)
Definition half (value : Z) : Z := value / 2.

(** ** [MuxFlowControl] *)

Module MuxFlowControl.
Definition MAX_CHANNELS_PER_CONNECTION : Z := 256.

Section Env.
(** [std::env::var(key)] parsed as an [i64]; [None] when it is unset or does not parse. *)
Context (env : string -> option Z).

Definition env_int (key : string) (fallback lo hi : Z) : Z :=
  match env key with
  | Some value => if (lo <=? value) && (value <=? hi) then value else fallback
  | None => fallback
  end.

Definition initial_window_bytes : Z :=
  env_int "SLOPDESK_MUX_WINDOW" (64 * 1024) (16 * 1024) (16 * 1024 * 1024).

Definition max_data_message_payload_bytes : Z :=
  Z.min (16 * 1024) (half initial_window_bytes - 16).

Definition host_queue_capacity_bytes : Z :=
  env_int "SLOPDESK_MUX_HOST_QUEUE" (64 * 1024) (8 * 1024) (8 * 1024 * 1024).

Definition detached_host_queue_capacity_bytes : Z :=
  env_int "SLOPDESK_MUX_DETACHED_QUEUE" (64 * 1024 * 1024) (64 * 1024) (1024 * 1024 * 1024).

Definition host_merge_cap_bytes : Z :=
  env_int "SLOPDESK_MUX_MERGE_CAP" (32 * 1024) (4 * 1024) (128 * 1024).

Definition max_output_frame_payload_bytes : Z :=
  Z.min host_merge_cap_bytes (half initial_window_bytes - 16).
End Env.
End MuxFlowControl.

(** ** [FlowCreditPolicy] *)

Inductive ConsumeResult : Type :=
| Allowed (left_ : Z)
| Insufficient (available : Z).

(** The clamp every policy applies to what a caller hands it. *)
Definition non_negative (v : Z) : Z := if 0 <? v then v else 0.

Module FlowCreditPolicy.
Record t : Type := mk { initial_window : Z; remaining : Z }.

Definition new (initial_window : Z) : t :=
  let start := non_negative initial_window in mk start start.
Definition restored (initial_window remaining : Z) : t :=
  mk (non_negative initial_window) (non_negative remaining).

Definition consume (p : t) (bytes : Z) : ConsumeResult * t :=
  let want := non_negative bytes in
  if remaining p <? want then (Insufficient (remaining p), p)
  else let left_ := remaining p - want in
       (Allowed left_, mk (initial_window p) left_).

Definition adjust (p : t) (bytes_to_add : Z) : t :=
  if bytes_to_add <=? 0 then p
  else mk (initial_window p) (saturating_add_i64 (remaining p) bytes_to_add).

Definition is_blocked (p : t) : bool := remaining p <=? 0.

(** The windows this type can hold. *)
Definition wf (p : t) : Prop :=
  0 <= initial_window p <= i64_max /\ 0 <= remaining p <= i64_max.
End FlowCreditPolicy.

(** ** [ReceiveWindowAccountant] *)

Module ReceiveWindowAccountant.
Record t : Type := mk { initial_window : Z; pending_credit : Z }.

Definition new (initial_window : Z) : t := mk (non_negative initial_window) 0.
Definition restored (initial_window pending_credit : Z) : t :=
  mk (non_negative initial_window) (non_negative pending_credit).

Definition threshold (a : t) : Z :=
  if initial_window a <=? 0 then i64_max
  else let h := half (initial_window a) in if 1 <? h then h else 1.

Definition consume (a : t) (bytes : Z) : option Z * t :=
  if initial_window a <=? 0 then (None, a) else
  let took := non_negative bytes in
  let a := mk (initial_window a) (saturating_add_i64 (pending_credit a) took) in
  if pending_credit a <? threshold a then (None, a)
  else (Some (pending_credit a), mk (initial_window a) 0).
End ReceiveWindowAccountant.

(** ** [BoundedQueuePolicy] *)

Module BoundedQueuePolicy.
Record t : Type := mk { capacity : Z; outstanding : Z }.

Definition new (capacity : Z) : t := mk (non_negative capacity) 0.
Definition restored (capacity outstanding : Z) : t :=
  mk (non_negative capacity) (non_negative outstanding).

Definition set_capacity (q : t) (new_capacity : Z) : t :=
  mk (non_negative new_capacity) (outstanding q).
Definition is_full (q : t) : bool := capacity q <=? outstanding q.

Definition enqueue (q : t) (bytes : Z) : bool * t :=
  let took := non_negative bytes in
  let q := mk (capacity q) (saturating_add_i64 (outstanding q) took) in
  (is_full q, q).

Definition dequeue (q : t) (bytes : Z) : bool * t :=
  let was_full := is_full q in
  let gave := non_negative bytes in
  let left_ := outstanding q - gave in
  let q := mk (capacity q) (non_negative left_) in
  (was_full && negb (is_full q), q).
End BoundedQueuePolicy.

(** ** [PausableQueueGate] *)

Module PausableQueueGate.
Record t : Type := mk {
  queue : BoundedQueuePolicy.t;
  replay_pause : bool;
  fanout_backlog : Z;
  applied : bool;
}.

Definition new (capacity : Z) : t := mk (BoundedQueuePolicy.new capacity) false 0 false.
Definition restored (capacity outstanding : Z) (replay_pause : bool) (fanout_backlog : Z)
  (applied : bool) : t :=
  mk (BoundedQueuePolicy.restored capacity outstanding) replay_pause
     (non_negative fanout_backlog) applied.

Definition wants_pause (g : t) : bool :=
  BoundedQueuePolicy.is_full (queue g) || replay_pause g
  || (BoundedQueuePolicy.capacity (queue g) <=? fanout_backlog g).

Definition settle (g : t) : option bool * t :=
  let want := wants_pause g in
  if Bool.eqb want (applied g) then (None, g)
  else (Some want, mk (queue g) (replay_pause g) (fanout_backlog g) want).

Definition with_queue (g : t) (q : BoundedQueuePolicy.t) : t :=
  mk q (replay_pause g) (fanout_backlog g) (applied g).

Definition enqueue (g : t) (count : Z) : option bool * t :=
  settle (with_queue g (BoundedQueuePolicy.enqueue (queue g) count).2).
Definition dequeue (g : t) (count : Z) : option bool * t :=
  settle (with_queue g (BoundedQueuePolicy.dequeue (queue g) count).2).
Definition set_replay_pause (g : t) (pause : bool) : option bool * t :=
  settle (mk (queue g) pause (fanout_backlog g) (applied g)).
Definition set_fanout_backlog (g : t) (bytes : Z) : option bool * t :=
  settle (mk (queue g) (replay_pause g) (non_negative bytes) (applied g)).
Definition set_capacity (g : t) (new_capacity : Z) : option bool * t :=
  settle (with_queue g (BoundedQueuePolicy.set_capacity (queue g) new_capacity)).
End PausableQueueGate.

(** ** Laws of the window *)

Lemma non_negative_spec v : non_negative v = Z.max v 0.
Proof. unfold non_negative. case_Z; lia. Qed.

Lemma credit_consume_partial p take :
  0 < take <= FlowCreditPolicy.remaining p ->
  FlowCreditPolicy.consume p take
  = (Allowed (FlowCreditPolicy.remaining p - take),
     FlowCreditPolicy.mk (FlowCreditPolicy.initial_window p)
       (FlowCreditPolicy.remaining p - take)).
Proof.
  intros. unfold FlowCreditPolicy.consume. rewrite non_negative_spec, Z.max_l by lia.
  by case_Z; [lia|].
Qed.

(** Within [i64] the saturating adds are sums. *)
Lemma saturating_add_i64_exact a b :
  i64_min <= a + b <= i64_max -> saturating_add_i64 a b = a + b.
Proof. unfold saturating_add_i64. lia. Qed.

Lemma accountant_consume_spec W c bytes :
  0 < W -> 0 <= c -> 0 < bytes -> c + bytes <= i64_max ->
  ReceiveWindowAccountant.consume (ReceiveWindowAccountant.mk W c) bytes
  = if c + bytes <? Z.max 1 (W / 2) then (None, ReceiveWindowAccountant.mk W (c + bytes))
    else (Some (c + bytes), ReceiveWindowAccountant.mk W 0).
Proof.
  intros. unfold ReceiveWindowAccountant.consume, ReceiveWindowAccountant.threshold, half.
  cbn [ReceiveWindowAccountant.initial_window ReceiveWindowAccountant.pending_credit].
  rewrite non_negative_spec, Z.max_l by lia.
  rewrite saturating_add_i64_exact by (unfold i64_min; lia).
  destruct (Z.leb_spec W 0); [lia|].
  destruct (Z.ltb_spec 1 (W / 2)); case_Z; try lia; done.
Qed.

(** ** The sizes enforce the progress invariant *)

(** A tunable stays within its bounds, whatever the environment holds. *)
Lemma env_int_bounds env key fallback lo hi :
  lo <= fallback <= hi -> lo <= MuxFlowControl.env_int env key fallback lo hi <= hi.
Proof.
  intros. unfold MuxFlowControl.env_int. destruct (env key) as [v|]; [|done]. case_Z; cbn; lia.
Qed.

Lemma window_bounds env : 16 * 1024 <= MuxFlowControl.initial_window_bytes env <= 16 * 1024 * 1024.
Proof. apply env_int_bounds; lia. Qed.

Lemma output_cap_positive env : 0 < MuxFlowControl.max_output_frame_payload_bytes env.
Proof.
  unfold MuxFlowControl.max_output_frame_payload_bytes, half.
  assert (4 * 1024 <= MuxFlowControl.host_merge_cap_bytes env <= 128 * 1024)
    by (apply env_int_bounds; lia).
  pose proof (window_bounds env). set (W := MuxFlowControl.initial_window_bytes env) in *.
  assert (8192 <= W / 2) by (apply Z.div_le_lower_bound; lia). lia.
Qed.

(** whatever the environment says, the tunables stay within their bounds and every data frame
    fits half a window, header included: an output frame has 13 bytes around its payload, an input
    frame 5, and both caps leave room for them under the receiver's grant threshold. *)
Theorem frame_caps_fit_half_window env :
  let W := MuxFlowControl.initial_window_bytes env in
  let threshold := ReceiveWindowAccountant.threshold (ReceiveWindowAccountant.new W) in
  16 * 1024 <= W <= 16 * 1024 * 1024
  /\ threshold = W / 2
  /\ 0 < MuxFlowControl.max_output_frame_payload_bytes env
  /\ 13 + MuxFlowControl.max_output_frame_payload_bytes env <= threshold
  /\ 0 < MuxFlowControl.max_data_message_payload_bytes env
  /\ 5 + MuxFlowControl.max_data_message_payload_bytes env <= threshold.
Proof.
  cbv zeta. unfold MuxFlowControl.max_output_frame_payload_bytes,
    MuxFlowControl.max_data_message_payload_bytes, ReceiveWindowAccountant.threshold,
    ReceiveWindowAccountant.new, half. cbn [ReceiveWindowAccountant.initial_window].
  pose proof (window_bounds env) as HW.
  assert (HM : 4 * 1024 <= MuxFlowControl.host_merge_cap_bytes env <= 128 * 1024)
    by (apply env_int_bounds; lia).
  rewrite non_negative_spec, Z.max_l by lia.
  set (W := MuxFlowControl.initial_window_bytes env) in *.
  assert (8192 <= W / 2) by (apply Z.div_le_lower_bound; lia).
  destruct (Z.leb_spec W 0); [lia|]. destruct (Z.ltb_spec 1 (W / 2)); [|lia]. lia.
Qed.

(** ** The gate *)

(** The operations a relay performs on its gate. *)
Inductive gate_op : Type :=
| OpEnqueue (count : Z)
| OpDequeue (count : Z)
| OpReplayPause (pause : bool)
| OpFanoutBacklog (bytes : Z)
| OpSetCapacity (capacity : Z).

Definition gate_apply (op : gate_op) (g : PausableQueueGate.t) : option bool * PausableQueueGate.t :=
  match op with
  | OpEnqueue n => PausableQueueGate.enqueue g n
  | OpDequeue n => PausableQueueGate.dequeue g n
  | OpReplayPause b => PausableQueueGate.set_replay_pause g b
  | OpFanoutBacklog n => PausableQueueGate.set_fanout_backlog g n
  | OpSetCapacity n => PausableQueueGate.set_capacity g n
  end.

(** The caller: it holds the flag the read loop obeys and acts exactly when it is told to.  Answers
    whether every instruction was a change, and the flag and the gate at the end. *)
Fixpoint gate_run (ops : list gate_op) (flag : bool) (g : PausableQueueGate.t)
  : bool * bool * PausableQueueGate.t :=
  match ops with
  | [] => (true, flag, g)
  | op :: ops =>
    match gate_apply op g with
    | (Some b, g) => let '(ok, flag', g) := gate_run ops b g in (negb (Bool.eqb b flag) && ok, flag', g)
    | (None, g) => gate_run ops flag g
    end
  end.

Definition gate_ok (g : PausableQueueGate.t) : Prop :=
  PausableQueueGate.applied g = PausableQueueGate.wants_pause g
  /\ 0 <= BoundedQueuePolicy.outstanding (PausableQueueGate.queue g) <= i64_max
  /\ 0 <= BoundedQueuePolicy.capacity (PausableQueueGate.queue g)
  /\ 0 <= PausableQueueGate.fanout_backlog g.

Lemma settle_spec g :
  let (ans, g') := PausableQueueGate.settle g in
  PausableQueueGate.queue g' = PausableQueueGate.queue g
  /\ PausableQueueGate.fanout_backlog g' = PausableQueueGate.fanout_backlog g
  /\ PausableQueueGate.applied g' = PausableQueueGate.wants_pause g'
  /\ default (PausableQueueGate.applied g) ans = PausableQueueGate.wants_pause g'
  /\ (forall b, ans = Some b -> b <> PausableQueueGate.applied g).
Proof.
  unfold PausableQueueGate.settle.
  destruct (Bool.eqb_spec (PausableQueueGate.wants_pause g) (PausableQueueGate.applied g)).
  - by rewrite e.
  - cbn. split_and!; try done. intros b ?. by simplify_eq.
Qed.

Lemma gate_apply_ok op g :
  gate_ok g ->
  let (ans, g') := gate_apply op g in
  gate_ok g' /\ default (PausableQueueGate.applied g) ans = PausableQueueGate.applied g'
  /\ (forall b, ans = Some b -> b <> PausableQueueGate.applied g).
Proof.
  intros (Ha & Ho & Hc & Hf).
  assert (Hs : forall g1, PausableQueueGate.applied g1 = PausableQueueGate.applied g ->
    0 <= BoundedQueuePolicy.outstanding (PausableQueueGate.queue g1) <= i64_max ->
    0 <= BoundedQueuePolicy.capacity (PausableQueueGate.queue g1) ->
    0 <= PausableQueueGate.fanout_backlog g1 ->
    let (ans, g') := PausableQueueGate.settle g1 in
    gate_ok g' /\ default (PausableQueueGate.applied g) ans = PausableQueueGate.applied g'
    /\ (forall b, ans = Some b -> b <> PausableQueueGate.applied g)).
  { intros g1 E1 Ho1 Hc1 Hf1. pose proof (settle_spec g1) as H.
    destruct (PausableQueueGate.settle g1) as [ans g'].
    destruct H as (Eq & Ef & Ea & Ed & En). unfold gate_ok. rewrite Eq, Ef, Ea, <- E1.
    split_and!; try done; lia. }
  destruct op; cbn [gate_apply]; apply Hs; cbn; rewrite ?non_negative_spec;
    unfold saturating_add_i64, i64_min, i64_max in *; try done; lia.
Qed.

(** no lost wakeup: after any sequence of enqueues, dequeues, replay pauses, fan-out reports and
    re-sizes, in any order, the flag a caller keeps by obeying the gate's answers is the combined
    verdict of the three sources at that moment, and the gate never orders the state it last ordered
    again. *)
Theorem gate_no_lost_wakeup capacity ops :
  0 < capacity <= i64_max ->
  let '(changes, flag, g) := gate_run ops false (PausableQueueGate.new capacity) in
  changes = true
  /\ flag = PausableQueueGate.wants_pause g
  /\ 0 <= BoundedQueuePolicy.outstanding (PausableQueueGate.queue g).
Proof.
  intros Hcap.
  assert (Hi : gate_ok (PausableQueueGate.new capacity)).
  { unfold gate_ok, PausableQueueGate.new, PausableQueueGate.wants_pause,
      BoundedQueuePolicy.is_full, BoundedQueuePolicy.new. cbn.
    rewrite non_negative_spec, Z.max_l by lia. unfold i64_max in *. case_Z; cbn; lia || done. }
  assert (Hgen : forall ops g, gate_ok g ->
    let '(changes, flag, g') := gate_run ops (PausableQueueGate.applied g) g in
    changes = true /\ flag = PausableQueueGate.wants_pause g' /\ gate_ok g').
  { clear. intros ops. induction ops as [|op ops IH]; intros g Hg; cbn [gate_run].
    - by destruct Hg as (Ha & ?).
    - pose proof (gate_apply_ok op g Hg) as H. destruct (gate_apply op g) as [ans g'].
      destruct H as (Hg' & Hd & Hn). specialize (IH g' Hg'). destruct ans as [b|]; cbn in Hd.
      + rewrite <- Hd in IH. destruct (gate_run ops b g') as [[ok fl] g2].
        destruct IH as (-> & -> & ?). split; [|done].
        destruct (Bool.eqb_spec b (PausableQueueGate.applied g)); [|done]. by destruct (Hn b).
      + by rewrite Hd. }
  specialize (Hgen ops _ Hi). change (PausableQueueGate.applied _) with false in Hgen.
  destruct (gate_run ops false _) as [[ok fl] g]. destruct Hgen as (? & ? & _ & ? & _).
  split_and!; try done; lia.
Qed.

Lemma gate_no_lost_wakeup_witness :
  let '(changes, flag, g) :=
    gate_run [OpEnqueue 70; OpReplayPause true; OpDequeue 70; OpReplayPause false; OpFanoutBacklog 64]
      false (PausableQueueGate.new 64) in
  changes = true /\ flag = PausableQueueGate.wants_pause g
  /\ 0 <= BoundedQueuePolicy.outstanding (PausableQueueGate.queue g).
Proof. apply (gate_no_lost_wakeup 64). vm_compute. split; congruence. Defined.
