(* ===== verification/Channels.v ===== *)
(** * Channels: the channel table of one mux connection

    Models [slopdesk-wire/src/mux/channels.rs]: the odd-id allocator, the per-channel close machine,
    the ring that bounds the terminal entries, and the demux rule.  Ids are [u32] values; the
    [HashMap] of states is a finite map. *)

From stdpp Require Import gmap fin_sets.
From S2P Require Import Prelude Envelope.

Definition TERMINAL_RING_CAP : Z := 1024.

Inductive ChannelState : Type := Idle | Open | HalfClosed | Closed.

#[export] Instance channel_state_eq_dec : EqDecision ChannelState.
Proof. solve_decision. Defined.

Record ChannelTable : Type := mkTable {
  states : gmap Z ChannelState;
  last_allocated : Z;
  terminal_ring : list Z;
  terminal_ring_head : Z;
}.

Definition table_new : ChannelTable := mkTable ∅ 0 [] 0.

Definition with_states (t : ChannelTable) (m : gmap Z ChannelState) : ChannelTable :=
  mkTable m (last_allocated t) (terminal_ring t) (terminal_ring_head t).

Definition set_state (t : ChannelTable) (id : Z) (s : ChannelState) : ChannelTable :=
  with_states t (<[id := s]> (states t)).

Definition note_terminal (t : ChannelTable) (id : Z) : ChannelTable :=
  if zlen (terminal_ring t) <? TERMINAL_RING_CAP
  then mkTable (states t) (last_allocated t) (terminal_ring t ++ [id]) (terminal_ring_head t)
  else
    let '(m, ring) :=
      match get (terminal_ring t) (terminal_ring_head t) with
      | Some evicted =>
          (if negb (evicted =? id) then delete evicted (states t) else states t,
           <[Z.to_nat (terminal_ring_head t) := id]> (terminal_ring t))
      | None => (states t, terminal_ring t)
      end in
    let head := terminal_ring_head t + 1 in
    mkTable m (last_allocated t) ring (if head =? TERMINAL_RING_CAP then 0 else head).

(** [u32::saturating_add] *)
Definition saturating_add_u32 (a b : Z) : Z := Z.min (a + b) u32_max.

Definition allocate (t : ChannelTable) : Z * ChannelTable :=
  let id := if last_allocated t =? 0 then 1 else saturating_add_u32 (last_allocated t) 2 in
  (id, mkTable (<[id := Idle]> (states t)) id (terminal_ring t) (terminal_ring_head t)).

Definition open (t : ChannelTable) (id : Z) : ChannelTable :=
  match states t !! id with
  | None | Some Idle | Some Open => set_state t id Open
  | Some HalfClosed | Some Closed => t
  end.

Definition state_of (t : ChannelTable) (id : Z) : option ChannelState := states t !! id.
Definition is_open (t : ChannelTable) (id : Z) : bool := bool_decide (states t !! id = Some Open).

Definition reject (t : ChannelTable) (id : Z) : ChannelState * ChannelTable :=
  let t :=
    match states t !! id with
    | Some Idle | Some Open => note_terminal (set_state t id Closed) id
    | Some HalfClosed | Some Closed | None => t
    end in
  (default Closed (states t !! id), t).

Definition advance_close (t : ChannelTable) (id : Z) : ChannelState * ChannelTable :=
  match states t !! id with
  | Some Idle | Some Open => (HalfClosed, note_terminal (set_state t id HalfClosed) id)
  | Some HalfClosed => (Closed, set_state t id Closed)
  | Some Closed => (Closed, t)
  | None => (Closed, t)
  end.

Definition local_close (t : ChannelTable) (id : Z) : ChannelState * ChannelTable :=
  advance_close t id.
Definition remote_close (t : ChannelTable) (id : Z) : ChannelState * ChannelTable :=
  advance_close t id.

Definition live_channel_ids (t : ChannelTable) : gset Z :=
  dom (filter (fun kv => kv.2 <> Closed) (states t)).
Definition state_count (t : ChannelTable) : Z := Z.of_nat (size (states t)).

(** ** The demux rule *)

Inductive FrameKind : Type :=
| KChannelOpen | KChannelOpenAck | KChannelData | KChannelClose | KWindowAdjust.

#[export] Instance frame_kind_eq_dec : EqDecision FrameKind.
Proof. solve_decision. Defined.

Definition from_wire (b : byte) : option FrameKind :=
  match byte_to_Z b with
  | 1 => Some KChannelOpen
  | 2 => Some KChannelOpenAck
  | 3 => Some KChannelData
  | 4 => Some KChannelClose
  | 5 => Some KWindowAdjust
  | _ => None
  end.

Inductive DropReason : Type := NonOpenChannel | UnknownChannel.

Inductive RoutingDecision : Type :=
| DeliverData (channel_id : Z)
| Lifecycle (channel_id : Z) (state : ChannelState)
| DropFrame (channel_id : Z) (reason : DropReason).

Definition lifecycle (t : ChannelTable) (id : Z) (absent : ChannelState) : RoutingDecision :=
  Lifecycle id (default absent (state_of t id)).

Definition route (t : ChannelTable) (kind : FrameKind) (id : Z) (accepted : bool)
  : RoutingDecision * ChannelTable :=
  match kind with
  | KChannelData =>
      if is_open t id then (DeliverData id, t)
      else (DropFrame id (match state_of t id with
                          | Some _ => NonOpenChannel | None => UnknownChannel end), t)
  | KChannelOpen => let t := open t id in (lifecycle t id Open, t)
  | KChannelOpenAck =>
      if accepted then
        let t := match state_of t id with Some _ => open t id | None => t end in
        (lifecycle t id Closed, t)
      else let '(s, t) := reject t id in (Lifecycle id s, t)
  | KChannelClose => let '(s, t) := remote_close t id in (Lifecycle id s, t)
  | KWindowAdjust => (lifecycle t id Closed, t)
  end.

Example half_then_full_close :
  let t := open table_new 7 in
  let '(s1, t) := remote_close t 7 in
  let '(s2, t) := local_close t 7 in
  (s1, s2, state_of (open t 7) 7) = (HalfClosed, Closed, Some Closed).
Proof. vm_compute. reflexivity. Qed.

(** ** The invariant *)

Definition terminal (s : ChannelState) : bool :=
  match s with HalfClosed | Closed => true | Idle | Open => false end.

Definition terminal_in (t : ChannelTable) (id : Z) : Prop :=
  exists s, states t !! id = Some s /\ terminal s = true.

(** The ring lists exactly the terminal ids, each once, and never exceeds its capacity. *)
Record table_inv (t : ChannelTable) : Prop := {
  ti_nodup : NoDup (terminal_ring t);
  ti_cap : zlen (terminal_ring t) <= TERMINAL_RING_CAP;
  ti_head : 0 <= terminal_ring_head t < TERMINAL_RING_CAP;
  ti_exact : forall id, id ∈ terminal_ring t <-> terminal_in t id;
}.

Lemma table_inv_new : table_inv table_new.
Proof.
  split; cbn; try done; [constructor|].
  intros id. split; [by intros ?%elem_of_nil|]. by intros (s & Hs & _).
Qed.

Lemma terminal_in_insert t id s id' :
  terminal_in (set_state t id s) id' <->
  (if decide (id' = id) then terminal s = true else terminal_in t id').
Proof.
  unfold terminal_in, set_state. cbn [states with_states]. case_decide as Hd.
  - subst. rewrite lookup_insert_eq. split; [|eauto]. by intros (? & ? & ?); simplify_eq.
  - by rewrite lookup_insert_ne by done.
Qed.

(** Re-labelling an id without crossing the terminal line keeps the ring exact. *)
Lemma set_state_inv t id s :
  table_inv t -> (terminal s = true <-> terminal_in t id) -> table_inv (set_state t id s).
Proof.
  intros [Hn Hc Hh He] Hs. split; try done. intros id'. rewrite terminal_in_insert.
  change (terminal_ring (set_state t id s)) with (terminal_ring t). rewrite He.
  case_decide; [subst; by rewrite Hs|done].
Qed.

(** First entry into a terminal state: the id takes a slot, and once the ring is full the oldest
    terminal id leaves the table. *)
Lemma note_terminal_inv t id s :
  table_inv t -> terminal s = true -> ~ terminal_in t id ->
  table_inv (note_terminal (set_state t id s) id)
  /\ states (note_terminal (set_state t id s) id) !! id = Some s
  /\ (forall id', id' <> id ->
        states (note_terminal (set_state t id s) id) !! id' = states t !! id'
        \/ (terminal_in t id' /\ states (note_terminal (set_state t id s) id) !! id' = None))
  /\ last_allocated (note_terminal (set_state t id s) id) = last_allocated t.
Proof.
  intros [Hn Hc Hh He] Hs Hnot. pose proof (terminal_in_insert t id s) as Hins.
  assert (Hfresh : id ∉ terminal_ring t) by by rewrite He.
  unfold note_terminal. change (terminal_ring (set_state t id s)) with (terminal_ring t).
  change (terminal_ring_head (set_state t id s)) with (terminal_ring_head t).
  destruct (Z.ltb_spec (zlen (terminal_ring t)) TERMINAL_RING_CAP) as [Hlt|Hge].
  - cbn [states last_allocated set_state with_states]. split_and!; [|by rewrite lookup_insert_eq| |done].
    + split; cbn; [|len_lia|done|].
      * apply NoDup_app. split_and!; [done| |apply NoDup_singleton].
        intros x Hx ->%list_elem_of_singleton. done.
      * intros id'. rewrite elem_of_app, list_elem_of_singleton, He.
        specialize (Hins id'). unfold terminal_in, set_state in *.
        cbn [states with_states] in *. rewrite Hins. case_decide; [by split; [|right]|tauto].
    + intros id' Hne. left. by rewrite lookup_insert_ne.
  - assert (Hlen : zlen (terminal_ring t) = TERMINAL_RING_CAP) by lia.
    set (h := Z.to_nat (terminal_ring_head t)).
    assert (Hh' : (h < length (terminal_ring t))%nat) by (subst h; lia).
    destruct (lookup_lt_is_Some_2 _ _ Hh') as [evicted Hev].
    assert (Hg : get (terminal_ring t) (terminal_ring_head t) = Some evicted).
    { unfold get. fold h. case_Z; cbn; try lia. done. }
    rewrite Hg. assert (Hin : evicted ∈ terminal_ring t) by by eapply list_elem_of_lookup_2.
    assert (Hne : evicted <> id) by (by intros ->).
    destruct (Z.eqb_spec evicted id); [done|]. cbn [negb states last_allocated].
    cbn [states set_state with_states].
    split_and!; [|by rewrite lookup_delete_ne, lookup_insert_eq by done| |done].
    + split; cbn.
      * apply NoDup_alt. intros i j x Hi Hj.
        rewrite list_lookup_insert_Some in Hi, Hj.
        destruct Hi as [(-> & -> & _)|[Hni Hi]], Hj as [(<- & Hx & _)|[Hnj Hj]]; subst; try done.
        -- exfalso. apply Hfresh. by eapply list_elem_of_lookup_2.
        -- exfalso. apply Hfresh. by eapply list_elem_of_lookup_2.
        -- by eapply NoDup_lookup.
      * rewrite length_insert. lia.
      * destruct (Z.eqb_spec (terminal_ring_head t + 1) TERMINAL_RING_CAP); [done|lia].
      * intros id'. unfold terminal_in. cbn [states].
        destruct (decide (id' = id)) as [->|Hid].
        { split; [|intros _; apply list_elem_of_lookup; exists h; apply list_lookup_insert_eq; lia].
          intros _. rewrite lookup_delete_ne, lookup_insert_eq by done. eauto. }
        destruct (decide (id' = evicted)) as [->|Hev'].
        { rewrite lookup_delete_eq. split; [|by intros (? & ? & _)].
          intros (i & Hi)%list_elem_of_lookup. exfalso.
          rewrite list_lookup_insert_Some in Hi. destruct Hi as [(_ & ? & _)|[Hni Hi]]; [done|].
          apply Hni. by eapply NoDup_lookup. }
        rewrite lookup_delete_ne, lookup_insert_ne by done.
        change (exists s0, states t !! id' = Some s0 /\ terminal s0 = true) with (terminal_in t id').
        rewrite <- He. split.
        -- intros (i & Hi)%list_elem_of_lookup. rewrite list_lookup_insert_Some in Hi.
           destruct Hi as [(_ & ? & _)|[_ Hi]]; [done|]. by eapply list_elem_of_lookup_2.
        -- intros (i & Hi)%list_elem_of_lookup. apply list_elem_of_lookup. exists i.
           rewrite list_lookup_insert_ne; [done|]. intros <-. congruence.
    + intros id' Hid. destruct (decide (id' = evicted)) as [->|Hev'].
      * right. split; [by apply He|apply lookup_delete_eq].
      * left. by rewrite lookup_delete_ne, lookup_insert_ne by done.
Qed.

(** ** Every operation keeps the invariant

    [kept t t' id]: an operation on [id] leaves the allocator and every other id alone, except that
    a terminal id may have been evicted. *)

Definition kept (t t' : ChannelTable) (id : Z) : Prop :=
  last_allocated t' = last_allocated t
  /\ forall id', id' <> id ->
       states t' !! id' = states t !! id' \/ (terminal_in t id' /\ states t' !! id' = None).

Lemma kept_refl t id : kept t t id.
Proof. split; auto. Qed.

Lemma kept_set_state t id s : kept t (set_state t id s) id.
Proof. split; [done|]. intros id' Hne. left. cbn. by rewrite lookup_insert_ne. Qed.

Lemma terminal_in_state t id s :
  states t !! id = Some s -> terminal_in t id <-> terminal s = true.
Proof.
  intros E. unfold terminal_in. rewrite E. split; [by intros (? & ? & ?); simplify_eq|eauto].
Qed.

Lemma not_terminal_in_none t id : states t !! id = None -> ~ terminal_in t id.
Proof. intros E (s & Hs & _). congruence. Qed.

Lemma open_spec t id :
  table_inv t ->
  table_inv (open t id) /\ kept t (open t id) id
  /\ states (open t id) !! id
     = match states t !! id with
       | Some HalfClosed => Some HalfClosed | Some Closed => Some Closed | _ => Some Open end.
Proof.
  intros Hinv. unfold open. destruct (states t !! id) as [[]|] eqn:E;
    try (split_and!; [done|apply kept_refl|done]);
    (split_and!; [|apply kept_set_state|cbn; by rewrite lookup_insert_eq]);
    apply set_state_inv; try done; (split; [done|]); intros Ht;
    first [by apply (terminal_in_state _ _ _ E) in Ht | by apply not_terminal_in_none in Ht].
Qed.

Lemma enter_terminal_spec t id s s' :
  table_inv t -> terminal s' = true ->
  states t !! id = Some s -> terminal s = false ->
  table_inv (note_terminal (set_state t id s') id)
  /\ kept t (note_terminal (set_state t id s') id) id
  /\ states (note_terminal (set_state t id s') id) !! id = Some s'.
Proof.
  intros Hinv Hs' E Hs.
  destruct (note_terminal_inv t id s' Hinv Hs') as (? & ? & ? & ?); [|by split_and!].
  rewrite (terminal_in_state _ _ _ E). congruence.
Qed.

Lemma advance_close_spec t id :
  table_inv t ->
  table_inv (advance_close t id).2 /\ kept t (advance_close t id).2 id
  /\ states (advance_close t id).2 !! id
     = match states t !! id with
       | Some Idle | Some Open => Some HalfClosed
       | Some HalfClosed | Some Closed => Some Closed
       | None => None
       end
  /\ (advance_close t id).1 = default Closed (states (advance_close t id).2 !! id).
Proof.
  intros Hinv. unfold advance_close. destruct (states t !! id) as [[]|] eqn:E; cbn [fst snd].
  1,2: destruct (enter_terminal_spec t id _ HalfClosed Hinv eq_refl E eq_refl) as (? & ? & Hl);
    rewrite Hl; done.
  - split_and!; [|apply kept_set_state|cbn; by rewrite lookup_insert_eq..].
    apply set_state_inv; [done|]. by rewrite (terminal_in_state _ _ _ E).
  - rewrite E. split_and!; try done. apply kept_refl.
  - rewrite E. split_and!; try done. apply kept_refl.
Qed.

Lemma reject_spec t id :
  table_inv t ->
  table_inv (reject t id).2 /\ kept t (reject t id).2 id
  /\ states (reject t id).2 !! id
     = match states t !! id with
       | Some HalfClosed => Some HalfClosed | Some _ => Some Closed | None => None end
  /\ (reject t id).1 = default Closed (states (reject t id).2 !! id).
Proof.
  intros Hinv. unfold reject. destruct (states t !! id) as [[]|] eqn:E; cbn [fst snd].
  1,2: destruct (enter_terminal_spec t id _ Closed Hinv eq_refl E eq_refl) as (? & ? & Hl);
    rewrite Hl; done.
  all: rewrite E; split_and!; try done; apply kept_refl.
Qed.

(** What routing one frame does to the id it names. *)
Definition routed_state (kind : FrameKind) (accepted : bool) (s : option ChannelState)
  : option ChannelState :=
  match kind with
  | KChannelOpen =>
      match s with Some HalfClosed => Some HalfClosed | Some Closed => Some Closed | _ => Some Open end
  | KChannelOpenAck =>
      if accepted then match s with Some Idle => Some Open | _ => s end
      else match s with Some HalfClosed => Some HalfClosed | Some _ => Some Closed | None => None end
  | KChannelClose =>
      match s with
      | Some Idle | Some Open => Some HalfClosed
      | Some HalfClosed | Some Closed => Some Closed
      | None => None
      end
  | KChannelData | KWindowAdjust => s
  end.

Definition decision_of (kind : FrameKind) (id : Z) (s s' : option ChannelState) : RoutingDecision :=
  match kind with
  | KChannelData =>
      match s with
      | Some Open => DeliverData id
      | Some _ => DropFrame id NonOpenChannel
      | None => DropFrame id UnknownChannel
      end
  | _ => Lifecycle id (default Closed s')
  end.

Lemma route_spec t kind id accepted :
  table_inv t ->
  table_inv (route t kind id accepted).2 /\ kept t (route t kind id accepted).2 id
  /\ states (route t kind id accepted).2 !! id = routed_state kind accepted (states t !! id)
  /\ (route t kind id accepted).1
     = decision_of kind id (states t !! id) (states (route t kind id accepted).2 !! id).
Proof.
  intros Hinv. destruct kind; cbn [route routed_state decision_of].
  - destruct (open_spec t id Hinv) as (? & ? & Hl). unfold lifecycle, state_of. cbn [fst snd].
    rewrite Hl. split_and!; try done. by destruct (states t !! id) as [[]|].
  - destruct accepted.
    + unfold lifecycle, state_of. cbn [fst snd].
      destruct (states t !! id) as [s|] eqn:E.
      * destruct (open_spec t id Hinv) as (? & ? & Hl). rewrite Hl, E.
        split_and!; try done; by destruct s.
      * rewrite E. split_and!; try done. apply kept_refl.
    + destruct (reject_spec t id Hinv) as (? & ? & Hl & Hr).
      destruct (reject t id) as [s t']. cbn [fst snd] in *. rewrite Hl in *. by subst.
  - unfold is_open, state_of. destruct (states t !! id) as [[]|] eqn:E; cbn; rewrite ?E;
      (split_and!; try done; apply kept_refl).
  - unfold remote_close. destruct (advance_close_spec t id Hinv) as (? & ? & Hl & Hr).
    destruct (advance_close t id) as [s t']. cbn [fst snd] in *. rewrite Hl in *. by subst.
  - cbn [fst snd]. split_and!; try done. apply kept_refl.
Qed.

(** ** The operations as one alphabet *)

Inductive table_op : Type :=
| TOpen (id : Z)
| TLocalClose (id : Z)
| TRemoteClose (id : Z)
| TReject (id : Z)
| TRoute (kind : FrameKind) (id : Z) (accepted : bool).

Definition table_apply (op : table_op) (t : ChannelTable) : ChannelTable :=
  match op with
  | TOpen id => open t id
  | TLocalClose id => (local_close t id).2
  | TRemoteClose id => (remote_close t id).2
  | TReject id => (reject t id).2
  | TRoute kind id accepted => (route t kind id accepted).2
  end.

Lemma table_apply_inv op t : table_inv t -> table_inv (table_apply op t).
Proof.
  intros Hinv. destruct op; cbn [table_apply].
  - by apply open_spec.
  - by apply advance_close_spec.
  - by apply advance_close_spec.
  - by apply reject_spec.
  - by apply route_spec.
Qed.

(** The terminal ids are the ring's. *)
Lemma terminal_entries t :
  table_inv t ->
  Z.of_nat (size (filter (fun kv => terminal kv.2 = true) (states t))) = zlen (terminal_ring t).
Proof.
  intros [Hn _ _ He]. rewrite <- size_dom.
  assert (E : dom (filter (fun kv => terminal kv.2 = true) (states t))
              = list_to_set (C := gset Z) (terminal_ring t)).
  { apply set_eq. intros id. rewrite elem_of_list_to_set, He, elem_of_dom. unfold terminal_in.
    split.
    - intros [s Hs]. apply map_lookup_filter_Some in Hs as [Hs Ht]. eauto.
    - intros (s & Hs & Ht). exists s. by apply map_lookup_filter_Some. }
  rewrite E, size_list_to_set by done. done.
Qed.

(** Whatever is terminal is in the ring, so the table is its live channels and at most one ring. *)
Lemma state_count_bound t :
  table_inv t ->
  state_count t <= Z.of_nat (size (filter (fun kv => terminal kv.2 = false) (states t)))
                   + TERMINAL_RING_CAP.
Proof.
  intros Hinv. pose proof (terminal_entries t Hinv). pose proof (ti_cap t Hinv). unfold state_count.
  rewrite <- (map_filter_union_complement (fun kv => terminal kv.2 = true) (states t)) at 1.
  rewrite map_size_disj_union by apply map_disjoint_filter_complement.
  assert (Ef : filter (fun kv => ~ terminal kv.2 = true) (states t)
               = filter (fun kv => terminal kv.2 = false) (states t)).
  { apply map_filter_ext. intros i x _. cbn. by destruct (terminal x). }
  rewrite Ef. lia.
Qed.

(** a hostile peer cannot grow the table.  After any sequence of opens, closes from either side,
    refusals and routed frames, with any ids, the table holds at most 1024 entries besides its live
    channels. *)
Theorem table_bounded ops :
  let t := foldl (fun t op => table_apply op t) table_new ops in
  state_count t <= Z.of_nat (size (filter (fun kv => terminal kv.2 = false) (states t)))
                   + TERMINAL_RING_CAP.
Proof.
  apply state_count_bound. generalize table_inv_new. generalize table_new.
  induction ops as [|op ops IH]; intros t Ht; cbn [foldl]; [done|].
  apply IH. by apply table_apply_inv.
Qed.

(** a dead channel stays dead.  Once an id is half-closed or closed, no frame and no call makes
    it live again: it stays terminal or leaves the table, and data for it is never delivered. *)
Theorem dead_channel_never_reopens t op id :
  table_inv t -> terminal_in t id ->
  (terminal_in (table_apply op t) id \/ states (table_apply op t) !! id = None)
  /\ (forall accepted, (route t KChannelData id accepted).1 = DropFrame id NonOpenChannel).
Proof.
  intros Hinv Ht. destruct Ht as (s & Hs & Hterm). split.
  - assert (Hkept : forall t' id0, kept t t' id0 -> id <> id0 ->
               terminal_in t' id \/ states t' !! id = None).
    { intros t' id0 [_ Hk] Hne. destruct (Hk id Hne) as [E|[_ E]]; [left|by right].
      exists s. by rewrite E. }
    assert (Hsame : forall t', states t' !! id = Some HalfClosed \/ states t' !! id = Some Closed ->
               terminal_in t' id \/ states t' !! id = None).
    { intros t' [E|E]; left; eexists; (split; [exact E|done]). }
    destruct op as [id0|id0|id0|id0|kind id0 accepted]; cbn [table_apply]; unfold local_close, remote_close;
      (destruct (decide (id = id0)) as [<-|Hne]; [apply Hsame|eapply Hkept; [|exact Hne]]).
    + destruct (open_spec t id Hinv) as (_ & _ & ->). rewrite Hs. destruct s; auto; done.
    + by apply open_spec.
    + destruct (advance_close_spec t id Hinv) as (_ & _ & -> & _). rewrite Hs. destruct s; auto; done.
    + by apply advance_close_spec.
    + destruct (advance_close_spec t id Hinv) as (_ & _ & -> & _). rewrite Hs. destruct s; auto; done.
    + by apply advance_close_spec.
    + destruct (reject_spec t id Hinv) as (_ & _ & -> & _). rewrite Hs. destruct s; auto; done.
    + by apply reject_spec.
    + destruct (route_spec t kind id accepted Hinv) as (_ & _ & -> & _). rewrite Hs.
      destruct kind, accepted, s; cbn; auto; done.
    + by apply route_spec.
  - intros accepted. unfold route, is_open, state_of. rewrite Hs. by destruct s.
Qed.

Lemma dead_channel_never_reopens_witness :
  let t := (remote_close (open table_new 7) 7).2 in
  terminal_in (table_apply (TOpen 7) t) 7 \/ states (table_apply (TOpen 7) t) !! 7 = None.
Proof.
  intros t. apply (dead_channel_never_reopens t (TOpen 7) 7).
  - apply advance_close_spec, open_spec, table_inv_new.
  - exists HalfClosed. vm_compute. split; reflexivity.
Defined.

(** The first [n] ids a fresh table allocates. *)
Fixpoint allocate_n (n : nat) (t : ChannelTable) : list Z * ChannelTable :=
  match n with
  | O => ([], t)
  | S n => let '(id, t) := allocate t in let '(ids, t) := allocate_n n t in (id :: ids, t)
  end.

Lemma allocate_n_spec n t :
  last_allocated t = 0 \/ Z.odd (last_allocated t) = true ->
  0 <= last_allocated t ->
  (if last_allocated t =? 0 then -1 else last_allocated t) + 2 * Z.of_nat n <= u32_max ->
  (allocate_n n t).1
  = map (fun i => (if last_allocated t =? 0 then -1 else last_allocated t) + 2 * (Z.of_nat i + 1)) (seq 0 n).
Proof.
  revert t. induction n as [|n IH]; intros t Ho H0 Hle; [done|].
  cbn [allocate_n seq map]. unfold allocate.
  set (id := if last_allocated t =? 0 then 1 else saturating_add_u32 (last_allocated t) 2).
  assert (Eid : id = (if last_allocated t =? 0 then -1 else last_allocated t) + 2).
  { subst id. unfold saturating_add_u32. destruct (Z.eqb_spec (last_allocated t) 0); [done|].
    rewrite Z.min_l by lia. done. }
  assert (Hodd : Z.odd id = true).
  { rewrite Eid. rewrite Z.odd_add. destruct (Z.eqb_spec (last_allocated t) 0); [done|].
    destruct Ho as [Hz|Hz]; [lia|by rewrite Hz]. }
  specialize (IH (mkTable (<[id:=Idle]> (states t)) id (terminal_ring t) (terminal_ring_head t))).
  cbn [last_allocated] in IH. destruct (allocate_n n _) as [ids t'] eqn:En.
  assert (Hid : (id =? 0) = false) by (apply Z.eqb_neq; intros E; by rewrite E in Hodd).
  rewrite Hid in IH.
  assert (H1 : 0 <= id) by (rewrite Eid; destruct (Z.eqb_spec (last_allocated t) 0); lia).
  cbn [fst] in *. rewrite IH; [|by right|done|rewrite Eid; lia].
  f_equal; [rewrite Eid; lia|]. rewrite <- seq_shift, map_map. apply map_ext. intros i. lia.
Qed.

(** the allocator hands out the odd ids 1, 3, 5, … in order, each once, up to the last odd [u32];
    past that it saturates and hands the same id out again. *)
Theorem allocate_odd_until_saturation :
  (forall n, 2 * Z.of_nat n - 1 <= u32_max ->
     (allocate_n n table_new).1 = map (fun i => 2 * Z.of_nat i + 1) (seq 0 n))
  /\ (forall t, last_allocated t = u32_max ->
        (allocate t).1 = u32_max /\ states (allocate t).2 !! u32_max = Some Idle).
Proof.
  split.
  - intros n Hn. rewrite allocate_n_spec; cbn [last_allocated table_new]; [|by left|done|].
    + apply map_ext. intros i. cbn [Z.eqb]. lia.
    + cbn [Z.eqb]. lia.
  - intros t E. unfold allocate. rewrite E. cbn. split; [done|by rewrite lookup_insert_eq].
Qed.
