(* ===== verification/Admission.v ===== *)
(** * Admission: what a connection lets past its door, and what an ending tears down

    Models [slopdesk-wire/src/mux/admission.rs]: the ladder of guards over an arriving frame and the
    two teardown verdicts. *)

From S2P Require Import Prelude Envelope Channels Flow.

Inductive Role : Type := Client | Host.

#[export] Instance role_eq_dec : EqDecision Role.
Proof. solve_decision. Defined.

Definition initiates_opens (r : Role) : bool := match r with Client => true | Host => false end.

Inductive Link : Type := LControl | LData.

#[export] Instance link_eq_dec : EqDecision Link.
Proof. solve_decision. Defined.

Record Arrival : Type := mkArrival {
  ar_role : Role;
  ar_link : Link;
  ar_kind : FrameKind;
  registered : bool;
  live_channels : Z;
  prior_data_state : option ChannelState;
}.

Inductive Refusal : Type := OverCap | Reopen.
Inductive Ignored : Type := OpenOnControlLink | OpenAtInitiator.

Inductive AdmissionVerdict : Type :=
| Proceed
| Refuse (r : Refusal)
| DropOpen (i : Ignored).

(** [admit] *)
Definition admit_arrival (a : Arrival) : AdmissionVerdict :=
  if negb (bool_decide (ar_kind a = KChannelOpen)) then Proceed else
  let responder_on_data := bool_decide (ar_role a = Host) && bool_decide (ar_link a = LData) in
  if responder_on_data && negb (registered a)
     && (MuxFlowControl.MAX_CHANNELS_PER_CONNECTION <=? live_channels a)
  then Refuse OverCap else
  if bool_decide (ar_link a = LControl) then DropOpen OpenOnControlLink else
  if initiates_opens (ar_role a) then DropOpen OpenAtInitiator else
  if responder_on_data
     && match prior_data_state a with Some Closed | Some HalfClosed => true | _ => false end
  then Refuse Reopen
  else Proceed.

Inductive TableStep : Type := StepHold | StepLocal | StepRemote.

#[export] Instance table_step_eq_dec : EqDecision TableStep.
Proof. solve_decision. Defined.

Record Teardown : Type := mkTeardown {
  drop_data : bool;
  drop_control : bool;
  data_table : TableStep;
  control_table : TableStep;
  reap : bool;
}.

Definition poisoned (role : Role) (link : Link) : Teardown :=
  let host := match role with Host => true | Client => false end in
  let on_data := match link with LData => true | LControl => false end in
  let data := on_data || host in
  let control := negb on_data || host in
  mkTeardown data control (if data then StepLocal else StepHold)
    (if control then StepLocal else StepHold) host.

Definition peer_close (role : Role) (link : Link) : Teardown :=
  let is_data := match link with LData => true | LControl => false end in
  let host_on_data := match role with Host => is_data | Client => false end in
  mkTeardown is_data (negb is_data || host_on_data) StepHold
    (if host_on_data then StepRemote else StepHold) host_on_data.

(** ** The ladder *)

(** the admission ladder, completely: only opens are judged; an open gets through exactly at the
    host, on the DATA link, for an id that is not dead, and within the cap unless the id is already
    registered; the cap is judged before everything else, a wrong link or role is dropped without an
    answer, and only the host's DATA link ever refuses. *)
Theorem admit_spec a :
  admit_arrival a = match ar_kind a with
    | KChannelOpen =>
      match ar_role a, ar_link a with
      | Host, LData =>
          if negb (registered a) && (256 <=? live_channels a) then Refuse OverCap else
          match prior_data_state a with
          | Some Closed | Some HalfClosed => Refuse Reopen
          | _ => Proceed
          end
      | _, LControl => DropOpen OpenOnControlLink
      | Client, LData => DropOpen OpenAtInitiator
      end
    | _ => Proceed
    end.
Proof.
  destruct a as [role link kind reg live prior]. unfold admit_arrival. cbn [ar_kind ar_role ar_link
    registered live_channels prior_data_state].
  destruct kind; try done. destruct role, link; try done.
  unfold initiates_opens, MuxFlowControl.MAX_CHANNELS_PER_CONNECTION.
  rewrite !bool_decide_eq_true_2, bool_decide_eq_false_2 by done. cbn [negb andb].
  destruct (negb reg && (256 <=? live)); [done|]. by destruct prior as [[]|].
Qed.

(** Every teardown steps the table of each sub-channel it drops, unless the router already did. *)
Lemma poisoned_steps role link :
  data_table (poisoned role link) = (if drop_data (poisoned role link) then StepLocal else StepHold)
  /\ control_table (poisoned role link)
     = (if drop_control (poisoned role link) then StepLocal else StepHold).
Proof. by destruct role, link. Qed.
