(* ===== verification/SubChannel.v ===== *)
(** * SubChannel: one logical channel on one of a connection's two links

    Models [slopdesk-muxnet/src/subchannel.rs] and the contract of [slopdesk-muxnet/src/link.rs]:
    chunking a framed message across the send window, reassembly, the delivery queue, the grants of
    consumed credit, and the one-shot ending.  A thread that parks on the window's condition variable
    is a step that cannot be taken yet: [await_chunk_credit] answers [PollParked], and the loop of
    [send] is taken one iteration at a time ([send_iter]). *)

From stdpp Require Import pretty.
From S2P Require Import Prelude Bytes Message Codec Framing Envelope Flow Channels Admission.

(** ** The link: writes every byte, in call order, or fails for good ([ByteLink]) *)

Record ByteLink : Type := mkLink {
  written : list (list byte);
  broken : option string;
}.

Definition link_new : ByteLink := mkLink [] None.

Definition link_send (l : ByteLink) (bytes : list byte) : result string ByteLink :=
  match broken l with
  | Some reason => Err reason
  | None => Ok (mkLink (written l ++ [bytes]) None)
  end.

(** ** The channel *)

Inductive ChannelEnd : Type :=
| EndLocal
| EndPeer (reason : MuxCloseReason)
| EndLinkDown
| EndDecode (reason : string).

Inductive SendError : Type :=
| SendClosed
| SendLink (reason : string).

(** [WireError]'s [Display] *)
Definition display_wire_error (e : WireError) : string :=
  match e with
  | FrameTooLarge n => "frame too large: " +:+ pretty (Z.to_N n)
  | Truncated => "truncated"
  | UnknownMessageType b => "unknown message type: " +:+ pretty (Z.to_N (byte_to_Z b))
  | MalformedBody hint => "malformed body: " +:+ hint
  end.

(** The state of a channel.  [inbound] is whether the sending half of the consumer's stream is still
    held; [queue] is what the stream holds that the consumer has not received, which outlives it;
    [receiver_alive] is whether the consumer still holds the other half. *)
Record SubChannel : Type := mkSubChannel {
  channel_id : Z;
  lane : Link;
  send_window : option FlowCreditPolicy.t;
  receive_window : option ReceiveWindowAccountant.t;
  outbound : list byte;
  inbound_decoder : FrameDecoder;
  inbound : bool;
  queue : list WireMessage;
  receiver_alive : bool;
  finished : bool;
  end_ : option ChannelEnd;
}.

Definition build (id : Z) (l : Link) (send_window_bytes : option Z)
    (receive : option ReceiveWindowAccountant.t) : SubChannel :=
  mkSubChannel id l (FlowCreditPolicy.new <$> send_window_bytes) receive [] reader_init
    true [] true false None.

(** [SubChannel::data], with the window both ends size from the same constant. *)
Definition data_channel (window id : Z) : SubChannel :=
  build id LData (Some window) (Some (ReceiveWindowAccountant.new window)).

(** [SubChannel::control] *)
Definition control_channel (id : Z) : SubChannel := build id LControl None None.

(** [SubChannel::with_send_window] *)
Definition with_send_window (id : Z) (l : Link) (send_window_bytes : option Z) : SubChannel :=
  build id l send_window_bytes None.

Definition with_outbound (ch : SubChannel) (scratch : list byte) : SubChannel :=
  mkSubChannel (channel_id ch) (lane ch) (send_window ch) (receive_window ch) scratch
    (inbound_decoder ch) (inbound ch) (queue ch) (receiver_alive ch) (finished ch) (end_ ch).
Definition set_send_window (ch : SubChannel) (w : FlowCreditPolicy.t) : SubChannel :=
  mkSubChannel (channel_id ch) (lane ch) (Some w) (receive_window ch) (outbound ch)
    (inbound_decoder ch) (inbound ch) (queue ch) (receiver_alive ch) (finished ch) (end_ ch).
Definition set_receive_window (ch : SubChannel) (a : ReceiveWindowAccountant.t) : SubChannel :=
  mkSubChannel (channel_id ch) (lane ch) (send_window ch) (Some a) (outbound ch)
    (inbound_decoder ch) (inbound ch) (queue ch) (receiver_alive ch) (finished ch) (end_ ch).
Definition with_decoder (ch : SubChannel) (d : FrameDecoder) : SubChannel :=
  mkSubChannel (channel_id ch) (lane ch) (send_window ch) (receive_window ch) (outbound ch)
    d (inbound ch) (queue ch) (receiver_alive ch) (finished ch) (end_ ch).
Definition with_inbound (ch : SubChannel) (b : bool) (q : list WireMessage) : SubChannel :=
  mkSubChannel (channel_id ch) (lane ch) (send_window ch) (receive_window ch) (outbound ch)
    (inbound_decoder ch) b q (receiver_alive ch) (finished ch) (end_ ch).

(** ** Ending *)

(** [finish_with]: once; the first reason to arrive is the one recorded. *)
Definition finish_with (ch : SubChannel) (e : ChannelEnd) : SubChannel :=
  if finished ch then ch else
  mkSubChannel (channel_id ch) (lane ch) (send_window ch) (receive_window ch) (outbound ch)
    (inbound_decoder ch) false (queue ch) (receiver_alive ch) true (Some e).

Definition finish (ch : SubChannel) : SubChannel := finish_with ch EndLocal.
Definition finish_closed_by_peer (ch : SubChannel) (r : MuxCloseReason) : SubChannel :=
  finish_with ch (EndPeer r).
Definition finish_link_down (ch : SubChannel) : SubChannel := finish_with ch EndLinkDown.

(** ** Sending *)

(** [scratch.resize(needed, 0)] when it is shorter. *)
Definition grow (scratch : list byte) (needed : Z) : list byte :=
  if zlen scratch <? needed
  then scratch ++ replicate (Z.to_nat (needed - zlen scratch)) (byte_of_Z 0) else scratch.

(** Builds one [channelData] envelope in the scratch buffer and writes it. *)
Definition write_chunk (id : Z) (scratch : list byte) (link : ByteLink) (chunk : list byte)
  : result SendError ByteLink * list byte :=
  let frame := ChannelData id [] in
  let needed := encoded_byte_count_with_payload frame (zlen chunk) in
  let scratch := grow scratch needed in
  let '(scratch, written) := encode_with_payload_into frame chunk scratch in
  match get_range scratch 0 written with
  | None => (Err SendClosed, scratch)
  | Some bytes => (map_err SendLink (link_send link bytes), scratch)
  end.

(** [i64::try_from(v).unwrap_or(i64::MAX)] *)
Definition i64_try_from_or_max (v : Z) : Z := Z.min v i64_max.

Inductive CreditPoll : Type :=
| PollClosed
| PollParked
| PollGranted (take : Z) (credit : FlowCreditPolicy.t).

(** One turn of the loop of [await_chunk_credit]. *)
Definition await_chunk_credit (credit : FlowCreditPolicy.t) (is_finished : bool) (max_wanted : Z)
  : CreditPoll :=
  let wanted := i64_try_from_or_max max_wanted in
  if is_finished then PollClosed else
  let available := FlowCreditPolicy.remaining credit in
  if 0 <? available then
    let take := if available <? wanted then available else wanted in
    match FlowCreditPolicy.consume credit take with
    | (Allowed _, credit) => PollGranted take credit
    | (Insufficient _, _) => PollParked
    end
  else PollParked.

(** A send in progress: the framed bytes and how many of them are written. *)
Record Sending : Type := mkSending { framed : list byte; offset : Z }.

Inductive SendStep : Type :=
| SendDone (ch : SubChannel) (link : ByteLink)
| SendMore (ch : SubChannel) (link : ByteLink) (s : Sending)
| SendParked
| SendFailed (ch : SubChannel) (e : SendError).

(** [send] up to its loop: the gate is taken, a finished channel refuses, and an unwindowed one
    writes the whole frame as one envelope. *)
Definition send_begin (ch : SubChannel) (link : ByteLink) (message : WireMessage) : SendStep :=
  let framed := encode message in
  if finished ch then SendFailed ch SendClosed else
  match send_window ch with
  | None =>
    match write_chunk (channel_id ch) (outbound ch) link framed with
    | (Ok link, scratch) => SendDone (with_outbound ch scratch) link
    | (Err e, scratch) => SendFailed (with_outbound ch scratch) e
    end
  | Some _ => SendMore ch link (mkSending framed 0)
  end.

(** One iteration of the loop of [send]. *)
Definition send_iter (ch : SubChannel) (link : ByteLink) (s : Sending) : SendStep :=
  if zlen (framed s) <=? offset s then SendDone ch link else
  match send_window ch with
  | None => SendFailed ch SendClosed
  | Some window =>
    let wanted := zlen (framed s) - offset s in
    match await_chunk_credit window (finished ch) wanted with
    | PollClosed => SendFailed ch SendClosed
    | PollParked => SendParked
    | PollGranted granted window =>
      let ch := set_send_window ch window in
      let e := saturating_add_usize (offset s) granted in
      match get_range (framed s) (offset s) e with
      | None => SendFailed ch SendClosed
      | Some chunk =>
        match write_chunk (channel_id ch) (outbound ch) link chunk with
        | (Ok link, scratch) => SendMore (with_outbound ch scratch) link (mkSending (framed s) e)
        | (Err err, scratch) => SendFailed (with_outbound ch scratch) err
        end
      end
    end
  end.

Definition grant_credit (ch : SubChannel) (bytes_to_add : Z) : SubChannel :=
  match send_window ch with
  | None => ch
  | Some credit => set_send_window ch (FlowCreditPolicy.adjust credit bytes_to_add)
  end.

(** ** Receiving *)

(** The loop of [deliver]; one frame is taken per turn. *)
Fixpoint deliver_loop (fuel : nat) (ch : SubChannel) : SubChannel :=
  match fuel with
  | O => ch
  | S fuel =>
    match next_message (inbound_decoder ch) with
    | (Ok (Some message), d) =>
      let ch := with_decoder ch d in
      if negb (inbound ch) then ch else
      if receiver_alive ch
      then deliver_loop fuel (with_inbound ch true (queue ch ++ [message]))
      else with_inbound ch false (queue ch)
    | (Ok None, d) => with_decoder ch d
    | (Err fault, d) => finish_with (with_decoder ch d) (EndDecode (display_wire_error fault))
    end
  end.

Definition deliver (ch : SubChannel) (payload : list byte) : SubChannel :=
  let ch := with_decoder ch (append (inbound_decoder ch) payload) in
  deliver_loop (S (length (buffer (inbound_decoder ch)))) ch.

(** The consumer takes the next message of the stream. *)
Definition receive_message (ch : SubChannel) : option (WireMessage * SubChannel) :=
  match queue ch with
  | m :: q => Some (m, with_inbound ch (inbound ch) q)
  | [] => None
  end.

(** [u32::try_from(grant).unwrap_or(u32::MAX)] is [u32_try_from_or_max]. *)
Definition note_consumed (ch : SubChannel) (grant_link : ByteLink) (bytes : Z)
  : SubChannel * ByteLink :=
  match receive_window ch with
  | None => (ch, grant_link)
  | Some accountant =>
    let taken := i64_try_from_or_max bytes in
    match ReceiveWindowAccountant.consume accountant taken with
    | (None, accountant) => (set_receive_window ch accountant, grant_link)
    | (Some grant, accountant) =>
      let bytes_to_add := u32_try_from_or_max grant in
      let adjust := mux_encode (WindowAdjust (channel_id ch) bytes_to_add) in
      (set_receive_window ch accountant,
       match link_send grant_link adjust with Ok l => l | Err _ => grant_link end)
    end
  end.

(** ** What one write puts on the link *)

Lemma inner_data_length id chunk : zlen (inner_bytes (ChannelData id chunk) chunk) = 5 + zlen chunk.
Proof. unfold inner_bytes, mux_chunks. cbn [concat]. len_lia. Qed.

Lemma mux_data_length id chunk : zlen (mux_encode (ChannelData id chunk)) = 9 + zlen chunk.
Proof.
  rewrite mux_encode_frame. unfold mux_frame_bytes. cbn [opaque_payload].
  rewrite length_app, length_to_be_bytes, Nat2Z.inj_add, inner_data_length. lia.
Qed.

(** The scratch buffer, whatever it holds, does not show: the link gets exactly the encoded frame. *)
Lemma write_chunk_spec id scratch link chunk :
  zlen chunk <= 2 ^ 32 -> zlen scratch <= usize_max ->
  write_chunk id scratch link chunk
  = (map_err SendLink (link_send link (mux_encode (ChannelData id chunk))),
     (write_chunk id scratch link chunk).2)
  /\ zlen (write_chunk id scratch link chunk).2 <= Z.max (zlen scratch) (9 + zlen chunk).
Proof.
  intros Hc Hs. pose proof (mux_data_length id chunk) as Hl.
  assert (Hmax : forall out, zlen out <= usize_max ->
    encoded_byte_count_with_payload (ChannelData id []) (zlen chunk) = 9 + zlen chunk
    /\ encode_with_payload_into (ChannelData id []) chunk out
       = if zlen out <? zlen (mux_encode (ChannelData id chunk))
         then (out, zlen (mux_encode (ChannelData id chunk)))
         else (mux_encode (ChannelData id chunk)
               ++ drop (length (mux_encode (ChannelData id chunk))) out,
               zlen (mux_encode (ChannelData id chunk)))).
  { intros out Hout. rewrite <- Hl.
    apply (encode_with_payload_into_raw (ChannelData id []) chunk out); [by right|done|].
    cbn [set_payload]. unfold usize_max. lia. }
  unfold write_chunk. destruct (Hmax [] ltac:(done)) as [-> _].
  assert (Hg : zlen (grow scratch (9 + zlen chunk)) = Z.max (zlen scratch) (9 + zlen chunk)).
  { unfold grow. case_Z; len_lia. }
  destruct (Hmax (grow scratch (9 + zlen chunk)) ltac:(unfold usize_max in *; lia)) as [_ ->].
  destruct (Z.ltb_spec (zlen (grow scratch (9 + zlen chunk)))
              (zlen (mux_encode (ChannelData id chunk)))); [lia|].
  pose proof (get_range_app [] (mux_encode (ChannelData id chunk))
    (drop (length (mux_encode (ChannelData id chunk))) (grow scratch (9 + zlen chunk)))
    0 _ eq_refl eq_refl) as Eg. cbn [app] in Eg. rewrite Z.add_0_l in Eg. rewrite Eg.
  cbn [snd]. split; [done|]. rewrite length_app, length_drop. lia.
Qed.

(** ** What one delivery does *)

(** While the stream is open and its consumer alive, the delivery loop is the decoder's drain. *)
Lemma deliver_loop_drain fuel ch vs d :
  inbound ch = true -> receiver_alive ch = true ->
  drain next_message fuel (inbound_decoder ch) = (vs, None, d) ->
  deliver_loop fuel ch = with_decoder (with_inbound ch true (queue ch ++ vs)) d.
Proof.
  revert ch vs d. induction fuel as [|fuel IH]; intros ch vs d Hi Ha; cbn [drain deliver_loop].
  - intros; simplify_eq. rewrite app_nil_r. destruct ch; cbn in *. by subst.
  - destruct (next_message (inbound_decoder ch)) as [[[m|]|e] d1].
    + destruct (drain next_message fuel d1) as [[vs1 e1] d2] eqn:Ed. intros; simplify_eq.
      cbn [inbound receiver_alive with_decoder]. rewrite Hi, Ha. cbn [negb].
      erewrite IH; [|done|done|exact Ed]. destruct ch; cbn. by rewrite <- app_assoc.
    + intros; simplify_eq. rewrite app_nil_r. destruct ch; cbn in *. by subst.
    + done.
Qed.

(** A drain that ends without a fault stopped at an incomplete frame, with the head reclaimed. *)
Lemma drain_settles fuel st vs st' :
  reader_inv st -> zlen (buffer st) <= usize_max -> fault st = None ->
  (length (pending st) < fuel)%nat ->
  drain next_message fuel st = (vs, None, st') -> read_offset st' = 0.
Proof.
  revert st vs. induction fuel as [|fuel IH]; intros st vs Hinv Hmax Hf Hfu; [lia|].
  cbn [drain]. change (next_message st) with (next_of decode st).
  destruct (next_of_refines decode st Hinv Hmax) as (Hi & Hr & Ho).
  assert (Hsh : zlen (buffer (next_of decode st).2) <= zlen (buffer st)).
  { unfold next_of. pose proof (next_payload_shrinks (copying decode) false st).
    by destruct (next_payload _ _ _). }
  destruct (next_of decode st) as [[[v|]|err] st1]; cbn [fst snd] in *.
  - destruct (drain next_message fuel st1) as [[vs1 e1] st2] eqn:Ed. intros; simplify_eq.
    unfold abs_reader in Hr. rewrite Hf in Hr. unfold recv_next in Hr.
    destruct (first_frame (pending st)) as [|n|payload rest] eqn:Efr; [done|done|].
    destruct (decode payload); [|done]. injection Hr as <- Hr.
    destruct (fault st1) eqn:Ef1; [done|]. injection Hr as ->.
    eapply IH; [done|lia|done| |exact Ed].
    unfold first_frame in Efr. case_Z_in Efr; simplify_eq.
    match goal with H : _ = pending st1 |- _ => rewrite <- H end.
    rewrite !length_drop. lia.
  - intros; simplify_eq. by apply Ho.
  - done.
Qed.
