(* ===== verification/Pipe.v ===== *)
(** * Pipe: a sender and a receiver joined by the two links

    The system the flow control of [slopdesk-muxnet/src/subchannel.rs] is about: one DATA channel
    seen from both ends, the link that carries its chunks, the control link that carries the grants,
    and the consumer that reports what it has used.  Each step is one call of the code; steps of the
    two ends interleave freely.  The contract is that nothing is lost, reordered or duplicated, that
    credit is conserved, and that the pipe never wedges. *)

From S2P Require Import Prelude Bytes Message Codec Framing Envelope Flow SubChannel.

#[local] Arguments mux_encode f : simpl never.
#[local] Arguments mux_decode inner : simpl never.
#[local] Arguments encode m : simpl never.
#[local] Arguments write_chunk id scratch link chunk : simpl never.

Record Pipe : Type := mkPipe {
  tx : SubChannel;
  rx : SubChannel;
  sending : option Sending;
  data_link : ByteLink;
  grant_link : ByteLink;
  sent : list WireMessage;
  consumed : list WireMessage;
}.

Definition pipe_init (window id : Z) : Pipe :=
  mkPipe (data_channel window id) (data_channel window id) None link_new link_new [] [].

Inductive Action : Type :=
| ASend (m : WireMessage)
| AChunk
| AArrive
| AConsume
| AGrant.

(** The next envelope a link delivers: its bytes, decoded past their length prefix. *)
Definition link_recv (l : ByteLink) : option (wresult MuxFrame * ByteLink) :=
  match written l with
  | bytes :: rest => Some (mux_decode (drop 4 bytes), mkLink rest (broken l))
  | [] => None
  end.

(** One step; [None] when the action cannot be taken now. *)
Definition act (a : Action) (p : Pipe) : option Pipe :=
  match a with
  | ASend m =>
    match sending p with
    | Some _ => None
    | None =>
      match send_begin (tx p) (data_link p) m with
      | SendMore ch link s =>
          Some (mkPipe ch (rx p) (Some s) link (grant_link p) (sent p ++ [m]) (consumed p))
      | _ => None
      end
    end
  | AChunk =>
    match sending p with
    | None => None
    | Some s =>
      match send_iter (tx p) (data_link p) s with
      | SendMore ch link s =>
          Some (mkPipe ch (rx p) (Some s) link (grant_link p) (sent p) (consumed p))
      | SendDone ch link =>
          Some (mkPipe ch (rx p) None link (grant_link p) (sent p) (consumed p))
      | _ => None
      end
    end
  | AArrive =>
    match link_recv (data_link p) with
    | Some (Ok (ChannelData id payload), link) =>
        Some (mkPipe (tx p) (if decide (id = channel_id (rx p)) then deliver (rx p) payload else rx p)
                (sending p) link (grant_link p) (sent p) (consumed p))
    | _ => None
    end
  | AConsume =>
    match receive_message (rx p) with
    | Some (m, ch) =>
        let '(ch, grants) := note_consumed ch (grant_link p) (wire_byte_count m) in
        Some (mkPipe (tx p) ch (sending p) (data_link p) grants (sent p) (consumed p ++ [m]))
    | None => None
    end
  | AGrant =>
    match link_recv (grant_link p) with
    | Some (Ok (WindowAdjust id n), link) =>
        Some (mkPipe (if decide (id = channel_id (tx p)) then grant_credit (tx p) n else tx p)
                (rx p) (sending p) (data_link p) link (sent p) (consumed p))
    | _ => None
    end
  end.

Fixpoint exec (acts : list Action) (p : Pipe) : option Pipe :=
  match acts with
  | [] => Some p
  | a :: acts => match act a p with Some p => exec acts p | None => None end
  end.

(** Pipes reached by any interleaving, the sender sending messages that satisfy [ok]. *)
Inductive reachable (ok : WireMessage -> Prop) (window id : Z) : Pipe -> Prop :=
| reach_init : reachable ok window id (pipe_init window id)
| reach_step a p p' :
    reachable ok window id p ->
    match a with ASend m => ok m | _ => True end ->
    act a p = Some p' -> reachable ok window id p'.

(** ** The invariant *)

Definition total (l : list Z) : Z := foldr Z.add 0 l.

Lemma total_cons x l : total (x :: l) = x + total l.
Proof. done. Qed.

#[local] Arguments total l : simpl never.

Lemma total_app a b : total (a ++ b) = total a + total b.
Proof. induction a as [|x a IH]; cbn [app]; [done|]. rewrite !total_cons, IH. lia. Qed.

Definition unsent (p : Pipe) : list byte :=
  match sending p with Some s => drop (Z.to_nat (offset s)) (framed s) | None => [] end.

(** What is known of a pipe: the credit [rem] left, the chunks and the grants in flight, the credit
    [pc] the receiver has not granted yet, and the messages [ms] sent but not yet decoded. *)
Record pipe_view (W id : Z) (ok : WireMessage -> Prop) (p : Pipe) (rem pc : Z)
    (chunks : list (list byte)) (grants : list Z) (ms : list WireMessage) : Prop := {
  v_tx_id : channel_id (tx p) = id;
  v_tx_live : finished (tx p) = false;
  v_tx_scratch : zlen (outbound (tx p)) <= 9 + W;
  v_rem : send_window (tx p) = Some (FlowCreditPolicy.mk W rem) /\ 0 <= rem;
  v_rx_id : channel_id (rx p) = id;
  v_rx_live : finished (rx p) = false /\ inbound (rx p) = true /\ receiver_alive (rx p) = true;
  v_pc : receive_window (rx p) = Some (ReceiveWindowAccountant.mk W pc)
         /\ 0 <= pc < Z.max 1 (W / 2);
  v_reader : reader_inv (inbound_decoder (rx p)) /\ fault (inbound_decoder (rx p)) = None
             /\ read_offset (inbound_decoder (rx p)) = 0
             /\ first_frame (pending (inbound_decoder (rx p))) = Incomplete;
  v_data : data_link p = mkLink (map (fun c => mux_encode (ChannelData id c)) chunks) None
           /\ Forall (fun c => c <> []) chunks;
  v_grants : grant_link p = mkLink (map (fun g => mux_encode (WindowAdjust id g)) grants) None
             /\ Forall (fun g => 0 < g) grants;
  v_sending : match sending p with
              | Some s => 0 <= offset s <= zlen (framed s) /\ zlen (framed s) <= 4 + MAX_FRAME_PAYLOAD_LENGTH
              | None => True end;
  v_stream : pending (inbound_decoder (rx p)) ++ concat chunks ++ unsent p = concat (map encode ms);
  v_ok : Forall (fun m => sendable m /\ ok m) ms;
  v_fifo : consumed p ++ queue (rx p) ++ map clamp_message ms = map clamp_message (sent p);
  v_queue : Forall (fun m => 0 < wire_byte_count m) (queue (rx p));
  v_credit : rem + zlen (concat chunks) + zlen (pending (inbound_decoder (rx p)))
             + total (map wire_byte_count (queue (rx p))) + pc + total grants = W;
}.

Definition pipe_inv (W id : Z) (ok : WireMessage -> Prop) (p : Pipe) : Prop :=
  exists rem pc chunks grants ms, pipe_view W id ok p rem pc chunks grants ms.

Section Invariant.
Context (W id : Z) (ok : WireMessage -> Prop).
Hypothesis HW : 0 < W <= 16 * 1024 * 1024.
Hypothesis Hid : u_range 32 id.
Hypothesis Hok : forall m, ok m -> sendable m.

Lemma total_nonneg l : Forall (fun x => 0 < x) l -> 0 <= total l.
Proof. induction 1 as [|x l Hx Hl IH]; [done|]. rewrite total_cons. lia. Qed.

Lemma total_map_nonneg (q : list WireMessage) :
  Forall (fun m => 0 < wire_byte_count m) q -> 0 <= total (map wire_byte_count q).
Proof. induction 1 as [|x l Hx Hl IH]; [done|]. cbn [map]. rewrite total_cons. lia. Qed.

Lemma total_parts_nonneg p rem pc chunks grants ms :
  pipe_view W id ok p rem pc chunks grants ms ->
  0 <= total (map wire_byte_count (queue (rx p))) /\ 0 <= total grants.
Proof. intros []. destruct v_grants0. auto using total_nonneg, total_map_nonneg. Qed.

Lemma inv_init : pipe_inv W id ok (pipe_init W id).
Proof.
  exists W, 0, [], [], []. unfold pipe_init, data_channel, build, FlowCreditPolicy.new,
    ReceiveWindowAccountant.new.
  split; cbn; rewrite ?non_negative_spec, ?Z.max_l by lia; try done;
    try (split_and!; (done || lia)); try lia.
  - split_and!; try done. apply reader_inv_init.
  - change (zlen (pending reader_init)) with 0. change (total []) with 0. lia.
Qed.

Lemma wire_byte_count_pos m : 0 < wire_byte_count m.
Proof.
  unfold wire_byte_count, SESSION_ID_BYTE_COUNT. destruct m; try lia. destruct status; lia.
Qed.

Lemma inv_send m p p' :
  ok m -> pipe_inv W id ok p -> act (ASend m) p = Some p' -> pipe_inv W id ok p'.
Proof.
  intros Hm (rem & pc & chunks & grants & ms & V) H. destruct (Hok m Hm) as [Hwf Hlen].
  cbn [act] in H. destruct (sending p) as [|] eqn:Es; [done|].
  destruct V. destruct v_rem0 as [Ew Hrem]. unfold send_begin in H.
  rewrite v_tx_live0, Ew in H. injection H as <-.
  exists rem, pc, chunks, grants, (ms ++ [m]).
  unfold unsent in v_stream0. rewrite Es, app_nil_r in v_stream0.
  pose proof (encode_length m Hwf) as El. split; cbn; try done.
  - rewrite El. unfold MAX_FRAME_PAYLOAD_LENGTH in *. pose proof (wire_byte_count_pos m). lia.
  - unfold unsent. cbn. rewrite drop_0, map_app, concat_app, <- v_stream0. cbn.
    by rewrite app_nil_r, <- app_assoc.
  - apply Forall_app. split; [done|]. by repeat constructor.
  - rewrite !map_app. cbn. by rewrite <- v_fifo0, <- !app_assoc.
Qed.

Lemma inv_chunk p p' : pipe_inv W id ok p -> act AChunk p = Some p' -> pipe_inv W id ok p'.
Proof.
  intros (rem & pc & chunks & grants & ms & V) H.
  pose proof (total_parts_nonneg _ _ _ _ _ _ V) as [Hq Hg].
  cbn [act] in H. destruct (sending p) as [[fr o]|] eqn:Es; [|done].
  destruct V. rewrite Es in v_sending0. cbn [framed offset] in v_sending0.
  destruct v_rem0 as [Ew Hrem], v_pc0 as [Ea Hpc], v_data0 as [Ed Hne].
  unfold unsent in v_stream0. rewrite Es in v_stream0. cbn [framed offset] in v_stream0.
  unfold MAX_FRAME_PAYLOAD_LENGTH in *.
  unfold send_iter in H. cbn [framed offset] in H.
  destruct (Z.leb_spec (zlen fr) o).
  { injection H as <-. exists rem, pc, chunks, grants, ms. split; cbn; try done.
    unfold unsent. cbn. rewrite <- v_stream0, drop_ge by lia. done. }
  rewrite Ew in H. unfold await_chunk_credit, i64_try_from_or_max, i64_max in H.
  rewrite v_tx_live0 in H. cbn [FlowCreditPolicy.remaining] in H.
  rewrite Z.min_l in H by lia. destruct (Z.ltb_spec 0 rem); [|done].
  set (take_ := if rem <? zlen fr - o then rem else zlen fr - o) in *.
  assert (Ht : 0 < take_ /\ take_ <= rem /\ o + take_ <= zlen fr)
    by (subst take_; case_Z; lia).
  clearbody take_.
  rewrite credit_consume_partial in H by (cbn; lia). cbn in H.
  unfold saturating_add_usize, usize_max in H. rewrite Z.min_l in H by lia.
  rewrite get_range_Some in H by lia.
  set (chunk := take (Z.to_nat (o + take_ - o)) (drop (Z.to_nat o) fr)) in *.
  assert (Hcl : zlen chunk = take_) by (subst chunk; len_lia).
  destruct (write_chunk_spec id (outbound (tx p)) (data_link p) chunk) as [Ew2 Hsc];
    [lia|unfold usize_max; lia|].
  rewrite v_tx_id0, Ew2, Ed in H. cbn in H. injection H as <-.
  exists (rem - take_), pc, (chunks ++ [chunk]), grants, ms.
  split; cbn; try done.
  - rewrite Ed in Hsc. lia.
  - split; [done|lia].
  - rewrite map_app. split; [done|]. apply Forall_app. split; [done|].
    repeat constructor. intros Hn. rewrite Hn in Hcl. cbn in Hcl. lia.
  - unfold MAX_FRAME_PAYLOAD_LENGTH. lia.
  - unfold unsent. cbn. rewrite <- v_stream0, concat_app. cbn. rewrite app_nil_r, <- app_assoc.
    do 2 f_equal. subst chunk.
    rewrite <- (take_drop (Z.to_nat (o + take_ - o)) (drop (Z.to_nat o) fr)) at 2.
    f_equal. rewrite drop_drop. f_equal. lia.
  - rewrite concat_app, length_app. cbn. rewrite app_nil_r. lia.
Qed.

Lemma inv_grant p p' : pipe_inv W id ok p -> act AGrant p = Some p' -> pipe_inv W id ok p'.
Proof.
  intros (rem & pc & chunks & grants & ms & V) H.
  pose proof (total_parts_nonneg _ _ _ _ _ _ V) as [Hq Hg].
  destruct V, v_grants0 as [Eg Hpos], v_rem0 as [Ew Hrem], v_pc0 as [Ea Hpc].
  cbn [act] in H. unfold link_recv in H. rewrite Eg in H. cbn in H.
  destruct grants as [|g grants]; cbn [map] in H; [done|].
  apply Forall_cons in Hpos as [Hg0 Hpos'].
  pose proof (total_nonneg _ Hpos'). rewrite total_cons in *.
  destruct (mux_roundtrip_raw (WindowAdjust id g)) as [_ Er].
  { split; [done|]. unfold u_range. cbn. lia. }
  { vm_compute. congruence. }
  rewrite Er in H. cbn in H. injection H as <-. rewrite decide_True by done.
  exists (rem + g), pc, chunks, grants, ms. unfold grant_credit. rewrite Ew.
  unfold FlowCreditPolicy.adjust. destruct (Z.leb_spec g 0); [lia|]. cbn [FlowCreditPolicy.remaining].
  rewrite saturating_add_i64_exact by (unfold i64_min, i64_max; lia).
  split; cbn; try done; try lia. split; [done|lia].
Qed.

Lemma inv_consume p p' : pipe_inv W id ok p -> act AConsume p = Some p' -> pipe_inv W id ok p'.
Proof.
  intros (rem & pc & chunks & grants & ms & V) H.
  pose proof (total_parts_nonneg _ _ _ _ _ _ V) as [Hq Hg].
  destruct V, v_rem0 as [Ew Hrem], v_pc0 as [Ea Hpc], v_grants0 as [Eg Hpos].
  cbn [act] in H. unfold receive_message in H. destruct (queue (rx p)) as [|m q] eqn:Eq; [done|].
  apply Forall_cons in v_queue0 as [Hm Hq'].
  pose proof (total_map_nonneg _ Hq').
  cbn [map] in *. rewrite total_cons in *.
  unfold note_consumed in H. cbn [receive_window with_inbound] in H. rewrite Ea in H.
  unfold i64_try_from_or_max in H. rewrite Z.min_l in H by (unfold i64_max; lia).
  rewrite accountant_consume_spec in H by (unfold i64_max; lia).
  destruct (Z.ltb_spec (pc + wire_byte_count m) (Z.max 1 (W / 2))); injection H as <-.
  - exists rem, (pc + wire_byte_count m), chunks, grants, ms. split; cbn; try done; try lia.
    + split; [done|lia].
    + by rewrite <- app_assoc.
  - exists rem, 0, chunks, (grants ++ [pc + wire_byte_count m]), ms. split; cbn; try done; try lia.
    + split; [done|lia].
    + rewrite Eg. unfold link_send. cbn. unfold u32_try_from_or_max, u32_max.
      destruct (Z.leb_spec (pc + wire_byte_count m) (2 ^ 32 - 1)); [|lia].
      rewrite map_app, v_rx_id0. split; [done|]. apply Forall_app. split; [done|].
      repeat constructor. lia.
    + by rewrite <- app_assoc.
    + rewrite total_app, total_cons. change (total []) with 0. lia.
Qed.

Lemma encoded_total (l : list WireMessage) :
  Forall sendable l ->
  zlen (concat (map encode l)) = total (map wire_byte_count (map clamp_message l)).
Proof.
  induction 1 as [|m l [Hwf _] Hl IH]; [done|]. cbn [map concat].
  rewrite length_app, Nat2Z.inj_add, total_cons, IH, wire_byte_count_clamp by done.
  by rewrite encode_length.
Qed.

Lemma frames_of (l : list WireMessage) :
  Forall sendable l -> Forall2 (whole_frame decode) (map encode l) (map clamp_message l).
Proof. induction 1; cbn [map]; constructor; [by apply wire_frame|done]. Qed.

(** One delivery decodes as many of the pending messages as the new chunk completes. *)
Lemma deliver_spec ch c rest l :
  inbound ch = true -> receiver_alive ch = true ->
  reader_inv (inbound_decoder ch) -> fault (inbound_decoder ch) = None ->
  read_offset (inbound_decoder ch) = 0 ->
  zlen (pending (inbound_decoder ch)) + zlen c <= usize_max ->
  Forall sendable l ->
  pending (inbound_decoder ch) ++ c ++ rest = concat (map encode l) ->
  exists k d, deliver ch c
      = with_decoder (with_inbound ch true (queue ch ++ map clamp_message (take k l))) d
    /\ reader_inv d /\ fault d = None /\ read_offset d = 0
    /\ first_frame (pending d) = Incomplete
    /\ pending d ++ rest = concat (map encode (drop k l)).
Proof.
  intros Hi Ha Hinv Hf Hr Hmax Hl E. unfold deliver. cbn [inbound_decoder with_decoder].
  set (dec := inbound_decoder ch) in *.
  assert (Hbuf : zlen (buffer dec) = zlen (pending dec)).
  { unfold pending. rewrite Hr, length_drop. lia. }
  destruct (append_refines dec c Hinv) as [Hi1 Ha1].
  unfold abs_reader in Ha1. rewrite Hf in Ha1. cbn in Ha1.
  assert (Hlen1 : zlen (buffer (append dec c)) <= usize_max).
  { unfold append. rewrite Hf. pose proof (settle_shrinks dec). cbn. len_lia. }
  set (d0 := append dec c) in *.
  destruct (fault d0) as [|] eqn:Ef0; [done|]. injection Ha1 as Hp0.
  destruct (drain next_message (S (length (buffer d0))) d0) as [[vs e] d] eqn:Ed.
  destruct (drain_refines decode _ _ _ _ _ Hi1 Hlen1 Ed) as (Ed2 & Hi2 & _).
  unfold abs_reader in Ed2 at 1. rewrite Ef0, Hp0 in Ed2.
  assert (Hfu : (length (pending dec ++ c) < S (length (buffer d0)))%nat).
  { rewrite <- Hp0. unfold pending. rewrite length_drop. lia. }
  rewrite app_assoc, <- (app_nil_r (concat _)) in E.
  destruct (drain_prefix decode _ _ _ _ _ [] (frames_of l Hl) eq_refl E Hfu)
    as (k & p' & Ek & E' & Hp').
  rewrite Ek in Ed2. injection Ed2 as <- <- Ep.
  assert (Hd : fault d = None /\ pending d = p').
  { unfold abs_reader in Ep. destruct (fault d); simplify_eq; done. }
  destruct Hd as [Hfd <-]. exists k, d. rewrite app_nil_r in E'.
  split_and!; try done.
  - erewrite deliver_loop_drain; [|done|done|exact Ed].
    cbn [queue with_decoder]. rewrite <- firstn_map. by destruct ch.
  - eapply drain_settles; [exact Hi1|done|done| |exact Ed]. by rewrite Hp0.
  - by rewrite <- skipn_map.
Qed.

Lemma inv_arrive p p' : pipe_inv W id ok p -> act AArrive p = Some p' -> pipe_inv W id ok p'.
Proof.
  intros (rem & pc & chunks & grants & ms & V) H.
  pose proof (total_parts_nonneg _ _ _ _ _ _ V) as [Hq Hg].
  destruct V, v_rem0 as [Ew Hrem], v_pc0 as [Ea Hpc], v_data0 as [Ed Hne],
    v_rx_live0 as (Hl & Hi & Hal), v_reader0 as (Hri & Hf & Hro & Hff).
  cbn [act] in H. unfold link_recv in H. rewrite Ed in H. cbn [written broken] in H.
  destruct chunks as [|c chunks]; cbn [map] in H; [done|].
  apply Forall_cons in Hne as [Hc Hne].
  cbn [concat] in *. rewrite <- app_assoc, length_app in *.
  destruct (mux_roundtrip_raw (ChannelData id c)) as [_ Er].
  { split; [done|]. done. }
  { rewrite mux_data_length. lia. }
  rewrite Er in H. cbn [norm_frame] in H. injection H as <-. rewrite decide_True by done.
  assert (Hms : Forall sendable ms) by (eapply Forall_impl; [exact v_ok0|]; by intros ? [? _]).
  destruct (deliver_spec (rx p) c (concat chunks ++ unsent p) ms) as
    (k & d & -> & Hd & Hfd & Hrd & Hffd & Est); try done.
  { unfold usize_max. lia. }
  exists rem, pc, chunks, grants, (drop k ms). split; cbn; try done.
  - by apply Forall_drop.
  - by rewrite <- v_fifo0, <- app_assoc, <- map_app, take_drop.
  - apply Forall_app. split; [done|]. apply Forall_map, Forall_true. intros.
    apply wire_byte_count_pos.
  - rewrite map_app, total_app, <- encoded_total by by apply Forall_take.
    pose proof (f_equal length v_stream0) as E1. pose proof (f_equal length Est) as E2.
    rewrite <- (take_drop k ms), map_app, concat_app in E1.
    rewrite !length_app in *. lia.
Qed.

Lemma reachable_inv p : reachable ok W id p -> pipe_inv W id ok p.
Proof.
  induction 1 as [|a p p' Hr IH Ha Hact]; [apply inv_init|].
  destruct a; eauto using inv_send, inv_chunk, inv_arrive, inv_consume, inv_grant.
Qed.

(** ** Progress *)

Lemma chunk_step p rem pc chunks grants ms s :
  pipe_view W id ok p rem pc chunks grants ms -> sending p = Some s -> 0 < rem ->
  exists p', act AChunk p = Some p'
    /\ rx p' = rx p /\ grant_link p' = grant_link p
    /\ ((sending p' = None /\ data_link p' = data_link p /\ unsent p = [])
        \/ exists chunk, chunk <> [] /\ sending p' <> None
             /\ written (data_link p') = written (data_link p) ++ [mux_encode (ChannelData id chunk)]
             /\ zlen (unsent p) = zlen chunk + zlen (unsent p')).
Proof.
  intros V Es Hr. pose proof (total_parts_nonneg _ _ _ _ _ _ V) as [Hq Hg].
  destruct s as [fr o]. destruct V. rewrite Es in v_sending0. cbn [framed offset] in v_sending0.
  destruct v_rem0 as [Ew Hrem], v_pc0 as [Ea Hpc], v_data0 as [Ed Hne].
  unfold MAX_FRAME_PAYLOAD_LENGTH in *. cbn [act]. rewrite Es. unfold send_iter.
  cbn [framed offset]. destruct (Z.leb_spec (zlen fr) o).
  { eexists. split; [done|]. cbn. split_and!; try done. left. split_and!; try done.
    unfold unsent. rewrite Es. cbn. apply drop_ge. lia. }
  rewrite Ew. unfold await_chunk_credit, i64_try_from_or_max, i64_max.
  rewrite v_tx_live0. cbn [FlowCreditPolicy.remaining].
  rewrite Z.min_l by lia. destruct (Z.ltb_spec 0 rem); [|lia].
  set (take_ := if rem <? zlen fr - o then rem else zlen fr - o).
  assert (Ht : 0 < take_ /\ take_ <= rem /\ o + take_ <= zlen fr)
    by (subst take_; case_Z; lia).
  clearbody take_. rewrite credit_consume_partial by (cbn; lia). cbn.
  unfold saturating_add_usize, usize_max. rewrite Z.min_l by lia.
  rewrite get_range_Some by lia.
  set (chunk := take (Z.to_nat (o + take_ - o)) (drop (Z.to_nat o) fr)).
  assert (Hcl : zlen chunk = take_) by (subst chunk; len_lia).
  destruct (write_chunk_spec id (outbound (tx p)) (data_link p) chunk) as [Ew2 Hsc];
    [lia|unfold usize_max; lia|].
  rewrite v_tx_id0, Ew2, Ed. cbn. eexists. split; [done|]. cbn. split_and!; try done. right.
  exists chunk. split_and!; try done.
  - intros Hn. rewrite Hn in Hcl. cbn in Hcl. lia.
  - unfold unsent. rewrite Es. cbn. rewrite !length_drop. lia.
Qed.
End Invariant.

(** ** What the sender must respect *)

(** Every windowed frame fits half the window. *)
Definition within_half (W : Z) (m : WireMessage) : Prop :=
  sendable m /\ wire_byte_count m <= W / 2.

Definition internal (a : Action) : Prop := match a with ASend _ => False | _ => True end.

Section Progress.
Context (W id : Z).
Hypothesis HW : 0 < W <= 16 * 1024 * 1024.
Hypothesis Hid : u_range 32 id.
Let ok := within_half W.
Let Hok : forall m, ok m -> sendable m := fun m H => proj1 H.

(** A reader that waits holds less than the frame it waits for. *)
Lemma pending_partial m rest p :
  sendable m -> first_frame p = Incomplete -> (exists q, p ++ q = encode m ++ rest) ->
  zlen p < zlen (encode m).
Proof.
  intros Hm Hf [q E]. destruct (decide (length (encode m) <= length p)%nat); [|lia].
  assert (Ep : p = encode m ++ drop (length (encode m)) p).
  { rewrite <- (take_drop (length (encode m)) p) at 1. f_equal.
    rewrite <- (take_app_le p q) by lia. by rewrite E, take_app_length. }
  rewrite Ep in Hf. destruct (first_frame_whole decode _ _ (drop (length (encode m)) p)
    (wire_frame m Hm)) as (? & Ew & _). congruence.
Qed.

Lemma stuck_is_done p :
  reachable ok W id p -> (forall a, internal a -> act a p = None) ->
  sending p = None /\ consumed p = map clamp_message (sent p).
Proof.
  intros Hr Hstuck.
  destruct (reachable_inv W id ok HW Hid Hok p Hr) as (rem & pc & chunks & grants & ms & V).
  pose proof V as V'. destruct V', v_pc0 as [Ea Hpc], v_rem0 as [Ew Hrem],
    v_data0 as [Ed Hne], v_grants0 as [Eg Hpos], v_reader0 as (Hri & Hf & Hro & Hff).
  assert (chunks = []) as ->.
  { destruct chunks as [|c chunks]; [done|]. specialize (Hstuck AArrive I).
    cbn [act] in Hstuck. unfold link_recv in Hstuck. rewrite Ed in Hstuck.
    cbn [written map] in Hstuck.
    pose proof (total_parts_nonneg _ _ _ _ _ _ _ _ _ V) as [Hq Hg].
    destruct (mux_roundtrip_raw (ChannelData id c)) as [_ Er]; [by split| |].
    { rewrite mux_data_length. cbn [concat] in v_credit0. rewrite length_app in v_credit0. lia. }
    by rewrite Er in Hstuck. }
  assert (grants = []) as ->.
  { destruct grants as [|g grants]; [done|]. specialize (Hstuck AGrant I).
    cbn [act] in Hstuck. unfold link_recv in Hstuck. rewrite Eg in Hstuck.
    cbn [written map] in Hstuck. apply Forall_cons in Hpos as [Hg0 Hpos].
    pose proof (total_nonneg grants Hpos).
    pose proof (total_parts_nonneg _ _ _ _ _ _ _ _ _ V) as [Hq _]. rewrite total_cons in *.
    destruct (mux_roundtrip_raw (WindowAdjust id g)) as [_ Er].
    { split; [done|]. unfold u_range. cbn. lia. }
    { vm_compute. congruence. }
    by rewrite Er in Hstuck. }
  assert (queue (rx p) = []) as Eq.
  { destruct (queue (rx p)) as [|m q] eqn:Eq; [done|]. specialize (Hstuck AConsume I).
    cbn [act] in Hstuck. unfold receive_message in Hstuck. rewrite Eq in Hstuck.
    by destruct (note_consumed _ _ _). }
  rewrite Eq in *. cbn [concat app map] in *. change (total []) with 0 in *.
  change (zlen (@nil byte)) with 0 in *.
  assert (Hpart : ms = [] \/ zlen (pending (inbound_decoder (rx p))) < W / 2).
  { destruct ms as [|m ms]; [by left|right].
    apply Forall_cons in v_ok0 as [[Hs [_ Hm]] _]. destruct Hs as [Hwf ?].
    pose proof (encode_length m Hwf). cbn [map concat] in v_stream0.
    pose proof (pending_partial m (concat (map encode ms)) _ (conj Hwf H) Hff
                  (ex_intro _ _ v_stream0)). lia. }
  assert (Hms : ms = [] -> unsent p = []).
  { intros ->. by apply app_eq_nil in v_stream0 as [_ ?]. }
  assert (Hsend : sending p = None).
  { destruct (sending p) as [s|] eqn:Es; [exfalso|done].
    assert (0 < rem).
    { pose proof (Z.mul_div_le W 2 ltac:(lia)).
      destruct Hpart as [->|Hp]; [|lia]. cbn [map concat] in v_stream0.
      apply app_eq_nil in v_stream0 as [E0 _]. rewrite E0 in v_credit0. change (zlen (@nil byte)) with 0 in *.
      pose proof (Z.div_lt W 2). lia. }
    destruct (chunk_step W id ok HW p _ _ _ _ _ s V Es H) as (p' & Ep & _).
    rewrite (Hstuck AChunk I) in Ep. done. }
  split; [done|]. assert (Hun : unsent p = []) by (unfold unsent; by rewrite Hsend).
  rewrite Hun, app_nil_r in v_stream0.
  destruct ms as [|m ms]; [by rewrite app_nil_r in v_fifo0|]. exfalso.
  apply Forall_cons in v_ok0 as [[Hs _] _]. cbn [map concat] in v_stream0.
  assert (Hp : exists q, pending (inbound_decoder (rx p)) ++ q
                         = encode m ++ concat (map encode ms)).
  { exists []. by rewrite app_nil_r. }
  pose proof (pending_partial m _ _ Hs Hff Hp).
  rewrite v_stream0, length_app in *. lia.
Qed.
End Progress.

(** ** Termination: every internal step spends potential *)

(** The weight of an envelope in flight: one, and three for each byte it carries. *)
Definition flight_weight (l : ByteLink) : Z :=
  total (map (fun bytes : list byte => 1 + 3 * (zlen bytes - 9)) (written l)).

(** What is left to do: five for every byte not yet written, three for every byte held by the
    decoder, two for every message not yet consumed, one for every grant not yet taken. *)
Definition potential (p : Pipe) : Z :=
  (match sending p with Some _ => 1 | None => 0 end) + 5 * zlen (unsent p)
  + flight_weight (data_link p) + 3 * zlen (pending (inbound_decoder (rx p)))
  + 2 * zlen (queue (rx p)) + zlen (written (grant_link p)).

Section Termination.
Context (W id : Z) (ok : WireMessage -> Prop).
Hypothesis HW : 0 < W <= 16 * 1024 * 1024.
Hypothesis Hid : u_range 32 id.
Hypothesis Hok : forall m, ok m -> sendable m.

Lemma flight_app_weight l b :
  total (map (fun bytes : list byte => 1 + 3 * (zlen bytes - 9)) (l ++ [b]))
  = total (map (fun bytes : list byte => 1 + 3 * (zlen bytes - 9)) l) + (1 + 3 * (zlen b - 9)).
Proof. rewrite map_app, total_app. cbn [map]. rewrite total_cons. change (total []) with 0. lia. Qed.

Lemma flight_nonneg (chunks : list (list byte)) :
  0 <= total (map (fun bytes : list byte => 1 + 3 * (zlen bytes - 9))
                (map (fun c => mux_encode (ChannelData id c)) chunks)).
Proof.
  induction chunks as [|c cs IH]; [done|]. cbn [map]. rewrite total_cons, mux_data_length. lia.
Qed.

Lemma potential_nonneg p : pipe_inv W id ok p -> 0 <= potential p.
Proof.
  intros (rem & pc & chunks & grants & ms & []). unfold potential, flight_weight.
  destruct v_data0 as [-> _]. cbn [written]. pose proof (flight_nonneg chunks).
  destruct (sending p); lia.
Qed.

Lemma wire_byte_count_ge m : 5 <= wire_byte_count m.
Proof.
  unfold wire_byte_count, SESSION_ID_BYTE_COUNT. destruct m; try lia. destruct status; lia.
Qed.

Lemma total_count_ge (q : list WireMessage) : 5 * zlen q <= total (map wire_byte_count q).
Proof.
  induction q as [|m q IH]; [done|]. cbn [map]. rewrite total_cons, length_cons.
  pose proof (wire_byte_count_ge m). lia.
Qed.

Lemma chunk_decreases p p' :
  pipe_inv W id ok p -> act AChunk p = Some p' -> potential p' < potential p.
Proof.
  intros (rem & pc & chunks & grants & ms & V) H.
  destruct (sending p) as [s|] eqn:Es; [|cbn [act] in H; by rewrite Es in H].
  assert (Hr : 0 < rem \/ (rem <= 0 /\ zlen (framed s) <= offset s)).
  { destruct (decide (0 < rem)); [by left|right]. split; [lia|].
    destruct V. destruct v_rem0 as [Ew _]. cbn [act] in H. rewrite Es in H.
    unfold send_iter in H. destruct (Z.leb_spec (zlen (framed s)) (offset s)); [done|].
    rewrite Ew in H. unfold await_chunk_credit in H. rewrite v_tx_live0 in H.
    cbn [FlowCreditPolicy.remaining] in H. destruct (Z.ltb_spec 0 rem); [lia|done]. }
  destruct Hr as [Hr|[_ Hend]].
  - destruct (chunk_step W id ok HW p _ _ _ _ _ s V Es Hr) as (p1 & E1 & Erx & Egr & Hcase).
    rewrite H in E1. injection E1 as <-. unfold potential, flight_weight. rewrite Erx, Egr, Es.
    destruct Hcase as [(E2 & -> & E3)|(chunk & Hne & Hs & -> & E3)].
    + rewrite E2, E3. unfold unsent at 1. rewrite E2. cbn [length]. lia.
    + rewrite flight_app_weight, mux_data_length. destruct (sending p'); [|done].
      assert (0 < zlen chunk) by (destruct chunk; [done|cbn; lia]). lia.
  - cbn [act] in H. rewrite Es in H. unfold send_iter in H.
    destruct (Z.leb_spec (zlen (framed s)) (offset s)); [|lia]. injection H as <-.
    unfold potential. cbn [sending rx data_link grant_link]. rewrite Es.
    unfold unsent. cbn [sending]. cbn [length]. lia.
Qed.

Lemma arrive_decreases p p' :
  pipe_inv W id ok p -> act AArrive p = Some p' -> potential p' < potential p.
Proof.
  intros (rem & pc & chunks & grants & ms & V) H.
  pose proof (total_parts_nonneg _ _ _ _ _ _ _ _ _ V) as [Hq Hg].
  destruct V, v_rem0 as [Ew Hrem], v_pc0 as [Ea Hpc], v_data0 as [Ed Hne],
    v_rx_live0 as (Hl & Hi & Hal), v_reader0 as (Hri & Hf & Hro & Hff).
  cbn [act] in H. unfold link_recv in H. rewrite Ed in H. cbn [written broken] in H.
  destruct chunks as [|c chunks]; cbn [map] in *; [done|].
  cbn [concat] in *. rewrite <- app_assoc, length_app in *.
  destruct (mux_roundtrip_raw (ChannelData id c)) as [_ Er]; [by split| |].
  { rewrite mux_data_length. lia. }
  rewrite Er in H. cbn [norm_frame] in H. injection H as <-. rewrite decide_True by done.
  assert (Hms : Forall sendable ms) by (eapply Forall_impl; [exact v_ok0|]; by intros ? [? _]).
  destruct (deliver_spec (rx p) c (concat chunks ++ unsent p) ms) as
    (k & d & -> & _ & _ & _ & _ & Est); try done.
  { unfold usize_max. lia. }
  pose proof (f_equal length v_stream0) as E1. pose proof (f_equal length Est) as E2.
  rewrite <- (take_drop k ms), map_app, concat_app in E1. autorewrite with slop_len in E1, E2.
  pose proof (encoded_total (take k ms) ltac:(by apply Forall_take)) as E3.
  pose proof (total_count_ge (map clamp_message (take k ms))) as E4.
  unfold potential, flight_weight, unsent. rewrite Ed.
  cbn [rx sending data_link grant_link written map]. rewrite total_cons, mux_data_length.
  cbn [inbound_decoder queue with_decoder with_inbound]. rewrite length_app.
  fold (unsent p). lia.
Qed.

(** Reporting consumption writes at most one grant and touches nothing the consumer sees. *)
Lemma note_consumed_spec ch l n :
  zlen (written (note_consumed ch l n).2) <= zlen (written l) + 1
  /\ inbound_decoder (note_consumed ch l n).1 = inbound_decoder ch
  /\ queue (note_consumed ch l n).1 = queue ch.
Proof.
  unfold note_consumed. destruct (receive_window ch); [|cbn; split_and!; lia || done].
  destruct (ReceiveWindowAccountant.consume _ _) as [[g|] a]; cbn; [|split_and!; lia || done].
  unfold link_send. destruct (broken l); cbn; split_and!; try done; len_lia.
Qed.

Lemma consume_decreases p p' : act AConsume p = Some p' -> potential p' < potential p.
Proof.
  cbn [act]. unfold receive_message. intros H.
  destruct (queue (rx p)) as [|m q] eqn:Eq; [done|].
  destruct (note_consumed_spec (with_inbound (rx p) (inbound (rx p)) q) (grant_link p)
              (wire_byte_count m)) as (Hl & Hd & Hq).
  destruct (note_consumed _ _ _) as [ch l]. cbn [fst snd] in *. injection H as <-.
  unfold potential, unsent. cbn [rx sending data_link grant_link]. rewrite Eq, Hd, Hq.
  cbn [queue with_inbound inbound_decoder length]. lia.
Qed.

Lemma grant_decreases p p' : act AGrant p = Some p' -> potential p' < potential p.
Proof.
  cbn [act]. unfold link_recv. intros H.
  destruct (written (grant_link p)) as [|b l] eqn:El; [done|].
  destruct (mux_decode (drop 4 b)) as [[]|]; simplify_eq.
  unfold potential, unsent. rewrite El. cbn [rx sending data_link grant_link written length]. lia.
Qed.

Lemma internal_decreases a p p' :
  internal a -> pipe_inv W id ok p -> act a p = Some p' -> potential p' < potential p.
Proof.
  destruct a; [done|..]; eauto using chunk_decreases, arrive_decreases, consume_decreases,
    grant_decreases.
Qed.

Lemma exec_bounded acts p p' :
  Forall internal acts -> reachable ok W id p -> exec acts p = Some p' ->
  reachable ok W id p' /\ zlen acts <= potential p - potential p'.
Proof.
  revert p. induction acts as [|a acts IH]; intros p Hi Hr H; cbn [exec] in H.
  - simplify_eq. split; [done|cbn; lia].
  - apply Forall_cons in Hi as [Ha Hi]. destruct (act a p) as [p1|] eqn:E1; [|done].
    assert (Hr1 : reachable ok W id p1).
    { eapply reach_step; [exact Hr| |exact E1]. by destruct a. }
    destruct (IH p1 Hi Hr1 H) as [? Hlen]. split; [done|].
    pose proof (internal_decreases a p p1 Ha (reachable_inv W id ok HW Hid Hok p Hr) E1).
    rewrite length_cons. lia.
Qed.
End Termination.

(** ** The contract *)

(** C1: the pipe is a reliable FIFO.  Whatever the interleaving of sends, chunks, arrivals,
    deliveries and grants, what the consumer has taken followed by what waits for it is a prefix of
    what was sent, each message once, in order, unaltered but for the clamp of over-long strings;
    and the channel is never ended by a decode fault. *)
Theorem pipe_fifo W id p :
  0 < W <= 16 * 1024 * 1024 -> u_range 32 id -> reachable sendable W id p ->
  consumed p ++ queue (rx p) `prefix_of` map clamp_message (sent p)
  /\ finished (rx p) = false.
Proof.
  intros HW Hid Hr.
  destruct (reachable_inv W id sendable HW Hid ltac:(done) p Hr)
    as (rem & pc & chunks & grants & ms & []).
  split; [|by apply v_rx_live0]. exists (map clamp_message ms). by rewrite <- app_assoc.
Qed.

(** A run whose sends all satisfy [ok] reaches a reachable pipe. *)
Lemma exec_reachable ok W id acts p p' :
  reachable ok W id p -> Forall (fun a => match a with ASend m => ok m | _ => True end) acts ->
  exec acts p = Some p' -> reachable ok W id p'.
Proof.
  revert p. induction acts as [|a acts IH]; intros p Hr Ha H; cbn [exec] in H; [by simplify_eq|].
  apply Forall_cons in Ha as [Ha Has]. destruct (act a p) as [p1|] eqn:E; [|done].
  eapply IH; [|done|exact H]. by eapply reach_step.
Qed.

(** An 18-byte frame through a 16-byte window: it leaves in two chunks, the second of which waits
    for a grant. *)
Definition sample_run : list Action :=
  [ASend (Input (replicate 13 (byte_of_Z 65))); AChunk; AArrive; AChunk].

Definition sample_pipe : Pipe := default (pipe_init 16 1) (exec (take 3 sample_run) (pipe_init 16 1)).

Lemma sample_pipe_reachable : reachable sendable 16 1 sample_pipe.
Proof.
  apply (exec_reachable sendable 16 1 (take 3 sample_run) (pipe_init 16 1)).
  - apply reach_init.
  - cbn. repeat constructor; vm_compute; congruence.
  - vm_compute. reflexivity.
Qed.

Lemma pipe_fifo_witness :
  consumed sample_pipe ++ queue (rx sample_pipe) `prefix_of` map clamp_message (sent sample_pipe)
  /\ finished (rx sample_pipe) = false.
Proof.
  apply (pipe_fifo 16 1); [lia|vm_compute; intuition congruence|apply sample_pipe_reachable].
Defined.

(** credit is conserved.  The credit the sender has left, the bytes in flight, the bytes held by
    the receiver's decoder and queue and the credit it has yet to grant never exceed the window, and
    are exactly the window whenever no grant is in flight; so the sender never has negative credit
    and the receiver never holds more than one window. *)
Theorem pipe_credit_conserved W id p :
  0 < W <= 16 * 1024 * 1024 -> u_range 32 id -> reachable sendable W id p ->
  exists rem pc,
    FlowCreditPolicy.remaining <$> send_window (tx p) = Some rem
    /\ ReceiveWindowAccountant.pending_credit <$> receive_window (rx p) = Some pc
    /\ 0 <= rem /\ 0 <= pc
    /\ (let held := total (map (fun b : list byte => zlen b - 9) (written (data_link p)))
                    + zlen (buffer (inbound_decoder (rx p)))
                    + total (map wire_byte_count (queue (rx p))) in
        0 <= held /\ rem + held + pc <= W
        /\ (written (grant_link p) = [] -> rem + held + pc = W)).
Proof.
  intros HW Hid Hr.
  destruct (reachable_inv W id sendable HW Hid ltac:(done) p Hr)
    as (rem & pc & chunks & grants & ms & V).
  pose proof (total_parts_nonneg _ _ _ _ _ _ _ _ _ V) as [Hq Hg].
  destruct V, v_rem0 as [Ew Hrem], v_pc0 as [Ea Hpc], v_data0 as [Ed _], v_grants0 as [Eg _],
    v_reader0 as (_ & _ & Hro & _).
  exists rem, pc. rewrite Ew, Ea. split_and!; try done; [lia|]. cbv zeta.
  assert (Hb : zlen (buffer (inbound_decoder (rx p))) = zlen (pending (inbound_decoder (rx p)))).
  { unfold pending. rewrite Hro, length_drop. lia. }
  assert (Hf : total (map (fun b : list byte => zlen b - 9) (written (data_link p)))
               = zlen (concat chunks)).
  { rewrite Ed. cbn [written]. clear. induction chunks as [|c cs IH]; [done|].
    cbn [map concat]. rewrite total_cons, IH, mux_data_length, length_app. lia. }
  rewrite Hb, Hf. split_and!; try lia. rewrite Eg. cbn [written]. intros Hn.
  destruct grants; [|done]. change (total []) with 0 in *. lia.
Qed.

Lemma pipe_credit_conserved_witness :
  exists rem pc,
    FlowCreditPolicy.remaining <$> send_window (tx sample_pipe) = Some rem
    /\ ReceiveWindowAccountant.pending_credit <$> receive_window (rx sample_pipe) = Some pc
    /\ 0 <= rem /\ 0 <= pc
    /\ (let held := total (map (fun b : list byte => zlen b - 9) (written (data_link sample_pipe)))
                    + zlen (buffer (inbound_decoder (rx sample_pipe)))
                    + total (map wire_byte_count (queue (rx sample_pipe))) in
        0 <= held /\ rem + held + pc <= 16
        /\ (written (grant_link sample_pipe) = [] -> rem + held + pc = 16)).
Proof.
  apply (pipe_credit_conserved 16 1);
    [lia|vm_compute; intuition congruence|apply sample_pipe_reachable].
Defined.

(** C15: the pipe never wedges.  When every framed message fits half the window, any schedule of
    chunks, arrivals, consumptions and grants is finite, with an explicit bound, and one that cannot
    be extended has delivered everything: no send is parked and the consumer has taken every message
    sent, in order. *)
Theorem pipe_never_wedges W id p acts p' :
  0 < W <= 16 * 1024 * 1024 -> u_range 32 id -> reachable (within_half W) W id p ->
  Forall internal acts -> exec acts p = Some p' ->
  zlen acts <= potential p
  /\ ((forall a, internal a -> act a p' = None) ->
      sending p' = None /\ consumed p' = map clamp_message (sent p')).
Proof.
  intros HW Hid Hr Ha He.
  assert (Hok : forall m, within_half W m -> sendable m) by (by intros m []).
  destruct (exec_bounded W id (within_half W) HW Hid Hok acts p p' Ha Hr He) as [Hr' Hlen].
  pose proof (potential_nonneg W id (within_half W) p'
                (reachable_inv W id _ HW Hid Hok p' Hr')). split; [lia|].
  intros Hstuck. by apply (stuck_is_done W id HW Hid p' Hr').
Qed.

Definition half_pipe : Pipe :=
  default (pipe_init 64 1) (exec [ASend (Exit 3); AChunk] (pipe_init 64 1)).

Lemma pipe_never_wedges_witness :
  zlen [AChunk; AArrive; AConsume] <= potential half_pipe
  /\ exists p', exec [AChunk; AArrive; AConsume] half_pipe = Some p' /\ consumed p' = [Exit 3].
Proof.
  assert (Hr : reachable (within_half 64) 64 1 half_pipe).
  { apply (exec_reachable (within_half 64) 64 1 [ASend (Exit 3); AChunk] (pipe_init 64 1)).
    - apply reach_init.
    - repeat constructor; vm_compute; congruence.
    - vm_compute. reflexivity. }
  destruct (exec [AChunk; AArrive; AConsume] half_pipe) as [p'|] eqn:E; [|vm_compute in E; congruence].
  destruct (pipe_never_wedges 64 1 half_pipe [AChunk; AArrive; AConsume] p') as [Hlen Hdone].
  - lia.
  - vm_compute. intuition congruence.
  - exact Hr.
  - repeat constructor.
  - exact E.
  - split; [exact Hlen|]. exists p'. split; [reflexivity|].
    vm_compute in E. injection E as <-.
    destruct Hdone as [_ Hc]; [|exact Hc]. intros []; try done; intros _; vm_compute; reflexivity.
Defined.

(** The half-window bound is necessary: with the default 64 KiB window and an output frame of a full
    32 KiB payload, 32781 bytes on the wire, the pane can wedge. *)
Definition dead_zone_run : list Action :=
  [ASend (Input (replicate (Z.to_nat 32755) (byte_of_Z 65))); AChunk; AChunk; AArrive; AConsume;
   ASend (Output 1 (replicate (Z.to_nat 32768) (byte_of_Z 66))); AChunk; AArrive].

Definition wedged (p : Pipe) : bool :=
  forallb (fun a => negb (bool_decide (is_Some (act a p)))) [AChunk; AArrive; AConsume; AGrant]
  && bool_decide (is_Some (sending p)).

(** the bound of half a window is tight in the deployed configuration: at the default window of
    65536 bytes an output message of 32768 payload bytes, 13 bytes over half the window, reaches a
    state in which no internal step is possible while its send is still parked. *)
Theorem dead_zone_wedges :
  exists p, reachable sendable (MuxFlowControl.initial_window_bytes (fun _ => None)) 1 p
    /\ wedged p = true.
Proof.
  change (MuxFlowControl.initial_window_bytes (fun _ => None)) with 65536.
  assert (H : match exec dead_zone_run (pipe_init 65536 1) with
              | Some p => wedged p | None => false end = true) by (vm_compute; reflexivity).
  destruct (exec dead_zone_run (pipe_init 65536 1)) as [p|] eqn:E; [|done].
  exists p. split; [|exact H].
  eapply exec_reachable; [apply reach_init| |exact E].
  unfold dead_zone_run. repeat constructor; vm_compute; congruence.
Qed.
