(* ===== verification/Connection.v ===== *)
(** * Connection: one mux connection, from whichever end holds it

    Models [slopdesk-muxnet/src/connection.rs] over the wire's admission, channel table and
    sub-channels.  Sub-channels are shared objects (the [Arc]s the connection, its maps and its owner
    all hold), so they live in a store and the dispatch maps hold references into it.  A method that
    runs under the tables lock is one step; the two link threads are interleavings of steps.

    The initial window is a parameter of the section: [SubChannel::data] reads it from
    [MuxFlowControl]. *)

From stdpp Require Import gmap.
From S2P Require Import Prelude Bytes Message Framing Envelope Flow Channels Admission SubChannel.

(** ** Links: [close] breaks one for good *)

Definition link_close (l : ByteLink) : ByteLink := mkLink (written l) (Some "closed").

(** [drop(link.send(bytes))]: best effort. *)
Definition link_send_ignored (l : ByteLink) (bytes : list byte) : ByteLink :=
  match link_send l bytes with Ok l => l | Err _ => l end.

(** ** The state *)

(** A reference into the store of sub-channels. *)
Abbreviation ref := nat.

Record OpenRequest : Type := mkOpenRequest {
  rq_session_id : RawUuid;
  rq_last_received_seq : Z;
  rq_channel_class : byte;
  rq_initial_cwd : option (list byte);
}.

Record OpenAck : Type := mkOpenAck { ack_accepted : bool; ack_resume_from_seq : Z }.
Definition REFUSED : OpenAck := mkOpenAck false 0.

Inductive OpenFailure : Type := NotInitiator | LinkIsDown.

Inductive MuxEvent : Type :=
| EvOpened (channel_id : Z) (request : OpenRequest) (data control : ref)
| EvClosed (channel_id : Z) (reason : MuxCloseReason)
| EvLinkDown (failed : bool) (channels : list Z).

Record Tables : Type := mkTables {
  control : ChannelTable;
  data : ChannelTable;
  control_channels : gmap Z ref;
  data_channels : gmap Z ref;
}.

Definition tables_new : Tables := mkTables table_new table_new ∅ ∅.

Record MuxConnection : Type := mkConnection {
  role : Role;
  control_link : ByteLink;
  data_link : ByteLink;
  tables : Tables;
  store : list SubChannel;
  events : list MuxEvent;
  open_acks : gmap Z (option OpenAck);
  torn_down : bool;
}.

Definition connection_new (r : Role) : MuxConnection :=
  mkConnection r link_new link_new tables_new [] [] ∅ false.

Definition with_tables (c : MuxConnection) (t : Tables) : MuxConnection :=
  mkConnection (role c) (control_link c) (data_link c) t (store c) (events c) (open_acks c)
    (torn_down c).
Definition with_store (c : MuxConnection) (s : list SubChannel) : MuxConnection :=
  mkConnection (role c) (control_link c) (data_link c) (tables c) s (events c) (open_acks c)
    (torn_down c).
Definition with_links (c : MuxConnection) (control data : ByteLink) : MuxConnection :=
  mkConnection (role c) control data (tables c) (store c) (events c) (open_acks c) (torn_down c).
Definition with_acks (c : MuxConnection) (a : gmap Z (option OpenAck)) : MuxConnection :=
  mkConnection (role c) (control_link c) (data_link c) (tables c) (store c) (events c) a
    (torn_down c).

(** [events.send(event)] *)
Definition emit (c : MuxConnection) (e : MuxEvent) : MuxConnection :=
  mkConnection (role c) (control_link c) (data_link c) (tables c) (store c) (events c ++ [e])
    (open_acks c) (torn_down c).

(** Run a method of the sub-channel a reference names. *)
Definition on_channel (c : MuxConnection) (r : ref) (f : SubChannel -> SubChannel) : MuxConnection :=
  with_store c (alter f r (store c)).
Definition on_channel_opt (c : MuxConnection) (r : option ref) (f : SubChannel -> SubChannel)
  : MuxConnection :=
  match r with Some r => on_channel c r f | None => c end.

(** ** The tables *)

Definition advance (t : ChannelTable) (step : TableStep) (id : Z) : ChannelTable :=
  match step with
  | StepHold => t
  | StepLocal => (local_close t id).2
  | StepRemote => (remote_close t id).2
  end.

(** [unregister]: the bookkeeping half of a teardown, and what it removed. *)
Definition unregister (t : Tables) (verdict : Teardown) (id : Z)
  : option ref * option ref * Tables :=
  let d := if drop_data verdict then data_channels t !! id else None in
  let k := if drop_control verdict then control_channels t !! id else None in
  (d, k,
   mkTables (advance (control t) (control_table verdict) id)
     (advance (data t) (data_table verdict) id)
     (if drop_control verdict then delete id (control_channels t) else control_channels t)
     (if drop_data verdict then delete id (data_channels t) else data_channels t)).

Section Connection.
Context (window : Z).

(** [register]: mints the pair of sub-channels for an id in both dispatch maps. *)
Definition register (c : MuxConnection) (id : Z) : ref * ref * MuxConnection :=
  let d := length (store c) in
  let k := S d in
  let t := tables c in
  (d, k,
   with_store
     (with_tables c (mkTables (control t) (data t) (<[id := k]> (control_channels t))
                       (<[id := d]> (data_channels t))))
     (store c ++ [data_channel window id; control_channel id])).

Definition live_channel_count (c : MuxConnection) : Z :=
  Z.of_nat (size (data_channels (tables c))).

Definition send_open_ack (c : MuxConnection) (id : Z) (accepted : bool) (resume_from_seq : Z)
  : MuxConnection :=
  with_links c (control_link c)
    (link_send_ignored (data_link c) (mux_encode (ChannelOpenAck id accepted resume_from_seq))).

Definition note_open_ack (c : MuxConnection) (id : Z) (ack : OpenAck) : MuxConnection :=
  match open_acks c !! id with
  | Some _ => with_acks c (<[id := Some ack]> (open_acks c))
  | None => c
  end.

Definition forget_open_ack (c : MuxConnection) (id : Z) : MuxConnection :=
  with_acks c (delete id (open_acks c)).

(** [await_open_ack], once the wait is over: only an answered slot is taken. *)
Definition await_open_ack (c : MuxConnection) (id : Z) : OpenAck * MuxConnection :=
  match open_acks c !! id with
  | Some (Some ack) => (ack, with_acks c (delete id (open_acks c)))
  | _ => (REFUSED, c)
  end.

(** [abandon]: the local half of ending a channel. *)
Definition abandon (c : MuxConnection) (id : Z) : MuxConnection :=
  let t := tables c in
  let d := data_channels t !! id in
  let k := control_channels t !! id in
  let c := with_tables c
    (mkTables (local_close (control t) id).2 (local_close (data t) id).2
       (delete id (control_channels t)) (delete id (data_channels t))) in
  let c := on_channel_opt c d finish in
  let c := on_channel_opt c k finish in
  forget_open_ack c id.

Definition close_channel (c : MuxConnection) (id : Z) (reason : MuxCloseReason) : MuxConnection :=
  let close := mux_encode (ChannelClose id reason) in
  abandon (with_links c (link_send_ignored (control_link c) close)
             (link_send_ignored (data_link c) close)) id.

Definition open_channel (c : MuxConnection) (request : OpenRequest)
  : result OpenFailure (Z * ref * ref) * MuxConnection :=
  if negb (initiates_opens (role c)) then (Err NotInitiator, c) else
  if torn_down c then (Err LinkIsDown, c) else
  let t := tables c in
  let '(id, dt) := allocate (data t) in
  let c := with_tables c
    (mkTables (open (control t) id) (open dt id) (control_channels t) (data_channels t)) in
  let '(d, k, c) := register c id in
  let c := with_acks c (<[id := None]> (open_acks c)) in
  let frame := mux_encode (ChannelOpen id (rq_session_id request) (rq_last_received_seq request)
                             (rq_channel_class request) (rq_initial_cwd request)) in
  match link_send (data_link c) frame with
  | Err _ => (Err LinkIsDown, abandon c id)
  | Ok l => (Ok (id, d, k), with_links c (control_link c) l)
  end.

(** ** Teardown *)

Definition tear_down (c : MuxConnection) : option (list Z) * MuxConnection :=
  if torn_down c then (None, c) else
  let t := tables c in
  let ids := (map_to_list (data_channels t)).*1 in
  let refs := (map_to_list (data_channels t)).*2 ++ (map_to_list (control_channels t)).*2 in
  let c := mkConnection (role c) (link_close (control_link c)) (link_close (data_link c))
             (mkTables (control t) (data t) ∅ ∅) (store c) (events c) ∅ true in
  (Some ids, foldl (fun c r => on_channel c r finish_link_down) c refs).

Definition close (c : MuxConnection) : MuxConnection := (tear_down c).2.

Definition report_link_down (c : MuxConnection) (failed : bool) : MuxConnection :=
  match tear_down c with
  | (Some channels, c) => emit c (EvLinkDown failed channels)
  | (None, c) => c
  end.

(** ** Routing one frame *)

Definition channels_on (t : Tables) (lane : Link) : gmap Z ref :=
  match lane with LControl => control_channels t | LData => data_channels t end.

Definition deliver_frame (c : MuxConnection) (id : Z) (payload : list byte) (lane : Link)
  : MuxConnection :=
  match channels_on (tables c) lane !! id with
  | None => c
  | Some target =>
    match store c !! target with
    | None => c
    | Some ch =>
      if finished ch then
        let verdict := poisoned (role c) lane in
        let '(d, k, t) := unregister (tables c) verdict id in
        let c := with_tables c t in
        let sibling := match lane with LControl => d | LData => k end in
        let c := on_channel_opt c sibling finish in
        if reap verdict then emit c (EvClosed id Retired) else c
      else on_channel c target (fun ch => deliver ch payload)
    end
  end.

Definition peer_closed (c : MuxConnection) (id : Z) (frame : MuxFrame) (lane : Link)
  : MuxConnection :=
  let verdict := peer_close (role c) lane in
  let '(d, k, t) := unregister (tables c) verdict id in
  let c := with_tables c t in
  let arriving := match lane with LControl => k | LData => d end in
  let sibling := match lane with LControl => d | LData => k end in
  let reason := match frame with ChannelClose _ reason => Some reason | _ => None end in
  let c := on_channel_opt c arriving
    (match reason with Some r => fun ch => finish_closed_by_peer ch r | None => finish end) in
  let c := on_channel_opt c sibling finish in
  if reap verdict then emit c (EvClosed id (default Retired reason)) else c.

Definition arrival_of (c : MuxConnection) (kind : FrameKind) (id : Z) (lane : Link) : Arrival :=
  mkArrival (role c) lane kind (bool_decide (is_Some (data_channels (tables c) !! id)))
    (Z.of_nat (size (data_channels (tables c)))) (state_of (data (tables c)) id).

(** The routing of an admitted frame. *)
Definition route_admitted (c : MuxConnection) (kind : FrameKind) (frame : MuxFrame)
    (payload : list byte) (lane : Link) : MuxConnection :=
  let id := frame_channel_id frame in
  let c := match frame with
           | ChannelOpenAck id accepted seq => note_open_ack c id (mkOpenAck accepted seq)
           | _ => c
           end in
  let accepted := match frame with ChannelOpenAck _ true _ => true | _ => false end in
  let t := tables c in
  let '(decision, t) :=
    match lane with
    | LControl => let '(d, tb) := route (control t) kind id accepted in
                  (d, mkTables tb (data t) (control_channels t) (data_channels t))
    | LData => let '(d, tb) := route (data t) kind id accepted in
               (d, mkTables (control t) tb (control_channels t) (data_channels t))
    end in
  let c := with_tables c t in
  match frame with
  | WindowAdjust _ bytes_to_add =>
      on_channel_opt c (data_channels (tables c) !! id) (fun ch => grant_credit ch bytes_to_add)
  | _ =>
    let c :=
      match frame, lane with
      | ChannelOpen _ session_id last_received_seq channel_class initial_cwd, LData =>
          let t := tables c in
          let c := with_tables c (mkTables (open (control t) id) (data t) (control_channels t)
                                    (data_channels t)) in
          match data_channels (tables c) !! id with
          | Some _ => c
          | None =>
              let '(d, k, c) := register c id in
              emit c (EvOpened id (mkOpenRequest session_id last_received_seq channel_class
                                     initial_cwd) d k)
          end
      | _, _ => c
      end in
    match decision with
    | DeliverData channel_id => deliver_frame c channel_id payload lane
    | Lifecycle channel_id Closed | Lifecycle channel_id HalfClosed =>
        peer_closed c channel_id frame lane
    | Lifecycle _ _ | DropFrame _ _ => c
    end
  end.

Definition route_frame (c : MuxConnection) (frame : MuxFrame) (payload : list byte) (lane : Link)
  : MuxConnection :=
  match from_wire (type_as_byte (mux_type frame)) with
  | None => c
  | Some kind =>
    match admit_arrival (arrival_of c kind (frame_channel_id frame) lane) with
    | Proceed => route_admitted c kind frame payload lane
    | Refuse _ => send_open_ack c (frame_channel_id frame) false 0
    | DropOpen _ => c
    end
  end.

(** ** The two loops *)

Fixpoint drain_frames (fuel : nat) (c : MuxConnection) (d : MuxFrameDecoder) (lane : Link)
  : result unit unit * MuxConnection * MuxFrameDecoder :=
  match fuel with
  | O => (Ok tt, c, d)
  | S fuel =>
    match next_frame_leaving_payload d with
    | (Ok (Some (frame, payload)), d) =>
        drain_frames fuel (route_frame c frame (mux_payload_bytes d payload) lane) d lane
    | (Ok None, d) => (Ok tt, c, d)
    | (Err _, d) => (Err tt, c, d)
    end
  end.

(** What one [recv] answers. *)
Inductive RecvOutcome : Type :=
| RecvBytes (chunk : list byte)
| RecvFin
| RecvInterrupted
| RecvFailed.

(** [receive_loop] over the outcomes of its reads; when they run out the link is still open. *)
Fixpoint receive_loop (outcomes : list RecvOutcome) (c : MuxConnection) (d : MuxFrameDecoder)
    (lane : Link) : MuxConnection :=
  match outcomes with
  | [] => c
  | RecvFin :: _ => report_link_down c false
  | RecvFailed :: _ => report_link_down c true
  | RecvInterrupted :: rest => receive_loop rest c d lane
  | RecvBytes [] :: _ => report_link_down c false
  | RecvBytes chunk :: rest =>
    let d := append d chunk in
    match drain_frames (S (length (buffer d))) c d lane with
    | (Ok _, c, d) => receive_loop rest c d lane
    | (Err _, c, _) => report_link_down c true
    end
  end.
End Connection.

(** ** Sub-channels only age

    Every method keeps a sub-channel's id and lane, and none revives a finished one. *)

Definition ages (ch ch' : SubChannel) : Prop :=
  channel_id ch' = channel_id ch /\ lane ch' = lane ch
  /\ (finished ch = true -> finished ch' = true).

Lemma ages_refl ch : ages ch ch.
Proof. done. Qed.
Lemma ages_trans a b c : ages a b -> ages b c -> ages a c.
Proof. unfold ages. intuition congruence. Qed.

Lemma ages_finish_with ch e : ages ch (finish_with ch e) /\ finished (finish_with ch e) = true.
Proof. unfold finish_with, ages. destruct (finished ch) eqn:E; by rewrite ?E. Qed.

Lemma ages_deliver_loop fuel ch : ages ch (deliver_loop fuel ch).
Proof.
  revert ch. induction fuel as [|fuel IH]; intros ch; cbn [deliver_loop]; [done|].
  destruct (next_message (inbound_decoder ch)) as [[[m|]|e] d]; [|done|].
  - destruct (negb (inbound (with_decoder ch d))); [done|].
    destruct (receiver_alive (with_decoder ch d)); [|done].
    eapply ages_trans; [|apply IH]. done.
  - eapply ages_trans; [|apply ages_finish_with]. done.
Qed.

Lemma ages_deliver ch payload : ages ch (deliver ch payload).
Proof. unfold deliver. eapply ages_trans; [|apply ages_deliver_loop]. done. Qed.

Lemma ages_grant ch n : ages ch (grant_credit ch n).
Proof. unfold grant_credit. by destruct (send_window ch). Qed.

Definition store_ages (s s' : list SubChannel) : Prop :=
  length s' = length s
  /\ forall r ch, s !! r = Some ch -> exists ch', s' !! r = Some ch' /\ ages ch ch'.

Lemma store_ages_refl s : store_ages s s.
Proof. split; [done|]. eauto using ages_refl. Qed.

Lemma store_ages_trans s1 s2 s3 : store_ages s1 s2 -> store_ages s2 s3 -> store_ages s1 s3.
Proof.
  intros [L1 H1] [L2 H2]. split; [congruence|]. intros r ch E.
  destruct (H1 r ch E) as (ch2 & E2 & A2). destruct (H2 r ch2 E2) as (ch3 & E3 & A3).
  eauto using ages_trans.
Qed.

Lemma store_ages_alter s r (f : SubChannel -> SubChannel) :
  (forall ch, ages ch (f ch)) -> store_ages s (alter f r s).
Proof.
  intros Hf. split; [apply length_alter|]. intros r' ch E.
  destruct (decide (r = r')) as [<-|Hne].
  - exists (f ch). by rewrite list_lookup_alter_eq, E.
  - exists ch. by rewrite list_lookup_alter_ne.
Qed.

(** Every sub-channel a reference may name is finished. *)
Definition done_at (s : list SubChannel) (r : option ref) : Prop :=
  forall r' ch, r = Some r' -> s !! r' = Some ch -> finished ch = true.

Lemma done_at_ages s s' r : store_ages s s' -> done_at s r -> done_at s' r.
Proof.
  intros [L H] Hd r' ch' -> E'.
  assert (Hl : (r' < length s)%nat) by (rewrite <- L; eapply lookup_lt_Some; eauto).
  destruct (lookup_lt_is_Some_2 s r' Hl) as [ch E].
  destruct (H r' ch E) as (ch2 & E2 & _ & _ & Hf). simplify_eq. eauto.
Qed.

Lemma done_at_alter s r (f : SubChannel -> SubChannel) :
  (forall ch, finished (f ch) = true) -> done_at (alter f r s) (Some r).
Proof.
  intros Hf r' ch [= <-] E. rewrite list_lookup_alter_eq in E.
  destruct (s !! r); simplify_eq/=. apply Hf.
Qed.

(** ** The invariant

    [stale] names the ids that may read open in the tables with no channel registered: none while the
    connection is up, and after a teardown, which drops the registrations and leaves the tables, the ids
    that were live when it came down. *)

Section Invariant.
Context (stale : gset Z).

Record conn_ok (ro : Role) (t : Tables) (s : list SubChannel) : Prop := {
  ok_control : table_inv (control t);
  ok_data : table_inv (data t);
  ok_no_idle : forall id, states (data t) !! id <> Some Idle /\ states (control t) !! id <> Some Idle;
  ok_data_open : forall id, (is_Some (data_channels t !! id) -> states (data t) !! id = Some Open)
    /\ (states (data t) !! id = Some Open -> is_Some (data_channels t !! id) \/ id ∈ stale);
  ok_control_open : ro = Host -> forall id, states (control t) !! id = Some Open ->
    is_Some (data_channels t !! id) \/ id ∈ stale;
  ok_data_ref : forall id r, data_channels t !! id = Some r ->
    exists ch, s !! r = Some ch /\ channel_id ch = id /\ lane ch = LData;
  ok_control_ref : forall id r, control_channels t !! id = Some r ->
    exists ch, s !! r = Some ch /\ channel_id ch = id /\ lane ch = LControl;
  ok_no_zombie : forall r ch, s !! r = Some ch ->
    finished ch = true \/ channels_on t (lane ch) !! channel_id ch = Some r;
  ok_host : ro = Host ->
    (forall id, is_Some (control_channels t !! id) -> is_Some (data_channels t !! id))
    /\ (size (data_channels t) <= 256)%nat;
  ok_client : ro = Client -> forall id,
    is_Some (states (data t) !! id) \/ is_Some (states (control t) !! id)
    \/ is_Some (control_channels t !! id) -> id <= last_allocated (data t);
}.

Definition conn_inv (c : MuxConnection) : Prop := conn_ok (role c) (tables c) (store c).

Lemma conn_inv_new r : conn_inv (connection_new r).
Proof.
  split; cbn; try apply table_inv_new; try done.
  - intros id. rewrite !lookup_empty. split; [by intros [? ?]|done].
  - intros _. split; [|rewrite map_size_empty; lia]. intros id. by rewrite lookup_empty.
  - intros _ id. rewrite !lookup_empty. intros [H|[H|H]]; by destruct H.
Qed.

(** Aging the store keeps the invariant. *)
Lemma conn_ok_ages ro t s s' : conn_ok ro t s -> store_ages s s' -> conn_ok ro t s'.
Proof.
  intros [] [L H]. split; try done.
  - intros id r E. destruct (ok_data_ref0 id r E) as (ch & Es & <- & Hl).
    destruct (H r ch Es) as (ch' & E' & Hi & Hl' & _). exists ch'. split_and!; congruence.
  - intros id r E. destruct (ok_control_ref0 id r E) as (ch & Es & <- & Hl).
    destruct (H r ch Es) as (ch' & E' & Hi & Hl' & _). exists ch'. split_and!; congruence.
  - intros r ch' E'.
    assert (Hlt : (r < length s)%nat) by (rewrite <- L; eapply lookup_lt_Some; eauto).
    destruct (lookup_lt_is_Some_2 s r Hlt) as [ch E].
    destruct (H r ch E) as (ch2 & E2 & Hi & Hl & Hf). simplify_eq. rewrite Hi, Hl.
    destruct (ok_no_zombie0 r ch E); auto.
Qed.

(** An operation of the tables on one id leaves the open ids of the others alone. *)
Lemma kept_open t t' id id' s :
  kept t t' id -> id' <> id -> terminal s = false ->
  states t' !! id' = Some s <-> states t !! id' = Some s.
Proof.
  intros [_ Hk] Hne Hs. destruct (Hk id' Hne) as [->|[(s' & E & Ht) ->]]; [done|].
  split; [done|]. intros E'. simplify_eq. congruence.
Qed.

Lemma kept_some t t' id id' :
  kept t t' id -> id' <> id -> is_Some (states t' !! id') -> is_Some (states t !! id').
Proof.
  intros [_ Hk] Hne H. destruct (Hk id' Hne) as [<-|[_ E]]; [done|]. rewrite E in H. by destruct H.
Qed.

Lemma lookup_delete_if (b : bool) (m : gmap Z ref) id id' :
  (if b then delete id m else m) !! id'
  = if decide (b = true /\ id' = id) then None else m !! id'.
Proof.
  destruct b; case_decide as Hd.
  - destruct Hd as [_ ->]. by rewrite lookup_delete_eq.
  - rewrite lookup_delete_ne; [done|]. intros ->. tauto.
  - by destruct Hd.
  - done.
Qed.

(** Split a decision of the goal. *)
Ltac goal_decide H :=
  match goal with |- context [@decide ?P ?d] => destruct (@decide P d) as [H|H] end.

(** Retiring: the tables step on one id, the dispatch maps drop what the verdict names, and what
    they dropped is finished. *)
Lemma retire_ok ro t s s' id dt kt (dd dk : bool) :
  conn_ok ro t s -> store_ages s s' ->
  table_inv dt -> table_inv kt -> kept (data t) dt id -> kept (control t) kt id ->
  (ro = Client -> is_Some (states dt !! id) -> is_Some (states (data t) !! id)) ->
  (ro = Client -> is_Some (states kt !! id) -> is_Some (states (control t) !! id)) ->
  states dt !! id <> Some Idle -> states kt !! id <> Some Idle ->
  (dd = false -> is_Some (data_channels t !! id) -> states dt !! id = Some Open) ->
  (states dt !! id = Some Open -> (dd = false /\ is_Some (data_channels t !! id)) \/ id ∈ stale) ->
  (ro = Host -> states kt !! id = Some Open -> (dd = false /\ is_Some (data_channels t !! id)) \/ id ∈ stale) ->
  (ro = Host -> dd = true -> dk = true) ->
  done_at s' (if dd then data_channels t !! id else None) ->
  done_at s' (if dk then control_channels t !! id else None) ->
  conn_ok ro
    (mkTables kt dt (if dk then delete id (control_channels t) else control_channels t)
       (if dd then delete id (data_channels t) else data_channels t)) s'.
Proof.
  intros Hok Hage Hdt Hkt Kd Kk Sd Sk Id Ik Od1 Od2 Ok_ Hh Fd Fk.
  apply conn_ok_ages with (s' := s') in Hok; [|done]. destruct Hok.
  pose proof (lookup_delete_if dd (data_channels t) id) as Ld.
  pose proof (lookup_delete_if dk (control_channels t) id) as Lk.
  split; cbn [control data control_channels data_channels]; try done.
  - intros id'. destruct (decide (id' = id)) as [->|Hne]; [done|].
    rewrite (kept_open _ _ _ _ Idle Kd Hne eq_refl), (kept_open _ _ _ _ Idle Kk Hne eq_refl). done.
  - intros id'. rewrite Ld. destruct (decide (id' = id)) as [->|Hne].
    + destruct dd; [rewrite decide_True by done|rewrite decide_False by (by intros [? _])].
      * split; [by intros [? ?]|]. intros [[? _]|?]%Od2; [done|by right].
      * split; [by apply Od1|]. intros [[_ ?]|?]%Od2; [by left|by right].
    + rewrite decide_False by tauto. rewrite (kept_open _ _ _ _ Open Kd Hne eq_refl). done.
  - intros Hr id'. rewrite Ld. destruct (decide (id' = id)) as [->|Hne].
    + intros E. destruct (Ok_ Hr E) as [[-> ?]|?]; [|by right]. left. by rewrite decide_False by (by intros [? _]).
    + rewrite decide_False by tauto. rewrite (kept_open _ _ _ _ Open Kk Hne eq_refl). auto.
  - intros id' r. rewrite Ld. goal_decide Hc; [done|]. auto.
  - intros id' r. rewrite Lk. goal_decide Hc; [done|]. auto.
  - intros r ch E. destruct (ok_no_zombie0 r ch E) as [?|Hm]; [by left|].
    destruct (lane ch) eqn:El; cbn [channels_on control_channels data_channels] in *.
    + rewrite Lk. goal_decide Hc; [|by right]. destruct Hc as [-> Hid]. left.
      rewrite Hid in Hm. exact (Fk r ch Hm E).
    + rewrite Ld. goal_decide Hc; [|by right]. destruct Hc as [-> Hid]. left.
      rewrite Hid in Hm. exact (Fd r ch Hm E).
  - intros Hr. destruct (ok_host0 Hr) as [Hdom Hsz]. split.
    + intros id'. rewrite Lk, Ld. goal_decide Hc; [by intros [? ?]|]. intros Hs.
      rewrite decide_False; [auto|]. intros [Hdd ->]. apply Hc. split; [auto|done].
    + destruct dd; [|done]. etransitivity; [|exact Hsz].
      apply map_subseteq_size, delete_subseteq.
  - intros Hr id' Hs. destruct Kd as [Ed Kd']. rewrite Ed. apply ok_client0; [done|].
    destruct (decide (id' = id)) as [->|Hne].
    + rewrite Lk in Hs. destruct Hs as [?|[?|Hs]]; [left; auto|right; left; auto|].
      revert Hs. goal_decide Hc; [by intros [? ?]|auto].
    + rewrite Lk, decide_False in Hs by tauto.
      destruct Hs as [Hs|[Hs|Hs]]; [left|right; left|auto].
      * by eapply (kept_some (data t) dt id); [split|..].
      * by eapply kept_some.
Qed.

(** ** What the operations do to the store *)

Definition alter_opt (f : SubChannel -> SubChannel) (r : option ref) (s : list SubChannel)
  : list SubChannel := match r with Some r => alter f r s | None => s end.

Lemma on_channel_opt_eq c r f :
  on_channel_opt c r f = with_store c (alter_opt f r (store c)).
Proof. destruct r; [done|]. by destruct c. Qed.

Lemma store_ages_alter_opt s r (f : SubChannel -> SubChannel) :
  (forall ch, ages ch (f ch)) -> store_ages s (alter_opt f r s).
Proof. destruct r; [apply store_ages_alter|intros; apply store_ages_refl]. Qed.

Lemma done_at_alter_opt s r (f : SubChannel -> SubChannel) :
  (forall ch, finished (f ch) = true) -> done_at (alter_opt f r s) r.
Proof. destruct r; [apply done_at_alter|]. by intros _ r' ch. Qed.

(** Finishing two references, in either order. *)
Lemma finish_two s r1 r2 f g :
  (forall ch, ages ch (f ch) /\ finished (f ch) = true) ->
  (forall ch, ages ch (g ch) /\ finished (g ch) = true) ->
  let s' := alter_opt g r2 (alter_opt f r1 s) in
  store_ages s s' /\ done_at s' r1 /\ done_at s' r2.
Proof.
  intros Hf Hg. cbv zeta.
  assert (H2 : store_ages (alter_opt f r1 s) (alter_opt g r2 (alter_opt f r1 s)))
    by (apply store_ages_alter_opt; intros; apply Hg).
  split_and!.
  - eapply store_ages_trans; [|exact H2]. apply store_ages_alter_opt. intros; apply Hf.
  - eapply done_at_ages; [exact H2|]. apply done_at_alter_opt. intros; apply Hf.
  - apply done_at_alter_opt. intros; apply Hg.
Qed.

Lemma finish_finishes ch : ages ch (finish ch) /\ finished (finish ch) = true.
Proof. apply ages_finish_with. Qed.

(** A close step leaves no live state behind. *)
Lemma close_step_dead t id :
  table_inv t ->
  states (advance_close t id).2 !! id <> Some Idle
  /\ states (advance_close t id).2 !! id <> Some Open
  /\ (is_Some (states (advance_close t id).2 !! id) -> is_Some (states t !! id)).
Proof.
  intros H. destruct (advance_close_spec t id H) as (_ & _ & -> & _).
  destruct (states t !! id) as [[]|]; split_and!; try done.
Qed.

Lemma abandon_inv c id : conn_inv c -> conn_inv (abandon c id).
Proof.
  intros Hok. unfold conn_inv, abandon. rewrite !on_channel_opt_eq. cbn.
  unfold local_close. pose proof (ok_data _ _ _ Hok) as Hd. pose proof (ok_control _ _ _ Hok) as Hk.
  destruct (close_step_dead _ id Hd) as (D1 & D2 & D3).
  destruct (close_step_dead _ id Hk) as (K1 & K2 & K3).
  destruct (advance_close_spec _ id Hd) as (Id & Kd & _).
  destruct (advance_close_spec _ id Hk) as (Ik & Kk & _).
  destruct (finish_two (store c) (data_channels (tables c) !! id) (control_channels (tables c) !! id)
    finish finish finish_finishes finish_finishes) as (A & F1 & F2).
  apply (retire_ok (role c) (tables c) (store c) _ id _ _ true true); try done.
Qed.

Lemma close_channel_inv c id reason : conn_inv c -> conn_inv (close_channel c id reason).
Proof. intros H. apply abandon_inv. exact H. Qed.

(** The two teardown verdicts, after the router has stepped the arriving link's table. *)
Lemma unregister_eq t verdict id :
  unregister t verdict id
  = ((if drop_data verdict then data_channels t !! id else None),
     (if drop_control verdict then control_channels t !! id else None),
     mkTables (advance (control t) (control_table verdict) id)
       (advance (data t) (data_table verdict) id)
       (if drop_control verdict then delete id (control_channels t) else control_channels t)
       (if drop_data verdict then delete id (data_channels t) else data_channels t)).
Proof. done. Qed.

Lemma advance_step_spec t step id :
  table_inv t ->
  table_inv (advance t step id) /\ kept t (advance t step id) id
  /\ (is_Some (states (advance t step id) !! id) -> is_Some (states t !! id))
  /\ states (advance t step id) !! id
     = (if decide (step = StepHold) then states t !! id
        else match states t !! id with
             | Some Idle | Some Open => Some HalfClosed
             | Some HalfClosed | Some Closed => Some Closed
             | None => None end).
Proof.
  intros H. destruct step; cbn [advance]; unfold local_close, remote_close.
  - rewrite decide_True by done. split_and!; try done. apply kept_refl.
  - rewrite decide_False by done. destruct (advance_close_spec t id H) as (? & ? & E & _).
    destruct (close_step_dead t id H) as (_ & _ & ?). by split_and!.
  - rewrite decide_False by done. destruct (advance_close_spec t id H) as (? & ? & E & _).
    destruct (close_step_dead t id H) as (_ & _ & ?). by split_and!.
Qed.

(** ** Routing keeps the invariant *)

Definition lane_table (t : Tables) (lane : Link) : ChannelTable :=
  match lane with LControl => control t | LData => data t end.

Definition set_lane (t : Tables) (lane : Link) (tb : ChannelTable) : Tables :=
  match lane with
  | LControl => mkTables tb (data t) (control_channels t) (data_channels t)
  | LData => mkTables (control t) tb (control_channels t) (data_channels t)
  end.

Lemma finish_reason_finishes (reason : option MuxCloseReason) ch :
  ages ch (match reason with Some r => fun ch => finish_closed_by_peer ch r | None => finish end ch)
  /\ finished (match reason with Some r => fun ch => finish_closed_by_peer ch r
               | None => finish end ch) = true.
Proof. destruct reason; apply ages_finish_with. Qed.

Definition reason_of (frame : MuxFrame) : option MuxCloseReason :=
  match frame with ChannelClose _ r => Some r | _ => None end.
Definition finish_for (reason : option MuxCloseReason) : SubChannel -> SubChannel :=
  match reason with Some r => fun ch => finish_closed_by_peer ch r | None => finish end.

Lemma finish_for_finishes reason ch :
  ages ch (finish_for reason ch) /\ finished (finish_for reason ch) = true.
Proof. destruct reason; apply ages_finish_with. Qed.

(** What [peer_closed] makes of the parts of the connection the invariant reads. *)
Lemma peer_closed_parts c id frame ln :
  let v := peer_close (role c) ln in
  let '(d, k, t) := unregister (tables c) v id in
  let c' := peer_closed c id frame ln in
  role c' = role c /\ tables c' = t
  /\ store c' = alter_opt finish (match ln with LControl => d | LData => k end)
       (alter_opt (finish_for (reason_of frame)) (match ln with LControl => k | LData => d end)
          (store c)).
Proof.
  cbv zeta. unfold peer_closed. destruct (unregister _ _ id) as [[d k] t].
  rewrite !on_channel_opt_eq. destruct (reap (peer_close (role c) ln)); by destruct frame.
Qed.

Lemma peer_closed_inv c id frame ln tb :
  conn_inv c -> table_inv tb -> kept (lane_table (tables c) ln) tb id ->
  states tb !! id <> Some Idle -> states tb !! id <> Some Open ->
  (is_Some (states tb !! id) -> is_Some (states (lane_table (tables c) ln) !! id)) ->
  conn_inv (peer_closed (with_tables c (set_lane (tables c) ln tb)) id frame ln).
Proof.
  intros Hok Htb Hk HI HO HS. pose proof (ok_no_idle _ _ _ Hok id) as [NId NIk].
  pose proof (ok_data_open _ _ _ Hok id) as Hopen.
  pose proof (peer_closed_parts (with_tables c (set_lane (tables c) ln tb)) id frame ln) as P.
  cbv zeta in P. rewrite unregister_eq in P. destruct P as (E1 & E2 & E3).
  unfold conn_inv. rewrite E1, E2, E3. clear E1 E2 E3. cbn [role tables store with_tables].
  destruct ln; cbn [lane_table set_lane control data control_channels data_channels] in *.
  - destruct (finish_two (store c) (control_channels (tables c) !! id) None
      (finish_for (reason_of frame)) finish (finish_for_finishes _) finish_finishes) as (A & F1 & F2).
    assert (R : conn_ok (role c)
      (mkTables tb (data (tables c)) (delete id (control_channels (tables c)))
         (data_channels (tables c)))
      (alter_opt finish None (alter_opt (finish_for (reason_of frame))
         (control_channels (tables c) !! id) (store c)))).
    { apply (retire_ok (role c) (tables c) (store c) _ id (data (tables c)) tb false true);
        try done; [apply Hok|apply kept_refl|tauto|tauto]. }
    by destruct (role c).
  - destruct (role c) eqn:Er; cbn [peer_close drop_data drop_control data_table control_table
      advance orb negb].
    + destruct (finish_two (store c) (data_channels (tables c) !! id) None
        (finish_for (reason_of frame)) finish (finish_for_finishes _) finish_finishes)
        as (A & F1 & F2).
      unfold conn_inv in Hok. rewrite Er in Hok.
      apply (retire_ok Client (tables c) (store c) _ id tb (control (tables c)) true false);
        try done; [apply Hok|apply kept_refl].
    + destruct (finish_two (store c) (data_channels (tables c) !! id)
        (control_channels (tables c) !! id) (finish_for (reason_of frame)) finish
        (finish_for_finishes _) finish_finishes) as (A & F1 & F2).
      unfold conn_inv in Hok. rewrite Er in Hok. pose proof (ok_control _ _ _ Hok) as Hc.
      destruct (close_step_dead _ id Hc) as (K1 & K2 & K3).
      destruct (advance_close_spec _ id Hc) as (Ik & Kk & _). unfold remote_close.
      by apply (retire_ok Host (tables c) (store c) _ id tb _ true true).
Qed.

Lemma deliver_frame_inv c id payload ln : conn_inv c -> conn_inv (deliver_frame c id payload ln).
Proof.
  intros Hok. unfold deliver_frame. destruct (channels_on (tables c) ln !! id) as [target|] eqn:Et;
    [|done]. destruct (store c !! target) as [ch|] eqn:Es; [|done].
  destruct (finished ch) eqn:Ef.
  2: { unfold conn_inv, on_channel. cbn. apply (conn_ok_ages _ _ _ _ Hok).
       apply store_ages_alter. intros. apply ages_deliver. }
  rewrite unregister_eq. cbv beta iota zeta. rewrite on_channel_opt_eq.
  assert (Hparts : forall (b : bool) x e, conn_inv x -> conn_inv (if b then emit x e else x))
    by (by intros []). apply Hparts. clear Hparts. unfold conn_inv. cbn [role tables store with_store with_tables].
  pose proof (ok_data _ _ _ Hok) as Hd. pose proof (ok_control _ _ _ Hok) as Hc.
  pose proof (ok_no_idle _ _ _ Hok id) as [NId NIk]. pose proof (ok_data_open _ _ _ Hok id) as Hopen.
  destruct (close_step_dead _ id Hd) as (D1 & D2 & D3).
  destruct (close_step_dead _ id Hc) as (K1 & K2 & K3).
  destruct (advance_close_spec _ id Hd) as (Id & Kd & _).
  destruct (advance_close_spec _ id Hc) as (Ik & Kk & _).
  assert (Hsib : forall r, store_ages (store c) (alter_opt finish r (store c))
    /\ done_at (alter_opt finish r (store c)) r
    /\ done_at (alter_opt finish r (store c)) (Some target)).
  { intros r. assert (A : store_ages (store c) (alter_opt finish r (store c)))
      by (apply store_ages_alter_opt; intros; apply finish_finishes).
    split_and!; [done|apply done_at_alter_opt; intros; apply finish_finishes|].
    eapply done_at_ages; [exact A|]. intros r' ch' [= <-] E. congruence. }
  unfold conn_inv in Hok. destruct (role c) eqn:Er, ln;
    cbn [poisoned drop_data drop_control data_table control_table advance orb negb channels_on] in *;
    unfold local_close.
  - destruct (Hsib None) as (A & _ & F).
    apply (retire_ok Client (tables c) (store c) _ id (data (tables c)) _ false true); try done;
      [apply kept_refl|tauto|tauto|by rewrite Et].
  - destruct (Hsib None) as (A & _ & F).
    apply (retire_ok Client (tables c) (store c) _ id _ (control (tables c)) true false); try done;
      [apply kept_refl|by rewrite Et].
  - destruct (Hsib (data_channels (tables c) !! id)) as (A & F1 & F2).
    apply (retire_ok Host (tables c) (store c) _ id _ _ true true); try done;
      by rewrite Et.
  - destruct (Hsib (control_channels (tables c) !! id)) as (A & F1 & F2).
    apply (retire_ok Host (tables c) (store c) _ id _ _ true true); try done;
      by rewrite Et.
Qed.

(** ** Opening keeps the invariant *)

(** Two fresh sub-channels join the store; one id becomes open in both tables and registered. *)
Lemma register_ok window ro t s id dt kt :
  conn_ok ro t s -> table_inv dt -> table_inv kt ->
  (forall id', id' <> id -> states dt !! id' = states (data t) !! id'
     \/ (terminal_in (data t) id' /\ states dt !! id' = None)) ->
  kept (control t) kt id ->
  last_allocated (data t) <= last_allocated dt ->
  states dt !! id = Some Open -> states kt !! id <> Some Idle ->
  data_channels t !! id = None -> control_channels t !! id = None ->
  (ro = Host -> (size (data_channels t) < 256)%nat) ->
  (ro = Client -> id <= last_allocated dt) ->
  conn_ok ro
    (mkTables kt dt (<[id := S (length s)]> (control_channels t))
       (<[id := length s]> (data_channels t)))
    (s ++ [data_channel window id; control_channel id]).
Proof.
  intros Hok Hdt Hkt Hod Kk Hlast Od Ik Nd Nk Hcap Hcl. destruct Hok.
  assert (Hopen : forall id' x, id' <> id -> terminal x = false ->
    states dt !! id' = Some x <-> states (data t) !! id' = Some x).
  { intros id' x Hne Hx. destruct (Hod id' Hne) as [->|[(x' & E & Ht) ->]]; [done|].
    split; [done|]. intros E'. simplify_eq. congruence. }
  assert (Hs : forall r ch, (s ++ [data_channel window id; control_channel id]) !! r = Some ch ->
    s !! r = Some ch \/ (r = length s /\ ch = data_channel window id)
    \/ (r = S (length s) /\ ch = control_channel id)).
  { intros r ch E. apply lookup_app_Some in E as [E|[Hr E]]; [by left|right].
    destruct (r - length s)%nat as [|[|]] eqn:Er; cbn in E; simplify_eq; [left|right];
      split; done || lia. }
  assert (Hold : forall r ch, s !! r = Some ch ->
    (s ++ [data_channel window id; control_channel id]) !! r = Some ch)
    by (intros; by apply lookup_app_l_Some).
  split; cbn [control data control_channels data_channels]; try done.
  - intros id'. destruct (decide (id' = id)) as [->|Hne]; [by rewrite Od|].
    rewrite (Hopen id' Idle Hne eq_refl), (kept_open _ _ _ _ Idle Kk Hne eq_refl). done.
  - intros id'. destruct (decide (id' = id)) as [->|Hne].
    + rewrite lookup_insert_eq, Od. split; [done|eauto].
    + by rewrite lookup_insert_ne, (Hopen id' Open Hne eq_refl) by done.
  - intros Hr id'. destruct (decide (id' = id)) as [->|Hne]; [rewrite lookup_insert_eq; eauto|].
    rewrite lookup_insert_ne, (kept_open _ _ _ _ Open Kk Hne eq_refl) by done. auto.
  - intros id' r. destruct (decide (id' = id)) as [->|Hne].
    + rewrite lookup_insert_eq. intros [= <-]. exists (data_channel window id).
      rewrite lookup_app_r, Nat.sub_diag by done. done.
    + rewrite lookup_insert_ne by done. intros E.
      destruct (ok_data_ref0 id' r E) as (ch & ? & ? & ?). eauto.
  - intros id' r. destruct (decide (id' = id)) as [->|Hne].
    + rewrite lookup_insert_eq. intros [= <-]. exists (control_channel id).
      rewrite lookup_app_r by lia. replace (S (length s) - length s)%nat with 1%nat by lia. done.
    + rewrite lookup_insert_ne by done. intros E.
      destruct (ok_control_ref0 id' r E) as (ch & ? & ? & ?). eauto.
  - intros r ch E. destruct (Hs r ch E) as [Eo|[[-> ->]|[-> ->]]].
    + destruct (ok_no_zombie0 r ch Eo) as [?|Hm]; [by left|right].
      assert (Hne : channel_id ch <> id).
      { intros Hid. rewrite Hid in Hm. destruct (lane ch); cbn in Hm; congruence. }
      destruct (lane ch); cbn [channels_on control_channels data_channels] in *;
        by rewrite lookup_insert_ne.
    + right. cbn. by rewrite lookup_insert_eq.
    + right. cbn. by rewrite lookup_insert_eq.
  - intros Hr. destruct (ok_host0 Hr) as [Hdom _]. split.
    + intros id'. destruct (decide (id' = id)) as [->|Hne]; [rewrite !lookup_insert_eq; eauto|].
      rewrite !lookup_insert_ne by done. auto.
    + rewrite map_size_insert_None by done. specialize (Hcap Hr). lia.
  - intros Hr id' H. destruct (decide (id' = id)) as [->|Hne]; [auto|].
    rewrite lookup_insert_ne in H by done. etransitivity; [apply (ok_client0 Hr id')|exact Hlast].
    destruct H as [H|[H|H]]; [left|right; left|auto].
    + destruct (Hod id' Hne) as [<-|[_ E]]; [done|]. rewrite E in H. by destruct H.
    + by eapply kept_some.
Qed.

Section Steps.
Context (window : Z).

Lemma send_open_ack_inv c id a n : conn_inv c -> conn_inv (send_open_ack c id a n).
Proof. done. Qed.
Lemma note_open_ack_parts c id ack :
  role (note_open_ack c id ack) = role c /\ tables (note_open_ack c id ack) = tables c
  /\ store (note_open_ack c id ack) = store c.
Proof. unfold note_open_ack. by destruct (open_acks c !! id). Qed.

(** An admitted open is for the host, on DATA, for a live or unknown id, within the cap. *)
Lemma admitted_open c id ln :
  admit_arrival (arrival_of c KChannelOpen id ln) = Proceed ->
  role c = Host /\ ln = LData
  /\ (data_channels (tables c) !! id = None -> (size (data_channels (tables c)) < 256)%nat)
  /\ states (data (tables c)) !! id <> Some Closed
  /\ states (data (tables c)) !! id <> Some HalfClosed.
Proof.
  unfold admit_arrival, arrival_of, MuxFlowControl.MAX_CHANNELS_PER_CONNECTION, state_of.
  cbn [ar_kind ar_role ar_link registered live_channels prior_data_state].
  rewrite (bool_decide_eq_true_2 (KChannelOpen = KChannelOpen)) by done. cbn [negb].
  destruct (role c), ln; cbn [initiates_opens];
    rewrite ?(bool_decide_eq_true_2 (Host = Host)), ?(bool_decide_eq_true_2 (LData = LData)),
      ?(bool_decide_eq_true_2 (LControl = LControl)), ?(bool_decide_eq_false_2 (Host = Client)),
      ?(bool_decide_eq_false_2 (Client = Host)), ?(bool_decide_eq_false_2 (LData = LControl)),
      ?(bool_decide_eq_false_2 (LControl = LData)) by done; cbn [andb]; try done.
  destruct (data_channels (tables c) !! id) as [r|] eqn:E.
  - rewrite bool_decide_eq_true_2 by eauto. cbn [negb andb].
    destruct (states (data (tables c)) !! id) as [[]|]; done.
  - rewrite bool_decide_eq_false_2 by (by intros [? ?]). cbn [negb andb].
    destruct (Z.leb_spec 256 (Z.of_nat (size (data_channels (tables c))))); [done|].
    destruct (states (data (tables c)) !! id) as [[]|]; (done || (intros _; split_and!; try done; lia)).
Qed.

Lemma route_open_inv c id sid seq class cwd payload :
  conn_inv c ->
  admit_arrival (arrival_of c KChannelOpen id LData) = Proceed ->
  conn_inv (route_admitted window c KChannelOpen (ChannelOpen id sid seq class cwd) payload LData).
Proof.
  intros Hok Had. destruct (admitted_open c id LData Had) as (Hr & _ & Hcap & NC & NH).
  pose proof (ok_data _ _ _ Hok) as Hd. pose proof (ok_control _ _ _ Hok) as Hc.
  pose proof (ok_data_open _ _ _ Hok id) as Hopen.
  destruct (open_spec _ id Hd) as (Id & Kd & Sd). destruct (open_spec _ id Hc) as (Ik & Kk & Sk).
  pose proof (ok_no_idle _ _ _ Hok id) as [NId NIk].
  unfold route_admitted. cbn [frame_channel_id route]. unfold lifecycle, state_of.
  assert (So : states (open (data (tables c)) id) !! id = Some Open).
  { rewrite Sd. destruct (states (data (tables c)) !! id) as [[]|]; done. }
  rewrite So. cbn [default from_option tables with_tables data_channels control data
    control_channels Datatypes.id].
  destruct (data_channels (tables c) !! id) as [r|] eqn:E.
  - (* a duplicate open mints nothing *)
    unfold conn_inv. cbn [role tables store with_tables].
    assert (Eo : states (data (tables c)) !! id = Some Open) by (apply Hopen; eauto).
    unfold conn_inv in Hok. rewrite Hr in *.
    apply (retire_ok Host (tables c) (store c) (store c) id _ _ false false); try done.
    + apply store_ages_refl.
    + by rewrite So.
    + rewrite Sk. by destruct (states (control (tables c)) !! id) as [[]|].
    + left. by rewrite E.
    + left. by rewrite E.
  - unfold conn_inv, emit, register. cbn [role tables store with_store with_tables fst snd
      control data control_channels data_channels].
    pose proof Hok as Hok'. unfold conn_inv in Hok'. rewrite Hr in *.
    apply (register_ok window Host (tables c) (store c) id); try done.
    + by apply Kd.
    + by destruct Kd as [-> _].
    + rewrite Sk. by destruct (states (control (tables c)) !! id) as [[]|].
    + destruct (ok_host _ _ _ Hok' eq_refl) as [Hdom _].
      destruct (control_channels (tables c) !! id) as [k|] eqn:Ek; [|done].
      destruct (Hdom id) as [? Hx]; [eauto|congruence].
    + intros _. by apply Hcap.
Qed.

Lemma set_lane_same t ln : set_lane t ln (lane_table t ln) = t.
Proof. by destruct t, ln. Qed.

(** A frame that is neither a grant nor an open on DATA: the lane's table steps, then the
    decision is carried out. *)
Definition noted (c : MuxConnection) (frame : MuxFrame) : MuxConnection :=
  match frame with
  | ChannelOpenAck id accepted seq => note_open_ack c id (mkOpenAck accepted seq)
  | _ => c
  end.
Definition accepted_of (frame : MuxFrame) : bool :=
  match frame with ChannelOpenAck _ true _ => true | _ => false end.

Lemma route_admitted_eq c kind frame payload ln :
  match frame with
  | WindowAdjust _ _ => False | ChannelOpen _ _ _ _ _ => False | _ => True end ->
  route_admitted window c kind frame payload ln
  = let c := noted c frame in
    let r := route (lane_table (tables c) ln) kind (frame_channel_id frame) (accepted_of frame) in
    let c := with_tables c (set_lane (tables c) ln r.2) in
    match r.1 with
    | DeliverData i => deliver_frame c i payload ln
    | Lifecycle i Closed | Lifecycle i HalfClosed => peer_closed c i frame ln
    | _ => c
    end.
Proof.
  intros Hf. unfold route_admitted, noted, accepted_of. cbv zeta.
  destruct frame, ln; try done; cbn [lane_table set_lane];
    by destruct (route _ kind _ _) as [[| ? []|] tb].
Qed.

Lemma noted_inv c frame :
  conn_inv c -> conn_inv (noted c frame) /\ role (noted c frame) = role c
  /\ tables (noted c frame) = tables c /\ store (noted c frame) = store c.
Proof.
  intros H. destruct frame as [|id acc seq| | |]; try done. cbn [noted].
  destruct (note_open_ack_parts c id (mkOpenAck acc seq)) as (E1 & E2 & E3).
  unfold conn_inv. by rewrite E1, E2, E3.
Qed.

(** Stepping a table without leaving or entering [Open] only. *)
Lemma step_live_inv c ln tb id :
  conn_inv c -> table_inv tb -> kept (lane_table (tables c) ln) tb id ->
  states tb !! id = Some Open -> states (lane_table (tables c) ln) !! id = Some Open ->
  conn_inv (with_tables c (set_lane (tables c) ln tb)).
Proof.
  intros Hok Htb Hk Ho Ho'. pose proof (ok_no_idle _ _ _ Hok id) as [NId NIk].
  pose proof (ok_data_open _ _ _ Hok id) as Hopen. unfold conn_inv. cbn [role tables store with_tables].
  destruct ln; cbn [set_lane lane_table] in *.
  - apply (retire_ok (role c) (tables c) (store c) (store c) id _ _ false false);
      try done; try apply Hok; try apply kept_refl; try (by rewrite Ho); try (by rewrite Ho');
      [apply store_ages_refl|tauto|tauto|]. intros Hr _.
    destruct (ok_control_open _ _ _ Hok Hr id Ho'); tauto.
  - apply (retire_ok (role c) (tables c) (store c) (store c) id _ _ false false);
      try done; try apply Hok; try apply kept_refl; try (by rewrite Ho); try (by rewrite Ho');
      [apply store_ages_refl|tauto|].
    intros Hr E. destruct (ok_control_open _ _ _ Hok Hr id E); tauto.
Qed.

Lemma route_other_inv c kind frame payload ln :
  conn_inv c ->
  match frame with
  | WindowAdjust _ _ => False | ChannelOpen _ _ _ _ _ => False | _ => True end ->
  from_wire (type_as_byte (mux_type frame)) = Some kind ->
  conn_inv (route_admitted window c kind frame payload ln).
Proof.
  intros Hok0 Hf Hk. rewrite route_admitted_eq by done. cbv zeta.
  destruct (noted_inv c frame Hok0) as (Hok & _). set (c1 := noted c frame) in *. clearbody c1.
  clear Hok0 c. set (id := frame_channel_id frame). set (acc := accepted_of frame).
  assert (Htb : table_inv (lane_table (tables c1) ln)) by (destruct ln; apply Hok).
  assert (Hni : states (lane_table (tables c1) ln) !! id <> Some Idle)
    by (destruct ln; apply (ok_no_idle _ _ _ Hok id)).
  destruct (route_spec (lane_table (tables c1) ln) kind id acc Htb) as (Ir & Kr & Sr & ->).
  assert (Hdead : states (route (lane_table (tables c1) ln) kind id acc).2 !! id <> Some Open ->
    kind = KChannelOpenAck \/ kind = KChannelClose ->
    conn_inv (peer_closed (with_tables c1 (set_lane (tables c1) ln
      (route (lane_table (tables c1) ln) kind id acc).2)) id frame ln)).
  { intros Ho Hkind. apply peer_closed_inv; try done; rewrite Sr;
      destruct Hkind as [-> | ->]; destruct acc, (states (lane_table (tables c1) ln) !! id) as [[]|];
      done. }
  assert (Hlive : states (route (lane_table (tables c1) ln) kind id acc).2 !! id = Some Open ->
    kind = KChannelOpenAck \/ kind = KChannelClose ->
    conn_inv (with_tables c1 (set_lane (tables c1) ln
      (route (lane_table (tables c1) ln) kind id acc).2))).
  { intros Ho Hkind. apply (step_live_inv _ _ _ id); try done. revert Ho. rewrite Sr.
    destruct Hkind as [-> | ->]; destruct acc, (states (lane_table (tables c1) ln) !! id) as [[]|];
      done. }
  destruct frame as [|i a q|i p|i r|]; try done; vm_compute in Hk; injection Hk as <-.
  - cbn [decision_of]. destruct (states (route _ _ _ _).2 !! id) as [[]|] eqn:E;
      cbn [default from_option Datatypes.id]; auto.
    exfalso. revert E. rewrite Sr. destruct acc, (states _ !! id) as [[]|]; done.
  - cbn [decision_of]. clear Hdead Hlive Sr Kr Ir.
    assert (Er : (route (lane_table (tables c1) ln) KChannelData id acc).2
                 = lane_table (tables c1) ln) by (unfold route; by destruct (is_open _ id)).
    rewrite Er, set_lane_same. assert (Ec : with_tables c1 (tables c1) = c1) by by destruct c1.
    rewrite Ec. destruct (states _ !! id) as [[]|]; try done. by apply deliver_frame_inv.
  - cbn [decision_of]. destruct (states (route _ _ _ _).2 !! id) as [[]|] eqn:E;
      cbn [default from_option Datatypes.id]; auto.
    exfalso. revert E. rewrite Sr. destruct (states _ !! id) as [[]|]; done.
Qed.

Lemma route_window_inv c id n payload ln :
  conn_inv c ->
  conn_inv (route_admitted window c KWindowAdjust (WindowAdjust id n) payload ln).
Proof.
  intros Hok. unfold route_admitted. cbn [frame_channel_id route].
  assert (Ht : forall a b : ChannelTable, a = b ->
    mkTables a (data (tables c)) (control_channels (tables c)) (data_channels (tables c))
    = mkTables b (data (tables c)) (control_channels (tables c)) (data_channels (tables c)))
    by (by intros ? ? ->).
  assert (Hmatch : (match ln with
    | LControl => let '(d, tb) := (lifecycle (control (tables c)) id Closed, control (tables c)) in
        (d, mkTables tb (data (tables c)) (control_channels (tables c)) (data_channels (tables c)))
    | LData => let '(d, tb) := (lifecycle (data (tables c)) id Closed, data (tables c)) in
        (d, mkTables (control (tables c)) tb (control_channels (tables c)) (data_channels (tables c)))
    end).2 = tables c) by (destruct ln; by destruct (tables c)).
  destruct (match ln with LControl => _ | LData => _ end) as [dec t]. cbn [snd] in Hmatch. subst t.
  rewrite on_channel_opt_eq. unfold conn_inv. cbn [role tables store with_store with_tables].
  apply (conn_ok_ages _ _ _ _ Hok), store_ages_alter_opt. intros. apply ages_grant.
Qed.

Lemma route_frame_inv c frame payload ln :
  conn_inv c -> conn_inv (route_frame window c frame payload ln).
Proof.
  intros Hok. unfold route_frame.
  destruct (from_wire (type_as_byte (mux_type frame))) as [kind|] eqn:Ek; [|done].
  destruct (admit_arrival (arrival_of c kind (frame_channel_id frame) ln)) eqn:Ea; try done.
  destruct frame as [id sid seq class cwd|id acc seq|id p|id reason|id n].
  - vm_compute in Ek. injection Ek as <-. cbn [frame_channel_id] in Ea.
    destruct (admitted_open c id ln Ea) as (_ & -> & _). by apply route_open_inv.
  - by apply route_other_inv.
  - by apply route_other_inv.
  - by apply route_other_inv.
  - vm_compute in Ek. injection Ek as <-. by apply route_window_inv.
Qed.

(** The initiator's open, while ids last. *)
Lemma open_channel_inv c rq :
  conn_inv c -> last_allocated (data (tables c)) + 2 <= u32_max ->
  0 <= last_allocated (data (tables c)) ->
  conn_inv (open_channel window c rq).2.
Proof.
  intros Hok Hlast H0. unfold open_channel. destruct (role c) eqn:Er; [|done]. cbn [initiates_opens negb].
  destruct (torn_down c); [done|]. unfold allocate. cbv zeta.
  set (id := if last_allocated (data (tables c)) =? 0 then 1
             else saturating_add_u32 (last_allocated (data (tables c))) 2).
  assert (Hid : last_allocated (data (tables c)) < id).
  { subst id. unfold saturating_add_u32. case_Z; lia. }
  set (dt0 := mkTable (<[id:=Idle]> (states (data (tables c)))) id
                (terminal_ring (data (tables c))) (terminal_ring_head (data (tables c)))).
  pose proof (ok_data _ _ _ Hok) as Hd. pose proof (ok_control _ _ _ Hok) as Hc.
  assert (Hnew : states (data (tables c)) !! id = None /\ states (control (tables c)) !! id = None
    /\ control_channels (tables c) !! id = None).
  { pose proof (ok_client _ _ _ Hok Er id) as Hcl.
    split_and!; apply eq_None_not_Some; intros Hs;
      (enough (id <= last_allocated (data (tables c))) by lia); apply Hcl; tauto. }
  destruct Hnew as (Nd & Nk & Nc).
  assert (Ndc : data_channels (tables c) !! id = None).
  { apply eq_None_not_Some. intros Hs%(proj1 (ok_data_open _ _ _ Hok id)). congruence. }
  assert (Hdt0 : table_inv dt0).
  { pose proof (set_state_inv (data (tables c)) id Idle Hd) as [].
    - split; [done|]. intros Ht. by apply not_terminal_in_none in Ht.
    - by split. }
  destruct (open_spec dt0 id Hdt0) as (Id & Kd & Sd).
  destruct (open_spec _ id Hc) as (Ik & Kk & Sk). rewrite Nk in Sk.
  assert (Hreg : conn_inv (with_acks (register window (with_tables c
      (mkTables (open (control (tables c)) id) (open dt0 id) (control_channels (tables c))
         (data_channels (tables c)))) id).2 (<[id:=None]> (open_acks c)))).
  { unfold conn_inv, register. cbn [role tables store with_store with_tables with_acks snd
      control data control_channels data_channels]. unfold conn_inv in Hok. rewrite Er in *.
    apply (register_ok window Client (tables c) (store c) id); try done.
    - intros id' Hne. left. unfold open. cbn [states dt0].
      rewrite lookup_insert_eq. cbn. by rewrite !lookup_insert_ne.
    - destruct Kd as [-> _]. cbn. lia.
    - rewrite Sd. cbn. by rewrite lookup_insert_eq.
    - by rewrite Sk.
    - destruct Kd as [-> _]. intros _. cbn. lia. }
  cbn [register snd] in Hreg |- *.
  destruct (link_send _ _) as [l|]; cbn [snd].
  - exact Hreg.
  - apply abandon_inv. exact Hreg.
Qed.

(** ** The life of a connection while its links are up

    One step is one call under the tables lock, or what an owner does to the sub-channels it
    holds, which only ages them; the peer chooses every frame. *)
Inductive live_step (c : MuxConnection) : MuxConnection -> Prop :=
| LFrame frame payload ln : live_step c (route_frame window c frame payload ln)
| LOpen request :
    0 <= last_allocated (data (tables c)) -> last_allocated (data (tables c)) + 2 <= u32_max ->
    live_step c (open_channel window c request).2
| LClose id reason : live_step c (close_channel c id reason)
| LSendAck id accepted seq : live_step c (send_open_ack c id accepted seq)
| LAwait id : live_step c (await_open_ack c id).2
| LForget id : live_step c (forget_open_ack c id)
| LOwner s control data :
    store_ages (store c) s -> live_step c (with_links (with_store c s) control data).

Inductive live (r : Role) : MuxConnection -> Prop :=
| live_new : live r (connection_new r)
| live_next c c' : live r c -> live_step c c' -> live r c'.

Lemma live_step_inv c c' : conn_inv c -> live_step c c' -> conn_inv c'.
Proof.
  intros Hok []; try done.
  - by apply route_frame_inv.
  - by apply open_channel_inv.
  - by apply close_channel_inv.
  - unfold await_open_ack. by destruct (open_acks c !! id) as [[?|]|].
  - by apply (conn_ok_ages _ _ (store c)).
Qed.

Lemma live_inv r c : live r c -> conn_inv c.
Proof. induction 1; [apply conn_inv_new|by eapply live_step_inv]. Qed.

(** Draining a decoder is a run of frame steps. *)
Lemma drain_frames_live fuel r c d ln :
  live r c -> live r (drain_frames window fuel c d ln).1.2.
Proof.
  revert c d. induction fuel as [|fuel IH]; intros c d H; cbn [drain_frames]; [done|].
  destruct (next_frame_leaving_payload d) as [[[[frame payload]|]|e] d']; try done.
  apply IH. eapply live_next; [exact H|constructor].
Qed.

(** *** The role and the latch are constant while the links are up *)

Definition same_life (c c' : MuxConnection) : Prop :=
  role c' = role c /\ torn_down c' = torn_down c.

Lemma same_life_trans a b c : same_life a b -> same_life b c -> same_life a c.
Proof. unfold same_life. intuition congruence. Qed.

Lemma on_channel_opt_life c r f : same_life c (on_channel_opt c r f).
Proof. by destruct r. Qed.

Lemma peer_closed_life c id frame ln : same_life c (peer_closed c id frame ln).
Proof.
  unfold peer_closed. destruct (unregister _ _ id) as [[d k] t]. cbv zeta.
  destruct (reap _); rewrite !on_channel_opt_eq; done.
Qed.

Lemma deliver_frame_life c id payload ln : same_life c (deliver_frame c id payload ln).
Proof.
  unfold deliver_frame. destruct (channels_on _ ln !! id) as [r|]; [|done].
  destruct (store c !! r) as [ch|]; [|done]. destruct (finished ch); [|done].
  destruct (unregister _ _ id) as [[d k] t]. cbv zeta.
  destruct (reap _); rewrite !on_channel_opt_eq; done.
Qed.

Lemma noted_life c frame : same_life c (noted c frame).
Proof. destruct frame; try done. cbn. unfold note_open_ack. by destruct (open_acks c !! _). Qed.

Lemma route_frame_life c frame payload ln : same_life c (route_frame window c frame payload ln).
Proof.
  unfold route_frame. destruct (from_wire _) as [kind|]; [|done]. destruct (admit_arrival _); try done.
  destruct frame as [id sid seq class cwd|id acc seq|id p|id reason|id n].
  - unfold route_admitted. cbn [frame_channel_id].
    destruct ln; cbn [tables with_tables];
      destruct (route _ _ _ _) as [dec tb]; cbv beta iota zeta;
      cbn [tables with_tables data_channels]; [|destruct (data_channels _ !! id)];
      destruct dec as [i|i []|i]; cbv beta iota zeta; try done;
      first [eapply same_life_trans; [|apply peer_closed_life]; done
            |eapply same_life_trans; [|apply deliver_frame_life]; done].
  - rewrite route_admitted_eq by done. cbv zeta. eapply same_life_trans; [apply noted_life|].
    destruct (route _ _ _ _).1 as [i|i []|i]; try done;
      first [eapply same_life_trans; [|apply peer_closed_life]; done
            |eapply same_life_trans; [|apply deliver_frame_life]; done].
  - rewrite route_admitted_eq by done. cbv zeta. cbn [noted].
    destruct (route _ _ _ _).1 as [i|i []|i]; try done;
      first [eapply same_life_trans; [|apply peer_closed_life]; done
            |eapply same_life_trans; [|apply deliver_frame_life]; done].
  - rewrite route_admitted_eq by done. cbv zeta. cbn [noted].
    destruct (route _ _ _ _).1 as [i|i []|i]; try done;
      first [eapply same_life_trans; [|apply peer_closed_life]; done
            |eapply same_life_trans; [|apply deliver_frame_life]; done].
  - unfold route_admitted. cbn [frame_channel_id].
    destruct ln; cbn [tables with_tables];
      destruct (route _ _ _ _) as [dec tb]; cbv beta iota zeta;
      (eapply same_life_trans; [|apply on_channel_opt_life]); done.
Qed.

Lemma live_step_life c c' : live_step c c' -> same_life c c'.
Proof.
  destruct 1; try done.
  - apply route_frame_life.
  - unfold open_channel. destruct (negb _); [done|]. destruct (torn_down c); [done|].
    destruct (allocate _) as [id dt]. cbn [register]. cbv beta iota zeta.
    destruct (link_send _ _); [done|]. unfold abandon. rewrite !on_channel_opt_eq. done.
  - unfold close_channel, abandon. rewrite !on_channel_opt_eq. done.
  - unfold await_open_ack. by destruct (open_acks c !! id) as [[?|]|].
Qed.

Lemma live_life r c : live r c -> role c = r /\ torn_down c = false.
Proof.
  induction 1 as [|c c' _ [Hr Ht] Hs%live_step_life]; [done|]. by destruct Hs as [-> ->].
Qed.
End Steps.
End Invariant.

(** ** Teardown *)

Lemma on_channels_parts c rs f :
  let c' := foldl (fun c r => on_channel c r f) c rs in
  role c' = role c /\ tables c' = tables c /\ torn_down c' = torn_down c
  /\ control_link c' = control_link c /\ data_link c' = data_link c
  /\ events c' = events c /\ open_acks c' = open_acks c
  /\ store c' = foldl (fun s r => alter f r s) (store c) rs.
Proof.
  revert c. induction rs as [|r rs IH]; intros c; cbn [foldl]; [by split_and!|].
  destruct (IH (on_channel c r f)) as (?&?&?&?&?&?&?&?). by split_and!.
Qed.

Lemma finish_all s rs f :
  (forall ch, ages ch (f ch) /\ finished (f ch) = true) ->
  let s' := foldl (fun s r => alter f r s) s rs in
  store_ages s s' /\ forall r, r ∈ rs -> done_at s' (Some r).
Proof.
  intros Hf. revert s. induction rs as [|r rs IH]; intros s; cbn [foldl].
  - split; [apply store_ages_refl|]. by intros r ?%elem_of_nil.
  - destruct (IH (alter f r s)) as [A D]. cbv zeta in *. split.
    + eapply store_ages_trans; [|exact A]. apply store_ages_alter. intros; apply Hf.
    + intros r' [->|Hr]%elem_of_cons; [|by apply D]. eapply done_at_ages; [exact A|].
      apply done_at_alter. intros; apply Hf.
Qed.

Lemma in_map_to_list_snd (m : gmap Z ref) id r : m !! id = Some r -> r ∈ (map_to_list m).*2.
Proof. intros H. apply list_elem_of_fmap. exists (id, r). split; [done|]. by apply elem_of_map_to_list. Qed.

(** What coming down leaves: the tables' states as they were, nothing registered, everything finished. *)
Lemma tear_down_spec c :
  conn_inv ∅ c -> torn_down c = false ->
  let c' := (tear_down c).2 in
  (tear_down c).1 = Some (map_to_list (data_channels (tables c))).*1
  /\ role c' = role c /\ tables c' = mkTables (control (tables c)) (data (tables c)) ∅ ∅ /\ torn_down c' = true
  /\ control_link c' = link_close (control_link c) /\ data_link c' = link_close (data_link c)
  /\ events c' = events c /\ open_acks c' = ∅
  /\ forall ref ch, store c' !! ref = Some ch -> finished ch = true.
Proof.
  intros Hok Ht. cbv zeta. unfold tear_down. rewrite Ht. cbn [fst snd].
  set (rs := (map_to_list (data_channels (tables c))).*2 ++ (map_to_list (control_channels (tables c))).*2).
  set (c0 := mkConnection (role c) (link_close (control_link c)) (link_close (data_link c))
               (mkTables (control (tables c)) (data (tables c)) ∅ ∅) (store c) (events c) ∅ true).
  destruct (on_channels_parts c0 rs finish_link_down) as (Er & Et & Ed & Ec & Eda & Ee & Ea & Es).
  destruct (finish_all (store c) rs finish_link_down (fun ch => ages_finish_with ch EndLinkDown)) as [A D].
  cbv zeta in *. rewrite Er, Et, Ed, Ec, Eda, Ee, Ea, Es. split_and!; try done.
  intros ref ch E. change (store c0) with (store c) in E. destruct A as [Hlen A].
  assert (Hlt : (ref < length (store c))%nat) by (rewrite <- Hlen; by eapply lookup_lt_Some).
  destruct (lookup_lt_is_Some_2 _ _ Hlt) as [ch0 E0]. destruct (A ref ch0 E0) as (ch1 & E1 & _ & _ & Hf).
  simplify_eq. destruct (ok_no_zombie _ _ _ _ Hok ref ch0 E0) as [?|Hm]; [auto|].
  eapply (D ref); [|reflexivity|exact E]. subst rs. apply elem_of_app.
  destruct (lane ch0); cbn [channels_on] in Hm; [right|left]; by eapply in_map_to_list_snd.
Qed.

Lemma dom_in_keys (m : gmap Z ref) id : id ∈ (map_to_list m).*1 <-> is_Some (m !! id).
Proof.
  rewrite list_elem_of_fmap. split.
  - intros ([i x] & -> & Hx%elem_of_map_to_list). by exists x.
  - intros [x Hx]. exists (id, x). split; [done|]. by apply elem_of_map_to_list.
Qed.

(** ** The whole life of a host's connection

    The steps of a live connection, and the ones that bring it down: the host's [close] and either
    receive loop's report.  Frames go on being routed afterwards, since the other loop may hold some. *)
Inductive host_step (window : Z) (c : MuxConnection) : MuxConnection -> Prop :=
| HLive c' : live_step window c c' -> host_step window c c'
| HClose : host_step window c (close c)
| HLinkDown failed : host_step window c (report_link_down c failed).

Inductive hosted (window : Z) : MuxConnection -> Prop :=
| hosted_new : hosted window (connection_new Host)
| hosted_next c c' : hosted window c -> host_step window c c' -> hosted window c'.

(** The stale ids are at most the channels live at the teardown. *)
Definition host_inv (c : MuxConnection) : Prop :=
  role c = Host /\ exists stale, conn_inv stale c /\ (size stale <= 256)%nat /\ (torn_down c = false -> stale = ∅).

Lemma tear_down_inv c : host_inv c -> host_inv (tear_down c).2.
Proof.
  intros (Hr & stale & Hok & Hsz & Hst). destruct (torn_down c) eqn:Ht.
  { unfold tear_down. rewrite Ht. cbn [snd]. split; [done|]. exists stale. by rewrite Ht. }
  rewrite (Hst eq_refl) in Hok. destruct (tear_down_spec c Hok Ht) as (_ & Er & Et & Ed & _ & _ & _ & _ & Hfin).
  cbv zeta in *. split; [congruence|]. exists (dom (data_channels (tables c))). rewrite Ed.
  unfold conn_inv in *. rewrite Er, Et, Hr in *. destruct (ok_host _ _ _ _ Hok eq_refl) as [_ Hcap].
  split; [|by rewrite size_dom]. split; cbn [control data control_channels data_channels]; try apply Hok; try done.
  - intros id. rewrite lookup_empty. split; [by intros [? ?]|]. intros E. right. apply elem_of_dom.
    destruct (proj2 (ok_data_open _ _ _ _ Hok id) E) as [?|?]; [done|]. by apply not_elem_of_empty in H.
  - intros _ id E. right. apply elem_of_dom.
    destruct (ok_control_open _ _ _ _ Hok eq_refl id E) as [?|H]; [done|]. by apply not_elem_of_empty in H.
  - intros r ch E. left. by apply (Hfin r).
  - intros _. split; [|rewrite map_size_empty; lia]. intros id. rewrite lookup_empty. by intros [? ?].
Qed.

Lemma hosted_inv window c : hosted window c -> host_inv c.
Proof.
  induction 1 as [|c c' _ IH Hs].
  - split; [done|]. exists ∅. split; [apply conn_inv_new|]. split; [rewrite size_empty; lia|done].
  - destruct Hs as [c' Hs| |failed].
    + destruct IH as (Hr & stale & Hok & Hsz & Hst). destruct (live_step_life window c c' Hs) as [E1 E2].
      split; [congruence|]. exists stale. rewrite E2. split; [by eapply live_step_inv|done].
    + by apply tear_down_inv.
    + unfold report_link_down. pose proof (tear_down_inv c IH) as H. by destruct (tear_down c) as [[ids|] c'].
Qed.

(** ** What a hostile peer cannot do to a host *)

(** The live entries of either table are the registered channels and the stale ids. *)
Lemma live_entries_le (t : ChannelTable) (m : gmap Z ref) (stale : gset Z) :
  (forall id, states t !! id <> Some Idle) ->
  (forall id, states t !! id = Some Open -> is_Some (m !! id) \/ id ∈ stale) ->
  (size (filter (fun kv => terminal kv.2 = false) (states t)) <= size m + size stale)%nat.
Proof.
  intros Hi Ho. rewrite <- !size_dom.
  assert (Hs : dom (filter (fun kv => terminal kv.2 = false) (states t)) ⊆ dom m ∪ stale).
  { intros id. rewrite elem_of_union, !elem_of_dom. intros [s Hs]. apply map_lookup_filter_Some in Hs as [Hs Ht].
    apply Ho. rewrite Hs. destruct s; try done. by destruct (Hi id). }
  apply subseteq_size in Hs. rewrite size_union_alt in Hs.
  pose proof (subseteq_size (stale ∖ dom m) stale ltac:(set_solver)). lia.
Qed.

(** C14: whatever frames a peer sends on either link, in whatever order and interleaved with whatever
    calls the host makes, its [close] and the links' deaths included, the host never carries more than
    256 live channels, and neither of its channel tables ever exceeds those plus one ring of 1024 dead
    ids while the connection is up.  Once it is down the entries of the channels live at that moment may
    stay beside those of the opens still routed after it, so the tables are bounded by 256 more. *)
Theorem host_tables_bounded window c :
  hosted window c ->
  live_channel_count c <= 256
  /\ (torn_down c = false -> state_count (data (tables c)) <= 256 + 1024 /\ state_count (control (tables c)) <= 256 + 1024)
  /\ state_count (data (tables c)) <= 256 + 256 + 1024 /\ state_count (control (tables c)) <= 256 + 256 + 1024.
Proof.
  intros Hl. destruct (hosted_inv _ _ Hl) as (Hr & stale & Hok & Hsz & Hst).
  unfold conn_inv in Hok. rewrite Hr in Hok. destruct (ok_host _ _ _ _ Hok eq_refl) as [_ Hcap].
  pose proof (state_count_bound _ (ok_data _ _ _ _ Hok)) as Bd.
  pose proof (state_count_bound _ (ok_control _ _ _ _ Hok)) as Bk.
  pose proof (live_entries_le (data (tables c)) (data_channels (tables c)) stale
    (fun id => proj1 (ok_no_idle _ _ _ _ Hok id)) (fun id => proj2 (ok_data_open _ _ _ _ Hok id))) as Ld.
  pose proof (live_entries_le (control (tables c)) (data_channels (tables c)) stale
    (fun id => proj2 (ok_no_idle _ _ _ _ Hok id)) (ok_control_open _ _ _ _ Hok eq_refl)) as Lk.
  unfold TERMINAL_RING_CAP in *. split; [unfold live_channel_count; lia|]. split; [|lia].
  intros Ht. rewrite (Hst Ht), size_empty in *. lia.
Qed.

Definition example_open (id : Z) : MuxFrame := ChannelOpen id (repeat Byte.x00 16) 0 Byte.x00 None.

(** Two opens, the host's close, and an open the other loop still held. *)
Definition after_close : MuxConnection :=
  route_frame 65536 (close (route_frame 65536 (route_frame 65536 (connection_new Host) (example_open 1) [] LData)
    (example_open 3) [] LData)) (example_open 5) [] LData.

Lemma host_tables_bounded_witness :
  live_channel_count after_close = 1 /\ state_count (data (tables after_close)) = 3
  /\ live_channel_count after_close <= 256 /\ state_count (data (tables after_close)) <= 256 + 256 + 1024.
Proof.
  split; [vm_compute; reflexivity|]. split; [vm_compute; reflexivity|].
  destruct (host_tables_bounded 65536 after_close) as (H1 & _ & H2 & _); [|by split].
  unfold after_close. eapply hosted_next; [|apply HLive; constructor].
  eapply hosted_next; [|apply HClose]. eapply hosted_next; [|apply HLive; constructor].
  eapply hosted_next; [apply hosted_new|apply HLive; constructor].
Defined.

(** ** Teardown *)

(** C13: when either link dies, nothing is left waiting.  Every sub-channel the connection ever minted
    is finished, both links refuse every later write, no open is left pending, the owner is told
    exactly the ids that were live, once, and a second report says nothing more. *)
Theorem teardown_leaves_no_zombie window r c failed :
  live window r c ->
  exists ids, let c' := report_link_down c failed in
  (forall ref ch, store c' !! ref = Some ch -> finished ch = true)
  /\ (forall bytes, exists e1 e2, link_send (control_link c') bytes = Err e1
                                 /\ link_send (data_link c') bytes = Err e2)
  /\ open_acks c' = ∅
  /\ events c' = events c ++ [EvLinkDown failed ids] /\ NoDup ids
  /\ (forall id, id ∈ ids <-> state_of (data (tables c)) id = Some Open)
  /\ (forall failed', report_link_down c' failed' = c').
Proof.
  intros Hl. pose proof (live_inv ∅ _ _ _ Hl) as Hok. destruct (live_life _ _ _ Hl) as [_ Ht].
  exists (map_to_list (data_channels (tables c))).*1.
  destruct (tear_down_spec c Hok Ht) as (E1 & _ & _ & Ed & Ec & Eda & Ee & Ea & Hfin). cbv zeta in *.
  assert (Edown : report_link_down c failed
                  = emit (tear_down c).2 (EvLinkDown failed (map_to_list (data_channels (tables c))).*1)).
  { unfold report_link_down. by destruct (tear_down c) as [[ids|] c']; cbn in E1; simplify_eq. }
  rewrite Edown. cbn [store control_link data_link open_acks events emit]. rewrite Ec, Eda, Ee, Ea. split_and!; try done.
  - intros bytes. by exists "closed"%string, "closed"%string.
  - apply NoDup_fst_map_to_list.
  - intros id. rewrite dom_in_keys. split; [apply (ok_data_open _ _ _ _ Hok)|].
    intros E. destruct (proj2 (ok_data_open _ _ _ _ Hok id) E) as [?|H]; [done|by apply not_elem_of_empty in H].
  - intros failed'. unfold report_link_down at 1. unfold tear_down at 1. cbn [torn_down emit]. by rewrite Ed.
Qed.

Lemma teardown_leaves_no_zombie_witness :
  let c := route_frame 65536 (connection_new Host) (example_open 1) [] LData in
  length (store c) = 2%nat /\
  (forall ref ch, store (report_link_down c true) !! ref = Some ch -> finished ch = true).
Proof.
  intros c. split; [vm_compute; reflexivity|].
  destruct (teardown_leaves_no_zombie 65536 Host c true) as (ids & H & _); [|exact H].
  eapply live_next; [apply live_new|constructor].
Defined.

(** A host admits a first open under the cap, and mints its pair of sub-channels. *)
Lemma route_fresh_open window c id sid seq class cwd payload :
  role c = Host -> state_of (data (tables c)) id = None ->
  data_channels (tables c) !! id = None -> (size (data_channels (tables c)) < 256)%nat ->
  let c' := route_frame window c (ChannelOpen id sid seq class cwd) payload LData in
  store c' = store c ++ [data_channel window id; control_channel id]
  /\ torn_down c' = torn_down c.
Proof.
  intros Hr Hs Hn Hsz. cbv zeta. unfold route_frame. cbn [mux_type frame_channel_id].
  replace (from_wire (type_as_byte _)) with (Some KChannelOpen) by (by vm_compute).
  unfold admit_arrival, arrival_of, MuxFlowControl.MAX_CHANNELS_PER_CONNECTION.
  cbn [ar_kind ar_role ar_link registered live_channels prior_data_state]. rewrite Hr, Hs.
  destruct (Z.leb_spec 256 (Z.of_nat (size (data_channels (tables c))))); [lia|].
  rewrite andb_false_r.
  cbn -[route_admitted]. unfold route_admitted. cbn [frame_channel_id route].
  unfold lifecycle, state_of, open in *. rewrite Hs. cbn [set_state with_states states].
  rewrite lookup_insert_eq. cbn [default from_option Datatypes.id].
  cbn [tables with_tables data_channels]. rewrite Hn. done.
Qed.

(** the window the teardown leaves.  Routing does not look at the latch, so an open the other
    link's thread still holds when the connection comes down is admitted: it registers a channel
    whose two sub-channels nobody will ever finish. *)
Theorem open_routed_after_teardown_is_never_finished window id sid seq class cwd failed failed' :
  let c := report_link_down (connection_new Host) failed in
  let c' := route_frame window c (ChannelOpen id sid seq class cwd) [] LData in
  torn_down c = true
  /\ store (report_link_down c' failed') = [data_channel window id; control_channel id]
  /\ (forall ch, ch ∈ store (report_link_down c' failed') -> finished ch = false).
Proof.
  intros c c'.
  assert (Es : store (report_link_down c' failed') = [data_channel window id; control_channel id]).
  { assert (Hf : state_of (data (tables c)) id = None
      /\ data_channels (tables c) !! id = None /\ (size (data_channels (tables c)) < 256)%nat)
      by (split_and!; [done|apply lookup_empty|change (size (∅ : gmap Z ref) < 256)%nat; rewrite map_size_empty; lia]).
    destruct Hf as (H1 & H2 & H3).
    destruct (route_fresh_open window c id sid seq class cwd [] eq_refl H1 H2 H3) as [Es Et].
    fold c' in Es, Et. unfold report_link_down, tear_down. by rewrite Et. }
  rewrite Es. split; [done|]. split; [done|].
  intros ch [->|[->|[]%elem_of_nil]%elem_of_cons]%elem_of_cons; done.
Qed.

(** ** One channel's traffic never touches another *)

(** Of the store: the sub-channels of other ids are as they were. *)
Definition store_spares (id : Z) (s s' : list SubChannel) : Prop :=
  forall r ch, s !! r = Some ch -> channel_id ch <> id -> s' !! r = Some ch.

(** Of the tables: the other ids dispatch to what they did, and are open iff they were. *)
Definition tables_spare (id : Z) (t t' : Tables) : Prop :=
  forall id', id' <> id ->
    data_channels t' !! id' = data_channels t !! id'
    /\ control_channels t' !! id' = control_channels t !! id'
    /\ (states (data t') !! id' = Some Open <-> states (data t) !! id' = Some Open)
    /\ (states (control t') !! id' = Some Open <-> states (control t) !! id' = Some Open).

Definition spares (id : Z) (c c' : MuxConnection) : Prop :=
  store_spares id (store c) (store c') /\ tables_spare id (tables c) (tables c').

Lemma spares_refl id c : spares id c c.
Proof. split; [by intros r ch|]. intros id' Hne. by split_and!. Qed.

Lemma spares_trans id a b c : spares id a b -> spares id b c -> spares id a c.
Proof.
  intros [S1 T1] [S2 T2]. split.
  - intros r ch E Hne. eauto.
  - intros id' Hne. destruct (T1 id' Hne) as (?&?&?&?), (T2 id' Hne) as (?&?&?&?).
    split_and!; (congruence || tauto).
Qed.

(** Every sub-channel a reference may name carries the id. *)
Definition names (id : Z) (s : list SubChannel) (r : option ref) : Prop :=
  forall r' ch, r = Some r' -> s !! r' = Some ch -> channel_id ch = id.

Lemma names_ages id s s' r : store_ages s s' -> names id s r -> names id s' r.
Proof.
  intros [L H] Hn r' ch' -> E'.
  assert (Hl : (r' < length s)%nat) by (rewrite <- L; eapply lookup_lt_Some; eauto).
  destruct (lookup_lt_is_Some_2 s r' Hl) as [ch E]. destruct (H r' ch E) as (ch2 & E2 & Hi & _).
  simplify_eq. rewrite Hi. eauto.
Qed.

Lemma spares_alter_opt id s r f : names id s r -> store_spares id s (alter_opt f r s).
Proof.
  intros Hn. destruct r as [r|]; [|by intros r ch]. intros r' ch E Hne. cbn [alter_opt].
  rewrite list_lookup_alter_ne; [done|]. intros ->. by apply Hne, (Hn r').
Qed.

Lemma spares_two id s r1 r2 f g :
  (forall ch, ages ch (f ch)) -> names id s r1 -> names id s r2 ->
  store_spares id s (alter_opt g r2 (alter_opt f r1 s)).
Proof.
  intros Hf H1 H2 r ch E Hne.
  refine (spares_alter_opt id _ r2 g _ r ch _ Hne).
  - eapply names_ages; [by apply store_ages_alter_opt|done].
  - exact (spares_alter_opt id s r1 f H1 r ch E Hne).
Qed.

Lemma registered_names ro t s id :
  conn_ok ∅ ro t s -> names id s (data_channels t !! id) /\ names id s (control_channels t !! id).
Proof.
  intros Hok. split; intros r ch E Es.
  - destruct (ok_data_ref _ _ _ _ Hok id r E) as (? & ? & ? & _). congruence.
  - destruct (ok_control_ref _ _ _ _ Hok id r E) as (? & ? & ? & _). congruence.
Qed.

Lemma names_if id s r (b : bool) : names id s r -> names id s (if b then r else None).
Proof. by destruct b. Qed.

(** What an unregistering drops carries the id, and it spares the rest of the tables. *)
Lemma unregister_spares ro t s v id :
  conn_ok ∅ ro t s ->
  names id s (unregister t v id).1.1 /\ names id s (unregister t v id).1.2
  /\ tables_spare id t (unregister t v id).2.
Proof.
  intros Hok. destruct (registered_names _ _ _ id Hok) as [Nd Nk]. rewrite unregister_eq.
  cbn [fst snd]. split_and!; [by apply names_if|by apply names_if|].
  intros id' Hne. cbn [data control data_channels control_channels].
  rewrite !lookup_delete_if, !decide_False by tauto.
  split_and!; try done; (eapply kept_open; [apply advance_step_spec; apply Hok|done..]).
Qed.

Lemma set_lane_spares ro t s ln tb id :
  conn_ok ∅ ro t s -> kept (lane_table t ln) tb id -> tables_spare id t (set_lane t ln tb).
Proof.
  intros Hok Hk id' Hne. destruct ln; cbn; split_and!; try done; by eapply kept_open.
Qed.

(** *** Closing and delivering, from any tables that dispatch to the same sub-channels *)

Lemma unregister_names t t' s v id :
  data_channels t' = data_channels t -> control_channels t' = control_channels t ->
  names id s (data_channels t !! id) -> names id s (control_channels t !! id) ->
  names id s (unregister t' v id).1.1 /\ names id s (unregister t' v id).1.2.
Proof. intros E1 E2 N1 N2. rewrite unregister_eq. cbn [fst snd]. rewrite E1, E2. by split; apply names_if. Qed.

Lemma unregister_tables_spare t v id :
  table_inv (data t) -> table_inv (control t) -> tables_spare id t (unregister t v id).2.
Proof.
  intros Hd Hc id' Hne. rewrite unregister_eq. cbn [snd data control data_channels control_channels].
  rewrite !lookup_delete_if, !decide_False by tauto.
  split_and!; try done; (eapply kept_open; [by apply advance_step_spec|done..]).
Qed.

Lemma peer_closed_spares c id frame ln :
  table_inv (data (tables c)) -> table_inv (control (tables c)) ->
  names id (store c) (data_channels (tables c) !! id) ->
  names id (store c) (control_channels (tables c) !! id) ->
  spares id c (peer_closed c id frame ln).
Proof.
  intros Hd Hc Nd Nk. pose proof (peer_closed_parts c id frame ln) as P. cbv zeta in P.
  pose proof (unregister_names (tables c) (tables c) (store c) (peer_close (role c) ln) id
    eq_refl eq_refl Nd Nk) as [N1 N2].
  pose proof (unregister_tables_spare (tables c) (peer_close (role c) ln) id Hd Hc) as HT.
  destruct (unregister _ _ id) as [[d k] t]. destruct P as (P1 & P2 & P3).
  split; [rewrite P3|by rewrite P2].
  apply spares_two; [apply finish_for_finishes|by destruct ln..].
Qed.

Lemma deliver_frame_spares c id payload ln :
  table_inv (data (tables c)) -> table_inv (control (tables c)) ->
  names id (store c) (data_channels (tables c) !! id) ->
  names id (store c) (control_channels (tables c) !! id) ->
  spares id c (deliver_frame c id payload ln).
Proof.
  intros Hd Hc Nd Nk. unfold deliver_frame.
  destruct (channels_on (tables c) ln !! id) as [target|] eqn:Et; [|apply spares_refl].
  destruct (store c !! target) as [ch|] eqn:Es; [|apply spares_refl].
  destruct (finished ch).
  - pose proof (unregister_names (tables c) (tables c) (store c) (poisoned (role c) ln) id
      eq_refl eq_refl Nd Nk) as [N1 N2].
    pose proof (unregister_tables_spare (tables c) (poisoned (role c) ln) id Hd Hc) as HT.
    destruct (unregister _ _ id) as [[d k] t]. cbn [fst snd] in *. cbv zeta.
    rewrite on_channel_opt_eq.
    assert (H : spares id c (with_store (with_tables c t)
      (alter_opt finish (match ln with LControl => d | LData => k end) (store c)))).
    { split; [|done]. cbn [store with_store with_tables]. apply spares_alter_opt. by destruct ln. }
    by destruct (reap _).
  - split; [|intros id' _; by split_and!]. cbn [store on_channel with_store].
    apply (spares_alter_opt id (store c) (Some target)). rewrite <- Et. by destruct ln.
Qed.

Lemma noted_spares id c frame : spares id c (noted c frame).
Proof.
  destruct frame as [|i acc seq| | |]; try apply spares_refl. cbn [noted].
  destruct (note_open_ack_parts c i (mkOpenAck acc seq)) as (_ & E2 & E3).
  split; [by rewrite E3; intros r ch|rewrite E2; intros id' _; by split_and!].
Qed.

(** After the lane's table took its step on the id. *)
Lemma stepped_spares c kind ln id acc (f : MuxConnection -> MuxConnection) :
  conn_inv ∅ c ->
  let c' := with_tables c (set_lane (tables c) ln (route (lane_table (tables c) ln) kind id acc).2) in
  (table_inv (data (tables c')) -> table_inv (control (tables c')) ->
   names id (store c') (data_channels (tables c') !! id) ->
   names id (store c') (control_channels (tables c') !! id) -> spares id c' (f c')) ->
  spares id c (f c').
Proof.
  intros Hok c' Hf.
  assert (Htb : table_inv (lane_table (tables c) ln)) by (destruct ln; apply Hok).
  destruct (route_spec (lane_table (tables c) ln) kind id acc Htb) as (Ir & Kr & _).
  destruct (registered_names _ _ _ id Hok) as [Nd Nk].
  apply spares_trans with c'.
  - split; [by intros r ch|]. by eapply set_lane_spares.
  - apply Hf; subst c'; destruct ln; cbn; (done || apply Hok).
Qed.

Lemma route_other_spares window c kind frame payload ln :
  conn_inv ∅ c ->
  match frame with
  | WindowAdjust _ _ => False | ChannelOpen _ _ _ _ _ => False | _ => True end ->
  spares (frame_channel_id frame) c (route_admitted window c kind frame payload ln).
Proof.
  intros Hok Hf. rewrite route_admitted_eq by done. cbv zeta.
  destruct (noted_inv ∅ c frame Hok) as (Hok1 & _).
  eapply spares_trans; [apply (noted_spares _ c frame)|].
  set (c1 := noted c frame) in *. set (id := frame_channel_id frame).
  set (r := route (lane_table (tables c1) ln) kind id (accepted_of frame)).
  assert (Htb : table_inv (lane_table (tables c1) ln)) by (destruct ln; apply Hok1).
  destruct (route_spec (lane_table (tables c1) ln) kind id (accepted_of frame) Htb)
    as (_ & _ & _ & Hdec). fold r in Hdec.
  assert (Hid : match r.1 with DeliverData i | Lifecycle i _ | DropFrame i _ => i = id end).
  { rewrite Hdec. unfold decision_of. destruct kind; try done;
      destruct (states (lane_table (tables c1) ln) !! id) as [[]|]; done. }
  destruct r.1 as [i|i s|i reason] eqn:Er; try subst i; subst r.
  - apply (stepped_spares c1 kind ln id _ (fun c => deliver_frame c id payload ln) Hok1).
    intros. by apply deliver_frame_spares.
  - destruct s;
      first [apply (stepped_spares c1 kind ln id _ (fun c => c) Hok1); intros; apply spares_refl
            |apply (stepped_spares c1 kind ln id _ (fun c => peer_closed c id frame ln) Hok1);
             intros; by apply peer_closed_spares].
  - apply (stepped_spares c1 kind ln id _ (fun c => c) Hok1). intros; apply spares_refl.
Qed.

Lemma register_spares window c id : spares id c (register window c id).2.
Proof.
  split.
  - intros r ch E _. cbn. by apply lookup_app_l_Some.
  - intros id' Hne. cbn. rewrite !lookup_insert_ne by done. by split_and!.
Qed.

Lemma route_open_spares window c id sid seq class cwd payload :
  conn_inv ∅ c ->
  spares id c (route_admitted window c KChannelOpen (ChannelOpen id sid seq class cwd) payload LData).
Proof.
  intros Hok. pose proof (ok_data _ _ _ _ Hok) as Hd. pose proof (ok_control _ _ _ _ Hok) as Hc.
  destruct (open_spec _ id Hd) as (Id & Kd & Sd). destruct (open_spec _ id Hc) as (Ik & Kk & Sk).
  destruct (registered_names _ _ _ id Hok) as [Nd Nk].
  set (c1 := with_tables c (mkTables (open (control (tables c)) id) (open (data (tables c)) id)
               (control_channels (tables c)) (data_channels (tables c)))).
  assert (H1 : spares id c c1).
  { split; [by intros r ch|]. intros id' Hne. cbn.
    split_and!; try done; by eapply kept_open. }
  unfold route_admitted. cbn [frame_channel_id route].
  unfold lifecycle, state_of. cbn [tables with_tables data_channels control data].
  fold c1.
  set (c2 := match data_channels (tables c) !! id with Some _ => _ | None => _ end).
  assert (H2 : spares id c c2 /\ (c2 = c1 \/ exists e, c2 = emit (register window c1 id).2 e)).
  { subst c2. destruct (data_channels (tables c) !! id); [by split; [|left]|].
    split; [|right; eexists; reflexivity].
    eapply spares_trans; [exact H1|]. apply (register_spares window c1 id). }
  destruct H2 as [H2 Hc2].
  destruct (default Open (states (open (data (tables c)) id) !! id)) eqn:Es; try done;
    (eapply spares_trans; [exact H2|]; apply peer_closed_spares;
     destruct Hc2 as [-> | [e ->]]; cbn; rewrite ?lookup_insert_eq; try done;
     intros r ch [= <-] E; revert E; rewrite ?lookup_app_r by lia;
     rewrite ?Nat.sub_diag, ?Nat.sub_succ_l, ?Nat.sub_diag by lia; by intros [= <-]).
Qed.

Lemma window_spares window c id n payload ln :
  conn_inv ∅ c -> spares id c (route_admitted window c KWindowAdjust (WindowAdjust id n) payload ln).
Proof.
  intros Hok. destruct (registered_names _ _ _ id Hok) as [Nd _].
  assert (E : route_admitted window c KWindowAdjust (WindowAdjust id n) payload ln
    = with_store c (alter_opt (fun ch => grant_credit ch n) (data_channels (tables c) !! id) (store c))).
  { unfold route_admitted. cbn [frame_channel_id route].
    destruct ln; rewrite on_channel_opt_eq; by destruct c as [? ? ? []]. }
  rewrite E. split; [|intros id' _; by split_and!]. by apply spares_alter_opt.
Qed.

(** C12: one channel's traffic never touches another.  Whatever frame arrives, well-formed for its
    channel or not, on either link, every sub-channel of another id is exactly as it was, and every
    other id dispatches to the same sub-channels and is open on the same links. *)
Theorem route_frame_isolated window r c frame payload ln :
  live window r c -> spares (frame_channel_id frame) c (route_frame window c frame payload ln).
Proof.
  intros Hl. pose proof (live_inv ∅ _ _ _ Hl) as Hok. unfold route_frame.
  destruct (from_wire (type_as_byte (mux_type frame))) as [kind|] eqn:Ek; [|apply spares_refl].
  destruct (admit_arrival (arrival_of c kind (frame_channel_id frame) ln)) eqn:Ea;
    [|by split; [intros r' ch|intros id' _; split_and!]|apply spares_refl].
  destruct frame as [id sid seq class cwd|id acc seq|id p|id reason|id n];
    try by apply route_other_spares.
  - vm_compute in Ek. injection Ek as <-. destruct (admitted_open c id ln Ea) as (_ & -> & _).
    by apply route_open_spares.
  - vm_compute in Ek. injection Ek as <-. by apply window_spares.
Qed.

Lemma route_frame_isolated_witness :
  let c := route_frame 65536 (connection_new Host) (example_open 1) [] LData in
  store (route_frame 65536 c (ChannelClose 3 Retired) [] LData) !! 0%nat
  = Some (data_channel 65536 1).
Proof.
  intros c. destruct (route_frame_isolated 65536 Host c (ChannelClose 3 Retired) [] LData) as [H _].
  - eapply live_next; [apply live_new|constructor].
  - apply H; vm_compute; [reflexivity|discriminate].
Defined.
