(* ===== verification/AltScreen.v ===== *)
(** * AltScreen: the alternate-screen state at a cut of a terminal stream

    Models [slopdesk-altscreen/src/lib.rs] and the parts of the escape skimmer it uses
    ([slopdesk-sanitize/src/vtscan.rs]).  The scanners walk a buffer by index, as the code does; a
    stream of well-formed sequences ([token]) is the specification they are checked against. *)

From stdpp Require Import pretty.
From S2P Require Import Prelude Bytes.

(** ** [vtscan] *)

Definition ESC : byte := Byte.x1b.
Definition BEL : byte := Byte.x07.
Definition C1_ST : byte := Byte.x9c.
Definition CAN : byte := Byte.x18.
Definition SUB : byte := Byte.x1a.

Record Csi : Type := mkCsi {
  params : list byte;
  intermediates : list byte;
  final_byte : byte;
  csi_end : Z;
}.

Definition is_param (b : byte) : bool := byte_in 0x30 0x3F b.
Definition is_intermediate (b : byte) : bool := byte_in 0x20 0x2F b.
Definition is_final (b : byte) : bool := byte_in 0x40 0x7E b.

(** [while j < bytes.len() && p(bytes[j]) { j += 1 }] *)
Fixpoint skip_while (fuel : nat) (p : byte -> bool) (bytes : list byte) (j : Z) : Z :=
  match fuel with
  | O => j
  | S fuel =>
    match get bytes j with
    | Some b => if p b then skip_while fuel p bytes (j + 1) else j
    | None => j
    end
  end.

Definition parse_csi (bytes : list byte) (start : Z) : option Csi :=
  let params_start := start + 2 in
  let inters_start := skip_while (length bytes) is_param bytes params_start in
  let j := skip_while (length bytes) is_intermediate bytes inters_start in
  match get bytes j with
  | None => None
  | Some final_byte =>
    if negb (is_final final_byte) then None else
    match get_range bytes params_start inters_start, get_range bytes inters_start j with
    | Some params, Some intermediates => Some (mkCsi params intermediates final_byte (j + 1))
    | _, _ => None
    end
  end.

Record StringSequence : Type := mkStringSequence { body_end : Z; seq_end : Z }.
Record Terminators : Type := mkTerminators { bel : bool; c1_st : bool; bare_esc : bool }.

Definition osc : Terminators := mkTerminators true false false.
Definition st_only : Terminators := mkTerminators false false false.
Definition replay (bel_terminates : bool) : Terminators := if bel_terminates then osc else st_only.

Fixpoint string_end_loop (fuel : nat) (bytes : list byte) (t : Terminators) (j : Z)
  : option StringSequence :=
  match fuel with
  | O => None
  | S fuel =>
    match get bytes j with
    | None => None
    | Some b =>
      if decide (b = CAN \/ b = SUB) then Some (mkStringSequence j j) else
      if (bel t && bool_decide (b = BEL)) || (c1_st t && bool_decide (b = C1_ST))
      then Some (mkStringSequence j (j + 1)) else
      if decide (b = ESC) then
        if decide (get bytes (j + 1) = Some Byte.x5c) then Some (mkStringSequence j (j + 2)) else
        if bare_esc t then Some (mkStringSequence j (j + 1)) else
        string_end_loop fuel bytes t (j + 1)
      else string_end_loop fuel bytes t (j + 1)
    end
  end.

Definition string_sequence_end (bytes : list byte) (body_start : Z) (t : Terminators)
  : option StringSequence :=
  string_end_loop (S (length bytes)) bytes t body_start.

(** ** The scan *)

Definition ALT_MODES : list Z := [47; 1047; 1049].
Definition STRADDLE_PEEK_BYTES : nat := 64.

(** [slice::split(|&b| b == sep)]: always at least one field. *)
Fixpoint split_on (sep : byte) (l : list byte) : list (list byte) :=
  match l with
  | [] => [[]]
  | b :: l =>
    match split_on sep l with
    | field :: rest => if decide (b = sep) then [] :: field :: rest else (b :: field) :: rest
    | [] => [[b]]
    end
  end.

Definition digit_value (b : byte) : option Z :=
  if byte_in 48 57 b then Some (byte_to_Z b - 48) else None.

Fixpoint digits_value (acc : Z) (l : list byte) : option Z :=
  match l with
  | [] => Some acc
  | b :: l => match digit_value b with Some d => digits_value (acc * 10 + d) l | None => None end
  end.

(** [str::parse::<u32>()]: one optional plus sign, at least one digit, nothing past [u32::MAX]. *)
Definition parse_u32 (token : list byte) : option Z :=
  let digits := match token with Byte.x2b :: (_ :: _) as rest => tail token | _ => token end in
  match digits with
  | [] => None
  | _ => match digits_value 0 digits with
         | Some v => if v <=? u32_max then Some v else None
         | None => None
         end
  end.

Definition token_mode (token : list byte) : option Z :=
  if utf8_valid token then parse_u32 token else None.

Definition alt_transition_param (sequence : Csi) : option Z :=
  if negb (bool_decide (final_byte sequence = Byte.x68) || bool_decide (final_byte sequence = Byte.x6c))
  then None else
  match intermediates sequence with
  | _ :: _ => None
  | [] =>
    match params sequence with
    | marker :: rest =>
      if decide (marker = Byte.x3f)
      then List.find (fun mode => bool_decide (mode ∈ ALT_MODES)) (omap token_mode (split_on Byte.x3b rest))
      else None
    | [] => None
    end
  end.

(** Whether the byte after an [ESC] opens a string body, and whether [BEL] ends it. *)
Definition string_introducer (b : byte) : option bool :=
  match b with
  | Byte.x5d => Some true
  | Byte.x50 | Byte.x58 | Byte.x5e | Byte.x5f => Some false
  | _ => None
  end.

(** What one [CSI] does to (in the alternate screen, the mode that last entered it). *)
Definition apply_csi (st : bool * Z) (sequence : Csi) : bool * Z :=
  match alt_transition_param sequence with
  | Some mode =>
    let in_alt := bool_decide (final_byte sequence = Byte.x68) in
    (in_alt, if in_alt then mode else st.2)
  | None => st
  end.

Fixpoint scan (fuel : nat) (bytes : list byte) (boundary : Z) (st : bool * Z) (index : Z)
  : bool * Z :=
  match fuel with
  | O => st
  | S fuel =>
    if negb (index <? boundary) then st else
    if negb (bool_decide (get bytes index = Some ESC)) || (zlen bytes <=? index + 1)
    then scan fuel bytes boundary st (index + 1) else
    match get bytes (index + 1) with
    | None => scan fuel bytes boundary st (index + 2)
    | Some c =>
      if decide (c = Byte.x5b) then
        match parse_csi bytes index with
        | Some sequence => scan fuel bytes boundary (apply_csi st sequence) (csi_end sequence)
        | None => scan fuel bytes boundary st (zlen bytes)
        end
      else
        match string_introducer c with
        | Some bel_terminates =>
          match string_sequence_end bytes (index + 2) (replay bel_terminates) with
          | Some sequence => scan fuel bytes boundary st (seq_end sequence)
          | None => scan fuel bytes boundary st (zlen bytes)
          end
        | None => scan fuel bytes boundary st (index + 2)
        end
    end
  end.

(** [format!("\u{1B}[?{enter_mode}h")] *)
Definition decset (mode : Z) : list byte :=
  [ESC; Byte.x5b; Byte.x3f] ++ String.list_byte_of_string (pretty (Z.to_N mode)) ++ [Byte.x68].

Definition reopen_sequence (dropped kept_head : list byte) : option (list byte) :=
  let boundary := zlen dropped in
  let bytes := dropped ++ take STRADDLE_PEEK_BYTES kept_head in
  let '(in_alt, enter_mode) := scan (S (length bytes)) bytes boundary (false, 1049) 0 in
  if in_alt then Some (decset enter_mode) else None.

Definition text (s : string) : list byte := String.list_byte_of_string s.
Definition esc (s : string) : list byte := ESC :: text s.

Example straddling_enter :
  reopen_sequence (text "text" ++ esc "[?10") (text "49halt churn") = Some (esc "[?1049h").
Proof. vm_compute. reflexivity. Qed.

Example mixed_leave : reopen_sequence (esc "[?1049ha" ++ esc "[?1049;25lb") [] = None.
Proof. vm_compute. reflexivity. Qed.

Example osc_body_is_opaque :
  reopen_sequence (esc "]0;title " ++ esc "[?1049h fake" ++ [BEL] ++ text "rest") [] = None.
Proof. vm_compute. reflexivity. Qed.

(** ** The scan ends within its fuel *)

Lemma skip_while_ge fuel p bytes j : j <= skip_while fuel p bytes j.
Proof.
  revert j. induction fuel as [|fuel IH]; intros j; cbn [skip_while]; [lia|].
  destruct (get bytes j) as [b|]; [|lia]. destruct (p b); [|lia]. specialize (IH (j + 1)). lia.
Qed.

Lemma parse_csi_end bytes start s : parse_csi bytes start = Some s -> start + 2 < csi_end s.
Proof.
  unfold parse_csi. set (i := skip_while _ is_param _ _).
  pose proof (skip_while_ge (length bytes) is_param bytes (start + 2)).
  pose proof (skip_while_ge (length bytes) is_intermediate bytes i). fold i in H.
  set (j := skip_while (length bytes) is_intermediate bytes i) in *.
  destruct (get bytes j); [|done]. destruct (negb _); [done|].
  destruct (get_range _ _ _); [|done]. destruct (get_range _ _ _); [|done]. intros [= <-]. cbn. lia.
Qed.

Lemma string_end_loop_ge fuel bytes t j s : string_end_loop fuel bytes t j = Some s -> j <= seq_end s.
Proof.
  revert j. induction fuel as [|fuel IH]; intros j; cbn [string_end_loop]; [done|].
  destruct (get bytes j); [|done].
  repeat case_match; intros; simplify_eq; cbn [seq_end]; try lia;
    match goal with H : string_end_loop _ _ _ _ = _ |- _ => apply IH in H; lia end.
Qed.

(** More fuel than the bytes left before the boundary changes nothing. *)
Lemma scan_enough fuel fuel' bytes boundary st index :
  0 <= index -> boundary <= zlen bytes ->
  boundary - index < Z.of_nat fuel -> boundary - index < Z.of_nat fuel' ->
  scan fuel bytes boundary st index = scan fuel' bytes boundary st index.
Proof.
  revert fuel' st index. induction fuel as [|fuel IH]; intros fuel' st index Hi Hb Hf Hf'.
  - destruct fuel' as [|fuel']; [done|]. cbn [scan].
    destruct (Z.ltb_spec index boundary); [lia|done].
  - destruct fuel' as [|fuel'].
    + cbn [scan]. destruct (Z.ltb_spec index boundary); [lia|done].
    + cbn [scan]. destruct (Z.ltb_spec index boundary); [|done]. cbn [negb].
      destruct (_ || _); [apply IH; lia|].
      destruct (get bytes (index + 1)) as [c|]; [|apply IH; lia].
      destruct (decide (c = Byte.x5b)).
      * destruct (parse_csi bytes index) as [s|] eqn:E; [|apply IH; lia].
        apply parse_csi_end in E. apply IH; lia.
      * destruct (string_introducer c); [|apply IH; lia].
        destruct (string_sequence_end _ _ _) as [s|] eqn:E; [|apply IH; lia].
        apply string_end_loop_ge in E. apply IH; lia.
Qed.

(** ** Well-formed streams *)

Inductive token : Type :=
| TByte (b : byte)
| TEsc (b : byte)
| TCsi (ps is_ : list byte) (f : byte)
| TStr (introducer : byte) (body terminator : list byte).

Definition print1 (t : token) : list byte :=
  match t with
  | TByte b => [b]
  | TEsc b => [ESC; b]
  | TCsi ps is_ f => [ESC; Byte.x5b] ++ ps ++ is_ ++ [f]
  | TStr c body terminator => [ESC; c] ++ body ++ terminator
  end.
Definition print (ts : list token) : list byte := concat (map print1 ts).

(** No byte of the body ends it. *)
Fixpoint body_ok (bel_terminates : bool) (body : list byte) : bool :=
  match body with
  | [] => true
  | b :: rest =>
    negb (bool_decide (b = CAN \/ b = SUB)) && negb (bel_terminates && bool_decide (b = BEL))
    && negb (bool_decide (b = ESC) && bool_decide (head rest = Some Byte.x5c))
    && body_ok bel_terminates rest
  end.

Definition terminator_ok (bel_terminates : bool) (terminator : list byte) : bool :=
  bool_decide (terminator = [ESC; Byte.x5c] \/ terminator = [CAN] \/ terminator = [SUB])
  || (bel_terminates && bool_decide (terminator = [BEL])).

Definition wf_token (t : token) : bool :=
  match t with
  | TByte b => negb (bool_decide (b = ESC))
  | TEsc b => negb (bool_decide (b = Byte.x5b)) && negb (bool_decide (is_Some (string_introducer b)))
  | TCsi ps is_ f => forallb is_param ps && forallb is_intermediate is_ && is_final f
  | TStr c body terminator =>
      match string_introducer c with
      | Some bl => body_ok bl body && terminator_ok bl terminator
      | None => false
      end
  end.

(** What a token does to the state: only a [CSI] does anything. *)
Definition effect (st : bool * Z) (t : token) : bool * Z :=
  match t with TCsi ps is_ f => apply_csi st (mkCsi ps is_ f 0) | _ => st end.
Definition effects (st : bool * Z) (ts : list token) : bool * Z := foldl effect st ts.

(** The opener a state calls for. *)
Definition opener (st : bool * Z) : option (list byte) := if st.1 then Some (decset st.2) else None.

(** ** The skimmers find the ends of well-formed sequences *)

Lemma get_at (pre : list byte) x post i : i = zlen pre -> get (pre ++ x :: post) i = Some x.
Proof. intros ->. apply get_app_r. Qed.

Lemma skip_while_run fuel p pre run post :
  forallb p run = true -> match post with b :: _ => p b = false | [] => True end ->
  (length run < fuel)%nat ->
  skip_while fuel p (pre ++ run ++ post) (zlen pre) = zlen pre + zlen run.
Proof.
  revert pre run. induction fuel as [|fuel IH]; intros pre run Hr Hp Hf; [lia|]. cbn [skip_while].
  destruct run as [|b run]; cbn [app].
  - destruct post as [|b post].
    + unfold get. rewrite app_nil_r, Z.ltb_irrefl, andb_false_r. cbn. lia.
    + rewrite get_app_r, Hp. cbn. lia.
  - cbn [forallb] in Hr. apply andb_prop in Hr as [Hb Hr]. rewrite get_app_r, Hb.
    replace (zlen pre + 1) with (zlen (pre ++ [b])) by len_lia.
    change (pre ++ b :: run ++ post) with (pre ++ ([b] ++ run ++ post)). rewrite app_assoc.
    rewrite IH by (done || (cbn in Hf; lia)). len_lia.
Qed.

Lemma param_not_inter b : is_intermediate b = true -> is_param b = false.
Proof. unfold is_param, is_intermediate, byte_in. case_Z; done || lia. Qed.
Lemma final_not_param b : is_final b = true -> is_param b = false /\ is_intermediate b = false.
Proof. unfold is_param, is_intermediate, is_final, byte_in. case_Z; done || lia. Qed.

Lemma parse_csi_print pre ps is_ f post :
  wf_token (TCsi ps is_ f) = true ->
  parse_csi (pre ++ print1 (TCsi ps is_ f) ++ post) (zlen pre)
  = Some (mkCsi ps is_ f (zlen (pre ++ print1 (TCsi ps is_ f)))).
Proof.
  cbn [wf_token]. intros [[Hp Hi]%andb_prop Hf]%andb_prop. destruct (final_not_param f Hf) as [Fp Fi].
  set (pre2 := pre ++ [ESC; Byte.x5b]).
  assert (E : pre ++ print1 (TCsi ps is_ f) ++ post = pre2 ++ ps ++ is_ ++ f :: post).
  { subst pre2. cbn [print1]. by rewrite <- !app_assoc. }
  unfold parse_csi. rewrite E. replace (zlen pre + 2) with (zlen pre2) by (subst pre2; len_lia).
  set (n := length _). assert (Hn : (length ps < n)%nat /\ (length is_ < n)%nat)
    by (subst n; autorewrite with slop_len; cbn [length]; lia).
  rewrite skip_while_run; [|done| |lia].
  2: { destruct is_ as [|i is_]; cbn [app forallb] in *; [done|].
       apply andb_prop in Hi as [Hi _]. by apply param_not_inter. }
  assert (E2 : pre2 ++ ps ++ is_ ++ f :: post = (pre2 ++ ps) ++ is_ ++ f :: post)
    by (by rewrite <- app_assoc).
  rewrite E2. replace (zlen pre2 + zlen ps) with (zlen (pre2 ++ ps)) by len_lia.
  rewrite skip_while_run by (done || lia).
  replace (zlen (pre2 ++ ps) + zlen is_) with (zlen ((pre2 ++ ps) ++ is_)) by len_lia.
  rewrite (app_assoc (pre2 ++ ps) is_), get_app_r, Hf. cbn [negb].
  rewrite <- !app_assoc, (get_range_app pre2 ps), (app_assoc pre2 ps), (get_range_app (pre2 ++ ps) is_)
    by len_lia. subst pre2. do 2 f_equal. cbn [print1]. len_lia.
Qed.

Lemma string_end_body fuel bl pre body terminator post :
  body_ok bl body = true -> terminator_ok bl terminator = true -> (length body < fuel)%nat ->
  exists s, string_end_loop fuel (pre ++ body ++ terminator ++ post) (replay bl) (zlen pre) = Some s
  /\ (seq_end s = zlen (pre ++ body ++ terminator)
      \/ (seq_end s = zlen (pre ++ body) /\ (terminator = [CAN] \/ terminator = [SUB]))).
Proof.
  revert pre body. induction fuel as [|fuel IH]; intros pre body Hb Ht Hf; [lia|].
  cbn [string_end_loop].
  assert (Hc1 : c1_st (replay bl) = false) by by destruct bl.
  assert (Hbe : bare_esc (replay bl) = false) by by destruct bl.
  assert (Hbel : bel (replay bl) = bl) by by destruct bl. rewrite Hc1, Hbe, Hbel. cbn [andb].
  destruct body as [|b body]; cbn [app].
  - unfold terminator_ok in Ht. apply orb_prop in Ht as [Ht|Ht].
    + apply bool_decide_eq_true in Ht as [-> | [-> | ->]]; cbn [app]; rewrite get_app_r.
      * rewrite decide_False by (intros [?|?]; discriminate). rewrite bool_decide_eq_false_2 by done.
        rewrite andb_false_r. cbn [orb]. rewrite decide_True by done.
        replace (pre ++ ESC :: Byte.x5c :: post) with ((pre ++ [ESC]) ++ Byte.x5c :: post)
          by (by rewrite <- app_assoc).
        rewrite get_at by len_lia. rewrite decide_True by done.
        eexists; split; [done|]. left. cbn. len_lia.
      * rewrite decide_True by auto. eexists; split; [done|]. right. split; [cbn; len_lia|auto].
      * rewrite decide_True by auto. eexists; split; [done|]. right. split; [cbn; len_lia|auto].
    + apply andb_prop in Ht as [-> Ht%bool_decide_eq_true]. subst terminator. cbn [app].
      rewrite get_app_r. rewrite decide_False by (intros [?|?]; discriminate).
      rewrite bool_decide_eq_true_2 by done. cbn. eexists; split; [done|]. left. cbn. len_lia.
  - cbn [body_ok] in Hb. apply andb_prop in Hb as [[[H1 H2]%andb_prop H3]%andb_prop Hb].
    apply negb_true_iff in H1, H2, H3. apply bool_decide_eq_false in H1.
    rewrite get_app_r, decide_False by done. rewrite H2. cbn [orb].
    destruct (IH (pre ++ [b]) body Hb Ht ltac:(cbn in Hf; lia)) as (s & Es & Hs).
    autorewrite with slop_assoc in Es, Hs. cbn [app] in Es, Hs.
    replace (zlen (pre ++ [b])) with (zlen pre + 1) in Es by len_lia. rewrite Es.
    assert (Hg : b = ESC -> get (pre ++ b :: body ++ terminator ++ post) (zlen pre + 1) <> Some Byte.x5c).
    { intros ->. rewrite bool_decide_eq_true_2 in H3 by done. cbn [andb] in H3.
      apply bool_decide_eq_false in H3. unfold get. case_match; [|done].
      rewrite lookup_app_r by lia. replace (Z.to_nat _ - length pre)%nat with 1%nat by lia. cbn.
      destruct body as [|b' body]; cbn in *; [|done].
      unfold terminator_ok in Ht. apply orb_prop in Ht as [Ht|Ht].
      - apply bool_decide_eq_true in Ht as [-> | [-> | ->]]; done.
      - apply andb_prop in Ht as [_ Ht%bool_decide_eq_true]. by subst. }
    destruct (decide (b = ESC)) as [->|]; [|by eauto].
    rewrite decide_False by auto. by eauto.
Qed.

(** ** The scan runs the tokens *)

(** One token, started before the boundary. *)
Lemma scan_token fuel pre t post boundary st :
  wf_token t = true ->
  let bytes := pre ++ print1 t ++ post in
  boundary <= zlen bytes -> zlen pre < boundary -> boundary - zlen pre < Z.of_nat fuel ->
  scan fuel bytes boundary st (zlen pre)
  = scan fuel bytes boundary (effect st t) (zlen (pre ++ print1 t)).
Proof.
  intros Ht bytes Hb Hs Hf.
  destruct fuel as [|fuel]; [lia|]. cbn [scan]. destruct (Z.ltb_spec (zlen pre) boundary); [|lia].
  cbn [negb].
  assert (Hgo : forall st' i i', zlen pre < i -> i' = i -> 
    scan fuel bytes boundary st' i = scan (S fuel) bytes boundary st' i').
  { intros st' i i' Hi ->. apply scan_enough; lia. }
  destruct t as [b|b|ps is_ f|c body terminator].
  - (* a plain byte *)
    cbn [wf_token] in Ht. apply negb_true_iff, bool_decide_eq_false in Ht.
    subst bytes. cbn [print1 app]. rewrite get_app_r, bool_decide_eq_false_2 by congruence.
    cbn [negb orb]. apply Hgo; [lia|]. len_lia.
  - (* an escape pair *)
    cbn [wf_token] in Ht. apply andb_prop in Ht as [H1 H2].
    apply negb_true_iff, bool_decide_eq_false in H1, H2.
    subst bytes. cbn [print1 app]. rewrite get_app_r, bool_decide_eq_true_2 by done. cbn [negb orb].
    match goal with |- context [zlen ?l <=? _] => assert (zlen pre + 1 < zlen l) by len_lia end.
    destruct (Z.leb_spec (zlen (pre ++ ESC :: b :: post)) (zlen pre + 1)); [lia|].
    assert (Hg : get (pre ++ ESC :: b :: post) (zlen pre + 1) = Some b).
    { replace (pre ++ ESC :: b :: post) with ((pre ++ [ESC]) ++ b :: post) by (by rewrite <- app_assoc).
      apply get_at. len_lia. }
    rewrite Hg, decide_False by done.
    destruct (string_introducer b); [by destruct H2; eauto|].
    apply Hgo; [lia|]. len_lia.
  - (* a control sequence *)
    pose proof (parse_csi_print pre ps is_ f post Ht) as Hp.
    assert (Hg : get bytes (zlen pre) = Some ESC /\ get bytes (zlen pre + 1) = Some Byte.x5b).
    { subst bytes. cbn [print1 app]. rewrite get_app_r. split; [done|].
      match goal with |- context [pre ++ ESC :: ?l] =>
        replace (pre ++ ESC :: l) with ((pre ++ [ESC]) ++ l) by (by rewrite <- app_assoc) end.
      apply get_at. len_lia. }
    destruct Hg as [-> ->]. rewrite bool_decide_eq_true_2 by done. cbn [negb orb].
    destruct (Z.leb_spec (zlen bytes) (zlen pre + 1)) as [Hle|_].
    { subst bytes. cbn [print1] in Hle. len_lia. }
    rewrite decide_True by done. unfold bytes at 1. rewrite Hp. cbn [csi_end effect].
    apply Hgo; [cbn [print1]; len_lia|done].
  - (* a string *)
    cbn [wf_token] in Ht. destruct (string_introducer c) as [bl|] eqn:Ec; [|done].
    apply andb_prop in Ht as [Hbody Hterm].
    assert (Hc : c <> Byte.x5b) by (intros ->; done).
    assert (E : bytes = (pre ++ [ESC; c]) ++ body ++ terminator ++ post).
    { subst bytes. cbn [print1]. by autorewrite with slop_assoc. }
    assert (Hg : get bytes (zlen pre) = Some ESC /\ get bytes (zlen pre + 1) = Some c).
    { subst bytes. cbn [print1 app]. rewrite get_app_r. split; [done|].
      match goal with |- context [pre ++ ESC :: ?l] =>
        replace (pre ++ ESC :: l) with ((pre ++ [ESC]) ++ l) by (by rewrite <- app_assoc) end.
      apply get_at. len_lia. }
    destruct Hg as [-> ->]. rewrite bool_decide_eq_true_2 by done. cbn [negb orb].
    destruct (Z.leb_spec (zlen bytes) (zlen pre + 1)) as [Hle|_].
    { subst bytes. cbn [print1] in Hle. len_lia. }
    rewrite decide_False, Ec by done. unfold string_sequence_end.
    destruct (string_end_body (S (length bytes)) bl (pre ++ [ESC; c]) body terminator post Hbody Hterm)
      as (s & Es & Hs').
    { rewrite E. len_lia. }
    rewrite <- E in Es. replace (zlen (pre ++ [ESC; c])) with (zlen pre + 2) in Es by len_lia.
    rewrite Es. cbn [effect]. destruct Hs' as [Hs'|[Hs' Hterm']].
    + apply Hgo; [rewrite Hs'; len_lia|]. rewrite Hs'. cbn [print1]. by autorewrite with slop_assoc.
    + (* the aborting byte is a plain byte of the stream *)
      assert (Hx : exists x, terminator = [x] /\ x <> ESC).
      { destruct Hterm' as [-> | ->]; eexists; (split; [reflexivity|done]). }
      destruct Hx as (x & -> & Hx).
      assert (Es1 : seq_end s = zlen (pre ++ [ESC; c] ++ body)) by (rewrite Hs'; by autorewrite with slop_assoc).
      rewrite (Hgo st (seq_end s) (seq_end s)) by (rewrite ?Es1; len_lia || done). cbn [scan].
      assert (Hend : zlen (pre ++ print1 (TStr c body [x])) = seq_end s + 1)
        by (rewrite Es1; cbn [print1]; len_lia).
      rewrite Hend. destruct (Z.ltb_spec (seq_end s) boundary) as [Hlt|Hge]; cbn [negb].
      * assert (Hg : get bytes (seq_end s) = Some x).
        { replace bytes with ((pre ++ [ESC; c] ++ body) ++ x :: post)
            by (rewrite E; by autorewrite with slop_assoc). by apply get_at. }
        rewrite Hg, bool_decide_eq_false_2 by congruence. cbn [negb orb].
        apply Hgo; [rewrite Es1; len_lia|done].
      * destruct (Z.ltb_spec (seq_end s + 1) boundary); [lia|done].
Qed.

Lemma scan_past fuel bytes boundary st index : boundary <= index -> scan fuel bytes boundary st index = st.
Proof. intros H. destruct fuel; cbn [scan]; [done|]. by destruct (Z.ltb_spec index boundary); [lia|]. Qed.

Lemma print1_pos t : 0 < zlen (print1 t).
Proof. destruct t; cbn [print1]; len_lia. Qed.

(** The tokens, the last of which may straddle the boundary. *)
Lemma scan_tokens ts last fuel pre post boundary st :
  forallb wf_token ts = true ->
  match last with Some t => wf_token t = true | None => True end ->
  let tail := match last with Some t => print1 t | None => [] end in
  let bytes := pre ++ print ts ++ tail ++ post in
  zlen (pre ++ print ts) + (if last is Some _ then 1 else 0) <= boundary <= zlen (pre ++ print ts ++ tail) ->
  boundary - zlen pre < Z.of_nat fuel ->
  scan fuel bytes boundary st (zlen pre)
  = effects st (ts ++ match last with Some t => [t] | None => [] end).
Proof.
  intros Hts Hlast tail. revert pre st Hts. induction ts as [|t ts IH]; intros pre st Hts bytes Hb Hf.
  - cbn [print map concat app] in *. subst bytes. destruct last as [t|].
    + subst tail. rewrite app_nil_r in Hb.
      rewrite (scan_token fuel pre t post) by (done || (revert Hb; len_lia) || lia).
      rewrite scan_past by lia. done.
    + subst tail. cbn [app] in *. rewrite !app_nil_r in Hb. rewrite scan_past by lia. done.
  - cbn [forallb] in Hts. apply andb_prop in Hts as [Ht Hts].
    assert (E : bytes = (pre ++ print1 t) ++ print ts ++ tail ++ post).
    { subst bytes. unfold print. cbn [map concat]. by autorewrite with slop_assoc. }
    assert (Hb' : zlen ((pre ++ print1 t) ++ print ts) + (if last is Some _ then 1 else 0) <= boundary
                  <= zlen ((pre ++ print1 t) ++ print ts ++ tail)).
    { revert Hb. unfold print. cbn [map concat]. by autorewrite with slop_assoc. }
    pose proof (print1_pos t).
    rewrite E in *. rewrite <- (app_assoc pre).
    rewrite (scan_token fuel pre t (print ts ++ tail ++ post)); try done.
    + rewrite (app_assoc pre). rewrite IH; try done. revert Hf. len_lia.
    + revert Hb'. len_lia.
    + revert Hb'. destruct last; len_lia.
Qed.

(** The scanner's answer for a prefix of whole tokens and at most one straddler. *)
Lemma reopen_tokens ts last p1 p2 rest :
  forallb wf_token ts = true ->
  match last with
  | Some t => wf_token t = true /\ print1 t = p1 ++ p2 /\ p1 <> []
              /\ (length p2 <= STRADDLE_PEEK_BYTES)%nat
  | None => p1 = [] /\ p2 = []
  end ->
  reopen_sequence (print ts ++ p1) (p2 ++ rest)
  = opener (effects (false, 1049) (ts ++ match last with Some t => [t] | None => [] end)).
Proof.
  intros Hts Hlast. unfold reopen_sequence.
  set (tail := match last with Some t => print1 t | None => [] end).
  assert (Hp2 : (length p2 <= STRADDLE_PEEK_BYTES)%nat /\ tail = p1 ++ p2
    /\ match last with Some t => wf_token t = true | None => True end
    /\ (if last is Some _ then 1 else 0) <= zlen p1).
  { subst tail. destruct last as [t|].
    - destruct Hlast as (?&?&?&?). split_and!; try done. destruct p1; [done|len_lia].
    - destruct Hlast as [-> ->]. split_and!; try done. cbn. lia. }
  destruct Hp2 as (Hp2 & Et & Hw & Hp1).
  assert (E : (print ts ++ p1) ++ take STRADDLE_PEEK_BYTES (p2 ++ rest)
    = [] ++ print ts ++ tail ++ take (STRADDLE_PEEK_BYTES - length p2) rest).
  { rewrite take_app, (take_ge p2) by lia. rewrite Et. cbn [app]. by rewrite <- !app_assoc. }
  rewrite E. pose proof (scan_tokens ts last
    (S (length ([] ++ print ts ++ tail ++ take (STRADDLE_PEEK_BYTES - length p2) rest))) []
    (take (STRADDLE_PEEK_BYTES - length p2) rest) (zlen (print ts ++ p1)) (false, 1049) Hts Hw) as Hs.
  cbv zeta in Hs. fold tail in Hs. change (zlen []) with 0 in Hs. rewrite Hs.
  - unfold opener. by destruct (effects _ _).
  - rewrite Et. cbn [app]. split; [len_lia|len_lia].
  - rewrite Et. cbn [app]. len_lia.
Qed.

(** at a cut of a well-formed terminal stream the scanner answers the net alternate-screen state of
    everything dropped: the re-opener of the mode that last entered when the cut is inside a segment,
    nothing otherwise.  Bodies of strings, escape pairs and other control sequences never count, and a
    sequence the cut splits counts when its rest lies within the peeked bytes. *)
Theorem reopen_sequence_is_net_state ts last p1 p2 rest :
  forallb wf_token ts = true ->
  match last with
  | Some t => wf_token t = true /\ print1 t = p1 ++ p2 /\ p1 <> []
              /\ (length p2 <= STRADDLE_PEEK_BYTES)%nat
  | None => p1 = [] /\ p2 = []
  end ->
  reopen_sequence (print ts ++ p1) (p2 ++ rest)
  = opener (effects (false, 1049) (ts ++ match last with Some t => [t] | None => [] end)).
Proof. apply reopen_tokens. Qed.

Definition sample_stream : list token :=
  map TByte (text "ls") ++
  [TCsi (text "?25;1047") [] Byte.x68; TStr Byte.x5d (text "0;t" ++ esc "[?1047l") [BEL]].

Lemma reopen_sequence_is_net_state_witness :
  reopen_sequence (print sample_stream ++ esc "[?10") (text "47l$") = None.
Proof.
  change (text "47l$") with (text "47l" ++ text "$").
  rewrite (reopen_sequence_is_net_state sample_stream (Some (TCsi (text "?1047") [] Byte.x6c))
             (esc "[?10") (text "47l") (text "$")).
  - vm_compute. reflexivity.
  - vm_compute. reflexivity.
  - split_and!; [vm_compute; reflexivity|vm_compute; reflexivity|done|vm_compute; lia].
Defined.

(** ** The repair needs no carried state *)

(** A state's mode is one of the three, and its re-opener is one token that brings the state back. *)
Definition mode_ok (st : bool * Z) : Prop := st.2 ∈ ALT_MODES.

Lemma find_mode l mode : List.find (fun mode => bool_decide (mode ∈ ALT_MODES)) l = Some mode -> mode ∈ ALT_MODES.
Proof. intros H. apply List.find_some in H as [_ H]. by apply bool_decide_eq_true in H. Qed.

Lemma effect_mode_ok st t : mode_ok st -> mode_ok (effect st t).
Proof.
  intros H. destruct t as [| |ps is_ f|]; try done. cbn [effect]. unfold apply_csi.
  destruct (alt_transition_param _) as [mode|] eqn:E; [|done]. unfold mode_ok.
  cbn [snd]. destruct (bool_decide _); [|done]. unfold alt_transition_param in E.
  destruct (negb _); [done|]. destruct (intermediates _); [|done].
  destruct (params _) as [|m ms]; [done|]. destruct (decide (m = Byte.x3f)); [|done].
  by apply find_mode in E.
Qed.

Lemma effects_mode_ok st ts : mode_ok st -> mode_ok (effects st ts).
Proof. revert st. induction ts as [|t ts IH]; intros st H; [done|]. by apply IH, effect_mode_ok. Qed.

Definition decset_token (mode : Z) : token :=
  TCsi (Byte.x3f :: String.list_byte_of_string (pretty (Z.to_N mode))) [] Byte.x68.

Lemma decset_spec mode :
  mode ∈ ALT_MODES ->
  wf_token (decset_token mode) = true /\ print [decset_token mode] = decset mode
  /\ forall st, effect st (decset_token mode) = (true, mode).
Proof.
  intros Hm. unfold ALT_MODES in Hm. repeat (apply elem_of_cons in Hm as [-> | Hm]);
    [split_and!; [vm_compute; reflexivity..|intros []; vm_compute; reflexivity]..|].
  by apply elem_of_nil in Hm.
Qed.

(** Outside the alternate screen the remembered mode is never read. *)
Definition same_opener (a b : bool * Z) : Prop := a.1 = b.1 /\ (a.1 = true -> a.2 = b.2).

#[export] Instance same_opener_equivalence : Equivalence same_opener.
Proof.
  split.
  - by intros a.
  - intros a b [H1 H2]. split; [done|]. intros H. symmetry. apply H2. congruence.
  - intros a b c [H1 H2] [H3 H4]. split; [congruence|]. intros H. rewrite H2, H4; congruence.
Qed.

#[export] Instance effect_proper : Proper (same_opener ==> eq ==> same_opener) effect.
Proof.
  intros a b [H1 H2] t _ <-. destruct t as [| |ps is_ f|]; try by split. cbn [effect].
  unfold apply_csi. destruct (alt_transition_param _); [|by split]. split; cbn [fst snd]; [done|].
  by intros ->.
Qed.

#[export] Instance effects_proper : Proper (same_opener ==> eq ==> same_opener) effects.
Proof.
  intros a b H ts _ <-. revert a b H. induction ts as [|t ts IH]; intros a b H; [done|].
  apply IH. by apply effect_proper.
Qed.

#[export] Instance opener_proper : Proper (same_opener ==> eq) opener.
Proof.
  intros a b [H1 H2]. unfold opener. rewrite H1 in *. destruct b as [[] m]; cbn in *; [|done].
  by rewrite H2.
Qed.

(** the repair carries the state in the bytes.  When the evictor drops a prefix and puts the
    scanner's answer in front of what survives, the repaired stream has at every later cut the state
    the original stream had there: the next eviction's scan needs no memory of the first. *)
Theorem repaired_stream_keeps_state dropped survives kept kept' :
  forallb wf_token dropped = true -> forallb wf_token survives = true ->
  reopen_sequence (default [] (reopen_sequence (print dropped) kept) ++ print survives) kept'
  = reopen_sequence (print dropped ++ print survives) kept'.
Proof.
  intros Hd Hs.
  assert (Hw : forall ts k, forallb wf_token ts = true ->
    reopen_sequence (print ts) k = opener (effects (false, 1049) ts)).
  { intros ts k Ht. pose proof (reopen_tokens ts None [] [] k Ht (conj eq_refl eq_refl)) as H.
    by rewrite !app_nil_r in H. }
  rewrite (Hw dropped kept Hd).
  assert (Hok : mode_ok (effects (false, 1049) dropped)).
  { apply effects_mode_ok. unfold mode_ok, ALT_MODES. cbn. do 2 right; left. }
  set (st := effects (false, 1049) dropped) in *.
  assert (Hpre : exists ts, default [] (opener st) = print ts /\ forallb wf_token ts = true
    /\ same_opener (effects (false, 1049) ts) st).
  { unfold opener. destruct st as [[] m]; cbn [fst snd].
    - destruct (decset_spec m Hok) as (Hw1 & Hp & He). exists [decset_token m].
      split; [done|]. split; [cbn [forallb]; by rewrite Hw1|]. cbn [effects foldl]. by rewrite He.
    - exists []. done. }
  destruct Hpre as (ts & -> & Hts & Hst).
  assert (Hj : forall a b, print a ++ print b = print (a ++ b)).
  { intros a b. unfold print. by rewrite map_app, concat_app. }
  rewrite !Hj, !Hw by (by rewrite forallb_app, ?Hts, ?Hd, ?Hs).
  unfold effects. rewrite !foldl_app. fold (effects (false, 1049) ts).
  fold (effects (false, 1049) dropped). fold st. apply opener_proper.
  by apply (effects_proper _ _ Hst survives survives).
Qed.

Lemma repaired_stream_keeps_state_witness :
  let survives := map TByte (text "churn") ++ [TCsi (text "?1049") [] Byte.x6c] in
  reopen_sequence (default [] (reopen_sequence (print sample_stream) []) ++ print survives) []
  = reopen_sequence (print sample_stream ++ print survives) []
  /\ reopen_sequence (print sample_stream) [] = Some (esc "[?1047h").
Proof.
  split; [|vm_compute; reflexivity].
  apply repaired_stream_keeps_state; vm_compute; reflexivity.
Defined.

(** ** On any bytes at all *)

Lemma scan_mode_ok fuel bytes boundary st index :
  mode_ok st -> mode_ok (scan fuel bytes boundary st index).
Proof.
  revert st index. induction fuel as [|fuel IH]; intros st index H; cbn [scan]; [done|].
  destruct (negb _); [done|]. destruct (_ || _); [auto|].
  destruct (get bytes (index + 1)) as [c|]; [|auto]. destruct (decide (c = Byte.x5b)).
  - destruct (parse_csi bytes index) as [[ps is_ f fin]|]; [|auto].
    apply IH. exact (effect_mode_ok st (TCsi ps is_ f) H).
  - destruct (string_introducer c); [|auto]. destruct (string_sequence_end _ _ _); auto.
Qed.

(** Whatever was dropped, a re-opener is one of three sequences, at most eight bytes long. *)
Lemma reopen_short dropped kept o : reopen_sequence dropped kept = Some o -> 0 < zlen o <= 8.
Proof.
  unfold reopen_sequence. pose proof (scan_mode_ok (S (length (dropped ++ take STRADDLE_PEEK_BYTES kept)))
    (dropped ++ take STRADDLE_PEEK_BYTES kept) (zlen dropped) (false, 1049) 0) as Hok.
  destruct (scan _ _ _ _ _) as [alt mode]. destruct alt; [|done]. intros [= <-].
  assert (Hm : mode ∈ ALT_MODES) by (apply Hok; unfold mode_ok, ALT_MODES; do 2 right; left).
  unfold ALT_MODES in Hm. repeat (apply elem_of_cons in Hm as [-> | Hm]; [vm_compute; split; congruence|]).
  by apply elem_of_nil in Hm.
Qed.
