(* ===== verification/Replay.v ===== *)
(** * Replay: the host's output log, from which a reconnecting client is replayed

    Models [slopdesk-wire/src/replay.rs].  Sequence numbers and byte counts are exact integers: a
    pane never produces 2^63 payloads, and the byte counts are sums of lengths held in memory.  The
    scrollback distiller is code the host injects, so it is any function; the environment decides the
    frame cap, as in [Flow]. *)

From Stdlib Require Import Sorting.Sorted.
From S2P Require Import Prelude Bytes Message Flow AltScreen.

Inductive DrainState : Type := BufferedOnly | Skipped.

Record TailEntry : Type := mkTail { te_seq : Z; te_bytes : list byte; cumulative_before : Z }.
Record RingEntry : Type := mkRing { re_seq : Z; re_bytes : list byte }.

Record SnapshotSource : Type := mkSnapshotSource {
  history : list byte;
  replay_seqs : list Z;
  replay_bytes : Z;
}.

Record RingFoldSource : Type := mkRingFoldSource {
  fold_bytes : list byte;
  fold_seqs : list Z;
  generation : Z;
}.

Record ReplayBuffer : Type := mkReplay {
  entries : list TailEntry;
  scrollback_ring : list RingEntry;
  scrollback_bytes : Z;
  pending_alt_reopen : option (list byte);
  highest_seq : Z;
  acked_seq : Z;
  retained_bytes : Z;
  tail_cumulative_bytes : Z;
  is_client_online : bool;
  max_backup_bytes_cap : Z;
  offline_gate_bytes_cap : Z;
  scrollback_bytes_cap : Z;
  ring_generation : Z;
  scrollback_distiller : option (list byte -> list byte);
}.

Definition MAX_BACKUP_BYTES : Z := 256 * 1024 * 1024.
Definition OFFLINE_GATE_BYTES : Z := 64 * 1024 * 1024.
Definition DEFAULT_SCROLLBACK_BYTES : Z := 64 * 1024 * 1024.
Definition RECHUNK_FLOOR_BYTES : Z := 32 * 1024.

Definition with_caps (max_backup offline_gate scrollback : Z) : ReplayBuffer :=
  mkReplay [] [] 0 None 0 0 0 0 true max_backup offline_gate scrollback 0 None.
Definition replay_new : ReplayBuffer :=
  with_caps MAX_BACKUP_BYTES OFFLINE_GATE_BYTES DEFAULT_SCROLLBACK_BYTES.
Definition with_scrollback (scrollback : Z) : ReplayBuffer :=
  with_caps MAX_BACKUP_BYTES OFFLINE_GATE_BYTES scrollback.

(** Field updates: the acked side, and everything else of the buffer kept. *)
Definition with_ring (b : ReplayBuffer) (ring : list RingEntry) (n : Z) (reopen : option (list byte))
  : ReplayBuffer :=
  mkReplay (entries b) ring n reopen (highest_seq b) (acked_seq b) (retained_bytes b)
    (tail_cumulative_bytes b) (is_client_online b) (max_backup_bytes_cap b) (offline_gate_bytes_cap b)
    (scrollback_bytes_cap b) (ring_generation b) (scrollback_distiller b).
Definition with_tail (b : ReplayBuffer) (tail : list TailEntry) (retained cumulative : Z)
  : ReplayBuffer :=
  mkReplay tail (scrollback_ring b) (scrollback_bytes b) (pending_alt_reopen b) (highest_seq b)
    (acked_seq b) retained cumulative (is_client_online b) (max_backup_bytes_cap b)
    (offline_gate_bytes_cap b) (scrollback_bytes_cap b) (ring_generation b) (scrollback_distiller b).
Definition with_seqs (b : ReplayBuffer) (highest acked : Z) : ReplayBuffer :=
  mkReplay (entries b) (scrollback_ring b) (scrollback_bytes b) (pending_alt_reopen b) highest acked
    (retained_bytes b) (tail_cumulative_bytes b) (is_client_online b) (max_backup_bytes_cap b)
    (offline_gate_bytes_cap b) (scrollback_bytes_cap b) (ring_generation b) (scrollback_distiller b).
Definition next_generation (b : ReplayBuffer) : ReplayBuffer :=
  mkReplay (entries b) (scrollback_ring b) (scrollback_bytes b) (pending_alt_reopen b) (highest_seq b)
    (acked_seq b) (retained_bytes b) (tail_cumulative_bytes b) (is_client_online b)
    (max_backup_bytes_cap b) (offline_gate_bytes_cap b) (scrollback_bytes_cap b)
    (ring_generation b + 1) (scrollback_distiller b).

Definition set_client_online (b : ReplayBuffer) (online : bool) : ReplayBuffer :=
  mkReplay (entries b) (scrollback_ring b) (scrollback_bytes b) (pending_alt_reopen b) (highest_seq b)
    (acked_seq b) (retained_bytes b) (tail_cumulative_bytes b) online (max_backup_bytes_cap b)
    (offline_gate_bytes_cap b) (scrollback_bytes_cap b) (ring_generation b) (scrollback_distiller b).
Definition distilling (b : ReplayBuffer) (f : list byte -> list byte) : ReplayBuffer :=
  mkReplay (entries b) (scrollback_ring b) (scrollback_bytes b) (pending_alt_reopen b) (highest_seq b)
    (acked_seq b) (retained_bytes b) (tail_cumulative_bytes b) (is_client_online b)
    (max_backup_bytes_cap b) (offline_gate_bytes_cap b) (scrollback_bytes_cap b) (ring_generation b)
    (Some f).

(** ** Derived signals *)

Definition should_pause_drain (b : ReplayBuffer) : bool :=
  if max_backup_bytes_cap b <=? retained_bytes b then true
  else negb (is_client_online b) && (offline_gate_bytes_cap b <=? retained_bytes b).

Definition drain_state (b : ReplayBuffer) : DrainState :=
  if should_pause_drain b then Skipped else BufferedOnly.

(** ** Producing and releasing *)

Definition append (b : ReplayBuffer) (bytes : list byte) : Z * ReplayBuffer :=
  let seq := highest_seq b + 1 in
  (seq,
   with_tail (with_seqs b seq (acked_seq b))
     (entries b ++ [mkTail seq bytes (tail_cumulative_bytes b)])
     (retained_bytes b + zlen bytes) (tail_cumulative_bytes b + zlen bytes)).

(** [slice::partition_point] of a partitioned slice: how many elements lead that satisfy [p]. *)
Fixpoint partition_point {A} (p : A -> bool) (l : list A) : nat :=
  match l with
  | [] => O
  | x :: l => if p x then S (partition_point p l) else O
  end.

Definition retained_bytes_above (b : ReplayBuffer) (seq : Z) : Z :=
  let first_above := partition_point (fun e => te_seq e <=? seq) (entries b) in
  match entries b !! first_above with
  | Some e => tail_cumulative_bytes b - cumulative_before e
  | None => 0
  end.

Definition ring_total (l : list RingEntry) : Z := foldr (fun e n => zlen (re_bytes e) + n) 0 l.
Definition tail_total (l : list TailEntry) : Z := foldr (fun e n => zlen (te_bytes e) + n) 0 l.

Definition attach_pending_reopen (b : ReplayBuffer) : ReplayBuffer :=
  match scrollback_ring b, pending_alt_reopen b with
  | head :: rest, Some reopen =>
      with_ring b (mkRing (re_seq head) (reopen ++ re_bytes head) :: rest)
        (scrollback_bytes b + zlen reopen) None
  | _, _ => b
  end.

(** The counting loop of the eviction: the entries to drop, and their bytes. *)
Fixpoint evict_count (bytes cap : Z) (ring : list RingEntry) (dropped_bytes : Z) : nat * Z :=
  match ring with
  | [] => (O, dropped_bytes)
  | e :: ring =>
    if cap <? bytes - dropped_bytes then
      let '(n, d) := evict_count bytes cap ring (dropped_bytes + zlen (re_bytes e)) in (S n, d)
    else (O, dropped_bytes)
  end.

(** [iter().position(|b| b == b'\n')] *)
Fixpoint newline_position (l : list byte) : option nat :=
  match l with
  | [] => None
  | b :: l => if decide (b = Byte.x0a) then Some O else S <$> newline_position l
  end.

Definition ring_bytes (ring : list RingEntry) : list byte := concat (map re_bytes ring).

(** The front of the new oldest entry, up to its first newline, goes too. *)
Definition line_align (cap : Z) (ring : list RingEntry) (n : Z)
  : list byte * list RingEntry * Z :=
  if n <=? cap then
    match ring with
    | head :: rest =>
      match newline_position (re_bytes head) with
      | Some newline =>
        let removed := S newline in
        (take removed (re_bytes head), mkRing (re_seq head) (drop removed (re_bytes head)) :: rest,
         n - Z.of_nat removed)
      | None => ([], ring, n)
      end
    | [] => ([], ring, n)
    end
  else ([], ring, n).

Definition evict_scrollback_to_fit (b : ReplayBuffer) : ReplayBuffer :=
  if (scrollback_bytes b <=? scrollback_bytes_cap b)
     || match scrollback_ring b with [] => true | _ => false end then b else
  let '(drop_count, dropped_bytes) :=
    evict_count (scrollback_bytes b) (scrollback_bytes_cap b) (scrollback_ring b) 0 in
  let dropped := ring_bytes (take drop_count (scrollback_ring b)) in
  let ring := drop drop_count (scrollback_ring b) in
  let '(trimmed, ring, n) :=
    line_align (scrollback_bytes_cap b) ring (scrollback_bytes b - dropped_bytes) in
  let kept_head := match ring with head :: _ => re_bytes head | [] => [] end in
  match reopen_sequence (dropped ++ trimmed) kept_head with
  | None => with_ring b ring n (pending_alt_reopen b)
  | Some reopen => attach_pending_reopen (with_ring b ring n (Some reopen))
  end.

Definition ring_entry (e : TailEntry) : RingEntry := mkRing (te_seq e) (te_bytes e).

Definition ack (b : ReplayBuffer) (up_to : Z) : ReplayBuffer :=
  let clamped := Z.min up_to (highest_seq b) in
  if clamped <=? acked_seq b then b else
  let b := with_seqs b (highest_seq b) clamped in
  let drop_count := partition_point (fun e => te_seq e <=? clamped) (entries b) in
  match drop_count with
  | O => b
  | _ =>
    let b := next_generation b in
    let released := take drop_count (entries b) in
    let released_bytes := tail_total released in
    let b := with_tail b (drop drop_count (entries b)) (retained_bytes b) (tail_cumulative_bytes b) in
    let b :=
      if 0 <? scrollback_bytes_cap b then
        let ring_was_empty := match scrollback_ring b with [] => true | _ => false end in
        let b := with_ring b (scrollback_ring b ++ map ring_entry released)
                   (scrollback_bytes b + released_bytes) (pending_alt_reopen b) in
        let b := if ring_was_empty then attach_pending_reopen b else b in
        evict_scrollback_to_fit b
      else b in
    with_tail b (entries b) (retained_bytes b - released_bytes) (tail_cumulative_bytes b)
  end.

(** ** Reading back *)

Definition ring_pair (e : RingEntry) : Z * list byte := (re_seq e, re_bytes e).
Definition tail_pair (e : TailEntry) : Z * list byte := (te_seq e, te_bytes e).

Definition messages (b : ReplayBuffer) (last_received_seq : Z) : list (Z * list byte) :=
  map ring_pair (filter (fun e => last_received_seq < re_seq e) (scrollback_ring b))
  ++ map tail_pair (filter (fun e => last_received_seq < te_seq e) (entries b)).

Definition snapshot_source (b : ReplayBuffer) (last_received_seq : Z) : SnapshotSource :=
  foldl (fun source '(seq, bytes) =>
      let h := history source ++ bytes in
      if last_received_seq <? seq
      then mkSnapshotSource h (replay_seqs source ++ [seq]) (replay_bytes source + zlen bytes)
      else mkSnapshotSource h (replay_seqs source) (replay_bytes source))
    (mkSnapshotSource [] [] 0)
    (map ring_pair (scrollback_ring b) ++ map tail_pair (entries b)).

Definition output (p : Z * list byte) : WireMessage := Output p.1 p.2.

Section Rechunk.
Context (env : string -> option Z).

(** The chunking loop: [seqs] are the ones not used yet. *)
Fixpoint rechunk_loop (data : list byte) (chunk_size start : Z) (seqs : list Z)
  : list (Z * list byte) :=
  match seqs with
  | [] => []
  | seq :: rest =>
    if start <? zlen data then
      let e := match rest with
               | [] => zlen data
               | _ => Z.min (saturating_add_usize start chunk_size) (zlen data)
               end in
      (seq, default [] (get_range data start e)) :: rechunk_loop data chunk_size e rest
    else []
  end.

(** The label of the last chunk. *)
Definition relabel_last (seq : Z) (l : list (Z * list byte)) : list (Z * list byte) :=
  match last l with
  | Some p => removelast l ++ [(seq, p.2)]
  | None => l
  end.

(** [usize::div_ceil] *)
Definition div_ceil (a b : Z) : Z := (a + b - 1) / b.

(** [usize::try_from(max_output_frame_payload_bytes()).unwrap_or(usize::MAX)] *)
Definition payload_cap : Z :=
  let v := MuxFlowControl.max_output_frame_payload_bytes env in if v <? 0 then usize_max else v.

Definition chunk_size_for (len max_chunks : Z) : Z :=
  Z.max 1 (Z.min payload_cap (Z.max RECHUNK_FLOOR_BYTES (div_ceil len max_chunks))).

Definition rechunk (data : list byte) (seqs : list Z) (must_cover_last_seq : bool)
  : list (Z * list byte) :=
  match last seqs with
  | None => []
  | Some last_seq =>
    match data with
    | [] => if must_cover_last_seq then [(last_seq, [])] else []
    | _ =>
      let chunks := rechunk_loop data (chunk_size_for (zlen data) (zlen seqs)) 0 seqs in
      if must_cover_last_seq then relabel_last last_seq chunks else chunks
    end
  end.

Definition rechunk_snapshot (data : list byte) (seqs : list Z) : list WireMessage :=
  map output (rechunk data seqs true).

Definition replay (b : ReplayBuffer) (last_received_seq : Z) : list WireMessage :=
  let scrollback := filter (fun e => last_received_seq < re_seq e) (scrollback_ring b) in
  let tail := map (fun e => output (tail_pair e))
                (filter (fun e => last_received_seq < te_seq e) (entries b)) in
  match scrollback_distiller b with
  | Some distiller =>
    if (last_received_seq =? 0) && match entries b with [] => false | _ => true end then
      let raw := ring_bytes scrollback ++ concat (map te_bytes (entries b)) in
      let seqs := map re_seq scrollback ++ map te_seq (entries b) in
      map output (rechunk (distiller raw) seqs true)
    else match scrollback with
    | [] => tail
    | _ => map output (rechunk (distiller (ring_bytes scrollback)) (map re_seq scrollback) false) ++ tail
    end
  | None => map (fun e => output (ring_pair e)) scrollback ++ tail
  end.

(** ** History canonicalisation *)

Definition ring_fold_source (b : ReplayBuffer) : option RingFoldSource :=
  match scrollback_ring b with
  | [] => None
  | ring => Some (mkRingFoldSource (ring_bytes ring) (map re_seq ring) (ring_generation b))
  end.

Definition adopt_folded_ring (b : ReplayBuffer) (rendered : list byte) (source : RingFoldSource)
  : bool * ReplayBuffer :=
  if negb (generation source =? ring_generation b) then (false, b) else
  (true,
   with_ring (next_generation b)
     (map (fun p => mkRing p.1 p.2) (rechunk rendered (fold_seqs source) true))
     (zlen rendered) None).

(** One message of the adopted stream, onto (ring, ring bytes, tail, tail bytes). *)
Definition adopt_one (b : ReplayBuffer) (acc : list RingEntry * Z * list TailEntry * Z)
    (message : WireMessage) : list RingEntry * Z * list TailEntry * Z :=
  let '(ring, ring_n, tail, tail_n) := acc in
  match message with
  | Output seq bytes =>
    if seq <=? acked_seq b then
      if 0 <? scrollback_bytes_cap b
      then (ring ++ [mkRing seq bytes], ring_n + zlen bytes, tail, tail_n)
      else acc
    else (ring, ring_n, tail ++ [mkTail seq bytes (tail_cumulative_bytes b + tail_n)],
          tail_n + zlen bytes)
  | _ => acc
  end.

Definition adopt_snapshot_replay (b : ReplayBuffer) (messages : list WireMessage) : ReplayBuffer :=
  let b := next_generation b in
  let '(ring, ring_n, tail, tail_n) := foldl (adopt_one b) ([], 0, [], 0) messages in
  let b := with_ring b ring ring_n None in
  evict_scrollback_to_fit (with_tail b tail tail_n (tail_cumulative_bytes b + tail_n)).
End Rechunk.

Example far_future_ack_is_clamped :
  let b := (append (append replay_new [Byte.x61]).2 [Byte.x62]).2 in
  let b := ack b i64_max in
  let b := (append b [Byte.x63]).2 in
  (acked_seq b, messages b 2, messages b 0)
  = (2, [(3, [Byte.x63])], [(1, [Byte.x61]); (2, [Byte.x62]); (3, [Byte.x63])]).
Proof. vm_compute. reflexivity. Qed.

(** ** Totals and the partition point *)

Lemma ring_total_app a b : ring_total (a ++ b) = ring_total a + ring_total b.
Proof. unfold ring_total. induction a as [|e a IH]; cbn [app foldr]; [lia|]. rewrite IH. lia. Qed.
Lemma tail_total_app a b : tail_total (a ++ b) = tail_total a + tail_total b.
Proof. unfold tail_total. induction a as [|e a IH]; cbn [app foldr]; [lia|]. rewrite IH. lia. Qed.
Lemma ring_total_nonneg l : 0 <= ring_total l.
Proof. unfold ring_total. induction l; cbn [foldr]; lia. Qed.
Lemma tail_total_nonneg l : 0 <= tail_total l.
Proof. unfold tail_total. induction l; cbn [foldr]; lia. Qed.
Lemma ring_total_bytes l : ring_total l = zlen (ring_bytes l).
Proof.
  unfold ring_total, ring_bytes. induction l as [|e l IH]; [done|]. cbn [foldr map concat].
  rewrite IH. len_lia.
Qed.
Lemma ring_total_map l : ring_total (map ring_entry l) = tail_total l.
Proof. induction l as [|e l IH]; [done|]. cbn. unfold ring_total, tail_total in *. lia. Qed.

Lemma ring_bytes_app a b : ring_bytes (a ++ b) = ring_bytes a ++ ring_bytes b.
Proof. unfold ring_bytes. by rewrite map_app, concat_app. Qed.

Definition ascending (l : list Z) : Prop := StronglySorted Z.lt l.

Lemma ascending_app a b :
  ascending (a ++ b) <-> ascending a /\ ascending b /\ forall x y, x ∈ a -> y ∈ b -> x < y.
Proof.
  unfold ascending. induction a as [|x a IH]; cbn [app].
  - split; [|by intros (_ & ? & _)]. intros H. split_and!; [constructor|done|].
    by intros ? ? ?%elem_of_nil.
  - split.
    + intros H. apply StronglySorted_inv in H as [H Hx]. apply IH in H as (Ha & Hb & Hab).
      rewrite Forall_app in Hx. destruct Hx as [Hxa Hxb]. split_and!; [by constructor|done|].
      intros y z [->|Hy]%elem_of_cons Hz; [|auto]. rewrite Forall_forall in Hxb. auto.
    + intros (Ha & Hb & Hab). apply StronglySorted_inv in Ha as [Ha Hx]. constructor.
      * apply IH. split_and!; [done|done|]. intros; apply Hab; [by right|done].
      * apply Forall_app. split; [done|]. apply Forall_forall. intros y Hy. apply Hab; [left|done].
Qed.

Lemma ascending_snoc l x : ascending l -> (forall y, y ∈ l -> y < x) -> ascending (l ++ [x]).
Proof.
  intros Hl Hx. apply ascending_app. split_and!; [done|repeat constructor|].
  intros y z Hy [->|Hz]%elem_of_cons; [auto|by apply elem_of_nil in Hz].
Qed.

(** On an ascending list the partition point splits it into what is at most [c] and what is above. *)
Lemma partition_point_split {A} (key : A -> Z) (l : list A) c :
  ascending (map key l) ->
  let n := partition_point (fun e => key e <=? c) l in
  take n l = filter (fun e => key e <= c) l /\ drop n l = filter (fun e => c < key e) l.
Proof.
  unfold ascending. induction l as [|x l IH]; cbn [map partition_point]; [done|].
  intros H. apply StronglySorted_inv in H as [H Hx]. specialize (IH H). cbv zeta in *.
  destruct (Z.leb_spec (key x) c).
  - cbn [take drop]. rewrite filter_cons_True, filter_cons_False by lia. destruct IH as [-> ->]. done.
  - cbn [take drop]. rewrite filter_cons_False, filter_cons_True by lia. split.
    + symmetry. apply filter_none. intros y Hy. rewrite Forall_map, Forall_forall in Hx.
      specialize (Hx y Hy). cbn in Hx. lia.
    + f_equal. symmetry. apply filter_all. intros y Hy. rewrite Forall_map, Forall_forall in Hx.
      specialize (Hx y Hy). cbn in Hx. lia.
Qed.

(** ** Eviction *)

Lemma evict_count_spec bytes cap ring d :
  let r := evict_count bytes cap ring d in
  r.2 = d + ring_total (take r.1 ring) /\ (r.1 <= length ring)%nat
  /\ (bytes - r.2 <= cap \/ r.1 = length ring).
Proof.
  revert d. induction ring as [|e ring IH]; intros d; cbn [evict_count].
  - cbn. split_and!; [lia|lia|by right].
  - destruct (Z.ltb_spec cap (bytes - d)).
    + specialize (IH (d + zlen (re_bytes e))). cbv zeta in IH.
      destruct (evict_count bytes cap ring (d + zlen (re_bytes e))) as [n x]. cbn [fst snd] in *.
      destruct IH as (-> & Hn & Hor). cbn [take length]. split_and!; [|lia|].
      * cbn [ring_total foldr]. fold (ring_total (take n ring)). lia.
      * destruct Hor; [left; lia|right; lia].
    + cbn [fst snd take]. split_and!; [cbn; lia|lia|left; lia].
Qed.

Lemma newline_position_bound l n : newline_position l = Some n -> (n < length l)%nat.
Proof.
  revert n. induction l as [|b l IH]; intros n; cbn [newline_position]; [done|].
  destruct (decide (b = Byte.x0a)); [intros [= <-]; cbn; lia|].
  destruct (newline_position l) as [m|]; [|done]. cbn. intros [= <-]. specialize (IH m eq_refl). lia.
Qed.

Lemma line_align_spec cap ring n :
  n = ring_total ring ->
  let r := line_align cap ring n in
  r.1.1 ++ ring_bytes r.1.2 = ring_bytes ring
  /\ map re_seq r.1.2 = map re_seq ring
  /\ r.2 = ring_total r.1.2 /\ r.2 <= n.
Proof.
  intros Hn. unfold line_align. destruct (n <=? cap); [|by split_and!; cbn; try lia].
  destruct ring as [|head rest]; [by split_and!; cbn; try lia|].
  destruct (newline_position (re_bytes head)) as [p|] eqn:Ep; [|by split_and!; cbn [fst snd]; try lia].
  apply newline_position_bound in Ep. cbn [fst snd ring_bytes map concat re_bytes re_seq].
  split_and!; [by rewrite app_assoc, take_drop|done| |lia].
  subst n. cbn [ring_total foldr re_bytes]. rewrite length_drop. lia.
Qed.

(** What an eviction leaves: a suffix of what was there, with a short repair in front of it, or, when
    nothing is left, the repair held for the next bytes that enter. *)
Definition evicted_from (ring : list RingEntry) (b' : ReplayBuffer) : Prop :=
  exists dropped kept o,
    ring_bytes ring = dropped ++ kept
    /\ ring_bytes (scrollback_ring b') = o ++ kept
    /\ map re_seq (scrollback_ring b') `suffix_of` map re_seq ring
    /\ (o = [] \/ exists peek, reopen_sequence dropped peek = Some o)
    /\ (pending_alt_reopen b' = None \/ scrollback_ring b' = []).

(** An eviction touches the acked side only. *)
Lemma evict_fields b : exists ring n o, evict_scrollback_to_fit b = with_ring b ring n o.
Proof.
  assert (Hself : b = with_ring b (scrollback_ring b) (scrollback_bytes b) (pending_alt_reopen b))
    by by destruct b.
  unfold evict_scrollback_to_fit. destruct (_ || _); [eauto|].
  destruct (evict_count _ _ _ _) as [n d]. destruct (line_align _ _ _) as [[trimmed ring] m].
  destruct (reopen_sequence _ _) as [o|]; [|eauto].
  unfold attach_pending_reopen. cbn [scrollback_ring pending_alt_reopen with_ring].
  destruct ring; eauto.
Qed.

Lemma attach_fields b : exists ring n o, attach_pending_reopen b = with_ring b ring n o.
Proof.
  assert (Hself : b = with_ring b (scrollback_ring b) (scrollback_bytes b) (pending_alt_reopen b))
    by by destruct b.
  unfold attach_pending_reopen. destruct (scrollback_ring b), (pending_alt_reopen b); eauto.
Qed.

(** The acked side's own invariant. *)
Record ring_inv (b : ReplayBuffer) : Prop := {
  ri_sorted : ascending (map re_seq (scrollback_ring b));
  ri_range : forall s, s ∈ map re_seq (scrollback_ring b) -> s <= acked_seq b;
  ri_bytes : scrollback_bytes b = ring_total (scrollback_ring b);
  ri_pending : pending_alt_reopen b = None \/ scrollback_ring b = [];
  ri_opener : forall o, pending_alt_reopen b = Some o -> zlen o <= 8;
  ri_caps : 0 <= scrollback_bytes_cap b;
}.

Lemma ascending_suffix a l : ascending l -> a `suffix_of` l -> ascending a.
Proof. intros Hl [p ->]. by apply ascending_app in Hl as (_ & ? & _). Qed.

Lemma evict_spec b :
  ring_inv b ->
  let b' := evict_scrollback_to_fit b in
  ring_inv b' /\ scrollback_bytes b' <= scrollback_bytes_cap b + 8
  /\ (scrollback_bytes b <= scrollback_bytes_cap b -> b' = b)
  /\ evicted_from (scrollback_ring b) b'.
Proof.
  intros Hinv. pose proof Hinv as [Hs Hr Hb Hp Ho Hc]. cbv zeta. unfold evict_scrollback_to_fit.
  assert (Hsame : scrollback_bytes b <= scrollback_bytes_cap b + 8 ->
    ring_inv b /\ scrollback_bytes b <= scrollback_bytes_cap b + 8
    /\ (scrollback_bytes b <= scrollback_bytes_cap b -> b = b) /\ evicted_from (scrollback_ring b) b).
  { intros. split_and!; try done. exists [], (ring_bytes (scrollback_ring b)), []. split_and!; auto. }
  destruct (Z.leb_spec (scrollback_bytes b) (scrollback_bytes_cap b)) as [Hle|Hgt];
    cbn [orb]; [apply Hsame; lia|].
  destruct (scrollback_ring b) as [|e0 rest0] eqn:Ering.
  { cbn in Hb. lia. }
  rewrite <- Ering in *. clear Hsame.
  pose proof (evict_count_spec (scrollback_bytes b) (scrollback_bytes_cap b) (scrollback_ring b) 0) as He.
  destruct (evict_count _ _ _ _) as [n d]. cbv zeta in He. cbn [fst snd] in He.
  destruct He as (Ed & Hn & Hor).
  set (ring1 := drop n (scrollback_ring b)).
  assert (Htot : scrollback_bytes b - d = ring_total ring1).
  { rewrite Hb, Ed. subst ring1. rewrite <- (take_drop n (scrollback_ring b)) at 1.
    rewrite ring_total_app. lia. }
  assert (Hcap : scrollback_bytes b - d <= scrollback_bytes_cap b).
  { destruct Hor as [?| ->]; [done|]. rewrite Htot. subst ring1. by rewrite drop_ge by lia. }
  pose proof (line_align_spec (scrollback_bytes_cap b) ring1 (scrollback_bytes b - d) Htot) as Hl.
  destruct (line_align _ _ _) as [[trimmed ring2] m]. cbv zeta in Hl. cbn [fst snd] in Hl.
  destruct Hl as (Hl1 & Hl2 & Hl3 & Hl4).
  assert (Hsuf : map re_seq ring2 `suffix_of` map re_seq (scrollback_ring b)).
  { rewrite Hl2. subst ring1. exists (map re_seq (take n (scrollback_ring b))).
    by rewrite <- map_app, take_drop. }
  assert (Hsplit : ring_bytes (scrollback_ring b)
                   = (ring_bytes (take n (scrollback_ring b)) ++ trimmed) ++ ring_bytes ring2).
  { rewrite <- app_assoc, Hl1. subst ring1. by rewrite <- ring_bytes_app, take_drop. }
  assert (Hin : forall s, s ∈ map re_seq ring2 -> s <= acked_seq b).
  { intros s Hin. apply Hr. destruct Hsuf as [p ->]. apply elem_of_app. by right. }
  pose proof (ascending_suffix _ _ Hs Hsuf) as Hasc.
  assert (Hempty : pending_alt_reopen b = None).
  { destruct Hp as [?|Hp]; [done|]. rewrite Hp in Ering. done. }
  set (dropped := ring_bytes (take n (scrollback_ring b)) ++ trimmed) in *.
  destruct (reopen_sequence dropped _) as [o|] eqn:Er.
  - pose proof (reopen_short _ _ _ Er) as Hshort. unfold attach_pending_reopen.
    cbn [scrollback_ring pending_alt_reopen with_ring].
    destruct ring2 as [|h2 rest2].
    + split_and!; try lia; try done.
      * split; cbn; try done; [by right|]. intros ? [= <-]. lia.
      * cbn. cbn in Hl3. lia.
      * exists dropped, [], []. by split_and!; auto.
    + split_and!; try lia; try done.
      * split; cbn [scrollback_ring scrollback_bytes pending_alt_reopen acked_seq with_ring
          scrollback_bytes_cap]; try done; [|by left].
        rewrite Hl3. cbn [ring_total foldr re_bytes]. len_lia.
      * cbn [scrollback_bytes with_ring]. lia.
      * exists dropped, (ring_bytes (h2 :: rest2)), o.
        split_and!; auto; cbn [scrollback_ring with_ring ring_bytes map concat re_bytes re_seq];
          [by rewrite <- app_assoc|right; eauto].
  - split_and!; try lia; try done.
    + split; cbn [scrollback_ring scrollback_bytes pending_alt_reopen acked_seq with_ring
          scrollback_bytes_cap]; try done. by left.
    + cbn [scrollback_bytes with_ring]. lia.
    + exists dropped, (ring_bytes ring2), []. by split_and!; auto.
Qed.

(** ** The whole buffer's invariant *)

(** Every label is the running total less what lies from the entry on. *)
Fixpoint labels_ok (total : Z) (l : list TailEntry) : Prop :=
  match l with
  | [] => True
  | e :: rest => cumulative_before e = total - tail_total l /\ labels_ok total rest
  end.

Record tail_inv (b : ReplayBuffer) : Prop := {
  tv_sorted : ascending (map te_seq (entries b));
  tv_range : forall s, s ∈ map te_seq (entries b) -> acked_seq b < s <= highest_seq b;
  tv_retained : retained_bytes b = tail_total (entries b);
  tv_labels : labels_ok (tail_cumulative_bytes b) (entries b);
  tv_acked : 0 <= acked_seq b <= highest_seq b;
}.

Definition replay_inv (b : ReplayBuffer) : Prop :=
  tail_inv b /\ ring_inv b /\ scrollback_bytes b <= scrollback_bytes_cap b + 8.

Lemma replay_inv_new m o s : 0 <= s -> replay_inv (with_caps m o s).
Proof.
  assert (Hn : ascending []) by apply SSorted_nil.
  intros Hs. split_and!; [split|split|]; cbn; try done; try lia; [| |by left];
    by intros ? ?%elem_of_nil.
Qed.

Lemma labels_snoc total l e :
  labels_ok total l -> cumulative_before e = total ->
  labels_ok (total + zlen (te_bytes e)) (l ++ [e]).
Proof.
  intros Hl He. induction l as [|x l IH]; cbn [app labels_ok] in *.
  - split; [|done]. cbn. lia.
  - destruct Hl as [Hx Hl]. split; [|by apply IH].
    change (x :: l ++ [e]) with ((x :: l) ++ [e]). rewrite tail_total_app, Hx. cbn. lia.
Qed.

Lemma labels_drop total l n : labels_ok total l -> labels_ok total (drop n l).
Proof.
  revert l. induction n as [|n IH]; intros l Hl; [done|]. destruct l as [|x l]; [done|].
  cbn [drop]. apply IH. by destruct Hl.
Qed.

Lemma append_inv b bytes : replay_inv b -> replay_inv (append b bytes).2.
Proof.
  intros ([Hs Hr Ht Hl Ha] & [Rs Rr Rb Rp Ro Rc] & Hcap). split_and!; [split|split|]; cbn; try done.
  - rewrite map_app. apply ascending_snoc; [done|]. cbn. intros y Hy. apply Hr in Hy. lia.
  - intros s. rewrite map_app. intros [Hin|[->|[]%elem_of_nil]%elem_of_cons]%elem_of_app;
      [apply Hr in Hin|]; cbn [te_seq] in *; lia.
  - rewrite tail_total_app, Ht. cbn. lia.
  - apply (labels_snoc (tail_cumulative_bytes b) (entries b)
             (mkTail (highest_seq b + 1) bytes (tail_cumulative_bytes b))); done.
  - lia.
Qed.

(** The tail after an acknowledgement, whatever becomes of the ring. *)
Lemma ack_fields b up_to :
  tail_inv b ->
  let clamped := Z.min up_to (highest_seq b) in
  let acked := Z.max (acked_seq b) clamped in
  let b' := ack b up_to in
  acked_seq b' = acked /\ highest_seq b' = highest_seq b
  /\ entries b' = filter (fun e => acked < te_seq e) (entries b)
  /\ retained_bytes b' = tail_total (entries b')
  /\ tail_cumulative_bytes b' = tail_cumulative_bytes b
  /\ scrollback_bytes_cap b' = scrollback_bytes_cap b
  /\ exists n, entries b' = drop n (entries b).
Proof.
  intros [Hs Hr Ht Hl Ha]. cbv zeta. unfold ack.
  set (clamped := Z.min up_to (highest_seq b)).
  destruct (Z.leb_spec clamped (acked_seq b)) as [Hle|Hgt].
  - assert (Hf : filter (fun e => Z.max (acked_seq b) clamped < te_seq e) (entries b) = entries b).
    { apply filter_all. intros e He. assert (te_seq e ∈ map te_seq (entries b)) as Hin%Hr
        by (apply list_elem_of_fmap; eauto). lia. }
    split_and!; try lia; try done. by exists O.
  - rewrite Z.max_r by lia. cbn [entries with_seqs].
    destruct (partition_point_split te_seq (entries b) clamped Hs) as [Htk Hdr]. cbv zeta in *.
    set (n := partition_point _ _) in *.
    destruct n as [|n'] eqn:En.
    + cbn [drop] in Hdr. rewrite <- Hdr. split_and!; try done. by exists O.
    + rewrite <- En in *. clear En.
      set (b0 := next_generation _). set (b1 := with_tail b0 _ _ _).
      match goal with |- context [with_tail (if 0 <? scrollback_bytes_cap b1 then ?x else _)] =>
        assert (Hf : exists ring m o, (if 0 <? scrollback_bytes_cap b1 then x else b1)
                                      = with_ring b1 ring m o) end.
      { destruct (0 <? _); [|by exists (scrollback_ring b1), (scrollback_bytes b1), (pending_alt_reopen b1); destruct b1].
        match goal with |- context [evict_scrollback_to_fit ?y] =>
          assert (Hy : exists ring m o, y = with_ring b1 ring m o) end.
        { destruct (match scrollback_ring b1 with [] => true | _ => false end).
          - match goal with |- context [attach_pending_reopen ?y] =>
              destruct (attach_fields y) as (? & ? & ? & ->) end.
            by eexists _, _, _.
          - by eexists _, _, _. }
        destruct Hy as (? & ? & ? & ->).
        match goal with |- context [evict_scrollback_to_fit ?y] =>
          destruct (evict_fields y) as (? & ? & ? & ->) end. by eexists _, _, _. }
      destruct Hf as (ring & m & o & ->).
      cbn [b1 b0 acked_seq highest_seq entries retained_bytes tail_cumulative_bytes
        scrollback_bytes_cap with_tail with_ring with_seqs next_generation].
      split_and!; try done; [|by exists n].
      rewrite Ht. rewrite <- (take_drop n (entries b)) at 1. rewrite tail_total_app. lia.
Qed.

Lemma ack_tail_inv b up_to : tail_inv b -> tail_inv (ack b up_to).
Proof.
  intros Hinv. destruct (ack_fields b up_to Hinv) as (E1 & E2 & E3 & E4 & E5 & _ & n & E6).
  cbv zeta in *. destruct Hinv as [Hs Hr Ht Hl Ha]. split.
  - rewrite E6. rewrite <- (take_drop n (entries b)), map_app in Hs.
    by apply ascending_app in Hs as (_ & ? & _).
  - intros s Hin. rewrite E1, E2. rewrite E3 in Hin.
    apply list_elem_of_fmap in Hin as (e & -> & [Hlt Hin]%list_elem_of_filter).
    assert (te_seq e ∈ map te_seq (entries b)) as Hin'%Hr by (apply list_elem_of_fmap; eauto). lia.
  - done.
  - rewrite E5, E6. by apply labels_drop.
  - rewrite E1, E2. lia.
Qed.

(** The re-opener carried across an emptied ring attaches to the first bytes that enter. *)
Lemma attach_inv b :
  ascending (map re_seq (scrollback_ring b)) ->
  (forall s, s ∈ map re_seq (scrollback_ring b) -> s <= acked_seq b) ->
  scrollback_bytes b = ring_total (scrollback_ring b) -> 0 <= scrollback_bytes_cap b ->
  scrollback_ring b <> [] -> ring_inv (attach_pending_reopen b).
Proof.
  intros Hs Hr Hb Hc Hne. unfold attach_pending_reopen.
  destruct (scrollback_ring b) as [|h rest] eqn:E; [done|].
  destruct (pending_alt_reopen b) as [o|] eqn:Eo.
  - split; cbn [scrollback_ring scrollback_bytes pending_alt_reopen acked_seq scrollback_bytes_cap
      with_ring map re_seq] in *; try done; [|by left].
    rewrite Hb. cbn [ring_total foldr re_bytes]. len_lia.
  - split; rewrite ?E, ?Eo; try done. by left.
Qed.

Lemma released_below b c :
  tail_inv b -> let n := partition_point (fun e => te_seq e <=? c) (entries b) in
  forall e, e ∈ take n (entries b) -> acked_seq b < te_seq e <= c.
Proof.
  intros [Hs Hr _ _ _] n e He.
  destruct (partition_point_split te_seq (entries b) c Hs) as [Htk _]. cbv zeta in Htk. fold n in Htk.
  rewrite Htk in He. apply list_elem_of_filter in He as [Hle Hin].
  assert (te_seq e ∈ map te_seq (entries b)) as Hin'%Hr by (apply list_elem_of_fmap; eauto). lia.
Qed.

Lemma ack_ring_inv b up_to :
  replay_inv b -> ring_inv (ack b up_to)
                  /\ scrollback_bytes (ack b up_to) <= scrollback_bytes_cap (ack b up_to) + 8.
Proof.
  intros (Htail & Hring & Hcap). pose proof Htail as [Hs Hr Ht Hl Ha].
  pose proof Hring as [Rs Rr Rb Rp Ro Rc]. unfold ack.
  set (clamped := Z.min up_to (highest_seq b)).
  destruct (Z.leb_spec clamped (acked_seq b)) as [Hle|Hgt]; [done|].
  assert (Hnone : ring_inv (with_seqs b (highest_seq b) clamped)).
  { split; try done. cbn. intros s Hin. apply Rr in Hin. lia. }
  cbn [entries with_seqs].
  pose proof (released_below b clamped Htail) as Hrel. cbv zeta in Hrel.
  set (n := partition_point _ _) in *.
  assert (Hnz : n <> O -> take n (entries b) <> []).
  { subst n. destruct (entries b) as [|e l]; cbn; [done|]. by destruct (te_seq e <=? clamped). }
  destruct n as [|n'] eqn:En; [done|]. rewrite <- En in *. specialize (Hnz ltac:(lia)). clear En n'.
  set (b0 := next_generation _). set (b1 := with_tail b0 _ _ _).
  cbn [entries b0 next_generation with_seqs]. set (released := take n (entries b)) in *.
  change (scrollback_bytes_cap b1) with (scrollback_bytes_cap b).
  destruct (Z.ltb_spec 0 (scrollback_bytes_cap b)) as [Hpos|Hz]; [|split; [destruct Hnone; by split|exact Hcap]].
  set (b2 := with_ring b1 _ _ _).
  assert (H2 : ascending (map re_seq (scrollback_ring b2))
    /\ (forall s, s ∈ map re_seq (scrollback_ring b2) -> s <= acked_seq b2)
    /\ scrollback_bytes b2 = ring_total (scrollback_ring b2)).
  { assert (Em : map re_seq (map ring_entry released) = map te_seq released) by (rewrite map_map; done).
    cbn [b2 b1 b0 scrollback_ring scrollback_bytes acked_seq with_ring with_tail next_generation with_seqs].
    rewrite map_app, Em. split_and!.
    - apply ascending_app. split_and!; [done| |].
      + subst released. rewrite <- (take_drop n (entries b)), map_app in Hs.
        by apply ascending_app in Hs as (? & _).
      + intros x y Hx (e & -> & He)%list_elem_of_fmap. apply Rr in Hx. apply Hrel in He. lia.
    - intros s [Hx|(e & -> & He)%list_elem_of_fmap]%elem_of_app; [apply Rr in Hx|apply Hrel in He]; lia.
    - by rewrite ring_total_app, ring_total_map, Rb. }
  destruct H2 as (Hs2 & Hr2 & Hb2).
  assert (Hne : scrollback_ring b2 <> []).
  { cbn. intros [_ E]%app_eq_nil. apply Hnz. by apply map_eq_nil in E. }
  match goal with |- context [evict_scrollback_to_fit ?y] => assert (Hy : ring_inv y) end.
  { destruct (scrollback_ring b1) as [|h rest] eqn:E1.
    - by apply attach_inv.
    - split; try done. destruct Rp as [Rp|Rp]; [left; exact Rp|]. cbn in E1. congruence. }
  destruct (evict_spec _ Hy) as (Hi & Hc & _).
  assert (Hcapy : forall y : ReplayBuffer, scrollback_bytes_cap (evict_scrollback_to_fit y)
                                           = scrollback_bytes_cap y).
  { intros y. by destruct (evict_fields y) as (? & ? & ? & ->). }
  cbn [scrollback_bytes scrollback_bytes_cap with_tail]. rewrite Hcapy. split; [|exact Hc].
  destruct Hi. by split.
Qed.

Lemma ack_inv b up_to : replay_inv b -> replay_inv (ack b up_to).
Proof. intros H. split; [apply ack_tail_inv, H|by apply ack_ring_inv]. Qed.

(** ** Reading the lag *)

Lemma above_spec total l seq :
  ascending (map te_seq l) -> labels_ok total l ->
  (match l !! partition_point (fun e => te_seq e <=? seq) l with
   | Some e => total - cumulative_before e | None => 0 end)
  = tail_total (filter (fun e => seq < te_seq e) l).
Proof.
  intros Hs Hl. destruct (partition_point_split te_seq l seq Hs) as [_ <-]. cbv zeta.
  set (n := partition_point _ _). clearbody n. revert n. induction l as [|e l IH]; intros n; [by rewrite drop_nil|].
  destruct Hl as [He Hl]. destruct n as [|n]; cbn [lookup list_lookup drop].
  - rewrite He. lia.
  - apply IH; [|done]. cbn in Hs. by apply StronglySorted_inv in Hs as [? _].
Qed.

(** ** Re-chunking *)

Lemma get_range_pieces {A} (l : list A) a b :
  0 <= a <= b -> b <= zlen l ->
  default [] (get_range l a b) ++ drop (Z.to_nat b) l = drop (Z.to_nat a) l
  /\ zlen (default [] (get_range l a b)) = b - a.
Proof.
  intros Hab Hb. rewrite get_range_Some by lia. cbn [default from_option Datatypes.id].
  split.
  - rewrite <- (take_drop (Z.to_nat (b - a)) (drop (Z.to_nat a) l)) at 2. f_equal.
    rewrite drop_drop. f_equal. lia.
  - rewrite length_take, length_drop. lia.
Qed.

Lemma rechunk_loop_spec data chunk start seqs :
  1 <= chunk -> 0 <= start <= zlen data -> zlen data <= usize_max -> seqs <> [] ->
  let r := rechunk_loop data chunk start seqs in
  concat (map snd r) = drop (Z.to_nat start) data
  /\ (exists k, map fst r = take k seqs)
  /\ (start < zlen data -> r <> [])
  /\ (zlen data - start <= chunk * zlen seqs -> Forall (fun p => zlen p.2 <= chunk) r).
Proof.
  intros Hc. revert start. induction seqs as [|seq rest IH]; intros start Hs Hmax Hne; [done|].
  cbn [rechunk_loop]. destruct (Z.ltb_spec start (zlen data)) as [Hlt|Hge].
  2: { cbv zeta. rewrite drop_ge by lia. split_and!; [done|by exists O|lia|constructor]. }
  destruct rest as [|seq2 rest].
  - cbn [rechunk_loop map concat app fst snd]. cbv zeta.
    destruct (get_range_pieces data start (zlen data)) as [Hp Hl]; [lia..|].
    rewrite Nat2Z.id, drop_all, app_nil_r in Hp. split_and!.
    + by rewrite app_nil_r.
    + by exists 1%nat.
    + done.
    + intros Hfit. repeat constructor. cbn [snd]. cbn [length] in Hfit. lia.
  - set (e := Z.min (saturating_add_usize start chunk) (zlen data)).
    assert (He : e = Z.min (start + chunk) (zlen data)) by (unfold e, saturating_add_usize; lia).
    destruct (get_range_pieces data start e) as [Hp Hl]; [lia..|].
    destruct (IH e ltac:(lia) Hmax ltac:(done)) as (Ec & [k Ek] & _ & Hfit).
    cbv zeta in *. cbn [map concat fst snd]. split_and!.
    + by rewrite Ec.
    + exists (S k). by rewrite Ek.
    + done.
    + intros Hf. constructor; [cbn [snd]; lia|]. apply Hfit. revert Hf. cbn [length].
      destruct (Z.le_ge_cases (start + chunk) (zlen data)); nia.
Qed.

Lemma relabel_last_spec s r :
  r <> [] ->
  map snd (relabel_last s r) = map snd r
  /\ last (map fst (relabel_last s r)) = Some s
  /\ map fst (relabel_last s r) = removelast (map fst r) ++ [s].
Proof.
  intros Hne. destruct (exists_last Hne) as (l & p & ->). unfold relabel_last.
  rewrite last_snoc, removelast_last, !map_app. cbn [map fst snd].
  rewrite last_snoc, removelast_last. by split_and!.
Qed.

Lemma payload_cap_pos env : 1 <= payload_cap env.
Proof. unfold payload_cap. pose proof (output_cap_positive env). case_Z; unfold usize_max; lia. Qed.

Lemma div_ceil_le a b c : 0 < b -> a <= b * c -> div_ceil a b <= c.
Proof. intros Hb H. unfold div_ceil. apply Z.lt_succ_r, Z.div_lt_upper_bound; lia. Qed.
Lemma div_ceil_ge a b : 0 < b -> a <= b * div_ceil a b.
Proof.
  intros Hb. unfold div_ceil. pose proof (Z.mod_pos_bound (a + b - 1) b Hb).
  pose proof (Z.div_mod (a + b - 1) b ltac:(lia)). lia.
Qed.

(** The chunks cover the data within the frame cap whenever the data fits the budget at all. *)
Lemma chunk_size_enough env len n :
  0 < n -> len <= n * payload_cap env ->
  1 <= chunk_size_for env len n <= payload_cap env /\ len <= chunk_size_for env len n * n.
Proof.
  intros Hn Hfit. unfold chunk_size_for. pose proof (payload_cap_pos env).
  pose proof (div_ceil_le len n (payload_cap env) Hn Hfit). pose proof (div_ceil_ge len n Hn).
  split; [lia|]. destruct (Z.le_ge_cases (payload_cap env) (Z.max RECHUNK_FLOOR_BYTES (div_ceil len n))); nia.
Qed.

Lemma rechunk_facts env data seqs cover :
  ascending seqs -> zlen data <= usize_max -> seqs <> [] ->
  let r := rechunk env data seqs cover in
  concat (map snd r) = data
  /\ ascending (map fst r) /\ (forall s, s ∈ map fst r -> s ∈ seqs)
  /\ (cover = true -> last (map fst r) = last seqs)
  /\ (zlen data <= zlen seqs * payload_cap env -> Forall (fun p => zlen p.2 <= payload_cap env) r).
Proof.
  intros Hs Hmax Hne. pose proof (payload_cap_pos env) as Hcap. cbv zeta. unfold rechunk.
  destruct (exists_last Hne) as (init & last_seq & Eseqs). rewrite Eseqs, last_snoc.
  assert (Hlast : last_seq ∈ seqs) by (rewrite Eseqs; apply elem_of_app; right; left).
  assert (Hone : ascending [last_seq]) by (repeat constructor).
  destruct data as [|b data0].
  - destruct cover; cbn [map concat fst snd app last].
    + split_and!; try done; [intros s [->|[]%elem_of_nil]%elem_of_cons; congruence|].
      intros _. repeat constructor. cbn. lia.
    + split_and!; try done; [apply SSorted_nil|by intros s ?%elem_of_nil].
  - set (data := b :: data0) in *. rewrite <- Eseqs.
    assert (Hlen : 0 < zlen seqs) by (destruct seqs; [done|]; cbn; lia).
    set (cs := chunk_size_for env (zlen data) (zlen seqs)).
    assert (Hcs : 1 <= cs) by (unfold cs, chunk_size_for; lia).
    destruct (rechunk_loop_spec data cs 0 seqs Hcs ltac:(lia) Hmax Hne) as (Ec & [k Ek] & Hr & Hfit).
    cbv zeta in *. cbn [Z.to_nat drop] in Ec. specialize (Hr ltac:(subst data; cbn; lia)).
    set (r := rechunk_loop data cs 0 seqs) in *.
    assert (Hasc : ascending (map fst r)).
    { rewrite Ek. rewrite <- (take_drop k seqs) in Hs. by apply ascending_app in Hs as (? & _). }
    assert (Hin : forall s, s ∈ map fst r -> s ∈ seqs).
    { intros s. rewrite Ek. intros Hin. rewrite <- (take_drop k seqs). apply elem_of_app. by left. }
    assert (Hsz : zlen data <= zlen seqs * payload_cap env ->
                  Forall (fun p => zlen p.2 <= payload_cap env) r).
    { intros Hf. pose proof (chunk_size_enough env (zlen data) (zlen seqs) Hlen Hf) as He.
      fold cs in He. destruct He as [[_ Hle] Hcov].
      eapply Forall_impl; [apply Hfit; lia|]. cbv beta. lia. }
    destruct cover; [|by split_and!].
    destruct (relabel_last_spec last_seq r Hr) as (R1 & R2 & R3). split_and!.
    + by rewrite R1.
    + rewrite R3. assert (Hne' : map fst r <> []) by (by destruct r).
      destruct (exists_last Hne') as (fi & fl & Ef). rewrite Ef in *. rewrite removelast_last.
      apply ascending_app in Hasc as (Ha & _ & Hb). apply ascending_snoc; [done|].
      intros y Hy. specialize (Hb y fl Hy ltac:(left)).
      assert (Hfl : fl ∈ init ++ [last_seq]) by (rewrite <- Eseqs; apply Hin, elem_of_app; right; left).
      rewrite Eseqs in Hs. apply ascending_app in Hs as (_ & _ & Hs).
      apply elem_of_app in Hfl as [Hfl|[->|[]%elem_of_nil]%elem_of_cons]; [|done].
      specialize (Hs fl last_seq Hfl ltac:(left)). lia.
    + intros s. rewrite R3. intros [Hs'|[->|[]%elem_of_nil]%elem_of_cons]%elem_of_app; [|done].
      apply Hin. assert (Hne' : map fst r <> []) by (by destruct r).
      destruct (exists_last Hne') as (fi & fl & Ef). rewrite Ef, removelast_last in *.
      apply elem_of_app. by left.
    + intros _. exact R2.
    + intros Hf. specialize (Hsz Hf). rewrite Forall_forall in *. intros p Hp.
      assert (Hp2 : p.2 ∈ map snd r) by (rewrite <- R1; apply list_elem_of_fmap; eauto).
      apply list_elem_of_fmap in Hp2 as (q & Eq & Hq). rewrite Eq. auto.
Qed.

(** ** The log the buffer promises *)

(** What was produced, and how much of it the client has confirmed. *)
Record Log : Type := mkLog { produced : list (list byte); confirmed : Z }.

(** What a session does to its buffer.  A fold renders a capture taken earlier, outside the lock. *)
Inductive replay_op : Type :=
| RAppend (bytes : list byte)
| RAck (up_to : Z)
| ROnline (online : bool)
| RCapture
| RFold (rendered : list byte)
| RAdopt (rendered : list byte) (last_received_seq : Z).

(** Adopting a snapshot rewrites the history; everything else keeps it. *)
Definition keeps_history (op : replay_op) : Prop := match op with RAdopt _ _ => False | _ => True end.

Definition log_apply (l : Log) (op : replay_op) : Log :=
  match op with
  | RAppend bytes => mkLog (produced l ++ [bytes]) (confirmed l)
  | RAck up_to => mkLog (produced l) (Z.max (confirmed l) (Z.min up_to (zlen (produced l))))
  | _ => l
  end.

(** The payloads after the first [k], each with its sequence number. *)
Fixpoint number (k : Z) (l : list (list byte)) : list (Z * list byte) :=
  match l with [] => [] | p :: l => (k + 1, p) :: number (k + 1) l end.
Definition numbered_from (l : Log) (k : Z) : list (Z * list byte) :=
  number k (drop (Z.to_nat k) (produced l)).

Lemma number_app k a b : number k (a ++ b) = number k a ++ number (k + zlen a) b.
Proof.
  revert k. induction a as [|x a IH]; intros k; cbn [app number].
  - f_equal. cbn. lia.
  - rewrite IH. cbn [app length]. do 2 f_equal. f_equal. lia.
Qed.

Lemma filter_number k n l :
  filter (fun p => n < p.1) (number k l) = number (Z.max k n) (drop (Z.to_nat (n - k)) l).
Proof.
  revert k. induction l as [|x l IH]; intros k; cbn [number]; [by rewrite drop_nil|].
  destruct (Z.ltb_spec n (k + 1)).
  - rewrite filter_cons_True by (cbn; lia). replace (Z.to_nat (n - k)) with O by lia.
    cbn [drop number]. rewrite IH. replace (Z.to_nat (n - (k + 1))) with O by lia. cbn [drop].
    rewrite !Z.max_l by lia. done.
  - rewrite filter_cons_False by (cbn; lia). rewrite IH.
    replace (Z.to_nat (n - k)) with (S (Z.to_nat (n - (k + 1)))) by lia. cbn [drop].
    f_equal. lia.
Qed.

Lemma map_filter_pair l n :
  map tail_pair (filter (fun e => n < te_seq e) l) = filter (fun p => n < p.1) (map tail_pair l).
Proof.
  induction l as [|e l IH]; [done|]. cbn [map].
  destruct (decide (n < te_seq e)).
  - rewrite !filter_cons_True by done. cbn [map]. by rewrite IH.
  - rewrite !filter_cons_False by done. done.
Qed.

Section Ops.
Context (env : string -> option Z).

(** The buffer, and the capture in flight. *)
Record Session : Type := mkSession { buf : ReplayBuffer; captured : option RingFoldSource }.

Definition replay_apply (x : Session) (op : replay_op) : Session :=
  match op with
  | RAppend bytes => mkSession (append (buf x) bytes).2 (captured x)
  | RAck up_to => mkSession (ack (buf x) up_to) (captured x)
  | ROnline online => mkSession (set_client_online (buf x) online) (captured x)
  | RCapture => mkSession (buf x) (ring_fold_source (buf x))
  | RFold rendered =>
    match captured x with
    | Some source => mkSession (adopt_folded_ring env (buf x) rendered source).2 (captured x)
    | None => x
    end
  | RAdopt rendered last_received_seq =>
    mkSession
      (adopt_snapshot_replay (buf x)
         (rechunk_snapshot env rendered (replay_seqs (snapshot_source (buf x) last_received_seq))))
      (captured x)
  end.

(** What is rendered fits in memory, and a fold renders no more than it captured. *)
Definition op_fits (x : Session) (op : replay_op) : Prop :=
  match op with
  | RFold rendered => zlen rendered <= usize_max
      /\ forall source, captured x = Some source -> zlen rendered <= zlen (fold_bytes source)
  | RAdopt rendered _ => zlen rendered <= usize_max
  | _ => True
  end.

(** A capture whose generation is current is of the ring as it is. *)
Definition capture_ok (x : Session) : Prop :=
  forall source, captured x = Some source ->
    generation source <= ring_generation (buf x)
    /\ (generation source = ring_generation (buf x) ->
        fold_seqs source = map re_seq (scrollback_ring (buf x))
        /\ fold_bytes source = ring_bytes (scrollback_ring (buf x))
        /\ scrollback_ring (buf x) <> []).

Definition session_inv (x : Session) : Prop := replay_inv (buf x) /\ capture_ok x.

(** The ring changes only with its generation. *)
Definition ring_step (b b' : ReplayBuffer) : Prop :=
  ring_generation b <= ring_generation b'
  /\ (ring_generation b' = ring_generation b -> scrollback_ring b' = scrollback_ring b).

Lemma capture_step x b' : capture_ok x -> ring_step (buf x) b' -> capture_ok (mkSession b' (captured x)).
Proof.
  intros Hc [Hg Hr] source E. cbn [captured buf] in *. destruct (Hc source E) as [Hle Heq].
  split; [lia|]. intros Hgen. rewrite Hr by lia. apply Heq. lia.
Qed.

Lemma evict_generation b : ring_generation (evict_scrollback_to_fit b) = ring_generation b.
Proof. by destruct (evict_fields b) as (? & ? & ? & ->). Qed.
Lemma attach_generation b : ring_generation (attach_pending_reopen b) = ring_generation b.
Proof. by destruct (attach_fields b) as (? & ? & ? & ->). Qed.

Lemma ack_ring_step b up_to : ring_step b (ack b up_to).
Proof.
  unfold ack. destruct (_ <=? _); [by split|]. set (n := partition_point _ _).
  destruct n as [|n]; [by split|]. split; [|intros E; exfalso; revert E];
    cbn [ring_generation with_tail]; (destruct (0 <? _);
      [rewrite evict_generation; destruct (scrollback_ring _); rewrite ?attach_generation|]);
    cbn [ring_generation with_tail with_ring next_generation with_seqs]; lia.
Qed.

(** *** Adopting a fold *)

Lemma adopt_folded_inv x rendered :
  session_inv x -> op_fits x (RFold rendered) -> session_inv (replay_apply x (RFold rendered)).
Proof.
  intros [Hinv Hcap] [Hmax Hfit]. cbn [replay_apply].
  destruct (captured x) as [source|] eqn:Es; [|done]. unfold adopt_folded_ring.
  destruct (Hcap source Es) as [Hle Heq]. specialize (Hfit source eq_refl).
  destruct (Z.eqb_spec (generation source) (ring_generation (buf x))) as [Hg|Hg]; cbn [negb snd].
  2: { split; [done|]. by intros ? [= <-]. }
  destruct (Heq Hg) as (Eseqs & Ebytes & Hne).
  destruct Hinv as ([Hs Hr Ht Hl Ha] & [Rs Rr Rb Rp Ro Rc] & Hb).
  assert (Hnes : fold_seqs source <> []) by (rewrite Eseqs; by destruct (scrollback_ring (buf x))).
  assert (Hasc : ascending (fold_seqs source)) by (by rewrite Eseqs).
  destruct (rechunk_facts env rendered (fold_seqs source) true Hasc Hmax Hnes) as (Fc & Fa & Fi & _).
  assert (Em : map re_seq (map (fun p => mkRing p.1 p.2) (rechunk env rendered (fold_seqs source) true))
               = map fst (rechunk env rendered (fold_seqs source) true)) by (rewrite map_map; done).
  split; [split_and!; [split|split|]|]; cbn [buf entries scrollback_ring scrollback_bytes acked_seq
    highest_seq retained_bytes tail_cumulative_bytes pending_alt_reopen scrollback_bytes_cap with_ring
    next_generation]; try done.
  - by rewrite Em.
  - intros s. rewrite Em. intros Hin%Fi. rewrite Eseqs in Hin. auto.
  - rewrite ring_total_bytes. unfold ring_bytes. rewrite map_map. cbn [re_bytes].
    change (map (fun p : Z * list byte => p.2)) with (map (snd (A := Z) (B := list byte))). by rewrite Fc.
  - by left.
  - rewrite Ebytes, <- ring_total_bytes, <- Rb in Hfit. lia.
  - intros source' [= <-]. cbn [captured buf ring_generation with_ring next_generation] in *.
    split; lia.
Qed.

(** *** Adopting a snapshot *)

Lemma snapshot_seqs b last_received :
  replay_seqs (snapshot_source b last_received)
  = filter (fun s => last_received < s) (map re_seq (scrollback_ring b) ++ map te_seq (entries b)).
Proof.
  unfold snapshot_source. set (l := map ring_pair _ ++ map tail_pair _).
  assert (El : map re_seq (scrollback_ring b) ++ map te_seq (entries b) = map fst l).
  { subst l. rewrite map_app, !map_map. done. }
  rewrite El. clearbody l. clear El.
  assert (H : forall src, replay_seqs (foldl (fun source '(seq, bytes) =>
      if last_received <? seq
      then mkSnapshotSource (history source ++ bytes) (replay_seqs source ++ [seq]) (replay_bytes source + zlen bytes)
      else mkSnapshotSource (history source ++ bytes) (replay_seqs source) (replay_bytes source)) src l)
    = replay_seqs src ++ filter (fun s => last_received < s) (map fst l)).
  { induction l as [|[s p] l IH]; intros src; cbn [foldl map fst]; [by rewrite app_nil_r|].
    rewrite IH. destruct (Z.ltb_spec last_received s).
    - rewrite filter_cons_True by done. cbn [replay_seqs]. by rewrite <- app_assoc.
    - by rewrite filter_cons_False by lia. }
  apply (H (mkSnapshotSource [] [] 0)).
Qed.

Lemma ascending_filter (P : Z -> Prop) `{!forall x, Decision (P x)} l : ascending l -> ascending (filter P l).
Proof.
  unfold ascending. induction l as [|x l IH]; intros Hl; [constructor|].
  apply StronglySorted_inv in Hl as [Hl Hx]. rewrite filter_cons. destruct (decide (P x)); [|auto].
  constructor; [auto|]. rewrite Forall_forall in *. intros y Hy. apply list_elem_of_filter in Hy as [_ Hy]. auto.
Qed.

(** What the adoption loop has built so far. *)
Record adopting (b : ReplayBuffer) (bound : Z) (acc : list RingEntry * Z * list TailEntry * Z) : Prop := {
  ad_ring : ascending (map re_seq acc.1.1.1);
  ad_ring_range : forall s, s ∈ map re_seq acc.1.1.1 -> s <= acked_seq b /\ s < bound;
  ad_ring_bytes : acc.1.1.2 = ring_total acc.1.1.1;
  ad_tail : ascending (map te_seq acc.1.2);
  ad_tail_range : forall s, s ∈ map te_seq acc.1.2 -> acked_seq b < s <= highest_seq b /\ s < bound;
  ad_tail_bytes : acc.2 = tail_total acc.1.2;
  ad_labels : labels_ok (tail_cumulative_bytes b + acc.2) acc.1.2;
}.

Lemma adopting_one b bound acc p :
  adopting b bound acc -> bound <= p.1 <= highest_seq b ->
  adopting b (p.1 + 1) (adopt_one b acc (output p)).
Proof.
  destruct acc as [[[ring rn] tail] tn], p as [s x]. intros [A1 A2 A3 A4 A5 A6 A7] Hs.
  cbn [fst snd] in *. unfold adopt_one, output. cbn [fst snd].
  assert (Hweak : adopting b (s + 1) (ring, rn, tail, tn)).
  { split; cbn [fst snd]; try done; intros y Hy; [apply A2 in Hy|apply A5 in Hy]; lia. }
  destruct (Z.leb_spec s (acked_seq b)).
  - destruct (0 <? scrollback_bytes_cap b); [|done]. destruct Hweak. split; cbn [fst snd] in *; try done.
    + rewrite map_app. apply ascending_snoc; [done|]. intros y Hy. apply A2 in Hy. cbn. lia.
    + intros y. rewrite map_app. intros [Hy|[->|[]%elem_of_nil]%elem_of_cons]%elem_of_app;
        [apply A2 in Hy|]; cbn [re_seq]; lia.
    + rewrite ring_total_app, A3. cbn. lia.
  - destruct Hweak. split; cbn [fst snd] in *; try done.
    + rewrite map_app. apply ascending_snoc; [done|]. intros y Hy. apply A5 in Hy. cbn. lia.
    + intros y. rewrite map_app. intros [Hy|[->|[]%elem_of_nil]%elem_of_cons]%elem_of_app;
        [apply A5 in Hy|]; cbn [te_seq]; lia.
    + rewrite tail_total_app, A6. cbn. lia.
    + rewrite Z.add_assoc. by apply (labels_snoc (tail_cumulative_bytes b + tn) tail (mkTail s x _)).
Qed.

Lemma adopting_all b bound acc ps :
  adopting b bound acc -> ascending (map fst ps) ->
  (forall s, s ∈ map fst ps -> bound <= s <= highest_seq b) ->
  exists bound', adopting b bound' (foldl (adopt_one b) acc (map output ps)).
Proof.
  revert bound acc. induction ps as [|p ps IH]; intros bound acc Ha Hs Hr; [by exists bound|].
  cbn [map foldl] in *. apply StronglySorted_inv in Hs as [Hs Hp].
  apply (IH (p.1 + 1)); [|done|].
  - apply (adopting_one b bound); [done|]. apply Hr. left.
  - intros s Hin. rewrite Forall_forall in Hp. specialize (Hp s Hin).
    specialize (Hr s ltac:(by right)). lia.
Qed.

Lemma adopt_snapshot_inv b ps :
  replay_inv b -> ascending (map fst ps) -> (forall s, s ∈ map fst ps -> s <= highest_seq b) ->
  replay_inv (adopt_snapshot_replay b (map output ps))
  /\ ring_generation (adopt_snapshot_replay b (map output ps)) = ring_generation b + 1.
Proof.
  intros ([Hs Hr Ht Hl Ha] & [Rs Rr Rb Rp Ro Rc] & Hb) Hps Hrange. unfold adopt_snapshot_replay.
  set (b1 := next_generation b).
  assert (Hlow : exists low, forall s, s ∈ map fst ps -> low <= s <= highest_seq b1).
  { destruct (map fst ps) as [|s0 rest] eqn:E; [exists 0; by intros s ?%elem_of_nil|].
    exists s0. intros s Hin. split; [|by apply Hrange].
    apply StronglySorted_inv in Hps as [_ Hp]. rewrite Forall_forall in Hp.
    apply elem_of_cons in Hin as [->|Hin]; [lia|]. specialize (Hp s Hin). lia. }
  destruct Hlow as [low Hlow].
  destruct (adopting_all b1 low ([], 0, [], 0) ps) as [bound Had]; [|done..|].
  { split; cbn; try done; try apply SSorted_nil; by intros ? ?%elem_of_nil. }
  destruct (foldl (adopt_one b1) ([], 0, [], 0) (map output ps)) as [[[ring rn] tail] tn].
  destruct Had as [A1 A2 A3 A4 A5 A6 A7]. cbn [fst snd] in *.
  set (b2 := with_tail (with_ring b1 ring rn None) tail tn _).
  assert (Hring : ring_inv b2).
  { split; cbn [b2 b1 scrollback_ring scrollback_bytes pending_alt_reopen acked_seq scrollback_bytes_cap
      with_tail with_ring next_generation] in *; try done; [|by left]. intros s Hin. by apply A2. }
  destruct (evict_spec b2 Hring) as (Hi & Hcap & _).
  destruct (evict_fields b2) as (ring' & n' & o' & Ee). split.
  - split_and!; [|exact Hi|].
    + rewrite Ee. split; cbn [b2 b1 entries acked_seq highest_seq retained_bytes tail_cumulative_bytes
        with_tail with_ring next_generation] in *; try done. intros s Hin. by apply A5.
    + rewrite Ee in Hcap |- *. exact Hcap.
  - by rewrite Ee.
Qed.

Lemma messages_seqs_ascending b :
  tail_inv b -> ring_inv b ->
  ascending (map re_seq (scrollback_ring b) ++ map te_seq (entries b))
  /\ forall s, s ∈ map re_seq (scrollback_ring b) ++ map te_seq (entries b) -> s <= highest_seq b.
Proof.
  intros [Hs Hr Ht Hl Ha] [Rs Rr Rb Rp Ro Rc]. split.
  - apply ascending_app. split_and!; [done|done|]. intros x y Hx%Rr Hy%Hr. lia.
  - intros s [Hx%Rr|Hy%Hr]%elem_of_app; lia.
Qed.

Lemma replay_apply_inv x op : session_inv x -> op_fits x op -> session_inv (replay_apply x op).
Proof.
  intros Hx Hop. pose proof Hx as [Hinv Hcap]. destruct op as [bytes|up_to|online| |rendered|rendered last].
  - split; [by apply append_inv|]. by apply capture_step.
  - split; [by apply ack_inv|]. apply capture_step; [done|]. apply ack_ring_step.
  - split; [|by apply capture_step]. destruct Hinv as ([] & [] & ?). by split_and!; [split|split|].
  - split; [done|]. intros source E. cbn [replay_apply captured buf] in *.
    unfold ring_fold_source in E. destruct (scrollback_ring (buf x)) as [|e l]; [done|].
    injection E as <-. cbn [generation fold_seqs fold_bytes]. split; [lia|]. done.
  - by apply adopt_folded_inv.
  - cbn [replay_apply op_fits] in *. destruct Hinv as (Ht & Hr & Hb).
    destruct (messages_seqs_ascending (buf x) Ht Hr) as [Hasc Hle].
    pose proof (snapshot_seqs (buf x) last) as Es. set (seqs := replay_seqs _) in *.
    assert (Hsa : ascending seqs) by (rewrite Es; by apply ascending_filter).
    assert (Hsl : forall s, s ∈ seqs -> s <= highest_seq (buf x)).
    { intros s. rewrite Es. intros [_ Hin]%list_elem_of_filter. auto. }
    assert (Hps : ascending (map fst (rechunk env rendered seqs true))
      /\ forall s, s ∈ map fst (rechunk env rendered seqs true) -> s <= highest_seq (buf x)).
    { destruct (decide (seqs = [])) as [->|Hne].
      - cbn. split; [apply SSorted_nil|by intros s ?%elem_of_nil].
      - destruct (rechunk_facts env rendered seqs true Hsa Hop Hne) as (_ & ? & Hi & _).
        split; [done|]. auto. }
    destruct (adopt_snapshot_inv (buf x) (rechunk env rendered seqs true)) as [Hi Hg];
      [by split_and!|apply Hps..|].
    split; [exact Hi|]. apply capture_step; [done|]. unfold rechunk_snapshot.
    split; rewrite Hg; [lia|]. intros E. lia.
Qed.

(** Sessions reached by operations that fit. *)
Inductive session_reachable (m o s : Z) : Session -> Prop :=
| session_new : session_reachable m o s (mkSession (with_caps m o s) None)
| session_next x op :
    session_reachable m o s x -> op_fits x op -> session_reachable m o s (replay_apply x op).

Lemma reachable_session_inv m o s x : 0 <= s -> session_reachable m o s x -> session_inv x.
Proof.
  intros Hs. induction 1 as [|x op _ IH Hop].
  - split; [by apply replay_inv_new|]. by intros ?.
  - by apply replay_apply_inv.
Qed.

(** ** The buffer holds the log's unconfirmed end *)

Definition represents (b : ReplayBuffer) (l : Log) : Prop :=
  highest_seq b = zlen (produced l) /\ acked_seq b = confirmed l
  /\ map tail_pair (entries b) = numbered_from l (confirmed l).

Lemma represents_apply x l op :
  session_inv x -> keeps_history op -> represents (buf x) l ->
  represents (buf (replay_apply x op)) (log_apply l op).
Proof.
  intros [(Ht & _) _] Hop (Hh & Ha & He). pose proof (tv_acked _ Ht) as Hacked.
  destruct op as [bytes|up_to|online| |rendered|]; cbn [replay_apply log_apply buf]; try done.
  - unfold represents. cbn [append snd highest_seq acked_seq entries with_tail with_seqs produced confirmed].
    split_and!; [len_lia|done|]. rewrite map_app, He. unfold numbered_from. cbn [produced].
    rewrite drop_app_le by lia. rewrite number_app. f_equal. cbn [map number].
    rewrite length_drop. unfold tail_pair. cbn. do 2 f_equal. lia.
  - destruct (ack_fields (buf x) up_to Ht) as (E1 & E2 & E3 & _). cbv zeta in *.
    unfold represents. cbn [produced confirmed]. rewrite E1, E2, Hh, Ha. split_and!; [done|done|].
    rewrite E3, map_filter_pair, He. unfold numbered_from. cbn [produced].
    rewrite Hh, Ha, filter_number, drop_drop. f_equal; [lia|]. f_equal. lia.
  - destruct (captured x) as [source|]; [|done]. unfold adopt_folded_ring. by destruct (negb _).
Qed.

(** What a client that has everything up to [last] is sent. *)
Lemma represents_messages b l last :
  replay_inv b -> represents b l -> confirmed l <= last ->
  messages b last = numbered_from l last.
Proof.
  intros (Ht & Hr & _) (Hh & Ha & He) Hlast. unfold messages.
  rewrite filter_none, app_nil_l || rewrite filter_none.
  2: { intros e Hin Hlt. assert (re_seq e ∈ map re_seq (scrollback_ring b)) as Hle%(ri_range _ Hr)
         by (apply list_elem_of_fmap; eauto). lia. }
  cbn [map app]. rewrite map_filter_pair, He. unfold numbered_from. pose proof (tv_acked _ Ht).
  rewrite filter_number, drop_drop. f_equal; [lia|]. f_equal. lia.
Qed.
End Ops.

(** A run of operations, each fitting. *)
Fixpoint run_fits (env : string -> option Z) (x : Session) (ops : list replay_op) : Prop :=
  match ops with
  | [] => True
  | op :: ops => op_fits x op /\ run_fits env (replay_apply env x op) ops
  end.

Lemma run_inv env x l ops :
  session_inv x -> represents (buf x) l -> run_fits env x ops -> Forall keeps_history ops ->
  session_inv (foldl (replay_apply env) x ops)
  /\ represents (buf (foldl (replay_apply env) x ops)) (foldl log_apply l ops).
Proof.
  revert x l. induction ops as [|op ops IH]; intros x l Hx Hl Hf Hk; [done|].
  destruct Hf as [Hop Hf]. inversion_clear Hk. cbn [foldl].
  apply IH; [by apply replay_apply_inv|by apply represents_apply|done|done].
Qed.

(** C18: output that the client has not confirmed is never lost.  After any run of productions,
    acknowledgements with any value off the wire, online changes and folds, a client that reconnects
    holding everything up to some sequence number it has at least confirmed is sent exactly the
    payloads produced after it, byte for byte, in order, under their own numbers; and the buffer's
    bookkeeping is the log's: the highest number is how much was produced, and the acknowledged number
    is the largest confirmation, never past what exists. *)
Theorem unconfirmed_output_is_never_lost env m o s ops last :
  0 <= s ->
  run_fits env (mkSession (with_caps m o s) None) ops -> Forall keeps_history ops ->
  let b := buf (foldl (replay_apply env) (mkSession (with_caps m o s) None) ops) in
  let log := foldl log_apply (mkLog [] 0) ops in
  confirmed log <= last ->
  messages b last = numbered_from log last
  /\ highest_seq b = zlen (produced log) /\ acked_seq b = confirmed log
  /\ retained_bytes b = zlen (concat (drop (Z.to_nat (confirmed log)) (produced log))).
Proof.
  intros Hs Hf Hk b log Hlast.
  destruct (run_inv env (mkSession (with_caps m o s) None) (mkLog [] 0) ops) as [[Hinv _] Hrep];
    [split; [by apply replay_inv_new|done]|done|done|done|].
  fold b log in Hinv, Hrep. split; [by apply represents_messages|].
  pose proof Hinv as (Ht & _). destruct Hrep as (Hh & Ha & He). split; [done|]. split; [done|].
  rewrite (tv_retained _ Ht). unfold numbered_from in He.
  assert (Hn : forall l k ps, map tail_pair l = number k ps -> tail_total l = zlen (concat ps)).
  { clear. induction l as [|e l IH]; intros k ps E; destruct ps as [|p ps]; try done.
    cbn [map number concat] in *. injection E as E1 E2 E3. rewrite length_app.
    apply IH in E3. cbn [tail_total foldr]. fold (tail_total l). subst p. lia. }
  by eapply Hn.
Qed.

Definition no_env : string -> option Z := fun _ => None.

Lemma unconfirmed_output_is_never_lost_witness :
  let ops := [RAppend (text "a"); RAppend (text "bc"); RAck 1; RAppend (text "d"); RAck (-5)] in
  messages (buf (foldl (replay_apply no_env) (mkSession (with_caps 9 9 9) None) ops)) 2
  = [(3, text "d")].
Proof.
  intros ops. destruct (unconfirmed_output_is_never_lost no_env 9 9 9 ops 2) as [H _].
  - lia.
  - repeat split.
  - repeat constructor.
  - vm_compute. discriminate.
  - rewrite H. vm_compute. reflexivity.
Defined.

(** the accounting is exact at every moment of a session, snapshot adoptions included: the
    retained count is the tail's bytes, the lag of a subscriber at any cursor is exactly the tail's
    bytes above it, the ring's count is the ring's bytes, and the ring exceeds its cap by at most the
    eight bytes of a re-opener. *)
Theorem replay_accounting_exact env m o s x seq :
  0 <= s -> session_reachable env m o s x ->
  let b := buf x in
  retained_bytes b = tail_total (entries b)
  /\ retained_bytes_above b seq = tail_total (filter (fun e => seq < te_seq e) (entries b))
  /\ scrollback_bytes b = ring_total (scrollback_ring b)
  /\ scrollback_bytes b <= scrollback_bytes_cap b + 8.
Proof.
  intros Hs Hx. destruct (reachable_session_inv env m o s x Hs Hx) as [(Ht & Hr & Hb) _].
  split_and!; [apply Ht|apply above_spec; apply Ht|apply Hr|done].
Qed.

Lemma replay_accounting_exact_witness :
  let x := replay_apply no_env (replay_apply no_env (mkSession (with_caps 9 9 3) None)
             (RAppend (esc "[?1049h" ++ text "abc"))) (RAppend (text "de")) in
  let x := replay_apply no_env x (RAck 1) in
  scrollback_bytes (buf x) = 0 /\ retained_bytes_above (buf x) 1 = 2
  /\ scrollback_bytes (buf x) <= scrollback_bytes_cap (buf x) + 8.
Proof.
  intros x x'. split; [vm_compute; reflexivity|]. split; [vm_compute; reflexivity|].
  apply (replay_accounting_exact no_env 9 9 3 x' 0); [lia|].
  do 3 (eapply session_next; [|exact I]). apply session_new.
Defined.

(** a stale fold is never merged.  A rendering of a captured ring replaces the ring only while the
    ring is still, entry for entry, the one captured; after any acknowledgement, fold or adoption that
    changed it since, the fold is refused and nothing moves. *)
Theorem fold_only_replaces_what_it_rendered env m o s x rendered source :
  0 <= s -> session_reachable env m o s x -> captured x = Some source ->
  let r := adopt_folded_ring env (buf x) rendered source in
  (r.1 = true /\ fold_bytes source = ring_bytes (scrollback_ring (buf x))
   /\ fold_seqs source = map re_seq (scrollback_ring (buf x)))
  \/ r = (false, buf x).
Proof.
  intros Hs Hx Ec. destruct (reachable_session_inv env m o s x Hs Hx) as [_ Hcap].
  destruct (Hcap source Ec) as [_ Heq]. cbv zeta. unfold adopt_folded_ring.
  destruct (Z.eqb_spec (generation source) (ring_generation (buf x))) as [E|E]; [|by right].
  left. destruct (Heq E) as (? & ? & _). by split_and!.
Qed.

Lemma fold_only_replaces_what_it_rendered_witness :
  let x := replay_apply no_env (mkSession (with_caps 9 9 9) None) (RAppend (text "a")) in
  let x := replay_apply no_env (replay_apply no_env x (RAck 1)) RCapture in
  let x := replay_apply no_env (replay_apply no_env x (RAppend (text "b"))) (RAck 2) in
  exists source, captured x = Some source
  /\ ((adopt_folded_ring no_env (buf x) [] source).1 = true
      \/ adopt_folded_ring no_env (buf x) [] source = (false, buf x)).
Proof.
  intros x0 x1 x. eexists. split; [vm_compute; reflexivity|].
  match goal with |- context [adopt_folded_ring _ _ _ ?src] => set (source := src) end.
  destruct (fold_only_replaces_what_it_rendered no_env 9 9 9 x [] source) as [(H & _)|H];
    [lia| |vm_compute; reflexivity|by left|by right].
  do 5 (eapply session_next; [|exact I]). apply session_new.
Defined.

(** re-chunking loses nothing and respects the frame cap.  The chunks concatenate to the data,
    their numbers ascend and come from the given ones, the last chunk carries the last number when it
    must, and whenever the data fits the budget of one full frame per number no chunk exceeds a
    frame. *)
Theorem rechunk_spec env data seqs cover :
  ascending seqs -> zlen data <= usize_max -> seqs <> [] ->
  let r := rechunk env data seqs cover in
  concat (map snd r) = data
  /\ ascending (map fst r) /\ (forall s, s ∈ map fst r -> s ∈ seqs)
  /\ (cover = true -> last (map fst r) = last seqs)
  /\ (zlen data <= zlen seqs * payload_cap env -> Forall (fun p => zlen p.2 <= payload_cap env) r).
Proof. apply rechunk_facts. Qed.

Lemma rechunk_spec_witness :
  last (map fst (rechunk no_env (text "hello") [3; 4; 9] true)) = last [3; 4; 9].
Proof.
  destruct (rechunk_spec no_env (text "hello") [3; 4; 9] true) as (_ & _ & _ & H & _).
  - repeat constructor.
  - vm_compute. discriminate.
  - discriminate.
  - by apply H.
Defined.

Lemma ascending_le_last l x : ascending l -> last l = Some x -> forall y, y ∈ l -> y <= x.
Proof.
  intros Hs Hl y Hy. destruct (decide (l = [])) as [->|Hne]; [done|].
  destruct (exists_last Hne) as (i & z & ->). rewrite last_snoc in Hl. injection Hl as ->.
  apply ascending_app in Hs as (_ & _ & Hs).
  apply elem_of_app in Hy as [Hy|[->|[]%elem_of_nil]%elem_of_cons]; [|done].
  specialize (Hs y x Hy ltac:(left)). lia.
Qed.

Lemma last_app_r {A} (a b : list A) : b <> [] -> last (a ++ b) = last b.
Proof. intros Hne. destruct (exists_last Hne) as (i & z & ->). by rewrite app_assoc, !last_snoc. Qed.

(** a cold replay can never strand output.  Whatever the distiller makes of the history, however
    short, the replay to a fresh client ends with a message whose acknowledgement releases every
    retained entry, so the drain that pauses on them resumes. *)
Theorem cold_replay_releases_everything env m o s x (distiller : list byte -> list byte) :
  0 <= s -> session_reachable env m o s x -> entries (buf x) <> [] ->
  (forall raw, zlen (distiller raw) <= usize_max) ->
  let b := distilling (buf x) distiller in
  exists seq bytes, last (replay env b 0) = Some (Output seq bytes)
  /\ entries (ack b seq) = [] /\ retained_bytes (ack b seq) = 0.
Proof.
  intros Hs Hx Hne Hd b. destruct (reachable_session_inv env m o s x Hs Hx) as [(Ht & Hr & _) _].
  assert (Htb : tail_inv b) by (destruct Ht; by split).
  destruct (messages_seqs_ascending (buf x) Ht Hr) as [Hasc _].
  unfold replay. cbn [b scrollback_distiller distilling entries scrollback_ring].
  change (0 =? 0) with true. destruct (entries (buf x)) as [|e0 l0] eqn:E0; [done|].
  cbn [andb]. rewrite <- E0 in *. clear E0.
  set (scrollback := filter _ (scrollback_ring (buf x))).
  set (seqs := map re_seq scrollback ++ map te_seq (entries (buf x))).
  set (raw := ring_bytes scrollback ++ _).
  assert (Hne' : map te_seq (entries (buf x)) <> []) by (by intros ?%map_eq_nil).
  assert (Hsa : ascending seqs).
  { apply ascending_app in Hasc as (Ha & Hb & Hab). apply ascending_app. split_and!; [|done|].
    - subst scrollback. assert (Em : forall l, map re_seq (filter (fun e => 0 < re_seq e) l)
                                              = filter (fun q => 0 < q) (map re_seq l)).
      { induction l as [|e l IH]; [done|]. cbn [map]. rewrite !filter_cons.
        destruct (decide (0 < re_seq e)); cbn [map]; by rewrite IH. }
      rewrite Em. by apply ascending_filter.
    - intros p q Hp Hq. apply Hab; [|done]. subst scrollback.
      apply list_elem_of_fmap in Hp as (e & -> & [_ He]%list_elem_of_filter).
      apply list_elem_of_fmap; eauto. }
  assert (Hnes : seqs <> []) by (subst seqs; by intros [_ ?]%app_eq_nil).
  destruct (rechunk_facts env (distiller raw) seqs true Hsa (Hd raw) Hnes) as (_ & _ & _ & Hl & _).
  specialize (Hl eq_refl). cbv zeta in Hl. set (r := rechunk env (distiller raw) seqs true) in *.
  subst seqs. rewrite last_app_r in Hl by done.
  destruct (exists_last Hne') as (i & top & Etop). rewrite Etop, last_snoc in Hl.
  assert (Hr' : r <> []) by (intros ->; done).
  destruct (exists_last Hr') as (rs & [q bytes] & Er). rewrite Er, map_app in Hl. cbn [map fst] in Hl.
  rewrite last_snoc in Hl. injection Hl as ->. exists top, bytes.
  rewrite Er, map_app. cbn [map output fst snd]. rewrite last_snoc. split; [done|].
  destruct (ack_fields b top Htb) as (_ & _ & E3 & E4 & _). cbv zeta in *.
  assert (Hempty : entries (ack b top) = []).
  { rewrite E3. apply filter_none. intros e He Hlt.
    change (entries b) with (entries (buf x)) in He.
    assert (Hin : te_seq e ∈ map te_seq (entries (buf x))) by (apply list_elem_of_fmap; eauto).
    assert (Hle : te_seq e <= top).
    { apply (ascending_le_last (map te_seq (entries (buf x)))); [apply Ht| |done].
      by rewrite Etop, last_snoc. }
    assert (Htop : top <= highest_seq b).
    { apply (tv_range _ Htb). cbn [b entries distilling]. rewrite Etop. apply elem_of_app. right. left. }
    lia. }
  rewrite E4, Hempty. done.
Qed.

Lemma cold_replay_releases_everything_witness :
  let x := replay_apply no_env (replay_apply no_env (mkSession (with_caps 9 9 9) None)
             (RAppend (text "ab"))) (RAppend (text "cd")) in
  let b := distilling (buf x) (fun _ => []) in
  exists seq bytes, last (replay no_env b 0) = Some (Output seq bytes) /\ entries (ack b seq) = [].
Proof.
  intros x b.
  destruct (cold_replay_releases_everything no_env 9 9 9 x (fun _ => [])) as (seq & bytes & H & He & _).
  - lia.
  - do 2 (eapply session_next; [|exact I]). apply session_new.
  - vm_compute. discriminate.
  - intros _. vm_compute. discriminate.
  - by exists seq, bytes.
Defined.
