(* ===== verification/Outbox.v ===== *)
(** * Outbox: the outbound queue of one pane, and the bytes it names

    Models [slopdesk-muxsession/src/outbox.rs], the fold that decides what the next frame is from
    lengths and slots alone, and the half of [slopdesk-hostsession/src/shared.rs] that keeps the bytes:
    the map from slots to payloads, the wake flag, and [take_frame].  The specification is a list of
    entries; [take_frame_refines] says the two structures together are that list.  Lengths are at most
    [isize::MAX] in the code, so the sums of two of them are exact. *)

From stdpp Require Import gmap.
From S2P Require Import Prelude Message Flow.

(** ** The fold: lengths and slots *)

Inductive Item : Type :=
| Chunk (slot len : Z)
| ExitItem (code : Z).

Inductive Frame : Type :=
| FrameOutput (first_slot : Z) (slots : nat) (byte_count : Z) (split : bool)
| FrameExit (code : Z).

Record Outbox : Type := mkOutbox { queue : list Item; next_slot : Z }.

Definition outbox_new : Outbox := mkOutbox [] 0.

Definition append_chunk (o : Outbox) (len : Z) : Z * Outbox :=
  let slot := next_slot o in
  (slot, mkOutbox (queue o ++ [Chunk slot len]) (wrap64 (next_slot o + 1))).

Definition append_exit (o : Outbox) (code : Z) : Outbox :=
  mkOutbox (queue o ++ [ExitItem code]) (next_slot o).

Definition is_empty (o : Outbox) : bool := match queue o with [] => true | _ => false end.

(** The [while let] of [take]: absorb the chunks that follow while they fit. *)
Fixpoint coalesce (cap byte_count : Z) (slots : nat) (q : list Item) : Z * nat * list Item :=
  match q with
  | Chunk _ more :: rest =>
    if cap <? byte_count + more then (byte_count, slots, q)
    else coalesce cap (byte_count + more) (S slots) rest
  | _ => (byte_count, slots, q)
  end.

Definition take_next (o : Outbox) (cap : Z) : option (Frame * Outbox) :=
  let cap := Z.max cap 1 in
  match queue o with
  | [] => None
  | ExitItem code :: rest => Some (FrameExit code, mkOutbox rest (next_slot o))
  | Chunk slot len :: rest =>
    if cap <? len then
      Some (FrameOutput slot 1 cap true, mkOutbox (Chunk slot (len - cap) :: rest) (next_slot o))
    else
      let '(byte_count, slots, rest) := coalesce cap len 1 rest in
      Some (FrameOutput slot slots byte_count false, mkOutbox rest (next_slot o))
  end.

(** ** The bytes next door: [Outbound] of [shared.rs] *)

Record Queued : Type := mkQueued { q_bytes : list byte; q_control : list WireMessage }.

Definition queued_default : Queued := mkQueued [] [].

Record Outbound : Type := mkOutbound {
  outbox : Outbox;
  payloads : gmap Z Queued;
  woken : bool;
  closed : bool;
}.

Definition outbound_default : Outbound := mkOutbound outbox_new ∅ false false.

Inductive Ready : Type :=
| ReadyOutput (bytes : list byte) (byte_count : Z) (control : list WireMessage)
| ReadyExit (code : Z).

Definition out_append_chunk (out : Outbound) (bytes : list byte) (control : list WireMessage) : Outbound :=
  let '(slot, box) := append_chunk (outbox out) (zlen bytes) in
  mkOutbound box (<[slot := mkQueued bytes control]> (payloads out)) true (closed out).

Definition out_append_exit (out : Outbound) (code : Z) : Outbound :=
  mkOutbound (append_exit (outbox out) code) (payloads out) true (closed out).

Definition close_drain (out : Outbound) : Outbound :=
  mkOutbound (outbox out) (payloads out) true true.

Definition reopen_drain (out : Outbound) : Outbound :=
  mkOutbound (outbox out) (payloads out) false false.

Definition kick_drain (out : Outbound) : bool * Outbound :=
  let carried := negb (is_empty (outbox out)) in
  (carried,
   if carried then mkOutbound (outbox out) (payloads out) true (closed out) else out).

(** [await_drainable]: [None] while the drain thread stays parked. *)
Definition await_drainable (out : Outbound) : option (bool * Outbound) :=
  if woken out || closed out then
    Some (negb (closed out), mkOutbound (outbox out) (payloads out) false (closed out))
  else None.

(** [for offset in 0..slots]: take each payload of the run out of the map. *)
Fixpoint gather (first_slot : Z) (offsets : list nat) (m : gmap Z Queued)
    (bytes : list byte) (control : list WireMessage)
    : gmap Z Queued * list byte * list WireMessage :=
  match offsets with
  | [] => (m, bytes, control)
  | offset :: rest =>
    let slot := wrap64 (first_slot + Z.of_nat offset) in
    match m !! slot with
    | None => gather first_slot rest m bytes control
    | Some queued =>
      gather first_slot rest (delete slot m) (bytes ++ q_bytes queued) (control ++ q_control queued)
    end
  end.

Definition empty_frame : Ready := ReadyOutput [] 0 [].

Definition output (bytes : list byte) (control : list WireMessage) : Ready :=
  ReadyOutput bytes (zlen bytes) control.

Definition with_box (out : Outbound) (box : Outbox) (m : gmap Z Queued) : Outbound :=
  mkOutbound box m (woken out) (closed out).

Definition take_frame (cap : Z) (out : Outbound) : option (Ready * Outbound) :=
  match take_next (outbox out) cap with
  | None => None
  | Some (FrameExit code, box) => Some (ReadyExit code, with_box out box (payloads out))
  | Some (FrameOutput first_slot slots byte_count split, box) =>
    if split then
      match payloads out !! first_slot with
      | None => Some (empty_frame, with_box out box (payloads out))
      | Some queued =>
        let at_ := Z.to_nat (Z.min byte_count (zlen (q_bytes queued))) in
        Some (output (take at_ (q_bytes queued)) (q_control queued),
              with_box out box
                (<[first_slot := mkQueued (drop at_ (q_bytes queued)) []]> (payloads out)))
      end
    else if Nat.eqb slots 1 then
      let queued := default queued_default (payloads out !! first_slot) in
      Some (output (q_bytes queued) (q_control queued),
            with_box out box (delete first_slot (payloads out)))
    else
      let '(m, bytes, control) := gather first_slot (seq 0 slots) (payloads out) [] [] in
      Some (output bytes control, with_box out box m)
  end.

(** [merge_cap], [usize::try_from] of the wire's number. *)
Definition merge_cap (env : string -> option Z) : Z :=
  let cap := MuxFlowControl.max_output_frame_payload_bytes env in
  if (0 <=? cap) && (cap <=? usize_max) then cap else usize_max.

(** ** The abstract queue *)

Inductive Entry : Type :=
| EChunk (bytes : list byte) (control : list WireMessage)
| EExit (code : Z).

Fixpoint absorb (cap : Z) (bytes : list byte) (control : list WireMessage) (es : list Entry)
    : list byte * list WireMessage * list Entry :=
  match es with
  | EChunk more c :: rest =>
    if cap <? zlen bytes + zlen more then (bytes, control, es)
    else absorb cap (bytes ++ more) (control ++ c) rest
  | _ => (bytes, control, es)
  end.

Definition spec_take (cap : Z) (es : list Entry) : option (Ready * list Entry) :=
  let cap := Z.max cap 1 in
  match es with
  | [] => None
  | EExit code :: rest => Some (ReadyExit code, rest)
  | EChunk bytes control :: rest =>
    if cap <? zlen bytes then
      Some (output (take (Z.to_nat cap) bytes) control, EChunk (drop (Z.to_nat cap) bytes) [] :: rest)
    else
      let '(bytes, control, rest) := absorb cap bytes control rest in
      Some (output bytes control, rest)
  end.

(** The queue and the payload map of a list of entries whose first chunk has slot [base]. *)
Fixpoint queue_of (base : Z) (es : list Entry) : list Item :=
  match es with
  | [] => []
  | EChunk bytes _ :: es => Chunk (wrap64 base) (zlen bytes) :: queue_of (base + 1) es
  | EExit code :: es => ExitItem code :: queue_of base es
  end.

Fixpoint payloads_of (base : Z) (es : list Entry) : gmap Z Queued :=
  match es with
  | [] => ∅
  | EChunk bytes control :: es => <[wrap64 base := mkQueued bytes control]> (payloads_of (base + 1) es)
  | EExit _ :: es => payloads_of base es
  end.

Fixpoint chunks (es : list Entry) : nat :=
  match es with
  | [] => O
  | EChunk _ _ :: es => S (chunks es)
  | EExit _ :: es => chunks es
  end.

(** The concrete state stands for the list: consecutive slots, one payload for each, and no more of
    them than slots there are. *)
Definition holds (out : Outbound) (es : list Entry) : Prop :=
  exists base,
    queue (outbox out) = queue_of base es /\
    payloads out = payloads_of base es /\
    next_slot (outbox out) = wrap64 (base + Z.of_nat (chunks es)) /\
    Z.of_nat (chunks es) <= 2 ^ 64.

(** ** What was said: the two streams a queue carries *)

Inductive Event : Type :=
| Byte_ (b : byte)
| Control (m : WireMessage)
| Exited (code : Z).

(** The data stream: output bytes and the exit. *)
Definition entry_data (e : Entry) : list Event :=
  match e with EChunk bytes _ => map Byte_ bytes | EExit code => [Exited code] end.
Definition ready_data (r : Ready) : list Event :=
  match r with ReadyOutput bytes _ _ => map Byte_ bytes | ReadyExit code => [Exited code] end.

(** The control stream: sniffed control and the exit. *)
Definition entry_control (e : Entry) : list Event :=
  match e with EChunk _ control => map Control control | EExit code => [Exited code] end.
Definition ready_control (r : Ready) : list Event :=
  match r with ReadyOutput _ _ control => map Control control | ReadyExit code => [Exited code] end.

Definition ready_fits (cap : Z) (r : Ready) : Prop :=
  match r with
  | ReadyOutput bytes byte_count _ => byte_count = zlen bytes /\ zlen bytes <= Z.max cap 1
  | ReadyExit _ => True
  end.

(** What one entry still costs, in frames: the whole frames it fills, and at least one. *)
Definition entry_frames (cap : Z) (e : Entry) : nat :=
  match e with
  | EChunk bytes _ => S (length bytes / Z.to_nat (Z.max cap 1))
  | EExit _ => 1
  end.
Definition frames_bound (cap : Z) (es : list Entry) : nat := foldr (fun e n => (entry_frames cap e + n)%nat) 0%nat es.

(** ** The refinement *)

Lemma wrap64_add a b : wrap64 (wrap64 a + b) = wrap64 (a + b).
Proof. apply Zplus_mod_idemp_l. Qed.

Lemma wrap64_apart k base : k < base < k + 2 ^ 64 -> wrap64 base <> wrap64 k.
Proof. unfold wrap64. intros Hk E. pose proof (Z.div_mod base (2 ^ 64)). pose proof (Z.div_mod k (2 ^ 64)). nia. Qed.

Lemma payloads_fresh k es : forall base,
  k < base -> base + Z.of_nat (chunks es) <= k + 2 ^ 64 -> payloads_of base es !! wrap64 k = None.
Proof.
  induction es as [|[bytes control|code] es IH]; intros base Hk Hn; cbn [payloads_of chunks] in *.
  - apply lookup_empty.
  - rewrite lookup_insert_ne by (apply wrap64_apart; lia). apply IH; lia.
  - by apply IH.
Qed.

Lemma chunks_app a b : chunks (a ++ b) = (chunks a + chunks b)%nat.
Proof. induction a as [|[]]; cbn; lia. Qed.

Lemma queue_of_app a b : forall base,
  queue_of base (a ++ b) = queue_of base a ++ queue_of (base + Z.of_nat (chunks a)) b.
Proof.
  induction a as [|[bytes control|code] a IH]; intros base; cbn [app queue_of chunks].
  - by rewrite Z.add_0_r.
  - rewrite IH. cbn. do 3 f_equal. lia.
  - by rewrite IH.
Qed.

Lemma payloads_of_snoc bytes control a : forall base,
  Z.of_nat (chunks a) < 2 ^ 64 ->
  payloads_of base (a ++ [EChunk bytes control])
  = <[wrap64 (base + Z.of_nat (chunks a)) := mkQueued bytes control]> (payloads_of base a).
Proof.
  induction a as [|[bs c|code] a IH]; intros base Hn; cbn [app payloads_of chunks] in *.
  - by rewrite Z.add_0_r.
  - rewrite IH by lia. replace (base + 1 + Z.of_nat (chunks a)) with (base + Z.of_nat (S (chunks a))) by lia.
    apply insert_insert_ne. intros E. symmetry in E. revert E. apply wrap64_apart. lia.
  - by apply IH.
Qed.

Lemma payloads_of_exit code a : forall base, payloads_of base (a ++ [EExit code]) = payloads_of base a.
Proof. induction a as [|[]]; intros base; cbn; by rewrite ?IHa. Qed.

Lemma holds_default : holds outbound_default [].
Proof. exists 0. repeat split; cbn; lia. Qed.

Lemma holds_append_chunk out es bytes control :
  holds out es -> Z.of_nat (chunks es) < 2 ^ 64 ->
  holds (out_append_chunk out bytes control) (es ++ [EChunk bytes control]).
Proof.
  intros (base & Hq & Hm & Hs & _) Hn. exists base. cbn.
  rewrite queue_of_app, payloads_of_snoc, chunks_app, Hq, Hm, Hs by done. cbn.
  rewrite wrap64_add. repeat split; [f_equal; lia|lia].
Qed.

Lemma holds_append_exit out es code : holds out es -> holds (out_append_exit out code) (es ++ [EExit code]).
Proof.
  intros (base & Hq & Hm & Hs & Hn). exists base. cbn.
  rewrite queue_of_app, payloads_of_exit, chunks_app, Hq, Hm, Hs. cbn.
  repeat split; [f_equal; lia|lia].
Qed.

(** What [absorb] takes is a run of chunks, and [coalesce] walks the same run. *)
Definition chunk_of (p : list byte * list WireMessage) : Entry := EChunk p.1 p.2.

Lemma chunks_run taken es : chunks (map chunk_of taken ++ es) = (length taken + chunks es)%nat.
Proof. induction taken; cbn; auto. Qed.

Lemma absorb_run cap es : forall bytes control,
  exists taken, let '(bytes', control', rest) := absorb cap bytes control es in
    es = map chunk_of taken ++ rest /\
    bytes' = bytes ++ concat taken.*1 /\ control' = control ++ concat taken.*2 /\
    forall base slots,
      coalesce cap (zlen bytes) slots (queue_of base es)
      = (zlen bytes', (slots + length taken)%nat, queue_of (base + Z.of_nat (length taken)) rest).
Proof.
  assert (Hstop : forall bytes control es,
    (forall base slots, coalesce cap (zlen bytes) slots (queue_of base es) = (zlen bytes, slots, queue_of base es)) ->
    exists taken : list (list byte * list WireMessage), es = map chunk_of taken ++ es /\
      bytes = bytes ++ concat taken.*1 /\ control = control ++ concat taken.*2 /\
      forall base slots, coalesce cap (zlen bytes) slots (queue_of base es)
        = (zlen bytes, (slots + length taken)%nat, queue_of (base + Z.of_nat (length taken)) es)).
  { intros bytes control es0 H. exists []. cbn. rewrite !app_nil_r. repeat split; auto.
    intros base slots. by rewrite H, Nat.add_0_r, Z.add_0_r. }
  induction es as [|[more c|code] es IH]; intros bytes control; cbn [absorb].
  - by apply Hstop.
  - destruct (Z.ltb_spec cap (zlen bytes + zlen more)) as [Hc|Hc].
    + apply Hstop. intros base slots. cbn. by rewrite (proj2 (Z.ltb_lt _ _) Hc).
    + destruct (IH (bytes ++ more) (control ++ c)) as [taken H].
      destruct (absorb cap (bytes ++ more) (control ++ c) es) as [[bytes' control'] rest].
      destruct H as (-> & -> & -> & Hw). exists ((more, c) :: taken). cbn.
      rewrite <- !app_assoc. repeat split; auto.
      intros base slots. destruct (Z.ltb_spec cap (zlen bytes + zlen more)); [lia|].
      replace (zlen bytes + zlen more) with (zlen (bytes ++ more)) by len_lia.
      rewrite Hw, <- !app_assoc. f_equal; [f_equal; lia|f_equal; lia].
  - by apply Hstop.
Qed.

Lemma gather_run rest first taken : forall k bytes control,
  Z.of_nat (k + length taken + chunks rest) <= 2 ^ 64 ->
  gather (wrap64 first) (seq k (length taken))
    (payloads_of (first + Z.of_nat k) (map chunk_of taken ++ rest)) bytes control
  = (payloads_of (first + Z.of_nat (k + length taken)) rest,
     bytes ++ concat taken.*1, control ++ concat taken.*2).
Proof.
  induction taken as [|[bs c] taken IH]; intros k bytes control Hn; cbn [length seq gather].
  - cbn. rewrite Nat.add_0_r, !app_nil_r. done.
  - cbn [map app payloads_of chunk_of]. rewrite wrap64_add, lookup_insert_eq, delete_insert_id.
    2:{ apply payloads_fresh; [lia|]. rewrite chunks_run. cbn in Hn. lia. }
    replace (first + Z.of_nat k + 1) with (first + Z.of_nat (S k)) by lia.
    cbn [q_bytes q_control]. rewrite IH by (cbn in Hn; lia).
    cbn. rewrite <- !app_assoc. repeat f_equal; lia.
Qed.

Lemma take_output_refines cap out bytes control rest base :
  queue (outbox out) = queue_of base (EChunk bytes control :: rest) ->
  payloads out = payloads_of base (EChunk bytes control :: rest) ->
  Z.of_nat (S (chunks rest)) <= 2 ^ 64 -> zlen bytes <= Z.max cap 1 ->
  exists out', take_frame cap out
      = Some (let '(b, c, _) := absorb (Z.max cap 1) bytes control rest in output b c, out') /\
    let '(_, _, rest') := absorb (Z.max cap 1) bytes control rest in
    exists base', queue (outbox out') = queue_of base' rest' /\ payloads out' = payloads_of base' rest' /\
      next_slot (outbox out') = next_slot (outbox out) /\
      base' + Z.of_nat (chunks rest') = base + Z.of_nat (S (chunks rest)) /\
      (chunks rest' <= chunks rest)%nat /\ woken out' = woken out /\ closed out' = closed out.
Proof.
  intros Hq Hm Hn Hfit. unfold take_frame, take_next. rewrite Hq. cbn [queue_of].
  destruct (Z.ltb_spec (Z.max cap 1) (zlen bytes)) as [?|_]; [lia|].
  destruct (absorb_run (Z.max cap 1) rest bytes control) as [taken H].
  destruct (absorb (Z.max cap 1) bytes control rest) as [[b c] rest'].
  destruct H as (-> & -> & -> & Hw). rewrite Hw, Hm. rewrite chunks_run in *.
  replace (Nat.eqb (1 + length taken) 1) with (Nat.eqb (length taken) 0) by (by destruct taken).
  destruct taken as [|p taken]; cbn [length Nat.eqb].
  - eexists. split; [cbn; rewrite lookup_insert_eq, !app_nil_r; reflexivity|].
    exists (base + 1). cbn -[payloads_of]. rewrite !app_nil_r in *.
    split_and!; [f_equal; lia| |done|lia|lia|done|done].
    cbn. apply delete_insert_id. apply payloads_fresh; cbn in Hn; lia.
  - pose proof (gather_run rest' base ((bytes, control) :: p :: taken) 0 [] []) as Hg.
    cbn [length map app Nat.add] in Hg, Hn. rewrite Z.add_0_r in Hg.
    replace (1 + S (length taken))%nat with (S (S (length taken))) by lia.
    change (payloads_of base (EChunk bytes control :: map chunk_of (p :: taken) ++ rest'))
      with (payloads_of base (chunk_of (bytes, control) :: map chunk_of (p :: taken) ++ rest')).
    cbn [map app]. rewrite Hg by (cbn; lia).
    eexists. split; [reflexivity|].
    exists (base + Z.of_nat (S (S (length taken)))). cbn -[payloads_of].
    split_and!; [f_equal; lia|done|done|lia|lia|done|done].
Qed.

Lemma take_frame_refines cap out es :
  holds out es ->
  match spec_take cap es with
  | None => take_frame cap out = None
  | Some (r, es') => exists out', take_frame cap out = Some (r, out') /\ holds out' es' /\
                       woken out' = woken out /\ closed out' = closed out
  end.
Proof.
  intros (base & Hq & Hm & Hs & Hn). unfold spec_take.
  destruct es as [|[bytes control|code] es].
  - unfold take_frame, take_next. by rewrite Hq.
  - destruct (Z.ltb_spec (Z.max cap 1) (zlen bytes)) as [Hc|Hc].
    + unfold take_frame, take_next. rewrite Hq. cbn [queue_of].
      destruct (Z.ltb_spec (Z.max cap 1) (zlen bytes)) as [_|?]; [|lia].
      rewrite Hm. cbn [payloads_of]. rewrite lookup_insert_eq. cbn [q_bytes q_control].
      rewrite Z.min_l by lia.
      eexists. split; [reflexivity|]. split; [|done]. exists base. cbn. rewrite insert_insert_eq.
      repeat split; [|done|done]. do 2 f_equal. len_lia.
    + destruct (take_output_refines cap out bytes control es base Hq Hm Hn Hc) as (out' & Ht & H).
      rewrite Ht. destruct (absorb (Z.max cap 1) bytes control es) as [[b c] rest].
      destruct H as (base' & Hq' & Hm' & Hs' & Hb & Hn' & Hw' & Hc').
      exists out'. split; [done|]. split; [|done]. exists base'. rewrite Hs', Hs. cbn [chunks] in *.
      repeat split; [done|done|f_equal; lia|lia].
  - unfold take_frame, take_next. rewrite Hq, Hm. cbn.
    eexists. split; [reflexivity|]. split; [|done]. by exists base.
Qed.

(** ** The abstract queue loses nothing, reorders nothing, and takes finitely many frames *)

Lemma absorb_facts cap es bytes control :
  zlen bytes <= cap ->
  let '(bytes', control', rest) := absorb cap bytes control es in
  map Byte_ bytes ++ flat_map entry_data es = map Byte_ bytes' ++ flat_map entry_data rest /\
  map Control control ++ flat_map entry_control es = map Control control' ++ flat_map entry_control rest /\
  zlen bytes' <= cap /\ (chunks rest <= chunks es)%nat /\
  forall c, (frames_bound c rest <= frames_bound c es)%nat.
Proof.
  revert bytes control. induction es as [|[more c|code] es IH]; intros bytes control Hb; cbn [absorb].
  - auto.
  - destruct (Z.ltb_spec cap (zlen bytes + zlen more)); [auto|].
    specialize (IH (bytes ++ more) (control ++ c) ltac:(len_lia)).
    destruct (absorb cap (bytes ++ more) (control ++ c) es) as [[b' c'] rest].
    destruct IH as (Hd & Hc & Hl & Hn & Hf). rewrite !map_app in Hd, Hc.
    cbn [flat_map entry_data entry_control chunks]. rewrite !app_assoc.
    repeat split; [done|done|done|lia|]. intros c0. specialize (Hf c0). unfold frames_bound in *. cbn [foldr]. lia.
  - auto.
Qed.

Lemma spec_take_facts cap es r es' :
  spec_take cap es = Some (r, es') ->
  flat_map entry_data es = ready_data r ++ flat_map entry_data es' /\
  flat_map entry_control es = ready_control r ++ flat_map entry_control es' /\
  ready_fits cap r /\ (chunks es' <= chunks es)%nat /\ (frames_bound cap es' < frames_bound cap es)%nat.
Proof.
  unfold spec_take. destruct es as [|[bytes control|code] es]; [done| |].
  2:{ intros [= <- <-]. unfold frames_bound. cbn [foldr entry_frames]. repeat split; try done; lia. }
  destruct (Z.ltb_spec (Z.max cap 1) (zlen bytes)) as [Hc|Hc].
  - intros [= <- <-].
    cbn [flat_map entry_data entry_control ready_data ready_control ready_fits output chunks].
    rewrite !app_assoc, <- map_app, take_drop. cbn [map app].
    rewrite app_nil_r. repeat split; [len_lia| |].
    + lia.
    + cbn [frames_bound foldr entry_frames]. rewrite length_drop.
      set (c := Z.to_nat (Z.max cap 1)) in *.
      assert (length bytes = (length bytes - c) + 1 * c)%nat as E by lia.
      rewrite E at 2. rewrite Nat.div_add by lia. lia.
  - pose proof (absorb_facts (Z.max cap 1) es bytes control Hc) as H.
    destruct (absorb (Z.max cap 1) bytes control es) as [[b c] rest].
    destruct H as (Hd & Hctl & Hl & Hn & Hf). intros [= <- <-]. cbn -[Z.max].
    repeat split; [done|done|done|lia|]. specialize (Hf cap). unfold frames_bound in *. cbn [foldr entry_frames]. lia.
Qed.

(** ** Producers, the drain thread, and the detach that stops it

    [drain::run] of [drain.rs] against the methods above, one critical section a step.  The thread is
    [Parked] in [await_drainable], [Draining] in its inner loop, or has [Returned].  [DReopen] is the
    first half of a rebind, [reopen_drain] and the start of a new thread, and [DKick] the second. *)

Inductive DrainPc : Type := Parked | Draining | Returned.

Record System : Type := mkSystem {
  out : Outbound;
  pc : DrainPc;
  kick_owed : bool;
  said : list Entry;
  shipped : list Ready;
}.

Definition system_init : System := mkSystem outbound_default Parked false [] [].

Inductive Action : Type :=
| DAppend (bytes : list byte) (control : list WireMessage)
| DExit (code : Z)
| DWake
| DTake (env : string -> option Z)
| DClose
| DReopen
| DKick.

Definition act (a : Action) (s : System) : option System :=
  match a with
  | DAppend bytes control =>
    Some (mkSystem (out_append_chunk (out s) bytes control) (pc s) (kick_owed s)
            (said s ++ [EChunk bytes control]) (shipped s))
  | DExit code =>
    Some (mkSystem (out_append_exit (out s) code) (pc s) (kick_owed s) (said s ++ [EExit code]) (shipped s))
  | DWake =>
    match pc s, await_drainable (out s) with
    | Parked, Some (go, o) =>
      Some (mkSystem o (if go then Draining else Returned) (kick_owed s) (said s) (shipped s))
    | _, _ => None
    end
  | DTake env =>
    match pc s with
    | Draining =>
      match take_frame (merge_cap env) (out s) with
      | Some (r, o) => Some (mkSystem o Draining (kick_owed s) (said s) (shipped s ++ [r]))
      | None => Some (mkSystem (out s) Parked (kick_owed s) (said s) (shipped s))
      end
    | _ => None
    end
  | DClose => Some (mkSystem (close_drain (out s)) (pc s) (kick_owed s) (said s) (shipped s))
  | DReopen =>
    match pc s with
    | Returned => Some (mkSystem (reopen_drain (out s)) Parked true (said s) (shipped s))
    | _ => None
    end
  | DKick =>
    if kick_owed s then
      Some (mkSystem (kick_drain (out s)).2 (pc s) false (said s) (shipped s))
    else None
  end.

(** Memory holds fewer than 2^64 queued chunks. *)
Definition room (a : Action) (s : System) : Prop :=
  match a with DAppend _ _ => zlen (queue (outbox (out s))) < 2 ^ 64 | _ => True end.

Inductive reachable : System -> Prop :=
| reach_init : reachable system_init
| reach_act s a s' : reachable s -> room a s -> act a s = Some s' -> reachable s'.

Fixpoint exec (acts : list Action) (s : System) : option System :=
  match acts with
  | [] => Some s
  | a :: acts => act a s ≫= exec acts
  end.

(** A frame of the wire that fits half the window of the environment it was cut for. *)
Definition frame_ok (env : string -> option Z) (r : Ready) : Prop :=
  ready_fits (merge_cap env) r /\
  match r with
  | ReadyOutput bytes _ _ =>
    forall seq, wire_byte_count (Output seq bytes) <= half (MuxFlowControl.initial_window_bytes env)
  | ReadyExit _ => True
  end.

Record system_inv (s : System) (waiting : list Entry) : Prop := {
  si_holds : holds (out s) waiting;
  si_data : flat_map entry_data (said s) = flat_map ready_data (shipped s) ++ flat_map entry_data waiting;
  si_control :
    flat_map entry_control (said s) = flat_map ready_control (shipped s) ++ flat_map entry_control waiting;
  si_frames : Forall (fun r => exists env, frame_ok env r) (shipped s);
  si_woken : pc s = Parked -> kick_owed s = false -> waiting <> [] -> woken (out s) = true;
  si_closed : pc s = Returned -> closed (out s) = true;
}.

Lemma merge_cap_fits env :
  merge_cap env = MuxFlowControl.max_output_frame_payload_bytes env
  /\ 1 <= merge_cap env /\ 13 + merge_cap env <= half (MuxFlowControl.initial_window_bytes env).
Proof.
  pose proof (output_cap_positive env) as H. pose proof (window_bounds env) as HW.
  assert (4 * 1024 <= MuxFlowControl.host_merge_cap_bytes env <= 128 * 1024) by (apply env_int_bounds; lia).
  unfold merge_cap. destruct (Z.leb_spec 0 (MuxFlowControl.max_output_frame_payload_bytes env)); [|lia].
  unfold MuxFlowControl.max_output_frame_payload_bytes, usize_max in *.
  destruct (Z.leb_spec (Z.min (MuxFlowControl.host_merge_cap_bytes env)
    (half (MuxFlowControl.initial_window_bytes env) - 16)) (2 ^ 64 - 1)); cbn [andb]; lia.
Qed.

Lemma chunks_le_queue es : forall base, (chunks es <= length (queue_of base es))%nat.
Proof.
  induction es as [|[] es IH]; intros base; cbn; [done|apply le_n_S, IH|].
  specialize (IH base). lia.
Qed.

Lemma holds_empty o es : holds o es -> is_empty (outbox o) = match es with [] => true | _ => false end.
Proof. intros (base & Hq & _). unfold is_empty. rewrite Hq. by destruct es as [|[]]. Qed.

Lemma frame_ok_fits env r : ready_fits (merge_cap env) r -> frame_ok env r.
Proof.
  intros H. split; [done|]. destruct r as [bytes n control|]; [|done]. intros sq. cbn in H.
  destruct (merge_cap_fits env) as (_ & H1 & H2). unfold wire_byte_count. cbn. lia.
Qed.

Lemma take_inv s waiting env r waiting' :
  system_inv s waiting -> pc s = Draining -> spec_take (merge_cap env) waiting = Some (r, waiting') ->
  exists s', act (DTake env) s = Some s' /\ system_inv s' waiting' /\
    pc s' = Draining /\ kick_owed s' = kick_owed s /\ woken (out s') = woken (out s) /\
    closed (out s') = closed (out s).
Proof.
  intros [Hh Hd Hc Hf Hw Hcl] Hpc Hs. cbn. rewrite Hpc.
  pose proof (take_frame_refines (merge_cap env) _ _ Hh) as Ht. rewrite Hs in Ht.
  destruct Ht as (o & -> & Hh' & Ho & Hoc). destruct (spec_take_facts _ _ _ _ Hs) as (Ed & Ec & Hr & _).
  eexists. split; [reflexivity|]. split; [|done].
  constructor; cbn; try done.
  - by rewrite Hd, Ed, flat_map_app, <- app_assoc; cbn; rewrite app_nil_r.
  - by rewrite Hc, Ec, flat_map_app, <- app_assoc; cbn; rewrite app_nil_r.
  - apply Forall_app_2; [done|]. constructor; [|done]. exists env. by apply frame_ok_fits.
Qed.

Lemma spec_take_none cap es : spec_take cap es = None -> es = [].
Proof.
  destruct es as [|[bytes control|]]; [done| |done]. unfold spec_take.
  destruct (_ <? _); [done|]. by destruct absorb as [[]].
Qed.

Lemma take_none_inv s env :
  system_inv s [] -> pc s = Draining ->
  act (DTake env) s = Some (mkSystem (out s) Parked (kick_owed s) (said s) (shipped s)).
Proof.
  intros [Hh _ _ _ _ _] Hpc. cbn. rewrite Hpc.
  pose proof (take_frame_refines (merge_cap env) _ _ Hh) as Ht. by rewrite Ht.
Qed.

Lemma act_inv s a s' waiting :
  system_inv s waiting -> room a s -> act a s = Some s' -> exists waiting', system_inv s' waiting'.
Proof.
  intros I Hroom Ha. pose proof I as [Hh Hd Hc Hf Hw Hcl].
  destruct a as [bytes control|code| |env| | |]; cbn in Ha, Hroom.
  - simplify_eq. exists (waiting ++ [EChunk bytes control]). constructor; cbn; try done.
    + apply holds_append_chunk; [done|]. destruct Hh as (base & Hq & _). rewrite Hq in Hroom.
      pose proof (chunks_le_queue waiting base). lia.
    + by rewrite !flat_map_app, Hd, app_assoc.
    + by rewrite !flat_map_app, Hc, app_assoc.
  - simplify_eq. exists (waiting ++ [EExit code]). constructor; cbn; try done.
    + by apply holds_append_exit.
    + by rewrite !flat_map_app, Hd, app_assoc.
    + by rewrite !flat_map_app, Hc, app_assoc.
  - destruct (pc s) eqn:Hpc; try done. unfold await_drainable in Ha.
    destruct (woken (out s) || closed (out s)); [|done]. cbn in Ha. simplify_eq.
    exists waiting. destruct (closed (out s)) eqn:E; constructor; cbn; try done.
  - destruct (pc s) eqn:Hpc; try done. destruct (spec_take (merge_cap env) waiting) as [[r w']|] eqn:Hs.
    + destruct (take_inv s waiting env r w' I Hpc Hs) as (s1 & Hs1 & I1 & _).
      cbn in Hs1. rewrite Hpc in Hs1. exists w'. congruence.
    + apply spec_take_none in Hs as ->. pose proof (take_none_inv s env I Hpc) as E.
      cbn in E. rewrite Hpc in E. rewrite E in Ha. simplify_eq. exists []. by constructor.
  - simplify_eq. exists waiting. by constructor.
  - destruct (pc s); try done. simplify_eq. exists waiting. by constructor.
  - destruct (kick_owed s); [|done]. simplify_eq. exists waiting. unfold kick_drain.
    rewrite (holds_empty _ _ Hh). destruct waiting; cbn; by constructor.
Qed.

Lemma drain_inv s : reachable s -> exists waiting, system_inv s waiting.
Proof.
  induction 1 as [|s a s' _ [w IH] Hroom Ha]; [|by eapply act_inv].
  exists []. constructor; cbn; try done. apply holds_default.
Qed.

(** How many internal steps a state has left in it. *)
Definition item_frames (cap : Z) (i : Item) : nat :=
  match i with
  | Chunk _ len => S (Z.to_nat len / Z.to_nat (Z.max cap 1))
  | ExitItem _ => 1
  end.

Definition potential (env : string -> option Z) (s : System) : nat :=
  (foldr (fun i n => item_frames (merge_cap env) i + n) 0 (queue (outbox (out s)))
   + (if kick_owed s then 3 else 0)
   + (if woken (out s) then 2 else 0)
   + match pc s with Draining => 2 | Parked => 1 | Returned => 0 end)%nat.

Definition internal (env : string -> option Z) (a : Action) : Prop := a = DWake \/ a = DTake env \/ a = DKick.

Lemma queue_frames_of cap es : forall base,
  foldr (fun i n => (item_frames cap i + n)%nat) 0%nat (queue_of base es) = frames_bound cap es.
Proof.
  induction es as [|[bytes control|code] es IH]; intros base; [done|..];
    cbn [queue_of foldr item_frames]; rewrite IH; unfold frames_bound; cbn [foldr entry_frames];
    by rewrite ?Nat2Z.id.
Qed.

Lemma potential_holds env s waiting :
  holds (out s) waiting ->
  potential env s = (frames_bound (merge_cap env) waiting + (if kick_owed s then 3 else 0)
    + (if woken (out s) then 2 else 0)
    + match pc s with Draining => 2 | Parked => 1 | Returned => 0 end)%nat.
Proof. intros (base & Hq & _). unfold potential. by rewrite Hq, queue_frames_of. Qed.

Lemma drain_decreases env s a s' :
  reachable s -> internal env a -> act a s = Some s' -> (potential env s' < potential env s)%nat.
Proof.
  intros Hr Ha He. destruct (drain_inv s Hr) as [waiting I]. pose proof (si_holds _ _ I) as Hh.
  rewrite (potential_holds env s waiting Hh).
  destruct Ha as [->|[->| ->]]; cbn in He.
  - destruct (pc s) eqn:Hpc; try done. unfold await_drainable in He.
    destruct (woken (out s)) eqn:Hw; cbn in He.
    + simplify_eq. rewrite (potential_holds env (mkSystem _ _ _ _ _) waiting) by exact Hh. cbn. destruct (closed (out s)); cbn; lia.
    + destruct (closed (out s)) eqn:Hc; [|done]. simplify_eq.
      rewrite (potential_holds env (mkSystem _ _ _ _ _) waiting) by exact Hh. cbn. lia.
  - destruct (pc s) eqn:Hpc; try done. destruct (spec_take (merge_cap env) waiting) as [[r w']|] eqn:Hs.
    + destruct (take_inv s waiting env r w' I Hpc Hs) as (s1 & Hs1 & I1 & Hp1 & Hk1 & Hw1 & _).
      cbn in Hs1. rewrite Hpc in Hs1. assert (s1 = s') as -> by congruence.
      rewrite (potential_holds env s' w' (si_holds _ _ I1)), Hp1, Hk1, Hw1.
      apply spec_take_facts in Hs as (_ & _ & _ & _ & Hlt). lia.
    + apply spec_take_none in Hs as ->. pose proof (take_none_inv s env I Hpc) as E.
      cbn in E. rewrite Hpc in E. rewrite E in He. simplify_eq.
      rewrite (potential_holds env (mkSystem _ _ _ _ _) []) by exact Hh. cbn. lia.
  - destruct (kick_owed s) eqn:Hk; [|done]. simplify_eq.
    unfold kick_drain. rewrite (holds_empty _ _ Hh).
    destruct waiting; cbn [negb snd]; erewrite (potential_holds env (mkSystem _ _ _ _ _)) by exact Hh;
      cbn [kick_owed out pc woken]; destruct (woken (out s)); lia.
Qed.

Lemma exec_internal env acts : forall s s',
  reachable s -> Forall (internal env) acts -> exec acts s = Some s' ->
  reachable s' /\ (length acts + potential env s' <= potential env s)%nat.
Proof.
  induction acts as [|a acts IH]; intros s s' Hr Ha He.
  { cbn in He. simplify_eq. by split; [|cbn]. }
  inversion_clear Ha as [|? ? Hi Hrest]. cbn in He. destruct (act a s) as [s1|] eqn:E; [|done].
  assert (reachable s1) as Hr1.
  { apply (reach_act s a); [done| |done]. by destruct Hi as [->|[->| ->]]. }
  destruct (IH s1 s' Hr1 Hrest He) as [Hr' Hl]. split; [done|].
  pose proof (drain_decreases env s a s1 Hr Hi E). cbn [length]. lia.
Qed.

Lemma stuck_shipped env s waiting :
  system_inv s waiting -> (forall a, internal env a -> act a s = None) ->
  kick_owed s = false /\ if closed (out s) then pc s = Returned else pc s = Parked /\ waiting = [].
Proof.
  intros I Hstuck. pose proof I as [Hh _ _ _ Hw Hcl].
  assert (kick_owed s = false) as Hk.
  { specialize (Hstuck DKick ltac:(by right; right)). cbn in Hstuck. by destruct (kick_owed s). }
  split; [done|].
  destruct (pc s) eqn:Hpc.
  - specialize (Hstuck DWake ltac:(by left)). cbn in Hstuck. rewrite Hpc in Hstuck.
    unfold await_drainable in Hstuck.
    destruct (woken (out s)) eqn:Hwk, (closed (out s)) eqn:Hc; try done. split; [done|].
    destruct waiting; [done|]. by specialize (Hw eq_refl Hk ltac:(done)).
  - exfalso. specialize (Hstuck (DTake env) ltac:(right; by left)). cbn in Hstuck. rewrite Hpc in Hstuck.
    by destruct take_frame as [[]|].
  - by rewrite (Hcl eq_refl).
Qed.

(** ** The properties *)

(** What a take adds to what was shipped: nothing when nothing waits, or one frame within the bounds of
    the environment the take read. *)
Definition ships_one (env : string -> option Z) (before after : list Ready) : Prop :=
  exists r, after = before ++ [r] /\ frame_ok env r.

Lemma take_ships s waiting env s' :
  system_inv s waiting -> act (DTake env) s = Some s' ->
  pc s = Draining /\
  (queue (outbox (out s)) = [] /\ shipped s' = shipped s /\ pc s' = Parked \/
   queue (outbox (out s)) <> [] /\ ships_one env (shipped s) (shipped s') /\ pc s' = Draining).
Proof.
  intros I Ha. pose proof (si_holds _ _ I) as Hh. cbn in Ha. destruct (pc s) eqn:Hpc; try done. split; [done|].
  pose proof (take_frame_refines (merge_cap env) _ _ Hh) as Ht. pose proof Hh as (base & Hq & _). rewrite Hq.
  destruct (spec_take (merge_cap env) waiting) as [[r w']|] eqn:Hs.
  - destruct Ht as (o & E & _). rewrite E in Ha. simplify_eq. right. split; [|split; [|done]].
    + by destruct waiting as [|[] ?].
    + exists r. split; [done|]. apply frame_ok_fits. by apply (spec_take_facts _ _ _ _ Hs).
  - rewrite Ht in Ha. simplify_eq. left. by rewrite (spec_take_none _ _ Hs).
Qed.

(** C9: whatever the producers append, however the drain's takes are cut and merged, and however often
    the drain is closed, reopened and kicked, what was shipped followed by what waits is what was said,
    byte for byte and in order: the data stream with its exits, and the control stream with its exits.
    A take with nothing waiting ships nothing and parks the drain; any other ships one frame, and that
    frame fits the cap of the environment this take read, counts its bytes exactly, and on the wire,
    header included, stays at or under half of the same environment's credit window, the threshold at
    which the receiver grants more: a take can never cut a frame no grant can cover. *)
Theorem outbox_is_a_fifo s :
  reachable s ->
  (exists waiting,
    holds (out s) waiting /\
    flat_map entry_data (said s) = flat_map ready_data (shipped s) ++ flat_map entry_data waiting /\
    flat_map entry_control (said s) = flat_map ready_control (shipped s) ++ flat_map entry_control waiting /\
    Forall (fun r => exists env, frame_ok env r) (shipped s)) /\
  forall env s', act (DTake env) s = Some s' ->
    pc s = Draining /\
    (queue (outbox (out s)) = [] /\ shipped s' = shipped s /\ pc s' = Parked \/
     queue (outbox (out s)) <> [] /\ ships_one env (shipped s) (shipped s') /\ pc s' = Draining).
Proof.
  intros Hr. destruct (drain_inv s Hr) as [w I]. split.
  - destruct I. by exists w.
  - intros env s'. by apply take_ships with w.
Qed.

Definition env0 : string -> option Z := fun _ => None.
Definition small_env : string -> option Z :=
  fun key => if decide (key = "SLOPDESK_MUX_MERGE_CAP"%string) then Some (4 * 1024) else None.

Definition some_bytes (n : Z) (b : byte) : list byte := replicate (Z.to_nat n) b.
Definition busy_schedule : list Action :=
  [DAppend (some_bytes 5000 (byte_of_Z 7)) [Bell]; DAppend (some_bytes 10 (byte_of_Z 9)) []; DExit 3; DWake;
   DTake small_env; DTake small_env].

Fixpoint has_room (acts : list Action) (s : System) : Prop :=
  match acts with
  | [] => True
  | a :: acts => room a s /\ match act a s with Some s' => has_room acts s' | None => True end
  end.

Lemma drain_exec_reachable acts : forall s s',
  reachable s -> has_room acts s -> exec acts s = Some s' -> reachable s'.
Proof.
  induction acts as [|a acts IH]; intros s s' Hr Hroom He; cbn in *; [by simplify_eq|].
  destruct Hroom as [Ha Hrest]. destruct (act a s) as [s1|] eqn:E; [|done].
  apply (IH s1 s'); [|done|done]. by apply (reach_act s a).
Qed.

Lemma outbox_is_a_fifo_witness :
  exists s s', exec busy_schedule system_init = Some s /\ length (shipped s) = 2%nat /\
    (exists waiting,
      holds (out s) waiting /\
      flat_map entry_data (said s) = flat_map ready_data (shipped s) ++ flat_map entry_data waiting /\
      flat_map entry_control (said s) = flat_map ready_control (shipped s) ++ flat_map entry_control waiting /\
      Forall (fun r => exists env, frame_ok env r) (shipped s)) /\
    act (DTake small_env) s = Some s' /\ ships_one small_env (shipped s) (shipped s').
Proof.
  destruct (exec busy_schedule system_init) as [s|] eqn:E; [|vm_compute in E; congruence].
  assert (Hr : reachable s).
  { apply (drain_exec_reachable busy_schedule system_init); [apply reach_init| |exact E]. vm_compute. intuition congruence. }
  destruct (outbox_is_a_fifo s Hr) as [Hfifo Htake].
  destruct (act (DTake small_env) s) as [s'|] eqn:Ea;
    [|exfalso; clear - E Ea; vm_compute in E; injection E as <-; vm_compute in Ea; discriminate].
  exists s, s'. split; [reflexivity|]. split.
  - clear - E. vm_compute in E. injection E as <-. reflexivity.
  - split; [exact Hfifo|]. split; [exact Ea|]. destruct (Htake _ _ Ea) as [_ [[Hq _]|[_ [H _]]]]; [|exact H].
    exfalso. clear - E Hq. vm_compute in E. injection E as <-. discriminate.
Defined.

(** C17: the drain terminates and strands nothing.  Let the producers pause anywhere: whatever order the
    drain's wakes, takes and the owed kick then come in, there are no more of them than [potential]
    counts, and when none is left to make, an open drain is parked with everything said shipped, and a
    closed one has returned, so the join that waits for it ends. *)
Theorem drain_terminates_and_strands_nothing env s acts s' :
  reachable s -> Forall (internal env) acts -> exec acts s = Some s' ->
  (length acts <= potential env s)%nat /\
  ((forall a, internal env a -> act a s' = None) ->
   kick_owed s' = false /\
   if closed (out s') then pc s' = Returned
   else pc s' = Parked /\ queue (outbox (out s')) = [] /\ payloads (out s') = ∅ /\
        flat_map ready_data (shipped s') = flat_map entry_data (said s') /\
        flat_map ready_control (shipped s') = flat_map entry_control (said s')).
Proof.
  intros Hr Ha He. destruct (exec_internal env acts s s' Hr Ha He) as [Hr' Hl]. split; [lia|].
  intros Hstuck. destruct (drain_inv s' Hr') as [w I].
  destruct (stuck_shipped env s' w I Hstuck) as [Hk H]. split; [done|].
  destruct (closed (out s')); [done|]. destruct H as [Hp ->]. pose proof I as [(base & Hq & Hm & _) Hd Hc _ _ _].
  cbn in Hd, Hc. rewrite app_nil_r in *. by rewrite Hd, Hc.
Qed.

Definition quiet_schedule : list Action :=
  [DAppend (some_bytes 5 (byte_of_Z 7)) [Bell]; DAppend (some_bytes 3 (byte_of_Z 9)) []; DExit 3; DWake].

Lemma drain_terminates_and_strands_nothing_witness :
  exists s s', exec quiet_schedule system_init = Some s /\
    exec [DTake small_env; DTake small_env; DTake small_env] s = Some s' /\
    (3 <= potential small_env s)%nat /\ pc s' = Parked /\
    flat_map ready_data (shipped s') = flat_map entry_data (said s').
Proof.
  destruct (exec quiet_schedule system_init) as [s|] eqn:E; [|vm_compute in E; congruence].
  assert (Hr : reachable s).
  { apply (drain_exec_reachable quiet_schedule system_init); [apply reach_init| |exact E].
    vm_compute. intuition congruence. }
  destruct (exec [DTake small_env; DTake small_env; DTake small_env] s) as [s'|] eqn:E'.
  2:{ vm_compute in E. injection E as <-. vm_compute in E'. congruence. }
  exists s, s'. split; [reflexivity|]. split; [exact E'|].
  destruct (drain_terminates_and_strands_nothing small_env s
    [DTake small_env; DTake small_env; DTake small_env] s') as [Hl Hq].
  - exact Hr.
  - do 3 (apply Forall_cons_2; [right; left; reflexivity|]). apply Forall_nil_2.
  - exact E'.
  - split; [exact Hl|]. vm_compute in E. injection E as <-. vm_compute in E'. injection E' as <-.
    destruct Hq as (_ & Hp & _ & _ & Hd & _).
    + intros a [->|[->| ->]]; vm_compute; reflexivity.
    + split; [exact Hp|exact Hd].
Defined.
