(* ===== verification/Fanout.v ===== *)
(** * Fanout: the subscriber set of one pane

    Models [slopdesk-muxsession/src/fanout.rs]: who holds a pane, how far each member has confirmed and
    shipped, how far retention may be released, and who has fallen too far behind to keep.  Everything
    is a number about a member; the members themselves are in [Session]. *)

From stdpp Require Import gmap sorting.
From S2P Require Import Prelude BTree.

Record Member : Type := mkMember {
  acked : Z;
  sent : Z;
  has_sender : bool;
  exit_delivered : bool;
  evicting : bool;
}.

(** [Member { acked, ..Member::default() }] *)
Definition member_at (acked : Z) : Member := mkMember acked 0 false false false.

Record Cursor : Type := mkCursor { c_id : Z; c_acked : Z }.
Record Priced : Type := mkPriced { p_id : Z; p_retained_bytes : Z }.

Record Fanout : Type := mkFanout { members : gmap Z Member; next_id : Z }.

Definition fanout_new : Fanout := mkFanout ∅ 1.

Definition with_members (f : Fanout) (m : gmap Z Member) : Fanout := mkFanout m (next_id f).

Definition reserve_id (f : Fanout) : Z * Fanout :=
  (next_id f, mkFanout (members f) ((next_id f + 1) mod 2 ^ 64)).

Definition join (f : Fanout) (id acked : Z) : Fanout := with_members f (<[id := member_at acked]> (members f)).

Definition leave (f : Fanout) (id : Z) : bool * Fanout :=
  let m := delete id (members f) in (bool_decide (m = ∅), with_members f m).

Definition ids (f : Fanout) : list Z := keys_by Z.le (members f).
Definition fanout_len (f : Fanout) : nat := size (members f).

Definition retention_floor (f : Fanout) : option Z := iter_min (map acked (values_by Z.le (members f))).

Definition set_acked (seq : Z) (m : Member) : Member :=
  mkMember seq (sent m) (has_sender m) (exit_delivered m) (evicting m).
Definition set_sender (b : bool) (seq : Z) (m : Member) : Member :=
  mkMember (acked m) seq b (exit_delivered m) (evicting m).
Definition set_exit_delivered (m : Member) : Member :=
  mkMember (acked m) (sent m) (has_sender m) true (evicting m).
Definition set_evicting (m : Member) : Member :=
  mkMember (acked m) (sent m) (has_sender m) (exit_delivered m) true.

Definition acknowledge (f : Fanout) (id seq : Z) : option Z * Fanout :=
  let f := with_members f (alter (set_acked seq) id (members f)) in
  (retention_floor f, f).

Definition start_sender (f : Fanout) (id head : Z) : bool * Fanout :=
  match members f !! id with
  | None => (false, f)
  | Some m =>
    if has_sender m then (false, f)
    else (true, with_members f (<[id := set_sender true head m]> (members f)))
  end.

Definition clear_sender (f : Fanout) (id : Z) : Fanout :=
  with_members f (alter (fun m => set_sender false (sent m) m) id (members f)).

Definition note_sent (f : Fanout) (id seq : Z) : Fanout :=
  with_members f
    (alter (fun m => if sent m <? seq then set_sender (has_sender m) seq m else m) id (members f)).

Definition frontier (f : Fanout) : option Z :=
  iter_max (map sent (filter (fun m => has_sender m = true) (values_by Z.le (members f)))).

Definition mark_exit_delivered (f : Fanout) (id : Z) : Fanout :=
  with_members f (alter set_exit_delivered id (members f)).

Definition exit_pending (f : Fanout) (id : Z) : bool :=
  match members f !! id with Some m => negb (exit_delivered m) | None => false end.

Definition lagging_cursors (f : Fanout) (threshold : Z) : list Cursor :=
  if (threshold =? 0) || (fanout_len f <? 2)%nat then []
  else
    match iter_max (map acked (values_by Z.le (members f))) with
    | None => []
    | Some healthiest =>
      map (fun '(id, m) => mkCursor id (acked m))
        (filter (fun p => acked p.2 <> healthiest) (btree_iter (members f)))
    end.

(** The loop of [latch_evicting] over the entries past the threshold. *)
Fixpoint latch_loop (f : Fanout) (priced : list Priced) (claimed : list Z) : list Z * Fanout :=
  match priced with
  | [] => (claimed, f)
  | entry :: rest =>
    match members f !! p_id entry with
    | Some m =>
      if evicting m then latch_loop f rest claimed
      else latch_loop (with_members f (<[p_id entry := set_evicting m]> (members f))) rest
             (claimed ++ [p_id entry])
    | None => latch_loop f rest claimed
    end
  end.

Definition latch_evicting (f : Fanout) (priced : list Priced) (threshold : Z) : list Z * Fanout :=
  if threshold =? 0 then ([], f)
  else latch_loop f (filter (fun e => threshold < p_retained_bytes e) priced) [].

(** ** The folds as statements about members *)

Lemma elem_of_acked f x :
  x ∈ map acked (values_by Z.le (members f)) <-> exists id m, members f !! id = Some m /\ x = acked m.
Proof.
  rewrite list_elem_of_fmap. split.
  - intros (m & -> & Hm). apply elem_of_values_by in Hm as [id Hid]. eauto.
  - intros (id & m & Hm & ->). exists m. rewrite elem_of_values_by. eauto.
Qed.

Lemma retention_floor_spec f x :
  retention_floor f = Some x <->
  (exists id m, members f !! id = Some m /\ acked m = x) /\
  forall id m, members f !! id = Some m -> x <= acked m.
Proof.
  unfold retention_floor. rewrite iter_min_spec, elem_of_acked. split.
  - intros [(id & m & Hm & ->) Hall]. split; [eauto|]. intros id' m' Hm'. apply Hall, elem_of_acked. eauto.
  - intros [(id & m & Hm & <-) Hall]. split; [eauto|]. intros y (id' & m' & Hm' & ->)%elem_of_acked. eauto.
Qed.

Lemma values_nil f : values_by Z.le (members f) = [] <-> members f = ∅.
Proof.
  unfold values_by. split; [|intros ->; by rewrite btree_by_empty].
  intros E%fmap_nil_inv. by apply btree_by_nil in E.
Qed.

Lemma retention_floor_none f : retention_floor f = None <-> members f = ∅.
Proof. unfold retention_floor. rewrite iter_min_none, <- values_nil. split; [apply map_eq_nil|by intros ->]. Qed.

Lemma frontier_spec f x :
  frontier f = Some x <->
  (exists id m, members f !! id = Some m /\ has_sender m = true /\ sent m = x) /\
  forall id m, members f !! id = Some m -> has_sender m = true -> sent m <= x.
Proof.
  assert (E : forall y, y ∈ map sent (filter (fun m => has_sender m = true) (values_by Z.le (members f))) <->
                exists id m, members f !! id = Some m /\ has_sender m = true /\ y = sent m).
  { intros y. rewrite list_elem_of_fmap. split.
    - intros (m & -> & [Hs Hm]%list_elem_of_filter). apply elem_of_values_by in Hm as [id Hid]. eauto 6.
    - intros (id & m & Hm & Hs & ->). exists m. rewrite list_elem_of_filter, elem_of_values_by. eauto. }
  unfold frontier. rewrite iter_max_spec, E. split.
  - intros [(id & m & Hm & Hs & ->) Hall]. split; [eauto 6|]. intros id' m' Hm' Hs'. apply Hall, E. eauto 6.
  - intros [(id & m & Hm & Hs & <-) Hall]. split; [eauto 6|]. intros y (id' & m' & Hm' & Hs' & ->)%E. eauto.
Qed.

Lemma two_members {A} (t : gmap Z A) i j x y :
  t !! i = Some x -> t !! j = Some y -> i <> j -> (2 <= size t)%nat.
Proof.
  intros Hi Hj Hne. assert (Hsub : ({[i; j]} : gset Z) ⊆ dom t).
  { intros k [->%elem_of_singleton| ->%elem_of_singleton]%elem_of_union; apply elem_of_dom; eauto. }
  apply subseteq_size in Hsub. rewrite size_dom, size_union, !size_singleton in Hsub by set_solver. lia.
Qed.

Lemma lagging_spec f threshold id a :
  mkCursor id a ∈ lagging_cursors f threshold <->
  threshold <> 0 /\ exists m, members f !! id = Some m /\ acked m = a /\
    exists id' m', members f !! id' = Some m' /\ a < acked m' /\
      forall i n, members f !! i = Some n -> acked n <= acked m'.
Proof.
  unfold lagging_cursors. destruct (Z.eqb_spec threshold 0) as [->|Ht]; cbn [orb].
  { split; [by intros ?%elem_of_nil|by intros [? _]]. }
  destruct (Nat.ltb_spec (fanout_len f) 2) as [Hlen|Hlen].
  { split; [by intros ?%elem_of_nil|]. intros (_ & m & Hm & Ha & id' & m' & Hm' & Hlt & _).
    exfalso. assert (id <> id') by (intros ->; simplify_eq; lia). unfold fanout_len in Hlen.
    pose proof (two_members (members f) id id' m m' Hm Hm' ltac:(done)). lia. }
  destruct (iter_max _) as [h|] eqn:Eh.
  2:{ apply iter_max_none, map_eq_nil, values_nil in Eh. split; [by intros ?%elem_of_nil|].
      intros (_ & m & Hm & _). by rewrite Eh in Hm. }
  apply iter_max_spec in Eh as [(idh & mh & Hmh & ->)%elem_of_acked Hmax].
  assert (Hall : forall i n, members f !! i = Some n -> acked n <= acked mh)
    by (intros i n Hn; apply Hmax, elem_of_acked; eauto).
  rewrite list_elem_of_fmap. split.
  - intros ([i m] & E & [Hne Hin]%list_elem_of_filter). injection E as -> ->.
    apply elem_of_btree_by in Hin. split; [done|]. exists m. split_and!; [done|done|].
    exists idh, mh. split_and!; [done| |done]. specialize (Hall _ _ Hin). cbn in Hne. lia.
  - intros (_ & m & Hm & <- & id' & m' & Hm' & Hlt & Hmax').
    exists (id, m). split; [done|]. apply list_elem_of_filter. split; [|by apply elem_of_btree_by].
    specialize (Hall _ _ Hm'). cbn. lia.
Qed.

Lemma latch_loop_spec priced : forall f claimed,
  let '(ids, f') := latch_loop f priced claimed in
  next_id f' = next_id f /\
  exists fresh, ids = claimed ++ fresh /\ NoDup fresh /\
  (forall id, id ∈ fresh <-> exists m, members f !! id = Some m /\ evicting m = false /\ id ∈ map p_id priced) /\
  forall id, members f' !! id = (if bool_decide (id ∈ fresh) then set_evicting else fun m => m) <$> members f !! id.
Proof.
  induction priced as [|e priced IH]; intros f claimed; cbn [latch_loop].
  { split; [done|]. exists []. rewrite app_nil_r. split_and!; [done|constructor| |].
    - intros id. split; [by intros ?%elem_of_nil|]. by intros (m & _ & _ & ?%elem_of_nil).
    - intros id. rewrite bool_decide_eq_false_2 by apply not_elem_of_nil. by rewrite option_fmap_id. }
  assert (Hskip : (forall m, members f !! p_id e = Some m -> evicting m = true) ->
    let '(ids, f') := latch_loop f priced claimed in
    next_id f' = next_id f /\
    exists fresh, ids = claimed ++ fresh /\ NoDup fresh /\
    (forall id, id ∈ fresh <-> exists m, members f !! id = Some m /\ evicting m = false /\ id ∈ map p_id (e :: priced)) /\
    forall id, members f' !! id = (if bool_decide (id ∈ fresh) then set_evicting else fun m => m) <$> members f !! id).
  { intros Hev. specialize (IH f claimed). destruct (latch_loop f priced claimed) as [ids' f'].
    destruct IH as (Hn & fresh & Hids & Hnd & Hin & Hf). split; [done|]. exists fresh. split_and!; try done.
    intros id. rewrite Hin. cbn. setoid_rewrite elem_of_cons. split; [naive_solver|].
    intros (m & Hm & He & [->|Hp]); [by rewrite (Hev m Hm) in He|eauto]. }
  destruct (members f !! p_id e) as [m|] eqn:Hm; [|apply Hskip; by intros ? [=]].
  destruct (evicting m) eqn:He; [apply Hskip; by intros ? [= <-]|]. clear Hskip.
  specialize (IH (with_members f (<[p_id e := set_evicting m]> (members f))) (claimed ++ [p_id e])).
  destruct (latch_loop _ _ _) as [ids' f']. destruct IH as (Hn & fresh & Hids & Hnd & Hin & Hf).
  cbn [members with_members next_id] in *. split; [done|].
  assert (Hnot : p_id e ∉ fresh).
  { rewrite Hin. intros (m' & Hm' & He' & _). rewrite lookup_insert_eq in Hm'. by injection Hm' as <-. }
  exists (p_id e :: fresh). split_and!.
  - by rewrite Hids, <- app_assoc.
  - by constructor.
  - intros id. rewrite elem_of_cons, Hin. cbn [map]. setoid_rewrite elem_of_cons. split.
    + intros [->|(m' & Hm' & He' & Hp)]; [by exists m; eauto|].
      destruct (decide (id = p_id e)) as [->|Hne]; [by exists m; eauto|].
      rewrite lookup_insert_ne in Hm' by done. eauto 6.
    + intros (m' & Hm' & He' & Hp). destruct (decide (id = p_id e)) as [->|Hne]; [by left|right].
      exists m'. rewrite lookup_insert_ne by done. naive_solver.
  - intros id. rewrite Hf. destruct (decide (id = p_id e)) as [->|Hne].
    + rewrite lookup_insert_eq, Hm. rewrite bool_decide_eq_false_2 by done.
      rewrite bool_decide_eq_true_2 by left. done.
    + rewrite lookup_insert_ne by done. f_equal.
      rewrite (bool_decide_ext (id ∈ p_id e :: fresh) (id ∈ fresh)) by (rewrite elem_of_cons; naive_solver). done.
Qed.

Lemma latch_spec f priced threshold :
  let '(ids, f') := latch_evicting f priced threshold in
  NoDup ids /\ next_id f' = next_id f /\
  (forall id, id ∈ ids <-> threshold <> 0 /\ exists m bytes, members f !! id = Some m /\ evicting m = false /\
                mkPriced id bytes ∈ priced /\ threshold < bytes) /\
  forall id, members f' !! id = (if bool_decide (id ∈ ids) then set_evicting else fun m => m) <$> members f !! id.
Proof.
  unfold latch_evicting. destruct (Z.eqb_spec threshold 0) as [->|Ht].
  { split_and!; [constructor|done| |].
    - intros id. split; [by intros ?%elem_of_nil|naive_solver].
    - intros id. rewrite bool_decide_eq_false_2 by apply not_elem_of_nil. by rewrite option_fmap_id. }
  pose proof (latch_loop_spec (filter (fun e => threshold < p_retained_bytes e) priced) f []) as H.
  destruct (latch_loop _ _ _) as [ids' f']. destruct H as (Hn & fresh & -> & Hnd & Hin & Hf). cbn [app].
  split_and!; try done. intros id. rewrite Hin. split.
  - intros (m & Hm & He & ([i b] & -> & [Hb Hp]%list_elem_of_filter)%list_elem_of_fmap). eauto 9.
  - intros (_ & m & b & Hm & He & Hp & Hb). exists m. split_and!; [done|done|].
    apply list_elem_of_fmap. exists (mkPriced id b). split; [done|]. by apply list_elem_of_filter.
Qed.
