(* ===== verification/Session.v ===== *)
(** * Session: the threads of one pane, and the state they share

    Models [slopdesk-hostsession/src/shared.rs], [drain.rs], [subscriber.rs] and the ladders of
    [session.rs] that change who is attached.  A [Sec] is one critical section: what a thread does under
    one lock, atomically.  A thread is the list of sections it still has to run; a section answers the
    sections that follow from what it read.  The drain, each member's sender, each join's state
    transfer and every other call are threads of their own, and a step runs one section of one of them,
    so every interleaving the locks allow is a run.

    A member is an address in the [heap]: the roster, the drain and the relays share it, and the
    identity guard of [retire] compares addresses.  The screen a join renders is whatever the caller
    composed.  Three fields are there for the statements alone and no step reads them: [spoken], and
    [s_from] and [s_promised] of a member. *)

From stdpp Require Import gmap sorting.
From S2P Require Import Prelude BTree Message Flow Replay Outbox Fanout.

(** ** The state *)

Record Lane : Type := mkLane { pending : list WireMessage; lane_closed : bool }.
Definition lane_default : Lane := mkLane [] false.

Record Subscriber : Type := mkSubscriber {
  s_id : Z;
  s_data : list WireMessage;          (* handed to the data sub-channel, in order *)
  s_control : list WireMessage;       (* handed to the control sub-channel, in order *)
  s_finished : bool;
  s_data_lane : Lane;
  s_control_lane : Lane;
  s_running : bool;                   (* a data sender thread exists *)
  s_batch : list WireMessage;         (* what that thread has taken and not yet sent *)
  s_transfer : option (list WireMessage * Z);  (* what the joining thread has still to send, and its head *)
  s_prefix : list WireMessage;        (* the whole state transfer *)
  s_from : nat;                       (* how much had been spoken when it was admitted *)
  s_promised : Z;                     (* what it has at least been given or has confirmed *)
}.

Definition subscriber_new (id : Z) (transfer : option (list WireMessage * Z)) (from : nat) (promised : Z)
    : Subscriber :=
  mkSubscriber id [] [] false lane_default lane_default false [] transfer
    (match transfer with Some (ms, _) => ms | None => [] end) from promised.

Inductive Sec : Type :=
(* the drain *)
| SSequence (bytes : list byte) (byte_count : Z) (control : list WireMessage)
| SEnqueueData (a : nat) (m : WireMessage)
| SSendInline (a : nat) (m : WireMessage)
| SEnqueueControl (a : nat) (ms : list WireMessage)
| SHandOffExit (code : Z)
| SExitSent
(* the producers *)
| SEnqueueAccounted (count : Z)
| SAppendChunk (bytes : list byte) (control : list WireMessage)
| SAppendExit (code : Z)
(* the numbers *)
| SNoteSent (id seq : Z)
| SBacklogAt (frontier : Z)
| SSetBacklog (bytes : Z)
| SDequeueAccounted (count : Z)
| SExitDelivered (id : Z)
| SAck (id seq : Z)
| SAckRing (floor : Z)
| SReplayPause (pause : bool)
| SEvict
| SPrice (behind : list Cursor)
| SLatch (priced : list Priced)
| SFire (doomed : list Z)
| SFloor
| SFloorRing (floor : option Z)
| SOnline
| SSetOnline (online : bool)
(* the members *)
| SCloseLanes (a : nat)
| SFinish (a : nat)
| SRetire (a : nat)
| SDetachRoster
| SCloseDrain
| SReopenDrain
| SStartDrain
| SKickDrain
| SStartIfFanned (a : nat) (head : Z)
| SBeginFanOut
| SFanOutHead
| SFanOutRoster (head : Z)
| SStartSender (a : nat) (head : Z)
| SClearSender (id : Z).

Record Session : Type := mkSession {
  replay : ReplayBuffer;
  gate : PausableQueueGate.t;
  fanout : Fanout;
  by_id : gmap Z nat;
  granted : list Z;                   (* ids reserved and not yet joined under *)
  heap : gmap nat Subscriber;
  fanned_out : bool;
  outbound : Outbound;
  detached : bool;
  exit_sent : bool;
  evicted : list Z;                   (* what the eviction seam was handed *)
  running : bool;                     (* the drain thread exists *)
  drain : list Sec;                   (* the rest of the drain's current frame *)
  calls : list (list Sec);            (* every other thread *)
  spoken : list WireMessage;          (* every frame sequenced and every exit handed off *)
}.

(** ** Setters *)

Definition with_replay (s : Session) b := mkSession b (gate s) (fanout s) (by_id s) (granted s) (heap s)
  (fanned_out s) (outbound s) (detached s) (exit_sent s) (evicted s) (running s) (drain s) (calls s) (spoken s).
Definition with_gate (s : Session) g := mkSession (replay s) g (fanout s) (by_id s) (granted s) (heap s)
  (fanned_out s) (outbound s) (detached s) (exit_sent s) (evicted s) (running s) (drain s) (calls s) (spoken s).
Definition with_fanout (s : Session) f := mkSession (replay s) (gate s) f (by_id s) (granted s) (heap s)
  (fanned_out s) (outbound s) (detached s) (exit_sent s) (evicted s) (running s) (drain s) (calls s) (spoken s).
Definition with_roster (s : Session) f r := mkSession (replay s) (gate s) f r (granted s) (heap s)
  (fanned_out s) (outbound s) (detached s) (exit_sent s) (evicted s) (running s) (drain s) (calls s) (spoken s).
Definition with_granted (s : Session) f g := mkSession (replay s) (gate s) f (by_id s) g (heap s)
  (fanned_out s) (outbound s) (detached s) (exit_sent s) (evicted s) (running s) (drain s) (calls s) (spoken s).
Definition with_heap (s : Session) h := mkSession (replay s) (gate s) (fanout s) (by_id s) (granted s) h
  (fanned_out s) (outbound s) (detached s) (exit_sent s) (evicted s) (running s) (drain s) (calls s) (spoken s).
Definition with_fanned (s : Session) b := mkSession (replay s) (gate s) (fanout s) (by_id s) (granted s) (heap s)
  b (outbound s) (detached s) (exit_sent s) (evicted s) (running s) (drain s) (calls s) (spoken s).
Definition with_outbound (s : Session) o := mkSession (replay s) (gate s) (fanout s) (by_id s) (granted s) (heap s)
  (fanned_out s) o (detached s) (exit_sent s) (evicted s) (running s) (drain s) (calls s) (spoken s).
Definition with_detached (s : Session) b := mkSession (replay s) (gate s) (fanout s) (by_id s) (granted s) (heap s)
  (fanned_out s) (outbound s) b (exit_sent s) (evicted s) (running s) (drain s) (calls s) (spoken s).
Definition with_exit_sent (s : Session) := mkSession (replay s) (gate s) (fanout s) (by_id s) (granted s) (heap s)
  (fanned_out s) (outbound s) (detached s) true (evicted s) (running s) (drain s) (calls s) (spoken s).
Definition with_evicted (s : Session) e := mkSession (replay s) (gate s) (fanout s) (by_id s) (granted s) (heap s)
  (fanned_out s) (outbound s) (detached s) (exit_sent s) e (running s) (drain s) (calls s) (spoken s).
Definition with_drain (s : Session) r d := mkSession (replay s) (gate s) (fanout s) (by_id s) (granted s) (heap s)
  (fanned_out s) (outbound s) (detached s) (exit_sent s) (evicted s) r d (calls s) (spoken s).
Definition with_calls (s : Session) c := mkSession (replay s) (gate s) (fanout s) (by_id s) (granted s) (heap s)
  (fanned_out s) (outbound s) (detached s) (exit_sent s) (evicted s) (running s) (drain s) c (spoken s).
Definition with_spoken (s : Session) m := mkSession (replay s) (gate s) (fanout s) (by_id s) (granted s) (heap s)
  (fanned_out s) (outbound s) (detached s) (exit_sent s) (evicted s) (running s) (drain s) (calls s) m.

Definition session_new (b : ReplayBuffer) (capacity : Z) : Session :=
  mkSession b (PausableQueueGate.new capacity) fanout_new ∅ [] ∅ false outbound_default false false []
    false [] [] [].

Definition update (s : Session) (a : nat) (f : Subscriber -> Subscriber) : Session :=
  with_heap s (alter f a (heap s)).

(** ** A member's lanes and channels *)

Definition set_data (x : Subscriber) data lane run batch transfer : Subscriber :=
  mkSubscriber (s_id x) data (s_control x) (s_finished x) lane (s_control_lane x) run batch transfer
    (s_prefix x) (s_from x) (s_promised x).
Definition set_control (x : Subscriber) control lane : Subscriber :=
  mkSubscriber (s_id x) (s_data x) control (s_finished x) (s_data_lane x) lane (s_running x) (s_batch x)
    (s_transfer x) (s_prefix x) (s_from x) (s_promised x).
Definition set_finished (x : Subscriber) : Subscriber :=
  mkSubscriber (s_id x) (s_data x) (s_control x) true (s_data_lane x) (s_control_lane x) (s_running x)
    (s_batch x) (s_transfer x) (s_prefix x) (s_from x) (s_promised x).
Definition set_promised (p : Z) (x : Subscriber) : Subscriber :=
  mkSubscriber (s_id x) (s_data x) (s_control x) (s_finished x) (s_data_lane x) (s_control_lane x)
    (s_running x) (s_batch x) (s_transfer x) (s_prefix x) (s_from x) p.

Definition MAX_CONTROL_OUT_QUEUED : nat := 1024.

Definition enqueue_control (ms : list WireMessage) (x : Subscriber) : Subscriber :=
  match ms with
  | [] => x
  | _ =>
    if lane_closed (s_control_lane x) then x
    else
      let pend := pending (s_control_lane x) ++ ms in
      let overflow := (length pend - MAX_CONTROL_OUT_QUEUED)%nat in
      set_control x (s_control x) (mkLane (drop overflow pend) false)
  end.

Definition enqueue_data (ms : list WireMessage) (x : Subscriber) : Subscriber :=
  match ms with
  | [] => x
  | _ =>
    if lane_closed (s_data_lane x) then x
    else set_data x (s_data x) (mkLane (pending (s_data_lane x) ++ ms) false) (s_running x) (s_batch x) (s_transfer x)
  end.

Definition close_lanes (x : Subscriber) : Subscriber :=
  set_control (set_data x (s_data x) (mkLane [] true) (s_running x) (s_batch x) (s_transfer x))
    (s_control x) (mkLane [] true).

(** [SubChannel::send] on the data channel: an error once the channel is finished. *)
Definition send_data (m : WireMessage) (x : Subscriber) : Subscriber :=
  if s_finished x then x
  else set_data x (s_data x ++ [m]) (s_data_lane x) (s_running x) (s_batch x) (s_transfer x).

Definition start_running (x : Subscriber) : Subscriber :=
  set_data x (s_data x) (s_data_lane x) true (s_batch x) (s_transfer x).

(** The roster in id order. *)
Definition roster (s : Session) : list nat := values_by Z.le (by_id s).

(** [saturating_i64] of a [usize]. *)
Definition saturating_i64 (count : Z) : Z := Z.min count i64_max.

Section Machine.
(** [Eviction::lag_bytes] of the session's configuration: zero switches the rule off. *)
Context (lag_bytes : Z).

Definition leaving (a : nat) : list Sec := [SCloseLanes a; SFinish a; SRetire a].

Definition id_of (s : Session) (a : nat) : Z := from_option s_id 0 (heap s !! a).
Definition finished (s : Session) (a : nat) : bool := from_option s_finished true (heap s !! a).

(** What follows a send of [m] on a data channel that did or did not take it. *)
Definition after_send (id : Z) (sent : bool) (m : WireMessage) : list Sec :=
  match m with
  | Output seq _ => if sent then [SNoteSent id seq] else []
  | Exit _ => [SExitDelivered id]
  | _ => []
  end.

Definition ship (s : Session) (targets : list nat) (m : WireMessage) : list Sec :=
  if fanned_out s then map (fun a => SEnqueueData a m) targets
  else match targets with [] => [] | a :: _ => [SSendInline a m] end.

(** ** The critical sections *)

(** *** The drain *)

Definition sec_sequence (bytes : list byte) (byte_count : Z) (control : list WireMessage) (s : Session)
    : Session * list Sec :=
  let targets := roster s in
  let '(seq, b) := Replay.append (replay s) bytes in
  let m := Output seq bytes in
  (with_spoken (with_replay s b) (spoken s ++ [m]),
   ship s targets m ++ SDequeueAccounted byte_count ::
   (match control with [] => [] | _ => map (fun a => SEnqueueControl a control) targets end) ++ [SEvict]).

Definition sec_send_inline (a : nat) (m : WireMessage) (s : Session) : Session * list Sec :=
  (update s a (send_data m), after_send (id_of s a) (negb (finished s a)) m).

Definition sec_hand_off_exit (code : Z) (s : Session) : Session * list Sec :=
  (with_spoken s (spoken s ++ [Exit code]), ship s (roster s) (Exit code)).

(** *** The numbers *)

Definition sec_enqueue_accounted (count : Z) (s : Session) : Session * list Sec :=
  (with_gate s (PausableQueueGate.enqueue (gate s) (saturating_i64 count)).2, []).

Definition sec_dequeue_accounted (count : Z) (s : Session) : Session * list Sec :=
  (with_gate s (PausableQueueGate.dequeue (gate s) (saturating_i64 count)).2, []).

Definition sec_note_sent (id seq : Z) (s : Session) : Session * list Sec :=
  let f := note_sent (fanout s) id seq in
  (with_fanout s f, match frontier f with None => [SSetBacklog 0] | Some x => [SBacklogAt x] end).

Definition sec_backlog_at (x : Z) (s : Session) : Session * list Sec :=
  (s, [SSetBacklog (retained_bytes_above (replay s) x)]).

Definition sec_set_fanout_backlog (bytes : Z) (s : Session) : Session * list Sec :=
  (with_gate s (PausableQueueGate.set_fanout_backlog (gate s) (saturating_i64 bytes)).2, []).

Definition sec_acknowledge (id seq : Z) (s : Session) : Session * list Sec :=
  let '(floor, f) := acknowledge (fanout s) id seq in
  let s := with_fanout s f in
  let s := match by_id s !! id with
           | Some a => update s a (fun x => set_promised (Z.max (s_promised x) seq) x)
           | None => s
           end in
  (s, [SAckRing (default seq floor)]).

Definition sec_ack_ring (floor : Z) (s : Session) : Session * list Sec :=
  let b := Replay.ack (replay s) floor in
  (with_replay s b, [SReplayPause (should_pause_drain b); SEvict]).

Definition sec_set_replay_pause (pause : bool) (s : Session) : Session * list Sec :=
  (with_gate s (PausableQueueGate.set_replay_pause (gate s) pause).2, []).

Definition sec_evict_lagging (s : Session) : Session * list Sec :=
  (s, if lag_bytes =? 0 then []
      else match lagging_cursors (fanout s) lag_bytes with [] => [] | behind => [SPrice behind] end).

Definition sec_price (behind : list Cursor) (s : Session) : Session * list Sec :=
  (s, [SLatch (map (fun c => mkPriced (c_id c) (retained_bytes_above (replay s) (c_acked c))) behind)]).

Definition sec_latch (priced : list Priced) (s : Session) : Session * list Sec :=
  let '(doomed, f) := latch_evicting (fanout s) priced lag_bytes in (with_fanout s f, [SFire doomed]).

Definition sec_retention_floor (s : Session) : Session * list Sec :=
  (s, [SFloorRing (retention_floor (fanout s))]).

Definition sec_release_retention (floor : option Z) (s : Session) : Session * list Sec :=
  let b := match floor with Some x => Replay.ack (replay s) x | None => replay s end in
  (with_replay s b, [SReplayPause (should_pause_drain b)]).

Definition sec_recompute_client_online (s : Session) : Session * list Sec :=
  (s, [SSetOnline (0 <? size (by_id s))%nat]).

Definition sec_set_client_online (online : bool) (s : Session) : Session * list Sec :=
  let b := set_client_online (replay s) online in
  (with_replay s b, [SReplayPause (should_pause_drain b)]).

(** *** The members *)

Definition sec_retire (a : nat) (s : Session) : Session * list Sec :=
  (if bool_decide (by_id s !! id_of s a = Some a)
   then with_roster s (leave (fanout s) (id_of s a)).2 (delete (id_of s a) (by_id s))
   else s, []).

Definition sec_detach_roster (s : Session) : Session * list Sec :=
  (s, flat_map leaving (roster s) ++ [SCloseDrain; SOnline]).

Definition sec_begin_fan_out (s : Session) : Session * list Sec :=
  if fanned_out s then (s, []) else (with_fanned s true, [SFanOutHead]).

Definition sec_fan_out_roster (head : Z) (s : Session) : Session * list Sec :=
  (s, map (fun a => SStartSender a head) (roster s)).

Definition sec_start_if_fanned (a : nat) (head : Z) (s : Session) : Session * list Sec :=
  (s, if fanned_out s then [SStartSender a head] else []).

Definition sec_start_data_sender (a : nat) (head : Z) (s : Session) : Session * list Sec :=
  let '(claimed, f) := start_sender (fanout s) (id_of s a) head in
  (if claimed then update (with_fanout s f) a start_running else s, []).

Definition run_sec (sec : Sec) (s : Session) : Session * list Sec :=
  match sec with
  | SSequence bytes byte_count control => sec_sequence bytes byte_count control s
  | SEnqueueData a m => (update s a (enqueue_data [m]), [])
  | SSendInline a m => sec_send_inline a m s
  | SEnqueueControl a ms => (update s a (enqueue_control ms), [])
  | SHandOffExit code => sec_hand_off_exit code s
  | SExitSent => (with_exit_sent s, [])
  | SEnqueueAccounted count => sec_enqueue_accounted count s
  | SAppendChunk bytes control => (with_outbound s (out_append_chunk (outbound s) bytes control), [])
  | SAppendExit code => (with_outbound s (out_append_exit (outbound s) code), [])
  | SNoteSent id seq => sec_note_sent id seq s
  | SBacklogAt x => sec_backlog_at x s
  | SSetBacklog bytes => sec_set_fanout_backlog bytes s
  | SDequeueAccounted count => sec_dequeue_accounted count s
  | SExitDelivered id => (with_fanout s (mark_exit_delivered (fanout s) id), [])
  | SAck id seq => sec_acknowledge id seq s
  | SAckRing floor => sec_ack_ring floor s
  | SReplayPause pause => sec_set_replay_pause pause s
  | SEvict => sec_evict_lagging s
  | SPrice behind => sec_price behind s
  | SLatch priced => sec_latch priced s
  | SFire doomed => (with_evicted s (evicted s ++ doomed), [])
  | SFloor => sec_retention_floor s
  | SFloorRing floor => sec_release_retention floor s
  | SOnline => sec_recompute_client_online s
  | SSetOnline online => sec_set_client_online online s
  | SCloseLanes a => (update s a close_lanes, [])
  | SFinish a => (update s a set_finished, [])
  | SRetire a => sec_retire a s
  | SDetachRoster => sec_detach_roster s
  | SCloseDrain => (with_outbound s (close_drain (outbound s)), [])
  | SReopenDrain => (with_outbound s (reopen_drain (outbound s)), [])
  | SStartDrain => (with_drain s true (drain s), [])
  | SKickDrain => (with_outbound s (kick_drain (outbound s)).2, [])
  | SBeginFanOut => sec_begin_fan_out s
  | SFanOutHead => (s, [SFanOutRoster (highest_seq (replay s))])
  | SFanOutRoster head => sec_fan_out_roster head s
  | SStartIfFanned a head => sec_start_if_fanned a head s
  | SStartSender a head => sec_start_data_sender a head s
  | SClearSender id => (with_fanout s (clear_sender (fanout s) id), [])
  end.

(** ** Who comes and goes *)

(** [Shared::admit]: a member with its cursor at [acked]. *)
Definition enroll (s : Session) (a : nat) (x : Subscriber) (acked : Z) : Session :=
  with_heap (with_roster s (join (fanout s) (s_id x) acked) (<[s_id x := a]> (by_id s))) (<[a := x]> (heap s)).

Definition mint (s : Session) : Z * Session :=
  let '(id, f) := reserve_id (fanout s) in (id, with_fanout s f).

(** [Shared::admit_joiner], one step under the sequencing lock. *)
Definition admit_joiner (s : Session) (a : nat) (reserved : option Z) (composed_through : Z)
    (rendered : list WireMessage) : option Session :=
  if detached s then None
  else
    let incumbents := roster s in
    match incumbents with
    | [] => None
    | _ =>
      let catch_up := map Replay.output (messages (replay s) composed_through) in
      let head := highest_seq (replay s) in
      let '(id, s) := match reserved with
                      | Some id => (id, with_granted s (fanout s) (filter (.≠ id) (granted s)))
                      | None => mint s
                      end in
      let x := subscriber_new id (Some (rendered ++ catch_up, head)) (length (spoken s)) head in
      let s := enroll (with_fanned s true) a x head in
      Some (with_calls s (calls s ++ [map (fun i => SStartSender i head) incumbents]))
    end.

(** [PaneSession::attach]: the first member of a pane whose drain has not started. *)
Definition attach (s : Session) (a : nat) : Session :=
  let '(id, s) := mint s in
  let head := highest_seq (replay s) in
  let s := enroll s a (subscriber_new id None (length (spoken s)) head) 0 in
  with_calls s (calls s ++ [[SOnline; SStartIfFanned a head]]).

(** [PaneSession::rebind]: the member that returns to a detached pane. *)
Definition PRIMARY_SUBSCRIBER : Z := 0.
Definition rebind (s : Session) (a : nat) : Session :=
  let s := with_fanned (with_detached s false) false in
  let s := enroll s a (subscriber_new PRIMARY_SUBSCRIBER None (length (spoken s)) (highest_seq (replay s))) 0 in
  with_calls s (calls s ++ [[SReopenDrain; SStartDrain; SKickDrain; SOnline]]).

Definition detach (s : Session) : Session :=
  if detached s then s
  else with_calls (with_detached s true) (calls s ++ [[SDetachRoster]]).

Inductive Call : Type :=
| CallAck (id seq : Z)
| CallInputEnds (a : nat)
| CallControlEnds (a : nat)
| CallRemove (id : Z)
| CallIngest (bytes : list byte) (control : list WireMessage)
| CallSeed (bytes : list byte)
| CallExit (code : Z)
| CallBroadcast (ms : list WireMessage)
| CallFanOut
| CallShutdown.

Definition program (s : Session) (c : Call) : list Sec :=
  match c with
  | CallAck id seq => [SAck id seq]
  | CallInputEnds a => leaving a ++ [SOnline]
  | CallControlEnds a => [SCloseLanes a; SFinish a]
  | CallRemove id =>
    match by_id s !! id with Some a => leaving a ++ [SOnline; SFloor] | None => [] end
  | CallIngest bytes control => [SEnqueueAccounted (zlen bytes); SAppendChunk bytes control]
  | CallSeed bytes => match bytes with [] => [] | _ => [SAppendChunk bytes []] end
  | CallExit code => [SAppendExit code]
  | CallBroadcast ms => match ms with [] => [] | _ => map (fun a => SEnqueueControl a ms) (roster s) end
  | CallFanOut => [SBeginFanOut]
  | CallShutdown => SCloseDrain :: flat_map (fun a => [SCloseLanes a; SFinish a]) (roster s)
  end.

(** ** Steps *)

Inductive Action : Type :=
| ACall (c : Call)
| AStep (i : nat)
| AStart
| ADrainTake (env : string -> option Z)
| ADrainStep
| ADrainStop
| AReserve
| AJoin (a : nat) (reserved : option Z) (composed_through : Z) (rendered : list WireMessage)
| AAttach (a : nat)
| ADetach
| ARebind (a : nat)
| ATransfer (a : nat)
| ASenderTake (a : nat)
| ASenderSend (a : nat)
| AControlSend (a : nat).

Definition frame_sections (r : Ready) : list Sec :=
  match r with
  | ReadyOutput bytes byte_count control => [SSequence bytes byte_count control]
  | ReadyExit code => [SHandOffExit code; SExitSent]
  end.

(** The joining thread: the next message of the state transfer, or the sender that follows it. *)
Definition transfer_step (s : Session) (a : nat) (x : Subscriber) : option Session :=
  match s_transfer x with
  | Some (m :: rest, head) =>
    let rest := if s_finished x then [] else rest in
    let x := send_data m x in
    Some (with_heap s (<[a := set_data x (s_data x) (s_data_lane x) (s_running x) (s_batch x) (Some (rest, head))]>
                         (heap s)))
  | Some ([], head) =>
    let s := with_heap s (<[a := set_data x (s_data x) (s_data_lane x) (s_running x) (s_batch x) None]> (heap s)) in
    Some (with_calls s (calls s ++ [[SStartSender a head; SOnline]]))
  | None => None
  end.

(** [take_data]: the whole lane, or the end of the thread once the lane is closed and empty. *)
Definition sender_take (s : Session) (a : nat) (x : Subscriber) : option Session :=
  match s_running x, s_batch x, pending (s_data_lane x) with
  | true, [], [] =>
    if lane_closed (s_data_lane x) then
      let s := with_heap s (<[a := set_data x (s_data x) (s_data_lane x) false [] (s_transfer x)]> (heap s)) in
      Some (with_calls s (calls s ++ [[SClearSender (s_id x)]]))
    else None
  | true, [], ms =>
    Some (with_heap s (<[a := set_data x (s_data x) (mkLane [] (lane_closed (s_data_lane x))) true ms
                                (s_transfer x)]> (heap s)))
  | _, _, _ => None
  end.

Definition sender_send (s : Session) (a : nat) (x : Subscriber) : option Session :=
  match s_batch x with
  | m :: rest =>
    let y := send_data m x in
    let s' := with_heap s (<[a := set_data y (s_data y) (s_data_lane y) (s_running y) rest (s_transfer y)]> (heap s)) in
    Some (with_calls s' (calls s' ++ [after_send (s_id x) (negb (s_finished x)) m]))
  | [] => None
  end.

(** [take_control], and each of the batch sent unless the channel is finished. *)
Definition control_send (s : Session) (a : nat) (x : Subscriber) : Session :=
  let sent := if s_finished x then [] else pending (s_control_lane x) in
  with_heap s (<[a := set_control x (s_control x ++ sent) (mkLane [] (lane_closed (s_control_lane x)))]> (heap s)).

Definition act (action : Action) (s : Session) : option Session :=
  match action with
  | ACall c => Some (with_calls s (calls s ++ [program s c]))
  | AStep i =>
    match calls s !! i with
    | Some (sec :: rest) =>
      let '(s', more) := run_sec sec s in Some (with_calls s' (<[i := more ++ rest]> (calls s')))
    | _ => None
    end
  | AStart => if running s then None else Some (with_drain s true (drain s))
  | ADrainTake env =>
    match running s, drain s with
    | true, [] =>
      match take_frame (merge_cap env) (outbound s) with
      | Some (r, o) => Some (with_drain (with_outbound s o) true (frame_sections r))
      | None => None
      end
    | _, _ => None
    end
  | ADrainStep =>
    match running s, drain s with
    | true, sec :: rest => let '(s', more) := run_sec sec s in Some (with_drain s' true (more ++ rest))
    | _, _ => None
    end
  | ADrainStop =>
    match running s, drain s, closed (outbound s) with
    | true, [], true => Some (with_drain s false [])
    | _, _, _ => None
    end
  | AReserve =>
    let '(id, s') := mint s in Some (with_granted s' (fanout s') (id :: granted s'))
  | AJoin a reserved composed_through rendered => admit_joiner s a reserved composed_through rendered
  | AAttach a => Some (attach s a)
  | ADetach => Some (detach s)
  | ARebind a => if detached s then Some (rebind s a) else None
  | ATransfer a => heap s !! a ≫= transfer_step s a
  | ASenderTake a => heap s !! a ≫= sender_take s a
  | ASenderSend a => heap s !! a ≫= sender_send s a
  | AControlSend a => control_send s a <$> heap s !! a
  end.

(** What the callers keep to.  An address is new, and a relay is its member's; a reserved id was granted; a screen was rendered from
    what the ring had; the first attach and a rebind find nobody attached and no drain; a client confirms
    only what it was sent; and fewer than 2^64 ids are minted. *)
Definition caller_ok (action : Action) (s : Session) : Prop :=
  match action with
  | ACall (CallInputEnds a) | ACall (CallControlEnds a) => is_Some (heap s !! a)
  | AReserve => next_id (fanout s) + 1 < 2 ^ 64
  | AJoin a reserved composed_through _ =>
    heap s !! a = None /\ 0 <= composed_through <= highest_seq (replay s) /\
    match reserved with
    | Some id => id ∈ granted s
    | None => next_id (fanout s) + 1 < 2 ^ 64
    end
  | AAttach a =>
    heap s !! a = None /\ by_id s = ∅ /\ running s = false /\ drain s = [] /\
    next_id (fanout s) + 1 < 2 ^ 64
  | ARebind a => heap s !! a = None /\ by_id s = ∅ /\ running s = false /\ drain s = []
  | AStep i =>
    match calls s !! i with
    | Some (SAck id seq :: _) => 0 <= seq <= highest_seq (replay s)
    | _ => True
    end
  | _ => True
  end.

(** Joins, and the switch to fan-out, come one after the other: no member is still being sent its state
    transfer when another call reads the roster to start the senders of it. *)
Definition serial (action : Action) (s : Session) : Prop :=
  match action with
  | AJoin _ _ _ _ => forall a x, heap s !! a = Some x -> s_transfer x = None
  | AStep i =>
    match calls s !! i with
    | Some (SFanOutRoster _ :: _) => forall a x, heap s !! a = Some x -> s_transfer x = None
    | _ => True
    end
  | _ => True
  end.

Inductive reachable (ok : Action -> Session -> Prop) : Session -> Prop :=
| reach_new m o r capacity : 0 <= r -> reachable ok (session_new (with_caps m o r) capacity)
| reach_act s action s' : reachable ok s -> ok action s -> act action s = Some s' -> reachable ok s'.

Definition orderly (action : Action) (s : Session) : Prop := caller_ok action s /\ serial action s.

Fixpoint exec (actions : list Action) (s : Session) : option Session :=
  match actions with
  | [] => Some s
  | action :: actions => act action s ≫= exec actions
  end.
End Machine.

(** Unfolds the section a step runs, and no further. *)
Ltac step_cbn := cbn [run_sec]; cbv delta [sec_sequence sec_send_inline sec_hand_off_exit
  sec_enqueue_accounted sec_dequeue_accounted sec_note_sent sec_backlog_at sec_set_fanout_backlog
  sec_acknowledge sec_ack_ring sec_set_replay_pause sec_evict_lagging sec_price sec_latch
  sec_retention_floor sec_release_retention sec_recompute_client_online sec_set_client_online sec_retire
  sec_detach_roster sec_begin_fan_out sec_fan_out_roster sec_start_if_fanned sec_start_data_sender] beta;
  cbn [fst snd app].
Ltac step_cbn_in H := cbn [run_sec] in H; cbv delta [sec_sequence sec_send_inline sec_hand_off_exit
  sec_enqueue_accounted sec_dequeue_accounted sec_note_sent sec_backlog_at sec_set_fanout_backlog
  sec_acknowledge sec_ack_ring sec_set_replay_pause sec_evict_lagging sec_price sec_latch
  sec_retention_floor sec_release_retention sec_recompute_client_online sec_set_client_online sec_retire
  sec_detach_roster sec_begin_fan_out sec_fan_out_roster sec_start_if_fanned sec_start_data_sender] beta in
  H; cbn [fst snd app] in H.

(** A section starts no thread and takes no step of the drain. *)
Lemma run_sec_frame lag s sec :
  drain (run_sec lag sec s).1 = drain s /\ calls (run_sec lag sec s).1 = calls s.
Proof. destruct sec; step_cbn; repeat (case_match; cbn); done. Qed.

(** ** Checking a run *)

#[export] Instance caller_ok_dec action s : Decision (caller_ok action s).
Proof. destruct action; cbn; repeat case_match; apply _. Defined.
#[export] Instance serial_dec action s : Decision (serial action s).
Proof.
  destruct action; cbn; repeat case_match; try apply _;
    exact (decide (map_Forall (fun _ x => s_transfer x = None) (heap s))).
Defined.
#[export] Instance orderly_dec action s : Decision (orderly action s).
Proof. unfold orderly. apply _. Defined.

(** A run, checked step by step. *)
Fixpoint run (lag : Z) (ok : Action -> Session -> Prop) `{!forall a s, Decision (ok a s)}
    (actions : list Action) (s : Session) : option Session :=
  match actions with
  | [] => Some s
  | a :: actions => if bool_decide (ok a s) then act lag a s ≫= run lag ok actions else None
  end.

Lemma run_reachable lag ok `{!forall a s, Decision (ok a s)} actions : forall s s',
  reachable lag ok s -> run lag ok actions s = Some s' -> reachable lag ok s'.
Proof.
  induction actions as [|a actions IH]; intros s s' Hr He; cbn in *; [by simplify_eq|].
  case_bool_decide as Hok; [|done]. destruct (act lag a s) as [s1|] eqn:E; [|done].
  apply (IH s1 s'); [|done]. by apply (reach_act lag ok s a).
Qed.

Definition pane0 : Session := session_new (with_caps 1000 1000 1000) 1000.
Definition letter (n : Z) : list byte := [byte_of_Z n].
Definition env0 : string -> option Z := fun _ => None.
Definition ingest (i : nat) (n : Z) : list Action :=
  [ACall (CallIngest (letter n) []); AStep i; AStep i; ADrainTake env0].
