(* ===== verification/Streams.v ===== *)
(** * Streams: what each member of a pane is sent

    The theorem about [Session] that a client relies on: whatever the interleaving, the data channel of
    a member carries its state transfer and then every frame and exit spoken since it was admitted, each
    once and in order.  It needs joins that do not overlap, and the last theorem is the run that shows
    why: the code does not serialise them. *)

From stdpp Require Import gmap sorting.
From S2P Require Import Prelude BTree Message Flow Replay Outbox Fanout Session.

(** ** What a member has, and what it is owed *)

Definition is_open (x : Subscriber) : Prop := s_finished x = false /\ lane_closed (s_data_lane x) = false.
Definition rest_of (x : Subscriber) : list WireMessage := match s_transfer x with Some (ms, _) => ms | None => [] end.
Definition held (x : Subscriber) : list WireMessage := rest_of x ++ s_batch x ++ pending (s_data_lane x).
Definition lanes_empty (x : Subscriber) : Prop :=
  pending (s_data_lane x) = [] /\ s_batch x = [] /\ s_transfer x = None.

(** Its state transfer, and everything spoken since it was admitted. *)
Definition owed (spoken : list WireMessage) (x : Subscriber) : list WireMessage :=
  s_prefix x ++ drop (s_from x) spoken.

(** The messages the drain is about to hand to [a]. *)
Definition hand_of (a : nat) (sec : Sec) : option WireMessage :=
  match sec with
  | SEnqueueData b m | SSendInline b m => if decide (a = b) then Some m else None
  | _ => None
  end.
Definition hand (a : nat) (d : list Sec) : list WireMessage := omap (hand_of a) d.
#[local] Arguments hand : simpl never.

Record member_ok (r : gmap Z nat) (sp : list WireMessage) (hd : list WireMessage) (a : nat) (x : Subscriber)
    : Prop := {
  mo_from : (s_from x <= length sp)%nat;
  mo_closed : lane_closed (s_data_lane x) = true -> pending (s_data_lane x) = [];
  mo_transfer : s_transfer x <> None -> s_running x = false;
  mo_idle : s_running x = false -> s_batch x = [];
  mo_finished : s_data x `prefix_of` owed sp x;
  mo_live : s_finished x = false -> s_data x ++ held x `prefix_of` owed sp x;
  mo_open : is_open x -> r !! s_id x = Some a /\ s_data x ++ held x ++ hd = owed sp x;
}.

(** ** The shapes of the drain's list *)

Definition quiet (sec : Sec) : Prop :=
  match sec with
  | SEnqueueControl _ _ | SExitSent | SNoteSent _ _ | SBacklogAt _ | SSetBacklog _ | SDequeueAccounted _
  | SExitDelivered _ | SEvict | SPrice _ | SLatch _ | SFire _ => True
  | _ => False
  end.

Inductive drain_shape (fanned : bool) : list Sec -> Prop :=
| shape_sequence bytes n control : drain_shape fanned [SSequence bytes n control]
| shape_exit code : drain_shape fanned [SHandOffExit code; SExitSent]
| shape_quiet d : Forall quiet d -> drain_shape fanned d
| shape_fan m t ts d :
    fanned = true -> Forall quiet d -> drain_shape fanned (map (fun a => SEnqueueData a m) (t :: ts) ++ d)
| shape_inline a m d : Forall quiet d -> drain_shape fanned (SSendInline a m :: d).

(** A member that is sent to inline has nothing in its lanes, so what the drain holds for it comes next. *)
Definition inline_ok (sp : list WireMessage) (hd : list WireMessage) (x : Subscriber) : Prop :=
  s_finished x = false -> lanes_empty x /\ s_data x ++ hd = owed sp x.

Definition inline_target (d : list Sec) : option nat :=
  match d with SSendInline a _ :: _ => Some a | _ => None end.

(** ** The other threads *)

Definition call_sec (sec : Sec) : Prop :=
  match sec with
  | SSequence _ _ _ | SEnqueueData _ _ | SSendInline _ _ | SHandOffExit _ => False
  | _ => True
  end.

(** Each sender that is about to be started belongs to a member past its state transfer. *)
Definition start_ok (h : gmap nat Subscriber) (sec : Sec) : Prop :=
  match sec with
  | SStartSender a _ | SStartIfFanned a _ => exists x, h !! a = Some x /\ s_transfer x = None
  | _ => True
  end.

(** A member is retired only once its lanes are closed. *)
Fixpoint retires_ok (closed_at : nat -> Prop) (t : list Sec) : Prop :=
  match t with
  | [] => True
  | SCloseLanes a :: t => retires_ok (fun b => b = a \/ closed_at b) t
  | SRetire a :: t => closed_at a /\ retires_ok closed_at t
  | _ :: t => retires_ok closed_at t
  end.

Definition closed_in (h : gmap nat Subscriber) (a : nat) : Prop :=
  exists x, h !! a = Some x /\ lane_closed (s_data_lane x) = true.

(** The other calls name addresses the heap holds. *)
Definition known (h : gmap nat Subscriber) (sec : Sec) : Prop :=
  match sec with SCloseLanes a => is_Some (h !! a) | _ => True end.

Record thread_ok (h : gmap nat Subscriber) (t : list Sec) : Prop := {
  th_calls : Forall call_sec t;
  th_starts : Forall (start_ok h) t;
  th_known : Forall (known h) t;
  th_retires : retires_ok (closed_in h) t;
}.

Record core (s : Session) : Prop := {
  co_shape : drain_shape (fanned_out s) (drain s);
  co_inline : forall a x, inline_target (drain s) = Some a -> heap s !! a = Some x ->
    inline_ok (spoken s) (hand a (drain s)) x;
  co_single : fanned_out s = false ->
    (forall i a x, by_id s !! i = Some a -> heap s !! a = Some x ->
       inline_ok (spoken s) (hand a (drain s)) x) /\
    forall i j a b, by_id s !! i = Some a -> by_id s !! j = Some b -> i = j;
  co_ids : forall i a, by_id s !! i = Some a -> exists x, heap s !! a = Some x /\ s_id x = i;
  co_minted : forall i, i ∈ granted s \/ is_Some (by_id s !! i) -> 0 <= i < next_id (fanout s);
  co_granted : NoDup (granted s) /\ forall i, i ∈ granted s -> by_id s !! i = None;
  co_next : 1 <= next_id (fanout s) < 2 ^ 64;
  co_positive : forall i, i ∈ granted s -> 1 <= i;
  co_hand : forall a, heap s !! a = None -> hand a (drain s) = [];
  co_members : forall a x, heap s !! a = Some x -> member_ok (by_id s) (spoken s) (hand a (drain s)) a x;
}.

Record streams (s : Session) : Prop := {
  st_core : core s;
  st_threads : Forall (thread_ok (heap s)) (calls s);
}.

(** ** Threads and growing heaps *)

Definition grows (h h' : gmap nat Subscriber) : Prop :=
  forall a x, h !! a = Some x -> exists y, h' !! a = Some y /\ s_id y = s_id x /\
    (s_transfer x = None -> s_transfer y = None) /\
    (lane_closed (s_data_lane x) = true -> lane_closed (s_data_lane y) = true).

Lemma retires_mono (p q : nat -> Prop) t : (forall a, p a -> q a) -> retires_ok p t -> retires_ok q t.
Proof.
  revert p q. induction t as [|[] t IH]; intros p q Hpq; cbn; try (by apply IH); [done| |].
  - apply IH. intros b [->|Hb]; [by left|right; auto].
  - intros [H1 H2]. split; [auto|by apply (IH p q)].
Qed.

Lemma retires_app p t u : retires_ok p t -> retires_ok p u -> retires_ok p (t ++ u).
Proof.
  revert p. induction t as [|[] t IH]; intros p; cbn; intros Ht Hu; try (by apply IH); [done| |].
  - apply IH; [done|]. apply (retires_mono p); [|done]. auto.
  - destruct Ht. split; [done|]. by apply IH.
Qed.

Lemma closed_grows h h' a : grows h h' -> closed_in h a -> closed_in h' a.
Proof. intros Hg (x & Hx & Hc). destruct (Hg a x Hx) as (y & Hy & _ & _ & Hcl). exists y. auto. Qed.

Lemma start_grows h h' sec : grows h h' -> start_ok h sec -> start_ok h' sec.
Proof.
  intros Hg. destruct sec; cbn; try done; intros (x & Hx & Ht);
    destruct (Hg _ x Hx) as (y & Hy & _ & Hy' & _); eauto.
Qed.

Lemma known_grows h h' sec : grows h h' -> known h sec -> known h' sec.
Proof. intros Hg. destruct sec; cbn; try done; intros [x Hx]; destruct (Hg _ x Hx) as (y & Hy & _); eauto. Qed.

Lemma thread_grows h h' t : grows h h' -> thread_ok h t -> thread_ok h' t.
Proof.
  intros Hg [Hc Hs Hk Hr]. split; [done| | |].
  - eapply Forall_impl; [exact Hs|]. intros sec. by apply start_grows.
  - eapply Forall_impl; [exact Hk|]. intros sec. by apply known_grows.
  - eapply retires_mono; [|exact Hr]. intros a. by apply closed_grows.
Qed.

Lemma thread_app h t u : thread_ok h t -> thread_ok h u -> thread_ok h (t ++ u).
Proof. intros [] []. split; [by apply Forall_app_2..|by apply retires_app]. Qed.

Lemma grows_refl h : grows h h.
Proof. intros a x Hx. eauto. Qed.

Lemma grows_insert h a x y :
  h !! a = Some x -> s_id y = s_id x -> (s_transfer x = None -> s_transfer y = None) ->
  (lane_closed (s_data_lane x) = true -> lane_closed (s_data_lane y) = true) -> grows h (<[a := y]> h).
Proof.
  intros Hx Hi Ht Hc b z Hz. destruct (decide (b = a)) as [->|Hne].
  - rewrite Hx in Hz. injection Hz as <-. exists y. by rewrite lookup_insert_eq.
  - exists z. by rewrite lookup_insert_ne.
Qed.

Lemma grows_new h a x : h !! a = None -> grows h (<[a := x]> h).
Proof. intros Hn b z Hz. exists z. rewrite lookup_insert_ne by congruence. auto. Qed.

(** ** The invariant under an update of one member *)

(** The fields the invariant reads, the calls aside. *)
Definition view (s : Session) :=
  (drain s, fanned_out s, by_id s, heap s, spoken s, granted s, next_id (fanout s)).

Lemma core_view s s' : view s' = view s -> core s -> core s'.
Proof.
  unfold view. intros E C. injection E as E1 E2 E3 E4 E5 E6 E7.
  destruct C. constructor; rewrite ?E1, ?E2, ?E3, ?E4, ?E5, ?E6, ?E7; done.
Qed.

(** A member changes, and so may the head of the drain's list. *)
Lemma core_update s s' a x y :
  core s -> heap s !! a = Some x -> heap s' = <[a := y]> (heap s) ->
  by_id s' = by_id s -> fanned_out s' = fanned_out s -> spoken s' = spoken s -> granted s' = granted s ->
  next_id (fanout s') = next_id (fanout s) -> s_id y = s_id x ->
  drain_shape (fanned_out s) (drain s') -> (inline_target (drain s') = None \/ drain s' = drain s) ->
  (forall b, b <> a -> hand b (drain s') = hand b (drain s)) ->
  (fanned_out s = true /\ inline_target (drain s') = None \/
   (inline_ok (spoken s) (hand a (drain s)) x -> inline_ok (spoken s) (hand a (drain s')) y)) ->
  member_ok (by_id s) (spoken s) (hand a (drain s')) a y ->
  core s'.
Proof.
  intros [Cs Ci C1 Cid Cm Cg Cn Cp Chd Cmem] Hx Hh Hr Hf Hsp Hgr Hn Hid Hshape Hin Hhand Hopen Hy.
  constructor; rewrite ?Hr, ?Hf, ?Hsp, ?Hgr, ?Hn; try done.
  - intros b z Ht Hz. destruct Hin as [Hin|Hd]; [congruence|]. rewrite Hd in Ht.
    rewrite Hh in Hz. destruct (decide (b = a)) as [->|Hne].
    + rewrite lookup_insert_eq in Hz. injection Hz as <-. destruct Hopen as [[_ Hin]|Hl].
      * rewrite Hd in Hin. congruence.
      * apply Hl. by apply (Ci a x).
    + rewrite lookup_insert_ne in Hz by done. rewrite Hhand by done. by apply (Ci b z).
  - intros Hff. destruct (C1 Hff) as [Hl Hu]. split; [|done]. intros i b z Hb Hz.
    rewrite Hh in Hz. destruct (decide (b = a)) as [->|Hne].
    + rewrite lookup_insert_eq in Hz. injection Hz as <-. destruct Hopen as [[Hft _]|Hle]; [congruence|].
      apply Hle. by apply (Hl i a x).
    + rewrite lookup_insert_ne in Hz by done. rewrite Hhand by done. by apply (Hl i b z).
  - intros i b Hb. rewrite Hh. destruct (Cid i b Hb) as (z & Hz & Hi). destruct (decide (b = a)) as [->|Hne].
    + rewrite lookup_insert_eq. exists y. split; [done|]. congruence.
    + exists z. by rewrite lookup_insert_ne.
  - intros b Hb. rewrite Hh in Hb. apply lookup_insert_None in Hb as [Hb Hne]. rewrite Hhand by done. by apply Chd.
  - intros b z Hz. rewrite Hh in Hz. destruct (decide (b = a)) as [->|Hne].
    + rewrite lookup_insert_eq in Hz. by injection Hz as <-.
    + rewrite lookup_insert_ne in Hz by done. rewrite Hhand by done. by apply Cmem.
Qed.

(** The common case: the drain's list stays. *)
Lemma core_member s a x y :
  core s -> heap s !! a = Some x -> s_id y = s_id x ->
  (inline_ok (spoken s) (hand a (drain s)) x -> inline_ok (spoken s) (hand a (drain s)) y) ->
  member_ok (by_id s) (spoken s) (hand a (drain s)) a y ->
  core (with_heap s (<[a := y]> (heap s))).
Proof.
  intros C Hx Hid Ho Hy. apply (core_update s _ a x y); try done; try (by apply (co_shape s)); by right.
Qed.

(** ** What each step does to a member *)

Section Member.
Context (r : gmap Z nat) (sp : list WireMessage) (a : nat).

Definition same_stream (x y : Subscriber) : Prop :=
  s_id y = s_id x /\ s_data y = s_data x /\ s_finished y = s_finished x /\ s_data_lane y = s_data_lane x /\
  s_batch y = s_batch x /\ s_transfer y = s_transfer x /\ s_prefix y = s_prefix x /\ s_from y = s_from x.

Lemma member_same hd x y :
  same_stream x y -> s_running y = s_running x -> member_ok r sp hd a x -> member_ok r sp hd a y.
Proof.
  intros (E1 & E2 & E3 & E4 & E5 & E6 & E7 & E8) E9 [].
  constructor; unfold is_open, held, rest_of, owed in *; rewrite ?E1, ?E2, ?E3, ?E4, ?E5, ?E6, ?E7, ?E8, ?E9; done.
Qed.

Lemma member_running hd x :
  s_transfer x = None -> member_ok r sp hd a x -> member_ok r sp hd a (start_running x).
Proof. by intros Ht []. Qed.

Lemma member_close hd hd' x : member_ok r sp hd a x -> member_ok r sp hd' a (close_lanes x).
Proof.
  intros [Hf Hc Ht Hi Hfin Hl Ho]. constructor; try done; [|by intros [_ ?]].
  intros Hx. etransitivity; [|by apply Hl]. unfold held, rest_of. cbn. rewrite app_nil_r.
  rewrite !app_assoc. by apply prefix_app_r.
Qed.

Lemma member_finish hd hd' x : member_ok r sp hd a x -> member_ok r sp hd' a (set_finished x).
Proof. intros [Hf Hc Ht Hi Hfin Hl Ho]. constructor; try done. by intros [? _]. Qed.

(** The member's own threads move messages along [held] onto the channel. *)
Lemma member_move hd x y :
  s_id y = s_id x -> s_finished y = s_finished x -> lane_closed (s_data_lane y) = lane_closed (s_data_lane x) ->
  s_prefix y = s_prefix x -> s_from y = s_from x ->
  (lane_closed (s_data_lane x) = true -> pending (s_data_lane y) = []) ->
  (s_transfer y <> None -> s_running y = false) -> (s_running y = false -> s_batch y = []) ->
  (if s_finished x then s_data y = s_data x else s_data y ++ held y = s_data x ++ held x) ->
  member_ok r sp hd a x -> member_ok r sp hd a y.
Proof.
  intros E1 E2 E3 E4 E5 Hp Ht' Hi' Hd [Hf Hc Ht Hi Hfin Hl Ho].
  constructor; unfold is_open, owed in *; rewrite ?E1, ?E2, ?E3, ?E4, ?E5; try done.
  - destruct (s_finished x) eqn:Ex; [by rewrite Hd|].
    specialize (Hl eq_refl). rewrite <- Hd in Hl. etransitivity; [|exact Hl]. by apply prefix_app_r.
  - intros Hx. rewrite Hx in Hd. rewrite Hd. by apply Hl.
  - intros [Hx Hcl]. rewrite Hx in Hd. destruct (Ho (conj Hx Hcl)) as [H1 H2].
    split; [done|]. by rewrite app_assoc, Hd, <- app_assoc.
Qed.

Lemma member_enqueue hd m x :
  member_ok r sp (m :: hd) a x -> member_ok r sp hd a (enqueue_data [m] x).
Proof.
  intros [Hf Hc Ht Hi Hfin Hl Ho]. unfold enqueue_data. destruct (lane_closed (s_data_lane x)) eqn:Ec.
  { constructor; auto. all: intros [_ ?]; congruence. }
  assert (E : forall z, s_data x ++ (rest_of x ++ s_batch x ++ pending (s_data_lane x) ++ [m]) ++ z
            = s_data x ++ held x ++ m :: z) by (intros z; unfold held; by rewrite <- !app_assoc).
  constructor; try done.
  - intros Hx. destruct (Ho (conj Hx Ec)) as [_ H]. unfold owed in *. cbn [s_prefix s_from set_data] in *.
    rewrite <- H. exists hd.
    change (s_data x ++ held x ++ m :: hd
            = (s_data x ++ rest_of x ++ s_batch x ++ pending (s_data_lane x) ++ [m]) ++ hd).
    by rewrite <- E, !app_assoc.
  - intros [Hx _]. destruct (Ho (conj Hx Ec)) as [H1 H2]. split; [done|].
    change (s_data x ++ (rest_of x ++ s_batch x ++ pending (s_data_lane x) ++ [m]) ++ hd = owed sp x).
    by rewrite E.
Qed.

Lemma member_inline hd m x :
  inline_ok sp (m :: hd) x -> member_ok r sp (m :: hd) a x ->
  member_ok r sp hd a (send_data m x) /\ inline_ok sp hd (send_data m x).
Proof.
  intros He [Hf Hc Ht Hi Hfin Hl Ho]. unfold send_data, inline_ok in *. destruct (s_finished x) eqn:Ex.
  { split; [|congruence]. constructor; try done; try congruence. intros [? _]. congruence. }
  destruct (He eq_refl) as [(E1 & E2 & E3) E]. unfold held, rest_of in *.
  assert (Hnil : s_data x ++ [m] ++ hd = owed sp x) by done.
  split.
  - constructor; try done; unfold held, rest_of, owed in *; cbn; rewrite ?E1, ?E2, ?E3; cbn.
    + rewrite <- Hnil, app_assoc. by apply prefix_app_r.
    + intros _. rewrite app_nil_r, <- Hnil, app_assoc. by apply prefix_app_r.
    + intros Hop. destruct (Ho Hop) as [H1 _]. split; [done|]. by rewrite <- app_assoc.
  - intros _. split; [done|]. cbn. by rewrite <- app_assoc.
Qed.
End Member.

(** ** The sections a call may run *)

Lemma heap_alter (h : gmap nat Subscriber) a f x : h !! a = Some x -> alter f a h = <[a := f x]> h.
Proof. intros Hx. rewrite <- (insert_id h a x Hx) at 1. by rewrite alter_insert_eq. Qed.

Lemma heap_alter_none (h : gmap nat Subscriber) a f : h !! a = None -> alter f a h = h.
Proof.
  intros Hn. apply map_eq. intros b. destruct (decide (a = b)) as [<-|Hne].
  - by rewrite lookup_alter_eq, Hn.
  - by rewrite lookup_alter_ne.
Qed.

Lemma with_heap_same s : with_heap s (heap s) = s.
Proof. by destruct s. Qed.

Lemma core_alter s a f :
  core s ->
  (forall x, heap s !! a = Some x -> s_id (f x) = s_id x /\
     (inline_ok (spoken s) (hand a (drain s)) x -> inline_ok (spoken s) (hand a (drain s)) (f x)) /\
     (member_ok (by_id s) (spoken s) (hand a (drain s)) a x ->
      member_ok (by_id s) (spoken s) (hand a (drain s)) a (f x))) ->
  core (update s a f).
Proof.
  intros C Hf. unfold update. destruct (heap s !! a) as [x|] eqn:Hx.
  - rewrite (heap_alter _ _ _ x Hx). destruct (Hf x eq_refl) as (Hid & Hin & Hm).
    apply (core_member s a x); try done. apply Hm. by apply co_members.
  - by rewrite heap_alter_none, with_heap_same.
Qed.

Lemma grows_alter (h : gmap nat Subscriber) a f :
  (forall x, h !! a = Some x -> s_id (f x) = s_id x /\ (s_transfer x = None -> s_transfer (f x) = None) /\
     (lane_closed (s_data_lane x) = true -> lane_closed (s_data_lane (f x)) = true)) ->
  grows h (alter f a h).
Proof.
  intros Hf. destruct (h !! a) as [x|] eqn:Hx.
  - rewrite (heap_alter _ _ _ x Hx). destruct (Hf x eq_refl) as (? & ? & ?). by apply (grows_insert h a x).
  - rewrite heap_alter_none by done. apply grows_refl.
Qed.

Lemma inline_same hd sp x y : same_stream x y -> inline_ok sp hd x -> inline_ok sp hd y.
Proof.
  intros (E1 & E2 & E3 & E4 & E5 & E6 & E7 & E8). unfold inline_ok, lanes_empty, owed.
  by rewrite E2, E3, E4, E5, E6, E7, E8.
Qed.

Lemma control_same ms x : same_stream x (enqueue_control ms x) /\ s_running (enqueue_control ms x) = s_running x.
Proof. unfold enqueue_control. destruct ms; [done|]. by destruct (lane_closed _). Qed.

Lemma core_drain s b d :
  core s -> drain_shape (fanned_out s) d -> (forall a, hand a d = hand a (drain s)) ->
  (inline_target d = None \/ d = drain s) -> core (with_drain s b d).
Proof.
  intros [Cs Ci C1 Cid Cm Cg Cn Cp Chd Cmem] Hs Hh Hin. constructor; cbn; try done.
  - intros a x Ht Hx. rewrite Hh. destruct Hin as [?|E]; [congruence|]. rewrite E in Ht. by apply Ci.
  - intros Hf. destruct (C1 Hf) as [Hl Hu]. split; [|done]. intros i a x Hi Hx. rewrite Hh. by apply (Hl i).
  - intros a Ha. rewrite Hh. by apply Chd.
  - intros a x Hx. rewrite Hh. by apply Cmem.
Qed.

Lemma core_retire s a :
  core s -> closed_in (heap s) a -> by_id s !! id_of s a = Some a ->
  core (with_roster s (leave (fanout s) (id_of s a)).2 (delete (id_of s a) (by_id s))).
Proof.
  intros [Cs Ci C1 Cid Cm Cg Cn Cp Chd Cmem] (x & Hx & Hcl) Hr. constructor; cbn; try done.
  - intros Hf. destruct (C1 Hf) as [Hl Hu]. split.
    + intros i b y [_ Hi]%lookup_delete_Some. by apply (Hl i).
    + intros i j b c [_ Hi]%lookup_delete_Some [_ Hj]%lookup_delete_Some. by apply (Hu i j b c).
  - intros i b [_ Hi]%lookup_delete_Some. by apply Cid.
  - intros i [Hi|[b [_ Hi]%lookup_delete_Some]]; apply Cm; [by left|right; eauto].
  - destruct Cg as [Hnd Hg]. split; [done|]. intros i Hi. rewrite lookup_delete_None. right. by apply Hg.
  - intros b y Hy. destruct (Cmem b y Hy) as [Hf Hc Ht Hidle Hfin Hl Ho]. constructor; try done.
    intros Hop. destruct (Ho Hop) as [H1 H2]. split; [|done]. rewrite lookup_delete_ne; [done|].
    intros E. rewrite <- E, Hr in H1. injection H1 as <-. rewrite Hx in Hy. injection Hy as <-.
    destruct Hop. congruence.
Qed.

Lemma shape_fanned b d : drain_shape b d -> drain_shape true d.
Proof. destruct 1; by constructor. Qed.

Lemma core_fanned s : core s -> core (with_fanned s true).
Proof. intros [Cs Ci C1 Cid Cm Cg Cn Cp Chd Cmem]. constructor; cbn; try done. by apply (shape_fanned (fanned_out s)). Qed.

Lemma core_call_sec lag s sec :
  core s -> call_sec sec -> start_ok (heap s) sec ->
  match sec with SRetire a => closed_in (heap s) a | _ => True end ->
  core (run_sec lag sec s).1.
Proof.
  intros C Hc Hs Hr. destruct sec; cbn in Hc, Hs, Hr; try done; step_cbn;
    try (apply (core_view s); [reflexivity|exact C]).
  - apply core_alter; [done|]. intros x _. destruct (control_same ms x) as [H1 H2].
    split_and!; [apply H1|by apply inline_same|by apply member_same].
  - set (f := (acknowledge (fanout s) id seq).2). change (acknowledge _ _ _) with (retention_floor f, f).
    cbn [fst]. assert (C' : core (with_fanout s f)) by (apply (core_view s); [reflexivity|exact C]).
    cbn [by_id with_fanout]. destruct (by_id s !! id) as [a|]; [|exact C'].
    apply core_alter; [done|]. intros x _. split_and!; [done|by apply inline_same|by apply member_same].
  - pose proof (latch_spec (fanout s) priced lag) as H. destruct (latch_evicting _ _ _) as [doomed f].
    apply (core_view s); [|exact C]. unfold view. cbn. destruct H as (_ & -> & _). done.
  - apply core_alter; [done|]. intros x _. split_and!; [done| |apply member_close].
    intros Hin Hf. destruct (Hin Hf) as [(E1 & E2 & E3) E]. done.
  - apply core_alter; [done|]. intros x _. split_and!; [done|by intros ? ?|apply member_finish].
  - case_bool_decide; [by apply core_retire|done].
  - destruct (fanned_out s); [done|]. by apply core_fanned.
  - destruct Hs as (x & Hx & Ht). unfold start_sender.
    destruct (members (fanout s) !! id_of s a) as [m|]; [|done]. destruct (has_sender m); [done|]. cbn [fst].
    assert (C' : core (with_fanout s (with_members (fanout s) (<[id_of s a:=set_sender true head m]> (members (fanout s))))))
      by (apply (core_view s); [reflexivity|exact C]).
    apply core_alter; [done|]. intros y Hy. cbn in Hy. assert (y = x) as -> by congruence.
    split_and!; [done|by intros H|by apply member_running].
Qed.

(** What follows a section is again a call's, and the heap only grows. *)
Lemma run_grows lag s sec : call_sec sec -> grows (heap s) (heap (run_sec lag sec s).1).
Proof.
  intros Hc. assert (G : forall s0 a f, heap s0 = heap s ->
    (forall x, s_id (f x) = s_id x /\ (s_transfer x = None -> s_transfer (f x) = None) /\
     (lane_closed (s_data_lane x) = true -> lane_closed (s_data_lane (f x)) = true)) ->
    grows (heap s) (heap (update s0 a f))).
  { intros s0 a f E Hf. cbn. rewrite E. by apply grows_alter. }
  destruct sec; try done; step_cbn; try apply grows_refl.
  - apply G; [done|]. intros x. unfold enqueue_control. destruct ms; [done|]. by destruct (lane_closed _).
  - cbn. destruct (by_id s !! id); [by apply G|apply grows_refl].
  - destruct (latch_evicting _ _ _). apply grows_refl.
  - by apply G.
  - by apply G.
  - case_bool_decide; apply grows_refl.
  - destruct (fanned_out s); apply grows_refl.
  - unfold start_sender. destruct (members (fanout s) !! id_of s a) as [m|]; [|apply grows_refl].
    destruct (has_sender m); [apply grows_refl|]. by apply G.
Qed.

Definition plain (sec : Sec) : Prop :=
  match sec with
  | SSequence _ _ _ | SEnqueueData _ _ | SSendInline _ _ | SHandOffExit _
  | SCloseLanes _ | SRetire _ | SStartSender _ _ | SStartIfFanned _ _ => False
  | _ => True
  end.

Lemma plain_thread h t : Forall plain t -> thread_ok h t.
Proof.
  intros Hp. split; [eapply Forall_impl; [exact Hp|by intros []]..|].
  induction Hp as [|[] t Hp _ IH]; cbn; try done.
Qed.

Lemma leaving_thread h a : is_Some (h !! a) -> thread_ok h (leaving a).
Proof.
  intros Ha. split; [by repeat constructor| | |].
  - by repeat constructor.
  - by repeat constructor.
  - cbn. split; [by left|done].
Qed.

Lemma flat_leaving_thread h l : (forall a, a ∈ l -> is_Some (h !! a)) -> thread_ok h (flat_map leaving l).
Proof.
  induction l as [|a l IH]; intros Hl; [by apply plain_thread|]. cbn [flat_map]. apply thread_app.
  - apply leaving_thread. apply Hl. left.
  - apply IH. intros b Hb. apply Hl. by right.
Qed.

Lemma starts_thread h head l :
  (forall a, a ∈ l -> exists x, h !! a = Some x /\ s_transfer x = None) ->
  thread_ok h (map (fun a => SStartSender a head) l).
Proof.
  intros Hl. induction l as [|a l IH]; [by apply plain_thread|]. cbn [map].
  change (SStartSender a head :: ?t) with ([SStartSender a head] ++ t). apply thread_app.
  - split; try (by repeat constructor). constructor; [|done]. apply Hl. left.
  - apply IH. intros b Hb. apply Hl. by right.
Qed.

Lemma roster_known s a : core s -> a ∈ roster s -> exists x, heap s !! a = Some x /\ by_id s !! s_id x = Some a.
Proof.
  intros C Ha. apply elem_of_values_by in Ha as [i Hi]. destruct (co_ids s C i a Hi) as (x & Hx & <-). eauto.
Qed.

Lemma run_thread lag s sec :
  core s -> call_sec sec -> start_ok (heap s) sec ->
  match sec with SFanOutRoster _ => forall a x, heap s !! a = Some x -> s_transfer x = None | _ => True end ->
  thread_ok (heap (run_sec lag sec s).1) (run_sec lag sec s).2.
Proof.
  intros C Hc Hs Hser. pose proof (run_grows lag s sec Hc) as Hg. revert Hg.
  destruct sec; cbn in Hc; try done; step_cbn; intros Hg;
    try (by apply plain_thread; repeat constructor).
  - apply plain_thread. destruct (frontier _); by repeat constructor.
  - apply plain_thread. destruct (lag =? 0); [done|]. destruct (lagging_cursors _ _); by repeat constructor.
  - destruct (latch_evicting _ _ _). apply plain_thread. by repeat constructor.
  - apply thread_app; [|by apply plain_thread; repeat constructor]. apply flat_leaving_thread.
    intros a Ha. destruct (roster_known s a C Ha) as (x & Hx & _). eauto.
  - destruct (fanned_out s); [|by apply plain_thread]. apply (starts_thread _ head [a]).
    by intros b ->%list_elem_of_singleton.
  - destruct (fanned_out s); apply plain_thread; by repeat constructor.
  - apply starts_thread. intros b Hb. destruct (roster_known s b C Hb) as (x & Hx & _). eauto.
  - destruct (start_sender _ _ _). by apply plain_thread.
Qed.

(** One step of one call. *)
Lemma streams_step lag s i s' :
  streams s -> caller_ok (AStep i) s -> serial (AStep i) s -> act lag (AStep i) s = Some s' -> streams s'.
Proof.
  intros [C T] _ Hser Ha. cbn in Ha, Hser. destruct (calls s !! i) as [[|sec rest]|] eqn:Hi; try done.
  destruct (run_sec lag sec s) as [s1 more] eqn:Er. injection Ha as <-.
  pose proof (Forall_lookup_1 _ _ _ _ T Hi) as [Hcs Hst Hkn Hre].
  inversion_clear Hcs as [|? ? Hc Hcs']. inversion_clear Hst as [|? ? Hs Hst'].
  inversion_clear Hkn as [|? ? Hk Hkn'].
  pose proof (core_call_sec lag s sec C Hc Hs ltac:(destruct sec; try done; apply Hre)) as C1.
  pose proof (run_grows lag s sec Hc) as Hg.
  pose proof (run_thread lag s sec C Hc Hs ltac:(destruct sec; try done; exact Hser)) as Ht.
  rewrite Er in C1, Hg, Ht. cbn [fst snd] in *.
  assert (Hcalls : calls s1 = calls s).
  { pose proof (proj2 (run_sec_frame lag s sec)) as E. by rewrite Er in E. }
  split; [apply (core_view s1); [reflexivity|exact C1]|]. cbn [heap with_calls calls]. rewrite Hcalls.
  apply Forall_insert; [eapply Forall_impl; [exact T|]; intros t; by apply thread_grows|].
  apply thread_app; [exact Ht|]. split; [done|..].
  - eapply Forall_impl; [exact Hst'|]. intros b. by apply start_grows.
  - eapply Forall_impl; [exact Hkn'|]. intros b. by apply known_grows.
  - assert (Hmono : forall a, closed_in (heap s) a -> closed_in (heap s1) a) by (intros a; by apply closed_grows).
    destruct sec; cbn in Hre; try (by eapply retires_mono; [exact Hmono|exact Hre]).
    + eapply retires_mono; [|exact Hre]. intros b [->|Hb]; [|by apply Hmono].
      cbn in Er. injection Er as <- _. destruct Hk as [x Hx]. exists (close_lanes x).
      cbn. by rewrite lookup_alter_eq, Hx.
    + eapply retires_mono; [exact Hmono|]. by destruct Hre.
Qed.

(** ** The drain *)

Lemma hand_quiet a d : Forall quiet d -> hand a d = [].
Proof. unfold hand. induction 1 as [|[] d Hq _ IH]; try done. Qed.

Lemma quiet_inline d : Forall quiet d -> inline_target d = None.
Proof. by destruct 1 as [|[]]. Qed.

Lemma hand_app a d e : hand a (d ++ e) = hand a d ++ hand a e.
Proof. apply omap_app. Qed.

Lemma hand_fan a m l : NoDup l -> hand a (map (fun b => SEnqueueData b m) l) = if decide (a ∈ l) then [m] else [].
Proof.
  unfold hand. induction 1 as [|b l Hb _ IH]; cbn [map omap list_omap]; [by rewrite decide_False by apply not_elem_of_nil|].
  cbn [hand_of]. destruct (decide (a = b)) as [->|Hne].
  - rewrite decide_True by left. cbn. f_equal. rewrite IH. by rewrite decide_False.
  - rewrite IH. destruct (decide (a ∈ l)) as [Hin|Hnin].
    + by rewrite decide_True by (by right).
    + rewrite decide_False; [done|]. by rewrite elem_of_cons; intros [|].
Qed.

Lemma roster_elem s a : a ∈ roster s <-> exists i, by_id s !! i = Some a.
Proof. apply elem_of_values_by. Qed.

Lemma core_injective s i j a : core s -> by_id s !! i = Some a -> by_id s !! j = Some a -> i = j.
Proof.
  intros C Hi Hj. destruct (co_ids s C i a Hi) as (x & Hx & <-).
  destruct (co_ids s C j a Hj) as (y & Hy & <-). congruence.
Qed.

Lemma NoDup_values {A} (m : gmap Z A) :
  (forall i j a, m !! i = Some a -> m !! j = Some a -> i = j) -> NoDup (values_by Z.le m).
Proof.
  intros Hinj. unfold values_by. pose proof (btree_by_keys Z.le m) as Hk.
  assert (Hin : forall p, p ∈ btree_by Z.le m -> m !! p.1 = Some p.2)
    by (intros [k x] ?; by apply (elem_of_btree_by Z.le)).
  induction (btree_by Z.le m) as [|[k x] l IH]; [constructor|]. cbn in *.
  inversion_clear Hk as [|? ? Hnot Hk']. constructor.
  - intros ([k' y] & -> & Hy)%list_elem_of_fmap. apply Hnot. apply list_elem_of_fmap. exists (k', y).
    split; [|done]. apply (Hinj k k' y); [apply (Hin (k, y)); left|apply (Hin (k', y)); by right].
  - apply IH; [done|]. intros p Hp. apply Hin. by right.
Qed.

Lemma roster_nodup s : core s -> NoDup (roster s).
Proof. intros C. apply NoDup_values. intros i j a. by apply core_injective. Qed.

(** The only member of a pane that does not fan out. *)
Lemma roster_single s a : core s -> fanned_out s = false -> a ∈ roster s -> roster s = [a].
Proof.
  intros C Hf Ha. pose proof (roster_nodup s C) as Hnd. pose proof (co_single s C Hf) as [_ Hu].
  assert (Hall : forall b, b ∈ roster s -> b = a).
  { intros b [j Hj]%roster_elem. apply roster_elem in Ha as [i Hi].
    rewrite (Hu i j a b Hi Hj) in Hi. congruence. }
  destruct (roster s) as [|b [|c l]]; [by apply elem_of_nil in Ha| |].
  - f_equal. apply Hall. left.
  - apply NoDup_cons in Hnd as [Hnd _]. exfalso. apply Hnd.
    rewrite (Hall b ltac:(left)), (Hall c ltac:(right; left)). left.
Qed.

Lemma owed_snoc sp m x : (s_from x <= length sp)%nat -> owed (sp ++ [m]) x = owed sp x ++ [m].
Proof. intros Hf. unfold owed. rewrite drop_app_le by lia. by rewrite app_assoc. Qed.

Definition speaking (s : Session) (m : WireMessage) (b : ReplayBuffer) (d : list Sec) : Session :=
  with_drain (with_spoken (with_replay s b) (spoken s ++ [m])) true d.

Lemma hand_ship s m d a :
  core s -> Forall quiet d ->
  hand a (ship s (roster s) m ++ d) = if decide (a ∈ roster s) then [m] else [].
Proof.
  intros C Hd. rewrite hand_app, (hand_quiet _ d), app_nil_r by done. unfold ship.
  destruct (fanned_out s) eqn:Hf; [by apply hand_fan, roster_nodup|].
  destruct (roster s) as [|b l] eqn:Er; [done|].
  assert (Hb : roster s = [b]) by (apply (roster_single s b C Hf); rewrite Er; left).
  rewrite Er in Hb. injection Hb as ->. unfold hand. cbn [omap list_omap hand_of].
  destruct (decide (a = b)) as [->|Hne].
  - by rewrite decide_True by left.
  - rewrite decide_False; [done|]. by rewrite list_elem_of_singleton.
Qed.

Lemma ship_shape s m d : Forall quiet d -> drain_shape (fanned_out s) (ship s (roster s) m ++ d).
Proof.
  intros Hd. unfold ship. destruct (fanned_out s); destruct (roster s); cbn; by constructor.
Qed.

Lemma member_speak (r : gmap Z nat) sp m a x hd :
  member_ok r sp [] a x -> (is_open x -> hd = [m]) -> member_ok r (sp ++ [m]) hd a x.
Proof.
  intros [Hf Hc Ht Hi Hfin Hl Ho] Hhd.
  constructor; rewrite ?owed_snoc by done; try done.
  - rewrite length_app. cbn. lia.
  - etransitivity; [exact Hfin|by apply prefix_app_r].
  - intros Hx. etransitivity; [by apply Hl|by apply prefix_app_r].
  - intros Hop. destruct (Ho Hop) as [H1 H2]. split; [done|]. rewrite (Hhd Hop), <- H2.
    by rewrite app_nil_r, app_assoc.
Qed.

Lemma core_speak s m b d :
  core s -> (forall a, hand a (drain s) = []) -> Forall quiet d ->
  core (speaking s m b (ship s (roster s) m ++ d)).
Proof.
  intros C Hnone Hd. pose proof C as [Cs Ci C1 Cid Cm Cg Cn Cp Chd Cmem].
  assert (Hhand : forall a, hand a (ship s (roster s) m ++ d) = if decide (a ∈ roster s) then [m] else [])
    by (intros a; by apply hand_ship).
  assert (Hin : forall i a x, fanned_out s = false -> by_id s !! i = Some a -> heap s !! a = Some x ->
    inline_ok (spoken s ++ [m]) (hand a (ship s (roster s) m ++ d)) x).
  { intros i a x Hf Hi Hx Hfin. destruct (C1 Hf) as [Hl _]. destruct (Hl i a x Hi Hx Hfin) as [He E].
    split; [done|]. rewrite Hhand, decide_True by (apply roster_elem; eauto).
    rewrite owed_snoc by (apply (Cmem a x Hx)). by rewrite <- E, Hnone, app_nil_r. }
  constructor; cbn; try done.
  - by apply ship_shape.
  - intros a x Ht Hx. unfold ship in Ht. destruct (fanned_out s) eqn:Hf.
    { destruct (roster s); cbn in Ht; [|done]. by rewrite quiet_inline in Ht. }
    destruct (roster s) as [|c l] eqn:Er; cbn in Ht; [by rewrite quiet_inline in Ht|].
    injection Ht as ->. assert (Ha : a ∈ roster s) by (rewrite Er; left).
    apply roster_elem in Ha as [i Hi]. by apply (Hin i).
  - intros Hf. destruct (C1 Hf) as [_ Hu]. split; [|done]. intros i a x. by apply Hin.
  - intros a Ha. rewrite Hhand, decide_False; [done|]. intros (x & Hx & _)%(roster_known s a C). congruence.
  - intros a x Hx. apply member_speak.
    + rewrite <- (Hnone a). by apply Cmem.
    + intros Hop. rewrite Hhand, decide_True; [done|]. apply roster_elem.
      destruct (mo_open _ _ _ _ _ (Cmem a x Hx) Hop) as [Hr _]. eauto.
Qed.

Lemma run_quiet lag s sec : quiet sec -> Forall quiet (run_sec lag sec s).2.
Proof.
  intros Hq. destruct sec; try done; step_cbn; try (by repeat constructor).
  - destruct (frontier _); by repeat constructor.
  - destruct (lag =? 0); [done|]. destruct (lagging_cursors _ _); by repeat constructor.
  - destruct (latch_evicting _ _ _). by repeat constructor.
Qed.

Lemma quiet_call sec : quiet sec -> call_sec sec.
Proof. by destruct sec. Qed.

Lemma after_send_quiet id b m : Forall quiet (after_send id b m).
Proof. destruct m; cbn; try done; [destruct b|]; by repeat constructor. Qed.

Lemma hand_cons_ne a b m d :
  b <> a -> hand b (SEnqueueData a m :: d) = hand b d /\ hand b (SSendInline a m :: d) = hand b d.
Proof. intros Hne. unfold hand. cbn. by rewrite decide_False. Qed.

Lemma hand_cons_eq a m d :
  hand a (SEnqueueData a m :: d) = m :: hand a d /\ hand a (SSendInline a m :: d) = m :: hand a d.
Proof. unfold hand. cbn. by rewrite decide_True. Qed.

Lemma shape_tail f m ts d :
  f = true -> Forall quiet d -> drain_shape f (map (fun a => SEnqueueData a m) ts ++ d).
Proof. intros Hf Hd. destruct ts; [by apply shape_quiet|by apply shape_fan]. Qed.

Lemma fan_inline m ts d : Forall quiet d -> inline_target (map (fun a => SEnqueueData a m) ts ++ d) = None.
Proof. intros Hd. destruct ts; [by apply quiet_inline|done]. Qed.

Lemma core_enqueue s a m d :
  core s -> drain s = SEnqueueData a m :: d -> drain_shape (fanned_out s) d -> inline_target d = None ->
  fanned_out s = true -> core (with_drain (update s a (enqueue_data [m])) true d).
Proof.
  intros C Ed Hs Hi Hf. destruct (heap s !! a) as [x|] eqn:Hx.
  - apply (core_update s _ a x (enqueue_data [m] x)); try done.
    + by apply (heap_alter (heap s) a _ x).
    + unfold enqueue_data. by destruct (lane_closed _).
    + by left.
    + intros b Hne. rewrite Ed. symmetry. by apply hand_cons_ne.
    + by left.
    + apply member_enqueue. cbn [drain with_drain]. rewrite <- (proj1 (hand_cons_eq a m d)), <- Ed.
      by apply co_members.
  - apply (co_hand s C) in Hx. by rewrite Ed, (proj1 (hand_cons_eq a m d)) in Hx.
Qed.

Lemma core_inline s a m d :
  core s -> drain s = SSendInline a m :: d -> Forall quiet d ->
  core (with_drain (update s a (send_data m)) true d).
Proof.
  intros C Ed Hd. pose proof (quiet_inline d Hd) as Hi. destruct (heap s !! a) as [x|] eqn:Hx.
  - assert (Hok : inline_ok (spoken s) (hand a (drain s)) x)
      by (apply (co_inline s C); [by rewrite Ed|done]).
    pose proof (co_members s C a x Hx) as Hm. rewrite Ed, (proj2 (hand_cons_eq a m d)) in Hok, Hm.
    destruct (member_inline (by_id s) (spoken s) a (hand a d) m x Hok Hm) as [Hm' Hok'].
    apply (core_update s _ a x (send_data m x)); try done.
    + by apply (heap_alter (heap s) a _ x).
    + unfold send_data. by destruct (s_finished x).
    + by apply shape_quiet.
    + by left.
    + intros b Hne. rewrite Ed. symmetry. by apply hand_cons_ne.
    + by right.
  - apply (co_hand s C) in Hx. by rewrite Ed, (proj2 (hand_cons_eq a m d)) in Hx.
Qed.

Lemma core_drain_step lag s sec rest :
  core s -> drain s = sec :: rest ->
  core (with_drain (run_sec lag sec s).1 true ((run_sec lag sec s).2 ++ rest)).
Proof.
  intros C Ed. pose proof (co_shape s C) as Hs. rewrite Ed in Hs.
  inversion Hs as [bytes n control E1|code E1|d Hq E1|m t ts d Hf Hq E1|a m d Hq E1]; subst.
  - step_cbn. destruct (Replay.append (replay s) bytes) as [seq b]. cbn [fst snd]. rewrite app_nil_r.
    apply (core_speak s _ b); [done|intros a; by rewrite Ed|].
    constructor; [done|]. apply Forall_app_2; [|by repeat constructor].
    destruct control; [done|]. apply Forall_fmap, Forall_true. done.
  - apply (core_speak s _ (replay s)); [done|intros a; by rewrite Ed|by repeat constructor].
  - inversion_clear Hq as [|? ? Hsec Hrest].
    pose proof (run_quiet lag s sec Hsec) as Hmore. destruct (run_sec_frame lag s sec) as [Hd _].
    assert (C1 : core (run_sec lag sec s).1).
    { apply core_call_sec; [done|by apply quiet_call| |]; by destruct sec. }
    assert (Hq : Forall quiet ((run_sec lag sec s).2 ++ rest)) by by apply Forall_app_2.
    apply core_drain; [done|by apply shape_quiet| |left; by apply quiet_inline].
    intros a. rewrite Hd, Ed, !hand_quiet by (try constructor; done). done.
  - step_cbn. apply (core_enqueue s t m); try done.
    + rewrite Hf. by apply shape_tail.
    + by apply fan_inline.
  - step_cbn. assert (Hq' : Forall quiet (after_send (id_of s a) (negb (finished s a)) m ++ rest))
      by (apply Forall_app_2; [apply after_send_quiet|done]).
    pose proof (core_inline s a m rest C Ed Hq) as C1.
    apply (core_drain _ true) with (d := after_send (id_of s a) (negb (finished s a)) m ++ rest) in C1;
      [exact C1|by apply shape_quiet| |left; by apply quiet_inline].
    intros b. cbn. by rewrite !hand_quiet.
Qed.

Lemma drain_grows lag s sec : grows (heap s) (heap (run_sec lag sec s).1).
Proof.
  destruct sec; try (by apply run_grows).
  - step_cbn. destruct (Replay.append _ _). apply grows_refl.
  - cbn. apply grows_alter. intros x _. unfold enqueue_data. by destruct (lane_closed _) eqn:E.
  - cbn. apply grows_alter. intros x _. unfold send_data. by destruct (s_finished x).
  - apply grows_refl.
Qed.

(** ** Coming and going *)

Lemma core_admit s a x acked :
  core s -> heap s !! a = None -> by_id s !! s_id x = None -> s_id x ∉ granted s ->
  0 <= s_id x < next_id (fanout s) ->
  member_ok (<[s_id x := a]> (by_id s)) (spoken s) [] a x ->
  (fanned_out s = true \/ by_id s = ∅ /\ inline_ok (spoken s) [] x) ->
  core (enroll s a x acked).
Proof.
  intros [Cs Ci C1 Cid Cm Cg Cn Cp Chd Cmem] Ha Hid Hng Hlt Hm Hmode. pose proof (Chd a Ha) as Hnone.
  constructor; cbn; try done.
  - intros b y Ht Hy. assert (b <> a).
    { intros ->. unfold inline_target in Ht. destruct (drain s) as [|[] d] eqn:Ed; try done. injection Ht as ->.
      by rewrite (proj2 (hand_cons_eq a m d)) in Hnone. }
    rewrite lookup_insert_ne in Hy by done. by apply Ci.
  - intros Hf. destruct Hmode as [?|[He Hin]]; [congruence|]. split.
    + intros i b y Hb Hy. rewrite He in Hb. apply lookup_insert_Some in Hb as [[_ <-]|[_ Hb]].
      * rewrite lookup_insert_eq in Hy. injection Hy as <-. by rewrite Hnone.
      * by rewrite lookup_empty in Hb.
    + intros i j b c. rewrite He. intros [[-> _]|[_ Hb]]%lookup_insert_Some; [|by rewrite lookup_empty in Hb].
      intros [[-> _]|[_ Hc]]%lookup_insert_Some; [done|by rewrite lookup_empty in Hc].
  - intros i b [[<- <-]|[Hne Hb]]%lookup_insert_Some.
    + exists x. by rewrite lookup_insert_eq.
    + destruct (Cid i b Hb) as (y & Hy & Hi). exists y. rewrite lookup_insert_ne by congruence. done.
  - intros i [Hi|[b [[<- _]|[_ Hb]]%lookup_insert_Some]]; [apply Cm; by left|done|]. apply Cm. right; eauto.
  - destruct Cg as [Hnd Hg]. split; [done|]. intros i Hi. rewrite lookup_insert_None. split; [by apply Hg|]. congruence.
  - intros b [Hb _]%lookup_insert_None. by apply Chd.
  - intros b y Hy. destruct (decide (b = a)) as [->|Hne].
    + rewrite lookup_insert_eq in Hy. injection Hy as <-. by rewrite Hnone.
    + rewrite lookup_insert_ne in Hy by done. destruct (Cmem b y Hy) as [Hf Hc Ht Hi Hfin Hl Ho].
      constructor; try done. intros Hop. destruct (Ho Hop) as [H1 H2]. split; [|done].
      rewrite lookup_insert_ne; [done|]. congruence.
Qed.

Lemma core_mint s :
  core s -> next_id (fanout s) + 1 < 2 ^ 64 ->
  core (mint s).2 /\ (mint s).1 = next_id (fanout s) /\ next_id (fanout (mint s).2) = next_id (fanout s) + 1.
Proof.
  intros [Cs Ci C1 Cid Cm Cg Cn Cp Chd Cmem] Hr.
  assert (E : next_id (fanout (mint s).2) = next_id (fanout s) + 1) by (apply Z.mod_small; lia).
  split; [|done]. constructor; rewrite ?E; try done; [|lia]. intros i Hi. apply Cm in Hi. lia.
Qed.

Lemma new_member_ok (r : gmap Z nat) sp a id transfer promised :
  r !! id = Some a -> member_ok r sp [] a (subscriber_new id transfer (length sp) promised).
Proof.
  intros Hr. assert (E : owed sp (subscriber_new id transfer (length sp) promised)
    = held (subscriber_new id transfer (length sp) promised)).
  { unfold owed, held, rest_of. cbn. rewrite drop_all. by destruct transfer as [[]|]; cbn; rewrite ?app_nil_r. }
  constructor; try done.
  - apply prefix_nil.
  - by rewrite E.
  - intros _. rewrite E, app_nil_r. done.
Qed.

Lemma granted_mint s : core s -> by_id s !! next_id (fanout s) = None /\ next_id (fanout s) ∉ granted s.
Proof.
  intros C. split.
  - destruct (by_id s !! next_id (fanout s)) eqn:E; [|done].
    pose proof (co_minted s C (next_id (fanout s)) ltac:(right; eauto)). lia.
  - intros Hin. pose proof (co_minted s C (next_id (fanout s)) ltac:(by left)). lia.
Qed.

Lemma threads_snoc s h t :
  Forall (thread_ok (heap s)) (calls s) -> grows (heap s) h -> thread_ok h t ->
  Forall (thread_ok h) (calls s ++ [t]).
Proof.
  intros T Hg Ht. apply Forall_app_2; [|by constructor]. eapply Forall_impl; [exact T|]. intros u. by apply thread_grows.
Qed.

Lemma streams_join lag s a reserved composed rendered s' :
  streams s -> orderly (AJoin a reserved composed rendered) s ->
  act lag (AJoin a reserved composed rendered) s = Some s' -> streams s'.
Proof.
  intros [C T] [(Ha & _ & Hres) Hser] Hact. cbn in Hser, Hact. unfold admit_joiner in Hact.
  destruct (detached s); [done|]. destruct (roster s) as [|b l] eqn:Er; [done|].
  set (catch_up := map Replay.output _) in Hact. set (head := highest_seq (replay s)) in *.
  assert (Hp : exists id s1, (id, s1) =
    match reserved with
      | Some id => (id, with_granted s (fanout s) (filter (fun i => i <> id) (granted s)))
      | None => mint s
    end /\ core s1 /\ by_id s1 !! id = None /\ (id ∉ granted s1) /\
      0 <= id < next_id (fanout s1) /\ heap s1 = heap s /\ calls s1 = calls s /\ spoken s1 = spoken s).
  { destruct reserved as [id|].
    - exists id, (with_granted s (fanout s) (filter (fun i => i <> id) (granted s))). split; [done|].
      destruct C as [Cs Ci C1 Cid Cm Cg Cn Cp Chd Cmem]. destruct Cg as [Hnd Hg]. split.
      { constructor; cbn; try done.
        - intros i [[_ Hi]%list_elem_of_filter|Hi]; apply Cm; [by left|by right].
        - split; [by apply NoDup_filter|]. intros i [_ Hi]%list_elem_of_filter. by apply Hg.
        - intros i [_ Hi]%list_elem_of_filter. by apply Cp. }
      cbn. split_and!; try done; [by apply Hg| |by apply Cm; left..]. by intros [? _]%list_elem_of_filter.
    - destruct (core_mint s C Hres) as (C1 & E1 & E2). destruct (granted_mint s C) as [H1 H2].
      pose proof (co_next s C). exists (mint s).1, (mint s).2. split; [by destruct (mint s)|].
      rewrite E1, E2. split_and!; try done; lia. }
  destruct Hp as (id & s1 & Ep & C1 & Hid & Hng & Hlt & Eh & Ec & Es). rewrite <- Ep in Hact.
  assert (E : roster s = b :: l) by done. clear Er. injection Hact as <-.
  set (x := subscriber_new _ _ _ _).
  assert (C2 : core (enroll (with_fanned s1 true) a x head)).
  { apply core_admit; try done; [by apply core_fanned|by rewrite <- Eh in Ha| |by left].
    apply new_member_ok. by rewrite lookup_insert_eq. }
  split; [by apply (core_view (enroll (with_fanned s1 true) a x head))|].
  cbn. rewrite Ec, Eh. pose proof (grows_new (heap s) a x Ha) as Hg. apply threads_snoc; [done..|].
  apply (starts_thread _ head (b :: l)). intros c Hc. rewrite <- E in Hc.
  destruct (roster_known s c C Hc) as (y & Hy & _). exists y. split; [|by apply (Hser c)].
  rewrite lookup_insert_ne; [done|congruence].
Qed.

Lemma streams_first s a id acked promised t :
  core s -> Forall (thread_ok (heap s)) (calls s) -> heap s !! a = None -> by_id s = ∅ -> id ∉ granted s ->
  0 <= id < next_id (fanout s) ->
  (forall h, h !! a = Some (subscriber_new id None (length (spoken s)) promised) -> thread_ok h t) ->
  streams (with_calls (enroll s a (subscriber_new id None (length (spoken s)) promised) acked) (calls s ++ [t])).
Proof.
  intros C T Ha He Hng Hlt Ht. set (x := subscriber_new _ _ _ _). split.
  - apply (core_view (enroll s a x acked)); [done|]. apply core_admit; try done.
    + by rewrite He.
    + apply new_member_ok. apply lookup_insert_eq.
    + right. split; [done|]. intros _. split; [done|]. unfold owed. cbn. by rewrite drop_all.
  - apply threads_snoc; [done|by apply grows_new|]. apply Ht. apply lookup_insert_eq.
Qed.

Lemma streams_attach s a :
  streams s -> caller_ok (AAttach a) s -> streams (attach s a).
Proof.
  intros [C T] (Ha & He & _ & _ & Hr). destruct (core_mint s C Hr) as (C1 & E1 & E2).
  destruct (granted_mint s C) as [_ Hng]. pose proof (co_next s C). unfold attach.
  destruct (mint s) as [id s1] eqn:Em. cbn [fst snd] in *.
  assert (Ef : granted s1 = granted s /\ by_id s1 = by_id s /\ heap s1 = heap s /\ calls s1 = calls s).
  { unfold mint, reserve_id in Em. by injection Em as _ <-. }
  destruct Ef as (E3 & E4 & E5 & E6).
  apply (streams_first s1); rewrite ?E2, ?E3, ?E4, ?E5, ?E6, ?E1; try done; [lia|].
  intros h Hh. split; [by repeat constructor| |by repeat constructor|done].
  constructor; [done|]. constructor; [|done]. by eexists.
Qed.

Lemma core_inline_off s : core s -> by_id s = ∅ -> drain s = [] -> core (with_fanned (with_detached s false) false).
Proof.
  intros [Cs Ci C1 Cid Cm Cg Cn Cp Chd Cmem] He Hd. constructor; cbn; try done; rewrite ?He, ?Hd.
  - by apply shape_quiet.
  - intros _. split; [by intros i a x ?%lookup_empty_Some|by intros i j a b ?%lookup_empty_Some].
Qed.

Lemma streams_rebind s a :
  streams s -> caller_ok (ARebind a) s -> streams (rebind s a).
Proof.
  intros [C T] (Ha & He & _ & Hd). unfold rebind.
  pose proof (co_next s C) as Hn.
  apply (streams_first (with_fanned (with_detached s false) false)); try done.
  - by apply core_inline_off.
  - intros Hz. by apply (co_positive s C) in Hz.
  - unfold PRIMARY_SUBSCRIBER. cbn. lia.
  - intros h _. apply plain_thread. by repeat constructor.
Qed.

(** A member's own threads. *)
Lemma streams_member s a x y t :
  streams s -> heap s !! a = Some x -> s_id y = s_id x -> s_finished y = s_finished x ->
  lane_closed (s_data_lane y) = lane_closed (s_data_lane x) -> s_prefix y = s_prefix x -> s_from y = s_from x ->
  (lane_closed (s_data_lane x) = true -> pending (s_data_lane y) = []) ->
  (s_transfer y <> None -> s_running y = false) -> (s_running y = false -> s_batch y = []) ->
  (s_transfer x = None -> s_transfer y = None) ->
  (if s_finished x then s_data y = s_data x else s_data y ++ held y = s_data x ++ held x) ->
  (s_finished x = false -> lanes_empty x -> lanes_empty y /\ s_data y = s_data x) ->
  (forall h, h !! a = Some y -> thread_ok h t) ->
  streams (with_calls (with_heap s (<[a := y]> (heap s))) (calls s ++ [t])).
Proof.
  intros [C T] Hx E1 E2 E3 E4 E5 Hp Ht Hi Htr Hd Hl Hth. split.
  - apply (core_view (with_heap s (<[a := y]> (heap s)))); [done|]. apply (core_member s a x y); try done.
    + intros Hin Hf. rewrite E2 in Hf. destruct (Hin Hf) as [He E]. destruct (Hl Hf He) as [He' Ed].
      split; [done|]. unfold owed in *. by rewrite Ed, E4, E5.
    + apply (member_move _ _ _ _ x); try done. by apply co_members.
  - apply threads_snoc; [done| |].
    + apply (grows_insert _ a x); try done. by rewrite E3.
    + apply Hth. apply lookup_insert_eq.
Qed.

(** Steps that start no thread: an empty one changes nothing. *)
Lemma streams_forget s t : streams (with_calls s (calls s ++ [t])) -> streams s.
Proof.
  intros [C T]. split; [by apply (core_view (with_calls s (calls s ++ [t])))|]. cbn in T. by apply Forall_app in T as [T _].
Qed.

Lemma empty_thread h : thread_ok h [].
Proof. by apply plain_thread. Qed.

Lemma streams_member_only s a x y :
  streams s -> heap s !! a = Some x -> s_id y = s_id x -> s_finished y = s_finished x ->
  lane_closed (s_data_lane y) = lane_closed (s_data_lane x) -> s_prefix y = s_prefix x -> s_from y = s_from x ->
  (lane_closed (s_data_lane x) = true -> pending (s_data_lane y) = []) ->
  (s_transfer y <> None -> s_running y = false) -> (s_running y = false -> s_batch y = []) ->
  (s_transfer x = None -> s_transfer y = None) ->
  (if s_finished x then s_data y = s_data x else s_data y ++ held y = s_data x ++ held x) ->
  (s_finished x = false -> lanes_empty x -> lanes_empty y /\ s_data y = s_data x) ->
  streams (with_heap s (<[a := y]> (heap s))).
Proof.
  intros. apply (streams_forget _ []). change (calls (with_heap s (<[a := y]> (heap s)))) with (calls s).
  by apply (streams_member s a x y []).
Qed.

Lemma send_fields m x :
  s_id (send_data m x) = s_id x /\ s_finished (send_data m x) = s_finished x /\
  s_data_lane (send_data m x) = s_data_lane x /\ s_prefix (send_data m x) = s_prefix x /\
  s_from (send_data m x) = s_from x /\ s_running (send_data m x) = s_running x /\
  s_batch (send_data m x) = s_batch x /\ s_transfer (send_data m x) = s_transfer x /\
  s_data (send_data m x) = if s_finished x then s_data x else s_data x ++ [m].
Proof. unfold send_data. destruct (s_finished x) eqn:E; cbn; by rewrite ?E. Qed.

Lemma streams_transfer s a x s' :
  streams s -> heap s !! a = Some x -> transfer_step s a x = Some s' -> streams s'.
Proof.
  intros St Hx Ht. pose proof (co_members s (st_core s St) a x Hx) as [Hf Hc Htr Hi Hfin Hl Ho].
  unfold transfer_step in Ht. destruct (s_transfer x) as [[[|m rest] head]|] eqn:Et; try done.
  - injection Ht as <-. cbn [calls with_heap].
    assert (Hr : s_running x = false) by (by apply Htr).
    apply (streams_member s a x); cbn; try done; try (by rewrite Hr).
    + destruct (s_finished x); [done|]. unfold held, rest_of. by rewrite Et.
    + intros _ (_ & _ & ?). congruence.
    + intros h Hh. split; [by repeat constructor| |by repeat constructor|done].
      constructor; [|by repeat constructor]. by eexists.
  - injection Ht as <-. destruct (send_fields m x) as (E1 & E2 & E3 & E4 & E5 & E6 & E7 & E8 & E9).
    apply (streams_member_only s a x); cbn; rewrite ?E1, ?E2, ?E3, ?E4, ?E5, ?E6, ?E7; try done.
    + intros _. by apply Htr.
    + by rewrite Et.
    + rewrite E9. destruct (s_finished x); [done|]. unfold held, rest_of. rewrite Et.
      by rewrite <- app_assoc.
    + intros _ (_ & _ & ?). congruence.
Qed.

Lemma streams_sender_take s a x s' :
  streams s -> heap s !! a = Some x -> sender_take s a x = Some s' -> streams s'.
Proof.
  intros St Hx Ht. pose proof (co_members s (st_core s St) a x Hx) as [Hf Hc Htr Hi Hfin Hl Ho].
  unfold sender_take in Ht. destruct (s_running x) eqn:Er; [|done]. destruct (s_batch x) eqn:Eb; [|done].
  assert (Et : s_transfer x = None) by (destruct (s_transfer x); [by specialize (Htr ltac:(done))|done]).
  destruct (pending (s_data_lane x)) as [|m ms] eqn:Ep.
  - destruct (lane_closed (s_data_lane x)) eqn:Ec; [|done]. injection Ht as <-. cbn [calls with_heap].
    apply (streams_member s a x); cbn; try done.
    + by destruct (s_finished x); [|unfold held, rest_of; cbn; rewrite Eb].
    + intros h _. apply plain_thread. by repeat constructor.
  - injection Ht as <-. apply (streams_member_only s a x); cbn; try done; try (by rewrite Et).
    + destruct (s_finished x); [done|]. unfold held, rest_of. cbn. by rewrite Et, Eb, Ep, app_nil_r.
    + intros _ (? & _). congruence.
Qed.

Lemma streams_sender_send s a x s' :
  streams s -> heap s !! a = Some x -> sender_send s a x = Some s' -> streams s'.
Proof.
  intros St Hx Ht. pose proof (co_members s (st_core s St) a x Hx) as [Hf Hc Htr Hi Hfin Hl Ho].
  unfold sender_send in Ht. destruct (s_batch x) as [|m rest] eqn:Eb; [done|]. injection Ht as <-.
  assert (Er : s_running x = true) by (destruct (s_running x); [done|by specialize (Hi eq_refl)]).
  assert (Et : s_transfer x = None) by (destruct (s_transfer x); [specialize (Htr ltac:(done)); congruence|done]).
  destruct (send_fields m x) as (E1 & E2 & E3 & E4 & E5 & E6 & E7 & E8 & E9). cbn [calls with_heap].
  apply (streams_member s a x); cbn; rewrite ?E1, ?E2, ?E3, ?E4, ?E5, ?E6, ?E8; try done; try (by rewrite Et);
    try (by rewrite Er).
  - rewrite E9. destruct (s_finished x); [done|]. unfold held, rest_of. cbn.
    by rewrite Et, Eb, <- app_assoc.
  - intros _ (_ & ? & _). congruence.
  - intros h _. apply plain_thread. destruct m; cbn; try done; [destruct (negb _)|]; by repeat constructor.
Qed.

Lemma streams_control s a x : streams s -> heap s !! a = Some x -> streams (control_send s a x).
Proof.
  intros St Hx. unfold control_send. destruct (s_finished x) eqn:Ef;
    apply (streams_member_only s a x); try done; pose proof (co_members s (st_core s St) a x Hx) as [];
    try done; by rewrite Ef.
Qed.

Lemma program_thread s c :
  core s -> caller_ok (ACall c) s -> thread_ok (heap s) (program s c).
Proof.
  intros C Hok. destruct c; cbn [program]; try (by apply plain_thread; repeat constructor).
  - apply thread_app; [by apply leaving_thread|]. apply plain_thread. by repeat constructor.
  - split; [by repeat constructor..|done].
  - destruct (by_id s !! id) as [a|] eqn:E; [|apply empty_thread].
    apply thread_app; [|by apply plain_thread; repeat constructor]. apply leaving_thread.
    destruct (co_ids s C id a E) as (x & Hx & _). eauto.
  - apply plain_thread. destruct bytes; by repeat constructor.
  - apply plain_thread. destruct ms; [done|]. apply Forall_fmap, Forall_true. done.
  - change (?a :: ?l) with ([a] ++ l). apply thread_app; [apply plain_thread; by repeat constructor|].
    assert (Hl : forall a, a ∈ roster s -> is_Some (heap s !! a))
      by (intros a Ha; destruct (roster_known s a C Ha) as (x & Hx & _); eauto).
    induction (roster s) as [|a l IH]; [apply empty_thread|]. cbn [flat_map]. apply thread_app.
    + split; [by repeat constructor..| |done]. repeat constructor. apply Hl. left.
    + apply IH. intros b Hb. apply Hl. by right.
Qed.

Lemma streams_act lag s action s' :
  streams s -> orderly action s -> act lag action s = Some s' -> streams s'.
Proof.
  intros St Hok Ha. pose proof St as [C T]. destruct action; cbn [act] in Ha.
  - injection Ha as <-. split; [by apply (core_view s)|]. apply threads_snoc; [done|apply grows_refl|].
    exact (program_thread s c C (proj1 Hok)).
  - destruct Hok. by apply (streams_step lag s i).
  - destruct (running s); [done|]. injection Ha as <-. split; [by apply (core_view s)|done].
  - destruct (running s) eqn:Er; [|done]. destruct (drain s) eqn:Ed; [|done].
    destruct (take_frame _ _) as [[r o]|]; [|done]. injection Ha as <-.
    split; [|done]. assert (C1 : core (with_outbound s o)) by (by apply (core_view s)).
    apply core_drain; [done|destruct r; by constructor| |left; by destruct r].
    intros a. cbn. rewrite Ed. by destruct r.
  - destruct (running s) eqn:Er; [|done]. destruct (drain s) as [|sec rest] eqn:Ed; [done|].
    destruct (run_sec lag sec s) as [s1 more] eqn:E. injection Ha as <-.
    pose proof (core_drain_step lag s sec rest C Ed) as C1. pose proof (drain_grows lag s sec) as Hg.
    destruct (run_sec_frame lag s sec) as [_ Hc]. rewrite E in C1, Hg, Hc. cbn in C1, Hg, Hc.
    split; [exact C1|]. cbn. rewrite Hc. eapply Forall_impl; [exact T|]. intros t. by apply thread_grows.
  - destruct (running s) eqn:Er; [|done]. destruct (drain s) eqn:Ed; [|done].
    destruct (closed (outbound s)); [|done]. injection Ha as <-. split; [|done].
    apply core_drain; [done|by apply shape_quiet| |by left]. intros a. by rewrite Ed.
  - destruct Hok as [Hr _]. destruct (core_mint s C Hr) as (C1 & E1 & E2).
    destruct (granted_mint s C) as [H1 H2]. pose proof (co_next s C).
    destruct (mint s) as [id s1] eqn:Em. injection Ha as <-. cbn [fst snd] in *.
    unfold mint, reserve_id in Em. injection Em as <- <-.
    destruct C1 as [Cs Ci C1 Cid Cm Cg Cn Cp Chd Cmem]. split; [|done]. constructor; cbn in *; try done.
    + intros i [[->|Hi]%elem_of_cons|Hi]; [rewrite E2; lia|apply Cm; by left|apply Cm; by right].
    + destruct Cg as [Hnd Hg]. split; [by constructor|]. intros i [->|Hi]%elem_of_cons; [done|by apply Hg].
    + intros i [->|Hi]%elem_of_cons; [lia|by apply Cp].
  - by apply (streams_join lag s a reserved composed_through rendered).
  - injection Ha as <-. apply streams_attach; [done|apply Hok].
  - injection Ha as <-. unfold detach. destruct (detached s); [done|].
    split; [by apply (core_view s)|]. apply threads_snoc; [done|apply grows_refl|].
    apply plain_thread. by repeat constructor.
  - destruct (detached s); [|done]. injection Ha as <-. apply streams_rebind; [done|apply Hok].
  - destruct (heap s !! a) as [x|] eqn:Hx; [|done]. by apply (streams_transfer s a x).
  - destruct (heap s !! a) as [x|] eqn:Hx; [|done]. by apply (streams_sender_take s a x).
  - destruct (heap s !! a) as [x|] eqn:Hx; [|done]. by apply (streams_sender_send s a x).
  - destruct (heap s !! a) as [x|] eqn:Hx; [|done]. injection Ha as <-. by apply streams_control.
Qed.

Lemma streams_new b capacity : streams (session_new b capacity).
Proof.
  split; [|by constructor]. constructor; cbn; try done.
  - by apply shape_quiet.
  - intros i [?%elem_of_nil|[a ?%lookup_empty_Some]]; done.
  - split; [constructor|]. by intros i ?%elem_of_nil.
  - by intros i ?%elem_of_nil.
Qed.

Lemma reachable_streams lag s : reachable lag orderly s -> streams s.
Proof.
  induction 1 as [|s action s' _ IH Hok Ha]; [apply streams_new|]. by apply (streams_act lag s action).
Qed.

(** ** The properties *)

(** Nothing is left between what was spoken and a member's channel. *)
Definition settled (s : Session) (x : Subscriber) : Prop := drain s = [] /\ held x = [].

(** C7: in any interleaving of the drain, the senders, the joins, the acknowledgements and the
    departures, with joins that do not overlap, the data channel of a member carries a prefix of its
    state transfer followed by every frame and exit spoken since its admission, each once and in order;
    and a member that is still attached and has nothing held up has received all of it. *)
Theorem members_hear_everything_once lag s a x :
  reachable lag orderly s -> heap s !! a = Some x ->
  s_data x `prefix_of` s_prefix x ++ drop (s_from x) (spoken s) /\
  (is_open x -> settled s x -> s_data x = s_prefix x ++ drop (s_from x) (spoken s)).
Proof.
  intros Hr Hx. pose proof (co_members s (st_core s (reachable_streams lag s Hr)) a x Hx) as [_ _ _ _ Hfin _ Ho].
  split; [done|]. intros Hop [Hd Hh]. destruct (Ho Hop) as [_ E]. rewrite Hd, Hh in E. cbn in E.
  by rewrite app_nil_r in E.
Qed.

(** One client, then a second whose screen takes two messages, then output. *)
Definition two_clients : list Action :=
  [AAttach 0; AStart] ++ ingest 1 65 ++ [ADrainStep; ADrainStep; ADrainStep; ADrainStep; ADrainStep; ADrainStep] ++
  [AReserve; AJoin 1 (Some 2) 1 [Output 1 (letter 65)]; AStep 2; ATransfer 1; ATransfer 1; AStep 3] ++
  ingest 4 66 ++ [ADrainStep; ADrainStep; ADrainStep; ADrainStep; ADrainStep; ASenderTake 1; ASenderSend 1].

Lemma members_hear_everything_once_witness :
  exists s x, run 0 orderly two_clients pane0 = Some s /\ heap s !! 1%nat = Some x /\
    s_data x = s_prefix x ++ drop (s_from x) (spoken s) /\
    s_data x = [Output 1 (letter 65); Output 2 (letter 66)].
Proof.
  destruct (run 0 orderly two_clients pane0) as [s|] eqn:E; [|vm_compute in E; congruence].
  assert (Hr : reachable 0 orderly s).
  { apply (run_reachable 0 orderly two_clients pane0); [apply reach_new; lia|exact E]. }
  destruct (heap s !! 1%nat) as [x|] eqn:Hx; [|vm_compute in E; injection E as <-; vm_compute in Hx; congruence].
  destruct (members_hear_everything_once 0 s 1 x) as [_ Hall]; [exact Hr|exact Hx|].
  exists s, x. split; [reflexivity|]. split; [exact Hx|]. split.
  - apply Hall; vm_compute in E; injection E as <-; vm_compute in Hx; injection Hx as <-; vm_compute; split; reflexivity.
  - vm_compute in E. injection E as <-. vm_compute in Hx. injection Hx as <-. vm_compute. reflexivity.
Defined.

(** Two joins that overlap: the third client's join starts the second's sender in the middle of its
    state transfer. *)
Definition overlapping : list Action :=
  [AAttach 0; AStart; AJoin 1 None 0 [Output 0 (letter 65); Output 0 (letter 66)];
   AJoin 2 None 0 []; AStep 2; AStep 2; ATransfer 1] ++ ingest 3 67 ++
  [ADrainStep; ADrainStep; ADrainStep; ASenderTake 1; ASenderSend 1].

(** joins that overlap break the stream.  There is a run in which a third client joins while a second
    is still being sent its screen, and a live frame overtakes the rest of that screen on the second's
    channel. *)
Theorem overlapping_joins_interleave :
  exists s x, reachable 0 caller_ok s /\ heap s !! 1%nat = Some x /\ is_open x /\
    s_prefix x ++ drop (s_from x) (spoken s)
      = [Output 0 (letter 65); Output 0 (letter 66); Output 1 (letter 67)] /\
    s_data x = [Output 0 (letter 65); Output 1 (letter 67)].
Proof.
  destruct (run 0 caller_ok overlapping pane0) as [s|] eqn:E; [|vm_compute in E; congruence].
  assert (Hr : reachable 0 caller_ok s).
  { apply (run_reachable 0 caller_ok overlapping pane0); [apply reach_new; lia|exact E]. }
  destruct (heap s !! 1%nat) as [x|] eqn:Hx; [|vm_compute in E; injection E as <-; vm_compute in Hx; congruence].
  exists s, x. split; [exact Hr|]. split; [exact Hx|].
  vm_compute in E. injection E as <-. vm_compute in Hx. injection Hx as <-. vm_compute. auto.
Qed.
