(* ===== verification/Retained.v ===== *)
(** * Retained: what the ring keeps for the members of a pane

    The second theorem about [Session]: retention is released to the slowest member, however the
    sections of acknowledgements, departures, joins and sends interleave.  A floor is computed under one
    lock and applied under another, so between the two the member it was computed from may leave, and
    another may join; the bound each member is owed has to survive that. *)

From stdpp Require Import gmap sorting.
From S2P Require Import Prelude BTree Message Flow Replay Outbox Fanout Session.

(** The frames, in the order they were sequenced, and their payloads. *)
Definition frame_of (m : WireMessage) : option (Z * list byte) :=
  match m with Output seq bytes => Some (seq, bytes) | _ => None end.
Definition outputs (sp : list WireMessage) : list (Z * list byte) := omap frame_of sp.
Definition frames (sp : list WireMessage) : list (list byte) := (outputs sp).*2.
#[local] Arguments frames : simpl never.
#[local] Arguments outputs : simpl never.

Lemma frames_snoc sp m : frames (sp ++ [m]) = frames sp ++ (outputs [m]).*2.
Proof. unfold frames, outputs. by rewrite omap_app, fmap_app. Qed.
Lemma outputs_snoc sp m : outputs (sp ++ [m]) = outputs sp ++ outputs [m].
Proof. unfold outputs. by rewrite omap_app. Qed.

Definition log_of (s : Session) : Log := mkLog (frames (spoken s)) (acked_seq (replay s)).

Definition floor_of (sec : Sec) : option Z :=
  match sec with SAckRing f => Some f | SFloorRing o => o | _ => None end.

(** No member is owed anything at or below [f], and no later one will be. *)
Definition bounded (s : Session) (f : Z) : Prop :=
  f <= highest_seq (replay s) /\
  forall i a x, by_id s !! i = Some a -> heap s !! a = Some x -> f <= s_promised x.

Definition drain_sec (sec : Sec) : Prop :=
  match sec with
  | SSequence _ _ _ | SEnqueueData _ _ | SSendInline _ _ | SEnqueueControl _ _ | SHandOffExit _ | SExitSent
  | SNoteSent _ _ | SBacklogAt _ | SSetBacklog _ | SDequeueAccounted _ | SExitDelivered _ | SEvict | SPrice _
  | SLatch _ | SFire _ => True
  | _ => False
  end.

Definition floors_ok (s : Session) (t : list Sec) : Prop :=
  Forall (fun sec => forall f, floor_of sec = Some f -> bounded s f) t.

Record kept (s : Session) : Prop := {
  kp_replay : replay_inv (replay s) /\ represents (replay s) (log_of s);
  kp_numbered : outputs (spoken s) = number 0 (frames (spoken s));
  kp_roster : forall i a, by_id s !! i = Some a -> exists x, heap s !! a = Some x /\ s_id x = i;
  kp_dom : forall i, is_Some (by_id s !! i) -> is_Some (members (fanout s) !! i);
  kp_cursors : forall i m, members (fanout s) !! i = Some m ->
    exists a x, by_id s !! i = Some a /\ heap s !! a = Some x /\ acked m <= s_promised x;
  kp_promised : forall i a x, by_id s !! i = Some a -> heap s !! a = Some x -> s_promised x <= highest_seq (replay s);
  kp_acked : bounded s (acked_seq (replay s));
}.

Record retained (s : Session) : Prop := {
  rt_kept : kept s;
  rt_calls : Forall (floors_ok s) (calls s);
  rt_drain : Forall drain_sec (drain s);
}.

(** ** What the ring does *)

Lemma ring_append b sp bytes acked :
  replay_inv b -> represents b (mkLog (frames sp) acked) -> acked = acked_seq b ->
  let b' := (Replay.append b bytes).2 in
  replay_inv b' /\ represents b' (mkLog (frames (sp ++ [Output (highest_seq b + 1) bytes])) acked) /\
  highest_seq b' = highest_seq b + 1 /\ acked_seq b' = acked_seq b.
Proof.
  intros Hi Hr ->. split_and!; [by apply append_inv| |done|done].
  pose proof (represents_apply (fun _ => None) (Replay.mkSession b None)
    (mkLog (frames sp) (acked_seq b)) (RAppend bytes)) as H.
  rewrite frames_snoc. apply H; [|done|done]. split; [done|]. by intros ? ?.
Qed.

Lemma ring_ack b l f :
  replay_inv b -> represents b l -> confirmed l = acked_seq b ->
  let b' := Replay.ack b f in
  replay_inv b' /\ represents b' (mkLog (produced l) (acked_seq b')) /\ highest_seq b' = highest_seq b /\
  acked_seq b' = Z.max (acked_seq b) (Z.min f (highest_seq b)).
Proof.
  intros Hi Hr Hc. destruct (ack_fields b f (proj1 Hi)) as (E1 & E2 & _).
  split_and!; [by apply ack_inv| |done|done].
  pose proof (represents_apply (fun _ => None) (Replay.mkSession b None) l (RAck f)) as H.
  cbn [buf replay_apply log_apply] in H. rewrite E1.
  replace (Z.max (acked_seq b) (Z.min f (highest_seq b)))
    with (Z.max (confirmed l) (Z.min f (zlen (produced l)))) by (rewrite Hc; destruct Hr as (-> & _); done).
  apply H; [|done|done]. split; [done|]. by intros ? ?.
Qed.

Lemma ring_online b l online :
  replay_inv b -> represents b l ->
  replay_inv (set_client_online b online) /\ represents (set_client_online b online) l.
Proof. intros Hi Hr. split; [|done]. destruct Hi as ([] & [] & ?). split_and!; [by split|by split|done]. Qed.

(** ** Steps that leave all of it alone *)

Definition same_cursors (f f' : Fanout) : Prop := forall i, acked <$> members f' !! i = acked <$> members f !! i.
Definition same_promises (h h' : gmap nat Subscriber) : Prop :=
  forall a, (fun x => (s_id x, s_promised x)) <$> h' !! a = (fun x => (s_id x, s_promised x)) <$> h !! a.

Lemma promise_back h h' a y :
  same_promises h h' -> h' !! a = Some y -> exists x, h !! a = Some x /\ s_id x = s_id y /\ s_promised x = s_promised y.
Proof.
  intros Hp Hy. specialize (Hp a). rewrite Hy in Hp. cbn in Hp.
  destruct (h !! a) as [x|]; [|done]. injection Hp as E1 E2. eauto.
Qed.

Lemma promise_forth h h' a x :
  same_promises h h' -> h !! a = Some x -> exists y, h' !! a = Some y /\ s_id x = s_id y /\ s_promised x = s_promised y.
Proof.
  intros Hp Hy. specialize (Hp a). rewrite Hy in Hp. cbn in Hp.
  destruct (h' !! a) as [y|]; [|done]. injection Hp as E1 E2. eauto.
Qed.

Lemma same_promises_refl h : same_promises h h.
Proof. by intros a. Qed.

Lemma same_promises_alter h a f :
  (forall x, s_id (f x) = s_id x /\ s_promised (f x) = s_promised x) -> same_promises h (alter f a h).
Proof.
  intros Hf b. destruct (decide (a = b)) as [<-|Hne]; [|by rewrite lookup_alter_ne].
  rewrite lookup_alter_eq. destruct (h !! a) as [x|]; [|done]. cbn. destruct (Hf x) as [-> ->]. done.
Qed.

Lemma same_promises_insert h a x y :
  h !! a = Some x -> s_id y = s_id x -> s_promised y = s_promised x -> same_promises h (<[a := y]> h).
Proof.
  intros Hx E1 E2 b. destruct (decide (a = b)) as [<-|Hne]; [|by rewrite lookup_insert_ne].
  rewrite lookup_insert_eq, Hx. cbn. by rewrite E1, E2.
Qed.

Lemma bounded_same s s' f :
  highest_seq (replay s) <= highest_seq (replay s') -> by_id s' = by_id s -> same_promises (heap s) (heap s') ->
  bounded s f -> bounded s' f.
Proof.
  intros Hh Hr Hp [H1 H2]. split; [lia|]. rewrite Hr. intros i a y Hi Hy.
  destruct (promise_back _ _ a y Hp Hy) as (x & Hx & _ & E). rewrite <- E. by apply (H2 i a x).
Qed.

Lemma kept_same s s' :
  kept s -> replay s' = replay s -> same_cursors (fanout s) (fanout s') -> by_id s' = by_id s ->
  same_promises (heap s) (heap s') -> outputs (spoken s') = outputs (spoken s) -> kept s'.
Proof.
  intros [Hr Hnum Hro Hdom Hc Hp Ha] Er Ec Ei Eh Es. constructor.
  - unfold log_of, frames. by rewrite Er, Es.
  - unfold frames. by rewrite Es.
  - rewrite Ei. intros i a Hi. destruct (Hro i a Hi) as (x & Hx & Hid).
    destruct (promise_forth _ _ a x Eh Hx) as (y & Hy & E & _). exists y. split; [done|congruence].
  - rewrite Ei. intros i Hi. apply Hdom in Hi as [m Hm]. specialize (Ec i). rewrite Hm in Ec.
    by destruct (members (fanout s') !! i).
  - intros i m' Hm. specialize (Ec i). rewrite Hm in Ec. cbn in Ec.
    destruct (members (fanout s) !! i) as [m|] eqn:E; [|done]. injection Ec as Ec.
    destruct (Hc i m E) as (a & x & Hi & Hx & Hle). destruct (promise_forth _ _ a x Eh Hx) as (y & Hy & _ & E2).
    exists a, y. rewrite Ei. split_and!; [done|done|lia].
  - rewrite Ei, Er. intros i a y Hi Hy. destruct (promise_back _ _ a y Eh Hy) as (x & Hx & _ & <-). by apply (Hp i a).
  - apply (bounded_same s); try done; rewrite Er; [lia|done].
Qed.

Lemma cursors_alter f id g :
  (forall m, acked (g m) = acked m) -> same_cursors f (with_members f (alter g id (members f))).
Proof.
  intros Hg i. cbn. destruct (decide (id = i)) as [<-|Hne]; [|by rewrite lookup_alter_ne].
  rewrite lookup_alter_eq. destruct (members f !! id); [|done]. cbn. by rewrite Hg.
Qed.

Lemma cursors_insert f id m m' :
  members f !! id = Some m -> acked m' = acked m -> same_cursors f (with_members f (<[id := m']> (members f))).
Proof.
  intros Hm E i. cbn. destruct (decide (id = i)) as [<-|Hne]; [|by rewrite lookup_insert_ne].
  rewrite lookup_insert_eq, Hm. cbn. by rewrite E.
Qed.

Lemma cursors_refl f : same_cursors f f.
Proof. by intros i. Qed.

Lemma cursors_latch f priced n : same_cursors f (latch_evicting f priced n).2.
Proof.
  pose proof (latch_spec f priced n) as H. destruct (latch_evicting f priced n) as [doomed f'].
  destruct H as (_ & _ & _ & Hf). intros i. cbn. rewrite Hf, <- option_fmap_compose.
  apply option_fmap_ext. intros m. cbn. by case_bool_decide.
Qed.

(** ** The sections *)

Definition no_floor (sec : Sec) : Prop := floor_of sec = None.

Lemma no_floors s t : Forall no_floor t -> floors_ok s t.
Proof. intros H. eapply Forall_impl; [exact H|]. intros sec E f. by rewrite E. Qed.

Lemma ship_no_floor s l m : Forall no_floor (ship s l m).
Proof.
  unfold ship. destruct (fanned_out s); [apply Forall_fmap, Forall_true; done|]. destruct l; by repeat constructor.
Qed.

Lemma floor_bounded s x : kept s -> retention_floor (fanout s) = Some x -> bounded s x.
Proof.
  intros K Hx. apply retention_floor_spec in Hx as [(i & m & Hm & <-) Hall]. split.
  - destruct (kp_cursors s K i m Hm) as (a & y & Hi & Hy & Hle). pose proof (kp_promised s K i a y Hi Hy). lia.
  - intros j a y Hj Hy. destruct (kp_dom s K j ltac:(eauto)) as [n Hn].
    destruct (kp_cursors s K j n Hn) as (b & z & Hb & Hz & Hle). specialize (Hall j n Hn).
    assert (y = z) as -> by congruence. lia.
Qed.

(** What a section keeps: the invariant, every floor already computed, and the floor it computes. *)
Definition keeps (s s' : Session) (more : list Sec) : Prop :=
  kept s' /\ (forall f, bounded s f -> bounded s' f) /\ floors_ok s' more.

Lemma keeps_same s s' more :
  kept s -> replay s' = replay s -> same_cursors (fanout s) (fanout s') -> by_id s' = by_id s ->
  same_promises (heap s) (heap s') -> outputs (spoken s') = outputs (spoken s) -> Forall no_floor more ->
  keeps s s' more.
Proof.
  intros K Er Ec Ei Eh Es Hm. split_and!.
  - by apply (kept_same s).
  - intros f. apply bounded_same; try done. by rewrite Er.
  - by apply no_floors.
Qed.

Lemma kept_ack_member s id seq :
  kept s -> 0 <= seq <= highest_seq (replay s) ->
  let s' := (run_sec 0 (SAck id seq) s).1 in
  kept s' /\ (forall f, bounded s f -> bounded s' f).
Proof.
  intros [Hr Hnum Hro Hdom Hc Hp Ha] Hseq. step_cbn. change (acknowledge (fanout s) id seq) with
    (retention_floor (acknowledge (fanout s) id seq).2, (acknowledge (fanout s) id seq).2).
  set (f' := (acknowledge (fanout s) id seq).2). cbn [fst by_id with_fanout].
  set (s' := match by_id s !! id with Some a => _ | None => _ end).
  assert (Er : replay s' = replay s) by (unfold s'; by destruct (by_id s !! id)).
  assert (Ei : by_id s' = by_id s) by (unfold s'; by destruct (by_id s !! id)).
  assert (Es : spoken s' = spoken s) by (unfold s'; by destruct (by_id s !! id)).
  assert (Ef : fanout s' = f') by (unfold s'; by destruct (by_id s !! id)).
  assert (Eh : forall a x, heap s !! a = Some x -> exists y, heap s' !! a = Some y /\ s_id y = s_id x /\
    s_promised x <= s_promised y /\ (by_id s !! id = Some a -> seq <= s_promised y)).
  { intros a x Hx. unfold s'. destruct (by_id s !! id) as [b|] eqn:Eb; cbn; [|exists x; split_and!; try done; lia].
    destruct (decide (b = a)) as [->|Hne].
    - rewrite lookup_alter_eq, Hx. eexists. split_and!; [done|done|cbn; lia|cbn; lia].
    - rewrite lookup_alter_ne by done. exists x. split_and!; [done|done|lia|congruence]. }
  assert (Hb : forall i a y, by_id s !! i = Some a -> heap s' !! a = Some y ->
    exists x, heap s !! a = Some x /\ s_promised x <= s_promised y <= highest_seq (replay s)).
  { intros i a y Hi Hy. destruct (Hro i a Hi) as (x & Hx & _). exists x. split; [done|].
    pose proof (Hp i a x Hi Hx). destruct (Eh a x Hx) as (y' & Hy' & _ & Hle & _).
    assert (y' = y) as -> by congruence. split; [done|].
    revert Hy. unfold s'. destruct (by_id s !! id) as [b|]; cbn; [|intros ?; assert (y = x) by congruence; subst; done].
    destruct (decide (b = a)) as [->|Hne]; [rewrite lookup_alter_eq, Hx; intros [= <-]; cbn; lia|].
    rewrite lookup_alter_ne by done. intros ?. assert (y = x) by congruence. by subst. }
  assert (Hbound : forall f, bounded s f -> bounded s' f).
  { intros f [H1 H2]. split; [by rewrite Er|]. rewrite Ei. intros i a y Hi Hy.
    destruct (Hb i a y Hi Hy) as (x & Hx & Hle & _). specialize (H2 i a x Hi Hx). lia. }
  split; [|done]. constructor.
  - unfold log_of. by rewrite Er, Es.
  - by rewrite Es.
  - rewrite Ei. intros i a Hi. destruct (Hro i a Hi) as (x & Hx & <-). destruct (Eh a x Hx) as (y & Hy & E & _). eauto.
  - rewrite Ei, Ef. intros i Hi. cbn. apply lookup_alter_is_Some. by apply Hdom.
  - rewrite Ei, Ef. intros i m Hm. cbn in Hm. destruct (decide (id = i)) as [<-|Hne].
    + rewrite lookup_alter_eq in Hm. destruct (members (fanout s) !! id) as [m0|] eqn:Em; [|done].
      injection Hm as <-. destruct (Hc id m0 Em) as (a & x & Hi & Hx & _).
      destruct (Eh a x Hx) as (y & Hy & _ & _ & Hs). exists a, y. split_and!; [done|done|]. by apply Hs.
    + rewrite lookup_alter_ne in Hm by done. destruct (Hc i m Hm) as (a & x & Hi & Hx & Hle).
      destruct (Eh a x Hx) as (y & Hy & _ & Hp' & _). exists a, y. split_and!; [done|done|lia].
  - rewrite Ei, Er. intros i a y Hi Hy. by destruct (Hb i a y Hi Hy) as (x & _ & _ & ?).
  - rewrite Er. by apply Hbound.
Qed.

Lemma kept_ring s f :
  kept s -> bounded s f -> kept (with_replay s (Replay.ack (replay s) f)) /\
  forall g, bounded s g -> bounded (with_replay s (Replay.ack (replay s) f)) g.
Proof.
  intros [[Hi Hr] Hnum Hro Hdom Hc Hp Ha] Hf.
  destruct (ring_ack (replay s) (log_of s) f Hi Hr eq_refl) as (Hi' & Hr' & Eh & Ea).
  assert (Hb : forall g, bounded s g -> bounded (with_replay s (Replay.ack (replay s) f)) g).
  { intros g [H1 H2]. split; [cbn; lia|done]. }
  split; [|done]. constructor; try done.
  - intros i a x Hia Hx. cbn. rewrite Eh. by apply (Hp i a).
  - apply Hb. cbn. rewrite Ea. destruct Ha as [A1 A2], Hf as [F1 F2]. split; [lia|].
    intros i a x Hia Hx. specialize (A2 i a x Hia Hx). specialize (F2 i a x Hia Hx). lia.
Qed.

Lemma kept_retire s a :
  kept s -> by_id s !! id_of s a = Some a ->
  kept (with_roster s (leave (fanout s) (id_of s a)).2 (delete (id_of s a) (by_id s))).
Proof.
  intros [Hr Hnum Hro Hdom Hc Hp Ha] Hi. constructor; cbn; try done.
  - intros i b [_ Hb]%lookup_delete_Some. by apply Hro.
  - intros i [b [Hne Hb]%lookup_delete_Some]. rewrite lookup_delete_ne by done. apply Hdom. eauto.
  - intros i m [Hne Hm]%lookup_delete_Some. destruct (Hc i m Hm) as (b & x & Hb & Hx & Hle).
    exists b, x. by rewrite lookup_delete_ne.
  - intros i b x [_ Hb]%lookup_delete_Some. by apply (Hp i).
  - destruct Ha as [A1 A2]. split; [done|]. cbn. intros i b x [_ Hb]%lookup_delete_Some. by apply (A2 i).
Qed.

Lemma run_keeps lag s sec :
  kept s -> match sec with SAck _ seq => 0 <= seq <= highest_seq (replay s) | _ => True end ->
  (forall f, floor_of sec = Some f -> bounded s f) ->
  keeps s (run_sec lag sec s).1 (run_sec lag sec s).2.
Proof.
  intros K Hack Hfl.
  assert (P : forall s0 a f more, replay s0 = replay s -> same_cursors (fanout s) (fanout s0) -> by_id s0 = by_id s ->
    heap s0 = heap s -> spoken s0 = spoken s ->
    (forall x, s_id (f x) = s_id x /\ s_promised (f x) = s_promised x) -> Forall no_floor more ->
    keeps s (update s0 a f) more).
  { intros s0 a f more E1 E2 E3 E4 E5 Hf Hm. apply keeps_same; try done; cbn.
    - rewrite E4. by apply same_promises_alter.
    - by rewrite E5. }
  destruct sec; step_cbn;
    try (by apply keeps_same; try done; repeat constructor).
  - (* SSequence *)
    destruct K as [[Hi Hr] Hnum Hro Hdom Hc Hp Ha].
    destruct (ring_append (replay s) (spoken s) bytes _ Hi Hr eq_refl) as (Hi' & Hr' & Eh & Ea). cbv zeta in *.
    change (Replay.append (replay s) bytes) with (highest_seq (replay s) + 1, (Replay.append (replay s) bytes).2).
    cbn [fst snd]. set (b := (Replay.append (replay s) bytes).2) in *.
    assert (Hb : forall sp f, bounded s f -> bounded (with_spoken (with_replay s b) sp) f).
    { intros sp f [H1 H2]. split; [cbn; lia|done]. }
    split_and!; [|by apply Hb|].
    + constructor; cbn; try done.
      * rewrite outputs_snoc, frames_snoc, number_app, <- Hnum. destruct Hr as [-> _].
        by rewrite Z.add_0_l.
      * intros i a x Hia Hx. specialize (Hp i a x Hia Hx). lia.
      * by apply Hb.
    + apply no_floors, Forall_app_2; [apply ship_no_floor|]. constructor; [done|].
      apply Forall_app_2; [|by repeat constructor]. destruct control; [done|]. by apply Forall_fmap, Forall_true.
  - apply P; try done. intros x. unfold enqueue_data. by destruct (lane_closed _).
  - apply P; try done; [intros x; unfold send_data; by destruct (s_finished x)|].
    unfold after_send. destruct m; try done; [destruct (negb _)|]; by repeat constructor.
  - apply P; try done. intros x. unfold enqueue_control. destruct ms; [done|].
    by destruct (lane_closed _).
  - apply keeps_same; try done; [|apply ship_no_floor].
    cbn. rewrite outputs_snoc. unfold outputs at 2. cbn. by rewrite app_nil_r.
  - apply keeps_same; try done.
    + apply cursors_alter. intros m. by destruct (_ <? _).
    + destruct (frontier _); by repeat constructor.
  - apply keeps_same; try done. by apply cursors_alter.
  - destruct (kept_ack_member s id seq K Hack) as [K' Hb]. step_cbn_in K'; step_cbn_in Hb.
    unfold acknowledge in *. cbn [fst snd by_id with_fanout] in *. split_and!; [exact K'|exact Hb|].
    constructor; [|done]. intros f [= <-].
    destruct (retention_floor _) as [x|] eqn:Ef; cbn [default].
    + apply floor_bounded; [exact K'|]. destruct (by_id s !! id); exact Ef.
    + apply retention_floor_none in Ef. cbn in Ef. split.
      * cbn. destruct (by_id s !! id); apply Hack.
      * intros i a x Hi _. exfalso.
        assert (Hi' : is_Some (by_id s !! i)) by (destruct (by_id s !! id); eauto).
        apply (kp_dom s K) in Hi' as [m Hm]. apply (f_equal (fun t => t !! i)) in Ef.
        rewrite lookup_empty in Ef. assert (Hs : is_Some (alter (set_acked seq) id (members (fanout s)) !! i))
          by (apply lookup_alter_is_Some; eauto). rewrite Ef in Hs. by destruct Hs.
  - destruct (kept_ring s floor K ltac:(by apply Hfl)) as [K' Hb]. split_and!; [done|done|].
    apply no_floors. by repeat constructor.
  - apply keeps_same; try done.
    destruct (lag =? 0); [done|]. destruct (lagging_cursors _ _); by repeat constructor.
  - pose proof (cursors_latch (fanout s) priced lag) as Hc. destruct (latch_evicting _ _ _) as [doomed f].
    apply keeps_same; try done; by repeat constructor.
  - split_and!; [done|done|]. constructor; [|done]. cbn. intros f Hf. by apply floor_bounded.
  - destruct floor as [f|].
    + destruct (kept_ring s f K ltac:(by apply Hfl)) as [K' Hb]. split_and!; [done|done|].
      apply no_floors. by repeat constructor.
    + apply keeps_same; try done; by repeat constructor.
  - destruct K as [[Hi Hr] Hnum Hro Hdom Hc Hp Ha]. destruct (ring_online _ _ online Hi Hr) as [Hi' Hr'].
    split_and!; [by constructor|done|]. apply no_floors. by repeat constructor.
  - by apply P.
  - by apply P.
  - case_bool_decide as Hi; [|by apply keeps_same; try done].
    split_and!; [by apply kept_retire| |by apply no_floors].
    intros f [H1 H2]. split; [done|]. cbn. intros i b x [_ Hb]%lookup_delete_Some. by apply (H2 i).
  - apply keeps_same; try done.
    apply Forall_app_2; [|by repeat constructor]. induction (roster s); cbn; [done|by repeat constructor].
  - apply keeps_same; try done. destruct (fanned_out s); by repeat constructor.
  - destruct (fanned_out s); apply keeps_same; try done; by repeat constructor.
  - apply keeps_same; try done. by apply Forall_fmap, Forall_true.
  - unfold start_sender. destruct (members (fanout s) !! id_of s a) as [m|] eqn:Em.
    + destruct (has_sender m).
      * apply keeps_same; try done.
      * apply P; try done. cbn. by apply (cursors_insert _ _ m).
    + apply keeps_same; try done.
  - apply keeps_same; try done. by apply cursors_alter.
Qed.

(** ** The actions *)

Lemma kept_admit s a x n :
  kept s -> heap s !! a = None -> s_promised x = highest_seq (replay s) -> n <= highest_seq (replay s) ->
  kept (enroll s a x n) /\ forall f, bounded s f -> bounded (enroll s a x n) f.
Proof.
  intros [Hr Hnum Hro Hdom Hc Hp Ha] Hn Hpx Hle.
  assert (Hother : forall i b y, by_id s !! i = Some b -> <[a := x]> (heap s) !! b = Some y -> heap s !! b = Some y).
  { intros i b y Hi Hy. destruct (Hro i b Hi) as (z & Hz & _). rewrite lookup_insert_ne in Hy by congruence. done. }
  assert (Hkeep : forall i b, by_id s !! i = Some b -> exists y, heap s !! b = Some y /\ <[a := x]> (heap s) !! b = Some y /\ s_id y = i).
  { intros i b Hi. destruct (Hro i b Hi) as (y & Hy & Hid). exists y. rewrite lookup_insert_ne by congruence. done. }
  assert (Hb : forall f, bounded s f -> bounded (enroll s a x n) f).
  { intros f [H1 H2]. split; [done|]. cbn. intros i b y [[_ <-]|[_ Hi]]%lookup_insert_Some Hy.
    - rewrite lookup_insert_eq in Hy. injection Hy as <-. lia.
    - by apply (H2 i b y Hi), (Hother i). }
  split; [|done]. constructor; cbn; try done.
  - intros i b [[<- <-]|[_ Hi]]%lookup_insert_Some; [exists x; by rewrite lookup_insert_eq|].
    destruct (Hkeep i b Hi) as (y & _ & Hy & Hid). eauto.
  - intros i [b [[<- _]|[Hne Hi]]%lookup_insert_Some].
    + rewrite lookup_insert_eq. eauto.
    + rewrite lookup_insert_ne by done. apply Hdom. eauto.
  - intros i m [[<- <-]|[Hne Hm]]%lookup_insert_Some.
    + exists a, x. rewrite !lookup_insert_eq. split_and!; [done|done|cbn; lia].
    + destruct (Hc i m Hm) as (b & y & Hi & Hy & Hley). exists b, y.
      rewrite lookup_insert_ne by done. split_and!; [done| |done].
      destruct (Hkeep i b Hi) as (z & Hz & Hz' & _). congruence.
  - intros i b y [[_ <-]|[_ Hi]]%lookup_insert_Some Hy.
    + rewrite lookup_insert_eq in Hy. injection Hy as <-. lia.
    + by apply (Hp i b), (Hother i).
  - by apply Hb.
Qed.

Lemma floors_mono s s' t : (forall f, bounded s f -> bounded s' f) -> floors_ok s t -> floors_ok s' t.
Proof. intros Hb Ht. eapply Forall_impl; [exact Ht|]. intros sec H f Hf. by apply Hb, H. Qed.

Lemma calls_snoc s s' t :
  (forall f, bounded s f -> bounded s' f) -> Forall (floors_ok s) (calls s) -> Forall no_floor t ->
  Forall (floors_ok s') (calls s ++ [t]).
Proof.
  intros Hb Hc Ht. apply Forall_app_2; [|constructor; [by apply no_floors|done]].
  eapply Forall_impl; [exact Hc|]. intros u. by apply floors_mono.
Qed.

(** A step that leaves the numbers alone, and starts at most a thread with no floor in it. *)
Lemma retained_same s s' c :
  retained s -> replay s' = replay s -> same_cursors (fanout s) (fanout s') -> by_id s' = by_id s ->
  same_promises (heap s) (heap s') -> spoken s' = spoken s -> drain s' = drain s ->
  calls s' = calls s ++ c -> Forall (Forall no_floor) c -> retained s'.
Proof.
  intros [K C D] Er Ef Ei Eh Es Ed Ec Hc.
  assert (Hb : forall f, bounded s f -> bounded s' f) by (intros f; apply bounded_same; try done; by rewrite Er).
  split; [apply (kept_same s); try done; by rewrite Es| |by rewrite Ed].
  rewrite Ec. apply Forall_app_2.
  - eapply Forall_impl; [exact C|]. intros u. by apply floors_mono.
  - eapply Forall_impl; [exact Hc|]. intros u. apply no_floors.
Qed.

Lemma program_no_floor s c : Forall no_floor (program s c).
Proof.
  destruct c; cbn; try (by repeat constructor).
  - destruct (by_id s !! id); by repeat constructor.
  - destruct bytes; by repeat constructor.
  - destruct ms; [done|]. by apply Forall_fmap, Forall_true.
  - constructor; [done|]. induction (roster s); cbn; [done|by repeat constructor].
Qed.

Lemma drain_more lag s sec : drain_sec sec -> Forall drain_sec (run_sec lag sec s).2.
Proof.
  assert (Hship : forall l m, Forall drain_sec (ship s l m)).
  { intros l m. unfold ship. destruct (fanned_out s); [by apply Forall_fmap, Forall_true|]. destruct l; by repeat constructor. }
  destruct sec; try done; intros _; step_cbn; try (by repeat constructor).
  - apply Forall_app_2; [done|]. constructor; [done|]. apply Forall_app_2; [|by repeat constructor].
    destruct control; [done|]. by apply Forall_fmap, Forall_true.
  - unfold after_send. destruct m; try done; [destruct (negb _)|]; by repeat constructor.
  - destruct (frontier _); by repeat constructor.
  - destruct (lag =? 0); [done|]. destruct (lagging_cursors _ _); by repeat constructor.
  - destruct (latch_evicting _ _ _). by repeat constructor.
Qed.

Lemma kept_view s s' :
  kept s -> replay s' = replay s -> fanout s' = fanout s -> by_id s' = by_id s -> heap s' = heap s ->
  spoken s' = spoken s -> kept s' /\ forall f, bounded s f -> bounded s' f.
Proof.
  intros K E1 E2 E3 E4 E5. split.
  - apply (kept_same s); rewrite ?E1, ?E2, ?E3, ?E4, ?E5; done.
  - intros f. apply bounded_same; rewrite ?E1, ?E3, ?E4; done.
Qed.

Lemma retained_sec lag s i s' :
  retained s -> caller_ok (AStep i) s -> act lag (AStep i) s = Some s' -> retained s'.
Proof.
  intros [K C D] Hok Ha. cbn in Ha, Hok. destruct (calls s !! i) as [[|sec rest]|] eqn:Hi; try done.
  pose proof (Forall_lookup_1 _ _ _ _ C Hi) as Hfl. inversion_clear Hfl as [|? ? Hsec Hrest].
  destruct (run_keeps lag s sec K ltac:(by destruct sec) Hsec) as (K' & Hb & Hmore).
  destruct (run_sec_frame lag s sec) as [Ed Ec]. destruct (run_sec lag sec s) as [s1 more]. cbn [fst snd] in *.
  injection Ha as <-. destruct (kept_view s1 (with_calls s1 (<[i := more ++ rest]> (calls s1))) K') as [K2 Hb2]; try done.
  split; [exact K2| |cbn; by rewrite Ed]. cbn [calls with_calls]. rewrite Ec. apply Forall_insert.
  - eapply Forall_impl; [exact C|]. intros u. apply floors_mono. intros f Hf. by apply Hb2, Hb.
  - apply Forall_app_2; eapply floors_mono; [|exact Hmore| |exact Hrest]; [exact Hb2|].
    intros f Hf. by apply Hb2, Hb.
Qed.

Lemma retained_drain_step lag s s' : retained s -> act lag ADrainStep s = Some s' -> retained s'.
Proof.
  intros [K C D] Ha. cbn in Ha. destruct (running s); [|done]. destruct (drain s) as [|sec rest] eqn:Ed; [done|].
  inversion_clear D as [|? ? Hsec Hrest].
  destruct (run_keeps lag s sec K ltac:(by destruct sec) ltac:(by destruct sec)) as (K' & Hb & _).
  pose proof (drain_more lag s sec Hsec) as Hmore.
  destruct (run_sec_frame lag s sec) as [_ Ec]. destruct (run_sec lag sec s) as [s1 more]. cbn [fst snd] in *.
  injection Ha as <-. destruct (kept_view s1 (with_drain s1 true (more ++ rest)) K') as [K2 Hb2]; try done.
  split; [exact K2| |by apply Forall_app_2]. cbn [calls with_drain]. rewrite Ec.
  eapply Forall_impl; [exact C|]. intros u. apply floors_mono. intros f Hf. by apply Hb2, Hb.
Qed.

Lemma retained_admit s a x n t :
  retained s -> heap s !! a = None -> s_promised x = highest_seq (replay s) -> n <= highest_seq (replay s) ->
  Forall no_floor t -> retained (with_calls (enroll s a x n) (calls s ++ [t])).
Proof.
  intros [K C D] Hn Hp Hle Ht. destruct (kept_admit s a x n K Hn Hp Hle) as [K' Hb].
  destruct (kept_view _ (with_calls (enroll s a x n) (calls s ++ [t])) K') as [K2 Hb2]; try done.
  split; [exact K2| |exact D]. cbn [calls with_calls]. by apply (calls_snoc s).
Qed.

Lemma highest_nonneg s : kept s -> 0 <= highest_seq (replay s).
Proof. intros [[Hi _] _ _ _ _ _ _]. pose proof (tv_acked _ (proj1 Hi)). lia. Qed.

Lemma retained_act lag s action s' :
  retained s -> caller_ok action s -> act lag action s = Some s' -> retained s'.
Proof.
  intros R Hok Ha. pose proof R as [K C D]. pose proof (highest_nonneg s K) as H0.
  destruct action; try (by eapply retained_sec); try (by eapply retained_drain_step); cbn [act] in Ha.
  - injection Ha as <-. apply (retained_same s _ [program s c]); try done. constructor; [|done]. apply program_no_floor.
  - destruct (running s); [done|]. injection Ha as <-. by apply (retained_same s _ []); rewrite ?app_nil_r.
  - destruct (running s); [|done]. destruct (drain s) eqn:Ed; [|done].
    destruct (take_frame _ _) as [[r o]|]; [|done]. injection Ha as <-.
    destruct (kept_view s (with_drain (with_outbound s o) true (frame_sections r)) K) as [K2 Hb]; try done.
    split; [done| |destruct r; by repeat constructor]. eapply Forall_impl; [exact C|]. intros u. by apply floors_mono.
  - destruct (running s); [|done]. destruct (drain s) eqn:Ed; [|done].
    destruct (closed (outbound s)); [|done]. injection Ha as <-.
    by destruct (kept_view s (with_drain s false []) K) as [K2 Hb].
  - injection Ha as <-. by apply (retained_same s _ []); rewrite ?app_nil_r.
  - destruct Hok as (Hn & _ & _). unfold admit_joiner in Ha. destruct (detached s); [done|].
    destruct (roster s) as [|b l]; [done|]. set (head := highest_seq (replay s)) in *.
    assert (Hs1 : forall id s1, replay s1 = replay s -> same_cursors (fanout s) (fanout s1) -> by_id s1 = by_id s ->
      heap s1 = heap s -> spoken s1 = spoken s -> drain s1 = drain s -> calls s1 = calls s ->
      forall x, s_promised x = head -> s_id x = id ->
      retained (with_calls (enroll (with_fanned s1 true) a x head)
        (calls (enroll (with_fanned s1 true) a x head) ++ [map (fun i => SStartSender i head) (b :: l)]))).
    { intros id s1 E1 E2 E3 E4 E5 E6 E7 x Hx _.
      apply (retained_admit (with_fanned s1 true) a x head); cbn; rewrite ?E1, ?E4; try done.
      - apply (retained_same s _ []); cbn; rewrite ?app_nil_r, ?E4; done.
      - constructor; [done|]. by apply Forall_fmap, Forall_true. }
    destruct reserved as [id|]; cbn in Ha; injection Ha as <-; by eapply Hs1.
  - injection Ha as <-. destruct Hok as (Hn & _). unfold attach, mint, reserve_id.
    apply (retained_admit (with_fanout s _) a _ 0); try done; [|by repeat constructor].
    by apply (retained_same s _ []); rewrite ?app_nil_r.
  - injection Ha as <-. unfold detach. destruct (detached s); [done|].
    apply (retained_same s _ [[SDetachRoster]]); try done. by repeat constructor.
  - destruct (detached s); [|done]. injection Ha as <-. destruct Hok as (Hn & _). unfold rebind.
    apply (retained_admit (with_fanned (with_detached s false) false)); try done; [|by repeat constructor].
    by apply (retained_same s _ []); rewrite ?app_nil_r.
  - destruct (heap s !! a) as [x|] eqn:Hx; [|done]. cbn in Ha. unfold transfer_step in Ha.
    destruct (s_transfer x) as [[[|m rest] head]|]; try done; injection Ha as <-.
    + apply (retained_same s _ [[SStartSender a head; SOnline]]); try done; [|by repeat constructor].
      by apply (same_promises_insert _ a x).
    + apply (retained_same s _ []); rewrite ?app_nil_r; try done. apply (same_promises_insert _ a x); [done|..];
        unfold send_data; by destruct (s_finished x).
  - destruct (heap s !! a) as [x|] eqn:Hx; [|done]. cbn in Ha. unfold sender_take in Ha.
    destruct (s_running x), (s_batch x), (pending (s_data_lane x)); try done.
    + destruct (lane_closed _); [|done]. injection Ha as <-.
      apply (retained_same s _ [[SClearSender (s_id x)]]); try done; [|by repeat constructor].
      by apply (same_promises_insert _ a x).
    + injection Ha as <-. apply (retained_same s _ []); rewrite ?app_nil_r; try done.
      by apply (same_promises_insert _ a x).
  - destruct (heap s !! a) as [x|] eqn:Hx; [|done]. cbn in Ha. unfold sender_send in Ha.
    destruct (s_batch x) as [|m rest]; [done|]. injection Ha as <-.
    apply (retained_same s _ [after_send (s_id x) (negb (s_finished x)) m]); try done.
    + apply (same_promises_insert _ a x); [done|..]; unfold send_data; by destruct (s_finished x).
    + constructor; [|done]. unfold after_send. destruct m; try done; [destruct (negb _)|]; by repeat constructor.
  - destruct (heap s !! a) as [x|] eqn:Hx; [|done]. injection Ha as <-.
    apply (retained_same s _ []); rewrite ?app_nil_r; try done. by apply (same_promises_insert _ a x).
Qed.

Lemma retained_new m o r capacity : 0 <= r -> retained (session_new (with_caps m o r) capacity).
Proof.
  intros Hr. split; [|by constructor..]. constructor; cbn; try done.
  - split; [by apply replay_inv_new|]. by split_and!.
  - by intros i [? ?].
Qed.

Lemma reachable_retained lag s : reachable lag caller_ok s -> retained s.
Proof.
  induction 1 as [m o r c Hr|s action s' _ IH Hok Ha]; [by apply retained_new|]. by apply (retained_act lag s action).
Qed.

(** What the ring answers for a position no member is behind. *)
Lemma kept_messages s last :
  kept s -> acked_seq (replay s) <= last ->
  messages (replay s) last = number last (drop (Z.to_nat last) (frames (spoken s))).
Proof. intros [[Hi Hr] _ _ _ _ _ _] Hle. exact (represents_messages _ (log_of s) last Hi Hr Hle). Qed.

(** The frames after [last], as they were spoken. *)
Lemma frames_after s last :
  kept s -> 0 <= last ->
  filter (fun p => last < p.1) (outputs (spoken s)) = number last (drop (Z.to_nat last) (frames (spoken s))).
Proof.
  intros [_ -> _ _ _ _ _] H0. rewrite filter_number, Z.sub_0_r, Z.max_r by lia.
  done.
Qed.

(** ** The properties *)

(** C8: in any interleaving of the acknowledgements, departures, joins, sends and folds of the retention
    floor, overlapping joins included, the ring still answers every member of the roster: from any
    position the member has confirmed, or was given when it was admitted, onwards, the ring's messages
    are exactly the frames spoken after that position, in order and with the numbers they were sent
    under.  No floor computed from a member that has since left, or before one joined, releases a frame
    somebody present may still ask for. *)
Theorem retention_waits_for_every_member lag s i a x last :
  reachable lag caller_ok s -> by_id s !! i = Some a -> heap s !! a = Some x -> s_promised x <= last ->
  messages (replay s) last = filter (fun p => last < p.1) (outputs (spoken s)).
Proof.
  intros Hr Hi Hx Hle. pose proof (rt_kept s (reachable_retained lag s Hr)) as K.
  pose proof (proj2 (kp_acked s K) i a x Hi Hx). destruct (kp_replay s K) as [[Ht _] _].
  pose proof (tv_acked _ Ht). rewrite frames_after by (done || lia). apply kept_messages; [done|lia].
Qed.

(** One client confirms the first of three frames, a second joins at the third, and the first leaves
    after its confirmation has been folded into a floor and before the floor is applied. *)
Definition stale_floor : list Action :=
  [AAttach 0; AStart] ++ ingest 1 65 ++ repeat ADrainStep 6 ++ ingest 2 66 ++ repeat ADrainStep 6 ++
  ingest 3 67 ++ repeat ADrainStep 6 ++
  [ACall (CallAck 1 1); AStep 4; AJoin 1 None 3 []; ACall (CallInputEnds 0); AStep 6; AStep 6; AStep 6; AStep 4].

Lemma retention_waits_for_every_member_witness :
  exists s, run 0 caller_ok stale_floor pane0 = Some s /\ by_id s !! 2 = Some 1%nat /\
    acked_seq (replay s) = 1 /\ messages (replay s) 3 = filter (fun p => 3 < p.1) (outputs (spoken s)).
Proof.
  destruct (run 0 caller_ok stale_floor pane0) as [s|] eqn:E; [|vm_compute in E; congruence].
  assert (Hr : reachable 0 caller_ok s).
  { apply (run_reachable 0 caller_ok stale_floor pane0); [apply reach_new; lia|exact E]. }
  exists s. split; [reflexivity|]. split; [vm_compute in E; injection E as <-; reflexivity|].
  split; [vm_compute in E; injection E as <-; reflexivity|].
  destruct (heap s !! 1%nat) as [x|] eqn:Hx; [|vm_compute in E; injection E as <-; vm_compute in Hx; congruence].
  apply (retention_waits_for_every_member 0 s 2 1%nat x); [exact Hr| |exact Hx|];
    vm_compute in E; injection E as <-; vm_compute in Hx; injection Hx as <-; vm_compute; congruence.
Defined.

(** a join under the sequencing lock leaves no gap and no overlap between the screen it was given and
    the stream it will hear: when the ring still has everything after the position the screen was
    composed at, the new member's state transfer is the screen followed by exactly the frames spoken
    since, and its share of the stream starts at the next thing spoken; and nobody else's position, and
    nothing that was spoken, is changed. *)
Theorem join_is_seamless lag s a reserved composed_through rendered s' :
  reachable lag caller_ok s -> caller_ok (AJoin a reserved composed_through rendered) s ->
  act lag (AJoin a reserved composed_through rendered) s = Some s' -> acked_seq (replay s) <= composed_through ->
  exists x, heap s' !! a = Some x /\ by_id s' !! s_id x = Some a /\
    s_prefix x = rendered ++ map Replay.output (filter (fun p => composed_through < p.1) (outputs (spoken s))) /\
    drop (s_from x) (spoken s) = [] /\ spoken s' = spoken s /\ heap s' = <[a := x]> (heap s).
Proof.
  intros Hr (Hn & Hc & _) Ha Hle. pose proof (rt_kept s (reachable_retained lag s Hr)) as K.
  rewrite frames_after by (done || lia). rewrite <- kept_messages by done.
  cbn [act] in Ha. unfold admit_joiner in Ha. destruct (detached s); [done|].
  destruct (roster s) as [|b l]; [done|].
  destruct reserved as [id|]; cbn in Ha; injection Ha as <-; eexists;
    (split; [apply lookup_insert_eq|]); cbn; rewrite drop_all; split_and!; try done; apply lookup_insert_eq.
Qed.

Definition one_client : list Action :=
  [AAttach 0; AStart] ++ ingest 1 65 ++ repeat ADrainStep 6 ++ ingest 2 66 ++ repeat ADrainStep 6.

Lemma join_is_seamless_witness :
  exists s s' x, run 0 caller_ok one_client pane0 = Some s /\
    act 0 (AJoin 1 None 1 [Output 1 (letter 88)]) s = Some s' /\ heap s' !! 1%nat = Some x /\
    s_prefix x = [Output 1 (letter 88); Output 2 (letter 66)].
Proof.
  destruct (run 0 caller_ok one_client pane0) as [s|] eqn:E; [|vm_compute in E; congruence].
  assert (Hr : reachable 0 caller_ok s).
  { apply (run_reachable 0 caller_ok one_client pane0); [apply reach_new; lia|exact E]. }
  destruct (act 0 (AJoin 1 None 1 [Output 1 (letter 88)]) s) as [s'|] eqn:Ea;
    [|vm_compute in E; injection E as <-; vm_compute in Ea; congruence].
  destruct (join_is_seamless 0 s 1 None 1 [Output 1 (letter 88)] s') as (x & Hx & _ & Hp & _);
    [exact Hr| |exact Ea| |].
  - assert (Hb : bool_decide (caller_ok (AJoin 1 None 1 [Output 1 (letter 88)]) s) = true)
      by (vm_compute in E; injection E as <-; vm_compute; reflexivity).
    exact (bool_decide_eq_true_1 _ Hb).
  - vm_compute in E. injection E as <-. vm_compute. congruence.
  - exists s, s', x. split; [reflexivity|]. split; [exact Ea|]. split; [exact Hx|]. rewrite Hp.
    vm_compute in E. injection E as <-. reflexivity.
Defined.

(** Strictly behind the member furthest ahead. *)
Definition behind_the_furthest (f : Fanout) (m : Member) : Prop :=
  exists i n, members f !! i = Some n /\ acked m < acked n /\
    forall j k, members f !! j = Some k -> acked k <= acked n.

(** an eviction pass dooms exactly the laggards.  Whatever happens between its three sections, an id
    is handed to the eviction seam if and only if its member was strictly behind the member furthest
    ahead when the cursors were read, the ring held more than the threshold above its confirmation when
    it was priced, and it is still a member, not doomed before, when the latch is set; each is handed
    over once, and the latch changes nothing else. *)
Theorem eviction_dooms_exactly_the_laggards lag s0 s1 s2 behind priced doomed :
  (run_sec lag SEvict s0).2 = [SPrice behind] -> (run_sec lag (SPrice behind) s1).2 = [SLatch priced] ->
  (run_sec lag (SLatch priced) s2).2 = [SFire doomed] ->
  NoDup doomed /\
  (forall id, id ∈ doomed <->
     exists m, members (fanout s0) !! id = Some m /\ behind_the_furthest (fanout s0) m /\
       lag < retained_bytes_above (replay s1) (acked m) /\
       exists n, members (fanout s2) !! id = Some n /\ evicting n = false) /\
  forall id, members (fanout (run_sec lag (SLatch priced) s2).1) !! id
    = (if bool_decide (id ∈ doomed) then set_evicting else fun m => m) <$> members (fanout s2) !! id.
Proof.
  step_cbn. intros H0 [= <-] H2. destruct (Z.eqb_spec lag 0) as [|Hlag]; [done|].
  assert (Hb : behind = lagging_cursors (fanout s0) lag) by (destruct (lagging_cursors _ _); congruence).
  pose proof (latch_spec (fanout s2)
    (map (fun c => mkPriced (c_id c) (retained_bytes_above (replay s1) (c_acked c))) behind) lag) as H.
  destruct (latch_evicting _ _ _) as [ids f']. cbn in H2. injection H2 as ->.
  destruct H as (Hnd & _ & Hin & Hf). split_and!; [done| |done]. intros id. rewrite Hin. split.
  - intros (_ & n & bytes & Hn & He & Hp & Hlt). apply list_elem_of_fmap in Hp as ([i c] & [= -> ->] & Hc).
    rewrite Hb in Hc. apply lagging_spec in Hc as (_ & m & Hm & <- & Hmax). eauto 10.
  - intros (m & Hm & Hmax & Hlt & n & Hn & He). split; [done|].
    exists n, (retained_bytes_above (replay s1) (acked m)). split_and!; try done.
    apply list_elem_of_fmap. exists (mkCursor id (acked m)). split; [done|].
    rewrite Hb. apply lagging_spec. eauto 10.
Qed.

(** Two members, one of which confirmed nothing of the three bytes the ring holds for it. *)
Definition lagging_pair : list Action :=
  [AAttach 0; AStart] ++ ingest 1 65 ++ repeat ADrainStep 6 ++ ingest 2 66 ++ repeat ADrainStep 6 ++
  [AJoin 1 None 2 []] ++ ingest 4 67 ++ repeat ADrainStep 4.

Lemma eviction_dooms_exactly_the_laggards_witness :
  exists s behind priced, run 2 caller_ok lagging_pair pane0 = Some s /\
    (run_sec 2 SEvict s).2 = [SPrice behind] /\ (run_sec 2 (SPrice behind) s).2 = [SLatch priced] /\
    (run_sec 2 (SLatch priced) s).2 = [SFire [1]] /\ NoDup [1].
Proof.
  destruct (run 2 caller_ok lagging_pair pane0) as [s|] eqn:E; [|vm_compute in E; congruence].
  exists s, [mkCursor 1 0], [mkPriced 1 3].
  assert (H0 : (run_sec 2 SEvict s).2 = [SPrice [mkCursor 1 0]])
    by (vm_compute in E; injection E as <-; vm_compute; reflexivity).
  assert (H1 : (run_sec 2 (SPrice [mkCursor 1 0]) s).2 = [SLatch [mkPriced 1 3]])
    by (vm_compute in E; injection E as <-; vm_compute; reflexivity).
  assert (H2 : (run_sec 2 (SLatch [mkPriced 1 3]) s).2 = [SFire [1]])
    by (vm_compute in E; injection E as <-; vm_compute; reflexivity).
  split; [reflexivity|]. split; [exact H0|]. split; [exact H1|]. split; [exact H2|].
  apply (eviction_dooms_exactly_the_laggards 2 s s s _ _ _ H0 H1 H2).
Defined.
