(* ===== verification/ResizeFold.v ===== *)
(** * ResizeFold: the size of a pane that several clients hold

    Models [slopdesk-muxsession/src/resize_fold.rs]: every client makes a standing offer, the pane runs
    at the smallest one among those that vote, and a generation decides whether a delayed apply still
    speaks for the newest state.  The timers and the terminal are in [Resize]. *)

From stdpp Require Import gmap sorting.
From S2P Require Import Prelude BTree.

Record Grid : Type := mkGrid { cols : Z; rows : Z; px : Z; py : Z }.
#[export] Instance Grid_eq_dec : EqDecision Grid.
Proof. solve_decision. Defined.

Record Contribution : Type := mkContribution { size_passive : bool; offer : option Grid }.

Record Attachment : Type := mkAttachment {
  subscriber : Z;
  contributes : bool;
  a_cols : Z;
  a_rows : Z;
}.

Record ArmDecision : Type := mkArm { arm_settle : bool; arm_generation : Z }.
Record OfferDecision : Type := mkOffer { arm_debounce : bool; offer_generation : Z }.

Record ResizeFold : Type := mkFold {
  contributions : gmap Z Contribution;
  opened_size_passive : bool;
  ctl_override : option Grid;
  resolved : option Grid;
  generation : Z;
  settle_pending : bool;
}.

Definition fold_new (opened_size_passive : bool) : ResizeFold :=
  mkFold ∅ opened_size_passive None None 0 false.

Definition with_contributions (f : ResizeFold) m := mkFold m (opened_size_passive f) (ctl_override f)
  (resolved f) (generation f) (settle_pending f).
Definition with_override (f : ResizeFold) o := mkFold (contributions f) (opened_size_passive f) o
  (resolved f) (generation f) (settle_pending f).
Definition with_resolved (f : ResizeFold) g := mkFold (contributions f) (opened_size_passive f)
  (ctl_override f) g (generation f) (settle_pending f).
Definition with_settle (f : ResizeFold) b := mkFold (contributions f) (opened_size_passive f)
  (ctl_override f) (resolved f) (generation f) b.
Definition bump (f : ResizeFold) := mkFold (contributions f) (opened_size_passive f) (ctl_override f)
  (resolved f) (wrap64 (generation f + 1)) (settle_pending f).

Definition voting_count (f : ResizeFold) : nat :=
  length (filter (fun c => size_passive c = false) (values_by Z.le (contributions f))).
Definition member_count (f : ResizeFold) : nat := size (contributions f).

Definition credits_offer (c : Contribution) (passive_decides : bool) : bool :=
  negb (size_passive c) || passive_decides.

Definition smaller (folded o : Grid) : Grid :=
  mkGrid (Z.min (cols folded) (cols o)) (Z.min (rows folded) (rows o)) (px folded) (py folded).

(** [Iterator::reduce]. *)
Definition reduce {A} (f : A -> A -> A) (l : list A) : option A :=
  match l with [] => None | x :: l => Some (foldl f x l) end.

Definition fold (f : ResizeFold) : option Grid :=
  let voters := voting_count f in
  reduce smaller
    (omap offer (filter (fun c => (voters = 0%nat \/ size_passive c = false))
                        (values_by Z.le (contributions f)))).

Definition arm_settle_if_set_changed (f : ResizeFold) (before : nat) : ArmDecision * ResizeFold :=
  let after := voting_count f in
  if bool_decide (before = after \/ before = 0%nat \/ after = 0%nat) then (mkArm false (generation f), f)
  else let f := with_settle (bump f) true in (mkArm true (generation f), f).

Definition add_contributor (f : ResizeFold) (id : Z) (passive : bool) : ArmDecision * ResizeFold :=
  let before := voting_count f in
  let c := match contributions f !! id with
           | Some existing => mkContribution passive (offer existing)
           | None => mkContribution passive None
           end in
  arm_settle_if_set_changed (with_contributions f (<[id := c]> (contributions f))) before.

Definition remove_contributor (f : ResizeFold) (id : Z) : ArmDecision * ResizeFold :=
  let before := voting_count f in
  match contributions f !! id with
  | None => (mkArm false (generation f), f)
  | Some _ => arm_settle_if_set_changed (with_contributions f (delete id (contributions f))) before
  end.

Definition note_offer (f : ResizeFold) (id : Z) (o : Grid) : OfferDecision * ResizeFold :=
  let passive := from_option size_passive (opened_size_passive f) (contributions f !! id) in
  let stored := mkContribution passive (Some o) in
  let f := with_contributions f (<[id := stored]> (contributions f)) in
  let f := if credits_offer stored (voting_count f =? 0)%nat then with_override f None else f in
  if settle_pending f then (mkOffer false (generation f), f)
  else let f := bump f in (mkOffer true (generation f), f).

Definition set_ctl_override (f : ResizeFold) (g : Grid) : Z * ResizeFold :=
  let f := bump (with_override f (Some g)) in (generation f, f).

(** What a resolution would answer now. *)
Definition target (f : ResizeFold) : option Grid :=
  match ctl_override f with Some g => Some g | None => fold f end.

Definition resolve (f : ResizeFold) (if_generation : option Z) : option Grid * ResizeFold :=
  if match if_generation with Some g => negb (generation f =? g) | None => false end then (None, f)
  else
    match target f with
    | Some g => (Some g, with_resolved f (Some g))
    | None => (None, f)
    end.

Definition clear_members (f : ResizeFold) : ResizeFold :=
  mkFold ∅ (opened_size_passive f) None (resolved f) (generation f) false.

Definition clear_settle (f : ResizeFold) (if_generation : Z) : ResizeFold :=
  if generation f =? if_generation then with_settle f false else f.

Definition attachments (f : ResizeFold) : list Attachment :=
  let passive_decides := (voting_count f =? 0)%nat in
  map (fun '(id, c) =>
         mkAttachment id (credits_offer c passive_decides)
           (from_option cols 0 (offer c)) (from_option rows 0 (offer c)))
      (btree_iter (contributions f)).

(** ** The fold as a statement about members *)

(** [c] sizes the pane: it votes, or nobody does. *)
Definition credited (f : ResizeFold) (c : Contribution) : Prop :=
  size_passive c = false \/ forall id d, contributions f !! id = Some d -> size_passive d = true.

Lemma no_voters f :
  voting_count f = 0%nat <-> forall id d, contributions f !! id = Some d -> size_passive d = true.
Proof.
  unfold voting_count. rewrite length_zero_iff_nil. split.
  - intros E id d Hd. apply not_false_iff_true. intros Hp.
    assert (Hin : d ∈ filter (fun c => size_passive c = false) (values_by Z.le (contributions f)))
      by (apply list_elem_of_filter; split; [done|]; apply elem_of_values_by; eauto).
    rewrite E in Hin. by apply elem_of_nil in Hin.
  - intros Hall. apply elem_of_nil_inv. intros d [Hp Hd]%list_elem_of_filter.
    apply elem_of_values_by in Hd as [id Hid]. by rewrite (Hall id d Hid) in Hp.
Qed.

Lemma credits_offer_spec f c :
  credits_offer c (voting_count f =? 0)%nat = true <-> credited f c.
Proof.
  unfold credits_offer, credited. rewrite orb_true_iff, negb_true_iff, Nat.eqb_eq, no_voters. done.
Qed.

Lemma elem_of_offers f g :
  g ∈ omap offer (filter (fun c => (voting_count f = 0%nat \/ size_passive c = false))
                         (values_by Z.le (contributions f)))
  <-> exists id c, contributions f !! id = Some c /\ credited f c /\ offer c = Some g.
Proof.
  rewrite list_elem_of_omap. unfold credited. setoid_rewrite <- no_voters. split.
  - intros (c & [Hv Hc]%list_elem_of_filter & Ho). apply elem_of_values_by in Hc as [id Hid].
    exists id, c. intuition.
  - intros (id & c & Hid & Hv & Ho). exists c. split; [|done]. apply list_elem_of_filter.
    split; [intuition|]. apply elem_of_values_by. eauto.
Qed.

Lemma smaller_fold l : forall g,
  cols (foldl smaller g l) = foldl Z.min (cols g) (map cols l) /\
  rows (foldl smaller g l) = foldl Z.min (rows g) (map rows l) /\
  px (foldl smaller g l) = px g /\ py (foldl smaller g l) = py g.
Proof. induction l as [|o l IH]; intros g; [done|]. cbn [foldl map]. by destruct (IH (smaller g o)) as (-> & -> & -> & ->). Qed.

Lemma smallest (proj : Grid -> Z) (l : list Grid) g :
  foldl Z.min (proj g) (map proj l) ∈ map proj (g :: l) /\
  forall o, o ∈ g :: l -> foldl Z.min (proj g) (map proj l) <= proj o.
Proof.
  destruct (foldl_min_spec (map proj l) (proj g)) as (Hin & Hle & Hall). split.
  - cbn [map]. destruct Hin as [->|]; [left|by right].
  - intros o [->|Ho]%elem_of_cons; [done|]. apply Hall, list_elem_of_fmap. eauto.
Qed.

Lemma first_offer (P : Contribution -> Prop) `{!forall c, Decision (P c)} (l : list (Z * Contribution)) g gs :
  StronglySorted (key_le Z.le) l -> omap offer (filter P l.*2) = g :: gs ->
  exists id c, (id, c) ∈ l /\ P c /\ offer c = Some g /\
    forall id' c', (id', c') ∈ l -> P c' -> offer c' <> None -> id <= id'.
Proof.
  induction l as [|[id c] l IH]; intros Hs E; [done|]. apply StronglySorted_inv in Hs as [Hs Hhd].
  cbn [fmap list_fmap snd] in E. rewrite filter_cons in E.
  assert (Hrest : (P c -> offer c = None) -> omap offer (filter P l.*2) = g :: gs ->
    exists id0 c0, (id0, c0) ∈ (id, c) :: l /\ P c0 /\ offer c0 = Some g /\
      forall id' c', (id', c') ∈ (id, c) :: l -> P c' -> offer c' <> None -> id0 <= id').
  { intros Hno E'. destruct (IH Hs E') as (i & d & Hin & Hp & Ho & Hall). exists i, d.
    split_and!; [by right|done|done|]. intros i' c' [[= -> ->]|Hin']%elem_of_cons Hp' Ho'; [|eauto].
    by destruct (Ho' (Hno Hp')). }
  case_decide as Hp; [|by apply Hrest].
  cbn [omap list_omap] in E. destruct (offer c) as [o|] eqn:Ho; [|by apply Hrest].
  injection E as -> _. exists id, c. split_and!; [left|done|done|].
  intros i' c' [[= -> ->]|Hin]%elem_of_cons _ _; [done|].
  rewrite Forall_forall in Hhd. exact (Hhd _ Hin).
Qed.

Lemma iter_strongly_sorted {A} (m : gmap Z A) : StronglySorted (key_le Z.le) (btree_iter m).
Proof.
  apply Sorted_StronglySorted; [|apply btree_by_sorted; intros a b; lia].
  intros a b c. unfold key_le. lia.
Qed.

(** ** The property *)

(** the grid is the smallest offer of the members that count, in each axis by itself.  It is absent
    exactly when none of them has offered; otherwise no credited offer is smaller in either axis, each
    axis is some credited member's own, the pixel sizes are those of the credited member with the least
    id among those that offered, and the roster the clients are shown marks exactly the credited. *)
Theorem fold_is_the_smallest_credited_offer f :
  let offers g := exists id c, contributions f !! id = Some c /\ credited f c /\ offer c = Some g in
  match fold f with
  | None => forall g, ~ offers g
  | Some g =>
    (forall o, offers o -> cols g <= cols o /\ rows g <= rows o) /\
    (exists o, offers o /\ cols o = cols g) /\ (exists o, offers o /\ rows o = rows g) /\
    exists id c o, contributions f !! id = Some c /\ credited f c /\ offer c = Some o /\
      px g = px o /\ py g = py o /\
      forall id' c', contributions f !! id' = Some c' -> credited f c' -> offer c' <> None -> id <= id'
  end /\
  forall id, (exists a, a ∈ attachments f /\ subscriber a = id /\ contributes a = true) <->
    exists c, contributions f !! id = Some c /\ credited f c.
Proof.
  intros offers. split.
  - pose proof (elem_of_offers f) as Hel. unfold fold in *.
    destruct (omap offer _) as [|g l] eqn:E; cbn [reduce].
    { intros g Hg. apply Hel in Hg. by apply elem_of_nil in Hg. }
    destruct (smaller_fold l g) as (Ec & Er & -> & ->). rewrite Ec, Er.
    destruct (smallest cols l g) as [Hc Hcl], (smallest rows l g) as [Hr Hrl].
    apply list_elem_of_fmap in Hc as (oc & Eoc & Hoc), Hr as (o_r & Eor & Hor). split_and!.
    + intros o Ho%Hel. auto.
    + exists oc. split; [by apply Hel|done].
    + exists o_r. split; [by apply Hel|done].
    + destruct (first_offer _ _ _ _ (iter_strongly_sorted (contributions f)) E) as (id & c & Hin & Hp & Ho & Hall).
      assert (Hcred : forall c, (voting_count f = 0%nat \/ size_passive c = false) <-> credited f c)
        by (intros c0; unfold credited; rewrite <- no_voters; tauto).
      exists id, c, g. apply elem_of_btree_by in Hin. split_and!; [done|by apply Hcred|done..|].
      intros id' c' Hid' Hc'%Hcred. apply Hall; [by apply elem_of_btree_by|done].
  - intros id. unfold attachments. split.
    + intros (a & Ha & <- & Hc). apply list_elem_of_fmap in Ha as ([i c] & -> & Hin).
      apply elem_of_btree_by in Hin. exists c. split; [done|]. by apply credits_offer_spec.
    + intros (c & Hc & Hcr). exists (mkAttachment id (credits_offer c (voting_count f =? 0)%nat)
        (from_option cols 0 (offer c)) (from_option rows 0 (offer c))).
      split; [|split; [done|by apply credits_offer_spec]]. apply list_elem_of_fmap. exists (id, c). split; [reflexivity|]. by apply elem_of_btree_by.
Qed.
