(* ===== verification/Resize.v ===== *)
(** * Resize: the timers and the terminal around the size fold

    Models [slopdesk-hostsession/src/resize.rs] and [timer.rs], the redraw jiggle of
    [slopdesk-hostpane/src/pane.rs], and their calls.  A [Sec] is what a thread does under one lock; the
    write lock of [apply] is held from the resolution to the ioctl, which are separate sections, so the
    fold may change between them.  Time is left out: an armed timer may come due at any moment. *)

From stdpp Require Import gmap sorting.
From S2P Require Import Prelude BTree ResizeFold.

(** ** The state *)

Inductive Timer : Type := TResize | TSettle | TNudge.
#[export] Instance Timer_eq_dec : EqDecision Timer.
Proof. solve_decision. Defined.

Record RedrawJiggle : Type := mkJiggle { original : Grid; jiggled : Grid }.

Inductive Sec : Type :=
| FAdd (id : Z) (passive : bool)
| FRemove (id : Z)
| FOffer (id : Z) (g : Grid)
| FOverride (g : Grid)
| FArm (t : Timer) (gen : Z)
| FApply (if_generation : option Z)
| FCompare (g : Grid)
| FWrite (g : Grid)
| FDirty
| FClearSettle (gen : Z)
| FNudge
| FClearMembers
| FStop
| FJiggleBegin
| FJiggleEnd (j : RedrawJiggle).
#[export] Instance Sec_eq_dec : EqDecision Sec.
Proof. assert (EqDecision RedrawJiggle) by solve_decision. solve_decision. Defined.

(** The table of [timer.rs]: what each armed slot quotes, and the arms of the nudge. *)
Record Table : Type := mkTable {
  resize_slot : option Z;
  settle_slot : option Z;
  nudge_slot : bool;
  nudge_armings : nat;
  stopped : bool;
}.

Record Resize : Type := mkResize {
  fold_state : ResizeFold;
  writing : bool;                   (* the write lock is held *)
  table : Table;
  pty : option Grid;                (* the live size, none on a closed master *)
  dirty : bool;                     (* the screen model was invalidated *)
  body : list Sec;                  (* what the timer thread has taken and not yet run *)
  calls : list (list Sec);          (* every other thread *)
}.

Definition resize_new (opened_size_passive : bool) (live : option Grid) : Resize :=
  mkResize (fold_new opened_size_passive) false (mkTable None None false 0 false) live false [] [].

Definition with_fold (r : Resize) f := mkResize f (writing r) (table r) (pty r) (dirty r) (body r) (calls r).
Definition with_writing (r : Resize) w := mkResize (fold_state r) w (table r) (pty r) (dirty r) (body r) (calls r).
Definition with_table (r : Resize) t := mkResize (fold_state r) (writing r) t (pty r) (dirty r) (body r) (calls r).
Definition with_pty (r : Resize) p := mkResize (fold_state r) (writing r) (table r) p (dirty r) (body r) (calls r).
Definition with_dirty (r : Resize) := mkResize (fold_state r) (writing r) (table r) (pty r) true (body r) (calls r).
Definition with_body (r : Resize) b := mkResize (fold_state r) (writing r) (table r) (pty r) (dirty r) b (calls r).
Definition with_calls (r : Resize) c := mkResize (fold_state r) (writing r) (table r) (pty r) (dirty r) (body r) c.

(** ** The sections *)

(** [Timers::arm]: the slot is overwritten, and a stopped table takes nothing. *)
Definition arm (t : Timer) (gen : Z) (tb : Table) : Table :=
  if stopped tb then tb
  else
    match t with
    | TResize => mkTable (Some gen) (settle_slot tb) (nudge_slot tb) (nudge_armings tb) false
    | TSettle => mkTable (resize_slot tb) (Some gen) (nudge_slot tb) (nudge_armings tb) false
    | TNudge => mkTable (resize_slot tb) (settle_slot tb) true (S (nudge_armings tb)) false
    end.

Definition stop (tb : Table) : Table := mkTable None None false (nudge_armings tb) true.

Definition arm_settle_of (d : ArmDecision) : list Sec :=
  if arm_settle d then [FArm TSettle (arm_generation d)] else [].

Definition sec_add (id : Z) (passive : bool) (r : Resize) : Resize * list Sec :=
  let '(d, f) := add_contributor (fold_state r) id passive in (with_fold r f, arm_settle_of d).

Definition sec_remove (id : Z) (r : Resize) : Resize * list Sec :=
  let '(d, f) := remove_contributor (fold_state r) id in (with_fold r f, arm_settle_of d).

Definition sec_offer (id : Z) (g : Grid) (r : Resize) : Resize * list Sec :=
  let '(d, f) := note_offer (fold_state r) id g in
  (with_fold r f, if arm_debounce d then [FArm TResize (offer_generation d)] else []).

Definition sec_override (g : Grid) (r : Resize) : Resize * list Sec :=
  (with_fold r (set_ctl_override (fold_state r) g).2, [FApply None]).

(** [apply] up to the resolution; [None] while another thread holds the write lock. *)
Definition sec_apply (if_generation : option Z) (r : Resize) : option (Resize * list Sec) :=
  if writing r then None
  else
    let '(grid, f) := resolve (fold_state r) if_generation in
    match grid with
    | None => Some (with_fold r f, [])
    | Some g => Some (with_writing (with_fold r f) true, [FCompare g])
    end.

Definition sec_compare (g : Grid) (r : Resize) : Resize * list Sec :=
  if bool_decide (pty r = Some g) then (with_writing r false, []) else (r, [FWrite g]).

Definition sec_write (g : Grid) (r : Resize) : Resize * list Sec :=
  (with_writing (with_pty r (match pty r with Some _ => Some g | None => None end)) false, [FDirty; FArm TNudge 0]).

Definition begin_redraw_jiggle (live : option Grid) : option RedrawJiggle :=
  match live with
  | None => None
  | Some g =>
    if 1 <? rows g then Some (mkJiggle g (mkGrid (cols g) (rows g - 1) (px g) (py g)))
    else if 1 <? cols g then Some (mkJiggle g (mkGrid (cols g - 1) (rows g) (px g) (py g)))
    else None
  end.

(** [PaneSession::redraw] with a jiggle, up to the hold. *)
Definition sec_jiggle (r : Resize) : Resize * list Sec :=
  match begin_redraw_jiggle (pty r) with
  | Some j => (with_pty r (Some (jiggled j)), [FJiggleEnd j])
  | None => (r, [FNudge])
  end.

Definition end_redraw_jiggle (j : RedrawJiggle) (live : option Grid) : option Grid :=
  match live with
  | None => None
  | Some g => if bool_decide (g = jiggled j) then Some (original j) else Some g
  end.

Definition run_sec (sec : Sec) (r : Resize) : option (Resize * list Sec) :=
  match sec with
  | FAdd id passive => Some (sec_add id passive r)
  | FRemove id => Some (sec_remove id r)
  | FOffer id g => Some (sec_offer id g r)
  | FOverride g => Some (sec_override g r)
  | FArm t gen => Some (with_table r (arm t gen (table r)), [])
  | FApply if_generation => sec_apply if_generation r
  | FCompare g => Some (sec_compare g r)
  | FWrite g => Some (sec_write g r)
  | FDirty => Some (with_dirty r, [])
  | FClearSettle gen => Some (with_fold r (clear_settle (fold_state r) gen), [])
  | FNudge => Some (r, [])
  | FClearMembers => Some (with_fold r (clear_members (fold_state r)), [])
  | FStop => Some (with_table r (stop (table r)), [])
  | FJiggleBegin => Some (sec_jiggle r)
  | FJiggleEnd j => Some (with_pty r (end_redraw_jiggle j (pty r)), [])
  end.

(** ** Steps *)

Inductive Call : Type :=
| CallAdd (id : Z) (passive : bool)
| CallRemove (id : Z)
| CallOffer (id : Z) (g : Grid)
| CallOverride (g : Grid)
| CallFlush
| CallRedraw (jiggle : bool)
| CallTeardown.

Definition program (c : Call) : list Sec :=
  match c with
  | CallAdd id passive => [FAdd id passive]
  | CallRemove id => [FRemove id]
  | CallOffer id g => [FOffer id g]
  | CallOverride g => [FOverride g]
  | CallFlush => [FApply None]
  | CallRedraw jiggle => if jiggle then [FJiggleBegin] else [FNudge]
  | CallTeardown => [FClearMembers; FStop]
  end.

Inductive Action : Type :=
| ACall (c : Call)
| AStep (i : nat)
| AFire (resize settle nudge : bool)
| ABody.

(** The body a due slot runs. *)
Definition resize_body (slot : option Z) : list Sec :=
  match slot with Some gen => [FApply (Some gen)] | None => [] end.
Definition settle_body (slot : option Z) : list Sec :=
  match slot with Some gen => [FClearSettle gen; FApply (Some gen)] | None => [] end.
Definition nudge_body (armed : bool) : list Sec := if armed then [FNudge] else [].

(** The timer thread takes every slot that is due, in the order of the table. *)
Definition fire (resize settle nudge : bool) (tb : Table) : list Sec * Table :=
  (resize_body (if resize then resize_slot tb else None) ++
   settle_body (if settle then settle_slot tb else None) ++ nudge_body (nudge && nudge_slot tb),
   mkTable (if resize then None else resize_slot tb) (if settle then None else settle_slot tb)
     (if nudge then false else nudge_slot tb) (nudge_armings tb) (stopped tb)).

Definition act (a : Action) (r : Resize) : option Resize :=
  match a with
  | ACall c => Some (with_calls r (calls r ++ [program c]))
  | AStep i =>
    match calls r !! i with
    | Some (sec :: rest) =>
      '(r', more) ← run_sec sec r; Some (with_calls r' (<[i := more ++ rest]> (calls r')))
    | _ => None
    end
  | AFire resize settle nudge =>
    match body r, fire resize settle nudge (table r) with
    | [], ((_ :: _) as due, tb) => if stopped (table r) then None else Some (with_body (with_table r tb) due)
    | _, _ => None
    end
  | ABody =>
    match body r with
    | sec :: rest => '(r', more) ← run_sec sec r; Some (with_body r' (more ++ rest))
    | [] => None
    end
  end.

Fixpoint exec (actions : list Action) (r : Resize) : option Resize :=
  match actions with [] => Some r | a :: actions => act a r ≫= exec actions end.

Definition internal (a : Action) : Prop := match a with ACall _ => False | _ => True end.

Definition pending (r : Resize) : list Sec := body r ++ concat (calls r).

(** An arm of the debounce or of the settle that a thread has decided on and not yet made. *)
Definition arming (sec : Sec) : bool :=
  match sec with FArm TResize _ | FArm TSettle _ => true | _ => false end.

(** What keeps every size in force.  An arm follows its decision before the next decision is taken; an
    override does not land during a settle; a change of membership that moves the grid is one the fold
    arms for; and no redraw or teardown is under way. *)
Definition tidy_sec (sec : Sec) (r : Resize) : Prop :=
  let quiet := Forall (fun x => arming x = false) (pending r) in
  let moved d f := target f = target (fold_state r) \/ target f = None \/ arm_settle d = true in
  match sec with
  | FAdd id passive => quiet /\ let '(d, f) := add_contributor (fold_state r) id passive in moved d f
  | FRemove id => quiet /\ let '(d, f) := remove_contributor (fold_state r) id in moved d f
  | FOffer _ _ => quiet
  | FOverride _ => quiet /\ settle_pending (fold_state r) = false
  | FClearMembers | FStop | FJiggleBegin | FJiggleEnd _ => False
  | _ => True
  end.

Definition tidy (a : Action) (r : Resize) : Prop :=
  match a with
  | AStep i => match calls r !! i with Some (sec :: _) => tidy_sec sec r | _ => True end
  | _ => True
  end.

Inductive reachable (ok : Action -> Resize -> Prop) : Resize -> Prop :=
| reach_new passive g : reachable ok (resize_new passive (Some g))
| reach_act r a r' : reachable ok r -> ok a r -> act a r = Some r' -> reachable ok r'.

(** ** The invariant of tidy runs *)

Definition writer (sec : Sec) : option Grid :=
  match sec with FCompare g | FWrite g => Some g | _ => None end.

(** The timer thread quotes the generation it clears to the apply that follows. *)
Fixpoint body_shape (b : list Sec) : Prop :=
  match b with
  | [] => True
  | FClearSettle gen :: ((FApply (Some gen') :: _) as rest) => gen = gen' /\ body_shape rest
  | FClearSettle _ :: _ => False
  | _ :: rest => body_shape rest
  end.

(** Something outstanding will apply the present target [g]. *)
Inductive owed (r : Resize) (P : list Sec) (g : Grid) : Prop :=
| owed_flush : FApply None ∈ P -> owed r P g
| owed_apply : FApply (Some (generation (fold_state r))) ∈ P -> owed r P g
| owed_arm t : t <> TNudge -> FArm t (generation (fold_state r)) ∈ P -> owed r P g
| owed_resize : resize_slot (table r) = Some (generation (fold_state r)) -> owed r P g
| owed_settle : settle_slot (table r) = Some (generation (fold_state r)) -> owed r P g
| owed_clear : FClearSettle (generation (fold_state r)) ∈ P -> owed r P g
| owed_write sec : writer sec = Some g -> sec ∈ P -> owed r P g.

Record steady (r : Resize) (P : list Sec) : Prop := {
  sd_open : is_Some (pty r);
  sd_live : stopped (table r) = false;
  sd_lock : omap writer P = [] /\ writing r = false \/ exists g, omap writer P = [g] /\ writing r = true;
  sd_arms : forall t gen, t <> TNudge -> FArm t gen ∈ P -> gen = generation (fold_state r);
  sd_settle : settle_pending (fold_state r) = true ->
    FArm TSettle (generation (fold_state r)) ∈ P \/ settle_slot (table r) = Some (generation (fold_state r)) \/
    FClearSettle (generation (fold_state r)) ∈ P;
  sd_size : forall g, target (fold_state r) = Some g ->
    pty r = Some g /\ omap writer P = [] \/ owed r P g;
}.

Lemma omap_writer_elem (P : list Sec) sec g : writer sec = Some g -> sec ∈ P -> g ∈ omap writer P.
Proof. intros Hw Hin. apply list_elem_of_omap. eauto. Qed.

Lemma steady_perm r P Q : P ≡ₚ Q -> steady r P -> steady r Q.
Proof.
  intros HPQ [H1 H2 H3 H4 H5 H6]. constructor; try done.
  - destruct H3 as [[E W]|(g & E & W)].
    + left. split; [|done]. apply Permutation_nil. by rewrite <- E, HPQ.
    + right. exists g. split; [|done]. apply Permutation_singleton_r. by rewrite <- HPQ, E.
  - intros t gen Ht Hin. rewrite <- HPQ in Hin. eauto.
  - intros Hs. rewrite <- HPQ. auto.
  - intros g Hg. destruct (H6 g Hg) as [[E Hw]|Ho].
    + left. split; [done|]. apply Permutation_nil. by rewrite <- Hw, HPQ.
    + right. destruct Ho; [constructor 1|constructor 2|econstructor 3|constructor 4|constructor 5|constructor 6|econstructor 7];
        rewrite <- ?HPQ; eauto.
Qed.

(** ** Sections and the invariant *)

Definition inert (sec : Sec) : bool :=
  match sec with
  | FArm _ _ | FApply _ | FCompare _ | FWrite _ | FClearSettle _ => false
  | _ => true
  end.

(** What [owed] reads of a state. *)
Definition same_promise (r r' : Resize) : Prop :=
  generation (fold_state r') = generation (fold_state r) /\
  resize_slot (table r') = resize_slot (table r) /\ settle_slot (table r') = settle_slot (table r).

Lemma owed_view r r' P Q g :
  same_promise r r' -> (forall sec, inert sec = false -> sec ∈ P -> sec ∈ Q) -> owed r P g -> owed r' Q g.
Proof.
  intros (Eg & Er & Es) HPQ Ho.
  destruct Ho as [H|H|t Ht H|H|H|H|sec Hw H].
  - apply owed_flush. by apply HPQ.
  - apply owed_apply. rewrite Eg. by apply HPQ.
  - apply (owed_arm _ _ _ t); [done|]. rewrite Eg. by apply HPQ.
  - apply owed_resize. congruence.
  - apply owed_settle. congruence.
  - apply owed_clear. rewrite Eg. by apply HPQ.
  - apply (owed_write _ _ _ sec); [done|]. apply HPQ; [by destruct sec|done].
Qed.

(** A section leaves that was no promise. *)
Lemma owed_rest r r' sec P Q g :
  same_promise r r' -> (forall x, x ∈ P -> x ∈ Q) ->
  match sec with
  | FApply None | FArm _ _ | FCompare _ | FWrite _ => False
  | FApply (Some gen) | FClearSettle gen => gen <> generation (fold_state r)
  | _ => True
  end -> owed r (sec :: P) g -> owed r' Q g.
Proof.
  intros (Eg & Er & Es) HPQ Hs Ho.
  destruct Ho as [H|H|t Ht H|H|H|H|x Hw H]; try apply elem_of_cons in H as [<-|H]; try done.
  - apply owed_flush. auto.
  - apply owed_apply. rewrite Eg. auto.
  - apply (owed_arm _ _ _ t); [done|]. rewrite Eg. auto.
  - apply owed_resize. congruence.
  - apply owed_settle. congruence.
  - apply owed_clear. rewrite Eg. auto.
  - by destruct x.
  - apply (owed_write _ _ _ x); auto.
Qed.

Lemma steady_inert r r' sec P :
  steady r (sec :: P) -> inert sec = true -> same_promise r r' -> is_Some (pty r') -> stopped (table r') = false ->
  pty r' = pty r -> writing r' = writing r -> settle_pending (fold_state r') = settle_pending (fold_state r) ->
  target (fold_state r') = target (fold_state r) -> steady r' P.
Proof.
  intros [H1 H2 H3 H4 H5 H6] Hi Hp Ho Hl Ep Ew Es Et. pose proof Hp as (Eg & Er & Ess).
  assert (Ew' : omap writer (sec :: P) = omap writer P) by (by destruct sec). rewrite Ew' in *.
  constructor; try done.
  - by rewrite Ew.
  - intros t gen Ht Hin. rewrite Eg. apply (H4 t); [done|by right].
  - rewrite Es, Eg, Ess. intros Hs. destruct (H5 Hs) as [Hin|[Hin|Hin]]; [left|by right; left|right; right];
      apply elem_of_cons in Hin as [<-|Hin]; done.
  - rewrite Et, Ep. intros g Hg. destruct (H6 g Hg) as [?|Hw]; [by left|right].
    apply (owed_rest r r' sec P P g); [done|done| |done]. by destruct sec.
Qed.

Lemma steady_arm r t gen P :
  steady r (FArm t gen :: P) -> steady (with_table r (arm t gen (table r))) P.
Proof.
  intros [H1 H2 H3 H4 H5 H6]. unfold arm. rewrite H2. cbn [omap list_omap writer] in *.
  assert (Hgen : t <> TNudge -> gen = generation (fold_state r)) by (intros Ht; apply (H4 t); [done|left]).
  destruct t; constructor; cbn; try done; try (intros t' gen' Ht' Hin; apply (H4 t'); [done|by right]);
    try rewrite (Hgen ltac:(done)) in *.
  - intros Hs. destruct (H5 Hs) as [Hin|[Hin|Hin]]; [left|by right; left|right; right];
      apply elem_of_cons in Hin as [[= ]|Hin]; done.
  - intros g Hg. right. by apply owed_resize.
  - by right; left.
  - intros g Hg. right. by apply owed_settle.
  - intros Hs. destruct (H5 Hs) as [Hin|[Hin|Hin]]; [left|by right; left|right; right];
      apply elem_of_cons in Hin as [[= ]|Hin]; done.
  - intros g Hg. destruct (H6 g Hg) as [?|Hw]; [by left|right].
    destruct Hw as [H|H|t Ht H|H|H|H|x Hw H]; try apply elem_of_cons in H as [[= ]|H]; try done.
    + by apply owed_flush.
    + by apply owed_apply.
    + by apply (owed_arm _ _ _ t).
    + by apply owed_resize.
    + by apply owed_settle.
    + by apply owed_clear.
    + subst x. done.
    + by apply (owed_write _ _ _ x).
Qed.

Lemma steady_apply r ig r' more P :
  steady r (FApply ig :: P) -> sec_apply ig r = Some (r', more) -> steady r' (more ++ P).
Proof.
  intros S Ha. unfold sec_apply in Ha. destruct (writing r) eqn:Ew; [done|].
  pose proof S as [H1 H2 H3 H4 H5 H6]. cbn [omap list_omap writer] in *.
  assert (Hnone : omap writer P = []) by (destruct H3 as [[E _]|(g & _ & E)]; [done|congruence]).
  assert (H5' : settle_pending (fold_state r) = true ->
    FArm TSettle (generation (fold_state r)) ∈ P \/ settle_slot (table r) = Some (generation (fold_state r)) \/
    FClearSettle (generation (fold_state r)) ∈ P).
  { intros Hs. destruct (H5 Hs) as [Hin|[Hin|Hin]]; [left|by right; left|right; right];
      apply elem_of_cons in Hin as [[= ]|Hin]; done. }
  unfold resolve in Ha. destruct (match ig with Some g => _ | None => _ end) eqn:Eg.
  - (* a stale generation *)
    injection Ha as <- <-. destruct ig as [gen|]; [|done]. apply negb_true_iff, Z.eqb_neq in Eg.
    constructor; try done; cbn; [intros t gen' Ht Hin; apply (H4 t); [done|by right]|].
    intros g Hg. destruct (H6 g Hg) as [?|Hw]; [by left|right].
    apply (owed_rest r _ (FApply (Some gen)) P P g); [done|done|cbn; congruence|done].
  - destruct (target (fold_state r)) as [g|] eqn:Et; injection Ha as <- <-.
    + constructor; try done; cbn.
      * right. exists g. cbn. by rewrite Hnone.
      * intros t gen Ht [[= ]|Hin]%elem_of_cons. apply (H4 t); [done|by right].
      * intros Hs. destruct (H5' Hs) as [Hin|[Hin|Hin]]; [left; by right|by right; left|right; right; by right].
      * change (target (with_resolved (fold_state r) (Some g))) with (target (fold_state r)).
        rewrite Et. intros g' [= <-]. right. apply (owed_write _ _ _ (FCompare g)); [done|left].
    + constructor; try done; cbn; [intros t gen' Ht Hin; apply (H4 t); [done|by right]|].
      by rewrite Et.
Qed.

Lemma lone_writer r sec h P :
  steady r (sec :: P) -> writer sec = Some h -> omap writer P = [] /\ writing r = true.
Proof.
  intros S Hw. destruct (sd_lock _ _ S) as [[E _]|(g & E & W)]; cbn in E; rewrite Hw in E; [done|].
  by injection E as _ E.
Qed.

(** The writer's grid reached the terminal. *)
Lemma steady_written r r' sec h P Q :
  steady r (sec :: P) -> writer sec = Some h -> fold_state r' = fold_state r -> table r' = table r ->
  writing r' = false -> pty r' = Some h -> (forall x, x ∈ P -> x ∈ Q) ->
  omap writer Q = [] -> (forall t gen, t <> TNudge -> FArm t gen ∈ Q -> FArm t gen ∈ P) -> steady r' Q.
Proof.
  intros S Hw Ef Et Ewr Ep HPQ HQ Harms. destruct (lone_writer r sec h P S Hw) as [Hnone _].
  pose proof S as [H1 H2 H3 H4 H5 H6]. constructor; rewrite ?Ef, ?Et, ?Ep; try done.
  - by left.
  - intros t gen Ht Hin. apply (H4 t); [done|right]. eauto.
  - intros Hs. destruct (H5 Hs) as [Hin|[Hin|Hin]]; [left|by right; left|right; right];
      apply elem_of_cons in Hin as [<-|Hin]; try done; by apply HPQ.
  - intros g Hg. destruct (H6 g Hg) as [[_ E]|Ho]; [by cbn in E; rewrite Hw in E|].
    assert (Hp : same_promise r r') by (unfold same_promise; by rewrite Ef, Et).
    destruct Hp as (Eg & Er & Es).
    destruct Ho as [H|H|t Ht H|H|H|H|x Hx H]; try apply elem_of_cons in H as [<-|H]; try done.
    + right. apply owed_flush. auto.
    + right. apply owed_apply. rewrite Eg. auto.
    + right. apply (owed_arm _ _ _ t); [done|]. rewrite Eg. auto.
    + right. apply owed_resize. congruence.
    + right. apply owed_settle. congruence.
    + right. apply owed_clear. rewrite Eg. auto.
    + left. split; [congruence|done].
    + pose proof (omap_writer_elem P x g Hx H) as Hin. rewrite Hnone in Hin. by apply elem_of_nil in Hin.
Qed.

Lemma steady_compare r g P :
  steady r (FCompare g :: P) -> steady (sec_compare g r).1 ((sec_compare g r).2 ++ P).
Proof.
  intros S. destruct (lone_writer r _ g P S eq_refl) as [Hnone Hwr]. unfold sec_compare.
  case_bool_decide as Hp; cbn [fst snd app].
  - by apply (steady_written r _ (FCompare g) g P P).
  - pose proof S as [H1 H2 H3 H4 H5 H6]. constructor; try done.
    + intros t gen Ht [[= ]|Hin]%elem_of_cons. apply (H4 t); [done|by right].
    + intros Hs. destruct (H5 Hs) as [Hin|[Hin|Hin]]; [left|by right; left|right; right];
        apply elem_of_cons in Hin as [[= ]|Hin]; by right.
    + intros h Hh. destruct (H6 h Hh) as [[_ E]|Ho]; [done|right].
      destruct Ho as [H|H|t Ht H|H|H|H|x Hx H]; try apply elem_of_cons in H as [[= ]|H].
      * apply owed_flush. by right.
      * apply owed_apply. by right.
      * apply (owed_arm _ _ _ t); [done|by right].
      * by apply owed_resize.
      * by apply owed_settle.
      * apply owed_clear. by right.
      * subst x. apply (owed_write _ _ _ (FWrite g)); [done|left].
      * apply (owed_write _ _ _ x); [done|by right].
Qed.

Lemma steady_write r g P :
  steady r (FWrite g :: P) -> steady (sec_write g r).1 ((sec_write g r).2 ++ P).
Proof.
  intros S. destruct (lone_writer r _ g P S eq_refl) as [Hnone Hwr].
  destruct (sd_open _ _ S) as [live Hl]. unfold sec_write. rewrite Hl. cbn [fst snd app].
  apply (steady_written r _ (FWrite g) g P); try done.
  - intros x Hx. right. by right.
  - intros t gen Ht Hin. rewrite !elem_of_cons in Hin. destruct Hin as [H|[H|H]]; [done|congruence|done].
Qed.

Lemma steady_clear r gen P :
  steady r (FClearSettle gen :: P) -> FApply (Some gen) ∈ P ->
  steady (with_fold r (clear_settle (fold_state r) gen)) P.
Proof.
  intros [H1 H2 H3 H4 H5 H6] Hin. unfold clear_settle. cbn [omap list_omap writer] in *.
  assert (Ha : forall t gen', t <> TNudge -> FArm t gen' ∈ P -> gen' = generation (fold_state r))
    by (intros t gen' Ht Hi; apply (H4 t); [done|by right]).
  destruct (Z.eqb_spec (generation (fold_state r)) gen) as [<-|Hne].
  - constructor; cbn; try done. intros g Hg. right. by apply owed_apply.
  - constructor; cbn; try done.
    + intros Hs. destruct (H5 Hs) as [Hi|[Hi|Hi]]; [left|by right; left|right; right];
        apply elem_of_cons in Hi as [[= ]|Hi]; done.
    + intros g Hg. destruct (H6 g Hg) as [?|Hw]; [by left|right].
      apply (owed_rest r _ (FClearSettle gen) P P g); [done|done|cbn; congruence|done].
Qed.

(** A decision that arms: the generation moves, and the arm quotes the new one. *)
Lemma steady_decide r f t P Q :
  steady r P -> t <> TNudge -> Forall (fun x => arming x = false) Q -> P ≡ₚ Q ->
  (settle_pending f = true -> t = TSettle) -> steady (with_fold r f) (FArm t (generation f) :: Q).
Proof.
  intros S Ht Hq HPQ Hs. apply (steady_perm r P Q HPQ) in S. destruct S as [H1 H2 H3 H4 H5 H6].
  constructor; cbn; try done.
  - intros t' gen Ht' [[= -> ->]|Hin]%elem_of_cons; [done|].
    rewrite Forall_forall in Hq. specialize (Hq _ Hin). by destruct t'.
  - intros E. rewrite (Hs E). left. left.
  - intros g Hg. right. apply (owed_arm _ _ _ t); [done|left].
Qed.

(** A decision that arms nothing: the grid stands, is gone, or a settle will apply it. *)
Lemma steady_still r f P :
  steady r P -> generation f = generation (fold_state r) ->
  settle_pending f = settle_pending (fold_state r) ->
  target f = target (fold_state r) \/ target f = None \/ settle_pending f = true ->
  steady (with_fold r f) P.
Proof.
  intros [H1 H2 H3 H4 H5 H6] Eg Es Ht. constructor; cbn; try done; rewrite ?Eg, ?Es; try done.
  intros g Hg. assert (Hp : same_promise r (with_fold r f)) by (by split_and!).
  destruct Ht as [E|[E|E]]; [|congruence|].
  - rewrite E in Hg. destruct (H6 g Hg) as [?|Hw]; [by left|right]. by apply (owed_view r _ P P).
  - right. rewrite Es in E. destruct (H5 E) as [Hin|[Hin|Hin]].
    + apply (owed_arm _ _ _ TSettle); [done|]. cbn. by rewrite Eg.
    + apply owed_settle. cbn. by rewrite Eg.
    + apply owed_clear. cbn. by rewrite Eg.
Qed.

Lemma arm_settle_cases f before :
  let '(d, f') := arm_settle_if_set_changed f before in
  (arm_settle d = true /\ f' = with_settle (bump f) true /\ arm_generation d = generation f') \/
  (arm_settle d = false /\ f' = f).
Proof.
  unfold arm_settle_if_set_changed. case_bool_decide; [by right|by left].
Qed.

Lemma steady_membership r d f f0 P :
  steady r P -> Forall (fun x => arming x = false) P ->
  generation f0 = generation (fold_state r) -> settle_pending f0 = settle_pending (fold_state r) ->
  (arm_settle d = true /\ f = with_settle (bump f0) true /\ arm_generation d = generation f) \/
  (arm_settle d = false /\ f = f0) ->
  target f = target (fold_state r) \/ target f = None \/ arm_settle d = true ->
  steady (with_fold r f) (arm_settle_of d ++ P).
Proof.
  intros S Hq Eg Es Hd Ht. unfold arm_settle_of. destruct Hd as [(Ha & Ef & En)|(Ha & ->)]; rewrite Ha in *; cbn [app].
  - rewrite En. by apply (steady_decide r f TSettle P P).
  - apply steady_still; try done. destruct Ht as [?|[?|?]]; [by left|by right; left|done].
Qed.

Lemma with_fold_same r : with_fold r (fold_state r) = r.
Proof. by destruct r. Qed.

Lemma steady_add r id passive P :
  steady r P -> Forall (fun x => arming x = false) P ->
  (let '(d, f) := add_contributor (fold_state r) id passive in
   target f = target (fold_state r) \/ target f = None \/ arm_settle d = true) ->
  steady (sec_add id passive r).1 ((sec_add id passive r).2 ++ P).
Proof.
  intros S Hq. unfold sec_add, add_contributor. set (f0 := with_contributions _ _).
  pose proof (arm_settle_cases f0 (voting_count (fold_state r))) as Hd.
  destruct (arm_settle_if_set_changed _ _) as [d f]. intros Ht. by apply (steady_membership r d f f0).
Qed.

Lemma steady_remove r id P :
  steady r P -> Forall (fun x => arming x = false) P ->
  (let '(d, f) := remove_contributor (fold_state r) id in
   target f = target (fold_state r) \/ target f = None \/ arm_settle d = true) ->
  steady (sec_remove id r).1 ((sec_remove id r).2 ++ P).
Proof.
  intros S Hq. unfold sec_remove, remove_contributor. destruct (contributions (fold_state r) !! id) as [c|].
  - set (f0 := with_contributions _ _). pose proof (arm_settle_cases f0 (voting_count (fold_state r))) as Hd.
    destruct (arm_settle_if_set_changed _ _) as [d f]. intros Ht. by apply (steady_membership r d f f0).
  - intros _. cbn. by rewrite with_fold_same.
Qed.

Lemma steady_offer r id g P :
  steady r P -> Forall (fun x => arming x = false) P ->
  steady (sec_offer id g r).1 ((sec_offer id g r).2 ++ P).
Proof.
  intros S Hq. unfold sec_offer, note_offer. set (stored := mkContribution _ _).
  set (f1 := with_contributions _ _). set (f2 := if credits_offer _ _ then _ else f1).
  assert (E : generation f2 = generation (fold_state r) /\ settle_pending f2 = settle_pending (fold_state r))
    by (unfold f2; by destruct (credits_offer _ _)).
  destruct E as [Eg Es]. destruct (settle_pending f2) eqn:Ep; cbn.
  - apply steady_still; [done|done|congruence|]. by right; right.
  - apply (steady_decide r (bump f2) TResize P P); try done. cbn. congruence.
Qed.

Lemma steady_override r g P :
  steady r P -> Forall (fun x => arming x = false) P -> settle_pending (fold_state r) = false ->
  steady (sec_override g r).1 ((sec_override g r).2 ++ P).
Proof.
  intros [H1 H2 H3 H4 H5 H6] Hq Hs. constructor; cbn; try done.
  - intros t gen Ht [[= ]|Hin]%elem_of_cons. rewrite Forall_forall in Hq. specialize (Hq _ Hin). by destruct t.
  - rewrite Hs. by intros [=].
  - intros h _. right. apply owed_flush. left.
Qed.

Lemma steady_ext r r' P :
  steady r P -> fold_state r' = fold_state r -> table r' = table r -> writing r' = writing r -> pty r' = pty r ->
  steady r' P.
Proof.
  intros [H1 H2 H3 H4 H5 H6] Ef Et Ew Ep. constructor; rewrite ?Ef, ?Et, ?Ew, ?Ep; try done.
  intros g Hg. destruct (H6 g Hg) as [?|Ho]; [by left|right]. apply (owed_view r r' P P); try done.
  unfold same_promise. by rewrite Ef, Et.
Qed.

Lemma steady_run r sec P r' more :
  steady r (sec :: P) -> tidy_sec sec r -> pending r ≡ₚ sec :: P ->
  (forall gen, sec = FClearSettle gen -> FApply (Some gen) ∈ P) ->
  run_sec sec r = Some (r', more) -> steady r' (more ++ P).
Proof.
  intros S Ht HP Hc Hr.
  assert (Hin : inert sec = true -> steady r P).
  { intros Hi. apply (steady_inert r r sec P S Hi); try done; apply S. }
  assert (Hq : Forall (fun x => arming x = false) (pending r) -> Forall (fun x => arming x = false) P).
  { intros H. rewrite HP in H. by inversion H. }
  destruct sec; cbn [run_sec tidy_sec] in *; try done.
  - destruct (sec_add id passive r) as [r1 m1] eqn:E. injection Hr as <- <-.
    pose proof (steady_add r id passive P (Hin eq_refl) (Hq (proj1 Ht)) (proj2 Ht)) as H. by rewrite E in H.
  - destruct (sec_remove id r) as [r1 m1] eqn:E. injection Hr as <- <-.
    pose proof (steady_remove r id P (Hin eq_refl) (Hq (proj1 Ht)) (proj2 Ht)) as H. by rewrite E in H.
  - destruct (sec_offer id g r) as [r1 m1] eqn:E. injection Hr as <- <-.
    pose proof (steady_offer r id g P (Hin eq_refl) (Hq Ht)) as H. by rewrite E in H.
  - destruct (sec_override g r) as [r1 m1] eqn:E. injection Hr as <- <-.
    pose proof (steady_override r g P (Hin eq_refl) (Hq (proj1 Ht)) (proj2 Ht)) as H. by rewrite E in H.
  - injection Hr as <- <-. by apply steady_arm.
  - by apply (steady_apply r if_generation).
  - destruct (sec_compare g r) as [r1 m1] eqn:E. injection Hr as <- <-.
    pose proof (steady_compare r g P S) as H. by rewrite E in H.
  - destruct (sec_write g r) as [r1 m1] eqn:E. injection Hr as <- <-.
    pose proof (steady_write r g P S) as H. by rewrite E in H.
  - injection Hr as <- <-. by apply (steady_ext r); [apply Hin|..].
  - injection Hr as <- <-. apply steady_clear; [done|]. by apply Hc.
  - injection Hr as <- <-. by apply Hin.
Qed.

Lemma steady_fire r rs ss ns due tb P :
  steady r P -> fire rs ss ns (table r) = (due, tb) -> steady (with_table r tb) (due ++ P).
Proof.
  intros [H1 H2 H3 H4 H5 H6] Hf. unfold fire in Hf. injection Hf as <- <-.
  set (R := resize_body _). set (C := settle_body _). set (N := nudge_body _).
  assert (Hno : Forall (fun sec => writer sec = None /\ arming sec = false) (R ++ C ++ N)).
  { unfold R, C, N, resize_body, settle_body, nudge_body. repeat case_match; by repeat constructor. }
  rewrite Forall_forall in Hno.
  assert (HW : omap writer ((R ++ C ++ N) ++ P) = omap writer P).
  { rewrite omap_app. replace (omap writer (R ++ C ++ N)) with (@nil Grid); [done|]. symmetry.
    apply elem_of_nil_inv. intros g (sec & Hin & Hw)%list_elem_of_omap.
    destruct (Hno sec Hin) as [E _]. congruence. }
  assert (HP : forall sec, sec ∈ P -> sec ∈ (R ++ C ++ N) ++ P) by (intros; apply elem_of_app; by right).
  assert (HR : forall gen, rs = true -> resize_slot (table r) = Some gen -> FApply (Some gen) ∈ (R ++ C ++ N) ++ P).
  { intros gen -> E. unfold R. rewrite E. cbn. left. }
  assert (HC : forall gen, ss = true -> settle_slot (table r) = Some gen -> FClearSettle gen ∈ (R ++ C ++ N) ++ P).
  { intros gen -> E. unfold C. rewrite E. rewrite !elem_of_app. left; right; left. left. }
  constructor; cbn; rewrite ?HW; try done.
  - intros t gen Ht [Hin|Hin]%elem_of_app; [|by apply (H4 t)].
    destruct (Hno _ Hin) as [_ E]. by destruct t.
  - intros Hs. destruct (H5 Hs) as [Hin|[Hin|Hin]]; [left; by apply HP| |right; right; by apply HP].
    destruct ss; [right; right; by apply HC|by right; left].
  - intros g Hg. destruct (H6 g Hg) as [?|[H|H|t Ht H|H|H|H|sec Hw H]]; [by left|right..].
    + by apply owed_flush, HP.
    + by apply owed_apply, HP.
    + apply (owed_arm _ _ _ t); [done|by apply HP].
    + destruct rs; [by apply owed_apply, HR|by apply owed_resize].
    + destruct ss; [by apply owed_clear, HC|by apply owed_settle].
    + by apply owed_clear, HP.
    + apply (owed_write _ _ _ sec); [done|by apply HP].
Qed.

(** ** Threads *)

Definition no_clear (sec : Sec) : Prop := match sec with FClearSettle _ => False | _ => True end.
Definition writer_first (t : list Sec) : Prop := omap writer (tail t) = [].

Lemma rz_sec_frame sec r r' more :
  run_sec sec r = Some (r', more) ->
  body r' = body r /\ calls r' = calls r /\ Forall no_clear more /\ writer_first more.
Proof.
  destruct sec; cbn [run_sec]; unfold sec_add, sec_remove, sec_offer, sec_override, sec_apply, sec_compare,
    sec_write, sec_jiggle, arm_settle_of; intros H; repeat case_match; simplify_eq;
    split_and!; try done; by repeat constructor.
Qed.

Lemma body_shape_tail sec b : body_shape (sec :: b) -> body_shape b.
Proof. destruct sec; cbn; try done. destruct b as [|[] b]; cbn; try done. by destruct if_generation; intros []. Qed.

Lemma body_shape_clear gen b : body_shape (FClearSettle gen :: b) -> FApply (Some gen) ∈ b.
Proof. cbn. destruct b as [|[] b]; try done. destruct if_generation; intros []; subst. left. Qed.

Lemma body_shape_app a b : Forall no_clear a -> body_shape b -> body_shape (a ++ b).
Proof. induction 1 as [|sec a Hs _ IH]; intros Hb; [done|]. cbn [app]. destruct sec; cbn; auto. by destruct Hs. Qed.

Lemma writer_first_app a b : writer_first a -> omap writer b = [] -> writer_first (a ++ b).
Proof.
  unfold writer_first. destruct a as [|sec a]; cbn [app tail].
  - intros _ Hb. destruct b as [|x b]; [done|]. cbn [omap list_omap tail] in *. by destruct (writer x).
  - intros Ha Hb. by rewrite omap_app, Ha, Hb.
Qed.

(** What the timer thread runs. *)
Definition timer_sec (sec : Sec) : Prop :=
  match sec with
  | FArm _ _ | FApply _ | FCompare _ | FWrite _ | FDirty | FClearSettle _ | FNudge => True
  | _ => False
  end.

Lemma timer_more sec r r' more : timer_sec sec -> run_sec sec r = Some (r', more) -> Forall timer_sec more.
Proof.
  destruct sec; cbn [run_sec]; try done; intros _; unfold sec_apply, sec_compare, sec_write; intros H;
    repeat case_match; simplify_eq; by repeat constructor.
Qed.

Lemma fire_spec rs ss ns tb due tb' :
  fire rs ss ns tb = (due, tb') -> Forall timer_sec due /\ body_shape due /\ omap writer due = [] /\
  stopped tb' = stopped tb.
Proof.
  unfold fire, resize_body, settle_body, nudge_body. intros [= <- <-].
  repeat case_match; split_and!; try done; by repeat constructor.
Qed.

Record tidy_inv (r : Resize) : Prop := {
  ti_steady : steady r (pending r);
  ti_timer : Forall timer_sec (body r);
  ti_shape : body_shape (body r);
  ti_calls : Forall (Forall no_clear) (calls r);
  ti_heads : Forall writer_first (body r :: calls r);
}.

Lemma tidy_new passive g : tidy_inv (resize_new passive (Some g)).
Proof.
  constructor; cbn; try done; [|by repeat constructor].
  constructor; cbn; try done; try by left. intros t gen _ Hin. by apply elem_of_nil in Hin.
Qed.

Lemma program_plain c : Forall no_clear (program c) /\ omap writer (program c) = [] /\
  Forall (fun x => arming x = false) (program c).
Proof. destruct c; cbn; try destruct jiggle; split_and!; by repeat constructor. Qed.

Lemma steady_more r P Q :
  steady r P -> omap writer Q = [] -> Forall (fun x => arming x = false) Q -> steady r (P ++ Q).
Proof.
  intros [H1 H2 H3 H4 H5 H6] HQ Ha. rewrite Forall_forall in Ha.
  constructor; rewrite ?omap_app, ?HQ, ?app_nil_r; try done.
  - intros t gen Ht [Hin|Hin]%elem_of_app; [eauto|]. specialize (Ha _ Hin). by destruct t.
  - intros Hs. rewrite !elem_of_app. destruct (H5 Hs) as [?|[?|?]]; auto.
  - intros g Hg. destruct (H6 g Hg) as [?|Ho]; [by left|right].
    apply (owed_view r r P); [done| |done]. intros sec _ Hin. apply elem_of_app. by left.
Qed.

Lemma tidy_step r i r' : tidy_inv r -> tidy (AStep i) r -> act (AStep i) r = Some r' -> tidy_inv r'.
Proof.
  intros [S Htm Hsh Hc Hh] Ht Ha. cbn in Ht, Ha. destruct (calls r !! i) as [[|sec rest]|] eqn:Hi; try done.
  destruct (run_sec sec r) as [[r1 more]|] eqn:Er; [|done]. cbn in Ha. injection Ha as <-.
  destruct (rz_sec_frame sec r r1 more Er) as (Eb & Ec & Hm & Hw).
  destruct (concat_thread (calls r) i sec rest Hi) as (others & Hp & Hp').
  assert (HP : pending r ≡ₚ sec :: (body r ++ rest ++ others)) by (unfold pending; rewrite Hp; solve_Permutation).
  pose proof (Forall_lookup_1 _ _ _ _ Hc Hi) as Hci. inversion_clear Hci as [|? ? Hcs Hcr].
  apply Forall_cons in Hh as [Hhb Hhc]. pose proof (Forall_lookup_1 _ _ _ _ Hhc Hi) as Hhi. cbn in Hhi.
  constructor.
  - apply (steady_perm _ (more ++ (body r ++ rest ++ others))).
    { unfold pending. cbn [body calls with_calls]. rewrite Eb, Ec, Hp'. solve_Permutation. }
    apply (steady_ext r1); try done. apply (steady_run r sec _ _ _ (steady_perm _ _ _ HP S) Ht HP); [|done].
    intros gen ->. by destruct Hcs.
  - cbn. by rewrite Eb.
  - cbn. by rewrite Eb.
  - cbn. rewrite Ec. apply Forall_insert; [done|]. by apply Forall_app_2.
  - cbn. rewrite Eb, Ec. constructor; [done|]. apply Forall_insert; [done|]. by apply writer_first_app.
Qed.

Lemma tidy_body r r' : tidy_inv r -> act ABody r = Some r' -> tidy_inv r'.
Proof.
  intros [S Htm Hsh Hc Hh] Ha. cbn in Ha. destruct (body r) as [|sec rest] eqn:Hb; [done|].
  destruct (run_sec sec r) as [[r1 more]|] eqn:Er; [|done]. cbn in Ha. injection Ha as <-.
  destruct (rz_sec_frame sec r r1 more Er) as (Eb & Ec & Hm & Hw).
  inversion_clear Htm as [|? ? Ht Htr]. apply Forall_cons in Hh as [Hhb Hhc]. cbn in Hhb.
  assert (HP : pending r ≡ₚ sec :: (rest ++ concat (calls r))) by (unfold pending; by rewrite Hb).
  constructor.
  - apply (steady_perm _ (more ++ (rest ++ concat (calls r)))).
    { unfold pending. cbn [body calls with_body]. by rewrite Ec, app_assoc. }
    apply (steady_ext r1); try done.
    apply (steady_run r sec _ _ _ (steady_perm _ _ _ HP S)); [by destruct sec|done| |done].
    intros gen ->. apply elem_of_app. left. by apply body_shape_clear.
  - apply Forall_app_2; [by apply (timer_more sec r r1)|done].
  - apply body_shape_app; [done|]. by apply (body_shape_tail sec).
  - cbn. by rewrite Ec.
  - cbn. rewrite Ec. constructor; [by apply writer_first_app|done].
Qed.

Lemma tidy_act r a r' : tidy_inv r -> tidy a r -> act a r = Some r' -> tidy_inv r'.
Proof.
  intros I Ht Ha. destruct a as [c|i|rs ss ns|]; [| by apply (tidy_step r i)| |by apply (tidy_body r)].
  - destruct I as [S Htm Hsh Hc Hh]. cbn in Ha. injection Ha as <-.
    destruct (program_plain c) as (H1 & H2 & H3). constructor; try done.
    + apply (steady_perm _ (pending r ++ program c)).
      { unfold pending. cbn [body calls with_calls]. rewrite concat_app. cbn [concat]. by rewrite app_nil_r, app_assoc. }
      apply (steady_ext r); try done. by apply steady_more.
    + apply Forall_app_2; [done|]. by constructor.
    + apply Forall_cons in Hh as [Hhb Hhc]. constructor; [done|]. apply Forall_app_2; [done|].
      constructor; [|done]. by apply (writer_first_app []).
  - destruct I as [S Htm Hsh Hc Hh]. unfold act in Ha. destruct (body r) eqn:Hb; [|done].
    destruct (fire rs ss ns (table r)) as [due tb] eqn:Ef. destruct due as [|d0 due0] eqn:Ed; [done|].
    rewrite <- Ed in *. destruct (stopped (table r)) eqn:Es; [done|]. injection Ha as <-.
    destruct (fire_spec _ _ _ _ _ _ Ef) as (H1 & H2 & H3 & H4).
    apply Forall_cons in Hh as [Hhb Hhc]. constructor; try done.
    + pose proof (steady_fire r rs ss ns due tb (concat (calls r))) as H.
      unfold pending in S. rewrite Hb in S. specialize (H S Ef).
      by apply (steady_ext (with_table r tb)).
    + constructor; [|done]. by apply (writer_first_app []).
Qed.

Lemma reachable_tidy r : reachable tidy r -> tidy_inv r.
Proof. induction 1 as [passive g|r a r' _ IH Ht Ha]; [apply tidy_new|]. by apply (tidy_act r a). Qed.

(** ** No work left *)

Definition idle (r : Resize) : Prop :=
  pending r = [] /\ resize_slot (table r) = None /\ settle_slot (table r) = None /\ nudge_slot (table r) = false.

Lemma run_sec_blocked sec r : run_sec sec r = None -> writing r = true /\ writer sec = None.
Proof. destruct sec; cbn; try done. unfold sec_apply. destruct (writing r); [done|]. by repeat case_match. Qed.

Lemma stuck_idle r : tidy_inv r -> (forall a, internal a -> act a r = None) -> idle r.
Proof.
  intros [S Htm Hsh Hc Hh] Hstuck.
  assert (Hhead : forall t, t ∈ body r :: calls r -> match t with [] => True | sec :: _ => run_sec sec r = None end).
  { intros [|sec rest] Hin; [done|]. apply elem_of_cons in Hin as [E|[i Hi]%list_elem_of_lookup].
    - specialize (Hstuck ABody I). cbn in Hstuck. rewrite <- E in Hstuck. by destruct (run_sec sec r) as [[]|].
    - specialize (Hstuck (AStep i) I). cbn in Hstuck. rewrite Hi in Hstuck. by destruct (run_sec sec r) as [[]|]. }
  assert (Hnil : forall t, t ∈ body r :: calls r -> t = []).
  { intros [|sec rest] Hin; [done|]. exfalso. destruct (run_sec_blocked sec r (Hhead _ Hin)) as [Hw _].
    destruct (sd_lock _ _ S) as [[_ E]|(g & E & _)]; [congruence|].
    assert (Hg : g ∈ omap writer (pending r)) by (rewrite E; left).
    apply list_elem_of_omap in Hg as (w & Hwin & Hwg).
    assert (Ht : exists t, t ∈ body r :: calls r /\ w ∈ t).
    { unfold pending in Hwin. change (w ∈ concat (body r :: calls r)) in Hwin.
      apply list_elem_of_In, in_concat in Hwin as (t & H1 & H2). exists t. split; by apply list_elem_of_In. }
    destruct Ht as ([|h t] & Ht & Hwt); [by apply elem_of_nil in Hwt|].
    rewrite Forall_forall in Hh. pose proof (Hh _ Ht) as Hf. cbn in Hf.
    apply elem_of_cons in Hwt as [->|Hwt].
    - destruct (run_sec_blocked h r (Hhead _ Ht)) as [_ E']. congruence.
    - pose proof (omap_writer_elem t w g Hwg Hwt) as Hin'. rewrite Hf in Hin'. by apply elem_of_nil in Hin'. }
  assert (Hb : body r = []) by (apply Hnil; left).
  split; [|].
  - apply elem_of_nil_inv. intros sec Hin. change (sec ∈ concat (body r :: calls r)) in Hin.
    apply list_elem_of_In, in_concat in Hin as (t & H1 & H2).
    rewrite (Hnil t) in H2 by (by apply list_elem_of_In). done.
  - pose proof (Hstuck (AFire true true true) I) as Hf. cbn in Hf. rewrite Hb, (sd_live _ _ S) in Hf.
    destruct (resize_slot (table r)), (settle_slot (table r)), (nudge_slot (table r)); cbn in Hf; try done.
Qed.

Lemma idle_settled r g : tidy_inv r -> idle r -> target (fold_state r) = Some g -> pty r = Some g.
Proof.
  intros I (Hp & Hr & Hs & _) Hg. pose proof (ti_steady r I) as S. rewrite Hp in S.
  destruct (sd_size _ _ S g Hg) as [[? _]|[H|H|t _ H|H|H|H|sec _ H]]; try done; try congruence; by apply elem_of_nil in H.
Qed.

(** ** Termination *)

Definition weight (sec : Sec) : nat :=
  match sec with
  | FAdd _ _ | FRemove _ => 11
  | FOffer _ _ => 10
  | FOverride _ => 8
  | FArm TResize _ => 9
  | FArm TSettle _ => 10
  | FArm TNudge _ => 3
  | FApply _ => 7
  | FCompare _ => 6
  | FWrite _ => 5
  | FJiggleBegin => 2
  | _ => 1
  end%nat.

Definition slots_weight (tb : Table) : nat :=
  (match resize_slot tb with Some _ => 8 | None => 0 end + match settle_slot tb with Some _ => 9 | None => 0 end +
   if nudge_slot tb then 2 else 0)%nat.

Definition total (l : list Sec) : nat := sum_list_with weight l.

(** How much work is left when nobody calls any more. *)
Definition potential (r : Resize) : nat := (total (pending r) + slots_weight (table r))%nat.

Lemma rz_total_app a b : total (a ++ b) = (total a + total b)%nat.
Proof. apply sum_list_with_app. Qed.

Lemma run_sec_decreases sec r r' more :
  run_sec sec r = Some (r', more) ->
  (total more + slots_weight (table r') < weight sec + slots_weight (table r))%nat.
Proof.
  destruct sec; cbn [run_sec]; unfold sec_add, sec_remove, sec_offer, sec_override, sec_apply, sec_compare,
    sec_write, sec_jiggle, arm_settle_of, arm, stop, slots_weight; intros H; repeat case_match; simplify_eq;
    unfold total; cbn in *; repeat case_match; simplify_eq; congruence || lia.
Qed.

Lemma thread_total (l : list (list Sec)) i t t' :
  l !! i = Some t -> (total (concat (<[i := t']> l)) + total t = total (concat l) + total t')%nat.
Proof.
  intros Hi. assert (Hlen : (i < length l)%nat) by (by apply lookup_lt_Some in Hi).
  rewrite insert_take_drop by done. rewrite <- (take_drop_middle l i t Hi) at 3.
  rewrite !concat_app. cbn [concat]. rewrite !rz_total_app. lia.
Qed.

Lemma act_decreases a r r' : internal a -> act a r = Some r' -> (potential r' < potential r)%nat.
Proof.
  unfold potential, pending. destruct a as [c|i|rs ss ns|]; [done| | |]; intros _ Ha.
  - cbn in Ha. destruct (calls r !! i) as [[|sec rest]|] eqn:Hi; try done.
    destruct (run_sec sec r) as [[r1 more]|] eqn:Er; [|done]. injection Ha as <-.
    destruct (rz_sec_frame sec r r1 more Er) as (Eb & Ec & _). pose proof (run_sec_decreases sec r r1 more Er) as Hd.
    cbn [body calls table with_calls]. rewrite Eb, Ec, !rz_total_app.
    pose proof (thread_total (calls r) i (sec :: rest) (more ++ rest) Hi) as Ht. rewrite rz_total_app in Ht.
    change (total (sec :: rest)) with (weight sec + total rest)%nat in Ht. lia.
  - unfold act in Ha. destruct (body r); [|done]. destruct (fire rs ss ns (table r)) as [due tb] eqn:Ef.
    destruct due as [|d due]; [done|]. destruct (stopped (table r)); [done|]. injection Ha as <-.
    cbn [body calls table with_body with_table]. rewrite !rz_total_app. cbn [app].
    assert ((total (d :: due) + slots_weight tb < slots_weight (table r))%nat); [|change (total []) with 0%nat; lia].
    unfold fire, resize_body, settle_body, nudge_body in Ef. destruct (table r) as [[] [] [] ? ?], rs, ss, ns;
      cbn in Ef; simplify_eq; unfold total, slots_weight; cbn; lia.
  - cbn in Ha. destruct (body r) as [|sec rest] eqn:Hb; [done|].
    destruct (run_sec sec r) as [[r1 more]|] eqn:Er; [|done]. injection Ha as <-.
    destruct (rz_sec_frame sec r r1 more Er) as (Eb & Ec & _). pose proof (run_sec_decreases sec r r1 more Er) as Hd.
    cbn [body calls table with_body]. rewrite Ec, !rz_total_app.
    change (total (sec :: rest)) with (weight sec + total rest)%nat. lia.
Qed.

Lemma rz_exec_bounded acts : forall r r',
  Forall internal acts -> exec acts r = Some r' -> (length acts + potential r' <= potential r)%nat.
Proof.
  induction acts as [|a acts IH]; intros r r' Hi He; cbn in He; [injection He as <-; cbn; lia|].
  apply Forall_cons in Hi as [Ha Hi]. destruct (act a r) as [r1|] eqn:E; [|done].
  pose proof (act_decreases a r r1 Ha E). specialize (IH r1 r' Hi He). cbn. lia.
Qed.

Fixpoint tidy_run (acts : list Action) (r : Resize) : Prop :=
  match acts with
  | [] => True
  | a :: acts => tidy a r /\ match act a r with Some r' => tidy_run acts r' | None => True end
  end.

Lemma exec_tidy acts : forall r r', reachable tidy r -> tidy_run acts r -> exec acts r = Some r' -> reachable tidy r'.
Proof.
  induction acts as [|a acts IH]; intros r r' Hr Ht He; cbn in *; [by simplify_eq|].
  destruct Ht as [Ha Ht]. destruct (act a r) as [r1|] eqn:E; [|done].
  apply (IH r1 r'); [by apply (reach_act _ r a)|done|done].
Qed.

Definition is_nil {A} (l : list A) : bool := match l with [] => true | _ => false end.
Definition idleb (r : Resize) : bool :=
  is_nil (body r) && forallb is_nil (calls r) && bool_decide (resize_slot (table r) = None) &&
  bool_decide (settle_slot (table r) = None) && negb (nudge_slot (table r)).

Lemma idleb_stuck r : idleb r = true -> forall a, internal a -> act a r = None.
Proof.
  unfold idleb. rewrite !andb_true_iff, !bool_decide_eq_true, negb_true_iff. intros ((((Hb & Hc) & Hr) & Hs) & Hn).
  destruct (body r) eqn:Eb; [|done]. intros [c|i|rs ss ns|] Hi; [done| | |].
  - cbn. destruct (calls r !! i) as [t|] eqn:E; [|done]. rewrite forallb_forall in Hc.
    assert (Ht : is_nil t = true) by (apply Hc, list_elem_of_In, list_elem_of_lookup; eauto). by destruct t.
  - cbn. rewrite Eb. unfold fire. rewrite Hr, Hs, Hn. by destruct rs, ss, ns.
  - cbn. by rewrite Eb.
Qed.

(** ** The properties *)

(** C25: a pane settles at the size its clients agree on.  In any interleaving of offers, arrivals,
    departures, overrides, flushes and timers, with arms that follow their decisions, overrides outside
    settles and membership changes the fold arms for, once the callers pause there are no more steps
    than [potential] counts, and when none is left to make, no timer is armed, no thread holds the write
    lock, and the terminal has the grid the fold resolves to. *)
Theorem sizes_settle r :
  reachable tidy r ->
  (forall acts r', Forall internal acts -> exec acts r = Some r' -> (length acts <= potential r)%nat) /\
  ((forall a, internal a -> act a r = None) ->
   idle r /\ writing r = false /\ forall g, target (fold_state r) = Some g -> pty r = Some g).
Proof.
  intros Hr. pose proof (reachable_tidy r Hr) as I. split.
  - intros acts r' Hi He. pose proof (rz_exec_bounded acts r r' Hi He). lia.
  - intros Hs. pose proof (stuck_idle r I Hs) as Hid. split_and!; [done| |].
    + destruct (sd_lock _ _ (ti_steady r I)) as [[_ ?]|(g & E & _)]; [done|]. by rewrite (proj1 Hid) in E.
    + intros g. by apply idle_settled.
Qed.

Definition g80 : Grid := mkGrid 80 24 0 0.
Definition g120 : Grid := mkGrid 120 50 0 0.
Definition g200 : Grid := mkGrid 200 30 0 0.

(** Two clients, each with an offer, and the settle and the debounce that follow. *)
Definition two_offers : list Action :=
  [ACall (CallAdd 1 false); AStep 0; ACall (CallOffer 1 g120); AStep 1; AStep 1;
   AFire true false false; ABody; ABody; ABody; ABody; ABody;
   ACall (CallAdd 2 false); AStep 2; AStep 2; ACall (CallOffer 2 g200); AStep 3;
   AFire true true true; ABody; ABody; ABody; ABody; ABody; ABody; ABody; AFire true true true; ABody].

Lemma sizes_settle_witness :
  exists r, exec two_offers (resize_new false (Some g80)) = Some r /\ idle r /\ pty r = Some (mkGrid 120 30 0 0).
Proof.
  destruct (exec two_offers (resize_new false (Some g80))) as [r|] eqn:E; [|vm_compute in E; congruence].
  exists r. split; [reflexivity|].
  destruct (sizes_settle r) as [_ H].
  - apply (exec_tidy two_offers (resize_new false (Some g80)) r); [apply reach_new| |exact E].
    vm_compute. repeat split; repeat constructor; try (right; right; reflexivity); left; reflexivity.
  - destruct H as (Hi & _ & Hp).
    + apply idleb_stuck. vm_compute in E. injection E as <-. reflexivity.
    + split; [exact Hi|]. apply Hp. vm_compute in E. injection E as <-. reflexivity.
Defined.

(** ** How a size is stranded *)

Definition apply_all (i : nat) : list Action := repeat (AStep i) 6.
Definition fire_all : list Action := AFire true true true :: repeat ABody 5.
Definition g80_short : Grid := mkGrid 80 23 0 0.

(** An override lands during a settle: the settle's timer then quotes a generation that has passed, its
    latch stays, and no later offer arms the debounce. *)
Definition override_in_settle : list Action :=
  [ACall (CallAdd 1 false); AStep 0; ACall (CallAdd 2 false); AStep 1; AStep 1;
   ACall (CallOverride g200)] ++ repeat (AStep 2) 6 ++
  [AFire true true true; ABody; ABody; ABody; ACall (CallOffer 1 g120); AStep 3].

(** Two members offer at once, and the older decision arms last. *)
Definition inverted_arms : list Action :=
  [ACall (CallOffer 1 g120); ACall (CallOffer 2 g200); AStep 0; AStep 1; AStep 1; AStep 0;
   AFire true true true; ABody].

(** Two members that do not vote hold the pane, and the smaller leaves. *)
Definition passive_leaver : list Action :=
  [ACall (CallAdd 1 true); AStep 0; ACall (CallAdd 2 true); AStep 1;
   ACall (CallOffer 1 g80_short); AStep 2; AStep 2; ACall (CallOffer 2 g120); AStep 3; AStep 3] ++ fire_all ++
  [AFire true true true; ABody; ACall (CallRemove 1); AStep 4].

(** The only voter leaves the pane to a member that does not vote. *)
Definition last_voter_leaves : list Action :=
  [ACall (CallAdd 1 false); AStep 0; ACall (CallAdd 2 true); AStep 1;
   ACall (CallOffer 1 g200); AStep 2; AStep 2; ACall (CallOffer 2 g120); AStep 3; AStep 3] ++ fire_all ++
  [AFire true true true; ABody; ACall (CallRemove 1); AStep 4].

(** A client settles at exactly the size a redraw has shrunk the terminal to. *)
Definition jiggle_coincides : list Action :=
  [ACall (CallAdd 1 false); AStep 0; ACall (CallRedraw true); AStep 1;
   ACall (CallOffer 1 g80_short); AStep 2; AStep 2; AFire true true true; ABody; ABody; AStep 1].

(** Two redraws overlap. *)
Definition jiggles_overlap : list Action :=
  [ACall (CallAdd 1 false); AStep 0; ACall (CallOffer 1 g80); AStep 1; AStep 1; AFire true true true; ABody; ABody;
   ACall (CallRedraw true); ACall (CallRedraw true); AStep 2; AStep 3; AStep 2; AStep 3].

(** each condition under which sizes settle is needed.  Six runs, one for each, end with nothing
    left to do, no timer armed, and a terminal that is not at the size the fold resolves to: an override
    during a settle; arms that overtake each other; a departure that moves the grid of a pane no voter
    holds; the departure of the last voter; a redraw's shrunk size that a client happens to want; two
    redraws at once. *)
Theorem sizes_can_be_stranded :
  Forall (fun '(passive, actions) =>
    exists r g, exec actions (resize_new passive (Some g80)) = Some r /\
      (forall a, internal a -> act a r = None) /\ target (fold_state r) = Some g /\ pty r <> Some g)
  [(false, override_in_settle); (false, inverted_arms); (true, passive_leaver); (false, last_voter_leaves);
   (false, jiggle_coincides); (false, jiggles_overlap)].
Proof.
  repeat (constructor; [do 2 eexists; split; [vm_compute; reflexivity|];
    split; [apply idleb_stuck; reflexivity|]; split; [vm_compute; reflexivity|vm_compute; congruence]|]).
  constructor.
Qed.
