(* ===== verification/Detached.v ===== *)
(** * Detached: the store of panes whose client has left

    Models [slopdesk-hostserver/src/detached.rs] and [deadline.rs], and the rules of
    [slopdesk-muxsession/src/detach_retention.rs] they apply.  A pane is parked until it is claimed, its
    time runs out, it makes room for another, its shell exits, or the daemon stops.  A [Sec] is what one
    thread does under one lock: the map's removal and the wheel's cancellation are separate sections, as
    they are in the code.

    A hash map is iterated in an order of its own, so [iter] is any order of the entries; stamps are
    compared as [total_cmp] keys, through [seconds], which never reverses two instants. *)

From stdpp Require Import gmap sorting.
From S2P Require Import Prelude BTree.

(** ** The rules: [detach_retention.rs] *)

Record Occupant : Type := mkOccupant { o_position : nat; same_session : bool }.
Record InsertVerdict : Type := mkInsert { victim : option nat; idempotent : bool; displace : bool }.

(** [Iterator::min_by] keeps the first of equals. *)
Definition min_step (best : option (nat * Z)) (x : nat * Z) : option (nat * Z) :=
  match best with None => Some x | Some b => if x.2 <? b.2 then Some x else best end.

Definition enumerate (stamps : list Z) : list (nat * Z) := zip (seq 0 (length stamps)) stamps.

Definition oldest (stamps : list Z) (skip : option nat) : option nat :=
  fst <$> foldl min_step None (filter (fun p => Some p.1 <> skip) (enumerate stamps)).

Definition insert_verdict (stamps : list Z) (occupant : option Occupant) (cap : option nat) : InsertVerdict :=
  match occupant with
  | Some (mkOccupant _ true) => mkInsert None true false
  | _ =>
    let displaced := o_position <$> occupant in
    let displace := bool_decide (is_Some displaced) in
    match cap with
    | None => mkInsert None false displace
    | Some limit =>
      if (length stamps - (if displace then 1 else 0) <? limit)%nat then mkInsert None false displace
      else mkInsert (oldest stamps displaced) false displace
    end
  end.

Inductive TtlChoice : Type := Arm | Cancel | LeaveAlone.
Record TakeVerdict : Type := mkTake { won : bool; ttl_choice : TtlChoice; reap_dead_child : bool }.

Definition take (present child_exited : bool) : TakeVerdict :=
  if present then mkTake true Cancel child_exited else mkTake false LeaveAlone false.

Definition ttl_on_insert (idempotent has_ttl : bool) : TtlChoice :=
  if idempotent || negb has_ttl then LeaveAlone else Arm.

(** ** The wheel: [deadline.rs] *)

Record Armed : Type := mkArmed {
  queue : gset (Z * Z);       (* fires-at and id; every callback is the eviction of its id *)
  filed : gmap Z Z;
  stopping : bool;
}.

Definition armed_new : Armed := mkArmed ∅ ∅ false.

Definition arm (w : Armed) (now id after : Z) : Armed :=
  if stopping w then w
  else
    let at_ := now + after in
    let kept := match filed w !! id with Some previous => queue w ∖ {[(previous, id)]} | None => queue w end in
    mkArmed ({[(at_, id)]} ∪ kept) (<[id := at_]> (filed w)) false.

Definition cancel (w : Armed) (id : Z) : Armed :=
  match filed w !! id with
  | None => w
  | Some at_ => mkArmed (queue w ∖ {[(at_, id)]}) (delete id (filed w)) (stopping w)
  end.

Definition stop (w : Armed) : Armed := mkArmed ∅ ∅ true.

(** The head of the queue once it is due: what the thread takes before it runs the callback. *)
Definition due (w : Armed) (now : Z) (p : Z * Z) : Prop :=
  p ∈ queue w /\ p.1 <= now /\ set_Forall (fun q => p.1 < q.1 \/ p.1 = q.1 /\ p.2 <= q.2) (queue w).
Definition take_due (w : Armed) (p : Z * Z) : Armed :=
  mkArmed (queue w ∖ {[p]}) (delete p.2 (filed w)) (stopping w).

(** ** The store *)

Record Pane : Type := mkPane { pane_id : Z; slot : Z }.
Definition same_pane (a b : Pane) : bool := slot a =? slot b.

(** [park] counts the insertions, so that two stays of one pane are told apart; [ttl] is what the
    insertion asked for.  No step reads either. *)
Record Entry : Type := mkEntry { pane : Pane; detached_at : Z; park : nat; ttl : option Z }.

Inductive Outcome : Type := Claimed | Reaped | Removed | Evicted | MadeRoom | Displaced | Drained | Relinquished.

Inductive Sec : Type :=
| DInsert (p : Pane) (ttl : option Z)
| DArm (id after : Z)
| DCancel (id : Z)
| DReapDisplaced (e : Entry)
| DKill (e : Entry)
| DEvicted (e : Entry)
| DClaim (id : Z)
| DAskExit (e : Entry)
| DRemove (id : Z)
| DEvict (id : Z)
| DDrain
| DRelinquishAll
| DRelinquish (e : Entry)
| DStop.

Record Store : Type := mkStore {
  held : gmap Z Entry;
  wheel : Armed;
  now : Z;
  exited : gset Z;              (* the slots whose child has exited *)
  watched : gset Z;             (* the slots that have members *)
  parks : nat;
  ended : list (nat * Outcome); (* each stay that ended, and how *)
  killed : list (nat * Z);      (* each shutdown: the stay it ends and the slot *)
  told : list nat;              (* the stays the eviction observer was told of *)
  firing : list Sec;            (* what the wheel's thread is running *)
  calls : list (list Sec);
}.

Definition store_new : Store := mkStore ∅ armed_new 0 ∅ ∅ 0 [] [] [] [] [].

Definition with_held (s : Store) h e := mkStore h (wheel s) (now s) (exited s) (watched s) (parks s) e (killed s)
  (told s) (firing s) (calls s).
Definition with_park (s : Store) h n e := mkStore h (wheel s) (now s) (exited s) (watched s) n e (killed s)
  (told s) (firing s) (calls s).
Definition with_wheel (s : Store) w := mkStore (held s) w (now s) (exited s) (watched s) (parks s) (ended s)
  (killed s) (told s) (firing s) (calls s).
Definition with_world (s : Store) n x w := mkStore (held s) (wheel s) n x w (parks s) (ended s) (killed s)
  (told s) (firing s) (calls s).
Definition with_killed (s : Store) k := mkStore (held s) (wheel s) (now s) (exited s) (watched s) (parks s)
  (ended s) k (told s) (firing s) (calls s).
Definition with_told (s : Store) t := mkStore (held s) (wheel s) (now s) (exited s) (watched s) (parks s)
  (ended s) (killed s) t (firing s) (calls s).
Definition with_ended (s : Store) e := mkStore (held s) (wheel s) (now s) (exited s) (watched s) (parks s)
  e (killed s) (told s) (firing s) (calls s).
Definition with_firing (s : Store) f := mkStore (held s) (wheel s) (now s) (exited s) (watched s) (parks s)
  (ended s) (killed s) (told s) f (calls s).
Definition with_calls (s : Store) c := mkStore (held s) (wheel s) (now s) (exited s) (watched s) (parks s)
  (ended s) (killed s) (told s) (firing s) c.

Section Store.
Context (iter : gmap Z Entry -> list (Z * Entry)) (seconds : Z -> Z) (cap : option nat).

(** [Iterator::position]. *)
Fixpoint position {A} (f : A -> bool) (l : list A) : option nat :=
  match l with [] => None | x :: l => if f x then Some 0%nat else S <$> position f l end.

Definition occupant_of (entries : list (Z * Entry)) (p : Pane) : option Occupant :=
  i ← position (fun x => x.1 =? pane_id p) entries;
  Some (mkOccupant i (match entries !! i with Some x => same_pane (pane x.2) p | None => false end)).

(** The locked half of [insert], and the sections that follow it. *)
Definition insert (p : Pane) (t : option Z) (s : Store) : Store * list Sec :=
  let id := pane_id p in
  let entries := iter (held s) in
  let stamps := map (fun x => seconds (detached_at x.2)) entries in
  let verdict := insert_verdict stamps (occupant_of entries p) cap in
  if idempotent verdict then (s, [])
  else
    let gone := if displace verdict then held s !! id else None in
    let h := if displace verdict then delete id (held s) else held s in
    let doomed := i ← victim verdict; fst <$> entries !! i in
    let out := doomed ≫= fun d => h !! d in
    let h := match doomed with Some d => delete d h | None => h end in
    let e := mkEntry p (now s) (parks s) t in
    let ended' := (match gone with Some g => [(park g, Displaced)] | None => [] end) ++
                  (match out with Some v => [(park v, MadeRoom)] | None => [] end) in
    (with_park s (<[id := e]> h) (S (parks s)) (ended s ++ ended'),
     (match gone with Some g => [DCancel id; DReapDisplaced g] | None => [] end) ++
     (match ttl_on_insert (idempotent verdict) (bool_decide (is_Some t)), t with
      | Arm, Some after => [DArm id after]
      | _, _ => []
      end) ++
     (match out with Some v => [DCancel (pane_id (pane v)); DEvicted v; DKill v] | None => [] end)).

Definition claim (id : Z) (s : Store) : Store * list Sec :=
  let entry := held s !! id in
  (with_held s (delete id (held s)) (ended s),
   DCancel id :: match entry with Some e => [DAskExit e] | None => [] end).

Definition ask_exit (e : Entry) (s : Store) : Store * list Sec :=
  let verdict := take true (bool_decide (slot (pane e) ∈ exited s)) in
  if reap_dead_child verdict then (with_ended s (ended s ++ [(park e, Reaped)]), [DKill e])
  else (with_ended s (ended s ++ [(park e, Claimed)]), []).

Definition remove (id : Z) (s : Store) : Store * list Sec :=
  let entry := held s !! id in
  let verdict := take (bool_decide (is_Some entry)) false in
  (with_held s (delete id (held s))
     (ended s ++ match entry with Some e => [(park e, Removed)] | None => [] end),
   match ttl_choice verdict with Cancel => [DCancel id] | _ => [] end).

Definition evict (id : Z) (s : Store) : Store * list Sec :=
  let entry := held s !! id in
  let verdict := take (bool_decide (is_Some entry)) false in
  (with_held s (delete id (held s))
     (ended s ++ match entry with Some e => [(park e, Evicted)] | None => [] end),
   match entry with
   | Some e => (match ttl_choice verdict with Cancel => [DCancel id] | _ => [] end) ++ [DEvicted e; DKill e]
   | None => []
   end).

(** [take_all], and what each of its two callers does with an entry. *)
Definition take_all (how : Outcome) (s : Store) : list (Z * Entry) * Store :=
  let entries := iter (held s) in
  (entries, with_held s ∅ (ended s ++ map (fun x => (park x.2, how)) entries)).

Definition drain_all (s : Store) : Store * list Sec :=
  let '(entries, s) := take_all Drained s in
  (s, flat_map (fun x => [DCancel (pane_id (pane x.2)); DKill x.2]) entries).

Definition relinquish_all (s : Store) : Store * list Sec :=
  let '(entries, s) := take_all Relinquished s in
  (s, flat_map (fun x => [DCancel (pane_id (pane x.2)); DRelinquish x.2]) entries).

Definition kill (e : Entry) (s : Store) : Store := with_killed s (killed s ++ [(park e, slot (pane e))]).

Definition run_sec (sec : Sec) (s : Store) : Store * list Sec :=
  match sec with
  | DInsert p t => insert p t s
  | DArm id after => (with_wheel s (arm (wheel s) (now s) id after), [])
  | DCancel id => (with_wheel s (cancel (wheel s) id), [])
  | DReapDisplaced e => (if bool_decide (slot (pane e) ∈ watched s) then s else kill e s, [])
  | DKill e => (kill e s, [])
  | DEvicted e => (with_told s (told s ++ [park e]), [])
  | DClaim id => claim id s
  | DAskExit e => ask_exit e s
  | DRemove id => remove id s
  | DEvict id => evict id s
  | DDrain => drain_all s
  | DRelinquishAll => relinquish_all s
  | DRelinquish _ => (s, [])
  | DStop => (with_wheel s (stop (wheel s)), [])
  end.

Inductive Action : Type :=
| ACall (sec : Sec)
| AStep (i : nat)
| AFire (at_ id : Z)
| AFiring
| ATick (n : Z)
| AExit (slot : Z)
| AWatch (slot : Z) (members : bool).

(** What a caller may call: the store's methods. *)
Definition method (sec : Sec) : Prop :=
  match sec with
  | DInsert _ _ | DClaim _ | DRemove _ | DEvict _ | DDrain | DRelinquishAll | DStop => True
  | _ => False
  end.
#[export] Instance method_dec sec : Decision (method sec).
Proof. destruct sec; cbn; apply _. Defined.
#[export] Instance due_dec w n p : Decision (due w n p).
Proof. unfold due. apply _. Defined.

Definition act (a : Action) (s : Store) : option Store :=
  match a with
  | ACall sec => if bool_decide (method sec) then Some (with_calls s (calls s ++ [[sec]])) else None
  | AStep i =>
    match calls s !! i with
    | Some (sec :: rest) =>
      let '(s', more) := run_sec sec s in Some (with_calls s' (<[i := more ++ rest]> (calls s')))
    | _ => None
    end
  | AFire at_ id =>
    match firing s with
    | [] => if bool_decide (due (wheel s) (now s) (at_, id)) && negb (stopping (wheel s))
            then Some (with_firing (with_wheel s (take_due (wheel s) (at_, id))) [DEvict id]) else None
    | _ => None
    end
  | AFiring =>
    match firing s with
    | sec :: rest => let '(s', more) := run_sec sec s in Some (with_firing s' (more ++ rest))
    | [] => None
    end
  | ATick n => if now s <=? n then Some (with_world s n (exited s) (watched s)) else None
  | AExit sl => Some (with_world s (now s) ({[sl]} ∪ exited s) (watched s))
  | AWatch sl members =>
    Some (with_world s (now s) (exited s) (if members then {[sl]} ∪ watched s else watched s ∖ {[sl]}))
  end.

Inductive reachable (ok : Action -> Store -> Prop) : Store -> Prop :=
| reach_new : reachable ok store_new
| reach_act s a s' : reachable ok s -> ok a s -> act a s = Some s' -> reachable ok s'.
End Store.

Definition pending (s : Store) : list Sec := firing s ++ concat (calls s).

(** ** Every stay ends once *)

Definition parks_of (m : gmap Z Entry) : list nat := map (fun x => park x.2) (map_to_list m).

(** The stays that have been taken out of the map and not yet decided. *)
Definition asking (P : list Sec) : list nat :=
  omap (fun sec => match sec with DAskExit e => Some (park e) | _ => None end) P.
Definition doomed (P : list Sec) : list nat :=
  omap (fun sec => match sec with DKill e | DReapDisplaced e => Some (park e) | _ => None end) P.
Definition condemned (P : list Sec) : list nat :=
  omap (fun sec => match sec with DKill e => Some (park e) | _ => None end) P.
Definition telling (P : list Sec) : list nat :=
  omap (fun sec => match sec with DEvicted e => Some (park e) | _ => None end) P.

Definition mortal (o : Outcome) : bool :=
  match o with Claimed | Removed | Relinquished => false | _ => true end.
Definition announced (o : Outcome) : bool :=
  match o with Evicted | MadeRoom => true | _ => false end.
Definition with_outcome (f : Outcome -> bool) (l : list (nat * Outcome)) : list nat :=
  (filter (fun x => f x.2 = true) l).*1.
#[local] Arguments with_outcome : simpl never.

Definition slain (o : Outcome) : bool := mortal o && match o with Displaced => false | _ => true end.

(** A displaced pane that still has members is left alive, so a kill is owed to the [slain] at least. *)
Record accounted (s : Store) (P : list Sec) : Prop := {
  ac_stays : parks_of (held s) ++ (ended s).*1 ++ asking P ≡ₚ seq 0 (parks s);
  ac_killed : (killed s).*1 ++ doomed P ⊆+ with_outcome mortal (ended s);
  ac_slain : with_outcome slain (ended s) ⊆+ (killed s).*1 ++ condemned P;
  ac_told : told s ++ telling P ≡ₚ with_outcome announced (ended s);
}.

Lemma with_outcome_app f a b : with_outcome f (a ++ b) = with_outcome f a ++ with_outcome f b.
Proof. unfold with_outcome. by rewrite filter_app, fmap_app. Qed.

Lemma parks_delete m k e : m !! k = Some e -> parks_of m ≡ₚ park e :: parks_of (delete k m).
Proof.
  intros H. unfold parks_of. rewrite <- (insert_delete_id m k e H) at 1.
  rewrite map_to_list_insert by apply lookup_delete_eq. done.
Qed.

Lemma parks_insert m k e : m !! k = None -> parks_of (<[k := e]> m) ≡ₚ park e :: parks_of m.
Proof. intros H. unfold parks_of. by rewrite map_to_list_insert. Qed.

Lemma accounted_perm s P Q : P ≡ₚ Q -> accounted s P -> accounted s Q.
Proof.
  intros HPQ [H1 H2 H3 H4]. constructor.
  - rewrite <- H1. unfold asking. by rewrite HPQ.
  - rewrite <- H2. unfold doomed. by rewrite HPQ.
  - rewrite H3. unfold condemned. by rewrite HPQ.
  - rewrite <- H4. unfold telling. by rewrite HPQ.
Qed.

Lemma accounted_ext s s' P :
  accounted s P -> held s' = held s -> ended s' = ended s -> parks s' = parks s -> killed s' = killed s ->
  told s' = told s -> accounted s' P.
Proof. intros [H1 H2 H3 H4] E1 E2 E3 E4 E5. constructor; by rewrite ?E1, ?E2, ?E3, ?E4, ?E5. Qed.

(** A section that takes part in none of the three counts. *)
Definition silent (sec : Sec) : bool :=
  match sec with DAskExit _ | DKill _ | DReapDisplaced _ | DEvicted _ => false | _ => true end.

Lemma accounted_silent s P Q :
  Forall (fun x => silent x = true) Q -> accounted s (Q ++ P) <-> accounted s P.
Proof.
  intros HQ. assert (E : asking (Q ++ P) = asking P /\ doomed (Q ++ P) = doomed P /\
    condemned (Q ++ P) = condemned P /\ telling (Q ++ P) = telling P).
  { unfold asking, doomed, condemned, telling. induction HQ as [|sec Q Hs _ IH]; [done|]. destruct sec; done || exact IH. }
  destruct E as (E1 & E2 & E3 & E4). split; intros [H1 H2 H3 H4]; constructor; by rewrite ?E1, ?E2, ?E3, ?E4 in *.
Qed.

Lemma asking_app P Q : asking (P ++ Q) = asking P ++ asking Q.
Proof. apply omap_app. Qed.
Lemma doomed_app P Q : doomed (P ++ Q) = doomed P ++ doomed Q.
Proof. apply omap_app. Qed.
Lemma condemned_app P Q : condemned (P ++ Q) = condemned P ++ condemned Q.
Proof. apply omap_app. Qed.
Lemma telling_app P Q : telling (P ++ Q) = telling P ++ telling Q.
Proof. apply omap_app. Qed.

Lemma grown (X A l k : list nat) : X ⊆+ A -> k ⊆+ l -> k ++ X ⊆+ A ++ l.
Proof. intros H1 H2. rewrite (Permutation_app_comm A l). by apply submseteq_app. Qed.

(** Stays that leave the map as they end. *)
Lemma accounted_end s s' P (outs : list (nat * Outcome)) more :
  accounted s P -> parks_of (held s) ≡ₚ outs.*1 ++ parks_of (held s') -> ended s' = ended s ++ outs ->
  parks s' = parks s -> killed s' = killed s -> told s' = told s -> asking more = [] ->
  doomed more ⊆+ with_outcome mortal outs -> with_outcome slain outs ⊆+ condemned more ->
  telling more ≡ₚ with_outcome announced outs ->
  accounted s' (more ++ P).
Proof.
  intros [H1 H2 H3 H4] Hh He Hp Hk Ht Ha Hd Hs Htl. constructor.
  - rewrite He, Hp, <- H1, Hh, fmap_app, asking_app, Ha. solve_Permutation.
  - rewrite He, Hk, with_outcome_app, doomed_app.
    rewrite (Permutation_app_swap_app _ (doomed more)). by apply grown.
  - rewrite He, Hk, with_outcome_app, condemned_app, (Permutation_app_comm (with_outcome slain (ended s))).
    rewrite (Permutation_app_swap_app _ (condemned more)). by apply submseteq_app.
  - rewrite He, Ht, with_outcome_app, telling_app, <- H4, Htl. solve_Permutation.
Qed.

Lemma accounted_park s s' P id e :
  accounted s P -> held s !! id = None -> held s' = <[id := e]> (held s) -> park e = parks s ->
  parks s' = S (parks s) -> ended s' = ended s -> killed s' = killed s -> told s' = told s -> accounted s' P.
Proof.
  intros [H1 H2 H3 H4] Hn Hh Hp Hps He Hk Ht. constructor; rewrite ?He, ?Hk, ?Ht; [|done..].
  rewrite Hh, Hps, seq_S, <- H1, parks_insert, Hp by done. cbn. solve_Permutation.
Qed.

Section Accounts.
Context (iter : gmap Z Entry -> list (Z * Entry)) (seconds : Z -> Z) (cap : option nat).
Hypothesis iter_perm : forall m, iter m ≡ₚ map_to_list m.

Lemma elem_of_iter m k e : (k, e) ∈ iter m <-> m !! k = Some e.
Proof. by rewrite iter_perm, elem_of_map_to_list. Qed.

Lemma position_none {A} (f : A -> bool) l : position f l = None <-> Forall (fun x => f x = false) l.
Proof.
  induction l as [|x l IH]; cbn; [by split|]. rewrite Forall_cons, <- IH. destruct (f x); cbn; [naive_solver|].
  destruct (position f l); cbn; naive_solver.
Qed.

Lemma position_some {A} (f : A -> bool) l i : position f l = Some i -> exists x, l !! i = Some x /\ f x = true.
Proof.
  revert i. induction l as [|x l IH]; intros i; cbn; [done|]. destruct (f x) eqn:E.
  - intros [= <-]. eauto.
  - destruct (position f l) as [j|]; [|done]. cbn. intros [= <-]. by apply IH.
Qed.

(** The entry under the pane's own id, if there is one, is the occupant. *)
Lemma occupant_spec m p :
  match occupant_of (iter m) p with
  | None => m !! pane_id p = None
  | Some o => exists e, iter m !! o_position o = Some (pane_id p, e) /\ m !! pane_id p = Some e /\
                same_session o = same_pane (pane e) p
  end.
Proof.
  unfold occupant_of. destruct (position _ (iter m)) as [i|] eqn:E; cbn.
  - apply position_some in E as ([k e] & Hi & Hk). cbn in Hk. apply Z.eqb_eq in Hk as ->.
    exists e. rewrite Hi. split_and!; [done| |done]. apply elem_of_iter, list_elem_of_lookup. eauto.
  - apply position_none in E. rewrite Forall_forall in E. destruct (m !! pane_id p) as [e|] eqn:Hm; [|done].
    apply elem_of_iter in Hm. specialize (E _ Hm). cbn in E. by rewrite Z.eqb_refl in E.
Qed.

Lemma verdict_displace stamps o limit :
  idempotent (insert_verdict stamps o limit) = false ->
  displace (insert_verdict stamps o limit) = bool_decide (is_Some o).
Proof.
  unfold insert_verdict. destruct o as [[i [] ]|]; cbn; [done|..]; destruct limit as [n|]; cbn; try done;
    intros _; by case_match.
Qed.

Lemma accounted_insert p t s P :
  accounted s P -> accounted (insert iter seconds cap p t s).1 ((insert iter seconds cap p t s).2 ++ P).
Proof.
  intros A. unfold insert. set (verdict := insert_verdict _ _ _).
  destruct (idempotent verdict) eqn:Hi; [done|].
  pose proof (verdict_displace _ _ _ Hi) as Hd. fold verdict in Hd. pose proof (occupant_spec (held s) p) as Ho.
  set (gone := if displace verdict then held s !! pane_id p else None).
  set (h1 := if displace verdict then delete (pane_id p) (held s) else held s).
  assert (Hg : h1 !! pane_id p = None /\
    parks_of (held s) ≡ₚ match gone with Some g => [park g] | None => [] end ++ parks_of h1).
  { unfold h1, gone. rewrite Hd. destruct (occupant_of _ p) as [o|].
    - destruct Ho as (e & _ & He & _). cbn. rewrite He. split; [apply lookup_delete_eq|]. by apply parks_delete.
    - cbn. done. }
  destruct Hg as [Hn Hg]. clearbody gone h1. set (d := i ← victim verdict; fst <$> iter (held s) !! i).
  set (out := d ≫= fun k => h1 !! k). set (h2 := match d with Some k => delete k h1 | None => h1 end).
  assert (Hv : h2 !! pane_id p = None /\
    parks_of h1 ≡ₚ match out with Some v => [park v] | None => [] end ++ parks_of h2).
  { unfold out, h2. destruct d as [k|]; cbn; [|done]. split.
    - destruct (decide (k = pane_id p)) as [->|]; [apply lookup_delete_eq|by rewrite lookup_delete_ne].
    - destruct (h1 !! k) as [v|] eqn:E; [by apply parks_delete|]. by rewrite delete_id. }
  destruct Hv as [Hn2 Hv]. clearbody out h2 d. cbn [fst snd].
  set (outs := (match gone with Some g => [(park g, Displaced)] | None => [] end) ++
               (match out with Some v => [(park v, MadeRoom)] | None => [] end)).
  set (more := _ ++ _ ++ _). apply (accounted_park (with_held s h2 (ended s ++ outs)) _ _ (pane_id p)
    (mkEntry p (now s) (parks s) t)); try done.
  apply (accounted_end s _ _ outs); try done.
  - cbn. rewrite Hg, Hv. unfold outs. destruct gone, out; done.
  - unfold more. rewrite !asking_app. by destruct gone, (ttl_on_insert _ _), t, out.
  - unfold more, outs. rewrite !doomed_app. by destruct gone, (ttl_on_insert _ _), t, out.
  - unfold more, outs. rewrite !condemned_app. destruct gone, (ttl_on_insert _ _), t, out; try done;
      by apply submseteq_cons.
  - unfold more, outs. rewrite !telling_app. by destruct gone, (ttl_on_insert _ _), t, out.
Qed.

Lemma parks_lookup m id :
  parks_of m ≡ₚ match m !! id with Some e => [park e] | None => [] end ++ parks_of (delete id m).
Proof. destruct (m !! id) as [e|] eqn:E; [by apply parks_delete|]. by rewrite delete_id. Qed.

Lemma accounted_claim id s P : accounted s P -> accounted (claim id s).1 ((claim id s).2 ++ P).
Proof.
  intros [H1 H2 H3 H4]. unfold claim. cbn [fst snd]. pose proof (parks_lookup (held s) id) as Hp.
  destruct (held s !! id) as [e|]; constructor; cbn in *; try done; rewrite <- H1, Hp; solve_Permutation.
Qed.

Lemma accounted_ask e s P :
  accounted s (DAskExit e :: P) -> accounted (ask_exit e s).1 ((ask_exit e s).2 ++ P).
Proof.
  intros [H1 H2 H3 H4]. unfold ask_exit, take. cbn [reap_dead_child].
  case_bool_decide; constructor; cbn in *; rewrite ?with_outcome_app, ?fmap_app; cbn.
  - rewrite <- H1. solve_Permutation.
  - rewrite <- Permutation_middle. by apply (grown _ _ [park e] [park e]).
  - rewrite <- Permutation_middle, (Permutation_app_comm _ [park e]). by apply submseteq_skip.
  - by rewrite app_nil_r.
  - rewrite <- H1. solve_Permutation.
  - by rewrite app_nil_r.
  - by rewrite app_nil_r.
  - by rewrite app_nil_r.
Qed.

Lemma accounted_remove id s P : accounted s P -> accounted (remove id s).1 ((remove id s).2 ++ P).
Proof.
  intros A. unfold remove. pose proof (parks_lookup (held s) id) as Hp.
  apply (accounted_end s _ _ (match held s !! id with Some e => [(park e, Removed)] | None => [] end));
    try done; cbn; destruct (held s !! id) as [e|]; done.
Qed.

Lemma accounted_evict id s P : accounted s P -> accounted (evict id s).1 ((evict id s).2 ++ P).
Proof.
  intros A. unfold evict. pose proof (parks_lookup (held s) id) as Hp.
  apply (accounted_end s _ _ (match held s !! id with Some e => [(park e, Evicted)] | None => [] end));
    try done; cbn; destruct (held s !! id) as [e|]; done.
Qed.

Lemma parks_iter m : parks_of m ≡ₚ (map (fun x => park x.2) (iter m)).
Proof. unfold parks_of. by rewrite iter_perm. Qed.

Lemma accounted_drain s P : accounted s P -> accounted (drain_all iter s).1 ((drain_all iter s).2 ++ P).
Proof.
  intros A. unfold drain_all, take_all. cbn [fst snd].
  apply (accounted_end s _ _ (map (fun x => (park x.2, Drained)) (iter (held s)))); try done; cbn.
  - rewrite parks_iter. unfold parks_of. rewrite map_to_list_empty, app_nil_r. by rewrite map_map.
  - induction (iter (held s)); done.
  - unfold with_outcome. induction (iter (held s)) as [|x l IH]; [done|]. cbn. by constructor.
  - unfold with_outcome. induction (iter (held s)) as [|x l IH]; [done|]. cbn. by constructor.
  - induction (iter (held s)) as [|x l IH]; done.
Qed.

Lemma accounted_relinquish s P :
  accounted s P -> accounted (relinquish_all iter s).1 ((relinquish_all iter s).2 ++ P).
Proof.
  intros A. unfold relinquish_all, take_all. cbn [fst snd].
  apply (accounted_end s _ _ (map (fun x => (park x.2, Relinquished)) (iter (held s)))); try done; cbn.
  - rewrite parks_iter. unfold parks_of. rewrite map_to_list_empty, app_nil_r. by rewrite map_map.
  - induction (iter (held s)); done.
  - induction (iter (held s)) as [|x l IH]; done.
  - induction (iter (held s)) as [|x l IH]; [done|]. cbn. exact IH.
  - induction (iter (held s)) as [|x l IH]; done.
Qed.
Lemma accounted_run sec s P :
  accounted s (sec :: P) ->
  accounted (run_sec iter seconds cap sec s).1 ((run_sec iter seconds cap sec s).2 ++ P).
Proof.
  intros A. assert (Hs : silent sec = true -> accounted s P).
  { intros H. apply (accounted_silent s P [sec]); [by repeat constructor|done]. }
  destruct sec; cbn [run_sec].
  - by apply accounted_insert, Hs.
  - apply (accounted_ext s); try done. by apply Hs.
  - apply (accounted_ext s); try done. by apply Hs.
  - destruct A as [H1 H2 H3 H4]. cbn [fst snd app]. case_bool_decide; constructor; cbn in *; try done.
    + rewrite <- H2. apply submseteq_app; [done|]. by apply submseteq_cons.
    + rewrite fmap_app, <- app_assoc. done.
    + rewrite fmap_app, <- app_assoc, H3. by apply submseteq_app, submseteq_cons.
  - destruct A as [H1 H2 H3 H4]. constructor; cbn in *; try done; by rewrite fmap_app, <- app_assoc.
  - destruct A as [H1 H2 H3 H4]. constructor; cbn in *; try done. rewrite <- app_assoc. done.
  - by apply accounted_claim, Hs.
  - by apply accounted_ask.
  - by apply accounted_remove, Hs.
  - by apply accounted_evict, Hs.
  - by apply accounted_drain, Hs.
  - by apply accounted_relinquish, Hs.
  - by apply Hs.
  - apply (accounted_ext s); try done. by apply Hs.
Qed.

Lemma sec_frame sec s :
  firing (run_sec iter seconds cap sec s).1 = firing s /\ calls (run_sec iter seconds cap sec s).1 = calls s.
Proof.
  destruct sec; cbn [run_sec]; unfold insert, claim, ask_exit, remove, evict, drain_all, relinquish_all, take_all;
    repeat (case_match; cbn); done.
Qed.

Lemma accounted_act a s s' : accounted s (pending s) -> act iter seconds cap a s = Some s' -> accounted s' (pending s').
Proof.
  intros A Ha. destruct a as [sec|i|at_ id| |n|sl|sl m]; cbn in Ha.
  - case_bool_decide as Hm; [|done]. injection Ha as <-.
    apply (accounted_perm _ ([sec] ++ pending s)).
    { unfold pending. cbn. rewrite concat_app. cbn. solve_Permutation. }
    apply (accounted_silent _ _ [sec]); [by destruct sec; repeat constructor|]. by apply (accounted_ext s).
  - destruct (calls s !! i) as [[|sec rest]|] eqn:Hi; try done.
    pose proof (sec_frame sec s) as [Ef Ec]. pose proof (accounted_run sec s) as Hr.
    destruct (run_sec iter seconds cap sec s) as [s1 more]. injection Ha as <-. cbn [fst snd] in *.
    destruct (concat_thread (calls s) i sec rest Hi) as (others & Hp & Hp').
    apply (accounted_perm _ (more ++ (firing s ++ rest ++ others))).
    { unfold pending. cbn. rewrite Ef, Ec, Hp'. solve_Permutation. }
    apply (accounted_ext s1); try done. apply Hr, (accounted_perm _ (pending s)); [|done].
    unfold pending. rewrite Hp. solve_Permutation.
  - destruct (firing s) eqn:Ef; [|done]. destruct (_ && _); [|done]. injection Ha as <-.
    apply (accounted_perm _ ([DEvict id] ++ pending s)).
    { unfold pending. cbn. by rewrite Ef. }
    apply (accounted_silent _ _ [DEvict id]); [by repeat constructor|]. by apply (accounted_ext s).
  - destruct (firing s) as [|sec rest] eqn:Ef; [done|]. pose proof (sec_frame sec s) as [_ Ec].
    pose proof (accounted_run sec s) as Hr. destruct (run_sec iter seconds cap sec s) as [s1 more].
    injection Ha as <-. cbn [fst snd] in *.
    apply (accounted_perm _ (more ++ (rest ++ concat (calls s)))).
    { unfold pending. cbn. rewrite Ec. by rewrite app_assoc. }
    apply (accounted_ext s1); try done. apply Hr, (accounted_perm _ (pending s)); [|done].
    unfold pending. by rewrite Ef.
  - destruct (now s <=? n); [|done]. injection Ha as <-. by apply (accounted_ext s).
  - injection Ha as <-. by apply (accounted_ext s).
  - injection Ha as <-. by apply (accounted_ext s).
Qed.

Lemma reachable_accounted ok s : reachable iter seconds cap ok s -> accounted s (pending s).
Proof. induction 1 as [|s a s' _ IH _ Ha]; [done|]. by apply (accounted_act a s). Qed.
End Accounts.

(** ** The cap *)

Section Cap.
Context (iter : gmap Z Entry -> list (Z * Entry)) (seconds : Z -> Z) (limit : nat).
Hypothesis iter_perm : forall m, iter m ≡ₚ map_to_list m.
Hypothesis limit_pos : (0 < limit)%nat.

Lemma enumerate_lookup l i x : (i, x) ∈ enumerate l <-> l !! i = Some x.
Proof.
  unfold enumerate. split.
  - intros [k Hk]%list_elem_of_lookup. apply lookup_zip_Some in Hk as [H1 H2].
    apply lookup_seq in H1 as [-> _]. done.
  - intros H. apply list_elem_of_lookup. exists i. apply lookup_zip_Some. split; [|done].
    apply lookup_seq. split; [done|]. by apply lookup_lt_Some in H.
Qed.

Lemma min_fold l : forall best,
  match foldl min_step best l with
  | Some b => (best = Some b \/ b ∈ l) /\ (forall x, x ∈ l -> b.2 <= x.2) /\ forall b', best = Some b' -> b.2 <= b'.2
  | None => best = None /\ l = []
  end.
Proof.
  induction l as [|x l IH]; intros best; cbn [foldl].
  { destruct best as [b|]; [|done]. split_and!; [by left|by intros x ?%elem_of_nil|by intros b' [= <-]]. }
  specialize (IH (min_step best x)). destruct (foldl min_step (min_step best x) l) as [b|].
  - destruct IH as (Hin & Hall & Hb). destruct best as [b0|]; cbn in *.
    + destruct (Z.ltb_spec x.2 b0.2) as [Hlt|Hlt].
      * pose proof (Hb x eq_refl). split_and!.
        -- right. destruct Hin as [[= <-]|Hin]; [left|by right].
        -- intros y [->|Hy]%elem_of_cons; auto.
        -- intros b' [= <-]. lia.
      * pose proof (Hb b0 eq_refl). split_and!.
        -- destruct Hin as [?|Hin]; [by left|right; by right].
        -- intros y [->|Hy]%elem_of_cons; [lia|auto].
        -- by intros b' [= <-].
    + pose proof (Hb x eq_refl). split_and!.
      * right. destruct Hin as [[= <-]|Hin]; [left|by right].
      * intros y [->|Hy]%elem_of_cons; auto.
      * by intros b' [=].
  - destruct IH as [E _]. by destruct best as [b0|]; cbn in E; [destruct (_ <? _)|].
Qed.

(** The oldest of the entries that stay, and there is one unless only the skipped one is there. *)
Lemma oldest_spec stamps skip :
  match oldest stamps skip with
  | Some i => Some i <> skip /\ exists x, stamps !! i = Some x /\
      forall j y, stamps !! j = Some y -> Some j <> skip -> x <= y
  | None => forall i x, stamps !! i = Some x -> Some i = skip
  end.
Proof.
  unfold oldest. pose proof (min_fold (filter (fun p => Some p.1 <> skip) (enumerate stamps)) None) as H.
  destruct (foldl _ _ _) as [[i x]|]; cbn.
  - destruct H as ([[=]|[Hs Hi]%list_elem_of_filter] & Hall & _). apply enumerate_lookup in Hi.
    split; [done|]. exists x. split; [done|]. intros j y Hj Hne. apply (Hall (j, y)).
    apply list_elem_of_filter. split; [done|by apply enumerate_lookup].
  - destruct H as [_ H]. intros i x Hi. destruct (decide (Some i = skip)) as [|Hne]; [done|].
    assert (Hin : (i, x) ∈ filter (fun p => Some p.1 <> skip) (enumerate stamps))
      by (apply list_elem_of_filter; split; [done|by apply enumerate_lookup]).
    rewrite H in Hin. by apply elem_of_nil in Hin.
Qed.

Lemma length_iter m : length (iter m) = size m.
Proof. by rewrite iter_perm, length_map_to_list. Qed.

Lemma iter_lookup m i k e : iter m !! i = Some (k, e) -> m !! k = Some e.
Proof. intros H. apply (elem_of_iter iter iter_perm), list_elem_of_lookup. eauto. Qed.

Lemma size_delete_in (m : gmap Z Entry) k : is_Some (m !! k) -> size (delete k m) = (size m - 1)%nat.
Proof. intros [x Hx]. rewrite map_size_delete, Hx. cbn. lia. Qed.

(** What an insertion takes out to make room: the oldest of a full store, when nothing is displaced. *)
Lemma insert_victim p s :
  (size (held s) <= limit)%nat ->
  let verdict := insert_verdict (map (fun x => seconds (detached_at x.2)) (iter (held s)))
                   (occupant_of (iter (held s)) p) (Some limit) in
  match victim verdict with
  | Some i => displace verdict = false /\ size (held s) = limit /\ exists k e, iter (held s) !! i = Some (k, e) /\
      held s !! k = Some e /\ forall k' e', held s !! k' = Some e' -> seconds (detached_at e) <= seconds (detached_at e')
  | None => idempotent verdict = true \/ displace verdict = true \/ (size (held s) < limit)%nat
  end.
Proof.
  intros Hsize. set (stamps := map _ _). set (o := occupant_of _ p).
  assert (Hlen : length stamps = size (held s)) by (unfold stamps; by rewrite length_map, length_iter).
  pose proof (occupant_spec iter iter_perm (held s) p) as Ho. fold o in Ho. unfold insert_verdict.
  destruct o as [[i [ ]]|].
  - by left.
  - destruct Ho as (e & _ & He & _). assert (Hpos : (0 < size (held s))%nat).
    { destruct (decide (size (held s) = 0%nat)) as [E|]; [|lia]. apply map_size_empty_inv in E. by rewrite E in He. }
    cbn -[Nat.ltb Nat.sub]. rewrite Hlen. destruct (Nat.ltb_spec (size (held s) - 1) limit) as [_|H]; [|lia]. cbn. by right; left.
  - cbn -[Nat.ltb Nat.sub]. rewrite Hlen. destruct (Nat.ltb_spec (size (held s) - 0) limit) as [H|H].
    + cbn. right; right. lia.
    + cbn. pose proof (oldest_spec stamps None) as Hold. destruct (oldest stamps None) as [i|].
      * destruct Hold as (_ & x & Hx & Hall). split_and!; [done|lia|].
        unfold stamps in Hx. rewrite list_lookup_fmap in Hx. destruct (iter (held s) !! i) as [[k e]|] eqn:Hi; [|done].
        exists k, e. split_and!; [done|by apply (iter_lookup _ i)|]. injection Hx as <-. intros k' e' He'.
        apply (elem_of_iter iter iter_perm) in He'. apply list_elem_of_lookup in He' as [j Hj].
        apply (Hall j); [|done]. unfold stamps. by rewrite list_lookup_fmap, Hj.
      * destruct stamps as [|x l] eqn:E; [cbn in Hlen; lia|]. by specialize (Hold 0%nat x eq_refl).
Qed.

Lemma insert_size p t s :
  (size (held s) <= limit)%nat -> (size (held (insert iter seconds (Some limit) p t s).1) <= limit)%nat.
Proof.
  intros Hs. pose proof (insert_victim p s Hs) as Hv. cbv zeta in Hv. unfold insert.
  pose proof (occupant_spec iter iter_perm (held s) p) as Ho.
  destruct (idempotent _) eqn:Hi; [done|]. rewrite (verdict_displace _ _ _ Hi) in *.
  set (verdict := insert_verdict _ _ _) in *. cbn [fst held with_park]. destruct (victim verdict) as [i|]; cbn.
  - destruct Hv as (Hd & Hfull & k & e & Hik & Hk & _). rewrite Hd, Hik. cbn.
    assert (Hp : size (delete k (held s)) = (limit - 1)%nat) by (rewrite size_delete_in; [lia|eauto]).
    rewrite map_size_insert. destruct (delete k (held s) !! pane_id p); unfold id; lia.
  - destruct (occupant_of (iter (held s)) p) as [o|]; cbn in *.
    + destruct Ho as (e & _ & He & _). rewrite map_size_insert, lookup_delete_eq.
      rewrite size_delete_in by eauto. assert (size (held s) <> 0)%nat; [|unfold Datatypes.id; lia].
      intros H0. apply map_size_empty_inv in H0. by rewrite H0 in He.
    + destruct Hv as [|[|Hv]]; [done..|]. rewrite map_size_insert. destruct (held s !! pane_id p); unfold id; lia.
Qed.

Lemma run_size sec s :
  (size (held s) <= limit)%nat -> (size (held (run_sec iter seconds (Some limit) sec s).1) <= limit)%nat.
Proof.
  intros Hs. assert (Hd : forall id, (size (delete id (held s)) <= limit)%nat).
  { intros id. rewrite map_size_delete. destruct (held s !! id); unfold Datatypes.id; lia. }
  destruct sec; cbn -[insert]; try done; try by rewrite ?map_size_empty; try lia.
  - by apply insert_size.
  - by case_bool_decide.
  - unfold ask_exit. by destruct (reap_dead_child _).
Qed.

Lemma reachable_size ok s : reachable iter seconds (Some limit) ok s -> (size (held s) <= limit)%nat.
Proof.
  induction 1 as [|s a s' _ IH _ Ha]; [cbn; rewrite map_size_empty; lia|].
  destruct a; unfold act in Ha; repeat case_match; simplify_eq; try done;
    match goal with E : run_sec _ _ _ ?sec _ = _ |- _ => pose proof (run_size sec s IH) as Hr; by rewrite E in Hr end.
Qed.

(** What an insertion leaves: the pane under its id, and of the others all but the victim. *)
Lemma insert_keeps p t s :
  (size (held s) <= limit)%nat -> let s' := (insert iter seconds (Some limit) p t s).1 in
  (exists e, held s' !! pane_id p = Some e /\ slot (pane e) = slot p) /\
  (forall k e, k <> pane_id p -> held s !! k = Some e -> held s' !! k = Some e \/
     held s' !! k = None /\ size (held s) = limit /\ held s !! pane_id p = None /\
     forall k' e', held s !! k' = Some e' -> seconds (detached_at e) <= seconds (detached_at e')).
Proof.
  intros Hs. cbv zeta. pose proof (insert_victim p s Hs) as Hv. cbv zeta in Hv. unfold insert.
  pose proof (occupant_spec iter iter_perm (held s) p) as Ho.
  destruct (idempotent _) eqn:Hi.
  { split; [|by left]. cbn. destruct (occupant_of _ p) as [[j [ ]]|]; cbn in Hi; try (by repeat case_match).
    destruct Ho as (e & _ & He & Hsame). exists e. split; [done|]. by apply Z.eqb_eq. }
  rewrite (verdict_displace _ _ _ Hi) in *. set (verdict := insert_verdict _ _ _) in *.
  cbn [fst held with_park]. split; [eexists; split; [apply lookup_insert_eq|done]|].
  intros k e Hne Hk. rewrite lookup_insert_ne by done. destruct (victim verdict) as [i|]; cbn.
  - destruct Hv as (Hd & Hfull & k' & e' & Hik & Hk' & Hold). rewrite Hd, Hik. cbn.
    destruct (decide (k = k')) as [<-|]; [|left; by rewrite lookup_delete_ne]. rewrite Hk in Hk'. injection Hk' as <-.
    right. split; [apply lookup_delete_eq|]. split_and!; try done. by destruct (occupant_of (iter (held s)) p).
  - left. by case_bool_decide; rewrite ?lookup_delete_ne.
Qed.
End Cap.

Lemma with_outcome_elem f l n : n ∈ with_outcome f l <-> exists o, (n, o) ∈ l /\ f o = true.
Proof.
  unfold with_outcome. rewrite list_elem_of_fmap. split.
  - intros ([m o] & -> & [Hf Hin]%list_elem_of_filter). eauto.
  - intros (o & Hin & Hf). exists (n, o). split; [done|]. by apply list_elem_of_filter.
Qed.

Lemma with_outcome_nodup f l : NoDup l.*1 -> NoDup (with_outcome f l).
Proof. intros H. eapply sublist_NoDup; [exact H|]. apply fmap_sublist, sublist_filter. Qed.

Lemma nodup_submseteq {A} (a b : list A) : a ⊆+ b -> NoDup b -> NoDup a.
Proof. intros [l E]%submseteq_Permutation Hb. rewrite E in Hb. by apply NoDup_app in Hb as [? _]. Qed.

Lemma pending_nil s : pending s = [] -> asking (pending s) = [] /\ condemned (pending s) = [] /\ telling (pending s) = [].
Proof. by intros ->. Qed.

(** C23: Whatever calls overlap and whenever timers fire, every stay of a pane in the store is held, or has
    ended in exactly one way, or is just being asked whether its shell has exited. No stay is killed
    twice or reported evicted twice; a pane handed to a claim, dropped by its own exit or relinquished
    is never killed for that stay; and once no thread has work left, every evicted, reaped or drained
    stay has been killed and exactly the evictions have been reported. *)
Theorem every_stay_ends_once iter seconds cap ok s :
  (forall m, iter m ≡ₚ map_to_list m) -> reachable iter seconds cap ok s ->
  NoDup (parks_of (held s) ++ (ended s).*1 ++ asking (pending s)) /\
  (forall n, (n < parks s)%nat <-> n ∈ parks_of (held s) ++ (ended s).*1 ++ asking (pending s)) /\
  NoDup (killed s).*1 /\ (forall n, n ∈ (killed s).*1 -> exists o, (n, o) ∈ ended s /\ mortal o = true) /\
  NoDup (told s) /\ (forall n, n ∈ told s -> exists o, (n, o) ∈ ended s /\ announced o = true) /\
  (pending s = [] -> forall n o, (n, o) ∈ ended s ->
     (slain o = true -> n ∈ (killed s).*1) /\ (announced o = true -> n ∈ told s)).
Proof.
  intros Hiter Hr. destruct (reachable_accounted iter seconds cap Hiter ok s Hr) as [H1 H2 H3 H4].
  assert (Hnd : NoDup (parks_of (held s) ++ (ended s).*1 ++ asking (pending s))) by (rewrite H1; apply NoDup_seq).
  assert (He : NoDup (ended s).*1) by by apply NoDup_app in Hnd as (_ & _ & [? _]%NoDup_app).
  apply (submseteq_trans (killed s).*1) in H2; [|apply submseteq_inserts_r; done].
  assert (H5 : told s ⊆+ with_outcome announced (ended s)) by (rewrite <- H4; by apply submseteq_inserts_r).
  split_and!; [done| | | | | |].
  - intros n. rewrite H1, elem_of_seq. lia.
  - by apply (nodup_submseteq _ _ H2), with_outcome_nodup.
  - intros n Hn. by apply with_outcome_elem, (elem_of_submseteq _ _ _ Hn H2).
  - by apply (nodup_submseteq _ _ H5), with_outcome_nodup.
  - intros n Hn. by apply with_outcome_elem, (elem_of_submseteq _ _ _ Hn H5).
  - intros (_ & Ec & Et)%pending_nil n o Ho. rewrite Ec, app_nil_r in H3. rewrite Et, app_nil_r in H4. split; intros Hf.
    + apply (elem_of_submseteq _ _ _ (proj2 (with_outcome_elem slain _ n) (ex_intro _ o (conj Ho Hf))) H3).
    + rewrite H4. apply with_outcome_elem. eauto.
Qed.

(** With a cap on the parked panes, at no point of any run does the store hold more of them; when an
    insertion returns its pane is there to be claimed, and it made at most one other leave, only from a
    store at its cap that had no pane of the same id to displace: the one parked longest. *)
Theorem parked_within_the_cap iter seconds limit ok s p t :
  (forall m, iter m ≡ₚ map_to_list m) -> (0 < limit)%nat -> reachable iter seconds (Some limit) ok s ->
  let s' := (insert iter seconds (Some limit) p t s).1 in
  (size (held s) <= limit)%nat /\
  (exists e, held s' !! pane_id p = Some e /\ slot (pane e) = slot p) /\
  (forall k e, k <> pane_id p -> held s !! k = Some e -> held s' !! k = Some e \/
     held s' !! k = None /\ size (held s) = limit /\ held s !! pane_id p = None /\
     forall k' e', held s !! k' = Some e' -> seconds (detached_at e) <= seconds (detached_at e')).
Proof.
  intros Hiter Hl Hr. pose proof (reachable_size iter seconds limit Hiter Hl ok s Hr) as Hs.
  split; [done|]. by apply insert_keeps.
Qed.

(** ** Runs *)

Definition exec iter seconds cap (acts : list Action) (s : Store) : option Store :=
  foldl (fun o a => o ≫= act iter seconds cap a) (Some s) acts.

Lemma store_exec_reachable iter seconds cap acts s s' :
  reachable iter seconds cap (fun _ _ => True) s -> exec iter seconds cap acts s = Some s' ->
  reachable iter seconds cap (fun _ _ => True) s'.
Proof.
  unfold exec. revert s. induction acts as [|a acts IH]; cbn; intros s Hr E; [by injection E as <-|].
  destruct (act iter seconds cap a s) as [s1|] eqn:Ha; [|clear -E; exfalso; by induction acts].
  apply (IH s1); [|done]. by apply (reach_act _ _ _ _ s a).
Qed.

Definition iter0 (m : gmap Z Entry) : list (Z * Entry) := map_to_list m.
Definition pane1 : Pane := mkPane 1 7.

(** Two panes are parked in a store of one, the second is claimed, and its shell had exited. *)
Definition busy_day : list Action :=
  [ACall (DInsert pane1 (Some 10)); AStep 0; AStep 0; ATick 3; ACall (DInsert (mkPane 2 8) None); AStep 1; AStep 1;
   AStep 1; AStep 1; AExit 8; ACall (DClaim 2); AStep 2; AStep 2; AStep 2; AStep 2].

Lemma iter0_perm : forall m, iter0 m ≡ₚ map_to_list m.
Proof. done. Qed.

Lemma every_stay_ends_once_witness :
  exists s, exec iter0 id (Some 1%nat) busy_day store_new = Some s /\ pending s = [] /\
    ended s = [(0%nat, MadeRoom); (1%nat, Reaped)] /\ killed s = [(0%nat, 7); (1%nat, 8)] /\
    NoDup (killed s).*1 /\ told s = [0%nat].
Proof.
  destruct (exec iter0 id (Some 1%nat) busy_day store_new) as [s|] eqn:E; [|by vm_compute in E].
  pose proof (store_exec_reachable _ _ _ _ _ _ (reach_new _ _ _ _) E) as Hr.
  pose proof (every_stay_ends_once iter0 id (Some 1%nat) _ s iter0_perm Hr) as (_ & _ & Hk & _).
  exists s. split_and!; [done|..|exact Hk|]; vm_compute in E; injection E as <-; reflexivity.
Defined.

Lemma parked_within_the_cap_witness :
  exists s, exec iter0 id (Some 1%nat) [ACall (DInsert pane1 None); AStep 0] store_new = Some s /\
    (size (held s) <= 1)%nat /\ held (insert iter0 id (Some 1%nat) (mkPane 2 8) None s).1 !! 1 = None.
Proof.
  destruct (exec iter0 id (Some 1%nat) _ store_new) as [s|] eqn:E; [|by vm_compute in E].
  pose proof (store_exec_reachable _ _ _ _ _ _ (reach_new _ _ _ _) E) as Hr.
  pose proof (parked_within_the_cap iter0 id 1 _ s (mkPane 2 8) None iter0_perm ltac:(lia) Hr) as (Hs & _).
  exists s. split_and!; [done|exact Hs|]. vm_compute in E. injection E as <-. reflexivity.
Defined.

(** ** Timers *)

(** One call or callback at a time: it has returned before the next one starts. *)
Definition serial (a : Action) (s : Store) : bool :=
  match a with ACall _ | AFire _ _ => bool_decide (pending s = []) | _ => true end.

Definition wheel_ok (w : Armed) : Prop := forall d id, (d, id) ∈ queue w <-> filed w !! id = Some d.

Lemma arm_ok w n id t : wheel_ok w -> wheel_ok (arm w n id t).
Proof.
  intros H d k. unfold arm. destruct (stopping w); [done|]. cbn. rewrite elem_of_union, elem_of_singleton.
  destruct (decide (k = id)) as [->|Hne].
  - rewrite lookup_insert_eq. destruct (filed w !! id) as [p|] eqn:E.
    + rewrite elem_of_difference, (H d id), E. set_solver.
    + rewrite (H d id), E. naive_solver.
  - rewrite lookup_insert_ne by done. rewrite <- (H d k). destruct (filed w !! id); set_solver.
Qed.

Lemma delete_ok w d0 id b :
  wheel_ok w -> filed w !! id = Some d0 -> wheel_ok (mkArmed (queue w ∖ {[(d0, id)]}) (delete id (filed w)) b).
Proof.
  intros H Hd d k. cbn. rewrite elem_of_difference, elem_of_singleton, (H d k), lookup_delete_Some.
  split; [|naive_solver]. intros [Hk Hne]. split; [|done]. intros <-. rewrite Hd in Hk. naive_solver.
Qed.

Lemma cancel_ok w id : wheel_ok w -> wheel_ok (cancel w id).
Proof. intros H. unfold cancel. destruct (filed w !! id) eqn:E; [by apply delete_ok|done]. Qed.

(** What the work still to do leaves filed for an id: the last operation on it. *)
Inductive Op : Type := ToArm (after : Z) | ToCancel | Fired.
Definition op_of (id : Z) (sec : Sec) : option Op :=
  match sec with
  | DArm k t => if k =? id then Some (ToArm t) else None
  | DCancel k => if k =? id then Some ToCancel else None
  | DEvict k => if k =? id then Some Fired else None
  | _ => None
  end.
Fixpoint last_op (id : Z) (P : list Sec) : option Op :=
  match P with
  | [] => None
  | sec :: P => match last_op id P with Some op => Some op | None => op_of id sec end
  end.

Definition wants (s : Store) (id t : Z) : Prop :=
  exists e, held s !! id = Some e /\ ttl e = Some t /\ detached_at e <= now s.
Definition unwanted (s : Store) (id : Z) : Prop := forall e, held s !! id = Some e -> ttl e = None.
Definition timed (s : Store) (id : Z) (d : Z) : Prop :=
  exists e t, held s !! id = Some e /\ ttl e = Some t /\ detached_at e + t <= d.

Definition due_for (s : Store) (P : list Sec) (id : Z) : Prop :=
  match last_op id P with
  | Some (ToArm t) => wants s id t
  | Some ToCancel => unwanted s id
  | Some Fired => forall d, filed (wheel s) !! id = Some d -> timed s id d
  | None => match filed (wheel s) !! id with
            | Some d => timed s id d
            | None => stopping (wheel s) = true \/ unwanted s id
            end
  end.

Definition quiet (sec : Sec) : Prop := ~ method sec.
Definition keyed (m : gmap Z Entry) : Prop := forall k e, m !! k = Some e -> pane_id (pane e) = k.

(** The state while [P] is all the work there is. *)
Record ticking (s : Store) (P : list Sec) : Prop := {
  tk_wheel : wheel_ok (wheel s);
  tk_stop : stopping (wheel s) = true -> filed (wheel s) = ∅;
  tk_keyed : keyed (held s);
  tk_shape : Forall quiet P \/ exists sec, P = [sec] /\ method sec;
  tk_due : forall id, due_for s P id;
}.

Lemma keyed_delete m k : keyed m -> keyed (delete k m).
Proof. intros H j e [_ Hj]%lookup_delete_Some. by apply H. Qed.

Lemma last_op_app id P Q :
  last_op id (P ++ Q) = match last_op id Q with Some op => Some op | None => last_op id P end.
Proof. induction P as [|sec P IH]; cbn; [by destruct (last_op id Q)|]. rewrite IH. by destruct (last_op id Q). Qed.

Lemma due_for_ext s s' P Q id :
  due_for s P id -> held s' !! id = held s !! id -> wheel s' = wheel s -> now s <= now s' ->
  last_op id Q = last_op id P -> due_for s' Q id.
Proof.
  unfold due_for, wants, unwanted, timed. intros H Eh -> Hn ->. rewrite Eh.
  destruct (last_op id P) as [[]|]; try done. destruct H as (e & ? & ? & ?). exists e. split_and!; [done..|lia].
Qed.

(** Nothing is filed for an id that holds nothing and that no work concerns. *)
Lemma due_for_vacant s P id : due_for s P id -> last_op id P = None -> held s !! id = None -> filed (wheel s) !! id = None.
Proof.
  unfold due_for. intros H E Hn. rewrite E in H. destruct (filed (wheel s) !! id) as [d|]; [|done].
  destruct H as (e & t & He & _). by rewrite Hn in He.
Qed.

Lemma due_for_gone s P id : held s !! id = None -> filed (wheel s) !! id = None \/ last_op id P = Some ToCancel ->
  last_op id P = None \/ last_op id P = Some ToCancel -> due_for s P id.
Proof.
  unfold due_for, unwanted. intros Hh Hf HP. destruct HP as [HP|HP]; rewrite HP in *.
  - destruct Hf as [->|]; [|done]. right. by rewrite Hh.
  - by rewrite Hh.
Qed.

Lemma quiet_not_fired P id : Forall quiet P -> last_op id P <> Some Fired.
Proof.
  induction 1 as [|sec P Hq _ IH]; cbn; [done|]. destruct (last_op id P); [done|].
  destruct sec; cbn; try done; try (by case_match). by exfalso; apply Hq.
Qed.

Lemma lookup_arm w n id t k :
  stopping w = false -> filed (arm w n id t) !! k = if decide (k = id) then Some (n + t) else filed w !! k.
Proof. unfold arm. intros ->. cbn. destruct (decide (k = id)) as [->|]; by simplify_map_eq. Qed.

Lemma lookup_cancel w id k : filed (cancel w id) !! k = if decide (k = id) then None else filed w !! k.
Proof.
  unfold cancel. destruct (filed w !! id) eqn:E; cbn; destruct (decide (k = id)) as [->|]; by simplify_map_eq.
Qed.

Lemma due_for_arm s id t rest k :
  (stopping (wheel s) = true -> filed (wheel s) = ∅) -> Forall quiet rest ->
  due_for s (DArm id t :: rest) k -> due_for (with_wheel s (arm (wheel s) (now s) id t)) rest k.
Proof.
  unfold due_for. intros Hst Hq H. pose proof (quiet_not_fired rest k Hq) as Hf. cbn in *.
  destruct (last_op k rest) as [[]|]; try done.
  destruct (stopping (wheel s)) eqn:Es.
  { unfold arm. rewrite Es, Hst by done. rewrite lookup_empty. by left. }
  rewrite lookup_arm by done. destruct (Z.eqb_spec id k) as [->|]; [rewrite decide_True by done|rewrite decide_False by done].
  - destruct H as (e & He & Ht & Hle). exists e, t. split_and!; [done..|lia].
  - unfold arm. rewrite Es. done.
Qed.

Lemma due_for_cancel s id rest k :
  Forall quiet rest -> due_for s (DCancel id :: rest) k -> due_for (with_wheel s (cancel (wheel s) id)) rest k.
Proof.
  unfold due_for. intros Hq H. pose proof (quiet_not_fired rest k Hq) as Hf. cbn in *.
  destruct (last_op k rest) as [[]|]; try done. rewrite lookup_cancel.
  assert (Es : stopping (cancel (wheel s) id) = stopping (wheel s)) by (unfold cancel; by destruct (filed (wheel s) !! id)).
  change (wheel (with_wheel s (cancel (wheel s) id))) with (cancel (wheel s) id). rewrite Es.
  destruct (Z.eqb_spec id k) as [->|]; [rewrite decide_True by done|rewrite decide_False by done].
  - right. exact H.
  - exact H.
Qed.

(** A section that leaves the map as it is. *)
Lemma ticking_quiet s sec rest :
  ticking s (sec :: rest) -> quiet sec -> forall iter seconds cap,
  ticking (run_sec iter seconds cap sec s).1 ((run_sec iter seconds cap sec s).2 ++ rest).
Proof.
  intros [Hw Hst Hk Hshape Hd] Hq iter seconds cap.
  assert (Hrest : Forall quiet rest).
  { destruct Hshape as [H|(sec' & [= -> ->] & _)]; [by inversion H|done]. }
  assert (Hsame : forall s' more, held s' = held s -> wheel s' = wheel s -> now s' = now s -> Forall quiet more ->
    (forall id, op_of id sec = None) -> (forall id, last_op id more = None) -> ticking s' (more ++ rest)).
  { intros s' more Eh Ew En Hm Hop Hlast. constructor; rewrite ?Ew, ?Eh; try done; [by left; apply Forall_app|].
    intros id. apply (due_for_ext s _ (sec :: rest)); [done|by rewrite Eh|done|lia|].
    rewrite last_op_app. cbn. by rewrite Hop, Hlast. }
  destruct sec; cbn -[last_op]; try by exfalso; apply Hq.
  - constructor; cbn; [by apply arm_ok|unfold arm; destruct (stopping (wheel s)) eqn:E; [by rewrite E; auto|done]|done|by left|].
    intros k. by apply due_for_arm.
  - constructor; cbn; [by apply cancel_ok| |done|by left|intros k; by apply due_for_cancel].
    intros H. unfold cancel in *. destruct (filed _ !! _); cbn in *; [|by apply Hst]. rewrite Hst by done. apply delete_empty.
  - case_bool_decide; by apply (Hsame _ []).
  - by apply (Hsame _ []).
  - by apply (Hsame _ []).
  - unfold ask_exit. destruct (reap_dead_child _); apply Hsame; try done. by repeat constructor; intros [].
  - by apply (Hsame _ []).
Qed.

(** What a method does to an id: it is out of the map, untouched, or newly parked; and what it has still
    to do to the wheel on its account. *)
Inductive step_at (s s' : Store) (sec : Sec) (more : list Sec) (id : Z) : Prop :=
| at_gone : held s' !! id = None -> last_op id more = Some ToCancel -> step_at s s' sec more id
| at_absent : held s' !! id = None -> last_op id more = None -> held s !! id = None -> step_at s s' sec more id
| at_kept : held s' !! id = held s !! id -> last_op id more = None -> op_of id sec = None -> step_at s s' sec more id
| at_timed e t : held s' !! id = Some e -> ttl e = Some t -> detached_at e = now s ->
    last_op id more = Some (ToArm t) -> step_at s s' sec more id
| at_untimed e : held s' !! id = Some e -> ttl e = None -> held s !! id = None \/ last_op id more = Some ToCancel ->
    last_op id more = None \/ last_op id more = Some ToCancel -> step_at s s' sec more id.

Lemma method_op sec id : method sec -> op_of id sec = None \/ op_of id sec = Some Fired.
Proof. destruct sec; cbn; try done; auto. case_match; auto. Qed.

Lemma absent_unfiled s sec id :
  method sec -> due_for s [sec] id -> held s !! id = None -> filed (wheel s) !! id = None.
Proof.
  intros Hm Hd Hn. destruct (method_op sec id Hm) as [E|E]; [by apply (due_for_vacant s [sec])|].
  unfold due_for in Hd. cbn in Hd. rewrite E in Hd. destruct (filed (wheel s) !! id) as [d|]; [|done].
  destruct (Hd d eq_refl) as (e & t & He & _). by rewrite Hn in He.
Qed.

Lemma ticking_method s s' sec more :
  ticking s [sec] -> method sec -> wheel s' = wheel s -> now s' = now s -> keyed (held s') -> Forall quiet more ->
  (forall id, step_at s s' sec more id) -> ticking s' more.
Proof.
  intros [Hw Hst _ _ Hd] Hm Ew En Hk Hq Hat. constructor; rewrite ?Ew; try done; [by left|].
  intros id. specialize (Hd id). destruct (Hat id) as [H1 H2|H1 H2 H3|H1 H2 H3|e t H1 H2 H3 H4|e H1 H2 H3 H4].
  - apply due_for_gone; auto.
  - apply due_for_gone; auto. left. rewrite Ew. by apply (absent_unfiled s sec).
  - apply (due_for_ext s _ [sec]); try done; [lia|]. cbn. congruence.
  - unfold due_for. rewrite H4. exists e. split_and!; [done..|lia].
  - assert (Hu : unwanted s' id) by (intros x Hx; congruence). unfold due_for. rewrite Ew.
    destruct H4 as [H4|H4]; rewrite H4; [|done]. destruct H3 as [H3|H3]; [|congruence].
    rewrite (absent_unfiled s sec id Hm Hd H3). by right.
Qed.

Section Serial.
Context (iter : gmap Z Entry -> list (Z * Entry)) (seconds : Z -> Z) (cap : option nat).
Hypothesis iter_perm : forall m, iter m ≡ₚ map_to_list m.

Lemma ticking_take s sec id more s' :
  ticking s [sec] -> method sec -> op_of id sec = None \/ sec = DEvict id -> (forall k, k <> id -> op_of k sec = None) ->
  held s' = delete id (held s) -> wheel s' = wheel s -> now s' = now s -> Forall quiet more ->
  (forall k, k <> id -> last_op k more = None) ->
  last_op id more = Some ToCancel \/ held s !! id = None /\ last_op id more = None -> ticking s' more.
Proof.
  intros T Hm _ Ho Eh Ew En Hq Hl Hid. apply (ticking_method s s' sec); try done.
  { rewrite Eh. apply keyed_delete, T. }
  intros k. destruct (decide (k = id)) as [->|Hne].
  - destruct Hid as [Hid|[Hn Hid] ]; [apply at_gone|apply at_absent]; rewrite ?Eh; try done; apply lookup_delete_eq.
  - apply at_kept; auto. by rewrite Eh, lookup_delete_ne.
Qed.

(** The two ways the whole map goes: each entry's timer is cancelled after it. *)
Lemma ticking_all s sec f s' :
  ticking s [sec] -> method sec -> (forall k, op_of k sec = None) -> held s' = ∅ -> wheel s' = wheel s ->
  now s' = now s -> (forall e, quiet (f e) /\ forall k, op_of k (f e) = None) ->
  ticking s' (flat_map (fun x => [DCancel (pane_id (pane x.2)); f x.2]) (iter (held s))).
Proof.
  intros T Hm Ho Eh Ew En Hf. apply (ticking_method s s' sec); try done.
  { rewrite Eh. by intros k e; rewrite lookup_empty. }
  { induction (iter (held s)) as [|x l IH]; cbn; [done|]. repeat constructor; [by intros []|apply Hf|done]. }
  intros k. assert (Hl : let L := flat_map (fun x => [DCancel (pane_id (pane x.2)); f x.2]) (iter (held s)) in
    last_op k L = Some ToCancel \/ last_op k L = None /\ Forall (fun x => pane_id (pane x.2) <> k) (iter (held s))).
  { cbv zeta. induction (iter (held s)) as [|x l IH]; cbn; [by right|]. rewrite (proj2 (Hf x.2)).
    destruct IH as [->|[-> IH] ]; [by left|]. destruct (Z.eqb_spec (pane_id (pane x.2)) k); [by left|right].
    split; [done|by constructor]. }
  destruct Hl as [Hl|[Hl Hno] ]; [apply at_gone|apply at_absent]; try done; rewrite ?Eh; try apply lookup_empty.
  destruct (held s !! k) as [e|] eqn:E; [|done]. rewrite Forall_forall in Hno.
  pose proof (tk_keyed _ _ T k e E). apply (elem_of_iter iter iter_perm) in E. by destruct (Hno _ E).
Qed.

Definition after_insert (p : Pane) (t : option Z) (d : option Z) (s : Store) : Store * list Sec :=
  let id := pane_id p in
  let h := delete id (held s) in
  let out := d ≫= fun k => h !! k in
  (with_park s (<[id := mkEntry p (now s) (parks s) t]> (match d with Some k => delete k h | None => h end)) (S (parks s))
     (ended s ++ (match held s !! id with Some g => [(park g, Displaced)] | None => [] end) ++
                 (match out with Some v => [(park v, MadeRoom)] | None => [] end)),
   (match held s !! id with Some g => [DCancel id; DReapDisplaced g] | None => [] end) ++
   (match t with Some after => [DArm id after] | None => [] end) ++
   (match out with Some v => [DCancel (pane_id (pane v)); DEvicted v; DKill v] | None => [] end)).

Lemma insert_shape p t s :
  insert iter seconds cap p t s = (s, []) \/ exists d, insert iter seconds cap p t s = after_insert p t d s.
Proof.
  unfold insert. pose proof (occupant_spec iter iter_perm (held s) p) as Ho.
  destruct (idempotent _) eqn:Hi; [by left|right]. rewrite (verdict_displace _ _ _ Hi).
  set (verdict := insert_verdict _ _ _). exists (i ← victim verdict; fst <$> iter (held s) !! i).
  assert (Eg : (if bool_decide (is_Some (occupant_of (iter (held s)) p)) then held s !! pane_id p else None) =
    held s !! pane_id p).
  { case_bool_decide as Hb; [done|]. by destruct (occupant_of _ p); [destruct Hb|]. }
  assert (Eh : (if bool_decide (is_Some (occupant_of (iter (held s)) p)) then delete (pane_id p) (held s) else held s) =
    delete (pane_id p) (held s)).
  { case_bool_decide as Hb; [done|]. destruct (occupant_of _ p); [by destruct Hb|]. by rewrite delete_id. }
  rewrite Eg, Eh. unfold after_insert. f_equal. f_equal. f_equal. by destruct t.
Qed.

Lemma last_op_front p t s k tail :
  k <> pane_id p ->
  last_op k ((match held s !! pane_id p with Some g => [DCancel (pane_id p); DReapDisplaced g] | None => [] end) ++
    (match t with Some after => [DArm (pane_id p) after] | None => [] end) ++ tail) = last_op k tail.
Proof.
  intros Hne. rewrite !last_op_app. destruct (last_op k tail); [done|].
  destruct t, (held s !! pane_id p); cbn; rewrite ?(proj2 (Z.eqb_neq (pane_id p) k)) by done; done.
Qed.

Lemma ticking_insert p t s :
  ticking s [DInsert p t] -> ticking (insert iter seconds cap p t s).1 ((insert iter seconds cap p t s).2 ++ []).
Proof.
  intros T. rewrite app_nil_r. pose proof (tk_keyed _ _ T) as Hk. destruct (insert_shape p t s) as [->|[d ->] ].
  { apply (ticking_method s s (DInsert p t)); try done. intros k. by apply at_kept. }
  unfold after_insert. set (h := delete (pane_id p) (held s)). set (out := d ≫= fun k => h !! k). cbn [fst snd].
  assert (Hkh : keyed h) by by apply keyed_delete.
  assert (Hout : forall v, out = Some v -> d = Some (pane_id (pane v)) /\ pane_id (pane v) <> pane_id p).
  { intros v. unfold out. destruct d as [k|]; cbn; [|done]. intros Hv. rewrite (Hkh k v Hv). split; [done|].
    intros ->. unfold h in Hv. by rewrite lookup_delete_eq in Hv. }
  apply (ticking_method s _ (DInsert p t)); try done; cbn [held with_park].
  - intros k e [[<- <-]|[_ H] ]%lookup_insert_Some; [done|]. destruct d as [k'|]; [|by apply Hkh].
    by apply (keyed_delete h k').
  - rewrite !Forall_app. split_and!; [destruct (held s !! _)|destruct t|destruct out]; repeat constructor; by intros [].
  - intros k. destruct (decide (k = pane_id p)) as [->|Hne].
    + assert (Ho : last_op (pane_id p) (match out with Some v => [DCancel (pane_id (pane v)); DEvicted v; DKill v]
        | None => [] end) = None).
      { destruct out as [v|]; [|done]. cbn. destruct (Z.eqb_spec (pane_id (pane v)) (pane_id p)) as [E|]; [|done].
        by destruct (Hout v eq_refl). }
      destruct t as [after|].
      * eapply at_timed; [apply lookup_insert_eq|done..|]. rewrite !last_op_app, Ho. cbn. by rewrite Z.eqb_refl.
      * eapply at_untimed; [apply lookup_insert_eq|done|..]; rewrite !last_op_app, Ho;
          destruct (held s !! pane_id p); cbn; rewrite ?Z.eqb_refl; auto.
    + pose proof (fun tail => last_op_front p t s k tail Hne) as Hl.
      assert (Hh : h !! k = held s !! k) by (unfold h; by rewrite lookup_delete_ne).
      destruct out as [v|] eqn:Eo.
      * destruct (Hout v eq_refl) as [Hd _]. rewrite Hd. destruct (decide (k = pane_id (pane v))) as [->|Hk'].
        -- apply at_gone; [cbn; rewrite lookup_insert_ne by done; apply lookup_delete_eq|]. rewrite Hl. cbn.
           by rewrite Z.eqb_refl.
        -- apply at_kept; [|rewrite Hl; cbn; by rewrite (proj2 (Z.eqb_neq (pane_id (pane v)) k))|done].
           cbn. by rewrite lookup_insert_ne, lookup_delete_ne, Hh.
      * apply at_kept; [|by rewrite Hl|done]. cbn. rewrite lookup_insert_ne by done. destruct d as [k'|]; [|done].
        destruct (decide (k' = k)) as [->|]; [|by rewrite lookup_delete_ne].
        rewrite lookup_delete_eq, <- Hh. done.
Qed.

Lemma ticking_run sec s rest :
  ticking s (sec :: rest) ->
  ticking (run_sec iter seconds cap sec s).1 ((run_sec iter seconds cap sec s).2 ++ rest).
Proof.
  intros T. destruct (decide (method sec)) as [Hm|Hq]; [|by apply ticking_quiet].
  destruct (tk_shape _ _ T) as [H|(sec' & [= <- ->] & _)]; [by inversion H|].
  rewrite app_nil_r. destruct sec; try done; cbn -[insert].
  - rewrite <- (app_nil_r (insert _ _ _ _ _ _).2). by apply ticking_insert.
  - apply (ticking_take s (DClaim id) id); try done; [by left| | |left].
    + destruct (held s !! id); repeat constructor; by intros [].
    + intros k Hk. destruct (held s !! id); cbn; by rewrite (proj2 (Z.eqb_neq id k)).
    + destruct (held s !! id); cbn; by rewrite Z.eqb_refl.
  - unfold remove. cbn [fst snd]. apply (ticking_take s (DRemove id) id); try done; [by left|..];
      destruct (held s !! id); cbn; rewrite ?Z.eqb_refl; auto.
    + repeat constructor. by intros [].
    + intros k Hk. by rewrite (proj2 (Z.eqb_neq id k)).
  - unfold evict. cbn [fst snd]. apply (ticking_take s (DEvict id) id); try done; [by right|..];
      try (intros k Hk; cbn; by rewrite (proj2 (Z.eqb_neq id k)));
      destruct (held s !! id); cbn; rewrite ?Z.eqb_refl; auto.
    + repeat constructor; by intros [].
    + intros k Hk. by rewrite (proj2 (Z.eqb_neq id k)).
  - apply (ticking_all s DDrain DKill); try done. intros e. split; [by intros []|done].
  - apply (ticking_all s DRelinquishAll DRelinquish); try done. intros e. split; [by intros []|done].
  - destruct T as [_ _ Hk _ Hd]. constructor; cbn; [intros d k; cbn; by rewrite lookup_empty|done|done|by left|].
    intros k. unfold due_for. cbn. rewrite lookup_empty. by left.
Qed.

(** All the work there is, is one thread's. *)
Definition sole (s : Store) (P : list Sec) : Prop :=
  (firing s = P /\ concat (calls s) = []) \/
  (firing s = [] /\ exists pre post, calls s = pre ++ [P] ++ post /\ concat pre = [] /\ concat post = []).

Lemma sole_idle s : pending s = [] -> sole s [].
Proof. unfold pending. intros [H1 H2]%app_eq_nil. by left. Qed.

Lemma sole_pending s P : sole s P -> pending s = P.
Proof.
  unfold pending. intros [ [-> ->]|(-> & pre & post & -> & H1 & H2)]; [by rewrite app_nil_r|].
  by rewrite !concat_app, H1, H2; cbn; rewrite !app_nil_r.
Qed.

Lemma ticking_frame s s' P :
  ticking s P -> held s' = held s -> wheel s' = wheel s -> now s <= now s' -> ticking s' P.
Proof.
  intros [Hw Hst Hk Hq Hd] Eh Ew En. constructor; rewrite ?Ew, ?Eh; try done.
  intros id. apply (due_for_ext s s' P P id); try done. by rewrite Eh.
Qed.

Lemma concat_nil_lookup {A} (l : list (list A)) i x : concat l = [] -> l !! i = Some x -> x = [].
Proof.
  revert i. induction l as [|y l IH]; intros i; cbn; [done|]. intros [H1 H2]%app_eq_nil.
  destruct i; cbn; [by intros [= <-]|by apply IH].
Qed.

Lemma sole_step s i sec rest P new s1 :
  sole s P -> calls s !! i = Some (sec :: rest) -> firing s1 = firing s -> calls s1 = calls s ->
  P = sec :: rest /\ sole (with_calls s1 (<[i := new]> (calls s1))) new.
Proof.
  intros [ [_ Hc]|(Hf & pre & post & Hc & H1 & H2)] Hi Ef Ec.
  { by pose proof (concat_nil_lookup _ _ _ Hc Hi). }
  rewrite Hc in Hi. apply lookup_app_Some in Hi as [Hi|[Hge Hi] ].
  { by pose proof (concat_nil_lookup _ _ _ H1 Hi). }
  destruct (i - length pre)%nat as [|j] eqn:Ei; cbn in Hi; [|by pose proof (concat_nil_lookup _ _ _ H2 Hi)].
  injection Hi as ->. split; [done|]. right. cbn. split; [congruence|]. exists pre, post. rewrite Ec, Hc.
  split_and!; [|done..]. replace i with (length pre + 0)%nat by lia. by rewrite insert_app_r.
Qed.
End Serial.

Lemma serial_ticking iter seconds cap s :
  (forall m, iter m ≡ₚ map_to_list m) -> reachable iter seconds cap (fun a s => serial a s = true) s ->
  exists P, sole s P /\ ticking s P.
Proof.
  intros Hiter. induction 1 as [|s a s' _ (P & Hs & T) Hok Ha].
  { exists []. split; [by left|]. constructor; try done; [by left|]. intros k. right. by intros e. }
  pose proof (sole_pending s P Hs) as HP.
  destruct a as [sec|i|at_ id| |n|sl|sl m]; unfold act in Ha; cbn in Hok.
  - case_bool_decide as Hm; [|done]. injection Ha as <-. apply bool_decide_eq_true in Hok. exists [sec].
    rewrite HP in Hok. subst P. apply app_eq_nil in HP as [Hf Hc]. split.
    { right. split; [done|]. exists (calls s), []. by rewrite app_nil_r. }
    destruct T as [Hw Hst Hk _ Hd]. constructor; try done; [right; eauto|]. intros k. specialize (Hd k).
    unfold due_for in *. cbn in *. destruct (method_op sec k Hm) as [E|E]; rewrite E; [done|].
    intros d Hf'. by rewrite Hf' in Hd.
  - destruct (calls s !! i) as [ [|sec rest]|] eqn:Hi; try done. pose proof (sec_frame iter seconds cap sec s) as [Ef Ec].
    destruct (run_sec iter seconds cap sec s) as [s1 more] eqn:E. injection Ha as <-.
    destruct (sole_step s i sec rest P (more ++ rest) s1 Hs Hi Ef Ec) as [-> Hs']. exists (more ++ rest). split; [done|].
    pose proof (ticking_run iter seconds cap Hiter sec s rest T) as T'. rewrite E in T'. by apply (ticking_frame s1).
  - destruct (firing s) eqn:Hf; [|done]. apply bool_decide_eq_true in Hok. rewrite HP in Hok. subst P.
    destruct (_ && _) eqn:Hdue; [|done]. injection Ha as <-. apply andb_true_iff in Hdue as [Hdue _].
    apply bool_decide_eq_true in Hdue as (Hq & _). apply app_eq_nil in HP as [_ Hc].
    exists [DEvict id]. split; [by left|]. destruct T as [Hw Hst Hk _ Hd]. pose proof (proj1 (Hw _ _) Hq) as Hfile.
    constructor; cbn; [by apply (delete_ok (wheel s) at_ id)| |done|right; by exists (DEvict id)|].
    + intros H. rewrite Hst in Hfile by done. by rewrite lookup_empty in Hfile.
    + intros k. specialize (Hd k). unfold due_for in *. cbn in *. destruct (Z.eqb_spec id k) as [->|].
      * intros d H. by rewrite lookup_delete_eq in H.
      * by rewrite lookup_delete_ne.
  - destruct (firing s) as [|sec rest] eqn:Hf; [done|]. pose proof (sec_frame iter seconds cap sec s) as [_ Ec].
    destruct (run_sec iter seconds cap sec s) as [s1 more] eqn:E. injection Ha as <-.
    destruct Hs as [ [<- Hc]|[Hf' _] ]; [|congruence]. exists (more ++ rest). split; [left; cbn in *; by rewrite Ec|].
    rewrite Hf in T. pose proof (ticking_run iter seconds cap Hiter sec s rest T) as T'. rewrite E in T'.
    by apply (ticking_frame s1).
  - destruct (Z.leb_spec (now s) n); [|done]. injection Ha as <-. exists P. split; [done|]. by apply (ticking_frame s).
  - injection Ha as <-. exists P. split; [done|]. by apply (ticking_frame s).
  - injection Ha as <-. exists P. split; [done|]. by apply (ticking_frame s).
Qed.

Definition sooner (p q : Z * Z) : Prop := p.1 < q.1 \/ p.1 = q.1 /\ p.2 <= q.2.

Lemma due_exists w n p : p ∈ queue w -> p.1 <= n -> exists q, due w n q.
Proof.
  intros Hp Hn. assert (Transitive sooner) by (intros a b c; unfold sooner; lia).
  assert (forall x y, Decision (sooner x y)) by (intros; unfold sooner; apply _).
  destruct (minimal_exists_elem_of sooner (queue w)) as (q & Hq & Hmin); [set_solver|]. exists q.
  assert (Hall : forall y, y ∈ queue w -> sooner q y).
  { intros y Hy. specialize (Hmin y Hy). unfold sooner in *. lia. }
  split_and!; [done| |done]. specialize (Hall p Hp). unfold sooner in Hall. lia.
Qed.

(** C24: When calls and callbacks do not overlap (time may pass, shells exit and members come and go in the
    middle of one), between calls every parked pane with a time-to-live has a deadline filed, no sooner
    than its park time plus that; nothing else is filed and the queue holds exactly what is filed. So a
    callback fires only for a pane parked that long, and once a deadline has passed one can fire. *)
Theorem timers_are_exact iter seconds cap s :
  (forall m, iter m ≡ₚ map_to_list m) -> reachable iter seconds cap (fun a s => serial a s = true) s -> pending s = [] ->
  (forall d id, (d, id) ∈ queue (wheel s) <-> filed (wheel s) !! id = Some d) /\
  (forall id d, filed (wheel s) !! id = Some d -> timed s id d) /\
  (stopping (wheel s) = false -> forall id e t, held s !! id = Some e -> ttl e = Some t ->
     exists d, filed (wheel s) !! id = Some d /\ detached_at e + t <= d /\
       (d <= now s -> exists at_ id' s', act iter seconds cap (AFire at_ id') s = Some s')) /\
  (forall at_ id s', act iter seconds cap (AFire at_ id) s = Some s' -> firing s' = [DEvict id] /\ timed s id (now s)).
Proof.
  intros Hiter Hr Hp. destruct (serial_ticking iter seconds cap s Hiter Hr) as (P & Hs & T).
  rewrite (sole_pending s P Hs) in Hp. subst P. destruct T as [Hw Hst Hk _ Hd].
  assert (Hf : firing s = []) by by destruct Hs as [ [? _]|[? _] ].
  assert (Htimed : forall id d, filed (wheel s) !! id = Some d -> timed s id d).
  { intros id d H. specialize (Hd id). unfold due_for in Hd. cbn in Hd. by rewrite H in Hd. }
  split_and!; [done|done| |].
  - intros Hns id e t He Ht. specialize (Hd id). unfold due_for in Hd. cbn in Hd.
    destruct (filed (wheel s) !! id) as [d|] eqn:E; [|destruct Hd as [|Hu]; [congruence|by rewrite (Hu e He) in Ht] ].
    destruct Hd as (e' & t' & He' & Ht' & Hle). simplify_eq. exists d. split_and!; [done..|]. intros Hn.
    apply Hw in E. destruct (due_exists _ (now s) _ E Hn) as ([at_ k] & Hdue). exists at_, k. unfold act. rewrite Hf, Hns.
    rewrite bool_decide_eq_true_2 by done. cbn. eauto.
  - intros at_ id s' Ha. unfold act in Ha. rewrite Hf in Ha. destruct (_ && _) eqn:E; [|done]. injection Ha as <-.
    split; [done|]. apply andb_true_iff in E as [E _]. apply bool_decide_eq_true in E as (Hq & Hle & _).
    apply Hw in Hq. destruct (Htimed _ _ Hq) as (e & t & He & Ht & Hle'). exists e, t. cbn in Hle. split_and!; [done..|lia].
Qed.

Lemma exec_serial iter seconds cap acts s s' :
  reachable iter seconds cap (fun a s => serial a s = true) s ->
  foldl (fun o a => o ≫= fun s => if serial a s then act iter seconds cap a s else None) (Some s) acts = Some s' ->
  reachable iter seconds cap (fun a s => serial a s = true) s'.
Proof.
  revert s. induction acts as [|a acts IH]; cbn; intros s Hr E; [by injection E as <-|].
  destruct (serial a s) eqn:Hs; [|clear -E; exfalso; by induction acts].
  destruct (act iter seconds cap a s) as [s1|] eqn:Ha; [|clear -E; exfalso; by induction acts].
  apply (IH s1); [|done]. by apply (reach_act _ _ _ _ s a).
Qed.

(** A pane is parked for 10 at time 0; the arm runs at time 2, so the deadline is 12. *)
Definition parked_for_ten : list Action := [ACall (DInsert pane1 (Some 10)); AStep 0; ATick 2; AStep 0; ATick 12].

Lemma timers_are_exact_witness :
  exists s s', reachable iter0 id None (fun a s => serial a s = true) s /\ pending s = [] /\
    filed (wheel s) !! 1 = Some 12 /\ timed s 1 12 /\ act iter0 id None (AFire 12 1) s = Some s' /\ timed s 1 (now s).
Proof.
  destruct (foldl (fun o a => o ≫= fun s => if serial a s then act iter0 id None a s else None) (Some store_new)
    parked_for_ten) as [s|] eqn:E; [|by vm_compute in E].
  pose proof (exec_serial iter0 id None _ _ _ (reach_new _ _ _ _) E) as Hr.
  assert (Hp : pending s = [] /\ filed (wheel s) !! 1 = Some 12 /\ exists s', act iter0 id None (AFire 12 1) s = Some s').
  { vm_compute in E. injection E as <-. split_and!; [done|done|]. eexists. vm_compute. reflexivity. }
  destruct Hp as (Hp & Hfile & s' & Ha). exists s, s'.
  destruct (timers_are_exact iter0 id None s iter0_perm Hr Hp) as (_ & Htimed & _ & Hfire).
  split_and!; [done..|by apply Htimed|done|by eapply Hfire].
Defined.

(** A second claim finds nothing and stalls before its cancellation; the first hands the pane over, the
    client leaves again, the pane is parked for 10, and then the cancellation runs. *)
Definition cancel_too_late : list Action :=
  [ACall (DInsert pane1 None); AStep 0; ACall (DClaim 1); AStep 1; AStep 1; AStep 1; ACall (DClaim 1); AStep 2;
   ACall (DInsert pane1 (Some 10)); AStep 3; AStep 3; AStep 2].

(** The wheel has taken a callback; before it runs, the pane is claimed and parked again for 100. *)
Definition callback_too_late : list Action :=
  [ACall (DInsert pane1 (Some 10)); AStep 0; AStep 0; ATick 10; AFire 10 1; ACall (DClaim 1); AStep 1; AStep 1; AStep 1;
   ACall (DInsert pane1 (Some 100)); AStep 2; AStep 2].

(** When calls overlap the timers can go wrong both ways. A claim that lost the race cancels after it
    released the lock, and may so cancel the timer of the next stay of the pane: nothing is left to
    run, the pane was parked with a time-to-live, and no deadline is filed for it. And a callback
    the wheel has taken evicts by id: it kills a pane that was claimed and parked again since, with
    its own time-to-live not over. *)
Theorem late_timers_hit_the_next_stay :
  (exists s e, reachable iter0 id None (fun _ _ => True) s /\ pending s = [] /\ held s !! 1 = Some e /\ ttl e = Some 10 /\
     stopping (wheel s) = false /\ queue (wheel s) = ∅ /\ filed (wheel s) = ∅) /\
  (exists s s' e, reachable iter0 id None (fun _ _ => True) s /\ held s !! 1 = Some e /\ ttl e = Some 100 /\ now s = 10 /\
     detached_at e = 10 /\ exec iter0 id None [AFiring; AFiring; AFiring; AFiring] s = Some s' /\ now s' = 10 /\
     (park e, Evicted) ∈ ended s' /\ (park e, slot (pane e)) ∈ killed s').
Proof.
  split.
  - destruct (exec iter0 id None cancel_too_late store_new) as [s|] eqn:E; [|by vm_compute in E].
    pose proof (store_exec_reachable _ _ _ _ _ _ (reach_new _ _ _ _) E) as Hr.
    vm_compute in E. injection E as <-. do 2 eexists. split_and!; [exact Hr|reflexivity..].
  - destruct (exec iter0 id None callback_too_late store_new) as [s|] eqn:E; [|by vm_compute in E].
    pose proof (store_exec_reachable _ _ _ _ _ _ (reach_new _ _ _ _) E) as Hr.
    vm_compute in E. injection E as <-. do 3 eexists. split_and!; [exact Hr|reflexivity..|vm_compute; reflexivity| | |].
    + reflexivity.
    + vm_compute. right. left.
    + vm_compute. left.
Qed.
