(* ===== verification/Document.v ===== *)
(** * Document: the workspace document and its diffs

    Models [slopdesk-wire/src/document/state.rs]: the addressable cells, the document as an ordered map
    of cells to bytes, and the diff that carries one document to another.  The document is a [gmap], so
    two documents are equal when they hold the same cells; what the code sees of the order is the
    order of iteration, by ascending key. *)

From stdpp Require Import gmap sorting.
From S2P Require Import Prelude BTree Message.

(** ** Cells *)

Inductive WorkspaceObjectKind : Type := Root | Session | Tab | Pane | SplitNode | Project.

Definition ALL_KINDS : list WorkspaceObjectKind := [Root; Session; Tab; Pane; SplitNode; Project].

Definition kind_from_byte (b : byte) : option WorkspaceObjectKind :=
  match byte_to_Z b with
  | 0 => Some Root
  | 1 => Some Session
  | 2 => Some Tab
  | 3 => Some Pane
  | 4 => Some SplitNode
  | 5 => Some Project
  | _ => None
  end.

Definition kind_as_byte (k : WorkspaceObjectKind) : byte :=
  byte_of_Z match k with Root => 0 | Session => 1 | Tab => 2 | Pane => 3 | SplitNode => 4 | Project => 5 end.

Definition ROOT_OBJECT_ID : RawUuid := replicate 16 (byte_of_Z 0).

Record WorkspaceKey : Type := mkKey { kind : byte; object_id : RawUuid; field : byte }.

Definition key_of (k : WorkspaceObjectKind) (id : RawUuid) (f : byte) : WorkspaceKey := mkKey (kind_as_byte k) id f.
Definition root_key (f : byte) : WorkspaceKey := key_of Root ROOT_OBJECT_ID f.

#[export] Instance byte_countable : Countable byte := inj_countable' byte_to_Z byte_of_Z byte_of_Z_to_Z.
#[export] Instance key_eq_dec : EqDecision WorkspaceKey.
Proof. solve_decision. Defined.
#[export] Program Instance key_countable : Countable WorkspaceKey :=
  inj_countable' (fun k => (kind k, object_id k, field k)) (fun p => mkKey p.1.1 p.1.2 p.2) _.
Next Obligation. by intros []. Qed.

(** The derived order: the kind, then the bytes of the object, then the field. *)
Fixpoint bytes_compare (a b : list byte) : comparison :=
  match a, b with
  | [], [] => Eq
  | [], _ => Lt
  | _, [] => Gt
  | x :: a, y :: b => match Z.compare (byte_to_Z x) (byte_to_Z y) with Eq => bytes_compare a b | c => c end
  end.
Definition key_compare (a b : WorkspaceKey) : comparison :=
  match Z.compare (byte_to_Z (kind a)) (byte_to_Z (kind b)) with
  | Eq => match bytes_compare (object_id a) (object_id b) with
          | Eq => Z.compare (byte_to_Z (field a)) (byte_to_Z (field b))
          | c => c
          end
  | c => c
  end.
Definition cell_le (a b : WorkspaceKey) : Prop := key_compare a b <> Gt.
#[export] Instance cell_le_dec : RelDecision cell_le := fun a b => decide (key_compare a b <> Gt).

Record WorkspaceEntry : Type := mkEntry { entry_key : WorkspaceKey; entry_value : list byte }.
Record WorkspaceStateDiff : Type := mkDiff { sets : list WorkspaceEntry; deletes : list WorkspaceKey }.

Definition diff_is_empty (d : WorkspaceStateDiff) : bool :=
  match sets d, deletes d with [], [] => true | _, _ => false end.

(** ** The document *)

Abbreviation HostWorkspaceState := (gmap WorkspaceKey (list byte)).

Definition state_new : HostWorkspaceState := ∅.

(** A later entry for a key wins. *)
Definition from_entries (l : list WorkspaceEntry) : HostWorkspaceState :=
  foldl (fun s e => <[entry_key e := entry_value e]> s) ∅ l.

Definition sorted_entries (s : HostWorkspaceState) : list WorkspaceEntry :=
  map (fun p => mkEntry p.1 p.2) (btree_by cell_le s).

Definition keys (s : HostWorkspaceState) : list WorkspaceKey := keys_by cell_le s.

Definition of_object (k : byte) (id : RawUuid) (key : WorkspaceKey) : Prop := kind key = k /\ object_id key = id.
#[export] Instance of_object_dec k id key : Decision (of_object k id key).
Proof. unfold of_object. apply _. Defined.

Definition keys_of_object (s : HostWorkspaceState) (k : byte) (id : RawUuid) : list WorkspaceKey :=
  filter (of_object k id) (keys s).

Definition set (s : HostWorkspaceState) (key : WorkspaceKey) (value : list byte) : HostWorkspaceState :=
  <[key := value]> s.

(** Whether that changed anything comes with the document. *)
Definition set_or_clear (s : HostWorkspaceState) (key : WorkspaceKey) (value : option (list byte)) :
  HostWorkspaceState * bool :=
  match value with
  | Some v => if bool_decide (s !! key = Some v) then (s, false) else (<[key := v]> s, true)
  | None => (delete key s, bool_decide (is_Some (s !! key)))
  end.

Definition remove_object (s : HostWorkspaceState) (k : byte) (id : RawUuid) : HostWorkspaceState :=
  filter (fun p => ~ of_object k id p.1) s.

Definition diff_from (s base : HostWorkspaceState) : WorkspaceStateDiff :=
  mkDiff (map (fun p => mkEntry p.1 p.2) (filter (fun p => base !! p.1 <> Some p.2) (btree_by cell_le s)))
    (filter (fun key => ~ is_Some (s !! key)) (keys base)).

Definition apply (s : HostWorkspaceState) (d : WorkspaceStateDiff) : HostWorkspaceState :=
  foldl (fun s key => delete key s) (foldl (fun s e => <[entry_key e := entry_value e]> s) s (sets d)) (deletes d).

(** ** What a diff does, key by key *)

Lemma foldl_set_lookup l : forall (s : HostWorkspaceState) key,
  foldl (fun s e => <[entry_key e := entry_value e]> s) s l !! key =
  match list_find (fun e => entry_key e = key) (reverse l) with
  | Some (_, e) => Some (entry_value e)
  | None => s !! key
  end.
Proof.
  induction l as [|e l IH] using rev_ind; intros s key; [done|].
  rewrite foldl_app, reverse_app, reverse_singleton. cbn [foldl app list_find]. case_decide as Hk.
  - subst. apply lookup_insert_eq.
  - rewrite lookup_insert_ne by done. rewrite IH. by destruct (list_find _ (reverse l)) as [[]|].
Qed.

Lemma foldl_delete_lookup l : forall (s : HostWorkspaceState) key,
  foldl (fun s key => delete key s) s l !! key = if decide (key ∈ l) then None else s !! key.
Proof.
  induction l as [|k l IH]; intros s key; cbn; [by rewrite decide_False by apply not_elem_of_nil|].
  rewrite IH. destruct (decide (key ∈ l)) as [Hin|Hin].
  - rewrite decide_True; [done|by right].
  - destruct (decide (key = k)) as [->|Hne].
    + rewrite decide_True by left. apply lookup_delete_eq.
    + rewrite decide_False by (by intros [?|?]%elem_of_cons). by rewrite lookup_delete_ne.
Qed.

(** The last set of a key wins. *)
Definition assigned (d : WorkspaceStateDiff) (key : WorkspaceKey) : option (list byte) :=
  match list_find (fun e => entry_key e = key) (reverse (sets d)) with
  | Some (_, e) => Some (entry_value e)
  | None => None
  end.

Lemma lookup_apply s d key :
  apply s d !! key = if decide (key ∈ deletes d) then None
                     else match assigned d key with Some v => Some v | None => s !! key end.
Proof.
  unfold apply, assigned. rewrite foldl_delete_lookup. case_decide; [done|].
  rewrite foldl_set_lookup. by destruct (list_find _ _) as [[]|].
Qed.

Lemma list_find_unique (l : list WorkspaceEntry) e :
  NoDup (map entry_key l) -> e ∈ l -> exists i, list_find (fun x => entry_key x = entry_key e) l = Some (i, e).
Proof.
  intros Hnd Hin. destruct (list_find (fun x => entry_key x = entry_key e) l) as [[i x]|] eqn:E.
  - apply list_find_Some in E as (Hi & Hk & _). exists i. do 2 f_equal. apply list_elem_of_lookup in Hin as [j Hj].
    assert (i = j) as ->; [|congruence]. eapply NoDup_lookup; [exact Hnd|..]; by rewrite list_lookup_fmap, ?Hi, ?Hj; cbn; rewrite ?Hk.
  - apply list_find_None in E. rewrite Forall_forall in E. by destruct (E e Hin).
Qed.

Lemma assigned_unique d e :
  NoDup (map entry_key (sets d)) -> e ∈ sets d -> assigned d (entry_key e) = Some (entry_value e).
Proof.
  intros Hnd Hin. unfold assigned.
  destruct (list_find_unique (reverse (sets d)) e) as [i ->]; [|by apply elem_of_reverse|done].
  change (map entry_key (reverse (sets d))) with (entry_key <$> reverse (sets d)). rewrite fmap_reverse.
  by rewrite reverse_Permutation.
Qed.

Lemma assigned_none d key : assigned d key = None <-> forall v, mkEntry key v ∉ sets d.
Proof.
  unfold assigned. destruct (list_find _ _) as [[i e]|] eqn:E.
  - apply list_find_Some in E as (Hi & <- & _). split; [done|]. intros H. exfalso. apply (H (entry_value e)).
    destruct e. apply elem_of_reverse, list_elem_of_lookup. eauto.
  - split; [|done]. intros _ v Hin. apply list_find_None in E. rewrite Forall_forall in E.
    apply (E (mkEntry key v)); [by apply elem_of_reverse|done].
Qed.

(** ** The diff between two documents *)

Lemma diff_sets_keys s base : NoDup (map entry_key (sets (diff_from s base))).
Proof.
  unfold diff_from; cbn. rewrite map_map. cbn. eapply sublist_NoDup; [apply (btree_by_keys cell_le s)|].
  apply fmap_sublist, sublist_filter.
Qed.

Lemma elem_of_diff_sets s base key v :
  mkEntry key v ∈ sets (diff_from s base) <-> s !! key = Some v /\ base !! key <> Some v.
Proof.
  unfold diff_from; cbn. rewrite list_elem_of_fmap. split.
  - intros ([k x] & [= -> ->] & [Hb Hin]%list_elem_of_filter). by apply elem_of_btree_by in Hin.
  - intros [Hs Hb]. exists (key, v). split; [done|]. apply list_elem_of_filter. split; [done|].
    by apply elem_of_btree_by.
Qed.

Lemma elem_of_diff_deletes s base key : key ∈ deletes (diff_from s base) <-> s !! key = None /\ is_Some (base !! key).
Proof.
  unfold diff_from; cbn. rewrite list_elem_of_filter. unfold keys. rewrite elem_of_keys_by, <- eq_None_not_Some. done.
Qed.

Lemma apply_diff_from s base : apply base (diff_from s base) = s.
Proof.
  apply map_eq. intros key. rewrite lookup_apply. case_decide as Hd.
  - apply elem_of_diff_deletes in Hd as [-> _]. done.
  - destruct (assigned (diff_from s base) key) as [v|] eqn:E.
    + unfold assigned in E. destruct (list_find _ _) as [ [i e]|] eqn:Ef; [|done]. injection E as <-.
      apply list_find_Some in Ef as (Hi & <- & _). destruct e as [k x]. symmetry. apply (elem_of_diff_sets s base).
      apply elem_of_reverse, list_elem_of_lookup. eauto.
    + rewrite elem_of_diff_deletes in Hd. destruct (s !! key) as [v|] eqn:Es.
      * destruct (decide (base !! key = Some v)) as [|Hne]; [done|]. exfalso.
        by apply (proj1 (assigned_none _ _) E v), elem_of_diff_sets.
      * apply eq_None_not_Some. intros Hb. by apply Hd.
Qed.

Lemma apply_idempotent s d : apply (apply s d) d = apply s d.
Proof.
  apply map_eq. intros key. rewrite !lookup_apply. case_decide; [done|]. by destruct (assigned d key).
Qed.

Lemma apply_empty s d : diff_is_empty d = true -> apply s d = s.
Proof. destruct d as [ [|] [|] ]; done. Qed.

Lemma diff_is_empty_iff s base : diff_is_empty (diff_from s base) = true <-> s = base.
Proof.
  split.
  - intros H. rewrite <- (apply_diff_from s base). by apply apply_empty.
  - intros ->. unfold diff_is_empty. destruct (sets (diff_from base base)) as [|e l] eqn:Es.
    + destruct (deletes (diff_from base base)) as [|k l] eqn:Ed; [done|]. exfalso.
      assert (Hin : k ∈ deletes (diff_from base base)) by (rewrite Ed; left).
      apply elem_of_diff_deletes in Hin as [E [x Hx] ]. congruence.
    + exfalso. assert (Hin : mkEntry (entry_key e) (entry_value e) ∈ sets (diff_from base base))
        by (rewrite Es; destruct e; left).
      apply elem_of_diff_sets in Hin as [? ?]. done.
Qed.

(** A diff is exact and minimal: applied to its base it gives the document it was computed from, it is
    empty exactly when the two are equal, every cell it assigns differs in the base and every cell it
    deletes is only in the base, no cell twice. Applying any diff at all a second time changes nothing,
    and a cell a diff names comes out the same whatever it was applied to. *)
Theorem diff_is_exact (s base : HostWorkspaceState) :
  apply base (diff_from s base) = s /\
  (diff_is_empty (diff_from s base) = true <-> s = base) /\
  (forall key v, mkEntry key v ∈ sets (diff_from s base) <-> s !! key = Some v /\ base !! key <> Some v) /\
  (forall key, key ∈ deletes (diff_from s base) <-> s !! key = None /\ is_Some (base !! key)) /\
  NoDup (map entry_key (sets (diff_from s base)) ++ deletes (diff_from s base)) /\
  (forall t d, apply (apply t d) d = apply t d) /\
  (forall t u d key, key ∈ map entry_key (sets d) ++ deletes d -> apply t d !! key = apply u d !! key).
Proof.
  split_and!; [apply apply_diff_from|apply diff_is_empty_iff|apply elem_of_diff_sets|apply elem_of_diff_deletes| |
    apply apply_idempotent|].
  - apply NoDup_app. split_and!; [apply diff_sets_keys| |].
    + intros key Hin Hd. apply list_elem_of_fmap in Hin as ([k v] & -> & Hin).
      apply elem_of_diff_sets in Hin as [Hs _]. apply elem_of_diff_deletes in Hd as [Hd _]. cbn in *. congruence.
    + apply NoDup_filter, btree_by_keys.
  - intros t u d key Hin. rewrite !lookup_apply. case_decide as Hd; [done|]. apply elem_of_app in Hin as [Hin|]; [|done].
    destruct (assigned d key) as [v|] eqn:E; [done|]. apply list_elem_of_fmap in Hin as ([k v] & -> & Hin).
    by destruct (proj1 (assigned_none d k) E v).
Qed.

(** ** What is read back *)

Lemma from_sorted_entries s : from_entries (sorted_entries s) = s.
Proof.
  apply map_eq. intros key. unfold from_entries. rewrite foldl_set_lookup.
  destruct (list_find _ _) as [ [i e]|] eqn:E.
  - apply list_find_Some in E as (Hi & <- & _). assert (Hin : e ∈ sorted_entries s).
    { apply elem_of_reverse, list_elem_of_lookup. eauto. }
    unfold sorted_entries in Hin. apply list_elem_of_fmap in Hin as ([k v] & -> & Hin). symmetry.
    by apply elem_of_btree_by in Hin.
  - rewrite lookup_empty. destruct (s !! key) as [v|] eqn:Es; [|done]. apply list_find_None in E.
    rewrite Forall_forall in E. destruct (E (mkEntry key v)); [|done]. apply elem_of_reverse.
    unfold sorted_entries. apply list_elem_of_fmap. exists (key, v). split; [done|]. by apply elem_of_btree_by.
Qed.

Lemma length_sorted_entries s : length (sorted_entries s) = size s.
Proof. unfold sorted_entries. rewrite length_map. apply length_btree_by. Qed.
