(* ===== verification/Cells.v ===== *)
(** * Cells: the bytes of the workspace document

    Models [slopdesk-wire/src/document/codec.rs]: snapshots, diffs, the pane-tree shape of a tab, and the
    values of single cells, all big-endian.  The structural decoders answer a [wresult], the cell
    decoders an [option], as in the code.  A floating-point weight is its 64-bit pattern: the codec
    carries bits ([f64::to_bits]) and never looks at the number. *)

From stdpp Require Import gmap sorting pretty.
From S2P Require Import Prelude Bytes BTree Message Document.

Definition MAX_ENTRY_COUNT : Z := 65536.
Definition KEY_ENCODED_SIZE : Z := 18.
Definition ENTRY_FLOOR_BYTES : Z := KEY_ENCODED_SIZE + 4.
Definition MAX_ENTRY_VALUE_BYTES : Z := 2147483647.
Definition MAX_LAYOUT_DEPTH : nat := 12.
Definition MAX_STRING_BYTES : Z := 65535.

(** [usize::saturating_mul], and [u32]/[u8]/[u16::try_from(..).unwrap_or(MAX)]. *)
Definition saturating_mul_usize (a b : Z) : Z := Z.min (a * b) usize_max.
Definition u32_or_max (v : Z) : Z := if v <=? u32_max then v else u32_max.
Definition u8_or_max (v : Z) : Z := if v <=? 255 then v else 255.

(** [for _ in 0..count { out.push(p(reader)?) }]. *)
Fixpoint read_many {A} (p : Parser A) (count : nat) : Parser (list A) :=
  match count with
  | O => mret []
  | S count => x ← p; xs ← read_many p count; mret (x :: xs)
  end.

(** A number in a message. *)
Definition show (v : Z) : string := pretty (Z.to_N v).

(** Nothing may follow. *)
Definition read_end (what : string) : Parser unit :=
  left ← read_bytes_remaining;
  if negb (left =? 0) then parser_fail (malformed what) else mret tt.

Definition run_parser {A} (p : Parser A) (data : list byte) : wresult A :=
  match p (reader_new data) with Ok (v, _) => Ok v | Err e => Err e end.

(** ** Keys, entries, documents *)

Definition put_key (w : ByteWriter) (key : WorkspaceKey) : ByteWriter :=
  put_u8 (put_bytes (put_u8 w (kind key)) (object_id key)) (field key).
Definition encode_key (key : WorkspaceKey) : list byte := into_vec (put_key writer_new key).

Definition read_uuid : Parser RawUuid :=
  bytes ← read_bytes SESSION_ID_BYTE_COUNT;
  parser_lift (if decide (zlen bytes = SESSION_ID_BYTE_COUNT) then Ok bytes else Err Truncated).

Definition read_key : Parser WorkspaceKey :=
  kind ← read_u8; object_id ← read_uuid; field ← read_u8; mret (mkKey kind object_id field).

Definition put_entry (w : ByteWriter) (e : WorkspaceEntry) : ByteWriter :=
  put_bytes (put_u32 (put_key w (entry_key e)) (u32_or_max (zlen (entry_value e)))) (entry_value e).

Definition read_entry : Parser WorkspaceEntry :=
  key ← read_key;
  declared ← read_u32;
  left ← read_bytes_remaining;
  if (MAX_ENTRY_VALUE_BYTES <? declared) || (left <? declared)
  then parser_fail (malformed ("workspace entry: value " +:+ show declared +:+ " exceeds the " +:+ show left
                               +:+ " bytes left"))
  else value ← read_bytes declared; mret (mkEntry key value).

Definition read_entries (count : Z) : Parser (list WorkspaceEntry) :=
  if MAX_ENTRY_COUNT <? count then parser_fail (malformed ("workspace entries: count " +:+ show count +:+ " > " +:+ show MAX_ENTRY_COUNT))
  else
    left ← read_bytes_remaining;
    if left <? saturating_mul_usize count ENTRY_FLOOR_BYTES
    then parser_fail (malformed ("workspace entries: " +:+ show count +:+ " entries need at least "
                                 +:+ show (saturating_mul_usize count ENTRY_FLOOR_BYTES) +:+ " bytes"))
    else read_many read_entry (Z.to_nat count).

Definition encode_snapshot (s : HostWorkspaceState) : list byte :=
  let entries := sorted_entries s in
  into_vec (foldl put_entry (put_u32 writer_new (u32_or_max (zlen entries))) entries).

Definition read_snapshot : Parser HostWorkspaceState :=
  count ← read_u32;
  entries ← read_entries count;
  _ ← read_end "workspace snapshot: trailing bytes";
  mret (from_entries entries).
Definition decode_snapshot (data : list byte) : wresult HostWorkspaceState := run_parser read_snapshot data.

Definition encode_diff (d : WorkspaceStateDiff) : list byte :=
  let w := foldl put_entry (put_u32 writer_new (u32_or_max (zlen (sets d)))) (sets d) in
  into_vec (foldl put_key (put_u32 w (u32_or_max (zlen (deletes d)))) (deletes d)).

Definition read_deletes (count : Z) : Parser (list WorkspaceKey) :=
  if MAX_ENTRY_COUNT <? count then parser_fail (malformed ("workspace diff: delete count " +:+ show count +:+ " > " +:+ show MAX_ENTRY_COUNT))
  else
    left ← read_bytes_remaining;
    if left <? saturating_mul_usize count KEY_ENCODED_SIZE
    then parser_fail (malformed ("workspace diff: " +:+ show count +:+ " deletes need "
                                 +:+ show (saturating_mul_usize count KEY_ENCODED_SIZE) +:+ " bytes"))
    else read_many read_key (Z.to_nat count).

Definition read_diff : Parser WorkspaceStateDiff :=
  set_count ← read_u32;
  sets ← read_entries set_count;
  delete_count ← read_u32;
  deletes ← read_deletes delete_count;
  _ ← read_end "workspace diff: trailing bytes";
  mret (mkDiff sets deletes).
Definition decode_diff (data : list byte) : wresult WorkspaceStateDiff := run_parser read_diff data.

(** ** The shape of a tab *)

Inductive SplitAxis : Type := Horizontal | Vertical.

Inductive WorkspaceLayoutNode : Type :=
| Leaf (pane : RawUuid)
| Split (id : RawUuid) (axis : SplitAxis) (children : list WorkspaceLayoutNode).

Definition axis_from_byte (b : byte) : SplitAxis := if byte_to_Z b =? 0 then Horizontal else Vertical.
Definition axis_as_byte (a : SplitAxis) : byte := byte_of_Z match a with Horizontal => 0 | Vertical => 1 end.

(** The children beyond the 255th are not written: their count is one byte. *)
Fixpoint put_layout (w : ByteWriter) (node : WorkspaceLayoutNode) : ByteWriter :=
  match node with
  | Leaf pane => put_bytes (put_u8 w (byte_of_Z 0)) pane
  | Split id axis children =>
    let w := put_u8 (put_bytes (put_u8 w (byte_of_Z 1)) id) (axis_as_byte axis) in
    let w := put_u8 w (byte_of_Z (u8_or_max (zlen children))) in
    (fix go n w children {struct children} :=
       match n, children with
       | S n, c :: children => go n (put_layout w c) children
       | _, _ => w
       end) 255%nat w children
  end.
Definition encode_layout (node : WorkspaceLayoutNode) : list byte := into_vec (put_layout writer_new node).

(** [levels] is what is left of the depth cap: [MAX_LAYOUT_DEPTH + 1 - depth]. *)
Fixpoint read_layout_node (levels : nat) : Parser WorkspaceLayoutNode :=
  match levels with
  | O => parser_fail (malformed ("workspace layout: nested past depth " +:+ show (Z.of_nat MAX_LAYOUT_DEPTH)))
  | S levels =>
    tag ← read_u8;
    match byte_to_Z tag with
    | 0 => pane ← read_uuid; mret (Leaf pane)
    | 1 =>
      id ← read_uuid;
      axis ← read_u8;
      child_count ← read_u8;
      left ← read_bytes_remaining;
      if left <? byte_to_Z child_count
      then parser_fail (malformed ("workspace layout: " +:+ show (byte_to_Z child_count)
                                   +:+ " children need at least that many bytes"))
      else
        children ← read_many (read_layout_node levels) (Z.to_nat (byte_to_Z child_count));
        mret (Split id (axis_from_byte axis) children)
    | _ => parser_fail (malformed ("workspace layout: unknown node tag " +:+ show (byte_to_Z tag)))
    end
  end.

Definition decode_layout (data : list byte) : wresult WorkspaceLayoutNode :=
  run_parser (node ← read_layout_node (S MAX_LAYOUT_DEPTH);
              _ ← read_end "workspace layout: trailing bytes"; mret node) data.

(** ** Weights *)

Inductive SplitWeight : Type := Flex (bits : Z) | Fixed (bits : Z).

Definition kind_byte (w : SplitWeight) : byte := byte_of_Z match w with Flex _ => 0 | Fixed _ => 1 end.
Definition weight_bits (w : SplitWeight) : Z := match w with Flex b | Fixed b => b end.

Definition put_weight (w : ByteWriter) (x : SplitWeight) : ByteWriter := put_u64 (put_u8 w (kind_byte x)) (weight_bits x).
Definition encode_weight (x : SplitWeight) : list byte := into_vec (put_weight writer_new x).
Definition read_weight : Parser SplitWeight :=
  k ← read_u8; bits ← read_u64; mret (if byte_to_Z k =? 0 then Flex bits else Fixed bits).
Definition decode_weight (data : list byte) : wresult SplitWeight :=
  run_parser (x ← read_weight; _ ← read_end "workspace weight: trailing bytes"; mret x) data.

Definition encode_weights (l : list SplitWeight) : list byte :=
  let count := Z.min (zlen l) 255 in
  into_vec (foldl put_weight (put_u8 writer_new (byte_of_Z (u8_or_max count))) (take (Z.to_nat count) l)).

(** [.ok()?] *)
Definition ok {A} (m : wresult A) : option A := match m with Ok a => Some a | Err _ => None end.

Definition decode_weights (data : list byte) : option (list SplitWeight) :=
  ok (run_parser (count ← read_u8;
                  left ← read_bytes_remaining;
                  if negb (left =? byte_to_Z count * 9) then parser_fail Truncated
                  else read_many read_weight (Z.to_nat (byte_to_Z count))) data).

(** ** Identities and records *)

Definition encode_uuid (id : RawUuid) : list byte := id.
Definition decode_uuid (data : list byte) : option RawUuid := if decide (zlen data = 16) then Some data else None.

Definition encode_detached_panes (panes : list (RawUuid * option RawUuid)) : list byte :=
  let count := Z.min (zlen panes) 65535 in
  into_vec (foldl (fun w '(pane, origin) => put_bytes (put_bytes w pane) (default ROOT_OBJECT_ID origin))
    (put_u16 writer_new (u16_try_from_or_max count)) (take (Z.to_nat count) panes)).

Definition read_detached : Parser (RawUuid * option RawUuid) :=
  pane ← read_uuid; origin ← read_uuid;
  mret (pane, if bool_decide (origin = ROOT_OBJECT_ID) then None else Some origin).
Definition decode_detached_panes (data : list byte) : option (list (RawUuid * option RawUuid)) :=
  ok (run_parser (count ← read_u16;
                  left ← read_bytes_remaining;
                  if negb (left =? count * 32) then parser_fail Truncated
                  else read_many read_detached (Z.to_nat count)) data).

Record VideoEndpoint : Type := mkEndpoint {
  window_id : Z;
  title : list byte;
  app_name : list byte;
  display_id : option Z;
}.

Definition put_clamped (w : ByteWriter) (text : list byte) : ByteWriter :=
  let bytes := clamp_utf8 text MAX_STRING_BYTES in
  put_bytes (put_u16 w (u16_try_from_or_max (zlen bytes))) bytes.
Definition encode_video_target (e : VideoEndpoint) : list byte :=
  let w := put_u32 writer_new (window_id e) in
  let w := put_bool w (bool_decide (is_Some (display_id e))) in
  let w := put_u32 w (default 0 (display_id e)) in
  into_vec (put_clamped (put_clamped w (title e)) (app_name e)).

Definition read_u16_prefixed_string : Parser (list byte) :=
  len ← read_u16; bytes ← read_bytes len;
  parser_lift (if utf8_valid bytes then Ok bytes else Err Truncated).
Definition decode_video_target (data : list byte) : option VideoEndpoint :=
  ok (run_parser (window_id ← read_u32;
                  has_display ← read_bool;
                  display_id ← read_u32;
                  title ← read_u16_prefixed_string;
                  app_name ← read_u16_prefixed_string;
                  left ← read_bytes_remaining;
                  if negb (left =? 0) then parser_fail Truncated
                  else mret (mkEndpoint window_id title app_name (if has_display : bool then Some display_id else None)))
        data).

(** ** Scalars *)

Definition encode_string (text : list byte) (max_bytes : Z) : list byte := clamp_utf8 text max_bytes.
Definition decode_string (data : list byte) : option (list byte) := if utf8_valid data then Some data else None.
Definition encode_u8 (v : byte) : list byte := [v].
Definition decode_u8 (data : list byte) : option byte := match data with [b] => Some b | _ => None end.
Definition encode_bool (v : bool) : list byte := encode_u8 (byte_of_Z (if v then 1 else 0)).
Definition decode_bool (data : list byte) : option bool := (fun b => negb (byte_to_Z b =? 0)) <$> decode_u8 data.
Definition encode_u8_pair (first second : byte) : list byte := [first; second].
Definition decode_u8_pair (data : list byte) : option (byte * byte) :=
  match data with [a; b] => Some (a, b) | _ => None end.
Definition encode_u16_pair (first second : Z) : list byte := into_vec (put_u16 (put_u16 writer_new first) second).
Definition decode_u16_pair (data : list byte) : option (Z * Z) :=
  match data with [a; b; c; d] => Some (from_be_bytes [a; b], from_be_bytes [c; d]) | _ => None end.
Definition encode_u32 (v : Z) : list byte := to_be_bytes 4 v.
Definition decode_u32 (data : list byte) : option Z := if decide (length data = 4%nat) then Some (from_be_bytes data) else None.
Definition encode_i32 (v : Z) : list byte := to_be_bytes 4 (cast_unsigned 32 v).
Definition decode_i32 (data : list byte) : option Z := cast_signed 32 <$> decode_u32 data.
Definition encode_i64 (v : Z) : list byte := to_be_bytes 8 (cast_unsigned 64 v).
Definition decode_i64 (data : list byte) : option Z :=
  if decide (length data = 8%nat) then Some (cast_signed 64 (from_be_bytes data)) else None.

Definition encode_uuid_list (ids : list RawUuid) : list byte :=
  let count := Z.min (zlen ids) 65535 in
  into_vec (foldl put_bytes (put_u16 writer_new (u16_try_from_or_max count)) (take (Z.to_nat count) ids)).
Definition decode_uuid_list (data : list byte) : option (list RawUuid) :=
  ok (run_parser (count ← read_u16;
                  left ← read_bytes_remaining;
                  if negb (left =? count * 16) then parser_fail Truncated
                  else read_many read_uuid (Z.to_nat count)) data).

(** ** Writing *)

Definition key_chunks (key : WorkspaceKey) : list byte := [kind key] ++ object_id key ++ [field key].
Definition entry_chunks (e : WorkspaceEntry) : list byte :=
  key_chunks (entry_key e) ++ to_be_bytes 4 (u32_or_max (zlen (entry_value e))) ++ entry_value e.

(** [writes f g]: on an owned buffer, [f] appends [g]. *)
Definition appends (f : ByteWriter -> ByteWriter) (bs : list byte) : Prop :=
  forall buf, f (mkWriter (Owned buf)) = mkWriter (Owned (buf ++ bs)).

Lemma appends_slice bs : appends (fun w => put_slice w bs) bs.
Proof. done. Qed.

Lemma appends_comp f g a b : appends f a -> appends g b -> appends (fun w => g (f w)) (a ++ b).
Proof. intros Hf Hg buf. by rewrite Hf, Hg, app_assoc. Qed.

Lemma appends_foldl {A} (put : ByteWriter -> A -> ByteWriter) (bs : A -> list byte) l :
  (forall x, x ∈ l -> appends (fun w => put w x) (bs x)) -> appends (fun w => foldl put w l) (concat (map bs l)).
Proof.
  induction l as [|x l IH]; intros H buf; cbn; [by rewrite app_nil_r|].
  pose proof (H x ltac:(left) buf) as E. cbv beta in E. rewrite E.
  pose proof (IH (fun y Hy => H y (list_elem_of_further _ _ _ Hy)) (buf ++ bs x)) as E'. cbv beta in E'.
  by rewrite E', app_assoc.
Qed.

Lemma into_vec_appends f bs : appends f bs -> into_vec (f writer_new) = bs.
Proof. intros H. unfold writer_new. by rewrite H. Qed.

Lemma appends_key key : appends (fun w => put_key w key) (key_chunks key).
Proof. intros buf. unfold key_chunks. cbn. by rewrite <- !app_assoc. Qed.

Lemma appends_entry e : appends (fun w => put_entry w e) (entry_chunks e).
Proof.
  intros buf. unfold entry_chunks, put_entry. rewrite appends_key.
  change (mkWriter (Owned (((buf ++ key_chunks (entry_key e)) ++ to_be_bytes 4 (u32_or_max (zlen (entry_value e)))) ++
    entry_value e)) = mkWriter (Owned (buf ++ key_chunks (entry_key e) ++ to_be_bytes 4 (u32_or_max (zlen (entry_value e))) ++
    entry_value e))). by rewrite <- !app_assoc.
Qed.

Lemma encode_snapshot_bytes s :
  encode_snapshot s =
  to_be_bytes 4 (u32_or_max (zlen (sorted_entries s))) ++ concat (map entry_chunks (sorted_entries s)).
Proof.
  unfold encode_snapshot, writer_new. change (put_u32 (mkWriter (Owned [])) ?v) with (mkWriter (Owned (to_be_bytes 4 v))).
  by rewrite (appends_foldl put_entry entry_chunks) by (intros; apply appends_entry).
Qed.

Lemma encode_diff_bytes d :
  encode_diff d =
  to_be_bytes 4 (u32_or_max (zlen (sets d))) ++ concat (map entry_chunks (sets d)) ++
  to_be_bytes 4 (u32_or_max (zlen (deletes d))) ++ concat (map key_chunks (deletes d)).
Proof.
  unfold encode_diff, writer_new. change (put_u32 (mkWriter (Owned [])) ?v) with (mkWriter (Owned (to_be_bytes 4 v))).
  rewrite (appends_foldl put_entry entry_chunks) by (intros; apply appends_entry).
  change (put_u32 (mkWriter (Owned ?b)) ?v) with (mkWriter (Owned (b ++ to_be_bytes 4 v))).
  rewrite (appends_foldl put_key key_chunks) by (intros; apply appends_key). cbn. by rewrite <- !app_assoc.
Qed.

(** ** Reading back *)

Lemma runs_read_many {A} (p : Parser A) (bs : A -> list byte) l : forall n,
  (forall x n, x ∈ l -> runs_at p n (bs x) x) -> runs_at (read_many p (length l)) n (concat (map bs l)) l.
Proof.
  induction l as [|x l IH]; intros n H; [apply runs_ret|]. cbn [read_many length map concat].
  eapply runs_bind; [apply H; left|]. rewrite <- (app_nil_r (concat _)).
  eapply runs_bind; [apply IH; intros; apply H; by right|apply runs_ret].
Qed.

(** [read_bytes_remaining] sees at least what is parsed next. *)
Lemma runs_remaining {B} (k : Z -> Parser B) n bs v :
  (forall left, zlen bs <= left -> runs_at (k left) n bs v) -> runs_at (left ← read_bytes_remaining; k left) n bs v.
Proof.
  intros H pre rest Hn Hmax. unfold mbind, parser_bind, read_bytes_remaining, bytes_remaining. cbn [rd_data rd_offset].
  apply H; [|done..]. rewrite !length_app. lia.
Qed.

Lemma ends_read_end what n : ends_at (read_end what) n [] tt.
Proof.
  intros pre Hn Hmax. unfold read_end, mbind, parser_bind, read_bytes_remaining, bytes_remaining. cbn [rd_data rd_offset].
  rewrite app_nil_r, Hn, Z.sub_diag. cbn. by rewrite Z.add_0_r.
Qed.

Lemma runs_cell_uuid n u : is_uuid u -> runs_at read_uuid n u u.
Proof.
  unfold is_uuid. intros Hu. eapply runs_lift; [apply runs_read_bytes; unfold SESSION_ID_BYTE_COUNT; lia|].
  rewrite decide_True by (unfold SESSION_ID_BYTE_COUNT; lia). done.
Qed.

Definition key_ok (key : WorkspaceKey) : Prop := is_uuid (object_id key).
Definition entry_ok (e : WorkspaceEntry) : Prop := key_ok (entry_key e) /\ zlen (entry_value e) <= MAX_ENTRY_VALUE_BYTES.
Definition state_ok (s : HostWorkspaceState) : Prop :=
  Z.of_nat (size s) <= MAX_ENTRY_COUNT /\
  forall key v, s !! key = Some v -> key_ok key /\ zlen v <= MAX_ENTRY_VALUE_BYTES.
Definition diff_ok (d : WorkspaceStateDiff) : Prop :=
  zlen (sets d) <= MAX_ENTRY_COUNT /\ zlen (deletes d) <= MAX_ENTRY_COUNT /\
  Forall entry_ok (sets d) /\ Forall key_ok (deletes d).

Lemma key_chunks_length key : key_ok key -> zlen (key_chunks key) = KEY_ENCODED_SIZE.
Proof. unfold key_ok, is_uuid, key_chunks, KEY_ENCODED_SIZE. intros. rewrite !length_app. cbn. lia. Qed.

Lemma runs_read_key n key : key_ok key -> runs_at read_key n (key_chunks key) key.
Proof.
  intros Hk. unfold read_key, key_chunks. eapply runs_bind; [apply runs_next_byte|].
  eapply runs_bind; [by apply runs_cell_uuid|]. rewrite <- (app_nil_r [field key]).
  eapply runs_bind; [apply runs_next_byte|]. destruct key. apply runs_ret.
Qed.

Lemma runs_read_entry n e : entry_ok e -> runs_at read_entry n (entry_chunks e) e.
Proof.
  intros [Hk Hv]. unfold MAX_ENTRY_VALUE_BYTES in Hv. unfold read_entry, entry_chunks, u32_or_max, u32_max.
  destruct (Z.leb_spec (zlen (entry_value e)) (2 ^ 32 - 1)) as [_|]; [|lia].
  eapply runs_bind; [by apply runs_read_key|]. eapply runs_bind; [apply runs_read_u32; unfold u_range; lia|].
  apply runs_remaining. intros left Hleft. unfold MAX_ENTRY_VALUE_BYTES.
  destruct (Z.ltb_spec 2147483647 (zlen (entry_value e))); [lia|]. destruct (Z.ltb_spec left (zlen (entry_value e))); [lia|].
  cbn [orb]. destruct e as [key value]. cbn [entry_key entry_value] in *.
  apply (runs_map (read_bytes (zlen value)) (mkEntry key)). by apply runs_read_bytes.
Qed.

Lemma concat_floor {A} (bs : A -> list byte) l k :
  (forall x, x ∈ l -> k <= zlen (bs x)) -> zlen l * k <= zlen (concat (map bs l)).
Proof.
  induction l as [|x l IH]; intros H; cbn [map concat length]; [lia|]. rewrite length_app.
  pose proof (H x ltac:(left)). specialize (IH ltac:(intros; apply H; by right)). lia.
Qed.

Lemma concat_ceiling {A} (bs : A -> list byte) l k :
  (forall x, x ∈ l -> zlen (bs x) <= k) -> zlen (concat (map bs l)) <= zlen l * k.
Proof.
  induction l as [|x l IH]; intros H; cbn [map concat length]; [lia|]. rewrite length_app.
  pose proof (H x ltac:(left)). specialize (IH ltac:(intros; apply H; by right)). lia.
Qed.

Lemma runs_read_entries n l :
  zlen l <= MAX_ENTRY_COUNT -> Forall entry_ok l -> runs_at (read_entries (zlen l)) n (concat (map entry_chunks l)) l.
Proof.
  intros Hl Hok. rewrite Forall_forall in Hok. unfold read_entries. destruct (Z.ltb_spec MAX_ENTRY_COUNT (zlen l)); [lia|].
  apply runs_remaining. intros left Hleft.
  assert (Hfloor : zlen l * ENTRY_FLOOR_BYTES <= zlen (concat (map entry_chunks l))).
  { apply concat_floor. intros e He. destruct (Hok e He) as [Hk _]. unfold entry_chunks. rewrite !length_app.
    pose proof (key_chunks_length _ Hk). rewrite length_to_be_bytes. unfold ENTRY_FLOOR_BYTES, KEY_ENCODED_SIZE in *. lia. }
  unfold saturating_mul_usize. destruct (Z.ltb_spec left (Z.min (zlen l * ENTRY_FLOOR_BYTES) usize_max)); [lia|].
  rewrite Nat2Z.id. apply runs_read_many. intros e m He. by apply runs_read_entry, Hok.
Qed.

Lemma runs_read_deletes n l :
  zlen l <= MAX_ENTRY_COUNT -> Forall key_ok l -> runs_at (read_deletes (zlen l)) n (concat (map key_chunks l)) l.
Proof.
  intros Hl Hok. rewrite Forall_forall in Hok. unfold read_deletes. destruct (Z.ltb_spec MAX_ENTRY_COUNT (zlen l)); [lia|].
  apply runs_remaining. intros left Hleft.
  assert (Hfloor : zlen l * KEY_ENCODED_SIZE <= zlen (concat (map key_chunks l))).
  { apply concat_floor. intros k Hk. rewrite key_chunks_length by auto. lia. }
  unfold saturating_mul_usize. destruct (Z.ltb_spec left (Z.min (zlen l * KEY_ENCODED_SIZE) usize_max)); [lia|].
  rewrite Nat2Z.id. apply runs_read_many. intros k m Hk. by apply runs_read_key, Hok.
Qed.

Lemma run_ends {A} (p : Parser A) bs v : ends_at p 0 bs v -> zlen bs <= usize_max -> run_parser p bs = Ok v.
Proof. intros H Hmax. unfold run_parser, reader_new. pose proof (H [] eq_refl Hmax) as E. cbn [app] in E. by rewrite E. Qed.

Lemma ends_finish {A B} (p : Parser A) (f : A -> B) what n bs v :
  runs_at p n bs v -> ends_at (x ← p; _ ← read_end what; mret (f x)) n bs (f v).
Proof.
  intros H. rewrite <- (app_nil_r bs). eapply ends_bind; [exact H|].
  rewrite <- (app_nil_r []). eapply (ends_map (read_end what) (fun _ => f v)). apply ends_read_end.
Qed.

Lemma entries_ok s : state_ok s -> zlen (sorted_entries s) <= MAX_ENTRY_COUNT /\ Forall entry_ok (sorted_entries s).
Proof.
  intros [Hn Hs]. rewrite length_sorted_entries. split; [done|]. apply Forall_forall. intros e He.
  unfold sorted_entries in He. apply list_elem_of_fmap in He as ([k v] & -> & Hin). apply elem_of_btree_by in Hin.
  by apply Hs in Hin.
Qed.

Lemma entry_ceiling e : entry_ok e -> zlen (entry_chunks e) <= 2 ^ 32.
Proof.
  intros [Hk Hv]. unfold entry_chunks. rewrite !length_app, length_to_be_bytes. pose proof (key_chunks_length _ Hk).
  unfold MAX_ENTRY_VALUE_BYTES, KEY_ENCODED_SIZE in *. lia.
Qed.

Lemma entries_size l :
  zlen l <= MAX_ENTRY_COUNT -> Forall entry_ok l -> zlen (concat (map entry_chunks l)) <= 2 ^ 48.
Proof.
  intros Hl Hok. rewrite Forall_forall in Hok.
  pose proof (concat_ceiling entry_chunks l (2 ^ 32) (fun e He => entry_ceiling e (Hok e He))).
  unfold MAX_ENTRY_COUNT in Hl. lia.
Qed.

Lemma keys_size l : zlen l <= MAX_ENTRY_COUNT -> Forall key_ok l -> zlen (concat (map key_chunks l)) <= 2 ^ 48.
Proof.
  intros Hl Hok. rewrite Forall_forall in Hok.
  assert (zlen (concat (map key_chunks l)) <= zlen l * 18).
  { apply concat_ceiling. intros k Hk. rewrite key_chunks_length by auto. unfold KEY_ENCODED_SIZE. lia. }
  unfold MAX_ENTRY_COUNT in Hl. lia.
Qed.

Lemma count_fits n : 0 <= n <= MAX_ENTRY_COUNT -> u32_or_max n = n /\ u_range 32 n.
Proof.
  unfold MAX_ENTRY_COUNT, u32_or_max, u32_max, u_range. intros H. destruct (Z.leb_spec n (2 ^ 32 - 1)); split; lia.
Qed.

Lemma snapshot_roundtrip s : state_ok s -> decode_snapshot (encode_snapshot s) = Ok s.
Proof.
  intros H. destruct (entries_ok s H) as [Hn Hok]. destruct (count_fits (zlen (sorted_entries s)) ltac:(lia)) as [Ec Hr].
  apply run_ends.
  - rewrite encode_snapshot_bytes, Ec. unfold read_snapshot. eapply ends_bind; [by apply runs_read_u32|].
    pose proof (ends_finish (read_entries (zlen (sorted_entries s))) from_entries "workspace snapshot: trailing bytes"
      (0 + zlen (to_be_bytes 4 (zlen (sorted_entries s)))) _ _ (runs_read_entries _ _ Hn Hok)) as E.
    by rewrite from_sorted_entries in E.
  - rewrite encode_snapshot_bytes, length_app, length_to_be_bytes. pose proof (entries_size _ Hn Hok).
    unfold usize_max. lia.
Qed.

Lemma diff_roundtrip d : diff_ok d -> decode_diff (encode_diff d) = Ok d.
Proof.
  intros (Hs & Hd & Hes & Hks). destruct (count_fits (zlen (sets d)) ltac:(lia)) as [Ec Hr].
  destruct (count_fits (zlen (deletes d)) ltac:(lia)) as [Ec' Hr']. apply run_ends.
  - rewrite encode_diff_bytes, Ec, Ec'. unfold read_diff. eapply ends_bind; [by apply runs_read_u32|].
    eapply ends_bind; [by apply runs_read_entries|]. eapply ends_bind; [by apply runs_read_u32|].
    destruct d as [ss ds]. cbn [sets deletes] in *. apply (ends_finish (read_deletes (zlen ds)) (mkDiff ss)).
    by apply runs_read_deletes.
  - rewrite encode_diff_bytes, !length_app, !length_to_be_bytes.
    pose proof (entries_size _ Hs Hes). pose proof (keys_size _ Hd Hks). unfold usize_max. lia.
Qed.

Lemma diff_from_ok s base : state_ok s -> state_ok base -> diff_ok (diff_from s base).
Proof.
  intros [Hn Hs] [Hbn Hb]. split_and!.
  - cbn. rewrite length_map. pose proof (length_filter (fun p => base !! p.1 <> Some p.2) (btree_by cell_le s)) as Hf.
    rewrite length_btree_by in Hf. lia.
  - cbn. pose proof (length_filter (fun key => ~ is_Some (s !! key)) (keys base)) as Hf.
    assert (El : length (keys base) = size base) by (unfold keys, keys_by; rewrite length_map; apply length_btree_by).
    lia.
  - apply Forall_forall. intros [k v] He. apply elem_of_diff_sets in He as [He _]. by apply Hs in He.
  - apply Forall_forall. intros k Hk. apply elem_of_diff_deletes in Hk as [_ [v Hv] ]. apply (Hb k v Hv).
Qed.

(** C28: A document and a diff survive the wire: decoding a snapshot gives back the document, decoding a diff
    the diff, and the diff a host encodes between two documents within the limits is within them too,
    so that a client at the base that decodes and applies it holds the document. *)
Theorem document_roundtrip s base d :
  state_ok s -> state_ok base -> diff_ok d ->
  decode_snapshot (encode_snapshot s) = Ok s /\ decode_diff (encode_diff d) = Ok d /\
  (apply base <$> ok (decode_diff (encode_diff (diff_from s base)))) = Some s.
Proof.
  intros Hs Hb Hd. split_and!; [by apply snapshot_roundtrip|by apply diff_roundtrip|].
  rewrite diff_roundtrip by by apply diff_from_ok.
  change (Some (apply base (diff_from s base)) = Some s). by rewrite apply_diff_from.
Qed.

Definition cell_a : WorkspaceKey := key_of Pane (replicate 16 (byte_of_Z 7)) (byte_of_Z 17).
Definition cell_b : WorkspaceKey := mkKey (byte_of_Z 99) (replicate 16 (byte_of_Z 1)) (byte_of_Z 0).

Lemma state_ok_small s : map_Forall (fun k v => key_ok k /\ zlen v <= MAX_ENTRY_VALUE_BYTES) s ->
  Z.of_nat (size s) <= MAX_ENTRY_COUNT -> state_ok s.
Proof. intros H Hn. split; [done|]. intros k v Hk. by apply (H k v). Qed.

Lemma document_roundtrip_witness :
  (apply {[cell_a := []]} <$> ok (decode_diff (encode_diff (diff_from {[cell_b := [byte_of_Z 5]]} {[cell_a := []]}))))
  = Some {[cell_b := [byte_of_Z 5]]}.
Proof.
  apply (document_roundtrip {[cell_b := [byte_of_Z 5]]} {[cell_a := []]} (mkDiff [] [])).
  - apply state_ok_small; [|by vm_compute]. apply map_Forall_singleton. split; [done|by vm_compute].
  - apply state_ok_small; [|by vm_compute]. apply map_Forall_singleton. split; [done|by vm_compute].
  - split_and!; [by vm_compute|by vm_compute|constructor|constructor].
Defined.

(** ** The shape of a tab survives *)

Fixpoint layout_ok (levels : nat) (node : WorkspaceLayoutNode) : Prop :=
  match levels with
  | O => False
  | S levels =>
    match node with
    | Leaf pane => is_uuid pane
    | Split id _ children => is_uuid id /\ zlen children <= 255 /\ Forall (layout_ok levels) children
    end
  end.

Fixpoint layout_bytes (node : WorkspaceLayoutNode) : list byte :=
  match node with
  | Leaf pane => [byte_of_Z 0] ++ pane
  | Split id axis children =>
    [byte_of_Z 1] ++ id ++ [axis_as_byte axis] ++ [byte_of_Z (u8_or_max (zlen children))] ++
    concat (map layout_bytes children)
  end.

Lemma layout_go n l w :
  (length l <= n)%nat ->
  (fix go n w children {struct children} :=
     match n, children with
     | S n, c :: children => go n (put_layout w c) children
     | _, _ => w
     end) n w l = foldl put_layout w l.
Proof. revert n w. induction l as [|c l IH]; intros [|n] w Hn; cbn in *; try lia; [done..|]. apply IH. lia. Qed.

Lemma appends_layout levels : forall node,
  layout_ok levels node -> appends (fun w => put_layout w node) (layout_bytes node).
Proof.
  induction levels as [|levels IH]; intros [pane|id axis children] Hok buf; try by destruct Hok.
  { cbn [put_layout layout_bytes]. unfold put_u8, put_bytes, put_slice. cbn [sink]. by rewrite app_assoc. }
  destruct Hok as (_ & Hn & Hch). rewrite Forall_forall in Hch. cbn [put_layout layout_bytes].
  rewrite layout_go by lia. unfold put_u8, put_bytes, put_slice. cbn [sink].
  rewrite (appends_foldl put_layout layout_bytes) by (intros x Hx; by apply IH, Hch). by rewrite <- !app_assoc.
Qed.

Lemma layout_bytes_pos node : 1 <= zlen (layout_bytes node).
Proof. destruct node; cbn [layout_bytes]; rewrite length_app; cbn [length]; lia. Qed.

Lemma axis_roundtrip a : axis_from_byte (axis_as_byte a) = a.
Proof. by destruct a; vm_compute. Qed.

Lemma runs_layout levels : forall node n, layout_ok levels node -> runs_at (read_layout_node levels) n (layout_bytes node) node.
Proof.
  induction levels as [|levels IH]; intros [pane|id axis children] n Hok; try done; cbn [read_layout_node layout_bytes].
  - eapply runs_bind; [apply runs_next_byte|]. rewrite byte_to_Z_of_Z_small by lia.
    apply (runs_map read_uuid Leaf). by apply runs_cell_uuid.
  - destruct Hok as (Hid & Hn & Hch). rewrite Forall_forall in Hch.
    eapply runs_bind; [apply runs_next_byte|]. rewrite byte_to_Z_of_Z_small by lia.
    eapply runs_bind; [by apply runs_cell_uuid|]. eapply runs_bind; [apply runs_next_byte|].
    eapply runs_bind; [apply runs_next_byte|]. unfold u8_or_max. destruct (Z.leb_spec (zlen children) 255); [|lia].
    rewrite byte_to_Z_of_Z_small by lia. apply runs_remaining. intros left Hleft.
    pose proof (concat_floor layout_bytes children 1 ltac:(intros; apply layout_bytes_pos)) as Hf.
    destruct (Z.ltb_spec left (zlen children)); [lia|]. rewrite Nat2Z.id, axis_roundtrip.
    apply (runs_map (read_many (read_layout_node levels) (length children)) (Split id axis)).
    apply runs_read_many. intros x m Hx. by apply IH, Hch.
Qed.

Lemma yields_read_many {A} (p : Parser A) P n : yields p P -> yields (read_many p n) (fun l => length l = n /\ Forall P l).
Proof.
  intros Hp. induction n as [|n IH]; cbn [read_many]; [by apply yields_ret|].
  eapply yields_bind; [exact Hp|]. intros x Hx. eapply yields_bind; [exact IH|]. intros xs [Hl Hxs].
  apply yields_ret. cbn. split; [by rewrite Hl|by constructor].
Qed.

Lemma yields_cell_uuid : yields read_uuid is_uuid.
Proof.
  eapply yields_bind; [by apply yields_read_bytes|]. intros bs Hbs. apply yields_lift. intros a H. unfold is_uuid.
  case_decide as E; [|done]. unfold SESSION_ID_BYTE_COUNT in E. injection H as <-. lia.
Qed.

Lemma yields_layout levels : yields (read_layout_node levels) (layout_ok levels).
Proof.
  induction levels as [|levels IH]; cbn [read_layout_node]; [apply yields_fail|].
  eapply yields_bind; [apply yields_next_byte|]. intros tag _.
  destruct (byte_to_Z tag) as [|[p|p|]|p]; try apply yields_fail.
  - eapply yields_bind; [apply yields_cell_uuid|]. intros pane Hp. by apply yields_ret.
  - eapply yields_bind; [apply yields_cell_uuid|]. intros id Hid.
    eapply yields_bind; [apply yields_next_byte|]. intros axis _.
    eapply yields_bind; [apply yields_next_byte|]. intros count _.
    eapply yields_bind; [apply yields_bytes_remaining|]. intros left _.
    destruct (left <? byte_to_Z count); [apply yields_fail|].
    eapply yields_bind; [apply yields_read_many, IH|]. intros children [Hl Hch]. apply yields_ret. cbn.
    split_and!; [done| |done]. pose proof (byte_to_Z_range count). lia.
Qed.

(** The shape of a tab nested no deeper than the cap, with at most 255 children to a split, survives the
    wire, and a shape that would nest deeper than the cap is refused: what the decoder answers, on any
    bytes, is within the cap and the fan-out, so that nothing behind it can recurse deeper. *)
Theorem layout_roundtrip_and_bound node data :
  layout_ok (S MAX_LAYOUT_DEPTH) node -> zlen (encode_layout node) <= usize_max ->
  decode_layout (encode_layout node) = Ok node /\
  (forall node', decode_layout data = Ok node' -> layout_ok (S MAX_LAYOUT_DEPTH) node').
Proof.
  intros Hok Hmax. pose proof (into_vec_appends _ _ (appends_layout _ node Hok)) as E. split.
  - apply run_ends; [|exact Hmax]. unfold encode_layout. rewrite E.
    apply (ends_finish (read_layout_node (S MAX_LAYOUT_DEPTH)) (fun x => x)). by apply runs_layout.
  - intros node'. unfold decode_layout, run_parser.
    assert (Hy : yields (node ← read_layout_node (S MAX_LAYOUT_DEPTH); _ ← read_end "workspace layout: trailing bytes";
      mret node) (layout_ok (S MAX_LAYOUT_DEPTH))).
    { eapply yields_bind; [apply yields_layout|]. intros x Hx. eapply yields_bind; [|intros; by apply yields_ret].
      eapply yields_bind; [apply yields_bytes_remaining|]. intros left _. destruct (negb _); [apply yields_fail|].
      by apply (yields_ret tt (fun _ => True)). }
    match goal with |- context [match ?p (reader_new data) with _ => _ end] => destruct (p (reader_new data)) as [ [x r]|e] eqn:Er end;
      [|done]. intros [= <-]. eapply Hy; [|exact Er]. unfold rd_ok. cbn. lia.
Qed.

Definition leaf (n : Z) : WorkspaceLayoutNode := Leaf (replicate 16 (byte_of_Z n)).

Lemma layout_roundtrip_and_bound_witness :
  let node := Split (replicate 16 (byte_of_Z 9)) Vertical [leaf 1; Split (replicate 16 (byte_of_Z 8)) Horizontal [leaf 2; leaf 3] ] in
  decode_layout (encode_layout node) = Ok node.
Proof.
  cbv zeta. apply (layout_roundtrip_and_bound _ []); [|by vm_compute]. cbn. split_and!; [done|lia|].
  repeat constructor; cbn; lia.
Defined.

(** ** Single cells survive *)

Lemma ends_exact {B} (k : Z -> Parser B) n bs v :
  ends_at (k (zlen bs)) n bs v -> ends_at (left ← read_bytes_remaining; k left) n bs v.
Proof.
  intros H pre Hn Hmax. unfold mbind, parser_bind, read_bytes_remaining, bytes_remaining. cbn [rd_data rd_offset].
  replace (zlen (pre ++ bs) - n) with (zlen bs) by len_lia. by apply H.
Qed.

(** A list behind its count, when nothing but the list may follow. *)
Lemma ends_counted {A} (p : Parser A) (bs : A -> list byte) l k n :
  (forall x n, x ∈ l -> runs_at p n (bs x) x) -> (forall x, x ∈ l -> zlen (bs x) = k) ->
  ends_at (left ← read_bytes_remaining;
           if negb (left =? zlen l * k) then parser_fail Truncated else read_many p (Z.to_nat (zlen l)))
    n (concat (map bs l)) l.
Proof.
  intros Hp Hk. apply ends_exact.
  pose proof (concat_floor bs l k ltac:(intros x Hx; rewrite (Hk x Hx); lia)) as H1.
  pose proof (concat_ceiling bs l k ltac:(intros x Hx; rewrite (Hk x Hx); lia)) as H2.
  destruct (Z.eqb_spec (zlen (concat (map bs l))) (zlen l * k)); [|lia]. cbn [negb]. rewrite Nat2Z.id.
  apply runs_ends. by apply runs_read_many.
Qed.

Definition weight_ok (x : SplitWeight) : Prop := u_range 64 (weight_bits x).
Definition weight_bytes (x : SplitWeight) : list byte := [kind_byte x] ++ to_be_bytes 8 (weight_bits x).

Lemma appends_weight x : appends (fun w => put_weight w x) (weight_bytes x).
Proof. intros buf. unfold put_weight, put_u8, put_u64, put_slice. cbn [sink]. by rewrite <- app_assoc. Qed.

Lemma runs_read_weight n x : weight_ok x -> runs_at read_weight n (weight_bytes x) x.
Proof.
  intros Hx. unfold read_weight, weight_bytes. eapply runs_bind; [apply runs_next_byte|].
  replace x with (if byte_to_Z (kind_byte x) =? 0 then Flex (weight_bits x) else Fixed (weight_bits x)) at 3 by by destruct x.
  apply (runs_map read_u64 (fun bits => if byte_to_Z (kind_byte x) =? 0 then Flex bits else Fixed bits)).
  by apply runs_read_u64.
Qed.

Lemma weights_roundtrip l : zlen l <= 255 -> Forall weight_ok l -> decode_weights (encode_weights l) = Some l.
Proof.
  intros Hl Hok. rewrite Forall_forall in Hok.
  assert (E : encode_weights l = [byte_of_Z (zlen l)] ++ concat (map weight_bytes l)).
  { unfold encode_weights, writer_new, u8_or_max. rewrite Z.min_l by lia. destruct (Z.leb_spec (zlen l) 255); [|lia].
    rewrite Nat2Z.id, firstn_all. unfold put_u8, put_slice. cbn [sink].
    by rewrite (appends_foldl put_weight weight_bytes) by (intros; apply appends_weight). }
  unfold decode_weights. rewrite (run_ends _ _ l); [done| |]; rewrite E.
  - eapply ends_bind; [apply runs_next_byte|]. rewrite byte_to_Z_of_Z_small by lia.
    apply ends_counted; [|done]. intros; by apply runs_read_weight, Hok.
  - rewrite length_app. assert (zlen (concat (map weight_bytes l)) <= zlen l * 9) by by apply concat_ceiling.
    unfold usize_max. cbn [length]. lia.
Qed.

Definition detached_ok (p : RawUuid * option RawUuid) : Prop :=
  is_uuid p.1 /\ match p.2 with Some o => is_uuid o /\ o <> ROOT_OBJECT_ID | None => True end.
Definition detached_bytes (p : RawUuid * option RawUuid) : list byte := p.1 ++ default ROOT_OBJECT_ID p.2.

Lemma runs_read_detached n p : detached_ok p -> runs_at read_detached n (detached_bytes p) p.
Proof.
  destruct p as [pane origin]. intros [Hp Ho]. unfold read_detached, detached_bytes.
  eapply runs_bind; [by apply runs_cell_uuid|].
  assert (Hid : is_uuid (default ROOT_OBJECT_ID origin)) by (destruct origin as [o|]; [apply Ho|done]).
  pose proof (runs_map read_uuid (fun o => (pane, if bool_decide (o = ROOT_OBJECT_ID) then None else Some o))
    (n + zlen pane) _ _ (runs_cell_uuid _ _ Hid)) as H. cbn [fst snd].
  destruct origin as [o|]; cbn [default] in *; [|by rewrite bool_decide_eq_true_2 in H].
  by rewrite bool_decide_eq_false_2 in H by apply Ho.
Qed.

Lemma detached_roundtrip l :
  zlen l <= 65535 -> Forall detached_ok l -> decode_detached_panes (encode_detached_panes l) = Some l.
Proof.
  intros Hl Hok. rewrite Forall_forall in Hok.
  assert (Hlen : forall p, p ∈ l -> zlen (detached_bytes p) = 32).
  { intros [a o] Hp. destruct (Hok _ Hp) as [H1 H2]. unfold detached_bytes. rewrite length_app. unfold is_uuid in *.
    destruct o as [o|]; cbn in H1, H2 |- *; [destruct H2; lia|]. rewrite H1. done. }
  assert (E : encode_detached_panes l = to_be_bytes 2 (zlen l) ++ concat (map detached_bytes l)).
  { unfold encode_detached_panes, writer_new, u16_try_from_or_max. rewrite Z.min_l by lia.
    destruct (Z.leb_spec (zlen l) 65535); [|lia]. rewrite Nat2Z.id, firstn_all. unfold put_u16, put_slice. cbn [sink].
    rewrite (appends_foldl _ detached_bytes); [done|]. intros [pane origin] _ buf. unfold detached_bytes. cbn. by rewrite app_assoc. }
  unfold decode_detached_panes. rewrite (run_ends _ _ l); [done| |]; rewrite E.
  - eapply ends_bind; [apply runs_read_u16; unfold u_range; lia|].
    apply ends_counted; [|done]. intros; by apply runs_read_detached, Hok.
  - rewrite length_app, length_to_be_bytes.
    assert (zlen (concat (map detached_bytes l)) <= zlen l * 32) by (apply concat_ceiling; intros x Hx; rewrite Hlen by done; lia).
    unfold usize_max. lia.
Qed.

Definition text_ok (text : list byte) : Prop := utf8_valid text = true /\ zlen text <= MAX_STRING_BYTES.
Definition endpoint_ok (e : VideoEndpoint) : Prop :=
  u_range 32 (window_id e) /\ text_ok (title e) /\ text_ok (app_name e) /\
  match display_id e with Some d => u_range 32 d | None => True end.

Lemma clamp_text text : text_ok text -> clamp_utf8 text MAX_STRING_BYTES = text.
Proof. intros [_ Hl]. by apply (clamp_u16_id text). Qed.

Definition text_bytes (text : list byte) : list byte := to_be_bytes 2 (zlen text) ++ text.

Lemma appends_clamped text : text_ok text -> appends (fun w => put_clamped w text) (text_bytes text).
Proof.
  intros Hok buf. unfold put_clamped, u16_try_from_or_max. rewrite clamp_text by done. destruct Hok as [_ Hl].
  unfold MAX_STRING_BYTES in Hl. destruct (Z.leb_spec (zlen text) 65535); [|lia].
  unfold put_u16, put_bytes, put_slice. cbn [sink]. by rewrite <- app_assoc.
Qed.

Lemma runs_u16_string n text : text_ok text -> runs_at read_u16_prefixed_string n (text_bytes text) text.
Proof.
  intros [Hu Hl]. unfold MAX_STRING_BYTES in Hl. eapply runs_bind; [apply runs_read_u16; unfold u_range; lia|].
  eapply runs_lift; [by apply runs_read_bytes|]. by rewrite Hu.
Qed.

Lemma video_target_roundtrip e : endpoint_ok e -> decode_video_target (encode_video_target e) = Some e.
Proof.
  intros (Hw & Ht & Ha & Hd). set (has := bool_decide (is_Some (display_id e))). set (d := default 0 (display_id e)).
  assert (Hd' : u_range 32 d) by (unfold d; destruct (display_id e); cbn; [done|by unfold u_range]).
  assert (E : encode_video_target e = to_be_bytes 4 (window_id e) ++ [byte_of_Z (if has then 1 else 0)] ++
    to_be_bytes 4 d ++ text_bytes (title e) ++ text_bytes (app_name e)).
  { unfold encode_video_target, writer_new. fold has d. unfold put_u32, put_bool, put_u8, put_slice. cbn [sink].
    rewrite (appends_clamped _ Ht), (appends_clamped _ Ha). cbn [into_vec sink]. by rewrite <- !app_assoc. }
  assert (Hlen : zlen (text_bytes (title e)) <= 2 ^ 17 /\ zlen (text_bytes (app_name e)) <= 2 ^ 17).
  { unfold text_bytes, text_ok, MAX_STRING_BYTES in *. rewrite !length_app, !length_to_be_bytes. lia. }
  unfold decode_video_target. rewrite (run_ends _ _ e); [done| |]; rewrite E.
  - eapply ends_bind; [by apply runs_read_u32|]. eapply ends_bind; [apply runs_read_bool|].
    eapply ends_bind; [by apply runs_read_u32|]. eapply ends_bind; [by apply runs_u16_string|].
    rewrite <- (app_nil_r (text_bytes (app_name e))). eapply ends_bind; [by apply runs_u16_string|].
    apply ends_exact. cbn [length Z.of_nat Z.eqb negb]. unfold has, d. destruct e as [w ti a [di|] ]; cbn;
      apply runs_ends, runs_ret.
  - rewrite !length_app, !length_to_be_bytes in *. unfold usize_max. cbn [length]. lia.
Qed.

Lemma uuid_list_roundtrip l : zlen l <= 65535 -> Forall is_uuid l -> decode_uuid_list (encode_uuid_list l) = Some l.
Proof.
  intros Hl Hok. rewrite Forall_forall in Hok.
  assert (Hlen : forall u, u ∈ l -> zlen u = 16) by (intros u Hu; specialize (Hok u Hu); unfold is_uuid in Hok; lia).
  assert (E : encode_uuid_list l = to_be_bytes 2 (zlen l) ++ concat (map (fun u => u) l)).
  { unfold encode_uuid_list, writer_new, u16_try_from_or_max. rewrite Z.min_l by lia.
    destruct (Z.leb_spec (zlen l) 65535); [|lia]. rewrite Nat2Z.id, firstn_all. unfold put_u16, put_slice. cbn [sink].
    by rewrite (appends_foldl put_bytes (fun u => u)). }
  unfold decode_uuid_list. rewrite (run_ends _ _ l); [done| |]; rewrite E.
  - eapply ends_bind; [apply runs_read_u16; unfold u_range; lia|].
    apply ends_counted; [|done]. intros; by apply runs_cell_uuid, Hok.
  - rewrite length_app, length_to_be_bytes.
    assert (zlen (concat (map (fun u : RawUuid => u) l)) <= zlen l * 16)
      by (apply concat_ceiling; intros x Hx; rewrite Hlen by done; lia).
    unfold usize_max. lia.
Qed.

Lemma weight_roundtrip x : weight_ok x -> decode_weight (encode_weight x) = Ok x.
Proof.
  intros Hx. pose proof (into_vec_appends _ _ (appends_weight x)) as E. unfold decode_weight. apply run_ends.
  - unfold encode_weight. rewrite E. apply (ends_finish read_weight (fun x => x)). by apply runs_read_weight.
  - unfold encode_weight. rewrite E. by vm_compute.
Qed.

Lemma i64_roundtrip v : i_range 64 v -> decode_i64 (encode_i64 v) = Some v.
Proof.
  intros Hv. unfold decode_i64, encode_i64. rewrite decide_True by apply length_to_be_bytes.
  rewrite from_to_be_bytes_small by (apply (cast_unsigned_range 64); lia). by rewrite cast_signed_unsigned.
Qed.

Lemma u32_roundtrip v : u_range 32 v -> decode_u32 (encode_u32 v) = Some v.
Proof.
  intros Hv. unfold decode_u32, encode_u32. rewrite decide_True by apply length_to_be_bytes.
  by rewrite from_to_be_bytes_small.
Qed.

Lemma i32_roundtrip v : i_range 32 v -> decode_i32 (encode_i32 v) = Some v.
Proof.
  intros Hv. unfold decode_i32, encode_i32. change (to_be_bytes 4 ?x) with (encode_u32 x).
  rewrite u32_roundtrip by (apply cast_unsigned_range; lia). cbn. by rewrite cast_signed_unsigned.
Qed.

Lemma u16_pair_roundtrip a b : u_range 16 a -> u_range 16 b -> decode_u16_pair (encode_u16_pair a b) = Some (a, b).
Proof.
  intros Ha Hb. assert (E : forall x y, decode_u16_pair (encode_u16_pair x y) =
    Some (from_be_bytes (to_be_bytes 2 x), from_be_bytes (to_be_bytes 2 y))) by done.
  by rewrite E, !from_to_be_bytes_small.
Qed.

Lemma string_roundtrip text : text_ok text -> decode_string (encode_string text MAX_STRING_BYTES) = Some text.
Proof. intros H. unfold decode_string, encode_string. rewrite clamp_text by done. by destruct H as [-> _]. Qed.
Lemma bool_roundtrip v : decode_bool (encode_bool v) = Some v.
Proof. by destruct v; vm_compute. Qed.
Lemma uuid_roundtrip u : is_uuid u -> decode_uuid (encode_uuid u) = Some u.
Proof. unfold is_uuid, decode_uuid, encode_uuid. intros. by rewrite decide_True by lia. Qed.
