(* ===== verification/Liveness.v ===== *)
(** * Liveness: what is true of a pane's process, as cells of the document

    Models [slopdesk-wire/src/document/liveness.rs] with the field vocabulary of [fields.rs], and the
    filter of [state_file.rs] that decides what survives a restart.  A record is written into the
    document field by field and read back field by field, instants are integers, and the reconciler decides what becomes of the
    panes nothing was captured for. *)

From stdpp Require Import gmap sorting.
From S2P Require Import Prelude Bytes BTree Message Document Cells.

(** ** The fields of a pane *)

Definition KIND : byte := Byte.x00.
Definition TITLE : byte := Byte.x01.
Definition USER_RENAMED : byte := Byte.x02.
Definition LIVE_TITLE : byte := Byte.x03.
Definition TITLE_FRESH : byte := Byte.x04.
Definition CWD : byte := Byte.x05.
Definition PROJECT_KEY : byte := Byte.x06.
Definition FOREGROUND_PROCESS : byte := Byte.x07.
Definition RUNNING_COMMAND : byte := Byte.x08.
Definition AGENT_STATE : byte := Byte.x09.
Definition AGENT_LABEL : byte := Byte.x0a.
Definition AGENT_INTENT : byte := Byte.x0b.
Definition PROGRESS : byte := Byte.x0c.
Definition COMMAND_RUNNING : byte := Byte.x0d.
Definition LAST_EXIT_CODE : byte := Byte.x0e.
Definition LAST_DURATION_MS : byte := Byte.x0f.
Definition GRID : byte := Byte.x10.
Definition LIVENESS : byte := Byte.x11.
Definition COMPLETION_EPOCH : byte := Byte.x12.
Definition LAST_ACTIVITY_MS : byte := Byte.x13.
Definition VIDEO_TARGET : byte := Byte.x14.
Definition SPAWN_CWD : byte := Byte.x15.

Definition LIVENESS_FIELDS : list byte :=
  [LIVE_TITLE; TITLE_FRESH; CWD; PROJECT_KEY; FOREGROUND_PROCESS; RUNNING_COMMAND; AGENT_STATE; AGENT_LABEL;
   AGENT_INTENT; PROGRESS; COMMAND_RUNNING; LAST_EXIT_CODE; LAST_DURATION_MS; GRID; LIVENESS; COMPLETION_EPOCH;
   LAST_ACTIVITY_MS].
Definition TOPOLOGY_FIELDS : list byte := [KIND; TITLE; USER_RENAMED; VIDEO_TARGET; SPAWN_CWD].

Inductive PaneLivenessState : Type := Attached | Detached | Dead.

(** An unknown byte is a dead pane. *)
Definition liveness_from_byte (b : byte) : PaneLivenessState :=
  match byte_to_Z b with 0 => Attached | 1 => Detached | _ => Dead end.
Definition liveness_as_byte (l : PaneLivenessState) : byte :=
  byte_of_Z match l with Attached => 0 | Detached => 1 | Dead => 2 end.
Definition is_live (l : PaneLivenessState) : bool := match l with Dead => false | _ => true end.

Definition title_is_fresh (title_stamped_at command_started_at : option Z) (l : PaneLivenessState) : bool :=
  if negb (is_live l) then false
  else match title_stamped_at with
       | None => false
       | Some stamped => match command_started_at with None => true | Some started => started <=? stamped end
       end.

(** ** The record *)

Record AgentState : Type := mkAgent { agent_urgency : byte; agent_kind : byte }.
Record Progress : Type := mkProgress { progress_state : byte; percent : byte }.
Record Grid : Type := mkGrid { cols : Z; rows : Z }.

Record PaneLiveness : Type := mkLiveness {
  pane_id : RawUuid;
  liveness : PaneLivenessState;
  live_title : option (list byte);
  title_fresh : bool;
  cwd : option (list byte);
  project_key : option (list byte);
  foreground_process : option (list byte);
  running_command : option (list byte);
  agent_state : option AgentState;
  agent_label : option (list byte);
  agent_intent : option (list byte);
  progress : option Progress;
  command_running : bool;
  last_exit_code : option Z;
  last_duration_ms : option Z;
  grid : option Grid;
  completion_epoch : Z;
  last_activity_ms : Z;
}.

Definition liveness_new (id : RawUuid) (l : PaneLivenessState) : PaneLiveness :=
  mkLiveness id l None false None None None None None None None None false None None None 0 0.

Definition pane_key (id : RawUuid) (f : byte) : WorkspaceKey := key_of Pane id f.

Definition put (id : RawUuid) (f : byte) (v : option (list byte)) : list WorkspaceEntry :=
  match v with Some v => [mkEntry (pane_key id f) v] | None => [] end.
Definition text (v : option (list byte)) : option (list byte) := (fun t => encode_string t MAX_STRING_BYTES) <$> v.

(** What a record says, field by field, in canonical order. *)
Definition fields_of (r : PaneLiveness) : list (byte * option (list byte)) :=
  [(LIVE_TITLE, text (live_title r));
   (TITLE_FRESH, if title_fresh r then Some (encode_bool true) else None);
   (CWD, text (cwd r));
   (PROJECT_KEY, text (project_key r));
   (FOREGROUND_PROCESS, text (foreground_process r));
   (RUNNING_COMMAND, text (running_command r));
   (AGENT_STATE, (fun a => encode_u8_pair (agent_urgency a) (agent_kind a)) <$> agent_state r);
   (AGENT_LABEL, text (agent_label r));
   (AGENT_INTENT, text (agent_intent r));
   (PROGRESS, (fun p => encode_u8_pair (progress_state p) (percent p)) <$> progress r);
   (COMMAND_RUNNING, if command_running r then Some (encode_bool true) else None);
   (LAST_EXIT_CODE, encode_i32 <$> last_exit_code r);
   (LAST_DURATION_MS, encode_u32 <$> last_duration_ms r);
   (GRID, (fun g => encode_u16_pair (cols g) (rows g)) <$> grid r);
   (LIVENESS, Some (encode_u8 (liveness_as_byte (liveness r))));
   (COMPLETION_EPOCH, if completion_epoch r =? 0 then None else Some (encode_u32 (completion_epoch r)));
   (LAST_ACTIVITY_MS, if last_activity_ms r =? 0 then None else Some (encode_i64 (last_activity_ms r)))].
Definition entries (r : PaneLiveness) : list WorkspaceEntry := flat_map (fun p => put (pane_id r) p.1 p.2) (fields_of r).

(** Each field decodes on its own; a malformed one is its default. *)
Definition from_document (id : RawUuid) (s : HostWorkspaceState) : option PaneLiveness :=
  let value f := s !! pane_key id f in
  let text f := value f ≫= decode_string in
  l ← value LIVENESS; b ← decode_u8 l;
  Some (mkLiveness id (liveness_from_byte b)
    (text LIVE_TITLE)
    (default false (value TITLE_FRESH ≫= decode_bool))
    (text CWD) (text PROJECT_KEY) (text FOREGROUND_PROCESS) (text RUNNING_COMMAND)
    ((fun p => mkAgent p.1 p.2) <$> (value AGENT_STATE ≫= decode_u8_pair))
    (text AGENT_LABEL) (text AGENT_INTENT)
    ((fun p => mkProgress p.1 p.2) <$> (value PROGRESS ≫= decode_u8_pair))
    (default false (value COMMAND_RUNNING ≫= decode_bool))
    (value LAST_EXIT_CODE ≫= decode_i32)
    (value LAST_DURATION_MS ≫= decode_u32)
    ((fun p => mkGrid p.1 p.2) <$> (value GRID ≫= decode_u16_pair))
    (default 0 (value COMPLETION_EPOCH ≫= decode_u32))
    (default 0 (value LAST_ACTIVITY_MS ≫= decode_i64))).

(** ** Writing a record, and the pass over all panes *)

Definition find_value (key : WorkspaceKey) (l : list WorkspaceEntry) : option (list byte) :=
  match list_find (fun e => entry_key e = key) l with Some (_, e) => Some (entry_value e) | None => None end.

Definition set_or_clear_all (keys : list WorkspaceKey) (incoming : WorkspaceKey -> option (list byte))
    (s : HostWorkspaceState) : HostWorkspaceState * bool :=
  foldl (fun '(s, changed) key => let '(s, c) := set_or_clear s key (incoming key) in (s, changed || c)) (s, false) keys.

Definition merge_pane_liveness (s : HostWorkspaceState) (r : PaneLiveness) : HostWorkspaceState * bool :=
  set_or_clear_all (map (pane_key (pane_id r)) LIVENESS_FIELDS) (fun key => find_value key (entries r)) s.

Definition mark_pane_dead (s : HostWorkspaceState) (id : RawUuid) : HostWorkspaceState * bool :=
  let read f := s !! pane_key id f ≫= decode_string in
  merge_pane_liveness s
    (mkLiveness id Dead None false (read CWD) (read PROJECT_KEY) None None None None None None false None None None 0 0).

Definition PANE_KIND : byte := kind_as_byte Pane.

(** The panes the document holds, and those the topology half still names, as ordered sets. *)
Definition pane_inventory (s : HostWorkspaceState) : gset RawUuid * gset RawUuid :=
  let panes := filter (fun key => kind key = PANE_KIND) (keys s) in
  (list_to_set (map object_id panes),
   list_to_set (map object_id (filter (fun key => field key ∈ TOPOLOGY_FIELDS) panes))).

(** A [BTreeSet] of ids in its order. *)
Definition uuid_le (a b : RawUuid) : Prop := bytes_compare a b <> Gt.
#[export] Instance uuid_le_dec : RelDecision uuid_le := fun a b => decide (bytes_compare a b <> Gt).
Definition set_iter (X : gset RawUuid) : list RawUuid := merge_sort uuid_le (elements X).

Definition sweep (arranged : gset RawUuid) (acc : HostWorkspaceState * bool) (id : RawUuid) : HostWorkspaceState * bool :=
  let '(s, changed) := acc in
  if bool_decide (id ∈ arranged) then let '(s, c) := mark_pane_dead s id in (s, changed || c)
  else (remove_object s PANE_KIND id, true).

Definition reconcile (s : HostWorkspaceState) (captured : list PaneLiveness) : HostWorkspaceState * bool :=
  let '(s, changed) :=
    foldl (fun '(s, changed) r => let '(s, c) := merge_pane_liveness s r in (s, changed || c)) (s, false) captured in
  let alive : gset RawUuid := list_to_set (map pane_id captured) in
  let '(known, arranged) := pane_inventory s in
  foldl (sweep arranged) (s, changed) (set_iter (known ∖ alive)).

(** ** What survives a restart *)

Definition PERSISTED_PANE_FIELDS : list byte := [KIND; TITLE; USER_RENAMED; VIDEO_TARGET; SPAWN_CWD; CWD; PROJECT_KEY].
Definition PROJECT_FIELD_KEY : byte := Byte.x00.

Definition is_persisted (key : WorkspaceKey) : bool :=
  match kind_from_byte (kind key) with
  | Some (Root | Session | Tab | SplitNode) => true
  | Some Pane => bool_decide (field key ∈ PERSISTED_PANE_FIELDS)
  | Some Project => bool_decide (field key = PROJECT_FIELD_KEY)
  | None => false
  end.

Definition persisting (s : HostWorkspaceState) : HostWorkspaceState :=
  foldl (fun out e => if is_persisted (entry_key e) then set out (entry_key e) (entry_value e) else out) state_new
    (sorted_entries s).

(** ** What a merge does *)

Lemma set_or_clear_spec s key v :
  (set_or_clear s key v).1 !! key = v /\ (forall k, k <> key -> (set_or_clear s key v).1 !! k = s !! k) /\
  ((set_or_clear s key v).2 = true <-> s !! key <> v).
Proof.
  unfold set_or_clear. destruct v as [v|]; [case_bool_decide as E|]; cbn.
  - split_and!; [done|done|by split].
  - split_and!; [apply lookup_insert_eq|intros k Hk; by rewrite lookup_insert_ne|done].
  - split_and!; [apply lookup_delete_eq|intros k Hk; by rewrite lookup_delete_ne|].
    rewrite bool_decide_eq_true. rewrite <- not_eq_None_Some. done.
Qed.

Lemma set_or_clear_all_spec l incoming : forall s,
  NoDup l -> let s' := set_or_clear_all l incoming s in
  (forall k, k ∈ l -> s'.1 !! k = incoming k) /\ (forall k, k ∉ l -> s'.1 !! k = s !! k) /\
  (s'.2 = true <-> exists k, k ∈ l /\ s !! k <> incoming k).
Proof.
  induction l as [|key l IH] using rev_ind; intros s Hnd; cbv zeta.
  { split_and!; [by intros k ?%elem_of_nil|done|]. split; [done|]. by intros (k & ?%elem_of_nil & _). }
  apply NoDup_app in Hnd as (Hnd & Hdisj & _). destruct (IH s Hnd) as (H1 & H2 & H3). unfold set_or_clear_all in *.
  rewrite foldl_app. cbn [foldl]. destruct (foldl _ (s, false) l) as [s1 c1]. cbn [fst snd] in *.
  destruct (set_or_clear_spec s1 key (incoming key)) as (E1 & E2 & E3).
  destruct (set_or_clear s1 key (incoming key)) as [s2 c2]. cbn [fst snd] in *.
  assert (Hkey : key ∉ l) by (intros Hin; apply (Hdisj key Hin); left). rewrite (H2 key Hkey) in E3. split_and!.
  - intros k [Hk|Hk]%elem_of_app; [|apply list_elem_of_singleton in Hk as ->; done].
    rewrite E2 by (intros ->; done). by apply H1.
  - intros k [Hk Hne]%not_elem_of_app. assert (k <> key) by (intros ->; apply Hne; left).
    rewrite E2 by done. by apply H2.
  - rewrite orb_true_iff, H3, E3. split.
    + intros [(k & Hk & Hne)|Hne]; [exists k|exists key]; (split; [|done]); apply elem_of_app; [by left|right; left].
    + intros (k & [Hk|Hk]%elem_of_app & Hne); [left; eauto|]. apply list_elem_of_singleton in Hk as ->. by right.
Qed.

#[export] Instance pane_key_inj id : Inj eq eq (pane_key id).
Proof. by intros f g [=]. Qed.

Lemma liveness_keys_nodup id : NoDup (map (pane_key id) LIVENESS_FIELDS).
Proof.
  apply (NoDup_fmap_2 (pane_key id)). refine (bool_decide_unpack _ _). by vm_compute.
Qed.

(** The value a record gives to a field, and none where it is silent. *)
Definition field_value (r : PaneLiveness) (f : byte) : option (list byte) := find_value (pane_key (pane_id r) f) (entries r).

Lemma merge_spec s r : let s' := merge_pane_liveness s r in
  (forall f, f ∈ LIVENESS_FIELDS -> s'.1 !! pane_key (pane_id r) f = field_value r f) /\
  (forall k, k ∉ map (pane_key (pane_id r)) LIVENESS_FIELDS -> s'.1 !! k = s !! k) /\
  (s'.2 = true <-> s'.1 <> s).
Proof.
  cbv zeta. unfold merge_pane_liveness.
  destruct (set_or_clear_all_spec (map (pane_key (pane_id r)) LIVENESS_FIELDS) (fun key => find_value key (entries r)) s
    (liveness_keys_nodup _)) as (H1 & H2 & H3). split_and!; [|done|].
  - intros f Hf. apply H1. by apply list_elem_of_fmap_2.
  - rewrite H3. split.
    + intros (k & Hk & Hne) E. rewrite <- E, H1 in Hne by done. done.
    + intros Hne. destruct (set_or_clear_all _ _ s).2 eqn:E; [by apply H3|]. exfalso. apply Hne. apply map_eq.
      intros k. destruct (decide (k ∈ map (pane_key (pane_id r)) LIVENESS_FIELDS)) as [Hk|Hk]; [|by apply H2].
      rewrite H1 by done. destruct (decide (s !! k = find_value k (entries r))) as [->|Hd]; [done|].
      assert (false = true) by (apply H3; eauto). done.
Qed.

Lemma find_value_app key a b :
  find_value key (a ++ b) = match find_value key a with Some v => Some v | None => find_value key b end.
Proof.
  induction a as [|e a IH]; [done|]. unfold find_value in *. cbn [app list_find]. destruct (decide _); [done|].
  destruct (list_find _ (a ++ b)) as [ [i x]|], (list_find _ a) as [ [j y]|]; cbn in *; done.
Qed.

Lemma find_value_put id f g v : find_value (pane_key id f) (put id g v) = if decide (f = g) then v else None.
Proof.
  unfold find_value, put. destruct v as [x|]; cbn [list_find]; [|by destruct (decide (f = g))].
  destruct (decide (f = g)) as [->|Hne]; [by rewrite decide_True|].
  by rewrite decide_False by (intros E; apply Hne; by apply (inj (pane_key id)) in E).
Qed.

Lemma find_value_fields id l f v :
  NoDup l.*1 -> (f, v) ∈ l -> find_value (pane_key id f) (flat_map (fun p => put id p.1 p.2) l) = v.
Proof.
  induction l as [|[g w] l IH]; cbn [fmap list_fmap flat_map fst snd]; [by intros _ ?%elem_of_nil|].
  intros [Hg Hnd]%NoDup_cons [ [= -> ->]|Hin]%elem_of_cons; rewrite find_value_app, find_value_put.
  - rewrite decide_True by done. destruct w; [done|]. clear IH Hnd. induction l as [|[h x] l IH]; [done|].
    cbn in Hg. rewrite not_elem_of_cons in Hg. destruct Hg as [Hne Hg]. cbn [flat_map fst snd].
    rewrite find_value_app, find_value_put, decide_False by done. by apply IH.
  - rewrite decide_False; [by apply IH|]. intros ->. apply Hg. by apply (list_elem_of_fmap_2' fst l (g, v)).
Qed.

Lemma field_value_of r f v : (f, v) ∈ fields_of r -> field_value r f = v.
Proof. apply find_value_fields. refine (bool_decide_unpack _ _). by vm_compute. Qed.

Definition opt_ok {A} (P : A -> Prop) (o : option A) : Prop := match o with Some x => P x | None => True end.

Record record_ok (r : PaneLiveness) : Prop := {
  ok_title : opt_ok text_ok (live_title r);
  ok_cwd : opt_ok text_ok (cwd r);
  ok_project : opt_ok text_ok (project_key r);
  ok_process : opt_ok text_ok (foreground_process r);
  ok_command : opt_ok text_ok (running_command r);
  ok_label : opt_ok text_ok (agent_label r);
  ok_intent : opt_ok text_ok (agent_intent r);
  ok_exit : opt_ok (i_range 32) (last_exit_code r);
  ok_duration : opt_ok (u_range 32) (last_duration_ms r);
  ok_grid : opt_ok (fun g => u_range 16 (cols g) /\ u_range 16 (rows g)) (grid r);
  ok_epoch : u_range 32 (completion_epoch r);
  ok_activity : i_range 64 (last_activity_ms r);
}.

Lemma merge_lookup s r f :
  bool_decide (f ∈ LIVENESS_FIELDS) = true -> (merge_pane_liveness s r).1 !! pane_key (pane_id r) f = field_value r f.
Proof. intros H. apply bool_decide_eq_true in H. by apply (merge_spec s r). Qed.

Lemma text_back t : opt_ok text_ok t -> text t ≫= decode_string = t.
Proof. destruct t as [t|]; [|done]. cbn. apply string_roundtrip. Qed.

(** What each field of a record becomes in the document: the value, or nothing where it is the default. *)
Lemma field_values r :
  field_value r LIVE_TITLE = text (live_title r) /\
  field_value r TITLE_FRESH = (if title_fresh r then Some (encode_bool true) else None) /\
  field_value r CWD = text (cwd r) /\ field_value r PROJECT_KEY = text (project_key r) /\
  field_value r FOREGROUND_PROCESS = text (foreground_process r) /\
  field_value r RUNNING_COMMAND = text (running_command r) /\
  field_value r AGENT_STATE = ((fun a => encode_u8_pair (agent_urgency a) (agent_kind a)) <$> agent_state r) /\
  field_value r AGENT_LABEL = text (agent_label r) /\ field_value r AGENT_INTENT = text (agent_intent r) /\
  field_value r PROGRESS = ((fun p => encode_u8_pair (progress_state p) (percent p)) <$> progress r) /\
  field_value r COMMAND_RUNNING = (if command_running r then Some (encode_bool true) else None) /\
  field_value r LAST_EXIT_CODE = encode_i32 <$> last_exit_code r /\
  field_value r LAST_DURATION_MS = encode_u32 <$> last_duration_ms r /\
  field_value r GRID = ((fun g => encode_u16_pair (cols g) (rows g)) <$> grid r) /\
  field_value r LIVENESS = Some (encode_u8 (liveness_as_byte (liveness r))) /\
  field_value r COMPLETION_EPOCH = (if completion_epoch r =? 0 then None else Some (encode_u32 (completion_epoch r))) /\
  field_value r LAST_ACTIVITY_MS = (if last_activity_ms r =? 0 then None else Some (encode_i64 (last_activity_ms r))).
Proof.
  split_and!; apply field_value_of; unfold fields_of; repeat ((left; reflexivity) || right).
Qed.

Lemma record_back s r : record_ok r -> from_document (pane_id r) (merge_pane_liveness s r).1 = Some r.
Proof.
  intros Hok. unfold from_document. rewrite !merge_lookup by (vm_compute; reflexivity).
  destruct (field_values r) as (-> & -> & -> & -> & -> & -> & -> & -> & -> & -> & -> & -> & -> & -> & -> & -> & ->).
  destruct Hok. destruct r as [id l lt tf cw pk fp rc ag al ai pr cr ec dm gr ce la]. cbn -[encode_u32 encode_i64 decode_u32
    decode_i64 encode_i32 decode_i32 encode_bool decode_bool encode_u16_pair decode_u16_pair] in *.
  rewrite !text_back by done. f_equal. f_equal.
  - by destruct l.
  - by destruct tf.
  - by destruct ag as [ [] |].
  - by destruct pr as [ [] |].
  - by destruct cr.
  - destruct ec; cbn -[encode_i32 decode_i32]; [by apply i32_roundtrip|done].
  - destruct dm; cbn -[encode_u32 decode_u32]; [by apply u32_roundtrip|done].
  - destruct gr as [ [c w]|]; [|done]. cbn -[encode_u16_pair decode_u16_pair] in *. by rewrite u16_pair_roundtrip by naive_solver.
  - destruct (Z.eqb_spec ce 0) as [->|]; [done|]. cbn -[encode_u32 decode_u32]. by rewrite u32_roundtrip.
  - destruct (Z.eqb_spec la 0) as [->|]; [done|]. cbn -[encode_i64 decode_i64]. by rewrite i64_roundtrip.
Qed.

(** ** Steps that each concern one pane *)

Definition Step : Type := HostWorkspaceState -> HostWorkspaceState * bool.
Definition own (id : RawUuid) (k : WorkspaceKey) : Prop := of_object PANE_KIND id k.
Definition agree (id : RawUuid) (s t : HostWorkspaceState) : Prop := forall k, own id k -> s !! k = t !! k.

(** It changes only the cells of its pane, from those cells alone, and says whether it did. *)
Record local_step (id : RawUuid) (pre : HostWorkspaceState -> Prop) (step : Step) : Prop := {
  ls_other : forall s k, ~ own id k -> (step s).1 !! k = s !! k;
  ls_own : forall s t, agree id s t -> agree id (step s).1 (step t).1;
  ls_pre : forall s t, agree id s t -> pre s -> pre t;
  ls_flag : forall s, pre s -> (step s).2 = true <-> (step s).1 <> s;
}.

Definition run_steps (steps : list Step) (acc : HostWorkspaceState * bool) : HostWorkspaceState * bool :=
  foldl (fun '(s, changed) (step : Step) => let '(s, c) := step s in (s, changed || c)) acc steps.

Lemma run_steps_app a b acc : run_steps (a ++ b) acc = run_steps b (run_steps a acc).
Proof. apply foldl_app. Qed.

Lemma own_unique id id' k : own id k -> own id' k -> id = id'.
Proof. intros [_ <-] [_ <-]. done. Qed.

Lemma run_steps_spec (l : list (RawUuid * Step)) (pre : RawUuid -> HostWorkspaceState -> Prop) : forall s c,
  NoDup l.*1 -> (forall id step, (id, step) ∈ l -> local_step id (pre id) step) -> (forall id, id ∈ l.*1 -> pre id s) ->
  let s' := run_steps l.*2 (s, c) in
  (forall id step k, (id, step) ∈ l -> own id k -> s'.1 !! k = (step s).1 !! k) /\
  (forall k, (forall id, id ∈ l.*1 -> ~ own id k) -> s'.1 !! k = s !! k) /\
  (s'.2 = true <-> c = true \/ s'.1 <> s).
Proof.
  induction l as [|[id step] l IH]; intros s c Hnd Hl Hpre; cbv zeta.
  { split_and!; [by intros ? ? ? ?%elem_of_nil|done|]. cbn. split; [by left|]. by intros [?|?]. }
  cbn [fmap list_fmap fst snd] in *. apply NoDup_cons in Hnd as [Hid Hnd].
  pose proof (Hl id step ltac:(left)) as L. unfold run_steps in *. cbn [foldl].
  pose proof (ls_flag id (pre id) step L s (Hpre id ltac:(left))) as Hflag.
  pose proof (ls_other id (pre id) step L s) as Hother. destruct (step s) as [s1 c1] eqn:Es. cbn [fst snd] in *.
  assert (Hag : forall id', id' ∈ l.*1 -> agree id' s s1).
  { intros id' Hin k Hk. symmetry. apply Hother. intros Hk'. by rewrite (own_unique _ _ _ Hk Hk') in Hin. }
  assert (Hpre1 : forall id', id' ∈ l.*1 -> pre id' s1).
  { intros id' Hin. pose proof Hin as ([id2 step'] & -> & Hin')%list_elem_of_fmap.
    apply (ls_pre id2 (pre id2) step' (Hl id2 step' ltac:(by right)) s); [by apply (Hag id2)|]. apply Hpre. by right. }
  destruct (IH s1 (c || c1) Hnd (fun id' step' H => Hl id' step' (list_elem_of_further _ _ _ H)) Hpre1) as (H1 & H2 & H3).
  set (s2 := foldl _ _ l.*2) in *. assert (Hkeep : forall k, own id k -> s2.1 !! k = s1 !! k).
  { intros k Hk. apply H2. intros id' Hin Hk'. by rewrite <- (own_unique _ _ _ Hk Hk') in Hin. }
  split_and!.
  - intros id' step' k [ [= -> ->]|Hin]%elem_of_cons Hk; [by rewrite Hkeep, Es|].
    assert (Hin' : id' ∈ l.*1) by by apply (list_elem_of_fmap_2' fst l (id', step')).
    rewrite (H1 id' step' k Hin Hk). symmetry.
    apply (ls_own id' (pre id') step' (Hl id' step' ltac:(by right)) s s1 (Hag id' Hin') k Hk).
  - intros k Hk. rewrite H2 by (intros id' Hin; apply Hk; by right). apply Hother, Hk. left.
  - rewrite H3, orb_true_iff, Hflag. split.
    + intros [[?|Hne]|Hne]; [by left| |]; right; intros E; apply Hne; apply map_eq; intros k.
      * destruct (decide (own id k)) as [Hk|Hk]; [by rewrite <- Hkeep, E|by apply Hother].
      * rewrite E. destruct (decide (own id k)) as [Hk|Hk]; [by rewrite <- Hkeep, E by done|by rewrite Hother].
    + intros [?|Hne]; [by left; left|]. destruct (decide (s1 = s)) as [->|]; [by right|by left; right].
Qed.

Lemma pane_key_own id f : own id (pane_key id f).
Proof. done. Qed.
Lemma own_pane_key id k : own id k -> k = pane_key id (field k).
Proof. destruct k as [kd o f]. intros [E1 E2]. cbn in *. by subst. Qed.

Lemma own_fields id k : own id k -> k ∈ map (pane_key id) LIVENESS_FIELDS <-> field k ∈ LIVENESS_FIELDS.
Proof.
  intros Hk. split.
  - intros (f & -> & Hf)%list_elem_of_fmap. done.
  - intros Hf. rewrite (own_pane_key id k Hk). by apply list_elem_of_fmap_2.
Qed.

(** The cells of a pane after a record was merged. *)
Definition merged (r : PaneLiveness) (s : HostWorkspaceState) (k : WorkspaceKey) : option (list byte) :=
  if bool_decide (field k ∈ LIVENESS_FIELDS) then field_value r (field k) else s !! k.

Lemma merge_own s r k : own (pane_id r) k -> (merge_pane_liveness s r).1 !! k = merged r s k.
Proof.
  intros Hk. destruct (merge_spec s r) as (H1 & H2 & _). unfold merged. case_bool_decide as Hf.
  - rewrite (own_pane_key _ k Hk). by apply H1.
  - apply H2. by rewrite own_fields.
Qed.

Lemma merge_other s r k : ~ own (pane_id r) k -> (merge_pane_liveness s r).1 !! k = s !! k.
Proof. intros Hk. apply (merge_spec s r). intros (f & -> & Hf)%list_elem_of_fmap. by apply Hk. Qed.

Lemma merge_local r : local_step (pane_id r) (fun _ => True) (fun s => merge_pane_liveness s r).
Proof.
  constructor; try done.
  - intros s k. apply merge_other.
  - intros s t Hag k Hk. rewrite !merge_own by done. unfold merged. case_bool_decide; auto.
  - intros s _. apply (merge_spec s r).
Qed.

Definition dead_record (s : HostWorkspaceState) (id : RawUuid) : PaneLiveness :=
  let read f := s !! pane_key id f ≫= decode_string in
  mkLiveness id Dead None false (read CWD) (read PROJECT_KEY) None None None None None None false None None None 0 0.

Lemma dead_local id : local_step id (fun _ => True) (fun s => mark_pane_dead s id).
Proof.
  assert (E : forall s, mark_pane_dead s id = merge_pane_liveness s (dead_record s id)) by done. constructor; try done.
  - intros s k. rewrite E. apply (merge_other s (dead_record s id)).
  - intros s t Hag k Hk. rewrite !E. unfold dead_record. rewrite !(Hag _ (pane_key_own id _)).
    apply (ls_own _ _ _ (merge_local (dead_record t id)) s t); done.
  - intros s _. rewrite E. apply merge_spec.
Qed.

Lemma lookup_remove_object s kd id k : remove_object s kd id !! k = if decide (of_object kd id k) then None else s !! k.
Proof.
  unfold remove_object. rewrite map_lookup_filter. destruct (s !! k) as [v|]; cbn; [|by case_decide].
  destruct (decide (of_object kd id k)) as [H|H]; case_guard as G; cbn in *; try done; by destruct G.
Qed.

Lemma remove_local id :
  local_step id (fun s => exists k, own id k /\ is_Some (s !! k)) (fun s => (remove_object s PANE_KIND id, true)).
Proof.
  constructor; cbn [fst snd].
  - intros s k Hk. rewrite lookup_remove_object. by rewrite decide_False.
  - intros s t _ k Hk. by rewrite !lookup_remove_object, !decide_True.
  - intros s t Hag (k & Hk & Hs). exists k. by rewrite <- (Hag k Hk).
  - intros s (k & Hk & [v Hv]). split; [|done]. intros _ E. rewrite <- E, lookup_remove_object, decide_True in Hv by done. done.
Qed.

(** The steps of one pass. *)
Definition pre_of (arranged : gset RawUuid) (id : RawUuid) (s : HostWorkspaceState) : Prop :=
  id ∈ arranged \/ exists k, own id k /\ is_Some (s !! k).
Definition sweep_step (arranged : gset RawUuid) (id : RawUuid) : Step :=
  fun s => if bool_decide (id ∈ arranged) then mark_pane_dead s id else (remove_object s PANE_KIND id, true).

Lemma sweep_local arranged id : local_step id (pre_of arranged id) (sweep_step arranged id).
Proof.
  unfold sweep_step, pre_of. destruct (decide (id ∈ arranged)) as [Hin|Hin].
  - rewrite bool_decide_eq_true_2 by done. destruct (dead_local id) as [H1 H2 _ H4]. constructor; try done.
    + intros s t _ _. by left.
    + intros s _. by apply H4.
  - rewrite bool_decide_eq_false_2 by done. destruct (remove_local id) as [H1 H2 H3 H4]. constructor; try done.
    + intros s t Hag [?|Hk]; [done|right]. by apply (H3 s).
    + intros s [?|Hk]; [done|]. by apply H4.
Qed.

Lemma sweep_run arranged l : forall acc,
  foldl (sweep arranged) acc l = run_steps (map (sweep_step arranged) l) acc.
Proof.
  unfold run_steps. induction l as [|id l IH]; intros [s c]; [done|]. cbn [foldl map]. rewrite IH. f_equal.
  unfold sweep, sweep_step. destruct (bool_decide _); [done|]. by rewrite orb_true_r.
Qed.

Lemma merge_run captured : forall acc,
  foldl (fun '(s, changed) r => let '(s, c) := merge_pane_liveness s r in (s, changed || c)) acc captured =
  run_steps (map (fun r s => merge_pane_liveness s r) captured) acc.
Proof. unfold run_steps. induction captured as [|r l IH]; intros [s c]; [done|]. cbn [foldl map]. by rewrite IH. Qed.

Definition arranged_in (s : HostWorkspaceState) (id : RawUuid) : Prop :=
  exists f, f ∈ TOPOLOGY_FIELDS /\ is_Some (s !! pane_key id f).
Definition known_in (s : HostWorkspaceState) (id : RawUuid) : Prop := exists k, own id k /\ is_Some (s !! k).

Lemma elem_of_keys s k : k ∈ keys s <-> is_Some (s !! k).
Proof. apply elem_of_keys_by. Qed.

Lemma inventory_known s id : id ∈ (pane_inventory s).1 <-> known_in s id.
Proof.
  unfold pane_inventory; cbn [fst]. rewrite elem_of_list_to_set, list_elem_of_fmap. split.
  - intros (k & -> & [Hk Hin]%list_elem_of_filter). apply elem_of_keys in Hin. by exists k.
  - intros (k & [Hk <-] & Hs). exists k. split; [done|]. apply list_elem_of_filter. split; [done|by apply elem_of_keys].
Qed.

Lemma inventory_arranged s id : id ∈ (pane_inventory s).2 <-> arranged_in s id.
Proof.
  unfold pane_inventory; cbn [snd]. rewrite elem_of_list_to_set, list_elem_of_fmap. split.
  - intros (k & -> & [Hf [Hk Hin]%list_elem_of_filter]%list_elem_of_filter). apply elem_of_keys in Hin.
    exists (field k). split; [done|]. by rewrite <- (own_pane_key (object_id k) k) by done.
  - intros (f & Hf & Hs). exists (pane_key id f). split; [done|]. apply list_elem_of_filter. split; [done|].
    apply list_elem_of_filter. split; [done|by apply elem_of_keys].
Qed.

#[export] Instance arranged_in_dec s id : Decision (arranged_in s id).
Proof. refine (cast_if (decide (id ∈ (pane_inventory s).2))); by rewrite <- inventory_arranged. Defined.

Lemma arranged_known s id : arranged_in s id -> known_in s id.
Proof. intros (f & _ & Hs). by exists (pane_key id f). Qed.

Lemma inventory_agree id s t : agree id s t -> (known_in s id <-> known_in t id) /\ (arranged_in s id <-> arranged_in t id).
Proof.
  intros H. split; split.
  - intros (k & Hk & Hs). exists k. by rewrite <- (H k Hk).
  - intros (k & Hk & Hs). exists k. by rewrite (H k Hk).
  - intros (f & Hf & Hs). exists f. by rewrite <- (H _ (pane_key_own id f)).
  - intros (f & Hf & Hs). exists f. by rewrite (H _ (pane_key_own id f)).
Qed.

(** What a pass makes of one cell. *)
Definition settled_value (s : HostWorkspaceState) (captured : list PaneLiveness) (k : WorkspaceKey) : option (list byte) :=
  if bool_decide (kind k = PANE_KIND) then
    match list_find (fun r => pane_id r = object_id k) captured with
    | Some (_, r) => merged r s k
    | None => if bool_decide (object_id k ∈ (pane_inventory s).2) then merged (dead_record s (object_id k)) s k else None
    end
  else s !! k.

Lemma set_iter_spec X : set_iter X ≡ₚ elements X.
Proof. apply merge_sort_Permutation. Qed.

Lemma pass_steps s captured :
  let alive : gset RawUuid := list_to_set (map pane_id captured) in
  let s1 := (run_steps (map (fun r s => merge_pane_liveness s r) captured) (s, false)).1 in
  reconcile s captured =
  run_steps (map (fun r s => merge_pane_liveness s r) captured ++
             map (sweep_step (pane_inventory s1).2) (set_iter ((pane_inventory s1).1 ∖ alive))) (s, false).
Proof.
  cbv zeta. unfold reconcile. rewrite merge_run, run_steps_app. destruct (run_steps _ (s, false)) as [s1 c1]. cbn [fst].
  destruct (pane_inventory s1) as [known arranged]. cbn [fst snd]. by rewrite sweep_run.
Qed.

Definition merges (captured : list PaneLiveness) : list (RawUuid * Step) :=
  map (fun r => (pane_id r, fun s => merge_pane_liveness s r)) captured.
Lemma merges_ids captured : (merges captured).*1 = map pane_id captured.
Proof. unfold merges. induction captured as [|r l IH]; [done|]. cbn. by f_equal. Qed.
Lemma merges_steps captured : (merges captured).*2 = map (fun r s => merge_pane_liveness s r) captured.
Proof. unfold merges. induction captured as [|r l IH]; [done|]. cbn. by f_equal. Qed.

Lemma elem_of_merges captured id step : (id, step) ∈ merges captured <->
  exists r, r ∈ captured /\ id = pane_id r /\ step = (fun s => merge_pane_liveness s r).
Proof.
  unfold merges. rewrite list_elem_of_fmap. split.
  - intros (r & [= -> ->] & Hr). eauto.
  - intros (r & Hr & -> & ->). eauto.
Qed.

Lemma merged_agree s captured id :
  NoDup (map pane_id captured) -> id ∉ map pane_id captured ->
  agree id s (run_steps (map (fun r s => merge_pane_liveness s r) captured) (s, false)).1.
Proof.
  intros Hnd Hid k Hk. rewrite <- merges_steps. rewrite <- merges_ids in Hnd, Hid.
  destruct (run_steps_spec (merges captured) (fun _ _ => True) s false Hnd) as (_ & H & _); [|done|].
  - intros id' step (r & Hr & -> & ->)%elem_of_merges. apply merge_local.
  - symmetry. apply H. intros id' Hin Hk'. by rewrite (own_unique _ _ _ Hk Hk') in Hid.
Qed.

Definition sweeps (arranged : gset RawUuid) (l : list RawUuid) : list (RawUuid * Step) :=
  map (fun id => (id, sweep_step arranged id)) l.
Lemma sweeps_ids arranged l : (sweeps arranged l).*1 = l.
Proof. unfold sweeps. induction l as [|r l IH]; [done|]. cbn. by f_equal. Qed.
Lemma sweeps_steps arranged l : (sweeps arranged l).*2 = map (sweep_step arranged) l.
Proof. unfold sweeps. induction l as [|r l IH]; [done|]. cbn. by f_equal. Qed.

(** The whole pass is a run of steps on different panes. *)
Lemma pass_run s captured :
  NoDup (map pane_id captured) -> exists l,
  (forall id, id ∈ l <-> known_in s id /\ id ∉ map pane_id captured) /\ NoDup l /\
  exists arranged, (forall id, id ∈ l -> id ∈ arranged <-> arranged_in s id) /\
  reconcile s captured = run_steps (merges captured ++ sweeps arranged l).*2 (s, false).
Proof.
  intros Hnd. rewrite pass_steps.
  set (s1 := (run_steps (map (fun r s => merge_pane_liveness s r) captured) (s, false)).1).
  assert (Hag : forall id, id ∉ map pane_id captured -> agree id s s1) by (intros id Hid; by apply merged_agree).
  exists (set_iter ((pane_inventory s1).1 ∖ list_to_set (map pane_id captured))).
  assert (Hl : forall id, id ∈ set_iter ((pane_inventory s1).1 ∖ list_to_set (map pane_id captured)) <->
    known_in s id /\ id ∉ map pane_id captured).
  { intros id. rewrite set_iter_spec, elem_of_elements, elem_of_difference, elem_of_list_to_set, inventory_known.
    split; intros [H1 H2]; (split; [|done]); by apply (inventory_agree id s s1 (Hag id H2)). }
  split; [exact Hl|]. split; [rewrite set_iter_spec; apply NoDup_elements|]. exists (pane_inventory s1).2. split.
  - intros id [_ Hid]%Hl. rewrite inventory_arranged. symmetry. by apply (inventory_agree id s s1 (Hag id Hid)).
  - by rewrite fmap_app, merges_steps, sweeps_steps.
Qed.

Lemma reconcile_cells s captured :
  NoDup (map pane_id captured) ->
  (forall k, (reconcile s captured).1 !! k = settled_value s captured k) /\
  ((reconcile s captured).2 = true <-> (reconcile s captured).1 <> s).
Proof.
  intros Hnd. destruct (pass_run s captured Hnd) as (l & Hl & Hndl & arranged & Harr & E). rewrite E. clear E.
  set (steps := merges captured ++ sweeps arranged l).
  assert (Hids : steps.*1 = map pane_id captured ++ l) by (unfold steps; by rewrite fmap_app, merges_ids, sweeps_ids).
  destruct (run_steps_spec steps (fun id s => id ∈ map pane_id captured \/ pre_of arranged id s) s false)
    as (H1 & H2 & H3).
  - rewrite Hids. apply NoDup_app. split_and!; [done| |done]. intros id Hin Hin'. by apply Hl in Hin' as [_ ?].
  - intros id step [Hin|Hin]%elem_of_app.
    + apply elem_of_merges in Hin as (r & Hr & -> & ->). destruct (merge_local r) as [A B _ D]. constructor; try done.
      * intros. left. by apply (list_elem_of_fmap_2 pane_id).
      * intros s' _. by apply D.
    + apply list_elem_of_fmap in Hin as (id' & [= -> ->] & Hin). destruct (sweep_local arranged id') as [A B C D].
      constructor; try done.
      * intros s' t' Hag [?|Hp]; [by left|right]. by apply (C s').
      * intros s' [Hc|Hp]; [|by apply D]. by apply Hl in Hin as [_ ?].
  - intros id Hin. rewrite Hids in Hin. apply elem_of_app in Hin as [?|Hin]; [by left|right].
    apply Hl in Hin as [Hk _]. by right.
  - split; [|rewrite H3; naive_solver]. intros k. unfold settled_value. case_bool_decide as Hkd.
    + destruct (list_find _ captured) as [ [i r]|] eqn:Ef.
      * apply list_find_Some in Ef as (Hi & Hid & _). assert (Hk : own (pane_id r) k) by (split; [done|by rewrite Hid]).
        rewrite (H1 (pane_id r) (fun s => merge_pane_liveness s r) k); [by apply merge_own| |done].
        apply elem_of_app. left. apply elem_of_merges. exists r. split; [|done]. apply list_elem_of_lookup. eauto.
      * assert (Hid : object_id k ∉ map pane_id captured).
        { intros (r & Er & Hr)%list_elem_of_fmap. apply list_find_None in Ef. rewrite Forall_forall in Ef. by apply (Ef r). }
        assert (Hk : own (object_id k) k) by done.
        destruct (decide (object_id k ∈ (pane_inventory s).1)) as [Hkn|Hkn].
        -- apply inventory_known in Hkn. assert (Hin : object_id k ∈ l) by by apply Hl.
           rewrite (H1 (object_id k) (sweep_step arranged (object_id k)) k);
             [|apply elem_of_app; right; apply list_elem_of_fmap; eauto|done]. unfold sweep_step.
           pose proof (Harr _ Hin) as Ha. rewrite <- inventory_arranged in Ha. rewrite (bool_decide_ext _ _ Ha).
           case_bool_decide; [by apply (merge_own s (dead_record s (object_id k)))|]. cbn.
           by rewrite lookup_remove_object, decide_True.
        -- rewrite inventory_known in Hkn. rewrite bool_decide_eq_false_2 by (rewrite inventory_arranged; by intros ?%arranged_known).
           rewrite H2; [apply eq_None_not_Some; intros Hs; apply Hkn; by exists k|]. intros id Hin Hk'. rewrite Hids in Hin.
           destruct Hk' as [_ <-]. apply elem_of_app in Hin as [?|Hin]; [done|]. by apply Hl in Hin as [? _].
    + apply H2. intros id _ [Hk _]. done.
Qed.

(** ** Reading a pane back after a pass *)

Lemma from_document_agree id s t : agree id s t -> from_document id s = from_document id t.
Proof. intros H. unfold from_document. by rewrite !(H _ (pane_key_own id _)). Qed.

(** Text that was read out of a document and written again stays as it is. *)
Lemma text_settles o : text (text (o ≫= decode_string) ≫= decode_string) = text (o ≫= decode_string).
Proof.
  destruct o as [d|]; [|done]. cbn. unfold decode_string at 2 3. destruct (utf8_valid d) eqn:E; [|done]. cbn.
  set (e := encode_string d MAX_STRING_BYTES).
  assert (He : text_ok e) by (split; [by apply (clamp_u16_valid d)|by apply (clamp_u16_length d)]).
  unfold decode_string. destruct (He) as [-> _]. cbn. f_equal. by apply clamp_text.
Qed.

Lemma text_fits o t : o = Some t -> text_ok t -> text (o ≫= decode_string) = Some t.
Proof.
  intros -> Ht. cbn. unfold decode_string. destruct (Ht) as [-> _]. cbn. f_equal. by apply clamp_text.
Qed.

Lemma dead_back s t id :
  agree id t (merge_pane_liveness s (dead_record s id)).1 -> from_document id t = Some (dead_record t id).
Proof.
  intros Hag. rewrite (from_document_agree _ _ _ Hag). unfold dead_record at 2. rewrite !(Hag _ (pane_key_own id _)).
  unfold from_document. rewrite !(merge_lookup s (dead_record s id)) by (vm_compute; reflexivity).
  destruct (field_values (dead_record s id)) as
    (-> & -> & -> & -> & -> & -> & -> & -> & -> & -> & -> & -> & -> & -> & -> & -> & ->). done.
Qed.

Lemma fields_disjoint f : f ∈ TOPOLOGY_FIELDS -> f ∉ LIVENESS_FIELDS.
Proof. revert f. refine (proj1 (Forall_forall _ _) (bool_decide_unpack _ _)). by vm_compute. Qed.

Lemma settled_agree s t captured id : (forall k, t !! k = settled_value s captured k) -> forall r,
  list_find (fun r => pane_id r = id) captured = r ->
  match r with
  | Some (_, r) => agree id t (merge_pane_liveness s r).1
  | None => if bool_decide (id ∈ (pane_inventory s).2) then agree id t (merge_pane_liveness s (dead_record s id)).1
            else forall k, own id k -> t !! k = None
  end.
Proof.
  intros Ht r Hr. assert (E : forall k, own id k -> t !! k = match r with Some (_, r) => merged r s k | None =>
    if bool_decide (id ∈ (pane_inventory s).2) then merged (dead_record s id) s k else None end).
  { intros k [Hk <-]. rewrite Ht. unfold settled_value. rewrite bool_decide_eq_true_2 by done. by rewrite Hr. }
  destruct r as [ [i r]|].
  - apply list_find_Some in Hr as (_ & <- & _). intros k Hk. by rewrite merge_own, E.
  - destruct (bool_decide _); [|done]. intros k Hk. rewrite E by done. symmetry. by apply (merge_own s (dead_record s id)).
Qed.

Lemma find_captured captured r :
  NoDup (map pane_id captured) -> r ∈ captured -> exists i, list_find (fun r' => pane_id r' = pane_id r) captured = Some (i, r).
Proof.
  intros Hnd [i Hi]%list_elem_of_lookup. exists i. apply list_find_Some. split_and!; [done|done|].
  intros j y Hj Hlt E. apply (NoDup_lookup _ j i (pane_id r)) in Hnd; [lia| |]; change (map pane_id captured) with (pane_id <$> captured); rewrite list_lookup_fmap.
  - by rewrite Hj; cbn; rewrite E.
  - by rewrite Hi.
Qed.

Lemma find_uncaptured captured id :
  id ∉ map pane_id captured -> list_find (fun r => pane_id r = id) captured = None.
Proof.
  intros H. apply list_find_None, Forall_forall. intros r Hr E. apply H. rewrite <- E. by apply (list_elem_of_fmap_2 pane_id).
Qed.

Lemma settled_topology s captured k :
  kind k = PANE_KIND -> field k ∈ TOPOLOGY_FIELDS -> settled_value s captured k = s !! k.
Proof.
  intros Hk Hf. unfold settled_value. rewrite bool_decide_eq_true_2 by done.
  assert (Hm : forall r, merged r s k = s !! k)
    by (intros r; unfold merged; by rewrite bool_decide_eq_false_2 by (by apply fields_disjoint)).
  destruct (list_find _ captured) as [ [i r]|]; [apply Hm|]. case_bool_decide as Ha; [apply Hm|]. symmetry.
  apply eq_None_not_Some. intros Hs. apply Ha, inventory_arranged. exists (field k). split; [done|].
  by rewrite <- (own_pane_key (object_id k) k).
Qed.

Lemma settled_arranged s t captured id :
  (forall k, t !! k = settled_value s captured k) -> arranged_in t id <-> arranged_in s id.
Proof.
  intros Ht. unfold arranged_in.
  assert (E : forall f, f ∈ TOPOLOGY_FIELDS -> t !! pane_key id f = s !! pane_key id f)
    by (intros f Hf; rewrite Ht; by apply settled_topology).
  split; intros (f & Hf & Hs); exists f; (split; [done|]); [by rewrite <- E|by rewrite E].
Qed.

Lemma dead_fields s t id :
  agree id t (merge_pane_liveness s (dead_record s id)).1 -> fields_of (dead_record t id) = fields_of (dead_record s id).
Proof.
  intros Hag. assert (Hcwd : t !! pane_key id CWD = text (s !! pane_key id CWD ≫= decode_string) /\
    t !! pane_key id PROJECT_KEY = text (s !! pane_key id PROJECT_KEY ≫= decode_string)).
  { rewrite !(Hag _ (pane_key_own id _)), !(merge_lookup s (dead_record s id)) by (vm_compute; reflexivity).
    by destruct (field_values (dead_record s id)) as (_ & _ & -> & -> & _). }
  destruct Hcwd as [E1 E2]. unfold fields_of, dead_record. cbn -[text decode_string CWD PROJECT_KEY MAX_STRING_BYTES].
  by rewrite E1, E2, !text_settles.
Qed.

Lemma settled_idempotent s t captured k :
  (forall k, t !! k = settled_value s captured k) -> settled_value t captured k = t !! k.
Proof.
  intros Ht. rewrite Ht. unfold settled_value. case_bool_decide as Hk; [|by rewrite Ht; unfold settled_value;
    rewrite bool_decide_eq_false_2]. pose proof (settled_agree s t captured (object_id k) Ht _ eq_refl) as Hag.
  assert (Hown : own (object_id k) k) by done. destruct (list_find _ captured) as [ [i r]|] eqn:Ef.
  - apply list_find_Some in Ef as (_ & Hid & _). assert (Hk' : own (pane_id r) k) by (split; [done|by rewrite Hid]).
    unfold merged at 1. rewrite (Hag k Hown), merge_own by done. unfold merged. by case_bool_decide.
  - rewrite (bool_decide_ext _ (object_id k ∈ (pane_inventory s).2))
      by (rewrite !inventory_arranged; by apply (settled_arranged s t captured)).
    case_bool_decide as Ha; [|done]. unfold merged at 1. rewrite (Hag k Hown).
    pose proof (merge_own s (dead_record s (object_id k)) k Hown) as E. rewrite E. unfold merged.
    case_bool_decide as Hf; [|done]. unfold field_value, entries. by rewrite (dead_fields s t).
Qed.

(** ** Properties *)

(** A liveness record survives the document.  Merging a record into any document and reading the pane
    back gives the record, field for field, and a second merge of it changes nothing.  The merge
    writes no other cell than the liveness fields of that pane (a title the user chose, the tree, the
    other panes stay), clears the fields the record is silent about, and its answer is whether the
    document changed. *)
Theorem record_survives_document s r :
  record_ok r -> let s' := (merge_pane_liveness s r).1 in
  from_document (pane_id r) s' = Some r /\
  merge_pane_liveness s' r = (s', false) /\
  (forall k, ~ (own (pane_id r) k /\ field k ∈ LIVENESS_FIELDS) -> s' !! k = s !! k) /\
  ((merge_pane_liveness s r).2 = true <-> s' <> s).
Proof.
  intros Hok. cbv zeta. destruct (merge_spec s r) as (H1 & H2 & H3).
  set (s' := (merge_pane_liveness s r).1) in *. destruct (merge_spec s' r) as (G1 & G2 & G3).
  assert (E : (merge_pane_liveness s' r).1 = s').
  { apply map_eq. intros k. destruct (decide (k ∈ map (pane_key (pane_id r)) LIVENESS_FIELDS)) as [Hk|Hk]; [|by apply G2].
    apply list_elem_of_fmap in Hk as (f & -> & Hf). by rewrite G1, H1. }
  split_and!; [by apply record_back| | |done].
  - destruct (merge_pane_liveness s' r) as [s'' c]. cbn [fst snd] in *. subst s''. f_equal.
    destruct c; [|done]. exfalso. by apply G3.
  - intros k Hk. apply H2. intros (f & -> & Hf)%list_elem_of_fmap. by apply Hk.
Qed.

(** C29: One reconciliation decides the fate of every pane.  A captured pane reads back as its record; a
    pane nothing was captured for but the tree still arranges reads back dead, with its working
    directory and project and no other live fact; a pane neither captured nor arranged loses every
    cell; the tree's own fields and every cell that is not a pane's are untouched.  The pass answers
    whether the document changed, and running it again changes nothing. *)
Theorem reconcile_decides s captured :
  NoDup (map pane_id captured) ->
  let s' := (reconcile s captured).1 in
  (forall r, r ∈ captured -> record_ok r -> from_document (pane_id r) s' = Some r) /\
  (forall id, id ∉ map pane_id captured -> arranged_in s id ->
     from_document id s' = Some (dead_record s' id) /\
     (forall f t, f ∈ [CWD; PROJECT_KEY] -> s !! pane_key id f = Some t -> text_ok t -> s' !! pane_key id f = Some t)) /\
  (forall id k, id ∉ map pane_id captured -> ~ arranged_in s id -> own id k -> s' !! k = None) /\
  (forall k, kind k <> PANE_KIND \/ field k ∈ TOPOLOGY_FIELDS -> s' !! k = s !! k) /\
  ((reconcile s captured).2 = true <-> s' <> s) /\
  reconcile s' captured = (s', false).
Proof.
  intros Hnd. cbv zeta. destruct (reconcile_cells s captured Hnd) as [Hc Hf]. set (s' := (reconcile s captured).1) in *.
  destruct (reconcile_cells s' captured Hnd) as [Hc' Hf'].
  assert (Hfix : (reconcile s' captured).1 = s').
  { apply map_eq. intros k. rewrite Hc'. by apply (settled_idempotent s). }
  split_and!.
  - intros r Hr Hok. destruct (find_captured _ _ Hnd Hr) as [i Ei].
    pose proof (settled_agree s s' captured (pane_id r) Hc _ Ei) as Hag. cbn in Hag.
    rewrite (from_document_agree _ _ _ Hag). by apply record_back.
  - intros id Hid Ha. pose proof (settled_agree s s' captured id Hc _ (find_uncaptured _ _ Hid)) as Hag. cbn in Hag.
    rewrite bool_decide_eq_true_2 in Hag by (by apply inventory_arranged). split; [by apply (dead_back s)|].
    intros f t Hin Hs Ht. rewrite (Hag _ (pane_key_own id f)). destruct (field_values (dead_record s id)) as (_ & _ & E1 & E2 & _).
    apply elem_of_cons in Hin as [->|Hin]; [|apply list_elem_of_singleton in Hin as ->];
      rewrite (merge_lookup s (dead_record s id)) by (vm_compute; reflexivity); [rewrite E1|rewrite E2]; by apply text_fits.
  - intros id k Hid Ha Hk. pose proof (settled_agree s s' captured id Hc _ (find_uncaptured _ _ Hid)) as Hag. cbn in Hag.
    assert (Hn : id ∉ (pane_inventory s).2) by by intros ?%inventory_arranged.
    rewrite bool_decide_eq_false_2 in Hag by done. by apply Hag.
  - intros k Hk. rewrite Hc. destruct (decide (kind k = PANE_KIND)) as [Hkd|Hkd].
    + destruct Hk as [?|Hk]; [done|]. by apply settled_topology.
    + unfold settled_value. by rewrite bool_decide_eq_false_2.
  - done.
  - destruct (reconcile s' captured) as [s'' c]. cbn [fst snd] in *. subst s''. f_equal. destruct c; [|done]. exfalso. by apply Hf'.
Qed.

(** ** After a restart *)

Lemma lookup_persisting s k : persisting s !! k = if is_persisted k then s !! k else None.
Proof.
  assert (H : forall l out, (forall k, out !! k = if is_persisted k then (out !! k : option (list byte)) else None) ->
    forall k, foldl (fun out e => if is_persisted (entry_key e) then set out (entry_key e) (entry_value e) else out) out l
      !! k = if is_persisted k then foldl (fun s e => <[entry_key e := entry_value e]> s) out l !! k else None).
  { intros l. induction l as [|e l IH] using rev_ind; intros out Hout k'; [apply Hout|]. rewrite !foldl_app. cbn [foldl].
    destruct (decide (entry_key e = k')) as [<-|Hne].
    - destruct (is_persisted (entry_key e)) eqn:E; [by unfold set; rewrite !lookup_insert_eq|]. rewrite IH by done.
      by rewrite E.
    - rewrite lookup_insert_ne by done. destruct (is_persisted (entry_key e)); [unfold set; rewrite lookup_insert_ne by done|];
        by apply IH. }
  unfold persisting. rewrite H by (intros; by destruct (is_persisted _)). fold (from_entries (sorted_entries s)).
  by rewrite from_sorted_entries.
Qed.

Lemma topology_is_persisted k : kind k = PANE_KIND -> field k ∈ TOPOLOGY_FIELDS -> is_persisted k = true.
Proof.
  intros Hk Hf. unfold is_persisted. rewrite Hk. change (kind_from_byte PANE_KIND) with (Some Pane).
  apply bool_decide_eq_true_2. unfold PERSISTED_PANE_FIELDS, TOPOLOGY_FIELDS in *. set_solver.
Qed.

Lemma persisting_arranged s id : arranged_in (persisting s) id <-> arranged_in s id.
Proof.
  unfold arranged_in. assert (E : forall f, f ∈ TOPOLOGY_FIELDS -> persisting s !! pane_key id f = s !! pane_key id f)
    by (intros f Hf; by rewrite lookup_persisting, topology_is_persisted).
  split; intros (f & Hf & Hs); exists f; (split; [done|]); [by rewrite <- E|by rewrite E].
Qed.

(** Nothing is live after a restart.  The document a restarted host serves, the saved cells after its
    first pass with no process running, shows every arranged pane dead and no other pane at all; the
    working directory and project of a dead pane are those it was saved with, and the tree (sessions,
    tabs, splits, and each pane's own topology fields) is the one that was saved. *)
Theorem nothing_is_live_after_restart s :
  let s' := (reconcile (persisting s) []).1 in
  (forall id r, from_document id s' = Some r <-> arranged_in s id /\ r = dead_record s' id) /\
  (forall id f t, arranged_in s id -> f ∈ [CWD; PROJECT_KEY] -> s !! pane_key id f = Some t -> text_ok t ->
     s' !! pane_key id f = Some t) /\
  (forall k, kind k <> PANE_KIND -> s' !! k = if is_persisted k then s !! k else None) /\
  (forall k, kind k = PANE_KIND -> field k ∈ TOPOLOGY_FIELDS -> s' !! k = s !! k).
Proof.
  cbv zeta. destruct (reconcile_cells (persisting s) [] ltac:(constructor)) as [Hc _].
  set (s' := (reconcile (persisting s) []).1) in *.
  assert (Hag : forall id, if bool_decide (arranged_in s id) then
    agree id s' (merge_pane_liveness (persisting s) (dead_record (persisting s) id)).1
    else forall k, own id k -> s' !! k = None).
  { intros id. pose proof (settled_agree (persisting s) s' [] id Hc None eq_refl) as H. cbn -[pane_inventory] in H.
    by rewrite (bool_decide_ext _ (arranged_in s id)) in H by (by rewrite inventory_arranged, persisting_arranged). }
  split_and!.
  - intros id r. specialize (Hag id). case_bool_decide as Ha.
    + rewrite (dead_back _ _ _ Hag). naive_solver.
    + split; [|naive_solver]. unfold from_document. by rewrite (Hag _ (pane_key_own id LIVENESS)).
  - intros id f t Ha Hf Hs Ht. specialize (Hag id). rewrite bool_decide_eq_true_2 in Hag by done.
    rewrite (Hag _ (pane_key_own id f)).
    destruct (field_values (dead_record (persisting s) id)) as (_ & _ & E1 & E2 & _).
    apply elem_of_cons in Hf as [->|Hf]; [|apply list_elem_of_singleton in Hf as ->];
      rewrite (merge_lookup (persisting s) (dead_record (persisting s) id)) by (vm_compute; reflexivity);
      [rewrite E1|rewrite E2]; apply text_fits; try done; by rewrite lookup_persisting.
  - intros k Hk. rewrite Hc. unfold settled_value. rewrite bool_decide_eq_false_2 by done. apply lookup_persisting.
  - intros k Hk Hf. rewrite Hc, settled_topology by done. by rewrite lookup_persisting, topology_is_persisted.
Qed.

(** ** Concrete documents *)

Definition pane_no (n : Z) : RawUuid := repeat (byte_of_Z n) 16.
Definition shell_pane : PaneLiveness :=
  mkLiveness (pane_no 1) Attached (Some [Byte.x76; Byte.x69]) true (Some [Byte.x2f]) None (Some [Byte.x73; Byte.x68]) None
    (Some (mkAgent Byte.x02 Byte.x01)) None None None false (Some (-1)) (Some 250) (Some (mkGrid 80 24)) 3 1700000000000.
(** One pane captured, one only arranged (and live a moment ago), one nobody arranges, and the root. *)
Definition four_panes : HostWorkspaceState :=
  list_to_map [(pane_key (pane_no 1) KIND, [Byte.x00]); (pane_key (pane_no 1) PROGRESS, [Byte.x01; Byte.x32]);
    (pane_key (pane_no 2) SPAWN_CWD, [Byte.x2f]); (pane_key (pane_no 2) LIVENESS, [Byte.x00]);
    (pane_key (pane_no 2) CWD, [Byte.x2f; Byte.x61]); (pane_key (pane_no 3) LIVENESS, [Byte.x01]);
    (key_of Root (pane_no 0) Byte.x00, [Byte.x07])].

Lemma shell_pane_ok : record_ok shell_pane.
Proof. by constructor; vm_compute. Qed.

Lemma record_survives_document_witness :
  let s' := (merge_pane_liveness four_panes shell_pane).1 in
  from_document (pane_no 1) s' = Some shell_pane /\ s' !! pane_key (pane_no 1) PROGRESS = None /\
  s' !! pane_key (pane_no 1) KIND = Some [Byte.x00].
Proof.
  destruct (record_survives_document four_panes shell_pane shell_pane_ok) as (H & _ & Hk & _).
  split_and!; [exact H|by vm_compute|]. refine (eq_trans (Hk _ _) _); [|by vm_compute].
  intros [_ Hf]. revert Hf. refine (bool_decide_unpack _ _). by vm_compute.
Defined.

Lemma reconcile_decides_witness :
  let s' := (reconcile four_panes [shell_pane]).1 in
  from_document (pane_no 1) s' = Some shell_pane /\
  from_document (pane_no 2) s' = Some (dead_record s' (pane_no 2)) /\
  cwd (dead_record s' (pane_no 2)) = Some [Byte.x2f; Byte.x61] /\
  s' !! pane_key (pane_no 3) LIVENESS = None /\ reconcile s' [shell_pane] = (s', false).
Proof.
  destruct (reconcile_decides four_panes [shell_pane]) as (H1 & H2 & H3 & _ & _ & H6).
  { refine (bool_decide_unpack _ _). by vm_compute. }
  split_and!; [|apply H2| |apply (H3 (pane_no 3))|exact H6].
  - apply (H1 shell_pane); [left|apply shell_pane_ok].
  - refine (bool_decide_unpack _ _). by vm_compute.
  - refine (bool_decide_unpack _ _). by vm_compute.
  - by vm_compute.
  - refine (bool_decide_unpack _ _). by vm_compute.
  - refine (bool_decide_unpack _ _). by vm_compute.
  - apply pane_key_own.
Defined.
