(* ===== verification/Ladder.v ===== *)
(** * Ladder: what one subscriber may be sent next, and against which base

    Models [slopdesk-workspace/src/sync_ladder.rs]: the window of sent states, the ladder that decides between
    holding, a snapshot and a diff, and the retention that keeps the payload of every state the ladder may
    still need.  The fixed arrays are lists up to their length.  [Spec] is the same ladder with the
    payloads kept in place instead of under slots; the retention refines it. *)

From stdpp Require Import gmap.
From S2P Require Import Prelude Bytes Message.

Definition RETAINED_SENT_STATES : nat := 4.
Definition MAX_RELEASED : nat := RETAINED_SENT_STATES + 1.
Definition NO_SLOT : Z := u32_max.

(** ** The window *)

Record Retained : Type := mkRetained { r_state_num : Z; r_slot : Z }.
#[export] Instance retained_eq_dec : EqDecision Retained.
Proof. solve_decision. Defined.

(** Released slots, oldest first, at most [MAX_RELEASED] of them. *)
Abbreviation Released := (list Z).
Definition released_push (released : Released) (slot : Z) : Released :=
  if decide (length released < MAX_RELEASED)%nat then released ++ [slot] else released.

Abbreviation Window := (list Retained).

Definition window_find (w : Window) (state_num : Z) : option Retained :=
  snd <$> list_find (fun e => r_state_num e = state_num) w.

Definition drop_through (w : Window) (state_num promoted : Z) (released : Released) : Window * Released :=
  foldl (fun '(kept, released) e =>
    if state_num <? r_state_num e then (kept ++ [e], released)
    else if decide (r_slot e = promoted) then (kept, released)
    else (kept, released_push released (r_slot e))) ([], released) w.

Definition window_clear (w : Window) (promoted : Z) (released : Released) : Window * Released :=
  ([], foldl (fun released e => if decide (r_slot e = promoted) then released else released_push released (r_slot e))
         released w).

Definition evict_oldest (w : Window) (released : Released) : Window * Released :=
  (tail w, match w with oldest :: _ => released_push released (r_slot oldest) | [] => released end).

Definition window_push (w : Window) (entry : Retained) (released : Released) : Window * Released :=
  let '(w, released) :=
    foldl (fun '(kept, released) held =>
      if decide (r_state_num held = r_state_num entry) then (kept, released_push released (r_slot held))
      else (kept ++ [held], released)) ([], released) w in
  let '(w, released) :=
    if decide (length w = RETAINED_SENT_STATES) then evict_oldest w released else (w, released) in
  (if decide (length w < RETAINED_SENT_STATES)%nat then w ++ [entry] else w, released).

(** ** The ladder *)

Record Presence : Type := mkPresence {
  presence_clock : Z; viewing_tab_id : RawUuid; viewing_pane_id : RawUuid; p_cols : Z; p_rows : Z;
  p_contributes_size : bool; p_follows_focus : bool;
}.

Record SyncLadder : Type := mkLadder {
  window : Window;
  next_slot : Z;
  base_slot : option Z;
  acked_state_num : Z;
  sent_epoch : option RawUuid;
  outstanding : option Z;
  pending_ack : option Z;
  presence : option Presence;
  needs_snapshot : bool;
  contributes_size : bool;
  follows_focus : bool;
}.

Definition ladder_new (contributes_size follows_focus : bool) : SyncLadder :=
  mkLadder [] 0 None 0 None None None None true contributes_size follows_focus.

Definition with_outstanding (l : SyncLadder) (o : option Z) : SyncLadder :=
  mkLadder (window l) (next_slot l) (base_slot l) (acked_state_num l) (sent_epoch l) o (pending_ack l) (presence l)
    (needs_snapshot l) (contributes_size l) (follows_focus l).
Definition with_pending_ack (l : SyncLadder) (a : option Z) : SyncLadder :=
  mkLadder (window l) (next_slot l) (base_slot l) (acked_state_num l) (sent_epoch l) (outstanding l) a (presence l)
    (needs_snapshot l) (contributes_size l) (follows_focus l).
Definition with_window (l : SyncLadder) (w : Window) : SyncLadder :=
  mkLadder w (next_slot l) (base_slot l) (acked_state_num l) (sent_epoch l) (outstanding l) (pending_ack l) (presence l)
    (needs_snapshot l) (contributes_size l) (follows_focus l).
Definition with_needs_snapshot (l : SyncLadder) (b : bool) : SyncLadder :=
  mkLadder (window l) (next_slot l) (base_slot l) (acked_state_num l) (sent_epoch l) (outstanding l) (pending_ack l)
    (presence l) b (contributes_size l) (follows_focus l).
Definition with_base (l : SyncLadder) (slot : option Z) (n : Z) : SyncLadder :=
  mkLadder (window l) (next_slot l) slot n (sent_epoch l) (outstanding l) (pending_ack l) (presence l)
    (needs_snapshot l) (contributes_size l) (follows_focus l).
Definition with_sent_epoch (l : SyncLadder) (e : option RawUuid) : SyncLadder :=
  mkLadder (window l) (next_slot l) (base_slot l) (acked_state_num l) e (outstanding l) (pending_ack l) (presence l)
    (needs_snapshot l) (contributes_size l) (follows_focus l).
Definition with_next_slot (l : SyncLadder) (n : Z) : SyncLadder :=
  mkLadder (window l) n (base_slot l) (acked_state_num l) (sent_epoch l) (outstanding l) (pending_ack l) (presence l)
    (needs_snapshot l) (contributes_size l) (follows_focus l).
Definition with_presence (l : SyncLadder) (p : option Presence) : SyncLadder :=
  mkLadder (window l) (next_slot l) (base_slot l) (acked_state_num l) (sent_epoch l) (outstanding l) (pending_ack l) p
    (needs_snapshot l) (contributes_size l) (follows_focus l).
Definition with_flags (l : SyncLadder) (cs ff : bool) : SyncLadder :=
  mkLadder (window l) (next_slot l) (base_slot l) (acked_state_num l) (sent_epoch l) (outstanding l) (pending_ack l)
    (presence l) (needs_snapshot l) cs ff.

(** The highest acknowledgement wins. *)
Definition note_ack (l : SyncLadder) (n : Z) : SyncLadder :=
  with_pending_ack l (Some match pending_ack l with Some held => if n <=? held then held else n | None => n end).

Definition adopt_base (l : SyncLadder) (slot : option Z) (n : Z) (released : Released) : SyncLadder * Released :=
  (with_base l slot n,
   match base_slot l with
   | Some old => if decide (Some old = slot) then released else released_push released old
   | None => released
   end).

(** An acknowledgement of a state that is not retained is not a base. *)
Definition apply_pending_ack (l : SyncLadder) : SyncLadder * Released :=
  match pending_ack l with
  | None => (l, [])
  | Some n =>
      let l := with_pending_ack l None in
      match window_find (window l) n with
      | None =>
          let l := if decide (n = acked_state_num l) then l else with_needs_snapshot l true in
          (with_outstanding l None, [])
      | Some retained =>
          let '(w, released) := drop_through (window l) n (r_slot retained) [] in
          let '(l, released) := adopt_base (with_window l w) (Some (r_slot retained)) n released in
          (if decide (outstanding l = Some n) then with_outstanding l None else l, released)
      end
  end.

Definition resubscribe (l : SyncLadder) (known_epoch : RawUuid) (known_state_num : Z) (cs ff : bool) :
    SyncLadder * Released :=
  let l := with_outstanding (with_flags l cs ff) None in
  let claimed := if bool_decide (sent_epoch l = Some known_epoch) && negb (known_state_num =? 0)
                 then window_find (window l) known_state_num else None in
  match claimed with
  | Some retained =>
      let '(w, released) := window_clear (window l) (r_slot retained) [] in
      let '(l, released) := adopt_base (with_window l w) (Some (r_slot retained)) (r_state_num retained) released in
      (with_needs_snapshot l false, released)
  | None =>
      let '(w, released) := window_clear (window l) NO_SLOT [] in
      let '(l, released) := adopt_base (with_window l w) None 0 released in
      (with_needs_snapshot l true, released)
  end.

Record Frame : Type := mkFrame {
  reset_first : bool; snapshot : bool; base_state_num : Z; f_base_slot : Z; f_released : Released;
}.
Inductive Plan : Type := Hold | Send (frame : Frame).

(** The offer is not consumed; while a frame is outstanding nothing changes. *)
Definition plan (l : SyncLadder) (epoch : RawUuid) : SyncLadder * Plan :=
  match outstanding l with
  | Some _ => (l, Hold)
  | None =>
      let reset_first := match sent_epoch l with Some sent => negb (bool_decide (sent = epoch)) | None => false end in
      let '(l, released) :=
        if reset_first then
          let '(w, released) := window_clear (window l) NO_SLOT [] in
          let '(l, released) := adopt_base (with_window l w) None 0 released in
          (with_needs_snapshot l true, released)
        else (l, []) in
      let l := with_sent_epoch l (Some epoch) in
      let snapshot := needs_snapshot l || (acked_state_num l =? 0) || negb (bool_decide (is_Some (base_slot l))) in
      (l, Send (mkFrame reset_first snapshot (if snapshot then 0 else acked_state_num l)
                  (if snapshot then NO_SLOT else default NO_SLOT (base_slot l)) released))
  end.

(** Slot coordinates wrap, skipping [NO_SLOT]. *)
Definition mint_slot (l : SyncLadder) : SyncLadder * Z :=
  let slot := next_slot l in
  let next := (next_slot l + 1) mod 2 ^ 32 in
  (with_next_slot l (if next =? NO_SLOT then 0 else next), slot).

Record Commit : Type := mkCommit { c_slot : Z; c_released : Released }.

Definition ladder_commit (l : SyncLadder) (n : Z) : SyncLadder * Commit :=
  let l := with_outstanding (with_needs_snapshot l false) (Some n) in
  let '(l, slot) := mint_slot l in
  let '(w, released) := window_push (window l) (mkRetained n slot) [] in
  (with_window l w, mkCommit slot released).

Definition ladder_loose_epoch (l : SyncLadder) : RawUuid := default (replicate 16 (byte_of_Z 0)) (sent_epoch l).

(** A presence update whose clock is not strictly newer is ignored. *)
Definition ladder_note_presence (l : SyncLadder) (update : Presence) : SyncLadder * bool :=
  if match presence l with Some current => presence_clock update <=? presence_clock current | None => false end
  then (l, false) else (with_presence l (Some update), true).

Definition zero_uuid : RawUuid := replicate 16 (byte_of_Z 0).
Definition presence_default : Presence := mkPresence 0 zero_uuid zero_uuid 0 0 false false.

Definition ladder_roster_view (l : SyncLadder) : Presence :=
  let seen := default presence_default (presence l) in
  mkPresence (presence_clock seen) (viewing_tab_id seen) (viewing_pane_id seen) (p_cols seen) (p_rows seen)
    (match presence l with Some p => p_contributes_size p | None => contributes_size l end) (follows_focus l).

(** ** The retention: the ladder with the payloads it may still need *)

Inductive Planned (T : Type) : Type :=
| PHold
| PSnapshot (reset_first : bool)
| PDiff (base_state_num : Z) (base : T).
Arguments PHold {T}.
Arguments PSnapshot {T} reset_first.
Arguments PDiff {T} base_state_num base.

Record Retention (T : Type) : Type := mkRetention { ladder : SyncLadder; held : gmap Z T }.
Arguments mkRetention {T} ladder held.
Arguments ladder {T} r.
Arguments held {T} r.

Section Retention.
Context {T : Type}.
Implicit Types r : Retention T.

Definition retention_new (cs ff : bool) : Retention T := mkRetention (ladder_new cs ff) ∅.

Definition drop_released (h : gmap Z T) (released : Released) : gmap Z T := foldl (fun h slot => delete slot h) h released.

Definition ret_note_ack r (n : Z) : Retention T := mkRetention (note_ack (ladder r) n) (held r).

Definition ret_apply_pending_ack r : Retention T :=
  let '(l, released) := apply_pending_ack (ladder r) in mkRetention l (drop_released (held r) released).

Definition ret_resubscribe r (known_epoch : RawUuid) (known_state_num : Z) (cs ff : bool) : Retention T :=
  let '(l, released) := resubscribe (ladder r) known_epoch known_state_num cs ff in
  mkRetention l (drop_released (held r) released).

Definition ret_plan r (epoch : RawUuid) : Retention T * Planned T :=
  let '(l, p) := plan (ladder r) epoch in
  match p with
  | Hold => (mkRetention l (held r), PHold)
  | Send frame =>
      let h := drop_released (held r) (f_released frame) in
      (mkRetention l h,
       if snapshot frame then PSnapshot (reset_first frame)
       else match h !! f_base_slot frame with
            | Some base => PDiff (base_state_num frame) base
            | None => PSnapshot (reset_first frame)
            end)
  end.

Definition ret_commit r (n : Z) (payload : T) : Retention T :=
  let '(l, commit) := ladder_commit (ladder r) n in
  let h := drop_released (held r) (c_released commit) in
  mkRetention l (if decide (c_slot commit = NO_SLOT) then h else <[c_slot commit := payload]> h).

Definition ret_clear r : Retention T := mkRetention (ladder r) ∅.

Definition ret_note_presence r (update : Presence) : Retention T * bool :=
  let '(l, moved) := ladder_note_presence (ladder r) update in (mkRetention l (held r), moved).

Definition ret_held r : nat := size (held r).
End Retention.

(** ** The ladder without slots *)

Record Spec (T : Type) : Type := mkSpec {
  s_window : list (Z * T);
  s_base : option T;
  s_acked : Z;
  s_epoch : option RawUuid;
  s_outstanding : option Z;
  s_ack : option Z;
  s_needs : bool;
}.
Arguments mkSpec {T} s_window s_base s_acked s_epoch s_outstanding s_ack s_needs.
Arguments s_window {T} s.
Arguments s_base {T} s.
Arguments s_acked {T} s.
Arguments s_epoch {T} s.
Arguments s_outstanding {T} s.
Arguments s_ack {T} s.
Arguments s_needs {T} s.

Section Spec.
Context {T : Type}.
Implicit Types s : Spec T.

Definition spec_new : Spec T := mkSpec [] None 0 None None None true.

Definition spec_find (w : list (Z * T)) (n : Z) : option T := (fun p => p.2.2) <$> list_find (fun p => p.1 = n) w.

Definition spec_note_ack s (n : Z) : Spec T :=
  mkSpec (s_window s) (s_base s) (s_acked s) (s_epoch s) (s_outstanding s)
    (Some match s_ack s with Some a => Z.max a n | None => n end) (s_needs s).

Definition spec_apply_pending_ack s : Spec T :=
  match s_ack s with
  | None => s
  | Some n =>
      match spec_find (s_window s) n with
      | None => mkSpec (s_window s) (s_base s) (s_acked s) (s_epoch s) None None
                  (s_needs s || negb (bool_decide (n = s_acked s)))
      | Some d => mkSpec (filter (fun p => n < p.1) (s_window s)) (Some d) n (s_epoch s)
                    (if decide (s_outstanding s = Some n) then None else s_outstanding s) None (s_needs s)
      end
  end.

Definition spec_resubscribe s (e : RawUuid) (n : Z) : Spec T :=
  let claimed := if bool_decide (s_epoch s = Some e) && negb (n =? 0) then spec_find (s_window s) n else None in
  mkSpec [] claimed (if claimed then n else 0) (s_epoch s) None (s_ack s) (negb (bool_decide (is_Some claimed))).

Definition spec_plan s (e : RawUuid) : Spec T * Planned T :=
  match s_outstanding s with
  | Some _ => (s, PHold)
  | None =>
      let reset := match s_epoch s with Some sent => negb (bool_decide (sent = e)) | None => false end in
      let s' := if reset then mkSpec [] None 0 (Some e) None (s_ack s) true
                else mkSpec (s_window s) (s_base s) (s_acked s) (Some e) None (s_ack s) (s_needs s) in
      (s', match s_base s' with
           | Some d => if s_needs s' || (s_acked s' =? 0) then PSnapshot reset else PDiff (s_acked s') d
           | None => PSnapshot reset
           end)
  end.

Definition spec_commit s (n : Z) (d : T) : Spec T :=
  let w := filter (fun p => p.1 <> n) (s_window s) in
  mkSpec ((if decide (length w = RETAINED_SENT_STATES) then tail w else w) ++ [(n, d)]) (s_base s) (s_acked s)
    (s_epoch s) (Some n) (s_ack s) false.
End Spec.

(** ** The refinement *)

Definition live (l : SyncLadder) : list Z := option_list (base_slot l) ++ map r_slot (window l).

Record refines {T} (r : Retention T) (s : Spec T) : Prop := {
  rf_window : Forall2 (fun e p => r_state_num e = p.1 /\ held r !! r_slot e = Some p.2) (window (ladder r)) (s_window s);
  rf_base : match base_slot (ladder r) with Some k => exists d, s_base s = Some d /\ held r !! k = Some d
            | None => s_base s = None end;
  rf_acked : acked_state_num (ladder r) = s_acked s;
  rf_epoch : sent_epoch (ladder r) = s_epoch s;
  rf_outstanding : outstanding (ladder r) = s_outstanding s;
  rf_ack : pending_ack (ladder r) = s_ack s;
  rf_needs : needs_snapshot (ladder r) = s_needs s;
  rf_exact : forall k, is_Some (held r !! k) -> k ∈ live (ladder r);
  rf_nodup : NoDup (live (ladder r));
  rf_below : forall k, k ∈ live (ladder r) -> 0 <= k < next_slot (ladder r);
  rf_slot : 0 <= next_slot (ladder r) < NO_SLOT;
  rf_short : (length (window (ladder r)) <= RETAINED_SENT_STATES)%nat;
}.

Lemma released_push_all l : forall r, (length r + length l <= MAX_RELEASED)%nat -> foldl released_push r l = r ++ l.
Proof.
  change MAX_RELEASED with 5%nat. induction l as [|k l IH]; intros r H; cbn; [by rewrite app_nil_r|]. cbn in H.
  change MAX_RELEASED with 5%nat in IH.
  unfold released_push at 2. change MAX_RELEASED with 5%nat. rewrite decide_True by lia.
  rewrite IH by (rewrite length_app; cbn; lia).
  by rewrite <- app_assoc.
Qed.

Lemma lookup_drop_released {T} rel : forall (h : gmap Z T) k,
  drop_released h rel !! k = if decide (k ∈ rel) then None else h !! k.
Proof.
  unfold drop_released. induction rel as [|x rel IH]; intros h k; cbn; [by rewrite decide_False by apply not_elem_of_nil|].
  rewrite IH. destruct (decide (k ∈ rel)) as [Hin|Hin]; [by rewrite decide_True by (by right)|].
  destruct (decide (k = x)) as [->|Hne]; [rewrite decide_True by left; apply lookup_delete_eq|].
  rewrite decide_False by (by intros [?|?]%elem_of_cons). by rewrite lookup_delete_ne.
Qed.

(** Dropping what was released leaves exactly what is still live. *)
Lemma release_exact {T} (h : gmap Z T) (old new : list Z) rel :
  (forall k, is_Some (h !! k) -> k ∈ old) -> (forall k, k ∈ old -> k ∈ new \/ k ∈ rel) -> (forall k, k ∈ new -> k ∉ rel) ->
  (forall k, is_Some (drop_released h rel !! k) -> k ∈ new) /\
  (forall k, k ∈ new -> drop_released h rel !! k = h !! k).
Proof.
  intros Hex Hcov Hdis. split; intros k; rewrite lookup_drop_released.
  - case_decide; [by intros [? ?]|]. intros Hs. by destruct (Hcov k (Hex k Hs)).
  - intros Hk. by rewrite decide_False by auto.
Qed.

(** ** What the window functions do *)

Lemma drop_through_spec n p w : forall rel,
  (length rel + length w <= MAX_RELEASED)%nat ->
  drop_through w n p rel =
  (filter (fun e => n < r_state_num e) w, rel ++ map r_slot (filter (fun e => ~ n < r_state_num e /\ r_slot e <> p) w)).
Proof. change MAX_RELEASED with 5%nat.
  intros rel Hl. unfold drop_through.
  assert (H : forall kept rel, (length rel + length w <= 5)%nat ->
    foldl (fun '(kept, released) e => if n <? r_state_num e then (kept ++ [e], released)
      else if decide (r_slot e = p) then (kept, released) else (kept, released_push released (r_slot e))) (kept, rel) w =
    (kept ++ filter (fun e => n < r_state_num e) w,
     rel ++ map r_slot (filter (fun e => ~ n < r_state_num e /\ r_slot e <> p) w))); [|by apply (H [])].
  clear. induction w as [|e w IH]; intros kept rel Hl; cbn [foldl]; [by rewrite !app_nil_r|]. cbn in Hl.
  destruct (Z.ltb_spec n (r_state_num e)) as [Hlt|Hge].
  - rewrite filter_cons_True, filter_cons_False by naive_solver. rewrite IH by lia. by rewrite <- app_assoc.
  - rewrite (filter_cons_False (fun e => n < r_state_num e)) by (cbn; lia). destruct (decide (r_slot e = p)) as [Hp|Hp].
    + rewrite filter_cons_False by naive_solver. apply IH. lia.
    + rewrite filter_cons_True by (split; [lia|done]). unfold released_push. change MAX_RELEASED with 5%nat. rewrite decide_True by lia.
      rewrite IH by (rewrite length_app; cbn; lia). cbn. by rewrite <- app_assoc.
Qed.

Lemma window_clear_spec p w : forall rel,
  (length rel + length w <= MAX_RELEASED)%nat ->
  window_clear w p rel = ([], rel ++ map r_slot (filter (fun e => r_slot e <> p) w)).
Proof. change MAX_RELEASED with 5%nat.
  unfold window_clear. intros rel Hl. f_equal. revert rel Hl.
  induction w as [|e w IH]; intros rel Hl; cbn [foldl]; [by rewrite app_nil_r|]. cbn in Hl. destruct (decide (r_slot e = p)).
  - rewrite filter_cons_False by naive_solver. apply IH. lia.
  - rewrite filter_cons_True by done. unfold released_push. change MAX_RELEASED with 5%nat. rewrite decide_True by lia.
    rewrite IH by (rewrite length_app; cbn; lia). cbn. by rewrite <- app_assoc.
Qed.

Lemma window_push_dedupe n w : forall rel,
  (length rel + length w <= MAX_RELEASED)%nat ->
  foldl (fun '(kept, released) held =>
      if decide (r_state_num held = n) then (kept, released_push released (r_slot held))
      else (kept ++ [held], released)) ([], rel) w =
  (filter (fun e => r_state_num e <> n) w, rel ++ map r_slot (filter (fun e => r_state_num e = n) w)).
Proof. change MAX_RELEASED with 5%nat.
  intros rel Hl.
  assert (H : forall kept rel, (length rel + length w <= 5)%nat ->
    foldl (fun '(kept, released) held =>
      if decide (r_state_num held = n) then (kept, released_push released (r_slot held))
      else (kept ++ [held], released)) (kept, rel) w =
    (kept ++ filter (fun e => r_state_num e <> n) w, rel ++ map r_slot (filter (fun e => r_state_num e = n) w)));
    [|by apply (H [])].
  clear. induction w as [|e w IH]; intros kept rel Hl; cbn [foldl]; [by rewrite !app_nil_r|]. cbn in Hl.
  destruct (decide (r_state_num e = n)) as [Hn|Hn].
  - rewrite filter_cons_False, filter_cons_True by naive_solver. unfold released_push. change MAX_RELEASED with 5%nat. rewrite decide_True by lia.
    rewrite IH by (rewrite length_app; cbn; lia). cbn. by rewrite <- app_assoc.
  - rewrite filter_cons_True, filter_cons_False by naive_solver. rewrite IH by lia. by rewrite <- app_assoc.
Qed.

(** ** Every operation refines its slot-free counterpart *)

Lemma Forall2_impl_in {A B} (R R' : A -> B -> Prop) l k :
  Forall2 R l k -> (forall a b, a ∈ l -> R a b -> R' a b) -> Forall2 R' l k.
Proof.
  induction 1 as [|a b l k Hab Hlk IH]; intros H; constructor.
  - apply H; [left|done].
  - apply IH. intros a' b' Hin. apply H. by right.
Qed.

Section Refine.
Context {T : Type}.
Implicit Types (r : Retention T) (s : Spec T).

Abbreviation related h := (fun e (p : Z * T) => r_state_num e = p.1 /\ h !! r_slot e = Some p.2).

Lemma find_refines (h : gmap Z T) w sw n :
  Forall2 (related h) w sw ->
  match window_find w n with
  | Some e => spec_find sw n = h !! r_slot e /\ is_Some (spec_find sw n) /\ e ∈ w /\ r_state_num e = n
  | None => spec_find sw n = None
  end.
Proof.
  unfold window_find, spec_find. induction 1 as [|e [m d] w sw [Hn Hd] Hw IH]; [done|]. cbn [list_find]. cbn in Hn.
  destruct (decide (r_state_num e = n)) as [E|E].
  - rewrite decide_True by (by cbn; congruence). cbn. split_and!; [done|by eexists|left|done].
  - rewrite decide_False by (by cbn; congruence).
    destruct (list_find _ w) as [ [i e']|], (list_find _ sw) as [ [j p']|]; cbn in *; try done; try (by destruct IH as (_ & [? ?] & _)).
    destruct IH as (? & ? & ? & ?). split_and!; try done. by right.
Qed.

Lemma elem_of_live l k : k ∈ live l <-> base_slot l = Some k \/ exists e, e ∈ window l /\ r_slot e = k.
Proof.
  unfold live. rewrite elem_of_app, list_elem_of_fmap. destruct (base_slot l) as [b|]; cbn; [|set_solver].
  rewrite list_elem_of_singleton. naive_solver.
Qed.

Lemma live_inj l e e' : NoDup (live l) -> e ∈ window l -> e' ∈ window l -> r_slot e = r_slot e' -> e = e'.
Proof.
  intros (_ & _ & Hnd)%NoDup_app He He' E. apply list_elem_of_lookup in He as [i Hi]. apply list_elem_of_lookup in He' as [j Hj].
  assert (i = j) as ->; [|congruence]. eapply (NoDup_lookup (r_slot <$> window l)); [exact Hnd|..]; rewrite list_lookup_fmap;
    [by rewrite Hi|by rewrite Hj, E].
Qed.

Lemma live_base l k e : NoDup (live l) -> base_slot l = Some k -> e ∈ window l -> r_slot e <> k.
Proof.
  intros (_ & Hdis & _)%NoDup_app Hb He <-. apply (Hdis (r_slot e)); [by rewrite Hb; left|by apply list_elem_of_fmap_2].
Qed.

(** A change that keeps some of the window and perhaps another base, and releases everything else. *)
Lemma keep_refines r s l' s' rel :
  refines r s ->
  (forall k, k ∈ live l' -> k ∈ live (ladder r)) -> NoDup (live l') -> next_slot l' = next_slot (ladder r) ->
  (length (window l') <= RETAINED_SENT_STATES)%nat ->
  (forall k, k ∈ live (ladder r) -> k ∈ live l' \/ k ∈ rel) -> (forall k, k ∈ live l' -> k ∉ rel) ->
  Forall2 (related (held r)) (window l') (s_window s') ->
  (match base_slot l' with Some k => exists d, s_base s' = Some d /\ held r !! k = Some d | None => s_base s' = None end) ->
  acked_state_num l' = s_acked s' -> sent_epoch l' = s_epoch s' -> outstanding l' = s_outstanding s' ->
  pending_ack l' = s_ack s' -> needs_snapshot l' = s_needs s' ->
  refines (mkRetention l' (drop_released (held r) rel)) s'.
Proof.
  intros [] Hsub Hnd Hns Hlen Hcov Hdis Hw Hb ? ? ? ? ?.
  destruct (release_exact (held r) (live (ladder r)) (live l') rel) as [He1 He2]; [done..|].
  constructor; cbn [ladder held]; try done.
  - eapply Forall2_impl_in; [exact Hw|]. cbn. intros e p He [E1 E2]. split; [done|].
    rewrite He2; [done|]. apply elem_of_live. right. eauto.
  - destruct (base_slot l') as [k|] eqn:Eb; [|done]. destruct Hb as (d & Hd & Hk). exists d. split; [done|].
    rewrite He2; [done|]. apply elem_of_live. by left.
  - intros k Hk. rewrite Hns. by apply rf_below0, Hsub.
  - by rewrite Hns.
Qed.

Lemma note_ack_refines r s n : refines r s -> refines (ret_note_ack r n) (spec_note_ack s n).
Proof.
  intros []. constructor; try done. cbn. rewrite rf_ack0. destruct (s_ack s) as [a|]; [|done]. f_equal.
  destruct (Z.leb_spec n a); lia.
Qed.

Lemma note_presence_refines r s p : refines r s -> refines (ret_note_presence r p).1 s.
Proof.
  intros []. unfold ret_note_presence, ladder_note_presence. destruct (match presence (ladder r) with Some _ => _ | None => _ end);
    by constructor.
Qed.

Lemma new_refines cs ff : refines (retention_new cs ff) (spec_new (T := T)).
Proof.
  constructor; cbn; try done; try lia; try (by intros ? ?%elem_of_nil); try constructor.
  intros k. rewrite lookup_empty. by intros [? ?].
Qed.

Lemma live_sub l l' : (base_slot l' = base_slot l \/ (exists e, e ∈ window l /\ base_slot l' = Some (r_slot e)) \/ base_slot l' = None) ->
  window l' `sublist_of` window l -> forall k, k ∈ live l' -> k ∈ live l.
Proof.
  intros Hb Hw k. rewrite !elem_of_live. intros [Hk|(e & He & <-)].
  - destruct Hb as [E|[(e & He & E)|E] ]; [left; congruence|right; exists e; split; [done|congruence]|congruence].
  - right. exists e. split; [by eapply elem_of_sublist|done].
Qed.

Lemma drop_released_app (h : gmap Z T) a b : drop_released h (a ++ b) = drop_released (drop_released h a) b.
Proof. apply foldl_app. Qed.

(** Promoting a retained state: it becomes the base, what is not kept is released, the old base last. *)
Lemma promote_refines r s e w' rel l' s' :
  refines r s -> e ∈ window (ladder r) ->
  w' = filter (fun x => r_state_num e < r_state_num x) (window (ladder r)) \/ w' = [] ->
  (forall k, k ∈ rel <-> base_slot (ladder r) = Some k \/
     exists x, x ∈ window (ladder r) /\ x ∉ w' /\ r_slot x <> r_slot e /\ r_slot x = k) ->
  window l' = w' -> base_slot l' = Some (r_slot e) -> next_slot l' = next_slot (ladder r) ->
  Forall2 (related (held r)) w' (s_window s') -> s_base s' = held r !! r_slot e -> is_Some (s_base s') ->
  acked_state_num l' = s_acked s' -> sent_epoch l' = s_epoch s' -> outstanding l' = s_outstanding s' ->
  pending_ack l' = s_ack s' -> needs_snapshot l' = s_needs s' ->
  refines (mkRetention l' (drop_released (held r) rel)) s'.
Proof.
  intros Hr He Hw' Hrel Hl' Hb Hns HF Hsb [d Hd] ? ? ? ? ?. pose proof (rf_nodup r s Hr) as Hnd. subst w'.
  assert (Hsub : window l' `sublist_of` window (ladder r))
    by (destruct Hw' as [->| ->]; [apply sublist_filter|apply sublist_nil_l]).
  assert (Hne : e ∉ window l') by (destruct Hw' as [->| ->]; [rewrite list_elem_of_filter; lia|apply not_elem_of_nil]).
  assert (Hs : forall k, k ∈ live l' -> k ∈ live (ladder r)) by (apply live_sub; [right; left; eauto|done]).
  apply (keep_refines r s); try done.
  - unfold live. rewrite Hb. cbn. apply NoDup_cons. split.
    + intros (x & E & Hx)%list_elem_of_fmap. assert (Hx' : x ∈ window (ladder r)) by by eapply elem_of_sublist.
      apply (live_inj _ _ _ Hnd He Hx') in E. by subst.
    + unfold live in Hnd. apply NoDup_app in Hnd as (_ & _ & Hnd). eapply sublist_NoDup; [exact Hnd|]. by apply fmap_sublist.
  - etrans; [by apply sublist_length|apply Hr].
  - intros k. rewrite !elem_of_live, Hrel. intros [Hk|(x & Hx & <-)]; [by right; left|].
    destruct (decide (x ∈ window l')) as [Hin|Hin]; [left; right; eauto|].
    destruct (decide (r_slot x = r_slot e)) as [E|E]; [left; left; by rewrite Hb, E|]. right. right. eauto.
  - intros k Hk [Eb|(x & Hx & Hx1 & Hx2 & <-)]%Hrel.
    + apply elem_of_live in Hk as [Hk|(y & Hy & Hyx)].
      * rewrite Hb in Hk. injection Hk as E. by apply (live_base _ k e Hnd).
      * apply (live_base _ k y Hnd); [done|by eapply elem_of_sublist|done].
    + apply elem_of_live in Hk as [Hk|(y & Hy & Hyx)]; [rewrite Hb in Hk; by injection Hk|].
      apply Hx1. rewrite <- (live_inj _ y x Hnd); [done|by eapply elem_of_sublist|done|done].
  - rewrite Hb. exists d. split; [done|]. by rewrite <- Hsb.
Qed.

Lemma adopt_released l l' e n rel :
  NoDup (live l) -> e ∈ window l -> base_slot l' = base_slot l -> (length rel < MAX_RELEASED)%nat ->
  adopt_base l' (Some (r_slot e)) n rel = (with_base l' (Some (r_slot e)) n, rel ++ option_list (base_slot l)).
Proof.
  intros Hnd He Hb Hlen. unfold adopt_base. rewrite Hb. destruct (base_slot l) as [b|] eqn:Eb; [|by rewrite app_nil_r].
  rewrite decide_False; [|intros [= ->]; by apply (live_base _ (r_slot e) e Hnd)].
  unfold released_push. by rewrite decide_True.
Qed.

Lemma filter_short (P : Retained -> Prop) `{!forall x, Decision (P x)} e w : e ∈ w -> ~ P e ->
  (length w <= RETAINED_SENT_STATES)%nat -> (length (map r_slot (filter P w)) < RETAINED_SENT_STATES)%nat.
Proof.
  intros He HP Hl. rewrite length_map. eapply Nat.lt_le_trans; [|exact Hl]. by apply length_filter_lt with e.
Qed.

Lemma apply_ack_refines r s : refines r s -> refines (ret_apply_pending_ack r) (spec_apply_pending_ack s).
Proof.
  intros Hr. unfold ret_apply_pending_ack, apply_pending_ack, spec_apply_pending_ack. rewrite <- (rf_ack r s Hr).
  destruct (pending_ack (ladder r)) as [n|] eqn:Ea; [|by destruct r]. cbn [window with_pending_ack].
  pose proof (find_refines (held r) _ _ n (rf_window r s Hr)) as Hf. destruct (window_find _ n) as [e|].
  - destruct Hf as (Hd & [d Hsd] & He & <-). rewrite Hsd.
    rewrite drop_through_spec by (cbn; pose proof (rf_short r s Hr) as H; change RETAINED_SENT_STATES with 4%nat in *; change MAX_RELEASED with 5%nat; lia). cbn [app].
    rewrite (adopt_released (ladder r) _ e) by
      (apply Hr || done || (apply Nat.lt_lt_succ_r, (filter_short _ e); [done|naive_solver|apply Hr])).
    cbn [outstanding with_base with_window with_pending_ack fst snd].
    rewrite (rf_outstanding r s Hr).
    assert (Hrel : forall l', window l' = filter (fun x => r_state_num e < r_state_num x) (window (ladder r)) ->
      base_slot l' = Some (r_slot e) -> next_slot l' = next_slot (ladder r) -> acked_state_num l' = r_state_num e ->
      sent_epoch l' = sent_epoch (ladder r) -> pending_ack l' = None -> needs_snapshot l' = needs_snapshot (ladder r) ->
      outstanding l' = (if decide (s_outstanding s = Some (r_state_num e)) then None else s_outstanding s) ->
      refines (mkRetention l' (drop_released (held r)
        (map r_slot (filter (fun x => ~ r_state_num e < r_state_num x /\ r_slot x <> r_slot e) (window (ladder r))) ++
         option_list (base_slot (ladder r)))))
        (mkSpec (filter (fun p => r_state_num e < p.1) (s_window s)) (Some d) (r_state_num e) (s_epoch s)
          (if decide (s_outstanding s = Some (r_state_num e)) then None else s_outstanding s) None (s_needs s))).
    { intros l' E1 E2 E3 E4 E5 E6 E7 E8.
      apply (promote_refines r s e (filter (fun x => r_state_num e < r_state_num x) (window (ladder r)))); try done.
      - by left.
      - intros k. rewrite elem_of_app, list_elem_of_fmap. setoid_rewrite list_elem_of_filter.
        destruct (base_slot (ladder r)) as [b|]; cbn; [rewrite list_elem_of_singleton|rewrite elem_of_nil]; naive_solver.
      - apply Forall2_filter; [|apply Hr]. intros x p [-> _]. done.
      - by rewrite <- Hd.
      - by rewrite E5, (rf_epoch r s Hr).
      - by rewrite E7, (rf_needs r s Hr). }
    case_decide as Ho; apply Hrel; try done. cbn. apply Hr.
  - rewrite Hf. cbn [acked_state_num with_pending_ack]. rewrite (rf_acked r s Hr). destruct Hr. case_decide as Hn.
    + rewrite bool_decide_eq_true_2 by done. rewrite orb_false_r. by constructor.
    + rewrite bool_decide_eq_false_2 by done. rewrite orb_true_r. by constructor.
Qed.

Lemma window_not_no_slot r s e : refines r s -> e ∈ window (ladder r) -> r_slot e <> NO_SLOT.
Proof.
  intros Hr He. pose proof (rf_below r s Hr (r_slot e)) as H1. pose proof (rf_slot r s Hr) as H2. intros E.
  assert (r_slot e ∈ live (ladder r)) by (apply elem_of_live; right; eauto). specialize (H1 H). lia.
Qed.

(** Dropping everything: the window and the base. *)
Lemma forget_refines r s l' s' :
  refines r s ->
  let rel := map r_slot (filter (fun e => r_slot e <> NO_SLOT) (window (ladder r))) ++ option_list (base_slot (ladder r)) in
  window l' = [] -> base_slot l' = None -> next_slot l' = next_slot (ladder r) ->
  s_window s' = [] -> s_base s' = None ->
  acked_state_num l' = s_acked s' -> sent_epoch l' = s_epoch s' -> outstanding l' = s_outstanding s' ->
  pending_ack l' = s_ack s' -> needs_snapshot l' = s_needs s' ->
  refines (mkRetention l' (drop_released (held r) rel)) s'.
Proof.
  intros Hr rel Hw Hb Hns Hsw Hsb ? ? ? ? ?.
  assert (Hlive : live l' = []) by (unfold live; by rewrite Hw, Hb).
  apply (keep_refines r s); try done; rewrite ?Hlive, ?Hw, ?Hb, ?Hsw; try done;
    try (by apply NoDup_nil); try (by constructor); try (by intros ? ?%elem_of_nil).
  - cbn. lia.
  - intros k [Hk|(e & He & <-)]%elem_of_live; right; apply elem_of_app.
    + right. rewrite Hk. left.
    + left. apply list_elem_of_fmap_2. apply list_elem_of_filter. split; [by eapply window_not_no_slot|done].
Qed.

Lemma forget_released l l' n rel :
  base_slot l' = base_slot l -> (length rel < MAX_RELEASED)%nat ->
  adopt_base l' None n rel = (with_base l' None n, rel ++ option_list (base_slot l)).
Proof.
  intros Hb Hlen. unfold adopt_base. rewrite Hb. destruct (base_slot l) as [b|]; [|by rewrite app_nil_r].
  rewrite decide_False by done. unfold released_push. by rewrite decide_True.
Qed.

Lemma resubscribe_refines r s e n cs ff : refines r s -> refines (ret_resubscribe r e n cs ff) (spec_resubscribe s e n).
Proof.
  intros Hr. unfold ret_resubscribe, resubscribe, spec_resubscribe.
  cbn [sent_epoch window with_outstanding with_flags]. rewrite (rf_epoch r s Hr).
  pose proof (rf_short r s Hr) as Hs. assert (Hlen : (length (@nil Z) + length (window (ladder r)) <= MAX_RELEASED)%nat)
    by (change RETAINED_SENT_STATES with 4%nat in Hs; change MAX_RELEASED with 5%nat; cbn; lia).
  assert (Hno : refines (let '(l, rel) := let '(w, released) := window_clear (window (ladder r)) NO_SLOT [] in
       let '(l, released) := adopt_base (with_window (with_outstanding (with_flags (ladder r) cs ff) None) w) None 0 released in
       (with_needs_snapshot l true, released) in mkRetention l (drop_released (held r) rel))
       (mkSpec [] None 0 (s_epoch s) None (s_ack s) true)).
  { rewrite window_clear_spec by done. cbn [app].
    rewrite (forget_released (ladder r)); [|done|].
    - apply (forget_refines r s); try done; apply Hr.
    - rewrite length_map. eapply Nat.le_lt_trans; [apply length_filter|]. by apply Nat.lt_succ_r. }
  destruct (bool_decide (s_epoch s = Some e) && negb (n =? 0)); [|exact Hno].
  pose proof (find_refines (held r) _ _ n (rf_window r s Hr)) as Hf. destruct (window_find _ n) as [x|]; [|rewrite Hf; exact Hno].
  destruct Hf as (Hd & [d Hsd] & He & <-). rewrite Hsd. cbn [negb bool_decide]. clear Hno.
  rewrite window_clear_spec by done. cbn [app].
  rewrite (adopt_released (ladder r) _ x) by
    (apply Hr || done || (apply Nat.lt_lt_succ_r, (filter_short _ x); [done|naive_solver|done])).
  apply (promote_refines r s x []); try done; try (by constructor); try apply Hr; cbn.
  - intros k. rewrite elem_of_app, list_elem_of_fmap. setoid_rewrite list_elem_of_filter. setoid_rewrite elem_of_nil.
    destruct (base_slot (ladder r)) as [b|]; cbn; [rewrite list_elem_of_singleton|rewrite elem_of_nil]; naive_solver.
  - by rewrite <- Hd.
Qed.

Lemma snapshot_agrees (l : SyncLadder) (h : gmap Z T) s' :
  (match base_slot l with Some k => exists d, s_base s' = Some d /\ h !! k = Some d | None => s_base s' = None end) ->
  acked_state_num l = s_acked s' -> needs_snapshot l = s_needs s' -> forall reset,
  let snap := needs_snapshot l || (acked_state_num l =? 0) || negb (bool_decide (is_Some (base_slot l))) in
  (if snap then PSnapshot reset
   else match h !! (if snap then NO_SLOT else default NO_SLOT (base_slot l)) with
        | Some base => PDiff (if snap then 0 else acked_state_num l) base
        | None => PSnapshot reset
        end) =
  match s_base s' with
  | Some d => if s_needs s' || (s_acked s' =? 0) then PSnapshot reset else PDiff (s_acked s') d
  | None => PSnapshot reset
  end.
Proof.
  intros Hb Ha Hn reset. cbv zeta. rewrite Ha, Hn. destruct (base_slot l) as [k|].
  - destruct Hb as (d & -> & Hk). cbn [default is_Some]. rewrite bool_decide_eq_true_2 by done. cbn [negb]. rewrite orb_false_r.
    destruct (s_needs s' || (s_acked s' =? 0)); [done|]. cbn. by rewrite Hk.
  - rewrite Hb, bool_decide_eq_false_2 by (by intros [? ?]). by rewrite orb_true_r.
Qed.

Lemma plan_refines r s e :
  refines r s -> refines (ret_plan r e).1 (spec_plan s e).1 /\ (ret_plan r e).2 = (spec_plan s e).2.
Proof.
  intros Hr. unfold ret_plan, plan, spec_plan. rewrite (rf_outstanding r s Hr). destruct (s_outstanding s) as [o|] eqn:Eo.
  { split; [by destruct r|done]. }
  rewrite (rf_epoch r s Hr). set (reset := match s_epoch s with Some _ => _ | None => false end). destruct reset.
  - pose proof (rf_short r s Hr) as Hs. rewrite window_clear_spec by
      (change RETAINED_SENT_STATES with 4%nat in Hs; change MAX_RELEASED with 5%nat; cbn; lia). cbn [app].
    rewrite (forget_released (ladder r)); [|done|].
    2:{ rewrite length_map. eapply Nat.le_lt_trans; [apply length_filter|]. by apply Nat.lt_succ_r. }
    cbn [fst snd f_released snapshot f_base_slot base_state_num reset_first].
    match goal with |- refines (mkRetention ?l' _) ?s' /\ _ => assert (H : refines (mkRetention l' (drop_released (held r)
      (map r_slot (filter (fun x => r_slot x <> NO_SLOT) (window (ladder r))) ++ option_list (base_slot (ladder r))))) s') end.
    { apply (forget_refines r s); try done; cbn; [by rewrite (rf_outstanding r s Hr)|apply Hr]. }
    split; [exact H|]. done.
  - cbn [fst snd f_released snapshot f_base_slot base_state_num reset_first drop_released foldl].
    assert (H : refines (mkRetention (with_sent_epoch (ladder r) (Some e)) (held r))
      (mkSpec (s_window s) (s_base s) (s_acked s) (Some e) None (s_ack s) (s_needs s))).
    { destruct Hr. constructor; cbn; try done. by rewrite rf_outstanding0. }
    split; [exact H|]. apply (snapshot_agrees (with_sent_epoch (ladder r) (Some e)) (held r)
      (mkSpec (s_window s) (s_base s) (s_acked s) (Some e) None (s_ack s) (s_needs s))); apply H.
Qed.

Definition kept_by {A} (w : list A) : list A := if decide (length w = RETAINED_SENT_STATES) then tail w else w.

Lemma window_push_spec w n slot :
  (length w <= RETAINED_SENT_STATES)%nat ->
  let w1 := filter (fun e => r_state_num e <> n) w in
  window_push w (mkRetained n slot) [] =
  (kept_by w1 ++ [mkRetained n slot],
   map r_slot (filter (fun e => r_state_num e = n) w) ++
   (if decide (length w1 = RETAINED_SENT_STATES) then option_list (r_slot <$> head w1) else [])).
Proof.
  intros Hl. cbv zeta. unfold window_push. cbn [r_state_num].
  rewrite window_push_dedupe by (change RETAINED_SENT_STATES with 4%nat in Hl; change MAX_RELEASED with 5%nat; cbn; lia).
  cbn [app]. set (w1 := filter (fun e => r_state_num e <> n) w). unfold kept_by.
  assert (Hw1 : (length w1 <= length w)%nat) by apply length_filter. case_decide as H4.
  - unfold evict_oldest. destruct w1 as [|h t]; [done|]. cbn [tail head fmap option_fmap option_map option_list].
    rewrite decide_True by (change RETAINED_SENT_STATES with 4%nat in *; cbn in H4; lia). f_equal.
    unfold released_push. rewrite decide_True; [done|]. rewrite length_map.
    eapply Nat.le_lt_trans; [apply length_filter|]. by apply Nat.lt_succ_r.
  - rewrite decide_True by lia. by rewrite app_nil_r.
Qed.

Lemma kept_sublist {A} (w : list A) : kept_by w `sublist_of` w.
Proof. unfold kept_by. case_decide; [|done]. destruct w; [done|]. cbn. by apply sublist_cons. Qed.

Lemma kept_refines (h : gmap Z T) w sw n :
  Forall2 (related h) w sw ->
  Forall2 (related h) (kept_by (filter (fun e => r_state_num e <> n) w)) (kept_by (filter (fun p => p.1 <> n) sw)).
Proof.
  intros H. assert (H1 : Forall2 (related h) (filter (fun e => r_state_num e <> n) w) (filter (fun p => p.1 <> n) sw))
    by (apply Forall2_filter; [intros x p [-> _]; done|done]).
  unfold kept_by. rewrite (Forall2_length _ _ _ H1). case_decide; [|done]. by inversion H1.
Qed.

(** What a push lets go of. *)
Definition push_released (w : Window) (n : Z) : list Z :=
  map r_slot (filter (fun e => r_state_num e = n) w) ++
  (let w1 := filter (fun e => r_state_num e <> n) w in
   if decide (length w1 = RETAINED_SENT_STATES) then option_list (r_slot <$> head w1) else []).

Lemma push_released_dead l n k :
  NoDup (live l) -> k ∈ live (with_window l (kept_by (filter (fun e => r_state_num e <> n) (window l)))) ->
  k ∉ push_released (window l) n.
Proof.
  intros Hnd Hk Hrel. unfold push_released in Hrel. set (w1 := filter (fun e => r_state_num e <> n) (window l)) in *.
  assert (Hsub : kept_by w1 `sublist_of` window l) by (etrans; [apply kept_sublist|apply sublist_filter]).
  apply elem_of_app in Hrel as [ (y & -> & [Hy1 Hy2]%list_elem_of_filter)%list_elem_of_fmap|Hrel].
  - apply elem_of_live in Hk as [Hk|(e & He & E)]; [by apply (live_base _ _ y Hnd Hk)|]. cbn in He.
    apply (live_inj _ e y Hnd) in E; [|by eapply elem_of_sublist|done]. subst y.
    eapply elem_of_sublist in He; [|apply kept_sublist]. by apply list_elem_of_filter in He as [? _].
  - case_decide as H4; [|by apply elem_of_nil in Hrel]. destruct w1 as [|x t] eqn:Ew; [by apply elem_of_nil in Hrel|].
    apply list_elem_of_singleton in Hrel as ->. assert (Hx : x ∈ window l)
      by (eapply elem_of_sublist; [|apply (sublist_filter (fun e => r_state_num e <> n))]; fold w1; rewrite Ew; left).
    apply elem_of_live in Hk as [Hk|(e & He & E)]; [by apply (live_base _ _ x Hnd Hk)|]. cbn in He.
    apply (live_inj _ e x Hnd) in E; [|by eapply elem_of_sublist|done]. subst e.
    unfold kept_by in He. rewrite decide_True in He by done. cbn in He.
    assert (Hnw : NoDup (map r_slot w1)).
    { unfold live in Hnd. apply NoDup_app in Hnd as (_ & _ & Hnd). eapply sublist_NoDup; [exact Hnd|].
      apply fmap_sublist, sublist_filter. }
    rewrite Ew in Hnw. cbn in Hnw. apply NoDup_cons in Hnw as [Hnw _]. apply Hnw. by apply (list_elem_of_fmap_2 r_slot).
Qed.

Lemma kept_short (w : Window) n :
  (length w <= RETAINED_SENT_STATES)%nat -> (length (kept_by (filter (fun e => r_state_num e <> n) w)) < RETAINED_SENT_STATES)%nat.
Proof.
  intros Hl. pose proof (length_filter (fun e => r_state_num e <> n) w) as Hw1.
  unfold kept_by. case_decide as H4; [|lia]. destruct (filter _ w); [done|]. cbn in *. lia.
Qed.

Lemma evict_refines r s n :
  refines r s ->
  refines (mkRetention (with_window (ladder r) (kept_by (filter (fun e => r_state_num e <> n) (window (ladder r)))))
             (drop_released (held r) (push_released (window (ladder r)) n)))
    (mkSpec (kept_by (filter (fun p => p.1 <> n) (s_window s))) (s_base s) (s_acked s) (s_epoch s)
       (s_outstanding s) (s_ack s) (s_needs s)).
Proof.
  intros Hr. pose proof (rf_nodup r s Hr) as Hnd. set (w1 := filter (fun e => r_state_num e <> n) (window (ladder r))).
  assert (Hsub : kept_by w1 `sublist_of` window (ladder r)) by (etrans; [apply kept_sublist|apply sublist_filter]).
  apply (keep_refines r s); try done; try apply Hr.
  - apply live_sub; [by left|done].
  - unfold live in *. cbn. apply NoDup_app in Hnd as (Hb & Hd & Hw). apply NoDup_app. split_and!; [done| |].
    + intros k Hk Hin. apply (Hd k Hk). eapply elem_of_sublist; [exact Hin|]. by apply fmap_sublist.
    + eapply sublist_NoDup; [exact Hw|]. by apply fmap_sublist.
  - by apply Nat.lt_le_incl, kept_short, Hr.
  - intros k. rewrite !elem_of_live. intros [Hk|(e & He & <-)]; [by left; left|]. cbn. unfold push_released. rewrite elem_of_app.
    destruct (decide (r_state_num e = n)) as [Hn|Hn].
    { right. left. apply list_elem_of_fmap_2. by apply list_elem_of_filter. }
    assert (Hin : e ∈ w1) by by apply list_elem_of_filter. unfold kept_by. fold w1. case_decide; [|left; right; eauto].
    destruct w1 as [|x t]; [by apply elem_of_nil in Hin|]. apply elem_of_cons in Hin as [->|Hin]; [right; right; left|].
    left. right. eauto.
  - intros k. by apply push_released_dead.
  - apply kept_refines, Hr.
Qed.

(** Filing a payload under a fresh slot at the end of the window. *)
Lemma file_refines r s n d l' s' :
  refines r s -> (length (window (ladder r)) < RETAINED_SENT_STATES)%nat -> next_slot (ladder r) + 1 < NO_SLOT ->
  window l' = window (ladder r) ++ [mkRetained n (next_slot (ladder r))] -> next_slot l' = next_slot (ladder r) + 1 ->
  base_slot l' = base_slot (ladder r) -> s_window s' = s_window s ++ [(n, d)] -> s_base s' = s_base s ->
  acked_state_num l' = s_acked s' -> sent_epoch l' = s_epoch s' -> outstanding l' = s_outstanding s' ->
  pending_ack l' = s_ack s' -> needs_snapshot l' = s_needs s' ->
  refines (mkRetention l' (<[next_slot (ladder r) := d]> (held r))) s'.
Proof.
  intros Hr Hshort Hlt Ew En Eb Esw Esb ? ? ? ? ?. set (k0 := next_slot (ladder r)) in *.
  assert (Hfresh : k0 ∉ live (ladder r)) by (intros H'; apply (rf_below r s Hr) in H'; unfold k0 in H'; lia).
  pose proof (rf_slot r s Hr) as Hslot. fold k0 in Hslot.
  assert (Hlive : forall k, k ∈ live l' <-> k ∈ live (ladder r) \/ k = k0).
  { intros k. rewrite !elem_of_live, Ew, Eb. setoid_rewrite elem_of_app. setoid_rewrite list_elem_of_singleton. naive_solver. }
  constructor; cbn [ladder held]; try done.
  - rewrite Ew, Esw. apply Forall2_app; [|repeat constructor; cbn; apply lookup_insert_eq].
    eapply Forall2_impl_in; [apply Hr|]. cbn. intros e p He [? ?]. split; [done|]. rewrite lookup_insert_ne; [done|].
    intros E. apply Hfresh. apply elem_of_live. right. eauto.
  - rewrite Eb, Esb. pose proof (rf_base r s Hr) as Hb. destruct (base_slot (ladder r)) as [b|] eqn:Ebs; [|done].
    destruct Hb as (x & ? & ?). exists x. split; [done|]. rewrite lookup_insert_ne; [done|].
    intros E. apply Hfresh. apply elem_of_live. left. by rewrite Ebs, E.
  - intros k. rewrite Hlive. destruct (decide (k = k0)) as [->|Hne]; [by right|].
    rewrite lookup_insert_ne by done. intros Hs. left. by apply (rf_exact r s Hr).
  - unfold live. rewrite Ew, Eb. change (map r_slot) with (fmap (M := list) r_slot). rewrite fmap_app, app_assoc.
    apply NoDup_app. split_and!; [apply (rf_nodup r s Hr)| |apply NoDup_singleton].
    intros k Hk ->%list_elem_of_singleton. by apply Hfresh.
  - rewrite En. intros k [Hk| ->]%Hlive; [|lia]. apply (rf_below r s Hr) in Hk. fold k0 in Hk. lia.
  - rewrite En. lia.
  - rewrite Ew, length_app. cbn. lia.
Qed.

Lemma commit_refines r s n d :
  refines r s -> next_slot (ladder r) + 1 < NO_SLOT -> refines (ret_commit r n d) (spec_commit s n d).
Proof.
  intros Hr Hlt. unfold ret_commit, ladder_commit, mint_slot.
  cbn [next_slot window with_next_slot with_outstanding with_needs_snapshot fst snd c_released c_slot].
  pose proof (rf_slot r s Hr) as Hslot. rewrite window_push_spec by apply Hr.
  cbn [fst snd c_released c_slot window with_window].
  rewrite Z.mod_small by (unfold NO_SLOT, u32_max in *; lia). rewrite (proj2 (Z.eqb_neq _ _)) by lia.
  rewrite decide_False by lia.
  apply (file_refines _ _ n d _ _ (evict_refines r s n Hr)); try done; try apply Hr.
  by apply kept_short, Hr.
Qed.
End Refine.

(** ** Runs *)

Inductive Op (T : Type) : Type :=
| ONoteAck (n : Z)
| OApplyAck
| OResubscribe (e : RawUuid) (n : Z) (cs ff : bool)
| OPlan (e : RawUuid)
| OCommit (n : Z) (payload : T)
| OPresence (p : Presence).
Arguments ONoteAck {T} n.
Arguments OApplyAck {T}.
Arguments OResubscribe {T} e n cs ff.
Arguments OPlan {T} e.
Arguments OCommit {T} n payload.
Arguments OPresence {T} p.

Section Runs.
Context {T : Type}.

(** What the caller is told: the plans, in order. *)
Definition ret_op (r : Retention T) (op : Op T) : Retention T * list (Planned T) :=
  match op with
  | ONoteAck n => (ret_note_ack r n, [])
  | OApplyAck => (ret_apply_pending_ack r, [])
  | OResubscribe e n cs ff => (ret_resubscribe r e n cs ff, [])
  | OPlan e => let '(r, p) := ret_plan r e in (r, [p])
  | OCommit n d => (ret_commit r n d, [])
  | OPresence p => ((ret_note_presence r p).1, [])
  end.
Definition spec_op (s : Spec T) (op : Op T) : Spec T * list (Planned T) :=
  match op with
  | ONoteAck n => (spec_note_ack s n, [])
  | OApplyAck => (spec_apply_pending_ack s, [])
  | OResubscribe e n _ _ => (spec_resubscribe s e n, [])
  | OPlan e => let '(s, p) := spec_plan s e in (s, [p])
  | OCommit n d => (spec_commit s n d, [])
  | OPresence _ => (s, [])
  end.

Definition run_from {St : Type} (step : St -> Op T -> St * list (Planned T)) (acc : St * list (Planned T))
    (ops : list (Op T)) : St * list (Planned T) :=
  foldl (fun '(s, out) op => let '(s, o) := step s op in (s, out ++ o)) acc ops.
Definition run_with {St : Type} (step : St -> Op T -> St * list (Planned T)) (s : St) (ops : list (Op T)) :
    St * list (Planned T) := run_from step (s, []) ops.

Lemma op_refines (r : Retention T) (s : Spec T) op :
  refines r s -> next_slot (ladder r) + 1 < NO_SLOT ->
  refines (ret_op r op).1 (spec_op s op).1 /\ (ret_op r op).2 = (spec_op s op).2.
Proof.
  intros Hr Hlt. destruct op as [n| |e n cs ff|e|n d|p]; cbn.
  - split; [by apply note_ack_refines|done].
  - split; [by apply apply_ack_refines|done].
  - split; [by apply resubscribe_refines|done].
  - pose proof (plan_refines r s e Hr) as [H1 H2]. destruct (ret_plan r e), (spec_plan s e). cbn in *. by subst.
  - split; [by apply commit_refines|done].
  - split; [by apply note_presence_refines|done].
Qed.

Lemma adopt_base_next l slot n rel : next_slot (adopt_base l slot n rel).1 = next_slot l.
Proof. done. Qed.

(** Only a commit mints a slot. *)
Lemma op_keeps_slot (r : Retention T) op :
  match op with OCommit _ _ => False | _ => True end -> next_slot (ladder (ret_op r op).1) = next_slot (ladder r).
Proof.
  destruct op as [n| |e n cs ff|e|n d|p]; cbn; intros H; try done.
  - unfold ret_apply_pending_ack, apply_pending_ack, adopt_base. destruct (pending_ack (ladder r)); [|done].
    destruct (window_find _ _); [|by case_decide]. destruct (drop_through _ _ _ _). cbn. by case_decide.
  - unfold ret_resubscribe, resubscribe, adopt_base, window_clear. by repeat case_match; simplify_eq.
  - unfold ret_plan, plan, adopt_base, window_clear. destruct (outstanding (ladder r)); [done|].
    by repeat case_match; simplify_eq.
  - unfold ret_note_presence, ladder_note_presence. by repeat case_match; simplify_eq.
Qed.

Lemma op_next_slot (r : Retention T) (s : Spec T) op :
  refines r s -> next_slot (ladder r) + 1 < NO_SLOT -> next_slot (ladder (ret_op r op).1) <= next_slot (ladder r) + 1.
Proof.
  intros Hr Hlt. pose proof (rf_slot r s Hr) as Hs. destruct op as [n| |e n cs ff|e|n d|p];
    try (rewrite op_keeps_slot by done; lia).
  cbn. unfold ret_commit, ladder_commit, mint_slot. destruct (window_push _ _ _). cbn.
  rewrite Z.mod_small by (unfold NO_SLOT, u32_max in *; lia). rewrite (proj2 (Z.eqb_neq _ _)) by lia. lia.
Qed.

Lemma run_refines ops : forall (r : Retention T) (s : Spec T) out,
  refines r s -> next_slot (ladder r) + Z.of_nat (length ops) < NO_SLOT ->
  let r' := run_from ret_op (r, out) ops in let s' := run_from spec_op (s, out) ops in
  refines r'.1 s'.1 /\ r'.2 = s'.2.
Proof.
  unfold run_from. induction ops as [|op ops IH]; intros r s out Hr Hlt; [done|]. cbn [foldl]. cbn [length] in Hlt.
  assert (Hlt1 : next_slot (ladder r) + 1 < NO_SLOT) by lia.
  pose proof (op_refines r s op Hr Hlt1) as [H1 H2]. pose proof (op_next_slot r s op Hr Hlt1) as H3.
  destruct (ret_op r op) as [r1 o1], (spec_op s op) as [s1 o2]. cbn [fst snd] in *. subst o2. apply IH; [done|]. lia.
Qed.

Lemma held_is_live (r : Retention T) (s : Spec T) :
  refines r s -> ret_held r = (length (option_list (s_base s)) + length (s_window s))%nat.
Proof.
  intros Hr. unfold ret_held. rewrite <- (size_dom (D := gset Z)).
  assert (E : dom (held r) = list_to_set (C := gset Z) (live (ladder r))).
  { apply set_eq. intros k. rewrite elem_of_dom, elem_of_list_to_set. split; [apply (rf_exact r s Hr)|].
    intros [Hk|(e & He & <-)]%elem_of_live.
    - pose proof (rf_base r s Hr) as Hb. rewrite Hk in Hb. destruct Hb as (d & _ & ->). done.
    - apply list_elem_of_lookup in He as [i Hi]. destruct (Forall2_lookup_l _ _ _ _ _ (rf_window r s Hr) Hi) as (p & _ & _ & ->).
      done. }
  rewrite E, size_list_to_set by apply Hr. unfold live. rewrite length_app, length_map, (Forall2_length _ _ _ (rf_window r s Hr)).
  f_equal. pose proof (rf_base r s Hr) as Hb. destruct (base_slot (ladder r)); [by destruct Hb as (d & -> & _)|by rewrite Hb].
Qed.
End Runs.

(** C30: The slots are only coordinates.  Over any run of fewer than 2^32 - 1 calls (acknowledgements of any
    numbers, resubscriptions with any claim, plans under any epochs, commits, presence), the retention answers every
    plan exactly as a ladder that keeps the payloads themselves, so the base of a diff is the payload the
    ladder means and never a missing or a recycled one; and it holds exactly the payloads still needed,
    the base and the window, never more than five: no payload leaks and none is dropped early. *)
Theorem retention_refines_spec {T} (cs ff : bool) (ops : list (Op T)) :
  Z.of_nat (length ops) < NO_SLOT ->
  let r := run_with ret_op (retention_new cs ff) ops in
  let s := run_with spec_op spec_new ops in
  r.2 = s.2 /\ refines r.1 s.1 /\
  ret_held r.1 = (length (option_list (s_base s.1)) + length (s_window s.1))%nat /\ (ret_held r.1 <= MAX_RELEASED)%nat.
Proof.
  intros Hlen r s. destruct (run_refines ops (retention_new cs ff) spec_new [] (new_refines cs ff)) as [H1 H2]; [cbn; lia|].
  change (refines r.1 s.1) in H1. change (r.2 = s.2) in H2. pose proof (held_is_live _ _ H1) as Hh. split_and!; try done.
  rewrite Hh, <- (Forall2_length _ _ _ (rf_window _ _ H1)). pose proof (rf_short _ _ H1) as Hs.
  unfold MAX_RELEASED. destruct (s_base s.1); unfold option_list, RETAINED_SENT_STATES in *; simpl; lia.
Qed.

Definition epoch_a : RawUuid := replicate 16 (byte_of_Z 1).
(** A first snapshot, its acknowledgement, a diff from it, an unknown acknowledgement, and the snapshot it forces. *)
Definition five_frames : list (Op nat) :=
  [OPlan epoch_a; OCommit 1 10%nat; OPlan epoch_a; ONoteAck 1; OApplyAck; OPlan epoch_a; OCommit 2 20%nat; ONoteAck 99;
   OApplyAck; OPlan epoch_a; OCommit 3 30%nat; ONoteAck 3; OApplyAck; OPlan epoch_a].

Lemma retention_refines_spec_witness :
  (run_with ret_op (retention_new true false) five_frames).2 =
    [PSnapshot false; PHold; PDiff 1 10%nat; PSnapshot false; PDiff 3 30%nat] /\
  ret_held (run_with ret_op (retention_new true false) five_frames).1 = 1%nat.
Proof.
  destruct (retention_refines_spec true false five_frames) as (H1 & _ & H3 & _); [by vm_compute|].
  split; [rewrite H1; by vm_compute|rewrite H3; by vm_compute].
Defined.
