(* ===== verification/Verbs.v ===== *)
(** * Verbs: the payloads of the workspace channel

    Models [slopdesk-wire/src/workspace.rs]: the verbs of a request, the kinds of an event, and the codecs of
    what rides in them: a subscription, a presence update, an intent, its result, and the presence
    roster.  Unlike the document's own decoders these accept and ignore bytes after the payload. *)

From stdpp Require Import base list strings pretty.
From S2P Require Import Prelude Bytes Message Document Cells.
#[local] Open Scope Z_scope.

(** ** Verbs, kinds, statuses *)

Inductive WorkspaceRequestVerb : Type := VSubscribe | VAck | VPresence | VIntent.
Definition verb_from_byte (b : byte) : option WorkspaceRequestVerb :=
  match byte_to_Z b with 0 => Some VSubscribe | 1 => Some VAck | 2 => Some VPresence | 3 => Some VIntent | _ => None end.
Definition verb_as_byte (v : WorkspaceRequestVerb) : byte :=
  byte_of_Z match v with VSubscribe => 0 | VAck => 1 | VPresence => 2 | VIntent => 3 end.

Inductive WorkspaceEventKind : Type := KSnapshot | KDiff | KPresence | KIntentResult | KReset.
Definition event_from_byte (b : byte) : option WorkspaceEventKind :=
  match byte_to_Z b with
  | 0 => Some KSnapshot | 1 => Some KDiff | 2 => Some KPresence | 3 => Some KIntentResult | 4 => Some KReset | _ => None
  end.
Definition event_as_byte (k : WorkspaceEventKind) : byte :=
  byte_of_Z match k with KSnapshot => 0 | KDiff => 1 | KPresence => 2 | KIntentResult => 3 | KReset => 4 end.

Inductive WorkspaceIntentStatus : Type := Applied | RejectedStale | RejectedInvalid | UnknownOp | RejectedNotFound.
Definition status_from_byte (b : byte) : option WorkspaceIntentStatus :=
  match byte_to_Z b with
  | 0 => Some Applied | 1 => Some RejectedStale | 2 => Some RejectedInvalid | 3 => Some UnknownOp
  | 4 => Some RejectedNotFound | _ => None
  end.
Definition status_as_byte (s : WorkspaceIntentStatus) : byte :=
  byte_of_Z match s with Applied => 0 | RejectedStale => 1 | RejectedInvalid => 2 | UnknownOp => 3 | RejectedNotFound => 4 end.

Inductive WorkspaceClientKind : Type := MacOs | Ios.
Definition client_from_byte (b : byte) : option WorkspaceClientKind :=
  match byte_to_Z b with 0 => Some MacOs | 1 => Some Ios | _ => None end.
Definition client_as_byte (k : WorkspaceClientKind) : byte := byte_of_Z match k with MacOs => 0 | Ios => 1 end.

(** ** Labels *)

Definition read_capped_label (max_bytes : Z) (context : string) : Parser (list byte) :=
  declared ← read_u16;
  if max_bytes <? declared
  then parser_fail (malformed (context +:+ ": label " +:+ show declared +:+ " > " +:+ show max_bytes))
  else
    bytes ← read_bytes declared;
    parser_lift (if utf8_valid bytes then Ok bytes else Err (malformed (context +:+ ": label is not valid UTF-8"))).

Definition put_capped_label (w : ByteWriter) (label : list byte) (max_bytes : Z) : ByteWriter :=
  let bytes := clamp_utf8 label max_bytes in
  put_bytes (put_u16 w (u16_try_from_or_max (zlen bytes))) bytes.

(** ** Subscribe *)

Definition FLAG_CONTRIBUTES_SIZE : Z := Z.shiftl 1 0.
Definition FLAG_FOLLOWS_FOCUS : Z := Z.shiftl 1 1.
Definition MAX_LABEL_BYTES : Z := 64.
Definition has_flag (flags : byte) (flag : Z) : bool := negb (Z.land (byte_to_Z flags) flag =? 0).

Record WorkspaceSubscribe : Type := mkSubscribe {
  sub_client_instance_id : RawUuid; sub_client_kind : byte; known_epoch : RawUuid; known_state_num : Z;
  sub_flags : byte; sub_label : list byte;
}.
Definition subscribe_contributes_size (s : WorkspaceSubscribe) : bool := has_flag (sub_flags s) FLAG_CONTRIBUTES_SIZE.
Definition subscribe_follows_focus (s : WorkspaceSubscribe) : bool := has_flag (sub_flags s) FLAG_FOLLOWS_FOCUS.

Definition put_subscribe (w : ByteWriter) (s : WorkspaceSubscribe) : ByteWriter :=
  let w := put_bytes w (sub_client_instance_id s) in
  let w := put_u8 w (sub_client_kind s) in
  let w := put_bytes w (known_epoch s) in
  let w := put_i64 w (known_state_num s) in
  let w := put_u8 w (sub_flags s) in
  put_capped_label w (sub_label s) MAX_LABEL_BYTES.
Definition encode_subscribe (s : WorkspaceSubscribe) : list byte := into_vec (put_subscribe writer_new s).

Definition read_subscribe : Parser WorkspaceSubscribe :=
  client_instance_id ← read_uuid;
  client_kind ← read_u8;
  known_epoch ← read_uuid;
  known_state_num ← read_i64;
  flags ← read_u8;
  label ← read_capped_label MAX_LABEL_BYTES "workspace subscribe";
  mret (mkSubscribe client_instance_id client_kind known_epoch known_state_num flags label).
Definition decode_subscribe (payload : list byte) : wresult WorkspaceSubscribe := run_parser read_subscribe payload.

(** ** Presence updates *)

Record WorkspacePresenceUpdate : Type := mkUpdate {
  up_clock : Z; up_tab_id : RawUuid; up_pane_id : RawUuid; up_cols : Z; up_rows : Z; up_flags : byte;
}.
Definition update_contributes_size (u : WorkspacePresenceUpdate) : bool := has_flag (up_flags u) FLAG_CONTRIBUTES_SIZE.

Definition put_update (w : ByteWriter) (u : WorkspacePresenceUpdate) : ByteWriter :=
  let w := put_i64 w (up_clock u) in
  let w := put_bytes w (up_tab_id u) in
  let w := put_bytes w (up_pane_id u) in
  let w := put_u16 w (up_cols u) in
  let w := put_u16 w (up_rows u) in
  put_u8 w (up_flags u).
Definition encode_update (u : WorkspacePresenceUpdate) : list byte := into_vec (put_update writer_new u).

Definition read_update : Parser WorkspacePresenceUpdate :=
  clock ← read_i64; tab ← read_uuid; pane ← read_uuid; cols ← read_u16; rows ← read_u16; flags ← read_u8;
  mret (mkUpdate clock tab pane cols rows flags).
Definition decode_update (payload : list byte) : wresult WorkspacePresenceUpdate := run_parser read_update payload.

(** ** Intents and their results *)

Record WorkspaceIntent : Type := mkIntent { in_id : RawUuid; in_op : byte; in_args : list byte }.
Definition MAX_U32_LENGTH : Z := 4294967295.
Definition MAX_INTENT_ARG_BYTES : Z := 2147483647.

Definition put_intent (w : ByteWriter) (i : WorkspaceIntent) : ByteWriter :=
  let count := Z.min (zlen (in_args i)) MAX_U32_LENGTH in
  let w := put_bytes w (in_id i) in
  let w := put_u8 w (in_op i) in
  let w := put_u32 w (u32_or_max count) in
  put_bytes w (take (Z.to_nat count) (in_args i)).
Definition encode_intent (i : WorkspaceIntent) : list byte := into_vec (put_intent writer_new i).

(** The arguments are answered as a range of the payload. *)
Definition read_intent_leaving_args : Parser (RawUuid * byte * (Z * Z)) :=
  id ← read_uuid;
  op ← read_u8;
  arg_len ← read_u32;
  left ← read_bytes_remaining;
  if (MAX_INTENT_ARG_BYTES <? arg_len) || (left <? arg_len) then parser_fail Truncated
  else start ← read_position; _ ← read_bytes arg_len; mret (id, op, (start, start + arg_len)).
Definition decode_intent (payload : list byte) : wresult WorkspaceIntent :=
  match run_parser read_intent_leaving_args payload with
  | Ok (id, op, (first, last)) => Ok (mkIntent id op (default [] (get_range payload first last)))
  | Err e => Err e
  end.

Record WorkspaceIntentResult : Type := mkResult { res_intent_id : RawUuid; res_status : byte }.
Definition put_result (w : ByteWriter) (r : WorkspaceIntentResult) : ByteWriter :=
  put_u8 (put_bytes w (res_intent_id r)) (res_status r).
Definition encode_result (r : WorkspaceIntentResult) : list byte := into_vec (put_result writer_new r).
Definition read_result : Parser WorkspaceIntentResult := id ← read_uuid; status ← read_u8; mret (mkResult id status).
Definition decode_result (payload : list byte) : wresult WorkspaceIntentResult := run_parser read_result payload.

(** ** The presence roster *)

Record WorkspaceRosterClient : Type := mkClient {
  rc_client_instance_id : RawUuid; rc_client_kind : byte; rc_flags : byte; rc_tab_id : RawUuid; rc_pane_id : RawUuid;
  rc_cols : Z; rc_rows : Z; rc_label : list byte;
}.
Record WorkspaceRosterAttachment : Type := mkAttachment {
  at_client_instance_id : RawUuid; at_contributes : bool; at_cols : Z; at_rows : Z;
}.
Record WorkspaceRosterPane : Type := mkPane {
  rp_pane_id : RawUuid; rp_cols : Z; rp_rows : Z; rp_attachments : list WorkspaceRosterAttachment;
}.
Record WorkspacePresenceRoster : Type := mkRoster {
  roster_clients : list WorkspaceRosterClient; roster_panes : list WorkspaceRosterPane;
}.

Definition ROSTER_CLIENT_MIN_BYTES : Z := 42.
Definition ROSTER_PANE_MIN_BYTES : Z := 16 + 2 + 2 + 2.
Definition ROSTER_ATTACHMENT_BYTES : Z := 16 + 1 + 2 + 2.
Definition MAX_RECORDS : Z := 4096.

Definition put_client (w : ByteWriter) (c : WorkspaceRosterClient) : ByteWriter :=
  let w := put_bytes w (rc_client_instance_id c) in
  let w := put_u8 w (rc_client_kind c) in
  let w := put_u8 w (rc_flags c) in
  let w := put_bytes w (rc_tab_id c) in
  let w := put_bytes w (rc_pane_id c) in
  let w := put_u16 w (rc_cols c) in
  let w := put_u16 w (rc_rows c) in
  put_capped_label w (rc_label c) MAX_LABEL_BYTES.
Definition put_attachment (w : ByteWriter) (a : WorkspaceRosterAttachment) : ByteWriter :=
  put_u16 (put_u16 (put_bool (put_bytes w (at_client_instance_id a)) (at_contributes a)) (at_cols a)) (at_rows a).
(** At most [MAX_RECORDS] of a list, behind their number. *)
Definition put_counted {A} (put : ByteWriter -> A -> ByteWriter) (w : ByteWriter) (l : list A) : ByteWriter :=
  let count := Z.min (zlen l) MAX_RECORDS in
  foldl put (put_u16 w (u16_try_from_or_max count)) (take (Z.to_nat count) l).
Definition put_pane (w : ByteWriter) (p : WorkspaceRosterPane) : ByteWriter :=
  put_counted put_attachment (put_u16 (put_u16 (put_bytes w (rp_pane_id p)) (rp_cols p)) (rp_rows p)) (rp_attachments p).
Definition put_roster (w : ByteWriter) (r : WorkspacePresenceRoster) : ByteWriter :=
  put_counted put_pane (put_counted put_client w (roster_clients r)) (roster_panes r).
Definition encode_roster (r : WorkspacePresenceRoster) : list byte := into_vec (put_roster writer_new r).

Definition read_client : Parser WorkspaceRosterClient :=
  id ← read_uuid; kind ← read_u8; flags ← read_u8; tab ← read_uuid; pane ← read_uuid; cols ← read_u16; rows ← read_u16;
  label ← read_capped_label MAX_LABEL_BYTES "workspace roster";
  mret (mkClient id kind flags tab pane cols rows label).
Definition read_attachment : Parser WorkspaceRosterAttachment :=
  id ← read_uuid; contributes ← read_bool; cols ← read_u16; rows ← read_u16; mret (mkAttachment id contributes cols rows).
(** A count over the cap, or more records than the bytes left could hold, is refused before anything is read. *)
Definition read_counted {A} (what : string) (floor : Z) (p : Parser A) : Parser (list A) :=
  count ← read_u16;
  if MAX_RECORDS <? count then parser_fail (malformed ("workspace roster: " +:+ what +:+ " count over the cap"))
  else
    left ← read_bytes_remaining;
    if left <? count * floor then parser_fail Truncated else read_many p (Z.to_nat count).
Definition read_pane : Parser WorkspaceRosterPane :=
  id ← read_uuid; cols ← read_u16; rows ← read_u16;
  attachments ← read_counted "attachment" ROSTER_ATTACHMENT_BYTES read_attachment;
  mret (mkPane id cols rows attachments).
Definition read_roster : Parser WorkspacePresenceRoster :=
  clients ← read_counted "client" ROSTER_CLIENT_MIN_BYTES read_client;
  panes ← read_counted "pane" ROSTER_PANE_MIN_BYTES read_pane;
  mret (mkRoster clients panes).
Definition decode_roster (payload : list byte) : wresult WorkspacePresenceRoster := run_parser read_roster payload.

(** ** The interface of a payload: what its writer and its reader promise each other *)

Class Payload (A : Type) : Type := {
  put_payload : ByteWriter -> A -> ByteWriter;
  read_payload : Parser A;
  payload_ok : A -> Prop;
  payload_bytes : A -> list byte;
  payload_appends x : payload_ok x -> appends (fun w => put_payload w x) (payload_bytes x);
  payload_runs x n : payload_ok x -> runs_at read_payload n (payload_bytes x) x;
  payload_yields : yields read_payload payload_ok;
}.

Lemma payload_roundtrip {A} `{!Payload A} x rest :
  payload_ok x -> zlen (into_vec (put_payload writer_new x) ++ rest) <= usize_max ->
  run_parser read_payload (into_vec (put_payload writer_new x) ++ rest) = Ok x.
Proof.
  intros Hok. rewrite (into_vec_appends _ _ (payload_appends x Hok)). intros Hmax.
  unfold run_parser, reader_new. pose proof (payload_runs x 0 Hok [] rest eq_refl Hmax) as E. cbn [app] in E. by rewrite E.
Qed.

Lemma payload_decoded {A} `{!Payload A} data x : run_parser read_payload data = Ok x -> payload_ok x.
Proof.
  unfold run_parser. destruct (read_payload (reader_new data)) as [ [y r]|e] eqn:E; [|done]. intros [= <-].
  eapply payload_yields; [|exact E]. unfold rd_ok. cbn. lia.
Qed.

Definition label_ok (label : list byte) : Prop := utf8_valid label = true /\ zlen label <= MAX_LABEL_BYTES.
Definition label_bytes (label : list byte) : list byte := to_be_bytes 2 (zlen label) ++ label.

(** The steps of a record's laws. *)
Lemma runs_read_u8 n b : runs_at read_u8 n [b] b.
Proof. apply runs_next_byte. Qed.
Lemma yields_read_u8 : yields read_u8 (fun _ => True).
Proof. apply yields_next_byte. Qed.

Create HintDb fields.
#[export] Hint Resolve runs_read_u8 runs_read_bool runs_read_u16 runs_read_u32 runs_read_i64 runs_cell_uuid : fields.
#[export] Hint Resolve yields_read_u8 yields_read_bool yields_read_u16 yields_read_u32 yields_read_i64 yields_cell_uuid : fields.
Ltac fields := cbn -[to_be_bytes cast_unsigned label_bytes app concat label_ok byte_of_Z] in *.
Ltac run_fields :=
  cbn [concat]; repeat (eapply runs_bind; [solve [eauto with fields]|]); apply runs_ret.
Ltac yield_fields :=
  repeat (eapply yields_bind; [solve [eauto with fields]|]; intros ? ?; cbv beta in *).

Lemma put_label_all label w :
  label_ok label -> put_capped_label w label MAX_LABEL_BYTES = put_all w [to_be_bytes 2 (zlen label); label].
Proof.
  intros [_ Hl]. unfold put_capped_label, clamp_utf8. rewrite (proj2 (Z.leb_le _ _)) by done.
  unfold u16_try_from_or_max, MAX_LABEL_BYTES in *. rewrite (proj2 (Z.leb_le _ _)) by lia. done.
Qed.

Lemma runs_label n context label :
  label_ok label -> runs_at (read_capped_label MAX_LABEL_BYTES context) n (label_bytes label) label.
Proof.
  intros [Hu Hl]. unfold MAX_LABEL_BYTES in *. eapply runs_bind; [apply runs_read_u16; unfold u_range; lia|].
  rewrite (proj2 (Z.ltb_ge _ _)) by lia. eapply runs_lift; [by apply runs_read_bytes|]. by rewrite Hu.
Qed.

Lemma yields_label context : yields (read_capped_label MAX_LABEL_BYTES context) label_ok.
Proof.
  eapply yields_bind; [apply yields_read_u16|]. intros k Hk. destruct (Z.ltb_spec MAX_LABEL_BYTES k); [apply yields_fail|].
  eapply yields_bind; [by apply yields_read_bytes; apply Hk|]. intros bs Hbs. cbn beta in Hbs.
  apply yields_lift. intros a. destruct (utf8_valid bs) eqn:E; intros; simplify_eq. split; [done|lia].
Qed.
#[export] Hint Resolve runs_label yields_label : fields.

#[export] Program Instance subscribe_payload : Payload WorkspaceSubscribe := {
  put_payload := put_subscribe;
  read_payload := read_subscribe;
  payload_ok s := is_uuid (sub_client_instance_id s) /\ is_uuid (known_epoch s) /\ i_range 64 (known_state_num s) /\
                  label_ok (sub_label s);
  payload_bytes s := concat [sub_client_instance_id s; [sub_client_kind s]; known_epoch s;
                       to_be_bytes 8 (cast_unsigned 64 (known_state_num s)); [sub_flags s]; label_bytes (sub_label s)];
}.
Next Obligation.
  intros s (_ & _ & _ & Hl) buf. unfold put_subscribe. rewrite put_label_all by done.
  unfold label_bytes. exact (put_all_owned buf [sub_client_instance_id s; [sub_client_kind s]; known_epoch s;
                       to_be_bytes 8 (cast_unsigned 64 (known_state_num s)); [sub_flags s]; to_be_bytes 2 (zlen (sub_label s)); sub_label s]).
Qed.
Next Obligation. intros [] n (? & ? & ? & ?). unfold read_subscribe. fields. run_fields. Qed.
Next Obligation. unfold read_subscribe. yield_fields. by apply yields_ret. Qed.

#[export] Program Instance update_payload : Payload WorkspacePresenceUpdate := {
  put_payload := put_update;
  read_payload := read_update;
  payload_ok u := i_range 64 (up_clock u) /\ is_uuid (up_tab_id u) /\ is_uuid (up_pane_id u) /\
                  u_range 16 (up_cols u) /\ u_range 16 (up_rows u);
  payload_bytes u := concat [to_be_bytes 8 (cast_unsigned 64 (up_clock u)); up_tab_id u; up_pane_id u;
                       to_be_bytes 2 (up_cols u); to_be_bytes 2 (up_rows u); [up_flags u] ];
}.
Next Obligation.
  intros u _ buf. exact (put_all_owned buf [to_be_bytes 8 (cast_unsigned 64 (up_clock u)); up_tab_id u; up_pane_id u;
                       to_be_bytes 2 (up_cols u); to_be_bytes 2 (up_rows u); [up_flags u] ]).
Qed.
Next Obligation. intros [] n (? & ? & ? & ? & ?). unfold read_update. fields. run_fields. Qed.
Next Obligation. unfold read_update. yield_fields. by apply yields_ret. Qed.

#[export] Program Instance result_payload : Payload WorkspaceIntentResult := {
  put_payload := put_result;
  read_payload := read_result;
  payload_ok r := is_uuid (res_intent_id r);
  payload_bytes r := concat [res_intent_id r; [res_status r] ];
}.
Next Obligation. intros r _ buf. exact (put_all_owned buf [res_intent_id r; [res_status r] ]). Qed.
Next Obligation. intros [] n ?. unfold read_result. fields. run_fields. Qed.
Next Obligation. unfold read_result. yield_fields. by apply yields_ret. Qed.

#[export] Program Instance client_payload : Payload WorkspaceRosterClient := {
  put_payload := put_client;
  read_payload := read_client;
  payload_ok c := is_uuid (rc_client_instance_id c) /\ is_uuid (rc_tab_id c) /\ is_uuid (rc_pane_id c) /\
                  u_range 16 (rc_cols c) /\ u_range 16 (rc_rows c) /\ label_ok (rc_label c);
  payload_bytes c := concat [rc_client_instance_id c; [rc_client_kind c]; [rc_flags c]; rc_tab_id c; rc_pane_id c;
                       to_be_bytes 2 (rc_cols c); to_be_bytes 2 (rc_rows c); label_bytes (rc_label c)];
}.
Next Obligation.
  intros c (_ & _ & _ & _ & _ & Hl) buf. unfold put_client. rewrite put_label_all by done.
  exact (put_all_owned buf [rc_client_instance_id c; [rc_client_kind c]; [rc_flags c]; rc_tab_id c; rc_pane_id c;
                       to_be_bytes 2 (rc_cols c); to_be_bytes 2 (rc_rows c); to_be_bytes 2 (zlen (rc_label c)); rc_label c]).
Qed.
Next Obligation. intros [] n (? & ? & ? & ? & ? & ?). unfold read_client. fields. run_fields. Qed.
Next Obligation. unfold read_client. yield_fields. by apply yields_ret. Qed.

#[export] Program Instance attachment_payload : Payload WorkspaceRosterAttachment := {
  put_payload := put_attachment;
  read_payload := read_attachment;
  payload_ok a := is_uuid (at_client_instance_id a) /\ u_range 16 (at_cols a) /\ u_range 16 (at_rows a);
  payload_bytes a := concat [at_client_instance_id a; [byte_of_Z (if at_contributes a then 1 else 0)];
                       to_be_bytes 2 (at_cols a); to_be_bytes 2 (at_rows a)];
}.
Next Obligation.
  intros a _ buf. exact (put_all_owned buf [at_client_instance_id a; [byte_of_Z (if at_contributes a then 1 else 0)];
                       to_be_bytes 2 (at_cols a); to_be_bytes 2 (at_rows a)]).
Qed.
Next Obligation. intros [] n (? & ? & ?). unfold read_attachment. fields. run_fields. Qed.
Next Obligation. unfold read_attachment. yield_fields. by apply yields_ret. Qed.

(** *** Counted lists of payloads *)

Definition counted_bytes {A} `{!Payload A} (l : list A) : list byte :=
  to_be_bytes 2 (zlen l) ++ concat (map payload_bytes l).

Lemma appends_counted {A} `{!Payload A} (l : list A) :
  zlen l <= MAX_RECORDS -> Forall payload_ok l -> appends (fun w => put_counted put_payload w l) (counted_bytes l).
Proof.
  intros Hl Hok buf. rewrite Forall_forall in Hok. unfold put_counted, u16_try_from_or_max, MAX_RECORDS in *.
  rewrite Z.min_l by lia. rewrite (proj2 (Z.leb_le _ _)) by lia. rewrite Nat2Z.id, firstn_all.
  change (put_u16 (mkWriter (Owned buf)) (zlen l)) with (mkWriter (Owned (buf ++ to_be_bytes 2 (zlen l)))).
  rewrite (appends_foldl put_payload payload_bytes) by (intros x Hx; by apply payload_appends, Hok).
  unfold counted_bytes. by rewrite <- app_assoc.
Qed.

Lemma runs_counted {A} `{!Payload A} what floor (l : list A) n :
  zlen l <= MAX_RECORDS -> Forall payload_ok l -> (forall x, payload_ok x -> floor <= zlen (payload_bytes x)) ->
  runs_at (read_counted what floor read_payload) n (counted_bytes l) l.
Proof.
  intros Hl Hok Hfloor. rewrite Forall_forall in Hok. unfold read_counted, counted_bytes.
  eapply runs_bind; [apply runs_read_u16; unfold u_range, MAX_RECORDS in *; lia|]. rewrite (proj2 (Z.ltb_ge _ _)) by done.
  apply runs_remaining. intros left Hleft.
  assert (zlen l * floor <= zlen (concat (map payload_bytes l))) by (apply concat_floor; intros x Hx; by apply Hfloor, Hok).
  rewrite (proj2 (Z.ltb_ge _ _)) by lia. rewrite Nat2Z.id. apply runs_read_many. intros x m Hx. by apply payload_runs, Hok.
Qed.

Lemma yields_counted {A} `{!Payload A} what floor :
  yields (read_counted what floor read_payload) (fun l : list A => zlen l <= MAX_RECORDS /\ Forall payload_ok l).
Proof.
  eapply yields_bind; [apply yields_read_u16|]. intros k [Hk0 Hk1]. destruct (Z.ltb_spec MAX_RECORDS k); [apply yields_fail|].
  eapply yields_bind; [apply yields_bytes_remaining|]. intros left _. destruct (_ <? _); [apply yields_fail|].
  eapply yields_weaken; [apply yields_read_many, payload_yields|]. intros l [El HF]. cbn beta. rewrite El. split; [lia|done].
Qed.

#[export] Program Instance pane_payload : Payload WorkspaceRosterPane := {
  put_payload := put_pane;
  read_payload := read_pane;
  payload_ok p := is_uuid (rp_pane_id p) /\ u_range 16 (rp_cols p) /\ u_range 16 (rp_rows p) /\
                  zlen (rp_attachments p) <= MAX_RECORDS /\ Forall payload_ok (rp_attachments p);
  payload_bytes p := concat [rp_pane_id p; to_be_bytes 2 (rp_cols p); to_be_bytes 2 (rp_rows p);
                       counted_bytes (rp_attachments p)];
}.
Next Obligation.
  intros p (_ & _ & _ & Hl & Hok) buf. unfold put_pane.
  change (put_u16 (put_u16 (put_bytes (mkWriter (Owned buf)) (rp_pane_id p)) (rp_cols p)) (rp_rows p)) with
    (put_all (mkWriter (Owned buf)) [rp_pane_id p; to_be_bytes 2 (rp_cols p); to_be_bytes 2 (rp_rows p)]).
  rewrite put_all_owned, (appends_counted (rp_attachments p) Hl Hok). cbn [concat]. by rewrite !app_nil_r, <- !app_assoc.
Qed.
Next Obligation.
  intros [id c r l] n (Hid & Hc & Hr & Hl & Hok). unfold read_pane. cbn [rp_pane_id rp_cols rp_rows rp_attachments concat] in *.
  do 3 (eapply runs_bind; [eauto with fields|]). eapply runs_bind; [|apply runs_ret].
  apply (@runs_counted _ attachment_payload "attachment" ROSTER_ATTACHMENT_BYTES l); [done..|].
  intros a (Ha & _). cbn [payload_bytes attachment_payload concat]. rewrite !length_app, !length_to_be_bytes.
  unfold is_uuid in Ha. rewrite Ha. done.
Qed.
Next Obligation.
  unfold read_pane. yield_fields. eapply yields_bind; [apply (@yields_counted _ attachment_payload "attachment" ROSTER_ATTACHMENT_BYTES)|]. intros l [Hl Hok]. by apply yields_ret.
Qed.

#[export] Program Instance roster_payload : Payload WorkspacePresenceRoster := {
  put_payload := put_roster;
  read_payload := read_roster;
  payload_ok r := (zlen (roster_clients r) <= MAX_RECORDS /\ Forall payload_ok (roster_clients r)) /\
                  (zlen (roster_panes r) <= MAX_RECORDS /\ Forall payload_ok (roster_panes r));
  payload_bytes r := counted_bytes (roster_clients r) ++ counted_bytes (roster_panes r);
}.
Next Obligation.
  intros r [ [Hc1 Hc2] [Hp1 Hp2] ] buf. unfold put_roster.
  rewrite (appends_counted (roster_clients r) Hc1 Hc2), (appends_counted (roster_panes r) Hp1 Hp2). by rewrite <- app_assoc.
Qed.
Next Obligation.
  intros [cs ps] n [ [Hc1 Hc2] [Hp1 Hp2] ]. unfold read_roster. cbn [roster_clients roster_panes] in *.
  eapply runs_bind; [apply (@runs_counted _ client_payload "client" ROSTER_CLIENT_MIN_BYTES cs); [done..|]|].
  - intros c (H1 & H2 & H3 & _ & _ & Hl). cbn [payload_bytes client_payload concat]. unfold label_bytes, is_uuid in *.
    rewrite !length_app, !length_to_be_bytes, H1, H2, H3. cbn [length]. unfold ROSTER_CLIENT_MIN_BYTES. lia.
  - rewrite <- (app_nil_r (counted_bytes ps)). eapply runs_bind; [apply (@runs_counted _ pane_payload "pane" ROSTER_PANE_MIN_BYTES ps); [done..|]|apply runs_ret].
    intros p (H1 & _). cbn [payload_bytes pane_payload concat]. unfold counted_bytes, is_uuid in *.
    rewrite !length_app, !length_to_be_bytes, H1. unfold ROSTER_PANE_MIN_BYTES. lia.
Qed.
Next Obligation.
  unfold read_roster. eapply yields_bind; [apply (@yields_counted _ client_payload "client" ROSTER_CLIENT_MIN_BYTES)|]. intros cs Hcs.
  eapply yields_bind; [apply (@yields_counted _ pane_payload "pane" ROSTER_PANE_MIN_BYTES)|]. intros ps Hps. by apply yields_ret.
Qed.

(** *** Intents *)

Definition intent_ok (i : WorkspaceIntent) : Prop := is_uuid (in_id i) /\ zlen (in_args i) <= MAX_INTENT_ARG_BYTES.

Lemma intent_bytes i : intent_ok i ->
  encode_intent i = in_id i ++ [in_op i] ++ to_be_bytes 4 (zlen (in_args i)) ++ in_args i.
Proof.
  intros [_ Hl]. unfold encode_intent, put_intent, u32_or_max, MAX_U32_LENGTH, MAX_INTENT_ARG_BYTES, u32_max in *.
  rewrite Z.min_l by lia. rewrite (proj2 (Z.leb_le _ _)) by lia. rewrite Nat2Z.id, firstn_all.
  change (into_vec (put_all writer_new [in_id i; [in_op i]; to_be_bytes 4 (zlen (in_args i)); in_args i]) =
    in_id i ++ [in_op i] ++ to_be_bytes 4 (zlen (in_args i)) ++ in_args i).
  unfold writer_new. rewrite put_all_owned. cbn [concat into_vec sink app]. by rewrite app_nil_r.
Qed.

Lemma intent_roundtrip i rest :
  intent_ok i -> zlen (encode_intent i ++ rest) <= usize_max -> decode_intent (encode_intent i ++ rest) = Ok i.
Proof.
  intros Hok Hmax. pose proof Hok as [Hid Hl]. rewrite (intent_bytes i Hok) in *. unfold decode_intent.
  set (head := in_id i ++ [in_op i] ++ to_be_bytes 4 (zlen (in_args i))). set (args := in_args i).
  assert (Eh : in_id i ++ [in_op i] ++ to_be_bytes 4 (zlen args) ++ args = head ++ args) by (unfold head; by rewrite <- !app_assoc).
  fold args in Hmax, Hl |- *. rewrite Eh in *.
  assert (Hr : runs_at read_intent_leaving_args 0 (head ++ args) (in_id i, in_op i, (zlen head, zlen head + zlen args))).
  { rewrite <- Eh. unfold read_intent_leaving_args. eapply runs_bind; [eauto with fields|]. eapply runs_bind; [eauto with fields|].
    eapply runs_bind; [apply runs_read_u32; unfold u_range, MAX_INTENT_ARG_BYTES in *; lia|].
    apply runs_remaining. intros left Hleft. rewrite (proj2 (Z.ltb_ge _ _)), (proj2 (Z.ltb_ge left _)) by lia. cbn [orb].
    match goal with |- runs_at _ ?n _ _ => assert (En : n = zlen head) by (unfold head; rewrite !length_app; cbn [length];
      rewrite !length_to_be_bytes; lia) end. rewrite En.
    apply (runs_bind read_position _ _ [] args (zlen head)); [apply runs_position|].
    refine (runs_map (read_bytes (zlen args)) (fun _ => (in_id i, in_op i, (zlen head, zlen head + zlen args))) _ args args _).
    by apply runs_read_bytes. }
  pose proof (Hr [] rest eq_refl Hmax) as E. cbn [app] in E. unfold run_parser, reader_new. rewrite E.
  rewrite <- app_assoc, get_range_app by done. by destruct i.
Qed.

(** What a decoder of the channel answers, on any bytes: the caps as numbers. *)
Definition short_text (label : list byte) : Prop := utf8_valid label = true /\ zlen label <= 64.
Definition intent_within (i : WorkspaceIntent) (data : list byte) : Prop :=
  is_uuid (in_id i) /\ zlen (in_args i) <= 2147483647 /\ exists before after, data = before ++ in_args i ++ after.
Definition roster_within (ro : WorkspacePresenceRoster) : Prop :=
  zlen (roster_clients ro) <= 4096 /\ Forall (fun c => short_text (rc_label c)) (roster_clients ro) /\
  zlen (roster_panes ro) <= 4096 /\ Forall (fun p => zlen (rp_attachments p) <= 4096) (roster_panes ro).

Lemma yields_intent :
  yields read_intent_leaving_args (fun a => is_uuid a.1.1 /\ 0 <= a.2.1 /\ a.2.2 - a.2.1 <= 2147483647).
Proof.
  unfold read_intent_leaving_args. yield_fields. eapply yields_bind; [apply yields_bytes_remaining|]. intros left _.
  destruct (Z.ltb_spec MAX_INTENT_ARG_BYTES a1); [apply yields_fail|]. destruct (left <? a1); [apply yields_fail|]. cbn [orb].
  eapply yields_bind; [apply yields_position|]. intros start Hs. cbn beta in Hs.
  eapply yields_bind; [apply yields_read_bytes; unfold u_range in *; lia|]. intros bs _. apply yields_ret.
  unfold MAX_INTENT_ARG_BYTES in *. cbn. split_and!; [done|done|lia].
Qed.

Lemma intent_decoded data i : decode_intent data = Ok i -> intent_within i data.
Proof.
  unfold decode_intent, run_parser. destruct (read_intent_leaving_args (reader_new data)) as [ [ [ [id op] [a b] ] r]|e] eqn:E; [|done].
  destruct (yields_intent (reader_new data) _ _ ltac:(unfold rd_ok; cbn; lia) E) as [(Hu & Ha & Hb) _]. cbn [fst snd] in *.
  intros [= <-]. unfold intent_within. cbn [in_id in_args]. split; [done|]. destruct (get_range data a b) as [args|] eqn:Eg.
  - change (default [] (Some args)) with args. rewrite (get_range_length _ _ _ _ Eg). split; [lia|].
    destruct (get_range_inv _ _ _ _ Eg) as (_ & _ & l1 & l3 & El & _). by exists l1, l3.
  - split; [done|]. exists data, []. cbn. by rewrite app_nil_r.
Qed.

Lemma roster_decoded data ro : decode_roster data = Ok ro -> payload_ok ro /\ roster_within ro.
Proof.
  intros H0. assert (H : payload_ok ro) by exact (payload_decoded data ro H0). split; [exact H|]. destruct H as [ [Hc1 Hc2] [Hp1 Hp2] ]. unfold roster_within, MAX_RECORDS in *.
  split_and!; [done| |done|].
  - eapply Forall_impl; [exact Hc2|]. by intros c (_ & _ & _ & _ & _ & Hl).
  - eapply Forall_impl; [exact Hp2|]. by intros p (_ & _ & _ & Hl & _).
Qed.


Definition id_of (n : Z) : RawUuid := replicate 16 (byte_of_Z n).
Definition mac_text : list byte := [Byte.x4d; Byte.x61; Byte.x63].
Definition two_viewers : WorkspacePresenceRoster :=
  mkRoster [mkClient (id_of 1) (byte_of_Z 0) (byte_of_Z 1) (id_of 7) (id_of 8) 120 40 mac_text;
            mkClient (id_of 2) (byte_of_Z 1) (byte_of_Z 2) (id_of 7) (id_of 9) 60 20 []]
    [mkPane (id_of 8) 120 40 [mkAttachment (id_of 1) true 120 40; mkAttachment (id_of 2) false 60 20] ].

Definition some_subscribe : WorkspaceSubscribe := mkSubscribe (id_of 1) (byte_of_Z 0) (id_of 5) 41 (byte_of_Z 3) mac_text.
Definition some_update : WorkspacePresenceUpdate := mkUpdate 5 (id_of 1) (id_of 2) 80 24 (byte_of_Z 1).
Definition some_intent : WorkspaceIntent := mkIntent (id_of 4) (byte_of_Z 9) [Byte.x01; Byte.x02].

Lemma mac_text_ok : label_ok mac_text.
Proof. by split; vm_compute. Qed.
Lemma no_text_ok : label_ok [].
Proof. by split; vm_compute. Qed.
Lemma two_viewers_ok : payload_ok two_viewers.
Proof.
  assert (forall n, is_uuid (id_of n)) by done.
  pose proof mac_text_ok. pose proof no_text_ok. unfold two_viewers. cbn -[label_ok id_of u_range is_uuid mac_text]. split; split;
    repeat constructor; cbn -[label_ok id_of is_uuid]; try done; lia.
Qed.

