(* ===== verification/Mirror.v ===== *)
(** * Mirror: a client's replica of the workspace document

    Models [slopdesk-wire/src/document/mirror.rs]: the applied host truth, the overlay of pane pushes, the optimistic
    patches of unanswered intents, and what a frame does to them.  Instants are integers.  The patch an intent
    stages is the difference of two documents that the intent applier produced, and comes in as an
    argument; [Staging] computes it. *)

From stdpp Require Import gmap sorting.
From S2P Require Import Prelude Bytes BTree Message Document Cells Liveness.

Definition PENDING_TIMEOUT : Z := 3.

Inductive ApplyOutcome : Type := Applied (state_num : Z) | Ignored | NeedsResubscribe | Dropped | Reset.

Definition outcome_tag (o : ApplyOutcome) : Z :=
  match o with Applied _ => 0 | Ignored => 1 | NeedsResubscribe => 2 | Dropped => 3 | Reset => 4 end.
Definition outcome_state_num (o : ApplyOutcome) : Z := match o with Applied n => n | _ => 0 end.

Record PendingPatch : Type := mkPatch {
  intent_id : RawUuid;
  patch_sets : gmap WorkspaceKey (list byte);
  patch_deletes : gset WorkspaceKey;
  issued_at : Z;
  retire_at_frame : option Z;
}.

Record WorkspaceMirror : Type := mkMirror {
  epoch : option RawUuid;
  state_num : Z;
  mirror_entries : HostWorkspaceState;
  fast_path : gmap WorkspaceKey (list byte);
  pending : list PendingPatch;
  frames_applied : Z;
}.

Definition mirror_new : WorkspaceMirror := mkMirror None 0 state_new ∅ [] 0.

Definition known_state_num (m : WorkspaceMirror) : Z := if epoch m then state_num m else 0.

Definition with_fast_path (m : WorkspaceMirror) (f : gmap WorkspaceKey (list byte)) : WorkspaceMirror :=
  mkMirror (epoch m) (state_num m) (mirror_entries m) f (pending m) (frames_applied m).
Definition with_pending (m : WorkspaceMirror) (p : list PendingPatch) : WorkspaceMirror :=
  mkMirror (epoch m) (state_num m) (mirror_entries m) (fast_path m) p (frames_applied m).

(** ** Frames *)

Definition retire_fast_path (m : WorkspaceMirror) (supplied : list WorkspaceKey) : WorkspaceMirror :=
  if bool_decide (fast_path m = ∅) then m else with_fast_path m (foldl (fun f key => delete key f) (fast_path m) supplied).

Definition outlives (watermark : Z) (p : PendingPatch) : bool :=
  match retire_at_frame p with Some frame => watermark <? frame | None => true end.
Definition note_document_frame (m : WorkspaceMirror) : WorkspaceMirror :=
  let watermark := (frames_applied m + 1) mod 2 ^ 64 in
  mkMirror (epoch m) (state_num m) (mirror_entries m) (fast_path m)
    (filter (fun p => outlives watermark p = true) (pending m)) watermark.

Definition apply_snapshot (m : WorkspaceMirror) (e : RawUuid) (new : Z) (payload : list byte) :
    WorkspaceMirror * ApplyOutcome :=
  match decode_snapshot payload with
  | Err _ => (m, Dropped)
  | Ok decoded =>
      let m := mkMirror (Some e) new decoded (fast_path m) (pending m) (frames_applied m) in
      (note_document_frame (retire_fast_path m (keys decoded)), Applied new)
  end.

Definition apply_diff (m : WorkspaceMirror) (e : RawUuid) (base new : Z) (payload : list byte) :
    WorkspaceMirror * ApplyOutcome :=
  if decide (epoch m = Some e) then
    if new <=? state_num m then (m, Ignored)
    else if negb (base =? state_num m) then (m, NeedsResubscribe)
    else match decode_diff payload with
         | Err _ => (m, Dropped)
         | Ok diff =>
             let supplied := map entry_key (sets diff) ++ deletes diff in
             let m := mkMirror (epoch m) new (Document.apply (mirror_entries m) diff) (fast_path m) (pending m)
                        (frames_applied m) in
             (note_document_frame (retire_fast_path m supplied), Applied new)
         end
  else (m, NeedsResubscribe).

Definition apply_reset (m : WorkspaceMirror) (e : RawUuid) : WorkspaceMirror * ApplyOutcome :=
  (mkMirror (Some e) 0 state_new (fast_path m) [] (frames_applied m), Reset).

Definition apply (m : WorkspaceMirror) (kind : byte) (e : RawUuid) (base new : Z) (payload : list byte) :
    WorkspaceMirror * ApplyOutcome :=
  match byte_to_Z kind with
  | 0 => apply_snapshot m e new payload
  | 1 => apply_diff m e base new payload
  | 4 => apply_reset m e
  | _ => (m, Dropped)
  end.

Definition forget (m : WorkspaceMirror) : WorkspaceMirror := mirror_new.

(** ** The overlay *)

Definition write_fast_path (m : WorkspaceMirror) (key : WorkspaceKey) (value : option (list byte)) :
    WorkspaceMirror * bool :=
  if decide (is_Some (mirror_entries m !! key)) then (m, false)
  else match value with
       | Some bytes =>
           if decide (fast_path m !! key = Some bytes) then (m, false)
           else (with_fast_path m (<[key := bytes]> (fast_path m)), true)
       | None => (with_fast_path m (delete key (fast_path m)), bool_decide (is_Some (fast_path m !! key)))
       end.

Definition clear_fast_path (m : WorkspaceMirror) (pane : RawUuid) : WorkspaceMirror :=
  with_fast_path m (filter (fun p => ~ of_object PANE_KIND pane p.1) (fast_path m)).

Definition fast_path_holds (m : WorkspaceMirror) (key : WorkspaceKey) : bool := bool_decide (is_Some (fast_path m !! key)).

(** Consecutive duplicates only: the ids come in key order. *)
Fixpoint dedup (l : list RawUuid) : list RawUuid :=
  match l with
  | x :: ((y :: _) as rest) => if decide (x = y) then dedup rest else x :: dedup rest
  | _ => l
  end.
Definition fast_path_pane_ids (m : WorkspaceMirror) : list RawUuid :=
  dedup (map object_id (filter (fun key => kind key = PANE_KIND) (keys (fast_path m)))).

(** ** Optimistic patches *)

(** The tail of [stage_intent]: the applier gave a next topology, and [diff] carries the topology cells to it. *)
Definition stage_patch (m : WorkspaceMirror) (id : RawUuid) (diff : WorkspaceStateDiff) (now : Z) : WorkspaceMirror :=
  with_pending m (filter (fun p => intent_id p <> id) (pending m) ++
    [mkPatch id (foldl (fun s e => <[entry_key e := entry_value e]> s) ∅ (sets diff)) (list_to_set (deletes diff)) now None]).

(** The cells that carry one projection of the topology to another. *)
Definition topology_diff (before after : HostWorkspaceState) : WorkspaceStateDiff := diff_from after before.

Definition arm (frame : Z) (p : PendingPatch) : PendingPatch :=
  mkPatch (intent_id p) (patch_sets p) (patch_deletes p) (issued_at p) (Some frame).
Definition note_intent_result (m : WorkspaceMirror) (id : RawUuid) (applied : bool) : WorkspaceMirror * bool :=
  match list_find (fun p => intent_id p = id) (pending m) with
  | None => (m, false)
  | Some (index, _) =>
      if applied then (with_pending m (alter (arm (Z.min (frames_applied m + 1) (2 ^ 64 - 1))) index (pending m)), true)
      else (with_pending m (delete index (pending m)), true)
  end.

Definition expire_pending (m : WorkspaceMirror) (now timeout : Z) : WorkspaceMirror * bool :=
  let kept := filter (fun p => is_Some (retire_at_frame p) \/ now - issued_at p < timeout) (pending m) in
  (with_pending m kept, negb (Nat.eqb (length kept) (length (pending m)))).

Definition drop_pending (m : WorkspaceMirror) (id : RawUuid) : WorkspaceMirror * bool :=
  let kept := filter (fun p => intent_id p <> id) (pending m) in
  (with_pending m kept, negb (Nat.eqb (length kept) (length (pending m)))).

Definition pending_count (m : WorkspaceMirror) : nat := length (pending m).
Definition is_pending (m : WorkspaceMirror) (id : RawUuid) : bool := bool_decide (Exists (fun p => intent_id p = id) (pending m)).

(** ** Reading *)

(** The newest patch that speaks of a cell answers for it. *)
Definition patch_says (key : WorkspaceKey) (p : PendingPatch) : option (option (list byte)) :=
  match patch_sets p !! key with
  | Some v => Some (Some v)
  | None => if decide (key ∈ patch_deletes p) then Some None else None
  end.
Fixpoint patches_say (key : WorkspaceKey) (newest_first : list PendingPatch) : option (option (list byte)) :=
  match newest_first with
  | [] => None
  | p :: rest => match patch_says key p with Some answer => Some answer | None => patches_say key rest end
  end.
Definition value (m : WorkspaceMirror) (key : WorkspaceKey) : option (list byte) :=
  match patches_say key (reverse (pending m)) with
  | Some answer => answer
  | None => match mirror_entries m !! key with Some v => Some v | None => fast_path m !! key end
  end.

Definition apply_patch (out : HostWorkspaceState) (p : PendingPatch) : HostWorkspaceState :=
  let out := foldl (fun out kv => set out kv.1 kv.2) out (btree_by cell_le (patch_sets p)) in
  foldl (fun out key => (set_or_clear out key None).1) out (merge_sort cell_le (elements (patch_deletes p))).
Definition resolved (m : WorkspaceMirror) : HostWorkspaceState :=
  let out := foldl (fun out kv => if decide (is_Some (out !! kv.1)) then out else set out kv.1 kv.2) (mirror_entries m)
               (btree_by cell_le (fast_path m)) in
  foldl apply_patch out (pending m).

Definition pane_ids (m : WorkspaceMirror) : list RawUuid :=
  map object_id (filter (fun key => kind key = PANE_KIND /\ field key = LIVENESS) (keys (mirror_entries m))).

(** ** What the bulk reads do, cell by cell *)

Lemma foldl_keyed (step : HostWorkspaceState -> WorkspaceKey * list byte -> HostWorkspaceState)
    (f : option (list byte) -> list byte -> option (list byte)) l :
  (forall out k v, step out (k, v) !! k = f (out !! k) v) ->
  (forall out k v k', k' <> k -> step out (k, v) !! k' = out !! k') ->
  NoDup l.*1 -> forall out k,
  (forall v, (k, v) ∈ l -> foldl step out l !! k = f (out !! k) v) /\ (k ∉ l.*1 -> foldl step out l !! k = out !! k).
Proof.
  intros Hsame Hother. induction l as [|[k0 v0] l IH]; intros Hnd out k; [by split; [intros v ?%elem_of_nil|]|].
  cbn [fmap list_fmap] in Hnd. apply NoDup_cons in Hnd as [Hk0 Hnd]. cbn [foldl].
  destruct (IH Hnd (step out (k0, v0)) k) as [H1 H2]. split.
  - intros v [ [= -> ->]|Hin]%elem_of_cons; [rewrite H2 by done; apply Hsame|].
    rewrite (H1 v Hin), Hother; [done|]. intros ->. apply Hk0. by apply (list_elem_of_fmap_2' fst l (k0, v)).
  - cbn. intros [Hne Hk]%not_elem_of_cons. by rewrite H2, Hother.
Qed.

Lemma foldl_tree (step : HostWorkspaceState -> WorkspaceKey * list byte -> HostWorkspaceState) f
    (m : gmap WorkspaceKey (list byte)) out k :
  (forall out k v, step out (k, v) !! k = f (out !! k) v) ->
  (forall out k v k', k' <> k -> step out (k, v) !! k' = out !! k') ->
  foldl step out (btree_by cell_le m) !! k = match m !! k with Some v => f (out !! k) v | None => out !! k end.
Proof.
  intros Hsame Hother.
  destruct (foldl_keyed step f (btree_by cell_le m) Hsame Hother (btree_by_keys cell_le m) out k) as [H1 H2].
  destruct (m !! k) as [v|] eqn:E; [apply H1; by apply elem_of_btree_by|]. apply H2.
  intros Hin. apply elem_of_keys_by in Hin as [v Hv]. congruence.
Qed.

(** ** Well-formed replicas *)

(** A patch never both sets and deletes a cell, and no cell is both host truth and overlay. *)
Definition patch_ok (p : PendingPatch) : Prop := forall k, is_Some (patch_sets p !! k) -> k ∉ patch_deletes p.
Record mirror_ok (m : WorkspaceMirror) : Prop := {
  ok_patches : Forall patch_ok (pending m);
  ok_layers : forall k, is_Some (mirror_entries m !! k) -> fast_path m !! k = None;
}.

Lemma apply_patch_lookup out p k : patch_ok p ->
  apply_patch out p !! k = match patch_says k p with Some answer => answer | None => out !! k end.
Proof.
  intros Hp. unfold apply_patch, patch_says.
  change (fun out key => (set_or_clear out key None).1) with (fun (out : HostWorkspaceState) key => delete key out).
  rewrite foldl_delete_lookup, (foldl_tree _ (fun _ v => Some v)).
  - assert (E : k ∈ merge_sort cell_le (elements (patch_deletes p)) <-> k ∈ patch_deletes p)
      by (by rewrite merge_sort_Permutation, elem_of_elements).
    rewrite (decide_ext _ _ _ _ E). specialize (Hp k). destruct (patch_sets p !! k) as [v|]; case_decide as Hd; try done.
    exfalso. by apply Hp.
  - intros. apply lookup_insert_eq.
  - intros. by apply lookup_insert_ne.
Qed.

Lemma apply_patches_lookup ps out k : Forall patch_ok ps ->
  foldl apply_patch out ps !! k = match patches_say k (reverse ps) with Some answer => answer | None => out !! k end.
Proof.
  induction ps as [|p ps IH] using rev_ind; intros Hok; [done|]. apply Forall_app in Hok as [Hps Hp].
  rewrite Forall_singleton in Hp. rewrite foldl_app, reverse_app, reverse_singleton. cbn [foldl app].
  rewrite apply_patch_lookup by done. cbn [patches_say]. destruct (patch_says k p); [done|]. by apply IH.
Qed.

Lemma resolved_lookup m k : mirror_ok m -> resolved m !! k = value m k.
Proof.
  intros [Hp _]. unfold resolved, value. rewrite apply_patches_lookup by done.
  destruct (patches_say k (reverse (pending m))); [done|].
  rewrite (foldl_tree _ (fun o v => match o with Some x => Some x | None => Some v end)).
  - destruct (fast_path m !! k); by destruct (mirror_entries m !! k).
  - intros out k' v. case_decide as Hs; cbn in *; [by destruct (out !! k'); [|destruct Hs]|].
    rewrite <- eq_None_not_Some in Hs. rewrite Hs. apply lookup_insert_eq.
  - intros out k' v k'' Hne. case_decide; [done|]. by apply lookup_insert_ne.
Qed.

(** ** Runs *)

Inductive Call : Type :=
| CFrame (kind : byte) (e : RawUuid) (base new : Z) (payload : list byte)
| CForget
| CWrite (key : WorkspaceKey) (v : option (list byte))
| CClear (pane : RawUuid)
| CStage (id : RawUuid) (before after : HostWorkspaceState) (now : Z)
| CResult (id : RawUuid) (applied : bool)
| CExpire (now timeout : Z)
| CDrop (id : RawUuid).

Definition call (m : WorkspaceMirror) (c : Call) : WorkspaceMirror :=
  match c with
  | CFrame kind e base new payload => (apply m kind e base new payload).1
  | CForget => forget m
  | CWrite key v => (write_fast_path m key v).1
  | CClear pane => clear_fast_path m pane
  | CStage id before after now => stage_patch m id (topology_diff before after) now
  | CResult id applied => (note_intent_result m id applied).1
  | CExpire now timeout => (expire_pending m now timeout).1
  | CDrop id => (drop_pending m id).1
  end.

Lemma lookup_retire m supplied k :
  fast_path (retire_fast_path m supplied) !! k = if decide (k ∈ supplied) then None else fast_path m !! k.
Proof.
  unfold retire_fast_path. case_bool_decide as E.
  - rewrite E, lookup_empty. by case_decide.
  - cbn. apply foldl_delete_lookup.
Qed.

Lemma retire_rest m supplied : let m' := retire_fast_path m supplied in
  epoch m' = epoch m /\ state_num m' = state_num m /\ mirror_entries m' = mirror_entries m /\ pending m' = pending m /\
  frames_applied m' = frames_applied m.
Proof. cbv zeta. unfold retire_fast_path. by case_bool_decide. Qed.

Lemma frame_ok m m0 supplied entries :
  mirror_ok m -> pending m0 = pending m -> fast_path m0 = fast_path m -> mirror_entries m0 = entries ->
  (forall k, is_Some (entries !! k) -> k ∈ supplied \/ is_Some (mirror_entries m !! k)) ->
  mirror_ok (note_document_frame (retire_fast_path m0 supplied)).
Proof.
  intros [Hp Hl] Ep Ef Ee H. destruct (retire_rest m0 supplied) as (_ & _ & E3 & E4 & _). constructor; cbn.
  - rewrite E4, Ep. apply Forall_forall. intros p [_ Hin]%list_elem_of_filter. rewrite Forall_forall in Hp. by apply Hp.
  - intros k Hk. rewrite E3, Ee in Hk. rewrite lookup_retire, Ef. case_decide; [done|]. apply Hl. by destruct (H k Hk).
Qed.

Lemma apply_ok m kind e base new payload : mirror_ok m -> mirror_ok (apply m kind e base new payload).1.
Proof.
  intros Hok. assert (Hs : mirror_ok (apply_snapshot m e new payload).1).
  { unfold apply_snapshot. destruct (decode_snapshot payload) as [d|]; [|done]. eapply (frame_ok m); [done..|].
    intros k Hk. left. by apply elem_of_keys_by. }
  assert (Hd : mirror_ok (apply_diff m e base new payload).1).
  { unfold apply_diff. case_decide; [|done]. destruct (new <=? state_num m); [done|]. destruct (negb _); [done|].
    destruct (decode_diff payload) as [d|]; [|done]. eapply (frame_ok m); [done..|].
    intros k Hk. cbn in Hk. rewrite lookup_apply in Hk. case_decide as Hin; [by destruct Hk|].
    destruct (assigned d k) as [v|] eqn:E; [|by right]. left. apply elem_of_app. left.
    destruct (decide (k ∈ map entry_key (sets d))) as [|Hn]; [done|]. exfalso.
    assert (assigned d k = None) by (apply assigned_none; intros v' Hv; apply Hn; by apply (list_elem_of_fmap_2' entry_key _ _ _ Hv)).
    congruence. }
  assert (Hr : mirror_ok (apply_reset m e).1) by (constructor; cbn; [done|by intros k [? ?]]).
  unfold apply. by repeat case_match.
Qed.

Lemma stage_patch_ok before after id now :
  patch_ok (mkPatch id (foldl (fun s e => <[entry_key e := entry_value e]> s) ∅ (sets (topology_diff before after)))
    (list_to_set (deletes (topology_diff before after))) now None).
Proof.
  intros k. cbn [patch_sets patch_deletes]. unfold topology_diff. rewrite elem_of_list_to_set, elem_of_diff_deletes.
  fold (from_entries (sets (diff_from after before))).
  intros [v Hv] [Ha _]. unfold from_entries in Hv. rewrite foldl_set_lookup, lookup_empty in Hv.
  destruct (list_find _ _) as [ [i e]|] eqn:E; [|done]. apply list_find_Some in E as (Hi & <- & _).
  assert (Hin : e ∈ sets (diff_from after before)) by (apply elem_of_reverse, list_elem_of_lookup; eauto).
  destruct e as [key x]. apply elem_of_diff_sets in Hin as [Hs _]. cbn in Ha. congruence.
Qed.

Lemma call_ok m c : mirror_ok m -> mirror_ok (call m c).
Proof.
  intros Hok. pose proof Hok as [Hp Hl]. assert (Hsub : forall (P : PendingPatch -> Prop) `{!forall p, Decision (P p)},
    Forall patch_ok (filter P (pending m))).
  { intros P HP. apply Forall_forall. intros p [_ Hin]%list_elem_of_filter. rewrite Forall_forall in Hp. by apply Hp. }
  destruct c as [kind e base new payload| |key v|pane|id before after now|id applied|now timeout|id]; cbn.
  - by apply apply_ok.
  - constructor; cbn; [done|by intros k [? ?]].
  - unfold write_fast_path. case_decide as Hk; [done|]. assert (Hn : mirror_entries m !! key = None) by by apply eq_None_not_Some.
    destruct v as [bytes|]; [case_decide; [done|]|]; constructor; cbn; try done; intros k Hs.
    + rewrite lookup_insert_ne; [by apply Hl|]. intros ->. rewrite Hn in Hs. by destruct Hs.
    + destruct (decide (key = k)) as [->|]; [apply lookup_delete_eq|]. rewrite lookup_delete_ne by done. by apply Hl.
  - constructor; cbn; [done|]. intros k Hs. rewrite map_lookup_filter, Hl by done. done.
  - constructor; cbn; [|done]. apply Forall_app. split; [by apply Hsub|]. apply Forall_singleton, stage_patch_ok.
  - unfold note_intent_result. destruct (list_find _ _) as [ [i p]|]; [|done]. destruct applied; constructor; cbn; try done.
    + apply Forall_alter; [done|]. intros x _. done.
    + by apply Forall_delete.
  - by constructor; [apply Hsub|].
  - by constructor; [apply Hsub|].
Qed.

Lemma calls_ok cs : forall m, mirror_ok m -> mirror_ok (foldl call m cs).
Proof. induction cs as [|c cs IH]; intros m H; [done|]. apply IH. by apply call_ok. Qed.

Lemma new_ok : mirror_ok mirror_new.
Proof. constructor; cbn; [done|by intros k [? ?]]. Qed.

(** ** Properties *)

(** The two ways of reading a replica agree.  After any calls at all (frames of any bytes, pushes, staged, answered,
    expired and dropped intents), the bulk read gives every cell the value the cell-by-cell read gives: the
    newest patch that speaks of it, else host truth, else the overlay.  And the overlay never stands
    beside host truth: no cell is in both, so the two can never disagree about one. *)
Theorem reads_agree (cs : list Call) (k : WorkspaceKey) :
  let m := foldl call mirror_new cs in
  resolved m !! k = value m k /\ (is_Some (mirror_entries m !! k) -> fast_path m !! k = None).
Proof.
  cbv zeta. pose proof (calls_ok cs mirror_new new_ok) as Hok. split; [by apply resolved_lookup|]. apply Hok.
Qed.

(** What a document frame that lands leaves behind. *)
Record landed (m m' : WorkspaceMirror) (e : RawUuid) (new : Z) (supplied : list WorkspaceKey) : Prop := {
  landed_epoch : epoch m' = Some e;
  landed_num : state_num m' = new;
  landed_frames : frames_applied m' = (frames_applied m + 1) mod 2 ^ 64;
  landed_pending : pending m' = filter (fun p => outlives (frames_applied m') p = true) (pending m);
  landed_overlay : forall k, fast_path m' !! k = if decide (k ∈ supplied) then None else fast_path m !! k;
}.

Lemma landing m m0 supplied e new :
  epoch m0 = Some e -> state_num m0 = new -> pending m0 = pending m -> fast_path m0 = fast_path m ->
  frames_applied m0 = frames_applied m ->
  landed m (note_document_frame (retire_fast_path m0 supplied)) e new supplied /\
  mirror_entries (note_document_frame (retire_fast_path m0 supplied)) = mirror_entries m0.
Proof.
  intros E1 E2 E3 E4 E5. destruct (retire_rest m0 supplied) as (H1 & H2 & H3 & H4 & H5). split; [|done].
  constructor; cbn; try congruence. intros k. by rewrite lookup_retire, E4.
Qed.

(** C31: A frame lands whole or leaves no trace.  A snapshot that decodes replaces host truth whatever was held; a
    diff lands exactly when it is of the held epoch, starts from the held state, goes forward and
    decodes, and then host truth is the held document with the diff applied; every cell the frame speaks of
    leaves the overlay.  A frame already passed is ignored, one that cannot be based asks for a
    resubscription, one that does not decode or is of an unknown kind is dropped, and none of those changes
    anything; a diff that landed is ignored when it comes again. *)
Theorem a_frame_lands_or_leaves_no_trace m kind e base new payload :
  let m' := (apply m kind e base new payload).1 in
  let snapshot := byte_to_Z kind = 0 in
  let diff := byte_to_Z kind = 1 in
  match (apply m kind e base new payload).2 with
  | Applied n => n = new /\
      ((snapshot /\ exists d, decode_snapshot payload = Ok d /\ mirror_entries m' = d /\ landed m m' e new (keys d)) \/
       (diff /\ epoch m = Some e /\ base = state_num m /\ state_num m < new /\
        (exists d, decode_diff payload = Ok d /\ mirror_entries m' = Document.apply (mirror_entries m) d /\
           landed m m' e new (map entry_key (sets d) ++ deletes d)) /\
        apply m' kind e base new payload = (m', Ignored)))
  | Reset => byte_to_Z kind = 4 /\ m' = mkMirror (Some e) 0 state_new (fast_path m) [] (frames_applied m)
  | Ignored => m' = m /\ diff /\ epoch m = Some e /\ new <= state_num m
  | NeedsResubscribe => m' = m /\ diff /\ (epoch m <> Some e \/ state_num m < new /\ base <> state_num m)
  | Dropped => m' = m /\ ((snapshot /\ exists x, decode_snapshot payload = Err x) \/ (diff /\ exists x, decode_diff payload = Err x) \/
                          byte_to_Z kind ∉ [0; 1; 4])
  end.
Proof.
  cbv zeta. assert (Hcases : byte_to_Z kind = 0 \/ byte_to_Z kind = 1 \/ byte_to_Z kind = 4 \/ byte_to_Z kind ∉ [0; 1; 4])
    by (destruct (decide (byte_to_Z kind ∈ [0; 1; 4])) as [Hin|Hin]; [set_solver|auto]).
  destruct Hcases as [Hk|[Hk|[Hk|Hk] ] ].
  - unfold apply. rewrite Hk. unfold apply_snapshot. destruct (decode_snapshot payload) as [d|x] eqn:Ed; cbn [fst snd]; [|eauto 10].
    split; [done|]. left. split; [done|]. exists d.
    destruct (landing m (mkMirror (Some e) new d (fast_path m) (pending m) (frames_applied m)) (keys d) e new) as [H1 H2]; done.
  - unfold apply. rewrite Hk. unfold apply_diff. case_decide as He; cbn [fst snd]; [|eauto].
    destruct (Z.leb_spec new (state_num m)) as [Hle|Hlt]; cbn [fst snd]; [done|].
    destruct (Z.eqb_spec base (state_num m)) as [->|Hb]; cbn [negb fst snd]; [|eauto 10].
    destruct (decode_diff payload) as [d|x] eqn:Ed; cbn [fst snd]; [|eauto 10].
    destruct (landing m (mkMirror (epoch m) new (Document.apply (mirror_entries m) d) (fast_path m) (pending m) (frames_applied m))
      (map entry_key (sets d) ++ deletes d) e new) as [H1 H2]; try done.
    set (m' := note_document_frame _) in *. split; [done|]. right. split_and!; try done; [eauto|].
    rewrite decide_True by apply H1. rewrite (landed_num _ _ _ _ _ H1). by rewrite Z.leb_refl.
  - unfold apply. by rewrite Hk.
  - assert (E : apply m kind e base new payload = (m, Dropped)).
    { unfold apply. repeat case_match; try done; exfalso; apply Hk; set_solver. }
    rewrite E. cbn [fst snd]. eauto.
Qed.
