(* ===== verification/Frames.v ===== *)
(** * Frames: what the frames of a subscriber's pump do to a replica

    Lemmas shared by [Sync] and [Converge]: a snapshot the host encodes lands whatever the replica holds, a diff
    lands exactly on its base, and any other diff leaves the replica alone. *)

From stdpp Require Import gmap.
From S2P Require Import Prelude Bytes Message Document Cells Verbs Mirror.

Lemma kind_read k : byte_to_Z (event_as_byte k) = match k with KSnapshot => 0 | KDiff => 1 | KPresence => 2 | KIntentResult => 3 | KReset => 4 end.
Proof. by destruct k. Qed.

Lemma frame_rest m0 supplied :
  let m := note_document_frame (retire_fast_path m0 supplied) in
  Mirror.epoch m = Mirror.epoch m0 /\ Mirror.state_num m = Mirror.state_num m0 /\ mirror_entries m = mirror_entries m0.
Proof. unfold note_document_frame, retire_fast_path. by case_bool_decide. Qed.

Lemma snapshot_lands m e n s :
  state_ok s ->
  let m' := (apply m (event_as_byte KSnapshot) e 0 n (encode_snapshot s)) in
  m'.2 = Mirror.Applied n /\ Mirror.epoch m'.1 = Some e /\ Mirror.state_num m'.1 = n /\ mirror_entries m'.1 = s.
Proof.
  intros Hs. unfold apply. rewrite kind_read. unfold apply_snapshot. rewrite snapshot_roundtrip by done. cbn [fst snd].
  destruct (frame_rest (mkMirror (Some e) n s (fast_path m) (pending m) (frames_applied m)) (keys s)) as (-> & -> & ->). done.
Qed.

Lemma diff_lands m e b base n s :
  state_ok s -> state_ok base -> Mirror.epoch m = Some e -> Mirror.state_num m = b -> mirror_entries m = base -> b < n ->
  let m' := (apply m (event_as_byte KDiff) e b n (encode_diff (diff_from s base))) in
  m'.2 = Mirror.Applied n /\ Mirror.epoch m'.1 = Some e /\ Mirror.state_num m'.1 = n /\ mirror_entries m'.1 = s.
Proof.
  intros Hs Hbase He Hb Hent Hlt. unfold apply. rewrite kind_read. unfold apply_diff. rewrite decide_True by done.
  rewrite Hb, (proj2 (Z.leb_gt _ _)), Z.eqb_refl by lia. cbn [negb].
  rewrite diff_roundtrip by by apply diff_from_ok. cbn [fst snd].
  destruct (frame_rest (mkMirror (Mirror.epoch m) n (Document.apply (mirror_entries m) (diff_from s base)) (fast_path m) (pending m)
    (frames_applied m)) (map entry_key (sets (diff_from s base)) ++ deletes (diff_from s base))) as (-> & -> & ->).
  cbn. rewrite Hent. split_and!; try done. apply apply_diff_from.
Qed.

(** A diff the replica does not take leaves it alone. *)
Lemma diff_refused m e b n payload :
  Mirror.epoch m <> Some e \/ n <= Mirror.state_num m \/ b <> Mirror.state_num m ->
  (apply m (event_as_byte KDiff) e b n payload).1 = m.
Proof.
  intros H. unfold apply. rewrite kind_read. unfold apply_diff. case_decide as He; [|done].
  destruct (Z.leb_spec n (Mirror.state_num m)); [done|]. destruct (Z.eqb_spec b (Mirror.state_num m)); [|done]. naive_solver lia.
Qed.
