(* ===== verification/Subscriber.v ===== *)
(** * Subscriber: one client's view of the workspace document, and the pump that ships it

    Models [slopdesk-hostserver/src/subscriber.rs].  A [Subscriber] is the record behind the lock; each of its
    operations is one lock section.  The pump thread is the program counter [Pc] with one [pump_step] per lock
    section or send, so that the inputs of the document and of the client can fall between any two of them.
    The shared documents are immutable values.  A step with [link_up = false] is a send that fails. *)

From stdpp Require Import gmap.
From S2P Require Import Prelude Bytes Message Document Cells Verbs Ladder.

(** ** The inbox *)

Record Offer : Type := mkOffer { o_epoch : RawUuid; o_state_num : Z; o_state : HostWorkspaceState }.

Record Subscriber : Type := mkSubscriber {
  sub_id : RawUuid;
  client_instance_id : RawUuid;
  client_kind : byte;
  label : list byte;
  retention : Retention HostWorkspaceState;
  pending_state : option Offer;
  pending_roster : option WorkspacePresenceRoster;
  pending_subscribe : option WorkspaceSubscribe;
  pending_results : list WorkspaceIntentResult;
  closed : bool;
  pumping : bool;
}.

Definition subscriber_new (id : RawUuid) (request : WorkspaceSubscribe) : Subscriber :=
  mkSubscriber id (sub_client_instance_id request) (sub_client_kind request) (sub_label request)
    (retention_new (subscribe_contributes_size request) (subscribe_follows_focus request)) None None None [] false false.

Definition with_retention (s : Subscriber) (r : Retention HostWorkspaceState) : Subscriber :=
  mkSubscriber (sub_id s) (client_instance_id s) (client_kind s) (label s) r (pending_state s) (pending_roster s)
    (pending_subscribe s) (pending_results s) (closed s) (pumping s).
Definition with_pending_state (s : Subscriber) (o : option Offer) : Subscriber :=
  mkSubscriber (sub_id s) (client_instance_id s) (client_kind s) (label s) (retention s) o (pending_roster s)
    (pending_subscribe s) (pending_results s) (closed s) (pumping s).
Definition with_inbox (s : Subscriber) (roster : option WorkspacePresenceRoster) (subscribe : option WorkspaceSubscribe)
    (results : list WorkspaceIntentResult) : Subscriber :=
  mkSubscriber (sub_id s) (client_instance_id s) (client_kind s) (label s) (retention s) (pending_state s) roster
    subscribe results (closed s) (pumping s).
Definition with_pumping (s : Subscriber) (b : bool) : Subscriber :=
  mkSubscriber (sub_id s) (client_instance_id s) (client_kind s) (label s) (retention s) (pending_state s)
    (pending_roster s) (pending_subscribe s) (pending_results s) (closed s) b.

Definition has_work (s : Subscriber) : bool :=
  bool_decide (is_Some (pending_state s)) || bool_decide (is_Some (pending_roster s))
  || bool_decide (is_Some (pending_subscribe s)) || negb (bool_decide (pending_results s = [])).

(** Answers whether a pump thread was started. *)
Definition start (s : Subscriber) : Subscriber * bool :=
  if pumping s || closed s then (s, false) else (with_pumping s true, true).

Definition close (s : Subscriber) : Subscriber :=
  if closed s then s
  else mkSubscriber (sub_id s) (client_instance_id s) (client_kind s) (label s) (ret_clear (retention s)) None None None []
         true (pumping s).

(** ** Inputs *)

Definition deliver_state (s : Subscriber) (o : Offer) : Subscriber :=
  if closed s then s else with_pending_state s (Some o).
Definition deliver_roster (s : Subscriber) (roster : WorkspacePresenceRoster) : Subscriber :=
  if closed s then s else with_inbox s (Some roster) (pending_subscribe s) (pending_results s).
Definition deliver_result (s : Subscriber) (result : WorkspaceIntentResult) : Subscriber :=
  if closed s then s else with_inbox s (pending_roster s) (pending_subscribe s) (pending_results s ++ [result]).
Definition sub_note_ack (s : Subscriber) (n : Z) : Subscriber :=
  if closed s then s else with_retention s (ret_note_ack (retention s) n).
Definition sub_note_resubscribe (s : Subscriber) (request : WorkspaceSubscribe) : Subscriber :=
  if closed s then s else with_inbox s (pending_roster s) (Some request) (pending_results s).

Definition presence_of (u : WorkspacePresenceUpdate) : Presence :=
  mkPresence (up_clock u) (up_tab_id u) (up_pane_id u) (up_cols u) (up_rows u) (update_contributes_size u)
    (has_flag (up_flags u) FLAG_FOLLOWS_FOCUS).
Definition sub_note_presence (s : Subscriber) (u : WorkspacePresenceUpdate) : Subscriber * bool :=
  if closed s then (s, false)
  else let '(r, moved) := ret_note_presence (retention s) (presence_of u) in (with_retention s r, moved).

Definition roster_record (s : Subscriber) : WorkspaceRosterClient :=
  let view := ladder_roster_view (ladder (retention s)) in
  let flags := if p_contributes_size view then FLAG_CONTRIBUTES_SIZE else 0 in
  let flags := if p_follows_focus view then Z.lor flags FLAG_FOLLOWS_FOCUS else flags in
  mkClient (client_instance_id s) (client_kind s) (byte_of_Z flags) (viewing_tab_id view) (viewing_pane_id view)
    (p_cols view) (p_rows view) (label s).

Definition retained_count (s : Subscriber) : nat := ret_held (retention s).

(** ** The pump *)

Record Inbox : Type := mkInbox {
  ib_subscribe : option WorkspaceSubscribe; ib_roster : option WorkspacePresenceRoster;
  ib_results : list WorkspaceIntentResult; ib_offer : option Offer;
}.

(** The offer is looked at, everything else is taken. *)
Definition take_inbox (s : Subscriber) : Subscriber * option Inbox :=
  if closed s then (s, None)
  else (with_inbox s None None [],
        Some (mkInbox (pending_subscribe s) (pending_roster s) (pending_results s) (pending_state s))).

Definition claim_pending_state (s : Subscriber) : Subscriber := with_pending_state s None.

Definition apply_resubscribe (s : Subscriber) (request : WorkspaceSubscribe) : Subscriber :=
  mkSubscriber (sub_id s) (sub_client_instance_id request) (sub_client_kind request) (sub_label request)
    (ret_resubscribe (retention s) (known_epoch request) (known_state_num request)
       (has_flag (sub_flags request) FLAG_CONTRIBUTES_SIZE) (has_flag (sub_flags request) FLAG_FOLLOWS_FOCUS))
    (pending_state s) (pending_roster s) (pending_subscribe s) (pending_results s) (closed s) (pumping s).

Definition event (k : WorkspaceEventKind) (e : RawUuid) (base new : Z) (payload : list byte) : WireMessage :=
  WorkspaceEvent (event_as_byte k) e base new payload.

(** The results and the roster, in the order they are sent. *)
Definition loose_events (loose : RawUuid) (ib : Inbox) : list WireMessage :=
  map (fun r => event KIntentResult loose 0 0 (encode_result r)) (ib_results ib) ++
  match ib_roster ib with Some r => [event KPresence loose 0 0 (encode_roster r)] | None => [] end.

(** The frames of one planned offer; none when nothing changed since the base. *)
Definition document_frames (o : Offer) (planned : Planned HostWorkspaceState) : list WireMessage :=
  match planned with
  | PHold => []
  | PSnapshot reset_first =>
      (if reset_first then [event KReset (o_epoch o) 0 0 []] else []) ++
      [event KSnapshot (o_epoch o) 0 (o_state_num o) (encode_snapshot (o_state o))]
  | PDiff base_num base =>
      let diff := diff_from (o_state o) base in
      if diff_is_empty diff then [] else [event KDiff (o_epoch o) base_num (o_state_num o) (encode_diff diff)]
  end.

Inductive Pc : Type :=
| Idle                                             (* no thread *)
| Parked                                           (* [run]: the top of the loop *)
| Draining                                         (* [drain]: about to take the inbox *)
| Resubscribing (request : WorkspaceSubscribe) (ib : Inbox)
| Acking (ib : Inbox)
| Loosening (ib : Inbox)
| Answering (events : list WireMessage) (did_send : bool) (offer : option Offer)
| Planning (offer : Offer) (did_send : bool)
| Claiming (offer : Offer) (planned : Planned HostWorkspaceState)
| Shipping (frames : list WireMessage) (offer : Offer)
| Committing (offer : Offer)
| Closing                                          (* a send failed *)
| Stopping.                                        (* [drain] answered false *)

Definition pass_over (did_send : bool) : Pc := if did_send then Draining else Parked.
Definition answering (events : list WireMessage) (did_send : bool) (offer : option Offer) : Pc :=
  match events with
  | [] => match offer with Some o => Planning o did_send | None => pass_over did_send end
  | _ :: _ => Answering events did_send offer
  end.

(** [None]: the thread waits, or there is none. *)
Definition pump_step (s : Subscriber) (pc : Pc) (link_up : bool) : option (Subscriber * Pc * list WireMessage) :=
  match pc with
  | Idle => None
  | Parked => if closed s then Some (s, Stopping, []) else if has_work s then Some (s, Draining, []) else None
  | Draining =>
      match take_inbox s with
      | (_, None) => Some (s, Stopping, [])
      | (s', Some ib) => Some (s', match ib_subscribe ib with Some r => Resubscribing r ib | None => Acking ib end, [])
      end
  | Resubscribing request ib => Some (apply_resubscribe s request, Acking ib, [])
  | Acking ib => Some (with_retention s (ret_apply_pending_ack (retention s)), Loosening ib, [])
  | Loosening ib =>
      Some (s, answering (loose_events (ladder_loose_epoch (ladder (retention s))) ib) false (ib_offer ib), [])
  | Answering events did offer =>
      match events with
      | [] => Some (s, answering [] did offer, [])
      | e :: rest => if link_up then Some (s, answering rest true offer, [e]) else Some (s, Closing, [])
      end
  | Planning o did =>
      let '(r, planned) := ret_plan (retention s) (o_epoch o) in
      Some (with_retention s r, match planned with PHold => pass_over did | _ => Claiming o planned end, [])
  | Claiming o planned =>
      Some (claim_pending_state s, match document_frames o planned with [] => Draining | fs => Shipping fs o end, [])
  | Shipping frames o =>
      match frames with
      | [] => Some (s, Committing o, [])
      | f :: rest =>
          if link_up then Some (s, match rest with [] => Committing o | _ => Shipping rest o end, [f])
          else Some (s, Closing, [])
      end
  | Committing o => Some (with_retention s (ret_commit (retention s) (o_state_num o) (o_state o)), Draining, [])
  | Closing => Some (close s, Stopping, [])
  | Stopping => Some (with_pumping s false, Idle, [])
  end.

(** The pump alone, for as long as it moves: what is sent, in order. *)
Fixpoint pump_run (fuel : nat) (s : Subscriber) (pc : Pc) (link_up : bool) : Subscriber * Pc * list WireMessage :=
  match fuel with
  | O => (s, pc, [])
  | S fuel =>
      match pump_step s pc link_up with
      | None => (s, pc, [])
      | Some (s, pc, out) => let '(s, pc, more) := pump_run fuel s pc link_up in (s, pc, out ++ more)
      end
  end.

(** Everything that can happen to a subscriber from outside. *)
Inductive Input : Type :=
| IState (o : Offer)
| IRoster (r : WorkspacePresenceRoster)
| IResult (r : WorkspaceIntentResult)
| IAck (n : Z)
| IPresence (u : WorkspacePresenceUpdate)
| IResubscribe (r : WorkspaceSubscribe)
| IClose.

Definition input (s : Subscriber) (i : Input) : Subscriber :=
  match i with
  | IState o => deliver_state s o
  | IRoster r => deliver_roster s r
  | IResult r => deliver_result s r
  | IAck n => sub_note_ack s n
  | IPresence u => (sub_note_presence s u).1
  | IResubscribe r => sub_note_resubscribe s r
  | IClose => close s
  end.

(** ** What is sent describes what the host was

    [P n s]: the document had the value [s] at version [n]; [E]: its epoch. *)

Lemma Forall_filter {A} (Q R : A -> Prop) `{!forall x, Decision (R x)} l : Forall Q l -> Forall Q (filter R l).
Proof. rewrite !Forall_forall. intros Hl x [_ Hx]%list_elem_of_filter. by apply Hl. Qed.

Section History.
Variables (E : RawUuid) (P : Z -> HostWorkspaceState -> Prop).

Record offer_ok (o : Offer) : Prop := { ok_epoch : o_epoch o = E; ok_state : P (o_state_num o) (o_state o) }.

Definition planned_ok (p : Planned HostWorkspaceState) : Prop :=
  match p with PDiff n base => P n base /\ n <> 0 | _ => True end.

(** The ladder with its payloads in place holds versions of the document. *)
Record spec_ok (sp : Spec HostWorkspaceState) : Prop := {
  sp_window : Forall (fun p => P p.1 p.2) (s_window sp);
  sp_base : forall d, s_base sp = Some d -> P (s_acked sp) d;
}.

Inductive describes : WireMessage -> Prop :=
| DSnapshot n s : P n s -> describes (event KSnapshot E 0 n (encode_snapshot s))
| DDiff n s b base : P n s -> P b base -> b <> 0 -> describes (event KDiff E b n (encode_diff (diff_from s base)))
| DReset : describes (event KReset E 0 0 [])
| DPresence e payload : describes (event KPresence e 0 0 payload)
| DResult e payload : describes (event KIntentResult e 0 0 payload).

Definition pc_ok (pc : Pc) : Prop :=
  match pc with
  | Idle | Parked | Draining | Closing | Stopping => True
  | Resubscribing _ ib | Acking ib | Loosening ib => forall o, ib_offer ib = Some o -> offer_ok o
  | Answering events _ offer => Forall describes events /\ forall o, offer = Some o -> offer_ok o
  | Planning o _ | Committing o => offer_ok o
  | Claiming o planned => offer_ok o /\ planned_ok planned
  | Shipping frames o => Forall describes frames /\ offer_ok o
  end.

(** Where the pump may still look at the retention of a subscriber that was closed under it. *)
Definition looks_ahead (pc : Pc) : Prop :=
  match pc with
  | Resubscribing _ _ | Acking _ | Loosening _ | Answering _ _ _ | Planning _ _ => True
  | _ => False
  end.

Record sub_ok (s : Subscriber) (pc : Pc) (steps : Z) : Prop := {
  so_ladder : if closed s then looks_ahead pc -> held (retention s) = ∅
              else exists sp, refines (retention s) sp /\ spec_ok sp;
  so_slot : closed s = false -> next_slot (ladder (retention s)) <= steps;
  so_offer : forall o, pending_state s = Some o -> offer_ok o;
  so_pc : pc_ok pc;
}.

Lemma spec_new_ok : spec_ok spec_new.
Proof. by constructor; [constructor|]. Qed.

Lemma spec_find_window (w : list (Z * HostWorkspaceState)) n d : spec_find w n = Some d -> (n, d) ∈ w.
Proof.
  unfold spec_find. destruct (list_find _ w) as [ [i [m x] ]|] eqn:Ef; [|done]. cbn. intros [= ->].
  apply list_find_Some in Ef as (Hi & Hm & _). cbn in Hm. subst m. by eapply list_elem_of_lookup_2.
Qed.

Lemma spec_found sp n d : spec_ok sp -> spec_find (s_window sp) n = Some d -> P n d.
Proof. intros [Hw _] Hf%spec_find_window. by apply (proj1 (Forall_forall _ _) Hw (n, d)). Qed.

Lemma spec_op_ok sp op : spec_ok sp -> match op with OCommit n d => P n d | _ => True end -> spec_ok (spec_op sp op).1.
Proof.
  intros Hs Hop. pose proof Hs as [Hw Hb]. destruct op as [n| |e n cs ff|e|n d|p]; cbn; try done.
  - unfold spec_apply_pending_ack. destruct (s_ack sp) as [n|]; [|done].
    destruct (spec_find (s_window sp) n) as [d|] eqn:Ef; [|done].
    constructor; cbn; [by apply Forall_filter|]. intros ? [= <-]. by eapply spec_found.
  - unfold spec_resubscribe. cbv zeta. destruct (bool_decide _ && _); [|by constructor].
    destruct (spec_find (s_window sp) n) as [d|] eqn:Ef; constructor; cbn; try done. intros ? [= <-]. by eapply spec_found.
  - unfold spec_plan. destruct (s_outstanding sp); [done|]. cbn.
    destruct (match s_epoch sp with Some _ => _ | None => _ end); by constructor.
  - constructor; [|done]. cbn. apply Forall_app. split; [|by repeat constructor].
    assert (Hf : Forall (fun p => P p.1 p.2) (filter (fun p => p.1 <> n) (s_window sp))) by by apply Forall_filter.
    case_decide; [|done]. destruct (filter _ _); [done|]. by inversion Hf.
Qed.

Lemma spec_plan_ok sp e : spec_ok sp -> planned_ok (spec_plan sp e).2.
Proof.
  intros [Hw Hb]. unfold spec_plan. destruct (s_outstanding sp); [done|]. cbv zeta. cbn [snd].
  destruct (match s_epoch sp with Some sent => negb (bool_decide (sent = e)) | None => false end); cbn; [done|].
  destruct (s_base sp) as [d|]; [|done]. destruct (s_needs sp || (s_acked sp =? 0)) eqn:En; [done|].
  apply orb_false_iff in En as [_ En%Z.eqb_neq]. split; [by apply Hb|done].
Qed.

(** Loose events and planned frames describe the host. *)
Lemma loose_ok loose ib : Forall (describes) (loose_events loose ib).
Proof.
  unfold loose_events. apply Forall_app. split.
  - apply Forall_map, Forall_forall. intros r _. apply DResult.
  - destruct (ib_roster ib); [|done]. apply Forall_singleton, DPresence.
Qed.

Lemma frames_ok o planned : offer_ok o -> planned_ok planned -> Forall describes (document_frames o planned).
Proof.
  intros [He Ho] Hp. destruct planned as [|reset|b base]; cbn; rewrite ?He; [done| |].
  - apply Forall_app. split; [destruct reset; [apply Forall_singleton, DReset|done]|]. apply Forall_singleton. by constructor.
  - destruct Hp as [Hp Hb]. destruct (diff_is_empty _); [done|]. apply Forall_singleton. by constructor.
Qed.

Lemma answering_ok events did offer :
  Forall describes events -> (forall o, offer = Some o -> offer_ok o) -> pc_ok (answering events did offer).
Proof. intros He Ho. destruct events; cbn; [|done]. destruct offer; [by apply Ho|by destruct did]. Qed.

(** A retention whose payloads are gone plans no diff. *)
Lemma plan_cleared (r : Retention HostWorkspaceState) e : held r = ∅ -> planned_ok (ret_plan r e).2.
Proof.
  intros Hh. unfold ret_plan. rewrite Hh. destruct (plan (ladder r) e) as [l [|frame] ]; [done|]. cbn.
  destruct (snapshot frame); [done|]. rewrite lookup_drop_released, lookup_empty. by case_decide.
Qed.
Lemma drop_cleared rel : drop_released (∅ : gmap Z HostWorkspaceState) rel = ∅.
Proof. apply map_eq. intros k. rewrite lookup_drop_released, lookup_empty. by case_decide. Qed.
Lemma op_cleared (r : Retention HostWorkspaceState) op :
  held r = ∅ -> match op with OCommit _ _ => False | _ => True end -> held (ret_op r op).1 = ∅.
Proof.
  intros Hh Hop. destruct op as [n| |e n cs ff|e|n d|p]; cbn; try done.
  - unfold ret_apply_pending_ack. destruct (apply_pending_ack _). cbn. by rewrite Hh, drop_cleared.
  - unfold ret_resubscribe. destruct (resubscribe _ _ _ _ _). cbn. by rewrite Hh, drop_cleared.
  - unfold ret_plan. destruct (plan _ _) as [l [|frame] ]; cbn; [done|]. by rewrite Hh, drop_cleared.
  - unfold ret_note_presence. by destruct (ladder_note_presence _ _).
Qed.

(** A retention operation inside a lock section keeps the invariant of an open subscriber. *)
Lemma op_sub_ok s s' pc pc' steps op :
  sub_ok s pc steps -> 0 <= steps -> steps + 1 < NO_SLOT ->
  retention s' = (ret_op (retention s) op).1 -> closed s' = closed s -> pending_state s' = pending_state s ->
  (closed s = false -> match op with OCommit n d => P n d | _ => True end) ->
  (closed s = true -> looks_ahead pc' -> looks_ahead pc /\ match op with OCommit _ _ => False | _ => True end) ->
  pc_ok pc' -> sub_ok s' pc' (match op with OCommit _ _ => steps + 1 | _ => steps end).
Proof.
  intros [Hl Hs Ho Hp] H0 Hlt Er Ec Ep Hop Hlook Hpc. constructor; [| |by rewrite Ep|done]; rewrite Er, Ec.
  - destruct (closed s); [intros Hla; destruct (Hlook eq_refl Hla) as [? ?]; apply op_cleared; auto|].
    destruct Hl as (sp & Hr & Hsp). exists (spec_op sp op).1. split; [|apply spec_op_ok; [done|by apply Hop] ].
    apply op_refines; [done|]. specialize (Hs eq_refl). lia.
  - intros Hc. rewrite Hc in Hl. destruct Hl as (sp & Hr & _). specialize (Hs Hc).
    destruct op; try (rewrite op_keeps_slot by done; lia).
    pose proof (op_next_slot (retention s) sp (OCommit n payload) Hr). lia.
Qed.

Lemma sub_ok_le s pc steps steps' : sub_ok s pc steps -> steps <= steps' -> sub_ok s pc steps'.
Proof. intros [] ?. constructor; try done. intros Hc. specialize (so_slot0 Hc). lia. Qed.

(** A section that leaves the retention alone. *)
Lemma quiet_sub_ok s s' pc pc' steps :
  sub_ok s pc steps -> retention s' = retention s -> closed s' = closed s ->
  (forall o, pending_state s' = Some o -> offer_ok o) ->
  (closed s = true -> looks_ahead pc' -> looks_ahead pc) -> pc_ok pc' -> sub_ok s' pc' steps.
Proof.
  intros Hk Er Ec Ho Hlook Hpc. destruct Hk as [Hl Hs _ _].
  constructor; [rewrite Er, Ec..|done|done]; [|done]. destruct (closed s); [|done]. intros Hla. by apply Hl, Hlook.
Qed.

Lemma input_ok s pc steps i :
  sub_ok s pc steps -> 0 <= steps -> steps + 1 < NO_SLOT -> match i with IState o => offer_ok o | _ => True end ->
  sub_ok (input s i) pc steps.
Proof.
  intros Hk H0 Hlt Hi. pose proof Hk as [Hl Hs Ho Hp].
  destruct i as [o|r|r|n|u|r| ]; cbn [input];
    unfold deliver_state, deliver_roster, deliver_result, sub_note_ack, sub_note_presence, sub_note_resubscribe, close;
    destruct (closed s) eqn:Ec; try exact Hk; try (by eapply quiet_sub_ok).
  - eapply quiet_sub_ok; try done. by intros ? [= <-].
  - eapply (op_sub_ok _ _ _ _ _ (ONoteAck n)); done.
  - destruct (ret_note_presence _ _) as [r b] eqn:Er.
    eapply (op_sub_ok _ _ _ _ _ (OPresence (presence_of u))); try done; cbn; by rewrite ?Er.
  - by constructor.
Qed.

Lemma step_ok_kept s pc link s' pc' out steps :
  sub_ok s pc steps -> 0 <= steps -> steps + 1 < NO_SLOT -> pump_step s pc link = Some (s', pc', out) ->
  sub_ok s' pc' (match pc with Committing _ => steps + 1 | _ => steps end) /\ Forall describes out.
Proof.
  intros Hk H0 Hlt. pose proof Hk as [Hl Hs Ho Hp].
  destruct pc as [| | |req ib|ib|ib|ev did oo|o did|o pl|fr o|o| | ]; cbn [pump_step]; intros Hst.
  - done.
  - destruct (closed s) eqn:Ec; [|destruct (has_work s); [|done] ]; simplify_eq; (split; [|done]); by eapply quiet_sub_ok.
  - unfold take_inbox in Hst. destruct (closed s) eqn:Ec; simplify_eq; (split; [|done]); eapply quiet_sub_ok; try done.
    + by rewrite Ec.
    + by destruct (pending_subscribe s).
  - simplify_eq. split; [|done]. eapply (op_sub_ok _ _ _ _ _ (OResubscribe _ _ _ _)); done.
  - simplify_eq. split; [|done]. eapply (op_sub_ok _ _ _ _ _ OApplyAck); done.
  - simplify_eq. split; [|done]. eapply quiet_sub_ok; try done. apply answering_ok; [apply loose_ok|done].
  - destruct Hp as [He Hof]. destruct ev as [|e rest]; [|destruct link]; simplify_eq; (split; [|done || by inversion_clear He; repeat constructor]).
    + eapply quiet_sub_ok; try done. by apply answering_ok.
    + eapply quiet_sub_ok; try done. inversion_clear He. by apply answering_ok.
    + by eapply quiet_sub_ok.
  - destruct (ret_plan (retention s) (o_epoch o)) as [r pl] eqn:Epl. simplify_eq. split; [|done].
    assert (Hpl : planned_ok pl).
    { change pl with (r, pl).2. rewrite <- Epl. destruct (closed s); [by apply plan_cleared, Hl|].
      destruct Hl as (sp & Hr & Hsp). rewrite (proj2 (plan_refines _ sp (o_epoch o) Hr)). by apply spec_plan_ok. }
    eapply (op_sub_ok _ _ _ _ _ (OPlan (o_epoch o))); try done; cbn; rewrite ?Epl; try done.
    destruct pl; [by destruct did|done..].
  - simplify_eq. split; [|done]. destruct Hp as [Hof Hpl]. pose proof (frames_ok o pl Hof Hpl) as Hf.
    eapply quiet_sub_ok; try done; destruct (document_frames o pl); done.
  - destruct Hp as [He Hof]. destruct fr as [|f rest]; [|destruct link]; simplify_eq; (split; [|done || by inversion_clear He; repeat constructor]).
    + by eapply quiet_sub_ok.
    + inversion_clear He. eapply quiet_sub_ok; try done; by destruct rest.
    + by eapply quiet_sub_ok.
  - simplify_eq. split; [|done]. eapply (op_sub_ok _ _ _ _ _ (OCommit _ _)); try done. by intros _; apply Hp.
  - simplify_eq. split; [|done]. unfold close. destruct (closed s) eqn:Ec; [by eapply quiet_sub_ok|]. by constructor.
  - simplify_eq. split; [|done]. by eapply quiet_sub_ok.
Qed.

Lemma step_ok s pc link s' pc' out steps :
  sub_ok s pc steps -> 0 <= steps -> steps + 1 < NO_SLOT -> pump_step s pc link = Some (s', pc', out) ->
  sub_ok s' pc' (steps + 1) /\ Forall describes out.
Proof.
  intros Hk H0 Hlt Hst. destruct (step_ok_kept _ _ _ _ _ _ _ Hk H0 Hlt Hst) as [H1 H2]. split; [|done].
  eapply sub_ok_le; [exact H1|]. destruct pc; lia.
Qed.

Lemma subscriber_new_ok id request steps : 0 <= steps -> sub_ok (subscriber_new id request) Idle steps.
Proof. intros H. constructor; cbn; try done. exists spec_new. split; [apply new_refines|apply spec_new_ok]. Qed.
End History.
