(* ===== verification/HostDoc.v ===== *)
(** * HostDoc: the host's copy of the workspace and the channel that serves it

    Models [slopdesk-hostserver/src/workspace.rs] and [slopdesk-hostserver/src/wsserve.rs].  A [Host] is the
    document, the subscribers (shared by the document, the service's map and their pumps, hence cells named by
    an index) and the map of connections.  An operation is a function; the sections of the document's lock
    are functions of their own, so that another thread can run between two of them.  The session maps of the
    server ([Panes]) are what they answer at the call: an inventory, a roster.  The intent applier and the
    topology projection are arguments, which [HostIntent] instantiates. *)

From stdpp Require Import gmap sorting.
From S2P Require Import Prelude Bytes BTree Message Document Cells Liveness Verbs Ladder Subscriber.

(** ** State *)

Record WorkspaceDocument : Type := mkDoc {
  d_epoch : RawUuid;
  d_state_num : Z;
  d_state : HostWorkspaceState;
  d_subscribers : list nat;
  pristine : bool;
  has_store : bool;
  reconciling : bool;
  kicked : bool;
}.

Record Host : Type := mkHost {
  doc : WorkspaceDocument;
  cells : list (Subscriber * Pc);
  subscribed : gmap RawUuid nat;
}.

(** What the server's session maps answer. *)
Record PanesView : Type := mkPanes { p_roster : list WorkspaceRosterPane; p_capture : list PaneLiveness }.

(** What leaves the host other than frames. *)
Inductive Effect : Type :=
| ESave (state : HostWorkspaceState)
| EReap (gone : gset RawUuid)
| EPassive (connection : RawUuid) (passive : bool).

Definition doc_new (epoch : RawUuid) : WorkspaceDocument := mkDoc epoch 1 state_new [] true false false false.

(** Before any subscriber: the version stays 1. *)
Definition install (d : WorkspaceDocument) (restored : HostWorkspaceState) (is_pristine store : bool) : WorkspaceDocument :=
  mkDoc (d_epoch d) (d_state_num d) restored (d_subscribers d) is_pristine store (reconciling d) (kicked d).
(** [has_stored] is asked before the load. *)
Definition install_from (d : WorkspaceDocument) (has_stored : bool) (load : HostWorkspaceState) : WorkspaceDocument :=
  install d load (negb has_stored) true.

Definition with_doc (h : Host) (d : WorkspaceDocument) : Host := mkHost d (cells h) (subscribed h).
Definition with_cells (h : Host) (c : list (Subscriber * Pc)) : Host := mkHost (doc h) c (subscribed h).
Definition with_subscribed (h : Host) (m : gmap RawUuid nat) : Host := mkHost (doc h) (cells h) m.
Definition with_state (d : WorkspaceDocument) (n : Z) (s : HostWorkspaceState) : WorkspaceDocument :=
  mkDoc (d_epoch d) n s (d_subscribers d) (pristine d) (has_store d) (reconciling d) (kicked d).
Definition with_subscribers (d : WorkspaceDocument) (l : list nat) : WorkspaceDocument :=
  mkDoc (d_epoch d) (d_state_num d) (d_state d) l (pristine d) (has_store d) (reconciling d) (kicked d).
Definition with_pristine (d : WorkspaceDocument) (b : bool) : WorkspaceDocument :=
  mkDoc (d_epoch d) (d_state_num d) (d_state d) (d_subscribers d) b (has_store d) (reconciling d) (kicked d).
Definition with_reconciling (d : WorkspaceDocument) (r k : bool) : WorkspaceDocument :=
  mkDoc (d_epoch d) (d_state_num d) (d_state d) (d_subscribers d) (pristine d) (has_store d) r k.

(** One section of the lock of subscriber [i]. *)
Definition at_cell (h : Host) (i : nat) (f : Subscriber -> Subscriber) : Host :=
  with_cells h (alter (prod_map f id) i (cells h)).
Definition subscriber_at (h : Host) (i : nat) : option Subscriber := fst <$> cells h !! i.

(** ** The document *)

Definition current_offer (d : WorkspaceDocument) : Offer := mkOffer (d_epoch d) (d_state_num d) (d_state d).

Definition offer_all (h : Host) (targets : list nat) : Host :=
  foldl (fun h i => at_cell h i (fun s => deliver_state s (current_offer (doc h)))) h targets.

(** The version moves and everyone is offered the document, under the document's lock. *)
Definition bump (h : Host) : Host :=
  let h := with_doc h (with_state (doc h) (Z.min (d_state_num (doc h) + 1) i64_max) (d_state (doc h))) in
  offer_all h (d_subscribers (doc h)).

Definition replace_state (h : Host) (next : HostWorkspaceState) : Host :=
  bump (with_doc h (with_state (doc h) (d_state_num (doc h)) next)).

Definition mutate (h : Host) (body : HostWorkspaceState -> HostWorkspaceState) : Host * bool :=
  let next := body (d_state (doc h)) in
  if decide (next = d_state (doc h)) then (h, false) else (replace_state h next, true).

Definition host_reconcile (h : Host) (captured : list PaneLiveness) : Host * bool :=
  mutate h (fun s => (reconcile s captured).1).
Definition host_mark_pane_dead (h : Host) (pane : RawUuid) : Host * bool := mutate h (fun s => (mark_pane_dead s pane).1).

(** The stale panes are read in one section and removed in another: [d] is what the first one read. *)
Definition stale_panes (d : HostWorkspaceState) (keeping : gset RawUuid) : list RawUuid :=
  filter (fun id => id ∉ keeping) (map object_id (filter (fun key => kind key = PANE_KIND) (keys d))).
Definition remove_panes (h : Host) (keeping : gset RawUuid) : Host * bool :=
  let stale := stale_panes (d_state (doc h)) keeping in
  if decide (stale = []) then (h, false) else mutate h (fun s => foldl (fun s pane => remove_object s PANE_KIND pane) s stale).

Definition PROJECT_GIT_SUMMARY : byte := Byte.x01.
Definition set_project (h : Host) (project : RawUuid) (key : list byte) (git_summary : option (list byte)) : Host * bool :=
  mutate h (fun s => (set_or_clear (set s (key_of Project project PROJECT_FIELD_KEY) (encode_string key MAX_STRING_BYTES))
                        (key_of Project project PROJECT_GIT_SUMMARY) git_summary).1).

(** ** Subscribers *)

Definition records (h : Host) : list WorkspaceRosterClient :=
  omap (fun i => roster_record <$> subscriber_at h i) (d_subscribers (doc h)).
Definition client_le (a b : WorkspaceRosterClient) : Prop := uuid_le (rc_client_instance_id a) (rc_client_instance_id b).
#[export] Instance client_le_dec : RelDecision client_le.
Proof. intros a b. unfold client_le. apply _. Defined.

Definition broadcast_roster (h : Host) (panes : option PanesView) : Host :=
  let roster := mkRoster (merge_sort client_le (records h)) (match panes with Some p => p_roster p | None => [] end) in
  foldl (fun h i => at_cell h i (fun s => deliver_roster s roster)) h (d_subscribers (doc h)).

(** The registration, under the document's lock; the broadcast comes after it. *)
Definition register (h : Host) (i : nat) : Host :=
  let h := with_doc h (with_subscribers (doc h) (d_subscribers (doc h) ++ [i])) in
  offer_all h [i].
Definition add_subscriber (h : Host) (i : nat) (panes : option PanesView) : Host := broadcast_roster (register h i) panes.

Definition find_position (h : Host) (id : RawUuid) : option (nat * nat) :=
  list_find (fun i => sub_id <$> subscriber_at h i = Some id) (d_subscribers (doc h)).
Definition find_subscriber (h : Host) (id : RawUuid) : option nat := snd <$> find_position h id.

Definition unregister (h : Host) (index : nat) : Host :=
  with_doc h (with_subscribers (doc h) (delete index (d_subscribers (doc h)))).
Definition remove_subscriber (h : Host) (id : RawUuid) (panes : option PanesView) : Host :=
  match find_position h id with
  | None => h
  | Some (index, i) => broadcast_roster (at_cell (unregister h index) i close) panes
  end.

Definition host_note_ack (h : Host) (id : RawUuid) (n : Z) : Host :=
  match find_subscriber h id with Some i => at_cell h i (fun s => sub_note_ack s n) | None => h end.

Definition host_note_resubscribe (h : Host) (id : RawUuid) (request : WorkspaceSubscribe) (panes : option PanesView) : Host :=
  match find_subscriber h id with
  | None => h
  | Some i =>
      let h := at_cell h i (fun s => sub_note_resubscribe s request) in
      broadcast_roster (offer_all h [i]) panes
  end.

Definition doc_shutdown (h : Host) : Host :=
  let gone := d_subscribers (doc h) in
  foldl (fun h i => at_cell h i close) (with_doc h (with_subscribers (doc h) [])) gone.

(** ** The reconciler *)

(** Answers whether the pass was claimed: a running one is told to run again. *)
Definition begin_reconcile (h : Host) (panes : option PanesView) : Host * bool :=
  if reconciling (doc h) then (with_doc h (with_reconciling (doc h) true true), false)
  else match panes with
       | None => (with_doc h (with_reconciling (doc h) false false), false)
       | Some _ => (with_doc h (with_reconciling (doc h) true (kicked (doc h))), true)
       end.
Definition finish_reconcile (h : Host) : Host * bool :=
  (with_doc h (with_reconciling (doc h) false false), kicked (doc h)).

(** [kicks]: for each pass, whether another thread asks for a reconcile while it runs. *)
Fixpoint reconcile_loop (h : Host) (panes : option PanesView) (kicks : list bool) : Host :=
  match kicks with
  | [] => h
  | kick :: kicks =>
      let '(h, claimed) := begin_reconcile h panes in
      match claimed, panes with
      | true, Some p =>
          let h := (host_reconcile h (p_capture p)).1 in
          let h := if kick then (begin_reconcile h panes).1 else h in
          let '(h, owed) := finish_reconcile h in
          if owed then reconcile_loop h panes kicks else h
      | _, _ => h
      end
  end.
(** A pass nobody kicks is the last. *)
Definition reconcile_now (h : Host) (panes : option PanesView) (kicks : list bool) : Host :=
  if decide (d_subscribers (doc h) = []) then h else reconcile_loop h panes (kicks ++ [false]).

(** ** Intents *)

Section Intents.
Context {Topology : Type}.

(** The applier's answer: [document::IntentOutcome]. *)
Inductive IntentOutcome : Type := OApplied (t : Topology) | OStale | OInvalid | ONotFound | OUnknownOp.
Definition outcome_status (o : IntentOutcome) : WorkspaceIntentStatus :=
  match o with
  | OApplied _ => Applied | OStale => RejectedStale | OInvalid => RejectedInvalid | ONotFound => RejectedNotFound
  | OUnknownOp => UnknownOp
  end.

Variables (from_document : HostWorkspaceState -> option Topology)
  (apply_op : byte -> list byte -> Topology -> bool -> (RawUuid -> option (list byte)) -> IntentOutcome)
  (project_key_for_pane : HostWorkspaceState -> RawUuid -> option (list byte))
  (write_topology : HostWorkspaceState -> Topology -> HostWorkspaceState)
  (topology_pane_ids : Topology -> gset RawUuid).

(** The section under the lock; the save it asks for happens after it. *)
Definition apply_intent (h : Host) (op : byte) (args : list byte) :
    Host * WorkspaceIntentStatus * gset RawUuid * list Effect :=
  match from_document (d_state (doc h)) with
  | None => (h, RejectedNotFound, ∅, [])
  | Some current =>
      match apply_op op args current (pristine (doc h)) (project_key_for_pane (d_state (doc h))) with
      | OApplied next =>
          let h := with_doc h (with_pristine (doc h) false) in
          let gone := topology_pane_ids current ∖ topology_pane_ids next in
          let written := write_topology (d_state (doc h)) next in
          let h := if decide (written = d_state (doc h)) then h else replace_state h written in
          (h, Applied, gone, if has_store (doc h) then [ESave (d_state (doc h))] else [])
      | refused => (h, outcome_status refused, ∅, [])
      end
  end.

(** ** The service *)

Definition service_subscriber (h : Host) (connection : RawUuid) : option nat := subscribed h !! connection.

Definition resolve_size_passivity (panes : option PanesView) (connection : RawUuid) (kind : byte) : list Effect :=
  match panes with
  | Some _ => [EPassive connection (match client_from_byte kind with Some Ios => true | _ => false end)]
  | None => []
  end.

(** A new subscriber, filed and with its pump parked. *)
Definition enrol (h : Host) (connection id : RawUuid) (request : WorkspaceSubscribe) : Host :=
  let '(s, started) := start (subscriber_new id request) in
  mkHost (doc h) (cells h ++ [(s, if started then Parked else Idle)]) (<[connection := length (cells h)]> (subscribed h)).

(** [minted]: the id the entropy answered. *)
Definition apply_subscribe (h : Host) (connection : RawUuid) (request : WorkspaceSubscribe) (minted : option RawUuid)
    (panes : option PanesView) (kicks : list bool) : Host * list Effect :=
  match service_subscriber h connection with
  | Some i =>
      (match sub_id <$> subscriber_at h i with
       | Some id => host_note_resubscribe h id request panes
       | None => h
       end, resolve_size_passivity panes connection (sub_client_kind request))
  | None =>
      match minted with
      | None => (h, [])
      | Some id =>
          let i := length (cells h) in
          (reconcile_now (add_subscriber (enrol h connection id request) i panes) panes kicks,
           resolve_size_passivity panes connection (sub_client_kind request))
      end
  end.

(** A body that does not decode is dropped; every intent that does is answered. *)
Definition handle (h : Host) (connection : RawUuid) (verb : byte) (payload : list byte) (minted : option RawUuid)
    (panes : option PanesView) (kicks : list bool) : Host * list Effect :=
  match verb_from_byte verb with
  | Some VSubscribe =>
      match decode_subscribe payload with
      | Ok request => apply_subscribe h connection request minted panes kicks
      | Err _ => (h, [])
      end
  | Some VAck =>
      match decode_i64 payload, service_subscriber h connection with
      | Some n, Some i =>
          (match sub_id <$> subscriber_at h i with Some id => host_note_ack h id n | None => h end, [])
      | _, _ => (h, [])
      end
  | Some VPresence =>
      match decode_update payload, service_subscriber h connection with
      | Ok update, Some i =>
          let moved := match subscriber_at h i with Some s => (sub_note_presence s update).2 | None => false end in
          let h := at_cell h i (fun s => (sub_note_presence s update).1) in
          (if moved then broadcast_roster h panes else h, [])
      | _, _ => (h, [])
      end
  | Some VIntent =>
      match decode_intent payload, service_subscriber h connection with
      | Ok intent, Some i =>
          let '(h, status, gone, saves) := apply_intent h (in_op intent) (in_args intent) in
          let h := at_cell h i (fun s => deliver_result s (mkResult (in_id intent) (status_as_byte status))) in
          match status with
          | Applied => (reconcile_now h panes kicks, saves ++ match panes with Some _ => [EReap gone] | None => [] end)
          | _ => (h, saves)
          end
      | _, _ => (h, [])
      end
  | None => (h, [])
  end.

(** A second workspace channel of a connection is refused. *)
Definition service_open (h : Host) (connection : RawUuid) : bool := negb (bool_decide (is_Some (service_subscriber h connection))).

Definition drop_subscriber (h : Host) (connection : RawUuid) (panes : option PanesView) : Host :=
  match service_subscriber h connection with
  | None => h
  | Some i =>
      let h := with_subscribed h (delete connection (subscribed h)) in
      match sub_id <$> subscriber_at h i with Some id => remove_subscriber h id panes | None => h end
  end.

Definition client_instance (h : Host) (connection : RawUuid) : option RawUuid :=
  i ← service_subscriber h connection; client_instance_id <$> subscriber_at h i.

Definition service_shutdown (h : Host) : Host := with_subscribed (doc_shutdown h) ∅.
End Intents.

(** ** The host, one section at a time *)

Inductive HostStep : Type :=
| HReplace (next : HostWorkspaceState)
| HInput (i : nat) (inp : Input)
| HOffer (i : nat)
| HSubscribers (l : list nat)
| HFlags (is_pristine is_reconciling is_kicked : bool)
| HEnrol (connection id : RawUuid) (request : WorkspaceSubscribe)
| HSubscribed (m : gmap RawUuid nat).

Definition host_step (h : Host) (st : HostStep) : Host :=
  match st with
  | HReplace next => (mutate h (fun _ => next)).1
  | HInput i (IState _) => h
  | HInput i inp => at_cell h i (fun s => input s inp)
  | HOffer i => offer_all h [i]
  | HSubscribers l => with_doc h (with_subscribers (doc h) l)
  | HFlags p r k => with_doc h (with_reconciling (with_pristine (doc h) p) r k)
  | HEnrol connection id request => enrol h connection id request
  | HSubscribed m => with_subscribed h m
  end.

(** ** Every call is a sequence of sections *)

Definition reaches (h h' : Host) : Prop := exists l, foldl host_step h l = h'.

Lemma reaches_refl h : reaches h h.
Proof. by exists []. Qed.
Lemma reaches_step h st : reaches h (host_step h st).
Proof. by exists [st]. Qed.
Lemma reaches_trans h1 h2 h3 : reaches h1 h2 -> reaches h2 h3 -> reaches h1 h3.
Proof. intros [l1 <-] [l2 <-]. exists (l1 ++ l2). apply foldl_app. Qed.
#[export] Instance reaches_preorder : PreOrder reaches.
Proof. split; [exact reaches_refl|exact reaches_trans]. Qed.

Lemma reaches_foldl {A} (f : Host -> A -> Host) l : (forall h x, reaches h (f h x)) -> forall h, reaches h (foldl f h l).
Proof. intros Hf. induction l as [|x l IH]; intros h; cbn; [done|]. etrans; [apply Hf|apply IH]. Qed.

Lemma reaches_input h i inp : match inp with IState _ => False | _ => True end -> reaches h (at_cell h i (fun s => input s inp)).
Proof. intros H. exists [HInput i inp]. cbn. by destruct inp. Qed.

Lemma reaches_offers h l : reaches h (offer_all h l).
Proof.
  exists (map HOffer l). revert h. induction l as [|i l IH]; intros h; [done|]. exact (IH (at_cell h i _)).
Qed.

Lemma reaches_mutate h body : reaches h (mutate h body).1.
Proof. exact (reaches_step h (HReplace (body (d_state (doc h))))). Qed.

Lemma reaches_broadcast h panes : reaches h (broadcast_roster h panes).
Proof. unfold broadcast_roster. apply reaches_foldl. intros h' i. by apply (reaches_input h' i (IRoster _)). Qed.

Lemma reaches_flags h d :
  d_epoch d = d_epoch (doc h) -> d_state_num d = d_state_num (doc h) -> d_state d = d_state (doc h) ->
  d_subscribers d = d_subscribers (doc h) -> has_store d = has_store (doc h) -> reaches h (with_doc h d).
Proof.
  intros E1 E2 E3 E4 E5. exists [HFlags (pristine d) (reconciling d) (kicked d)]. destruct d. cbn in *. subst. done.
Qed.
Lemma reaches_subscribers h l : reaches h (with_doc h (with_subscribers (doc h) l)).
Proof. exact (reaches_step h (HSubscribers l)). Qed.

Lemma reaches_begin h panes : reaches h (begin_reconcile h panes).1.
Proof. unfold begin_reconcile. destruct (reconciling (doc h)); [by apply reaches_flags|]. destruct panes; by apply reaches_flags. Qed.

Lemma reaches_reconcile_loop panes kicks : forall h, reaches h (reconcile_loop h panes kicks).
Proof.
  induction kicks as [|kick kicks IH]; intros h; cbn [reconcile_loop]; [done|].
  pose proof (reaches_begin h panes) as Hb. destruct (begin_reconcile h panes) as [h1 claimed]. cbn in Hb.
  destruct claimed; [|done]. destruct panes as [p|]; [|done].
  set (h2 := (host_reconcile h1 (p_capture p)).1). assert (H2 : reaches h h2) by (etrans; [exact Hb|apply reaches_mutate]).
  set (h3 := if kick then (begin_reconcile h2 (Some p)).1 else h2).
  assert (H3 : reaches h h3) by (unfold h3; destruct kick; [etrans; [exact H2|apply reaches_begin]|exact H2]).
  assert (H4 : reaches h (finish_reconcile h3).1) by (etrans; [exact H3|by apply reaches_flags]).
  destruct (finish_reconcile h3) as [h4 owed]. cbn in H4. destruct owed; [|exact H4]. etrans; [exact H4|apply IH].
Qed.
Lemma reaches_reconcile h panes kicks : reaches h (reconcile_now h panes kicks).
Proof. unfold reconcile_now. case_decide; [done|]. apply reaches_reconcile_loop. Qed.

Lemma reaches_resubscribe h id request panes : reaches h (host_note_resubscribe h id request panes).
Proof.
  unfold host_note_resubscribe. destruct (find_subscriber h id) as [i|]; [|done].
  etrans; [by apply (reaches_input _ i (IResubscribe request))|]. etrans; [apply reaches_offers|apply reaches_broadcast].
Qed.
Lemma reaches_remove h id panes : reaches h (remove_subscriber h id panes).
Proof.
  unfold remove_subscriber. destruct (find_position h id) as [ [k i]|]; [|done].
  etrans; [apply (reaches_subscribers h)|]. etrans; [by apply (reaches_input _ i IClose)|apply reaches_broadcast].
Qed.
Lemma reaches_add h i panes : reaches h (add_subscriber h i panes).
Proof. etrans; [apply (reaches_subscribers h)|]. etrans; [apply reaches_offers|apply reaches_broadcast]. Qed.

Lemma reaches_subscribe h connection request minted panes kicks :
  reaches h (apply_subscribe h connection request minted panes kicks).1.
Proof.
  unfold apply_subscribe. destruct (service_subscriber h connection) as [i|]; cbn [fst].
  - destruct (sub_id <$> subscriber_at h i); [apply reaches_resubscribe|done].
  - destruct minted as [id|]; [|done]. cbn [fst]. etrans; [|apply reaches_reconcile]. etrans; [|apply reaches_add].
    apply (reaches_step h (HEnrol connection id request)).
Qed.

(** ** What the sections leave alone *)

(** The answers waiting at a subscriber, and whether it is closed. *)
Definition answers (h : Host) (i : nat) : option (list WorkspaceIntentResult * bool) :=
  (fun s => (pending_results s, closed s)) <$> subscriber_at h i.

Lemma subscriber_at_cell h i j f :
  subscriber_at (at_cell h j f) i = if decide (i = j) then f <$> subscriber_at h i else subscriber_at h i.
Proof.
  unfold subscriber_at, at_cell. cbn. case_decide as E.
  - subst. rewrite list_lookup_alter_eq. by destruct (cells h !! j) as [ [? ?]|].
  - by rewrite list_lookup_alter_ne.
Qed.

Lemma answers_at_cell h i j f :
  (forall s, pending_results (f s) = pending_results s /\ closed (f s) = closed s) -> answers (at_cell h j f) i = answers h i.
Proof.
  intros Hf. unfold answers. rewrite subscriber_at_cell. case_decide; [|done]. destruct (subscriber_at h i) as [s|]; [|done].
  cbn. by destruct (Hf s) as [-> ->].
Qed.

Lemma answers_offers h i l : answers (offer_all h l) i = answers h i.
Proof.
  revert h. induction l as [|j l IH]; intros h; [done|].
  change (answers (offer_all (at_cell h j (fun s => deliver_state s (current_offer (doc h)))) l) i = answers h i).
  rewrite IH. apply answers_at_cell. intros s. unfold deliver_state. by destruct (closed s) eqn:E.
Qed.

Lemma answers_mutate h i body : answers (mutate h body).1 i = answers h i.
Proof. unfold mutate. case_decide; [done|]. exact (answers_offers _ i _). Qed.

Lemma answers_reconcile h i panes kicks : answers (reconcile_now h panes kicks) i = answers h i.
Proof.
  assert (Hb : forall h, answers (begin_reconcile h panes).1 i = answers h i)
    by (intros h'; unfold begin_reconcile; destruct (reconciling (doc h')); [done|by destruct panes]).
  assert (Hl : forall kicks h, answers (reconcile_loop h panes kicks) i = answers h i).
  { clear h kicks. induction kicks as [|kick kicks IH]; intros h; cbn [reconcile_loop]; [done|].
    specialize (Hb h) as Hb1. destruct (begin_reconcile h panes) as [h1 claimed]. cbn in Hb1.
    destruct claimed; [|done]. destruct panes as [p|]; [|done].
    set (h2 := (host_reconcile h1 (p_capture p)).1). assert (H2 : answers h2 i = answers h i) by (rewrite <- Hb1; apply answers_mutate).
    set (h3 := if kick then (begin_reconcile h2 (Some p)).1 else h2).
    assert (H3 : answers h3 i = answers h i) by (unfold h3; destruct kick; [by rewrite Hb|done]).
    destruct (finish_reconcile h3) as [h4 owed] eqn:E4. injection E4 as <- <-.
    destruct (kicked (doc h3)); [by rewrite IH|exact H3]. }
  unfold reconcile_now. case_decide; [done|]. apply Hl.
Qed.

(** The version only grows, and a version is one document. *)
Definition versioned (h h' : Host) : Prop :=
  d_epoch (doc h') = d_epoch (doc h) /\ d_state_num (doc h) <= d_state_num (doc h') <= i64_max /\
  (d_state_num (doc h') = d_state_num (doc h) -> d_state_num (doc h) < i64_max -> d_state (doc h') = d_state (doc h)).

Lemma doc_offers h l : doc (offer_all h l) = doc h.
Proof. revert h. induction l as [|i l IH]; intros h; [done|]. exact (IH (at_cell h i _)). Qed.

Lemma versioned_step h st : d_state_num (doc h) <= i64_max -> versioned h (host_step h st).
Proof.
  intros Hle. assert (Hrefl : versioned h h) by (split_and!; done || lia).
  destruct st as [next|i inp|i|l|p r k|c id req|m]; try (split_and!; done || lia); cbn [host_step].
  - unfold mutate. case_decide; [done|]. cbn [fst]. unfold replace_state, bump, versioned. rewrite doc_offers. cbn.
    split_and!; [done|lia|lia|lia].
  - by destruct inp.
Qed.

Lemma versioned_reaches h h' : reaches h h' -> d_state_num (doc h) <= i64_max -> versioned h h'.
Proof.
  intros [l <-]. revert h. induction l as [|st l IH]; intros h Hle; [split_and!; done || lia|]. cbn [foldl].
  destruct (versioned_step h st Hle) as (E1 & E2 & E3). destruct (IH (host_step h st)) as (F1 & F2 & F3); [lia|].
  split_and!; [congruence|lia|lia|]. intros Hn Hlt. rewrite F3, E3; done || lia.
Qed.

Section Calls.
Context {Topology : Type} (from_document : HostWorkspaceState -> option Topology)
  (apply_op : byte -> list byte -> Topology -> bool -> (RawUuid -> option (list byte)) -> IntentOutcome (Topology := Topology))
  (project_key_for_pane : HostWorkspaceState -> RawUuid -> option (list byte))
  (write_topology : HostWorkspaceState -> Topology -> HostWorkspaceState)
  (topology_pane_ids : Topology -> gset RawUuid).

Abbreviation apply_intent := (apply_intent from_document apply_op project_key_for_pane write_topology topology_pane_ids).
Abbreviation handle := (handle from_document apply_op project_key_for_pane write_topology topology_pane_ids).

(** What an intent does to the host: nothing when it is refused, and otherwise the written document, published
    when it differs. *)
Lemma apply_intent_spec h op args :
  let '(h', status, gone, saves) := apply_intent h op args in
  match current ← from_document (d_state (doc h));
        match apply_op op args current (pristine (doc h)) (project_key_for_pane (d_state (doc h))) with
        | OApplied next => Some next | _ => None end with
  | None => h' = h /\ status <> Applied /\ saves = []
  | Some next => h' = (mutate (with_doc h (with_pristine (doc h) false)) (fun s => write_topology s next)).1 /\ status = Applied
  end.
Proof.
  unfold HostDoc.apply_intent. destruct (from_document _) as [current|]; cbn; [|done].
  destruct (apply_op _ _ _ _ _) as [next| | | | ]; cbn; try done. unfold mutate. cbn. by case_decide.
Qed.

Lemma reaches_intent h op args : reaches h (apply_intent h op args).1.1.1.
Proof.
  pose proof (apply_intent_spec h op args) as H. destruct (apply_intent h op args) as [ [ [h' status] gone] saves]. cbn.
  destruct (from_document _ ≫= _) as [next|]; [|by destruct H as (-> & _)]. destruct H as [-> _].
  etrans; [|apply reaches_mutate]. by apply reaches_flags.
Qed.

Lemma reaches_handle h connection verb payload minted panes kicks :
  reaches h (handle h connection verb payload minted panes kicks).1.
Proof.
  unfold HostDoc.handle. destruct (verb_from_byte verb) as [ [| | | ]|]; [| | | |done].
  - destruct (decode_subscribe payload); [apply reaches_subscribe|done].
  - destruct (decode_i64 payload) as [n|], (service_subscriber h connection) as [i|]; try done. cbn.
    destruct (sub_id <$> subscriber_at h i); [|done]. unfold host_note_ack. destruct (find_subscriber _ _) as [j|]; [|done].
    by apply (reaches_input h j (IAck n)).
  - destruct (decode_update payload) as [u|], (service_subscriber h connection) as [i|]; try done. cbn.
    pose proof (reaches_input h i (IPresence u) I) as Hp.
    destruct (match subscriber_at h i with Some _ => _ | None => _ end); [|exact Hp].
    etrans; [exact Hp|apply reaches_broadcast].
  - destruct (decode_intent payload) as [intent|], (service_subscriber h connection) as [i|]; try done.
    pose proof (reaches_intent h (in_op intent) (in_args intent)) as Hi.
    destruct (apply_intent h (in_op intent) (in_args intent)) as [ [ [h' status] gone] saves]. cbn in Hi.
    pose proof (reaches_input h' i (IResult (mkResult (in_id intent) (status_as_byte status))) I) as Hr.
    assert (Hr' : reaches h (at_cell h' i (fun s => deliver_result s (mkResult (in_id intent) (status_as_byte status)))))
      by (etrans; [exact Hi|exact Hr]).
    destruct status; cbn [fst]; try exact Hr'. etrans; [exact Hr'|apply reaches_reconcile].
Qed.

(** Whether the service reads anything from a request. *)
Definition decodes (verb : byte) (payload : list byte) : bool :=
  match verb_from_byte verb with
  | Some VSubscribe => bool_decide (is_Some (ok (decode_subscribe payload)))
  | Some VAck => bool_decide (is_Some (decode_i64 payload))
  | Some VPresence => bool_decide (is_Some (ok (decode_update payload)))
  | Some VIntent => bool_decide (is_Some (ok (decode_intent payload)))
  | None => false
  end.

Lemma reaches_drop h connection panes : reaches h (drop_subscriber h connection panes).
Proof.
  unfold drop_subscriber. destruct (service_subscriber h connection) as [i|]; [|done].
  assert (H : reaches h (with_subscribed h (delete connection (subscribed h)))) by apply (reaches_step h (HSubscribed _)).
  destruct (sub_id <$> _); [|exact H]. etrans; [exact H|apply reaches_remove].
Qed.

Lemma reaches_shutdown h : reaches h (service_shutdown h).
Proof.
  unfold service_shutdown, doc_shutdown. etrans; [|apply (reaches_step _ (HSubscribed ∅))].
  etrans; [apply (reaches_subscribers h [])|]. apply reaches_foldl. intros h' i. by apply (reaches_input h' i IClose).
Qed.

(** What the applier rules on an intent: no ruling when the document does not read as a workspace. *)
Definition ruling (h : Host) (op : byte) (args : list byte) : option (IntentOutcome (Topology := Topology)) :=
  current ← from_document (d_state (doc h));
  Some (apply_op op args current (pristine (doc h)) (project_key_for_pane (d_state (doc h)))).

(** The wire's number for it. *)
Definition ruling_code (o : option (IntentOutcome (Topology := Topology))) : Z :=
  match o with
  | Some (OApplied _) => 0 | Some OStale => 1 | Some OInvalid => 2 | Some OUnknownOp => 3 | Some ONotFound | None => 4
  end.

(** What an applied intent asks for: the written document saved, if there is a store, and the shells of the panes
    that left reaped. *)
Definition applied_effects (h : Host) (panes : option PanesView) (next : Topology) : list Effect :=
  (if has_store (doc h) then [ESave (write_topology (d_state (doc h)) next)] else []) ++
  match panes, from_document (d_state (doc h)) with
  | Some _, Some current => [EReap (topology_pane_ids current ∖ topology_pane_ids next)]
  | _, _ => []
  end.

Lemma apply_intent_ruled h op args :
  let '(h', status, gone, saves) := apply_intent h op args in
  status_as_byte status = byte_of_Z (ruling_code (ruling h op args)) /\
  (forall i, answers h' i = answers h i) /\
  match ruling h op args with
  | Some (OApplied next) =>
      status = Applied /\
      forall panes, applied_effects h panes next = saves ++ match panes with Some _ => [EReap gone] | None => [] end
  | _ => status <> Applied /\ h' = h /\ saves = []
  end.
Proof.
  pose proof (apply_intent_spec h op args) as Hsp. unfold ruling, applied_effects. unfold HostDoc.apply_intent in *.
  destruct (from_document (d_state (doc h))) as [current|]; cbn in *; [|done].
  destruct (apply_op _ _ _ _ _) as [next| | | | ]; cbn in *; try done. destruct Hsp as [Hh _]. split; [done|].
  split; [intros i; rewrite Hh; by rewrite answers_mutate|]. split; [done|]. intros panes.
  case_decide as E; unfold replace_state, bump; rewrite ?doc_offers; cbn; [by rewrite E|reflexivity].
Qed.

(** C35: The service answers or drops, and nothing else.  Whatever verb and bytes a connection sends: a request that
    does not decode changes nothing and tears nothing down; nor does any request but a subscribe of a
    connection with no subscriber, an intent that decodes included, which gets no answer at all.  An intent
    that decodes, of a connection with a subscriber, leaves exactly one more answer with its id in that
    subscriber's queue, unless the subscriber is closed, and the answer is what the applier ruled: applied,
    stale, invalid, not found or unknown, each by its number.  A refused one leaves the document as it is and
    asks for nothing; an applied one has the written document saved, on a host with a store, and the shells
    of the panes that left reaped, on a host with panes to reap.  The version never goes back, and while it stands the document is the same value, so a
    subscriber is never offered two documents under one version; and the whole call is a sequence of the
    host's lock sections, so what holds of every interleaving of those holds of calls. *)
Theorem requests_are_answered_or_dropped h connection verb payload minted panes kicks :
  d_state_num (doc h) <= i64_max ->
  let h' := (handle h connection verb payload minted panes kicks).1 in
  let effects := (handle h connection verb payload minted panes kicks).2 in
  (decodes verb payload = false \/ service_subscriber h connection = None /\ verb_from_byte verb <> Some VSubscribe ->
   handle h connection verb payload minted panes kicks = (h, [])) /\
  (forall intent i results shut,
     verb_from_byte verb = Some VIntent -> decode_intent payload = Ok intent ->
     service_subscriber h connection = Some i -> answers h i = Some (results, shut) ->
     let ruled := ruling h (in_op intent) (in_args intent) in
     answers h' i = Some (if shut then results else results ++ [mkResult (in_id intent) (byte_of_Z (ruling_code ruled))], shut) /\
     (ruling_code ruled <> 0 -> doc h' = doc h /\ effects = []) /\
     (forall next, ruled = Some (OApplied next) -> effects = applied_effects h panes next)) /\
  versioned h h' /\ reaches h h'.
Proof.
  intros Hle h' effects. pose proof (reaches_handle h connection verb payload minted panes kicks) as Hr.
  split_and!; [| |by apply versioned_reaches|exact Hr].
  - clear. unfold decodes, HostDoc.handle. intros [Hd|[Hs Hv]].
    + destruct (verb_from_byte verb) as [ [| | | ]|]; [..|done]; apply bool_decide_eq_false in Hd.
      * destruct (decode_subscribe payload); [|done]. exfalso. by apply Hd.
      * destruct (decode_i64 payload); [|done]. exfalso. by apply Hd.
      * destruct (decode_update payload); [|done]. exfalso. by apply Hd.
      * destruct (decode_intent payload); [|done]. exfalso. by apply Hd.
    + rewrite Hs. destruct (verb_from_byte verb) as [ [| | | ]|]; [done| | | |done].
      * by destruct (decode_i64 payload).
      * by destruct (decode_update payload).
      * by destruct (decode_intent payload).
  - intros intent i results shut Hv Hi Hs Ha ruled. unfold h', effects, HostDoc.handle. rewrite Hv, Hi, Hs.
    pose proof (apply_intent_ruled h (in_op intent) (in_args intent)) as Hsp. fold ruled in Hsp.
    destruct (apply_intent h (in_op intent) (in_args intent)) as [ [ [h1 status] gone] saves]. destruct Hsp as (Hcode & Hans & Hcase).
    set (f := fun s => deliver_result s (mkResult (in_id intent) (status_as_byte status))).
    assert (H2 : answers (at_cell h1 i f) i
      = Some (if shut then results else results ++ [mkResult (in_id intent) (byte_of_Z (ruling_code ruled))], shut)).
    { specialize (Hans i). rewrite Ha in Hans. unfold answers in *. rewrite subscriber_at_cell, decide_True by done.
      destruct (subscriber_at h1 i) as [s|]; [|done]. cbn in *. injection Hans as H1 H2. unfold f, deliver_result. rewrite H2, <- Hcode.
      destruct shut; cbn; by rewrite H1, ?H2. }
    destruct ruled as [ [next| | | | ]|]; [destruct Hcase as [-> Heff]|destruct Hcase as (Hne & -> & ->)..]; cbn [fst snd] in *.
    1: { split; [by rewrite answers_reconcile|]. split; [done|]. by intros next' [= <-]. }
    all: destruct status; [done|..]; (split; [exact H2|by split]).
Qed.
End Calls.

Definition one_cell (n : Z) : HostWorkspaceState := {[cell_a := [byte_of_Z n]]}.
Definition a_subscription : WorkspaceSubscribe := mkSubscribe (id_of 7) (byte_of_Z 0) zero_uuid 0 (byte_of_Z 1) mac_text.
(** A host with a workspace and one connection, subscribed. *)
Definition watched_host : Host :=
  (handle (fun _ => @None unit) (fun _ _ _ _ _ => OUnknownOp) (fun _ _ => None) (fun s _ => s) (fun _ => ∅)
     (mkHost (install (doc_new epoch_a) (one_cell 1) false true) [] ∅) (id_of 1) (verb_as_byte VSubscribe)
     (encode_subscribe a_subscription) (Some (id_of 2)) None []).1.
(** An applier whose topology is the document, and whose one operation writes a cell. *)
Definition only_write_two (op : byte) (_ : list byte) (_ : HostWorkspaceState) (_ : bool) (_ : RawUuid -> option (list byte)) :
    IntentOutcome (Topology := HostWorkspaceState) := if decide (op = byte_of_Z 0) then OApplied (one_cell 2) else OInvalid.
Definition asked (id : Z) (op : Z) : Host * list Effect :=
  handle (fun s => Some s) only_write_two (fun _ _ => None) (fun _ t => t) (fun _ => ∅) watched_host (id_of 1) (verb_as_byte VIntent)
    (encode_intent (mkIntent (id_of id) (byte_of_Z op) [])) None None [].
Definition write_two : Host * list Effect := asked 5 0.
Definition refuse_one : Host * list Effect := asked 6 9.

Lemma requests_are_answered_or_dropped_witness :
  d_state_num (doc write_two.1) = 2 /\
  answers write_two.1 0 = Some ([mkResult (id_of 5) (byte_of_Z 0)], false) /\ write_two.2 = [ESave (one_cell 2)] /\
  answers refuse_one.1 0 = Some ([mkResult (id_of 6) (byte_of_Z 2)], false) /\ doc refuse_one.1 = doc watched_host.
Proof.
  split; [by vm_compute|].
  destruct (requests_are_answered_or_dropped (fun s => Some s) only_write_two
    (fun _ _ => None) (fun _ t => t) (fun _ => ∅) watched_host (id_of 1) (verb_as_byte VIntent)
    (encode_intent (mkIntent (id_of 5) (byte_of_Z 0) [])) None None []) as (_ & H & _); [by vm_compute|].
  destruct (H (mkIntent (id_of 5) (byte_of_Z 0) []) 0%nat [] false) as (Ha & _ & He); [by vm_compute..|].
  split; [exact Ha|]. split; [exact (He (one_cell 2) eq_refl)|].
  destruct (requests_are_answered_or_dropped (fun s => Some s) only_write_two
    (fun _ _ => None) (fun _ t => t) (fun _ => ∅) watched_host (id_of 1) (verb_as_byte VIntent)
    (encode_intent (mkIntent (id_of 6) (byte_of_Z 9) [])) None None []) as (_ & H' & _); [by vm_compute|].
  destruct (H' (mkIntent (id_of 6) (byte_of_Z 9) []) 0%nat [] false) as (Ha' & Hd & _); [by vm_compute..|].
  split; [exact Ha'|]. by apply Hd.
Defined.

(** A connection that dies while its first subscribe is being served stays in the roster.  [drop_connection] runs on
    the thread of the link and takes the subscriber out of the service's map; the document does not list it yet,
    so nothing closes it; the subscribe then registers it.  It is listed, open and offered every version,
    and no later drop of the connection finds it. *)
Theorem a_ghost_subscriber_can_stay (h : Host) connection id request panes :
  subscribed h !! connection = None ->
  (forall j, j ∈ d_subscribers (doc h) -> (j < length (cells h))%nat /\ sub_id <$> subscriber_at h j <> Some id) ->
  let i := length (cells h) in
  let h1 := drop_subscriber (enrol h connection id request) connection panes in
  let h2 := add_subscriber h1 i panes in
  i ∈ d_subscribers (doc h2) /\ answers h2 i = Some ([], false) /\
  (forall panes', drop_subscriber h2 connection panes' = h2).
Proof.
  intros Hc Hid i h1 h2. set (s := (start (subscriber_new id request)).1).
  assert (H1 : h1 = mkHost (doc h) (cells h ++ [(s, Parked)]) (subscribed h)).
  { unfold h1, drop_subscriber, service_subscriber, enrol. cbn. rewrite lookup_insert_eq.
    rewrite delete_insert_id by done. unfold with_subscribed, subscriber_at at 1. cbn [cells doc].
    fold i. unfold i. rewrite list_lookup_middle by done. cbn. unfold remove_subscriber, find_position. cbn [doc].
    destruct (list_find _ _) as [ [k j]|] eqn:Ef; [|done]. exfalso. apply list_find_Some in Ef as (Hk & Hj & _).
    destruct (Hid j) as [Hlt Hne]; [by eapply list_elem_of_lookup_2|]. apply Hne. rewrite <- Hj.
    unfold subscriber_at. cbn [cells]. by rewrite lookup_app_l. }
  assert (Hb : forall h, doc (broadcast_roster h panes) = doc h /\ subscribed (broadcast_roster h panes) = subscribed h /\
    forall j, answers (broadcast_roster h panes) j = answers h j).
  { intros g. unfold broadcast_roster. generalize (mkRoster (merge_sort client_le (records g)) match panes with Some p => p_roster p | None => [] end) as r.
    intros r. generalize (d_subscribers (doc g)) as l. intros l. revert g.
    induction l as [|x l IH]; intros g; [done|]. cbn [foldl]. destruct (IH (at_cell g x (fun s => deliver_roster s r))) as (-> & -> & H).
    split_and!; try done. intros j. rewrite H. apply answers_at_cell. intros t. unfold deliver_roster. by destruct (closed t) eqn:E. }
  unfold h2, add_subscriber. destruct (Hb (register h1 i)) as (E1 & E2 & E3). rewrite H1 in *. split_and!.
  - rewrite E1. unfold register. rewrite doc_offers. cbn. apply elem_of_app. right. by left.
  - rewrite E3. unfold register. rewrite answers_offers. unfold answers, subscriber_at. cbn [cells with_doc].
    unfold i. by rewrite list_lookup_middle.
  - intros panes'. unfold drop_subscriber, service_subscriber. rewrite E2. cbn. by rewrite Hc.
Qed.

Lemma a_ghost_subscriber_can_stay_witness :
  d_subscribers (doc (add_subscriber (drop_subscriber (enrol watched_host (id_of 3) (id_of 4) a_subscription) (id_of 3) None) 1 None)) = [0%nat; 1%nat] /\
  answers (add_subscriber (drop_subscriber (enrol watched_host (id_of 3) (id_of 4) a_subscription) (id_of 3) None) 1 None) 1 = Some ([], false).
Proof.
  split; [by vm_compute|].
  apply (a_ghost_subscriber_can_stay watched_host (id_of 3) (id_of 4) a_subscription None); [by vm_compute|].
  assert (E : d_subscribers (doc watched_host) = [0%nat]) by by vm_compute. rewrite E.
  intros j ->%list_elem_of_singleton. split; [vm_compute; lia|by vm_compute].
Defined.
