(* ===== verification/Sync.v ===== *)
(** * Sync: the host, its subscribers' pumps, the link and a client's replica, run together

    Composes [HostDoc], [Subscriber] and [Mirror].  A step is one lock section of the host, one step of a pump, a
    frame handed to the client, a call of the client on its own replica, or a restart of the host.  The frames ever
    sent stay available: the link may lose, repeat, delay and reorder them, across connections and
    restarts.  [hist] records what the document was at each version, for the theorems only. *)

From stdpp Require Import gmap.
From S2P Require Import Prelude Bytes Message Document Cells Liveness Verbs Ladder Mirror Frames Subscriber HostDoc.

(** ** The system *)

Record Sys : Type := mkSys {
  host : Host;
  hist : list (RawUuid * Z * HostWorkspaceState);
  sent : list WireMessage;
  replica : WorkspaceMirror;
}.

Inductive Step : Type :=
| YHost (st : HostStep)
| YPump (i : nat) (link_up : bool)
| YDeliver (k : nat)
| YClient (c : Call)
| YRestart (epoch : RawUuid) (restored : HostWorkspaceState).

Definition published (d : WorkspaceDocument) : RawUuid * Z * HostWorkspaceState := (d_epoch d, d_state_num d, d_state d).
Definition host_new (e : RawUuid) (s : HostWorkspaceState) : Host := mkHost (install (doc_new e) s false true) [] ∅.
Definition sys_new (e : RawUuid) (s : HostWorkspaceState) : Sys :=
  mkSys (host_new e s) [(e, 1, s)] [] mirror_new.

Definition hand_over (m : WorkspaceMirror) (msg : WireMessage) : WorkspaceMirror :=
  match msg with WorkspaceEvent k e base new payload => (apply m k e base new payload).1 | _ => m end.

(** A restart mints an epoch never used before. *)
Definition sys_step (y : Sys) (st : Step) : Sys :=
  match st with
  | YHost st =>
      let h := host_step (host y) st in
      mkSys h (if decide (published (doc h) = published (doc (host y))) then hist y else hist y ++ [published (doc h)])
        (sent y) (replica y)
  | YPump i link_up =>
      match cells (host y) !! i with
      | Some (s, pc) =>
          match pump_step s pc link_up with
          | Some (s', pc', out) =>
              mkSys (with_cells (host y) (<[i := (s', pc')]> (cells (host y)))) (hist y) (sent y ++ out) (replica y)
          | None => y
          end
      | None => y
      end
  | YDeliver k => mkSys (host y) (hist y) (sent y) (match sent y !! k with Some msg => hand_over (replica y) msg | None => replica y end)
  | YClient (CFrame _ _ _ _ _) => y
  | YClient c => mkSys (host y) (hist y) (sent y) (call (replica y) c)
  | YRestart e s =>
      if decide (e ∈ map (fun v => v.1.1) (hist y)) then y
      else mkSys (host_new e s) (hist y ++ [(e, 1, s)]) (sent y) (replica y)
  end.

Definition sys_run (y : Sys) (steps : list Step) : Sys := foldl sys_step y steps.

(** The documents the host is given fit the wire: at most 65,536 cells, each value within its limit. *)
Definition within_limits (st : Step) : Prop :=
  match st with YHost (HReplace s) | YRestart _ s => state_ok s | _ => True end.

(** ** Invariant *)

Definition at_version (y : Sys) (e : RawUuid) (n : Z) (s : HostWorkspaceState) : Prop := (e, n, s) ∈ hist y.

Definition held_version (y : Sys) (m : WorkspaceMirror) : Prop :=
  match Mirror.epoch m with
  | None => Mirror.state_num m = 0 /\ mirror_entries m = ∅
  | Some e => Mirror.state_num m = 0 /\ mirror_entries m = ∅ \/ at_version y e (Mirror.state_num m) (mirror_entries m)
  end.

Record sys_ok (y : Sys) (steps : Z) : Prop := {
  yo_doc : published (doc (host y)) ∈ hist y;
  yo_num : 1 <= d_state_num (doc (host y)) <= steps + 1;
  yo_last : forall e n s, at_version y e n s -> e = d_epoch (doc (host y)) -> n <= d_state_num (doc (host y));
  yo_pos : forall e n s, at_version y e n s -> 1 <= n /\ state_ok s;
  yo_fun : forall e n s s', at_version y e n s -> at_version y e n s' -> s = s';
  yo_cells : Forall (fun c => sub_ok (d_epoch (doc (host y))) (at_version y (d_epoch (doc (host y)))) c.1 c.2 steps) (cells (host y));
  yo_sent : Forall (fun msg => exists e, describes e (at_version y e) msg) (sent y);
  yo_replica : held_version y (replica y);
}.

Lemma describes_mono e (P Q : Z -> HostWorkspaceState -> Prop) msg :
  (forall n s, P n s -> Q n s) -> describes e P msg -> describes e Q msg.
Proof. intros H []; econstructor; eauto. Qed.

Section Mono.
Context (E : RawUuid) (P Q : Z -> HostWorkspaceState -> Prop) (HPQ : forall n s, P n s -> Q n s).

Lemma offer_mono o : offer_ok E P o -> offer_ok E Q o.
Proof. intros []. split; auto. Qed.

Lemma pc_mono pc : pc_ok E P pc -> pc_ok E Q pc.
Proof.
  assert (Hd : forall l, Forall (describes E P) l -> Forall (describes E Q) l)
    by (intros l Hl; eapply Forall_impl; [exact Hl|]; intros; by eapply describes_mono).
  pose proof offer_mono as Ho.
  assert (Hp : forall pl, planned_ok P pl -> planned_ok Q pl) by (intros []; cbn; [done..|intros []; auto]).
  destruct pc; cbn; try done; try (intros [? ?]; split); eauto.
Qed.

Lemma sub_mono s pc n : sub_ok E P s pc n -> sub_ok E Q s pc n.
Proof.
  intros [Hl Hs Ho Hp]. constructor; [|done| |by apply pc_mono].
  - destruct (closed s); [done|]. destruct Hl as (sp & Hr & [Hw Hb]). exists sp. split; [done|].
    constructor; [|auto]. eapply Forall_impl; [exact Hw|]. auto.
  - intros o H. by apply offer_mono, Ho.
Qed.
End Mono.

(** ** The host's sections keep it *)

Lemma cells_at h i f : cells (at_cell h i f) = alter (prod_map f id) i (cells h).
Proof. done. Qed.
Lemma doc_at h i f : doc (at_cell h i f) = doc h.
Proof. done. Qed.

(** Inputs at any subscribers, delivered one after the other. *)
Lemma inputs_ok E P n (f : nat -> Input) l : forall h,
  0 <= n -> n + 1 < NO_SLOT -> Forall (fun c => sub_ok E P c.1 c.2 n) (cells h) ->
  (forall i, match f i with IState o => offer_ok E P o | _ => True end) ->
  let h' := foldl (fun h i => at_cell h i (fun s => input s (f i))) h l in
  doc h' = doc h /\ Forall (fun c => sub_ok E P c.1 c.2 n) (cells h').
Proof.
  induction l as [|i l IH]; intros h H0 Hlt Hc Hf; [done|]. cbn [foldl].
  apply (IH (at_cell h i (fun s => input s (f i)))); [done..| |done]. rewrite cells_at.
  apply Forall_alter; [done|]. intros [s pc] _ Hs. apply input_ok; [done..|apply Hf].
Qed.

Lemma offers_ok E P n h l :
  0 <= n -> n + 1 < NO_SLOT -> Forall (fun c => sub_ok E P c.1 c.2 n) (cells h) -> offer_ok E P (current_offer (doc h)) ->
  doc (offer_all h l) = doc h /\ Forall (fun c => sub_ok E P c.1 c.2 n) (cells (offer_all h l)).
Proof.
  intros H0 Hlt Hc Ho. unfold offer_all.
  assert (Hg : forall l h0, doc h0 = doc h ->
    foldl (fun h i => at_cell h i (fun s => deliver_state s (current_offer (doc h)))) h0 l =
    foldl (fun h' i => at_cell h' i (fun s => input s (IState (current_offer (doc h))))) h0 l).
  { clear. induction l as [|i l IH]; intros h0 E0; [done|]. cbn [foldl]. rewrite IH by done. by rewrite E0. }
  rewrite Hg by done. by apply (inputs_ok E P n (fun _ => IState (current_offer (doc h)))).
Qed.

Lemma sys_ok_le y n n' : sys_ok y n -> n <= n' -> sys_ok y n'.
Proof.
  intros [] H. constructor; try done; [lia|]. eapply Forall_impl; [exact yo_cells0|]. intros c Hc. eapply sub_ok_le; [exact Hc|lia].
Qed.

(** Steps that publish nothing. *)
Lemma keep_ok y h n n' :
  sys_ok y n -> n <= n' -> published (doc h) = published (doc (host y)) ->
  Forall (fun c => sub_ok (d_epoch (doc (host y))) (at_version y (d_epoch (doc (host y)))) c.1 c.2 n') (cells h) ->
  sys_ok (mkSys h (hist y) (sent y) (replica y)) n'.
Proof.
  intros [] Hn Hd Hc. unfold published in *. injection Hd as E1 E2 E3.
  constructor; cbn; rewrite ?E1, ?E2, ?E3; unfold published; rewrite ?E1, ?E2, ?E3; done || lia.
Qed.

(** A new version. *)
Lemma publish_ok y h n d :
  sys_ok y n -> published (doc h) = d -> d.1.1 = d_epoch (doc (host y)) -> d.1.2 = d_state_num (doc (host y)) + 1 -> state_ok d.2 ->
  Forall (fun c => sub_ok d.1.1 (at_version (mkSys h (hist y ++ [d]) (sent y) (replica y)) d.1.1) c.1 c.2 n) (cells h) ->
  sys_ok (mkSys h (hist y ++ [d]) (sent y) (replica y)) (n + 1).
Proof.
  intros [] Hd He Hn Hok Hc. destruct d as [ [e m] s]. cbn in *. subst m. unfold published in Hd. injection Hd as E1 E2 E3.
  assert (Hin : forall e' m' s', (e', m', s') ∈ hist y ++ [(e, d_state_num (doc (host y)) + 1, s)] <->
    (e', m', s') ∈ hist y \/ e' = e /\ m' = d_state_num (doc (host y)) + 1 /\ s' = s).
  { intros e' m' s'. rewrite elem_of_app, list_elem_of_singleton. naive_solver. }
  constructor; unfold at_version; cbn.
  - unfold published. rewrite E1, E2, E3. apply Hin. naive_solver.
  - rewrite E2. lia.
  - rewrite E1, E2. intros e' m' s' [H|(-> & -> & ->)]%Hin He'; [|lia]. specialize (yo_last0 _ _ _ H ltac:(congruence)). lia.
  - intros e' m' s' [H|(-> & -> & ->)]%Hin; [by eapply yo_pos0|]. split; [lia|done].
  - intros e' m' s1 s2 [H1|(-> & -> & ->)]%Hin [H2|(? & ? & ?)]%Hin; subst; try done; [by eapply yo_fun0| |];
      exfalso; [specialize (yo_last0 _ _ _ H1 ltac:(congruence))|specialize (yo_last0 _ _ _ H2 ltac:(congruence))]; lia.
  - rewrite E1. eapply Forall_impl; [exact Hc|]. intros c Hs. eapply sub_ok_le; [exact Hs|lia].
  - eapply Forall_impl; [exact yo_sent0|]. intros msg [e' Hm]. exists e'. eapply describes_mono; [|exact Hm].
    intros m' s' H. apply Hin. by left.
  - unfold held_version in *. destruct (Mirror.epoch (replica y)); [|done]. destruct yo_replica0; [by left|right].
    apply Hin. by left.
Qed.

Lemma host_step_ok y n st :
  sys_ok y n -> 0 <= n -> n + 1 < NO_SLOT -> within_limits (YHost st) -> sys_ok (sys_step y (YHost st)) (n + 1).
Proof.
  intros Hy H0 Hlt Hw. pose proof Hy as []. set (E := d_epoch (doc (host y))) in *. cbn [sys_step].
  assert (Hkeep : forall h, published (doc h) = published (doc (host y)) ->
    Forall (fun c => sub_ok E (at_version y E) c.1 c.2 n) (cells h) ->
    sys_ok (mkSys h (if decide (published (doc h) = published (doc (host y))) then hist y else hist y ++ [published (doc h)])
      (sent y) (replica y)) (n + 1)).
  { intros h Hd Hc. rewrite decide_True by done. eapply sys_ok_le; [apply (keep_ok y h n n); done|lia]. }
  destruct st as [next|i inp|i|l|p r k|c id req|m]; cbn [host_step]; try (by apply Hkeep).
  - unfold mutate. case_decide as Hsame; [by apply Hkeep|]. cbn [fst]. unfold replace_state, bump.
    set (d' := with_state (doc (host y)) (d_state_num (doc (host y)) + 1) next).
    assert (Hmin : Z.min (d_state_num (doc (host y)) + 1) i64_max = d_state_num (doc (host y)) + 1)
      by (unfold NO_SLOT, u32_max, i64_max in *; lia).
    cbn [doc with_doc d_state_num d_state with_state d_subscribers with_cells cells]. rewrite Hmin.
    change (with_state (with_state (doc (host y)) (d_state_num (doc (host y))) next) (d_state_num (doc (host y)) + 1) next) with d'.
    set (h0 := with_doc (with_doc (host y) _) d').
    assert (Hne : published d' <> published (doc (host y))) by (unfold published; cbn; intros [= H _]; lia).
    destruct (offers_ok E (at_version (mkSys (host y) (hist y ++ [published d']) (sent y) (replica y)) E) n h0
      (d_subscribers (doc (host y)))) as [Hd Hc]; [lia|done| | |].
    + eapply Forall_impl; [exact yo_cells0|]. intros c Hs. eapply sub_mono; [|exact Hs].
      intros m s H. unfold at_version. cbn. apply elem_of_app. by left.
    + split; [done|]. unfold at_version. cbn. apply elem_of_app. right. by apply list_elem_of_singleton.
    + rewrite Hd. rewrite decide_False by done. apply (publish_ok y _ n (published d')); try done. by rewrite Hd.
  - destruct inp; try (by apply Hkeep);
      (apply Hkeep; [done|]; rewrite cells_at; apply Forall_alter; [done|]; intros [s pc] _ Hs; by apply input_ok).
  - destruct (offers_ok E (at_version y E) n (host y) [i]) as [Hd Hc]; [lia|done|done|by split|].
    apply Hkeep; [by rewrite Hd|done].
  - apply Hkeep; [done|]. unfold enrol. destruct (start (subscriber_new id req)) as [s b] eqn:Es. cbn.
    unfold start in Es. cbn in Es. injection Es as <- <-. cbn. apply Forall_app. split; [done|]. apply Forall_singleton. cbn.
    eapply quiet_sub_ok; [by apply (subscriber_new_ok E (at_version y E) id req)|done..].
Qed.

(** ** The replica *)

Lemma held_same y m m' :
  Mirror.epoch m' = Mirror.epoch m -> Mirror.state_num m' = Mirror.state_num m -> mirror_entries m' = mirror_entries m ->
  held_version y m -> held_version y m'.
Proof. unfold held_version. by intros -> -> ->. Qed.

Lemma hand_over_ok y n m msg :
  sys_ok y n -> held_version y m -> (exists e, describes e (at_version y e) msg) -> held_version y (hand_over m msg).
Proof.
  intros [] Hm [e Hd]. destruct Hd as [k s Hs|k s b base Hs Hb Hne| |e' p|e' p]; unfold event, hand_over.
  - destruct (snapshot_lands m e k s) as (_ & E1 & E2 & E3); [by eapply yo_pos0|]. unfold held_version. rewrite E1, E2, E3. by right.
  - destruct (decide (Mirror.epoch m = Some e)) as [He|He]; [|by rewrite diff_refused by auto].
    destruct (decide (b = Mirror.state_num m)) as [Hbm|Hbm]; [|by rewrite diff_refused by auto].
    destruct (Z.leb_spec k (Mirror.state_num m)) as [Hk|Hk]; [by rewrite diff_refused by auto|].
    unfold held_version in Hm. rewrite He in Hm. destruct Hm as [ [Hz _]|Hm]; [lia|].
    rewrite <- Hbm in Hm. assert (base = mirror_entries m) as Hbase by by eapply yo_fun0.
    destruct (diff_lands m e b base k s) as (_ & E1 & E2 & E3); try done; [by eapply yo_pos0..|lia|].
    unfold held_version. rewrite E1, E2, E3. by right.
  - unfold apply. rewrite kind_read. by left.
  - unfold apply. by rewrite kind_read.
  - unfold apply. by rewrite kind_read.
Qed.

Lemma call_keeps_version y m c : match c with CFrame _ _ _ _ _ => False | _ => True end -> held_version y m -> held_version y (call m c).
Proof.
  intros Hc Hm. destruct c; cbn in *; try done; eapply held_same; try exact Hm; try done;
    unfold write_fast_path, note_intent_result, expire_pending, drop_pending; by repeat case_match.
Qed.

Lemma held_kept y h s' m : held_version y m -> held_version (mkSys h (hist y) s' m) m.
Proof. done. Qed.

Lemma sys_step_ok y n st :
  sys_ok y n -> 0 <= n -> n + 1 < NO_SLOT -> within_limits st -> sys_ok (sys_step y st) (n + 1).
Proof.
  intros Hy H0 Hlt Hw. pose proof Hy as []. assert (Hnext : sys_ok y (n + 1)) by (eapply sys_ok_le; [done|lia]).
  destruct st as [st|i link|k|c|e s]; [by apply host_step_ok| | | |]; cbn [sys_step].
  - destruct (cells (host y) !! i) as [ [s pc]|] eqn:Ei; [|done].
    destruct (pump_step s pc link) as [ [ [s' pc'] out]|] eqn:Ep; [|done].
    assert (Hs : sub_ok (d_epoch (doc (host y))) (at_version y (d_epoch (doc (host y)))) s pc n)
      by (by apply (proj1 (Forall_lookup _ _) yo_cells0 i (s, pc))).
    destruct (step_ok _ _ s pc link s' pc' out n Hs) as [H1 H2]; [lia|done|done|].
    constructor; try done; cbn; [lia| |].
    + apply Forall_insert; [|done]. eapply Forall_impl; [exact yo_cells0|]. intros c Hc. eapply sub_ok_le; [exact Hc|lia].
    + apply Forall_app. split; [done|]. eapply Forall_impl; [exact H2|]. intros msg Hm. by eexists.
  - destruct (sent y !! k) as [msg|] eqn:Ek; [|by destruct Hnext]. destruct Hnext. constructor; try done. cbn.
    apply (hand_over_ok y n); [done|done|]. by apply (proj1 (Forall_lookup _ _) yo_sent0 k msg).
  - destruct c; try done; destruct Hnext; (constructor; try done); cbn [replica]; by apply (call_keeps_version y).
  - case_decide as He; [done|].
    assert (Hnew : forall e' m s', at_version y e' m s' -> e' <> e).
    { intros e' m s' Hin ->. apply He. by apply (list_elem_of_fmap_2 (fun v => v.1.1) (hist y) (e, m, s')). }
    assert (Hin : forall e' m s', (e', m, s') ∈ hist y ++ [(e, 1, s)] <-> at_version y e' m s' \/ e' = e /\ m = 1 /\ s' = s).
    { intros. rewrite elem_of_app, list_elem_of_singleton. unfold at_version. naive_solver. }
    constructor; unfold at_version; cbn.
    + apply Hin. by right.
    + lia.
    + intros e' m s' [H|(-> & -> & ->)]%Hin E; [by apply Hnew in H|lia].
    + intros e' m s' [H|(-> & -> & ->)]%Hin; [by eapply yo_pos0|]. by split.
    + intros e' m s1 s2 [H1|(-> & -> & ->)]%Hin [H2|(? & ? & ?)]%Hin; subst; try done;
        [by eapply yo_fun0|by apply Hnew in H1|by apply Hnew in H2].
    + constructor.
    + eapply Forall_impl; [exact yo_sent0|]. intros msg [e' Hm]. exists e'. eapply describes_mono; [|exact Hm].
      intros m' s' H. apply Hin. by left.
    + unfold held_version in *. destruct (Mirror.epoch (replica y)); [|done]. destruct yo_replica0; [by left|right].
      apply Hin. by left.
Qed.

Lemma sys_run_ok steps : forall y n,
  sys_ok y n -> 0 <= n -> n + Z.of_nat (length steps) < NO_SLOT -> Forall within_limits steps ->
  sys_ok (sys_run y steps) (n + Z.of_nat (length steps)).
Proof.
  induction steps as [|st steps IH]; intros y n Hy H0 Hlt Hw; cbn [length] in *; [by rewrite Z.add_0_r|].
  inversion_clear Hw. change (sys_run y (st :: steps)) with (sys_run (sys_step y st) steps).
  replace (n + Z.of_nat (S (length steps))) with (n + 1 + Z.of_nat (length steps)) by lia.
  apply IH; [apply sys_step_ok; done || lia|lia|lia|done].
Qed.

Lemma sys_new_ok e s : state_ok s -> sys_ok (sys_new e s) 0.
Proof.
  intros Hs. constructor; unfold at_version; cbn; try done; try setoid_rewrite list_elem_of_singleton.
  - done.
  - intros e' n s' [= -> -> ->] _. done.
  - intros e' n s' [= -> -> ->]. done.
  - intros e' n s1 s2 [= -> -> ->] [= ->]. done.
Qed.

(** ** Safety *)

(** C33: A client never shows a workspace the host did not have.  Whatever subscribers come and go, whatever they
    acknowledge or claim to know, wherever their pumps stand, however the frames ever sent are lost, repeated,
    delayed and reordered, across reconnections and restarts of the host: a replica with an epoch holds, cell
    for cell, the document the host of that epoch had at the version the replica names (or nothing, at
    version 0), and one version of one epoch is one document. *)
Theorem replica_is_host_history (e : RawUuid) (s : HostWorkspaceState) (steps : list Step) :
  state_ok s -> Forall within_limits steps -> Z.of_nat (length steps) < NO_SLOT ->
  let y := sys_run (sys_new e s) steps in
  match Mirror.epoch (replica y) with
  | None => Mirror.state_num (replica y) = 0 /\ mirror_entries (replica y) = ∅
  | Some e => Mirror.state_num (replica y) = 0 /\ mirror_entries (replica y) = ∅ \/
              (e, Mirror.state_num (replica y), mirror_entries (replica y)) ∈ hist y
  end /\
  published (doc (host y)) ∈ hist y /\
  (forall e n s s', (e, n, s) ∈ hist y -> (e, n, s') ∈ hist y -> s = s').
Proof.
  intros Hs Hw Hlt y. destruct (sys_run_ok steps (sys_new e s) 0 (sys_new_ok e s Hs)) as []; try done.
Qed.

Definition doc_one : HostWorkspaceState := {[cell_a := [byte_of_Z 1]]}.
Definition doc_two : HostWorkspaceState := {[cell_a := [byte_of_Z 2]; cell_b := []]}.
Lemma doc_one_ok : state_ok doc_one.
Proof. apply state_ok_small; [|by vm_compute]. apply map_Forall_singleton. split; [done|by vm_compute]. Qed.
Lemma doc_two_ok : state_ok doc_two.
Proof.
  apply state_ok_small; [|by vm_compute]. apply map_Forall_insert; [by vm_compute|]. split; [split; [done|by vm_compute]|].
  apply map_Forall_singleton. split; [done|by vm_compute].
Qed.
Definition a_request : WorkspaceSubscribe := mkSubscribe (id_of 7) (byte_of_Z 0) zero_uuid 0 (byte_of_Z 1) mac_text.

(** A snapshot, its acknowledgement, a change, the diff delivered before and after it is old, and a restart. *)
Definition a_life : list Step :=
  [YHost (HEnrol (id_of 1) (id_of 2) a_request); YHost (HSubscribers [0%nat]); YHost (HOffer 0)] ++
  replicate 7 (YPump 0 true) ++
  [YDeliver 0; YHost (HInput 0 (IAck 1)); YHost (HReplace doc_two)] ++ replicate 10 (YPump 0 true) ++
  [YDeliver 1; YDeliver 1].

Lemma replica_is_host_history_witness :
  mirror_entries (replica (sys_run (sys_new epoch_a doc_one) a_life)) = doc_two /\
  Mirror.state_num (replica (sys_run (sys_new epoch_a doc_one) a_life)) = 2 /\
  mirror_entries (replica (sys_run (sys_new epoch_a doc_one) (a_life ++ [YDeliver 0; YRestart (id_of 9) ∅; YDeliver 1]))) = doc_two /\
  (forall n s s', (epoch_a, n, s) ∈ hist (sys_run (sys_new epoch_a doc_one) a_life) ->
     (epoch_a, n, s') ∈ hist (sys_run (sys_new epoch_a doc_one) a_life) -> s = s').
Proof.
  split; [refine (bool_decide_unpack _ _); by vm_compute|]. split; [by vm_compute|].
  split; [refine (bool_decide_unpack _ _); by vm_compute|].
  destruct (replica_is_host_history epoch_a doc_one a_life doc_one_ok) as (_ & _ & H); [|by vm_compute|exact (H epoch_a)].
  unfold a_life. cbn [app replicate].
  repeat first [exact doc_two_ok | exact I | apply Forall_nil | apply Forall_cons; split].
Defined.
