(* ===== verification/Converge.v ===== *)
(** * Converge: one subscriber and one client over an honest link

    The pump of [Subscriber] against the replica of [Mirror] when the link is a lossless queue each way and the
    client acknowledges every frame it applies.  The document may change at any time; the answers and the
    roster may come at any time.  What the model shows is where the protocol ends: the client shows the host's
    document, unless an offer fell between the pump's look at the inbox and its claim. *)

From stdpp Require Import gmap.
From S2P Require Import Prelude Bytes Message Document Cells Verbs Ladder Mirror Frames Subscriber.

(** ** The link *)

Record Link : Type := mkLink {
  l_num : Z;
  l_state : HostWorkspaceState;
  l_sub : Subscriber;
  l_pc : Pc;
  l_down : list WireMessage;
  l_up : list Z;
  l_mirror : WorkspaceMirror;
}.

Inductive LStep : Type :=
| LPublish (s : HostWorkspaceState)
| LInput (inp : Input)
| LPump
| LReceive
| LAck.

(** The client acknowledges what it applied and says nothing of anything else. *)
Definition receive (m : WorkspaceMirror) (msg : WireMessage) : WorkspaceMirror * list Z :=
  match msg with
  | WorkspaceEvent k e base new payload =>
      let '(m, outcome) := apply m k e base new payload in
      (m, match outcome with Mirror.Applied n => [n] | _ => [] end)
  | _ => (m, [])
  end.

Section Link.
Variable E : RawUuid.

Definition offer_of (n : Z) (s : HostWorkspaceState) : Offer := mkOffer E n s.

(** A client with any replica has just subscribed to a document at version [n]. *)
Definition link_start (n : Z) (s : HostWorkspaceState) (id : RawUuid) (request : WorkspaceSubscribe) (m : WorkspaceMirror) : Link :=
  mkLink n s (deliver_state (start (subscriber_new id request)).1 (offer_of n s)) Parked [] [] m.

Definition l_step (l : Link) (st : LStep) : Link :=
  match st with
  | LPublish s =>
      if decide (s = l_state l) then l
      else mkLink (l_num l + 1) s (deliver_state (l_sub l) (offer_of (l_num l + 1) s)) (l_pc l) (l_down l) (l_up l) (l_mirror l)
  | LInput ((IRoster _ | IResult _ | IPresence _) as inp) =>
      mkLink (l_num l) (l_state l) (input (l_sub l) inp) (l_pc l) (l_down l) (l_up l) (l_mirror l)
  | LInput _ => l
  | LPump =>
      match pump_step (l_sub l) (l_pc l) true with
      | Some (s, pc, out) => mkLink (l_num l) (l_state l) s pc (l_down l ++ out) (l_up l) (l_mirror l)
      | None => l
      end
  | LReceive =>
      match l_down l with
      | msg :: rest =>
          let '(m, acks) := receive (l_mirror l) msg in mkLink (l_num l) (l_state l) (l_sub l) (l_pc l) rest (l_up l ++ acks) m
      | [] => l
      end
  | LAck =>
      match l_up l with
      | n :: rest => mkLink (l_num l) (l_state l) (sub_note_ack (l_sub l) n) (l_pc l) (l_down l) rest (l_mirror l)
      | [] => l
      end
  end.

Definition l_run (l : Link) (steps : list LStep) : Link := foldl l_step l steps.

(** The offer the pump looked at and has not claimed. *)
Definition looking (pc : Pc) : option Offer :=
  match pc with
  | Resubscribing _ ib | Acking ib | Loosening ib => ib_offer ib
  | Answering _ _ offer => offer
  | Planning o _ | Claiming o _ => Some o
  | _ => None
  end.

(** No document is published while the pump holds an offer it has not claimed; documents fit the wire. *)
Fixpoint calm (l : Link) (steps : list LStep) : Prop :=
  match steps with
  | [] => True
  | st :: rest =>
      match st with LPublish s => looking (l_pc l) = None /\ state_ok s | _ => True end /\ calm (l_step l st) rest
  end.

(** Nothing moves any more: the pump waits and both queues are empty. *)
Definition at_rest (l : Link) : Prop :=
  l_pc l = Parked /\ has_work (l_sub l) = false /\ closed (l_sub l) = false /\ l_down l = [] /\ l_up l = [].

(** ** Invariant *)

Definition shows (m : WorkspaceMirror) (n : Z) (s : HostWorkspaceState) : Prop :=
  Mirror.epoch m = Some E /\ Mirror.state_num m = n /\ mirror_entries m = s.

(** A frame that takes the replica to version [n]. *)
Inductive carried (m : WorkspaceMirror) (n : Z) (s : HostWorkspaceState) : WireMessage -> Prop :=
| CSnapshot : carried m n s (event KSnapshot E 0 n (encode_snapshot s))
| CDiff b base : shows m b base -> state_ok base -> b < n -> carried m n s (event KDiff E b n (encode_diff (diff_from s base))).

Inductive loose : WireMessage -> Prop :=
| LoosePresence e p : loose (event KPresence e 0 0 p)
| LooseResult e p : loose (event KIntentResult e 0 0 p).

(** Where the one frame in flight is: on its way, applied with its acknowledgement on its way, or acknowledged. *)
Inductive token (down : list WireMessage) (up : list Z) (ack : option Z) (m : WorkspaceMirror) (n : Z) (s : HostWorkspaceState) : Prop :=
| TDown pre f post : down = pre ++ f :: post -> Forall loose pre -> Forall loose post -> carried m n s f -> up = [] -> ack = None ->
    token down up ack m n s
| TUp : Forall loose down -> shows m n s -> up = [n] -> ack = None -> token down up ack m n s
| TNoted : Forall loose down -> shows m n s -> up = [] -> ack = Some n -> token down up ack m n s.
Definition no_token (down : list WireMessage) (up : list Z) (ack : option Z) : Prop := Forall loose down /\ up = [] /\ ack = None.

Inductive Stage : Type := Fresh | Settled (n : Z) (s : HostWorkspaceState) | Flying (n : Z) (s : HostWorkspaceState).

Definition in_stage (sp : Spec HostWorkspaceState) (st : Stage) : Prop :=
  match st with
  | Fresh => s_window sp = [] /\ s_base sp = None /\ s_outstanding sp = None
  | Settled n s => s_window sp = [] /\ s_base sp = Some s /\ s_acked sp = n /\ s_outstanding sp = None /\ s_needs sp = false
  | Flying n s => s_window sp = [(n, s)] /\ s_outstanding sp = Some n /\ s_needs sp = false
  end.

Definition version_ok (l : Link) (n : Z) (s : HostWorkspaceState) : Prop :=
  1 <= n <= l_num l /\ (n = l_num l -> s = l_state l) /\ state_ok s.

Definition flight_ok (l : Link) (sp : Spec HostWorkspaceState) (st : Stage) : Prop :=
  match l_pc l, st with
  | Committing o, Flying _ _ => False
  | Committing o, _ => token (l_down l) (l_up l) (s_ack sp) (l_mirror l) (o_state_num o) (o_state o)
  | _, Flying n s => token (l_down l) (l_up l) (s_ack sp) (l_mirror l) n s
  | _, Fresh => no_token (l_down l) (l_up l) (s_ack sp)
  | _, Settled n s => no_token (l_down l) (l_up l) (s_ack sp) /\ shows (l_mirror l) n s
  end.

Definition pc_fits (l : Link) (st : Stage) : Prop :=
  match l_pc l with
  | Idle | Closing | Stopping | Resubscribing _ _ => False
  | Parked | Draining | Acking _ | Loosening _ | Planning _ _ => True
  | Answering ev _ _ => Forall loose ev /\ ev <> []
  | Claiming o planned =>
      match st with
      | Fresh => planned = PSnapshot false
      | Settled b base => planned = PDiff b base
      | Flying _ _ => False
      end
  | Shipping frames o =>
      match st with
      | Flying _ _ => False
      | _ => exists f, frames = [f] /\ carried (l_mirror l) (o_state_num o) (o_state o) f /\ version_ok l (o_state_num o) (o_state o)
      end
  | Committing o => version_ok l (o_state_num o) (o_state o)
  end.

Definition stage_version (l : Link) (st : Stage) : Prop :=
  match st with Fresh => True | Settled n s | Flying n s => version_ok l n s end.

(** With no offer pending, the document is on its way or already there. *)
Definition covered (l : Link) (st : Stage) : Prop :=
  match l_pc l with
  | Shipping _ o | Committing o => o_state o = l_state l
  | _ => match st with Fresh => False | Settled _ s | Flying _ s => s = l_state l end
  end.

Record link_inv (l : Link) (count : Z) (sp : Spec HostWorkspaceState) (st : Stage) : Prop := {
  li_refines : refines (retention (l_sub l)) sp;
  li_epoch : s_epoch sp = None \/ s_epoch sp = Some E;
  li_slot : next_slot (ladder (retention (l_sub l))) <= count;
  li_open : closed (l_sub l) = false;
  li_subscribe : pending_subscribe (l_sub l) = None;
  li_stage : in_stage sp st;
  li_flight : flight_ok l sp st;
  li_pc : pc_fits l st;
  li_version : stage_version l st;
  li_looking : forall o, looking (l_pc l) = Some o -> pending_state (l_sub l) = Some o;
  li_pending : forall o, pending_state (l_sub l) = Some o -> o = offer_of (l_num l) (l_state l);
  li_covered : pending_state (l_sub l) = None -> covered l st;
  li_num : 1 <= l_num l;
  li_state : state_ok (l_state l);
}.
Definition link_ok (l : Link) (count : Z) : Prop := exists sp st, link_inv l count sp st.

(** ** Frames arriving *)

Lemma receive_loose m msg : loose msg -> receive m msg = (m, []).
Proof. intros []; cbn -[apply event_as_byte]; unfold apply; by rewrite kind_read. Qed.

Lemma receive_carried m n s msg : carried m n s msg -> state_ok s -> (receive m msg).2 = [n] /\ shows (receive m msg).1 n s.
Proof.
  intros Hc Hs. destruct Hc as [|b base (He & Hb & Hent) Hbase Hlt]; unfold event, receive.
  - destruct (snapshot_lands m E n s Hs) as (E1 & E2 & E3 & E4).
    destruct (apply m _ E 0 n _) as [m' o]. cbn in *. by subst o.
  - destruct (diff_lands m E b base n s Hs Hbase He Hb Hent Hlt) as (E1 & E2 & E3 & E4).
    destruct (apply m _ E b n _) as [m' o]. cbn in *. by subst o.
Qed.

Lemma loose_loose e ib : Forall loose (loose_events e ib).
Proof.
  unfold loose_events. apply Forall_app. split.
  - apply Forall_map, Forall_forall. intros r _. apply LooseResult.
  - destruct (ib_roster ib); [|done]. apply Forall_singleton, LoosePresence.
Qed.

Lemma token_append down up ack m n s msg : token down up ack m n s -> loose msg -> token (down ++ [msg]) up ack m n s.
Proof.
  intros Ht Hl. destruct Ht as [pre f post -> Hpre Hpost Hf -> ->|Hd Hs -> ->|Hd Hs -> ->].
  - eapply (TDown _ _ _ _ _ _ pre f (post ++ [msg])); try done; [by rewrite <- app_assoc|].
    apply Forall_app. split; [done|by apply Forall_singleton].
  - apply TUp; try done. apply Forall_app. split; [done|by apply Forall_singleton].
  - apply TNoted; try done. apply Forall_app. split; [done|by apply Forall_singleton].
Qed.
Lemma no_token_append down up ack msg : no_token down up ack -> loose msg -> no_token (down ++ [msg]) up ack.
Proof. intros (Hd & Hu & Ha) Hl. split_and!; try done. apply Forall_app. split; [done|by apply Forall_singleton]. Qed.

Lemma token_start down up ack m n s f : no_token down up ack -> carried m n s f -> token (down ++ [f]) up ack m n s.
Proof. intros (Hd & -> & ->) Hf. by eapply (TDown _ _ _ _ _ _ down f []). Qed.

(** A frame leaves the queue. *)
Lemma token_receive msg rest up ack m n s :
  token (msg :: rest) up ack m n s -> state_ok s ->
  token rest (up ++ (receive m msg).2) ack (receive m msg).1 n s.
Proof.
  intros Ht Hok. destruct Ht as [pre f post Hd Hpre Hpost Hf -> ->|Hd Hs -> ->|Hd Hs -> ->].
  - destruct pre as [|p pre]; injection Hd as -> ->.
    + destruct (receive_carried m n s f Hf Hok) as [E1 E2]. rewrite E1. by apply TUp.
    + inversion_clear Hpre as [|? ? Hp Hpre']. rewrite receive_loose by done. by eapply (TDown _ _ _ _ _ _ pre f post).
  - inversion_clear Hd. rewrite receive_loose by done. by apply TUp.
  - inversion_clear Hd. rewrite receive_loose by done. by apply TNoted.
Qed.

(** ** Every step keeps the invariant *)

Lemma inv_le l n n' sp st : link_inv l n sp st -> n <= n' -> link_inv l n' sp st.
Proof. intros [] ?. constructor; done || lia. Qed.

(** Another subscriber record with the same offers and a ladder in the same stage. *)
Lemma inv_sub l s n sp sp' st :
  link_inv l n sp st -> refines (retention s) sp' -> next_slot (ladder (retention s)) <= n ->
  s_epoch sp' = s_epoch sp -> s_window sp' = s_window sp -> s_base sp' = s_base sp -> s_acked sp' = s_acked sp ->
  s_outstanding sp' = s_outstanding sp -> s_needs sp' = s_needs sp -> s_ack sp' = s_ack sp ->
  closed s = false -> pending_subscribe s = None -> pending_state s = pending_state (l_sub l) ->
  link_inv (mkLink (l_num l) (l_state l) s (l_pc l) (l_down l) (l_up l) (l_mirror l)) n sp' st.
Proof.
  intros [] Hr Hn E1 E2 E3 E4 E5 E6 E7 Hc Hp Ho. constructor; cbn; try done; rewrite ?E1, ?Ho; try done.
  - destruct st; cbn in *; rewrite ?E2, ?E3, ?E4, ?E5, ?E6; done.
  - unfold flight_ok in *. cbn. by rewrite E7.
Qed.

Lemma publish_inv l n sp st s :
  link_inv l n sp st -> looking (l_pc l) = None -> state_ok s -> link_inv (l_step l (LPublish s)) n sp st.
Proof.
  intros Hi Hlook Hs. cbn. case_decide; [done|]. destruct Hi.
  assert (Hv : forall k d, version_ok l k d -> version_ok (mkLink (l_num l + 1) s (deliver_state (l_sub l) (offer_of (l_num l + 1) s))
    (l_pc l) (l_down l) (l_up l) (l_mirror l)) k d).
  { intros k d (H1 & H2 & H3). unfold version_ok. cbn. split_and!; [lia|lia|lia|done]. }
  unfold deliver_state in *. rewrite li_open0 in *. constructor; cbn; try done; try lia.
  - unfold pc_fits in *. cbn. destruct (l_pc l); try done; [|by apply Hv].
    destruct st; try done; destruct li_pc0 as (f & H1 & H2 & H3); exists f; split_and!; auto.
  - destruct st; cbn in *; auto.
  - by rewrite Hlook.
  - by intros o [= <-].
Qed.

Lemma input_inv l n sp st inp : link_inv l n sp st -> n + 1 < NO_SLOT -> link_inv (l_step l (LInput inp)) n sp st.
Proof.
  intros Hi Hlt. pose proof Hi as []. cbn [l_step]. destruct inp as [o|r|r|k|u|r| ]; cbn [input]; try done;
    unfold deliver_roster, deliver_result, sub_note_presence; rewrite li_open0.
  - by apply (inv_sub l _ n sp sp).
  - by apply (inv_sub l _ n sp sp).
  - destruct (ret_note_presence _ _) as [r b] eqn:Er. cbn.
    assert (Eq : r = (ret_op (retention (l_sub l)) (OPresence (presence_of u))).1) by (cbn; by rewrite Er).
    apply (inv_sub l _ n sp sp); try done; cbn; subst r.
    + by apply (op_refines _ _ (OPresence (presence_of u))); [|lia].
    + by rewrite op_keeps_slot.
Qed.

Lemma receive_inv l n sp st : link_inv l n sp st -> link_inv (l_step l LReceive) n sp st.
Proof.
  intros Hi. cbn. destruct (l_down l) as [|msg rest] eqn:Ed; [done|].
  destruct (receive (l_mirror l) msg) as [m acks] eqn:Er. destruct Hi.
  assert (Hno : no_token (msg :: rest) (l_up l) (s_ack sp) ->
    m = l_mirror l /\ no_token rest (l_up l ++ acks) (s_ack sp)).
  { intros (Hd & Hu & Ha). inversion_clear Hd. rewrite receive_loose in Er by done. injection Er as <- <-. split; [done|].
    split_and!; [done|by rewrite Hu|done]. }
  assert (Hto : forall k s, token (msg :: rest) (l_up l) (s_ack sp) (l_mirror l) k s -> state_ok s ->
    token rest (l_up l ++ acks) (s_ack sp) m k s).
  { intros k s Ht Hs. pose proof (token_receive msg rest _ _ _ k s Ht Hs) as H. by rewrite Er in H. }
  assert (Hm : match l_pc l, st with Committing _, _ | _, Flying _ _ => True | _, _ => m = l_mirror l end).
  { unfold flight_ok in li_flight0. rewrite Ed in li_flight0. destruct (l_pc l), st; try done; try (by apply Hno); by apply Hno, li_flight0. }
  constructor; try done; cbn.
  - unfold flight_ok in *. rewrite Ed in li_flight0. cbn. unfold pc_fits, stage_version, version_ok in *.
    destruct (l_pc l), st; try done; try (by apply Hno); try (by apply Hto; [|apply li_version0]);
      try (by apply Hto; [|apply li_pc0]);
      destruct li_flight0 as [H1 H2]; rewrite Hm; (split; [by apply Hno|done]).
  - unfold pc_fits in *. cbn. destruct (l_pc l); try done; destruct st; try done; by rewrite Hm.
Qed.

Lemma up_inv l n sp st :
  link_inv l n sp st -> n + 1 < NO_SLOT -> exists sp', link_inv (l_step l LAck) n sp' st.
Proof.
  intros Hi Hlt. cbn. destruct (l_up l) as [|k rest] eqn:Eu; [by exists sp|]. pose proof Hi as [].
  exists (spec_note_ack sp k). unfold sub_note_ack. rewrite li_open0.
  assert (Hno : no_token (l_down l) (k :: rest) (s_ack sp) -> False) by (by intros (_ & ? & _)).
  assert (Hto : forall j s, token (l_down l) (k :: rest) (s_ack sp) (l_mirror l) j s ->
    token (l_down l) rest (s_ack (spec_note_ack sp k)) (l_mirror l) j s).
  { intros j s Ht. destruct Ht as [|Hd Hs [= -> ->] Ha|]; [done| |done]. apply TNoted; try done. cbn. by rewrite Ha. }
  constructor; cbn; try done.
  - by apply note_ack_refines.
  - unfold flight_ok in *. cbn [l_pc l_down l_up l_mirror]. rewrite Eu in li_flight0.
    destruct (l_pc l), st; try done; try (by apply Hno in li_flight0); try (by apply Hto);
      destruct li_flight0 as [H1 H2]; by apply Hno in H1.
Qed.

(** *** The pump *)

Lemma apply_ack_stage l sp st :
  in_stage sp st -> flight_ok l sp st -> (match l_pc l with Committing _ => False | _ => True end) -> stage_version l st ->
  exists st', in_stage (spec_apply_pending_ack sp) st' /\ s_ack (spec_apply_pending_ack sp) = None /\
    s_epoch (spec_apply_pending_ack sp) = s_epoch sp /\
    (match st' with
     | Fresh => st = Fresh /\ no_token (l_down l) (l_up l) None
     | Settled n s => no_token (l_down l) (l_up l) None /\ shows (l_mirror l) n s /\ (st = Settled n s \/ st = Flying n s)
     | Flying n s => token (l_down l) (l_up l) None (l_mirror l) n s /\ st = Flying n s
     end).
Proof.
  intros Hst Hfl Hpc Hv. unfold flight_ok in Hfl. unfold spec_apply_pending_ack.
  assert (Hf : match st with Fresh => no_token (l_down l) (l_up l) (s_ack sp)
    | Settled n s => no_token (l_down l) (l_up l) (s_ack sp) /\ shows (l_mirror l) n s
    | Flying n s => token (l_down l) (l_up l) (s_ack sp) (l_mirror l) n s end)
    by (destruct (l_pc l); done || by destruct st). clear Hfl Hpc.
  destruct st as [|k s|k s].
  - pose proof Hf as (_ & _ & Ea). rewrite Ea in *. by exists Fresh.
  - pose proof Hf as ((_ & _ & Ea) & _). rewrite Ea in *. exists (Settled k s). destruct Hf. by auto 10.
  - destruct Hst as (Hw & Ho & Hn). destruct Hf as [pre f post Hd Hpre Hpost Hf Hu Ha|Hd Hs Hu Ha|Hd Hs Hu Ha]; rewrite Ha.
    + exists (Flying k s). split_and!; try done. by eapply (TDown _ _ _ _ _ _ pre f post).
    + exists (Flying k s). split_and!; try done. by apply TUp.
    + exists (Settled k s). rewrite Hw. unfold spec_find. cbn [list_find]. rewrite decide_True by done. cbn.
      rewrite decide_False by lia. rewrite decide_True by done.
      split_and!; try done. by right.
Qed.

Lemma plan_stage sp st o :
  in_stage sp st -> s_epoch sp = None \/ s_epoch sp = Some E -> o_epoch o = E ->
  (match st with Settled n _ => 1 <= n | _ => True end) ->
  let '(sp', planned) := spec_plan sp (o_epoch o) in
  in_stage sp' st /\ s_ack sp' = s_ack sp /\ (s_epoch sp' = None \/ s_epoch sp' = Some E) /\
  planned = match st with Fresh => PSnapshot false | Settled b base => PDiff b base | Flying _ _ => PHold end.
Proof.
  intros Hst He Ho Hn. unfold spec_plan. rewrite Ho.
  assert (Hreset : match s_epoch sp with Some sent => negb (bool_decide (sent = E)) | None => false end = false)
    by (destruct He as [->| ->]; [done|by rewrite bool_decide_eq_true_2]).
  destruct st as [|k s|k s].
  - destruct Hst as (Hw & Hb & Hou). rewrite Hou, Hreset. cbn. rewrite Hb. split_and!; auto.
  - destruct Hst as (Hw & Hb & Ha & Hou & Hne). rewrite Hou, Hreset. cbn. rewrite Hb, Ha, Hne. cbn.
    rewrite (proj2 (Z.eqb_neq k 0)) by lia. split_and!; auto.
  - pose proof Hst as (Hw & Hou & Hne). rewrite Hou. split_and!; auto.
Qed.

(** The pump moved without touching the ladder or the link. *)
Lemma inv_pc l s pc n sp st :
  link_inv l n sp st -> retention s = retention (l_sub l) -> closed s = false -> pending_subscribe s = None ->
  pending_state s = pending_state (l_sub l) -> (forall o, looking pc = Some o -> pending_state s = Some o) ->
  (match l_pc l with Shipping _ _ | Committing _ => False | _ => True end) ->
  (match pc with Shipping _ _ | Committing _ => False | _ => True end) ->
  let l' := mkLink (l_num l) (l_state l) s pc (l_down l) (l_up l) (l_mirror l) in pc_fits l' st -> link_inv l' n sp st.
Proof.
  intros [] Er Ec Es Ep Hlook Hpc Hpc' l' Hfits. constructor; unfold l'; cbn; rewrite ?Er, ?Ep; try done.
  - unfold flight_ok in *. cbn. destruct (l_pc l), pc, st; done.
  - intros o Ho. rewrite <- Ep. by apply Hlook.
  - intros Hn. specialize (li_covered0 Hn). unfold covered in *. cbn. destruct (l_pc l), pc, st; done.
Qed.

(** A loose message goes out. *)
Lemma inv_down l msg n sp st :
  link_inv l n sp st -> loose msg ->
  link_inv (mkLink (l_num l) (l_state l) (l_sub l) (l_pc l) (l_down l ++ [msg]) (l_up l) (l_mirror l)) n sp st.
Proof.
  intros [] Hl. constructor; cbn; try done. unfold flight_ok in *. cbn.
  destruct (l_pc l), st; try done; try (by apply no_token_append); try (by apply token_append);
    destruct li_flight0; (split; [by apply no_token_append|done]).
Qed.

Lemma answering_fits l s events did offer st :
  Forall loose events -> pc_fits (mkLink (l_num l) (l_state l) s (answering events did offer) (l_down l) (l_up l) (l_mirror l)) st.
Proof. intros H. destruct events; cbn; [|done]. destruct offer; [done|by destruct did]. Qed.
Lemma answering_quiet events did offer :
  looking (answering events did offer) = offer /\
  match answering events did offer with Shipping _ _ | Committing _ => False | _ => True end.
Proof. destruct events, offer, did; done. Qed.

Lemma pump_acking l n sp st ib :
  link_inv l n sp st -> n + 1 < NO_SLOT -> l_pc l = Acking ib -> exists sp' st', link_inv (l_step l LPump) n sp' st'.
Proof.
  intros Hi Hlt Hpc. pose proof Hi as []. destruct (apply_ack_stage l sp st) as (st' & H1 & H2 & H3 & H4); try done; [by rewrite Hpc|].
  exists (spec_apply_pending_ack sp), st'. cbn. rewrite Hpc. cbn. rewrite app_nil_r. unfold covered, flight_ok in *. rewrite Hpc in *.
  assert (Hv : stage_version l st') by (destruct st'; destruct_and?; naive_solver).
  constructor; cbn; try done.
  - by apply apply_ack_refines.
  - by rewrite H3.
  - pose proof (op_keeps_slot (retention (l_sub l)) OApplyAck I) as Hs. cbn in Hs. by rewrite Hs.
  - unfold flight_ok. cbn. rewrite H2. destruct st'; naive_solver.
  - intros Hn. specialize (li_covered0 Hn). unfold covered. cbn. destruct st'; naive_solver.
Qed.

Lemma pump_planning l n sp st o did :
  link_inv l n sp st -> n + 1 < NO_SLOT -> l_pc l = Planning o did -> exists sp' st', link_inv (l_step l LPump) n sp' st'.
Proof.
  intros Hi Hlt Hpc. pose proof Hi as []. pose proof (li_looking0 o) as Hl. rewrite Hpc in Hl. specialize (Hl eq_refl).
  assert (Ho : o_epoch o = E) by by rewrite (li_pending0 o Hl).
  assert (Hn1 : match st with Settled k _ => 1 <= k | _ => True end) by (destruct st; cbn in *; try done; apply li_version0).
  pose proof (plan_stage sp st o li_stage0 li_epoch0 Ho Hn1) as Hp. cbn. rewrite Hpc. cbn.
  pose proof (plan_refines _ sp (o_epoch o) li_refines0) as [Hr1 Hr2].
  pose proof (op_keeps_slot (retention (l_sub l)) (OPlan (o_epoch o)) I) as Hslot. cbn in Hslot.
  destruct (ret_plan (retention (l_sub l)) (o_epoch o)) as [r planned], (spec_plan sp (o_epoch o)) as [sp' planned'].
  cbn in *. subst planned'. destruct Hp as (H1 & H2 & H3 & ->). rewrite app_nil_r. exists sp', st.
  unfold flight_ok in li_flight0. unfold covered in li_covered0. rewrite Hpc in li_flight0, li_covered0.
  destruct st; constructor; cbn; try done; try (by rewrite Hslot); try (by intros ? [= <-]); unfold flight_ok, pc_fits, covered;
    cbn; rewrite ?H2; try done; by destruct did.
Qed.

Lemma pump_claiming l n sp st o planned :
  link_inv l n sp st -> l_pc l = Claiming o planned -> link_inv (l_step l LPump) n sp st.
Proof.
  intros Hi Hpc. pose proof Hi as []. pose proof (li_looking0 o) as Hl. rewrite Hpc in Hl. specialize (Hl eq_refl).
  assert (Ho := li_pending0 o Hl). unfold pc_fits in li_pc0. unfold flight_ok in li_flight0. rewrite Hpc in *. cbn. rewrite Hpc. cbn.
  rewrite app_nil_r. destruct st as [|b base|b base]; [subst planned|subst planned|done].
  - cbn. constructor; cbn; try done; [|intros _; unfold covered; cbn; by rewrite Ho].
    unfold pc_fits. cbn. eexists. split; [done|]. subst o. cbn. split; [apply CSnapshot|]. by split_and!; [lia|..].
  - cbn. destruct (diff_is_empty (diff_from (o_state o) base)) eqn:Ed.
    + constructor; cbn; try done. intros _. unfold covered. cbn. apply diff_is_empty_iff in Ed. by rewrite <- Ed, Ho.
    + assert (Hne : base <> l_state l).
      { intros ->. rewrite (proj2 (diff_is_empty_iff _ _)) in Ed; [done|]. by rewrite Ho. }
      destruct li_version0 as (Hv1 & Hv2 & Hv3). subst o. cbn in *.
      constructor; cbn; try done; unfold pc_fits; cbn.
      eexists. split; [done|]. split; [|by split_and!; [lia|..] ].
      apply (CDiff _ _ _ b base); [apply li_flight0|done|]. assert (b <> l_num l) by (intros ->; by apply Hne, Hv2). lia.
Qed.

Lemma pump_shipping l n sp st frames o :
  link_inv l n sp st -> l_pc l = Shipping frames o -> link_inv (l_step l LPump) n sp st.
Proof.
  intros Hi Hpc. pose proof Hi as []. unfold pc_fits in li_pc0. unfold flight_ok in li_flight0. unfold covered in li_covered0.
  rewrite Hpc in *. cbn. rewrite Hpc. cbn.
  assert (Hf : exists f, frames = [f] /\ carried (l_mirror l) (o_state_num o) (o_state o) f /\ version_ok l (o_state_num o) (o_state o) /\
    no_token (l_down l) (l_up l) (s_ack sp))
    by (destruct st; [|destruct li_flight0|done]; destruct li_pc0 as (f & ? & ? & ?); by exists f).
  destruct Hf as (f & -> & Hc & Hv & Hno). constructor; cbn; try done.
  unfold flight_ok. cbn. destruct st; [|..]; try (by apply token_start). done.
Qed.

Lemma pump_committing l n sp st o :
  link_inv l n sp st -> 0 <= n -> n + 1 < NO_SLOT -> l_pc l = Committing o ->
  exists sp' st', link_inv (l_step l LPump) (n + 1) sp' st'.
Proof.
  intros Hi H0 Hlt Hpc. pose proof Hi as []. unfold pc_fits in li_pc0. unfold flight_ok in li_flight0. unfold covered in li_covered0.
  rewrite Hpc in *. cbn. rewrite Hpc. cbn. rewrite app_nil_r.
  exists (spec_commit sp (o_state_num o) (o_state o)), (Flying (o_state_num o) (o_state o)).
  assert (Hw : s_window sp = []) by (destruct st; [apply li_stage0..|done]).
  assert (Ht : token (l_down l) (l_up l) (s_ack sp) (l_mirror l) (o_state_num o) (o_state o)) by by destruct st.
  constructor; cbn; try done.
  - apply commit_refines; [done|lia].
  - pose proof (op_next_slot (retention (l_sub l)) sp (OCommit (o_state_num o) (o_state o)) li_refines0). cbn in H. lia.
  - by rewrite Hw.
Qed.

(** Only a commit mints a slot. *)
Definition commits (pc : Pc) : Z := match pc with Committing _ => 1 | _ => 0 end.

Lemma pump_counts l n sp st :
  link_inv l n sp st -> 0 <= n -> n + 1 < NO_SLOT -> exists sp' st', link_inv (l_step l LPump) (n + commits (l_pc l)) sp' st'.
Proof.
  intros Hi H0 Hlt. assert (Hle : forall l' sp' st', link_inv l' n sp' st' -> exists sp st, link_inv l' (n + commits (l_pc l)) sp st)
    by (intros; do 2 eexists; eapply inv_le; [done|destruct (l_pc l); cbn; lia]).
  pose proof Hi as []. destruct (l_pc l) as [| | |req ib|ib|ib|ev did oo|o did|o pl|fr o|o| | ] eqn:Hpc;
    try (by unfold pc_fits in li_pc0; rewrite Hpc in li_pc0).
  - cbn. rewrite Hpc. cbn. rewrite li_open0. destruct (has_work (l_sub l)); [|by eapply Hle]. rewrite app_nil_r.
    eapply Hle, inv_pc; try done. by rewrite Hpc.
  - cbn. rewrite Hpc. cbn. unfold take_inbox. rewrite li_open0. cbn. rewrite li_subscribe0, app_nil_r.
    eapply Hle, inv_pc; try done. by rewrite Hpc.
  - destruct (pump_acking l n sp st ib) as (sp' & st' & H); try done. by eapply Hle.
  - cbn. rewrite Hpc. cbn. rewrite app_nil_r.
    eapply Hle, inv_pc; try done; [|by rewrite Hpc| |by apply answering_fits, loose_loose].
    + intros o. rewrite (proj1 (answering_quiet _ _ _)). intros Ho. apply li_looking0. by rewrite ?Hpc.
    + apply answering_quiet.
  - assert (Hev : Forall loose ev /\ ev <> []) by (unfold pc_fits in li_pc0; by rewrite Hpc in li_pc0).
    destruct Hev as [Hev Hne]. cbn. rewrite Hpc. cbn. destruct ev as [|e rest]; [done|].
    inversion_clear Hev. eapply Hle.
    apply (inv_pc (mkLink (l_num l) (l_state l) (l_sub l) (l_pc l) (l_down l ++ [e]) (l_up l) (l_mirror l)));
        try done; [by apply inv_down| |by cbn; rewrite Hpc| |by apply (answering_fits (mkLink _ _ _ _ _ _ _))].
    + intros o. rewrite (proj1 (answering_quiet rest _ _)). intros Ho. apply li_looking0. by rewrite ?Hpc.
    + apply answering_quiet.
  - destruct (pump_planning l n sp st o did) as (sp' & st' & H); try done. by eapply Hle.
  - eapply Hle, pump_claiming; done.
  - eapply Hle, pump_shipping; done.
  - eapply pump_committing; done.
Qed.

Lemma pump_inv l n sp st :
  link_inv l n sp st -> 0 <= n -> n + 1 < NO_SLOT -> exists sp' st', link_inv (l_step l LPump) (n + 1) sp' st'.
Proof.
  intros Hi H0 Hlt. destruct (pump_counts l n sp st Hi H0 Hlt) as (sp' & st' & H). exists sp', st'.
  eapply inv_le; [exact H|]. destruct (l_pc l); cbn; lia.
Qed.

Lemma link_start_ok n s id request m : 1 <= n -> state_ok s -> link_inv (link_start n s id request m) 0 spec_new Fresh.
Proof.
  intros Hn Hs. constructor; try done; cbn; try lia.
  - apply new_refines.
  - by left.
  - by intros o [= <-].
Qed.

Lemma l_step_ok l n st :
  link_ok l n -> 0 <= n -> n + 1 < NO_SLOT ->
  match st with LPublish s => looking (l_pc l) = None /\ state_ok s | _ => True end -> link_ok (l_step l st) (n + 1).
Proof.
  intros (sp & ph & Hi) H0 Hlt Hc.
  assert (Hle : forall l' sp' ph', link_inv l' n sp' ph' -> link_ok l' (n + 1))
    by (intros l' sp' ph' H; exists sp', ph'; eapply inv_le; [done|lia]).
  destruct st as [s|inp| | | ].
  - destruct Hc. by eapply Hle, publish_inv.
  - by eapply Hle, input_inv.
  - by apply (pump_inv l n sp ph).
  - by eapply Hle, receive_inv.
  - destruct (up_inv l n sp ph Hi Hlt) as [sp' H]. by eapply Hle.
Qed.

Lemma l_run_ok steps : forall l n,
  link_ok l n -> 0 <= n -> n + Z.of_nat (length steps) < NO_SLOT -> calm l steps ->
  link_ok (l_run l steps) (n + Z.of_nat (length steps)).
Proof.
  induction steps as [|st steps IH]; intros l n Hi H0 Hlt Hc; cbn [length] in *; [by rewrite Z.add_0_r|].
  destruct Hc as [Hc1 Hc2]. change (l_run l (st :: steps)) with (l_run (l_step l st) steps).
  replace (n + Z.of_nat (S (length steps))) with (n + 1 + Z.of_nat (length steps)) by lia.
  apply IH; [apply l_step_ok; done || lia|lia|lia|done].
Qed.

(** At rest the client shows the document. *)
Lemma rest_shows l n : link_ok l n -> at_rest l ->
  Mirror.epoch (l_mirror l) = Some E /\ mirror_entries (l_mirror l) = l_state l /\ Mirror.state_num (l_mirror l) <= l_num l.
Proof.
  intros (sp & st & []) (Hpc & Hw & Hc & Hd & Hu).
  assert (Hp : pending_state (l_sub l) = None).
  { unfold has_work in Hw. destruct (pending_state (l_sub l)); [|done]. by rewrite bool_decide_eq_true_2 in Hw. }
  specialize (li_covered0 Hp). unfold covered in li_covered0. unfold flight_ok in li_flight0. rewrite Hpc, Hd, Hu in *.
  destruct st as [|k s|k s]; [done| |].
  - destruct li_flight0 as [_ (H1 & H2 & H3)]. destruct li_version0 as (Hv & _ & _). split_and!; [done|congruence|lia].
  - destruct li_flight0 as [pre f post Hn _ _ _ _ _|? ? ? ?|_ (H1 & H2 & H3) _ _]; [by destruct pre|done|].
    destruct li_version0 as (Hv & _ & _). split_and!; [done|congruence|lia].
Qed.

(** ** Coming to rest *)

(** Deliver what is in flight, then let the pump move. *)
Definition next_step (l : Link) : option LStep :=
  match l_down l, l_up l with
  | _ :: _, _ => Some LReceive
  | [], _ :: _ => Some LAck
  | [], [] => match pump_step (l_sub l) (l_pc l) true with Some _ => Some LPump | None => None end
  end.
Fixpoint settle (fuel : nat) (l : Link) : Link :=
  match fuel with
  | O => l
  | S fuel => match next_step l with Some st => settle fuel (l_step l st) | None => l end
  end.

Definition inbox_items (s : Subscriber) : nat :=
  length (pending_results s) + (if pending_roster s then 1 else 0).
Definition taken_items (ib : Inbox) : nat := length (ib_results ib) + (if ib_roster ib then 1 else 0).
Definition position (s : Subscriber) (pc : Pc) : nat :=
  match pc with
  | Parked => if has_work s then 7 else 0
  | Draining | Resubscribing _ _ => 6
  | Acking _ => 5
  | Loosening _ => 4
  | Answering _ _ _ => 3
  | Planning _ _ => 2
  | Claiming _ _ => 1
  | Shipping _ _ | Committing _ => 10
  | Idle | Closing | Stopping => 0
  end.
Definition to_send (pc : Pc) : nat :=
  match pc with
  | Resubscribing _ ib | Acking ib | Loosening ib => taken_items ib
  | Answering events _ _ | Shipping events _ => length events
  | _ => 0
  end.
Definition before_drain (pc : Pc) : bool := match pc with Parked | Draining => true | _ => false end.
Definition before_ack (pc : Pc) : bool := match pc with Parked | Draining | Acking _ => true | _ => false end.
Definition seen (pc : Pc) : bool := before_drain pc || bool_decide (is_Some (looking pc)).

(** The frame in flight has not been acknowledged to the pump: it holds, and turns round. *)
Definition waits (s : Subscriber) : bool :=
  bool_decide (is_Some (outstanding (ladder (retention s)))) && bool_decide (pending_ack (ladder (retention s)) = None).

(** What is left to do at the pump. *)
Definition strain (s : Subscriber) (pc : Pc) : nat :=
  position s pc + 30 * to_send pc + (if before_drain pc then 40 else 50) * inbox_items s
  + (if pending_ack (ladder (retention s)) then if before_ack pc then 10 else 20 else 0)
  + (if pending_state s then if seen pc then 50 else 60 else 0).
(** What the way round has taken off [strain] and a plan that holds puts back. *)
Definition slack (s : Subscriber) (pc : Pc) : nat :=
  if waits s
  then match pc with Draining => 1 | Acking _ => 2 | Loosening _ => 3 | Answering _ _ _ => 4 | Planning _ _ => 5 | _ => 0 end
  else 0.
Definition weight (s : Subscriber) (pc : Pc) : nat := strain s pc + slack s pc.

(** How many steps that are not turns of a waiting pump are left at most before everything is still, nothing
    coming from outside. *)
Definition toil (l : Link) : nat := weight (l_sub l) (l_pc l) + 22 * length (l_down l) + 21 * length (l_up l).

#[local] Arguments toil : simpl never.
#[local] Arguments inbox_items : simpl never.
#[local] Arguments taken_items : simpl never.
#[local] Arguments waits : simpl never.
#[local] Arguments Nat.mul : simpl never.

Lemma receive_acks m msg : (length (receive m msg).2 <= 1)%nat.
Proof. unfold receive. destruct msg; cbn; try lia. destruct (apply _ _ _ _ _ _) as [m' o]. by destruct o; cbn; lia. Qed.

Lemma loose_count e ib : length (loose_events e ib) = taken_items ib.
Proof. unfold loose_events, taken_items. rewrite length_app, length_map. by destruct (ib_roster ib). Qed.

Lemma ack_spent l : pending_ack (apply_pending_ack l).1 = None.
Proof.
  unfold apply_pending_ack. destruct (pending_ack l) eqn:Ea; [|done]. destruct (window_find _ _); [|by case_decide].
  destruct (drop_through _ _ _ _). cbn. by case_decide.
Qed.
Lemma ack_kept (r : Retention HostWorkspaceState) op :
  match op with OPlan _ | OCommit _ _ => True | _ => False end ->
  pending_ack (ladder (ret_op r op).1) = pending_ack (ladder r).
Proof.
  destruct op as [n| |e n cs ff|e|n d|p]; cbn; intros H; try done.
  - unfold ret_plan, plan, adopt_base, window_clear. destruct (outstanding (ladder r)); [done|].
    by repeat case_match; simplify_eq.
  - unfold ret_commit, ladder_commit, mint_slot. by destruct (window_push _ _ _).
Qed.

Lemma position_over s did : (position s (pass_over did) <= 7)%nat.
Proof. destruct did; cbn; [lia|]. destruct (has_work s); lia. Qed.
Lemma position_idle s : inbox_items s = 0%nat -> pending_state s = None -> pending_subscribe s = None -> position s Parked = 0%nat.
Proof.
  intros Hi Hp Hs. cbn. unfold has_work. rewrite Hp, Hs. unfold inbox_items in Hi.
  destruct (pending_roster s), (pending_results s); cbn in *; done || lia.
Qed.

Lemma slack_over s did : (slack s (pass_over did) <= (if did then 1 else 0))%nat.
Proof. unfold slack. destruct did, (waits s); cbn; lia. Qed.
Lemma slack_most s pc : (slack s pc <= 5)%nat.
Proof. unfold slack. destruct (waits s), pc; lia. Qed.
Lemma slack_quiet s pc : waits s = false -> slack s pc = 0%nat.
Proof. unfold slack. by intros ->. Qed.

(** When a pass is over, everything that was not taken weighs less again. *)
Lemma strain_over s pc did k :
  before_ack pc = false ->
  (position s (pass_over did) + k <=
     position s pc + 30 * to_send pc + 10 * inbox_items s
     + (if pending_ack (ladder (retention s)) then 10 else 0)
     + (if pending_state s then if seen pc then 0 else 10 else 0))%nat ->
  (strain s (pass_over did) + k <= strain s pc)%nat.
Proof.
  intros Hpc Hk. assert (Hb : before_drain pc = false) by by destruct pc.
  assert (E2 : to_send (pass_over did) = 0%nat /\ before_drain (pass_over did) = true /\ before_ack (pass_over did) = true /\
    seen (pass_over did) = true) by by destruct did.
  destruct E2 as (E1 & E2 & E3 & E4). unfold strain. rewrite Hpc, Hb, E1, E2, E3, E4.
  revert Hk. destruct (pending_ack (ladder (retention s))), (pending_state s); try destruct (seen pc); lia.
Qed.

(** [eases s pc s' pc' out]: a step of the pump takes [weight] off, what it sends included, unless it waits, and never
    adds to it. *)
Definition eases (s : Subscriber) (pc : Pc) (s' : Subscriber) (pc' : Pc) (out : list WireMessage) : Prop :=
  (weight s' pc' + 22 * length out + (if waits s then 0 else 1) <= weight s pc)%nat.

(** The terms of the measure. *)
Ltac weigh :=
  unfold eases, weight, strain, slack, seen;
  cbn [position to_send before_drain before_ack length orb looking app answering pass_over
       with_retention with_pending_state with_inbox claim_pending_state retention pending_state ib_offer bool_decide].

Lemma eases_over s pc did out k :
  before_ack pc = false -> (k = 1 + 22 * length out)%nat ->
  (position s (pass_over did) + k <=
     position s pc + 30 * to_send pc + 10 * inbox_items s
     + (if pending_ack (ladder (retention s)) then 10 else 0)
     + (if pending_state s then if seen pc then 0 else 10 else 0))%nat ->
  eases s pc s (pass_over did) out.
Proof.
  intros Hpc Hk Hp. pose proof (strain_over s pc did k Hpc Hp) as H. unfold eases, weight.
  pose proof (slack_over s did). destruct (waits s) eqn:Ew; [destruct did; lia|].
  rewrite (slack_quiet s (pass_over did) Ew). lia.
Qed.

Lemma eases_loosening s ib loose :
  pending_subscribe s = None -> eases s (Loosening ib) s (answering (loose_events loose ib) false (ib_offer ib)) [].
Proof.
  intros Hs. pose proof (loose_count loose ib) as Hn.
  destruct (loose_events loose ib) as [|e events] eqn:Ee; cbn [answering].
  - destruct (ib_offer ib) as [o|] eqn:Eo.
    + weigh. rewrite Eo. cbn [length] in Hn.
      destruct (pending_ack (ladder (retention s))), (pending_state s), (waits s); lia.
    + apply (eases_over s _ false [] 1); [done..|].
      pose proof (position_over s false) as Hp. pose proof (position_idle s) as Hidle.
      unfold seen. cbn [before_drain looking orb position to_send]. rewrite Eo.
      destruct (pending_ack (ladder (retention s))); [lia|].
      destruct (pending_state s) as [o|]; [rewrite bool_decide_eq_false_2 by (by intros [? ?]); lia|].
      destruct (decide (inbox_items s = 0%nat)) as [Hz|Hz]; [|lia]. cbn [pass_over]. rewrite Hidle by done. lia.
  - weigh. cbn [length] in Hn. destruct (pending_ack (ladder (retention s))), (pending_state s), (waits s); lia.
Qed.

Lemma eases_answering s e rest did oo : eases s (Answering (e :: rest) did oo) s (answering rest true oo) [e].
Proof.
  destruct rest as [|e' rest]; [|weigh; destruct (pending_ack _), (pending_state _), (waits s); lia].
  cbn [answering]. destruct oo as [o|]; [weigh; destruct (pending_ack _), (pending_state _), (waits s); lia|].
  apply (eases_over s _ true [e] 23); [done..|].
  unfold seen. cbn -[inbox_items Nat.mul]. destruct (pending_ack _), (pending_state _); lia.
Qed.

(** Both answers to every wait in the goal. *)
Ltac waiting := repeat match goal with |- context [waits ?s] => destruct (waits s) end.

Lemma with_retention_same s : with_retention s (retention s) = s.
Proof. by destruct s. Qed.

(** A plan that holds leaves the ladder as it is. *)
Lemma plan_held (r : Retention HostWorkspaceState) e k : outstanding (ladder r) = Some k -> ret_plan r e = (r, PHold).
Proof. intros Ho. unfold ret_plan, plan. rewrite Ho. by destruct r. Qed.

Lemma eases_held s o did k :
  outstanding (ladder (retention s)) = Some k -> pending_state s = Some o -> eases s (Planning o did) s (pass_over did) [].
Proof.
  intros Hk Ho. destruct (pending_ack (ladder (retention s))) as [a|] eqn:Ea.
  - apply (eases_over s _ did [] 1); [done..|]. rewrite Ea. pose proof (position_over s did). cbn [position]. lia.
  - assert (Ew : waits s = true) by (unfold waits; rewrite Hk, Ea; by rewrite !bool_decide_eq_true_2).
    pose proof (position_over s did) as Hp. weigh. rewrite Ew, Ea, Ho.
    destruct did; cbn [pass_over] in *; cbn -[inbox_items Nat.mul has_work] in *; lia.
Qed.

Lemma eases_planning l n sp st o did :
  link_inv l n sp st -> l_pc l = Planning o did ->
  let '(r, planned) := ret_plan (retention (l_sub l)) (o_epoch o) in
  eases (l_sub l) (Planning o did) (with_retention (l_sub l) r) (match planned with PHold => pass_over did | _ => Claiming o planned end) [].
Proof.
  intros Hi Hpc. pose proof Hi as []. pose proof (li_looking0 o) as Hl. rewrite Hpc in Hl. specialize (Hl eq_refl).
  assert (Ho : o_epoch o = E) by by rewrite (li_pending0 o Hl).
  assert (Hn1 : match st with Settled k _ => 1 <= k | _ => True end) by (destruct st; cbn in *; try done; apply li_version0).
  pose proof (plan_stage sp st o li_stage0 li_epoch0 Ho Hn1) as Hp.
  pose proof (plan_refines _ sp (o_epoch o) li_refines0) as [_ Hr2].
  pose proof (ack_kept (retention (l_sub l)) (OPlan (o_epoch o)) I) as Hack. cbn in Hack.
  assert (Hhold : forall k s, st = Flying k s -> ret_plan (retention (l_sub l)) (o_epoch o) = (retention (l_sub l), PHold)).
  { intros k s ->. apply (plan_held _ _ k). rewrite (rf_outstanding _ _ li_refines0). by destruct li_stage0 as (_ & ? & _). }
  destruct st as [|b base|k s]; [..|rewrite (Hhold k s eq_refl); rewrite with_retention_same].
  3: { apply (eases_held _ _ _ k); [|done]. rewrite (rf_outstanding _ _ li_refines0). by destruct li_stage0 as (_ & ? & _). }
  all: destruct (ret_plan (retention (l_sub l)) (o_epoch o)) as [r planned], (spec_plan sp (o_epoch o)) as [sp' planned'];
    cbn in Hr2, Hack; subst planned'; destruct Hp as (_ & _ & _ & ->); weigh; rewrite Hack;
    change (inbox_items (with_retention (l_sub l) r)) with (inbox_items (l_sub l));
    destruct (pending_ack _), (pending_state _); waiting; lia.
Qed.

Lemma eases_claiming l n sp st o planned :
  link_inv l n sp st -> l_pc l = Claiming o planned ->
  eases (l_sub l) (Claiming o planned) (claim_pending_state (l_sub l))
    (match document_frames o planned with [] => Draining | fs => Shipping fs o end) [].
Proof.
  intros Hi Hpc. pose proof Hi as []. pose proof (li_looking0 o) as Hl. rewrite Hpc in Hl. specialize (Hl eq_refl).
  assert (Hlen : (length (document_frames o planned) <= 1)%nat).
  { unfold pc_fits in li_pc0. rewrite Hpc in li_pc0. destruct st; [subst|subst|done]; cbn; [lia|]. destruct (diff_is_empty _); cbn; lia. }
  destruct (document_frames o planned) as [|f fs] eqn:Ef; weigh; rewrite Hl; cbn [length] in *;
    change (inbox_items (claim_pending_state (l_sub l))) with (inbox_items (l_sub l));
    destruct (pending_ack _); waiting; cbn -[inbox_items Nat.mul]; lia.
Qed.

(** An acknowledgement taken in is heavier than the turn it may start. *)
Lemma eases_acking s ib :
  eases s (Acking ib) (with_retention s (ret_apply_pending_ack (retention s))) (Loosening ib) [].
Proof.
  weigh. unfold ret_apply_pending_ack. pose proof (ack_spent (ladder (retention s))) as Ha.
  destruct (apply_pending_ack _) as [la rel] eqn:El. cbn in Ha. cbn [ladder]. rewrite Ha.
  change (inbox_items (with_retention s _)) with (inbox_items s).
  destruct (pending_ack (ladder (retention s))) as [a|] eqn:Ea; [destruct (pending_state s); waiting; lia|].
  assert (Ew : waits (with_retention s (mkRetention la (drop_released (held (retention s)) rel))) = waits s).
  { unfold apply_pending_ack in El. rewrite Ea in El. injection El as <- <-. done. }
  rewrite Ew. destruct (pending_state s), (waits s); lia.
Qed.

(** Every step of the pump eases, whatever is on the link. *)
Lemma pump_eases l n sp st :
  link_inv l n sp st ->
  match pump_step (l_sub l) (l_pc l) true with Some (s', pc', out) => eases (l_sub l) (l_pc l) s' pc' out | None => True end.
Proof.
  intros Hi. pose proof Hi as [].
  destruct (l_pc l) as [| | |req ib|ib|ib|ev did oo|o did|o pl|fr o|o| | ] eqn:Hpc;
    try (by unfold pc_fits in li_pc0; rewrite Hpc in li_pc0); cbn [pump_step].
  - rewrite li_open0. destruct (has_work (l_sub l)) eqn:Hw; [|done]. weigh. rewrite Hw.
    destruct (pending_ack _), (pending_state _); waiting; lia.
  - unfold take_inbox. rewrite li_open0. cbn. rewrite li_subscribe0. weigh. unfold inbox_items, taken_items.
    cbn [ib_results ib_roster pending_results pending_roster with_inbox length pending_subscribe].
    change (waits (with_inbox (l_sub l) None None [])) with (waits (l_sub l)).
    destruct (pending_ack _), (pending_state _), (pending_roster _); waiting; cbn; lia.
  - apply eases_acking.
  - by apply eases_loosening.
  - destruct ev as [|e rest]; [|apply eases_answering]. exfalso. unfold pc_fits in li_pc0. rewrite Hpc in li_pc0. by destruct li_pc0.
  - pose proof (eases_planning l n sp st o did Hi Hpc) as H. by destruct (ret_plan _ _).
  - by eapply eases_claiming.
  - assert (Hf : exists f, fr = [f])
      by (unfold pc_fits in li_pc0; rewrite Hpc in li_pc0; destruct st; [| |done]; destruct li_pc0 as (f & -> & _); by exists f).
    destruct Hf as [f ->]. weigh. destruct (pending_ack _), (pending_state _); waiting; cbn -[inbox_items Nat.mul]; lia.
  - weigh. pose proof (ack_kept (retention (l_sub l)) (OCommit (o_state_num o) (o_state o)) I) as Ha. cbn in Ha. rewrite Ha.
    change (inbox_items (with_retention (l_sub l) _)) with (inbox_items (l_sub l)).
    rewrite bool_decide_eq_false_2 by (by intros [? ?]).
    destruct (pending_ack (ladder (retention (l_sub l)))), (pending_state (l_sub l)); waiting; lia.
Qed.

Lemma toil_pump l n sp st :
  link_inv l n sp st -> is_Some (pump_step (l_sub l) (l_pc l) true) ->
  (toil (l_step l LPump) + (if waits (l_sub l) then 0 else 1) <= toil l)%nat.
Proof.
  intros Hi [ [ [s pc] out] Hp]. pose proof (pump_eases l n sp st Hi) as H. rewrite Hp in H. cbn. rewrite Hp.
  unfold eases in H. unfold toil. cbn [l_sub l_pc l_down l_up]. rewrite length_app. lia.
Qed.

(** With nothing on the link the pump does not wait: what was in flight is acknowledged. *)
Lemma idle_link_no_wait l n sp st : link_inv l n sp st -> l_down l = [] -> l_up l = [] -> waits (l_sub l) = false.
Proof.
  intros [] Hd Hu. unfold waits. rewrite (rf_outstanding _ _ li_refines0), (rf_ack _ _ li_refines0).
  destruct st as [|k s|k s].
  - destruct li_stage0 as (_ & _ & ->). done.
  - destruct li_stage0 as (_ & _ & _ & -> & _). done.
  - unfold flight_ok in li_flight0. rewrite Hd, Hu in li_flight0.
    assert (Ht : token [] [] (s_ack sp) (l_mirror l) k s) by by destruct (l_pc l).
    destruct Ht as [pre f post Hn|? ? ?|? ? ? ->]; [by destruct pre|done|]. by rewrite andb_false_r.
Qed.

Lemma toil_receive l msg rest : l_down l = msg :: rest -> (toil (l_step l LReceive) < toil l)%nat.
Proof.
  intros Ed. cbn. rewrite Ed. pose proof (receive_acks (l_mirror l) msg) as Ha.
  destruct (receive (l_mirror l) msg) as [m acks]. cbn in Ha. unfold toil. cbn [l_sub l_pc l_down l_up]. rewrite Ed, length_app.
  cbn [length]. lia.
Qed.

Lemma toil_ack l k rest : closed (l_sub l) = false -> l_up l = k :: rest -> (toil (l_step l LAck) < toil l)%nat.
Proof.
  intros Hc Eu. cbn. rewrite Eu. unfold sub_note_ack. rewrite Hc. unfold toil. cbn [l_sub l_pc l_down l_up]. rewrite Eu. cbn [length].
  assert (Hw : waits (with_retention (l_sub l) (ret_note_ack (retention (l_sub l)) k)) = false)
    by (unfold waits; cbn; by rewrite andb_false_r).
  unfold weight. rewrite (slack_quiet _ _ Hw). unfold strain. cbn [retention with_retention ret_note_ack ladder note_ack pending_ack with_pending_ack pending_state].
  change (inbox_items (with_retention _ _)) with (inbox_items (l_sub l)).
  change (position (with_retention (l_sub l) _) (l_pc l)) with (position (l_sub l) (l_pc l)).
  destruct (pending_ack _), (before_ack _); lia.
Qed.

Lemma toil_step l n sp st ls : link_inv l n sp st -> next_step l = Some ls -> (toil (l_step l ls) < toil l)%nat.
Proof.
  intros Hi Hn. unfold next_step in Hn. destruct (l_down l) as [|msg rest] eqn:Ed; [destruct (l_up l) as [|k rest] eqn:Eu|].
  - destruct (pump_step (l_sub l) (l_pc l) true) eqn:Ep; [|done]. injection Hn as <-.
    pose proof (toil_pump l n sp st Hi ltac:(by rewrite Ep)) as H. rewrite (idle_link_no_wait l n sp st Hi Ed Eu) in H. lia.
  - injection Hn as <-. eapply toil_ack; [apply Hi|done].
  - injection Hn as <-. by eapply toil_receive.
Qed.

Lemma next_none l n : link_ok l n -> next_step l = None -> at_rest l.
Proof.
  intros (sp & st & []) Hn. unfold next_step in Hn.
  destruct (l_down l) eqn:Ed, (l_up l) eqn:Eu; try done.
  destruct (pump_step (l_sub l) (l_pc l) true) as [ [ [s pc] out]|] eqn:Ep; [done|].
  assert (Hpc : l_pc l = Parked /\ has_work (l_sub l) = false).
  { destruct (l_pc l) as [| | |req ib|ib|ib|ev did oo|o did|o pl|fr o|o| | ] eqn:Hpc; cbn in Ep; try done.
    - by unfold pc_fits in li_pc0; rewrite Hpc in li_pc0.
    - rewrite li_open0 in Ep. by destruct (has_work (l_sub l)).
    - unfold take_inbox in Ep. by rewrite li_open0 in Ep.
    - destruct ev; done.
    - by destruct (ret_plan _ _).
    - destruct fr; done. }
  destruct Hpc. by split_and!.
Qed.

Lemma next_step_state l ls : next_step l = Some ls -> l_num (l_step l ls) = l_num l /\ l_state (l_step l ls) = l_state l.
Proof.
  unfold next_step. intros H. destruct (l_down l) as [|msg rest] eqn:Ed; [destruct (l_up l) as [|k rest] eqn:Eu|].
  - destruct (pump_step (l_sub l) (l_pc l) true) as [ [ [s pc] out]|] eqn:Ep; [|done]. injection H as <-. cbn. by rewrite Ep.
  - injection H as <-. cbn. by rewrite Eu.
  - injection H as <-. cbn. rewrite Ed. by destruct (receive _ _).
Qed.

Lemma settle_rests fuel : forall l n,
  link_ok l n -> 0 <= n -> n + Z.of_nat fuel < NO_SLOT -> (toil l <= fuel)%nat ->
  at_rest (settle fuel l) /\ link_ok (settle fuel l) (n + Z.of_nat fuel) /\
  l_num (settle fuel l) = l_num l /\ l_state (settle fuel l) = l_state l.
Proof.
  induction fuel as [|fuel IH]; intros l n Hi H0 Hlt Ht.
  - cbn [settle]. destruct (next_step l) as [ls|] eqn:En; [|rewrite Z.add_0_r; split_and!; try done; by eapply next_none].
    destruct Hi as (sp & st & Hi). pose proof (toil_step l n sp st ls Hi En). lia.
  - cbn [settle]. destruct (next_step l) as [ls|] eqn:En.
    + pose proof Hi as (sp & st & Hi'). pose proof (toil_step l n sp st ls Hi' En) as Hd.
      assert (Hok : link_ok (l_step l ls) (n + 1)).
      { apply l_step_ok; [done..|lia|]. unfold next_step in En. destruct (l_down l), (l_up l), (pump_step (l_sub l) (l_pc l) true); by simplify_eq. }
      destruct (next_step_state l ls En) as [<- <-]. replace (n + Z.of_nat (S fuel)) with (n + 1 + Z.of_nat fuel) by lia.
      apply IH; done || lia.
    + split_and!; try done; [by eapply next_none|]. destruct Hi as (sp & st & Hi). exists sp, st. eapply inv_le; [done|lia].
Qed.
(** ** Any fair schedule

    The pump, the deliveries and the acknowledgements in any order, as long as each comes again and again: a
    waiting pump may go round any number of times between two deliveries. *)
Definition internal (st : LStep) : Prop := st = LPump \/ st = LReceive \/ st = LAck.
Definition fair (schedule : nat -> LStep) : Prop :=
  (forall k, internal (schedule k)) /\ (forall st, internal st -> forall k, exists j, (k <= j)%nat /\ schedule j = st).
Definition l_run_to (l : Link) (schedule : nat -> LStep) (k : nat) : Link := l_run l (map schedule (seq 0 k)).

Lemma l_run_to_S l schedule k : l_run_to l schedule (S k) = l_run_to (l_step l (schedule 0%nat)) (fun i => schedule (S i)) k.
Proof. unfold l_run_to, l_run. cbn [seq map foldl]. by rewrite <- seq_shift, map_map. Qed.

Lemma fair_shift schedule : fair schedule -> fair (fun i => schedule (S i)).
Proof.
  intros [H1 H2]. split; [intros k; apply H1|]. intros st Hst k. destruct (H2 st Hst (S k)) as (j & Hj & Ej).
  destruct j as [|j]; [lia|]. exists j. split; [lia|done].
Qed.

(** A step that has something to do, the pump's counting only with nothing on the link. *)
Definition enabled (l : Link) (st : LStep) : Prop :=
  match st with
  | LReceive => l_down l <> []
  | LAck => l_up l <> []
  | LPump => l_down l = [] /\ l_up l = [] /\ is_Some (pump_step (l_sub l) (l_pc l) true)
  | _ => False
  end.

Lemma next_enabled l st : next_step l = Some st -> enabled l st.
Proof.
  unfold next_step. destruct (l_down l) eqn:Ed; [destruct (l_up l) eqn:Eu|].
  - destruct (pump_step (l_sub l) (l_pc l) true) eqn:Ep; [|done]. intros [= <-]. cbn. rewrite Ed, Eu, Ep. by split_and!.
  - intros [= <-]. cbn. by rewrite Eu.
  - intros [= <-]. cbn. by rewrite Ed.
Qed.

(** What a step that moves costs: slots and toil together never grow. *)
Definition costs (l : Link) (n : Z) (st : LStep) : Prop :=
  exists n', link_ok (l_step l st) n' /\ 0 <= n' /\ n' + Z.of_nat (toil (l_step l st)) <= n + Z.of_nat (toil l) /\
    (toil (l_step l st) <= toil l)%nat /\ (enabled l st -> (toil (l_step l st) < toil l)%nat).

Lemma still_costs l n st : link_ok l n -> 0 <= n -> l_step l st = l -> ~ enabled l st -> costs l n st.
Proof. intros Hi H0 Es Hn. exists n. rewrite Es. split_and!; try done; lia. Qed.

Lemma pump_heavy l n sp st : link_inv l n sp st -> is_Some (pump_step (l_sub l) (l_pc l) true) -> (1 <= toil l)%nat.
Proof.
  intros [] Hm. unfold toil, weight, strain. destruct (l_pc l) eqn:Hpc; cbn [position pump_step] in *; try lia.
  - by destruct Hm.
  - rewrite li_open0 in Hm. destruct (has_work _); [lia|by destruct Hm].
  - unfold pc_fits in li_pc0. by rewrite Hpc in li_pc0.
  - unfold pc_fits in li_pc0. by rewrite Hpc in li_pc0.
Qed.

Lemma pump_costs l n : link_ok l n -> 0 <= n -> n + Z.of_nat (toil l) < NO_SLOT -> costs l n LPump.
Proof.
  intros (sp & st & Hi) H0 Hlt. destruct (pump_step (l_sub l) (l_pc l) true) as [x|] eqn:Ep.
  2: { apply still_costs; [by exists sp, st|done|cbn; by rewrite Ep|]. cbn. rewrite Ep. by intros (_ & _ & [? ?]). }
  assert (Hm : is_Some (pump_step (l_sub l) (l_pc l) true)) by (by rewrite Ep).
  pose proof (pump_heavy l n sp st Hi Hm) as Hh. pose proof (toil_pump l n sp st Hi Hm) as Ht.
  destruct (pump_counts l n sp st Hi H0 ltac:(lia)) as (sp' & st' & Hi'). exists (n + commits (l_pc l)).
  split; [by exists sp', st'|]. split; [destruct (l_pc l); cbn; lia|].
  assert (Hw : commits (l_pc l) = 1 -> waits (l_sub l) = false).
  { destruct (l_pc l) eqn:Hpc; try done. intros _. pose proof (li_stage _ _ _ _ Hi) as Hst. pose proof (li_flight _ _ _ _ Hi) as Hf.
    unfold flight_ok in Hf. rewrite Hpc in Hf. unfold waits. rewrite (rf_outstanding _ _ (li_refines _ _ _ _ Hi)).
    destruct st; [destruct Hst as (_ & _ & ->)|destruct Hst as (_ & _ & _ & -> & _)|]; done. }
  split.
  - destruct (l_pc l); cbn [commits] in *; destruct (waits (l_sub l)) eqn:Ew; try (specialize (Hw eq_refl)); done || lia.
  - split; [destruct (waits _); lia|]. intros (Hd & Hu & _). rewrite (idle_link_no_wait l n sp st Hi Hd Hu) in Ht. lia.
Qed.

Lemma internal_costs l n st : link_ok l n -> 0 <= n -> n + Z.of_nat (toil l) < NO_SLOT -> internal st -> costs l n st.
Proof.
  intros Hok H0 Hlt [->|[->| ->]]; [by apply pump_costs|..]; pose proof Hok as (sp & ph & Hi).
  - destruct (l_down l) as [|msg rest] eqn:Ed; [apply still_costs; [done|done|cbn; by rewrite Ed|cbn; rewrite Ed; by intros []]|].
    pose proof (toil_receive l msg rest Ed). exists n. split; [exists sp, ph; by apply receive_inv|]. split_and!; lia.
  - destruct (l_up l) as [|k rest] eqn:Eu; [apply still_costs; [done|done|cbn; by rewrite Eu|cbn; rewrite Eu; by intros []]|].
    pose proof (toil_ack l k rest (li_open _ _ _ _ Hi) Eu).
    assert (Hh : (1 <= toil l)%nat) by lia. destruct (up_inv l n sp ph Hi ltac:(lia)) as [sp' Hi'].
    exists n. split; [by exists sp', ph|]. split_and!; lia.
Qed.

(** What has something to do goes on having it until it is done or something else is. *)
Lemma enabled_stays l st other : enabled l st -> internal st -> internal other -> ~ enabled l other -> enabled (l_step l other) st.
Proof.
  intros He Hst [->|[->| ->]] Hn; cbn [l_step].
  - destruct (pump_step (l_sub l) (l_pc l) true) as [ [ [s pc] out]|] eqn:Ep; [|done].
    destruct Hst as [->|[->| ->]]; cbn in *; [..|done].
    + exfalso. apply Hn. destruct He as (? & ? & _). rewrite Ep. by split_and!.
    + intros E0. apply app_eq_nil in E0 as [E0 _]. by apply He.
  - cbn in Hn. destruct (l_down l) eqn:Ed; [done|]. by exfalso; apply Hn.
  - cbn in Hn. destruct (l_up l) eqn:Eu; [done|]. by exfalso; apply Hn.
Qed.

Lemma enabled_dec l st : enabled l st \/ ~ enabled l st.
Proof.
  destruct st as [s|inp| | | ]; cbn [enabled]; [right; by intros []..| | | ].
  - destruct (l_down l); [|right; by intros [? _]]. destruct (l_up l); [|right; by intros (_ & ? & _)].
    destruct (pump_step (l_sub l) (l_pc l) true); [left; by split_and!|right; intros (_ & _ & H); by destruct H].
  - destruct (l_down l); [right; intros H; by apply H|by left].
  - destruct (l_up l); [right; intros H; by apply H|by left].
Qed.

Lemma fair_rests w : forall l n schedule,
  (toil l <= w)%nat -> link_ok l n -> 0 <= n -> n + Z.of_nat (toil l) < NO_SLOT -> fair schedule ->
  exists k n', at_rest (l_run_to l schedule k) /\ link_ok (l_run_to l schedule k) n'.
Proof.
  induction w as [w IH] using lt_wf_ind. intros l n schedule Hw Hok H0 Hlt Hf.
  destruct (next_step l) as [st|] eqn:En; [|exists 0%nat, n; split; [by eapply next_none|done] ].
  apply next_enabled in En. assert (Hst : internal st) by (destruct st; cbn in En; try done; unfold internal; auto).
  destruct (proj2 Hf st Hst 0%nat) as (j & _ & Hj). revert l n schedule Hw Hok H0 Hlt Hf En Hj.
  induction j as [|j IHj]; intros l n schedule Hw Hok H0 Hlt Hf En Hj;
    destruct (internal_costs l n (schedule 0%nat) Hok H0 Hlt (proj1 Hf 0%nat)) as (n1 & Hok1 & H1 & Hb & Hle & Hs).
  - rewrite Hj in *. specialize (Hs En).
    destruct (IH (toil (l_step l st)) ltac:(lia) (l_step l st) n1 _ ltac:(lia) Hok1 H1 ltac:(lia) (fair_shift _ Hf)) as (k & n' & Hk).
    exists (S k), n'. by rewrite l_run_to_S, Hj.
  - assert (Hstep : exists k n', at_rest (l_run_to (l_step l (schedule 0%nat)) (fun i => schedule (S i)) k) /\
      link_ok (l_run_to (l_step l (schedule 0%nat)) (fun i => schedule (S i)) k) n').
    { destruct (enabled_dec l (schedule 0%nat)) as [Hen|Hen].
      - specialize (Hs Hen). apply (IH (toil (l_step l (schedule 0%nat))) ltac:(lia) (l_step l (schedule 0%nat)) n1); [lia|done|done|lia|by apply fair_shift].
      - apply (IHj (l_step l (schedule 0%nat)) n1); [lia|done|done|lia|by apply fair_shift| |done].
        apply enabled_stays; [done|done|apply Hf|done]. }
    destruct Hstep as (k & n' & Hk). exists (S k), n'. by rewrite l_run_to_S.
Qed.

(** Rest is for good. *)
Lemma rest_stays l st : at_rest l -> internal st -> l_step l st = l.
Proof.
  intros (Hpc & Hw & Hc & Hd & Hu) [->|[->| ->]]; cbn; [|by rewrite Hd|by rewrite Hu]. rewrite Hpc. cbn. by rewrite Hc, Hw.
Qed.
Lemma rest_run l schedule k m :
  at_rest (l_run_to l schedule k) -> (forall i, internal (schedule i)) -> (k <= m)%nat -> l_run_to l schedule m = l_run_to l schedule k.
Proof.
  intros Hr Hf Hm. induction Hm as [|m Hm IH]; [done|]. unfold l_run_to, l_run in *. rewrite seq_S, map_app, foldl_app, IH. cbn.
  by apply rest_stays.
Qed.
Lemma internal_state l st : internal st -> l_num (l_step l st) = l_num l /\ l_state (l_step l st) = l_state l.
Proof.
  intros [->|[->| ->]]; cbn.
  - by destruct (pump_step _ _ _) as [ [ [? ?] ?]|].
  - destruct (l_down l); [done|]. by destruct (receive _ _).
  - by destruct (l_up l).
Qed.
Lemma fair_state l schedule k : (forall i, internal (schedule i)) -> l_state (l_run_to l schedule k) = l_state l.
Proof.
  intros Hf. induction k as [|k IH]; [done|]. unfold l_run_to, l_run in *. rewrite seq_S, map_app, foldl_app. cbn.
  by rewrite (proj2 (internal_state _ _ (Hf _))).
Qed.
End Link.

(** ** Liveness *)

(** C34: An honest client ends up showing the host's workspace.  Take a client with any replica whatever that
    subscribes at any version, any changes of the document, answers and rosters after that, and any interleaving
    of them with the pump, the frames and the acknowledgements, where no document is published between the
    pump's look at an offer and its claim.  From wherever that leads, once nothing more comes from outside:
    under every schedule that is fair, one in which the pump, the deliveries and the acknowledgements each
    come again and again, there is a moment from which the link is at rest and the client is at the host's
    epoch with the host's document cell for cell; under the schedule that delivers and acknowledges before
    it lets the pump move, that takes at most [toil] steps.  No number of steps bounds every schedule, and an
    unfair one need never rest: with a frame in flight the pump turns round without sleeping until the
    acknowledgement comes, as [offers_can_be_lost_and_the_pump_can_spin] shows.  And whenever the link is at
    rest, the client shows the host's document, though nothing is ever sent again for a frame that was held. *)
Theorem honest_link_converges (E : RawUuid) (n : Z) (s : HostWorkspaceState) (id : RawUuid) (request : WorkspaceSubscribe)
    (m : WorkspaceMirror) (steps : list LStep) :
  1 <= n -> state_ok s -> calm E (link_start E n s id request m) steps ->
  let l := l_run E (link_start E n s id request m) steps in
  let converged l' := at_rest l' /\ Mirror.epoch (l_mirror l') = Some E /\ mirror_entries (l_mirror l') = l_state l in
  Z.of_nat (length steps + toil l) < NO_SLOT ->
  (forall schedule, fair schedule -> exists k, forall j, (k <= j)%nat -> converged (l_run_to E l schedule j)) /\
  converged (settle E (toil l) l) /\
  (at_rest l -> converged l).
Proof.
  intros Hn Hs Hc l converged Hlt.
  assert (H0 : link_ok E (link_start E n s id request m) 0) by (do 2 eexists; by apply link_start_ok).
  assert (H1 : link_ok E l (0 + Z.of_nat (length steps))) by (apply l_run_ok; done || lia).
  assert (Hshow : forall l' k, link_ok E l' k -> l_state l' = l_state l -> at_rest l' -> converged l').
  { intros l' k Hok Hst Hr. destruct (rest_shows E _ _ Hok Hr) as (S1 & S2 & _). rewrite Hst in S2. by split_and!. }
  split_and!.
  - intros schedule Hf. destruct (fair_rests E (toil l) l _ schedule ltac:(lia) H1 ltac:(lia) ltac:(lia) Hf) as (k & n' & Hr & Hok).
    exists k. intros j Hj. rewrite (rest_run E l schedule k j Hr (proj1 Hf) Hj). apply (Hshow _ n'); [done| |done].
    apply fair_state, Hf.
  - destruct (settle_rests E (toil l) l _ H1) as (R1 & R2 & R3 & R4); [lia|lia|done|]. by eapply Hshow.
  - intros Hr. by eapply Hshow.
Qed.

Definition an_id : RawUuid := id_of 2.
Definition small (n : Z) : HostWorkspaceState := {[cell_a := [byte_of_Z n]]}.
Definition a_client : WorkspaceSubscribe := mkSubscribe (id_of 7) (byte_of_Z 0) zero_uuid 0 (byte_of_Z 1) mac_text.
Lemma small_ok n : state_ok (small n).
Proof. apply state_ok_small; [|by vm_compute]. apply map_Forall_singleton. split; [done|by vm_compute]. Qed.

(** A client with a replica of another life; two changes, one of them while a frame is in flight. *)
Definition stranger : WorkspaceMirror := mkMirror (Some (id_of 8)) 40 (small 9) ∅ [] 0.
Definition two_changes : list LStep :=
  replicate 7 LPump ++ [LPublish (small 2); LInput (IResult (mkResult (id_of 5) (byte_of_Z 0))); LReceive; LAck] ++
  replicate 8 LPump ++ [LPublish (small 3)].

Definition round_robin (k : nat) : LStep := match (k mod 3)%nat with O => LPump | 1%nat => LReceive | _ => LAck end.
Lemma round_robin_fair : fair round_robin.
Proof.
  split.
  - intros k. unfold round_robin, internal. destruct (k mod 3)%nat as [|[|?]]; auto.
  - intros st Hst k.
    assert (Hr : forall r, (r < 3)%nat -> round_robin (r + k * 3) = round_robin r)
      by (intros r Hr; unfold round_robin; by rewrite Nat.Div0.mod_add).
    destruct Hst as [->|[->| ->]]; [exists (0 + k * 3)%nat|exists (1 + k * 3)%nat|exists (2 + k * 3)%nat];
      (split; [lia|]); by rewrite Hr by lia.
Qed.

Lemma honest_link_converges_witness :
  let l := l_run epoch_a (link_start epoch_a 1 (small 1) an_id a_client stranger) two_changes in
  (at_rest (settle epoch_a (toil l) l) /\ mirror_entries (l_mirror (settle epoch_a (toil l) l)) = small 3) /\
  exists k, at_rest (l_run_to epoch_a l round_robin k) /\ mirror_entries (l_mirror (l_run_to epoch_a l round_robin k)) = small 3.
Proof.
  cbv zeta. assert (E : l_state (l_run epoch_a (link_start epoch_a 1 (small 1) an_id a_client stranger) two_changes) = small 3)
    by (refine (bool_decide_unpack _ _); by vm_compute).
  destruct (honest_link_converges epoch_a 1 (small 1) an_id a_client stranger two_changes) as (Hfair & (H1 & _ & H2) & _).
  - lia.
  - apply small_ok.
  - unfold two_changes. cbn [replicate app calm].
    repeat first [exact I | exact (small_ok _) | lazymatch goal with |- _ = None => vm_compute; reflexivity end | split].
  - by vm_compute.
  - split; [split; [exact H1|]; etrans; [exact H2|exact E]|].
    destruct (Hfair round_robin round_robin_fair) as [k Hk]. destruct (Hk k (le_n k)) as (R1 & _ & R2).
    exists k. split; [exact R1|]. etrans; [exact R2|exact E].
Defined.

(** ** Where it does not converge *)

(** Nothing on its way to the client but answers and rosters, and nothing to plan. *)
Record silent (l : Link) : Prop := {
  si_offer : pending_state (l_sub l) = None;
  si_subscribe : pending_subscribe (l_sub l) = None;
  si_down : Forall loose (l_down l);
  si_pc : match l_pc l with
          | Resubscribing _ _ | Planning _ _ | Claiming _ _ | Shipping _ _ | Committing _ => False
          | Acking ib | Loosening ib => ib_offer ib = None
          | Answering events _ offer => Forall loose events /\ offer = None
          | _ => True
          end;
}.

Lemma answering_silent n s sub events did down up m :
  pending_state sub = None -> pending_subscribe sub = None -> Forall loose down -> Forall loose events ->
  silent (mkLink n s sub (answering events did None) down up m).
Proof. intros. constructor; try done. cbn. destruct events; [by destruct did|done]. Qed.

Lemma silent_step E l st :
  silent l -> match st with LPublish _ => False | _ => True end ->
  silent (l_step E l st) /\ l_mirror (l_step E l st) = l_mirror l /\ l_state (l_step E l st) = l_state l.
Proof.
  intros Hs Hst. pose proof Hs as []. destruct st as [s|inp| | | ]; try done.
  - cbn. destruct inp as [o|r|r|k|u|r| ]; try done; (split; [|done]); cbn;
      unfold deliver_roster, deliver_result, sub_note_presence; (destruct (closed (l_sub l)); [by destruct l|]); try by constructor.
    destruct (ret_note_presence _ _). by constructor.
  - cbn. destruct (pump_step (l_sub l) (l_pc l) true) as [ [ [s pc] out]|] eqn:Ep; [|done]. split; [|done].
    destruct (l_pc l) as [| | |req ib|ib|ib|ev did oo|o did|o pl|fr o|o| | ] eqn:Hpc; cbn in Ep; try done.
    + destruct (closed (l_sub l)), (has_work (l_sub l)); simplify_eq; by constructor; rewrite ?app_nil_r.
    + unfold take_inbox in Ep. destruct (closed (l_sub l)); simplify_eq; cbn in *; [by constructor; rewrite ?app_nil_r|].
      rewrite si_subscribe0, si_offer0. by constructor; cbn; rewrite ?app_nil_r.
    + simplify_eq. constructor; cbn; rewrite ?app_nil_r; done.
    + simplify_eq. rewrite app_nil_r, si_pc0. apply answering_silent; try done. apply loose_loose.
    + destruct si_pc0 as [Hev ->]. destruct ev as [|e rest]; simplify_eq.
      * rewrite app_nil_r. by apply (answering_silent _ _ _ []).
      * inversion_clear Hev. apply answering_silent; try done. apply Forall_app. split; [done|by apply Forall_singleton].
    + simplify_eq. unfold close. destruct (closed (l_sub l)); by constructor; rewrite ?app_nil_r.
    + simplify_eq. by constructor; rewrite ?app_nil_r.
  - cbn. destruct (l_down l) as [|msg rest] eqn:Ed; [done|]. inversion si_down0; subst.
    rewrite receive_loose by done. split; [|done]. by constructor.
  - cbn. destruct (l_up l) as [|k rest]; [done|]. split; [|done].
    unfold sub_note_ack. destruct (closed (l_sub l)); by constructor.
Qed.

Lemma silent_run E steps : forall l,
  silent l -> Forall (fun st => match st with LPublish _ => False | _ => True end) steps ->
  l_mirror (l_run E l steps) = l_mirror l /\ l_state (l_run E l steps) = l_state l.
Proof.
  induction steps as [|st steps IH]; intros l Hs Hw; [done|]. inversion_clear Hw.
  destruct (silent_step E l st Hs) as (H1 & H2 & H3); [done|]. change (l_run E l (st :: steps)) with (l_run E (l_step E l st) steps).
  rewrite <- H2, <- H3. by apply IH.
Qed.

(** The document changes between the pump's look at the offer and its claim. *)
Definition a_late_offer : list LStep :=
  replicate 5 LPump ++ [LPublish (small 2)] ++ replicate 3 LPump ++ [LReceive; LAck] ++ replicate 4 LPump.

(** What the pump does not do.  (1) An offer can be lost: the claim clears whatever offer is pending, so a document
    published after the pump looked and before it claims is never sent; everything comes to rest with the client at
    the old document, and whatever answers, rosters, presences, deliveries and pump steps follow, it stays
    there until the document changes again.  (2) The pump does not sleep while it holds: with a frame outstanding
    and a newer offer pending it goes through five lock sections, sends nothing, and is where it was, so it
    turns round until the acknowledgement comes. *)
Theorem offers_can_be_lost_and_the_pump_can_spin :
  (let l := l_run epoch_a (link_start epoch_a 1 (small 1) an_id a_client mirror_new) a_late_offer in
   at_rest l /\ l_state l = small 2 /\ mirror_entries (l_mirror l) = small 1 /\
   forall steps, Forall (fun st => match st with LPublish _ => False | _ => True end) steps ->
     mirror_entries (l_mirror (l_run epoch_a l steps)) = small 1 /\ l_state (l_run epoch_a l steps) = small 2) /\
  (forall s o k, closed s = false -> pending_state s = Some o -> pending_roster s = None -> pending_subscribe s = None ->
     pending_results s = [] -> outstanding (ladder (retention s)) = Some k -> pending_ack (ladder (retention s)) = None ->
     pump_run 5 s Parked true = (s, Parked, [])).
Proof.
  split.
  - set (l := l_run _ _ _).
    assert (H1 : l_state l = small 2) by (refine (bool_decide_unpack _ _); by vm_compute).
    assert (H2 : mirror_entries (l_mirror l) = small 1) by (refine (bool_decide_unpack _ _); by vm_compute).
    assert (H3 : at_rest l) by (split_and!; vm_compute; reflexivity).
    assert (Hs : silent l).
    { constructor; [vm_compute; reflexivity..| |]; [|by rewrite (proj1 H3)]. destruct H3 as (_ & _ & _ & -> & _). constructor. }
    cbv zeta. clearbody l. split_and!; try done. intros steps Hw. destruct (silent_run epoch_a steps l Hs Hw) as [-> ->]. done.
  - intros s o k Hc Ho Hr Hsub Hres Hout Hack. destruct s as [sid ci ck lb ret ps pr psub pres cl pu]. cbn in *. subst.
    destruct ret as [la he]. cbn in *.
    assert (Ha : apply_pending_ack la = (la, [])) by (unfold apply_pending_ack; by rewrite Hack).
    assert (Hp : forall e, plan la e = (la, Hold)) by (intros e; unfold plan; by rewrite Hout).
    unfold pump_run, pump_step, has_work, take_inbox, with_retention, ret_apply_pending_ack, ret_plan. cbn -[apply_pending_ack plan].
    rewrite Ha. cbn -[plan]. by rewrite Hp.
Qed.
