(* ===== verification/Store.v ===== *)
(** * Store: the workspace on disk

    Models [slopdesk-hostd/src/workspacestore.rs]: the debounced writer and its stop.  Every caller and every debounce
    thread is a program counter; a step is one lock section, one look at the stop flag, or one write with its
    rename, which the disk lock makes atomic.  A thread that cannot be spawned and a write that fails are choices of
    the step.  The text of the file is left out: a file is the filtered document it decodes to. *)

From stdpp Require Import gmap.
From S2P Require Import Prelude Bytes Message Document Cells Liveness.

(** ** Saving *)

Inductive SPc : Type :=
| Saving (s : HostWorkspaceState)       (* [schedule_save], past the stop flag *)
| Spawning                              (* armed, about to start the thread *)
| Sleeping                              (* a debounce thread *)
| Disarmed                              (* about to look at the stop flag *)
| Flushing                              (* [flush], about to raise the flag *)
| Taking                                (* [write_pending] *)
| Writing (s : HostWorkspaceState)
| Done.

#[export] Instance spc_eq_dec : EqDecision SPc.
Proof. solve_decision. Defined.

Record DiskWorkspace : Type := mkStore {
  pending_save : option HostWorkspaceState;
  armed : bool;
  stopped : bool;
  disk : option HostWorkspaceState;
  threads : list SPc;
}.

Definition store_new (disk : option HostWorkspaceState) : DiskWorkspace := mkStore None false false disk [].

Inductive SStep : Type := SCall (s : HostWorkspaceState) | SFlush | STick (i : nat) (ok : bool).

Definition with_threads (d : DiskWorkspace) (t : list SPc) : DiskWorkspace :=
  mkStore (pending_save d) (armed d) (stopped d) (disk d) t.

(** One thread moves.  The place of a caller that has started a thread is the thread's. *)
Definition tick (d : DiskWorkspace) (i : nat) (pc : SPc) (ok : bool) : DiskWorkspace :=
  let goes pc := <[i := pc]> (threads d) in
  match pc with
  | Saving s =>
      mkStore (Some (persisting s)) true (stopped d) (disk d) (goes (if armed d then Done else Spawning))
  | Spawning => with_threads d (goes (if ok then Sleeping else Done))
  | Sleeping => mkStore (pending_save d) false (stopped d) (disk d) (goes Disarmed)
  | Disarmed => with_threads d (goes (if stopped d then Done else Taking))
  | Flushing => mkStore (pending_save d) (armed d) true (disk d) (goes Taking)
  | Taking =>
      mkStore None (armed d) (stopped d) (disk d) (goes (match pending_save d with Some s => Writing s | None => Done end))
  | Writing s => mkStore (pending_save d) (armed d) (stopped d) (if ok then Some s else disk d) (goes Done)
  | Done => d
  end.

Definition store_step (d : DiskWorkspace) (st : SStep) : DiskWorkspace :=
  match st with
  | SCall s => if stopped d then d else with_threads d (threads d ++ [Saving s])
  | SFlush => with_threads d (threads d ++ [Flushing])
  | STick i ok => match threads d !! i with Some pc => tick d i pc ok | None => d end
  end.
Definition store_run (d : DiskWorkspace) (steps : list SStep) : DiskWorkspace := foldl store_step d steps.

(** ** Loading *)

Definition has_stored (file : option HostWorkspaceState) : bool := bool_decide (is_Some file).

Inductive Aside : Type := Corrupt | Empty.
(** [file]: nothing, a file that does not decode, or its document; [is_workspace]: whether a topology can be read. *)
Definition load (file : option (option HostWorkspaceState)) (is_workspace : HostWorkspaceState -> bool)
    (default_document : HostWorkspaceState) : HostWorkspaceState * option Aside :=
  match file with
  | None => (default_document, None)
  | Some None => (default_document, Some Corrupt)
  | Some (Some restored) => if is_workspace restored then (restored, None) else (default_document, Some Empty)
  end.

(** ** What the writer keeps *)

Definition is_writing (pc : SPc) : bool := match pc with Writing _ => true | _ => false end.
(** A thread that will take what is pending: a timer, unless it will find the store stopped, or a flush. *)
Definition will_take (stop : bool) (pc : SPc) : bool :=
  match pc with Spawning | Sleeping | Disarmed => negb stop | Flushing | Taking => true | _ => false end.
Definition will_disarm (pc : SPc) : bool := match pc with Spawning | Sleeping => true | _ => false end.

(** The saves whose section has run, oldest first. *)
Fixpoint saves (d : DiskWorkspace) (steps : list SStep) : list HostWorkspaceState :=
  match steps with
  | [] => []
  | st :: rest =>
      match st with
      | STick i _ => match threads d !! i with Some (Saving s) => [persisting s] | _ => [] end
      | _ => []
      end ++ saves (store_step d st) rest
  end.

(** No write fails and every thread starts; no thread takes while another has yet to write; and a save that found the
    store running runs its section before a flush raises the flag. *)
Fixpoint orderly (d : DiskWorkspace) (steps : list SStep) : bool :=
  match steps with
  | [] => true
  | st :: rest =>
      match st with
      | SCall _ | SFlush => true
      | STick i ok =>
          ok && match threads d !! i with
                | Some Taking => negb (existsb is_writing (threads d))
                | Some (Saving _) => negb (stopped d)
                | _ => true
                end
      end && orderly (store_step d st) rest
  end.

Definition idle (d : DiskWorkspace) : Prop := Forall (fun pc => pc = Done) (threads d).
#[export] Instance idle_dec d : Decision (idle d).
Proof. unfold idle. apply _. Defined.

(** Where the freshest save is: pending with a thread that will take it, being written, or on disk. *)
Record store_ok (d : DiskWorkspace) (latest : option HostWorkspaceState) : Prop := {
  st_armed : armed d = true -> exists i pc, threads d !! i = Some pc /\ will_disarm pc = true;
  st_pending : forall s, pending_save d = Some s -> latest = Some s /\ exists i pc, threads d !! i = Some pc /\ will_take (stopped d) pc = true;
  st_writers : forall i j s t, threads d !! i = Some (Writing s) -> threads d !! j = Some (Writing t) -> i = j;
  st_latest : pending_save d = None ->
    (exists i s, threads d !! i = Some (Writing s) /\ latest = Some s) \/
    (forall i s, threads d !! i <> Some (Writing s)) /\ disk d = latest;
}.

Lemma lookup_goes (l : list SPc) i j pc old : l !! i = Some old -> <[i := pc]> l !! j = if decide (j = i) then Some pc else l !! j.
Proof.
  intros Hi. case_decide as E; [subst; apply list_lookup_insert_eq; by eapply lookup_lt_Some|by apply list_lookup_insert_ne].
Qed.
Lemma lookup_more (l : list SPc) j pc q : (l ++ [pc]) !! j = Some q <-> l !! j = Some q \/ j = length l /\ q = pc.
Proof.
  rewrite lookup_app_Some. split.
  - intros [H|[H1 H2] ]; [by left|]. apply list_lookup_singleton_Some in H2 as [H2 <-]. right. split; [lia|done].
  - intros [H|[-> ->] ]; [by left|]. right. split; [lia|]. by rewrite Nat.sub_diag.
Qed.

(** A thread that is not writing moves to a place where it is not writing either. *)
Lemma other_threads d d' i pc pc' latest :
  store_ok d latest -> threads d !! i = Some pc -> is_writing pc = false -> is_writing pc' = false ->
  pending_save d' = pending_save d -> stopped d' = stopped d -> disk d' = disk d ->
  threads d' = <[i := pc']> (threads d) ->
  (armed d' = true -> armed d = true /\ will_disarm pc = will_disarm pc') ->
  (will_take (stopped d) pc = true -> will_take (stopped d) pc' = true) ->
  store_ok d' latest.
Proof.
  intros [Ha Hp Hw Hl] Hi Hpc Hpc' Ep Es Ed Et Harm Htake.
  assert (Hlook : forall j q, threads d' !! j = Some q <-> (j = i /\ q = pc' \/ j <> i /\ threads d !! j = Some q)).
  { intros j q. rewrite Et, (lookup_goes _ _ _ _ _ Hi). case_decide; naive_solver. }
  assert (Hkeep : forall P : SPc -> bool, (P pc = true -> P pc' = true) ->
    (exists j q, threads d !! j = Some q /\ P q = true) -> exists j q, threads d' !! j = Some q /\ P q = true).
  { intros P HP (j & q & Hj & Hq). destruct (decide (j = i)) as [->|Hne].
    - exists i, pc'. split; [apply Hlook; by left|]. apply HP. congruence.
    - exists j, q. split; [apply Hlook; by right|done]. }
  constructor.
  - intros E. destruct (Harm E) as [E1 E2]. apply Hkeep; [by rewrite E2|by apply Ha].
  - rewrite Ep, Es. intros s H. destruct (Hp s H) as [H1 H2]. split; [done|]. by apply Hkeep.
  - intros j k s t [ [_ <-]|[Hj1 Hj2] ]%Hlook; [done|]. intros [ [_ <-]|[Hk1 Hk2] ]%Hlook; [done|]. by eapply Hw.
  - rewrite Ep, Ed. intros E. destruct (Hl E) as [(j & s & Hj & HL)|[H1 H2] ].
    + left. exists j, s. split; [|done]. apply Hlook. right. split; [|done]. intros ->. rewrite Hi in Hj. injection Hj as ->. done.
    + right. split; [|done]. intros j s [ [_ <-]|[_ H] ]%Hlook; [done|]. by apply H1 in H.
Qed.

(** A new thread, that is not writing. *)
Lemma new_thread d pc latest :
  store_ok d latest -> is_writing pc = false -> store_ok (with_threads d (threads d ++ [pc])) latest.
Proof.
  intros [Ha Hp Hw Hl] Hpc. constructor; cbn.
  - intros E. destruct (Ha E) as (i & q & H1 & H2). exists i, q. rewrite lookup_more. by auto.
  - intros s E. destruct (Hp s E) as (H0 & i & q & H1 & H2). split; [done|]. exists i, q. rewrite lookup_more. by auto.
  - intros i j s t [Hi|[_ <-] ]%lookup_more; [|done]. intros [Hj|[_ <-] ]%lookup_more; [|done]. by eapply Hw.
  - intros E. destruct (Hl E) as [(i & s & Hi & HL)|[H1 H2] ].
    + left. exists i, s. rewrite lookup_more. by auto.
    + right. split; [|done]. intros i s [H|[_ <-] ]%lookup_more; [by apply H1 in H|done].
Qed.

Ltac other Hi Hj := rewrite Hi in Hj; injection Hj as <-; simplify_eq/=; congruence.

Lemma tick_ok d i pc latest :
  store_ok d latest -> threads d !! i = Some pc ->
  match pc with Taking => existsb is_writing (threads d) = false | Saving _ => stopped d = false | _ => True end ->
  store_ok (tick d i pc true) (match pc with Saving s => Some (persisting s) | _ => latest end).
Proof.
  intros Hd Hi Hord. pose proof Hd as [Ha Hp Hw Hl].
  assert (Hlook : forall pc' j q, <[i := pc']> (threads d) !! j = Some q <-> (j = i /\ q = pc' \/ j <> i /\ threads d !! j = Some q)).
  { intros pc' j q. rewrite (lookup_goes _ _ _ _ _ Hi). case_decide; naive_solver. }
  destruct pc as [s| | | | | |s| ]; cbn [tick].
  - set (pc' := if armed d then Done else Spawning). constructor; cbn.
    + intros _. unfold pc'. destruct (armed d); [|exists i, Spawning; split; [by apply Hlook; left|done] ].
      destruct (Ha eq_refl) as (j & q & Hj & Hq). exists j, q. split; [apply Hlook; right; split; [|done]; intros ->; other Hi Hj|done].
    + intros t [= <-]. split; [done|]. unfold pc'. destruct (armed d); [|exists i, Spawning; split; [by apply Hlook; left|cbn; by rewrite Hord] ].
      destruct (Ha eq_refl) as (j & q & Hj & Hq). exists j, q.
      split; [apply Hlook; right; split; [|done]; intros ->; other Hi Hj|rewrite Hord; by destruct q].
    + intros j k t u [ [_ H]|[_ Hj] ]%Hlook; [by unfold pc' in H; destruct (armed d)|].
      intros [ [_ H]|[_ Hk] ]%Hlook; [by unfold pc' in H; destruct (armed d)|]. by eapply Hw.
    + done.
  - by apply (other_threads d _ i Spawning Sleeping latest).
  - by apply (other_threads d _ i Sleeping Disarmed latest).
  - destruct (stopped d) eqn:Es.
    + apply (other_threads d _ i Disarmed Done latest); try done. by rewrite Es.
    + by apply (other_threads d _ i Disarmed Taking latest).
  - constructor; cbn.
    + intros E. destruct (Ha E) as (j & q & Hj & Hq). exists j, q. split; [apply Hlook; right; split; [|done]; intros ->; other Hi Hj|done].
    + intros s E. destruct (Hp s E) as [-> _]. split; [done|]. exists i, Taking. split; [by apply Hlook; left|done].
    + intros j k s t [ [_ H]|[_ Hj] ]%Hlook; [done|]. intros [ [_ H]|[_ Hk] ]%Hlook; [done|]. by eapply Hw.
    + intros E. destruct (Hl E) as [(j & s & Hj & HL)|[H1 H2] ].
      * left. exists j, s. split; [|done]. apply Hlook. right. split; [|done]. intros ->. congruence.
      * right. split; [|done]. intros j s [ [_ H]|[_ H] ]%Hlook; [done|by apply H1 in H].
  - assert (Hno : forall j t, threads d !! j <> Some (Writing t)).
    { intros j t Hj. assert (existsb is_writing (threads d) = true); [|congruence].
      apply existsb_exists. exists (Writing t). split; [by apply list_elem_of_In, list_elem_of_lookup_2 with j|done]. }
    constructor; cbn.
    + intros E. destruct (Ha E) as (j & q & Hj & Hq). exists j, q. split; [apply Hlook; right; split; [|done]; intros ->; other Hi Hj|done].
    + done.
    + intros j k t u [ [-> _]|[_ H] ]%Hlook; [|by apply Hno in H]. intros [ [-> _]|[_ H] ]%Hlook; [done|by apply Hno in H].
    + intros _. destruct (pending_save d) as [s|] eqn:Ep.
      * left. exists i, s. split; [by apply Hlook; left|]. by apply Hp.
      * right. destruct (Hl eq_refl) as [(j & t & Hj & _)|[_ H2] ]; [by apply Hno in Hj|]. split; [|done].
        intros j t [ [_ H]|[_ H] ]%Hlook; [done|by apply Hno in H].
  - assert (Hno : forall j t, <[i := Done]> (threads d) !! j <> Some (Writing t)).
    { intros j t [ [_ H]|[Hne H] ]%Hlook; [done|]. by apply Hne, (Hw j i t s). }
    assert (Hkeep : forall P : SPc -> bool, P (Writing s) = false ->
      (exists j q, threads d !! j = Some q /\ P q = true) -> exists j q, <[i := Done]> (threads d) !! j = Some q /\ P q = true).
    { intros P HP (j & q & Hj & Hq). exists j, q. split; [|done]. apply Hlook. right. split; [|done]. intros ->. other Hi Hj. }
    constructor; cbn.
    + intros E. apply Hkeep; [done|by apply Ha].
    + intros t E. destruct (Hp t E) as [H1 H2]. split; [done|]. by apply Hkeep.
    + intros j k t u H _. by apply Hno in H.
    + intros E. right. split; [done|]. destruct (Hl E) as [(j & t & Hj & ->)|[H _] ]; [|by apply H in Hi].
      assert (j = i) as -> by by eapply Hw. congruence.
  - done.
Qed.

Lemma run_ok steps : forall d latest,
  store_ok d latest -> orderly d steps = true ->
  store_ok (store_run d steps) (match last (saves d steps) with Some s => Some s | None => latest end).
Proof.
  induction steps as [|st steps IH]; intros d latest Hd Ho; [done|]. cbn in Ho. apply andb_true_iff in Ho as [Hst Ho].
  change (store_run d (st :: steps)) with (store_run (store_step d st) steps). cbn [saves].
  destruct st as [s| |i ok]; cbn [store_step app] in *.
  - apply IH; [|done]. destruct (stopped d); [done|by apply new_thread].
  - apply IH; [|done]. by apply new_thread.
  - apply andb_true_iff in Hst as [-> Htake]. destruct (threads d !! i) as [pc|] eqn:Ei; [|by apply IH].
    assert (Hk' : store_ok (tick d i pc true) (match pc with Saving s => Some (persisting s) | _ => latest end))
      by (apply (tick_ok d i pc latest Hd Ei); destruct pc; try done; by apply negb_true_iff).
    specialize (IH _ _ Hk' Ho). destruct pc; cbn [app] in *; try exact IH.
    destruct (saves (tick d i (Saving s) true) steps) as [|x l] eqn:Es; [exact IH|].
    change (last (persisting s :: x :: l)) with (last (x :: l)).
    assert (is_Some (last (x :: l))) as [y Hy] by by apply last_is_Some. by rewrite Hy in *.
Qed.

(** C36: The disk keeps up.  Over any interleaving of savers, debounce threads and flushes in which no write fails and
    every debounce thread can be started, no thread takes what is pending while another has yet to write what it
    took, and no save that found the store running runs its section after a flush has raised the stop flag: once
    every thread is done nothing is pending and the disk holds exactly the last document saved, filtered to
    what is persisted.  No save is stranded behind a timer that has already looked, however saves fall
    between the threads' sections, and none between a timer and a flush.  Each of the four conditions is needed:
    a run that breaks one of them and loses a save is in [saves_can_be_lost]. *)
Theorem the_last_save_reaches_the_disk (file : option HostWorkspaceState) (steps : list SStep) :
  orderly (store_new file) steps = true ->
  let d := store_run (store_new file) steps in
  idle d ->
  pending_save d = None /\ armed d = false /\
  disk d = match last (saves (store_new file) steps) with Some s => Some s | None => file end.
Proof.
  intros Ho d Hidle. assert (H0 : store_ok (store_new file) file) by (constructor; cbn; try done; by right).
  pose proof (run_ok steps _ _ H0 Ho) as [Ha Hp _ Hl]. fold d in Ha, Hp, Hl.
  assert (Hd : forall i pc, threads d !! i = Some pc -> pc = Done) by (intros i pc Hi; by apply (proj1 (Forall_lookup _ _) Hidle i)).
  assert (Hnone : pending_save d = None).
  { destruct (pending_save d) as [s|]; [|done]. destruct (Hp s eq_refl) as (_ & i & pc & Hi & Ht). by rewrite (Hd i pc Hi) in Ht. }
  split_and!; [done| |].
  - destruct (armed d); [|done]. destruct (Ha eq_refl) as (i & pc & Hi & Ht). by rewrite (Hd i pc Hi) in Ht.
  - destruct (Hl Hnone) as [(i & s & Hi & _)|[_ H] ]; [by apply Hd in Hi|done].
Qed.

Definition saved_cell (n : Z) : HostWorkspaceState := {[key_of Pane (replicate 16 (byte_of_Z 7)) TITLE := [byte_of_Z n]]}.
(** A save, another while the timer sleeps, a third while the first write is on its way, and a flush that finds the third
    pending, so that its timer finds the store stopped. *)
Definition three_saves : list SStep :=
  [SCall (saved_cell 1); STick 0 true; STick 0 true; SCall (saved_cell 2); STick 1 true; STick 0 true; STick 0 true; STick 0 true;
   SCall (saved_cell 3); STick 2 true; STick 2 true; STick 0 true; STick 2 true; SFlush; STick 3 true; STick 2 true;
   STick 3 true; STick 3 true].

Lemma the_last_save_reaches_the_disk_witness :
  disk (store_run (store_new None) three_saves) = Some (saved_cell 3).
Proof.
  destruct (the_last_save_reaches_the_disk None three_saves) as (_ & _ & H).
  - vm_compute. reflexivity.
  - vm_compute. repeat constructor.
  - etrans; [exact H|]. refine (bool_decide_unpack _ _). by vm_compute.
Defined.

(** *** What goes wrong without the order *)

(** Two savers released the document's lock in the order 1, 2 and reach the store in the order 2, 1. *)
Definition savers_invert : list SStep :=
  [SCall (saved_cell 1); SCall (saved_cell 2); STick 1 true; STick 0 true] ++ replicate 6 (STick 1 true).
(** A timer takes a save and is overtaken, before it writes, by the timer of the next save. *)
Definition writers_invert : list SStep :=
  [SCall (saved_cell 1)] ++ replicate 5 (STick 0 true) ++ [SCall (saved_cell 2)] ++ replicate 6 (STick 1 true) ++ [STick 0 true].
(** The same with a stop instead of a second timer. *)
Definition stop_inverts : list SStep :=
  [SCall (saved_cell 1)] ++ replicate 5 (STick 0 true) ++ [SCall (saved_cell 2); STick 1 true; SFlush; STick 2 true; STick 2 true; STick 2 true;
    STick 1 true; STick 1 true; STick 1 true; STick 0 true].
(** A stop that comes when a timer has taken the save and not written it: the flush returns at once. *)
Definition flush_returns_early : list SStep :=
  [SCall (saved_cell 1)] ++ replicate 5 (STick 0 true) ++ [SFlush; STick 1 true; STick 1 true].
(** The thread of the first save cannot be started. *)
Definition spawn_fails : list SStep :=
  [SCall (saved_cell 1); STick 0 true; STick 0 false; SCall (saved_cell 2); STick 1 true].

(** A save that found the store running runs its section after a flush took what was pending: its timer finds the store
    stopped. *)
Definition save_races_a_flush : list SStep :=
  [SCall (saved_cell 1); SFlush; STick 1 true; STick 1 true] ++ replicate 4 (STick 0 true).
(** The one write fails. *)
Definition write_fails : list SStep := [SCall (saved_cell 1)] ++ replicate 5 (STick 0 true) ++ [STick 0 false].

(** Where the disk does not keep up.  (1) Two intents released the document's lock in
    one order and schedule their saves in the other: the disk ends with the older layout.  (2) The pending save is
    taken before the disk lock, so a timer can write what it took over a later timer's newer document, and
    (3) over the document a stop has just flushed, though the stop flag is there to prevent exactly that.  (4) A
    flush that finds nothing pending returns while a timer still has the last save to write: it is not on disk
    when the flush is done.  (5) A debounce thread that cannot be started leaves the store armed: every later save
    waits for a timer that does not exist, until a stop.  (6) A save that looked at the stop flag before a flush raised
    it and ran its section after the flush took what was pending stays pending for ever, since its timer finds the
    store stopped: nothing reaches the disk.  (7) A write that fails is not tried again: what it took is neither
    pending nor on disk. *)
Theorem saves_can_be_lost :
  (let d := store_run (store_new None) savers_invert in idle d /\ pending_save d = None /\ disk d = Some (saved_cell 1)) /\
  (let d := store_run (store_new None) writers_invert in
   saves (store_new None) writers_invert = [saved_cell 1; saved_cell 2] /\ idle d /\ pending_save d = None /\
   disk d = Some (saved_cell 1)) /\
  (let d := store_run (store_new None) stop_inverts in
   disk (store_run (store_new None) (take 12 stop_inverts)) = Some (saved_cell 2) /\ idle d /\ disk d = Some (saved_cell 1)) /\
  (let d := store_run (store_new None) flush_returns_early in threads d !! 1%nat = Some Done /\ disk d = None /\ pending_save d = None) /\
  (let d := store_run (store_new None) save_races_a_flush in
   saves (store_new None) save_races_a_flush = [saved_cell 1] /\ idle d /\ stopped d = true /\
   pending_save d = Some (saved_cell 1) /\ disk d = None) /\
  (let d := store_run (store_new None) write_fails in idle d /\ pending_save d = None /\ disk d = None) /\
  (let d := store_run (store_new None) spawn_fails in
   idle d /\ armed d = true /\ pending_save d = Some (saved_cell 2) /\
   forall s, idle (store_run d [SCall s; STick 2 true]) /\ disk (store_run d [SCall s; STick 2 true]) = None).
Proof.
  cbv zeta. split_and!; try (refine (bool_decide_unpack _ _); vm_compute; exact I).
  set (d := store_run _ spawn_fails).
  assert (Ht : threads d = [Done; Done]) by (vm_compute; reflexivity).
  assert (Hd : stopped d = false /\ armed d = true /\ disk d = None) by (split_and!; vm_compute; reflexivity).
  clearbody d. destruct d as [p a b c t]. cbn in *. destruct Hd as (-> & -> & ->). subst t. intros s.
  split; [repeat constructor|done].
Qed.
