(* ===== verification/Gf256.v ===== *)
(** * Gf256: the field the erasure code computes in

    Models [slopdesk-video/src/gf256.rs] and the portable kernels of [slopdesk-gfsimd/src/lib.rs]
    (the vector halves are intrinsics of one target and are not modelled).  The tables are built by
    the code's own loops; that the operations form a field is proved from a few exhaustive checks over
    one byte and the linearity of multiplication by the generator. *)

From Stdlib Require Import Field_theory Ring_theory.
From S2P Require Import Prelude.

(** [a ^ b] *)
Definition byte_xor (a b : byte) : byte := byte_of_Z (Z.lxor (byte_to_Z a) (byte_to_Z b)).

Definition PRIMITIVE_POLY : Z := 0x11D.

(** One turn of the loop of [build_exp]: multiply by x, reduced. *)
Definition times_x (value : Z) : Z :=
  let value := Z.shiftl value 1 in
  if negb (Z.land value 0x100 =? 0) then Z.lxor value PRIMITIVE_POLY else value.

(** The first [n] powers, from [value] on. *)
Fixpoint powers (n : nat) (value : Z) : list byte :=
  match n with O => [] | S n => byte_of_Z value :: powers n (times_x value) end.

(** [build_exp]: the cycle, then its mirror. *)
Definition build_exp : list byte :=
  let cycle := powers 255 1 in
  cycle ++ cycle ++ take 2 cycle.

(** [build_log] *)
Fixpoint build_log_loop (exp : list byte) (i : Z) (table : list byte) : list byte :=
  match exp with
  | [] => table
  | e :: exp => build_log_loop exp (i + 1) (<[Z.to_nat (byte_to_Z e) := byte_of_Z i]> table)
  end.
Definition build_log (exp : list byte) : list byte :=
  build_log_loop (take 255 exp) 0 (replicate 256 Byte.x00).

Definition EXP : list byte := Eval vm_compute in build_exp.
Definition LOG : list byte := Eval vm_compute in build_log build_exp.

Lemma EXP_built : EXP = build_exp.
Proof. vm_compute. reflexivity. Qed.
Lemma LOG_built : LOG = build_log EXP.
Proof. vm_compute. reflexivity. Qed.

(** [exp_at] and [log_of]. *)
Definition exp_at (index : nat) : byte := nth index EXP Byte.x00.
Definition log_of (value : byte) : nat := Z.to_nat (byte_to_Z (nth (Z.to_nat (byte_to_Z value)) LOG Byte.x00)).

Definition mul (a b : byte) : byte :=
  if bool_decide (a = Byte.x00) || bool_decide (b = Byte.x00) then Byte.x00
  else exp_at (log_of a + log_of b).

Definition inv (a : byte) : byte :=
  if bool_decide (a = Byte.x00) then Byte.x00 else exp_at (255 - log_of a).

(** ** Region operations *)

(** [dst.iter_mut().zip(src)]: the overlap is rewritten, the rest of [dst] left alone. *)
Fixpoint zip_into (f : byte -> byte -> byte) (src dst : list byte) : list byte :=
  match dst, src with
  | d :: dst, s :: src => f d s :: zip_into f src dst
  | dst, _ => dst
  end.

Definition low_nibble (s : byte) : nat := Z.to_nat (Z.land (byte_to_Z s) 0x0F).
Definition high_nibble (s : byte) : nat := Z.to_nat (Z.shiftr (byte_to_Z s) 4).

Definition mul_add_scalar (table_lo table_hi src dst : list byte) : list byte :=
  zip_into (fun d s =>
    byte_xor d (byte_xor (nth (low_nibble s) table_lo Byte.x00) (nth (high_nibble s) table_hi Byte.x00)))
    src dst.

Definition xor_add_scalar (src dst : list byte) : list byte := zip_into byte_xor src dst.
Definition xor_add (src dst : list byte) : list byte := xor_add_scalar src dst.

Record MulTable : Type := mkMulTable { lo : list byte; hi : list byte }.

Definition table_new (coeff : byte) : MulTable :=
  mkMulTable (map (fun nibble => mul coeff (byte_of_Z (Z.of_nat nibble))) (seq 0 16))
             (map (fun nibble => mul coeff (byte_of_Z (Z.shiftl (Z.of_nat nibble) 4))) (seq 0 16)).

Definition add_scaled (t : MulTable) (src dst : list byte) : list byte :=
  mul_add_scalar (lo t) (hi t) src dst.

Definition TABLE_CROSSOVER_BYTES : nat := 96.

Definition mul_add (coeff : byte) (src dst : list byte) : list byte :=
  if bool_decide (coeff = Byte.x00) then dst else
  if bool_decide (coeff = Byte.x01) then xor_add src dst else
  if (TABLE_CROSSOVER_BYTES <=? length src)%nat then add_scaled (table_new coeff) src dst else
  zip_into (fun d s =>
    if bool_decide (s = Byte.x00) then d else byte_xor d (exp_at (log_of coeff + log_of s))) src dst.

(** ** Addition *)

Lemma lxor_byte_range a b : 0 <= a < 256 -> 0 <= b < 256 -> 0 <= Z.lxor a b < 256.
Proof.
  intros Ha Hb. split; [apply Z.lxor_nonneg; lia|].
  destruct (Z.eq_dec (Z.lxor a b) 0) as [->|Hne]; [lia|].
  assert (Hpos : 0 < Z.lxor a b) by (pose proof (proj2 (Z.lxor_nonneg a b)); lia).
  apply (Z.log2_lt_pow2 _ 8); [done|].
  pose proof (Z.log2_lxor a b ltac:(lia) ltac:(lia)).
  assert (Z.log2 a < 8 /\ Z.log2 b < 8).
  { split; [destruct (Z.eq_dec a 0) as [->|]|destruct (Z.eq_dec b 0) as [->|]];
      try (cbn; lia); apply Z.log2_lt_pow2; lia. }
  lia.
Qed.

Lemma byte_xor_Z a b : byte_to_Z (byte_xor a b) = Z.lxor (byte_to_Z a) (byte_to_Z b).
Proof. apply byte_to_Z_of_Z_small, lxor_byte_range; apply byte_to_Z_range. Qed.

Ltac byte_xor_tac := apply byte_to_Z_inj; rewrite ?byte_xor_Z.

Lemma xor_comm a b : byte_xor a b = byte_xor b a.
Proof. byte_xor_tac. apply Z.lxor_comm. Qed.
Lemma xor_assoc a b c : byte_xor a (byte_xor b c) = byte_xor (byte_xor a b) c.
Proof. byte_xor_tac. symmetry. apply Z.lxor_assoc. Qed.
Lemma xor_0_l a : byte_xor Byte.x00 a = a.
Proof. byte_xor_tac. apply Z.lxor_0_l. Qed.
Lemma xor_self a : byte_xor a a = Byte.x00.
Proof. byte_xor_tac. apply Z.lxor_nilpotent. Qed.

(** ** The exponential and the logarithm *)

Lemma exp_log_all : forallb (fun b => bool_decide (b = Byte.x00)
  || (bool_decide (exp_at (log_of b) = b) && (log_of b <? 255)%nat)) all_bytes = true.
Proof. vm_compute. reflexivity. Qed.

Lemma log_exp_all : forallb (fun i => bool_decide (exp_at i <> Byte.x00)
  && (log_of (exp_at i) =? i)%nat && bool_decide (exp_at (i + 255) = exp_at i)) (seq 0 255) = true.
Proof. vm_compute. reflexivity. Qed.

Lemma exp_log b : b <> Byte.x00 -> exp_at (log_of b) = b /\ (log_of b < 255)%nat.
Proof.
  intros Hb. pose proof (forallb_all_bytes _ exp_log_all b) as H. cbv beta in H.
  rewrite bool_decide_eq_false_2 in H by done. cbn [orb] in H. apply andb_prop in H as [H1 H2].
  apply bool_decide_eq_true in H1. apply Nat.ltb_lt in H2. done.
Qed.

Lemma exp_facts i : (i < 255)%nat ->
  exp_at i <> Byte.x00 /\ log_of (exp_at i) = i /\ exp_at (i + 255) = exp_at i.
Proof.
  intros Hi. pose proof log_exp_all as H. rewrite forallb_forall in H.
  specialize (H i). rewrite in_seq in H. specialize (H ltac:(lia)).
  apply andb_prop in H as [[H1 H2]%andb_prop H3].
  apply bool_decide_eq_true in H1, H3. apply Nat.eqb_eq in H2. done.
Qed.

(** Past the cycle the exponential repeats, as far as the table goes. *)
Lemma exp_mod i : (i < 510)%nat -> exp_at i = exp_at (i mod 255).
Proof.
  intros Hi. destruct (Nat.lt_ge_cases i 255) as [Hl|Hg]; [by rewrite Nat.mod_small|].
  replace i with ((i - 255) + 255)%nat at 1 by lia.
  destruct (exp_facts (i - 255)) as (_ & _ & ->); [lia|]. f_equal.
  replace i with ((i - 255) + 1 * 255)%nat at 2 by lia. rewrite Nat.Div0.mod_add.
  by rewrite Nat.mod_small by lia.
Qed.

Lemma mul_nonzero a b : a <> Byte.x00 -> b <> Byte.x00 ->
  mul a b = exp_at ((log_of a + log_of b) mod 255) /\ mul a b <> Byte.x00
  /\ log_of (mul a b) = ((log_of a + log_of b) mod 255)%nat.
Proof.
  intros Ha Hb. unfold mul. rewrite !bool_decide_eq_false_2 by done. cbn [orb].
  destruct (exp_log a Ha) as [_ La], (exp_log b Hb) as [_ Lb].
  rewrite exp_mod by lia. destruct (exp_facts ((log_of a + log_of b) mod 255)) as (H1 & H2 & _);
    [by apply Nat.mod_upper_bound|]. done.
Qed.

Lemma mul_0_l b : mul Byte.x00 b = Byte.x00.
Proof. done. Qed.
Lemma mul_comm a b : mul a b = mul b a.
Proof. unfold mul. by rewrite orb_comm, Nat.add_comm. Qed.
Lemma mul_0_r b : mul b Byte.x00 = Byte.x00.
Proof. by rewrite mul_comm. Qed.

Lemma mul_assoc a b c : mul a (mul b c) = mul (mul a b) c.
Proof.
  destruct (decide (a = Byte.x00)) as [->|Ha]; [by rewrite !mul_0_l|].
  destruct (decide (b = Byte.x00)) as [->|Hb]; [by rewrite mul_0_l, mul_0_r, mul_0_l|].
  destruct (decide (c = Byte.x00)) as [->|Hc]; [by rewrite !mul_0_r|].
  destruct (mul_nonzero b c Hb Hc) as (_ & Hbc & Lbc), (mul_nonzero a b Ha Hb) as (_ & Hab & Lab).
  destruct (mul_nonzero a (mul b c) Ha Hbc) as (-> & _), (mul_nonzero (mul a b) c Hab Hc) as (-> & _).
  rewrite Lbc, Lab, Nat.Div0.add_mod_idemp_r, Nat.Div0.add_mod_idemp_l. do 2 f_equal. lia.
Qed.

Lemma mul_1_l a : mul Byte.x01 a = a.
Proof.
  destruct (decide (a = Byte.x00)) as [->|Ha]; [done|].
  destruct (mul_nonzero Byte.x01 a ltac:(done) Ha) as (-> & _).
  change (log_of Byte.x01) with 0%nat. destruct (exp_log a Ha) as [E L].
  by rewrite Nat.add_0_l, Nat.mod_small.
Qed.

Lemma mul_inv_l a : a <> Byte.x00 -> mul (inv a) a = Byte.x01.
Proof.
  intros Ha. unfold inv. rewrite bool_decide_eq_false_2 by done. destruct (exp_log a Ha) as [_ L].
  assert (Hi : exp_at (255 - log_of a) <> Byte.x00
    /\ ((log_of (exp_at (255 - log_of a)) + log_of a) mod 255 = 0)%nat).
  { destruct (Nat.eq_dec (log_of a) 0%nat) as [E|E].
    - rewrite E. change (exp_at (255 - 0)%nat) with Byte.x01. by split.
    - destruct (exp_facts (255 - log_of a)) as (? & -> & _); [lia|]. split; [done|].
      replace (255 - log_of a + log_of a)%nat with 255%nat by lia. done. }
  destruct Hi as [H1 H2]. destruct (mul_nonzero _ a H1 Ha) as (-> & _). rewrite H2. done.
Qed.

(** ** Distributivity: multiplication by the generator is linear, and everything else is its powers *)

Definition times_x_byte (b : byte) : byte := byte_of_Z (times_x (byte_to_Z b)).

Lemma times_x_all : forallb (fun b => bool_decide (mul Byte.x02 b = times_x_byte b)) all_bytes = true.
Proof. vm_compute. reflexivity. Qed.

Lemma mul_2 b : mul Byte.x02 b = times_x_byte b.
Proof. pose proof (forallb_all_bytes _ times_x_all b) as H. by apply bool_decide_eq_true in H. Qed.

Lemma times_x_spec v : 0 <= v < 256 ->
  times_x v = Z.lxor (Z.shiftl v 1) (if Z.testbit v 7 then PRIMITIVE_POLY else 0).
Proof.
  intros Hv. unfold times_x.
  assert (E : Z.land (Z.shiftl v 1) 0x100 = if Z.testbit v 7 then 0x100 else 0).
  { apply Z.bits_inj'. intros n Hn. rewrite Z.land_spec. change 0x100 with (2 ^ 8).
    rewrite Z.pow2_bits_eqb by lia. destruct (Z.eqb_spec 8 n) as [<-|Hne].
    - rewrite Z.shiftl_spec by lia. change (8 - 1) with 7. destruct (Z.testbit v 7); [|by rewrite Z.bits_0].
      by rewrite Z.pow2_bits_true by lia.
    - rewrite andb_false_r. destruct (Z.testbit v 7); [by rewrite Z.pow2_bits_false by lia|by rewrite Z.bits_0]. }
  rewrite E. destruct (Z.testbit v 7); cbn [negb Z.eqb]; [done|]. by rewrite Z.lxor_0_r.
Qed.

Lemma times_x_linear a b : 0 <= a < 256 -> 0 <= b < 256 ->
  times_x (Z.lxor a b) = Z.lxor (times_x a) (times_x b).
Proof.
  intros Ha Hb. rewrite !times_x_spec by (done || by apply lxor_byte_range).
  rewrite Z.lxor_spec, Z.shiftl_lxor. apply Z.bits_inj'. intros n Hn. rewrite !Z.lxor_spec.
  destruct (Z.testbit a 7), (Z.testbit b 7); cbn [xorb]; rewrite ?Z.bits_0;
    repeat match goal with |- context [Z.testbit ?x n] => destruct (Z.testbit x n) end; done.
Qed.

Lemma times_x_range_all : forallb (fun b => (0 <=? times_x (byte_to_Z b)) && (times_x (byte_to_Z b) <? 256)) all_bytes = true.
Proof. vm_compute. reflexivity. Qed.

Lemma times_x_byte_linear a b : times_x_byte (byte_xor a b) = byte_xor (times_x_byte a) (times_x_byte b).
Proof.
  assert (Hr : forall c, byte_to_Z (times_x_byte c) = times_x (byte_to_Z c)).
  { intros c. apply byte_to_Z_of_Z_small. pose proof (forallb_all_bytes _ times_x_range_all c) as H.
    apply andb_prop in H as [H1%Z.leb_le H2%Z.ltb_lt]. done. }
  byte_xor_tac. rewrite !Hr, byte_xor_Z. apply times_x_linear; apply byte_to_Z_range.
Qed.

Lemma exp_succ_all : forallb (fun i => bool_decide (exp_at (S i) = mul Byte.x02 (exp_at i))) (seq 0 255) = true.
Proof. vm_compute. reflexivity. Qed.

Lemma mul_exp_linear i b c : (i <= 255)%nat ->
  mul (exp_at i) (byte_xor b c) = byte_xor (mul (exp_at i) b) (mul (exp_at i) c).
Proof.
  induction i as [|i IH]; intros Hi.
  - change (exp_at 0) with Byte.x01. by rewrite !mul_1_l.
  - pose proof exp_succ_all as H. rewrite forallb_forall in H. specialize (H i).
    rewrite in_seq in H. specialize (H ltac:(lia)). apply bool_decide_eq_true in H. rewrite H.
    rewrite <- !mul_assoc, IH by lia. by rewrite !mul_2, times_x_byte_linear.
Qed.

Lemma mul_xor_r a b c : mul a (byte_xor b c) = byte_xor (mul a b) (mul a c).
Proof.
  destruct (decide (a = Byte.x00)) as [->|Ha]; [by rewrite !mul_0_l, xor_0_l|].
  destruct (exp_log a Ha) as [E L]. pose proof (mul_exp_linear (log_of a) b c ltac:(lia)) as H.
  by rewrite E in H.
Qed.

Lemma mul_xor_l a b c : mul (byte_xor a b) c = byte_xor (mul a c) (mul b c).
Proof. rewrite !(mul_comm _ c). apply mul_xor_r. Qed.

(** ** The field *)

Definition gf_sub : byte -> byte -> byte := byte_xor.
Definition gf_opp (a : byte) : byte := a.
Definition gf_div (a b : byte) : byte := mul a (inv b).

Lemma gf_field :
  field_theory Byte.x00 Byte.x01 byte_xor mul gf_sub gf_opp gf_div inv (@eq byte).
Proof.
  constructor; [constructor| | |].
  - apply xor_0_l.
  - apply xor_comm.
  - apply xor_assoc.
  - apply mul_1_l.
  - apply mul_comm.
  - apply mul_assoc.
  - apply mul_xor_l.
  - done.
  - apply xor_self.
  - done.
  - done.
  - apply mul_inv_l.
Qed.

(** ** The region operations compute [dst + coeff * src] *)

Definition gf_axpy (coeff : byte) : list byte -> list byte -> list byte :=
  zip_into (fun d s => byte_xor d (mul coeff s)).

Lemma zip_into_ext f g src dst :
  (forall d s, f d s = g d s) -> zip_into f src dst = zip_into g src dst.
Proof.
  intros H. revert src. induction dst as [|d dst IH]; intros [|s src]; cbn [zip_into]; try done.
  by rewrite H, IH.
Qed.

Lemma length_zip_into f src dst : length (zip_into f src dst) = length dst.
Proof. revert src. induction dst as [|d dst IH]; intros [|s src]; cbn [zip_into length]; auto. Qed.

(** A byte is its nibbles. *)
Lemma nibbles_all : forallb (fun s => bool_decide
  (s = byte_xor (byte_of_Z (Z.of_nat (low_nibble s))) (byte_of_Z (Z.shiftl (Z.of_nat (high_nibble s)) 4)))
  && (low_nibble s <? 16)%nat && (high_nibble s <? 16)%nat) all_bytes = true.
Proof. vm_compute. reflexivity. Qed.

Lemma table_lookup coeff s :
  byte_xor (nth (low_nibble s) (lo (table_new coeff)) Byte.x00)
           (nth (high_nibble s) (hi (table_new coeff)) Byte.x00) = mul coeff s.
Proof.
  pose proof (forallb_all_bytes _ nibbles_all s) as H. cbv beta in H.
  apply andb_prop in H as [[H1%bool_decide_eq_true H2%Nat.ltb_lt]%andb_prop H3%Nat.ltb_lt].
  rewrite H1 at 3. rewrite mul_xor_r. cbn [lo hi table_new].
  assert (Hn : forall (f : nat -> byte) n, (n < 16)%nat -> nth n (map f (seq 0 16)) Byte.x00 = f n).
  { intros f n Hn. rewrite (nth_indep _ _ (f 0%nat)) by (rewrite length_map, length_seq; lia).
    by rewrite map_nth, seq_nth. }
  by rewrite !Hn.
Qed.

Lemma xor_add_spec src dst : xor_add src dst = gf_axpy Byte.x01 src dst.
Proof. apply zip_into_ext. intros. by rewrite mul_1_l. Qed.

Lemma add_scaled_axpy coeff src dst : add_scaled (table_new coeff) src dst = gf_axpy coeff src dst.
Proof. apply zip_into_ext. intros. by rewrite table_lookup. Qed.

Lemma mul_add_axpy coeff src dst : mul_add coeff src dst = gf_axpy coeff src dst.
Proof.
  unfold mul_add. destruct (decide (coeff = Byte.x00)) as [->|H0].
  - rewrite bool_decide_eq_true_2 by done. unfold gf_axpy. revert src.
    induction dst as [|d dst IH]; intros [|s src]; cbn [zip_into]; try done.
    rewrite <- IH, mul_0_l, xor_comm, xor_0_l. done.
  - rewrite bool_decide_eq_false_2 by done. destruct (decide (coeff = Byte.x01)) as [->|H1].
    + rewrite bool_decide_eq_true_2 by done. apply xor_add_spec.
    + rewrite bool_decide_eq_false_2 by done. destruct (_ <=? _)%nat; [apply add_scaled_axpy|].
      apply zip_into_ext. intros d s. destruct (decide (s = Byte.x00)) as [->|Hs].
      * by rewrite bool_decide_eq_true_2, mul_0_r, xor_comm, xor_0_l.
      * rewrite bool_decide_eq_false_2 by done. f_equal. unfold mul.
        by rewrite !bool_decide_eq_false_2.
Qed.

(** the tables the code builds make bytes a field: exclusive or is addition, [mul] is associative,
    commutative and distributes over it, and [inv] inverts every byte but zero. *)
Theorem gf256_is_a_field :
  field_theory Byte.x00 Byte.x01 byte_xor mul gf_sub gf_opp gf_div inv (@eq byte)
  /\ EXP = build_exp /\ LOG = build_log build_exp.
Proof. split; [apply gf_field|]. split; [apply EXP_built|]. rewrite LOG_built. by rewrite EXP_built. Qed.

(** the three forms of the scaled accumulate are one: whatever the coefficient and the lengths, the
    fast paths, the nibble tables and the per-byte logarithms all add [coeff * src] to [dst] over the
    overlap and leave the rest of [dst] alone. *)
Theorem mul_add_is_axpy coeff src dst :
  mul_add coeff src dst = zip_into (fun d s => byte_xor d (mul coeff s)) src dst
  /\ add_scaled (table_new coeff) src dst = mul_add coeff src dst
  /\ length (mul_add coeff src dst) = length dst.
Proof.
  rewrite mul_add_axpy, add_scaled_axpy. split; [done|]. split; [done|]. apply length_zip_into.
Qed.
