(* ===== verification/LinAlg.v ===== *)
(** * LinAlg: the linear algebra the erasure code rests on

    Over any field with decidable equality: sums over a range and over a list, and the fact that a
    Cauchy matrix has no kernel, by elimination of one row and one column at a time. *)

From Stdlib Require Import Field_theory Ring_theory Field.
From S2P Require Import Prelude.

Section Field.
Context {F : Type} (rO rI : F) (radd rmul rsub : F -> F -> F) (ropp : F -> F)
  (rdiv : F -> F -> F) (rinv : F -> F).
Context (Fth : field_theory rO rI radd rmul rsub ropp rdiv rinv (@eq F)).
Context `{!EqDecision F}.

Add Field Ffield : Fth.

(** ** Sums *)

Definition lsum {A} (f : A -> F) (l : list A) : F := foldr (fun a acc => radd (f a) acc) rO l.

Lemma lsum_cons {A} (f : A -> F) a l : lsum f (a :: l) = radd (f a) (lsum f l).
Proof. done. Qed.

Lemma lsum_ext {A} (f g : A -> F) l : (forall a, a ∈ l -> f a = g a) -> lsum f l = lsum g l.
Proof.
  induction l as [|a l IH]; intros H; [done|]. rewrite !lsum_cons, (H a) by left. f_equal.
  apply IH. intros; apply H; by right.
Qed.

Lemma lsum_zero {A} (f : A -> F) l : (forall a, a ∈ l -> f a = rO) -> lsum f l = rO.
Proof.
  induction l as [|a l IH]; intros H; [done|]. rewrite lsum_cons, (H a) by left.
  rewrite IH by (intros; apply H; by right). ring.
Qed.

Lemma lsum_add {A} (f g : A -> F) l : lsum (fun a => radd (f a) (g a)) l = radd (lsum f l) (lsum g l).
Proof. induction l as [|a l IH]; [cbn; ring|]. rewrite !lsum_cons, IH. ring. Qed.

Lemma lsum_sub {A} (f g : A -> F) l : lsum (fun a => rsub (f a) (g a)) l = rsub (lsum f l) (lsum g l).
Proof. induction l as [|a l IH]; [cbn; ring|]. rewrite !lsum_cons, IH. ring. Qed.

Lemma lsum_scale {A} (f : A -> F) k l : lsum (fun a => rmul k (f a)) l = rmul k (lsum f l).
Proof. induction l as [|a l IH]; [cbn; ring|]. rewrite !lsum_cons, IH. ring. Qed.

Lemma lsum_app {A} (f : A -> F) a b : lsum f (a ++ b) = radd (lsum f a) (lsum f b).
Proof. induction a as [|x a IH]; [change (lsum f b = radd rO (lsum f b)); ring|]. cbn [app]. rewrite !lsum_cons, IH. ring. Qed.

Lemma lsum_swap {A B} (f : A -> B -> F) la lb :
  lsum (fun a => lsum (f a) lb) la = lsum (fun b => lsum (fun a => f a b) la) lb.
Proof.
  induction la as [|a la IH].
  - symmetry. by apply lsum_zero.
  - rewrite lsum_cons, IH. cbn. by rewrite <- lsum_add.
Qed.

(** The terms that vanish may be left out. *)
Lemma lsum_filter {A} (P : A -> Prop) `{!forall x, Decision (P x)} (f : A -> F) l :
  (forall a, a ∈ l -> ~ P a -> f a = rO) -> lsum f (filter P l) = lsum f l.
Proof.
  induction l as [|a l IH]; intros Hz; [done|].
  assert (IH' : lsum f (filter P l) = lsum f l) by (apply IH; intros; apply Hz; [by right|done]).
  rewrite lsum_cons. destruct (decide (P a)) as [Hp|Hp].
  - rewrite filter_cons_True by done. by rewrite lsum_cons, IH'.
  - rewrite filter_cons_False, IH', (Hz a) by (done || left). ring.
Qed.

(** Exactly one term. *)
Lemma lsum_single {A} (f : A -> F) l a :
  NoDup l -> a ∈ l -> (forall b, b ∈ l -> b <> a -> f b = rO) -> lsum f l = f a.
Proof.
  induction l as [|b l IH]; intros Hn Ha Hz; [by apply elem_of_nil in Ha|].
  apply NoDup_cons in Hn as [Hb Hn]. rewrite lsum_cons.
  apply elem_of_cons in Ha as [<-|Ha].
  - rewrite lsum_zero; [ring|]. intros c Hc. apply Hz; [by right|]. by intros ->.
  - rewrite (Hz b) by (by left || (intros ->; done)).
    rewrite IH; [ring|done|done|]. intros c Hc. apply Hz. by right.
Qed.

(** ** No zero divisors *)

Lemma mul_zero a b : rmul a b = rO -> a = rO \/ b = rO.
Proof.
  intros H. destruct (decide (a = rO)) as [?|Ha]; [by left|right].
  transitivity (rmul (rdiv rI a) (rmul a b)); [field; done|]. rewrite H. ring.
Qed.

Lemma mul_nonzero_ne a b : a <> rO -> b <> rO -> rmul a b <> rO.
Proof. intros Ha Hb H. by destruct (mul_zero a b H). Qed.

Lemma sub_zero a b : rsub a b = rO -> a = b.
Proof. intros H. transitivity (radd (rsub a b) b); [ring|]. rewrite H. ring. Qed.

Lemma sub_nonzero a b : a <> b -> rsub a b <> rO.
Proof. intros H E. by apply H, sub_zero. Qed.

Lemma inv_nonzero a : a <> rO -> rdiv rI a <> rO.
Proof.
  intros Ha E. assert (H : rmul (rdiv rI a) a = rI) by (field; done).
  rewrite E in H. apply (F_1_neq_0 Fth). rewrite <- H. ring.
Qed.

(** ** A Cauchy matrix has no kernel *)

Lemma cauchy_step x1 x y1 y v : x <> y -> x1 <> y -> 
  rmul (rmul v (rsub y y1)) (rmul (rsub x x1) (rmul (rdiv rI (rsub x y)) (rdiv rI (rsub x1 y))))
  = rsub (rmul (rsub x1 y1) (rmul v (rdiv rI (rsub x1 y)))) (rmul (rsub x y1) (rmul v (rdiv rI (rsub x y)))).
Proof.
  intros H1 H2. pose proof (sub_nonzero x y H1). pose proof (sub_nonzero x1 y H2). field. done.
Qed.

Lemma cauchy_no_kernel {A} (y : A -> F) (xs : list F) (js : list A) (v : A -> F) :
  NoDup xs -> NoDup (map y js) -> length xs = length js ->
  (forall x j, x ∈ xs -> j ∈ js -> x <> y j) ->
  (forall x, x ∈ xs -> lsum (fun j => rmul (v j) (rdiv rI (rsub x (y j)))) js = rO) ->
  forall j, j ∈ js -> v j = rO.
Proof.
  revert v xs. induction js as [|j1 js IH]; intros v xs Hx Hy Hlen Hne Hz j Hj;
    [by apply elem_of_nil in Hj|].
  destruct xs as [|x1 xs]; [done|]. injection Hlen as Hlen.
  apply NoDup_cons in Hx as [Hx1 Hx]. cbn [map] in Hy. apply NoDup_cons in Hy as [Hy1 Hy].
  assert (Hnxy : forall x j, x ∈ x1 :: xs -> j ∈ j1 :: js -> rsub x (y j) <> rO)
    by (intros; by apply sub_nonzero, Hne).
  (* eliminate the first column from every row by the first row *)
  assert (Hrest : forall j, j ∈ js -> v j = rO).
  { intros j2 Hj2.
    set (w := fun j => rmul (rmul (v j) (rsub (y j) (y j1))) (rdiv rI (rsub x1 (y j)))).
    assert (Hw : w j2 = rO).
    { apply (IH w xs); try done.
      - intros x j3 H3 H4. apply Hne; by right.
      - intros x Hxin.
        assert (Hxx : rsub x x1 <> rO) by (apply sub_nonzero; intros ->; done).
        assert (Hscaled : rmul (rsub x x1)
          (lsum (fun j => rmul (w j) (rdiv rI (rsub x (y j)))) js) = rO).
        { rewrite <- lsum_scale.
          rewrite (lsum_ext _ (fun j =>
            rsub (rmul (rsub x1 (y j1)) (rmul (v j) (rdiv rI (rsub x1 (y j)))))
                 (rmul (rsub x (y j1)) (rmul (v j) (rdiv rI (rsub x (y j))))))).
          2: { intros j3 H3. rewrite <- cauchy_step by (apply Hne; [first [left|by right]|by right]).
               unfold w. ring. }
          rewrite lsum_sub, !lsum_scale.
          pose proof (Hz x1 ltac:(left)) as Z1. pose proof (Hz x ltac:(by right)) as Zx.
          rewrite lsum_cons in Z1, Zx.
          assert (S1 : rmul (rsub x1 (y j1)) (lsum (fun j => rmul (v j) (rdiv rI (rsub x1 (y j)))) js)
                       = ropp (v j1)).
          { transitivity (rsub (rmul (rsub x1 (y j1))
              (radd (rmul (v j1) (rdiv rI (rsub x1 (y j1))))
                    (lsum (fun j => rmul (v j) (rdiv rI (rsub x1 (y j)))) js))) (v j1)).
            - field. apply Hnxy; left.
            - rewrite Z1. ring. }
          assert (Sx : rmul (rsub x (y j1)) (lsum (fun j => rmul (v j) (rdiv rI (rsub x (y j)))) js)
                       = ropp (v j1)).
          { transitivity (rsub (rmul (rsub x (y j1))
              (radd (rmul (v j1) (rdiv rI (rsub x (y j1))))
                    (lsum (fun j => rmul (v j) (rdiv rI (rsub x (y j)))) js))) (v j1)).
            - field. apply Hnxy; [by right|left].
            - rewrite Zx. ring. }
          rewrite S1, Sx. ring. }
        by destruct (mul_zero _ _ Hscaled). }
    destruct (mul_zero _ _ Hw) as [Hw'|Hw'].
    - destruct (mul_zero _ _ Hw') as [?|Hs]; [done|]. apply sub_zero in Hs.
      exfalso. apply Hy1. rewrite <- Hs. apply list_elem_of_fmap. eauto.
    - exfalso. revert Hw'. apply inv_nonzero, Hnxy; [left|by right]. }
  apply elem_of_cons in Hj as [->|Hj]; [|by apply Hrest].
  specialize (Hz x1 ltac:(left)). rewrite lsum_cons in Hz.
  rewrite lsum_zero in Hz.
  2: { intros j3 H3. rewrite (Hrest j3 H3). ring. }
  assert (Hm : rmul (v j1) (rdiv rI (rsub x1 (y j1))) = rO) by (rewrite <- Hz; ring).
  destruct (mul_zero _ _ Hm) as [?|Hi]; [done|]. exfalso. revert Hi. apply inv_nonzero, Hnxy; left.
Qed.

(** ** Gauss-Jordan elimination, on matrices as functions

    The working matrix has [2 * k] columns; its left half starts as [a] and its right half as the
    identity. *)

Definition below (k : nat) (f : nat -> F) : F := lsum f (seq 0 k).
Definition delta (r c : nat) : F := if decide (r = c) then rI else rO.

Lemma below_ext k f g : (forall i, (i < k)%nat -> f i = g i) -> below k f = below k g.
Proof. intros H. apply lsum_ext. intros i Hi. apply elem_of_seq in Hi. apply H. lia. Qed.

Lemma below_single k f i : (i < k)%nat -> (forall j, (j < k)%nat -> j <> i -> f j = rO) -> below k f = f i.
Proof.
  intros Hi Hz. apply lsum_single; [apply NoDup_seq|apply elem_of_seq; lia|].
  intros j Hj. apply elem_of_seq in Hj. apply Hz. lia.
Qed.

Lemma below_add k f g : below k (fun i => radd (f i) (g i)) = radd (below k f) (below k g).
Proof. apply lsum_add. Qed.
Lemma below_sub k f g : below k (fun i => rsub (f i) (g i)) = rsub (below k f) (below k g).
Proof. apply lsum_sub. Qed.
Lemma below_scale k x f : below k (fun i => rmul x (f i)) = rmul x (below k f).
Proof. apply lsum_scale. Qed.
Lemma below_swap k l f : below k (fun i => below l (f i)) = below l (fun j => below k (fun i => f i j)).
Proof. apply lsum_swap. Qed.

Definition matrix : Type := nat -> nat -> F.

Section Elimination.
Context (k : nat) (a : matrix).

(** A row of the working matrix is a combination of rows of [a], with the weights it carries. *)
Definition row_solves (row : nat -> F) : Prop :=
  forall c, (c < k)%nat -> below k (fun t => rmul (row (k + t)%nat) (a t c)) = row c.

Record gj_inv (m : matrix) (col : nat) : Prop := {
  gi_solves : forall r, (r < k)%nat -> row_solves (m r);
  gi_kernel : forall v,
    (forall r, (r < k)%nat -> below k (fun c => rmul (m r c) (v c)) = rO) ->
    forall r, (r < k)%nat -> below k (fun c => rmul (a r c) (v c)) = rO;
  gi_unit : forall r c, (r < k)%nat -> (c < col)%nat -> m r c = delta r c;
}.

Lemma row_solves_ext row row' :
  (forall c, (c < 2 * k)%nat -> row c = row' c) -> row_solves row -> row_solves row'.
Proof.
  intros He H c Hc. rewrite <- He by lia. rewrite <- H by done. apply below_ext.
  intros i Hi. by rewrite He by lia.
Qed.

Lemma gi_ext m m' col :
  (col <= k)%nat -> (forall r c, (r < k)%nat -> (c < 2 * k)%nat -> m r c = m' r c) ->
  gj_inv m col -> gj_inv m' col.
Proof.
  intros Hcol He [H1 H2 H3]. split.
  - intros r Hr. eapply row_solves_ext; [|by apply H1]. intros; by apply He.
  - intros v Hv. apply H2. intros r Hr. rewrite <- (Hv r Hr). apply below_ext.
    intros i Hi. by rewrite He by lia.
  - intros r c Hr Hc. rewrite <- He by lia. by apply H3.
Qed.

(** The start: [a], and the identity beside it. *)
Lemma gi_start m :
  (forall r c, (r < k)%nat -> (c < k)%nat -> m r c = a r c /\ m r (k + c)%nat = delta r c) -> gj_inv m 0.
Proof.
  intros H. split.
  - intros r Hr c Hc. rewrite (below_single k _ r Hr).
    + destruct (H r r Hr Hr) as [_ ->], (H r c Hr Hc) as [-> _]. unfold delta.
      rewrite decide_True by done. ring.
    + intros t Ht Hne. destruct (H r t Hr Ht) as [_ ->]. unfold delta.
      rewrite decide_False by auto. ring.
  - intros v Hv r Hr. rewrite <- (Hv r Hr). apply below_ext. intros c Hc.
    by destruct (H r c Hr Hc) as [-> _].
  - intros; lia.
Qed.

Definition swapped (m : matrix) (x y : nat) : matrix :=
  fun r c => m (if decide (r = x) then y else if decide (r = y) then x else r) c.
Definition scaled (m : matrix) (x : nat) (s : F) : matrix :=
  fun r c => if decide (r = x) then rmul (m r c) s else m r c.
Definition eliminated (m : matrix) (src dst : nat) (f : F) : matrix :=
  fun r c => if decide (r = dst) then rsub (m r c) (rmul f (m src c)) else m r c.

Lemma gi_swap m col x y :
  (col <= x)%nat -> (col <= y)%nat -> (x < k)%nat -> (y < k)%nat ->
  gj_inv m col -> gj_inv (swapped m x y) col.
Proof.
  intros Hx Hy Hxk Hyk [H1 H2 H3]. unfold swapped. split.
  - intros r Hr. apply H1. repeat case_decide; lia.
  - intros v Hv. apply H2. intros r Hr.
    assert (Hi : exists r', (r' < k)%nat
      /\ (if decide (r' = x) then y else if decide (r' = y) then x else r') = r).
    { destruct (decide (r = x)) as [->|]; [exists y|destruct (decide (r = y)) as [->|]; [exists x|exists r]];
        (split; [done|]); repeat case_decide; congruence. }
    destruct Hi as (r' & Hr' & E). rewrite <- (Hv r' Hr'). apply below_ext. intros c _. by rewrite E.
  - intros r c Hr Hc. destruct (decide (r = x)) as [->|]; [|destruct (decide (r = y)) as [->|]; [|auto]];
      rewrite H3 by lia; unfold delta; by rewrite !decide_False by lia.
Qed.

Lemma row_solves_scale row s : row_solves row -> row_solves (fun c => rmul (row c) s).
Proof.
  intros H c Hc. rewrite <- (H c Hc).
  transitivity (rmul s (below k (fun t => rmul (row (k + t)%nat) (a t c)))); [|ring].
  rewrite <- below_scale. apply below_ext. intros; ring.
Qed.

Lemma row_solves_sub row row' f :
  row_solves row -> row_solves row' -> row_solves (fun c => rsub (row c) (rmul f (row' c))).
Proof.
  intros H H' c Hc. rewrite <- (H c Hc), <- (H' c Hc), <- below_scale, <- below_sub.
  apply below_ext. intros; ring.
Qed.

Lemma gi_scale m col x s :
  (col <= x)%nat -> (x < k)%nat -> s <> rO -> gj_inv m col -> gj_inv (scaled m x s) col.
Proof.
  intros Hx Hxk Hs [H1 H2 H3]. unfold scaled. split.
  - intros r Hr. case_decide; [by apply row_solves_scale, H1|by apply H1].
  - intros v Hv. apply H2. intros r Hr. specialize (Hv r Hr). case_decide as Hd; [|done].
    assert (Hm : rmul s (below k (fun c => rmul (m r c) (v c))) = rO).
    { rewrite <- Hv, <- below_scale. apply below_ext. intros; ring. }
    by destruct (mul_zero _ _ Hm).
  - intros r c Hr Hc. rewrite H3 by lia. case_decide; [|done]. subst. unfold delta.
    rewrite decide_False by lia. ring.
Qed.

Lemma gi_eliminate m col src dst f :
  (col <= src)%nat -> (src < k)%nat -> (dst < k)%nat -> src <> dst ->
  gj_inv m col -> gj_inv (eliminated m src dst f) col.
Proof.
  intros Hs Hsk Hdk Hne [H1 H2 H3]. unfold eliminated. split.
  - intros r Hr. case_decide; [apply row_solves_sub; by apply H1|by apply H1].
  - intros v Hv. apply H2. intros r Hr. pose proof (Hv r Hr) as Hvr.
    case_decide as Hd; [|done]. subst r.
    pose proof (Hv src Hsk) as Hvs. destruct (decide (src = dst)) as [?|_]; [done|].
    transitivity (radd (rsub (below k (fun c => rmul (m dst c) (v c)))
                             (rmul f (below k (fun c => rmul (m src c) (v c)))))
                       (rmul f (below k (fun c => rmul (m src c) (v c))))); [ring|].
    rewrite <- below_scale, <- below_sub, below_scale, Hvs.
    rewrite (below_ext k _ (fun c => rmul (rsub (m dst c) (rmul f (m src c))) (v c)))
      by (intros; ring).
    rewrite Hvr. ring.
  - intros r c Hr Hc. rewrite !H3 by lia. case_decide; [|done]. subst. unfold delta.
    rewrite (decide_False (P := src = c)) by lia. ring.
Qed.

(** Clearing the pivot's column from every other row, one row after another. *)
Definition clear_row (m : matrix) (col r : nat) : matrix :=
  if decide (r = col) then m
  else if decide (m r col = rO) then m else eliminated m col r (m r col).

Lemma clear_rows_spec rows m col :
  (col < k)%nat -> (forall r, r ∈ rows -> (r < k)%nat) -> m col col = rI -> gj_inv m col ->
  let m' := foldl (fun m r => clear_row m col r) m rows in
  gj_inv m' col /\ m' col col = rI
  /\ (forall r, r ∈ rows -> r <> col -> m' r col = rO)
  /\ (forall r, m r col = rO -> r <> col -> m' r col = rO).
Proof.
  intros Hcol. revert m. induction rows as [|r rows IH]; intros m Hr Hp Hinv; cbn [foldl].
  { cbv zeta. split_and!; try done. by intros r ?%elem_of_nil. }
  assert (Hone : gj_inv (clear_row m col r) col /\ clear_row m col r col col = rI
    /\ (r <> col -> clear_row m col r r col = rO)
    /\ (forall r', m r' col = rO -> r' <> col -> clear_row m col r r' col = rO)).
  { unfold clear_row. destruct (decide (r = col)) as [->|Hne]; [done|].
    destruct (decide (m r col = rO)) as [Hz|Hz]; [done|].
    split_and!; [apply gi_eliminate; try done; apply Hr; left| | |];
      unfold eliminated.
    - by rewrite decide_False by auto.
    - intros _. rewrite decide_True by done. rewrite Hp. ring.
    - intros r' Hz' _. case_decide; [by subst|done]. }
  destruct Hone as (Hi & Hp' & Hz & Hk).
  destruct (IH (clear_row m col r) ltac:(intros; apply Hr; by right) Hp' Hi) as (I1 & I2 & I3 & I4).
  cbv zeta in *. split_and!; try done.
  - intros r' [->|Hin]%elem_of_cons Hne; [by apply I4; [apply Hz|]|by apply I3].
  - intros r' Hz' Hne. apply I4; [by apply Hk|done].
Qed.

Lemma gi_next m col :
  (col < k)%nat -> gj_inv m col -> m col col = rI ->
  (forall r, (r < k)%nat -> r <> col -> m r col = rO) -> gj_inv m (S col).
Proof.
  intros Hcol [H1 H2 H3] Hp Hz. split; [done|done|]. intros r c Hr Hc.
  destruct (decide (c = col)) as [->|]; [|apply H3; lia]. unfold delta. case_decide; [by subst|auto].
Qed.

(** No pivot: the columns so far and this one are dependent. *)
Lemma gi_singular m col :
  (col < k)%nat -> gj_inv m col -> (forall r, (col <= r < k)%nat -> m r col = rO) ->
  exists v, v col = rI /\ forall r, (r < k)%nat -> below k (fun c => rmul (a r c) (v c)) = rO.
Proof.
  intros Hcol [H1 H2 H3] Hz.
  set (v := fun c => if decide (c < col)%nat then ropp (m c col) else delta c col).
  exists v. split; [subst v; cbv beta; rewrite decide_False by lia; unfold delta; by rewrite decide_True|].
  apply H2. intros r Hr.
  assert (Hv : forall c, (c < k)%nat -> rmul (m r c) (v c)
    = radd (if decide (c = r /\ (r < col)%nat) then ropp (m r col) else rO)
           (if decide (c = col) then m r col else rO)).
  { intros c Hc. subst v. cbv beta. destruct (decide (c < col)%nat) as [Hl|Hl].
    - rewrite H3 by done. unfold delta. rewrite (decide_False (P := c = col)) by lia.
      destruct (decide (r = c)) as [<-|Hne].
      + rewrite decide_True by done. ring.
      + rewrite decide_False by (intros [? ?]; congruence). ring.
    - rewrite (decide_False (P := c = r /\ _)) by lia. unfold delta.
      destruct (decide (c = col)) as [->|]; ring. }
  rewrite (below_ext k _ _ Hv), below_add.
  rewrite (below_single k (fun c => if decide (c = col) then m r col else rO) col Hcol)
    by (intros; by rewrite decide_False).
  rewrite decide_True by done.
  rewrite (below_single k (fun c => if decide (c = r /\ (r < col)%nat) then ropp (m r col) else rO) r Hr)
    by (intros j _ Hne; rewrite decide_False; [done|by intros [? _]]).
  destruct (decide (r < col)%nat) as [Hl|Hl].
  - rewrite decide_True by done. ring.
  - rewrite decide_False by (by intros [_ ?]). rewrite Hz by lia. ring.
Qed.

(** Done: the right half undoes [a]. *)
Lemma gi_done m : gj_inv m k ->
  forall r c, (r < k)%nat -> (c < k)%nat ->
  below k (fun t => rmul (m r (k + t)%nat) (a t c)) = delta r c.
Proof. intros [H1 _ H3] r c Hr Hc. rewrite (H1 r Hr c Hc). by apply H3. Qed.

(** What undoes [a] recovers what [a] was applied to. *)
Lemma inverse_recovers (b : matrix) (d s : nat -> F) :
  (forall r c, (r < k)%nat -> (c < k)%nat -> below k (fun t => rmul (b r t) (a t c)) = delta r c) ->
  (forall t, (t < k)%nat -> s t = below k (fun c => rmul (a t c) (d c))) ->
  forall r, (r < k)%nat -> below k (fun t => rmul (b r t) (s t)) = d r.
Proof.
  intros Hb Hs r Hr.
  rewrite (below_ext k _ (fun t => below k (fun c => rmul (rmul (b r t) (a t c)) (d c)))).
  2: { intros t Ht. rewrite Hs by done. rewrite <- below_scale. apply below_ext. intros; ring. }
  rewrite below_swap.
  rewrite (below_ext k _ (fun c => rmul (delta r c) (d c))).
  2: { intros c Hc. rewrite <- Hb by done.
       transitivity (rmul (d c) (below k (fun t => rmul (b r t) (a t c)))); [|ring].
       rewrite <- below_scale. apply below_ext. intros; ring. }
  rewrite (below_single k _ r Hr).
  - unfold delta. rewrite decide_True by done. ring.
  - intros j _ Hne. unfold delta. rewrite decide_False by auto. ring.
Qed.
End Elimination.
End Field.
