(* ===== verification/RsMatrix.v ===== *)
(** * RsMatrix: the coefficient matrix of the erasure code, and its inversion

    Models [slopdesk-video/src/rs_matrix.rs]: the Cauchy parity block and Gauss-Jordan elimination over
    a flat, row-major buffer.  The proofs read the buffer as a matrix and use [LinAlg] over the field
    of [Gf256].  Indices are [usize] values small enough to be [nat]. *)

From S2P Require Import Prelude Gf256 LinAlg.

(** The parity block.  The code asserts [k + m <= 256]. *)
Definition parity_rows (k m : nat) : list byte :=
  concat (map (fun i =>
    let x_i := byte_of_Z (Z.of_nat (k + i)) in
    map (fun j => inv (byte_xor x_i (byte_of_Z (Z.of_nat j)))) (seq 0 k)) (seq 0 m)).

(** ** The working buffer *)

Definition at_ (work : list byte) (stride r c : nat) : byte := nth (r * stride + c) work Byte.x00.

(** The window of row [r], and the buffer with that window rewritten. *)
Definition row_of (work : list byte) (stride r : nat) : list byte := take stride (drop (r * stride) work).
Definition set_row (work : list byte) (stride r : nat) (row : list byte) : list byte :=
  take (r * stride) work ++ row ++ drop (r * stride + stride) work.

Definition swap_rows (work : list byte) (stride a b : nat) : list byte :=
  if (a =? b)%nat then work else
  let lo := Nat.min a b in
  let hi := Nat.max a b in
  if (hi * stride + stride <=? length work)%nat
  then set_row (set_row work stride lo (row_of work stride hi)) stride hi (row_of work stride lo)
  else work.

Definition scale_row (work : list byte) (stride r : nat) (s : byte) : list byte :=
  if bool_decide (s = Byte.x01) then work else
  if (r * stride + stride <=? length work)%nat
  then set_row work stride r (map (fun v => mul v s) (row_of work stride r))
  else work.

Definition eliminate_row (work : list byte) (stride src dst : nat) (factor : byte) : list byte :=
  if (src =? dst)%nat then work else
  let hi := Nat.max src dst in
  if (hi * stride + stride <=? length work)%nat
  then set_row work stride dst (mul_add factor (row_of work stride src) (row_of work stride dst))
  else work.

(** [while pivot < k && at(..) == 0 { pivot += 1 }] *)
Fixpoint find_pivot (fuel : nat) (work : list byte) (stride k pivot col : nat) : nat :=
  match fuel with
  | O => pivot
  | S fuel =>
    if (pivot <? k)%nat && bool_decide (at_ work stride pivot col = Byte.x00)
    then find_pivot fuel work stride k (S pivot) col else pivot
  end.

(** The elimination of one column from one row. *)
Definition clear_one (stride col : nat) (work : list byte) (r : nat) : list byte :=
  if (r =? col)%nat then work else
  let factor := at_ work stride r col in
  if bool_decide (factor = Byte.x00) then work else eliminate_row work stride col r factor.

(** The body of the loop over columns. *)
Definition reduce_col (k : nat) (work : list byte) (col : nat) : option (list byte) :=
  let stride := (2 * k)%nat in
  let pivot := find_pivot k work stride k col col in
  if (pivot =? k)%nat then None else
  let work := if (pivot =? col)%nat then work else swap_rows work stride pivot col in
  let work := scale_row work stride col (inv (at_ work stride col col)) in
  Some (foldl (clear_one stride col) work (seq 0 k)).

Fixpoint reduce_cols (k : nat) (work : list byte) (cols : list nat) : option (list byte) :=
  match cols with
  | [] => Some work
  | col :: cols => match reduce_col k work col with
                   | Some work => reduce_cols k work cols | None => None end
  end.

(** One row of [A | I]; a row of the wrong width fails the whole inversion. *)
Definition augmented_row (k r : nat) (row : list byte) : option (list byte) :=
  if (length row =? k)%nat then Some (row ++ <[r := Byte.x01]> (replicate k Byte.x00)) else None.

Fixpoint augment (k r : nat) (rows : list (list byte)) : option (list byte) :=
  match rows with
  | [] => Some []
  | row :: rows =>
    match augmented_row k r row, augment k (S r) rows with
    | Some a, Some rest => Some (a ++ rest)
    | _, _ => None
    end
  end.

(** [slice::chunks_exact] *)
Fixpoint chunks_exact (fuel size : nat) (l : list byte) : list (list byte) :=
  match fuel with
  | O => []
  | S fuel => if (length l <? size)%nat then []
              else take size l :: chunks_exact fuel size (drop size l)
  end.

Definition invert_subset (rows : list (list byte)) (k : nat) : option (list byte) :=
  if (k =? 0)%nat || negb (length rows =? k)%nat then None else
  match augment k 0 rows with
  | None => None
  | Some work =>
    match reduce_cols k work (seq 0 k) with
    | None => None
    | Some work =>
      Some (concat (map (fun row => drop k row) (chunks_exact (length work) (2 * k) work)))
    end
  end.

Example inverts_a_swap :
  invert_subset [[Byte.x00; Byte.x01]; [Byte.x01; Byte.x00]] 2
  = Some [Byte.x00; Byte.x01; Byte.x01; Byte.x00].
Proof. vm_compute. reflexivity. Qed.

(** ** The buffer as a matrix *)

Lemma nth_row_of work stride r c :
  (c < stride)%nat -> nth c (row_of work stride r) Byte.x00 = at_ work stride r c.
Proof. intros Hc. unfold row_of, at_. rewrite nth_firstn, nth_skipn. by destruct (Nat.ltb_spec c stride); [|lia]. Qed.

Lemma length_row_of work stride r k :
  length work = (k * stride)%nat -> (r < k)%nat -> length (row_of work stride r) = stride.
Proof. intros Hl Hr. unfold row_of. rewrite length_take, length_drop. nia. Qed.

Lemma length_set_row work stride r row k :
  length work = (k * stride)%nat -> (r < k)%nat -> length row = stride ->
  length (set_row work stride r row) = (k * stride)%nat.
Proof. intros Hl Hr Hrow. unfold set_row. rewrite !length_app, length_take, length_drop. nia. Qed.

Lemma at_set_row work stride r row k r' c :
  length work = (k * stride)%nat -> (r < k)%nat -> length row = stride -> (r' < k)%nat -> (c < stride)%nat ->
  at_ (set_row work stride r row) stride r' c
  = if decide (r' = r) then nth c row Byte.x00 else at_ work stride r' c.
Proof.
  intros Hl Hr Hrow Hr' Hc. unfold at_, set_row.
  assert (Ht : length (take (r * stride) work) = (r * stride)%nat) by (rewrite length_take; nia).
  case_decide as Hd.
  - subst r'. rewrite app_nth2 by lia. rewrite Ht, app_nth1 by lia. f_equal. lia.
  - destruct (Nat.lt_ge_cases r' r) as [Hlt|Hge].
    + rewrite app_nth1 by nia. rewrite nth_firstn. destruct (Nat.ltb_spec (r' * stride + c) (r * stride)); [done|nia].
    + rewrite app_nth2, Ht, app_nth2 by nia. rewrite Hrow, nth_skipn. f_equal. nia.
Qed.

Abbreviation Msub := gf_sub.
Abbreviation gf_below := (below Byte.x00 byte_xor).
Abbreviation gf_delta := (delta Byte.x00 Byte.x01).
Abbreviation gf_inv_at k a m col :=
  (gj_inv Byte.x00 Byte.x01 byte_xor mul k a m col).

Section Invert.
Context (k : nat) (a : nat -> nat -> byte).
Hypothesis Hk : (0 < k)%nat.

Definition good (work : list byte) : Prop := length work = (k * (2 * k))%nat.
Definition view (work : list byte) : nat -> nat -> byte := at_ work (2 * k).

(** Agreement on the cells that exist. *)
Definition agrees (m m' : nat -> nat -> byte) : Prop :=
  forall r c, (r < k)%nat -> (c < 2 * k)%nat -> m r c = m' r c.

Lemma guard_ok work i : good work -> (i < k)%nat -> (i * (2 * k) + 2 * k <=? length work)%nat = true.
Proof. unfold good. intros -> Hi. apply Nat.leb_le. nia. Qed.

Lemma swap_rows_view work x y :
  good work -> (x < k)%nat -> (y < k)%nat ->
  good (swap_rows work (2 * k) x y) /\ agrees (swapped (view work) x y) (view (swap_rows work (2 * k) x y)).
Proof.
  intros Hg Hx Hy. unfold swap_rows, view, swapped. destruct (Nat.eqb_spec x y) as [->|Hne].
  { split; [done|]. intros r c _ _. destruct (decide (r = y)) as [->|]; done. }
  rewrite guard_ok by (done || lia).
  assert (H1 : good (set_row work (2 * k) (Nat.min x y) (row_of work (2 * k) (Nat.max x y)))).
  { apply length_set_row; [done|lia|]. eapply length_row_of; [done|lia]. }
  split.
  - apply length_set_row; [done|lia|]. eapply length_row_of; [done|lia].
  - intros r c Hr Hc.
    rewrite (at_set_row _ (2 * k) (Nat.max x y) _ k); [|done|lia|by eapply length_row_of; [done|lia]|done|done].
    rewrite (at_set_row _ (2 * k) (Nat.min x y) _ k); [|done|lia|by eapply length_row_of; [done|lia]|done|done].
    rewrite !nth_row_of by done.
    destruct (Nat.min_spec x y) as [[? ->]|[? ->]], (Nat.max_spec x y) as [[? E]|[? E]]; try lia; rewrite E;
      repeat case_decide; subst; done || lia.
Qed.

Lemma scale_row_view work x s :
  good work -> (x < k)%nat ->
  good (scale_row work (2 * k) x s) /\ agrees (scaled mul (view work) x s) (view (scale_row work (2 * k) x s)).
Proof.
  intros Hg Hx. unfold scale_row, view, scaled. case_bool_decide as Hs.
  { subst s. split; [done|]. intros r c _ _. case_decide; [|done]. by rewrite mul_comm, mul_1_l. }
  rewrite guard_ok by done.
  assert (Hlen : length (map (fun v => mul v s) (row_of work (2 * k) x)) = (2 * k)%nat)
    by (rewrite length_map; by eapply length_row_of).
  split; [by apply length_set_row|]. intros r c Hr Hc.
  rewrite (at_set_row _ (2 * k) x _ k) by done. case_decide as Hd; [|done]. subst r.
  rewrite (nth_indep _ _ (mul Byte.x00 s)) by lia. by rewrite (map_nth (fun v => mul v s)), nth_row_of.
Qed.

Lemma nth_axpy f src dst c :
  length src = length dst -> nth c (gf_axpy f src dst) Byte.x00
  = byte_xor (nth c dst Byte.x00) (mul f (nth c src Byte.x00)).
Proof.
  unfold gf_axpy. revert src c. induction dst as [|d dst IH]; intros [|s src] c Hl; try done; cbn [zip_into].
  - destruct c; by rewrite mul_0_r, xor_0_l.
  - destruct c; [done|]. cbn [nth]. apply IH. by injection Hl.
Qed.

Lemma eliminate_row_view work src dst f :
  good work -> (src < k)%nat -> (dst < k)%nat -> src <> dst ->
  good (eliminate_row work (2 * k) src dst f)
  /\ agrees (eliminated mul Msub (view work) src dst f) (view (eliminate_row work (2 * k) src dst f)).
Proof.
  intros Hg Hs Hd Hne. unfold eliminate_row, view, eliminated.
  destruct (Nat.eqb_spec src dst); [done|]. rewrite guard_ok by (done || lia). rewrite mul_add_axpy.
  assert (Hlen : length (gf_axpy f (row_of work (2 * k) src) (row_of work (2 * k) dst)) = (2 * k)%nat).
  { unfold gf_axpy. rewrite length_zip_into. by eapply length_row_of. }
  split; [by apply length_set_row|]. intros r c Hr Hc.
  rewrite (at_set_row _ (2 * k) dst _ k) by done. case_decide as Hdd; [|done]. subst r.
  rewrite nth_axpy by (by rewrite !(length_row_of work (2 * k) _ k)). by rewrite !nth_row_of.
Qed.

Lemma clear_one_view work col r :
  good work -> (col < k)%nat -> (r < k)%nat ->
  good (clear_one (2 * k) col work r)
  /\ agrees (clear_row Byte.x00 mul Msub (view work) col r) (view (clear_one (2 * k) col work r)).
Proof.
  intros Hg Hc Hr. unfold clear_one, clear_row. destruct (Nat.eqb_spec r col) as [->|Hne].
  { rewrite decide_True by done. done. }
  rewrite decide_False by done. change (at_ work (2 * k) r col) with (view work r col).
  case_bool_decide as Hz; [by rewrite decide_True|]. rewrite decide_False by done.
  apply eliminate_row_view; auto.
Qed.

Lemma clear_row_agrees m m' col r :
  (col < k)%nat -> (r < k)%nat -> agrees m m' ->
  agrees (clear_row Byte.x00 mul Msub m col r) (clear_row Byte.x00 mul Msub m' col r).
Proof.
  intros Hc Hr H. unfold clear_row. destruct (decide (r = col)); [done|].
  rewrite (H r col) by lia. destruct (decide (m' r col = Byte.x00)); [done|].
  intros r' c Hr' Hc'. unfold eliminated. case_decide; [|by apply H].
  by rewrite !H by lia.
Qed.

Lemma clear_all_view rows work m col :
  good work -> (col < k)%nat -> (forall r, r ∈ rows -> (r < k)%nat) -> agrees m (view work) ->
  good (foldl (clear_one (2 * k) col) work rows)
  /\ agrees (foldl (fun m r => clear_row Byte.x00 mul Msub m col r) m rows)
       (view (foldl (clear_one (2 * k) col) work rows)).
Proof.
  intros Hg Hc. revert work m Hg. induction rows as [|r rows IH]; intros work m Hg Hr Ha; [done|].
  cbn [foldl]. assert (Hrk : (r < k)%nat) by (apply Hr; left).
  destruct (clear_one_view work col r Hg Hc Hrk) as [Hg' Ha'].
  apply IH; [done|intros; apply Hr; by right|].
  intros r' c H1 H2. rewrite <- Ha' by done. by apply clear_row_agrees.
Qed.

Lemma find_pivot_spec fuel work stride p col :
  (p <= k)%nat -> (k <= p + fuel)%nat ->
  let q := find_pivot fuel work stride k p col in
  (p <= q <= k)%nat /\ (forall r, (p <= r < q)%nat -> at_ work stride r col = Byte.x00)
  /\ ((q < k)%nat -> at_ work stride q col <> Byte.x00).
Proof.
  revert p. induction fuel as [|fuel IH]; intros p Hp Hf; cbn [find_pivot].
  { cbv zeta. split_and!; lia. }
  destruct (Nat.ltb_spec p k) as [Hlt|Hge]; cbn [andb]; [|cbv zeta; split_and!; lia].
  case_bool_decide as Hz; [|cbv zeta; split_and!; [lia|lia|lia|done]].
  destruct (IH (S p) ltac:(lia) ltac:(lia)) as (H1 & H2 & H3). cbv zeta in *.
  split_and!; [lia|lia| |done]. intros r Hr. destruct (decide (r = p)) as [->|]; [done|]. apply H2. lia.
Qed.

Abbreviation INV := (gj_inv Byte.x00 Byte.x01 byte_xor mul k a).
Abbreviation KERNEL v := (forall r, (r < k)%nat -> gf_below k (fun c => mul (a r c) (v c)) = Byte.x00).

Lemma gi_agrees m m' col : (col <= k)%nat -> agrees m m' -> INV m col -> INV m' col.
Proof. intros Hc Ha. by apply gi_ext. Qed.

(** One column: reduced, or the matrix is singular. *)
Lemma reduce_col_spec work col :
  good work -> (col < k)%nat -> INV (view work) col ->
  match reduce_col k work col with
  | Some work' => good work' /\ INV (view work') (S col)
  | None => exists v, v col = Byte.x01 /\ KERNEL v
  end.
Proof.
  intros Hg Hcol Hinv. unfold reduce_col.
  destruct (find_pivot_spec k work (2 * k) col col ltac:(lia) ltac:(lia)) as (Hq & Hz & Hnz).
  cbv zeta in *. set (q := find_pivot k work (2 * k) k col col) in *.
  destruct (Nat.eqb_spec q k) as [Hqk|Hqk].
  { eapply gi_singular; [exact gf_field|exact Hcol|exact Hinv|].
    intros r Hr. apply Hz. lia. }
  specialize (Hnz ltac:(lia)).
  set (work1 := if (q =? col)%nat then work else swap_rows work (2 * k) q col).
  assert (H1 : good work1 /\ INV (view work1) col /\ view work1 col col <> Byte.x00).
  { subst work1. destruct (Nat.eqb_spec q col) as [Eq|Hne]; [rewrite Eq in Hnz; done|].
    destruct (swap_rows_view work q col Hg ltac:(lia) Hcol) as [Hg1 Ha1]. split_and!; [done| |].
    - eapply gi_agrees; [lia|exact Ha1|]. apply gi_swap; (lia || done).
    - rewrite <- Ha1 by lia. unfold swapped. rewrite decide_False, decide_True by auto. exact Hnz. }
  destruct H1 as (Hg1 & Hi1 & Hp1). change (at_ work1 (2 * k) col col) with (view work1 col col).
  set (s := inv (view work1 col col)).
  assert (Hs : mul (view work1 col col) s = Byte.x01) by (rewrite mul_comm; by apply mul_inv_l).
  assert (Hs0 : s <> Byte.x00) by (intros E; rewrite E, mul_0_r in Hs; done).
  destruct (scale_row_view work1 col s Hg1 Hcol) as [Hg2 Ha2].
  set (work2 := scale_row work1 (2 * k) col s) in *.
  assert (Hi2 : INV (view work2) col).
  { eapply gi_agrees; [lia|exact Ha2|]. eapply gi_scale; first [exact gf_field|done|lia|apply _]. }
  assert (Hp2 : view work2 col col = Byte.x01).
  { rewrite <- Ha2 by lia. unfold scaled. by rewrite decide_True. }
  assert (Hrows : forall r, r ∈ seq 0 k -> (r < k)%nat) by (intros r Hr; apply elem_of_seq in Hr; lia).
  destruct (clear_all_view (seq 0 k) work2 (view work2) col Hg2 Hcol Hrows ltac:(done)) as [Hg3 Ha3].
  pose proof (clear_rows_spec Byte.x00 Byte.x01 byte_xor mul gf_sub gf_opp gf_div inv gf_field
    k a (seq 0 k) (view work2) col Hcol Hrows Hp2 Hi2) as Hclear. destruct Hclear as (Hi3 & Hp3 & Hz3 & _). cbv zeta in *. split; [done|].
  apply gi_next; [done| | |].
  - eapply gi_agrees; [lia|exact Ha3|done].
  - by rewrite <- Ha3 by lia.
  - intros r Hr Hne. rewrite <- Ha3 by lia. apply Hz3; [apply elem_of_seq; lia|done].
Qed.

Lemma reduce_cols_spec n work col :
  (col + n = k)%nat -> good work -> INV (view work) col ->
  match reduce_cols k work (seq col n) with
  | Some work' => good work' /\ INV (view work') k
  | None => exists v i, (i < k)%nat /\ v i = Byte.x01 /\ KERNEL v
  end.
Proof.
  revert work col. induction n as [|n IH]; intros work col Hn Hg Hi; cbn [seq reduce_cols].
  - replace col with k in Hi by lia. done.
  - pose proof (reduce_col_spec work col Hg ltac:(lia) Hi) as H.
    destruct (reduce_col k work col) as [work'|].
    + destruct H as [Hg' Hi']. by apply IH; [lia|..].
    + destruct H as (v & Hv & Hker). exists v, col. split; [lia|done].
Qed.
End Invert.

(** ** The whole inversion *)

Definition entry (rows : list (list byte)) (r c : nat) : byte := nth c (nth r rows []) Byte.x00.

Lemma augment_spec k rows r0 :
  Forall (fun row => length row = k) rows -> (r0 + length rows <= k)%nat ->
  exists work, augment k r0 rows = Some work /\ length work = (length rows * (2 * k))%nat
  /\ forall r c, (r < length rows)%nat -> (c < k)%nat ->
     at_ work (2 * k) r c = entry rows r c
     /\ at_ work (2 * k) r (k + c) = delta Byte.x00 Byte.x01 (r0 + r)%nat c.
Proof.
  intros Hw. revert r0. induction Hw as [|row rows Hrow _ IH]; intros r0 Hr; cbn [augment].
  { exists []. split_and!; [done|done|]. cbn [length]. lia. }
  cbn [length] in Hr. destruct (IH (S r0) ltac:(lia)) as (work & -> & Hlen & Hat).
  unfold augmented_row. rewrite (proj2 (Nat.eqb_eq _ _) Hrow). eexists. split; [reflexivity|].
  set (unit := <[r0 := Byte.x01]> (replicate k Byte.x00)).
  assert (Hu : length unit = k) by (subst unit; by rewrite length_insert, length_replicate).
  assert (Hun : forall c, (c < k)%nat -> nth c unit Byte.x00 = delta Byte.x00 Byte.x01 r0 c).
  { intros c Hc. subst unit. unfold delta. rewrite nth_lookup.
    destruct (decide (r0 = c)) as [->|Hne].
    - rewrite list_lookup_insert_eq by (rewrite length_replicate; lia). done.
    - rewrite list_lookup_insert_ne by done. by rewrite lookup_replicate_2. }
  split.
  { rewrite !length_app, Hrow, Hu, Hlen. cbn [length]. lia. }
  intros r c Hr' Hc. unfold at_, entry in *. cbn [length] in Hr'. destruct r as [|r].
  - cbn [nth Nat.mul Nat.add]. rewrite Nat.add_0_r. split.
    + rewrite <- app_assoc, app_nth1 by lia. done.
    + rewrite app_nth1 by (rewrite length_app; lia). rewrite app_nth2 by lia.
      replace (k + c - length row)%nat with c by lia. by apply Hun.
  - destruct (Hat r c ltac:(lia) Hc) as [H1 H2]. cbn [nth].
    assert (Hl : length (row ++ unit) = (2 * k)%nat) by (rewrite length_app; lia).
    split; rewrite app_nth2 by (rewrite Hl; lia); rewrite Hl.
    + rewrite <- H1. f_equal. lia.
    + replace (r0 + S r)%nat with (S r0 + r)%nat by lia. rewrite <- H2. f_equal. lia.
Qed.

Lemma chunks_exact_spec fuel size l n :
  (0 < size)%nat -> length l = (n * size)%nat -> (n < fuel)%nat ->
  chunks_exact fuel size l = map (fun r => row_of l size r) (seq 0 n).
Proof.
  intros Hs. revert l n. induction fuel as [|fuel IH]; intros l n Hl Hf; [lia|]. cbn [chunks_exact].
  destruct n as [|n].
  - destruct (Nat.ltb_spec (length l) size); [done|lia].
  - destruct (Nat.ltb_spec (length l) size); [lia|]. cbn [seq map].
    f_equal. rewrite (IH _ n) by (rewrite ?length_drop; lia).
    rewrite <- seq_shift, map_map. apply map_ext. intros r. unfold row_of.
    by rewrite drop_drop.
Qed.

Lemma nth_concat_rows {A} (d : A) (f : nat -> list A) k n s r c :
  (forall i, (i < s + n)%nat -> length (f i) = k) -> (r < n)%nat -> (c < k)%nat ->
  nth (r * k + c) (concat (map f (seq s n))) d = nth c (f (s + r)%nat) d.
Proof.
  intros Hl. revert s r Hl. induction n as [|n IH]; intros s r Hl Hr Hc; [lia|]. cbn [seq map concat].
  destruct r as [|r].
  - rewrite app_nth1 by (rewrite Hl; lia). by rewrite Nat.add_0_r.
  - rewrite app_nth2 by (rewrite Hl; lia). rewrite Hl by lia.
    replace (S r * k + c - k)%nat with (r * k + c)%nat by lia.
    rewrite IH by (lia || (intros; apply Hl; lia)). do 2 f_equal. lia.
Qed.

Lemma length_concat_rows {A} (f : nat -> list A) k n s :
  (forall i, (i < s + n)%nat -> length (f i) = k) -> length (concat (map f (seq s n))) = (n * k)%nat.
Proof.
  revert s. induction n as [|n IH]; intros s Hl; [done|]. cbn [seq map concat].
  rewrite length_app, Hl, (IH (S s)) by (lia || (intros; apply Hl; lia)). lia.
Qed.

(** What inverting promises: an inverse, or a witness that there is none. *)
Lemma invert_subset_raw k rows :
  (0 < k)%nat -> length rows = k -> Forall (fun row => length row = k) rows ->
  match invert_subset rows k with
  | Some inverse => length inverse = (k * k)%nat
      /\ forall r c, (r < k)%nat -> (c < k)%nat ->
         gf_below k (fun t => mul (nth (r * k + t) inverse Byte.x00) (entry rows t c))
         = delta Byte.x00 Byte.x01 r c
  | None => exists v i, (i < k)%nat /\ v i = Byte.x01
      /\ forall r, (r < k)%nat -> gf_below k (fun c => mul (entry rows r c) (v c)) = Byte.x00
  end.
Proof.
  intros Hk Hlen Hw. unfold invert_subset.
  destruct (Nat.eqb_spec k 0); [lia|]. rewrite (proj2 (Nat.eqb_eq _ _) Hlen). cbn [orb negb].
  destruct (augment_spec k rows 0 Hw ltac:(lia)) as (work & -> & Hl & Hat). rewrite Hlen in Hl, Hat.
  pose proof (reduce_cols_spec k (entry rows) Hk k work 0 eq_refl Hl) as H.
  specialize (H ltac:(eapply gi_start; [exact gf_field|]; intros r c Hr Hc; by apply Hat)).
  destruct (reduce_cols k work (seq 0 k)) as [work'|]; [|done]. destruct H as [Hg Hi].
  unfold good in Hg. rewrite (chunks_exact_spec _ (2 * k) work' k) by nia. rewrite map_map.
  assert (Hrow : forall i, (i < 0 + k)%nat -> length (drop k (row_of work' (2 * k) i)) = k).
  { intros i Hi'. rewrite length_drop, (length_row_of work' (2 * k) i k) by (done || lia). lia. }
  split; [by apply length_concat_rows|]. intros r c Hr Hc.
  rewrite <- (gi_done Byte.x00 Byte.x01 byte_xor mul k (entry rows) (view k work') Hi r c Hr Hc).
  apply below_ext. intros t Ht. f_equal. rewrite (nth_concat_rows _ _ k k 0 r t Hrow Hr Ht).
  rewrite nth_skipn. cbn [Nat.add]. by rewrite nth_row_of by lia.
Qed.

(** Gauss-Jordan inverts exactly the invertible.  For every square selection of rows, the answer is
    the row-major inverse, or nothing, and then the rows are linearly dependent: some combination of
    the columns with a unit weight vanishes.  A selection of the wrong shape is refused. *)
Theorem invert_subset_correct k rows :
  (0 < k)%nat -> length rows = k -> Forall (fun row => length row = k) rows ->
  match invert_subset rows k with
  | Some inverse => length inverse = (k * k)%nat
      /\ forall r c, (r < k)%nat -> (c < k)%nat ->
         gf_below k (fun t => mul (nth (r * k + t) inverse Byte.x00) (entry rows t c))
         = delta Byte.x00 Byte.x01 r c
  | None => exists v i, (i < k)%nat /\ v i = Byte.x01
      /\ forall r, (r < k)%nat -> gf_below k (fun c => mul (entry rows r c) (v c)) = Byte.x00
  end.
Proof. apply invert_subset_raw. Qed.

Lemma invert_subset_correct_witness :
  exists inverse, invert_subset [[Byte.x02; Byte.x01]; [Byte.x01; Byte.x00]] 2 = Some inverse
  /\ length inverse = 4%nat.
Proof.
  pose proof (invert_subset_correct 2 [[Byte.x02; Byte.x01]; [Byte.x01; Byte.x00]]
    ltac:(lia) eq_refl ltac:(repeat constructor)) as H.
  set (r := invert_subset _ 2) in *. vm_compute in r. destruct H as [H _].
  eexists. split; [reflexivity|exact H].
Defined.

(** ** Any [k] rows of the encoder are independent *)

Definition coefficient (k i j : nat) : byte :=
  inv (byte_xor (byte_of_Z (Z.of_nat (k + i))) (byte_of_Z (Z.of_nat j))).

Lemma parity_rows_entry k m i j :
  (i < m)%nat -> (j < k)%nat -> nth (i * k + j) (parity_rows k m) Byte.x00 = coefficient k i j.
Proof.
  intros Hi Hj. unfold parity_rows.
  rewrite (nth_concat_rows _ _ k m 0 i j); [|intros; by rewrite length_map, length_seq|done|done].
  cbv zeta. cbn [Nat.add]. rewrite (nth_indep _ _ (coefficient k i 0)) by (rewrite length_map, length_seq; lia).
  rewrite (map_nth (fun j => coefficient k i j)). by rewrite seq_nth by lia.
Qed.

Lemma length_parity_rows k m : length (parity_rows k m) = (m * k)%nat.
Proof. apply length_concat_rows. intros. by rewrite length_map, length_seq. Qed.

Lemma small_byte_inj a b :
  (a < 256)%nat -> (b < 256)%nat -> byte_of_Z (Z.of_nat a) = byte_of_Z (Z.of_nat b) -> a = b.
Proof.
  intros Ha Hb E. apply (f_equal byte_to_Z) in E. rewrite !byte_to_Z_of_Z_small in E by lia. lia.
Qed.

(** A row of the encoder over [k] data shards: a unit row or a parity row. *)
Definition encoder_entry (k : nat) (row : nat + nat) (c : nat) : byte :=
  match row with
  | inl slot => delta Byte.x00 Byte.x01 slot c
  | inr rank => coefficient k rank c
  end.

Lemma missing_count (k : nat) (slots : list nat) :
  NoDup slots -> (forall s, s ∈ slots -> (s < k)%nat) ->
  (length slots + length (filter (fun j => j ∉ slots) (seq 0 k)) = k)%nat.
Proof.
  intros Hn Hs. pose proof (filter_app_complement (fun j => j ∈ slots) (seq 0 k)) as Hp.
  apply Permutation_length in Hp. rewrite length_app, length_seq in Hp.
  assert (Hl : length (filter (fun j => j ∈ slots) (seq 0 k)) = length slots).
  { apply Permutation_length, NoDup_Permutation; [apply NoDup_filter, NoDup_seq|done|].
    intros x. rewrite list_elem_of_filter, elem_of_seq. split; [tauto|]. intros Hx. specialize (Hs x Hx). 
    split; [done|lia]. }
  lia.
Qed.

Lemma encoder_rows_independent k m slots ranks (v : nat -> byte) :
  (k + m <= 256)%nat -> NoDup slots -> NoDup ranks ->
  (forall s, s ∈ slots -> (s < k)%nat) -> (forall r, r ∈ ranks -> (r < m)%nat) ->
  (length slots + length ranks = k)%nat ->
  (forall row, row ∈ map inl slots ++ map inr ranks ->
     gf_below k (fun c => mul (encoder_entry k row c) (v c)) = Byte.x00) ->
  forall i, (i < k)%nat -> v i = Byte.x00.
Proof.
  intros Hkm Hns Hnr Hs Hr Hlen Hker.
  assert (Hslot : forall s, s ∈ slots -> v s = Byte.x00).
  { intros s Hin.
    assert (Hz : gf_below k (fun c => mul (encoder_entry k (inl s) c) (v c)) = Byte.x00)
      by (apply Hker, elem_of_app; left; apply list_elem_of_fmap; eauto).
    erewrite (below_single Byte.x00 Byte.x01 byte_xor mul gf_sub gf_opp gf_div inv gf_field k _ s (Hs s Hin)) in Hz.
    - cbn [encoder_entry] in Hz. unfold delta in Hz. by rewrite decide_True, mul_1_l in Hz.
    - intros j _ Hne. cbn [encoder_entry]. unfold delta. rewrite decide_False by auto. apply mul_0_l. }
  set (js := filter (fun j => j ∉ slots) (seq 0 k)).
  pose proof (missing_count k slots Hns Hs) as Hcount. fold js in Hcount.
  assert (Hjs : forall j, j ∈ js -> (j < k)%nat /\ j ∉ slots).
  { intros j Hj. apply list_elem_of_filter in Hj as [? Hj]. apply elem_of_seq in Hj. split; [lia|done]. }
  assert (Hmiss : forall j, j ∈ js -> v j = Byte.x00).
  { apply (cauchy_no_kernel Byte.x00 Byte.x01 byte_xor mul gf_sub gf_opp gf_div inv gf_field
             (fun j => byte_of_Z (Z.of_nat j)) (map (fun r => byte_of_Z (Z.of_nat (k + r))) ranks) js v).
    - apply NoDup_fmap_2_strong; [|done]. intros x y Hx Hy E. apply Hr in Hx, Hy.
      apply small_byte_inj in E; lia.
    - apply NoDup_fmap_2_strong; [|apply NoDup_filter, NoDup_seq]. intros x y Hx Hy E.
      apply Hjs in Hx, Hy. apply small_byte_inj in E; lia.
    - rewrite length_map. lia.
    - intros x j Hx Hj E. apply list_elem_of_fmap in Hx as (r & -> & Hr'). apply Hr in Hr'.
      apply Hjs in Hj. apply small_byte_inj in E; lia.
    - intros x Hx. apply list_elem_of_fmap in Hx as (r & -> & Hr').
      etransitivity; [|apply (Hker (inr r)), elem_of_app; right; apply list_elem_of_fmap; eauto].
      unfold below. subst js.
      rewrite (lsum_filter Byte.x00 Byte.x01 byte_xor mul gf_sub gf_opp gf_div inv gf_field
                 (fun j => j ∉ slots)).
      + apply lsum_ext. intros j _. cbn [encoder_entry]. unfold gf_div, coefficient, gf_sub.
        by rewrite mul_1_l, mul_comm.
      + intros j _ Hj. rewrite Hslot by (destruct (decide (j ∈ slots)); [done|tauto]). apply mul_0_l. }
  intros i Hi. destruct (decide (i ∈ slots)); [by apply Hslot|].
  apply Hmiss. apply list_elem_of_filter. split; [done|]. apply elem_of_seq. lia.
Qed.
