(* ===== verification/Fec.v ===== *)
(** * Fec: forward error correction over a frame's fragments

    Models [slopdesk-video/src/fec.rs]: the Reed-Solomon codec, its plain-XOR special case at one
    parity shard, the length-prefixed framing, and the in-place recovery of a received group.  A
    received frame is a list of options, a hole being [None].  Counts are [usize] values bounded by the
    number of fragments of a frame, kept in [nat].

    The theorems: what the codec fills in from authentic survivors is always the original, every
    group within its budget is completed, and arbitrary (hostile) parity never changes what arrived. *)

From S2P Require Import Prelude Gf256 LinAlg RsMatrix.

Record ReedSolomonFec : Type := mkFec { group_size : nat; parity_count : nat }.

Definition fec_default : ReedSolomonFec := mkFec 5 1.

(** [ReedSolomonFec::new]; [None] is the assertion failing. *)
Definition fec_new (k m : nat) : option ReedSolomonFec :=
  if (1 <=? k)%nat && (1 <=? m)%nat && (k + m <=? 255)%nat then Some (mkFec k m) else None.

(** [usize::MAX] spells "no ceiling", so the clamp is only there for [m >= 2]. *)
Definition effective_group_size (self : ReedSolomonFec) (requested m : nat) : nat :=
  let floored := if (requested <? 1)%nat then 1%nat else requested in
  if (m =? 1)%nat then floored
  else if (floored <? group_size self)%nat then floored else group_size self.

(** ** Framing *)

Definition PREFIX_BYTES : nat := 4.

Definition truncating_u32 (value : nat) : Z := cast_unsigned 32 (Z.of_nat value).

Definition length_prefixed (data : list byte) : list byte :=
  to_be_bytes 4 (truncating_u32 (length data)) ++ data.

Definition strip_length_prefix (data : list byte) : option (list byte) :=
  match get_range data 0 (Z.of_nat PREFIX_BYTES) with
  | None => None
  | Some header =>
    match checked_add_usize (Z.of_nat PREFIX_BYTES) (from_be_bytes header) with
    | None => None
    | Some e => get_range data (Z.of_nat PREFIX_BYTES) e
    end
  end.

(** ** The XOR path *)

(** [Vec::resize(width, 0)] *)
Definition resize (width : nat) (acc : list byte) : list byte :=
  take width acc ++ replicate (width - length acc) Byte.x00.

(** [iter().map(..).max().unwrap_or(0)] *)
Definition max_or_zero (l : list nat) : nat := foldr Nat.max 0%nat l.

Definition xor_length_prefixed (member acc : list byte) : list byte :=
  let acc := xor_add (to_be_bytes 4 (truncating_u32 (length member))) acc in
  if (PREFIX_BYTES <=? length acc)%nat
  then take PREFIX_BYTES acc ++ xor_add member (drop PREFIX_BYTES acc)
  else acc.

Definition xor_encoded (group : list (list byte)) : list byte :=
  let width := max_or_zero (map (fun m => PREFIX_BYTES + length m)%nat group) in
  match group with
  | [] => []
  | first :: rest =>
    foldl (fun acc member => xor_length_prefixed member acc)
      (resize width (to_be_bytes 4 (truncating_u32 (length first)) ++ first)) rest
  end.

Definition xor_recover (parity : list byte) (survivors : list (list byte)) : list byte :=
  let widest_survivor := max_or_zero (map (fun m => PREFIX_BYTES + length m)%nat survivors) in
  let width := Nat.max (length parity) widest_survivor in
  foldl (fun acc member => xor_length_prefixed member acc) (resize width parity) survivors.

(** ** Encoding *)

(** [slice::chunks] *)
Fixpoint chunks {A} (fuel size : nat) (l : list A) : list (list A) :=
  match fuel, l with
  | O, _ | _, [] => []
  | S fuel, _ => take size l :: chunks fuel size (drop size l)
  end.

(** One parity shard of a group: every framed member folded in with its coefficient. *)
Definition fold_rank (k rank width : nat) (tables : list MulTable) (framed : list (list byte)) : list byte :=
  foldl (fun parity '(j, shard) =>
    match tables !! (rank * k + j)%nat with
    | Some table => add_scaled table shard parity
    | None => parity
    end) (replicate width Byte.x00) (imap pair framed).

(** The group's [m] shards, in rank order: what the code appends to [out]. *)
Definition encode_group (self : ReedSolomonFec) (m : nat) (tables : list MulTable) (group : list (list byte))
  : list (list byte) :=
  let framed := map length_prefixed group in
  let width := max_or_zero (map length framed) in
  map (fun rank => fold_rank (group_size self) rank width tables framed) (seq 0 m).

Definition parity_m (self : ReedSolomonFec) (data : list (list byte)) (requested m : nat) : list (list byte) :=
  let size := effective_group_size self requested m in
  if (m =? 1)%nat then map xor_encoded (chunks (length data) size data) else
  let coeffs := parity_rows (group_size self) m in
  let tables := map table_new coeffs in
  concat (map (encode_group self m tables) (chunks (length data) size data)).

Definition parity (self : ReedSolomonFec) (data : list (list byte)) (size : nat) : list (list byte) :=
  parity_m self data size (parity_count self).
Definition parity_with_m (self : ReedSolomonFec) (data : list (list byte)) (size m : nat) : list (list byte) :=
  parity_m self data size (Nat.max m 1).

(** ** Recovery *)

Definition unit_row (k slot : nat) : list byte := <[slot := Byte.x01]> (replicate k Byte.x00).

(** [data.get(i)?.as_deref()] *)
Definition shard_at (data : list (option (list byte))) (i : nat) : option (list byte) :=
  match data !! i with Some (Some bytes) => Some bytes | _ => None end.

Definition holes_of (data : list (option (list byte))) (index upper : nat) : list nat :=
  filter (fun i => data !! i = Some None) (seq index (upper - index)).

(** Survivors are (encoder row, framed bytes) pairs: the two vectors the code fills in step. *)
Definition data_survivors (k : nat) (data : list (option (list byte))) (index group_len : nat)
  : list (list byte * list byte) :=
  omap (fun slot => match shard_at data (index + slot) with
                    | Some bytes => Some (unit_row k slot, length_prefixed bytes)
                    | None => None end) (seq 0 group_len).

Definition phantom_survivors (k group_len : nat) : list (list byte * list byte) :=
  map (fun slot => (unit_row k slot, [])) (seq group_len (k - group_len)).

(** [coeffs.get(rank * k..rank * k + k)] *)
Definition coeff_row (k : nat) (coeffs : list byte) (rank : nat) : option (list byte) :=
  if (rank * k + k <=? length coeffs)%nat then Some (row_of coeffs k rank) else None.

(** [while survivor_rows.len() < k && rank < m] *)
Fixpoint parity_survivors (k : nat) (coeffs : list byte) (par : list (option (list byte))) (base : nat)
    (ranks : list nat) (rows : list (list byte * list byte)) : list (list byte * list byte) :=
  match ranks with
  | [] => rows
  | rank :: ranks =>
    if (length rows <? k)%nat then
      parity_survivors k coeffs par base ranks
        match shard_at par (base + rank), coeff_row k coeffs rank with
        | Some bytes, Some row => rows ++ [(row, bytes)]
        | _, _ => rows
        end
    else rows
  end.

(** [acc.fill(0)], then the row [slot] of (inverse · survivors). *)
Definition solve_slot (k slot : nat) (inverse : list byte) (sbytes : list (list byte)) (acc : list byte)
  : list byte :=
  foldl (fun acc '(t, sb) => mul_add (nth (slot * k + t) inverse Byte.x00) sb acc)
    (replicate (length acc) Byte.x00) (imap pair sbytes).

Definition fill_hole (k index : nat) (inverse : list byte) (sbytes : list (list byte))
    (state : list byte * list (option (list byte))) (hole : nat) : list byte * list (option (list byte)) :=
  let '(acc, data) := state in
  let acc := solve_slot k (hole - index) inverse sbytes acc in
  (acc, match strip_length_prefix acc with
        | Some bytes => <[hole := Some bytes]> data
        | None => data end).

(** The XOR arm: a single hole. *)
Definition recover_xor (data par : list (option (list byte))) (index upper group_index : nat) (holes : list nat)
  : list (option (list byte)) :=
  match shard_at par group_index with
  | None => data
  | Some bytes =>
    let survivors := omap (shard_at data) (seq index (upper - index)) in
    match strip_length_prefix (xor_recover bytes survivors), head holes with
    | Some bytes, Some h => <[h := Some bytes]> data
    | _, _ => data
    end
  end.

(** The matrix arm. *)
Definition recover_matrix (self : ReedSolomonFec) (data par : list (option (list byte)))
    (index upper group_index m : nat) (holes : list nat) : list (option (list byte)) :=
  let k := group_size self in
  let group_len := (upper - index)%nat in
  let survivors := parity_survivors k (parity_rows k m) par (group_index * m) (seq 0 m)
    (data_survivors k data index group_len ++ phantom_survivors k group_len) in
  if (length survivors <? k)%nat then data else
  let rows := take k (map fst survivors) in
  let sbytes := take k (map snd survivors) in
  match invert_subset rows k with
  | None => data
  | Some inverse =>
    let width := max_or_zero (map length sbytes) in
    snd (foldl (fill_hole k index inverse sbytes) (replicate width Byte.x00, data) holes)
  end.

Definition recover_group (self : ReedSolomonFec) (data par : list (option (list byte)))
    (index upper group_index m : nat) : list (option (list byte)) :=
  let holes := holes_of data index upper in
  if (length holes =? 0)%nat || (m <? length holes)%nat then data
  else if (m =? 1)%nat then recover_xor data par index upper group_index holes
  else recover_matrix self data par index upper group_index m holes.

(** [while index < data.len()] *)
Fixpoint recover_loop (fuel : nat) (self : ReedSolomonFec) (data par : list (option (list byte)))
    (size m index group_index : nat) : list (option (list byte)) :=
  match fuel with
  | O => data
  | S fuel =>
    if (index <? length data)%nat then
      let upper := Nat.min (index + size) (length data) in
      recover_loop fuel self (recover_group self data par index upper group_index m) par size m
        (index + size) (S group_index)
    else data
  end.

Definition recover_m (self : ReedSolomonFec) (data par : list (option (list byte))) (requested m : nat)
  : list (option (list byte)) :=
  recover_loop (S (length data)) self data par (effective_group_size self requested m) m 0 0.

Definition recover (self : ReedSolomonFec) (data par : list (option (list byte))) (size : nat) :=
  recover_m self data par size (parity_count self).
Definition recover_with_m (self : ReedSolomonFec) (data par : list (option (list byte))) (size m : nat) :=
  recover_m self data par size (Nat.max m 1).

Example recovers_two_of_three :
  let codec := mkFec 3 2 in
  let data := [[Byte.x61]; [Byte.x62; Byte.x63]; []; [Byte.xff]] in
  let par := parity codec data 3 in
  recover codec [None; Some [Byte.x62; Byte.x63]; None; None] (map Some par) 3 = map Some data.
Proof. vm_compute. reflexivity. Qed.

(** ** Columns: the byte every shard holds at one offset, zero past its end *)

Abbreviation gf_sum := (lsum Byte.x00 byte_xor).
Abbreviation column c l := (nth c l Byte.x00).

Lemma xor_cancel a b : byte_xor (byte_xor a b) b = a.
Proof. by rewrite <- xor_assoc, xor_self, xor_comm, xor_0_l. Qed.

Lemma xor_0_r a : byte_xor a Byte.x00 = a.
Proof. by rewrite xor_comm, xor_0_l. Qed.

Lemma gf_sum_map {A B} (f : B -> byte) (g : A -> B) l : gf_sum f (map g l) = gf_sum (fun a => f (g a)) l.
Proof. unfold lsum. induction l as [|a l IH]; [done|]. cbn [map foldr]. by rewrite IH. Qed.

Lemma gf_sum_split {A} `{!EqDecision A} (f : A -> byte) l h :
  NoDup l -> h ∈ l -> gf_sum f l = byte_xor (f h) (gf_sum f (filter (fun a => a <> h) l)).
Proof.
  induction l as [|a l IH]; intros Hn Hh; [by apply elem_of_nil in Hh|]. apply NoDup_cons in Hn as [Ha Hn].
  rewrite lsum_cons. apply elem_of_cons in Hh as [<-|Hh].
  - rewrite filter_cons_False by tauto. rewrite filter_all; [done|].
    intros b Hb ->. done.
  - rewrite filter_cons_True by (intros ->; done). rewrite lsum_cons, (IH Hn Hh), !xor_assoc.
    by rewrite (xor_comm (f a)).
Qed.

Lemma column_axpy f src dst c :
  column c (gf_axpy f src dst)
  = if (c <? length dst)%nat then byte_xor (column c dst) (mul f (column c src)) else Byte.x00.
Proof.
  unfold gf_axpy. revert src c. induction dst as [|d dst IH]; intros src c.
  { destruct src, c; done. }
  destruct src as [|s src]; cbn [zip_into length].
  - rewrite (nth_overflow [] Byte.x00) by (cbn; lia). rewrite mul_0_r, xor_0_r.
    destruct (Nat.ltb_spec c (S (length dst))); [done|]. apply nth_overflow. cbn [length]. lia.
  - destruct c as [|c]; [done|]. cbn [nth]. rewrite IH. done.
Qed.

Lemma seq_app' a b : seq 0 (a + b) = seq 0 a ++ seq a b.
Proof. apply seq_app. Qed.

(** A fold of scaled additions, column by column. *)
Lemma fold_axpy_column (step : list byte -> nat * list byte -> list byte) (co : nat -> byte)
    (bytes : nat -> list byte) shards n acc c :
  (forall j s acc, (n <= j < n + length shards)%nat -> step acc (j, s) = gf_axpy (co j) s acc) ->
  (forall j, (j < length shards)%nat -> nth j shards [] = bytes (n + j)%nat) ->
  length (foldl step acc (imap (fun j s => ((n + j)%nat, s)) shards)) = length acc
  /\ ((c < length acc)%nat -> column c (foldl step acc (imap (fun j s => ((n + j)%nat, s)) shards))
      = byte_xor (column c acc) (gf_sum (fun j => mul (co j) (column c (bytes j))) (seq n (length shards)))).
Proof.
  revert n acc. induction shards as [|s shards IH]; intros n acc Hstep Hb; cbn [length seq imap foldl].
  { split; [done|]. intros _. by rewrite xor_0_r. }
  replace (imap ((fun j s => ((n + j)%nat, s)) ∘ S) shards) with (imap (fun j s => ((S n + j)%nat, s)) shards)
    by (apply imap_ext; intros; cbn; f_equal; lia).
  rewrite Nat.add_0_r, Hstep by (cbn [length]; lia).
  destruct (IH (S n) (gf_axpy (co n) s acc)) as [Hl Hc].
  { intros. apply Hstep. cbn [length]. lia. }
  { intros j Hj. specialize (Hb (S j) ltac:(cbn [length]; lia)). cbn [nth] in Hb. rewrite Hb. f_equal. lia. }
  rewrite Hl. unfold gf_axpy in *. rewrite length_zip_into in *. split; [done|]. intros Hlt.
  rewrite Hc by done. rewrite lsum_cons, xor_assoc. f_equal.
  pose proof (column_axpy (co n) s acc c) as E. unfold gf_axpy in E. rewrite E.
  rewrite (proj2 (Nat.ltb_lt _ _) Hlt). specialize (Hb 0%nat ltac:(cbn [length]; lia)). cbn [nth] in Hb.
  by rewrite Hb, Nat.add_0_r.
Qed.

Lemma column_replicate n c : column c (replicate n Byte.x00) = Byte.x00.
Proof. revert c. induction n as [|n IH]; intros [|c]; cbn; auto. Qed.

Lemma column_resize width acc c : (length acc <= width)%nat -> column c (resize width acc) = column c acc.
Proof.
  intros Hl. unfold resize. rewrite take_ge by done.
  destruct (Nat.lt_ge_cases c (length acc)).
  - by rewrite app_nth1.
  - rewrite app_nth2 by done. by rewrite column_replicate, nth_overflow.
Qed.

Lemma length_resize width acc : length (resize width acc) = width.
Proof. unfold resize. rewrite length_app, length_take, length_replicate. lia. Qed.

Lemma max_or_zero_ub l n : n ∈ l -> (n <= max_or_zero l)%nat.
Proof. unfold max_or_zero. induction 1; cbn [foldr]; lia. Qed.

Lemma max_or_zero_lub l b : (forall n, n ∈ l -> (n <= b)%nat) -> (max_or_zero l <= b)%nat.
Proof.
  unfold max_or_zero. induction l as [|x l IH]; intros H; cbn [foldr]; [lia|].
  apply Nat.max_lub; [apply H; left|apply IH; intros; apply H; by right].
Qed.

(** ** Framing *)

Lemma length_length_prefixed d : length (length_prefixed d) = (4 + length d)%nat.
Proof. unfold length_prefixed. by rewrite length_app, length_to_be_bytes. Qed.

Definition fits (d : list byte) : Prop := Z.of_nat (length d) < 2 ^ 32.

(** Whatever agrees with a framed shard on every column and is wide enough strips to the shard. *)
Lemma strip_of_columns d acc :
  fits d -> (forall c, (c < length acc)%nat -> column c acc = column c (length_prefixed d)) ->
  (4 + length d <= length acc)%nat -> strip_length_prefix acc = Some d.
Proof.
  unfold fits. intros Hd Hc Hl.
  assert (E : acc = to_be_bytes 4 (truncating_u32 (length d)) ++ d ++ drop (4 + length d) acc).
  { rewrite app_assoc. fold (length_prefixed d). rewrite <- (take_drop (4 + length d) acc) at 1. f_equal.
    apply (nth_ext _ _ Byte.x00 Byte.x00).
    { rewrite length_take, length_length_prefixed. lia. }
    intros c Hlt. rewrite length_take in Hlt. rewrite nth_firstn.
    destruct (Nat.ltb_spec c (4 + length d)); [|lia]. apply Hc. lia. }
  unfold strip_length_prefix. rewrite E. set (hdr := to_be_bytes 4 _) in *. set (pad := drop _ acc) in *.
  assert (Hh : length hdr = 4%nat) by apply length_to_be_bytes.
  pose proof (get_range_app [] hdr (d ++ pad) 0 (Z.of_nat PREFIX_BYTES) eq_refl) as E0.
  change ([] ++ hdr ++ d ++ pad) with (hdr ++ d ++ pad) in E0. rewrite E0 by (rewrite Hh; done).
  subst hdr.
  unfold truncating_u32, cast_unsigned. rewrite from_to_be_bytes_small
    by (change (256 ^ Z.of_nat 4) with (2 ^ 32); apply Z.mod_pos_bound; lia).
  rewrite Z.mod_small by lia. unfold checked_add_usize, usize_max.
  destruct (Z.leb_spec (Z.of_nat PREFIX_BYTES + zlen d) (2 ^ 64 - 1)); [|unfold PREFIX_BYTES in *; lia].
  apply get_range_app; [by rewrite length_to_be_bytes|done].
Qed.

(** ** What the XOR path accumulates *)

Lemma xor_length_prefixed_spec member acc :
  (4 + length member <= length acc)%nat ->
  length (xor_length_prefixed member acc) = length acc
  /\ forall c, column c (xor_length_prefixed member acc)
               = byte_xor (column c acc) (column c (length_prefixed member)).
Proof.
  intros Hl. unfold xor_length_prefixed. rewrite !xor_add_spec.
  set (hdr := to_be_bytes 4 _). assert (Hh : length hdr = 4%nat) by apply length_to_be_bytes.
  set (acc1 := gf_axpy Byte.x01 hdr acc).
  assert (Hl1 : length acc1 = length acc) by apply length_zip_into.
  rewrite (proj2 (Nat.leb_le _ _)) by (unfold PREFIX_BYTES; lia).
  assert (Hc1 : forall c, column c acc1 = byte_xor (column c acc) (column c hdr)).
  { intros c. subst acc1. rewrite column_axpy, mul_1_l. destruct (Nat.ltb_spec c (length acc)); [done|].
    by rewrite !nth_overflow by lia. }
  assert (Hd : length (drop PREFIX_BYTES acc1) = (length acc - 4)%nat) by (rewrite length_drop; unfold PREFIX_BYTES; lia).
  assert (Ht : length (take PREFIX_BYTES acc1) = 4%nat) by (rewrite length_take; unfold PREFIX_BYTES; lia).
  split.
  { rewrite length_app, Ht. unfold gf_axpy. rewrite length_zip_into, Hd. lia. }
  intros c. unfold length_prefixed. fold hdr. destruct (Nat.lt_ge_cases c 4) as [Hc|Hc].
  - rewrite !app_nth1 by lia. rewrite nth_firstn. unfold PREFIX_BYTES.
    destruct (Nat.ltb_spec c 4); [|lia]. apply Hc1.
  - rewrite !app_nth2 by lia. rewrite Ht, Hh, column_axpy, mul_1_l, Hd, nth_skipn.
    unfold PREFIX_BYTES. replace (4 + (c - 4))%nat with c by lia.
    destruct (Nat.ltb_spec (c - 4) (length acc - 4)).
    + by rewrite Hc1, (nth_overflow hdr) by lia; rewrite xor_0_r.
    + by rewrite !nth_overflow by lia.
Qed.

Lemma xor_fold_spec members acc :
  (forall d, d ∈ members -> (4 + length d <= length acc)%nat) ->
  let acc' := foldl (fun acc member => xor_length_prefixed member acc) acc members in
  length acc' = length acc
  /\ forall c, column c acc' = byte_xor (column c acc) (gf_sum (fun d => column c (length_prefixed d)) members).
Proof.
  revert acc. induction members as [|d members IH]; intros acc Hm; cbn [foldl]; cbv zeta.
  { split; [done|]. intros c. by rewrite xor_0_r. }
  destruct (xor_length_prefixed_spec d acc (Hm d ltac:(left))) as [Hl Hc].
  destruct (IH (xor_length_prefixed d acc)) as [Hl' Hc'].
  { intros x Hx. rewrite Hl. apply Hm. by right. }
  split; [by rewrite Hl'|]. intros c. rewrite Hc', Hc, lsum_cons. by rewrite xor_assoc.
Qed.

Lemma widest_ub group d :
  d ∈ group -> (4 + length d <= max_or_zero (map (fun m : list byte => PREFIX_BYTES + length m) group))%nat.
Proof. intros Hd. apply max_or_zero_ub. apply list_elem_of_fmap. by exists d. Qed.

Lemma xor_encoded_spec group c :
  column c (xor_encoded group) = gf_sum (fun d => column c (length_prefixed d)) group
  /\ forall d, d ∈ group -> (4 + length d <= length (xor_encoded group))%nat.
Proof.
  unfold xor_encoded. set (width := max_or_zero _).
  destruct group as [|first rest]; [by split; [destruct c|intros d Hd%elem_of_nil]|].
  fold (length_prefixed first).
  assert (Hw : forall d, d ∈ first :: rest -> (4 + length d <= width)%nat) by (intros; by apply widest_ub).
  destruct (xor_fold_spec rest (resize width (length_prefixed first))) as [Hl Hc].
  { intros d Hd. rewrite length_resize. apply Hw. by right. }
  cbv zeta in *. split.
  - rewrite Hc, lsum_cons, column_resize; [done|].
    rewrite length_length_prefixed. apply Hw. left.
  - intros d Hd. rewrite Hl, length_resize. by apply Hw.
Qed.

Lemma xor_recover_spec par survivors c :
  column c (xor_recover par survivors)
  = byte_xor (column c par) (gf_sum (fun d => column c (length_prefixed d)) survivors)
  /\ (length par <= length (xor_recover par survivors))%nat.
Proof.
  unfold xor_recover. set (widest := max_or_zero _).
  destruct (xor_fold_spec survivors (resize (Nat.max (length par) widest) par)) as [Hl Hc].
  { intros d Hd. rewrite length_resize. apply widest_ub in Hd. fold widest in Hd. lia. }
  cbv zeta in *. split; [|rewrite Hl, length_resize; lia].
  rewrite Hc, column_resize by lia. done.
Qed.

(** ** What the matrix path encodes *)

Lemma fold_rank_column k m rank (group : list (list byte)) c :
  (length group <= k)%nat -> (rank < m)%nat ->
  let framed := map length_prefixed group in
  let width := max_or_zero (map length framed) in
  let shard := fold_rank k rank width (map table_new (parity_rows k m)) framed in
  length shard = width
  /\ column c shard = gf_below k (fun j => mul (coefficient k rank j) (column c (nth j framed []))).
Proof.
  intros Hk Hr framed width shard. subst shard. unfold fold_rank. set (step := fun _ _ => _).
  assert (Hlen : length framed = length group) by apply length_map.
  destruct (fold_axpy_column step (coefficient k rank) (fun j => nth j framed []) framed 0
              (replicate width Byte.x00) c) as [Hl Hc].
  - intros j s acc Hj. subst step. cbn beta iota.
    rewrite list_lookup_fmap.
    destruct (nth_lookup_or_length (parity_rows k m) (rank * k + j) Byte.x00) as [E|E];
      [|rewrite length_parity_rows in E; nia].
    rewrite E. cbn. rewrite parity_rows_entry by lia. apply add_scaled_axpy.
  - done.
  - change (imap (fun j s => ((0 + j)%nat, s)) framed) with (imap pair framed) in Hl, Hc.
    rewrite length_replicate in Hl, Hc. split; [done|].
    assert (Hshort : forall j, (width <= c)%nat -> column c (nth j framed []) = Byte.x00).
    { intros j Hw. destruct (Nat.lt_ge_cases j (length framed)) as [Hj|Hj].
      - apply nth_overflow. etransitivity; [|exact Hw]. apply max_or_zero_ub, list_elem_of_fmap.
        eexists. split; [done|]. by apply nth_elem_of.
      - rewrite (nth_overflow framed) by done. by destruct c. }
    unfold below. destruct (Nat.lt_ge_cases c width) as [Hw|Hw].
    + rewrite Hc, column_replicate, xor_0_l by done.
      assert (Ek : seq 0 k = seq 0 (length framed) ++ seq (length framed) (k - length framed))
        by (rewrite <- seq_app'; f_equal; lia).
      rewrite Ek, (lsum_app Byte.x00 Byte.x01 byte_xor mul gf_sub gf_opp gf_div inv gf_field).
      rewrite (lsum_zero Byte.x00 Byte.x01 byte_xor mul gf_sub gf_opp gf_div inv gf_field _
                 (seq (length framed) _)); [by rewrite xor_0_r|].
      intros j Hj%elem_of_seq. rewrite (nth_overflow framed) by lia. destruct c; apply mul_0_r.
    + rewrite nth_overflow by lia. symmetry.
      apply (lsum_zero Byte.x00 Byte.x01 byte_xor mul gf_sub gf_opp gf_div inv gf_field).
      intros j _. rewrite Hshort by done. apply mul_0_r.
Qed.

(** ** Survivors: rows of the encoder applied to the group *)

Lemma unit_row_entry k slot c :
  (slot < k)%nat -> (c < k)%nat -> column c (unit_row k slot) = delta Byte.x00 Byte.x01 slot c.
Proof.
  intros Hs Hc. unfold unit_row, delta. rewrite nth_lookup. destruct (decide (slot = c)) as [->|Hne].
  - by rewrite list_lookup_insert_eq by (rewrite length_replicate; lia).
  - rewrite list_lookup_insert_ne by done. by rewrite lookup_replicate_2.
Qed.

Lemma delta_select k (f : nat -> byte) slot :
  (slot < k)%nat -> gf_below k (fun j => mul (delta Byte.x00 Byte.x01 slot j) (f j)) = f slot.
Proof.
  intros Hs. rewrite (below_single Byte.x00 Byte.x01 byte_xor mul gf_sub gf_opp gf_div inv gf_field k _ slot Hs).
  - unfold delta. by rewrite decide_True, mul_1_l.
  - intros j _ Hne. unfold delta. rewrite decide_False by auto. apply mul_0_l.
Qed.

Section Survivors.
Context (k m : nat) (framed : list (list byte)).

Definition served (survivor : list byte * list byte) (kind : nat + nat) : Prop :=
  length survivor.1 = k
  /\ (forall c, (c < k)%nat -> column c survivor.1 = encoder_entry k kind c)
  /\ forall c, column c survivor.2
               = gf_below k (fun j => mul (encoder_entry k kind j) (column c (nth j framed []))).

Lemma served_unit slot bytes :
  (slot < k)%nat -> (forall c, column c bytes = column c (nth slot framed [])) ->
  served (unit_row k slot, bytes) (inl slot).
Proof.
  intros Hs Hb. split_and!; cbn [fst snd].
  - unfold unit_row. by rewrite length_insert, length_replicate.
  - intros c Hc. by apply unit_row_entry.
  - intros c. cbn [encoder_entry]. by rewrite delta_select, Hb.
Qed.

Lemma phantoms_served len :
  (length framed <= len)%nat -> Forall2 served (phantom_survivors k len) (map inl (seq len (k - len))).
Proof.
  intros Hl. unfold phantom_survivors. apply Forall2_fmap, Forall_Forall2_diag, Forall_forall.
  intros slot Hs%elem_of_seq. apply served_unit; [lia|]. intros c.
  by rewrite (nth_overflow framed) by lia.
Qed.

Lemma data_served data index len :
  (len <= k)%nat ->
  (forall slot d, (slot < len)%nat -> shard_at data (index + slot) = Some d -> nth slot framed [] = length_prefixed d) ->
  Forall2 served (data_survivors k data index len)
    (map inl (filter (fun slot => is_Some (shard_at data (index + slot))) (seq 0 len))).
Proof.
  intros Hk Hd. unfold data_survivors.
  assert (Hs : forall slot, slot ∈ seq 0 len -> (slot < len)%nat) by (intros slot Hs%elem_of_seq; lia).
  induction (seq 0 len) as [|slot slots IH]; [constructor|]. cbn [omap list_omap].
  specialize (IH ltac:(intros; apply Hs; by right)). pose proof (Hs slot ltac:(left)) as Hlt.
  destruct (shard_at data (index + slot)) as [d|] eqn:E.
  - rewrite filter_cons_True by (rewrite E; by eexists). constructor; [|done].
    apply served_unit; [lia|]. intros c. by rewrite (Hd slot d Hlt E).
  - rewrite filter_cons_False by (rewrite E; by intros [??]). done.
Qed.

(** A parity shard at its rank serves its Cauchy row. *)
Definition parity_shard (rank : nat) : list byte :=
  fold_rank k rank (max_or_zero (map length framed)) (map table_new (parity_rows k m)) framed.

Lemma parity_survivors_spec par base ranks rows :
  (0 < k)%nat -> (forall rank, rank ∈ ranks -> (rank < m)%nat) ->
  (forall rank bytes, (rank < m)%nat -> shard_at par (base + rank) = Some bytes ->
     length bytes = max_or_zero (map length framed) /\
     forall c, column c bytes = gf_below k (fun j => mul (coefficient k rank j) (column c (nth j framed [])))) ->
  (length rows <= k)%nat ->
  exists extra used, parity_survivors k (parity_rows k m) par base ranks rows = rows ++ extra
  /\ used `sublist_of` ranks /\ Forall2 served extra (map inr used)
  /\ Forall (fun x => length x.2 = max_or_zero (map length framed)) extra
  /\ length (rows ++ extra)
     = Nat.min k (length rows + length (filter (fun rank => is_Some (shard_at par (base + rank))) ranks)).
Proof.
  intros Hk Hranks Hpar. revert rows. induction ranks as [|rank ranks IH]; intros rows Hl; cbn [parity_survivors].
  { exists [], []. rewrite app_nil_r. split_and!; try done. cbn. lia. }
  specialize (IH ltac:(intros; apply Hranks; by right)). pose proof (Hranks rank ltac:(left)) as Hr.
  destruct (Nat.ltb_spec (length rows) k) as [Hlt|Hge].
  2: { exists [], []. rewrite app_nil_r. split_and!; try done; [apply sublist_nil_l|]. lia. }
  unfold coeff_row. rewrite (proj2 (Nat.leb_le _ _)) by (rewrite length_parity_rows; nia).
  destruct (shard_at par (base + rank)) as [bytes|] eqn:E.
  - rewrite filter_cons_True by (rewrite E; by eexists).
    destruct (IH (rows ++ [(row_of (parity_rows k m) k rank, bytes)])) as (extra & used & -> & Hu & Hs & Hw & Hlen).
    { rewrite length_app. cbn [length]. lia. }
    exists ((row_of (parity_rows k m) k rank, bytes) :: extra), (rank :: used).
    destruct (Hpar rank bytes Hr E) as [Hb Hc].
    split_and!; [by rewrite <- app_assoc|by apply sublist_skip| |by constructor|].
    + cbn [map]. constructor; [|done]. split_and!; cbn [fst snd].
      * apply (length_row_of _ _ _ m); [apply length_parity_rows|done].
      * intros c Hck. rewrite nth_row_of by done. unfold at_. by rewrite parity_rows_entry.
      * done.
    + rewrite <- app_assoc in Hlen. cbn [app] in Hlen. rewrite Hlen, length_app. cbn [length]. lia.
  - rewrite filter_cons_False by (rewrite E; by intros [??]).
    destruct (IH rows Hl) as (extra & used & -> & Hu & H). exists extra, used.
    split; [done|]. split; [by apply sublist_cons|done].
Qed.
End Survivors.

(** ** Any [k] rows of the encoder invert *)

Definition is_encoder_row (k : nat) (row : list byte) (kind : nat + nat) : Prop :=
  length row = k /\ forall c, (c < k)%nat -> column c row = encoder_entry k kind c.

Lemma selection_inverts k m slots ranks rows :
  (0 < k)%nat -> (k + m <= 256)%nat -> NoDup slots -> NoDup ranks ->
  (forall s, s ∈ slots -> (s < k)%nat) -> (forall r, r ∈ ranks -> (r < m)%nat) ->
  (length slots + length ranks = k)%nat ->
  Forall2 (is_encoder_row k) rows (map inl slots ++ map inr ranks) ->
  exists inverse, invert_subset rows k = Some inverse /\ length inverse = (k * k)%nat
  /\ forall r c, (r < k)%nat -> (c < k)%nat ->
     gf_below k (fun t => mul (nth (r * k + t) inverse Byte.x00) (entry rows t c))
     = delta Byte.x00 Byte.x01 r c.
Proof.
  intros Hk Hkm Hns Hnr Hs Hr Hlen Hrows.
  assert (Hl : length rows = k).
  { rewrite (Forall2_length _ _ _ Hrows), length_app, !length_map. done. }
  pose proof (invert_subset_raw k rows Hk Hl) as H.
  specialize (H ltac:(clear -Hrows; induction Hrows as [|row kind rows kinds [H _] _ IH]; constructor; done)).
  destruct (invert_subset rows k) as [inverse|]; [by exists inverse|].
  destruct H as (v & i & Hi & Hv & Hker). exfalso.
  assert (E : v i = Byte.x00); [|by rewrite E in Hv].
  apply (encoder_rows_independent k m slots ranks v Hkm Hns Hnr Hs Hr Hlen); [|done].
  intros kind Hkind. apply list_elem_of_lookup in Hkind as [t Ht].
  destruct (Forall2_lookup_r _ _ _ _ _ Hrows Ht) as (row & Hrow & _ & Hentry).
  etransitivity; [|apply (Hker t); rewrite <- Hl; by eapply lookup_lt_Some].
  apply below_ext. intros c Hc. unfold entry. rewrite (nth_lookup_Some _ _ _ _ Hrow). by rewrite Hentry.
Qed.

(** ** Solving for the holes *)

Section Solve.
Context (k : nat) (framed : list (list byte)) (inverse : list byte) (rows sbytes : list (list byte)) (kinds : list (nat + nat)).
Hypothesis Hinv : forall r c, (r < k)%nat -> (c < k)%nat ->
  gf_below k (fun t => mul (nth (r * k + t) inverse Byte.x00) (entry rows t c)) = delta Byte.x00 Byte.x01 r c.
Hypothesis Hlen : length sbytes = k.
Hypothesis Hserved : forall t c, (t < k)%nat ->
  column c (nth t sbytes []) = gf_below k (fun j => mul (entry rows t j) (column c (nth j framed []))).

Lemma solve_slot_spec slot acc :
  (slot < k)%nat ->
  length (solve_slot k slot inverse sbytes acc) = length acc
  /\ forall c, (c < length acc)%nat -> column c (solve_slot k slot inverse sbytes acc) = column c (nth slot framed []).
Proof.
  intros Hs.
  set (step := fun (acc : list byte) '(t, sb) => mul_add (nth (slot * k + t) inverse Byte.x00) sb acc).
  assert (H : forall c, _) by (intros c; exact (fold_axpy_column step
    (fun t => nth (slot * k + t) inverse Byte.x00) (fun t => nth t sbytes [])
    sbytes 0 (replicate (length acc) Byte.x00) c
    (fun j s acc _ => mul_add_axpy _ s acc) (fun j _ => eq_refl))).
  change (imap (fun j s => ((0 + j)%nat, s)) sbytes) with (imap pair sbytes) in H.
  rewrite length_replicate in H. split; [apply (H 0%nat)|].
  intros c Hc. unfold solve_slot. fold step. rewrite (proj2 (H c)) by done.
  rewrite column_replicate, xor_0_l, Hlen.
  apply (inverse_recovers Byte.x00 Byte.x01 byte_xor mul gf_sub gf_opp gf_div inv gf_field k
           (entry rows) (fun r t => nth (r * k + t) inverse Byte.x00)
           (fun j => column c (nth j framed [])) (fun t => column c (nth t sbytes []))); auto.
Qed.

(** Every hole whose slot strips to a shard is filled with it; nothing else changes. *)
Lemma fill_holes_spec (orig : list (list byte)) index width holes acc data :
  length acc = width ->
  (forall h, h ∈ holes -> (index <= h < index + k)%nat /\ (h < length data)%nat /\
     exists d, orig !! h = Some d /\ nth (h - index) framed [] = length_prefixed d /\ fits d /\ (4 + length d <= width)%nat) ->
  let data' := snd (foldl (fill_hole k index inverse sbytes) (acc, data) holes) in
  length data' = length data
  /\ (forall i, i ∉ holes -> data' !! i = data !! i)
  /\ (forall h, h ∈ holes -> data' !! h = Some (orig !! h)).
Proof.
  revert acc data. induction holes as [|h holes IH]; intros acc data Ha Hh; cbn [foldl]; cbv zeta.
  { split_and!; [done|done|]. by intros h Hn%elem_of_nil. }
  destruct (Hh h ltac:(left)) as (Hr & Hlt & d & Hd & Hf & Hfit & Hw).
  destruct (solve_slot_spec (h - index) acc ltac:(lia)) as [Hl Hc].
  assert (Hstrip : strip_length_prefix (solve_slot k (h - index) inverse sbytes acc) = Some d).
  { apply strip_of_columns; [done| |by rewrite Hl, Ha]. intros c Hc'. rewrite Hl in Hc'. by rewrite Hc, Hf. }
  assert (Hstep : fill_hole k index inverse sbytes (acc, data) h
                  = (solve_slot k (h - index) inverse sbytes acc, <[h:=Some d]> data))
    by (unfold fill_hole; by rewrite Hstrip).
  rewrite Hstep.
  destruct (IH (solve_slot k (h - index) inverse sbytes acc) (<[h:=Some d]> data)) as (H1 & H2 & H3).
  { by rewrite Hl. }
  { intros x Hx. rewrite length_insert. apply Hh. by right. }
  cbv zeta in *. rewrite length_insert in H1. split_and!; [done| |].
  - intros i Hi. apply not_elem_of_cons in Hi as [Hi1 Hi2]. rewrite H2 by done.
    by rewrite list_lookup_insert_ne.
  - intros x Hx. destruct (decide (x ∈ holes)) as [Hin|Hout]; [by apply H3|].
    apply elem_of_cons in Hx as [->|]; [|done]. rewrite H2 by done.
    rewrite list_lookup_insert_eq by done. by rewrite Hd.
Qed.
End Solve.

(** ** One group, received from an authentic sender *)

(** What arrived is what was sent. *)
Definition authentic (orig : list (list byte)) (data : list (option (list byte))) : Prop :=
  length data = length orig /\ forall i d, data !! i = Some (Some d) -> orig !! i = Some d.

Definition surviving (par : list (option (list byte))) (base m : nat) : nat :=
  length (filter (fun rank => is_Some (shard_at par (base + rank))) (seq 0 m)).

(** The [m] shards of one group. *)
Definition group_parity (self : ReedSolomonFec) (m : nat) (group : list (list byte)) : list (list byte) :=
  if (m =? 1)%nat then [xor_encoded group]
  else encode_group self m (map table_new (parity_rows (group_size self) m)) group.

(** Nothing outside the holes changes, the holes get the original or nothing, and within the budget
    they get the original. *)
Definition group_outcome (orig : list (list byte)) (data data' : list (option (list byte)))
    (holes : list nat) (budget : nat) : Prop :=
  length data' = length data
  /\ (forall i, i ∉ holes -> data' !! i = data !! i)
  /\ (data' = data \/ forall h, h ∈ holes -> data' !! h = Some (orig !! h))
  /\ ((length holes <= budget)%nat -> forall h, h ∈ holes -> data' !! h = Some (orig !! h)).

Lemma untouched orig data holes budget :
  ((length holes <= budget)%nat -> holes = []) -> group_outcome orig data data holes budget.
Proof.
  intros H. split_and!; [done|done|by left|]. intros Hb h Hh. rewrite (H Hb) in Hh. by apply elem_of_nil in Hh.
Qed.

Lemma filled orig data data' holes budget :
  length data' = length data -> (forall i, i ∉ holes -> data' !! i = data !! i) ->
  (forall h, h ∈ holes -> data' !! h = Some (orig !! h)) -> group_outcome orig data data' holes budget.
Proof. intros H1 H2 H3. split_and!; auto. Qed.

Section Group.
Context (self : ReedSolomonFec) (orig : list (list byte)) (data par : list (option (list byte))).
Context (index upper gi m : nat).
Hypothesis Hauth : authentic orig data.
Hypothesis Hfits : forall d, d ∈ orig -> fits d.
Hypothesis Hrange : (index < upper <= length orig)%nat.

Let group := take (upper - index) (drop index orig).
Let holes := holes_of data index upper.

Lemma group_length : length group = (upper - index)%nat.
Proof. subst group. rewrite length_take, length_drop. lia. Qed.

Lemma group_nth slot : (slot < upper - index)%nat -> orig !! (index + slot)%nat = Some (nth slot group []).
Proof.
  intros Hs. destruct (nth_lookup_or_length group slot []) as [<-|Hl]; [|rewrite group_length in Hl; lia].
  subst group. rewrite lookup_take_lt, lookup_drop by done. done.
Qed.

Lemma hole_facts h : h ∈ holes <-> (index <= h < upper)%nat /\ data !! h = Some None.
Proof. subst holes. unfold holes_of. rewrite list_elem_of_filter, elem_of_seq. split; intros [? ?]; split; done || lia. Qed.

Lemma not_hole i : (index <= i < upper)%nat -> i ∉ holes -> exists d, shard_at data i = Some d /\ orig !! i = Some d.
Proof.
  intros Hi Hh. destruct Hauth as [Hl Ha]. unfold shard_at.
  destruct (lookup_lt_is_Some_2 data i ltac:(lia)) as [[d|] E]; rewrite E.
  - exists d. split; [done|by apply Ha].
  - destruct Hh. by apply hole_facts.
Qed.

Lemma shard_at_authentic i d : shard_at data i = Some d -> orig !! i = Some d.
Proof.
  unfold shard_at. destruct Hauth as [_ Ha]. intros H. apply Ha.
  destruct (data !! i) as [[x|]|]; [by injection H as ->|done|done].
Qed.

(** Plain XOR: the parity minus the survivors is the missing member. *)
Lemma recover_xor_outcome :
  (forall bytes, shard_at par gi = Some bytes -> bytes = xor_encoded group) ->
  length holes = 1%nat ->
  group_outcome orig data (recover_xor data par index upper gi holes) holes (surviving par gi 1).
Proof.
  intros Hpar H1. destruct holes as [|h [|? ?]] eqn:Eh; [done| |done].
  assert (Hh : h ∈ holes) by (rewrite Eh; left). apply hole_facts in Hh as [Hhr Hhn].
  unfold recover_xor, surviving. cbn [seq head]. rewrite filter_cons, Nat.add_0_r.
  destruct (shard_at par gi) as [bytes|].
  2: { rewrite decide_False by (by intros [??]). apply untouched. cbn. lia. }
  specialize (Hpar bytes eq_refl). subst bytes.
  set (survivors := omap (shard_at data) _).
  set (val := fun i => nth (i - index) group []).
  assert (Hval : forall i, (index <= i < upper)%nat -> orig !! i = Some (val i)).
  { intros i Hi. replace i with (index + (i - index))%nat at 1 by lia. apply group_nth. lia. }
  assert (Hsurv : survivors = map val (filter (fun i => i <> h) (seq index (upper - index)))).
  { subst survivors. assert (Hin : forall i, i ∈ seq index (upper - index) -> (index <= i < upper)%nat)
      by (intros i Hi%elem_of_seq; lia).
    induction (seq index (upper - index)) as [|i l IH]; [done|]. cbn [omap list_omap].
    specialize (IH ltac:(intros; apply Hin; by right)). specialize (Hin i ltac:(left)).
    destruct (decide (i = h)) as [->|Hne].
    - rewrite filter_cons_False by tauto. unfold shard_at at 1. rewrite Hhn. exact IH.
    - rewrite filter_cons_True by done. cbn [map].
      destruct (not_hole i Hin ltac:(rewrite Eh; by intros ->%list_elem_of_singleton)) as (d & -> & Hd).
      rewrite IH. f_equal. rewrite Hval in Hd by done. by injection Hd. }
  assert (Hgroup : group = map val (seq index (upper - index))).
  { apply (nth_ext _ _ [] []); rewrite ?length_map, ?length_seq, group_length; [done|].
    intros n Hn. rewrite (nth_indep (map val _) [] (val 0%nat)) by (by rewrite length_map, length_seq).
    rewrite map_nth, seq_nth by done. subst val. cbn beta. f_equal. lia. }
  assert (Hstrip : strip_length_prefix (xor_recover (xor_encoded group) survivors) = Some (val h)).
  { apply strip_of_columns.
    - apply Hfits. eapply list_elem_of_lookup_2. by apply Hval.
    - intros c _. rewrite (proj1 (xor_recover_spec _ _ c)), (proj1 (xor_encoded_spec _ c)).
      rewrite Hsurv, Hgroup, !gf_sum_map.
      rewrite (gf_sum_split _ (seq index (upper - index)) h) by (apply NoDup_seq || (apply elem_of_seq; lia)).
      apply xor_cancel.
    - etransitivity; [|apply (proj2 (xor_recover_spec _ _ 0%nat))].
      apply (proj2 (xor_encoded_spec group 0%nat)). rewrite Hgroup. apply list_elem_of_fmap.
      exists h. split; [done|]. apply elem_of_seq. lia. }
  rewrite Hstrip. destruct Hauth as [Hl _]. apply filled.
  - by rewrite length_insert.
  - intros i Hi. rewrite list_lookup_insert_ne; [done|]. intros ->. apply Hi. left.
  - intros x ->%list_elem_of_singleton. rewrite list_lookup_insert_eq by lia. by rewrite Hval.
Qed.

(** The matrix arm. *)
Let framed := map length_prefixed group.
Let k := group_size self.
Let present := filter (fun slot => is_Some (shard_at data (index + slot))) (seq 0 (upper - index)).

Lemma framed_nth slot d : (slot < upper - index)%nat -> orig !! (index + slot)%nat = Some d -> nth slot framed [] = length_prefixed d.
Proof.
  intros Hs Hd. rewrite group_nth in Hd by done. injection Hd as <-. subst framed.
  rewrite (nth_indep _ [] (length_prefixed [])) by (by rewrite length_map, group_length). apply map_nth.
Qed.

Lemma present_count : (length present + length holes = upper - index)%nat.
Proof.
  pose proof (filter_app_complement (fun i => data !! i = Some None) (seq index (upper - index))) as Hp.
  apply Permutation_length in Hp. rewrite length_app, length_seq in Hp. fold holes in Hp.
  assert (E : length present = length (filter (fun i => ~ data !! i = Some None) (seq index (upper - index)))); [|subst holes; unfold holes_of in *; lia].
  subst present. assert (Hin : forall s, s ∈ seq 0 (upper - index) -> (s < upper - index)%nat)
    by (intros s Hs%elem_of_seq; lia).
  rewrite <- (Nat.add_0_r index) at 2. rewrite <- fmap_add_seq.
  induction (seq 0 (upper - index)) as [|s l IH]; [done|]. cbn [fmap list_fmap].
  specialize (IH ltac:(intros; apply Hin; by right)). specialize (Hin s ltac:(left)).
  destruct (decide ((index + s)%nat ∈ holes)) as [Hh|Hh].
  - apply hole_facts in Hh as [_ Hh]. rewrite !filter_cons_False; [exact IH|tauto|].
    unfold shard_at. rewrite Hh. by intros [??].
  - destruct (not_hole (index + s) ltac:(lia) Hh) as (d & Hd & _).
    rewrite !filter_cons_True; [cbn [length]; by f_equal| |by eexists].
    intros E. apply Hh, hole_facts. split; [lia|done].
Qed.

Hypothesis Hk : (upper - index <= k)%nat.
Hypothesis Hkm : (k + m <= 256)%nat.
Hypothesis Hpar : forall rank bytes, (rank < m)%nat -> shard_at par (gi * m + rank) = Some bytes ->
  bytes = parity_shard k m framed rank.

(** The survivors: rows of the encoder, distinct, enough of them exactly within the budget. *)
Lemma survivors_facts :
  let known := data_survivors k data index (upper - index) ++ phantom_survivors k (upper - index) in
  exists extra used,
  parity_survivors k (parity_rows k m) par (gi * m) (seq 0 m) known = known ++ extra
  /\ NoDup used /\ (forall r, r ∈ used -> (r < m)%nat) /\ length extra = length used
  /\ Forall (fun x => length x.2 = max_or_zero (map length framed)) extra
  /\ Forall2 (served k framed) (known ++ extra) (map inl (present ++ seq (upper - index) (k - (upper - index))) ++ map inr used)
  /\ length (known ++ extra) = Nat.min k (k - length holes + surviving par (gi * m) m).
Proof.
  intros known. pose proof present_count as Hcount. pose proof group_length as Hgl.
  assert (Hfl : length framed = (upper - index)%nat) by (subst framed; by rewrite length_map).
  assert (Hknown : Forall2 (served k framed) known (map inl (present ++ seq (upper - index) (k - (upper - index))))).
  { rewrite map_app. apply Forall2_app.
    - apply data_served; [done|]. intros slot d Hs Hd. apply framed_nth; [done|]. by apply shard_at_authentic.
    - apply phantoms_served. lia. }
  assert (Hkl : length known = (k - length holes)%nat).
  { rewrite (Forall2_length _ _ _ Hknown), length_map, length_app, length_seq. lia. }
  destruct (parity_survivors_spec k m framed par (gi * m) (seq 0 m) known) as (extra & used & E & Hu & Hs & Hw & Hlen).
  - lia.
  - intros r Hr%elem_of_seq. lia.
  - intros rank bytes Hr Hb. apply Hpar in Hb; [|done]. subst bytes. unfold parity_shard. split.
    + by apply (fold_rank_column k m rank group 0 ltac:(lia) Hr).
    + intros c. by apply (fold_rank_column k m rank group c ltac:(lia) Hr).
  - lia.
  - exists extra, used. split_and!; [done| | | |done| |].
    + eapply sublist_NoDup; [|exact Hu]. apply NoDup_seq.
    + intros r Hr. pose proof (elem_of_sublist _ _ _ Hr Hu) as Hi. apply elem_of_seq in Hi. lia.
    + by rewrite (Forall2_length _ _ _ Hs), length_map.
    + by apply Forall2_app.
    + rewrite Hlen, Hkl. unfold surviving. done.
Qed.

Lemma recover_matrix_outcome :
  holes <> [] ->
  group_outcome orig data (recover_matrix self data par index upper gi m holes) holes (surviving par (gi * m) m).
Proof.
  intros Hne. unfold recover_matrix. fold k. cbv zeta.
  destruct survivors_facts as (extra & used & -> & Hnd & Hum & Hul & Hw & Hserved & Hlen).
  set (known := data_survivors _ _ _ _ ++ _) in *. pose proof present_count as Hcount.
  assert (Hh : (0 < length holes)%nat) by (destruct holes; [done|cbn; lia]).
  destruct (Nat.ltb_spec (length (known ++ extra)) k) as [Hlt|Hge]; [apply untouched; lia|].
  assert (Hl : length (known ++ extra) = k) by lia.
  rewrite !take_ge by (rewrite length_map; lia).
  pose proof (Forall2_length _ _ _ Hserved) as Hkinds. rewrite Hl, length_app, !length_map, length_app, length_seq in Hkinds.
  set (rows := map fst (known ++ extra)). set (sbytes := map snd (known ++ extra)).
  destruct (selection_inverts k m (present ++ seq (upper - index) (k - (upper - index))) used rows)
    as (inverse & -> & _ & Hinv); [lia|done| |done| |done|rewrite length_app, length_seq; lia| |].
  { apply NoDup_app. split_and!; [apply NoDup_filter, NoDup_seq| |apply NoDup_seq].
    intros s Hs Hs'%elem_of_seq. apply list_elem_of_filter in Hs as [_ Hs%elem_of_seq]. lia. }
  { intros s Hs. apply elem_of_app in Hs as [Hs|Hs%elem_of_seq]; [|lia].
    apply list_elem_of_filter in Hs as [_ Hs%elem_of_seq]. lia. }
  { subst rows. clear -Hserved. induction Hserved as [|x y xs ys [H1 [H2 _]] _ IH]; [constructor|].
    constructor; [done|exact IH]. }
  assert (Hwide : (max_or_zero (map length framed) <= max_or_zero (map length sbytes))%nat).
  { apply max_or_zero_ub. subst sbytes. destruct extra as [|x extra]; [rewrite app_nil_r in Hl; cbn [length] in *; lia|].
    apply Forall_cons in Hw as [<- _]. rewrite map_map. apply list_elem_of_fmap. exists x.
    split; [done|]. apply elem_of_app. right. left. }
  destruct (fill_holes_spec k framed inverse rows sbytes Hinv) with (orig := orig) (index := index)
    (width := max_or_zero (map length sbytes)) (holes := holes)
    (acc := replicate (max_or_zero (map length sbytes)) Byte.x00) (data := data) as (H1 & H2 & H3).
  - subst sbytes. by rewrite length_map.
  - intros t c Ht. subst rows sbytes. unfold entry.
    destruct (lookup_lt_is_Some_2 (known ++ extra) t ltac:(lia)) as [x Hx].
    destruct (Forall2_lookup_l _ _ _ _ _ Hserved Hx) as (kind & _ & _ & He & Hc).
    rewrite (nth_lookup_Some (map snd _) t [] x.2) by (rewrite list_lookup_fmap, Hx; done).
    rewrite (nth_lookup_Some (map fst _) t [] x.1) by (rewrite list_lookup_fmap, Hx; done).
    rewrite Hc. apply below_ext. intros j Hj. by rewrite He.
  - by rewrite length_replicate.
  - intros h Hin. apply hole_facts in Hin as [Hr Hn]. split; [lia|]. split; [by eapply lookup_lt_Some|].
    pose proof (group_nth (h - index) ltac:(lia)) as Hd. replace (index + (h - index))%nat with h in Hd by lia.
    exists (nth (h - index) group []). split_and!; [done| | |].
    + apply framed_nth; [lia|]. by replace (index + (h - index))%nat with h by lia.
    + apply Hfits. by eapply list_elem_of_lookup_2.
    + etransitivity; [|exact Hwide]. rewrite <- length_length_prefixed.
      apply max_or_zero_ub. subst framed. rewrite map_map. apply list_elem_of_fmap.
      eexists. split; [done|]. apply nth_elem_of. rewrite group_length. lia.
  - by apply filled.
Qed.
End Group.

(** The counts the code asserts: the construction, and [parity_rows] for a per-frame [m]. *)
Definition usable (self : ReedSolomonFec) (m : nat) : Prop :=
  m = 1%nat \/ (2 <= m)%nat /\ (1 <= group_size self)%nat /\ (group_size self + m <= 256)%nat.

Lemma effective_size_pos self requested m : usable self m -> (0 < effective_group_size self requested m)%nat.
Proof.
  intros H. unfold effective_group_size. destruct (Nat.ltb_spec requested 1), (Nat.eqb_spec m 1);
    destruct (Nat.ltb_spec 1 (group_size self)), (Nat.ltb_spec requested (group_size self));
    unfold usable in H; lia.
Qed.

Lemma effective_size_le self requested m : m <> 1%nat -> (effective_group_size self requested m <= group_size self)%nat.
Proof.
  intros H. unfold effective_group_size. destruct (Nat.eqb_spec m 1); [done|].
  destruct (Nat.ltb_spec requested 1); [destruct (Nat.ltb_spec 1 (group_size self))|
    destruct (Nat.ltb_spec requested (group_size self))]; lia.
Qed.

Lemma surviving_le par base m : (surviving par base m <= m)%nat.
Proof. unfold surviving. etransitivity; [apply length_filter|]. by rewrite length_seq. Qed.

Lemma recover_group_outcome self orig data par index upper gi m :
  usable self m -> authentic orig data -> (forall d, d ∈ orig -> fits d) ->
  (index < upper <= length orig)%nat -> (m = 1%nat \/ (upper - index <= group_size self)%nat) ->
  (forall rank bytes, (rank < m)%nat -> shard_at par (gi * m + rank) = Some bytes ->
     group_parity self m (take (upper - index) (drop index orig)) !! rank = Some bytes) ->
  group_outcome orig data (recover_group self data par index upper gi m) (holes_of data index upper)
    (surviving par (gi * m) m).
Proof.
  intros Hu Ha Hf Hr Hw Hp. unfold recover_group. set (holes := holes_of data index upper).
  destruct (Nat.eqb_spec (length holes) 0) as [H0|H0]; cbn [orb].
  { apply untouched. intros _. by apply nil_length_inv. }
  pose proof (surviving_le par (gi * m) m) as Hs.
  destruct (Nat.ltb_spec m (length holes)) as [Hlt|Hge]; [apply untouched; lia|].
  unfold group_parity in Hp. destruct (Nat.eqb_spec m 1) as [->|Hm].
  - rewrite Nat.mul_1_r in *. apply recover_xor_outcome; [done..| |fold holes; lia].
    intros bytes Hb. specialize (Hp 0%nat bytes ltac:(lia)). rewrite Nat.add_0_r in Hp.
    specialize (Hp Hb). by injection Hp.
  - destruct Hu as [|(Hm2 & Hk1 & Hkm)]; [done|]. destruct Hw as [|Hw]; [done|].
    apply recover_matrix_outcome; try done; [|by intros E; apply H0; fold holes in E; rewrite E].
    intros rank bytes Hrk Hb. specialize (Hp rank bytes Hrk Hb). unfold encode_group in Hp.
    rewrite list_lookup_fmap, lookup_seq_lt in Hp by done. cbn in Hp. by injection Hp.
Qed.

(** ** The parity layout: group-major, then rank *)

Lemma chunks_lookup {A} fuel size (l : list A) g :
  (0 < size)%nat -> (length l <= fuel)%nat -> (g * size < length l)%nat ->
  chunks fuel size l !! g = Some (take size (drop (g * size) l)).
Proof.
  intros Hs. revert l g. induction fuel as [|fuel IH]; intros [|a l] g Hf Hg; cbn [length] in *; try lia.
  cbn [chunks]. destruct g as [|g]; [done|]. cbn [lookup list_lookup].
  rewrite IH by (rewrite length_drop; cbn [length]; nia). rewrite drop_drop. do 3 f_equal. 
Qed.

Lemma lookup_concat_uniform {A} (ls : list (list A)) n g l r :
  Forall (fun l => length l = n) ls -> ls !! g = Some l -> (r < n)%nat -> concat ls !! (g * n + r)%nat = l !! r.
Proof.
  intros Hn. revert g. induction Hn as [|l0 ls H0 _ IH]; intros [|g] Hg Hr; try done; cbn [concat lookup list_lookup] in *.
  - injection Hg as <-. by rewrite lookup_app_l by (cbn; lia).
  - rewrite lookup_app_r by lia. rewrite <- (IH g Hg Hr). f_equal. lia.
Qed.

Lemma parity_m_groups self orig requested m :
  parity_m self orig requested m
  = concat (map (group_parity self m) (chunks (length orig) (effective_group_size self requested m) orig)).
Proof.
  unfold parity_m, group_parity. destruct (Nat.eqb_spec m 1) as [->|]; [|done].
  induction (chunks _ _ _) as [|x xs IH]; [done|]. cbn [map concat app]. by rewrite IH.
Qed.

Lemma length_group_parity self m group : length (group_parity self m group) = m.
Proof.
  unfold group_parity. destruct (Nat.eqb_spec m 1) as [->|]; [done|]. unfold encode_group.
  by rewrite length_map, length_seq.
Qed.

Lemma parity_layout self orig requested m g rank :
  usable self m -> (rank < m)%nat ->
  let size := effective_group_size self requested m in
  (g * size < length orig)%nat ->
  parity_m self orig requested m !! (g * m + rank)%nat
  = group_parity self m (take size (drop (g * size) orig)) !! rank.
Proof.
  intros Hu Hr size Hg. pose proof (effective_size_pos self requested m Hu) as Hs. fold size in Hs.
  rewrite parity_m_groups. fold size. apply lookup_concat_uniform; [|by rewrite list_lookup_fmap, chunks_lookup|done].
  apply Forall_fmap, Forall_forall. intros x _. apply length_group_parity.
Qed.

Lemma in_holes data a b i : (a <= b)%nat -> i ∈ holes_of data a b <-> (a <= i < b)%nat /\ data !! i = Some None.
Proof. intros Hab. unfold holes_of. rewrite list_elem_of_filter, elem_of_seq. split; intros [? ?]; split; done || lia. Qed.

Lemma holes_ext data data' a b :
  (forall i, (a <= i < b)%nat -> data' !! i = data !! i) -> holes_of data' a b = holes_of data a b.
Proof.
  intros H. unfold holes_of. assert (Hin : forall i, i ∈ seq a (b - a) -> data' !! i = data !! i)
    by (intros i Hi%elem_of_seq; apply H; lia).
  induction (seq a (b - a)) as [|i l IH]; [done|].
  specialize (IH ltac:(intros; apply Hin; by right)). specialize (Hin i ltac:(left)).
  destruct (decide (data !! i = Some None)) as [E|E].
  - rewrite !filter_cons_True by congruence. by rewrite IH.
  - rewrite !filter_cons_False by congruence. exact IH.
Qed.

(** ** The whole frame *)

Section Frame.
Context (self : ReedSolomonFec) (orig : list (list byte)) (par : list (option (list byte))) (size m : nat).
Hypothesis Husable : usable self m.
Hypothesis Hsize : (0 < size)%nat.
Hypothesis Hwidth : m = 1%nat \/ (size <= group_size self)%nat.
Hypothesis Hfits : forall d, d ∈ orig -> fits d.
Hypothesis Hpar : forall g rank bytes, (g * size < length orig)%nat -> (rank < m)%nat ->
  shard_at par (g * m + rank) = Some bytes ->
  group_parity self m (take size (drop (g * size) orig)) !! rank = Some bytes.

Definition group_end (g : nat) : nat := Nat.min (g * size + size) (length orig).

(** The group has no more holes than parity shards that arrived. *)
Definition in_budget (data : list (option (list byte))) (g : nat) : Prop :=
  (length (holes_of data (g * size) (group_end g)) <= surviving par (g * m) m)%nat.

Lemma take_end g : (g * size < length orig)%nat ->
  take (group_end g - g * size) (drop (g * size) orig) = take size (drop (g * size) orig).
Proof.
  intros Hg. unfold group_end. destruct (Nat.le_ge_cases (g * size + size) (length orig)).
  - f_equal. lia.
  - rewrite !take_ge; [done|rewrite length_drop; lia|rewrite length_drop; lia].
Qed.

(** One turn of the loop. *)
Lemma turn data g :
  authentic orig data -> (g * size < length orig)%nat ->
  let data' := recover_group self data par (g * size) (group_end g) g m in
  authentic orig data'
  /\ (forall i, ~ (g * size <= i < group_end g)%nat -> data' !! i = data !! i)
  /\ (forall i d, data !! i = Some (Some d) -> data' !! i = Some (Some d))
  /\ (in_budget data g -> forall i, (g * size <= i < group_end g)%nat -> data' !! i = Some (orig !! i)).
Proof.
  intros Ha Hg data'. assert (He : (g * size < group_end g <= length orig)%nat) by (unfold group_end; lia).
  destruct (recover_group_outcome self orig data par (g * size) (group_end g) g m Husable Ha Hfits He)
    as (Hl & Hout & Hin & Hbud).
  { destruct Hwidth; [by left|right]. unfold group_end. lia. }
  { intros rank bytes Hr Hb. rewrite take_end by done. by apply Hpar. }
  fold data' in Hl, Hout, Hin, Hbud. destruct Ha as [Hla Hd].
  pose proof (fun i => in_holes data (g * size) (group_end g) i ltac:(lia)) as Hmem.
  assert (Hkeep : forall i d, data !! i = Some (Some d) -> data' !! i = Some (Some d)).
  { intros i d Hi. rewrite Hout; [done|]. rewrite Hmem. intros [_ E]. congruence. }
  split_and!; [split; [by rewrite Hl| ]| |done|].
  - intros i d Hi. destruct (decide (i ∈ holes_of data (g * size) (group_end g))) as [Hh|Hh].
    + destruct Hin as [E|Hin]; [|by rewrite (Hin i Hh) in Hi; injection Hi].
      apply Hmem in Hh as [_ Hh]. congruence.
    + rewrite Hout in Hi by done. by apply Hd.
  - intros i Hi. apply Hout. rewrite Hmem. tauto.
  - intros Hb i Hi. destruct (decide (i ∈ holes_of data (g * size) (group_end g))) as [Hh|Hh]; [by apply Hbud|].
    destruct (lookup_lt_is_Some_2 data i ltac:(lia)) as [[d|] E]; [|destruct Hh; by apply Hmem].
    rewrite (Hkeep i d E). f_equal. symmetry. by apply Hd.
Qed.

Lemma loop_outcome fuel data g :
  authentic orig data -> (length orig < g * size + fuel)%nat ->
  let data' := recover_loop fuel self data par size m (g * size) g in
  authentic orig data'
  /\ (forall i, (i < g * size)%nat -> data' !! i = data !! i)
  /\ (forall i d, data !! i = Some (Some d) -> data' !! i = Some (Some d))
  /\ (forall g', (g <= g')%nat -> in_budget data g' ->
      forall i, (g' * size <= i < group_end g')%nat -> data' !! i = Some (orig !! i)).
Proof.
  revert data g. induction fuel as [|fuel IH]; intros data g Ha Hf; cbn [recover_loop]; cbv zeta.
  { split_and!; try done. intros g' Hg _ i Hi. unfold group_end in Hi. nia. }
  pose proof (proj1 Ha) as Hla.
  destruct (Nat.ltb_spec (g * size) (length data)) as [Hlt|Hge].
  2: { split_and!; try done. intros g' Hg _ i Hi. unfold group_end in Hi. nia. }
  rewrite Hla in *. fold (group_end g).
  destruct (turn data g Ha Hlt) as (Ha1 & Hout & Hkeep & Hbud). cbv zeta in *.
  set (data1 := recover_group _ _ _ _ _ _ _) in *.
  destruct (IH data1 (S g) Ha1 ltac:(lia)) as (Ha2 & Hlow & Hkeep2 & Hbud2).
  replace (S g * size)%nat with (g * size + size)%nat in * by lia. cbv zeta in *.
  split_and!; [done| | |].
  - intros i Hi. rewrite Hlow by lia. apply Hout. lia.
  - intros i d Hi. by apply Hkeep2, Hkeep.
  - intros g' Hg Hb i Hi. destruct (decide (g' = g)) as [->|Hne].
    + rewrite Hlow by (unfold group_end in Hi; lia). by apply Hbud.
    + apply (Hbud2 g'); [lia| |done]. unfold in_budget in *. rewrite (holes_ext data data1); [done|].
      intros j Hj. apply Hout. unfold group_end in *. nia.
Qed.
End Frame.

(** ** The size of the parity *)

Lemma length_fold_rank k rank width tables framed : length (fold_rank k rank width tables framed) = width.
Proof.
  unfold fold_rank. rewrite <- (length_replicate width Byte.x00) at 2.
  generalize (replicate width Byte.x00). generalize (imap pair framed).
  intros l. induction l as [|[j shard] l IH]; intros acc; [done|]. cbn [foldl]. rewrite IH.
  destruct (tables !! _); [|done]. apply length_zip_into.
Qed.

Lemma length_xor_encoded group :
  length (xor_encoded group) = max_or_zero (map (fun m : list byte => PREFIX_BYTES + length m)%nat group).
Proof.
  unfold xor_encoded. destruct group as [|first rest]; [done|].
  edestruct xor_fold_spec as [H _]; [|rewrite H; apply length_resize].
  intros d Hd. rewrite length_resize. apply widest_ub. by right.
Qed.

(** A parity shard is as wide as the widest framed member of its group. *)
Lemma group_parity_width self m group p :
  p ∈ group_parity self m group -> length p = max_or_zero (map (fun m : list byte => PREFIX_BYTES + length m)%nat group).
Proof.
  unfold group_parity. destruct (Nat.eqb_spec m 1).
  - intros ->%list_elem_of_singleton. apply length_xor_encoded.
  - intros Hp. unfold encode_group in Hp. apply list_elem_of_fmap in Hp as (rank & -> & _).
    rewrite length_fold_rank. f_equal. rewrite map_map. apply map_ext. intros d. apply length_length_prefixed.
Qed.

Lemma elem_of_chunks {A} fuel size (l : list A) g : g ∈ chunks fuel size l -> g ⊆ l /\ (length g <= size)%nat.
Proof.
  revert l. induction fuel as [|fuel IH]; intros [|a l]; cbn [chunks]; [by intros ?%elem_of_nil..|].
  intros [->|Hg]%elem_of_cons.
  - split; [|rewrite length_take; lia]. intros x Hx. eapply elem_of_sublist; [exact Hx|apply sublist_take].
  - destruct (IH _ Hg) as [Hs Hl]. split; [|done]. intros x Hx. apply Hs in Hx.
    eapply elem_of_sublist; [exact Hx|apply sublist_drop].
Qed.

Lemma concat_chunks {A} fuel size (l : list A) : (0 < size)%nat -> (length l <= fuel)%nat -> concat (chunks fuel size l) = l.
Proof.
  intros Hs. revert l. induction fuel as [|fuel IH]; intros [|a l] Hf; cbn [length] in *; try done; [lia|].
  cbn [chunks concat]. rewrite IH by (rewrite length_drop; cbn [length]; lia). apply take_drop.
Qed.

Lemma length_chunks {A} fuel size (l : list A) :
  (0 < size)%nat -> (length l <= fuel)%nat -> length (chunks fuel size l) = div_ceil (length l) size.
Proof.
  intros Hs. revert l. induction fuel as [|fuel IH]; intros [|a l] Hf.
  1,3: cbn [chunks length]; symmetry; apply div_ceil_unique; lia.
  { cbn in Hf. lia. }
  cbn [chunks length] in *. symmetry. rewrite IH by (rewrite length_drop; cbn [length]; lia).
  rewrite length_drop. cbn [length]. set (rest := (S (length l) - size)%nat).
  destruct (div_ceil_spec rest size Hs) as [H1 H2]. set (q := div_ceil rest size) in *.
  apply div_ceil_unique; [done|subst rest; nia|].
  destruct (Nat.le_gt_cases (S (length l)) size); [assert (q = 0%nat) by (subst rest; nia); nia|subst rest; nia].
Qed.

Lemma length_parity_m self orig requested m :
  usable self m -> length (parity_m self orig requested m)
  = (m * div_ceil (length orig) (effective_group_size self requested m))%nat.
Proof.
  intros Hu. rewrite parity_m_groups. rewrite <- (length_chunks (length orig) _ orig) by (done || by apply effective_size_pos).
  induction (chunks _ _ _) as [|x xs IH]; cbn [map concat length]; [lia|].
  rewrite length_app, IH, length_group_parity. lia.
Qed.

Lemma parity_m_width self orig requested m p b :
  (forall d, d ∈ orig -> (length d <= b)%nat) -> p ∈ parity_m self orig requested m -> (length p <= PREFIX_BYTES + b)%nat.
Proof.
  intros Hb Hp. rewrite parity_m_groups in Hp. apply list_elem_of_In, in_concat in Hp as (ps & Hps & Hp).
  apply in_map_iff in Hps as (g & <- & Hg). apply list_elem_of_In in Hg, Hp.
  rewrite (group_parity_width _ _ _ _ Hp). apply max_or_zero_lub.
  intros n Hn. apply list_elem_of_fmap in Hn as (d & -> & Hd). apply elem_of_chunks in Hg as [Hg _].
  specialize (Hb d (Hg d Hd)). lia.
Qed.

(** ** Arbitrary input *)

Lemma fold_fill_only k index inverse sbytes holes state :
  let data' := snd (foldl (fill_hole k index inverse sbytes) state holes) in
  length data' = length (snd state) /\ forall i, i ∉ holes -> data' !! i = snd state !! i.
Proof.
  revert state. induction holes as [|h holes IH]; intros [acc data]; [done|]. cbn [foldl]. cbv zeta.
  destruct (IH (fill_hole k index inverse sbytes (acc, data) h)) as [H1 H2]. cbv zeta in *.
  unfold fill_hole in H1, H2 |- * at 2 4. cbn [snd] in *.
  destruct (strip_length_prefix _) as [bytes|].
  - rewrite length_insert in H1. split; [done|]. intros i [Hne Hi]%not_elem_of_cons.
    rewrite H2 by done. by rewrite list_lookup_insert_ne.
  - split; [done|]. intros i [Hne Hi]%not_elem_of_cons. by apply H2.
Qed.

Lemma recover_group_only self data par index upper gi m :
  let holes := holes_of data index upper in
  let data' := recover_group self data par index upper gi m in
  length data' = length data /\ (forall i, i ∉ holes -> data' !! i = data !! i)
  /\ ((m < length holes)%nat -> data' = data).
Proof.
  intros holes. unfold recover_group. fold holes. cbv zeta.
  destruct (Nat.ltb_spec m (length holes)) as [Hm|Hm]; [rewrite orb_true_r; split_and!; done|].
  rewrite orb_false_r. destruct (Nat.eqb_spec (length holes) 0); [split_and!; done|].
  split; [|split; [|lia]]; destruct (Nat.eqb_spec m 1).
  - unfold recover_xor. destruct (shard_at par gi); [|done].
    destruct (strip_length_prefix _), (head holes); try done. by rewrite length_insert.
  - unfold recover_matrix. destruct (_ <? _)%nat; [done|]. destruct (invert_subset _ _); [|done].
    by rewrite (proj1 (fold_fill_only _ _ _ _ _ _)).
  - intros i Hi. unfold recover_xor. destruct (shard_at par gi); [|done].
    destruct (strip_length_prefix _); [|done]. destruct holes as [|h hs]; [done|]. cbn [head].
    rewrite list_lookup_insert_ne; [done|]. intros ->. apply Hi. left.
  - intros i Hi. unfold recover_matrix. destruct (_ <? _)%nat; [done|]. destruct (invert_subset _ _); [|done].
    by rewrite (proj2 (fold_fill_only _ _ _ _ _ _)).
Qed.

Lemma recover_loop_only fuel self data par size m g :
  (0 < size)%nat -> (length data < g * size + fuel)%nat ->
  let data' := recover_loop fuel self data par size m (g * size) g in
  length data' = length data /\ (forall i, data !! i <> Some None -> data' !! i = data !! i)
  /\ (forall i, (i < g * size)%nat -> data' !! i = data !! i)
  /\ (forall g', (g <= g')%nat -> (m < length (holes_of data (g' * size) (Nat.min (g' * size + size) (length data))))%nat ->
      forall i, (g' * size <= i < g' * size + size)%nat -> data' !! i = data !! i)
  /\ forall extra, recover_loop (fuel + extra) self data par size m (g * size) g = data'.
Proof.
  intros Hs. revert data g. induction fuel as [|fuel IH]; intros data g Hf; cbn [recover_loop Nat.add]; cbv zeta.
  { split_and!; try done. intros extra. destruct extra; cbn [recover_loop]; [done|].
    by rewrite (proj2 (Nat.ltb_ge _ _)) by lia. }
  destruct (Nat.ltb_spec (g * size) (length data)) as [Hlt|Hge]; [|done].
  set (upper := Nat.min (g * size + size) (length data)).
  destruct (recover_group_only self data par (g * size) upper g m) as (Hl & Hout & Hover). cbv zeta in *.
  set (data1 := recover_group _ _ _ _ _ _ _) in *.
  assert (Hne : forall i, ~ ((g * size <= i < upper)%nat /\ data !! i = Some None) -> data1 !! i = data !! i).
  { intros i Hi. apply Hout. by rewrite in_holes by (subst upper; lia). }
  destruct (IH data1 (S g) ltac:(rewrite Hl; lia)) as (H1 & H2 & H3 & H4 & H5).
  replace (S g * size)%nat with (g * size + size)%nat in * by lia. cbv zeta in *. rewrite Hl in *.
  split_and!; [done| | | |done].
  - intros i Hi. assert (E : data1 !! i = data !! i) by (apply Hne; tauto). rewrite H2, E; [done|]. by rewrite E.
  - intros i Hi. rewrite H3 by lia. apply Hne. lia.
  - intros g' Hg Hm i Hi. destruct (decide (g' = g)) as [->|Hgg].
    + rewrite H3 by lia. rewrite (Hover Hm). done.
    + assert (Hnext : (g * size + size <= g' * size)%nat) by nia.
      rewrite (H4 g'); [apply Hne; subst upper; lia|lia| |done].
      rewrite (holes_ext data data1); [done|]. intros j Hj. apply Hne. subst upper. lia.
Qed.

(** ** Properties *)

Lemma recovery_raw self orig data par requested m :
  usable self (Nat.max m 1) -> (forall d, d ∈ orig -> fits d) -> authentic orig data ->
  (forall i bytes, shard_at par i = Some bytes -> parity_with_m self orig requested m !! i = Some bytes) ->
  let size := effective_group_size self requested (Nat.max m 1) in
  let data' := recover_with_m self data par requested m in
  authentic orig data'
  /\ (forall i d, data !! i = Some (Some d) -> data' !! i = Some (Some d))
  /\ (forall g, in_budget orig par size (Nat.max m 1) data g ->
      forall i, (g * size <= i < group_end orig size g)%nat -> data' !! i = Some (orig !! i)).
Proof.
  intros Hu Hf Ha Hp size. pose proof (effective_size_pos self requested _ Hu) as Hs.
  destruct (loop_outcome self orig par size (Nat.max m 1) Hu) with (fuel := S (length data)) (data := data) (g := 0%nat)
    as (H1 & _ & H2 & H3); try done.
  - destruct (Nat.eq_dec (Nat.max m 1) 1%nat); [by left|right]. by apply effective_size_le.
  - intros g rank bytes Hg Hr Hb. unfold size. rewrite <- parity_layout by done. by apply Hp.
  - rewrite (proj1 Ha). lia.
  - cbv zeta in *. split_and!; [done..|]. intros g Hb. apply H3; [lia|done].
Qed.

(** C19: a frame survives any loss within its budget.  When every data shard and every parity shard that
    arrived is the one that was sent, recovery never writes anything but the original, keeps what
    arrived, and completes every group whose holes are no more than its surviving parity shards. *)
Theorem recovery_is_exact self orig data par requested m :
  usable self (Nat.max m 1) -> (forall d, d ∈ orig -> fits d) -> authentic orig data ->
  (forall i bytes, shard_at par i = Some bytes -> parity_with_m self orig requested m !! i = Some bytes) ->
  let size := effective_group_size self requested (Nat.max m 1) in
  let data' := recover_with_m self data par requested m in
  authentic orig data'
  /\ (forall i d, data !! i = Some (Some d) -> data' !! i = Some (Some d))
  /\ (forall g, in_budget orig par size (Nat.max m 1) data g ->
      forall i, (g * size <= i < group_end orig size g)%nat -> data' !! i = Some (orig !! i)).
Proof. apply recovery_raw. Qed.

Lemma recovery_is_exact_witness :
  let codec := mkFec 3 2 in
  let orig := [[Byte.x61]; [Byte.x62; Byte.x63]; []] in
  let par := None :: drop 1 (map Some (parity_with_m codec orig 3 2)) in
  recover_with_m codec [Some [Byte.x61]; None; Some []] par 3 2 !! 1%nat = Some (orig !! 1%nat).
Proof.
  intros codec orig par.
  pose proof (recovery_is_exact codec orig [Some [Byte.x61]; None; Some []] par 3 2) as H.
  assert (Hu : usable codec (Nat.max 2 1)) by (right; cbn; lia).
  assert (Hf : forall d, d ∈ orig -> fits d).
  { intros d Hd. unfold fits. apply list_elem_of_In in Hd as [<-|[<-|[<-|[]]]]; reflexivity. }
  assert (Ha : authentic orig [Some [Byte.x61]; None; Some []]).
  { split; [done|]. intros [|[|[|i]]] d E; try done; injection E as <-; reflexivity. }
  specialize (H Hu Hf Ha). destruct H as (_ & _ & H).
  { intros [|[|i]] bytes E; [done| |done]. vm_compute in E. injection E as <-. vm_compute. reflexivity. }
  apply (H 0%nat); vm_compute; lia.
Defined.

(** the decoder is safe on anything.  Whatever parity arrived, for any codec whose counts fit the
    field (the code asserts it), recovery stops, keeps the shape of the frame, changes nothing but holes,
    and leaves a group with more holes than its budget exactly as it was. *)
Theorem recovery_only_fills_holes self data par requested m :
  usable self (Nat.max m 1) ->
  let size := effective_group_size self requested (Nat.max m 1) in
  let data' := recover_with_m self data par requested m in
  length data' = length data
  /\ (forall i, data !! i <> Some None -> data' !! i = data !! i)
  /\ (forall g, (Nat.max m 1 < length (holes_of data (g * size) (Nat.min (g * size + size) (length data))))%nat ->
      forall i, (g * size <= i < g * size + size)%nat -> data' !! i = data !! i)
  /\ forall extra, recover_loop (S (length data) + extra) self data par size (Nat.max m 1) 0 0 = data'.
Proof.
  intros Hu size. pose proof (effective_size_pos self requested _ Hu) as Hs. fold size in Hs.
  destruct (recover_loop_only (S (length data)) self data par size (Nat.max m 1) 0 Hs ltac:(lia))
    as (H1 & H2 & _ & H4 & H5).
  cbv zeta. split_and!; [done|done| |exact H5]. intros g Hg. apply H4; [lia|done].
Qed.

Lemma recovery_only_fills_holes_witness :
  length (recover_with_m fec_default [None; Some [Byte.x61]] [Some [Byte.xff; Byte.xff]] 5 1) = 2%nat.
Proof.
  apply (recovery_only_fills_holes fec_default [None; Some [Byte.x61]] [Some [Byte.xff; Byte.xff]] 5 1).
  by left.
Defined.

(** One row of the encoder: the identity over the parity block. *)
Definition encoder_row (k m : nat) (kind : nat + nat) : list byte :=
  match kind with inl slot => unit_row k slot | inr rank => row_of (parity_rows k m) k rank end.

(** the code is maximum-distance separable.  Any [k] distinct rows of the encoder, units and parity
    rows mixed in any proportion, invert. *)
Theorem any_k_survivors_decode k m slots ranks :
  (0 < k)%nat -> (k + m <= 256)%nat -> NoDup slots -> NoDup ranks ->
  (forall s, s ∈ slots -> (s < k)%nat) -> (forall r, r ∈ ranks -> (r < m)%nat) ->
  (length slots + length ranks = k)%nat ->
  let rows := map (encoder_row k m) (map inl slots ++ map inr ranks) in
  exists inverse, invert_subset rows k = Some inverse /\ length inverse = (k * k)%nat
  /\ forall r c, (r < k)%nat -> (c < k)%nat ->
     gf_below k (fun t => mul (nth (r * k + t) inverse Byte.x00) (entry rows t c))
     = delta Byte.x00 Byte.x01 r c.
Proof.
  intros Hk Hkm Hns Hnr Hs Hr Hlen rows. apply (selection_inverts k m slots ranks rows); try done.
  subst rows. rewrite map_app. apply Forall2_app; apply Forall2_fmap_l, Forall_Forall2_diag, Forall_fmap, Forall_forall.
  - intros s Hin. split; cbn [encoder_row]; [unfold unit_row; by rewrite length_insert, length_replicate|].
    intros c Hc. apply unit_row_entry; auto.
  - intros r Hin. specialize (Hr r Hin). split; cbn [encoder_row].
    + apply (length_row_of _ _ _ m); [apply length_parity_rows|done].
    + intros c Hc. rewrite nth_row_of by done. by apply parity_rows_entry.
Qed.

Lemma any_k_survivors_decode_witness :
  exists inverse, invert_subset [unit_row 2 1; row_of (parity_rows 2 2) 2 1] 2 = Some inverse
  /\ length inverse = 4%nat.
Proof.
  pose proof (any_k_survivors_decode 2 2 [1%nat] [1%nat]) as H.
  destruct H as (inverse & H1 & H2 & _); [lia|lia|apply NoDup_singleton|apply NoDup_singleton| | |reflexivity|].
  - intros s ->%list_elem_of_singleton. lia.
  - intros s ->%list_elem_of_singleton. lia.
  - exists inverse. split; [exact H1|exact H2].
Defined.
