(* ===== verification/Fragment.v ===== *)
(** * Fragment: the per-datagram video header and its codec

    Models [slopdesk-video/src/fragment.rs], with the writer and the reader of
    [slopdesk-video/src/bytes.rs] and the errors of [error.rs] it uses.  Header fields are machine
    integers in [Z]; the flag set is the byte itself. *)

From S2P Require Import Prelude Fec.

Inductive VideoProtocolError : Type :=
| Truncated
| Malformed (hint : string).

(** ** The writer and the reader *)

Module VideoBytes.

Definition put_u8 (buf : list byte) (v : Z) : list byte := buf ++ [byte_of_Z v].
Definition put_u16 (buf : list byte) (v : Z) : list byte := buf ++ to_be_bytes 2 v.
Definition put_u32 (buf : list byte) (v : Z) : list byte := buf ++ to_be_bytes 4 v.
Definition put_bytes (buf bytes : list byte) : list byte := buf ++ bytes.

Record ByteReader : Type := mkReader { data : list byte; offset : Z }.

Definition reader_new (d : list byte) : ByteReader := mkReader d 0.

(** A read answers its value and the advanced reader, or the fault. *)
Definition read (A : Type) : Type := ByteReader -> result VideoProtocolError (A * ByteReader).
#[export] Instance read_ret : MRet read := fun _ a r => Ok (a, r).
#[export] Instance read_bind : MBind read :=
  fun _ _ k p r => match p r with Ok (a, r) => k a r | Err e => Err e end.

Definition read_u8 : read Z := fun r =>
  match get (data r) (offset r) with
  | Some b => Ok (byte_to_Z b, mkReader (data r) (offset r + 1))
  | None => Err Truncated
  end.

Definition read_bytes (count : Z) : read (list byte) := fun r =>
  match checked_add_usize (offset r) count with
  | None => Err Truncated
  | Some e =>
    match get_range (data r) (offset r) e with
    | None => Err Truncated
    | Some slice => Ok (slice, mkReader (data r) e)
    end
  end.

(** [read_array::<N>] through [from_be_bytes]. *)
Definition read_u16 : read Z := b ← read_bytes 2; mret (from_be_bytes b).
Definition read_u32 : read Z := b ← read_bytes 4; mret (from_be_bytes b).

End VideoBytes.

Import VideoBytes.

(** [truncating_u16] *)
Definition truncating_u16 (value : nat) : Z := cast_unsigned 16 (Z.of_nat value).

(** ** Flags *)

Definition HEADER_SIZE : nat := 19.
Definition MAX_DATAGRAM_SIZE : nat := 1200.
Definition MAX_PAYLOAD_SIZE : nat := MAX_DATAGRAM_SIZE - HEADER_SIZE - PREFIX_BYTES.

Module Flags.
Definition Flags : Type := Z.
Definition KEYFRAME : Flags := 1.
Definition PARITY : Flags := 2.
Definition CRISP : Flags := 4.
Definition IS_LTR : Flags := 64.
Definition ACKED_ANCHORED : Flags := 128.
Definition TIER_SHIFT : Z := 3.
Definition TIER_MASK : Z := 0x38.

Definition empty : Flags := 0.
Definition from_bits (bits : Z) : Flags := bits.
Definition bits (self : Flags) : Z := self.
Definition contains (self other : Flags) : bool := Z.land self other =? other.
Definition union (self other : Flags) : Flags := Z.lor self other.
Definition insert (self other : Flags) : Flags := Z.lor self other.
Definition fec_tier (self : Flags) : Z := Z.shiftr (Z.land self TIER_MASK) TIER_SHIFT.
Definition set_fec_tier (self : Flags) (tier : Z) : Flags :=
  Z.lor (Z.land self (255 - TIER_MASK)) (Z.shiftl (Z.land tier 7) TIER_SHIFT).
End Flags.

(** ** The header and its codec *)

Record FrameFragmentHeader : Type := mkHeader {
  stream_seq : Z;
  frame_id : Z;
  frag_index : Z;
  frag_count : Z;
  flags : Flags.Flags;
  payload_length : Z;
  host_send_ts_millis : Z;
}.

Definition read_header : read (FrameFragmentHeader * list byte) :=
  stream_seq ← read_u32;
  frame_id ← read_u32;
  frag_index ← read_u16;
  frag_count ← read_u16;
  flags ← read_u8;
  host_send_ts_millis ← read_u32;
  payload_length ← read_u16;
  payload ← read_bytes payload_length;
  mret (mkHeader stream_seq frame_id frag_index frag_count (Flags.from_bits flags) payload_length
          host_send_ts_millis, payload).

Definition header_decode (datagram : list byte) : result VideoProtocolError (FrameFragmentHeader * list byte) :=
  match read_header (reader_new datagram) with
  | Ok (answer, _) => Ok answer
  | Err e => Err e
  end.

Definition encode_datagram (h : FrameFragmentHeader) (payload : list byte) : list byte :=
  let out := [] in
  let out := put_u32 out (stream_seq h) in
  let out := put_u32 out (frame_id h) in
  let out := put_u16 out (frag_index h) in
  let out := put_u16 out (frag_count h) in
  let out := put_u8 out (Flags.bits (flags h)) in
  let out := put_u32 out (host_send_ts_millis h) in
  let out := put_u16 out (truncating_u16 (length payload)) in
  put_bytes out payload.

Record FrameFragment : Type := mkFragment { header : FrameFragmentHeader; payload : list byte }.

Definition fragment_encode (f : FrameFragment) : list byte := encode_datagram (header f) (payload f).
Definition fragment_decode (datagram : list byte) : result VideoProtocolError FrameFragment :=
  match header_decode datagram with
  | Ok (h, p) => Ok (mkFragment h p)
  | Err e => Err e
  end.

Example header_is_nineteen_bytes :
  encode_datagram (mkHeader 1 2 3 4 (Flags.set_fec_tier 65 6) 0 5) [Byte.xff]
  = [Byte.x00; Byte.x00; Byte.x00; Byte.x01; Byte.x00; Byte.x00; Byte.x00; Byte.x02; Byte.x00; Byte.x03;
     Byte.x00; Byte.x04; Byte.x71; Byte.x00; Byte.x00; Byte.x00; Byte.x05; Byte.x00; Byte.x01; Byte.xff].
Proof. vm_compute. reflexivity. Qed.

(** ** Round trip *)

Definition header_ok (h : FrameFragmentHeader) : Prop :=
  u_range 32 (stream_seq h) /\ u_range 32 (frame_id h) /\ u_range 16 (frag_index h) /\
  u_range 16 (frag_count h) /\ u_range 8 (flags h) /\ u_range 32 (host_send_ts_millis h).

(** The length on the wire is the payload's, whatever the header said. *)
Definition with_length (h : FrameFragmentHeader) (n : Z) : FrameFragmentHeader :=
  mkHeader (stream_seq h) (frame_id h) (frag_index h) (frag_count h) (flags h) n (host_send_ts_millis h).

(** A reader standing at [bs] answers [v] and stands after it. *)
Definition reads {A} (p : read A) (bs : list byte) (v : A) : Prop :=
  forall before after, zlen (before ++ bs ++ after) <= usize_max ->
  p (mkReader (before ++ bs ++ after) (zlen before)) = Ok (v, mkReader (before ++ bs ++ after) (zlen (before ++ bs))).

Lemma reads_ret {A} (v : A) : reads (mret v) [] v.
Proof. intros before after _. by rewrite app_nil_r. Qed.

Lemma reads_bind {A B} (p : read A) (k : A -> read B) b1 b2 v w :
  reads p b1 v -> reads (k v) b2 w -> reads (p ≫= k) (b1 ++ b2) w.
Proof.
  intros Hp Hk before after Hl. unfold mbind, read_bind.
  replace (before ++ (b1 ++ b2) ++ after) with (before ++ b1 ++ b2 ++ after) in * by (by rewrite <- app_assoc).
  rewrite Hp by done. rewrite (app_assoc before b1 (b2 ++ after)) in *. rewrite Hk by done.
  by rewrite (app_assoc before b1 b2).
Qed.

Lemma reads_bytes bs : reads (read_bytes (zlen bs)) bs bs.
Proof.
  intros before after Hl. unfold read_bytes, checked_add_usize. cbn [data offset]. rewrite !length_app in *.
  destruct (Z.leb_spec (zlen before + zlen bs) usize_max); [|lia].
  rewrite (get_range_app before bs after _ _ eq_refl) by lia. by rewrite Nat2Z.inj_add.
Qed.

Lemma reads_be n v :
  0 <= v < 256 ^ Z.of_nat n -> reads (b ← read_bytes (Z.of_nat n); mret (from_be_bytes b)) (to_be_bytes n v) v.
Proof.
  intros Hv. rewrite <- (app_nil_r (to_be_bytes n v)).
  apply (reads_bind _ _ _ _ (to_be_bytes n v)).
  - rewrite <- (length_to_be_bytes n v) at 1. apply reads_bytes.
  - rewrite from_to_be_bytes_small by done. apply reads_ret.
Qed.

Lemma reads_u8 v : u_range 8 v -> reads read_u8 [byte_of_Z v] v.
Proof.
  intros Hv before after _. unfold read_u8. cbn [data offset app]. rewrite get_app_r.
  rewrite byte_to_Z_of_Z_small by (unfold u_range in Hv; lia). rewrite length_app. cbn [length]. by rewrite Nat2Z.inj_add.
Qed.

Lemma encode_datagram_bytes h payload :
  encode_datagram h payload
  = to_be_bytes 4 (stream_seq h) ++ to_be_bytes 4 (frame_id h) ++ to_be_bytes 2 (frag_index h)
    ++ to_be_bytes 2 (frag_count h) ++ [byte_of_Z (flags h)] ++ to_be_bytes 4 (host_send_ts_millis h)
    ++ to_be_bytes 2 (truncating_u16 (length payload)) ++ payload.
Proof. unfold encode_datagram, put_u32, put_u16, put_u8, put_bytes, Flags.bits. by rewrite <- !app_assoc. Qed.

Lemma length_encode_datagram h payload : length (encode_datagram h payload) = (HEADER_SIZE + length payload)%nat.
Proof. rewrite encode_datagram_bytes, !length_app, !length_to_be_bytes. cbn. lia. Qed.

Lemma header_decode_encode h payload :
  header_ok h -> zlen payload < 2 ^ 16 ->
  header_decode (encode_datagram h payload) = Ok (with_length h (zlen payload), payload).
Proof.
  intros (H1 & H2 & H3 & H4 & H5 & H6) Hl. unfold u_range in *.
  assert (E : truncating_u16 (length payload) = zlen payload)
    by (unfold truncating_u16, cast_unsigned; apply Z.mod_small; lia).
  assert (R : reads read_header (encode_datagram h payload) (with_length h (zlen payload), payload)).
  { rewrite encode_datagram_bytes, E. unfold read_header.
    eapply reads_bind; [apply (reads_be 4); exact H1|].
    eapply reads_bind; [apply (reads_be 4); exact H2|].
    eapply reads_bind; [apply (reads_be 2); exact H3|].
    eapply reads_bind; [apply (reads_be 2); exact H4|].
    eapply reads_bind; [apply reads_u8; exact H5|].
    eapply reads_bind; [apply (reads_be 4); exact H6|].
    eapply reads_bind; [apply (reads_be 2); change (256 ^ Z.of_nat 2) with 65536; lia|].
    rewrite <- (app_nil_r payload) at 2. eapply reads_bind; [apply reads_bytes|]. apply reads_ret. }
  unfold header_decode, reader_new. specialize (R [] []).
  cbn [app length] in R. change (Z.of_nat 0) with 0 in R. rewrite app_nil_r in R. rewrite R; [done|].
  rewrite length_encode_datagram. unfold HEADER_SIZE, usize_max. lia.
Qed.
