(* ===== verification/AdaptiveFec.v ===== *)
(** * AdaptiveFec: what a wire tier means

    Models the wire half of [slopdesk-video/src/adaptive_fec.rs]: the group size and the parity count
    both ends derive from the tier of a fragment, and the tier the host stamps.  The loss-driven ladder
    that picks the adaptive tier works on floating-point averages and is not modelled. *)

From S2P Require Import Prelude.

Definition DEFAULT_TIER : Z := 0.
Definition PARITY_TIER_CLEAN : Z := 5.
Definition PARITY_TIER_NORMAL : Z := 6.
Definition PARITY_TIER_BURST : Z := 7.
Definition BURST_PARITY : nat := 5.
Definition K_MAX : nat := 64.

Definition multi_loss_is_active (parity_count : nat) : bool := (2 <=? parity_count)%nat.

Definition group_size (tier : Z) (default_group_size : nat) : option nat :=
  match tier with
  | 1 => None
  | 2 => Some 10%nat
  | 3 => Some 3%nat
  | 4 => Some 2%nat
  | _ => Some default_group_size
  end.

Definition parity_count (tier : Z) (default_m : nat) : nat :=
  if tier =? 1 then 1%nat else
  if multi_loss_is_active default_m then
    if tier =? PARITY_TIER_CLEAN then 2%nat
    else if tier =? PARITY_TIER_NORMAL then 3%nat
    else if tier =? PARITY_TIER_BURST then BURST_PARITY
    else default_m
  else default_m.

Definition wire_tier (adaptive_tier : Z) (adaptive_m_enabled multi_loss_active : bool) : Z :=
  if adaptive_m_enabled then adaptive_tier
  else if multi_loss_active then DEFAULT_TIER else adaptive_tier.

(** The compile-time assertion of the code. *)
Example widest_group_fits : (K_MAX + BURST_PARITY <= 255)%nat.
Proof. vm_compute. lia. Qed.

Lemma group_size_pos tier k g : (1 <= k)%nat -> group_size tier k = Some g -> (1 <= g)%nat.
Proof.
  intros Hk H. unfold group_size in H. repeat case_match; simplify_eq; lia.
Qed.

Lemma parity_count_pos tier m : (1 <= m)%nat -> (1 <= parity_count tier m)%nat.
Proof. intros Hm. unfold parity_count, BURST_PARITY. repeat case_match; lia. Qed.

(** A tier whose groups the code of the codec can hold: single parity, or groups no wider than [k]. *)
Definition tier_fits (tier : Z) (k m : nat) : Prop :=
  parity_count tier m = 1%nat \/ forall g, group_size tier k = Some g -> (g <= k)%nat.

(** The tier the host stamps always fits, when the adaptive-parity ladder is off or stays on its
    three rungs. *)
Lemma wire_tier_fits adaptive_tier adaptive_m k m :
  (1 <= m)%nat ->
  (adaptive_m = true -> PARITY_TIER_CLEAN <= adaptive_tier <= PARITY_TIER_BURST) ->
  tier_fits (wire_tier adaptive_tier adaptive_m (multi_loss_is_active m)) k m.
Proof.
  intros Hm Hladder. unfold wire_tier, tier_fits, multi_loss_is_active. destruct adaptive_m.
  - right. specialize (Hladder eq_refl). unfold PARITY_TIER_CLEAN, PARITY_TIER_BURST in Hladder.
    assert (E : adaptive_tier = 5 \/ adaptive_tier = 6 \/ adaptive_tier = 7) by lia.
    intros g Hg. destruct E as [->|[->| ->]]; injection Hg as <-; lia.
  - destruct (Nat.leb_spec 2 m).
    + right. intros g Hg. injection Hg as <-. lia.
    + left. unfold parity_count, multi_loss_is_active. destruct (Nat.leb_spec 2 m); [lia|].
      destruct (adaptive_tier =? 1); lia.
Qed.
