(* ===== verification/Interleave.v ===== *)
(** * Interleave: the burst-resilient transmission order

    Models [slopdesk-video/src/interleaver.rs]: a column-major walk over the groups of a frame, applied
    to slots that are emptied as they are taken.  Generic in the item, as the code is. *)

From S2P Require Import Prelude.

Section Interleave.
Context {T : Type}.

(** One turn of the inner loop of [take_column_major]: the state is the slots and what was taken. *)
Definition take_one (state : list (option T) * list T) (index : nat) : list (option T) * list T :=
  let '(slots, ordered) := state in
  match slots !! index with
  | Some (Some item) => (<[index := None]> slots, ordered ++ [item])
  | _ => (slots, ordered)
  end.

(** The walk: rank outer, group inner. *)
Definition walk (stride num_groups : nat) : list nat :=
  concat (map (fun rank => map (fun group => (group * stride + rank)%nat) (seq 0 num_groups)) (seq 0 stride)).

Definition take_column_major (slots : list (option T)) (stride num_groups : nat) (ordered : list T)
  : list (option T) * list T :=
  foldl take_one (slots, ordered) (walk stride num_groups).

Definition interleave (items : list T) (data_count group_size : nat) : list T :=
  if (group_size <=? 1)%nat || (length items <=? group_size)%nat then items else
  let data_count := Nat.min data_count (length items) in
  if (data_count <=? group_size)%nat then items else
  let data := map Some (take data_count items) in
  let parity := map Some (drop data_count items) in
  let num_groups := div_ceil data_count group_size in
  let '(_, ordered) := take_column_major data group_size num_groups [] in
  let m := (length parity / num_groups)%nat in
  let '(parity, ordered) := take_column_major parity m num_groups ordered in
  ordered ++ omap id parity.

(** ** Taking permutes *)

Definition remaining (slots : list (option T)) : list T := omap id slots.

Lemma remaining_take slots index item :
  slots !! index = Some (Some item) -> remaining slots ≡ₚ item :: remaining (<[index := None]> slots).
Proof.
  unfold remaining. revert index. induction slots as [|s slots IH]; intros [|index] H; try done; cbn in *.
  - injection H as ->. done.
  - destruct s as [x|]; cbn; [|by apply IH]. rewrite (IH index H). apply Permutation_swap.
Qed.

Lemma take_one_permutes state index :
  (take_one state index).2 ++ remaining (take_one state index).1 ≡ₚ state.2 ++ remaining state.1.
Proof.
  destruct state as [slots ordered]. unfold take_one. destruct (slots !! index) as [[item|]|] eqn:E; try done.
  cbn [fst snd]. rewrite (remaining_take slots index item E), <- app_assoc. done.
Qed.

Lemma take_all_permutes state indices :
  (foldl take_one state indices).2 ++ remaining (foldl take_one state indices).1 ≡ₚ state.2 ++ remaining state.1.
Proof.
  revert state. induction indices as [|i indices IH]; intros state; [done|]. cbn [foldl].
  rewrite IH. apply take_one_permutes.
Qed.

(** Distinct indices: what is taken is what stood there. *)
Lemma take_all_spec slots ordered indices :
  NoDup indices ->
  let state := foldl take_one (slots, ordered) indices in
  state.2 = ordered ++ omap (fun i => default None (slots !! i)) indices
  /\ length state.1 = length slots
  /\ forall i, state.1 !! i = if decide (i ∈ indices) then (fun _ => None) <$> slots !! i else slots !! i.
Proof.
  intros Hn. revert slots ordered. induction Hn as [|index indices Hi _ IH]; intros slots ordered; cbn [foldl]; cbv zeta.
  { split_and!; [by rewrite app_nil_r|done|]. intros i. by rewrite decide_False by apply not_elem_of_nil. }
  set (slots1 := if slots !! index is Some (Some _) then <[index := None]> slots else slots).
  set (ordered1 := ordered ++ (if slots !! index is Some (Some item) then [item] else [])).
  assert (E : take_one (slots, ordered) index = (slots1, ordered1)).
  { unfold take_one, slots1, ordered1. destruct (slots !! index) as [[item|]|]; rewrite ?app_nil_r; done. }
  assert (Hne : forall i, i <> index -> slots1 !! i = slots !! i).
  { intros i Hni. unfold slots1. destruct (slots !! index) as [[item|]|]; try done. by rewrite list_lookup_insert_ne. }
  rewrite E. destruct (IH slots1 ordered1) as (H1 & H2 & H3). cbv zeta in *. split_and!.
  - rewrite H1. unfold ordered1. cbn [omap list_omap]. rewrite <- app_assoc. f_equal.
    assert (Eo : omap (fun i => default None (slots1 !! i)) indices = omap (fun i => default None (slots !! i)) indices).
    { clear -Hi Hne. induction indices as [|i l IH]; [done|]. apply not_elem_of_cons in Hi as [H1 H2].
      cbn [omap list_omap]. by rewrite Hne, IH by done. }
    rewrite Eo. destruct (slots !! index) as [[item|]|]; done.
  - rewrite H2. unfold slots1. destruct (slots !! index) as [[item|]|]; rewrite ?length_insert; done.
  - intros i. rewrite H3. destruct (decide (i = index)) as [->|Hni].
    + rewrite decide_False by done. rewrite decide_True by left. unfold slots1.
      destruct (slots !! index) as [[item|]|] eqn:Es; cbn; rewrite ?Es; try done.
      by rewrite list_lookup_insert_eq by (by eapply lookup_lt_Some).
    + rewrite Hne by done. destruct (decide (i ∈ indices)).
      * by rewrite decide_True by (by right).
      * by rewrite decide_False by (rewrite elem_of_cons; tauto).
Qed.

(** ** The walk *)

Lemma NoDup_concat_map {A B} (f : A -> list B) l :
  NoDup l -> (forall a, a ∈ l -> NoDup (f a)) ->
  (forall a b x, a ∈ l -> b ∈ l -> x ∈ f a -> x ∈ f b -> a = b) -> NoDup (concat (map f l)).
Proof.
  intros Hn. induction Hn as [|a l Ha _ IH]; intros Hf Hd; [constructor|]. cbn [map concat].
  apply NoDup_app. split_and!.
  - apply Hf. left.
  - intros x Hx Hin. apply list_elem_of_In, in_concat in Hin as (lb & Hlb & Hxb).
    apply in_map_iff in Hlb as (b & <- & Hb). apply list_elem_of_In in Hb, Hxb.
    rewrite (Hd a b x) in Ha; [done|left|by right|done|done].
  - apply IH; [intros; apply Hf; by right|]. intros b c x Hb Hc. apply Hd; by right.
Qed.

Lemma elem_of_walk stride num_groups i :
  i ∈ walk stride num_groups <-> exists rank group, (rank < stride)%nat /\ (group < num_groups)%nat /\ i = (group * stride + rank)%nat.
Proof.
  unfold walk. rewrite list_elem_of_In, in_concat. split.
  - intros (l & Hl & Hi). apply in_map_iff in Hl as (rank & <- & Hr). apply in_map_iff in Hi as (group & <- & Hg).
    apply in_seq in Hr, Hg. exists rank, group. lia.
  - intros (rank & group & Hr & Hg & ->). eexists. split.
    + apply in_map_iff. exists rank. split; [done|]. apply in_seq. lia.
    + apply in_map_iff. exists group. split; [done|]. apply in_seq. lia.
Qed.

Lemma cell_eq stride r r' g g' :
  (r < stride)%nat -> (r' < stride)%nat -> (g * stride + r = g' * stride + r')%nat -> r = r' /\ g = g'.
Proof. intros Hr Hr' E. destruct (Nat.lt_trichotomy g g') as [H|[->|H]]; [nia|lia|nia]. Qed.

Lemma walk_NoDup stride num_groups : NoDup (walk stride num_groups).
Proof.
  apply NoDup_concat_map; [apply NoDup_seq| |].
  - intros r Hr%elem_of_seq. apply NoDup_fmap_2_strong; [|apply NoDup_seq].
    intros g g' _ _ E. apply (cell_eq stride r r) in E; lia.
  - intros r r' i Hr%elem_of_seq Hr'%elem_of_seq H1 H2.
    apply list_elem_of_fmap in H1 as (g & -> & _). apply list_elem_of_fmap in H2 as (g' & E & _).
    apply cell_eq in E; lia.
Qed.

Lemma walk_covers dc size i : (0 < size)%nat -> (i < dc)%nat -> i ∈ walk size (div_ceil dc size).
Proof.
  intros Hs Hi. apply elem_of_walk. exists (i mod size)%nat, (i / size)%nat.
  pose proof (Nat.div_mod_eq i size). pose proof (Nat.mod_upper_bound i size ltac:(lia)).
  destruct (div_ceil_spec dc size Hs). split_and!; [done|nia|lia].
Qed.

(** ** What the reorder does to the two sections *)

Lemma remaining_somes (l : list T) : remaining (map Some l) = l.
Proof. unfold remaining. induction l as [|x l IH]; [done|]. cbn. by rewrite IH. Qed.

(** Every data slot is taken, in the order of the walk. *)
Lemma data_section (data : list T) size :
  (0 < size)%nat ->
  let state := take_column_major (map Some data) size (div_ceil (length data) size) [] in
  state.2 = omap (fun i => data !! i) (walk size (div_ceil (length data) size)) /\ remaining state.1 = [].
Proof.
  intros Hs. destruct (take_all_spec (map Some data) [] (walk size (div_ceil (length data) size))) as (H1 & H2 & H3).
  { apply walk_NoDup. }
  cbv zeta in *. unfold take_column_major. split.
  - rewrite H1. cbn [app]. apply list_omap_ext, Forall_Forall2_diag, Forall_forall. intros i _.
    rewrite list_lookup_fmap. by destruct (data !! i).
  - assert (Hnone : forall i s, (foldl take_one (map Some data, []) (walk size (div_ceil (length data) size))).1 !! i = Some s -> s = None).
    { intros i s Hi. assert (Hlt := lookup_lt_Some _ _ _ Hi). rewrite H2, length_map in Hlt.
      rewrite H3, decide_True in Hi by (by apply walk_covers).
      by apply fmap_Some in Hi as (? & _ & ->). }
    clear -Hnone. revert Hnone. generalize (foldl take_one (map Some data, []) (walk size (div_ceil (length data) size))).1.
    intros l. unfold remaining. induction l as [|s l IH]; intros H; [done|]. cbn.
    rewrite (H 0%nat s eq_refl). cbn. apply IH. intros i x. apply (H (S i)).
Qed.

Lemma interleave_sections items data_count group_size :
  ~ (1 < group_size < Nat.min data_count (length items))%nat /\ interleave items data_count group_size = items
  \/ (1 < group_size < Nat.min data_count (length items))%nat /\
     exists parity, interleave items data_count group_size
       = omap (fun i => take (Nat.min data_count (length items)) items !! i)
           (walk group_size (div_ceil (Nat.min data_count (length items)) group_size)) ++ parity
     /\ parity ≡ₚ drop (Nat.min data_count (length items)) items.
Proof.
  unfold interleave. destruct (Nat.leb_spec group_size 1); [left; split; [lia|done]|].
  destruct (Nat.leb_spec (length items) group_size); [left; split; [lia|done]|]. cbn [orb].
  set (dc := Nat.min data_count (length items)). destruct (Nat.leb_spec dc group_size); [left; split; [lia|done]|right].
  split; [lia|]. assert (Hdc : (dc <= length items)%nat) by lia.
  pose proof (data_section (take dc items) group_size ltac:(lia)) as [HD _].
  rewrite length_take, Nat.min_l in HD by done. cbv zeta in HD.
  destruct (take_column_major (map Some (take dc items)) _ _ []) as [slots ordered]. cbn [snd] in HD. subst ordered.
  set (D := omap _ (walk _ _)). set (stride := (_ / _)%nat). set (groups := div_ceil _ _).
  pose proof (take_all_spec (map Some (drop dc items)) D (walk stride groups) (walk_NoDup stride groups)) as (HT & _).
  pose proof (take_all_permutes (map Some (drop dc items), D) (walk stride groups)) as HP.
  cbn [fst snd] in HP. rewrite remaining_somes in HP. unfold take_column_major.
  destruct (foldl take_one (map Some (drop dc items), D) (walk stride groups)) as [slots' ordered'].
  cbn [fst snd] in *. subst ordered'. rewrite <- app_assoc in *. eexists. split; [reflexivity|].
  by apply Permutation_app_inv_l in HP.
Qed.

Lemma interleave_permutes items data_count group_size : interleave items data_count group_size ≡ₚ items.
Proof.
  destruct (interleave_sections items data_count group_size) as [[_ ->]|(Hs & parity & -> & Hp)]; [done|].
  set (dc := Nat.min data_count (length items)) in *. rewrite Hp.
  pose proof (data_section (take dc items) group_size ltac:(lia)) as [HD HR].
  pose proof (take_all_permutes (map Some (take dc items), []) (walk group_size (div_ceil (length (take dc items)) group_size))) as HP.
  unfold take_column_major in HD, HR. cbn [fst snd app] in HP.
  cbv zeta in HD, HR. rewrite HD, HR, app_nil_r, remaining_somes in HP.
  rewrite length_take, Nat.min_l in HP by lia. rewrite HP. by rewrite take_drop.
Qed.
End Interleave.

(** ** How far apart the walk puts two members of a group *)

(** The cells of the walk that exist in a section of [n] items, rank by rank. *)
Definition rank_row (size n rank : nat) : list nat :=
  omap (fun group => if (group * size + rank <? n)%nat then Some (group * size + rank)%nat else None)
    (seq 0 (div_ceil n size)).

Lemma walk_rows (n size : nat) :
  omap (fun i => seq 0 n !! i) (walk size (div_ceil n size)) = concat (map (rank_row size n) (seq 0 size)).
Proof.
  unfold walk. induction (seq 0 size) as [|rank ranks IH]; [done|]. cbn [map concat].
  rewrite omap_app, IH. clear IH. f_equal. unfold rank_row.
  induction (seq 0 (div_ceil n size)) as [|g gs IHg]; [done|]. cbn [map omap list_omap]. rewrite IHg.
  destruct (Nat.ltb_spec (g * size + rank) n).
  - by rewrite lookup_seq_lt.
  - by rewrite lookup_seq_ge by lia.
Qed.

Section Rows.
Context (size n : nat).
Hypothesis Hsize : (0 < size)%nat.
Hypothesis Hn : (0 < n)%nat.

Let groups := div_ceil n size.

Lemma rank_row_shape rank :
  (rank < size)%nat ->
  exists w, (groups - 1 <= w)%nat /\ (n mod size = 0 -> w = groups)%nat
  /\ rank_row size n rank = map (fun group => (group * size + rank)%nat) (seq 0 w).
Proof.
  intros Hr. destruct (div_ceil_spec n size Hsize) as [Hlo Hhi]. fold groups in Hlo, Hhi.
  assert (Hg : (0 < groups)%nat) by nia. unfold rank_row. fold groups.
  assert (Hfull : forall w, (w <= groups)%nat -> (forall g, (g < w)%nat -> (g * size + rank < n)%nat) ->
    omap (fun group => if (group * size + rank <? n)%nat then Some (group * size + rank)%nat else None) (seq 0 w)
    = map (fun group => (group * size + rank)%nat) (seq 0 w)).
  { intros w Hw Hin. assert (H : forall g, g ∈ seq 0 w -> (g * size + rank < n)%nat)
      by (intros g Hg'%elem_of_seq; apply Hin; lia).
    induction (seq 0 w) as [|g gs IH]; [done|]. cbn [omap list_omap map].
    rewrite (proj2 (Nat.ltb_lt _ _)) by (apply H; left). rewrite IH; [done|]. intros; apply H. by right. }
  destruct (Nat.lt_ge_cases ((groups - 1) * size + rank) n) as [Hlast|Hlast].
  - exists groups. split_and!; [lia|done|]. apply Hfull; [done|]. intros g Hlt. nia.
  - exists (groups - 1)%nat. split_and!; [lia| |].
    + intros Hm. pose proof (Nat.div_mod_eq n size) as Hd. rewrite Hm in Hd.
      assert (n / size = groups)%nat by nia. nia.
    + assert (Eg : seq 0 groups = seq 0 (groups - 1) ++ [(groups - 1)%nat]).
      { replace groups with ((groups - 1) + 1)%nat at 1 by lia. by rewrite seq_app. }
      rewrite Eg, omap_app. cbn [omap list_omap]. rewrite (proj2 (Nat.ltb_ge _ _)) by done. rewrite app_nil_r.
      apply Hfull; [lia|]. intros g Hlt. nia.
Qed.

(** Where the row of a rank starts, counted from the row of [s]. *)
Definition row_start (s rank : nat) : nat := length (concat (map (rank_row size n) (seq s (rank - s)))).

Lemma row_start_step s r r' :
  (s <= r < r')%nat -> (row_start s r + length (rank_row size n r) <= row_start s r')%nat.
Proof.
  intros Hr. unfold row_start.
  assert (E : seq s (r' - s) = seq s (r - s) ++ r :: seq (S r) (r' - S r)).
  { replace (r' - s)%nat with ((r - s) + S (r' - S r))%nat by lia. rewrite seq_app. cbn [seq].
    by replace (s + (r - s))%nat with r by lia. }
  rewrite E, map_app, concat_app, length_app. cbn [map concat]. rewrite length_app. lia.
Qed.

Lemma rows_lookup s m p i :
  (s + m <= size)%nat -> concat (map (rank_row size n) (seq s m)) !! p = Some i ->
  exists rank group, (s <= rank < s + m)%nat /\ (group < length (rank_row size n rank))%nat
  /\ i = (group * size + rank)%nat /\ p = (row_start s rank + group)%nat.
Proof.
  revert s p. induction m as [|m IH]; intros s p Hs Hp; [done|]. cbn [seq map concat] in Hp.
  apply lookup_app_Some in Hp as [Hp|[Hge Hp]].
  - destruct (rank_row_shape s ltac:(lia)) as (w & _ & _ & E).
    pose proof (lookup_lt_Some _ _ _ Hp) as Hlt. exists s, p.
    unfold row_start. rewrite Nat.sub_diag. cbn. split_and!; [lia|lia|done| |lia].
    rewrite E, list_lookup_fmap in Hp. apply fmap_Some in Hp as (g & Hg & ->).
    apply lookup_seq in Hg as [-> _]. done.
  - destruct (IH (S s) _ ltac:(lia) Hp) as (rank & group & Hr & Hg & -> & Epos). exists rank, group.
    split_and!; [lia|lia|done|done|].
    assert (row_start s rank = length (rank_row size n s) + row_start (S s) rank)%nat; [|lia].
    unfold row_start. replace (rank - s)%nat with (S (rank - S s)) by lia. cbn [seq map concat].
    by rewrite length_app.
Qed.

(** Two members of one group are a row apart. *)
Lemma same_group_apart p q i j :
  concat (map (rank_row size n) (seq 0 size)) !! p = Some i ->
  concat (map (rank_row size n) (seq 0 size)) !! q = Some j ->
  (p < q)%nat -> (i / size = j / size)%nat ->
  (p + (groups - 1) <= q)%nat /\ (n mod size = 0 -> p + groups <= q)%nat.
Proof.
  intros Hp Hq Hlt Hsame.
  destruct (rows_lookup 0 size p i ltac:(lia) Hp) as (r & g & Hr & Hg & -> & ->).
  destruct (rows_lookup 0 size q j ltac:(lia) Hq) as (r' & g' & Hr' & Hg' & -> & ->).
  rewrite !Nat.div_add_l, !Nat.div_small, !Nat.add_0_r in Hsame by lia. subst g'.
  assert (Hrr : (r < r')%nat).
  { destruct (Nat.lt_trichotomy r r') as [|[->|H]]; [done|lia|]. pose proof (row_start_step 0 r' r ltac:(lia)). lia. }
  pose proof (row_start_step 0 r r' ltac:(lia)) as Hstep.
  destruct (rank_row_shape r ltac:(lia)) as (w & Hw & Hfull & E). rewrite E, length_map, length_seq in Hstep.
  split; [lia|]. intros Hm. specialize (Hfull Hm). lia.
Qed.
End Rows.

(** ** The order does not look at the items *)

Definition map_slots {A B} (f : A -> B) (state : list (option A) * list A) : list (option B) * list B :=
  (map (fmap f) state.1, map f state.2).

Lemma take_one_map {A B} (f : A -> B) state index :
  take_one (map_slots f state) index = map_slots f (take_one state index).
Proof.
  destruct state as [slots ordered]. unfold take_one, map_slots. cbn [fst snd].
  rewrite list_lookup_fmap. destruct (slots !! index) as [[item|]|]; cbn; try done.
  by rewrite list_fmap_insert, map_app.
Qed.

Lemma take_all_map {A B} (f : A -> B) state indices :
  foldl take_one (map_slots f state) indices = map_slots f (foldl take_one state indices).
Proof. revert state. induction indices as [|i l IH]; intros state; [done|]. cbn [foldl]. by rewrite take_one_map, IH. Qed.

Lemma interleave_map {A B} (f : A -> B) l data_count group_size :
  interleave (map f l) data_count group_size = map f (interleave l data_count group_size).
Proof.
  unfold interleave. rewrite length_map. destruct (_ || _); [done|]. cbv zeta. destruct (_ <=? _)%nat; [done|].
  rewrite firstn_map, skipn_map, !map_map.
  set (dc := Nat.min data_count (length l)). set (w := walk group_size (div_ceil dc group_size)).
  assert (E : forall x, map (fun a => Some (f a)) x = map (fmap f) (map Some x)) by (intros x; by rewrite map_map).
  rewrite !E, !length_map. unfold take_column_major.
  pose proof (take_all_map f (map Some (take dc l), []) w) as H. unfold map_slots in H at 1. cbn [fst snd map] in H.
  change (walk group_size (div_ceil dc group_size)) with w. rewrite H. destruct (foldl take_one (map Some (take dc l), []) w) as [s1 o1]. unfold map_slots at 1. cbn [fst snd].
  set (w2 := walk (length (drop dc l) / div_ceil dc group_size) (div_ceil dc group_size)).
  pose proof (take_all_map f (map Some (drop dc l), o1) w2) as H2. unfold map_slots in H2 at 1. cbn [fst snd] in H2.
  rewrite H2. destruct (foldl take_one (map Some (drop dc l), o1) w2) as [s2 o2]. unfold map_slots. cbn [fst snd].
  rewrite map_app. f_equal. clear. induction s2 as [|[x|] s2 IH]; [done|..]; cbn; [by f_equal|done].
Qed.

Lemma interleave_by_position {T} (items : list T) data_count group_size :
  interleave items data_count group_size
  = omap (fun i => items !! i) (interleave (seq 0 (length items)) data_count group_size).
Proof.
  assert (E : map Some items = map (fun i => items !! i) (seq 0 (length items))).
  { apply list_eq. intros i. rewrite !list_lookup_fmap. destruct (Nat.lt_ge_cases i (length items)) as [Hlt|Hge].
    - rewrite lookup_seq_lt by done. cbn. by destruct (lookup_lt_is_Some_2 items i Hlt) as [x ->].
    - rewrite lookup_seq_ge by done. by rewrite lookup_ge_None_2. }
  pose proof (interleave_map Some items data_count group_size) as H. rewrite E, interleave_map in H.
  apply (f_equal (omap id)) in H. rewrite <- (remaining_somes (interleave items data_count group_size)).
  unfold remaining. rewrite <- H. clear. induction (interleave _ _ _) as [|i l IH]; [done|]. cbn.
  by rewrite IH.
Qed.

(** the transmission order loses nothing and spreads a burst.  The order is a permutation fixed by the
    counts alone; when it reorders, the data still comes before the parity, and two fragments of one
    group leave at least the number of groups minus one apart, and the full number of groups apart when
    the last group is full. *)
Theorem interleave_spreads_bursts {T} (items : list T) data_count group_size :
  let order := interleave (seq 0 (length items)) data_count group_size in
  let n := Nat.min data_count (length items) in
  order ≡ₚ seq 0 (length items)
  /\ interleave items data_count group_size = omap (fun i => items !! i) order
  /\ ((1 < group_size < n)%nat ->
      exists data parity, order = data ++ parity /\ data ≡ₚ seq 0 n
      /\ forall p q i j, data !! p = Some i -> data !! q = Some j -> (p < q)%nat ->
         (i / group_size = j / group_size)%nat ->
         (p + (div_ceil n group_size - 1) <= q)%nat
         /\ (n mod group_size = 0 -> p + div_ceil n group_size <= q)%nat).
Proof.
  intros order n. split_and!; [apply interleave_permutes|apply interleave_by_position|]. intros Hg.
  destruct (interleave_sections (seq 0 (length items)) data_count group_size) as [[Hn _]|(_ & parity & E & HP)].
  - rewrite length_seq in Hn. by destruct Hn.
  - rewrite length_seq in *. fold n in E, HP. exists (omap (fun i => take n (seq 0 (length items)) !! i)
      (walk group_size (div_ceil n group_size))), parity. split; [exact E|].
    assert (Et : take n (seq 0 (length items)) = seq 0 n) by (rewrite take_seq; f_equal; lia).
    rewrite Et. split.
    + pose proof (interleave_permutes (seq 0 (length items)) data_count group_size) as HI.
      rewrite E, HP, Et in HI. pose proof (take_drop n (seq 0 (length items))) as Hs.
      rewrite Et in Hs. rewrite <- Hs in HI at 2.
      by apply Permutation_app_inv_r in HI.
    + rewrite walk_rows. intros p q i j Hp Hq. apply same_group_apart; (done || lia).
Qed.

(** The distance is the number of groups minus one when the last group is short: two adjacent
    fragments of a frame of two groups may share one. *)
Example ragged_tail_order : interleave (seq 0 7) 7 5 = [0; 5; 1; 6; 2; 3; 4]%nat.
Proof. vm_compute. reflexivity. Qed.
