(* ===== verification/Packetizer.v ===== *)
(** * Packetizer: one encoded frame becomes datagrams

    Models [slopdesk-video/src/packetizer.rs]: the split into payloads, the parity the tier selects, the
    refusal of a frame no receiver would take, the flags, the two wrapping counters, and the
    transmission order.  The theorems say what goes on the wire; [Reassembler] relies on
    [packetize_parsed]. *)

From S2P Require Import Prelude Fec Fragment AdaptiveFec Interleave.

(** From [reassembler.rs]: both ends use the bound. *)
Definition MAX_FRAGMENTS_PER_FRAME : nat := 8 * 1024.

Record PacketizeOptions : Type := mkOptions {
  opt_keyframe : bool;
  opt_crisp : bool;
  opt_host_send_ts_millis : Z;
  opt_fec_tier : Z;
  opt_is_ltr : bool;
  opt_acked_anchored : bool;
  opt_interleave : bool;
}.

Definition default_options : PacketizeOptions := mkOptions false false 0 DEFAULT_TIER false false false.

Record VideoPacketizer : Type := mkPacketizer {
  pk_fec : option ReedSolomonFec;
  next_stream_seq : Z;
  next_frame_id : Z;
}.

Definition packetizer_new (fec : option ReedSolomonFec) : VideoPacketizer := mkPacketizer fec 0 0.

(** [u32::wrapping_add] and [u16::wrapping_add] of one. *)
Definition wrapping_succ (w v : Z) : Z := (v + 1) mod 2 ^ w.

Definition write_datagram (self : VideoPacketizer) (frame_id frag_index frag_count : Z) (flags : Flags.Flags)
    (payload : list byte) (host_send_ts_millis : Z) : list byte * VideoPacketizer :=
  let stream_seq := next_stream_seq self in
  let header := mkHeader stream_seq frame_id frag_index frag_count flags
                  (truncating_u16 (length payload)) host_send_ts_millis in
  (encode_datagram header payload,
   mkPacketizer (pk_fec self) (wrapping_succ 32 stream_seq) (next_frame_id self)).

Definition parity_payloads (self : VideoPacketizer) (payloads : list (list byte)) (fec_tier : Z) : list (list byte) :=
  match pk_fec self with
  | None => []
  | Some scheme =>
    match AdaptiveFec.group_size fec_tier (Fec.group_size scheme) with
    | None => []
    | Some group =>
      let m := AdaptiveFec.parity_count fec_tier (Fec.parity_count scheme) in
      parity_with_m scheme payloads group m
    end
  end.

Definition payloads_of (frame : list byte) : list (list byte) :=
  match frame with
  | [] => [[]]
  | _ => chunks (length frame) MAX_PAYLOAD_SIZE frame
  end.

Definition base_flags (options : PacketizeOptions) : Flags.Flags :=
  let flags := Flags.empty in
  let flags := if opt_keyframe options then Flags.insert flags Flags.KEYFRAME else flags in
  let flags := if opt_crisp options then Flags.insert flags Flags.CRISP else flags in
  let flags := if opt_is_ltr options then Flags.insert flags Flags.IS_LTR else flags in
  let flags := if opt_acked_anchored options then Flags.insert flags Flags.ACKED_ANCHORED else flags in
  Flags.set_fec_tier flags (opt_fec_tier options).

(** One of the two loops: the state is the packetizer, the running index and what was written. *)
Definition write_all (frame_id frag_count : Z) (flags : Flags.Flags) (ts : Z)
    (state : VideoPacketizer * Z * list (list byte)) (payloads : list (list byte))
  : VideoPacketizer * Z * list (list byte) :=
  foldl (fun '(self, frag_index, datagrams) payload =>
    let '(datagram, self) := write_datagram self frame_id frag_index frag_count flags payload ts in
    (self, wrapping_succ 16 frag_index, datagrams ++ [datagram])) state payloads.

Definition packetize_datagrams (self : VideoPacketizer) (frame : list byte) (options : PacketizeOptions)
  : list (list byte) * nat * VideoPacketizer :=
  let frame_id := next_frame_id self in
  let self := mkPacketizer (pk_fec self) (next_stream_seq self) (wrapping_succ 32 frame_id) in
  let payloads := payloads_of frame in
  let parity := parity_payloads self payloads (opt_fec_tier options) in
  if (MAX_FRAGMENTS_PER_FRAME <? length payloads + length parity)%nat then ([], 0%nat, self) else
  let frag_count := truncating_u16 (length payloads + length parity) in
  let flags := base_flags options in
  let parity_flags := Flags.union flags Flags.PARITY in
  let ts := opt_host_send_ts_millis options in
  let state := write_all frame_id frag_count flags ts (self, 0, []) payloads in
  let '(self, _, datagrams) := write_all frame_id frag_count parity_flags ts state parity in
  (datagrams, length payloads, self).

Definition packetize_raw (self : VideoPacketizer) (frame : list byte) (options : PacketizeOptions)
  : list (list byte) * VideoPacketizer :=
  let '(datagrams, data_count, self) := packetize_datagrams self frame options in
  if negb (opt_interleave options) then (datagrams, self) else
  let default_group := match pk_fec self with Some scheme => Fec.group_size scheme | None => 1%nat end in
  let group := default 1%nat (AdaptiveFec.group_size (opt_fec_tier options) default_group) in
  (interleave datagrams data_count group, self).

Definition packetize (self : VideoPacketizer) (frame : list byte) (options : PacketizeOptions)
  : list FrameFragment * VideoPacketizer :=
  let '(datagrams, self) := packetize_raw self frame options in
  (omap (fun d => match fragment_decode d with Ok f => Some f | Err _ => None end) datagrams, self).

Example empty_frame_is_one_fragment :
  map payload (fst (packetize (packetizer_new None) [] default_options)) = [[]].
Proof. vm_compute. reflexivity. Qed.

(** ** The flags byte *)

Lemma land_7 t : In (Z.land t 7) [0; 1; 2; 3; 4; 5; 6; 7].
Proof.
  assert (H : 0 <= Z.land t 7 < 8).
  { change 7 with (Z.ones 3). rewrite Z.land_ones by lia. apply Z.mod_pos_bound. lia. }
  cbn [In]. lia.
Qed.

(** The two flag sets of a frame say what the options say. *)
Definition flags_say (options : PacketizeOptions) (parity : bool) (flags : Flags.Flags) : Prop :=
  u_range 8 flags
  /\ Flags.contains flags Flags.KEYFRAME = opt_keyframe options
  /\ Flags.contains flags Flags.CRISP = opt_crisp options
  /\ Flags.contains flags Flags.IS_LTR = opt_is_ltr options
  /\ Flags.contains flags Flags.ACKED_ANCHORED = opt_acked_anchored options
  /\ Flags.contains flags Flags.PARITY = parity
  /\ Flags.fec_tier flags = Z.land (opt_fec_tier options) 7.

Lemma base_flags_say options : flags_say options false (base_flags options)
  /\ flags_say options true (Flags.union (base_flags options) Flags.PARITY).
Proof.
  unfold flags_say, base_flags, Flags.set_fec_tier.
  pose proof (land_7 (opt_fec_tier options)) as Ht. cbn [In] in Ht.
  destruct options as [kf cr ts tier ltr anch il]. cbn [opt_keyframe opt_crisp opt_is_ltr opt_acked_anchored opt_fec_tier] in *.
  repeat destruct Ht as [Ht|Ht]; [..|done]; rewrite <- Ht;
    destruct kf, cr, ltr, anch; vm_compute; split_and!; congruence.
Qed.

(** ** What the two loops write *)

Definition stamped (frame_id frag_count : Z) (flags : Flags.Flags) (ts seq idx : Z) (payloads : list (list byte))
  : list FrameFragment :=
  imap (fun i p => mkFragment
    (mkHeader ((seq + Z.of_nat i) mod 2 ^ 32) frame_id (idx + Z.of_nat i) frag_count flags
       (truncating_u16 (length p)) ts) p) payloads.

Lemma stamped_cons frame_id frag_count flags ts seq idx p payloads :
  stamped frame_id frag_count flags ts seq idx (p :: payloads)
  = mkFragment (mkHeader (seq mod 2 ^ 32) frame_id idx frag_count flags (truncating_u16 (length p)) ts) p
    :: stamped frame_id frag_count flags ts (seq + 1) (idx + 1) payloads.
Proof.
  unfold stamped. cbn [imap]. rewrite !Z.add_0_r. f_equal. apply imap_ext. intros i x _. cbn.
  do 2 f_equal; [f_equal|]; lia.
Qed.

Lemma write_all_spec frame_id frag_count flags ts payloads self seq idx out :
  next_stream_seq self = seq mod 2 ^ 32 -> 0 <= idx -> idx + zlen payloads < 2 ^ 16 ->
  write_all frame_id frag_count flags ts (self, idx, out) payloads
  = (mkPacketizer (pk_fec self) ((seq + zlen payloads) mod 2 ^ 32) (next_frame_id self),
     idx + zlen payloads,
     out ++ map fragment_encode (stamped frame_id frag_count flags ts seq idx payloads)).
Proof.
  revert self seq idx out. induction payloads as [|p payloads IH]; intros self seq idx out Hs Hi Hn.
  { cbn. rewrite app_nil_r, !Z.add_0_r, <- Hs. by destruct self. }
  cbn [length] in Hn.
  change (write_all frame_id frag_count flags ts (self, idx, out) (p :: payloads))
    with (write_all frame_id frag_count flags ts
      (mkPacketizer (pk_fec self) (wrapping_succ 32 (next_stream_seq self)) (next_frame_id self),
       wrapping_succ 16 idx,
       out ++ [encode_datagram (mkHeader (next_stream_seq self) frame_id idx frag_count flags
                 (truncating_u16 (length p)) ts) p]) payloads).
  rewrite (IH _ (seq + 1)); cycle 1.
  { cbn. rewrite Hs. unfold wrapping_succ. by rewrite Zplus_mod_idemp_l. }
  { unfold wrapping_succ. pose proof (Z.mod_pos_bound (idx + 1) (2 ^ 16)). lia. }
  { unfold wrapping_succ. rewrite Z.mod_small by lia. lia. }
  unfold wrapping_succ. rewrite (Z.mod_small (idx + 1)) by lia. cbn [length]. rewrite stamped_cons. cbn [map].
  cbn [pk_fec next_frame_id]. rewrite <- app_assoc, Hs. unfold fragment_encode at 2. cbn [header payload app].
  replace (seq + 1 + zlen payloads) with (seq + Z.of_nat (S (length payloads))) by lia.
  by replace (idx + 1 + zlen payloads) with (idx + Z.of_nat (S (length payloads))) by lia.
Qed.

(** The parsed fragments of a frame, data then parity, in packetize order. *)
Definition frame_parity (self : VideoPacketizer) (frame : list byte) (options : PacketizeOptions) : list (list byte) :=
  parity_payloads self (payloads_of frame) (opt_fec_tier options).

Definition frame_fragments (self : VideoPacketizer) (frame : list byte) (options : PacketizeOptions) : list FrameFragment :=
  let data := payloads_of frame in
  let parity := frame_parity self frame options in
  let count := Z.of_nat (length data + length parity) in
  let ts := opt_host_send_ts_millis options in
  stamped (next_frame_id self) count (base_flags options) ts (next_stream_seq self) 0 data
  ++ stamped (next_frame_id self) count (Flags.union (base_flags options) Flags.PARITY) ts
       (next_stream_seq self + zlen data) (zlen data) parity.

(** The configurations the two ends run: a codec whose counts fit the field, a three-bit tier that
    fits the codec, and machine-width counters. *)
Definition packetizer_ok (self : VideoPacketizer) : Prop :=
  u_range 32 (next_stream_seq self) /\ u_range 32 (next_frame_id self)
  /\ forall scheme, pk_fec self = Some scheme -> (1 <= Fec.group_size scheme <= K_MAX)%nat /\ (1 <= Fec.parity_count scheme)%nat
     /\ (Fec.group_size scheme + Fec.parity_count scheme <= 255)%nat.

Definition options_ok (self : VideoPacketizer) (options : PacketizeOptions) : Prop :=
  u_range 3 (opt_fec_tier options) /\ u_range 32 (opt_host_send_ts_millis options)
  /\ forall scheme, pk_fec self = Some scheme ->
     tier_fits (opt_fec_tier options) (Fec.group_size scheme) (Fec.parity_count scheme).

Lemma max_payload : MAX_PAYLOAD_SIZE = 1177%nat.
Proof. reflexivity. Qed.

Lemma payloads_bounded frame p : p ∈ payloads_of frame -> (length p <= MAX_PAYLOAD_SIZE)%nat.
Proof.
  unfold payloads_of. destruct frame as [|b frame].
  - intros ->%list_elem_of_singleton. cbn. lia.
  - intros Hp. by apply elem_of_chunks in Hp as [_ Hp].
Qed.

Lemma concat_payloads frame : concat (payloads_of frame) = frame.
Proof. unfold payloads_of. destruct frame as [|b frame]; [done|]. apply concat_chunks; rewrite ?max_payload; lia. Qed.

Lemma payloads_nonempty frame : (0 < length (payloads_of frame))%nat.
Proof.
  pose proof (concat_payloads frame) as H. unfold payloads_of in *. destruct frame as [|b frame]; [cbn; lia|].
  destruct (chunks _ _ _); [done|cbn; lia].
Qed.

Lemma parity_usable scheme tier :
  (1 <= Fec.group_size scheme <= K_MAX)%nat -> (1 <= Fec.parity_count scheme)%nat ->
  (Fec.group_size scheme + Fec.parity_count scheme <= 255)%nat ->
  usable scheme (Nat.max (AdaptiveFec.parity_count tier (Fec.parity_count scheme)) 1).
Proof.
  intros Hk Hm Hkm. unfold usable. pose proof (parity_count_pos tier _ Hm) as Hp. rewrite Nat.max_l by done.
  destruct (Nat.eq_dec (AdaptiveFec.parity_count tier (Fec.parity_count scheme)) 1%nat) as [|Hne]; [by left|right].
  split_and!; [lia|lia|]. unfold K_MAX in Hk.
  assert (AdaptiveFec.parity_count tier (Fec.parity_count scheme) <= Nat.max 5 (Fec.parity_count scheme))%nat; [|lia].
  unfold AdaptiveFec.parity_count, BURST_PARITY. repeat case_match; lia.
Qed.

Lemma parity_bounded self frame options p :
  packetizer_ok self -> p ∈ frame_parity self frame options -> (length p <= PREFIX_BYTES + MAX_PAYLOAD_SIZE)%nat.
Proof.
  intros (_ & _ & Hs) Hp. unfold frame_parity, parity_payloads in Hp.
  destruct (pk_fec self) as [scheme|]; [|by apply elem_of_nil in Hp].
  destruct (AdaptiveFec.group_size _ _); [|by apply elem_of_nil in Hp].
  unfold parity_with_m in Hp. eapply parity_m_width; [|exact Hp]. intros d. apply payloads_bounded.
Qed.

Definition fragment_total (self : VideoPacketizer) (frame : list byte) (options : PacketizeOptions) : nat :=
  (length (payloads_of frame) + length (frame_parity self frame options))%nat.

Lemma packetize_datagrams_spec self frame options :
  packetizer_ok self ->
  packetize_datagrams self frame options
  = if (MAX_FRAGMENTS_PER_FRAME <? fragment_total self frame options)%nat
    then ([], 0%nat, mkPacketizer (pk_fec self) (next_stream_seq self) (wrapping_succ 32 (next_frame_id self)))
    else (map fragment_encode (frame_fragments self frame options), length (payloads_of frame),
          mkPacketizer (pk_fec self) ((next_stream_seq self + Z.of_nat (fragment_total self frame options)) mod 2 ^ 32)
            (wrapping_succ 32 (next_frame_id self))).
Proof.
  intros (Hseq & Hid & _). unfold packetize_datagrams. cbn [pk_fec next_stream_seq next_frame_id].
  change (parity_payloads (mkPacketizer (pk_fec self) (next_stream_seq self) (wrapping_succ 32 (next_frame_id self)))
            (payloads_of frame) (opt_fec_tier options)) with (frame_parity self frame options).
  unfold fragment_total. destruct (Nat.ltb_spec MAX_FRAGMENTS_PER_FRAME
    (length (payloads_of frame) + length (frame_parity self frame options))) as [|Hle]; [done|].
  unfold MAX_FRAGMENTS_PER_FRAME in Hle.
  rewrite (write_all_spec _ _ _ _ _ _ (next_stream_seq self)); [|cbn; by rewrite Z.mod_small|lia|lia].
  rewrite (write_all_spec _ _ _ _ _ _ (next_stream_seq self + zlen (payloads_of frame))); [|done|lia|lia].
  cbn [pk_fec next_frame_id]. unfold frame_fragments, truncating_u16, cast_unsigned.
  rewrite (Z.mod_small (Z.of_nat _)) by lia. rewrite map_app, Z.add_0_l. cbn [app].
  by rewrite <- (Z.add_assoc (next_stream_seq self)), <- (Nat2Z.inj_add (length (payloads_of frame))).
Qed.

Lemma elem_of_stamped frame_id frag_count flags ts seq idx payloads f :
  f ∈ stamped frame_id frag_count flags ts seq idx payloads <->
  exists i p, payloads !! i = Some p /\ f = mkFragment
    (mkHeader ((seq + Z.of_nat i) mod 2 ^ 32) frame_id (idx + Z.of_nat i) frag_count flags
       (truncating_u16 (length p)) ts) p.
Proof.
  unfold stamped. split.
  - intros Hf. apply list_elem_of_lookup in Hf as [i Hf]. rewrite list_lookup_imap in Hf.
    apply fmap_Some in Hf as (p & Hp & ->). by exists i, p.
  - intros (i & p & Hp & ->). apply list_elem_of_lookup. exists i. by rewrite list_lookup_imap, Hp.
Qed.

(** A fragment of a frame: which payload it carries, and what its header says. *)
Definition carries (self : VideoPacketizer) (frame : list byte) (options : PacketizeOptions) (f : FrameFragment) : Prop :=
  frame_id (header f) = next_frame_id self
  /\ frag_count (header f) = Z.of_nat (fragment_total self frame options)
  /\ host_send_ts_millis (header f) = opt_host_send_ts_millis options
  /\ u_range 32 (stream_seq (header f))
  /\ payload_length (header f) = truncating_u16 (length (payload f))
  /\ exists i : nat, frag_index (header f) = Z.of_nat i
     /\ (payloads_of frame !! i = Some (payload f) /\ flags_say options false (flags (header f))
         \/ exists slot, i = (length (payloads_of frame) + slot)%nat
            /\ frame_parity self frame options !! slot = Some (payload f)
            /\ flags_say options true (flags (header f))).

Lemma frame_fragments_carry self frame options f :
  f ∈ frame_fragments self frame options -> carries self frame options f.
Proof.
  destruct (base_flags_say options) as [Hb Hp]. unfold frame_fragments, fragment_total.
  intros [Hf|Hf]%elem_of_app; apply elem_of_stamped in Hf as (i & p & Hi & ->);
    unfold carries, fragment_total; cbn [header payload frame_id frag_count host_send_ts_millis stream_seq payload_length frag_index flags];
    (split_and!; [done|done|done|unfold u_range; apply Z.mod_pos_bound; lia|done|]).
  - exists i. split; [lia|]. by left.
  - exists (length (payloads_of frame) + i)%nat. split; [lia|]. right. by exists i.
Qed.

Lemma carried_size self frame options f :
  packetizer_ok self -> carries self frame options f ->
  (length (payload f) <= PREFIX_BYTES + MAX_PAYLOAD_SIZE)%nat.
Proof.
  intros Hok (_ & _ & _ & _ & _ & i & _ & [[Hp _]|(slot & _ & Hp & _)]).
  - apply list_elem_of_lookup_2, payloads_bounded in Hp. lia.
  - eapply parity_bounded; [done|]. by eapply list_elem_of_lookup_2.
Qed.

Lemma carried_decodes self frame options f :
  packetizer_ok self -> options_ok self options ->
  (fragment_total self frame options <= MAX_FRAGMENTS_PER_FRAME)%nat -> carries self frame options f ->
  fragment_decode (fragment_encode f) = Ok f.
Proof.
  intros Hok (_ & Hts & _) Ht Hf. pose proof (carried_size _ _ _ _ Hok Hf) as Hsize.
  destruct Hok as (_ & Hid & _). rewrite max_payload in Hsize. unfold PREFIX_BYTES in Hsize.
  unfold MAX_FRAGMENTS_PER_FRAME in Ht.
  destruct Hf as (H1 & H2 & H3 & H4 & H5 & i & H6 & H7). destruct f as [h p]. cbn [header payload] in *.
  assert (Hi : (i < fragment_total self frame options)%nat /\ u_range 8 (flags h)).
  { unfold fragment_total. destruct H7 as [(Hp & [Hr _])|(slot & -> & Hp & [Hr _])];
      apply lookup_lt_Some in Hp; split; (lia || done). }
  unfold fragment_decode, fragment_encode. cbn [header payload].
  rewrite header_decode_encode.
  - f_equal. f_equal. unfold with_length. destruct h. cbn in *. f_equal. rewrite H5.
    unfold truncating_u16, cast_unsigned. symmetry. apply Z.mod_small. lia.
  - unfold header_ok, u_range in *. rewrite H1, H2, H3, H6. split_and!; lia || apply Hi || done.
  - lia.
Qed.

Lemma omap_decode l :
  (forall f, f ∈ l -> fragment_decode (fragment_encode f) = Ok f) ->
  omap (fun d => match fragment_decode d with Ok f => Some f | Err _ => None end) (map fragment_encode l) = l.
Proof.
  induction l as [|f l IH]; intros H; [done|]. cbn [map omap list_omap].
  rewrite H by left. rewrite IH; [done|]. intros; apply H. by right.
Qed.

Lemma packetize_parsed self frame options :
  packetizer_ok self -> options_ok self options ->
  (fragment_total self frame options <= MAX_FRAGMENTS_PER_FRAME)%nat ->
  exists parsed self',
    packetize self frame options = (parsed, self')
    /\ packetize_raw self frame options = (map fragment_encode parsed, self')
    /\ parsed ≡ₚ frame_fragments self frame options
    /\ self' = mkPacketizer (pk_fec self) ((next_stream_seq self + Z.of_nat (fragment_total self frame options)) mod 2 ^ 32)
                 (wrapping_succ 32 (next_frame_id self)).
Proof.
  intros Hok Ho Ht. unfold packetize, packetize_raw. rewrite packetize_datagrams_spec by done.
  destruct (Nat.ltb_spec MAX_FRAGMENTS_PER_FRAME (fragment_total self frame options)); [lia|].
  assert (Hdec : forall f, f ∈ frame_fragments self frame options -> fragment_decode (fragment_encode f) = Ok f).
  { intros f Hf. eapply carried_decodes; [done..|]. by apply frame_fragments_carry. }
  destruct (negb (opt_interleave options)).
  - eexists _, _. split_and!; [reflexivity|f_equal; by rewrite omap_decode|by rewrite omap_decode|done].
  - cbn [pk_fec]. set (g := default 1%nat _). rewrite interleave_map. set (il := interleave _ _ _).
    assert (Hp : il ≡ₚ frame_fragments self frame options) by apply interleave_permutes.
    assert (Hd : forall f, f ∈ il -> fragment_decode (fragment_encode f) = Ok f)
      by (intros f Hf; apply Hdec; by rewrite <- Hp).
    eexists _, _. split_and!; [reflexivity|f_equal; by rewrite omap_decode|by rewrite omap_decode|done].
Qed.

(** the send path writes the frame, whole and within the budget.  The data payloads concatenate to the
    frame; within the fragment bound every datagram fits 1200 bytes and parses back, and together they
    are exactly the data and parity fragments of the frame, under consecutive sequence numbers; past
    the bound nothing is sent, and the frame number is consumed either way. *)
Theorem packetize_writes_the_frame self frame options :
  packetizer_ok self -> options_ok self options ->
  concat (payloads_of frame) = frame
  /\ ((fragment_total self frame options <= MAX_FRAGMENTS_PER_FRAME)%nat ->
      exists parsed self',
        packetize self frame options = (parsed, self')
        /\ packetize_raw self frame options = (map fragment_encode parsed, self')
        /\ parsed ≡ₚ frame_fragments self frame options
        /\ (forall f, f ∈ parsed -> carries self frame options f /\ (length (fragment_encode f) <= MAX_DATAGRAM_SIZE)%nat)
        /\ next_stream_seq self' = (next_stream_seq self + zlen parsed) mod 2 ^ 32
        /\ next_frame_id self' = wrapping_succ 32 (next_frame_id self))
  /\ ((MAX_FRAGMENTS_PER_FRAME < fragment_total self frame options)%nat ->
      packetize_raw self frame options
      = ([], mkPacketizer (pk_fec self) (next_stream_seq self) (wrapping_succ 32 (next_frame_id self)))).
Proof.
  intros Hok Ho. split; [apply concat_payloads|]. split.
  - intros Ht. destruct (packetize_parsed self frame options Hok Ho Ht) as (parsed & self' & H1 & H2 & H3 & H4).
    exists parsed, self'. split_and!; [done|done|done| | |by rewrite H4].
    + intros f Hf. rewrite H3 in Hf. apply frame_fragments_carry in Hf. split; [done|].
      apply carried_size in Hf; [|done]. unfold fragment_encode. rewrite length_encode_datagram.
      rewrite max_payload in Hf. unfold PREFIX_BYTES, HEADER_SIZE, MAX_DATAGRAM_SIZE in *. lia.
    + rewrite H4. cbn [next_stream_seq]. rewrite (Permutation_length H3).
      unfold frame_fragments, stamped. by rewrite length_app, !length_imap.
  - intros Ht. unfold packetize_raw. rewrite packetize_datagrams_spec by done.
    rewrite (proj2 (Nat.ltb_lt _ _) Ht). destruct (opt_interleave options); [|done]. cbn [negb].
    f_equal. pose proof (interleave_permutes (@nil (list byte)) 0 (default 1%nat (AdaptiveFec.group_size (opt_fec_tier options)
      match pk_fec self with Some scheme => Fec.group_size scheme | None => 1%nat end))) as H.
    by apply Permutation_nil_r in H.
Qed.

Lemma packetize_writes_the_frame_witness :
  concat (payloads_of [Byte.x61]) = [Byte.x61].
Proof.
  apply (packetize_writes_the_frame (packetizer_new (Some fec_default)) [Byte.x61] default_options).
  - do 2 (split; [by vm_compute|]). intros scheme E. injection E as <-. unfold K_MAX. cbn. lia.
  - do 2 (split; [by vm_compute|]). intros scheme E. injection E as <-. by left.
Defined.
