(* ===== verification/Reassembler.v ===== *)
(** * Reassembler: the client receive path

    Models [slopdesk-video/src/reassembler.rs]: the per-frame buffer with its pinned geometry and its
    counters, the loss frontier, completion, the sweep that gives frames up, retransmit requests and the
    bounded memory of retired frames.  The trees of the code are finite maps; where the code walks one
    in key order, [BTree.btree_iter] does.  Frame ids are [u32] values in [Z]; counts are [nat]. *)

From stdpp Require Import gmap sorting.
From S2P Require Import Prelude BTree Fec Fragment AdaptiveFec Packetizer.

Definition MAX_FRONTIER_JUMP : Z := 4096.
Definition RESYNC_STREAK : nat := 8.
Definition RESYNC_CLUSTER_WINDOW : Z := 256.
Definition RETIRED_SOFT_CAP : nat := 512.
Definition RETIRED_KEEP_DISTANCE : Z := 256.
(** From [recovery.rs]. *)
Definition MAX_NACK_FRAGMENTS : nat := 64.

Definition distance_wrapped (value other : Z) : Z := cast_signed 32 ((value - other) mod 2 ^ 32).

Record ReassembledFrame : Type := mkFrame {
  fr_frame_id : Z;
  fr_keyframe : bool;
  fr_crisp : bool;
  fr_avcc : list byte;
  fr_recovered_via_fec : bool;
  fr_is_ltr : bool;
  fr_acked_anchored : bool;
}.

Inductive ReassemblyResult : Type :=
| Incomplete
| Completed (frame : ReassembledFrame)
| Dropped (frame_id : Z)
| Stale.

(** ** One frame's buffer *)

(** The counters of the completeness decision, apart from the rest of the buffer. *)
Record Tallies : Type := mkTallies {
  missing_per_group : list nat;
  surviving_per_group : list nat;
  hopeless_groups : nat;
  recoverable_now_groups : nat;
  awaiting_groups : nat;
}.

(** The flags latched from the wire. *)
Record Latched : Type := mkLatched { la_keyframe : bool; la_crisp : bool; la_is_ltr : bool; la_acked_anchored : bool }.

Record Pending : Type := mkPending {
  pd_frag_count : Z;
  pd_latched : Latched;
  pd_data : gmap Z (list byte);
  pd_parity : gmap nat (list byte);
  observed_data_count : option nat;
  pd_group_size : option nat;
  pd_m : nat;
  pinned_data_count : nat;
  pd_tallies : Tallies;
  data_present_below_boundary : nat;
}.

Definition with_latched (p : Pending) (l : Latched) : Pending :=
  mkPending (pd_frag_count p) l (pd_data p) (pd_parity p) (observed_data_count p) (pd_group_size p) (pd_m p)
    (pinned_data_count p) (pd_tallies p) (data_present_below_boundary p).
Definition with_buffers (p : Pending) (d : gmap Z (list byte)) (q : gmap nat (list byte)) : Pending :=
  mkPending (pd_frag_count p) (pd_latched p) d q (observed_data_count p) (pd_group_size p) (pd_m p)
    (pinned_data_count p) (pd_tallies p) (data_present_below_boundary p).
Definition with_tallies (p : Pending) (t : Tallies) : Pending :=
  mkPending (pd_frag_count p) (pd_latched p) (pd_data p) (pd_parity p) (observed_data_count p) (pd_group_size p)
    (pd_m p) (pinned_data_count p) t (data_present_below_boundary p).
Definition with_boundary (p : Pending) (o : option nat) (present : nat) : Pending :=
  mkPending (pd_frag_count p) (pd_latched p) (pd_data p) (pd_parity p) o (pd_group_size p) (pd_m p)
    (pinned_data_count p) (pd_tallies p) present.

(** The descending scan of [inverted_data_count]. *)
Fixpoint invert_from (total group_size m data_count : nat) : option nat :=
  match data_count with
  | O => if (total =? 0)%nat then Some 0%nat else None
  | S smaller =>
    let parity := (m * div_ceil data_count group_size)%nat in
    if (data_count + parity =? total)%nat then Some data_count
    else if (data_count + parity <? total)%nat then None
    else invert_from total group_size m smaller
  end.

Definition inverted_data_count (total group_size m : nat) : option nat :=
  if (group_size <? 1)%nat || (m <? 1)%nat then None else invert_from total group_size m total.

Definition count_of (p : Z) : nat := Z.to_nat p.

Definition pending_new (frag_count : Z) (group_size : option nat) (parity_shards_per_group : nat) : Pending :=
  let group := match group_size with Some g => if (1 <=? g)%nat then Some g else None | None => None end in
  let m := Nat.max parity_shards_per_group 1 in
  let total := count_of frag_count in
  let latched := mkLatched false false false false in
  match group with
  | None => mkPending frag_count latched ∅ ∅ None None m total (mkTallies [] [] 0 0 0) 0
  | Some g =>
    let data_count := default total (inverted_data_count total g m) in
    let groups := div_ceil data_count g in
    let missing := map (fun index => Nat.min g (data_count - index * g)) (seq 0 groups) in
    let hopeless := length (filter (fun n => (m < n)%nat) missing) in
    mkPending frag_count latched ∅ ∅ None (Some g) m data_count
      (mkTallies missing (replicate groups 0%nat) hopeless 0 (groups - hopeless)) 0
  end.

Definition observed_boundary (p : Pending) : nat :=
  match observed_data_count p with Some seen => seen | None => count_of (pd_frag_count p) end.

Definition resolved_data_count (p : Pending) : nat :=
  match pd_group_size p with Some _ => pinned_data_count p | None => observed_boundary p end.

Definition can_eventually_complete (p : Pending) : bool :=
  let data_count := resolved_data_count p in
  if (data_count =? 0)%nat then bool_decide (is_Some (pd_data p !! 0)) else
  match pd_group_size p with
  | None => (data_present_below_boundary p =? data_count)%nat
  | Some _ => (hopeless_groups (pd_tallies p) =? 0)%nat && (awaiting_groups (pd_tallies p) =? 0)%nat
  end.

Definition is_awaiting_recoverable_parity (p : Pending) : bool :=
  match pd_group_size p with
  | None => false
  | Some _ => let t := pd_tallies p in
    (hopeless_groups t =? 0)%nat && (recoverable_now_groups t =? 0)%nat && (0 <? awaiting_groups t)%nat
  end.

Definition bump (add : bool) (n : nat) : nat := if add then S n else (n - 1)%nat.

Definition tally (m : nat) (t : Tallies) (group : nat) (add : bool) : Tallies :=
  match missing_per_group t !! group with
  | None => t
  | Some missing =>
    if (missing <? 1)%nat then t else
    let surviving := default 0%nat (surviving_per_group t !! group) in
    if (m <? missing)%nat then
      mkTallies (missing_per_group t) (surviving_per_group t) (bump add (hopeless_groups t))
        (recoverable_now_groups t) (awaiting_groups t)
    else if (missing <=? surviving)%nat then
      mkTallies (missing_per_group t) (surviving_per_group t) (hopeless_groups t)
        (bump add (recoverable_now_groups t)) (awaiting_groups t)
    else
      mkTallies (missing_per_group t) (surviving_per_group t) (hopeless_groups t)
        (recoverable_now_groups t) (bump add (awaiting_groups t))
  end.

(** [if let Some(count) = counts.get_mut(group)] over one of the two vectors. *)
Definition with_missing (t : Tallies) (l : list nat) : Tallies :=
  mkTallies l (surviving_per_group t) (hopeless_groups t) (recoverable_now_groups t) (awaiting_groups t).
Definition with_surviving (t : Tallies) (l : list nat) : Tallies :=
  mkTallies (missing_per_group t) l (hopeless_groups t) (recoverable_now_groups t) (awaiting_groups t).

Definition note_data_arrived (p : Pending) (index : nat) : Pending :=
  match pd_group_size p with
  | None =>
    if (index <? observed_boundary p)%nat
    then with_boundary p (observed_data_count p) (S (data_present_below_boundary p)) else p
  | Some g =>
    if (pinned_data_count p <=? index)%nat then p else
    let group := (index / g)%nat in
    let t := tally (pd_m p) (pd_tallies p) group false in
    let t := with_missing t (alter (fun missing => missing - 1)%nat group (missing_per_group t)) in
    with_tallies p (tally (pd_m p) t group true)
  end.

Definition note_parity_arrived (p : Pending) (slot : nat) : Pending :=
  match pd_group_size p with
  | None => p
  | Some _ =>
    let group := (slot / pd_m p)%nat in
    if (length (surviving_per_group (pd_tallies p)) <=? group)%nat then p else
    let t := tally (pd_m p) (pd_tallies p) group false in
    let t := with_surviving t (alter S group (surviving_per_group t)) in
    with_tallies p (tally (pd_m p) t group true)
  end.

(** [u16::try_from(index)], then the map. *)
Definition data_at (p : Pending) (index : nat) : option (list byte) :=
  if Z.of_nat index <=? 65535 then pd_data p !! Z.of_nat index else None.

Definition note_observed_parity_boundary (p : Pending) (parity_index : nat) : Pending :=
  let present :=
    match pd_group_size p with
    | Some _ => data_present_below_boundary p
    | None =>
      let old := observed_boundary p in
      let new := Nat.min old parity_index in
      foldl (fun present index => if data_at p index is Some _ then (present - 1)%nat else present)
        (data_present_below_boundary p) (seq new (old - new))
    end in
  with_boundary p
    (Some match observed_data_count p with Some seen => Nat.min seen parity_index | None => parity_index end) present.

(** The ascending scan of [missing_data_frags], stopping past the cap. *)
Fixpoint missing_scan (p : Pending) (max_frags : nat) (indices : list nat) (missing : list Z) : option (list Z) :=
  match indices with
  | [] => Some missing
  | index :: indices =>
    if Z.of_nat index <=? 65535 then
      match pd_data p !! Z.of_nat index with
      | Some _ => missing_scan p max_frags indices missing
      | None =>
        let missing := missing ++ [Z.of_nat index] in
        if (max_frags <? length missing)%nat then None else missing_scan p max_frags indices missing
      end
    else None
  end.

Definition missing_data_frags (p : Pending) (max_frags : nat) : option (list Z) :=
  let data_count := resolved_data_count p in
  if (data_count =? 0)%nat then None else
  match missing_scan p max_frags (seq 0 data_count) [] with
  | Some [] | None => None
  | Some missing => Some missing
  end.

(** ** The reassembler *)

Record FrameReassembler : Type := mkReassembler {
  rs_fec : option ReedSolomonFec;
  rs_pending : gmap Z Pending;
  highest_retired_frame_id : option Z;
  highest_seen_frame_id : option Z;
  retired : gset Z;
  dropped_queue : list Z;
  fec_reorder_grace : Z;
  retransmit_grace : Z;
  nacked : gset Z;
  needs_retransmit_queue : list (Z * list Z);
  nack_max_frags : nat;
  frontier_jump_candidates : list Z;
  frontier_jump_rejected_count : Z;
}.

Definition reassembler_new (fec : option ReedSolomonFec) (fec_reorder_grace : Z) : FrameReassembler :=
  mkReassembler
    (match fec with Some scheme => if (1 <=? Fec.parity_count scheme)%nat then Some scheme else None | None => None end)
    ∅ None None ∅ [] (Z.max fec_reorder_grace 0) 0 ∅ [] 0 [] 0.

Definition with_pending (s : FrameReassembler) (p : gmap Z Pending) : FrameReassembler :=
  mkReassembler (rs_fec s) p (highest_retired_frame_id s) (highest_seen_frame_id s) (retired s) (dropped_queue s)
    (fec_reorder_grace s) (retransmit_grace s) (nacked s) (needs_retransmit_queue s) (nack_max_frags s)
    (frontier_jump_candidates s) (frontier_jump_rejected_count s).
Definition with_frontier (s : FrameReassembler) (seen : option Z) (candidates : list Z) (rejected : Z) : FrameReassembler :=
  mkReassembler (rs_fec s) (rs_pending s) (highest_retired_frame_id s) seen (retired s) (dropped_queue s)
    (fec_reorder_grace s) (retransmit_grace s) (nacked s) (needs_retransmit_queue s) (nack_max_frags s) candidates rejected.
Definition with_retired (s : FrameReassembler) (high : option Z) (ids : gset Z) (asked : gset Z) : FrameReassembler :=
  mkReassembler (rs_fec s) (rs_pending s) high (highest_seen_frame_id s) ids (dropped_queue s)
    (fec_reorder_grace s) (retransmit_grace s) asked (needs_retransmit_queue s) (nack_max_frags s)
    (frontier_jump_candidates s) (frontier_jump_rejected_count s).
Definition with_dropped (s : FrameReassembler) (queue : list Z) : FrameReassembler :=
  mkReassembler (rs_fec s) (rs_pending s) (highest_retired_frame_id s) (highest_seen_frame_id s) (retired s) queue
    (fec_reorder_grace s) (retransmit_grace s) (nacked s) (needs_retransmit_queue s) (nack_max_frags s)
    (frontier_jump_candidates s) (frontier_jump_rejected_count s).
Definition with_retransmit (s : FrameReassembler) (asked : gset Z) (queue : list (Z * list Z)) : FrameReassembler :=
  mkReassembler (rs_fec s) (rs_pending s) (highest_retired_frame_id s) (highest_seen_frame_id s) (retired s) (dropped_queue s)
    (fec_reorder_grace s) (retransmit_grace s) asked queue (nack_max_frags s)
    (frontier_jump_candidates s) (frontier_jump_rejected_count s).

Definition enable_retransmit (s : FrameReassembler) (grace : Z) (max_frags : nat) : FrameReassembler :=
  mkReassembler (rs_fec s) (rs_pending s) (highest_retired_frame_id s) (highest_seen_frame_id s) (retired s) (dropped_queue s)
    (fec_reorder_grace s) (Z.max grace 0) (nacked s) (needs_retransmit_queue s) (Nat.min max_frags MAX_NACK_FRAGMENTS)
    (frontier_jump_candidates s) (frontier_jump_rejected_count s).

Definition next_needs_retransmit (s : FrameReassembler) : option (Z * list Z) * FrameReassembler :=
  match needs_retransmit_queue s with
  | [] => (None, s)
  | next :: queue => (Some next, with_retransmit s (nacked s) queue)
  end.

Definition next_dropped_frame (s : FrameReassembler) : option Z * FrameReassembler :=
  match dropped_queue s with
  | [] => (None, s)
  | next :: queue => (Some next, with_dropped s queue)
  end.

(** A [BTreeMap] or [BTreeSet] in key order. *)
(** [sort_by]: stable.  The standard library says nothing for a comparison that is not a total order. *)
Fixpoint insert_by {A} (cmp : A -> A -> comparison) (x : A) (l : list A) : list A :=
  match l with
  | [] => [x]
  | y :: l' => match cmp x y with Gt => y :: insert_by cmp x l' | _ => x :: l end
  end.
Definition sort_by {A} (cmp : A -> A -> comparison) (l : list A) : list A := foldr (insert_by cmp) [] l.

(** *** The loss frontier *)

Definition resync_on_consistent_jump (s : FrameReassembler) (frame_id : Z) : bool * FrameReassembler :=
  let candidates :=
    match last (frontier_jump_candidates s) with
    | Some prev => if RESYNC_CLUSTER_WINDOW <? Z.abs (distance_wrapped frame_id prev) then [] else frontier_jump_candidates s
    | None => frontier_jump_candidates s
    end in
  let candidates := candidates ++ [frame_id] in
  if (RESYNC_STREAK <=? length candidates)%nat
  then (true, with_frontier s (highest_seen_frame_id s) [] (frontier_jump_rejected_count s))
  else (false, with_frontier s (highest_seen_frame_id s) candidates (frontier_jump_rejected_count s)).

Definition advance_frontier (s : FrameReassembler) (frame_id : Z) : bool * FrameReassembler :=
  match highest_seen_frame_id s with
  | None => (true, with_frontier s (Some frame_id) (frontier_jump_candidates s) (frontier_jump_rejected_count s))
  | Some seen =>
    let jump := distance_wrapped frame_id seen in
    let '(proceed, s) :=
      if MAX_FRONTIER_JUMP <? jump then
        resync_on_consistent_jump
          (with_frontier s (highest_seen_frame_id s) (frontier_jump_candidates s) (frontier_jump_rejected_count s + 1)) frame_id
      else (true, with_frontier s (highest_seen_frame_id s) [] (frontier_jump_rejected_count s)) in
    if negb proceed then (false, s) else
    if 0 <? jump
    then (true, with_frontier s (Some frame_id) (frontier_jump_candidates s) (frontier_jump_rejected_count s))
    else (true, s)
  end.

(** *** Completion *)

Definition retire (s : FrameReassembler) (frame_id : Z) : FrameReassembler :=
  let s := with_pending s (delete frame_id (rs_pending s)) in
  let ids := {[frame_id]} ∪ retired s in
  let ahead := match highest_retired_frame_id s with
               | Some high => 0 <? distance_wrapped frame_id high | None => true end in
  let high := if ahead then Some frame_id else highest_retired_frame_id s in
  let ids :=
    if (RETIRED_SOFT_CAP <? size ids)%nat then
      match high with
      | Some high => filter (fun id => distance_wrapped high id <= RETIRED_KEEP_DISTANCE) ids
      | None => ids
      end
    else ids in
  with_retired s high ids (nacked s ∖ {[frame_id]}).

Definition assemble (s : FrameReassembler) (entry : Pending) : option (list byte * bool) :=
  let data_count := resolved_data_count entry in
  if (data_count =? 0)%nat then (fun only => (only, false)) <$> pd_data entry !! 0 else
  let present := map (data_at entry) (seq 0 data_count) in
  let had_hole := existsb (fun payload => if payload is Some _ then false else true) present in
  if negb had_hole then Some (concat (omap id present), false) else
  match rs_fec s, pd_group_size entry with
  | Some fec, Some group_size =>
    let parity_slots := (count_of (pd_frag_count entry) - data_count)%nat in
    let parity := map (fun slot => pd_parity entry !! slot) (seq 0 parity_slots) in
    let data := recover_with_m fec present parity group_size (pd_m entry) in
    if existsb (fun payload => if payload is Some _ then false else true) data then None
    else Some (concat (omap id data), true)
  | _, _ => None
  end.

Definition try_complete (s : FrameReassembler) (frame_id : Z) : ReassemblyResult * FrameReassembler :=
  match rs_pending s !! frame_id with
  | None => (Stale, s)
  | Some entry =>
    if negb (can_eventually_complete entry) then (Incomplete, s) else
    match assemble s entry with
    | None => (Incomplete, s)
    | Some (avcc, recovered_via_fec) =>
      let l := pd_latched entry in
      (Completed (mkFrame frame_id (la_keyframe l) (la_crisp l) avcc recovered_via_fec (la_is_ltr l) (la_acked_anchored l)),
       retire s frame_id)
    end
  end.

(** *** The sweep *)

Inductive Verdict : Type := Keep | Nack (missing : list Z) | Hopeless.

(** The body of the walk, for one pending frame. *)
Definition sweep_verdict (s : FrameReassembler) (frontier frame_id : Z) (entry : Pending) : Verdict :=
  let age := distance_wrapped frontier frame_id in
  if (age <=? 0) || can_eventually_complete entry then Keep else
  if is_awaiting_recoverable_parity entry && (age <=? fec_reorder_grace s) then Keep else
  if (0 <? retransmit_grace s) && (age <=? retransmit_grace s) then
    if bool_decide (frame_id ∈ nacked s) then Keep else
    match missing_data_frags entry (nack_max_frags s) with
    | Some missing => Nack missing
    | None => Hopeless
    end
  else Hopeless.

Definition nack_order (left right : Z * list Z) : comparison :=
  match distance_wrapped left.1 right.1 ?= 0 with Eq => left.1 ?= right.1 | c => c end.

Definition sweep_hopeless_frames (s : FrameReassembler) : FrameReassembler :=
  match highest_seen_frame_id s with
  | None => s
  | Some frontier =>
    let verdicts := map (fun '(id, entry) => (id, sweep_verdict s frontier id entry)) (btree_iter (rs_pending s)) in
    let nack := omap (fun '(id, v) => match v with Nack missing => Some (id, missing) | _ => None end) verdicts in
    let hopeless := omap (fun '(id, v) => match v with Hopeless => Some id | _ => None end) verdicts in
    let s := foldl (fun s '(id, missing) =>
               with_retransmit s ({[id]} ∪ nacked s) (needs_retransmit_queue s ++ [(id, missing)]))
               s (sort_by nack_order nack) in
    foldl (fun s id => let s := retire s id in with_dropped s (dropped_queue s ++ [id]))
      s (sort_by (fun left right => distance_wrapped left right ?= 0) hopeless)
  end.

(** *** One fragment *)

Definition implausible (f : FrameFragment) : bool :=
  (frag_count (header f) =? 0)
  || (MAX_FRAGMENTS_PER_FRAME <? count_of (frag_count (header f)))%nat
  || (frag_count (header f) <=? frag_index (header f))
  || (MAX_DATAGRAM_SIZE - HEADER_SIZE <? length (payload f))%nat.

Definition latch (l : Latched) (fl : Flags.Flags) : Latched :=
  mkLatched (la_keyframe l || Flags.contains fl Flags.KEYFRAME) (la_crisp l || Flags.contains fl Flags.CRISP)
    (la_is_ltr l || Flags.contains fl Flags.IS_LTR) (la_acked_anchored l || Flags.contains fl Flags.ACKED_ANCHORED).

(** The buffering of a fragment into its frame, past the pin. *)
Definition buffer_fragment (entry : Pending) (f : FrameFragment) : Pending :=
  let h := header f in
  let entry := with_latched entry (latch (pd_latched entry) (flags h)) in
  if Flags.contains (flags h) Flags.PARITY then
    let parity_index := count_of (frag_index h) in
    let boundary := match pd_group_size entry with Some _ => pinned_data_count entry | None => parity_index end in
    let entry := note_observed_parity_boundary entry parity_index in
    let slot := (parity_index - boundary)%nat in
    let first := bool_decide (pd_parity entry !! slot = None) in
    let entry := with_buffers entry (pd_data entry) (<[slot := payload f]> (pd_parity entry)) in
    if first then note_parity_arrived entry slot else entry
  else
    let first := bool_decide (pd_data entry !! frag_index h = None) in
    let entry := with_buffers entry (<[frag_index h := payload f]> (pd_data entry)) (pd_parity entry) in
    if first then note_data_arrived entry (count_of (frag_index h)) else entry.

(** The entry of a frame, made from the first fragment seen of it. *)
Definition entry_for (s : FrameReassembler) (f : FrameFragment) : Pending :=
  match rs_pending s !! frame_id (header f) with
  | Some entry => entry
  | None =>
    let tier := Flags.fec_tier (flags (header f)) in
    pending_new (frag_count (header f))
      (match rs_fec s with Some scheme => AdaptiveFec.group_size tier (Fec.group_size scheme) | None => None end)
      (AdaptiveFec.parity_count tier (match rs_fec s with Some scheme => Fec.parity_count scheme | None => 1%nat end))
  end.

Definition ingest (s : FrameReassembler) (f : FrameFragment) : ReassemblyResult * FrameReassembler :=
  let id := frame_id (header f) in
  if implausible f then (Stale, s) else
  if bool_decide (id ∈ retired s) then (Stale, s) else
  if match highest_retired_frame_id s with
     | Some high => (distance_wrapped id high <=? 0) && bool_decide (rs_pending s !! id = None)
     | None => false end then (Stale, s) else
  let '(proceed, s) := advance_frontier s id in
  if negb proceed then (Stale, s) else
  let entry := entry_for s f in
  let s := with_pending s (<[id := entry]> (rs_pending s)) in
  if negb (frag_count (header f) =? pd_frag_count entry) then (Stale, s) else
  let s := with_pending s (<[id := buffer_fragment entry f]> (rs_pending s)) in
  let '(result, s) := try_complete s id in
  let s := sweep_hopeless_frames s in
  match result with
  | Completed _ => (result, s)
  | _ =>
    if bool_decide (rs_pending s !! id = None) && bool_decide (id ∈ dropped_queue s)
    then (Dropped id, with_dropped s (filter (fun queued => queued <> id) (dropped_queue s)))
    else (Incomplete, s)
  end.

(** A run over a sequence of fragments, with the verdicts. *)
Fixpoint ingest_all (s : FrameReassembler) (fs : list FrameFragment) : list ReassemblyResult * FrameReassembler :=
  match fs with
  | [] => ([], s)
  | f :: fs => let '(r, s) := ingest s f in let '(rs, s) := ingest_all s fs in (r :: rs, s)
  end.

Example rebuilds_from_parity :
  let codec := mkFec 5 1 in
  let '(parsed, _) := packetize (packetizer_new (Some codec)) [Byte.x61; Byte.x62] default_options in
  fst (ingest_all (reassembler_new (Some codec) 2) (drop 1 parsed))
  = [Completed (mkFrame 0 false false [Byte.x61; Byte.x62] true false false)].
Proof. vm_compute. reflexivity. Qed.

(** The comparison of the sweep's sorts is not an order on ids spread over the whole sequence space. *)
Lemma distance_order_is_cyclic :
  distance_wrapped 0 1431655765 < 0 /\ distance_wrapped 1431655765 2863311530 < 0 /\ distance_wrapped 2863311530 0 < 0.
Proof. vm_compute. by split_and!. Qed.

(** ** The data/parity boundary *)

Lemma invert_from_finds g m d n :
  (0 < g)%nat -> (0 < d <= n)%nat -> invert_from (d + m * div_ceil d g) g m n = Some d.
Proof.
  intros Hg. induction n as [|n IH]; intros Hd; [lia|]. cbn [invert_from].
  destruct (Nat.eq_dec d (S n)) as [->|Hne]; [by rewrite Nat.eqb_refl|].
  pose proof (div_ceil_mono d (S n) g Hg ltac:(lia)).
  destruct (Nat.eqb_spec (S n + m * div_ceil (S n) g) (d + m * div_ceil d g)); [nia|].
  destruct (Nat.ltb_spec (S n + m * div_ceil (S n) g) (d + m * div_ceil d g)); [nia|]. apply IH. lia.
Qed.

Lemma inverted_data_count_finds g m d :
  (0 < g)%nat -> (0 < m)%nat -> (0 < d)%nat -> inverted_data_count (d + m * div_ceil d g) g m = Some d.
Proof.
  intros Hg Hm Hd. unfold inverted_data_count. destruct (Nat.ltb_spec g 1), (Nat.ltb_spec m 1); try lia. cbn [orb].
  apply invert_from_finds; [done|]. lia.
Qed.

(** ** The counters *)

(** The three buckets; [0] is a complete group. *)
Definition bucket_of (m : nat) (c : nat * nat) : nat :=
  if (c.1 <? 1)%nat then 0 else if (m <? c.1)%nat then 1 else if (c.1 <=? c.2)%nat then 2 else 3.

Definition in_bucket (m b : nat) (cs : list (nat * nat)) : nat := length (filter (fun c => bucket_of m c = b) cs).

Definition tallied (m : nat) (t : Tallies) : Prop :=
  length (missing_per_group t) = length (surviving_per_group t)
  /\ hopeless_groups t = in_bucket m 1 (zip (missing_per_group t) (surviving_per_group t))
  /\ recoverable_now_groups t = in_bucket m 2 (zip (missing_per_group t) (surviving_per_group t))
  /\ awaiting_groups t = in_bucket m 3 (zip (missing_per_group t) (surviving_per_group t)).

Definition one (b b' : nat) : nat := if decide (b = b') then 1%nat else 0%nat.

Lemma in_bucket_insert m b cs i c c' :
  cs !! i = Some c ->
  (in_bucket m b (<[i := c']> cs) + one (bucket_of m c) b = in_bucket m b cs + one (bucket_of m c') b)%nat.
Proof.
  intros Hi. assert (Hlt := lookup_lt_Some _ _ _ Hi). unfold in_bucket.
  rewrite insert_take_drop by done. rewrite <- (take_drop_middle cs i c Hi) at 3.
  rewrite !filter_app, !length_app, !filter_cons. unfold one.
  destruct (decide (bucket_of m c' = b)), (decide (bucket_of m c = b)); cbn [length]; lia.
Qed.

Lemma in_bucket_pos m b cs i c : cs !! i = Some c -> (one (bucket_of m c) b <= in_bucket m b cs)%nat.
Proof.
  intros Hi. unfold in_bucket. rewrite <- (take_drop_middle cs i c Hi), filter_app, length_app, filter_cons.
  unfold one. destruct (decide (bucket_of m c = b)); cbn [length]; lia.
Qed.

Lemma bump_move (n n' p q b : nat) :
  (one p b <= n)%nat -> (n' + one p b = n + one q b)%nat ->
  (if decide (q = b) then bump true (if decide (p = b) then bump false n else n) else
     (if decide (p = b) then bump false n else n)) = n'.
Proof. unfold one, bump. destruct (decide (p = b)), (decide (q = b)); lia. Qed.

(** What [tally] does to the bucket counts of a group. *)
Lemma tally_spec m t group missing surviving add :
  missing_per_group t !! group = Some missing -> surviving_per_group t !! group = Some surviving ->
  let t' := tally m t group add in
  missing_per_group t' = missing_per_group t /\ surviving_per_group t' = surviving_per_group t
  /\ hopeless_groups t' = (if decide (bucket_of m (missing, surviving) = 1%nat) then bump add (hopeless_groups t) else hopeless_groups t)
  /\ recoverable_now_groups t' = (if decide (bucket_of m (missing, surviving) = 2%nat) then bump add (recoverable_now_groups t) else recoverable_now_groups t)
  /\ awaiting_groups t' = (if decide (bucket_of m (missing, surviving) = 3%nat) then bump add (awaiting_groups t) else awaiting_groups t).
Proof.
  intros Hm Hs. unfold tally, bucket_of. rewrite Hm, Hs. change (default 0%nat (Some surviving)) with surviving. cbn [fst snd].
  destruct (missing <? 1)%nat; [done|]. destruct (m <? missing)%nat; [done|]. by destruct (missing <=? surviving)%nat.
Qed.

(** Out, the lists move at one group, back in: still tallied. *)
Lemma tally_move m t group c c' lm ls :
  tallied m t -> zip (missing_per_group t) (surviving_per_group t) !! group = Some c ->
  lm = <[group := c'.1]> (missing_per_group t) -> ls = <[group := c'.2]> (surviving_per_group t) ->
  tallied m (tally m (mkTallies lm ls (hopeless_groups (tally m t group false))
    (recoverable_now_groups (tally m t group false)) (awaiting_groups (tally m t group false))) group true).
Proof.
  intros (Hlen & H1 & H2 & H3) Hc -> ->.
  apply lookup_zip_with_Some in Hc as (x & y & Ec & Hx & Hy). 
  destruct (tally_spec m t group x y false Hx Hy) as (_ & _ & E1 & E2 & E3). cbv zeta in *.
  assert (Hlx := lookup_lt_Some _ _ _ Hx). assert (Hly := lookup_lt_Some _ _ _ Hy).
  destruct (tally_spec m (mkTallies (<[group := c'.1]> (missing_per_group t)) (<[group := c'.2]> (surviving_per_group t))
    (hopeless_groups (tally m t group false)) (recoverable_now_groups (tally m t group false)) (awaiting_groups (tally m t group false)))
    group c'.1 c'.2 true) as (F0 & F0' & F1 & F2 & F3);
    [cbn; by rewrite list_lookup_insert_eq by lia|cbn; by rewrite list_lookup_insert_eq by lia|]. cbv zeta in *.
  cbn [missing_per_group surviving_per_group hopeless_groups recoverable_now_groups awaiting_groups] in *.
  assert (Hz : zip (missing_per_group t) (surviving_per_group t) !! group = Some (x, y))
    by (apply lookup_zip_with_Some; eauto).
  assert (Ez : zip (<[group := c'.1]> (missing_per_group t)) (<[group := c'.2]> (surviving_per_group t))
               = <[group := c']> (zip (missing_per_group t) (surviving_per_group t))).
  { rewrite <- insert_zip_with. by destruct c'. }
  unfold tallied. rewrite F0, F0', F1, F2, F3, E1, E2, E3, Ez, !length_insert.
  replace (c'.1, c'.2) with c' by (by destruct c'). split; [done|].
  split_and!; rewrite ?H1, ?H2, ?H3; apply bump_move;
    first [by eapply in_bucket_pos | by apply in_bucket_insert].
Qed.

(** Counting over a range when one element changes sides. *)
Lemma count_same (P Q : nat -> Prop) `{!forall i, Decision (P i), !forall i, Decision (Q i)} l :
  (forall i, i ∈ l -> P i <-> Q i) -> length (filter P l) = length (filter Q l).
Proof.
  induction l as [|a l IH]; intros Hpq; [done|]. rewrite !filter_cons.
  pose proof (Hpq a ltac:(left)) as Ha. specialize (IH ltac:(intros; apply Hpq; by right)).
  destruct (decide (P a)), (decide (Q a)); try tauto; cbn [length]; by rewrite IH.
Qed.

Lemma count_move (P Q : nat -> Prop) `{!forall i, Decision (P i), !forall i, Decision (Q i)} l i :
  NoDup l -> i ∈ l -> P i -> ~ Q i -> (forall j, j <> i -> P j <-> Q j) ->
  length (filter P l) = S (length (filter Q l)).
Proof.
  intros Hn Hi HP HQ Hsame. induction Hn as [|a l Ha Hn IH]; [by apply elem_of_nil in Hi|].
  rewrite !filter_cons. apply elem_of_cons in Hi as [<-|Hi].
  - rewrite decide_True, decide_False by done. cbn [length]. f_equal. apply count_same.
    intros j Hj. apply Hsame. by intros ->.
  - assert (a <> i) as Hne by (by intros ->). pose proof (Hsame a Hne).
    destruct (decide (P a)), (decide (Q a)); try tauto; cbn [length]; rewrite IH; auto.
Qed.

(** ** The buffer and its counters agree *)

Definition missing_in (p : Pending) (g group : nat) : nat :=
  length (filter (fun i => pd_data p !! Z.of_nat i = None)
    (seq (group * g) (Nat.min g (pinned_data_count p - group * g)))).

Definition surviving_in (p : Pending) (group : nat) : nat :=
  length (filter (fun rank => is_Some (pd_parity p !! (group * pd_m p + rank)%nat)) (seq 0 (pd_m p))).

Definition group_count (p : Pending) (g : nat) : nat := div_ceil (pinned_data_count p) g.

Definition counters_exact (p : Pending) : Prop :=
  (1 <= pd_m p)%nat /\ 0 <= pd_frag_count p < 65536 /\
  match pd_group_size p with
  | None =>
    (observed_boundary p <= count_of (pd_frag_count p))%nat
    /\ data_present_below_boundary p
       = length (filter (fun i => is_Some (pd_data p !! Z.of_nat i)) (seq 0 (observed_boundary p)))
  | Some g =>
    (1 <= g)%nat
    /\ missing_per_group (pd_tallies p) = map (missing_in p g) (seq 0 (group_count p g))
    /\ surviving_per_group (pd_tallies p) = map (surviving_in p) (seq 0 (group_count p g))
    /\ tallied (pd_m p) (pd_tallies p)
  end.

Lemma in_bucket_map m b (f h : nat -> nat) n :
  in_bucket m b (zip (map f (seq 0 n)) (map h (seq 0 n))) = length (filter (fun j => bucket_of m (f j, h j) = b) (seq 0 n)).
Proof.
  unfold in_bucket. induction (seq 0 n) as [|j l IH]; [done|]. cbn [map zip]. rewrite !filter_cons.
  destruct (decide (bucket_of m (f j, h j) = b)); cbn [length]; by rewrite IH.
Qed.

Lemma bucket_none_zero m b f h n : (forall j, (j < n)%nat -> bucket_of m (f j, h j) <> b) ->
  in_bucket m b (zip (map f (seq 0 n)) (map h (seq 0 n))) = 0%nat.
Proof.
  intros H. rewrite in_bucket_map. rewrite filter_none; [done|]. intros j Hj%elem_of_seq. apply H. lia.
Qed.

(** Every group incomplete and no parity yet: past the budget, or waiting. *)
Lemma fresh_tallied m ns :
  (forall n, n ∈ ns -> (1 <= n)%nat) ->
  let hopeless := length (filter (fun n => (m < n)%nat) ns) in
  tallied m (mkTallies ns (replicate (length ns) 0%nat) hopeless 0 (length ns - hopeless)).
Proof.
  intros Hn. unfold tallied. cbn [missing_per_group surviving_per_group hopeless_groups recoverable_now_groups awaiting_groups].
  rewrite length_replicate. split; [done|]. unfold in_bucket.
  induction ns as [|n ns IH]; [done|]. specialize (IH ltac:(intros; apply Hn; by right)) as (E1 & E2 & E3).
  pose proof (Hn n ltac:(left)) as H1. pose proof (length_filter (fun n => (m < n)%nat) ns) as Hle.
  cbn [length replicate zip]. rewrite !filter_cons.
  assert (Eb : bucket_of m (n, 0%nat) = if decide (m < n)%nat then 1%nat else 3%nat).
  { unfold bucket_of. cbn [fst snd]. destruct (Nat.ltb_spec n 1); [lia|].
    destruct (Nat.ltb_spec m n), (decide (m < n)%nat); try lia. destruct (Nat.leb_spec n 0); lia. }
  rewrite Eb. destruct (decide (m < n)%nat);
    repeat first [rewrite decide_True by done | rewrite decide_False by done];
    cbn [length]; split_and!; lia.
Qed.

Lemma pending_new_exact frag_count group_size m :
  0 <= frag_count < 65536 -> counters_exact (pending_new frag_count group_size m).
Proof.
  intros Hf. unfold pending_new. set (group := match group_size with Some _ => _ | None => _ end).
  assert (Hg : forall g, group = Some g -> (1 <= g)%nat).
  { intros g E. subst group. destruct group_size as [g'|]; [|done]. destruct (Nat.leb_spec 1 g'); [by injection E as <-|done]. }
  destruct group as [g|]; unfold counters_exact; cbn [pd_m pd_group_size pd_frag_count].
  2: { split; [lia|]. split; [done|]. split; [done|]. cbn [data_present_below_boundary pd_data].
       rewrite filter_none; [done|]. intros i _. rewrite lookup_empty. by intros [??]. }
  specialize (Hg g eq_refl). split; [lia|]. split; [done|]. split; [done|].
  set (N := default _ _). set (M := Nat.max m 1). unfold group_count. cbn [pinned_data_count pd_tallies missing_per_group surviving_per_group].
  set (p := mkPending _ _ _ _ _ _ _ _ _ _). split_and!.
  - apply map_ext. intros j. unfold missing_in. subst p. cbn [pd_data pinned_data_count].
    rewrite filter_all; [by rewrite length_seq|]. intros i _. apply lookup_empty.
  - rewrite <- (length_seq (div_ceil N g) 0) at 1. generalize (seq 0 (div_ceil N g)). intros l.
    induction l as [|j l IH]; [done|]. cbn [length replicate map]. rewrite IH. f_equal. unfold surviving_in.
    subst p. cbn [pd_parity pd_m]. rewrite filter_none; [done|]. intros i _. rewrite lookup_empty. by intros [??].
  - set (ns := map _ (seq 0 (div_ceil N g))).
    assert (El : length ns = div_ceil N g) by (subst ns; by rewrite length_map, length_seq).
    rewrite <- El. apply fresh_tallied. intros n Hn. apply list_elem_of_fmap in Hn as (j & -> & Hj%elem_of_seq).
    destruct (div_ceil_spec N g ltac:(lia)). nia.
Qed.

Lemma alter_at {A} (f : A -> A) (l : list A) (i : nat) x : l !! i = Some x -> alter f i l = <[i := f x]> l.
Proof.
  revert i. induction l as [|y l IH]; intros [|i] H; try done; cbn in *; [by injection H as ->|].
  f_equal. by apply IH.
Qed.

Lemma map_seq_insert {A} (f f' : nat -> A) n j v :
  (j < n)%nat -> f' j = v -> (forall i, i <> j -> f' i = f i) -> <[j := v]> (map f (seq 0 n)) = map f' (seq 0 n).
Proof.
  intros Hj Hv Hf. apply list_eq. intros i. destruct (Nat.lt_ge_cases i n) as [Hi|Hi].
  - rewrite (list_lookup_fmap f'), lookup_seq_lt by done. cbn. destruct (decide (i = j)) as [->|Hne].
    + rewrite list_lookup_insert_eq by (by rewrite length_map, length_seq). by rewrite Hv.
    + rewrite list_lookup_insert_ne by done. rewrite list_lookup_fmap, lookup_seq_lt by done. cbn. by rewrite Hf.
  - rewrite !lookup_ge_None_2; rewrite ?length_insert, ?length_map, ?length_seq; done.
Qed.

Lemma map_seq_lookup {A} (f : nat -> A) n j : (j < n)%nat -> map f (seq 0 n) !! j = Some (f j).
Proof. intros Hj. by rewrite list_lookup_fmap, lookup_seq_lt. Qed.

(** A buffer that only overwrites keeps its counters exact. *)
Lemma overwrite_exact p d q l :
  counters_exact p -> (forall i, pd_data p !! i = None <-> d !! i = None) ->
  (forall i, pd_parity p !! i = None <-> q !! i = None) ->
  counters_exact (with_latched (with_buffers p d q) l).
Proof.
  intros (Hm & Hf & H) Hd Hq. split; [done|]. split; [done|]. cbn in *.
  destruct (pd_group_size p) as [g|].
  - destruct H as (Hg & H1 & H2 & H3). split; [done|]. unfold group_count in *. cbn [pinned_data_count with_latched with_buffers]. split_and!; [| |done].
    + rewrite H1. apply map_ext. intros j. apply count_same. intros i _. cbn. apply Hd.
    + rewrite H2. apply map_ext. intros j. apply count_same. intros i _. cbn.
      rewrite <- !not_eq_None_Some. by rewrite Hq.
  - destruct H as [Ho H]. split; [done|]. rewrite H. unfold observed_boundary. cbn. apply count_same.
    intros i _. rewrite <- !not_eq_None_Some. by rewrite Hd.
Qed.

(** The group of a data index. *)
Lemma group_of_index p g i :
  (1 <= g)%nat -> (i < pinned_data_count p)%nat ->
  (i / g < group_count p g)%nat
  /\ i ∈ seq (i / g * g) (Nat.min g (pinned_data_count p - i / g * g))
  /\ forall j, i ∈ seq (j * g) (Nat.min g (pinned_data_count p - j * g)) -> j = (i / g)%nat.
Proof.
  intros Hg Hi. pose proof (Nat.div_mod_eq i g). pose proof (Nat.mod_upper_bound i g ltac:(lia)).
  destruct (div_ceil_spec (pinned_data_count p) g ltac:(lia)). unfold group_count. split; [nia|].
  split; [apply elem_of_seq; nia|]. intros j Hj%elem_of_seq. apply (Nat.div_unique i g j (i - j * g)); nia.
Qed.

(** The tallies over [n] groups whose counts are [f] and [h], after group [j] moved to [f'] and [h']. *)
Lemma group_moves m t n (f h f' h' : nat -> nat) j :
  tallied m t -> missing_per_group t = map f (seq 0 n) -> surviving_per_group t = map h (seq 0 n) -> (j < n)%nat ->
  (forall i, i <> j -> f' i = f i) -> (forall i, i <> j -> h' i = h i) ->
  let out := tally m t j false in
  let moved := mkTallies (<[j := f' j]> (missing_per_group out)) (<[j := h' j]> (surviving_per_group out))
                 (hopeless_groups out) (recoverable_now_groups out) (awaiting_groups out) in
  let back := tally m moved j true in
  missing_per_group out !! j = Some (f j) /\ surviving_per_group out !! j = Some (h j) /\
  missing_per_group back = map f' (seq 0 n) /\ surviving_per_group back = map h' (seq 0 n) /\ tallied m back.
Proof.
  intros Ht Hm Hs Hj Hf Hh out moved back.
  assert (Lm : missing_per_group t !! j = Some (f j)) by (by rewrite Hm, map_seq_lookup).
  assert (Ls : surviving_per_group t !! j = Some (h j)) by (by rewrite Hs, map_seq_lookup).
  destruct (tally_spec m t j _ _ false Lm Ls) as (T1 & T2 & _). cbv zeta in T1, T2. fold out in T1, T2.
  assert (Em : <[j := f' j]> (missing_per_group out) = map f' (seq 0 n))
    by (rewrite T1, Hm; by apply map_seq_insert).
  assert (Es : <[j := h' j]> (surviving_per_group out) = map h' (seq 0 n))
    by (rewrite T2, Hs; by apply map_seq_insert).
  destruct (tally_spec m moved j (f' j) (h' j) true) as (U1 & U2 & _);
    [subst moved; cbn [missing_per_group]; by rewrite Em, map_seq_lookup
    |subst moved; cbn [surviving_per_group]; by rewrite Es, map_seq_lookup|].
  cbv zeta in U1, U2. fold back in U1, U2. split_and!; [by rewrite T1|by rewrite T2|rewrite U1; exact Em|rewrite U2; exact Es|].
  apply (tally_move m t j (f j, h j) (f' j, h' j)); [done| |cbn [fst]; by rewrite T1|cbn [snd]; by rewrite T2].
  apply lookup_zip_with_Some. eauto.
Qed.

Lemma note_data_exact p index b :
  counters_exact p -> pd_data p !! Z.of_nat index = None ->
  counters_exact (note_data_arrived (with_buffers p (<[Z.of_nat index := b]> (pd_data p)) (pd_parity p)) index).
Proof.
  intros (Hm & Hf & H) Hnone. set (p1 := with_buffers p _ _).
  assert (Hother : forall j, j <> index -> pd_data p1 !! Z.of_nat j = pd_data p !! Z.of_nat j)
    by (intros j Hj; cbn; rewrite lookup_insert_ne; [done|lia]).
  assert (Hhere : is_Some (pd_data p1 !! Z.of_nat index)) by (cbn; rewrite lookup_insert_eq; by eexists).
  unfold note_data_arrived. change (pd_group_size p1) with (pd_group_size p).
  destruct (pd_group_size p) as [g|] eqn:Eg.
  - destruct H as (Hg & H1 & H2 & H3). change (pinned_data_count p1) with (pinned_data_count p).
    destruct (Nat.leb_spec (pinned_data_count p) index) as [Hout|Hin].
    + split; [done|]. split; [done|]. cbn [p1 with_buffers pd_group_size]. rewrite Eg. split_and!; [done| |done|done].
      change (pd_tallies p1) with (pd_tallies p). rewrite H1. apply map_ext. intros j. apply count_same.
      intros i Hi%elem_of_seq. change (pinned_data_count p1) with (pinned_data_count p) in Hi.
      rewrite Hother; [done|lia].
    + destruct (group_of_index p g index Hg Hin) as (Hgr & Hmem & Honly).
      assert (Hmiss : missing_in p g (index / g) = S (missing_in p1 g (index / g))).
      { apply (count_move _ _ _ index); [apply NoDup_seq|done|done|by apply not_eq_None_Some|].
        intros i Hi. by rewrite Hother. }
      pose proof (group_moves (pd_m p) (pd_tallies p) (group_count p g) (missing_in p g) (surviving_in p)
        (missing_in p1 g) (surviving_in p) (index / g) H3 H1 H2 Hgr) as HM.
      destruct HM as (L1 & L2 & M1 & M2 & M3).
      { intros i Hi. apply count_same. intros x Hx. rewrite Hother; [done|]. intros ->. by apply Honly in Hx. }
      { done. }
      set (out := tally (pd_m p) (pd_tallies p) (index / g) false) in *.
      assert (Eo : with_missing out (alter (fun missing => missing - 1)%nat (index / g)%nat (missing_per_group out))
        = mkTallies (<[(index / g)%nat := missing_in p1 g (index / g)]> (missing_per_group out))
            (<[(index / g)%nat := surviving_in p (index / g)]> (surviving_per_group out))
            (hopeless_groups out) (recoverable_now_groups out) (awaiting_groups out)).
      { unfold with_missing. rewrite (alter_at _ _ _ _ L1), (list_insert_id _ _ _ L2).
        by replace (missing_in p g (index / g) - 1)%nat with (missing_in p1 g (index / g)) by lia. }
      split; [done|]. split; [done|]. cbn [with_tallies p1 with_buffers pd_group_size pd_tallies pd_m]. rewrite Eg.
      change (tally (pd_m p) (pd_tallies p) (index / g) false) with out. rewrite Eo. by split_and!.
  - destruct H as [Ho H]. change (observed_boundary p1) with (observed_boundary p).
    destruct (Nat.ltb_spec index (observed_boundary p)) as [Hin|Hout];
      (split; [done|]); (split; [done|]); cbn [with_boundary p1 with_buffers pd_group_size]; rewrite Eg; (split; [done|]).
    + change (S (data_present_below_boundary p) = length (filter (fun i => is_Some (pd_data p1 !! Z.of_nat i)) (seq 0 (observed_boundary p)))).
      rewrite H. symmetry. apply (count_move _ _ _ index); [apply NoDup_seq|apply elem_of_seq; lia|done| |].
      * rewrite Hnone. by intros [??].
      * intros i Hi. by rewrite Hother.
    + change (data_present_below_boundary p = length (filter (fun i => is_Some (pd_data p1 !! Z.of_nat i)) (seq 0 (observed_boundary p)))).
      rewrite H. apply count_same. intros i Hi%elem_of_seq. rewrite Hother; [done|lia].
Qed.

Lemma note_parity_exact p slot b :
  counters_exact p -> pd_parity p !! slot = None ->
  counters_exact (note_parity_arrived (with_buffers p (pd_data p) (<[slot := b]> (pd_parity p))) slot).
Proof.
  intros (Hm & Hf & H) Hnone. set (p1 := with_buffers p _ _).
  unfold note_parity_arrived. change (pd_group_size p1) with (pd_group_size p).
  destruct (pd_group_size p) as [g|] eqn:Eg; [|split; [done|]; split; [done|]; cbn; by rewrite Eg].
  destruct H as (Hg & H1 & H2 & H3). change (pd_m p1) with (pd_m p). change (pd_tallies p1) with (pd_tallies p).
  pose proof (Nat.div_mod_eq slot (pd_m p)) as Hdm. pose proof (Nat.mod_upper_bound slot (pd_m p) ltac:(lia)) as Hmu.
  assert (Hcell : forall j r, (r < pd_m p)%nat -> (j * pd_m p + r = slot)%nat -> j = (slot / pd_m p)%nat).
  { intros j r Hr E. apply (Nat.div_unique slot (pd_m p) j r); lia. }
  assert (Hoff : forall j, j <> (slot / pd_m p)%nat -> surviving_in p1 j = surviving_in p j).
  { intros j Hj. apply count_same. intros r Hr%elem_of_seq. cbn. rewrite lookup_insert_ne; [done|].
    intros E. by apply Hj, (Hcell j r); [lia|]. }
  rewrite H2, length_map, length_seq.
  destruct (Nat.leb_spec (group_count p g) (slot / pd_m p)) as [Hout|Hin].
  - split; [done|]. split; [done|]. cbn [p1 with_buffers pd_group_size]. rewrite Eg. split_and!; [done|done| |done].
    change (pd_tallies p1) with (pd_tallies p). rewrite H2. apply map_ext_in. intros j Hj%in_seq. symmetry. apply Hoff.
    change (group_count p1 g) with (group_count p g) in Hj. lia.
  - assert (Hsurv : surviving_in p1 (slot / pd_m p) = S (surviving_in p (slot / pd_m p))).
    { apply (count_move _ _ _ (slot mod pd_m p)); [apply NoDup_seq|apply elem_of_seq; cbn; lia| | |].
      - cbn. replace (slot / pd_m p * pd_m p + slot mod pd_m p)%nat with slot by lia. rewrite lookup_insert_eq. by eexists.
      - replace (slot / pd_m p * pd_m p + slot mod pd_m p)%nat with slot by lia. rewrite Hnone. by intros [??].
      - intros r Hr. cbn. rewrite lookup_insert_ne; [done|]. lia. }
    destruct (group_moves (pd_m p) (pd_tallies p) (group_count p g) (missing_in p g) (surviving_in p)
      (missing_in p g) (surviving_in p1) (slot / pd_m p) H3 H1 H2 Hin) as (L1 & L2 & M1 & M2 & M3); [done|done|].
    set (out := tally (pd_m p) (pd_tallies p) (slot / pd_m p) false) in *.
    assert (Eo : with_surviving out (alter S (slot / pd_m p)%nat (surviving_per_group out))
      = mkTallies (<[(slot / pd_m p)%nat := missing_in p g (slot / pd_m p)]> (missing_per_group out))
          (<[(slot / pd_m p)%nat := surviving_in p1 (slot / pd_m p)]> (surviving_per_group out))
          (hopeless_groups out) (recoverable_now_groups out) (awaiting_groups out)).
    { unfold with_surviving. by rewrite (alter_at _ _ _ _ L2), (list_insert_id _ _ _ L1), Hsurv. }
    split; [done|]. split; [done|]. cbn [with_tallies p1 with_buffers pd_group_size pd_tallies pd_m]. rewrite Eg.
    change (tally (pd_m p) (pd_tallies p) (slot / pd_m p) false) with out. rewrite Eo. by split_and!.
Qed.

(** The walk over an evicted range takes off exactly the data in it. *)
Lemma evict_count p present indices :
  (forall i, i ∈ indices -> Z.of_nat i <= 65535) ->
  (length (filter (fun i => is_Some (pd_data p !! Z.of_nat i)) indices) <= present)%nat ->
  foldl (fun present index => if data_at p index is Some _ then (present - 1)%nat else present) present indices
  = (present - length (filter (fun i => is_Some (pd_data p !! Z.of_nat i)) indices))%nat.
Proof.
  revert present. induction indices as [|i l IH]; intros present Hi Hle; cbn [foldl]; [cbn; lia|].
  rewrite filter_cons in *. assert (E : data_at p i = pd_data p !! Z.of_nat i).
  { unfold data_at. destruct (Z.leb_spec (Z.of_nat i) 65535); [done|]. specialize (Hi i ltac:(left)). lia. }
  rewrite E. specialize (IH) as IH'. destruct (pd_data p !! Z.of_nat i) as [x|].
  - rewrite decide_True in * by (by eexists). cbn [length] in *. rewrite IH; [lia| |lia]. intros; apply Hi; by right.
  - rewrite decide_False in * by (by intros [??]). apply IH; [|done]. intros; apply Hi; by right.
Qed.

Lemma note_boundary_exact p parity_index :
  counters_exact p -> (parity_index < count_of (pd_frag_count p))%nat ->
  counters_exact (note_observed_parity_boundary p parity_index).
Proof.
  intros (Hm & Hf & H) Hlt. split; [done|]. split; [done|]. unfold note_observed_parity_boundary. cbn [with_boundary pd_group_size].
  destruct (pd_group_size p) as [g|]; [done|]. destruct H as [Ho H].
  set (new := Nat.min (observed_boundary p) parity_index).
  assert (Enew : match observed_data_count p with Some seen => Nat.min seen parity_index | None => parity_index end = new).
  { subst new. unfold observed_boundary. destruct (observed_data_count p); [done|lia]. }
  rewrite Enew. assert (Hnew : (new <= observed_boundary p)%nat) by lia. 
  assert (Eb : forall n, observed_boundary (with_boundary p (Some new) n) = new) by done. rewrite Eb.
  cbn [with_boundary pd_data data_present_below_boundary pd_frag_count]. split; [lia|].
  assert (Es : seq 0 (observed_boundary p) = seq 0 new ++ seq new (observed_boundary p - new)).
  { rewrite <- seq_app'. f_equal. lia. }
  rewrite Es, filter_app, length_app in H. rewrite evict_count; [lia| |lia].
  intros i Hi%elem_of_seq. unfold count_of in *. lia.
Qed.

(** Buffering any fragment within the pin keeps the counters exact. *)
Lemma buffer_exact p f :
  counters_exact p -> 0 <= frag_index (header f) < pd_frag_count p -> counters_exact (buffer_fragment p f).
Proof.
  intros Hex Hi. unfold buffer_fragment. set (l := latch _ _).
  assert (Hl : counters_exact (with_latched p l)) by (apply (overwrite_exact p (pd_data p) (pd_parity p) l); done).
  destruct (Flags.contains _ _).
  - set (p1 := note_observed_parity_boundary (with_latched p l) (count_of (frag_index (header f)))).
    assert (H1 : counters_exact p1).
    { apply note_boundary_exact; [done|]. cbn. unfold count_of. lia. }
    set (slot := (_ - _)%nat). case_bool_decide as Hslot.
    + by apply note_parity_exact.
    + apply (overwrite_exact p1 (pd_data p1) (<[slot := payload f]> (pd_parity p1)) (pd_latched p1)); [done|done|]. intros i.
      destruct (decide (i = slot)) as [->|Hne]; [|by rewrite lookup_insert_ne].
      rewrite lookup_insert_eq. split; [tauto|done].
  - case_bool_decide as Hnone.
    + set (index := count_of (frag_index (header f))).
      assert (E : frag_index (header f) = Z.of_nat index) by (unfold index, count_of; lia).
      rewrite E in *. by apply note_data_exact.
    + apply (overwrite_exact (with_latched p l) (<[frag_index (header f) := payload f]> (pd_data p)) (pd_parity p) l); [done| |done]. intros i.
      destruct (decide (i = frag_index (header f))) as [->|Hne]; [|by rewrite lookup_insert_ne].
      rewrite lookup_insert_eq. split; [tauto|done].
Qed.

(** ** What the constant-time decision decides *)

Definition completable (p : Pending) : Prop :=
  match pd_group_size p with
  | Some g => pinned_data_count p = 0%nat /\ is_Some (pd_data p !! 0)
      \/ (0 < pinned_data_count p)%nat
         /\ forall j, (j < group_count p g)%nat -> (missing_in p g j <= surviving_in p j)%nat
  | None => observed_boundary p = 0%nat /\ is_Some (pd_data p !! 0)
      \/ (0 < observed_boundary p)%nat
         /\ forall i, (i < observed_boundary p)%nat -> is_Some (pd_data p !! Z.of_nat i)
  end.

Lemma surviving_in_le p j : (surviving_in p j <= pd_m p)%nat.
Proof. unfold surviving_in. etransitivity; [apply length_filter|]. by rewrite length_seq. Qed.

Lemma decision_exact p : counters_exact p -> can_eventually_complete p = true <-> completable p.
Proof.
  intros (Hm & Hf & H). unfold can_eventually_complete, resolved_data_count, completable.
  destruct (pd_group_size p) as [g|].
  - destruct H as (Hg & H1 & H2 & H3). destruct (Nat.eqb_spec (pinned_data_count p) 0) as [H0|H0].
    { rewrite bool_decide_eq_true. split; [tauto|]. intros [?|?]; [tauto|lia]. }
    destruct H3 as (_ & E1 & _ & E3). rewrite E1, E3, H1, H2, !in_bucket_map, andb_true_iff, !Nat.eqb_eq.
    split.
    + intros [Z1 Z3]. right. split; [lia|]. intros j Hj.
      apply length_zero_iff_nil in Z1, Z3. destruct (Nat.le_gt_cases (missing_in p g j) (surviving_in p j)) as [|Hgt]; [done|exfalso].
      assert (Hin : j ∈ seq 0 (group_count p g)) by (apply elem_of_seq; lia).
      destruct (Nat.lt_ge_cases (pd_m p) (missing_in p g j)) as [Hb|Hb].
      * apply (elem_of_nil j). rewrite <- Z1. apply list_elem_of_filter. split; [|done]. unfold bucket_of. cbn [fst snd].
        destruct (Nat.ltb_spec (missing_in p g j) 1); [lia|]. by rewrite (proj2 (Nat.ltb_lt _ _) Hb).
      * apply (elem_of_nil j). rewrite <- Z3. apply list_elem_of_filter. split; [|done]. unfold bucket_of. cbn [fst snd].
        destruct (Nat.ltb_spec (missing_in p g j) 1); [lia|]. rewrite (proj2 (Nat.ltb_ge _ _) Hb).
        by rewrite (proj2 (Nat.leb_gt _ _) Hgt).
    + intros [[]|[_ Hall]]; [done|]. rewrite !filter_none; [done| |];
        intros j Hj%elem_of_seq; specialize (Hall j ltac:(lia)); pose proof (surviving_in_le p j);
        unfold bucket_of; cbn [fst snd]; destruct (_ <? 1)%nat; try done;
        rewrite (proj2 (Nat.ltb_ge _ _)) by lia; by rewrite (proj2 (Nat.leb_le _ _)).
  - destruct H as [Ho H]. destruct (Nat.eqb_spec (observed_boundary p) 0) as [H0|H0].
    { rewrite bool_decide_eq_true. split; [tauto|]. intros [?|?]; [tauto|lia]. }
    rewrite Nat.eqb_eq, H. split.
    + intros E. right. split; [lia|]. intros i Hi.
      apply (filter_full (fun i => is_Some (pd_data p !! Z.of_nat i)) (seq 0 (observed_boundary p)));
        [by rewrite length_seq|apply elem_of_seq; lia].
    + intros [[]|[_ Hall]]; [done|]. rewrite filter_all; [apply length_seq|]. intros i Hi%elem_of_seq. apply Hall. lia.
Qed.

(** Lists of optional payloads. *)
Lemma no_hole {A} (l : list A) : existsb (fun payload => if payload is Some _ then false else true) (map Some l) = false.
Proof. induction l; [done|cbn; done]. Qed.

Lemma omap_id_somes {A} (l : list A) : omap id (map Some l) = l.
Proof. induction l; [done|cbn; by f_equal]. Qed.

Lemma list_somes {A} (l : list (option A)) (orig : list A) :
  length l = length orig -> (forall i, (i < length orig)%nat -> l !! i = Some (orig !! i)) -> l = map Some orig.
Proof.
  intros Hl H. apply list_eq. intros i. rewrite list_lookup_fmap. destruct (Nat.lt_ge_cases i (length orig)) as [Hi|Hi].
  - rewrite H by done. by destruct (lookup_lt_is_Some_2 orig i Hi) as [y ->].
  - rewrite !lookup_ge_None_2 by lia. done.
Qed.

Lemma hole_free {A} (l : list (option A)) i o :
  existsb (fun payload => if payload is Some _ then false else true) l = false -> l !! i = Some o -> o <> None.
Proof.
  intros H Hi ->. apply list_elem_of_lookup_2, list_elem_of_In in Hi.
  assert (true = false); [|done]. rewrite <- H. symmetry. apply existsb_exists. by exists None.
Qed.

(** ** A frame from an honest sender *)

(** What a sender did for one frame. *)
Record Sent : Type := mkSent { sn_packetizer : VideoPacketizer; sn_frame : list byte; sn_options : PacketizeOptions }.

Definition sn_data (x : Sent) : list (list byte) := payloads_of (sn_frame x).
Definition sn_parity (x : Sent) : list (list byte) := frame_parity (sn_packetizer x) (sn_frame x) (sn_options x).
Definition sn_total (x : Sent) : nat := fragment_total (sn_packetizer x) (sn_frame x) (sn_options x).
Definition sn_latched (x : Sent) : Latched :=
  mkLatched (opt_keyframe (sn_options x)) (opt_crisp (sn_options x)) (opt_is_ltr (sn_options x)) (opt_acked_anchored (sn_options x)).

(** The sender is configured as the code asserts, within the fragment bound, and the receiver has its codec
    or none. *)
Definition sender_ok (rfec : option ReedSolomonFec) (x : Sent) : Prop :=
  packetizer_ok (sn_packetizer x) /\ options_ok (sn_packetizer x) (sn_options x)
  /\ (sn_total x <= MAX_FRAGMENTS_PER_FRAME)%nat /\ (rfec = pk_fec (sn_packetizer x) \/ rfec = None).

Section Honest.
Context (rfec : option ReedSolomonFec) (x : Sent).
Hypothesis Hok : sender_ok rfec x.

Let pk := sn_packetizer x.
Let tier := opt_fec_tier (sn_options x).

(** A buffer that only ever saw fragments of the frame. *)
Definition buffered (p : Pending) : Prop :=
  pd_frag_count p = Z.of_nat (sn_total x)
  /\ (forall k b, pd_data p !! k = Some b -> exists i : nat, k = Z.of_nat i /\ sn_data x !! i = Some b)
  /\ (pd_latched p = mkLatched false false false false \/ pd_latched p = sn_latched x)
  /\ match pd_group_size p with
     | Some g => exists scheme, rfec = Some scheme /\ pk_fec pk = Some scheme
         /\ AdaptiveFec.group_size tier (Fec.group_size scheme) = Some g
         /\ pd_m p = Nat.max (AdaptiveFec.parity_count tier (Fec.parity_count scheme)) 1
         /\ pinned_data_count p = length (sn_data x)
         /\ forall slot b, pd_parity p !! slot = Some b -> sn_parity x !! slot = Some b
     | None => (length (sn_data x) <= observed_boundary p)%nat
     end.

Lemma scheme_facts scheme g :
  pk_fec pk = Some scheme -> AdaptiveFec.group_size tier (Fec.group_size scheme) = Some g ->
  let m := Nat.max (AdaptiveFec.parity_count tier (Fec.parity_count scheme)) 1 in
  usable scheme m /\ (1 <= g)%nat /\ effective_group_size scheme g m = g
  /\ sn_parity x = parity_with_m scheme (sn_data x) g (AdaptiveFec.parity_count tier (Fec.parity_count scheme))
  /\ length (sn_parity x) = (m * div_ceil (length (sn_data x)) g)%nat.
Proof.
  destruct Hok as ((Hs & Hid & Hsch) & (Ht & _ & Hfit) & _ & _). intros Hf Hg m.
  destruct (Hsch scheme Hf) as (Hk & Hm1 & Hkm). pose proof (group_size_pos tier (Fec.group_size scheme) g ltac:(lia) Hg) as Hg1.
  pose proof (parity_usable scheme tier Hk Hm1 Hkm) as Hu. fold m in Hu.
  assert (He : effective_group_size scheme g m = g).
  { unfold effective_group_size. rewrite (proj2 (Nat.ltb_ge g 1)) by lia.
    destruct (Hfit scheme Hf) as [E|Hle]; [subst m; unfold tier; by rewrite E|].
    specialize (Hle g Hg). destruct (_ =? 1)%nat; [done|]. destruct (Nat.ltb_spec g (Fec.group_size scheme)); lia. }
  assert (Ep : sn_parity x = parity_with_m scheme (sn_data x) g (AdaptiveFec.parity_count tier (Fec.parity_count scheme))).
  { unfold sn_parity, frame_parity, parity_payloads. fold pk. rewrite Hf. fold tier. by rewrite Hg. }
  split_and!; try done. rewrite Ep. unfold parity_with_m. fold m. rewrite length_parity_m, He by done. done.
Qed.

Lemma total_small : Z.of_nat (sn_total x) <= 8192.
Proof. destruct Hok as (_ & _ & H & _). assert (E : MAX_FRAGMENTS_PER_FRAME = (8 * 1024)%nat) by reflexivity. rewrite E in H. lia. Qed.

Lemma tier_on_wire flags parity : flags_say (sn_options x) parity flags -> Flags.fec_tier flags = tier.
Proof.
  intros (_ & _ & _ & _ & _ & _ & ->). destruct Hok as (_ & (Ht & _) & _). unfold u_range in Ht.
  change 7 with (Z.ones 3). rewrite Z.land_ones by lia. by apply Z.mod_small.
Qed.

(** The entry a first fragment makes. *)
Lemma new_entry_buffered :
  buffered (pending_new (Z.of_nat (sn_total x))
    (match rfec with Some scheme => AdaptiveFec.group_size tier (Fec.group_size scheme) | None => None end)
    (AdaptiveFec.parity_count tier (match rfec with Some scheme => Fec.parity_count scheme | None => 1%nat end))).
Proof.
  pose proof Hok as (_ & _ & _ & Hfec). pose proof (payloads_nonempty (sn_frame x)) as Hne. fold (sn_data x) in Hne.
  assert (Hcount : count_of (Z.of_nat (sn_total x)) = (length (sn_data x) + length (sn_parity x))%nat)
    by (unfold count_of; rewrite Nat2Z.id; done).
  assert (Hopen : forall m, buffered (pending_new (Z.of_nat (sn_total x)) None m)).
  { intros m. unfold buffered. cbn. split_and!; [done|done|by left|]. change (length (sn_data x) <= count_of (Z.of_nat (sn_total x)))%nat. rewrite Hcount. lia. }
  assert (Hr : rfec = None \/ exists scheme, rfec = Some scheme) by (case rfec; eauto).
  destruct Hr as [Hr|[scheme Hr]]; rewrite Hr; [apply Hopen|].
  destruct (AdaptiveFec.group_size tier (Fec.group_size scheme)) as [g|] eqn:Hg; [|apply Hopen].
  destruct Hfec as [Hfec|]; [|congruence]. rewrite Hr in Hfec. symmetry in Hfec. fold pk in Hfec.
  destruct (scheme_facts scheme g Hfec Hg) as (Hu & Hg1 & He & _ & Hlen). cbv zeta in *.
  unfold pending_new. rewrite (proj2 (Nat.leb_le _ _) Hg1). rewrite Hcount, Hlen, inverted_data_count_finds by lia.
  unfold buffered. cbn. split_and!; [done|done|by left|]. by exists scheme.
Qed.

Lemma latch_say flags parity l :
  flags_say (sn_options x) parity flags -> l = mkLatched false false false false \/ l = sn_latched x ->
  latch l flags = sn_latched x.
Proof.
  intros (_ & H1 & H2 & H3 & H4 & _) Hl. unfold latch, sn_latched. rewrite H1, H2, H3, H4.
  destruct Hl as [->| ->]; cbn; rewrite ?orb_diag; done.
Qed.

Lemma note_boundary_fields p n :
  let p' := note_observed_parity_boundary p n in
  pd_frag_count p' = pd_frag_count p /\ pd_data p' = pd_data p /\ pd_parity p' = pd_parity p /\ pd_latched p' = pd_latched p
  /\ pd_group_size p' = pd_group_size p /\ pd_m p' = pd_m p /\ pinned_data_count p' = pinned_data_count p
  /\ (Nat.min (observed_boundary p) n <= observed_boundary p')%nat.
Proof.
  intros p'. split_and!; try done. subst p'. unfold note_observed_parity_boundary, observed_boundary.
  cbn [with_boundary observed_data_count]. destruct (observed_data_count p); lia.
Qed.

Lemma noted_fields p p' :
  (exists t n, p' = with_tallies (with_boundary p (observed_data_count p) n) t) -> buffered p -> buffered p'.
Proof. by intros (t & n & ->). Qed.

Lemma with_same p : p = with_tallies (with_boundary p (observed_data_count p) (data_present_below_boundary p)) (pd_tallies p).
Proof. by destruct p. Qed.

Lemma note_data_fields p i : exists t n, note_data_arrived p i = with_tallies (with_boundary p (observed_data_count p) n) t.
Proof.
  pose proof (with_same p). unfold note_data_arrived. repeat case_match; eauto.
Qed.

Lemma note_parity_fields p i : exists t n, note_parity_arrived p i = with_tallies (with_boundary p (observed_data_count p) n) t.
Proof.
  pose proof (with_same p). unfold note_parity_arrived. repeat case_match; eauto.
Qed.

(** Buffering another of its fragments. *)
Lemma buffer_buffered p f :
  buffered p -> carries pk (sn_frame x) (sn_options x) f ->
  buffered (buffer_fragment p f) /\ pd_latched (buffer_fragment p f) = sn_latched x.
Proof.
  intros (B1 & B2 & B3 & B4) (_ & _ & _ & _ & _ & i & Hi & Hcase).
  assert (Hf : exists par, flags_say (sn_options x) par (flags (header f))
    /\ (if par then exists slot, i = (length (sn_data x) + slot)%nat /\ sn_parity x !! slot = Some (payload f)
        else sn_data x !! i = Some (payload f))).
  { destruct Hcase as [[H1 H2]|(slot & H1 & H2 & H3)]; [by exists false|exists true; split; [done|by exists slot]]. }
  destruct Hf as (par & Hsay & Hcarry). unfold buffer_fragment.
  rewrite (latch_say _ par _ Hsay B3). pose proof Hsay as (_ & _ & _ & _ & _ & Hpar & _). rewrite Hpar, Hi.
  set (p0 := with_latched p (sn_latched x)).
  assert (Hi' : count_of (Z.of_nat i) = i) by (unfold count_of; lia). rewrite Hi'.
  destruct par.
  - destruct Hcarry as (slot & -> & Hslot).
    destruct (note_boundary_fields p0 (length (sn_data x) + slot)) as (F1 & F2 & F3 & F4 & F5 & F6 & F7 & F8).
    set (p1 := note_observed_parity_boundary p0 _) in *. set (at_slot := (_ - _)%nat).
    set (p2 := with_buffers p1 (pd_data p1) (<[at_slot := payload f]> (pd_parity p1))).
    assert (Hb : buffered p2).
    { unfold buffered. subst p2. cbn [with_buffers pd_frag_count pd_data pd_parity pd_latched pd_group_size pd_m pinned_data_count].
      rewrite F1, F2, F3, F4, F5, F6, F7. subst p0. cbn [with_latched pd_frag_count pd_data pd_parity pd_latched pd_group_size pd_m pinned_data_count].
      split_and!; [done|done|by right|]. destruct (pd_group_size p) as [g|] eqn:Eg.
      - destruct B4 as (scheme & G1 & G2 & G3 & G4 & G5 & G6). exists scheme. split_and!; try done.
        intros s b Hs. destruct (decide (s = at_slot)) as [->|Hne]; [|rewrite lookup_insert_ne in Hs by done; by apply G6].
        rewrite lookup_insert_eq in Hs. injection Hs as <-. rewrite <- Hslot. f_equal. subst at_slot.
        cbn [with_latched pd_group_size pinned_data_count]. rewrite Eg, G5. lia.
      - change (length (sn_data x) <= observed_boundary p1)%nat.
        pose proof (Nat.min_glb _ _ (length (sn_data x)) B4 (Nat.le_add_r _ slot)). etransitivity; [eassumption|exact F8]. }
    case_bool_decide; [|done]. split.
    + eapply noted_fields; [apply note_parity_fields|done].
    + destruct (note_parity_fields p2 at_slot) as (t & n & ->). exact F4.
  - set (p2 := with_buffers p0 (<[Z.of_nat i := payload f]> (pd_data p0)) (pd_parity p0)).
    assert (Hb : buffered p2).
    { unfold buffered. subst p2 p0. cbn. split_and!; [done| |by right|done].
      intros k b Hk. destruct (decide (k = Z.of_nat i)) as [->|Hne]; [|rewrite lookup_insert_ne in Hk by done; by apply B2].
      rewrite lookup_insert_eq in Hk. injection Hk as <-. by exists i. }
    case_bool_decide; [|done]. split.
    + eapply noted_fields; [apply note_data_fields|done].
    + by destruct (note_data_fields p2 i) as (t & n & ->).
Qed.
(** Assembly, when nothing is missing or parity covers what is. *)
Lemma assemble_whole s p :
  resolved_data_count p = length (sn_data x) -> (0 < length (sn_data x))%nat ->
  map (data_at p) (seq 0 (length (sn_data x))) = map Some (sn_data x) -> assemble s p = Some (sn_frame x, false).
Proof.
  intros Hn Hpos Hall. unfold assemble. rewrite Hn, Hall, no_hole, omap_id_somes. cbn [negb].
  destruct (Nat.eqb_spec (length (sn_data x)) 0); [lia|]. unfold sn_data. by rewrite concat_payloads.
Qed.

Lemma small_index i : (i < sn_total x)%nat -> (Z.of_nat i <=? 65535) = true.
Proof. pose proof total_small. intros Hi. apply Z.leb_le. lia. Qed.

(** With the codec pinned: what recovery is given, and what it makes of it. *)
Lemma recovers_pinned scheme g p :
  counters_exact p -> buffered p -> pd_group_size p = Some g -> rfec = Some scheme -> completable p ->
  let slots := (sn_total x - length (sn_data x))%nat in
  let present := map (data_at p) (seq 0 (length (sn_data x))) in
  recover_with_m scheme present (map (fun slot => pd_parity p !! slot) (seq 0 slots)) g (pd_m p) = map Some (sn_data x).
Proof.
  intros Hex (B1 & B2 & _ & B4) Eg Hr Hc slots present. rewrite Eg in B4.
  destruct B4 as (scheme' & G1 & G2 & G3 & G4 & G5 & G6). assert (scheme' = scheme) as -> by congruence.
  destruct (scheme_facts scheme g G2 G3) as (Hu & Hg1 & He & Ep & Hlen). cbv zeta in *. rewrite <- G4 in *.
  pose proof (payloads_nonempty (sn_frame x)) as Hne. fold (sn_data x) in Hne.
  assert (Eslots : slots = (pd_m p * div_ceil (length (sn_data x)) g)%nat)
    by (unfold slots, sn_total, fragment_total; fold (sn_data x) (sn_parity x); lia).
  assert (Hm1 : Nat.max (pd_m p) 1 = pd_m p) by lia.
  assert (Hpres : forall i, (i < length (sn_data x))%nat -> present !! i = Some (pd_data p !! Z.of_nat i)).
  { intros i Hi. unfold present. rewrite map_seq_lookup by done. unfold data_at. rewrite small_index; [done|].
    unfold sn_total, fragment_total. fold (sn_data x). lia. }
  assert (Hau : authentic (sn_data x) present).
  { split; [unfold present; by rewrite length_map, length_seq|]. intros i d Hi.
    assert (Hlt : (i < length (sn_data x))%nat) by (apply lookup_lt_Some in Hi; unfold present in Hi; by rewrite length_map, length_seq in Hi).
    rewrite Hpres in Hi by done. injection Hi as Hi. destruct (B2 _ _ Hi) as (i' & E & Hd). by assert (i' = i) as -> by lia. }
  destruct (recovery_raw scheme (sn_data x) present (map (fun slot => pd_parity p !! slot) (seq 0 slots)) g (pd_m p))
    as ((Hl & _) & _ & H3); rewrite ?Hm1; [done| |done| |].
  - intros d Hd. apply payloads_bounded in Hd. rewrite max_payload in Hd. unfold fits. lia.
  - intros i b Hi. unfold parity_with_m. rewrite Hm1, G4. change (parity_with_m scheme (sn_data x) g (parity_count tier (Fec.parity_count scheme)) !! i = Some b).
    rewrite <- Ep. apply G6. unfold shard_at in Hi. destruct (map _ _ !! i) as [o|] eqn:Ei; [|done].
    apply list_lookup_fmap_Some in Ei as (j & -> & Hj). apply lookup_seq in Hj as [-> Hj]. cbn in Hi. by destruct (pd_parity p !! i); [injection Hi as ->|].
  - rewrite Hm1, He in H3. apply list_somes; [done|]. intros i Hi. apply (H3 (i / g)%nat).
    + unfold completable in Hc. rewrite Eg, G5 in Hc. destruct Hc as [[? _]|[_ Hc]]; [lia|].
      destruct (group_of_index p g i Hg1 ltac:(lia)) as (Hgr & _). unfold group_count in *. rewrite G5 in *.
      specialize (Hc _ Hgr). unfold in_budget. etransitivity; [|etransitivity; [exact Hc|]]; apply Nat.eq_le_incl.
      * unfold missing_in, holes_of, group_end. rewrite G5.
        replace (_ - _)%nat with (Nat.min g (length (sn_data x) - i / g * g)) by lia.
        apply count_same. intros j Hj%elem_of_seq. rewrite Hpres by lia. split; congruence.
      * unfold surviving_in, surviving. apply count_same. intros r Hr'%elem_of_seq. unfold shard_at.
        rewrite map_seq_lookup by (rewrite Eslots; nia). by destruct (pd_parity p !! _).
    + pose proof (Nat.div_mod_eq i g). pose proof (Nat.mod_upper_bound i g ltac:(lia)). unfold group_end. lia.
Qed.

Lemma assemble_honest s p :
  rs_fec s = rfec -> counters_exact p -> buffered p -> completable p -> exists via_fec, assemble s p = Some (sn_frame x, via_fec).
Proof.
  intros Hs Hex Hb Hc. pose proof Hb as (B1 & B2 & _ & B4).
  pose proof (payloads_nonempty (sn_frame x)) as Hne. fold (sn_data x) in Hne.
  assert (Hin : forall i, is_Some (pd_data p !! Z.of_nat i) -> (i < length (sn_data x))%nat /\ pd_data p !! Z.of_nat i = sn_data x !! i).
  { intros i [b Hi]. destruct (B2 _ _ Hi) as (i' & E & Hd). assert (i' = i) as -> by lia.
    rewrite Hi, Hd. split; [by eapply lookup_lt_Some|done]. }
  destruct (pd_group_size p) as [g|] eqn:Eg.
  - destruct B4 as (scheme & G1 & G2 & G3 & G4 & G5 & G6).
    pose proof (recovers_pinned scheme g p Hex Hb Eg G1 Hc) as Hrec. cbv zeta in Hrec.
    unfold assemble, resolved_data_count. rewrite Eg, G5, Hs, G1, B1. unfold count_of. rewrite Nat2Z.id.
    destruct (Nat.eqb_spec (length (sn_data x)) 0); [lia|].
    destruct (existsb _ _) eqn:Ehole; cbn [negb].
    + rewrite Hrec, no_hole, omap_id_somes. exists true. unfold sn_data. by rewrite concat_payloads.
    + exists false. do 2 f_equal. rewrite <- (concat_payloads (sn_frame x)). fold (sn_data x). f_equal.
      rewrite <- (omap_id_somes (sn_data x)) at 2. f_equal. apply list_somes; [by rewrite length_map, length_seq|].
      intros i Hi. rewrite map_seq_lookup by done. f_equal.
      assert (Hi' : data_at p i <> None) by (by eapply hole_free; [exact Ehole|apply map_seq_lookup]).
      unfold data_at in *. destruct (_ <=? 65535); [|done]. by apply Hin, not_eq_None_Some.
  - assert (Hall : observed_boundary p = length (sn_data x) /\ forall i, (i < length (sn_data x))%nat -> pd_data p !! Z.of_nat i = sn_data x !! i).
    { unfold completable in Hc. rewrite Eg in Hc. destruct Hc as [[? _]|[_ Hc]]; [lia|].
      assert (Hle : ~ (length (sn_data x) < observed_boundary p)%nat).
      { intros Hlt. destruct (Hin _ (Hc _ Hlt)). lia. }
      split; [lia|]. intros i Hi. apply Hin, Hc. lia. }
    destruct Hall as [Hbd Hall]. exists false. apply assemble_whole; [unfold resolved_data_count; by rewrite Eg|done|].
    apply list_somes; [by rewrite length_map, length_seq|]. intros i Hi. rewrite map_seq_lookup by done. f_equal.
    unfold data_at. rewrite small_index; [by apply Hall|]. unfold sn_total, fragment_total. fold (sn_data x). lia.
Qed.
End Honest.
