(* ===== verification/Reception.v ===== *)
(** * Reception: what the receive path promises

    The theorems about [slopdesk-video/src/reassembler.rs] as a whole, over the model of [Reassembler]:
    how one [ingest] splits into cases, what the sweep does, the delivery of the frames an honest sender
    sent over a network that loses, repeats and reorders, the single verdict each frame gets, and the
    memory the client holds. *)

From stdpp Require Import gmap sorting.
From S2P Require Import Prelude BTree Fec Fragment AdaptiveFec Packetizer Reassembler.

(** ** Sorting and walking keep the elements *)

Lemma insert_by_perm {A} (cmp : A -> A -> comparison) x l : insert_by cmp x l ≡ₚ x :: l.
Proof.
  induction l as [|y l IH]; [done|]. cbn [insert_by]. destruct (cmp x y); try done.
  rewrite IH. apply Permutation_swap.
Qed.

Lemma sort_by_perm {A} (cmp : A -> A -> comparison) l : sort_by cmp l ≡ₚ l.
Proof.
  induction l as [|y l IH]; [done|]. change (sort_by cmp (y :: l)) with (insert_by cmp y (sort_by cmp l)).
  by rewrite insert_by_perm, IH.
Qed.


(** ** The frontier *)

(** Only the frontier fields differ. *)
Lemma advance_frontier_fields s id :
  exists seen candidates rejected, (advance_frontier s id).2 = with_frontier s seen candidates rejected.
Proof.
  unfold advance_frontier, resync_on_consistent_jump. destruct (highest_seen_frame_id s) as [seen|]; [|by eexists _, _, _].
  destruct (MAX_FRONTIER_JUMP <? _); [destruct (RESYNC_STREAK <=? _)%nat|];
    cbn [negb]; try destruct (0 <? _); by eexists _, _, _.
Qed.

(** What a fragment that may proceed leaves as the frontier. *)
Lemma advance_frontier_seen s id :
  (advance_frontier s id).1 = true ->
  highest_seen_frame_id (advance_frontier s id).2
  = match highest_seen_frame_id s with
    | None => Some id
    | Some seen => if 0 <? distance_wrapped id seen then Some id else Some seen
    end.
Proof.
  unfold advance_frontier, resync_on_consistent_jump. destruct (highest_seen_frame_id s) as [seen|] eqn:E; [|done].
  destruct (MAX_FRONTIER_JUMP <? _); [destruct (RESYNC_STREAK <=? _)%nat|];
    cbn [negb]; try done; destruct (0 <? _); cbn; done.
Qed.

(** A refused jump leaves the frontier where it was. *)
Lemma advance_frontier_refused s id :
  (advance_frontier s id).1 = false -> highest_seen_frame_id (advance_frontier s id).2 = highest_seen_frame_id s.
Proof.
  unfold advance_frontier, resync_on_consistent_jump. destruct (highest_seen_frame_id s) as [seen|] eqn:E; [|done].
  destruct (MAX_FRONTIER_JUMP <? _); [destruct (RESYNC_STREAK <=? _)%nat|];
    cbn [negb]; try done; destruct (0 <? _); cbn; done.
Qed.

(** ** The cases of one fragment *)

(** The guards in front of the frontier. *)
Definition refused (s : FrameReassembler) (f : FrameFragment) : bool :=
  let id := frame_id (header f) in
  implausible f || bool_decide (id ∈ retired s)
  || match highest_retired_frame_id s with
     | Some high => (distance_wrapped id high <=? 0) && bool_decide (rs_pending s !! id = None)
     | None => false end.

(** The state after buffering, before completion is tried. *)
Definition buffered_state (s : FrameReassembler) (f : FrameFragment) : FrameReassembler :=
  let s1 := (advance_frontier s (frame_id (header f))).2 in
  with_pending s1 (<[frame_id (header f) := buffer_fragment (entry_for s f) f]> (rs_pending s)).

(** The answer, once the sweep has run. *)
Definition answer (result : ReassemblyResult) (s : FrameReassembler) (id : Z) : ReassemblyResult * FrameReassembler :=
  match result with
  | Completed _ => (result, s)
  | _ =>
    if bool_decide (rs_pending s !! id = None) && bool_decide (id ∈ dropped_queue s)
    then (Dropped id, with_dropped s (filter (fun queued => queued <> id) (dropped_queue s)))
    else (Incomplete, s)
  end.

Lemma with_frontier_same s :
  s = with_frontier s (highest_seen_frame_id s) (frontier_jump_candidates s) (frontier_jump_rejected_count s).
Proof. by destruct s. Qed.

Lemma entry_for_frontier s seen c r f : entry_for (with_frontier s seen c r) f = entry_for s f.
Proof. done. Qed.

Lemma entry_for_fresh s f :
  rs_pending s !! frame_id (header f) = None -> pd_frag_count (entry_for s f) = frag_count (header f).
Proof. intros H. unfold entry_for. rewrite H. unfold pending_new. by repeat case_match. Qed.

(** Either the fragment is stale and only the frontier can have moved, or it is buffered, completion
    is tried and the sweep runs. *)
Lemma ingest_cases s f :
  let id := frame_id (header f) in
  (exists seen candidates rejected, ingest s f = (Stale, with_frontier s seen candidates rejected)
     /\ (seen = highest_seen_frame_id s \/ frag_count (header f) <> pd_frag_count (entry_for s f)))
  \/ refused s f = false /\ frag_count (header f) = pd_frag_count (entry_for s f)
     /\ (advance_frontier s id).1 = true
     /\ ingest s f = let '(result, s3) := try_complete (buffered_state s f) id in
                     answer result (sweep_hopeless_frames s3) id.
Proof.
  intros id. unfold ingest. fold id. unfold refused. fold id.
  assert (Hsame : exists seen candidates rejected, (Stale, s) = (Stale, with_frontier s seen candidates rejected)
      /\ (seen = highest_seen_frame_id s \/ frag_count (header f) <> pd_frag_count (entry_for s f)))
    by (eexists _, _, _; split; [f_equal; apply with_frontier_same|by left]).
  destruct (implausible f); [left; exact Hsame|]. cbn [orb].
  destruct (bool_decide (id ∈ retired s)); [left; exact Hsame|]. cbn [orb].
  destruct (match highest_retired_frame_id s with Some _ => _ | None => _ end);
    [left; exact Hsame|].
  destruct (advance_frontier_fields s id) as (seen & c & r & Es). pose proof (eq_refl (buffered_state s f)) as Eb.
  unfold buffered_state in Eb at 2. fold id in Eb.
  destruct (advance_frontier s id) as [proceed s1] eqn:Ea. cbn [fst snd] in *. subst s1.
  destruct proceed; cbn [negb].
  2: { left. exists seen, c, r. split; [done|]. left. pose proof (advance_frontier_refused s id) as Hr. rewrite Ea in Hr. by apply Hr. }
  rewrite entry_for_frontier. destruct (Z.eqb_spec (frag_count (header f)) (pd_frag_count (entry_for s f))) as [Hc|Hc]; cbn [negb].
  - right. split_and!; [done|done|done|]. rewrite Eb. cbn [with_pending with_frontier rs_pending].
    rewrite insert_insert_eq. done.
  - left. exists seen, c, r. split; [|by right]. destruct (rs_pending s !! id) as [p|] eqn:Ep.
    + unfold entry_for in *. fold id in Hc |- *. rewrite Ep. cbn [with_frontier rs_pending]. rewrite insert_id by done. done.
    + by rewrite entry_for_fresh in Hc.
Qed.

(** ** The sweep *)

(** The two steps the sweep folds. *)
Definition ask (s : FrameReassembler) (request : Z * list Z) : FrameReassembler :=
  with_retransmit s ({[request.1]} ∪ nacked s) (needs_retransmit_queue s ++ [request]).
Definition declare_lost (s : FrameReassembler) (id : Z) : FrameReassembler :=
  let s := retire s id in with_dropped s (dropped_queue s ++ [id]).

Definition verdicts (s : FrameReassembler) : list (Z * Verdict) :=
  match highest_seen_frame_id s with
  | None => []
  | Some frontier => map (fun '(id, entry) => (id, sweep_verdict s frontier id entry)) (btree_iter (rs_pending s))
  end.

(** The requests and the losses of one sweep, in the order they are queued. *)
Definition requests (s : FrameReassembler) : list (Z * list Z) :=
  sort_by nack_order (omap (fun '(id, v) => match v with Nack missing => Some (id, missing) | _ => None end) (verdicts s)).
Definition losses (s : FrameReassembler) : list Z :=
  sort_by (fun left right => distance_wrapped left right ?= 0)
    (omap (fun '(id, v) => match v with Hopeless => Some id | _ => None end) (verdicts s)).

Lemma foldl_ext {A B} (f g : A -> B -> A) l a : (forall a b, f a b = g a b) -> foldl f a l = foldl g a l.
Proof. intros H. revert a. induction l as [|b l IH]; intros a; [done|]. cbn. by rewrite H. Qed.

Lemma sweep_folds s : sweep_hopeless_frames s = foldl declare_lost (foldl ask s (requests s)) (losses s).
Proof.
  unfold sweep_hopeless_frames, requests, losses, verdicts. destruct (highest_seen_frame_id s); [|done].
  f_equal. apply foldl_ext. by intros s' [id missing].
Qed.

Lemma elem_of_verdicts s id v :
  (id, v) ∈ verdicts s <->
  exists frontier entry, highest_seen_frame_id s = Some frontier /\ rs_pending s !! id = Some entry
    /\ v = sweep_verdict s frontier id entry.
Proof.
  unfold verdicts. destruct (highest_seen_frame_id s) as [frontier|].
  - rewrite list_elem_of_fmap. split.
    + intros ([id' entry] & E & Hin). injection E as -> ->. apply elem_of_btree_by in Hin. eauto.
    + intros (f & entry & E & Hin & ->). injection E as <-. exists (id, entry). split; [done|by apply elem_of_btree_by].
  - split; [by intros ?%elem_of_nil|]. by intros (? & ? & ? & _).
Qed.

Lemma verdicts_keys s : NoDup (verdicts s).*1.
Proof.
  unfold verdicts. destruct (highest_seen_frame_id s) as [frontier|]; [|constructor].
  assert (E : (map (fun '(id, entry) => (id, sweep_verdict s frontier id entry)) (btree_iter (rs_pending s))).*1
    = (btree_iter (rs_pending s)).*1) by (rewrite <- list_fmap_compose; apply list_fmap_ext; by intros ? []).
  rewrite E. apply btree_by_keys.
Qed.

Lemma omap_keys_nodup {V B} (f : Z * V -> option B) (key : B -> Z) (l : list (Z * V)) :
  (forall x y, f x = Some y -> key y = x.1) -> NoDup l.*1 -> NoDup (map key (omap f l)).
Proof.
  intros Hf. induction l as [|x l IH]; [constructor|]. cbn [fmap list_fmap map]. intros [Hx Hl]%NoDup_cons. cbn [omap list_omap].
  specialize (IH Hl). destruct (f x) as [y|] eqn:Ey; [|done]. cbn [map]. apply NoDup_cons. split; [|done].
  intros (z & Ez & Hz)%list_elem_of_fmap. apply list_elem_of_omap in Hz as (x' & Hx' & Ez').
  apply Hx. rewrite <- (Hf _ _ Ey), Ez, (Hf _ _ Ez'). apply list_elem_of_fmap. eauto.
Qed.

Lemma losses_nodup s : NoDup (losses s).
Proof.
  unfold losses. rewrite sort_by_perm. rewrite <- (list_fmap_id (omap _ _)).
  apply omap_keys_nodup; [|apply verdicts_keys]. intros [id v] y E. destruct v; [done|done|by injection E as <-].
Qed.

Lemma requests_nodup s : NoDup (requests s).*1.
Proof.
  unfold requests. rewrite (fmap_Permutation fst _ _ (sort_by_perm nack_order _)).
  apply omap_keys_nodup; [|apply verdicts_keys]. intros [id v] y E. destruct v; [done|by injection E as <-|done].
Qed.

Lemma elem_of_losses s id :
  id ∈ losses s <-> exists frontier entry, highest_seen_frame_id s = Some frontier /\ rs_pending s !! id = Some entry
                      /\ sweep_verdict s frontier id entry = Hopeless.
Proof.
  unfold losses. rewrite sort_by_perm, list_elem_of_omap. split.
  - intros ([id' v] & Hin & E). apply elem_of_verdicts in Hin as (fr & entry & H1 & H2 & ->).
    destruct (sweep_verdict s fr id' entry) eqn:Ev; try done. injection E as ->. eauto.
  - intros (fr & entry & H1 & H2 & H3). exists (id, Hopeless). split; [|done]. apply elem_of_verdicts. by exists fr, entry.
Qed.

Lemma elem_of_requests s id missing :
  (id, missing) ∈ requests s <->
  exists frontier entry, highest_seen_frame_id s = Some frontier /\ rs_pending s !! id = Some entry
    /\ sweep_verdict s frontier id entry = Nack missing.
Proof.
  unfold requests. rewrite sort_by_perm, list_elem_of_omap. split.
  - intros ([id' v] & Hin & E). apply elem_of_verdicts in Hin as (fr & entry & H1 & H2 & ->).
    destruct (sweep_verdict s fr id' entry) eqn:Ev; try done. injection E as -> ->. eauto.
  - intros (fr & entry & H1 & H2 & H3). exists (id, Nack missing). split; [|done]. apply elem_of_verdicts. by exists fr, entry.
Qed.

(** A request is for a pending frame that was not asked for. *)
Lemma requests_fresh s r : r ∈ requests s -> is_Some (rs_pending s !! r.1) /\ r.1 ∉ nacked s.
Proof.
  destruct r as [id missing]. intros (fr & entry & H1 & H2 & H3)%elem_of_requests. split; [by eexists|]. cbn.
  unfold sweep_verdict in H3. intros Hin. rewrite (bool_decide_eq_true_2 _ Hin) in H3. by repeat case_match.
Qed.

(** The fields no retirement, request or sweep touches. *)
Definition same_settings (s s' : FrameReassembler) : Prop :=
  rs_fec s' = rs_fec s /\ highest_seen_frame_id s' = highest_seen_frame_id s
  /\ fec_reorder_grace s' = fec_reorder_grace s /\ retransmit_grace s' = retransmit_grace s
  /\ nack_max_frags s' = nack_max_frags s.

#[export] Instance same_settings_preorder : PreOrder same_settings.
Proof. split; [done|]. intros s1 s2 s3 (?&?&?&?&?) (?&?&?&?&?). repeat split; congruence. Qed.

Lemma foldl_ask l s :
  let s' := foldl ask s l in
  same_settings s s' /\ rs_pending s' = rs_pending s /\ dropped_queue s' = dropped_queue s
  /\ retired s' = retired s /\ highest_retired_frame_id s' = highest_retired_frame_id s
  /\ needs_retransmit_queue s' = needs_retransmit_queue s ++ l
  /\ forall id, id ∈ nacked s' <-> id ∈ nacked s \/ id ∈ l.*1.
Proof.
  revert s. induction l as [|r l IH]; intros s; cbn [foldl].
  - rewrite app_nil_r. split_and!; try done. intros id. cbn. rewrite elem_of_nil. tauto.
  - destruct (IH (ask s r)) as (H1 & H2 & H3 & H4 & H5 & H6 & H7). cbv zeta in *.
    split_and!; try done; [by rewrite H6; cbn; rewrite <- app_assoc|].
    intros id. rewrite H7. cbn [fmap list_fmap ask with_retransmit nacked]. rewrite elem_of_cons, elem_of_union, elem_of_singleton. tauto.
Qed.

Lemma foldl_declare_lost l s :
  let s' := foldl declare_lost s l in
  same_settings s s' /\ dropped_queue s' = dropped_queue s ++ l
  /\ needs_retransmit_queue s' = needs_retransmit_queue s
  /\ (forall id, rs_pending s' !! id = if decide (id ∈ l) then None else rs_pending s !! id)
  /\ forall id, id ∈ nacked s' <-> id ∈ nacked s /\ id ∉ l.
Proof.
  revert s. induction l as [|i l IH]; intros s; cbn [foldl].
  - rewrite app_nil_r. split_and!; try done. intros id. cbn. rewrite elem_of_nil. tauto.
  - destruct (IH (declare_lost s i)) as (H1 & H2 & H3 & H4 & H5). cbv zeta in *.
    split_and!; try done; [by rewrite H2; cbn; rewrite <- app_assoc| |].
    + intros id. rewrite H4. cbn. destruct (decide (id ∈ l)) as [Hl|Hl].
      { by rewrite decide_True by (by right). }
      destruct (decide (id = i)) as [->|Hne].
      * rewrite decide_True by left. apply lookup_delete_eq.
      * rewrite decide_False by (intros [?|?]%elem_of_cons; done). by rewrite lookup_delete_ne.
    + intros id. rewrite H5. cbn. rewrite elem_of_cons, elem_of_difference, elem_of_singleton. tauto.
Qed.

Lemma not_retired l s id : id ∉ l -> id ∉ retired s -> id ∉ retired (foldl declare_lost s l).
Proof.
  revert s. induction l as [|i l IH]; intros s Hl Hr; [done|]. apply not_elem_of_cons in Hl as [Hne Hl]. cbn [foldl].
  apply IH; [done|]. unfold declare_lost, retire. cbn [with_dropped with_retired with_pending retired highest_retired_frame_id].
  assert (Hu : id ∉ ({[i]} ∪ retired s : gset Z)) by (rewrite elem_of_union, elem_of_singleton; tauto).
  case_match; [|done]. case_match; [|done]. rewrite elem_of_filter. tauto.
Qed.

(** What one sweep does. *)
Lemma sweep_spec s :
  let s' := sweep_hopeless_frames s in
  same_settings s s' /\ dropped_queue s' = dropped_queue s ++ losses s
  /\ needs_retransmit_queue s' = needs_retransmit_queue s ++ requests s
  /\ (forall id, rs_pending s' !! id = if decide (id ∈ losses s) then None else rs_pending s !! id)
  /\ forall id, id ∈ nacked s' <-> (id ∈ nacked s \/ id ∈ (requests s).*1) /\ id ∉ losses s.
Proof.
  rewrite sweep_folds. destruct (foldl_ask (requests s) s) as (A1 & A2 & A3 & A4 & A5 & A6 & A7).
  destruct (foldl_declare_lost (losses s) (foldl ask s (requests s))) as (B1 & B2 & B3 & B4 & B5). cbv zeta in *.
  split_and!; [by etransitivity|by rewrite B2, A3|by rewrite B3, A6|intros id; by rewrite B4, A2|].
  intros id. by rewrite B5, A7.
Qed.

(** ** Frames of honest senders, over any network *)

(** What the decoder should be handed for a frame. *)
Definition frame_of (x : Sent) (via_fec : bool) : ReassembledFrame :=
  let o := sn_options x in
  mkFrame (next_frame_id (sn_packetizer x)) (opt_keyframe o) (opt_crisp o) (sn_frame x) via_fec (opt_is_ltr o) (opt_acked_anchored o).

(** A fragment the sender of the frame made. *)
Definition fragment_of (x : Sent) (f : FrameFragment) : Prop := carries (sn_packetizer x) (sn_frame x) (sn_options x) f.

Section OneFrame.
Context (rfec : option ReedSolomonFec) (x : Sent).
Hypothesis Hok : sender_ok rfec x.

Lemma fragment_index f :
  fragment_of x f -> frag_count (header f) = Z.of_nat (sn_total x) /\ 0 <= frag_index (header f) < Z.of_nat (sn_total x).
Proof.
  intros (_ & H2 & _ & _ & _ & i & -> & Hcase). split; [done|].
  assert (i < sn_total x)%nat; [|lia]. unfold sn_total, fragment_total.
  destruct Hcase as [[Hi _]|(slot & -> & Hi & _)]; apply lookup_lt_Some in Hi; lia.
Qed.

(** The entry a fragment of the frame finds or makes. *)
Lemma entry_for_honest s f :
  rs_fec s = rfec -> fragment_of x f ->
  (forall p, rs_pending s !! frame_id (header f) = Some p -> counters_exact p /\ buffered rfec x p) ->
  counters_exact (entry_for s f) /\ buffered rfec x (entry_for s f).
Proof.
  intros Hs Hf Hp. unfold entry_for. destruct (rs_pending s !! _) as [p|]; [by apply Hp|].
  destruct (fragment_index f Hf) as [Hc _]. pose proof (total_small rfec x Hok) as Ht.
  destruct Hf as (_ & _ & _ & _ & _ & i & _ & Hcase).
  assert (Htier : Flags.fec_tier (flags (header f)) = opt_fec_tier (sn_options x)).
  { destruct Hcase as [[_ Hsay]|(slot & _ & _ & Hsay)]; eapply tier_on_wire; done. }
  rewrite Htier, Hc, Hs. split; [apply pending_new_exact; lia|]. by apply new_entry_buffered.
Qed.

Lemma buffer_honest p f :
  counters_exact p -> buffered rfec x p -> fragment_of x f ->
  let p' := buffer_fragment p f in
  counters_exact p' /\ buffered rfec x p' /\ pd_latched p' = sn_latched x.
Proof.
  intros Hex Hb Hf p'. destruct (fragment_index f Hf) as [_ Hi]. pose proof Hb as (B1 & _). split_and!.
  - apply buffer_exact; [done|]. by rewrite B1.
  - by apply buffer_buffered.
  - by eapply buffer_buffered.
Qed.

(** Completion is tried on a buffer of the frame: it completes exactly when the frame can. *)
Lemma try_complete_honest s p :
  rs_fec s = rfec -> rs_pending s !! next_frame_id (sn_packetizer x) = Some p ->
  counters_exact p -> buffered rfec x p -> pd_latched p = sn_latched x ->
  let id := next_frame_id (sn_packetizer x) in
  completable p /\ (exists via_fec, try_complete s id = (Completed (frame_of x via_fec), retire s id))
  \/ ~ completable p /\ try_complete s id = (Incomplete, s).
Proof.
  intros Hs Hp Hex Hb Hl id. unfold try_complete. fold id in Hp. rewrite Hp.
  destruct (can_eventually_complete p) eqn:E; cbn [negb].
  - left. apply decision_exact in E; [|done]. split; [done|].
    destruct (assemble_honest rfec x Hok s p Hs Hex Hb E) as [via ->]. exists via. by rewrite Hl.
  - right. split; [|done]. intros Hc. apply decision_exact in Hc; [congruence|done].
Qed.
End OneFrame.

Section Network.
Context (rfec : option ReedSolomonFec) (sent : Z -> option Sent).
Hypothesis Hsent : forall id x, sent id = Some x -> sender_ok rfec x /\ next_frame_id (sn_packetizer x) = id.

Definition honest (f : FrameFragment) : Prop := exists x, sent (frame_id (header f)) = Some x /\ fragment_of x f.

(** A pending frame is a frame of a sender, its counters are exact, and it cannot complete yet. *)
Definition entry_ok (id : Z) (p : Pending) : Prop :=
  exists x, sent id = Some x /\ counters_exact p /\ buffered rfec x p /\ pd_latched p = sn_latched x /\ ~ completable p.

Definition receiving (s : FrameReassembler) : Prop :=
  rs_fec s = rfec /\ forall id p, rs_pending s !! id = Some p -> entry_ok id p.

Lemma receiving_sub s s' :
  receiving s -> rs_fec s' = rs_fec s -> rs_pending s' ⊆ rs_pending s -> receiving s'.
Proof. intros [H1 H2] Hf Hp. split; [congruence|]. intros id p Hid. apply H2. by eapply lookup_weaken. Qed.

Lemma sweep_receiving s : receiving s -> receiving (sweep_hopeless_frames s).
Proof.
  intros H. destruct (sweep_spec s) as ((Hf & _) & _ & _ & Hp & _). cbv zeta in *.
  apply (receiving_sub s); [done|done|]. apply map_subseteq_spec. intros id p. rewrite Hp. by destruct (decide _).
Qed.

(** One honest fragment: stale, or buffered and completed exactly when the frame can be. *)
Lemma ingest_honest s f x :
  receiving s -> sent (frame_id (header f)) = Some x -> fragment_of x f ->
  let id := frame_id (header f) in let p := buffer_fragment (entry_for s f) f in
  (exists candidates rejected, ingest s f = (Stale, with_frontier s (highest_seen_frame_id s) candidates rejected))
  \/ refused s f = false /\ (advance_frontier s id).1 = true
     /\ counters_exact p /\ buffered rfec x p /\ pd_latched p = sn_latched x
     /\ (completable p /\ (exists via_fec,
           ingest s f = (Completed (frame_of x via_fec), sweep_hopeless_frames (retire (buffered_state s f) id)))
         \/ ~ completable p /\ ingest s f = answer Incomplete (sweep_hopeless_frames (buffered_state s f)) id).
Proof.
  intros [Hs Hp] Hx Hf id p. destruct (Hsent _ _ Hx) as [Hok Hid]. fold id in Hx, Hid.
  destruct (entry_for_honest rfec x Hok s f Hs Hf) as [E1 E2].
  { intros q Hq. destruct (Hp _ _ Hq) as (x' & Hx' & ? & ? & _). fold id in Hx'. by assert (x' = x) as -> by congruence. }
  destruct (ingest_cases s f) as [(seen & c & r & E & [->|Hne])|(H1 & H2 & H3 & H4)]; [by left; exists c, r| |right].
  { destruct Hne. destruct E2 as [-> _]. by apply fragment_index. }
  destruct (buffer_honest rfec x (entry_for s f) f E1 E2 Hf) as (F1 & F2 & F3). fold p in F1, F2, F3.
  split_and!; try done. fold id in H4. cbv zeta in H4. rewrite <- Hid in H4.
  destruct (try_complete_honest rfec x Hok (buffered_state s f) p) as [[Hc [via E]]|[Hc E]]; try done.
  - destruct (advance_frontier_fields s id) as (? & ? & ? & Ea). unfold buffered_state. fold id. by rewrite Ea.
  - rewrite Hid. apply lookup_insert_eq.
  - left. split; [done|]. exists via. rewrite H4, E, Hid. done.
  - right. split; [done|]. by rewrite H4, E, Hid.
Qed.

Lemma answer_receiving r s id : receiving s -> receiving (answer r s id).2.
Proof. intros H. unfold answer. destruct r; try done; by destruct (_ && _). Qed.

Lemma buffered_state_receiving s f x :
  let p := buffer_fragment (entry_for s f) f in
  receiving s -> sent (frame_id (header f)) = Some x -> counters_exact p -> buffered rfec x p ->
  pd_latched p = sn_latched x -> ~ completable p -> receiving (buffered_state s f).
Proof.
  intros p [H1 H2] Hx F1 F2 F3 Hc. unfold buffered_state.
  destruct (advance_frontier_fields s (frame_id (header f))) as (? & ? & ? & ->). split; [done|]. cbn. fold p.
  intros id q. destruct (decide (id = frame_id (header f))) as [->|Hne].
  - rewrite lookup_insert_eq. intros E. injection E as <-. by exists x.
  - rewrite lookup_insert_ne by done. apply H2.
Qed.

(** The invariant of the receive path, and what each answer is worth. *)
Lemma ingest_receiving s f :
  receiving s -> honest f ->
  receiving (ingest s f).2
  /\ forall fr, (ingest s f).1 = Completed fr ->
       exists x via_fec, sent (fr_frame_id fr) = Some x /\ fr = frame_of x via_fec.
Proof.
  intros Hr (x & Hx & Hf). destruct (Hsent _ _ Hx) as [_ Hid].
  destruct (ingest_honest s f x Hr Hx Hf) as [(? & ? & ->)|(_ & _ & F1 & F2 & F3 & [[Hc [via ->]]|[Hc ->]])].
  - split; [|done]. by destruct Hr.
  - split; cbn [fst snd].
    + apply sweep_receiving. apply (receiving_sub s); [done| |].
      * cbn. by destruct (advance_frontier_fields s (frame_id (header f))) as (? & ? & ? & ->).
      * cbn. rewrite delete_insert_eq. apply delete_subseteq.
    + intros fr E. injection E as <-. exists x, via. split; [|done]. cbn. by rewrite Hid.
  - split; [by eapply answer_receiving, sweep_receiving, buffered_state_receiving|].
    unfold answer. by destruct (_ && _).
Qed.

Lemma ingest_all_receiving fs s :
  receiving s -> (forall f, f ∈ fs -> honest f) -> receiving (ingest_all s fs).2.
Proof.
  revert s. induction fs as [|f fs IH]; intros s Hr Hfs; [exact Hr|]. cbn [ingest_all].
  destruct (ingest_receiving s f Hr) as [H1 _]; [apply Hfs; left|]. destruct (ingest s f) as [r s1].
  specialize (IH s1 H1 ltac:(intros; apply Hfs; by right)). by destruct (ingest_all s1 fs).
Qed.
End Network.

(** A concrete sender, for examples: the default codec, one frame of two bytes. *)
Definition small_frame : Sent := mkSent (packetizer_new (Some fec_default)) [Byte.x61; Byte.x62] default_options.
Definition small_fragments : list FrameFragment :=
  frame_fragments (sn_packetizer small_frame) (sn_frame small_frame) (sn_options small_frame).

Lemma small_frame_ok : sender_ok (Some fec_default) small_frame.
Proof.
  split_and!.
  - do 2 (split; [by vm_compute|]). intros scheme E. injection E as <-. unfold K_MAX. cbn. lia.
  - do 2 (split; [by vm_compute|]). intros scheme E. injection E as <-. by left.
  - apply Nat.leb_le. vm_compute. reflexivity.
  - by left.
Qed.

Lemma small_fragments_of f : f ∈ small_fragments -> fragment_of small_frame f.
Proof. apply frame_fragments_carry. Qed.
