(* ===== verification/Delivery.v ===== *)
(** * Delivery: one frame, from the packetizer to the decoder

    The two ends of the video path together, over the models of [packetizer.rs] and [reassembler.rs]:
    of the fragments one call of [packetize] made, any may be lost, repeated or reordered.  The theorem
    says exactly when the receiver completes the frame. *)

From stdpp Require Import gmap sorting.
From S2P Require Import Prelude Fec Fragment AdaptiveFec Packetizer Reassembler Reception.

(** A sweep that has nothing to say leaves the state alone. *)
Lemma sweep_quiet s :
  (forall frontier id p, highest_seen_frame_id s = Some frontier -> rs_pending s !! id = Some p ->
     sweep_verdict s frontier id p = Keep) ->
  sweep_hopeless_frames s = s.
Proof.
  intros H. rewrite sweep_folds.
  assert (El : losses s = []).
  { apply elem_of_nil_inv. intros id (fr & p & Hf & Hp & Hv)%elem_of_losses. by rewrite (H _ _ _ Hf Hp) in Hv. }
  assert (Er : requests s = []).
  { apply elem_of_nil_inv. intros [id m] (fr & p & Hf & Hp & Hv)%elem_of_requests. by rewrite (H _ _ _ Hf Hp) in Hv. }
  by rewrite El, Er.
Qed.

Lemma retire_first s id : retired s = ∅ -> id ∈ retired (retire s id).
Proof.
  intros H. unfold retire. cbn [with_retired with_pending retired highest_retired_frame_id]. rewrite H.
  replace (size ({[id]} ∪ ∅ : gset Z)) with 1%nat by (by rewrite union_empty_r_L, size_singleton).
  change (RETIRED_SOFT_CAP <? 1)%nat with false. cbn iota. set_solver.
Qed.

(** Some fragment of index [i] is in the list. *)
Definition arrived (fs : list FrameFragment) (i : nat) : bool :=
  existsb (fun f => frag_index (header f) =? Z.of_nat i) fs.

Lemma arrived_snoc fs f i : arrived (fs ++ [f]) i = arrived fs i || (frag_index (header f) =? Z.of_nat i).
Proof. unfold arrived. by rewrite existsb_app; cbn; rewrite orb_false_r. Qed.

(** The groups of a frame, as both ends resolve them. *)
Definition geometry (fec : option ReedSolomonFec) (x : Sent) : option (nat * nat) :=
  let tier := opt_fec_tier (sn_options x) in
  match fec with
  | Some scheme =>
    match AdaptiveFec.group_size tier (Fec.group_size scheme) with
    | Some g => Some (g, Nat.max (AdaptiveFec.parity_count tier (Fec.parity_count scheme)) 1)
    | None => None
    end
  | None => None
  end.

(** What has to arrive: with groups, in each no more data missing than its parity shards that are there;
    without, all of the data, and the fragment that shows where the data ends. *)
Definition enough (fec : option ReedSolomonFec) (x : Sent) (fs : list FrameFragment) : Prop :=
  let n := length (sn_data x) in
  match geometry fec x with
  | Some (g, m) =>
    forall j, (j < div_ceil n g)%nat ->
      (length (filter (fun i => arrived fs i = false) (seq (j * g) (Nat.min g (n - j * g))))
       <= length (filter (fun rank => arrived fs (n + (j * m + rank)) = true) (seq 0 m)))%nat
  | None => (forall i, (i < n)%nat -> arrived fs i = true) /\ (sn_total x = n \/ arrived fs n = true)
  end.

Lemma count_le (P Q : nat -> Prop) `{!forall i, Decision (P i), !forall i, Decision (Q i)} l :
  (forall i, P i -> Q i) -> (length (filter P l) <= length (filter Q l))%nat.
Proof.
  intros Hpq. induction l as [|a l IH]; [done|]. rewrite !filter_cons. pose proof (Hpq a).
  destruct (decide (P a)), (decide (Q a)); try tauto; cbn [length]; lia.
Qed.

Lemma enough_grows fec x fs gs : enough fec x fs -> enough fec x (fs ++ gs).
Proof.
  assert (Hgrow : forall i, arrived fs i = true -> arrived (fs ++ gs) i = true)
    by (intros i Hi; unfold arrived in *; by rewrite existsb_app, Hi).
  unfold enough. destruct (geometry fec x) as [[g m]|].
  - intros H j Hj. specialize (H j Hj). etransitivity; [apply (count_le _ (fun i => arrived fs i = false))|etransitivity; [exact H|]].
    + intros i Hi. destruct (arrived fs i) eqn:E; [|done]. by rewrite (Hgrow _ E) in Hi.
    + apply count_le. intros r. apply Hgrow.
  - intros [H1 H2]. split; [intros; by apply Hgrow, H1|]. destruct H2 as [?|?]; [by left|right; by apply Hgrow].
Qed.

Section Delivery.
Context (rfec : option ReedSolomonFec) (x : Sent).
Hypothesis Hok : sender_ok rfec x.

Let n := length (sn_data x).
Let id := next_frame_id (sn_packetizer x).

(** The buffer holds exactly what arrived. *)
Definition holds (p : Pending) (fs : list FrameFragment) : Prop :=
  (forall i, is_Some (pd_data p !! Z.of_nat i) <-> (i < n)%nat /\ arrived fs i = true)
  /\ match pd_group_size p with
     | Some _ => forall slot, is_Some (pd_parity p !! slot) <-> arrived fs (n + slot) = true
     | None => observed_boundary p = n <-> sn_total x = n \/ arrived fs n = true
     end.

(** The pinned groups are the geometry of the frame. *)
Definition grouped (p : Pending) : Prop :=
  match pd_group_size p with Some g => geometry rfec x = Some (g, pd_m p) | None => geometry rfec x = None end.

Lemma completable_enough p fs :
  counters_exact p -> buffered rfec x p -> grouped p -> holds p fs -> completable p <-> enough rfec x fs.
Proof.
  intros Hex (_ & _ & _ & B4) Hg [Hd Hp]. pose proof (payloads_nonempty (sn_frame x)) as Hne. change (0 < n)%nat in Hne.
  unfold completable, enough, grouped in *. change (length (sn_data x)) with n in |- *.
  assert (Hdata : forall i, (i < n)%nat -> pd_data p !! Z.of_nat i = None <-> arrived fs i = false).
  { intros i Hi. specialize (Hd i). destruct (arrived fs i); [|destruct (pd_data p !! _); [exfalso|done]].
    - split; [|done]. intros E. rewrite E in Hd. by destruct (proj2 Hd (conj Hi eq_refl)).
    - destruct Hd as [Hd _]. destruct Hd as [_ ?]; [by eexists|done]. }
  destruct (pd_group_size p) as [g|]; rewrite Hg.
  - destruct B4 as (scheme & _ & _ & _ & _ & Hn & _). unfold group_count, missing_in, surviving_in.
    rewrite Hn. split.
    + intros [[? _]|[_ H]]; [lia|]. intros j Hj. specialize (H j Hj).
      erewrite count_same; [|intros i Hi%elem_of_seq; symmetry; apply Hdata; lia]. etransitivity; [exact H|].
      apply Nat.eq_le_incl, count_same. intros r _. apply Hp.
    + intros H. right. split; [done|]. intros j Hj. specialize (H j Hj).
      erewrite count_same; [|intros i Hi%elem_of_seq; apply Hdata; lia]. etransitivity; [exact H|].
      apply Nat.eq_le_incl, count_same. intros r _. symmetry. apply Hp.
  - split.
    + intros [[? _]|[_ H]]; [lia|].
      assert (Eb : observed_boundary p = n).
      { destruct (Nat.lt_ge_cases n (observed_boundary p)) as [Hlt|]; [|lia]. specialize (H _ Hlt). apply Hd in H. lia. }
      split; [|by apply Hp]. intros i Hi. apply Hd, H. lia.
    + intros [H1 H2]. apply Hp in H2. right. rewrite H2. split; [done|]. intros i Hi. apply Hd. split; [done|by apply H1].
Qed.

(** The fields of the buffer after a data fragment, and after a parity fragment. *)
Lemma buffer_data_fields p f :
  Flags.contains (flags (header f)) Flags.PARITY = false ->
  let p' := buffer_fragment p f in
  pd_data p' = <[frag_index (header f) := payload f]> (pd_data p) /\ pd_parity p' = pd_parity p
  /\ pd_group_size p' = pd_group_size p /\ pd_m p' = pd_m p /\ observed_boundary p' = observed_boundary p.
Proof.
  intros Hf p'. unfold p', buffer_fragment. rewrite Hf. case_bool_decide; [|done].
  match goal with |- context [note_data_arrived ?q ?i] => destruct (note_data_fields q i) as (t & k & ->) end. done.
Qed.

Lemma buffer_parity_fields p f i :
  Flags.contains (flags (header f)) Flags.PARITY = true -> frag_index (header f) = Z.of_nat i ->
  (i <= count_of (pd_frag_count p))%nat ->
  let p' := buffer_fragment p f in
  let boundary := match pd_group_size p with Some _ => pinned_data_count p | None => i end in
  pd_data p' = pd_data p /\ pd_parity p' = <[(i - boundary)%nat := payload f]> (pd_parity p)
  /\ pd_group_size p' = pd_group_size p /\ pd_m p' = pd_m p
  /\ observed_boundary p' = Nat.min (observed_boundary p) i.
Proof.
  intros Hf Hi Hle p' boundary. unfold p', buffer_fragment. rewrite Hf, Hi.
  assert (E : count_of (Z.of_nat i) = i) by (unfold count_of; lia). rewrite E.
  set (q := with_latched p _). set (q1 := note_observed_parity_boundary q i).
  assert (Hb : observed_boundary q1 = Nat.min (observed_boundary p) i).
  { unfold q1, note_observed_parity_boundary, observed_boundary. cbn. destruct (observed_data_count p); lia. }
  change (pd_group_size q) with (pd_group_size p). change (pinned_data_count q) with (pinned_data_count p).
  fold boundary. case_bool_decide; [|done].
  match goal with |- context [note_parity_arrived ?q ?i] => destruct (note_parity_fields q i) as (t & k & ->) end. done.
Qed.

Lemma holds_buffer p fs f :
  buffered rfec x p -> grouped p -> holds p fs -> fragment_of x f ->
  holds (buffer_fragment p f) (fs ++ [f]) /\ grouped (buffer_fragment p f).
Proof.
  intros (B1 & _ & _ & B4) Hg [Hd Hp] Hf. pose proof (fragment_index x f Hf) as [_ Hrange].
  destruct Hf as (_ & _ & _ & _ & _ & i & Hi & [[Hin Hsay]|(slot & -> & Hin & Hsay)]);
    pose proof Hsay as (_ & _ & _ & _ & _ & Hpar & _); apply lookup_lt_Some in Hin.
  - change (i < n)%nat in Hin. destruct (buffer_data_fields p f Hpar) as (F1 & F2 & F3 & F4 & F5). cbv zeta in *.
    unfold holds, grouped. rewrite F1, F2, F3, F4, F5. split; [|exact Hg].
    assert (Hout : forall j, (n <= j)%nat -> arrived (fs ++ [f]) j = arrived fs j).
    { intros j Hj. rewrite arrived_snoc, Hi. destruct (Z.eqb_spec (Z.of_nat i) (Z.of_nat j)); [lia|]. by rewrite orb_false_r. }
    split.
    + intros j. rewrite arrived_snoc, Hi. destruct (Z.eqb_spec (Z.of_nat i) (Z.of_nat j)) as [E|E].
      * rewrite E, lookup_insert_eq, orb_true_r. split; [|by eexists]. intros _. split; [lia|done].
      * rewrite lookup_insert_ne, orb_false_r by done. apply Hd.
    + destruct (pd_group_size p); [intros slot; rewrite Hout by lia; apply Hp|]. by rewrite Hout by lia.
  - destruct (buffer_parity_fields p f (length (payloads_of (sn_frame x)) + slot) Hpar Hi) as (F1 & F2 & F3 & F4 & F5).
    { rewrite B1. unfold count_of. lia. }
    change (length (payloads_of (sn_frame x))) with n in *. cbv zeta in *.
    unfold holds, grouped. rewrite F1, F2, F3, F4, F5. split; [|exact Hg]. split.
    + intros j. rewrite arrived_snoc, Hi, Hd. destruct (Z.eqb_spec (Z.of_nat (n + slot)) (Z.of_nat j)); [|by rewrite orb_false_r].
      rewrite orb_true_r. lia.
    + destruct (pd_group_size p) as [g|].
      * destruct B4 as (scheme & _ & _ & _ & _ & Hn & _). change (pinned_data_count p = n) in Hn.
        intros j. rewrite arrived_snoc, Hi, Hn. replace (n + slot - n)%nat with slot by lia.
        destruct (Z.eqb_spec (Z.of_nat (n + slot)) (Z.of_nat (n + j))) as [E|E].
        -- assert (j = slot) as -> by lia. rewrite lookup_insert_eq, orb_true_r. split; [done|by eexists].
        -- rewrite lookup_insert_ne, orb_false_r by lia. apply Hp.
      * change (n <= observed_boundary p)%nat in B4. rewrite arrived_snoc, Hi.
        destruct (Z.eqb_spec (Z.of_nat (n + slot)) (Z.of_nat n)) as [E|E].
        -- rewrite orb_true_r. split; [tauto|]. intros _. lia.
        -- rewrite orb_false_r, <- Hp. lia.
Qed.

Lemma holds_new s f :
  rs_fec s = rfec -> fragment_of x f -> rs_pending s !! frame_id (header f) = None ->
  holds (entry_for s f) [] /\ grouped (entry_for s f).
Proof.
  intros Hs Hf Hnone. destruct (fragment_index x f Hf) as [Hc _].
  assert (Htier : Flags.fec_tier (flags (header f)) = opt_fec_tier (sn_options x)).
  { destruct Hf as (_ & _ & _ & _ & _ & i & _ & [[_ Hsay]|(slot & _ & _ & Hsay)]); by eapply tier_on_wire. }
  unfold entry_for. rewrite Hnone, Htier, Hc, Hs. clear Hs Hf Htier Hc Hnone.
  assert (Hempty : forall q, pd_data q = ∅ -> forall i, is_Some (pd_data q !! Z.of_nat i) <-> (i < n)%nat /\ arrived [] i = true).
  { intros q E i. rewrite E, lookup_empty. split; [by intros [??]|by intros [_ ?]]. }
  assert (Hopen : geometry rfec x = None -> forall m, holds (pending_new (Z.of_nat (sn_total x)) None m) []
    /\ grouped (pending_new (Z.of_nat (sn_total x)) None m)).
  { intros Hg m. split; [|exact Hg]. split; [by apply Hempty|]. cbn [pending_new pd_group_size]. unfold observed_boundary, arrived. cbn.
    unfold count_of. rewrite Nat2Z.id. split; [tauto|by intros [?|?]]. }
  assert (Hr : rfec = None \/ exists scheme, rfec = Some scheme) by (case rfec; eauto).
  unfold geometry in Hopen. destruct Hr as [Hr|[scheme Hr]]; rewrite Hr in *; [by apply Hopen|].
  destruct (AdaptiveFec.group_size (opt_fec_tier (sn_options x)) (Fec.group_size scheme)) as [g|] eqn:Hg; [|by apply Hopen].
  destruct Hok as ((_ & _ & Hsch) & _ & _ & Hfec).
  assert (Hg1 : (1 <= g)%nat).
  { destruct Hfec as [Hfec|]; [|done]. symmetry in Hfec. destruct (Hsch _ Hfec) as [? _].
    eapply (group_size_pos _ (Fec.group_size scheme)); [lia|exact Hg]. }
  unfold pending_new. rewrite (proj2 (Nat.leb_le _ _) Hg1). split.
  - split; [by apply Hempty|]. cbn [pd_group_size pd_parity]. intros slot. rewrite lookup_empty. split; [by intros [??]|done].
  - unfold grouped, geometry. cbn [pd_group_size pd_m]. by rewrite Hr, Hg.
Qed.

(** ** The run *)

(** Before the frame completes. *)
Definition collecting (s : FrameReassembler) (fs : list FrameFragment) : Prop :=
  rs_fec s = rfec /\ retired s = ∅ /\ highest_retired_frame_id s = None /\ dropped_queue s = []
  /\ (highest_seen_frame_id s = None \/ highest_seen_frame_id s = Some id)
  /\ (forall i, i <> id -> rs_pending s !! i = None)
  /\ match rs_pending s !! id with
     | Some p => counters_exact p /\ buffered rfec x p /\ grouped p /\ holds p fs
     | None => fs = []
     end.

Lemma plausible f : fragment_of x f -> implausible f = false.
Proof.
  intros Hf. destruct (fragment_index x f Hf) as [Hc Hi]. pose proof (total_small rfec x Hok) as Ht.
  pose proof Hok as (Hpk & _). pose proof (carried_size _ _ _ f Hpk Hf) as Hsize. rewrite max_payload in Hsize.
  unfold implausible. rewrite Hc. apply orb_false_intro; [apply orb_false_intro; [apply orb_false_intro|]|].
  - apply Z.eqb_neq. lia.
  - apply Nat.ltb_ge. unfold count_of. rewrite Nat2Z.id. by destruct Hok as (_ & _ & ? & _).
  - apply Z.leb_gt. lia.
  - apply Nat.ltb_ge. change (MAX_DATAGRAM_SIZE - HEADER_SIZE)%nat with 1181%nat. unfold PREFIX_BYTES in Hsize. lia.
Qed.

Lemma collecting_admits s fs f :
  collecting s fs -> fragment_of x f ->
  frame_id (header f) = id /\ refused s f = false /\ advance_frontier s id = (true, (advance_frontier s id).2)
  /\ highest_seen_frame_id (advance_frontier s id).2 = Some id.
Proof.
  intros (_ & H1 & H2 & _ & H3 & _) Hf. pose proof (plausible f Hf) as Hpl. destruct Hf as (Hid & _). change (frame_id (header f) = id) in Hid.
  split; [done|]. split; [unfold refused; by rewrite Hpl, H1, H2|].
  assert (H0 : distance_wrapped id id = 0) by (unfold distance_wrapped; by rewrite Z.sub_diag).
  assert (Hp : (advance_frontier s id).1 = true).
  { unfold advance_frontier. destruct H3 as [->| ->]; [done|]. rewrite H0. done. }
  split; [rewrite <- Hp; by destruct (advance_frontier s id)|]. rewrite advance_frontier_seen by done.
  destruct H3 as [->| ->]; [done|]. by rewrite H0.
Qed.

(** One more fragment while collecting. *)
Lemma collecting_step s fs f :
  collecting s fs -> fragment_of x f ->
  (enough rfec x (fs ++ [f]) /\ exists via_fec s', ingest s f = (Completed (frame_of x via_fec), s') /\ id ∈ retired s')
  \/ (~ enough rfec x (fs ++ [f]) /\ exists s', ingest s f = (Incomplete, s') /\ collecting s' (fs ++ [f])).
Proof.
  intros Hc Hf. destruct (collecting_admits s fs f Hc Hf) as (Hid & Href & Hadv & Hseen).
  pose proof Hc as (C1 & C2 & C3 & C4 & C5 & C6 & C7).
  assert (He : counters_exact (entry_for s f) /\ buffered rfec x (entry_for s f)).
  { apply entry_for_honest; [done..|]. intros p. rewrite Hid. intros E. rewrite E in C7. tauto. }
  assert (Hh : holds (entry_for s f) fs /\ grouped (entry_for s f)).
  { destruct (rs_pending s !! id) as [p|] eqn:E; [unfold entry_for; rewrite Hid, E; tauto|]. subst fs. apply holds_new; [done..|by rewrite Hid]. }
  destruct He as [E1 E2], Hh as [E3 E4]. destruct (buffer_honest rfec x _ f E1 E2 Hf) as (F1 & F2 & F3).
  destruct (holds_buffer _ fs f E2 E4 E3 Hf) as [F4 F5]. set (p := buffer_fragment (entry_for s f) f) in *.
  pose proof (completable_enough p _ F1 F2 F5 F4) as Hiff.
  set (s2 := buffered_state s f). assert (Es2 : exists c r, s2 = with_pending (with_frontier s (Some id) c r) (<[id := p]> (rs_pending s))).
  { unfold s2, buffered_state. rewrite Hid. destruct (advance_frontier_fields s id) as (seen & c & r & E). rewrite E in Hseen |- *.
    cbn in Hseen. rewrite Hseen. by exists c, r. }
  destruct Es2 as (c & r & Es2).
  assert (Hing : ingest s f = let '(result, s3) := try_complete s2 id in answer result (sweep_hopeless_frames s3) id).
  { destruct (ingest_cases s f) as [(seen & c' & r' & E & _)|(_ & _ & _ & E)]; [|by rewrite Hid in E].
    exfalso. unfold ingest in E. rewrite (plausible f Hf), Hid, C2, C3, Hadv in E. cbn [negb] in E.
    destruct (advance_frontier_fields s id) as (? & ? & ? & Ea). rewrite Ea in E.
    rewrite entry_for_frontier in E. destruct E2 as [Et _]. rewrite Et, (proj1 (fragment_index x f Hf)), Z.eqb_refl in E. cbn [negb] in E.
    destruct (try_complete _ _) as [[| | |] s3] in E; try done; by destruct (_ && _) in E. }
  destruct (try_complete_honest rfec x Hok s2 p) as [[Hcomp [via E]]|[Hcomp E]]; try done.
  1: by rewrite Es2.
  1: rewrite Es2; apply lookup_insert_eq.
  all: fold id in E; rewrite E in Hing.
  - left. split; [by apply Hiff|]. eexists via, _. split; [exact Hing|]. cbn [answer].
    assert (Hq : sweep_hopeless_frames (retire s2 id) = retire s2 id).
    { apply sweep_quiet. intros fr i q _ Hq. rewrite Es2 in Hq. cbn in Hq. rewrite delete_insert_eq in Hq.
      apply lookup_delete_Some in Hq as [Hne Hq]. by rewrite C6 in Hq. }
    cbn [snd]. rewrite Hq. apply retire_first. by rewrite Es2.
  - right. split; [by rewrite <- Hiff|]. exists s2.
    assert (Hq : sweep_hopeless_frames s2 = s2).
    { apply sweep_quiet. intros fr i q Hfr Hq. rewrite Es2 in Hfr, Hq. cbn in Hfr, Hq. injection Hfr as <-.
      destruct (decide (i = id)) as [->|Hne]; [|rewrite lookup_insert_ne in Hq by done; by rewrite C6 in Hq].
      unfold sweep_verdict. by replace (distance_wrapped id id) with 0 by (unfold distance_wrapped; by rewrite Z.sub_diag). }
    rewrite Hq in Hing. unfold answer in Hing.
    assert (Hin : rs_pending s2 !! id = Some p) by (rewrite Es2; apply lookup_insert_eq).
    rewrite Hin in Hing. split; [done|]. rewrite Es2. split_and!; try done; [by right| |].
    + intros i Hne. cbn. rewrite lookup_insert_ne by done. by apply C6.
    + cbn. rewrite lookup_insert_eq. by split_and!.
Qed.

Lemma retired_stale s f : id ∈ retired s -> fragment_of x f -> ingest s f = (Stale, s).
Proof.
  intros Hin Hf. pose proof (plausible f Hf) as Hpl. destruct Hf as (Hid & _). change (frame_id (header f) = id) in Hid.
  unfold ingest. by rewrite Hpl, Hid, bool_decide_eq_true_2.
Qed.

Lemma retired_run s fs :
  id ∈ retired s -> (forall f, f ∈ fs -> fragment_of x f) -> (ingest_all s fs).1 = replicate (length fs) Stale.
Proof.
  intros Hin. induction fs as [|f fs IH]; intros Hfs; [done|]. cbn [ingest_all]. rewrite retired_stale; [|done|apply Hfs; left].
  specialize (IH ltac:(intros; apply Hfs; by right)). destruct (ingest_all s fs). cbn in *. by rewrite IH.
Qed.

Lemma collecting_run s fs gs :
  collecting s fs -> ~ enough rfec x fs -> (forall f, f ∈ gs -> fragment_of x f) ->
  (~ enough rfec x (fs ++ gs) /\ (ingest_all s gs).1 = replicate (length gs) Incomplete)
  \/ (enough rfec x (fs ++ gs) /\ exists before after via_fec,
       (ingest_all s gs).1 = replicate before Incomplete ++ [Completed (frame_of x via_fec)] ++ replicate after Stale).
Proof.
  revert s fs. induction gs as [|f gs IH]; intros s fs Hc Hne Hgs.
  { left. by rewrite app_nil_r. }
  assert (Hf : fragment_of x f) by (apply Hgs; left).
  assert (Hrest : forall g, g ∈ gs -> fragment_of x g) by (intros; apply Hgs; by right).
  rewrite (app_assoc fs [f] gs : fs ++ f :: gs = (fs ++ [f]) ++ gs). cbn [ingest_all].
  destruct (collecting_step s fs f Hc Hf) as [[He (via & s' & E & Hr)]|[He (s' & E & Hc')]]; rewrite E.
  - right. split; [by apply enough_grows|]. exists 0%nat, (length gs), via.
    pose proof (retired_run s' gs Hr Hrest) as Hrun. destruct (ingest_all s' gs) as [rs s'']. cbn in *. by rewrite Hrun.
  - destruct (IH s' (fs ++ [f]) Hc' He Hrest) as [[H1 H2]|[H1 (b & a & via & H2)]];
      destruct (ingest_all s' gs) as [rs s'']; cbn [fst] in *; rewrite H2; [by left|right].
    split; [done|]. by exists (S b), a, via.
Qed.

Lemma nothing_not_enough : ~ enough rfec x [].
Proof.
  pose proof (payloads_nonempty (sn_frame x)) as Hne. change (0 < n)%nat in Hne. intros H.
  unfold enough in H. change (length (sn_data x)) with n in H. destruct (geometry rfec x) as [[g m]|] eqn:Eg.
  2: { destruct H as [H _]. by specialize (H 0%nat Hne). }
  assert (Hg : (1 <= g)%nat).
  { unfold geometry in Eg. destruct Hok as ((_ & _ & Hsch) & _ & _ & [Hfec| Hfec]); rewrite Hfec in Eg; [|done].
    destruct (pk_fec (sn_packetizer x)) as [scheme|]; [|done]. destruct (Hsch scheme eq_refl) as [? _].
    destruct (AdaptiveFec.group_size _ _) as [g'|] eqn:Eg'; [|done]. injection Eg as <- _.
    eapply (group_size_pos _ (Fec.group_size scheme)); [lia|exact Eg']. }
  destruct (div_ceil_spec n g ltac:(lia)). specialize (H 0%nat ltac:(nia)).
  rewrite (filter_all (fun i => arrived [] i = false)), length_seq in H by done.
  rewrite (filter_none (fun rank => arrived [] _ = true)) in H by done. cbn [length] in H. lia.
Qed.
End Delivery.

Lemma receiver_fec rfec x reorder : sender_ok rfec x -> rs_fec (reassembler_new rfec reorder) = rfec.
Proof.
  intros ((_ & _ & Hsch) & _ & _ & [->| ->]); [|done]. unfold reassembler_new. cbn [rs_fec].
  destruct (pk_fec (sn_packetizer x)) as [scheme|]; [|done]. destruct (Hsch scheme eq_refl) as (_ & H & _).
  by rewrite (proj2 (Nat.leb_le _ _) H).
Qed.

(** With every fragment there, there is enough. *)
Lemma all_is_enough rfec x fs : (forall i, (i < sn_total x)%nat -> arrived fs i = true) -> enough rfec x fs.
Proof.
  intros H. assert (Ht : sn_total x = (length (sn_data x) + length (sn_parity x))%nat) by done.
  unfold enough. destruct (geometry rfec x) as [[g m]|].
  - intros j _. rewrite filter_none; [cbn; lia|]. intros i Hi%elem_of_seq. rewrite H by lia. done.
  - split; [intros; apply H; lia|]. destruct (Nat.eq_dec (sn_total x) (length (sn_data x))) as [|Hne]; [by left|right].
    apply H. lia.
Qed.

Lemma all_arrived pk frame options fs i :
  (forall f, f ∈ frame_fragments pk frame options -> f ∈ fs) ->
  (i < fragment_total pk frame options)%nat -> arrived fs i = true.
Proof.
  intros H Hi. unfold arrived. apply existsb_exists. unfold fragment_total in Hi.
  set (n := length (payloads_of frame)) in *.
  assert (Hf : exists f, f ∈ frame_fragments pk frame options /\ frag_index (header f) = Z.of_nat i).
  { destruct (Nat.lt_ge_cases i n) as [Hlt|Hge].
    - destruct (lookup_lt_is_Some_2 (payloads_of frame) i Hlt) as [p Hp].
      eexists. split; [apply elem_of_app; left; apply elem_of_stamped; eexists i, p; split; [exact Hp|reflexivity]|]. cbn. lia.
    - destruct (lookup_lt_is_Some_2 (frame_parity pk frame options) (i - n)%nat ltac:(lia)) as [p Hp].
      eexists. split; [apply elem_of_app; right; apply elem_of_stamped; eexists (i - n)%nat, p; split; [exact Hp|reflexivity]|]. cbn. lia. }
  destruct Hf as (f & Hf & E). exists f. split; [by apply list_elem_of_In, H|]. by apply Z.eqb_eq.
Qed.

(** C2: delivery, end to end.  Take the fragments one [packetize] made and hand any of them, any number of
    times and in any order, to a reassembler with the same codec or with none.  If enough arrive (in
    every parity group no more data missing than parity shards present), the answers are [Incomplete]
    up to the fragment that makes it enough, then one [Completed] with exactly the frame and its flags,
    then [Stale]; otherwise every answer is [Incomplete].  Everything arriving is enough. *)
Theorem delivery_is_exact pk frame options fec reorder grace cap fs :
  packetizer_ok pk -> options_ok pk options ->
  (fragment_total pk frame options <= MAX_FRAGMENTS_PER_FRAME)%nat -> fec = pk_fec pk \/ fec = None ->
  (forall f, f ∈ fs -> f ∈ (packetize pk frame options).1) ->
  let x := mkSent pk frame options in
  let results := (ingest_all (enable_retransmit (reassembler_new fec reorder) grace cap) fs).1 in
  (enough fec x fs -> exists before after via_fec,
     results = replicate before Incomplete ++ [Completed (frame_of x via_fec)] ++ replicate after Stale)
  /\ (~ enough fec x fs -> results = replicate (length fs) Incomplete)
  /\ ((forall f, f ∈ (packetize pk frame options).1 -> f ∈ fs) -> enough fec x fs).
Proof.
  intros Hpk Ho Ht Hfec Hfs x results.
  destruct (packetize_parsed pk frame options Hpk Ho Ht) as (parsed & self' & Ep & _ & Hperm & _).
  rewrite Ep in *. cbn [fst] in *.
  assert (Hok : sender_ok fec x) by (by split_and!).
  assert (Hfrag : forall f, f ∈ fs -> fragment_of x f).
  { intros f Hf. apply frame_fragments_carry. change (f ∈ frame_fragments pk frame options). rewrite <- Hperm. by apply Hfs. }
  assert (Hc : collecting fec x (enable_retransmit (reassembler_new fec reorder) grace cap) []).
  { split; [by apply (receiver_fec fec x)|]. split_and!; try done. by left. }
  pose proof (collecting_run fec x Hok _ [] fs Hc (nothing_not_enough fec x Hok) Hfrag) as Hrun. cbn [app] in Hrun.
  fold results in Hrun. split_and!.
  - intros He. by destruct Hrun as [[? _]|[_ ?]].
  - intros He. by destruct Hrun as [[_ ?]|[? _]].
  - intros Hall. apply all_is_enough. intros i Hi. eapply all_arrived; [|exact Hi].
    intros f Hf. apply Hall. by rewrite Hperm.
Qed.

Lemma delivery_is_exact_witness :
  let pk := packetizer_new (Some fec_default) in
  let fs := drop 1 (packetize pk [Byte.x61; Byte.x62] default_options).1 in
  exists before after via_fec,
    (ingest_all (enable_retransmit (reassembler_new (Some fec_default) 2) 0 0) fs).1
    = replicate before Incomplete ++ [Completed (frame_of (mkSent pk [Byte.x61; Byte.x62] default_options) via_fec)]
      ++ replicate after Stale.
Proof.
  intros pk fs. pose proof small_frame_ok as (H1 & H2 & H3 & _).
  destruct (delivery_is_exact pk [Byte.x61; Byte.x62] default_options (Some fec_default) 2 0 0 fs H1 H2 H3) as (H & _ & _).
  - by left.
  - intros f. apply subseteq_drop.
  - apply H. unfold enough. vm_compute. intros [|j] Hj; [|lia]. lia.
Defined.
