(* ===== verification/Verdicts.v ===== *)
(** * Verdicts: a session of the receive path

    The calls a client makes on the reassembler of [slopdesk-video/src/reassembler.rs] in any order, and
    what holds over all of them while the frame numbers of the session lie in one half of the sequence
    space: each frame gets one verdict and is asked for again once, no frame that was taken in is
    forgotten, and the memory held is bounded. *)

From stdpp Require Import gmap sorting.
From S2P Require Import Prelude Fec Fragment AdaptiveFec Packetizer Reassembler Reception.

(** ** Calls *)

Inductive Call : Type := Feed (fragment : FrameFragment) | NextDropped | NextRetransmit.

Inductive Reply : Type :=
| Answered (id : Z) (result : ReassemblyResult)
| Signalled (lost : option Z)
| Asked (request : option (Z * list Z)).

Definition call (s : FrameReassembler) (c : Call) : Reply * FrameReassembler :=
  match c with
  | Feed f => let '(r, s) := ingest s f in (Answered (frame_id (header f)) r, s)
  | NextDropped => let '(o, s) := next_dropped_frame s in (Signalled o, s)
  | NextRetransmit => let '(o, s) := next_needs_retransmit s in (Asked o, s)
  end.

Fixpoint run (s : FrameReassembler) (cs : list Call) : list Reply * FrameReassembler :=
  match cs with
  | [] => ([], s)
  | c :: cs => let '(r, s) := call s c in let '(rs, s) := run s cs in (r :: rs, s)
  end.

(** The frames a reply decides, and the frames it asks for. *)
Definition decided (r : Reply) : list Z :=
  match r with
  | Answered _ (Completed frame) => [fr_frame_id frame]
  | Answered _ (Dropped id) => [id]
  | Signalled (Some id) => [id]
  | _ => []
  end.
Definition asked (r : Reply) : list Z := match r with Asked (Some (id, _)) => [id] | _ => [] end.

(** The frames whose fragment was taken in. *)
Definition taken (r : Reply) : list Z :=
  match r with Answered _ Stale => [] | Answered id _ => [id] | _ => [] end.

(** ** A window of frame numbers *)

Section Window.
Context (base : Z).

Definition off (id : Z) : Z := (id - base) mod 2 ^ 32.
Definition in_window (id : Z) : Prop := u_range 32 id /\ off id < 2 ^ 31.

Lemma off_range id : 0 <= off id < 2 ^ 32.
Proof. apply Z.mod_pos_bound. lia. Qed.

(** Inside the window the wrapping distance is the difference. *)
Lemma distance_window a b : in_window a -> in_window b -> distance_wrapped a b = off a - off b.
Proof.
  intros [_ Ha] [_ Hb]. pose proof (off_range a). pose proof (off_range b). unfold distance_wrapped, cast_signed.
  replace (a - b) with (a - base - (b - base)) by lia. rewrite Zminus_mod. fold (off a) (off b).
  change (32 - 1) with 31. destruct (Z.le_gt_cases (off b) (off a)).
  - rewrite Z.mod_small by lia. destruct (Z.ltb_spec (off a - off b) (2 ^ 31)); lia.
  - replace ((off a - off b) mod 2 ^ 32) with (off a - off b + 2 ^ 32) by (apply (Z.mod_unique _ _ (-1)); lia).
    destruct (Z.ltb_spec (off a - off b + 2 ^ 32) (2 ^ 31)); lia.
Qed.

Lemma off_inj a b : in_window a -> in_window b -> off a = off b -> a = b.
Proof.
  unfold in_window, u_range, off. intros [Ha _] [Hb _] E.
  assert (Ea : forall v, 0 <= v < 2 ^ 32 -> ((v - base) mod 2 ^ 32 + base) mod 2 ^ 32 = v).
  { intros v Hv. rewrite Zplus_mod_idemp_l. replace (v - base + base) with v by lia. by apply Z.mod_small. }
  rewrite <- (Ea a Ha), <- (Ea b Hb). by rewrite E.
Qed.

(** ** One verdict *)

(** [done] lists the frames decided so far, reported or queued; [asks] the frames asked for. *)
Record settled (s : FrameReassembler) (done asks : list Z) : Prop := {
  st_once : NoDup done;
  st_past : forall id, id ∈ done -> in_window id /\ rs_pending s !! id = None
    /\ exists high, highest_retired_frame_id s = Some high /\ off id <= off high;
  st_high : forall high, highest_retired_frame_id s = Some high -> in_window high;
  st_pending : forall id, is_Some (rs_pending s !! id) -> in_window id;
  st_nacked : forall id, id ∈ nacked s -> is_Some (rs_pending s !! id);
  st_ask_once : NoDup asks;
  st_asks : forall id, id ∈ asks -> id ∈ nacked s \/ id ∈ done;
}.

Lemma settled_ext s s' done done' asks asks' :
  settled s done asks -> rs_pending s' = rs_pending s -> highest_retired_frame_id s' = highest_retired_frame_id s ->
  nacked s' = nacked s -> done' ≡ₚ done -> asks' ≡ₚ asks -> settled s' done' asks'.
Proof.
  intros [H1 H2 H3 H4 H5 H6 H7] Ep Eh En Ed Ea. split; rewrite ?Ep, ?Eh, ?En; try done.
  - by rewrite Ed.
  - intros id. rewrite Ed. apply H2.
  - by rewrite Ea.
  - intros id. rewrite Ea, Ed. apply H7.
Qed.

Lemma retire_high s id :
  in_window id -> (forall high, highest_retired_frame_id s = Some high -> in_window high) ->
  exists high, highest_retired_frame_id (retire s id) = Some high /\ in_window high /\ off id <= off high
    /\ forall old, highest_retired_frame_id s = Some old -> off old <= off high.
Proof.
  intros Hid Hh. unfold retire. cbn [with_pending highest_retired_frame_id with_retired].
  destruct (highest_retired_frame_id s) as [old|].
  - specialize (Hh old eq_refl). rewrite distance_window by done.
    destruct (Z.ltb_spec 0 (off id - off old)); eexists; (split; [reflexivity|]); (split; [done|]); (split; [lia|]);
      intros ? [= <-]; lia.
  - exists id. split_and!; done.
Qed.

(** A pending frame retires: it is decided. *)
Lemma settled_retire s done asks id :
  settled s done asks -> is_Some (rs_pending s !! id) -> settled (retire s id) (id :: done) asks.
Proof.
  intros [H1 H2 H3 H4 H5 H6 H7] Hp. pose proof (H4 _ Hp) as Hid.
  destruct (retire_high s id Hid H3) as (high & Eh & Hw & Hle & Hold). split.
  - apply NoDup_cons. split; [|done]. intros Hin. destruct (H2 _ Hin) as (_ & E & _). rewrite E in Hp. by destruct Hp.
  - intros id' [->|Hin]%elem_of_cons.
    + split; [done|]. split; [apply lookup_delete_eq|]. by exists high.
    + destruct (H2 _ Hin) as (? & Hn & old & Eo & ?). split; [done|]. split.
      * cbn. rewrite lookup_delete_None. by right.
      * exists high. split; [done|]. specialize (Hold _ Eo). lia.
  - intros h E. by assert (h = high) as -> by congruence.
  - intros id' [p Hp']. apply H4. cbn in Hp'. apply lookup_delete_Some in Hp' as [_ Hp']. by eexists.
  - cbn. intros id' [Hn Hne]%elem_of_difference. rewrite elem_of_singleton in Hne. rewrite lookup_delete_ne by done. by apply H5.
  - done.
  - intros id' Hin. destruct (decide (id' = id)) as [->|Hne]; [right; left|].
    destruct (H7 _ Hin) as [Hn|Hd]; [left; cbn|right; by right]. rewrite elem_of_difference, elem_of_singleton. done.
Qed.

Lemma settled_declare_lost s done asks id :
  settled s done asks -> is_Some (rs_pending s !! id) -> settled (declare_lost s id) (id :: done) asks.
Proof. intros H Hp. by eapply settled_ext; [by apply (settled_retire s done asks id)|..]. Qed.

Lemma settled_losses s done asks l :
  settled s done asks -> NoDup l -> (forall id, id ∈ l -> is_Some (rs_pending s !! id)) ->
  settled (foldl declare_lost s l) (done ++ l) asks.
Proof.
  revert s done. induction l as [|id l IH]; intros s done H Hn Hp; [by rewrite app_nil_r|].
  apply NoDup_cons in Hn as [Hid Hn]. cbn [foldl].
  eapply settled_ext; [apply (IH (declare_lost s id) (id :: done)); [|done|]|done..| |done].
  - apply settled_declare_lost; [done|]. apply Hp. left.
  - intros id' Hin. cbn. rewrite lookup_delete_ne by (by intros ->). apply Hp. by right.
  - cbn. by rewrite Permutation_middle.
Qed.

(** A pending frame that was not asked for yet. *)
Lemma settled_ask s done asks r :
  settled s done asks -> is_Some (rs_pending s !! r.1) -> r.1 ∉ nacked s -> settled (ask s r) done (asks ++ [r.1]).
Proof.
  intros [H1 H2 H3 H4 H5 H6 H7] Hp Hn. split; try done.
  - cbn. intros id [->%elem_of_singleton|?]%elem_of_union; [done|by apply H5].
  - apply NoDup_app. split; [done|]. split; [|apply NoDup_singleton].
    intros id Hin ->%list_elem_of_singleton. destruct (H7 _ Hin) as [|Hd]; [done|].
    destruct (H2 _ Hd) as (_ & E & _). rewrite E in Hp. by destruct Hp.
  - intros id [Hin| ->%list_elem_of_singleton]%elem_of_app; cbn; rewrite elem_of_union, elem_of_singleton; [|tauto].
    destruct (H7 _ Hin); tauto.
Qed.

Lemma settled_requests s done asks l :
  settled s done asks -> NoDup l.*1 -> (forall r, r ∈ l -> is_Some (rs_pending s !! r.1) /\ r.1 ∉ nacked s) ->
  settled (foldl ask s l) done (asks ++ l.*1).
Proof.
  revert s asks. induction l as [|r l IH]; intros s asks H Hn Hp; [by rewrite app_nil_r|].
  cbn [fmap list_fmap] in Hn. apply NoDup_cons in Hn as [Hid Hn]. cbn [foldl].
  eapply settled_ext; [apply (IH (ask s r) (asks ++ [r.1])); [|done|]|done..|].
  - apply settled_ask; [done|apply Hp; left|apply Hp; left].
  - intros r' Hin. split; [apply Hp; by right|]. cbn. rewrite elem_of_union, elem_of_singleton.
    intros [E|Hin']; [|by apply (Hp r'); [by right|]]. apply Hid. rewrite <- E. apply list_elem_of_fmap. eauto.
  - cbn. by rewrite <- app_assoc.
Qed.

Lemma settled_sweep s done asks :
  settled s done asks -> settled (sweep_hopeless_frames s) (done ++ losses s) (asks ++ (requests s).*1).
Proof.
  intros H. rewrite sweep_folds. apply settled_losses; [|apply losses_nodup|].
  - apply settled_requests; [done|apply requests_nodup|apply requests_fresh].
  - intros id (fr & p & _ & Hp & _)%elem_of_losses. destruct (foldl_ask (requests s) s) as (_ & -> & _). by eexists.
Qed.

(** A fragment past the guards is of a frame not decided yet. *)
Lemma not_decided s done asks f :
  settled s done asks -> in_window (frame_id (header f)) -> refused s f = false -> frame_id (header f) ∉ done.
Proof.
  intros [_ H2 H3 _ _ _ _] Hw Hr Hin. destruct (H2 _ Hin) as (_ & Hn & high & Eh & Hle).
  unfold refused in Hr. rewrite Eh, (bool_decide_eq_true_2 _ Hn) in Hr. rewrite distance_window in Hr; [|done|by apply H3].
  rewrite (proj2 (Z.leb_le (off _ - _) 0)) in Hr by lia. by rewrite orb_true_r in Hr.
Qed.

Lemma settled_buffer s done asks f :
  settled s done asks -> in_window (frame_id (header f)) -> refused s f = false -> settled (buffered_state s f) done asks.
Proof.
  intros H Hw Hr. pose proof (not_decided s done asks f H Hw Hr) as Hnd. destruct H as [H1 H2 H3 H4 H5 H6 H7].
  unfold buffered_state. destruct (advance_frontier_fields s (frame_id (header f))) as (? & ? & ? & ->).
  split; cbn; try done.
  - intros id Hin. destruct (H2 _ Hin) as (? & ? & ?). split; [done|]. split; [|done]. rewrite lookup_insert_ne; [done|]. by intros <-.
  - intros id. destruct (decide (id = frame_id (header f))) as [->|Hne]; [done|]. rewrite lookup_insert_ne by done. apply H4.
  - intros id Hin. destruct (decide (id = frame_id (header f))) as [->|Hne]; [rewrite lookup_insert_eq; by eexists|].
    rewrite lookup_insert_ne by done. by apply H5.
Qed.

Lemma try_complete_cases s id p :
  rs_pending s !! id = Some p ->
  (exists fr, fr_frame_id fr = id /\ try_complete s id = (Completed fr, retire s id)) \/ try_complete s id = (Incomplete, s).
Proof.
  intros Hp. unfold try_complete. rewrite Hp. destruct (negb _); [by right|].
  destruct (assemble s p) as [[avcc via]|]; [left|by right]. eexists. by split; [|reflexivity].
Qed.

(** A frame is on the books: held, or decided. *)
Definition tracked (s : FrameReassembler) (done : list Z) (id : Z) : Prop := is_Some (rs_pending s !! id) \/ id ∈ done.

Lemma tracked_sweep s done id : tracked s done id -> tracked (sweep_hopeless_frames s) (done ++ losses s) id.
Proof.
  destruct (sweep_spec s) as (_ & _ & _ & Hp & _). cbv zeta in Hp. unfold tracked. rewrite elem_of_app, Hp.
  intros [H|H]; [|tauto]. destruct (decide (id ∈ losses s)); [tauto|by left].
Qed.

Lemma filter_out (id : Z) l : NoDup l -> id ∈ l -> l ≡ₚ id :: filter (fun queued => queued <> id) l.
Proof.
  induction l as [|i l IH]; intros Hn Hin; [by apply elem_of_nil in Hin|].
  apply NoDup_cons in Hn as [Hi Hn]. rewrite filter_cons. apply elem_of_cons in Hin as [->|Hin].
  - rewrite decide_False by (intros H; by apply H). apply Permutation_skip. rewrite filter_all; [done|].
    intros j Hj ->. done.
  - rewrite decide_True by (by intros ->). rewrite Permutation_swap. apply Permutation_skip. by apply IH.
Qed.

(** What was decided by the end, and what is queued to be asked for, over the calls so far. *)
Definition books (s : FrameReassembler) (past requested : list Z) : Prop :=
  settled s (past ++ dropped_queue s) (requested ++ (needs_retransmit_queue s).*1).

(** The last step of [ingest]: the sweep ran on a settled state. *)
Lemma books_answer s past requested r id :
  settled s (past ++ dropped_queue s) (requested ++ (needs_retransmit_queue s).*1) ->
  let out := answer r (sweep_hopeless_frames s) id in
  (forall fr, r <> Completed fr) ->
  books out.2 (past ++ decided (Answered id out.1)) requested
  /\ (forall i, tracked s (past ++ dropped_queue s) i ->
        tracked out.2 ((past ++ decided (Answered id out.1)) ++ dropped_queue out.2) i)
  /\ out.1 <> Stale.
Proof.
  intros H out Hr. pose proof (settled_sweep _ _ _ H) as Hs.
  destruct (sweep_spec s) as (_ & Hd & Hn & _ & _). cbv zeta in Hd, Hn. set (t := sweep_hopeless_frames s) in *.
  pose proof (fun i => tracked_sweep s (past ++ dropped_queue s) i) as Ht. fold t in Ht.
  rewrite <- app_assoc, <- Hd in Hs, Ht. rewrite <- app_assoc, <- fmap_app, <- Hn in Hs.
  assert (Eout : out = (Incomplete, t) \/ id ∈ dropped_queue t
     /\ out = (Dropped id, with_dropped t (filter (fun queued => queued <> id) (dropped_queue t)))).
  { unfold out, answer. fold t. destruct (bool_decide (id ∈ dropped_queue t)) eqn:E.
    - apply bool_decide_eq_true in E. destruct r; try (by destruct (Hr frame)); destruct (bool_decide _); tauto.
    - rewrite andb_false_r. destruct r; try (by destruct (Hr frame)); by left. }
  destruct Eout as [->|[Hin ->]]; cbn [fst snd decided].
  - rewrite app_nil_r. by split_and!.
  - assert (Hp : (past ++ [id]) ++ filter (fun queued => queued <> id) (dropped_queue t) ≡ₚ past ++ dropped_queue t).
    { rewrite <- app_assoc. cbn. apply Permutation_app_head. symmetry. apply filter_out; [|done].
      apply st_once in Hs. apply NoDup_app in Hs. tauto. }
    split_and!; [by eapply settled_ext| |done]. intros i Hi. apply Ht in Hi. unfold tracked in *. cbn [with_dropped rs_pending dropped_queue].
    destruct Hi as [|Hi]; [by left|right]. by rewrite Hp.
Qed.

Lemma books_ingest s past requested f :
  books s past requested -> in_window (frame_id (header f)) ->
  let id := frame_id (header f) in let out := ingest s f in
  let past' := past ++ decided (Answered id out.1) in
  books out.2 past' requested
  /\ (forall i, tracked s (past ++ dropped_queue s) i -> tracked out.2 (past' ++ dropped_queue out.2) i)
  /\ (out.1 <> Stale -> tracked out.2 (past' ++ dropped_queue out.2) id).
Proof.
  intros H Hw id out past'. unfold past', out.
  destruct (ingest_cases s f) as [(seen & c & r & -> & _)|(Hr & _ & _ & E)].
  { cbn [fst snd decided]. rewrite app_nil_r. split_and!; [by eapply settled_ext|done|done]. }
  pose proof (settled_buffer _ _ _ f H Hw Hr) as Hb.
  assert (Hp : rs_pending (buffered_state s f) !! id = Some (buffer_fragment (entry_for s f) f)) by apply lookup_insert_eq.
  assert (Eq : dropped_queue (buffered_state s f) = dropped_queue s /\ needs_retransmit_queue (buffered_state s f) = needs_retransmit_queue s
    /\ forall i, is_Some (rs_pending s !! i) -> is_Some (rs_pending (buffered_state s f) !! i)).
  { unfold buffered_state. destruct (advance_frontier_fields s (frame_id (header f))) as (? & ? & ? & ->). split_and!; try done.
    cbn. intros i. rewrite lookup_insert_is_Some'. tauto. }
  destruct Eq as (Eq1 & Eq2 & Eq3). set (s2 := buffered_state s f) in *. fold id in E. rewrite <- Eq1, <- Eq2 in Hb.
  assert (Htr : forall i, tracked s (past ++ dropped_queue s) i -> tracked s2 (past ++ dropped_queue s2) i).
  { intros i [Hi|Hi]; [left; by apply Eq3|right; by rewrite Eq1]. }
  destruct (try_complete_cases s2 id _ Hp) as [(fr & Hfr & Et)|Et]; rewrite Et in E; rewrite E.
  - cbn [answer fst snd decided]. rewrite Hfr.
    pose proof (settled_sweep _ _ _ (settled_retire _ _ _ id Hb ltac:(by eexists))) as Hs.
    pose proof (fun i => tracked_sweep (retire s2 id) (id :: past ++ dropped_queue s2) i) as Hts.
    destruct (sweep_spec (retire s2 id)) as (_ & Hd & Hn & _ & _). cbv zeta in Hd, Hn.
    change (dropped_queue (retire s2 id)) with (dropped_queue s2) in Hd.
    change (needs_retransmit_queue (retire s2 id)) with (needs_retransmit_queue s2) in Hn.
    assert (Hperm : (past ++ [id]) ++ dropped_queue s2 ++ losses (retire s2 id) ≡ₚ (id :: past ++ dropped_queue s2) ++ losses (retire s2 id)).
    { rewrite <- app_assoc. cbn. rewrite <- Permutation_middle. by rewrite <- app_assoc. }
    assert (Hgo : forall i, tracked (retire s2 id) (id :: past ++ dropped_queue s2) i ->
      tracked (sweep_hopeless_frames (retire s2 id)) ((past ++ [id]) ++ dropped_queue (sweep_hopeless_frames (retire s2 id))) i).
    { intros i Hi. apply Hts in Hi. destruct Hi as [Hi|Hi]; [by left|right]. by rewrite Hd, Hperm. }
    split_and!.
    + eapply settled_ext; [exact Hs|done..| |]; [by rewrite Hd, Hperm|]. by rewrite Hn, fmap_app, app_assoc.
    + intros i Hi. apply Hgo. destruct (decide (i = id)) as [->|Hne]; [right; left|].
      destruct (Htr _ Hi) as [Hi'|Hi']; [left|right; by right]. cbn. by rewrite lookup_delete_ne.
    + intros _. apply Hgo. right. left.
  - destruct (books_answer s2 past requested Incomplete id Hb) as (B1 & B2 & B3); [done|]. cbv zeta in *.
    split_and!; [done|intros i Hi; apply B2, Htr, Hi|]. intros _. apply B2. left. by eexists.
Qed.

Definition call_in_window (c : Call) : Prop := match c with Feed f => in_window (frame_id (header f)) | _ => True end.

Lemma books_call s past requested c :
  books s past requested -> call_in_window c ->
  let out := call s c in
  let past' := past ++ decided out.1 in
  books out.2 past' (requested ++ asked out.1)
  /\ (forall i, tracked s (past ++ dropped_queue s) i \/ i ∈ taken out.1 -> tracked out.2 (past' ++ dropped_queue out.2) i).
Proof.
  intros H Hw. destruct c as [f| |]; cbn [call].
  - destruct (books_ingest s past requested f H Hw) as (H1 & H2 & H3). cbv zeta in *.
    destruct (ingest s f) as [r s']. cbn [fst snd asked] in *. rewrite app_nil_r. split; [done|].
    intros i [Hi|Hi]; [by apply H2|]. destruct r; cbn in Hi; try (apply list_elem_of_singleton in Hi as ->; by apply H3).
    by apply elem_of_nil in Hi.
  - unfold next_dropped_frame. destruct (dropped_queue s) as [|id q] eqn:Eq; cbn [fst snd decided asked taken]; rewrite ?app_nil_r.
    + split; [done|]. intros i [Hi|Hi%elem_of_nil]; [|done]. by rewrite Eq, app_nil_r.
    + rewrite <- !app_assoc. cbn. split; [|intros i [Hi|Hi%elem_of_nil]; done].
      eapply settled_ext; [exact H|done..| |done]. rewrite Eq. cbn. by rewrite <- app_assoc.
  - unfold next_needs_retransmit. destruct (needs_retransmit_queue s) as [|[id m] q] eqn:Eq; cbn [fst snd decided asked taken]; rewrite ?app_nil_r.
    + split; [done|]. by intros i [Hi|Hi%elem_of_nil].
    + split; [|by intros i [Hi|Hi%elem_of_nil]].
      eapply settled_ext; [exact H|done..|]. rewrite Eq. cbn. by rewrite <- app_assoc.
Qed.

Lemma books_run cs s past requested :
  books s past requested -> Forall call_in_window cs ->
  let out := run s cs in
  let past' := past ++ flat_map decided out.1 in
  books out.2 past' (requested ++ flat_map asked out.1)
  /\ (forall i, tracked s (past ++ dropped_queue s) i \/ i ∈ flat_map taken out.1 -> tracked out.2 (past' ++ dropped_queue out.2) i).
Proof.
  revert s past requested. induction cs as [|c cs IH]; intros s past requested H Hw; cbn [run].
  { cbn. rewrite !app_nil_r. split; [done|]. by intros i [Hi|Hi%elem_of_nil]. }
  apply Forall_cons in Hw as [Hc Hw]. destruct (books_call s past requested c H Hc) as [H1 H2]. cbv zeta in *.
  destruct (call s c) as [r s1]. cbn [fst snd] in *. destruct (IH _ _ _ H1 Hw) as [I1 I2]. cbv zeta in *.
  destruct (run s1 cs) as [rs s2]. cbn [fst snd flat_map] in *. rewrite !app_assoc. split; [done|].
  intros i Hi. apply I2. rewrite elem_of_app in Hi. destruct Hi as [Hi|[Hi|Hi]]; [left; apply H2; by left|left; apply H2; by right|by right].
Qed.

Lemma books_new fec reorder grace cap : books (enable_retransmit (reassembler_new fec reorder) grace cap) [] [].
Proof.
  assert (Hpend : forall id, ~ is_Some ((∅ : gmap Z Pending) !! id)) by (intros id; rewrite lookup_empty; by intros [??]).
  split; cbn; try apply NoDup_nil_2; try done; intros id; rewrite ?elem_of_nil, ?elem_of_empty; try done. by intros ?%Hpend.
Qed.
End Window.

(** ** Memory *)

Lemma interval_length (l : list Z) lo hi : NoDup l -> (forall z, z ∈ l -> lo <= z <= hi) -> zlen l <= Z.max 0 (hi - lo + 1).
Proof.
  intros Hn Hl. assert (Hs : l ⊆+ seqZ lo (hi - lo + 1)).
  { apply NoDup_submseteq; [done|]. intros z Hz. apply elem_of_seqZ. specialize (Hl z Hz). lia. }
  apply submseteq_length in Hs. rewrite length_seqZ in Hs. lia.
Qed.

Section Memory.
Context (base : Z).

Lemma window_length (l : list Z) lo hi :
  NoDup l -> (forall id, id ∈ l -> in_window base id /\ lo <= off base id <= hi) -> zlen l <= Z.max 0 (hi - lo + 1).
Proof.
  intros Hn Hl. rewrite <- (length_map (off base)). apply interval_length.
  - apply NoDup_fmap_2_strong; [|done]. intros a b Ha Hb E. by eapply off_inj; [apply Hl, Ha|apply Hl, Hb|].
  - intros z (id & -> & Hid)%list_elem_of_fmap. by apply Hl.
Qed.

(** The retired set: at or behind the highest, and pruned past its cap. *)
Definition pruned (s : FrameReassembler) : Prop :=
  (size (retired s) <= RETIRED_SOFT_CAP)%nat
  /\ forall id, id ∈ retired s -> in_window base id
       /\ exists high, highest_retired_frame_id s = Some high /\ in_window base high /\ off base id <= off base high.

Lemma pruned_retire s id :
  pruned s -> in_window base id -> (forall high, highest_retired_frame_id s = Some high -> in_window base high) -> pruned (retire s id).
Proof.
  intros [Hsize Hr] Hid Hh. destruct (retire_high base s id Hid Hh) as (high & Eh & Hw & Hle & Hold).
  set (ids := {[id]} ∪ retired s).
  assert (Hids : forall i, i ∈ ids -> in_window base i /\ off base i <= off base high).
  { intros i [->%elem_of_singleton|Hi]%elem_of_union; [done|].
    destruct (Hr _ Hi) as (? & old & Eo & _ & ?). split; [done|]. specialize (Hold _ Eo). lia. }
  assert (E : retired (retire s id) = if (RETIRED_SOFT_CAP <? size ids)%nat
    then filter (fun i => distance_wrapped high i <= RETIRED_KEEP_DISTANCE) ids else ids).
  { revert Eh. unfold retire. cbn [with_retired with_pending retired highest_retired_frame_id]. fold ids. by intros ->. }
  assert (Hin : forall i, i ∈ retired (retire s id) -> i ∈ ids).
  { intros i. rewrite E. destruct (_ <? _)%nat; [|done]. rewrite elem_of_filter. tauto. }
  split.
  - rewrite E. destruct (Nat.ltb_spec RETIRED_SOFT_CAP (size ids)) as [Hbig|Hsmall]; [|done].
    set (kept := filter _ ids).
    assert (Hk : zlen (elements kept) <= Z.max 0 (off base high - (off base high - RETIRED_KEEP_DISTANCE) + 1)).
    { apply window_length; [apply NoDup_elements|]. intros i Hi%elem_of_elements. unfold kept in Hi.
      apply elem_of_filter in Hi as [Hd Hi]. destruct (Hids _ Hi) as [Hwi Hli].
      rewrite (distance_window base) in Hd by done. split; [done|]. lia. }
    change (size kept) with (length (elements kept)). unfold RETIRED_KEEP_DISTANCE, RETIRED_SOFT_CAP in *. lia.
  - intros i Hi%Hin. destruct (Hids _ Hi). split; [done|]. by exists high.
Qed.

Lemma pruned_losses l s :
  pruned s -> (forall high, highest_retired_frame_id s = Some high -> in_window base high) ->
  (forall id, id ∈ l -> in_window base id) -> pruned (foldl declare_lost s l).
Proof.
  revert s. induction l as [|id l IH]; intros s Hp Hh Hl; [done|]. cbn [foldl]. apply IH.
  - apply (pruned_retire s id Hp); [|done]. apply Hl. left.
  - intros h E. destruct (retire_high base s id) as (high & Eh & Hw & _); [apply Hl; left|done|].
    change (highest_retired_frame_id (retire s id) = Some h) in E. by assert (h = high) as -> by congruence.
  - intros i Hi. apply Hl. by right.
Qed.

Lemma pruned_sweep s :
  pruned s -> (forall high, highest_retired_frame_id s = Some high -> in_window base high) ->
  (forall id, is_Some (rs_pending s !! id) -> in_window base id) -> pruned (sweep_hopeless_frames s).
Proof.
  intros Hp Hh Hpend. rewrite sweep_folds. destruct (foldl_ask (requests s) s) as (_ & _ & _ & Hr & Hhr & _).
  cbv zeta in *. apply pruned_losses.
  - unfold pruned. by rewrite Hr, Hhr.
  - by rewrite Hhr.
  - intros id (fr & p & _ & Hpp & _)%elem_of_losses. apply Hpend. by eexists.
Qed.

(** How long a frame that cannot complete is held. *)
Lemma kept_age s frontier id p :
  sweep_verdict s frontier id p <> Hopeless -> can_eventually_complete p = false ->
  distance_wrapped frontier id <= Z.max 0 (Z.max (fec_reorder_grace s) (retransmit_grace s)).
Proof.
  intros Hv Hc. unfold sweep_verdict in Hv. rewrite Hc, orb_false_r in Hv.
  destruct (Z.leb_spec (distance_wrapped frontier id) 0); [lia|].
  destruct (Z.leb_spec (distance_wrapped frontier id) (fec_reorder_grace s)); [lia|]. rewrite andb_false_r in Hv.
  destruct (Z.leb_spec (distance_wrapped frontier id) (retransmit_grace s)); [lia|]. by rewrite andb_false_r in Hv.
Qed.

(** *** Honest traffic *)

Context (rfec : option ReedSolomonFec) (sent : Z -> option Sent).
Hypothesis Hsent : forall id x, sent id = Some x -> sender_ok rfec x /\ next_frame_id (sn_packetizer x) = id.

Definition grace_of (s : FrameReassembler) : Z := Z.max 0 (Z.max (fec_reorder_grace s) (retransmit_grace s)).

(** Everything held is within the grace of the frontier. *)
Definition recent (s : FrameReassembler) : Prop :=
  match highest_seen_frame_id s with
  | None => forall id, rs_pending s !! id = None
  | Some frontier => in_window base frontier /\ forall id, is_Some (rs_pending s !! id) ->
      in_window base id /\ off base frontier - grace_of s <= off base id <= off base frontier
  end.

Lemma recent_sweep s frontier :
  receiving rfec sent s -> highest_seen_frame_id s = Some frontier -> in_window base frontier ->
  (forall id, is_Some (rs_pending s !! id) -> in_window base id /\ off base id <= off base frontier) ->
  recent (sweep_hopeless_frames s).
Proof.
  intros [_ Hr] Hf Hw Hp. destruct (sweep_spec s) as ((_ & Hseen & Hg1 & Hg2 & _) & _ & _ & Hpend & _). cbv zeta in *.
  unfold recent, grace_of. rewrite Hseen, Hf, Hg1, Hg2. split; [done|]. intros id [p Hid]. rewrite Hpend in Hid.
  destruct (decide (id ∈ losses s)) as [|Hl]; [done|]. destruct (Hp id ltac:(by eexists)) as [Hwi Hle]. split; [done|].
  split; [|done]. destruct (Hr _ _ Hid) as (x & _ & Hex & _ & _ & Hc).
  assert (Hcan : can_eventually_complete p = false).
  { destruct (can_eventually_complete p) eqn:E; [|done]. destruct Hc. by apply decision_exact. }
  assert (Hv : sweep_verdict s frontier id p <> Hopeless) by (intros E; apply Hl, elem_of_losses; eauto).
  pose proof (kept_age s frontier id p Hv Hcan) as Hage. rewrite (distance_window base) in Hage by done. lia.
Qed.

Lemma buffered_state_recent s f :
  recent s -> in_window base (frame_id (header f)) -> (advance_frontier s (frame_id (header f))).1 = true ->
  exists frontier, highest_seen_frame_id (buffered_state s f) = Some frontier /\ in_window base frontier
    /\ forall id, is_Some (rs_pending (buffered_state s f) !! id) -> in_window base id /\ off base id <= off base frontier.
Proof.
  intros Hr Hw Ha. apply advance_frontier_seen in Ha. unfold buffered_state. cbn [with_pending highest_seen_frame_id rs_pending].
  rewrite Ha. unfold recent in Hr. set (id := frame_id (header f)) in *.
  assert (Hin : forall i p, is_Some (<[id := p]> (rs_pending s) !! i) -> i = id \/ is_Some (rs_pending s !! i)).
  { intros i p. rewrite lookup_insert_is_Some'. intros [->|?]; tauto. }
  destruct (highest_seen_frame_id s) as [seen|].
  - destruct Hr as [Hws Hr]. rewrite (distance_window base) by done.
    destruct (Z.ltb_spec 0 (off base id - off base seen)); eexists; (split; [reflexivity|]); (split; [done|]);
      intros i [->|Hi]%Hin; try (split; [done|lia]); destruct (Hr _ Hi); (split; [done|lia]).
  - exists id. split; [done|]. split; [done|]. intros i [-> | [p Hi]]%Hin; [done|]. by rewrite Hr in Hi.
Qed.

Lemma grace_ingest s f : grace_of (ingest s f).2 = grace_of s.
Proof.
  destruct (ingest_cases s f) as [(? & ? & ? & -> & _)|(_ & _ & _ & ->)]; [done|].
  set (s2 := buffered_state s f). assert (E2 : grace_of s2 = grace_of s)
    by (unfold s2, buffered_state; by destruct (advance_frontier_fields s (frame_id (header f))) as (? & ? & ? & ->)).
  assert (Ea : forall r s3 id, grace_of (answer r (sweep_hopeless_frames s3) id).2 = grace_of s3).
  { intros r s3 id. assert (Esw : grace_of (sweep_hopeless_frames s3) = grace_of s3).
    { destruct (sweep_spec s3) as ((_ & _ & E3 & E4 & _) & _). unfold grace_of. by rewrite E3, E4. }
    unfold answer. destruct r; try done; by destruct (_ && _). }
  assert (Hp : rs_pending s2 !! frame_id (header f) = Some (buffer_fragment (entry_for s f) f)) by apply lookup_insert_eq.
  destruct (try_complete_cases s2 _ _ Hp) as [(fr & _ & ->)| ->]; by rewrite Ea.
Qed.

Lemma recent_ingest s f :
  receiving rfec sent s -> recent s -> honest sent f -> in_window base (frame_id (header f)) -> recent (ingest s f).2.
Proof.
  intros Hr Hrec (x & Hx & Hf) Hw. set (id := frame_id (header f)) in *.
  destruct (ingest_honest rfec sent Hsent s f x Hr Hx Hf) as [(? & ? & ->)|(_ & Ha & F1 & F2 & F3 & Hcase)]; [exact Hrec|].
  destruct (buffered_state_recent s f Hrec Hw Ha) as (fr & E1 & E2 & E3).
  destruct Hcase as [[Hc [via ->]]|[Hc ->]].
  - cbn [snd]. apply (recent_sweep _ fr); [|done|done|].
    + apply (receiving_sub rfec sent s); [done| |].
      * cbn. by destruct (advance_frontier_fields s (frame_id (header f))) as (? & ? & ? & ->).
      * cbn. rewrite delete_insert_eq. apply delete_subseteq.
    + intros i [p Hi]. apply E3. cbn in Hi. apply lookup_delete_Some in Hi as [_ Hi]. by eexists.
  - assert (Hs : recent (sweep_hopeless_frames (buffered_state s f))).
    { apply (recent_sweep _ fr); [|done..]. by eapply buffered_state_receiving. }
    unfold answer. by destruct (_ && _).
Qed.

Lemma pruned_answer r s id : pruned s -> pruned (answer r s id).2.
Proof. intros H. unfold answer. destruct r; try done; by destruct (_ && _). Qed.

Lemma pruned_ingest s past requested f :
  pruned s -> books base s past requested -> in_window base (frame_id (header f)) -> pruned (ingest s f).2.
Proof.
  intros Hp Hb Hw. destruct (ingest_cases s f) as [(? & ? & ? & -> & _)|(Hr & _ & _ & ->)]; [done|].
  pose proof (settled_buffer base s _ _ f Hb Hw Hr) as Hs. set (s2 := buffered_state s f) in *.
  assert (Hp2 : pruned s2).
  { unfold s2, buffered_state. by destruct (advance_frontier_fields s (frame_id (header f))) as (? & ? & ? & ->). }
  assert (Hpend : rs_pending s2 !! frame_id (header f) = Some (buffer_fragment (entry_for s f) f)) by apply lookup_insert_eq.
  destruct (try_complete_cases s2 _ _ Hpend) as [(fr & _ & ->)| ->]; cbv zeta; apply pruned_answer, pruned_sweep;
    try done; try by apply Hs.
  - apply pruned_retire; [done|done|]. by apply Hs.
  - eapply st_high, settled_retire; [exact Hs|by eexists].
  - eapply st_pending, settled_retire; [exact Hs|by eexists].
Qed.

Definition honest_call (c : Call) : Prop :=
  match c with Feed f => honest sent f /\ in_window base (frame_id (header f)) | _ => True end.

Lemma call_receiving s c :
  receiving rfec sent s -> match c with Feed f => honest sent f | _ => True end ->
  receiving rfec sent (call s c).2
  /\ forall id fr, (call s c).1 = Answered id (Completed fr) ->
       exists x via_fec, sent (fr_frame_id fr) = Some x /\ fr = frame_of x via_fec.
Proof.
  intros Hr Hc. destruct c as [f| |]; cbn [call].
  - destruct (ingest_receiving rfec sent Hsent s f Hr Hc) as [H1 H2]. destruct (ingest s f) as [r s']. split; [done|].
    intros id fr E. injection E as _ ->. by apply H2.
  - unfold next_dropped_frame. by destruct (dropped_queue s).
  - unfold next_needs_retransmit. by destruct (needs_retransmit_queue s) as [|[]].
Qed.

Lemma run_receiving cs s :
  receiving rfec sent s -> Forall (fun c => match c with Feed f => honest sent f | _ => True end) cs ->
  receiving rfec sent (run s cs).2
  /\ forall id fr, Answered id (Completed fr) ∈ (run s cs).1 ->
       exists x via_fec, sent (fr_frame_id fr) = Some x /\ fr = frame_of x via_fec.
Proof.
  revert s. induction cs as [|c cs IH]; intros s Hr Hcs; cbn [run].
  { split; [done|]. by intros id fr ?%elem_of_nil. }
  apply Forall_cons in Hcs as [Hc Hcs]. destruct (call_receiving s c Hr Hc) as [H1 H2].
  destruct (call s c) as [r s1]. cbn [fst snd] in *. destruct (IH s1 H1 Hcs) as [H3 H4].
  destruct (run s1 cs) as [rs s2]. cbn [fst snd] in *. split; [done|].
  intros id fr [E|Hin]%elem_of_cons; [by eapply H2|by eapply H4].
Qed.

(** The whole invariant of a session. *)
Definition session_ok (s : FrameReassembler) (past requested : list Z) : Prop :=
  receiving rfec sent s /\ recent s /\ pruned s /\ books base s past requested.

Lemma session_call s past requested c :
  session_ok s past requested -> honest_call c ->
  grace_of (call s c).2 = grace_of s
  /\ session_ok (call s c).2 (past ++ decided (call s c).1) (requested ++ asked (call s c).1).
Proof.
  intros (H1 & H2 & H3 & H4) Hc.
  assert (Hb : call_in_window base c) by (destruct c; [apply Hc|done|done]).
  destruct (books_call base s past requested c H4 Hb) as [B _]. cbv zeta in B.
  destruct (call_receiving s c H1) as [R _]; [destruct c; [apply Hc|done|done]|].
  unfold session_ok. destruct c as [f| |]; cbn [call] in *.
  - destruct Hc as [Hf Hw]. pose proof (grace_ingest s f). pose proof (recent_ingest s f H1 H2 Hf Hw).
    pose proof (pruned_ingest s past requested f H3 H4 Hw). by destruct (ingest s f) as [r s'].
  - unfold next_dropped_frame in *. by destruct (dropped_queue s).
  - unfold next_needs_retransmit in *. by destruct (needs_retransmit_queue s) as [|[]].
Qed.

Lemma session_run cs s past requested :
  session_ok s past requested -> Forall honest_call cs ->
  grace_of (run s cs).2 = grace_of s /\ exists past' requested', session_ok (run s cs).2 past' requested'.
Proof.
  revert s past requested. induction cs as [|c cs IH]; intros s past requested H Hcs; cbn [run]; [eauto|].
  apply Forall_cons in Hcs as [Hc Hcs]. destruct (session_call s past requested c H Hc) as [H1 H2].
  destruct (call s c) as [r s1]. cbn [fst snd] in *. destruct (IH s1 _ _ H2 Hcs) as [H3 H4].
  destruct (run s1 cs) as [rs s2]. cbn [fst snd] in *. split; [congruence|done].
Qed.

Lemma session_sizes s past requested :
  session_ok s past requested ->
  Z.of_nat (size (rs_pending s)) <= grace_of s + 1 /\ Z.of_nat (size (nacked s)) <= grace_of s + 1
  /\ (size (retired s) <= RETIRED_SOFT_CAP)%nat.
Proof.
  intros (_ & H2 & H3 & H4).
  assert (Hd : Z.of_nat (size (dom (rs_pending s))) <= grace_of s + 1).
  { change (size (dom (rs_pending s))) with (length (elements (dom (rs_pending s)))).
    unfold recent in H2. destruct (highest_seen_frame_id s) as [fr|].
    - destruct H2 as [Hw H2]. etransitivity; [apply (window_length _ (off base fr - grace_of s) (off base fr))|unfold grace_of; lia].
      + apply NoDup_elements.
      + intros id Hid%elem_of_elements%elem_of_dom. by apply H2.
    - replace (rs_pending s) with (∅ : gmap Z Pending) by (symmetry; apply map_empty; exact H2).
      rewrite dom_empty_L, elements_empty. cbn [length]. unfold grace_of. lia. }
  rewrite size_dom in Hd. split_and!; [done| |apply H3].
  assert (Hsub : nacked s ⊆ dom (rs_pending s)).
  { intros id Hid. apply elem_of_dom. eapply st_nacked; [exact H4|done]. }
  apply subseteq_size in Hsub. rewrite size_dom in Hsub. lia.
Qed.

Lemma receiving_new reorder grace cap fec :
  rfec = rs_fec (reassembler_new fec reorder) -> receiving rfec sent (enable_retransmit (reassembler_new fec reorder) grace cap).
Proof. intros ->. split; [done|]. intros id p. cbn. by rewrite lookup_empty. Qed.

Lemma session_new reorder grace cap fec :
  rfec = rs_fec (reassembler_new fec reorder) ->
  session_ok (enable_retransmit (reassembler_new fec reorder) grace cap) [] [].
Proof.
  intros E. split_and!; [by apply receiving_new| | |apply books_new].
  - intros id. cbn. apply lookup_empty.
  - split; [change (size (∅ : gset Z) <= RETIRED_SOFT_CAP)%nat; rewrite size_empty; apply Nat.le_0_l|]. intros id. cbn. by rewrite elem_of_empty.
Qed.
End Memory.

(** ** The properties *)

(** C10: one verdict per frame.  Whatever fragments arrive and whenever the two queues are drained, as long
    as the frame numbers lie in half the sequence space: no frame is decided (completed, dropped or
    signalled lost) twice, no frame is asked for again twice, a decided frame is no longer held, and
    every frame one of whose fragments was taken in is still held or was decided. *)
Theorem one_verdict_per_frame base fec reorder grace cap cs :
  Forall (call_in_window base) cs ->
  let '(replies, s) := run (enable_retransmit (reassembler_new fec reorder) grace cap) cs in
  let verdicts := flat_map decided replies ++ dropped_queue s in
  NoDup verdicts
  /\ NoDup (flat_map asked replies ++ (needs_retransmit_queue s).*1)
  /\ (forall id, id ∈ verdicts -> rs_pending s !! id = None)
  /\ (forall id, id ∈ flat_map taken replies -> is_Some (rs_pending s !! id) \/ id ∈ verdicts).
Proof.
  intros Hcs. destruct (books_run base cs _ [] [] (books_new base fec reorder grace cap) Hcs) as [[H1 H2 _ _ _ H6 _] Ht].
  cbv zeta in *. destruct (run _ cs) as [replies s]. cbn [fst snd app] in *. split_and!; [done|done| |].
  - intros id Hid. by apply H2.
  - intros id Hid. apply Ht. by right.
Qed.

Lemma small_in_window f : f ∈ small_fragments -> in_window 0 (frame_id (header f)).
Proof. intros Hf. destruct (small_fragments_of f Hf) as (E & _). unfold in_window. rewrite E. vm_compute. by split_and!. Qed.

Lemma one_verdict_per_frame_witness :
  let cs := map Feed small_fragments ++ [NextDropped] in
  let '(replies, s) := run (enable_retransmit (reassembler_new (Some fec_default) 2) 4 8) cs in
  flat_map decided replies = [0] /\ NoDup (flat_map decided replies ++ dropped_queue s).
Proof.
  intros cs. pose proof (one_verdict_per_frame 0 (Some fec_default) 2 4 8 cs) as H.
  assert (E : flat_map decided (run (enable_retransmit (reassembler_new (Some fec_default) 2) 4 8) cs).1 = [0])
    by (vm_compute; reflexivity).
  destruct (run _ cs) as [replies s]. split; [exact E|]. apply H. apply Forall_app. split; [|by apply Forall_singleton].
  apply Forall_forall. intros c (f & -> & Hf)%list_elem_of_fmap. apply small_in_window, Hf.
Defined.

(** what reaches the decoder is what was encoded.  Over a network that loses, repeats, delays and
    reorders the fragments of any number of frames, every completed frame is byte for byte the frame
    its sender packetized, with its flags; and no frame that could be completed from what has
    arrived is ever left waiting. *)
Theorem completed_frames_are_exact sent fec reorder grace cap cs :
  (forall id x, sent id = Some x ->
     sender_ok (rs_fec (reassembler_new fec reorder)) x /\ next_frame_id (sn_packetizer x) = id) ->
  Forall (fun c => match c with Feed f => honest sent f | _ => True end) cs ->
  let '(replies, s) := run (enable_retransmit (reassembler_new fec reorder) grace cap) cs in
  (forall id fr, Answered id (Completed fr) ∈ replies ->
     exists x via_fec, sent (fr_frame_id fr) = Some x /\ fr = frame_of x via_fec)
  /\ (forall id p, rs_pending s !! id = Some p -> ~ completable p).
Proof.
  intros Hsent Hcs.
  destruct (run_receiving _ sent Hsent cs _ (receiving_new _ sent Hsent reorder grace cap fec eq_refl) Hcs) as [[_ H1] H2].
  destruct (run _ cs) as [replies s]. split; [exact H2|]. intros id p Hp. by destruct (H1 _ _ Hp) as (x & _ & _ & _ & _ & ?).
Qed.

Definition only_small (id : Z) : option Sent := if id =? 0 then Some small_frame else None.

Lemma only_small_ok id x :
  only_small id = Some x ->
  sender_ok (rs_fec (reassembler_new (Some fec_default) 2)) x /\ next_frame_id (sn_packetizer x) = id.
Proof.
  unfold only_small. destruct (Z.eqb_spec id 0) as [->|]; [|done]. intros E. injection E as <-. split; [exact small_frame_ok|done].
Qed.

Lemma small_honest f : f ∈ small_fragments -> honest only_small f.
Proof.
  intros Hf. exists small_frame. split; [|by apply small_fragments_of].
  destruct (small_fragments_of f Hf) as (E & _). unfold only_small. by rewrite E.
Qed.

Lemma completed_frames_are_exact_witness :
  let s := enable_retransmit (reassembler_new (Some fec_default) 2) 4 8 in
  Forall (fun r => match r with
                   | Answered _ (Completed fr) => exists x via_fec, only_small (fr_frame_id fr) = Some x /\ fr = frame_of x via_fec
                   | _ => True end)
    (run s (map Feed (drop 1 small_fragments))).1.
Proof.
  intros s. pose proof (completed_frames_are_exact only_small (Some fec_default) 2 4 8 (map Feed (drop 1 small_fragments)) only_small_ok) as H.
  unfold s. destruct (run _ _) as [replies s']. apply Forall_forall. intros [id [|fr| |]| |] Hr; try done.
  revert Hr. apply H. apply Forall_forall.
  intros c (f & -> & Hf)%list_elem_of_fmap. apply small_honest. by eapply subseteq_drop.
Defined.

(** the client's memory is bounded.  With frame numbers in half the sequence space and honest traffic,
    at any point of a session at most one more frame is held than the longer grace window is wide,
    no more requests than that are remembered, and the set of retired frames stays within its cap. *)
Theorem held_memory_is_bounded base sent fec reorder grace cap cs :
  (forall id x, sent id = Some x ->
     sender_ok (rs_fec (reassembler_new fec reorder)) x /\ next_frame_id (sn_packetizer x) = id) ->
  Forall (honest_call base sent) cs ->
  let s := (run (enable_retransmit (reassembler_new fec reorder) grace cap) cs).2 in
  let longest := Z.max 0 (Z.max reorder grace) in
  Z.of_nat (size (rs_pending s)) <= longest + 1
  /\ Z.of_nat (size (nacked s)) <= longest + 1
  /\ (size (retired s) <= RETIRED_SOFT_CAP)%nat.
Proof.
  intros Hsent Hcs s longest.
  destruct (session_run base _ sent Hsent cs _ [] [] (session_new base _ sent Hsent reorder grace cap fec eq_refl) Hcs)
    as (Hg & past & requested & Hs).
  fold s in Hg, Hs. apply session_sizes in Hs. rewrite Hg in Hs. unfold grace_of in Hs. cbn in Hs.
  replace longest with (Z.max 0 (Z.max (Z.max reorder 0) (Z.max grace 0))) by lia. exact Hs.
Qed.

Lemma held_memory_is_bounded_witness :
  Z.of_nat (size (rs_pending (run (enable_retransmit (reassembler_new (Some fec_default) 2) 4 8) (map Feed small_fragments)).2)) <= 5.
Proof.
  apply (held_memory_is_bounded 0 only_small (Some fec_default) 2 4 8 (map Feed small_fragments) only_small_ok).
  apply Forall_forall. intros c (f & -> & Hf)%list_elem_of_fmap. split; [by apply small_honest|by apply small_in_window].
Defined.

(** ** Traffic nobody vouches for *)

(** What a decoded header always satisfies. *)
Definition wire_fragment (f : FrameFragment) : Prop := 0 <= frag_count (header f) < 65536 /\ 0 <= frag_index (header f).

Lemma wire_ingest s f :
  (forall id p, rs_pending s !! id = Some p -> counters_exact p) -> wire_fragment f ->
  forall id p, rs_pending (ingest s f).2 !! id = Some p -> counters_exact p.
Proof.
  intros H [Hc Hi]. destruct (ingest_cases s f) as [(? & ? & ? & -> & _)|(Hr & Hcount & _ & ->)]; [exact H|].
  assert (He : counters_exact (entry_for s f)).
  { unfold entry_for. destruct (rs_pending s !! _) eqn:E; [by eapply H|]. by apply pending_new_exact. }
  assert (Hlt : frag_index (header f) < frag_count (header f)).
  { unfold refused, implausible in Hr. destruct (Z.leb_spec (frag_count (header f)) (frag_index (header f))); [|done].
    by rewrite orb_true_r in Hr. }
  pose proof (buffer_exact _ f He ltac:(lia)) as Hb. set (id := frame_id (header f)) in *.
  assert (H2 : forall i p, rs_pending (buffered_state s f) !! i = Some p -> counters_exact p).
  { unfold buffered_state. destruct (advance_frontier_fields s (frame_id (header f))) as (? & ? & ? & ->). cbn.
    intros i p. fold id. destruct (decide (i = id)) as [->|Hne]; [rewrite lookup_insert_eq; by intros [= <-]|].
    rewrite lookup_insert_ne by done. apply H. }
  assert (Hsub : forall r s3, rs_pending s3 ⊆ rs_pending (buffered_state s f) ->
    forall i p, rs_pending (answer r (sweep_hopeless_frames s3) id).2 !! i = Some p -> counters_exact p).
  { intros r s3 Hs3 i p Hp. apply (H2 i). eapply lookup_weaken; [|exact Hs3].
    destruct (sweep_spec s3) as (_ & _ & _ & Hpend & _). cbv zeta in Hpend.
    assert (Hp' : rs_pending (sweep_hopeless_frames s3) !! i = Some p) by (unfold answer in Hp; destruct r; try done; by destruct (_ && _)).
    rewrite Hpend in Hp'. by destruct (decide _). }
  assert (Hp : rs_pending (buffered_state s f) !! id = Some (buffer_fragment (entry_for s f) f)) by apply lookup_insert_eq.
  destruct (try_complete_cases (buffered_state s f) id _ Hp) as [(fr & _ & E)|E]; rewrite E; apply Hsub; [|done].
  cbn. apply delete_subseteq.
Qed.

(** C16: the constant-time decision is the scan it replaces.  Whatever fragments arrive, hostile ones
    included (any header the wire can carry, any payload, any codec), in every state of a session the
    counters of every pending frame are those a scan of its buffer would find, and the decision read
    off them says yes exactly when in every group no more data is missing than parity shards are there. *)
Theorem counters_decide_exactly fec reorder grace cap cs :
  Forall (fun c => match c with Feed f => wire_fragment f | _ => True end) cs ->
  forall id p, rs_pending (run (enable_retransmit (reassembler_new fec reorder) grace cap) cs).2 !! id = Some p ->
  counters_exact p /\ (can_eventually_complete p = true <-> completable p).
Proof.
  intros Hcs id p Hp. assert (Hex : counters_exact p); [|by split; [|apply decision_exact]]. revert Hcs id p Hp.
  assert (H0 : forall id p, rs_pending (enable_retransmit (reassembler_new fec reorder) grace cap) !! id = Some p -> counters_exact p)
    by (intros id p; cbn; by rewrite lookup_empty).
  revert H0. generalize (enable_retransmit (reassembler_new fec reorder) grace cap).
  induction cs as [|c cs IH]; intros s H0 Hcs id p; cbn [run]; [apply H0|].
  apply Forall_cons in Hcs as [Hc Hcs].
  assert (H1 : forall id p, rs_pending (call s c).2 !! id = Some p -> counters_exact p).
  { destruct c as [f| |]; cbn [call].
    - pose proof (wire_ingest s f H0 Hc) as H. by destruct (ingest s f).
    - unfold next_dropped_frame. by destruct (dropped_queue s).
    - unfold next_needs_retransmit. by destruct (needs_retransmit_queue s) as [|[]]. }
  destruct (call s c) as [r s1]. cbn [snd] in H1. specialize (IH s1 H1 Hcs id p).
  by destruct (run s1 cs).
Qed.

Lemma counters_decide_exactly_witness :
  let s := (run (enable_retransmit (reassembler_new (Some (mkFec 5 1)) 2) 0 0)
    [Feed (mkFragment (mkHeader 0 7 0 3 0 1 0) [Byte.x61])]).2 in
  exists p, rs_pending s !! 7 = Some p /\ (can_eventually_complete p = true <-> completable p).
Proof.
  intros s. destruct (rs_pending s !! 7) as [p|] eqn:E; [|vm_compute in E; discriminate].
  exists p. split; [done|]. eapply (counters_decide_exactly (Some (mkFec 5 1)) 2 0 0); [|exact E].
  apply Forall_singleton. cbv. split; [split|]; congruence.
Defined.

(** A fragment of another frame never touches a frame the counters call completable. *)
Lemma decided_stays s f id p :
  rs_pending s !! id = Some p -> can_eventually_complete p = true -> frame_id (header f) <> id ->
  rs_pending (ingest s f).2 !! id = Some p.
Proof.
  intros Hp Hc Hne. destruct (ingest_cases s f) as [(? & ? & ? & -> & _)|(_ & _ & _ & ->)]; [done|].
  assert (H2 : rs_pending (buffered_state s f) !! id = Some p).
  { unfold buffered_state. destruct (advance_frontier_fields s (frame_id (header f))) as (? & ? & ? & ->). cbn.
    by rewrite lookup_insert_ne. }
  assert (Hkeep : forall r s3, rs_pending s3 !! id = Some p -> rs_pending (answer r (sweep_hopeless_frames s3) (frame_id (header f))).2 !! id = Some p).
  { intros r s3 H3. destruct (sweep_spec s3) as (_ & _ & _ & Hpend & _). cbv zeta in Hpend.
    assert (Hs : rs_pending (sweep_hopeless_frames s3) !! id = Some p).
    { rewrite Hpend, decide_False; [done|]. intros (fr & q & _ & Hq & Hv)%elem_of_losses.
      assert (q = p) as -> by congruence. unfold sweep_verdict in Hv. by rewrite Hc, orb_true_r in Hv. }
    unfold answer. destruct r; try done; by destruct (_ && _). }
  assert (Hpend : rs_pending (buffered_state s f) !! frame_id (header f) = Some (buffer_fragment (entry_for s f) f)) by apply lookup_insert_eq.
  destruct (try_complete_cases (buffered_state s f) _ _ Hpend) as [(fr & _ & E)|E]; rewrite E; apply Hkeep; [|done].
  cbn. by rewrite lookup_delete_ne.
Qed.

(** a parity shard that does not decode pins its frame.  Over any calls, a pending frame whose counters
    say it can complete stays held exactly as it is, neither dropped nor signalled nor asked for again,
    whatever fragments of other frames arrive and however far the frontier moves: the sweep reads the
    counters, which say nothing about whether assembly succeeds. *)
Theorem undecodable_frame_is_never_given_up s id p cs :
  rs_pending s !! id = Some p -> can_eventually_complete p = true ->
  Forall (fun c => match c with Feed f => frame_id (header f) <> id | _ => True end) cs ->
  rs_pending (run s cs).2 !! id = Some p.
Proof.
  intros Hp Hc Hcs. revert s Hp. induction cs as [|c cs IH]; intros s Hp; cbn [run]; [done|].
  apply Forall_cons in Hcs as [Hf Hcs].
  assert (H1 : rs_pending (call s c).2 !! id = Some p).
  { destruct c as [f| |]; cbn [call].
    - pose proof (decided_stays s f id p Hp Hc Hf). by destruct (ingest s f).
    - unfold next_dropped_frame. by destruct (dropped_queue s).
    - unfold next_needs_retransmit. by destruct (needs_retransmit_queue s) as [|[]]. }
  destruct (call s c) as [r s1]. cbn [snd] in H1. specialize (IH Hcs s1 H1). by destruct (run s1 cs).
Qed.

(** One parity fragment of four 0xff bytes does it: the frame can neither complete nor be given up. *)
Definition bad_parity : FrameFragment := mkFragment (mkHeader 0 0 1 2 Flags.PARITY 4 0) (replicate 4 Byte.xff).

Lemma undecodable_frame_is_never_given_up_witness :
  let s := (ingest (reassembler_new (Some fec_default) 2) bad_parity).2 in
  let later := map (fun n => Feed (mkFragment (mkHeader n n 0 1 0 1 0) [Byte.x61])) (seqZ 1 20) ++ [NextDropped] in
  (ingest (reassembler_new (Some fec_default) 2) bad_parity).1 = Incomplete
  /\ is_Some (rs_pending (run s later).2 !! 0).
Proof.
  intros s later. split; [vm_compute; reflexivity|].
  destruct (rs_pending s !! 0) as [p|] eqn:E; [|vm_compute in E; discriminate].
  exists p. apply (undecodable_frame_is_never_given_up s 0 p later E).
  - vm_compute in E. injection E as <-. reflexivity.
  - apply Forall_app. split; [|by apply Forall_singleton]. apply Forall_forall.
    intros c (n & -> & Hn%elem_of_seqZ)%list_elem_of_fmap. cbn. lia.
Defined.
