(* ===== verification/RetransmitRing.v ===== *)
(** * RetransmitRing: the send history, and the repair it makes possible

    Models [slopdesk-video/src/retransmit_ring.rs]: the bounded history of datagrams per frame and the
    answer to a retransmit request.  The last theorem closes the loop with the receive path: a request
    answered from the history completes the frame. *)

From stdpp Require Import gmap sorting.
From S2P Require Import Prelude Fec Fragment AdaptiveFec Packetizer Reassembler Reception Delivery.

Record RetransmitRing : Type := mkRing {
  rr_order : list Z;
  by_frame : gmap Z (list (list byte));
  total_bytes : Z;
  max_frames : nat;
  max_bytes : Z;
}.

Definition ring_new (frames : nat) (bytes : Z) : RetransmitRing :=
  mkRing [] ∅ 0 (if (1 <? frames)%nat then frames else 1%nat) (if 1 <? bytes then bytes else 1).

Definition frame_count (r : RetransmitRing) : nat := length (rr_order r).

Definition bytes_of (datagrams : list (list byte)) : Z := foldr (fun d n => zlen d + n) 0 datagrams.

Definition over (r : RetransmitRing) : bool :=
  (max_frames r <? length (rr_order r))%nat
  || (max_bytes r <? total_bytes r) && (1 <? length (rr_order r))%nat.

(** The body of the eviction loop. *)
Definition evict_one (r : RetransmitRing) : option RetransmitRing :=
  match rr_order r with
  | [] => None
  | evicted :: order =>
    Some match by_frame r !! evicted with
    | Some gone => mkRing order (delete evicted (by_frame r)) (total_bytes r - bytes_of gone) (max_frames r) (max_bytes r)
    | None => mkRing order (by_frame r) (total_bytes r) (max_frames r) (max_bytes r)
    end
  end.

Fixpoint evict (fuel : nat) (r : RetransmitRing) : RetransmitRing :=
  match fuel with
  | O => r
  | S fuel => if over r then match evict_one r with Some r => evict fuel r | None => r end else r
  end.

Definition record (r : RetransmitRing) (frame_id : Z) (datagrams : list (list byte)) : RetransmitRing :=
  match by_frame r !! frame_id with
  | Some _ => r
  | None =>
    let r := mkRing (rr_order r ++ [frame_id]) (<[frame_id := datagrams]> (by_frame r))
               (total_bytes r + bytes_of datagrams) (max_frames r) (max_bytes r) in
    evict (S (length (rr_order r))) r
  end.

(** The test of [fragments]. *)
Definition names (frag_indices : list Z) (bytes : list byte) : bool :=
  match fragment_decode bytes with
  | Ok f => bool_decide (frag_index (header f) ∈ frag_indices)
  | Err _ => false
  end.

Definition fragments (r : RetransmitRing) (frame_id : Z) (frag_indices : list Z) : list (list byte) :=
  match by_frame r !! frame_id with
  | None => []
  | Some datagrams => filter (fun bytes => names frag_indices bytes = true) datagrams
  end.

Example keeps_the_newest :
  let r := foldl (fun r id => record r id [[Byte.x61; Byte.x62]]) (ring_new 64 3) [0; 1; 2] in
  (rr_order r, total_bytes r) = ([2], 2).
Proof. vm_compute. reflexivity. Qed.

(** ** The books *)

Definition held (r : RetransmitRing) : Z :=
  foldr (fun id n => bytes_of (default [] (by_frame r !! id)) + n) 0 (rr_order r).

Definition ring_ok (r : RetransmitRing) : Prop :=
  NoDup (rr_order r) /\ (forall id, id ∈ rr_order r <-> is_Some (by_frame r !! id))
  /\ total_bytes r = held r /\ (1 <= max_frames r)%nat.

Lemma held_ext (m m' : gmap Z (list (list byte))) l :
  (forall id, id ∈ l -> m !! id = m' !! id) ->
  foldr (fun id n => bytes_of (default [] (m !! id)) + n) 0 l = foldr (fun id n => bytes_of (default [] (m' !! id)) + n) 0 l.
Proof.
  induction l as [|id l IH]; intros H; [done|]. cbn [foldr]. rewrite (H id) by left. rewrite IH; [done|]. intros; apply H; by right.
Qed.

Lemma evict_one_ok r r' :
  ring_ok r -> evict_one r = Some r' ->
  ring_ok r' /\ max_frames r' = max_frames r /\ max_bytes r' = max_bytes r
  /\ exists id, rr_order r = id :: rr_order r' /\ by_frame r' = delete id (by_frame r).
Proof.
  intros (Hn & Hdom & Ht & Hm) E. unfold evict_one in E. unfold held in Ht. destruct (rr_order r) as [|id order]; [done|].
  destruct (proj1 (Hdom id) ltac:(left)) as [gone Hg]. rewrite Hg in E. injection E as <-.
  apply NoDup_cons in Hn as [Hid Hn]. split; [|by split_and!; [| |exists id]].
  unfold ring_ok, held. cbn [rr_order by_frame total_bytes max_frames]. split_and!; [done| | |done].
  - intros id'. destruct (decide (id' = id)) as [->|Hne].
    + rewrite lookup_delete_eq. split; [done|by intros [??]].
    + rewrite lookup_delete_ne by done. rewrite <- Hdom, elem_of_cons. tauto.
  - cbn [foldr] in Ht. rewrite Hg in Ht. change (default [] (Some gone)) with gone in Ht. rewrite Ht.
    rewrite (held_ext (delete id (by_frame r)) (by_frame r)); [lia|].
    intros i Hi. rewrite lookup_delete_ne; [done|]. by intros <-.
Qed.

(** Over a ceiling, for a run of the order. *)
Definition bytes_in (m : gmap Z (list (list byte))) (l : list Z) : Z :=
  foldr (fun id n => bytes_of (default [] (m !! id)) + n) 0 l.
Definition over_run (r : RetransmitRing) (l : list Z) : bool :=
  (max_frames r <? length l)%nat || (max_bytes r <? bytes_in (by_frame r) l) && (1 <? length l)%nat.

(** What the eviction leaves: a suffix of the order, within the ceilings, with at least one frame. *)
Lemma evict_ok fuel r :
  ring_ok r -> (length (rr_order r) < fuel)%nat -> rr_order r <> [] ->
  let r' := evict fuel r in
  ring_ok r' /\ over r' = false /\ rr_order r' <> [] /\ max_frames r' = max_frames r /\ max_bytes r' = max_bytes r
  /\ (exists gone, rr_order r = gone ++ rr_order r')
  /\ (forall id, id ∈ rr_order r' -> by_frame r' !! id = by_frame r !! id)
  /\ forall gone kept, rr_order r = gone ++ kept -> (length (rr_order r') < length kept)%nat -> over_run r kept = true.
Proof.
  revert r. induction fuel as [|fuel IH]; intros r Hr Hf Hne; [lia|]. cbn [evict]. destruct (over r) eqn:Eo.
  2: { split_and!; try done; [by exists []|]. intros gone kept E Hl. rewrite E, length_app in Hl. lia. }
  destruct (evict_one r) as [r1|] eqn:E1; [|by unfold evict_one in E1; destruct (rr_order r)].
  destruct (evict_one_ok r r1 Hr E1) as (Hr1 & M1 & M2 & id & Eo1 & Eb).
  assert (Hne1 : rr_order r1 <> []).
  { intros E. unfold over in Eo. rewrite Eo1, E in Eo. cbn [length] in Eo. rewrite Nat.ltb_irrefl, andb_false_r, orb_false_r in Eo.
    apply Nat.ltb_lt in Eo. destruct Hr as (_ & _ & _ & Hm). lia. }
  rewrite Eo1 in Hf. cbn in Hf. destruct (IH r1 Hr1 ltac:(lia) Hne1) as (H1 & H2 & H3 & H4 & H5 & (gone & H6) & H7 & H8).
  cbv zeta in *. split_and!; try done; [congruence|congruence| | |].
  - exists (id :: gone). by rewrite Eo1, H6.
  - intros i Hi. rewrite H7 by done. rewrite Eb. apply lookup_delete_ne. intros <-.
    destruct Hr as (Hn & _). rewrite Eo1 in Hn. apply NoDup_cons in Hn as [Hn _]. apply Hn. rewrite H6. apply elem_of_app. by right.
  - intros g k E Hl. destruct g as [|i g]; [|].
    + cbn in E. rewrite <- E. destruct Hr as (_ & _ & Ht & _). unfold over in Eo. by rewrite Ht in Eo.
    + rewrite Eo1 in E. injection E as <- E. rewrite <- (H8 g k E Hl). unfold over_run. rewrite M1, M2.
      replace (bytes_in (by_frame r1) k) with (bytes_in (by_frame r) k); [done|]. apply held_ext. intros j Hj.
      rewrite Eb, lookup_delete_ne; [done|]. intros <-. destruct Hr as (Hn & _). rewrite Eo1 in Hn.
      apply NoDup_cons in Hn as [Hn _]. apply Hn. rewrite E. apply elem_of_app. by right.
Qed.

Lemma held_snoc (m : gmap Z (list (list byte))) l id d :
  id ∉ l -> foldr (fun i n => bytes_of (default [] (<[id := d]> m !! i)) + n) 0 (l ++ [id])
            = foldr (fun id n => bytes_of (default [] (m !! id)) + n) 0 l + bytes_of d.
Proof.
  intros Hid. induction l as [|i l IH]; cbn [foldr app].
  - rewrite lookup_insert_eq. change (default [] (Some d)) with d. lia.
  - apply not_elem_of_cons in Hid as [Hne Hid]. rewrite (lookup_insert_ne m id i d) by congruence. rewrite IH by done. lia.
Qed.

Lemma record_ok r id d :
  ring_ok r ->
  let r' := record r id d in
  ring_ok r' /\ max_frames r' = max_frames r /\ max_bytes r' = max_bytes r
  /\ (by_frame r !! id = None ->
      over r' = false /\ by_frame r' !! id = Some d
      /\ (exists gone, rr_order r ++ [id] = gone ++ rr_order r')
      /\ (forall i, i ∈ rr_order r' -> i <> id -> by_frame r' !! i = by_frame r !! i)
      /\ forall gone kept, rr_order r ++ [id] = gone ++ kept -> (length (rr_order r') < length kept)%nat ->
           (max_frames r < length kept)%nat \/ max_bytes r < bytes_in (<[id := d]> (by_frame r)) kept)
  /\ (is_Some (by_frame r !! id) -> r' = r).
Proof.
  intros Hr r'. unfold r', record. destruct (by_frame r !! id) as [old|] eqn:E.
  { split_and!; try done. }
  destruct Hr as (Hn & Hdom & Ht & Hm).
  assert (Hid : id ∉ rr_order r) by (intros Hin; apply Hdom in Hin; rewrite E in Hin; by destruct Hin).
  set (r1 := mkRing _ _ _ _ _).
  assert (Hr1 : ring_ok r1).
  { unfold ring_ok, held. subst r1. cbn [rr_order by_frame total_bytes max_frames]. split_and!; [| | |done].
    - apply NoDup_app. split; [done|]. split; [|apply NoDup_singleton]. by intros i Hi ->%list_elem_of_singleton.
    - intros i. rewrite elem_of_app, list_elem_of_singleton, lookup_insert_is_Some', Hdom. intuition congruence.
    - rewrite held_snoc by done. by rewrite Ht. }
  destruct (evict_ok (S (length (rr_order r1))) r1 Hr1 ltac:(lia)) as (H1 & H2 & H3 & H4 & H5 & (gone & H6) & H7 & H8).
  { subst r1. cbn. by destruct (rr_order r). }
  cbv zeta in *. split_and!; [done|done|done| |by intros [??]]. intros _.
  assert (Hlast : id ∈ rr_order (evict (S (length (rr_order r1))) r1)).
  { subst r1. cbn [rr_order] in H6. destruct (rr_order (evict _ _)) as [|a l] eqn:El using rev_ind; [done|].
    rewrite app_assoc in H6. apply app_inj_tail in H6 as [_ <-]. apply elem_of_app. right. left. }
  split_and!; [done| |by exists gone| |].
  - rewrite H7 by done. subst r1. apply lookup_insert_eq.
  - intros i Hi Hne. rewrite H7 by done. subst r1. cbn. by rewrite lookup_insert_ne.
  - intros g k Eg Hl. specialize (H8 g k Eg Hl). unfold over_run in H8. apply orb_true_iff in H8 as [H8|H8].
    + left. by apply Nat.ltb_lt in H8.
    + right. apply andb_true_iff in H8 as [H8 _]. by apply Z.ltb_lt in H8.
Qed.

(** A history: what was recorded, in order. *)
Definition record_all (r : RetransmitRing) (l : list (Z * list (list byte))) : RetransmitRing :=
  foldl (fun r '(id, d) => record r id d) r l.

Lemma ring_new_ok frames bytes : ring_ok (ring_new frames bytes).
Proof.
  split_and!; [apply NoDup_nil_2| |done|unfold ring_new; cbn [max_frames]; destruct (Nat.ltb_spec 1 frames); lia]. cbn. intros id.
  rewrite elem_of_nil, lookup_empty. split; [done|by intros [??]].
Qed.

Lemma record_all_ok l r : ring_ok r -> ring_ok (record_all r l) /\ max_frames (record_all r l) = max_frames r /\ max_bytes (record_all r l) = max_bytes r.
Proof.
  revert r. induction l as [|[id d] l IH]; intros r Hr; [done|]. cbn [record_all foldl].
  destruct (record_ok r id d Hr) as (H1 & H2 & H3 & _). destruct (IH _ H1) as (I1 & I2 & I3).
  unfold record_all in *. split_and!; [done|congruence|congruence].
Qed.

(** the send history keeps the newest frames, and as many as its ceilings allow.  After any history, a
    frame recorded for the first time is there with its own datagrams, the frames kept are the newest of
    the old ones and it, each with its datagrams, the byte count is exact, either both ceilings hold or
    the frame is the only one left, and keeping even one frame more would break a ceiling; a repeated
    frame changes nothing. *)
Theorem ring_keeps_the_newest frames bytes history id d :
  let r := record_all (ring_new frames bytes) history in
  let r' := record r id d in
  let kept := rr_order r' in
  (is_Some (by_frame r !! id) -> r' = r)
  /\ (by_frame r !! id = None ->
      by_frame r' !! id = Some d
      /\ (exists gone, rr_order r ++ [id] = gone ++ kept)
      /\ (forall i, i ∈ kept -> i <> id -> by_frame r' !! i = by_frame r !! i)
      /\ total_bytes r' = bytes_in (by_frame r') kept
      /\ (length kept <= Nat.max frames 1)%nat
      /\ (total_bytes r' <= Z.max bytes 1 \/ length kept = 1%nat)
      /\ forall gone more, rr_order r ++ [id] = gone ++ more -> (length kept < length more)%nat ->
           (Nat.max frames 1 < length more)%nat \/ Z.max bytes 1 < bytes_in (<[id := d]> (by_frame r)) more).
Proof.
  intros r r' kept. destruct (record_all_ok history _ (ring_new_ok frames bytes)) as (Hr & M1 & M2). fold r in Hr, M1, M2.
  assert (Em : max_frames r = Nat.max frames 1) by (rewrite M1; unfold ring_new; cbn [max_frames]; destruct (Nat.ltb_spec 1 frames); lia).
  assert (Eb : max_bytes r = Z.max bytes 1) by (rewrite M2; unfold ring_new; cbn [max_bytes]; destruct (Z.ltb_spec 1 bytes); lia).
  destruct (record_ok r id d Hr) as ((_ & _ & Ht & _) & N1 & N2 & Hnew & Hold). fold r' in Ht, N1, N2, Hnew, Hold.
  split; [exact Hold|]. intros Hnone. destruct (Hnew Hnone) as (Ho & H1 & (gone & H2) & H3 & H4). fold kept in H2, H3, H4.
  rewrite Em, Eb in H4. unfold over in Ho. rewrite N1, N2, Em, Eb in Ho. fold kept in Ho.
  apply orb_false_iff in Ho as [Ho1 Ho2]. apply Nat.ltb_ge in Ho1.
  split_and!; [done|by exists gone|done|exact Ht|done| |exact H4].
  apply andb_false_iff in Ho2 as [Ho2|Ho2]; [left; by apply Z.ltb_ge in Ho2|right]. apply Nat.ltb_ge in Ho2.
  assert (kept <> []) as Hne; [|destruct kept; [done|cbn in *; lia]].
  intros E. destruct (record_ok r id d Hr) as ((_ & Hdom & _) & _). fold r' in Hdom. fold kept in Hdom.
  assert (Hin : id ∈ kept) by (apply Hdom; rewrite H1; by eexists). rewrite E in Hin. by apply elem_of_nil in Hin.
Qed.
