(* ===== verification/Repair.v ===== *)
(** * Repair: a retransmit request, answered from the send history, completes the frame

    The loop between [reassembler.rs], which asks, and [retransmit_ring.rs], which answers. *)

From stdpp Require Import gmap sorting.
From S2P Require Import Prelude Fec Fragment AdaptiveFec Packetizer Reassembler Reception Delivery RetransmitRing.

(** ** What is asked for *)

(** The data a frame lacks. *)
Definition lacks (p : Pending) (i : nat) : Prop := (i < resolved_data_count p)%nat /\ pd_data p !! Z.of_nat i = None.

Definition absent (p : Pending) (indices : list nat) : list Z :=
  map Z.of_nat (filter (fun i => pd_data p !! Z.of_nat i = None) indices).

Lemma missing_scan_spec p cap indices acc l :
  (forall i, i ∈ indices -> Z.of_nat i <= 65535) -> (length acc <= cap)%nat ->
  missing_scan p cap indices acc = Some l <->
  l = acc ++ absent p indices /\ (length l <= cap)%nat.
Proof.
  revert acc. induction indices as [|i indices IH]; intros acc Hi Hacc; cbn [missing_scan].
  { unfold absent. cbn. rewrite app_nil_r. split; [intros [= <-]; done|by intros [-> _]]. }
  rewrite (proj2 (Z.leb_le _ _)) by (apply Hi; left). unfold absent. rewrite filter_cons.
  assert (Hrest : forall j, j ∈ indices -> Z.of_nat j <= 65535) by (intros; apply Hi; by right).
  destruct (pd_data p !! Z.of_nat i) eqn:E.
  - rewrite decide_False by done. by apply IH.
  - rewrite decide_True by done. cbn [map]. destruct (Nat.ltb_spec cap (length (acc ++ [Z.of_nat i]))) as [Hlt|Hge].
    + split; [done|]. intros [-> Hl]. rewrite length_app in *. cbn [length] in *. lia.
    + rewrite IH by done. unfold absent. by rewrite <- app_assoc.
Qed.

(** A request names exactly the data the frame lacks, in order, when that is something and at most the cap. *)
Lemma missing_data_frags_spec p cap l :
  Z.of_nat (resolved_data_count p) <= 65536 ->
  missing_data_frags p cap = Some l <->
  l = absent p (seq 0 (resolved_data_count p)) /\ l <> [] /\ (length l <= cap)%nat.
Proof.
  intros Hsmall. unfold missing_data_frags. destruct (Nat.eqb_spec (resolved_data_count p) 0) as [->|Hne].
  { cbn. split; [done|]. intros (-> & ? & _). done. }
  pose proof (missing_scan_spec p cap (seq 0 (resolved_data_count p)) []) as H.
  assert (Hi : forall i, i ∈ seq 0 (resolved_data_count p) -> Z.of_nat i <= 65535) by (intros i Hi%elem_of_seq; lia).
  specialize (fun l => H l Hi ltac:(cbn; lia)). cbn [app] in H.
  destruct (missing_scan _ _ _ _) as [l'|] eqn:E.
  - destruct (proj1 (H l') eq_refl) as [El Hl]. rewrite <- El. destruct l' as [|z l'].
    + split; [done|]. by intros (-> & ? & _).
    + split; [intros [= <-]; by split_and!|]. by intros (-> & _).
  - split; [done|]. intros (-> & _ & Hl). by destruct (proj2 (H _) (conj eq_refl Hl)).
Qed.

Lemma elem_of_absent p z : z ∈ absent p (seq 0 (resolved_data_count p)) <-> exists i, z = Z.of_nat i /\ lacks p i.
Proof.
  unfold absent, lacks. rewrite list_elem_of_fmap. split.
  - intros (i & -> & [Hn Hi%elem_of_seq]%list_elem_of_filter). exists i. split; [done|]. split; [lia|done].
  - intros (i & -> & Hi & Hn). exists i. split; [done|]. apply list_elem_of_filter. split; [done|]. apply elem_of_seq. lia.
Qed.

(** ** What is answered *)

Lemma named indices f :
  fragment_decode (fragment_encode f) = Ok f ->
  names indices (fragment_encode f) = bool_decide (frag_index (header f) ∈ indices).
Proof. intros Hf. unfold names. by rewrite Hf. Qed.

Lemma answered_fragments r id ds parsed indices :
  by_frame r !! id = Some ds -> ds = map fragment_encode parsed ->
  (forall f, f ∈ parsed -> fragment_decode (fragment_encode f) = Ok f) ->
  omap (fun d => match fragment_decode d with Ok f => Some f | Err _ => None end) (fragments r id indices)
  = filter (fun f => frag_index (header f) ∈ indices) parsed.
Proof.
  intros Hr -> Hdec. unfold fragments. rewrite Hr. clear Hr. induction parsed as [|f parsed IH]; [done|].
  assert (Hf : fragment_decode (fragment_encode f) = Ok f) by (apply Hdec; left).
  specialize (IH ltac:(intros; apply Hdec; by right)). cbn [map]. rewrite !filter_cons.
  pose proof (named indices f Hf) as En.
  destruct (decide (frag_index (header f) ∈ indices)) as [Hin|Hin].
  - rewrite decide_True by (rewrite En; by apply bool_decide_eq_true_2). cbn [omap list_omap]. by rewrite Hf, IH.
  - rewrite decide_False; [done|]. rewrite En. by rewrite bool_decide_eq_false_2.
Qed.

(** Every index of a frame goes out once. *)
Lemma stamped_indices frame_id frag_count flags ts seq idx payloads :
  map (fun f => frag_index (header f)) (stamped frame_id frag_count flags ts seq idx payloads)
  = map (fun i => idx + Z.of_nat i) (List.seq 0 (length payloads)).
Proof.
  revert seq idx. induction payloads as [|p l IH]; intros seq idx; [done|].
  rewrite stamped_cons. cbn [map length List.seq header frag_index]. rewrite IH, Z.add_0_r. f_equal.
  rewrite <- seq_shift, map_map. apply map_ext. intros i. lia.
Qed.

Lemma frame_fragments_indices self frame options :
  map (fun f => frag_index (header f)) (frame_fragments self frame options)
  = map Z.of_nat (seq 0 (fragment_total self frame options)).
Proof.
  unfold frame_fragments, fragment_total. rewrite map_app, !stamped_indices, List.seq_app, map_app, Nat.add_0_l. f_equal.
  replace (List.seq (length (payloads_of frame)) (length (frame_parity self frame options)))
    with (map (Nat.add (length (payloads_of frame))) (List.seq 0 (length (frame_parity self frame options))))
    by (rewrite <- (Nat.add_0_r (length (payloads_of frame))) at 2; apply fmap_add_seq).
  rewrite map_map. apply map_ext. intros i. lia.
Qed.

Lemma map_filter_key {A} (key : A -> Z) (l : list A) (wanted : list Z) :
  map key (filter (fun x => key x ∈ wanted) l) = filter (fun z => z ∈ wanted) (map key l).
Proof.
  induction l as [|x l IH]; [done|]. cbn [map]. rewrite !filter_cons.
  destruct (decide (key x ∈ wanted)); cbn [map]; by rewrite ?IH.
Qed.

Lemma absent_nodup p n : NoDup (absent p (seq 0 n)).
Proof. unfold absent. apply NoDup_fmap_2; [exact Nat2Z.inj|]. apply NoDup_filter, NoDup_seq. Qed.

(** ** The frame completes *)

Section Heal.
Context (rfec : option ReedSolomonFec) (sent : Z -> option Sent).
Hypothesis Hsent : forall id x, sent id = Some x -> sender_ok rfec x /\ next_frame_id (sn_packetizer x) = id.
Context (id frontier : Z) (x : Sent).
Hypothesis Hx : sent id = Some x.

(** Held for its retransmit. *)
Definition asked_for (s : FrameReassembler) : Prop :=
  receiving rfec sent s /\ id ∈ nacked s /\ (id ∉ retired s) /\ highest_seen_frame_id s = Some frontier
  /\ 0 < retransmit_grace s /\ distance_wrapped frontier id <= retransmit_grace s /\ distance_wrapped id frontier <= 0.

Lemma lacks_nothing p : buffered rfec x p -> counters_exact p -> (forall i, ~ lacks p i) -> completable p.
Proof.
  intros (_ & _ & _ & B4) Hex Hn. pose proof (payloads_nonempty (sn_frame x)) as Hne. fold (sn_data x) in Hne.
  unfold completable, lacks, resolved_data_count in *. destruct (pd_group_size p) as [g|].
  - destruct B4 as (scheme & _ & _ & _ & _ & Hp & _). right. split; [lia|]. intros j _.
    unfold missing_in. rewrite filter_none; [cbn; lia|]. intros i Hi%elem_of_seq E. apply (Hn i). split; [lia|done].
  - right. split; [lia|]. intros i Hi. apply not_eq_None_Some. intros E. by apply (Hn i).
Qed.

(** A fragment takes its index off what is lacking, and adds nothing. *)
Lemma buffer_lacks p f i :
  buffered rfec x p -> fragment_of x f -> lacks (buffer_fragment p f) i -> lacks p i /\ frag_index (header f) <> Z.of_nat i.
Proof.
  intros Hb Hf [Hi Hn]. destruct (buffer_buffered rfec x p f Hb Hf) as [Hb' _].
  pose proof Hb as (B1 & _ & _ & B4). pose proof Hb' as (_ & _ & _ & B4').
  pose proof (fragment_index x f Hf) as [_ Hrange].
  destruct Hf as (_ & _ & _ & _ & _ & k & Hk & [[Hin Hsay]|(slot & -> & Hin & Hsay)]);
    pose proof Hsay as (_ & _ & _ & _ & _ & Hpar & _).
  - destruct (buffer_data_fields p f Hpar) as (F1 & _ & F3 & _ & F5). cbv zeta in *.
    rewrite F1, Hk in Hn. destruct (decide (k = i)) as [->|Hne]; [by rewrite lookup_insert_eq in Hn|].
    rewrite lookup_insert_ne in Hn by lia. split; [|lia]. split; [|done].
    unfold resolved_data_count in *. rewrite F3 in *. destruct (pd_group_size p); [|by rewrite F5 in Hi].
    destruct B4 as (? & _ & _ & _ & _ & -> & _). by destruct B4' as (? & _ & _ & _ & _ & <- & _).
  - destruct (buffer_parity_fields x p f (length (payloads_of (sn_frame x)) + slot) Hpar Hk) as (F1 & _ & F3 & _ & F5).
    { rewrite B1. unfold count_of. lia. }
    cbv zeta in *. rewrite F1 in Hn. unfold resolved_data_count in *. rewrite F3 in *; rewrite Hk; destruct (pd_group_size p) eqn:Eg.
    + destruct B4 as (? & _ & _ & _ & _ & E1 & _). destruct B4' as (? & _ & _ & _ & _ & E2 & _).
      unfold lacks, resolved_data_count. rewrite Eg, E1. rewrite E2 in Hi. unfold sn_data in *. split; [done|lia].
    + rewrite F5 in Hi. unfold lacks, resolved_data_count. rewrite Eg. split; [split; [lia|done]|lia].
Qed.

(** One repair fragment: the frame completes, or it goes on waiting. *)
Lemma repair_step s p f :
  asked_for s -> rs_pending s !! id = Some p -> fragment_of x f ->
  (exists via_fec s', ingest s f = (Completed (frame_of x via_fec), s'))
  \/ exists s', (ingest s f).2 = s' /\ asked_for s' /\ rs_pending s' !! id = Some (buffer_fragment p f).
Proof.
  intros (Hr & Hn & Hret & Hseen & Hg0 & Hg & Hd) Hp Hf. destruct (Hsent _ _ Hx) as [Hok Hid].
  assert (Hfid : frame_id (header f) = id) by (destruct Hf as (E & _); by rewrite E).
  destruct (ingest_honest rfec sent Hsent s f x Hr ltac:(by rewrite Hfid) Hf) as [(c & r & E)|(_ & Ha & F1 & F2 & F3 & [[Hc [via E]]|[Hc E]])].
  - exfalso. unfold ingest in E. rewrite (plausible rfec x Hok f Hf), Hfid, bool_decide_eq_false_2, Hp in E by done.
    rewrite (bool_decide_eq_false_2 (Some p = None)) in E by done.
    assert (Ea : advance_frontier s id = (true, (advance_frontier s id).2)).
    { unfold advance_frontier. rewrite Hseen. unfold MAX_FRONTIER_JUMP. destruct (Z.ltb_spec 4096 (distance_wrapped id frontier)); [lia|].
      cbn [negb]. by destruct (0 <? _). }
    destruct (highest_retired_frame_id s); rewrite ?andb_false_r in E; rewrite Ea in E; cbn [negb] in E;
      destruct (advance_frontier_fields s id) as (? & ? & ? & Eaf); rewrite Eaf, entry_for_frontier in E;
      (destruct Hr as [Hs Hpend]; destruct (Hpend _ _ Hp) as (x' & Hx' & _ & (B1 & _) & _); assert (x' = x) as -> by congruence);
      assert (Ee : entry_for s f = p) by (unfold entry_for; by rewrite Hfid, Hp);
      rewrite Ee, B1, (proj1 (fragment_index x f Hf)), Z.eqb_refl in E; cbn [negb] in E;
      destruct (try_complete _ _) as [[| | |] s3] in E; try done; by destruct (_ && _) in E.
  - left. eexists via, _. exact E.
  - right. rewrite E. set (s2 := buffered_state s f) in *. set (p' := buffer_fragment (entry_for s f) f) in *.
    assert (Ee : p' = buffer_fragment p f) by (unfold p', entry_for; by rewrite Hfid, Hp).
    assert (Hp2 : rs_pending s2 !! id = Some p') by (unfold s2, buffered_state; rewrite Hfid; apply lookup_insert_eq).
    assert (H2 : highest_seen_frame_id s2 = Some frontier /\ nacked s2 = nacked s /\ retired s2 = retired s /\ retransmit_grace s2 = retransmit_grace s).
    { split; [|unfold s2, buffered_state; by destruct (advance_frontier_fields s (frame_id (header f))) as (? & ? & ? & ->)].
      unfold s2, buffered_state. cbn [with_pending highest_seen_frame_id]. rewrite (advance_frontier_seen s _ Ha), Hseen, Hfid.
      by rewrite (proj2 (Z.ltb_ge 0 _)). }
    destruct H2 as (G1 & G2 & G3 & G4).
    assert (Hkeep : id ∉ losses s2).
    { intros (fr & q & Hfr & Hq & Hv)%elem_of_losses. assert (fr = frontier) as -> by congruence. assert (q = p') as -> by congruence.
      unfold sweep_verdict in Hv. rewrite G2, G4, (bool_decide_eq_true_2 _ Hn), (proj2 (Z.ltb_lt _ _) Hg0), (proj2 (Z.leb_le _ _) Hg) in Hv.
      by repeat case_match. }
    assert (Hrec : receiving rfec sent (sweep_hopeless_frames s2)).
    { apply sweep_receiving. eapply buffered_state_receiving; try done. by rewrite Hfid. }
    destruct (sweep_spec s2) as ((S1 & S2 & S3 & S4 & S5) & _ & _ & S8 & S9). cbv zeta in *.
    assert (Hpend : rs_pending (sweep_hopeless_frames s2) !! id = Some p') by (by rewrite S8, decide_False).
    unfold answer. rewrite Hfid, Hpend, (bool_decide_eq_false_2 (Some p' = None)) by done. cbn [andb snd].
    exists (sweep_hopeless_frames s2). split; [done|].
    split; [|by rewrite <- Ee]. split; [done|]. rewrite S2, S4, G1, G4. split_and!; try done.
    + apply S9. split; [left; by rewrite G2|done].
    + rewrite sweep_folds. apply not_retired; [done|]. destruct (foldl_ask (requests s2) s2) as (_ & _ & _ & -> & _). by rewrite G3.
Qed.

Lemma heal_run fs s p :
  asked_for s -> rs_pending s !! id = Some p -> (forall f, f ∈ fs -> fragment_of x f) ->
  (forall i, lacks p i -> exists f, f ∈ fs /\ frag_index (header f) = Z.of_nat i) ->
  exists via_fec, Completed (frame_of x via_fec) ∈ (ingest_all s fs).1.
Proof.
  revert s p. induction fs as [|f fs IH]; intros s p Ha Hp Hfs Hl.
  - exfalso. pose proof Ha as ((_ & Hr) & _). destruct (Hr _ _ Hp) as (x' & Hx' & Hex & Hb & _ & Hc).
    assert (x' = x) as -> by congruence. apply Hc, lacks_nothing; [done..|].
    intros i Hi. destruct (Hl i Hi) as (f & Hf & _). by apply elem_of_nil in Hf.
  - assert (Hf : fragment_of x f) by (apply Hfs; left). cbn [ingest_all].
    destruct (repair_step s p f Ha Hp Hf) as [(via & s' & ->)|(s' & E & Ha' & Hp')].
    + exists via. destruct (ingest_all s' fs). left.
    + destruct (ingest s f) as [r s'']. cbn [snd] in E. subst s''.
      destruct (IH s' _ Ha' Hp') as [via Hv]; [intros; apply Hfs; by right| |].
      * pose proof Ha as ((_ & Hr) & _). destruct (Hr _ _ Hp) as (x' & Hx' & _ & Hb & _).
        assert (x' = x) as -> by congruence. intros i Hi.
        destruct (buffer_lacks p f i Hb Hf Hi) as [Hlp Hne]. destruct (Hl i Hlp) as (g & [->|Hg]%elem_of_cons & Eg); [done|].
        by exists g.
      * exists via. destruct (ingest_all s' fs). by right.
Qed.
End Heal.

(** The datagrams a history answers with, as the client's receive loop parses them. *)
Definition parsed (datagrams : list (list byte)) : list FrameFragment :=
  omap (fun d => match fragment_decode d with Ok f => Some f | Err _ => None end) datagrams.

Lemma parsed_encoded fs :
  (forall f, f ∈ fs -> fragment_decode (fragment_encode f) = Ok f) -> parsed (map fragment_encode fs) = fs.
Proof.
  intros H. unfold parsed. induction fs as [|f fs IH]; [done|]. cbn [map omap list_omap].
  rewrite H by left. f_equal. apply IH. intros; apply H; by right.
Qed.

(** The answer to a request, against the datagrams the frame went out as and the indices asked for: sent
    datagrams, in the order they were sent, every one of which parses, one for each index asked for. *)
Definition answers (sent answer : list (list byte)) (missing : list Z) : Prop :=
  answer `sublist_of` sent
  /\ map fragment_encode (parsed answer) = answer
  /\ map (fun f => frag_index (header f)) (parsed answer) ≡ₚ missing.

Lemma history_answers rfec ring id x missing :
  sender_ok rfec x ->
  by_frame ring !! id = Some (packetize_raw (sn_packetizer x) (sn_frame x) (sn_options x)).1 ->
  NoDup missing -> (forall z, z ∈ missing -> exists i, z = Z.of_nat i /\ (i < sn_total x)%nat) ->
  answers (packetize_raw (sn_packetizer x) (sn_frame x) (sn_options x)).1 (fragments ring id missing) missing.
Proof.
  intros Hok Hring Hnd Hin. pose proof Hok as (Hpk & Ho & Ht & _).
  destruct (packetize_parsed _ _ _ Hpk Ho Ht) as (out & self' & _ & Er & Hperm & _). rewrite Er in *. cbn [fst] in *.
  assert (Hdec : forall f, f ∈ out -> fragment_decode (fragment_encode f) = Ok f).
  { intros f Hf. rewrite Hperm in Hf. eapply carried_decodes; [done..|]. exact (frame_fragments_carry _ _ _ _ Hf). }
  pose proof (answered_fragments ring id _ out missing Hring eq_refl Hdec) as Ef. fold (parsed (fragments ring id missing)) in Ef.
  split; [|split].
  - unfold fragments. rewrite Hring. apply sublist_filter.
  - rewrite Ef. unfold fragments. rewrite Hring. clear - Hdec. induction out as [|f out IH]; [done|].
    specialize (IH ltac:(intros; apply Hdec; by right)). cbn [map]. rewrite !filter_cons.
    rewrite (named missing f) by (apply Hdec; left).
    destruct (decide (frag_index (header f) ∈ missing)) as [Hin|Hin].
    + rewrite decide_True by (by apply bool_decide_eq_true_2). cbn [map]. by rewrite IH.
    + rewrite decide_False; [exact IH|]. by rewrite bool_decide_eq_false_2.
  - rewrite Ef. rewrite (map_filter_key (fun f => frag_index (header f))).
    assert (Hall : map (fun f => frag_index (header f)) out ≡ₚ map Z.of_nat (seq 0 (sn_total x))).
    { etrans; [apply Permutation_map, Hperm|]. by rewrite frame_fragments_indices. }
    rewrite Hall. apply NoDup_Permutation; [|done|].
    + apply NoDup_filter, NoDup_fmap_2; [exact Nat2Z.inj|apply NoDup_seq].
    + intros z. rewrite list_elem_of_filter. split; [tauto|]. intros Hz. split; [done|].
      destruct (Hin z Hz) as (i & -> & Hi). apply list_elem_of_fmap. exists i. split; [done|]. apply elem_of_seq. lia.
Qed.

Lemma answered_carried rfec ring id x missing f :
  sender_ok rfec x ->
  by_frame ring !! id = Some (packetize_raw (sn_packetizer x) (sn_frame x) (sn_options x)).1 ->
  f ∈ parsed (fragments ring id missing) -> fragment_of x f.
Proof.
  intros Hok Hring Hf. pose proof Hok as (Hpk & Ho & Ht & _).
  destruct (packetize_parsed _ _ _ Hpk Ho Ht) as (out & self' & _ & Er & Hperm & _). rewrite Er in Hring. cbn [fst] in Hring.
  assert (Hfrag : forall f, f ∈ out -> fragment_of x f) by (intros g Hg; rewrite Hperm in Hg; by apply frame_fragments_carry).
  apply Hfrag. unfold parsed in Hf. rewrite (answered_fragments ring id _ out missing Hring eq_refl) in Hf.
  - by apply list_elem_of_filter in Hf as [_ Hf].
  - intros g Hg. eapply carried_decodes; [done..|by apply Hfrag].
Qed.

(** C11: a retransmit heals the frame.  A frame of an honest sender is held for its retransmit, within the
    window; the sender's history still has the datagrams it went out as.  Then the request names exactly
    the data the frame lacks, each index once; the history answers it with the datagrams of those indices
    and no other, one for each, as they were sent; and feeding that answer completes the frame, byte for
    byte, the sweep holding the frame until the last of them is in. *)
Theorem retransmit_heals sent rfec ring s id x frontier p missing :
  (forall id x, sent id = Some x -> sender_ok rfec x /\ next_frame_id (sn_packetizer x) = id) ->
  sent id = Some x ->
  by_frame ring !! id = Some (packetize_raw (sn_packetizer x) (sn_frame x) (sn_options x)).1 ->
  asked_for rfec sent id frontier s -> rs_pending s !! id = Some p ->
  missing_data_frags p (nack_max_frags s) = Some missing ->
  (NoDup missing /\ forall z, z ∈ missing <-> exists i, z = Z.of_nat i /\ lacks p i)
  /\ answers (packetize_raw (sn_packetizer x) (sn_frame x) (sn_options x)).1 (fragments ring id missing) missing
  /\ exists via_fec, Completed (frame_of x via_fec) ∈ (ingest_all s (parsed (fragments ring id missing))).1.
Proof.
  intros Hsent Hx Hring Ha Hp Hmiss. destruct (Hsent _ _ Hx) as [Hok Hid]. pose proof Ha as ((_ & Hr) & _). destruct (Hr _ _ Hp) as (x' & Hx' & Hex & Hb & _).
  assert (x' = x) as -> by congruence. pose proof (total_small rfec x Hok) as Hsmall.
  assert (Hres : (resolved_data_count p <= sn_total x)%nat).
  { destruct Hb as (B1 & _ & _ & B4). destruct Hex as (_ & _ & Hex). unfold resolved_data_count. destruct (pd_group_size p).
    - destruct B4 as (? & _ & _ & _ & _ & -> & _). unfold sn_total, fragment_total, sn_data. lia.
    - destruct Hex as [Hle _]. rewrite B1 in Hle. unfold count_of in Hle. lia. }
  apply missing_data_frags_spec in Hmiss as (-> & _ & _); [|lia]. set (missing := absent p _).
  assert (Hin : forall z, z ∈ missing <-> exists i, z = Z.of_nat i /\ lacks p i) by (intros z; apply elem_of_absent).
  pose proof (absent_nodup p (resolved_data_count p)) as Hnd. fold missing in Hnd.
  assert (Hans : answers (packetize_raw (sn_packetizer x) (sn_frame x) (sn_options x)).1 (fragments ring id missing) missing).
  { apply (history_answers rfec); [done..|]. intros z (i & -> & Hi & _)%Hin. exists i. split; [done|lia]. }
  split; [by split|]. split; [exact Hans|]. destruct Hans as (_ & _ & Hidx). eapply heal_run; try done.
  - intros f. by apply (answered_carried rfec ring id x missing).
  - intros i Hi. assert (Hz : Z.of_nat i ∈ missing) by (apply Hin; by exists i).
    rewrite <- Hidx in Hz. apply list_elem_of_fmap in Hz as (f & E & Hf). by exists f.
Qed.

(** A stream of two frames: the first in two fragments, of which the second is lost. *)
Definition long_frame : Sent := mkSent (packetizer_new None) (replicate 1200 Byte.x61) default_options.
Definition next_frame : Sent := mkSent (mkPacketizer None 2 1) [Byte.x62] default_options.
Definition stream (id : Z) : option Sent := if id =? 0 then Some long_frame else if id =? 1 then Some next_frame else None.
Definition fragments_of (x : Sent) : list FrameFragment := frame_fragments (sn_packetizer x) (sn_frame x) (sn_options x).
Definition waiting_state : FrameReassembler :=
  (ingest_all (enable_retransmit (reassembler_new None 2) 4 8) (take 1 (fragments_of long_frame) ++ fragments_of next_frame)).2.

Lemma stream_ok id x : stream id = Some x -> sender_ok None x /\ next_frame_id (sn_packetizer x) = id.
Proof.
  unfold stream. destruct (Z.eqb_spec id 0) as [->|]; [|destruct (Z.eqb_spec id 1) as [->|]; [|done]];
    intros [= <-]; (split; [|done]); split_and!; try (by right);
    try (do 2 (split; [by vm_compute|]); done); apply Nat.leb_le; vm_compute; reflexivity.
Qed.

Lemma stream_honest x f : stream (next_frame_id (sn_packetizer x)) = Some x -> f ∈ fragments_of x -> honest stream f.
Proof. intros Hx Hf. apply frame_fragments_carry in Hf. exists x. split; [|exact Hf]. by destruct Hf as (-> & _). Qed.

Lemma waiting_receiving : receiving None stream waiting_state.
Proof.
  apply (ingest_all_receiving None stream stream_ok).
  - split; [done|]. intros id p. cbn. by rewrite lookup_empty.
  - intros f [Hf%subseteq_take|Hf]%elem_of_app; [by apply (stream_honest long_frame)|by apply (stream_honest next_frame)].
Qed.

Lemma retransmit_heals_witness :
  let ring := record (ring_new 8 65536) 0 (packetize_raw (packetizer_new None) (replicate 1200 Byte.x61) default_options).1 in
  (exists p, rs_pending waiting_state !! 0 = Some p /\ lacks p 1)
  /\ answers (packetize_raw (packetizer_new None) (replicate 1200 Byte.x61) default_options).1 (fragments ring 0 [1]) [1]
  /\ exists via_fec, Completed (frame_of long_frame via_fec) ∈ (ingest_all waiting_state (parsed (fragments ring 0 [1]))).1.
Proof.
  intros ring. destruct (rs_pending waiting_state !! 0) as [p|] eqn:E; [|vm_compute in E; discriminate].
  assert (En : bool_decide (0 ∈ nacked waiting_state) = true) by (vm_compute; reflexivity).
  assert (Er : bool_decide (0 ∈ retired waiting_state) = false) by (vm_compute; reflexivity).
  apply bool_decide_eq_true in En as Hn. apply bool_decide_eq_false in Er as Hr.
  destruct (retransmit_heals stream None ring waiting_state 0 long_frame 1 p [1] stream_ok) as [[_ Hl] H]; [done| | |exact E| |].
  - unfold ring, record. vm_compute. reflexivity.
  - split; [exact waiting_receiving|]. split; [exact Hn|]. split; [exact Hr|]. split; [vm_compute; reflexivity|].
    split_and!; vm_compute; congruence.
  - assert (Hm : (p0 ← rs_pending waiting_state !! 0; missing_data_frags p0 (nack_max_frags waiting_state)) = Some [1])
      by (vm_compute; reflexivity).
    rewrite E in Hm. exact Hm.
  - split; [|exact H]. exists p. split; [done|]. destruct (proj1 (Hl 1) ltac:(left)) as (i & Ei & Hi). by assert (i = 1)%nat as -> by lia.
Defined.
