(* ===== verification/Float.v ===== *)
(** * Float: Rust's [f64] as its 64-bit pattern

    The split tree, the layout solver and the document carry [f64] numbers.  A number is the pattern the
    wire carries ([f64::to_bits]); arithmetic goes through the Standard Library's executable IEEE 754
    reference [SpecFloat] at precision 53.  An arithmetic NaN is the canonical quiet pattern: Rust leaves
    the payload of such a NaN unspecified, and nothing in the program looks at it.  [f64::max] and
    [f64::min] of two zeros of opposite sign may answer either; the model answers the receiver. *)

From Stdlib Require Import SpecFloat.
From S2P Require Import Prelude.

Definition f64 : Type := Z.

Definition of_bits (b : f64) : spec_float :=
  let s := Z.testbit b 63 in
  let e := Z.land (Z.shiftr b 52) 2047 in
  let m := Z.land b (2 ^ 52 - 1) in
  if e =? 0 then match m with Z.pos p => S754_finite s p (-1074) | _ => S754_zero s end
  else if e =? 2047 then if m =? 0 then S754_infinity s else S754_nan
  else match m + 2 ^ 52 with Z.pos p => S754_finite s p (e - 1075) | _ => S754_nan end.

Definition sign_bit (s : bool) : Z := if s then 2 ^ 63 else 0.
Definition nan : f64 := 0x7ff8000000000000.
Definition to_bits (f : spec_float) : f64 :=
  match f with
  | S754_zero s => sign_bit s
  | S754_infinity s => sign_bit s + 0x7ff0000000000000
  | S754_nan => nan
  | S754_finite s m e =>
    if Z.pos m <? 2 ^ 52 then sign_bit s + Z.pos m
    else sign_bit s + (e + 1075) * 2 ^ 52 + (Z.pos m - 2 ^ 52)
  end.

Definition f64_add (a b : f64) : f64 := to_bits (SFadd 53 1024 (of_bits a) (of_bits b)).
Definition f64_sub (a b : f64) : f64 := to_bits (SFsub 53 1024 (of_bits a) (of_bits b)).
Definition f64_mul (a b : f64) : f64 := to_bits (SFmul 53 1024 (of_bits a) (of_bits b)).
Definition f64_div (a b : f64) : f64 := to_bits (SFdiv 53 1024 (of_bits a) (of_bits b)).
Definition f64_abs (a : f64) : f64 := Z.land a (2 ^ 63 - 1).

(** [f64::from(n)] of a [u32], which is exact. *)
Definition f64_from_u32 (n : Z) : f64 := to_bits (binary_normalize 53 1024 n 0 false).

Definition is_nan (a : f64) : bool := match of_bits a with S754_nan => true | _ => false end.
Definition is_finite (a : f64) : bool :=
  match of_bits a with S754_nan | S754_infinity _ => false | _ => true end.

Definition f64_lt (a b : f64) : bool := SFltb (of_bits a) (of_bits b).
Definition f64_le (a b : f64) : bool := SFleb (of_bits a) (of_bits b).
Definition f64_eq (a b : f64) : bool := SFeqb (of_bits a) (of_bits b).

(** [f64::max] and [f64::min] ignore a NaN. *)
Definition f64_max (a b : f64) : f64 := if is_nan a then b else if is_nan b then a else if f64_lt a b then b else a.
Definition f64_min (a b : f64) : f64 := if is_nan a then b else if is_nan b then a else if f64_lt b a then b else a.

Definition zero : f64 := 0.
Definition one : f64 := 0x3ff0000000000000.
Definition two : f64 := 0x4000000000000000.
Definition infinity : f64 := 0x7ff0000000000000.
Definition half_max : f64 := 0x7fdfffffffffffff.
Definition twice_min_positive : f64 := 0x0020000000000000.

(** [f64::midpoint]. *)
Definition f64_midpoint (a b : f64) : f64 :=
  if f64_le (f64_abs a) half_max && f64_le (f64_abs b) half_max then f64_div (f64_add a b) two
  else if f64_lt (f64_abs a) twice_min_positive then f64_add a (f64_div b two)
  else if f64_lt (f64_abs b) twice_min_positive then f64_add (f64_div a two) b
  else f64_add (f64_div a two) (f64_div b two).

(** [f64::total_cmp]: the patterns as signed integers, the negative ones reversed. *)
Definition total_key (a : f64) : Z := if a <? 2 ^ 63 then a else 2 ^ 63 - 1 - a.
Definition total_cmp (a b : f64) : comparison := Z.compare (total_key a) (total_key b).

(** ** The order *)

Lemma compare_antisym a b : SFcompare b a = CompOpp <$> SFcompare a b.
Proof.
  destruct a as [s|s| |s m e], b as [t|t| |t n f]; try destruct s; try destruct t; cbn; try done.
  all: rewrite (Z.compare_antisym e f); destruct (e ?= f); cbn; try done.
  all: rewrite (Pos.compare_cont_antisym _ _ Eq); by try rewrite CompOpp_involutive.
Qed.

Lemma compare_some a b : a <> S754_nan -> b <> S754_nan -> is_Some (SFcompare a b).
Proof. intros Ha Hb. destruct a, b; try done; by eexists. Qed.

Lemma is_nan_spec a : is_nan a = false <-> of_bits a <> S754_nan.
Proof. unfold is_nan. by destruct (of_bits a). Qed.

(** Of two numbers that are not NaN, one is below the other. *)
Lemma f64_lt_or_le a b : is_nan a = false -> is_nan b = false -> f64_lt a b = negb (f64_le b a).
Proof.
  rewrite !is_nan_spec. intros Ha Hb. unfold f64_lt, f64_le, SFltb, SFleb. rewrite (compare_antisym (of_bits a)).
  destruct (compare_some _ _ Ha Hb) as [[] ->]; done.
Qed.

Lemma f64_le_refl a : is_nan a = false -> f64_le a a = true.
Proof.
  intros Ha. pose proof (f64_lt_or_le a a Ha Ha) as H. pose proof (compare_antisym (of_bits a) (of_bits a)) as E.
  unfold f64_lt, f64_le, SFltb, SFleb in *. rewrite is_nan_spec in Ha.
  destruct (compare_some _ _ Ha Ha) as [c Ec]. rewrite Ec in *. by destruct c.
Qed.

Lemma f64_lt_le a b : f64_lt a b = true -> f64_le a b = true.
Proof. unfold f64_lt, f64_le, SFltb, SFleb. by destruct (SFcompare _ _) as [[]|]. Qed.

Lemma f64_le_not_nan a b : f64_le a b = true -> is_nan a = false /\ is_nan b = false.
Proof. unfold f64_le, SFleb, is_nan. destruct (of_bits a), (of_bits b); by cbn. Qed.

(** [max] is above a number, and [min] below one, whatever the other is. *)
Lemma f64_max_floor a b : is_nan b = false -> f64_le b (f64_max a b) = true.
Proof.
  intros Hb. unfold f64_max. destruct (is_nan a) eqn:Ha; [by apply f64_le_refl|]. rewrite Hb.
  destruct (f64_lt a b) eqn:E; [by apply f64_le_refl|]. rewrite (f64_lt_or_le a b) in E by done.
  by apply negb_false_iff in E.
Qed.

Lemma f64_min_ceiling a b : is_nan b = false -> f64_le (f64_min a b) b = true.
Proof.
  intros Hb. unfold f64_min. destruct (is_nan a) eqn:Ha; [by apply f64_le_refl|]. rewrite Hb.
  destruct (f64_lt b a) eqn:E; [by apply f64_le_refl|]. rewrite (f64_lt_or_le b a) in E by done.
  by apply negb_false_iff in E.
Qed.

Lemma f64_min_floor a b floor :
  f64_le floor a = true -> f64_le floor b = true -> f64_le floor (f64_min a b) = true.
Proof. intros Ha Hb. unfold f64_min. by repeat case_match. Qed.

Lemma f64_max_id a b : is_nan b = false -> f64_le b a = true -> f64_max a b = a.
Proof.
  intros Hb H. unfold f64_max. destruct (f64_le_not_nan _ _ H) as [_ Ha]. rewrite Ha, Hb.
  by rewrite f64_lt_or_le, H.
Qed.
