(* ===== verification/Tree.v ===== *)
(** * Tree: the split tree of a tab, its transformations and its repair

    Models [slopdesk-tree/src/split_tree.rs].  A tree is n-ary; every operation answers a new tree.  Where
    the code takes a fresh identity as an argument so does the model; where it takes a source of
    identities ([mint]), the model threads the state of an arbitrary one.  The axis and the weight are the
    ones the document codec already declares ([Cells]): the code has one type for both. *)

From stdpp Require Import gmap.
From S2P Require Import Prelude Message Document Cells Float.

#[export] Instance axis_eq_dec : EqDecision SplitAxis.
Proof. solve_decision. Defined.

(** ** Drop edges *)

Inductive PaneDropEdge : Type := Left | Right | Top | Bottom.

Definition ALL_EDGES : list PaneDropEdge := [Left; Right; Top; Bottom].
Definition edge_from_byte (b : byte) : PaneDropEdge :=
  match byte_to_Z b with 1 => Right | 2 => Top | 3 => Bottom | _ => Left end.
Definition edge_as_byte (e : PaneDropEdge) : byte :=
  byte_of_Z match e with Left => 0 | Right => 1 | Top => 2 | Bottom => 3 end.
Definition edge_axis (e : PaneDropEdge) : SplitAxis := match e with Left | Right => Horizontal | Top | Bottom => Vertical end.
Definition inserts_before (e : PaneDropEdge) : bool := match e with Left | Top => true | _ => false end.

(** ** Weights *)

Definition MIN_WEIGHT : f64 := 0x3fa999999999999a.
Definition MAX_DEPTH : nat := 12.

Definition default_weight : SplitWeight := Flex one.
Definition repaired (w : SplitWeight) : SplitWeight :=
  match w with
  | Flex v => Flex (if is_finite v then f64_max v MIN_WEIGHT else MIN_WEIGHT)
  | Fixed v => Fixed (if is_finite v then f64_max v zero else zero)
  end.
Definition flex (w : SplitWeight) : option f64 := match w with Flex v => Some v | Fixed _ => None end.

(** The derived [==] compares the numbers, so a NaN weight is not equal to itself. *)
Definition weight_eq (a b : SplitWeight) : bool :=
  match a, b with Flex x, Flex y | Fixed x, Fixed y => f64_eq x y | _, _ => false end.

(** ** The tree *)

Record WeightedChild (A : Type) : Type := mkChild { weight : SplitWeight; node : A }.
Arguments mkChild {A} _ _.
Arguments weight {A} _.
Arguments node {A} _.

Unset Elimination Schemes.
Inductive SplitNode : Type :=
| Leaf (id : RawUuid)
| Split (id : RawUuid) (axis : SplitAxis) (children : list (WeightedChild SplitNode)).
Set Elimination Schemes.

Abbreviation Child := (WeightedChild SplitNode).

(** Induction with the hypothesis for every child. *)
Fixpoint SplitNode_ind (P : SplitNode -> Prop) (HL : forall id, P (Leaf id))
    (HS : forall id axis children, Forall (fun c : Child => P (node c)) children -> P (Split id axis children))
    (t : SplitNode) : P t :=
  match t with
  | Leaf id => HL id
  | Split id axis children =>
    HS id axis children
      ((fix go l : Forall (fun c : Child => P (node c)) l :=
          match l with
          | [] => Forall_nil_2 _
          | c :: l => Forall_cons_2 _ c l (SplitNode_ind P HL HS (node c)) (go l)
          end) children)
  end.

Definition leaf_child (id : RawUuid) : Child := mkChild (Flex one) (Leaf id).

Fixpoint collect_pane_ids (t : SplitNode) (into : list RawUuid) : list RawUuid :=
  match t with
  | Leaf id => into ++ [id]
  | Split _ _ children => foldl (fun into c => collect_pane_ids (node c) into) into children
  end.
Definition all_pane_ids (t : SplitNode) : list RawUuid := collect_pane_ids t [].

Fixpoint leaf_count (t : SplitNode) : nat :=
  match t with Leaf _ => 1 | Split _ _ children => sum_list (map (fun c => leaf_count (node c)) children) end.

Fixpoint depth (t : SplitNode) : nat :=
  match t with Leaf _ => 1 | Split _ _ children => S (max_list (map (fun c => depth (node c)) children)) end.

Fixpoint contains (id : RawUuid) (t : SplitNode) : bool :=
  match t with
  | Leaf leaf => bool_decide (leaf = id)
  | Split _ _ children => existsb (fun c => contains id (node c)) children
  end.

Fixpoint first_leaf_id (t : SplitNode) : option RawUuid :=
  match t with
  | Leaf id => Some id
  | Split _ _ children => match children with [] => None | c :: _ => first_leaf_id (node c) end
  end.

Fixpoint is_structurally_equal (a b : SplitNode) {struct a} : bool :=
  match a, b with
  | Leaf x, Leaf y => bool_decide (x = y)
  | Split _ axis_a ca, Split _ axis_b cb =>
    bool_decide (axis_a = axis_b) && (length ca =? length cb)%nat &&
    (fix go (ca cb : list Child) {struct ca} : bool :=
       match ca, cb with
       | x :: ca, y :: cb => weight_eq (weight x) (weight y) && is_structurally_equal (node x) (node y) && go ca cb
       | _, _ => true
       end) ca cb
  | _, _ => false
  end.

(** ** Inserting *)

(** The sum of the flex shares, left to right from [0.0], and how many there are. *)
Definition flex_total (children : list Child) : f64 * Z :=
  foldl (fun '(sum, count) c =>
           match flex (weight c) with Some w => (f64_add sum w, count + 1) | None => (sum, count) end)
    (zero, 0) children.

Definition insert_weight (children : list Child) : f64 :=
  let '(sum, count) := flex_total children in
  if count =? 0 then one else f64_div sum (f64_from_u32 count).

(** [Vec::insert], at an index within the list. *)
Definition insert_at {A} (index : nat) (x : A) (l : list A) : list A := take index l ++ x :: drop index l.

Definition is_leaf_of (target : RawUuid) (t : SplitNode) : bool :=
  match t with Leaf id => bool_decide (id = target) | Split _ _ _ => false end.

(** [children.iter().position(|c| matches!(c.node, Leaf(id) if id == target))]. *)
Definition direct (target : RawUuid) (children : list Child) : option nat :=
  fst <$> list_find (fun c => is_leaf_of target (node c) = true) children.

Definition two_children (before : bool) (fresh other : Child) : list Child :=
  if before then [fresh; other] else [other; fresh].

Fixpoint insert_beside_impl (leaf target : RawUuid) (axis : SplitAxis) (before : bool) (fresh_split : RawUuid)
    (t : SplitNode) : SplitNode :=
  match t with
  | Leaf id =>
    if decide (id = target)
    then Split fresh_split axis (two_children before (leaf_child leaf) (leaf_child target))
    else t
  | Split id split_axis children =>
    match (if decide (split_axis = axis) then direct target children else None) with
    | Some index =>
      Split id split_axis
        (insert_at (if before then index else S index) (mkChild (Flex (insert_weight children)) (Leaf leaf)) children)
    | None =>
      Split id split_axis
        (map (fun c => if contains target (node c)
                       then mkChild (weight c) (insert_beside_impl leaf target axis before fresh_split (node c))
                       else c) children)
    end
  end.

(** [splitting] and [inserting_beside] have one body. *)
Definition splitting (t : SplitNode) (target : RawUuid) (axis : SplitAxis) (new_leaf : RawUuid) (before : bool)
    (fresh_split : RawUuid) : option SplitNode :=
  if contains target t then Some (insert_beside_impl new_leaf target axis before fresh_split t) else None.
Definition inserting_beside (t : SplitNode) (leaf target : RawUuid) (axis : SplitAxis) (before : bool)
    (fresh_split : RawUuid) : option SplitNode :=
  if contains target t then Some (insert_beside_impl leaf target axis before fresh_split t) else None.

Definition wrapped (t : SplitNode) (leaf : RawUuid) (axis : SplitAxis) (before : bool) (fresh_split : RawUuid) : SplitNode :=
  Split fresh_split axis (two_children before (leaf_child leaf) (mkChild (Flex one) t)).

Definition inserting_at_root (t : SplitNode) (leaf : RawUuid) (axis : SplitAxis) (before : bool)
    (fresh_split : RawUuid) : SplitNode :=
  match t with
  | Split id split_axis children =>
    if decide (split_axis = axis)
    then Split id split_axis
           (insert_at (if before then 0%nat else length children)
              (mkChild (Flex (insert_weight children)) (Leaf leaf)) children)
    else wrapped t leaf axis before fresh_split
  | Leaf _ => wrapped t leaf axis before fresh_split
  end.

(** ** Removing *)

Definition splice (axis : SplitAxis) (c : Child) : list Child :=
  match node c with
  | Split _ child_axis grandchildren => if decide (child_axis = axis) then grandchildren else [c]
  | Leaf _ => [c]
  end.
Definition merge_same_axis (children : list Child) (axis : SplitAxis) : list Child := concat (map (splice axis) children).

Definition rebalance_flex (children : list Child) : list Child :=
  let '(sum, count) := flex_total children in
  if count =? 0 then children
  else let share := f64_max (f64_div sum (f64_from_u32 count)) MIN_WEIGHT in
       map (fun c => match weight c with Flex _ => mkChild (Flex share) (node c) | Fixed _ => c end) children.

(** What a split becomes once its children have been rebuilt: nothing, its only child, or itself. *)
Definition collapse (id : RawUuid) (axis : SplitAxis) (tidy : list Child -> list Child) (children : list Child) : option SplitNode :=
  match children with
  | [] => None
  | [c] => Some (node c)
  | _ => Some (Split id axis (tidy children))
  end.

Fixpoint remove_impl (target : RawUuid) (t : SplitNode) : option SplitNode :=
  match t with
  | Leaf id => if decide (id = target) then None else Some t
  | Split id axis children =>
    let survivors :=
      (fix go l := match l with
                   | [] => []
                   | c :: l =>
                     if is_leaf_of target (node c) then go l
                     else match remove_impl target (node c) with
                          | Some pruned => mkChild (weight c) pruned :: go l
                          | None => go l
                          end
                   end) children in
    collapse id axis rebalance_flex (merge_same_axis survivors axis)
  end.

Definition removing (target : RawUuid) (t : SplitNode) : option SplitNode :=
  if contains target t then remove_impl target t else Some t.

(** ** Dividers *)

Definition set_weight (w : SplitWeight) (c : Child) : Child := mkChild w (node c).

Definition adjust_pair (children : list Child) (leading_index : nat) (propose : f64 -> f64 -> f64) : list Child :=
  let trailing_index := S leading_index in
  match children !! leading_index, children !! trailing_index with
  | Some leading, Some trailing =>
    match flex (weight leading), flex (weight trailing) with
    | Some lead, Some trail =>
      let pair_sum := f64_add lead trail in
      let upper := f64_max (f64_sub pair_sum MIN_WEIGHT) MIN_WEIGHT in
      let new_lead := f64_min (f64_max (propose lead trail) MIN_WEIGHT) upper in
      let new_trail := f64_sub pair_sum new_lead in
      alter (set_weight (Flex new_trail)) trailing_index (alter (set_weight (Flex new_lead)) leading_index children)
    | _, _ => children
    end
  | _, _ => children
  end.

Fixpoint map_split (split_id : RawUuid) (rewrite : list Child -> list Child) (t : SplitNode) : SplitNode :=
  match t with
  | Leaf _ => t
  | Split id axis children =>
    if decide (id = split_id) then Split id axis (rewrite children)
    else Split id axis (map (fun c => mkChild (weight c) (map_split split_id rewrite (node c))) children)
  end.

Definition resizing_divider (t : SplitNode) (split_id : RawUuid) (leading_index : nat) (delta : f64) : SplitNode :=
  map_split split_id (fun cs => adjust_pair cs leading_index (fun lead _ => f64_add lead delta)) t.
Definition evening_divider (t : SplitNode) (split_id : RawUuid) (leading_index : nat) : SplitNode :=
  map_split split_id (fun cs => adjust_pair cs leading_index f64_midpoint) t.
Definition setting_divider_weight (t : SplitNode) (split_id : RawUuid) (leading_index : nat) (leading_weight : f64) : SplitNode :=
  map_split split_id (fun cs => adjust_pair cs leading_index (fun _ _ => leading_weight)) t.

(** ** Swapping, enclosing splits, evening *)

Fixpoint map_leaves (transform : RawUuid -> RawUuid) (t : SplitNode) : SplitNode :=
  match t with
  | Leaf id => Leaf (transform id)
  | Split id axis children => Split id axis (map (fun c => mkChild (weight c) (map_leaves transform (node c))) children)
  end.

Definition exchange (a b id : RawUuid) : RawUuid := if decide (id = a) then b else if decide (id = b) then a else id.
Definition swapping (a b : RawUuid) (t : SplitNode) : SplitNode :=
  if bool_decide (a = b) || negb (contains a t) || negb (contains b t) then t else map_leaves (exchange a b) t.

Record EnclosingSplit : Type := mkEnclosing { split_id : RawUuid; child_index : nat; child_count : nat }.

Fixpoint enclosing_split_impl (pane : RawUuid) (axis : SplitAxis) (t : SplitNode) (best : option EnclosingSplit)
    : option EnclosingSplit :=
  match t with
  | Leaf _ => best
  | Split id split_axis children =>
    (fix go (index : nat) (l : list Child) : option EnclosingSplit :=
       match l with
       | [] => best
       | c :: l =>
         if contains pane (node c)
         then enclosing_split_impl pane axis (node c)
                (if decide (split_axis = axis) then Some (mkEnclosing id index (length children)) else best)
         else go (S index) l
       end) 0%nat children
  end.
Definition enclosing_split (t : SplitNode) (pane : RawUuid) (axis : SplitAxis) : option EnclosingSplit :=
  if contains pane t then enclosing_split_impl pane axis t None else None.

Fixpoint rebalanced (t : SplitNode) : SplitNode :=
  match t with
  | Leaf _ => t
  | Split id axis children =>
    Split id axis
      (map (fun c => mkChild (match weight c with Flex _ => Flex one | Fixed v => Fixed v end) (rebalanced (node c))) children)
  end.

(** ** The repair of an untrusted tree *)

Definition DUPLICATE_MINT_ATTEMPTS : nat := 8.

Section Repair.
Context {M : Type} (mint : M -> RawUuid * M).

(** The repair's state: the identities already kept, and the source of fresh ones. *)
Definition Seen : Type := gset RawUuid * M.

Fixpoint accept_attempts (attempts : nat) (candidate : RawUuid) (st : Seen) : RawUuid * Seen :=
  let '(seen, m) := st in
  match attempts with
  | O => (candidate, ({[candidate]} ∪ seen, m))
  | S attempts =>
    if decide (candidate ∈ seen)
    then let '(next, m) := mint m in accept_attempts attempts next (seen, m)
    else (candidate, ({[candidate]} ∪ seen, m))
  end.
Definition accept_leaf (id : RawUuid) (st : Seen) : RawUuid * Seen := accept_attempts DUPLICATE_MINT_ATTEMPTS id st.

Fixpoint first_leaf_repaired (t : SplitNode) (st : Seen) : SplitNode * Seen :=
  match t with
  | Leaf id => let '(id, st) := accept_leaf id st in (Leaf id, st)
  | Split _ _ children =>
    match children with
    | c :: _ => first_leaf_repaired (node c) st
    | [] => let '(fresh, m) := mint st.2 in let '(id, st) := accept_leaf fresh (st.1, m) in (Leaf id, st)
    end
  end.

(** What a repaired child contributes to its parent's list. *)
Definition contribution (axis : SplitAxis) (w : SplitWeight) (r : option SplitNode) : list Child :=
  match r with
  | None => []
  | Some (Split _ child_axis grandchildren as n) =>
    if decide (child_axis = axis) then grandchildren else [mkChild (repaired w) n]
  | Some n => [mkChild (repaired w) n]
  end.

Fixpoint normalize_impl (t : SplitNode) (depth : nat) (st : Seen) : option SplitNode * Seen :=
  match t with
  | Leaf id => let '(id, st) := accept_leaf id st in (Some (Leaf id), st)
  | Split id axis children =>
    if (MAX_DEPTH <=? S depth)%nat then let '(leaf, st) := first_leaf_repaired t st in (Some leaf, st)
    else
      let '(kept, st) :=
        (fix go (l : list Child) (st : Seen) : list Child * Seen :=
           match l with
           | [] => ([], st)
           | c :: l =>
             let '(r, st) := normalize_impl (node c) (S depth) st in
             let '(rest, st) := go l st in
             (contribution axis (weight c) r ++ rest, st)
           end) children st in
      (collapse id axis (fun l => l) kept, st)
  end.

Definition normalized (t : SplitNode) (m : M) : option SplitNode * M :=
  let '(r, (_, m)) := normalize_impl t 0 (∅, m) in (r, m).
End Repair.
