(* ===== verification/TreeLaws.v ===== *)
(** * TreeLaws: what the split tree's transformations keep

    The invariants of [split_tree.rs] — a split has two children at least, no split shares its parent's
    axis, the depth stays within the cap, every weight is a finite number above its floor, a pane appears
    once — and, for each operation, which of them it keeps and what it does to the panes in reading
    order. *)

From stdpp Require Import gmap.
From S2P Require Import Prelude Message Document Cells Float Tree.

(** ** The leaves, and the invariants *)

Fixpoint leaves (t : SplitNode) : list RawUuid :=
  match t with Leaf id => [id] | Split _ _ children => concat (map (fun c => leaves (node c)) children) end.
Definition leaves_of (l : list Child) : list RawUuid := concat (map (fun c => leaves (node c)) l).

Definition same_axis (axis : SplitAxis) (t : SplitNode) : bool :=
  match t with Leaf _ => false | Split _ a _ => bool_decide (a = axis) end.

(** The strict shape forbids a split along its parent's axis; the loose one asks for the arity only. *)
Fixpoint shape_with (strict : bool) (t : SplitNode) : bool :=
  match t with
  | Leaf _ => true
  | Split _ axis children =>
    (2 <=? length children)%nat &&
    forallb (fun c => shape_with strict (node c) && negb (strict && same_axis axis (node c))) children
  end.
Abbreviation shape_ok := (shape_with true).
Abbreviation arity_ok := (shape_with false).

Definition weight_ok (w : SplitWeight) : bool :=
  match w with Flex v => is_finite v && f64_le MIN_WEIGHT v | Fixed v => is_finite v && f64_le zero v end.
Fixpoint weights_ok (t : SplitNode) : bool :=
  match t with
  | Leaf _ => true
  | Split _ _ children => forallb (fun c => weight_ok (weight c) && weights_ok (node c)) children
  end.

Definition child_shape_ok (k : bool) (axis : SplitAxis) (c : Child) : Prop :=
  shape_with k (node c) = true /\ k && same_axis axis (node c) = false.

Lemma shape_split k id axis children :
  shape_with k (Split id axis children) = true <-> (2 <= length children)%nat /\ Forall (child_shape_ok k axis) children.
Proof.
  cbn [shape_with]. rewrite andb_true_iff, Nat.leb_le. f_equiv. rewrite forallb_forall, Forall_forall.
  setoid_rewrite <- list_elem_of_In. unfold child_shape_ok.
  by setoid_rewrite andb_true_iff; setoid_rewrite negb_true_iff.
Qed.

Lemma leaf_child_ok k axis w id : child_shape_ok k axis (mkChild w (Leaf id)).
Proof. split; [done|]. apply andb_false_r. Qed.
#[local] Hint Resolve leaf_child_ok : core.

Lemma weights_split id axis children :
  weights_ok (Split id axis children) = true <->
  Forall (fun c => weight_ok (weight c) = true /\ weights_ok (node c) = true) children.
Proof.
  cbn [weights_ok]. rewrite forallb_forall, Forall_forall. setoid_rewrite <- list_elem_of_In.
  by setoid_rewrite andb_true_iff.
Qed.

Lemma depth_split id axis children n :
  (depth (Split id axis children) <= S n)%nat <-> Forall (fun c => (depth (node c) <= n)%nat) children.
Proof.
  cbn [depth]. rewrite <- Nat.succ_le_mono. induction children as [|c l IH]; cbn; [split; [done|lia]|].
  rewrite Forall_cons, <- IH. lia.
Qed.

Lemma depth_pos t : (1 <= depth t)%nat.
Proof. destruct t; cbn; lia. Qed.

Arguments leaves_of : simpl never.
Lemma leaves_of_app l k : leaves_of (l ++ k) = leaves_of l ++ leaves_of k.
Proof. unfold leaves_of. by rewrite map_app, concat_app. Qed.
Lemma leaves_of_cons c l : leaves_of (c :: l) = leaves (node c) ++ leaves_of l.
Proof. done. Qed.
Lemma leaves_of_single c : leaves_of [c] = leaves (node c).
Proof. apply app_nil_r. Qed.
Lemma leaves_of_nodes l k : map node l = map node k -> leaves_of l = leaves_of k.
Proof.
  unfold leaves_of. intros E. rewrite <- (map_map node leaves l), <- (map_map node leaves k). by rewrite E.
Qed.

(** ** Reading *)

Lemma collect_leaves t into : collect_pane_ids t into = into ++ leaves t.
Proof.
  revert into. induction t as [id|id axis children IH]; intros into; cbn; [done|].
  revert into. induction IH as [|c l Hc _ IHl]; intros into; cbn; [by rewrite app_nil_r|].
  by rewrite Hc, IHl, app_assoc.
Qed.
Lemma all_pane_ids_leaves t : all_pane_ids t = leaves t.
Proof. apply collect_leaves. Qed.

Lemma contains_leaves id t : contains id t = true <-> id ∈ leaves t.
Proof.
  induction t as [leaf|sid axis children IH]; cbn.
  - rewrite bool_decide_eq_true, list_elem_of_singleton. naive_solver.
  - induction IH as [|c l Hc _ IHl]; cbn; [set_solver|]. rewrite orb_true_iff, elem_of_app. tauto.
Qed.
Lemma contains_false id t : contains id t = false <-> id ∉ leaves t.
Proof. rewrite <- contains_leaves. by destruct (contains id t). Qed.
Lemma contains_dec id t : contains id t = bool_decide (id ∈ leaves t).
Proof. destruct (contains id t) eqn:E; symmetry; [by apply bool_decide_eq_true, contains_leaves | by apply bool_decide_eq_false, contains_false]. Qed.

Lemma leaf_count_leaves t : leaf_count t = length (leaves t).
Proof.
  induction t as [id|id axis children IH]; cbn; [done|].
  induction IH as [|c l Hc _ IHl]; cbn; [done|]. rewrite length_app. lia.
Qed.

Lemma first_leaf_head {k} t : shape_with k t = true -> exists id, first_leaf_id t = Some id /\ head (leaves t) = Some id.
Proof.
  induction t as [id|id axis children IH]; intros Hs; [by exists id|].
  apply shape_split in Hs as [Hlen Hs]. destruct children as [|c l]; cbn in Hlen; [lia|].
  apply Forall_cons in IH as [IH _]. apply Forall_cons in Hs as [[Hs _] _].
  destruct (IH Hs) as (x & E1 & E2). exists x. split; [done|]. cbn. by destruct (leaves (node c)).
Qed.
Lemma leaves_nonempty {k} t : shape_with k t = true -> leaves t <> [].
Proof. intros H. destruct (first_leaf_head t H) as (id & _ & E). by destruct (leaves t). Qed.

(** Structural equality sees everything but the split identities. *)
Lemma structurally_equal_leaves a b : is_structurally_equal a b = true -> leaves a = leaves b.
Proof.
  revert b. induction a as [id|id axis ca IH]; intros [y|idb axis_b cb]; cbn; try done.
  - by intros ->%bool_decide_eq_true.
  - rewrite !andb_true_iff. intros [[_ Hlen%Nat.eqb_eq] Hgo]. revert cb Hlen Hgo.
    induction IH as [|x ca Hx _ IHl]; intros [|y cb] Hlen Hgo; cbn in Hlen; try done.
    rewrite !andb_true_iff in Hgo. destruct Hgo as [[_ Hxy] Hgo].
    change (concat (map _ (y :: cb))) with (leaves (node y) ++ leaves_of cb). cbn.
    rewrite (Hx _ Hxy). f_equal. apply IHl; [lia|done].
Qed.

(** ** Inserting *)

(** The reading order with a pane put beside another. *)
Definition beside (leaf target : RawUuid) (before : bool) (l : list RawUuid) : list RawUuid :=
  flat_map (fun id => if decide (id = target) then (if before then [leaf; target] else [target; leaf]) else [id]) l.

Arguments beside : simpl never.

Lemma beside_here leaf target before l :
  beside leaf target before (target :: l) = (if before then [leaf; target] else [target; leaf]) ++ beside leaf target before l.
Proof. unfold beside. cbn. by rewrite decide_True. Qed.
Lemma beside_app leaf target before l k :
  beside leaf target before (l ++ k) = beside leaf target before l ++ beside leaf target before k.
Proof. apply flat_map_app. Qed.
Lemma beside_absent leaf target before l : target ∉ l -> beside leaf target before l = l.
Proof.
  induction l as [|id l IH]; [done|]. intros [Hne Hl]%not_elem_of_cons. unfold beside in *. cbn.
  rewrite decide_False by congruence. cbn. f_equal. by apply IH.
Qed.
Lemma beside_elem leaf target before l x :
  target ∈ l -> x ∈ beside leaf target before l <-> x = leaf \/ x ∈ l.
Proof.
  intros Ht. unfold beside. rewrite list_elem_of_In, in_flat_map. setoid_rewrite <- list_elem_of_In. split.
  - intros (y & Hy & Hx). destruct (decide (y = target)) as [->|]; [|set_solver]. destruct before; set_solver.
  - intros [->|Hx].
    + exists target. split; [done|]. rewrite decide_True by done. destruct before; set_solver.
    + exists x. split; [done|]. destruct (decide (x = target)) as [->|]; [destruct before; set_solver|set_solver].
Qed.
Lemma beside_perm leaf target before l :
  NoDup l -> target ∈ l -> beside leaf target before l ≡ₚ leaf :: l.
Proof.
  intros Hnd (l1 & l2 & ->)%list_elem_of_split. rewrite NoDup_app, NoDup_cons in Hnd.
  destruct Hnd as (_ & Hdis & Hn2 & _).
  assert (target ∉ l1) by (intros H; apply (Hdis _ H); set_solver).
  rewrite beside_app, beside_here, !beside_absent by done. destruct before; cbn.
  - symmetry. apply Permutation_middle.
  - rewrite <- !Permutation_middle. apply perm_swap.
Qed.

Lemma is_leaf_of_spec target t : is_leaf_of target t = true <-> t = Leaf target.
Proof. destruct t; cbn; [rewrite bool_decide_eq_true; naive_solver|done]. Qed.

Lemma direct_some target l index :
  direct target l = Some index ->
  exists l1 w l2, l = l1 ++ mkChild w (Leaf target) :: l2 /\ length l1 = index.
Proof.
  unfold direct. destruct (list_find (fun c : Child => is_leaf_of target (node c) = true) l) as [[i c]|] eqn:E; intros [= <-].
  apply (list_find_Some (fun c : Child => is_leaf_of target (node c) = true)) in E as (Hl & Hc & _).
  apply is_leaf_of_spec in Hc. destruct c as [w n]; cbn in Hc; subst n.
  exists (take i l), w, (drop (S i) l). rewrite take_drop_middle by done. split; [done|].
  apply length_take_le. apply lookup_lt_Some in Hl. lia.
Qed.
Lemma direct_none target l c : direct target l = None -> c ∈ l -> node c <> Leaf target.
Proof.
  unfold direct. destruct (list_find (fun c : Child => is_leaf_of target (node c) = true) l) eqn:E; [done|]. intros _ Hc.
  apply (list_find_None (fun c : Child => is_leaf_of target (node c) = true)) in E.
  rewrite Forall_forall in E. intros H. apply (E c Hc). by apply is_leaf_of_spec.
Qed.

Lemma insert_at_middle {A} (x : A) l1 l2 : insert_at (length l1) x (l1 ++ l2) = l1 ++ x :: l2.
Proof. unfold insert_at. by rewrite take_app_length, drop_app_length. Qed.
Lemma insert_at_after {A} (x y : A) l1 l2 : insert_at (S (length l1)) x (l1 ++ y :: l2) = l1 ++ y :: x :: l2.
Proof.
  replace (S (length l1)) with (length (l1 ++ [y])) by (rewrite length_app; cbn; lia).
  change (y :: l2) with ([y] ++ l2). by rewrite app_assoc, insert_at_middle, <- app_assoc.
Qed.
Lemma insert_at_perm {A} index (x : A) l : insert_at index x l ≡ₚ x :: l.
Proof. unfold insert_at. rewrite <- Permutation_middle. by rewrite take_drop. Qed.

Section Insert.
Context (leaf target : RawUuid) (axis : SplitAxis) (before : bool) (fresh : RawUuid).
Notation ins := (insert_beside_impl leaf target axis before fresh).
Notation put := (beside leaf target before).

Lemma insert_leaves t : NoDup (leaves t) -> leaves (ins t) = put (leaves t).
Proof.
  induction t as [id|id split_axis children IH]; intros Hnd; cbn.
  { destruct (decide (id = target)) as [->|]; [rewrite beside_here; by destruct before|]. rewrite beside_absent; set_solver. }
  destruct (if decide (split_axis = axis) then direct target children else None) as [index|] eqn:E.
  - destruct (decide (split_axis = axis)); [|done].
    apply direct_some in E as (l1 & w & l2 & -> & <-). cbn in Hnd.
    rewrite map_app, concat_app, NoDup_app in Hnd. cbn in Hnd. rewrite NoDup_cons in Hnd.
    destruct Hnd as (_ & Hdis & Hn2 & _). assert (target ∉ leaves_of l1) by (intros H; apply (Hdis _ H); set_solver).
    rewrite map_app, concat_app. cbn. rewrite beside_app. cbn. rewrite beside_here.
    change (concat (map _ l1)) with (leaves_of l1). change (concat (map _ l2)) with (leaves_of l2).
    rewrite (beside_absent _ _ _ (leaves_of l1)), (beside_absent _ _ _ (leaves_of l2)) by done.
    destruct before; [rewrite insert_at_middle|rewrite insert_at_after]; rewrite map_app, concat_app; done.
  - cbn in Hnd |- *. clear E. rewrite map_map. induction IH as [|c l Hc _ IHl]; cbn in Hnd |- *; [done|].
    apply NoDup_app in Hnd as (Hn1 & _ & Hn2). rewrite beside_app, IHl by done. f_equal.
    destruct (contains target (node c)) eqn:E; cbn; [by apply Hc|]. by rewrite beside_absent by by apply contains_false.
Qed.

Lemma beside_shape {k} t : shape_with k t = true -> shape_with k (ins t) = true.
Proof.
  induction t as [id|id split_axis children IH]; intros Hs; cbn [insert_beside_impl].
  { destruct (decide _); [by destruct before, k|done]. }
  apply shape_split in Hs as [Hlen Hs].
  destruct (if decide (split_axis = axis) then direct target children else None) as [index|] eqn:E.
  - apply shape_split. rewrite insert_at_perm. split; [cbn; lia|]. by constructor; auto.
  - apply shape_split. rewrite length_map. split; [done|]. apply Forall_map.
    rewrite Forall_forall in *. intros c Hc. specialize (IH c Hc). destruct (Hs c Hc) as [Hsc Hax].
    destruct (contains target (node c)); [|done]. split; [by apply IH|]. cbn.
    destruct (node c) as [x|x a cs] eqn:En; cbn.
    + destruct (decide (x = target)) as [->|]; [|done]. cbn. rewrite (bool_decide_eq_false_2 (axis = split_axis)); [apply andb_false_r|].
      intros <-. rewrite decide_True in E by done. by apply (direct_none _ _ _ E Hc).
    + by destruct (if decide (a = axis) then _ else _).
Qed.

Lemma insert_depth t : (depth (ins t) <= S (depth t))%nat.
Proof.
  induction t as [id|id split_axis children IH]; cbn [insert_beside_impl].
  { destruct (decide _); [destruct before; cbn; lia|cbn; lia]. }
  assert (Hd : Forall (fun c : Child => (depth (node c) <= depth (Split id split_axis children))%nat) children).
  { apply Forall_impl with (fun c : Child => (depth (node c) <= pred (depth (Split id split_axis children)))%nat).
    - by apply (depth_split id split_axis). - intros c. lia. }
  case_match.
  - apply depth_split. rewrite insert_at_perm. constructor; [cbn; lia|done].
  - apply depth_split, Forall_map. assert (Hp : Forall (fun c : Child => (S (depth (node c)) <= depth (Split id split_axis children))%nat) children).
    { eapply Forall_impl; [by apply (depth_split id split_axis children (max_list (map (fun c => depth (node c)) children)))|].
      intros c. cbn. lia. }
    rewrite Forall_forall in *. intros c Hc. specialize (IH c Hc). specialize (Hp c Hc).
    destruct (contains target (node c)); cbn in *; lia.
Qed.
End Insert.

Lemma wrapped_leaves t leaf axis before fresh :
  leaves (wrapped t leaf axis before fresh) = if before then leaf :: leaves t else leaves t ++ [leaf].
Proof. by destruct before; cbn; rewrite ?app_nil_r. Qed.

Lemma root_leaves t leaf axis before fresh :
  leaves (inserting_at_root t leaf axis before fresh) = if before then leaf :: leaves t else leaves t ++ [leaf].
Proof.
  destruct t as [id|id split_axis children]; [apply wrapped_leaves|]. cbn [inserting_at_root].
  destruct (decide _); [|apply wrapped_leaves]. destruct before; [done|].
  unfold insert_at. rewrite firstn_all, drop_all. cbn. by rewrite map_app, concat_app.
Qed.
Lemma root_leaves_perm t leaf axis before fresh : leaves (inserting_at_root t leaf axis before fresh) ≡ₚ leaf :: leaves t.
Proof. rewrite root_leaves. destruct before; [done|]. by rewrite Permutation_app_comm. Qed.

Lemma root_shape {k} t leaf axis before fresh :
  shape_with k t = true -> shape_with k (inserting_at_root t leaf axis before fresh) = true.
Proof.
  intros Hs. assert (Hw : same_axis axis t = false -> shape_with k (wrapped t leaf axis before fresh) = true).
  { intros Ha. assert (child_shape_ok k axis (mkChild (Flex one) t)) by (split; [done|]; cbn; by rewrite Ha, andb_false_r).
    pose proof (leaf_child_ok k axis (Flex one) leaf) as Hl. fold (leaf_child leaf) in Hl.
    apply shape_split. split; [by destruct before; cbn; lia|]. destruct before; by repeat apply Forall_cons_2. }
  destruct t as [id|id split_axis children]; [by apply Hw|]. cbn [inserting_at_root].
  destruct (decide _) as [->|Hne]; [|by apply Hw, bool_decide_eq_false]. apply shape_split in Hs as [Hlen Hs].
  apply shape_split. rewrite insert_at_perm. split; [cbn; lia|]. by constructor; auto.
Qed.

(** ** Removing *)

Definition prune_child (target : RawUuid) (c : Child) : option Child :=
  if is_leaf_of target (node c) then None else mkChild (weight c) <$> remove_impl target (node c).

Lemma remove_split target id axis children :
  remove_impl target (Split id axis children) =
  collapse id axis rebalance_flex (merge_same_axis (omap (prune_child target) children) axis).
Proof.
  cbn. do 2 f_equal. induction children as [|c l IH]; [done|]. cbn. unfold prune_child at 1. rewrite <- IH.
  destruct (is_leaf_of target (node c)); [done|]. by destruct (remove_impl target (node c)).
Qed.

Lemma rebalance_nodes l : map node (rebalance_flex l) = map node l.
Proof.
  unfold rebalance_flex. destruct (flex_total l) as [sum count]. destruct (count =? 0); [done|].
  rewrite map_map. apply map_ext. intros [[]]; done.
Qed.

Lemma collapse_leaves id axis tidy l :
  map node (tidy l) = map node l -> from_option leaves [] (collapse id axis tidy l) = leaves_of l.
Proof.
  intros Ht. destruct l as [|c [|d l]]; [done|by rewrite leaves_of_single|]. apply (leaves_of_nodes _ _ Ht).
Qed.
Lemma Forall_nodes (P : SplitNode -> Prop) l k : map node l = map node k -> Forall (fun c => P (node c)) l -> Forall (fun c => P (node c)) k.
Proof. intros E. rewrite <- !(Forall_map node P), E. done. Qed.
Lemma collapse_shape {k} id axis tidy l t :
  map node (tidy l) = map node l -> Forall (child_shape_ok k axis) l -> collapse id axis tidy l = Some t -> shape_with k t = true.
Proof.
  intros Ht Hl. destruct l as [|c [|d l]]; cbn; [done| |]; intros [= <-].
  - by apply Forall_cons in Hl as [[? _] _].
  - apply shape_split. apply (f_equal length) in Ht as Hlen. rewrite !length_map in Hlen. split; [rewrite Hlen; cbn; lia|].
    by eapply (Forall_nodes (fun n => shape_with k n = true /\ k && same_axis axis n = false)).
Qed.
Lemma collapse_depth id axis tidy l t n :
  map node (tidy l) = map node l -> Forall (fun c => (depth (node c) <= n)%nat) l -> collapse id axis tidy l = Some t ->
  (depth t <= S n)%nat.
Proof.
  intros Ht Hl. destruct l as [|c [|d l]]; cbn [collapse]; [done| |]; intros [= <-].
  - apply Forall_cons in Hl as [? _]. lia.
  - apply depth_split. by eapply (Forall_nodes (fun t => depth t <= n)%nat).
Qed.

Lemma splice_leaves axis c : leaves_of (splice axis c) = leaves (node c).
Proof.
  unfold splice. destruct c as [w [id|id a cs]]; cbn; [done|].
  destruct (decide (a = axis)); [done|apply leaves_of_single].
Qed.
Lemma merge_leaves l axis : leaves_of (merge_same_axis l axis) = leaves_of l.
Proof.
  unfold merge_same_axis. induction l as [|c l IH]; [done|]. cbn [map concat].
  by rewrite leaves_of_app, splice_leaves, IH.
Qed.
Lemma splice_shape {k} axis c : shape_with k (node c) = true -> Forall (child_shape_ok k axis) (splice axis c).
Proof.
  unfold splice. destruct c as [w [id|id a cs]]; cbn [node]; intros Hs; [by constructor; auto|].
  destruct (decide (a = axis)) as [->|]; [by apply shape_split in Hs as [_ ?]|].
  constructor; [|done]. split; [done|]. cbn. by rewrite bool_decide_eq_false_2, andb_false_r.
Qed.
Lemma merge_shape {k} l axis :
  Forall (fun c => shape_with k (node c) = true) l -> Forall (child_shape_ok k axis) (merge_same_axis l axis).
Proof. intros H. unfold merge_same_axis. apply Forall_concat, Forall_map. eapply Forall_impl; [done|]. apply splice_shape. Qed.
Lemma merge_depth l axis n :
  Forall (fun c => (depth (node c) <= n)%nat) l -> Forall (fun c => (depth (node c) <= n)%nat) (merge_same_axis l axis).
Proof.
  intros H. unfold merge_same_axis. apply Forall_concat, Forall_map. eapply Forall_impl; [done|].
  unfold splice. intros [w [id|id a cs]] Hd; cbn [node] in *; [by repeat constructor|].
  destruct (decide _); [|by repeat constructor]. destruct n; [pose proof (depth_pos (Split id a cs)); lia|].
  apply depth_split in Hd. eapply Forall_impl; [done|]. cbn. lia.
Qed.

Section Remove.
Context (target : RawUuid).

Lemma prune_children (P : SplitNode -> Prop) children :
  Forall (fun c => forall t, remove_impl target (node c) = Some t -> P t) children ->
  Forall (fun c => P (node c)) (omap (prune_child target) children).
Proof.
  induction 1 as [|c l Hc _ IH]; cbn; [done|]. unfold prune_child at 1. destruct (is_leaf_of target (node c)); [done|].
  destruct (remove_impl target (node c)) as [t|] eqn:E; cbn; [|done]. constructor; [by apply Hc|done].
Qed.

Lemma remove_leaves t : from_option leaves [] (remove_impl target t) = filter (.≠ target) (leaves t).
Proof.
  induction t as [id|id axis children IH].
  { cbn [remove_impl leaves]. rewrite filter_cons. destruct (decide (id = target)) as [->|].
    - by rewrite decide_False by naive_solver. - by rewrite decide_True. }
  rewrite remove_split, collapse_leaves by apply rebalance_nodes. rewrite merge_leaves. cbn [leaves].
  induction IH as [|c l Hc _ IHl]; cbn; [done|]. rewrite filter_app, <- IHl, <- Hc. unfold prune_child at 1.
  destruct (is_leaf_of target (node c)) eqn:El.
  - apply is_leaf_of_spec in El. rewrite El. cbn. by rewrite decide_True.
  - by destruct (remove_impl target (node c)).
Qed.

Lemma remove_shape {k} t t' : shape_with k t = true -> remove_impl target t = Some t' -> shape_with k t' = true.
Proof.
  revert t'. induction t as [id|id axis children IH]; intros t' Hs.
  { cbn. by destruct (decide _); intros [= <-]. }
  rewrite remove_split. apply shape_split in Hs as [_ Hs]. apply collapse_shape; [apply rebalance_nodes|].
  apply merge_shape, (prune_children (fun t => shape_with k t = true)). rewrite Forall_forall in *. intros c Hc t'' E.
  by eapply IH, E; [|apply Hs].
Qed.

Lemma remove_depth t t' n : (depth t <= n)%nat -> remove_impl target t = Some t' -> (depth t' <= n)%nat.
Proof.
  revert t' n. induction t as [id|id axis children IH]; intros t' n Hd.
  { cbn in *. by destruct (decide _); intros [= <-]. }
  destruct n as [|n]; [cbn in Hd; lia|]. rewrite remove_split. apply depth_split in Hd.
  apply collapse_depth; [apply rebalance_nodes|]. apply merge_depth, (prune_children (fun t => (depth t <= n)%nat)).
  rewrite Forall_forall in *. intros c Hc t'' E. by eapply IH, E; [|apply Hd].
Qed.

Lemma remove_none {k} t : shape_with k t = true -> remove_impl target t = None <-> Forall (eq target) (leaves t).
Proof.
  intros Hs. pose proof (remove_leaves t) as E. destruct (remove_impl target t) as [t'|] eqn:Er; cbn in E.
  - split; [done|]. intros Hall. exfalso. apply (leaves_nonempty (k := k) t'); [by eapply remove_shape|]. rewrite E.
    clear -Hall. induction Hall as [|x l <- _ IH]; [done|]. rewrite filter_cons. by rewrite decide_False by naive_solver.
  - split; [|done]. intros _. symmetry in E. clear -E. induction (leaves t) as [|x l IH]; [done|].
    rewrite filter_cons in E. destruct (decide (x ≠ target)) as [|H]; [done|]. constructor; [|by apply IH].
    by destruct (decide (x = target)).
Qed.

(** What [removing] does, for a pane that is there and for one that is not. *)
Lemma removing_leaves t : from_option leaves [] (removing target t) = filter (.≠ target) (leaves t).
Proof.
  unfold removing. destruct (contains target t) eqn:E; [apply remove_leaves|]. apply contains_false in E.
  cbn. symmetry. induction (leaves t) as [|x l IH]; [done|]. apply not_elem_of_cons in E as [? ?].
  rewrite filter_cons, decide_True by congruence. by rewrite IH.
Qed.
Lemma removing_shape {k} t t' : shape_with k t = true -> removing target t = Some t' -> shape_with k t' = true.
Proof. unfold removing. destruct (contains target t); [apply remove_shape|]. by intros H [= <-]. Qed.
Lemma removing_depth t t' : removing target t = Some t' -> (depth t' <= depth t)%nat.
Proof. unfold removing. destruct (contains target t); [by apply remove_depth|]. by intros [= <-]. Qed.
Lemma removing_some t t' : removing target t = Some t' -> leaves t' = filter (.≠ target) (leaves t).
Proof. intros E. by rewrite <- removing_leaves, E. Qed.
Lemma removing_none {k} t : shape_with k t = true -> removing target t = None <-> Forall (eq target) (leaves t).
Proof.
  intros Hs. unfold removing. destruct (contains target t) eqn:E; [by apply (remove_none (k := k))|]. apply contains_false in E.
  split; [done|]. intros Hall. exfalso. destruct (leaves t) as [|x l] eqn:El; [by apply (leaves_nonempty (k := k) t)|].
  apply Forall_cons in Hall as [<- _]. set_solver.
Qed.
End Remove.

(** ** Operations that keep every pane where it is *)

(** A rewrite of children that keeps their subtrees. *)
Lemma map_split_keeps {k} split_id rewrite t :
  (forall l, map node (rewrite l) = map node l) ->
  leaves (map_split split_id rewrite t) = leaves t /\ depth (map_split split_id rewrite t) = depth t /\
  (shape_with k t = true -> shape_with k (map_split split_id rewrite t) = true).
Proof.
  intros Hr. induction t as [id|id axis children IH]; [done|]. cbn [map_split]. destruct (decide (id = split_id)).
  - split; [apply (leaves_of_nodes _ _ (Hr children))|]. split.
    + cbn. do 2 f_equal. by rewrite <- (map_map node depth), Hr, map_map.
    + intros Hs. eapply (collapse_shape id axis rewrite children); [done|by apply shape_split in Hs as [_ ?]|].
      apply shape_split in Hs as [Hlen _]. by destruct children as [|c [|d l]]; cbn in Hlen; [lia|lia|].
  - split; [|split].
    + cbn. rewrite map_map. cbn. f_equal. apply map_ext_Forall. eapply Forall_impl; [done|]. by intros c [? _].
    + cbn. rewrite map_map. cbn. do 2 f_equal. apply map_ext_Forall. eapply Forall_impl; [done|]. by intros c (_ & ? & _).
    + intros Hs. apply shape_split in Hs as [Hlen Hs]. apply shape_split. rewrite length_map. split; [done|].
      apply Forall_map. rewrite Forall_forall in *. intros c Hc. destruct (Hs c Hc) as [H1 H2].
      destruct (IH c Hc) as (_ & _ & H3). split; [by apply H3|]. cbn. destruct (node c) as [x|x a l]; [done|].
      cbn. by destruct (decide (x = split_id)).
Qed.

Lemma alter_set_weight_nodes w i (l : list Child) : map node (alter (set_weight w) i l) = map node l.
Proof.
  revert i. induction l as [|c l IH]; intros [|i]; [done..|]. change (node c :: map node (alter (set_weight w) i l) = node c :: map node l).
  by rewrite IH.
Qed.
Lemma adjust_pair_nodes propose i l : map node (adjust_pair l i propose) = map node l.
Proof. unfold adjust_pair. repeat case_match; by rewrite ?alter_set_weight_nodes. Qed.

(** Where a divider lands: the leading share is within its bounds whatever was proposed, the trailing one
    is what is left of the pair's sum. *)
Lemma adjust_pair_bounds propose i l c d lead trail :
  l !! i = Some c -> l !! S i = Some d -> weight c = Flex lead -> weight d = Flex trail ->
  exists new_lead,
    (adjust_pair l i propose) !! i = Some (mkChild (Flex new_lead) (node c)) /\
    (adjust_pair l i propose) !! S i = Some (mkChild (Flex (f64_sub (f64_add lead trail) new_lead)) (node d)) /\
    (forall j, j <> i -> j <> S i -> (adjust_pair l i propose) !! j = l !! j) /\
    f64_le MIN_WEIGHT new_lead = true /\
    f64_le new_lead (f64_max (f64_sub (f64_add lead trail) MIN_WEIGHT) MIN_WEIGHT) = true.
Proof.
  intros Hc Hd Ec Ed. unfold adjust_pair. rewrite Hc, Hd, Ec, Ed. cbn [flex].
  set (upper := f64_max (f64_sub _ MIN_WEIGHT) MIN_WEIGHT). set (new_lead := f64_min _ upper).
  assert (Hup : f64_le MIN_WEIGHT upper = true) by by apply f64_max_floor.
  exists new_lead. split; [|split; [|split; [|split]]].
  - rewrite list_lookup_alter_ne, list_lookup_alter_eq, Hc by lia. done.
  - rewrite list_lookup_alter_eq, list_lookup_alter_ne, Hd by lia. done.
  - intros j Hj Hj'. by rewrite !list_lookup_alter_ne by lia.
  - apply f64_min_floor; [by apply f64_max_floor|done].
  - apply f64_min_ceiling. by apply f64_le_not_nan in Hup as [_ ?].
Qed.

Lemma map_leaves_keeps {k} f t :
  leaves (map_leaves f t) = map f (leaves t) /\ depth (map_leaves f t) = depth t /\
  shape_with k (map_leaves f t) = shape_with k t /\ forall axis, same_axis axis (map_leaves f t) = same_axis axis t.
Proof.
  induction t as [id|id axis children IH]; [done|]. cbn. rewrite !map_map, length_map. cbn. split; [|split; [|split; [|done]]].
  - rewrite concat_map, map_map. f_equal. apply map_ext_Forall. eapply Forall_impl; [done|]. by intros c (? & _).
  - do 2 f_equal. apply map_ext_Forall. eapply Forall_impl; [done|]. by intros c (_ & ? & _).
  - f_equal. induction IH as [|c l (_ & _ & Hs & Ha) _ IHl]; cbn; [done|]. by rewrite Hs, Ha, IHl.
Qed.

Lemma exchange_involutive a b id : exchange a b (exchange a b id) = id.
Proof. unfold exchange. repeat case_decide; congruence. Qed.
Lemma swapping_leaves a b t :
  a ∈ leaves t -> b ∈ leaves t -> leaves (swapping a b t) = map (exchange a b) (leaves t).
Proof.
  intros Ha%contains_leaves Hb%contains_leaves. unfold swapping. rewrite Ha, Hb. cbn. rewrite !orb_false_r.
  destruct (bool_decide_reflect (a = b)) as [->|]; [|apply (map_leaves_keeps (k := true))].
  symmetry. rewrite <- (map_id (leaves t)) at 2. apply map_ext. intros id. unfold exchange. repeat case_decide; congruence.
Qed.
Lemma swapping_keeps {k} a b t :
  depth (swapping a b t) = depth t /\ shape_with k (swapping a b t) = shape_with k t /\
  (forall x, x ∈ leaves (swapping a b t) <-> x ∈ leaves t) /\ (NoDup (leaves t) -> NoDup (leaves (swapping a b t))).
Proof.
  unfold swapping. destruct (contains a t) eqn:Ha; [|by rewrite orb_true_r].
  destruct (contains b t) eqn:Hb; [|by rewrite orb_true_r]. destruct (bool_decide (a = b)) eqn:Eab; [done|]. cbn.
  apply contains_leaves in Ha, Hb. destruct (map_leaves_keeps (k := k) (exchange a b) t) as (-> & -> & -> & _).
  split; [done|]. split; [done|]. split.
  - intros x. rewrite list_elem_of_In, in_map_iff. setoid_rewrite <- list_elem_of_In. split.
    + intros (y & <- & Hy). unfold exchange. by repeat case_decide.
    + intros Hx. exists (exchange a b x). split; [apply exchange_involutive|]. unfold exchange. by repeat case_decide.
  - intros Hnd. apply (NoDup_fmap_2_strong (exchange a b)); [|done]. intros x y _ _ E.
    by rewrite <- (exchange_involutive a b x), E, exchange_involutive.
Qed.

Lemma rebalanced_keeps {k} t :
  leaves (rebalanced t) = leaves t /\ depth (rebalanced t) = depth t /\ shape_with k (rebalanced t) = shape_with k t /\
  forall axis, same_axis axis (rebalanced t) = same_axis axis t.
Proof.
  induction t as [id|id axis children IH]; [done|]. cbn. rewrite !map_map, length_map. cbn. split; [|split; [|split; [|done]]].
  - f_equal. apply map_ext_Forall. eapply Forall_impl; [done|]. by intros c (? & _).
  - do 2 f_equal. apply map_ext_Forall. eapply Forall_impl; [done|]. by intros c (_ & ? & _).
  - f_equal. induction IH as [|c l (_ & _ & Hs & Ha) _ IHl]; cbn; [done|]. by rewrite Hs, Ha, IHl.
Qed.

(** ** The repair *)

Lemma repaired_ok w : weight_ok (repaired w) = true.
Proof.
  destruct w as [v|v]; cbn; destruct (is_finite v) eqn:E; cbn; try done.
  - rewrite (f64_max_floor v MIN_WEIGHT), andb_true_r by done. unfold f64_max. by repeat case_match.
  - rewrite (f64_max_floor v zero), andb_true_r by done. unfold f64_max. by repeat case_match.
Qed.
Lemma repaired_id w : weight_ok w = true -> repaired w = w.
Proof. destruct w as [v|v]; cbn; intros [-> H]%andb_true_iff; by rewrite f64_max_id. Qed.

Arguments accept_leaf : simpl never.

Section Normalize.
Context {M : Type} (mint : M -> RawUuid * M).
Notation seen_state := (gset RawUuid * M)%type.

Fixpoint normalize_children (axis : SplitAxis) (depth : nat) (l : list Child) (st : seen_state) : list Child * seen_state :=
  match l with
  | [] => ([], st)
  | c :: l =>
    let '(r, st) := normalize_impl mint (node c) depth st in
    let '(rest, st) := normalize_children axis depth l st in
    (contribution axis (weight c) r ++ rest, st)
  end.

Lemma normalize_split id axis children d st :
  normalize_impl mint (Split id axis children) d st =
  if (MAX_DEPTH <=? S d)%nat
  then (Some (first_leaf_repaired mint (Split id axis children) st).1, (first_leaf_repaired mint (Split id axis children) st).2)
  else (collapse id axis (fun l => l) (normalize_children axis (S d) children st).1,
        (normalize_children axis (S d) children st).2).
Proof.
  cbn [normalize_impl]. destruct (MAX_DEPTH <=? S d)%nat; [by destruct (first_leaf_repaired _ _ _)|].
  match goal with |- context [?f children st] => is_fix f; set (go := f) end.
  assert (E : forall st, go children st = normalize_children axis (S d) children st).
  { induction children as [|c l IH]; intros st'; cbn; [done|]. destruct (normalize_impl mint (node c) (S d) st') as [r st''].
    by rewrite IH. }
  rewrite E. by destruct (normalize_children axis (S d) children st).
Qed.

Lemma first_leaf_is_leaf t st : exists id, (first_leaf_repaired mint t st).1 = Leaf id.
Proof.
  revert st. induction t as [id|id axis children IH]; intros st; cbn.
  - destruct (accept_leaf mint id st) as [x ?]. by exists x.
  - destruct IH as [|c l Hc _]; [|apply Hc]. destruct (mint st.2) as [f m].
    destruct (accept_leaf mint f (st.1, m)) as [x ?]. by exists x.
Qed.

(** Whatever the file said and whatever [mint] answers, what is kept has the shape, the depth and the
    weights the rest of the program relies on. *)
Definition sound (n : nat) (t : SplitNode) : Prop :=
  shape_ok t = true /\ (depth t <= n)%nat /\ weights_ok t = true.
Definition sound_child (axis : SplitAxis) (n : nat) (c : Child) : Prop :=
  sound n (node c) /\ same_axis axis (node c) = false /\ weight_ok (weight c) = true.

Lemma collapse_sound id axis l t n :
  Forall (sound_child axis n) l -> collapse id axis (fun l => l) l = Some t -> sound (S n) t.
Proof.
  intros Hl E. split; [|split].
  - eapply collapse_shape, E; [done|]. eapply Forall_impl; [done|]. by intros c ([? _] & ? & _).
  - eapply (collapse_depth id axis (fun l => l)), E; [done|]. eapply Forall_impl; [done|]. by intros c ((_ & ? & _) & _).
  - destruct l as [|c [|d l]]; cbn in E; [done| |]; injection E as <-.
    + apply Forall_cons in Hl as [((_ & _ & ?) & _) _]. done.
    + apply weights_split. eapply Forall_impl; [done|]. by intros x ((_ & _ & ?) & _ & ?).
Qed.

Lemma contribution_sound axis w r n :
  (forall t, r = Some t -> sound n t) -> Forall (sound_child axis n) (contribution axis w r).
Proof.
  intros Hr. destruct r as [[id|id a cs]|]; cbn; [| |done].
  - constructor; [|done]. split; [by apply Hr|]. split; [done|apply repaired_ok].
  - destruct (Hr _ eq_refl) as (Hs & Hd & Hw). destruct (decide (a = axis)) as [->|Hne].
    + apply shape_split in Hs as [_ Hs]. apply weights_split in Hw. destruct n; [pose proof (depth_pos (Split id axis cs)); lia|].
      apply depth_split in Hd. rewrite Forall_forall in *. intros c Hc. destruct (Hs c Hc), (Hw c Hc).
      specialize (Hd c Hc). cbn in Hd. repeat split; [done|lia|done..].
    + constructor; [|done]. split; [done|]. split; [by apply bool_decide_eq_false|apply repaired_ok].
Qed.

Lemma normalize_sound t d st r st' :
  (d < MAX_DEPTH)%nat -> normalize_impl mint t d st = (Some r, st') -> sound (MAX_DEPTH - d) r.
Proof.
  revert d st r st'. induction t as [id|id axis children IH]; intros d st r st' Hd.
  { cbn [normalize_impl]. destruct (accept_leaf mint id st). intros [= <- _]. split; [done|]. split; [unfold MAX_DEPTH in *; cbn; lia|done]. }
  rewrite normalize_split. destruct (Nat.leb_spec MAX_DEPTH (S d)) as [|Hlt].
  { destruct (first_leaf_is_leaf (Split id axis children) st) as [x ->]. intros [= <- _].
    split; [done|]. split; [unfold MAX_DEPTH in *; cbn; lia|done]. }
  intros [= E _]. replace (MAX_DEPTH - d)%nat with (S (MAX_DEPTH - S d)) by lia. eapply collapse_sound, E. clear E.
  revert st. induction IH as [|c l Hc _ IHl]; intros st; cbn [normalize_children fst]; [done|].
  destruct (normalize_impl mint (node c) (S d) st) as [o st1] eqn:En.
  specialize (IHl st1). destruct (normalize_children axis (S d) l st1) as [rest st2]. cbn [fst] in *. apply Forall_app. split; [|done].
  apply contribution_sound. intros t ->. by eapply Hc.
Qed.

Lemma contribution_leaves axis w r : leaves_of (contribution axis w r) = from_option leaves [] r.
Proof.
  destruct r as [[id|id a cs]|]; [apply leaves_of_single| |done]. cbn. destruct (decide _); [done|]. apply leaves_of_single.
Qed.

(** A tree that is already sound is kept as it is, and nothing is minted. *)
Lemma normalize_id t d seen m :
  sound (MAX_DEPTH - d) t -> NoDup (leaves t) -> (forall x, x ∈ leaves t -> x ∉ seen) ->
  normalize_impl mint t d (seen, m) = (Some t, (list_to_set (leaves t) ∪ seen, m)).
Proof.
  revert d seen. induction t as [id|id axis children IH]; intros d seen (Hs & Hd & Hw) Hnd Hdis.
  { cbn [normalize_impl leaves]. unfold accept_leaf. cbn. rewrite decide_False by set_solver. do 2 f_equal.
    f_equal. set_solver. }
  rewrite normalize_split. apply shape_split in Hs as [Hlen Hs]. apply weights_split in Hw.
  destruct children as [|c0 l0] eqn:El; [cbn in Hlen; lia|]. rewrite <- El in *. clear El.
  destruct (MAX_DEPTH - d)%nat as [|n] eqn:En; [pose proof (depth_pos (Split id axis children)); lia|].
  apply depth_split in Hd. destruct (Nat.leb_spec MAX_DEPTH (S d)).
  { destruct children as [|c l]; [cbn in Hlen; lia|]. apply Forall_cons in Hd as [Hd _].
    pose proof (depth_pos (node c)). lia. }
  assert (E : normalize_children axis (S d) children (seen, m) = (children, (list_to_set (leaves_of children) ∪ seen, m))).
  { replace n with (MAX_DEPTH - S d)%nat in Hd by lia. change (leaves (Split id axis children)) with (leaves_of children) in *.
    clear Hlen c0 l0 En. revert seen Hdis. induction IH as [|c l Hc _ IHl]; intros seen Hdis; cbn [normalize_children].
    { do 2 f_equal. unfold leaves_of. set_solver. }
    apply Forall_cons in Hs as [[Hs1 Hs2] Hs], Hw as [[Hw1 Hw2] Hw], Hd as [Hd1 Hd].
    rewrite leaves_of_cons in Hnd, Hdis |- *. apply NoDup_app in Hnd as (Hn1 & Hn2 & Hn3).
    rewrite (Hc (S d) seen) by (done || set_solver). rewrite IHl by (done || set_solver). cbn.
    rewrite list_to_set_app_L, (assoc_L (∪)), (union_comm_L (list_to_set (leaves_of l))).
    f_equal. destruct c as [w [x|x a cs]]; cbn in *; rewrite repaired_id by done; [done|].
    apply bool_decide_eq_false in Hs2. by rewrite decide_False. }
  rewrite E. cbn. by destruct children as [|c [|c' l]]; cbn in Hlen; [lia|lia|].
Qed.

(** *** Fresh identities *)

Fixpoint minted (m : M) (k : nat) : RawUuid := match k with O => (mint m).1 | S k => minted (mint m).2 k end.
Definition supply (m : M) (used : gset RawUuid) : Prop :=
  (forall k, minted m k ∉ used) /\ (forall j k, minted m j = minted m k -> j = k).

Lemma supply_next m used : supply m used -> supply (mint m).2 ({[ (mint m).1 ]} ∪ used).
Proof.
  intros [Hf Hi]. split.
  - intros k. rewrite elem_of_union, elem_of_singleton. intros [E|E]; [by apply (Hi (S k) 0%nat) in E|by apply (Hf (S k))].
  - intros j k E. apply (Hi (S j) (S k)) in E. lia.
Qed.
Lemma supply_mono m used used' : used' ⊆ used -> supply m used -> supply m used'.
Proof. intros Hs [Hf Hi]. split; [|done]. intros k. specialize (Hf k). set_solver. Qed.

Lemma accept_fresh U id seen m :
  supply m ({[id]} ∪ U ∪ seen) ->
  exists x m', accept_leaf mint id (seen, m) = (x, ({[x]} ∪ seen, m')) /\ x ∉ seen /\ supply m' (U ∪ ({[x]} ∪ seen)).
Proof.
  intros Hsup. unfold accept_leaf, DUPLICATE_MINT_ATTEMPTS. cbn [accept_attempts].
  destruct (decide (id ∈ seen)) as [Hin|Hout].
  - destruct (mint m) as [x m'] eqn:Em. assert (Hx : x ∉ seen).
    { pose proof (proj1 Hsup 0%nat) as H. cbn in H. rewrite Em in H. set_solver. }
    exists x, m'. rewrite decide_False by done. split; [done|]. split; [done|].
    apply supply_next in Hsup. rewrite Em in Hsup. eapply supply_mono, Hsup. cbn. set_solver.
  - exists id, m. split; [done|]. split; [done|]. eapply supply_mono, Hsup. set_solver.
Qed.

(** Everything accepted is kept, is new, and leaves the rest of the supply fresh. *)
Definition accepted (U : gset RawUuid) (st : seen_state) (ls : list RawUuid) (st' : seen_state) : Prop :=
  st'.1 = list_to_set ls ∪ st.1 /\ NoDup ls /\ (forall x, x ∈ ls -> x ∉ st.1) /\ supply st'.2 (U ∪ st'.1).

Lemma first_leaf_accepted U t seen m :
  list_to_set (leaves t) ⊆ U -> supply m (U ∪ seen) ->
  accepted U (seen, m) (leaves (first_leaf_repaired mint t (seen, m)).1) (first_leaf_repaired mint t (seen, m)).2.
Proof.
  intros HU Hsup. induction t as [id|id axis children IH]; cbn [first_leaf_repaired].
  - destruct (accept_fresh U id seen m) as (x & m' & -> & Hx & Hs'); [eapply supply_mono, Hsup; set_solver|].
    repeat split; cbn; [set_solver|apply NoDup_singleton|set_solver|apply Hs'|apply Hs'].
  - destruct IH as [|c l Hc _].
    + cbn. destruct (mint m) as [fresh m1] eqn:Em. apply supply_next in Hsup. rewrite Em in Hsup. cbn in Hsup.
      destruct (accept_fresh U fresh seen m1) as (x & m' & -> & Hx & Hs'); [eapply supply_mono, Hsup; set_solver|].
      repeat split; cbn; [set_solver|apply NoDup_singleton|set_solver|apply Hs'|apply Hs'].
    + apply Hc. cbn in HU. set_solver.
Qed.

Lemma accepted_app U st ls st1 ks st2 :
  accepted U st ls st1 -> accepted U st1 ks st2 -> accepted U st (ls ++ ks) st2.
Proof.
  intros (E1 & N1 & D1 & _) (E2 & N2 & D2 & S2). rewrite E1 in *. split; [|split; [|split]]; [|  | |done].
  - rewrite E2, list_to_set_app_L. set_solver.
  - apply NoDup_app. split; [done|]. split; [|done]. intros x Hx Hk. apply (D2 x Hk). set_solver.
  - intros x [Hx|Hx]%elem_of_app; [by apply D1|]. specialize (D2 x Hx). set_solver.
Qed.

Lemma normalize_accepted U t d seen m :
  list_to_set (leaves t) ⊆ U -> supply m (U ∪ seen) ->
  accepted U (seen, m) (from_option leaves [] (normalize_impl mint t d (seen, m)).1) (normalize_impl mint t d (seen, m)).2.
Proof.
  revert d seen m. induction t as [id|id axis children IH]; intros d seen m HU Hsup.
  { cbn [normalize_impl]. pose proof (first_leaf_accepted U (Leaf id) seen m HU Hsup) as H. cbn in H.
    by destruct (accept_leaf mint id (seen, m)). }
  rewrite normalize_split. destruct (MAX_DEPTH <=? S d)%nat; [by apply first_leaf_accepted|].
  cbn [fst snd]. rewrite collapse_leaves by done. cbn [leaves] in HU. revert seen m Hsup.
  induction IH as [|c l Hc _ IHl]; intros seen m Hsup; cbn [normalize_children].
  { repeat split; cbn; [set_solver|constructor|set_solver|apply Hsup|apply Hsup]. }
  cbn in HU. pose proof (Hc (S d) seen m ltac:(set_solver) Hsup) as H1.
  destruct (normalize_impl mint (node c) (S d) (seen, m)) as [r [seen1 m1]]. cbn [fst snd] in *.
  pose proof (IHl ltac:(set_solver) seen1 m1 (proj2 (proj2 (proj2 H1)))) as H2.
  destruct (normalize_children axis (S d) l (seen1, m1)) as [rest st2]. cbn [fst snd] in *.
  rewrite leaves_of_app, contribution_leaves. by eapply accepted_app.
Qed.
End Normalize.

(** ** The claims *)

(** C37: What an operation does to the panes of a tree and what it keeps.  Splitting a pane puts the new one
    beside it and answers nothing for a pane that is not there; docking puts it first or last; closing drops
    exactly the pane, and answers nothing exactly when no other pane is left; a swap exchanges two panes;
    and each keeps the shape of the tree: at least two children to a split, no split along its parent's
    axis.  A split and a dock add at most one level, a close adds none. *)
Theorem tree_operations_are_exact t a b axis before fresh :
  shape_ok t = true -> NoDup (leaves t) ->
  match splitting t b axis a before fresh with
  | Some t' => b ∈ leaves t /\ leaves t' = beside a b before (leaves t) /\ shape_ok t' = true /\ (depth t' <= S (depth t))%nat
  | None => b ∉ leaves t
  end /\
  (let t' := inserting_at_root t a axis before fresh in
   leaves t' = (if before then a :: leaves t else leaves t ++ [a]) /\ shape_ok t' = true) /\
  match removing a t with
  | Some t' => leaves t' = filter (.≠ a) (leaves t) /\ leaves t' <> [] /\ shape_ok t' = true /\ (depth t' <= depth t)%nat
  | None => leaves t = [a]
  end /\
  (a ∈ leaves t -> b ∈ leaves t -> leaves (swapping a b t) = map (exchange a b) (leaves t)) /\
  shape_ok (swapping a b t) = true.
Proof.
  intros Hs Hnd. split; [|split; [|split; [|split]]].
  - unfold splitting. destruct (contains b t) eqn:E; [|by apply contains_false]. apply contains_leaves in E.
    split; [done|]. by rewrite insert_leaves, beside_shape by done; auto using insert_depth.
  - split; [apply root_leaves|by apply root_shape].
  - destruct (removing a t) as [t'|] eqn:E.
    + pose proof (removing_shape a t t' Hs E) as Hs'. split; [by apply removing_some|]. split; [by apply (leaves_nonempty (k := true))|].
      split; [done|by eapply removing_depth].
    + apply (removing_none (k := true) a t) in E; [|done]. destruct (leaves t) as [|x [|y l]] eqn:El; [by destruct (leaves_nonempty (k := true) t)| |].
      * by apply Forall_cons in E as [<- _].
      * apply Forall_cons in E as [<- [<- _]%Forall_cons]. apply NoDup_cons in Hnd as [Hn _]. set_solver.
  - apply swapping_leaves.
  - destruct (swapping_keeps (k := true) a b t) as (_ & -> & _). done.
Qed.

(** C38: The repair of an untrusted tree.  Whatever the file held and whatever the source of identities
    answers, what is kept has the shape, the depth and the weights the program relies on; with fresh
    identities every pane appears once; and a tree that is sound already is kept as it is without a single
    identity being minted. *)
Theorem normalized_repairs {M} (mint : M -> RawUuid * M) t m :
  (forall r, (normalized mint t m).1 = Some r -> sound MAX_DEPTH r) /\
  (supply mint m (list_to_set (leaves t)) -> NoDup (from_option leaves [] (normalized mint t m).1)) /\
  (sound MAX_DEPTH t -> NoDup (leaves t) -> normalized mint t m = (Some t, m)).
Proof.
  unfold normalized. split; [|split].
  - destruct (normalize_impl mint t 0 (∅, m)) as [o [seen m']] eqn:E. cbn. intros r ->.
    replace MAX_DEPTH with (MAX_DEPTH - 0)%nat by lia. eapply normalize_sound, E. unfold MAX_DEPTH. lia.
  - intros Hsup. destruct (normalize_accepted mint (list_to_set (leaves t)) t 0 ∅ m) as (_ & Hnd & _); [done| |].
    { by rewrite (right_id_L ∅ (∪)). }
    by destruct (normalize_impl mint t 0 (∅, m)) as [o [seen m']].
  - intros Hs Hnd. rewrite normalize_id; [done|by replace (MAX_DEPTH - 0)%nat with MAX_DEPTH by lia|done|set_solver].
Qed.

Module Examples.
Definition uid (n : Z) : RawUuid := replicate 15 (byte_of_Z 0) ++ [byte_of_Z n].
Definition row (l : list Child) : SplitNode := Split (uid 100) Horizontal l.
Definition at_weight (w : f64) (n : Z) : Child := mkChild (Flex w) (Leaf (uid n)).

(** One pane a level, the axes alternating. *)
Fixpoint stairs (n : nat) : SplitNode :=
  match n with
  | O => Leaf (uid 0)
  | S k => Split (uid 100) (if Nat.even n then Horizontal else Vertical)
             [mkChild (Flex one) (stairs k); leaf_child (uid (Z.of_nat n))]
  end.
Definition floor_row : list Child := map (at_weight MIN_WEIGHT) [1; 2; 3; 4; 5; 6].

(** A source of identities that counts. *)
Definition counter (n : Z) : RawUuid * Z := (byte_of_Z 1 :: replicate 7 (byte_of_Z 0) ++ to_be_bytes 8 n, n + 1).

Definition shares (l : list Child) : list (option f64) := map (fun c => flex (weight c)) l.
Definition pair (a b : f64) : list Child := [at_weight a 1; at_weight b 2].
End Examples.
Import Examples.

Lemma tree_operations_are_exact_witness :
  match splitting (stairs 3) (uid 0) Vertical (uid 9) true (uid 99) with
  | Some t' => leaves t' = [uid 9; uid 0; uid 1; uid 2; uid 3] /\ shape_ok t' = true
  | None => False
  end.
Proof.
  assert (H : shape_ok (stairs 3) = true) by (vm_compute; reflexivity).
  assert (N : NoDup (leaves (stairs 3))) by (refine (bool_decide_unpack _ _); vm_compute; exact I).
  destruct (tree_operations_are_exact (stairs 3) (uid 9) (uid 0) Vertical true (uid 99) H N) as [E _].
  destruct (splitting (stairs 3) (uid 0) Vertical (uid 9) true (uid 99)) as [t'|].
  - destruct E as (_ & -> & Hs & _). split; [vm_compute; reflexivity|exact Hs].
  - apply E. refine (bool_decide_unpack _ _); vm_compute; exact I.
Defined.

Lemma normalized_repairs_witness : exists r, (normalized counter (stairs 20) 0).1 = Some r /\ sound MAX_DEPTH r.
Proof.
  destruct (normalized_repairs counter (stairs 20) 0) as [H _].
  destruct (normalized counter (stairs 20) 0).1 as [r|] eqn:E; [|vm_compute in E; discriminate].
  exists r. split; [reflexivity|]. apply H. reflexivity.
Defined.

(** What the arithmetic does not keep.  Splitting the deepest pane of a tree at the depth cap goes past
    the cap; a pane inserted among six at the floor weighs less than the floor, and a divider pushed to its
    end can leave its trailing pane below the floor; and the two shares of a dragged pair need not add up
    to what they were. *)
Theorem bounds_the_arithmetic_misses :
  (sound MAX_DEPTH (stairs 11) /\ NoDup (leaves (stairs 11)) /\
   option_map depth (splitting (stairs 11) (uid 0) Horizontal (uid 50) false (uid 99)) = Some 13%nat) /\
  (forallb (fun c => weight_ok (weight c)) floor_row = true /\ f64_lt (insert_weight floor_row) MIN_WEIGHT = true) /\
  (exists lead trail, shares (adjust_pair (pair 0x3fb999999999999a 0x3fb999999999999a) 0 (fun _ _ => one)) = [Some lead; Some trail] /\
     f64_lt trail MIN_WEIGHT = true) /\
  (exists lead trail, shares (adjust_pair (pair 0x4007ae147ae147ae 0x4010f5c28f5c28f6) 0 (fun _ _ => 0x4006e147ae147ae1)) = [Some lead; Some trail] /\
     f64_eq (f64_add lead trail) (f64_add 0x4007ae147ae147ae 0x4010f5c28f5c28f6) = false).
Proof.
  split; [|split; [|split]].
  - split; [|split]; [|refine (bool_decide_unpack _ _); vm_compute; exact I|vm_compute; reflexivity].
    split; [vm_compute; reflexivity|]. split; [|vm_compute; reflexivity].
    apply Nat.leb_le. vm_compute. reflexivity.
  - split; vm_compute; reflexivity.
  - eexists _, _. split; [vm_compute; reflexivity|vm_compute; reflexivity].
  - eexists _, _. split; [vm_compute; reflexivity|vm_compute; reflexivity].
Qed.
