(* ===== verification/Layout.v ===== *)
(** * Layout: where each pane is, its seams, and focus by what is on screen

    Models [slopdesk-tree/src/geometry.rs], [split_layout.rs] and [focus.rs]: the rectangles a tree is
    solved into, the seams between siblings with the arithmetic of a drag, and the neighbour of a pane in a
    direction.  The coordinates are [f64] patterns ([Float]).  [sort_by] is a stable merge sort; its answer
    is the code's wherever the comparison is consistent, which [reading_order] is not always. *)

From stdpp Require Import gmap sorting.
From S2P Require Import Prelude BTree Message Document Cells Float Tree.

(** ** The plane *)

Record Point : Type := mkPoint { x : f64; y : f64 }.
Record Size : Type := mkSize { width : f64; height : f64 }.
Record Rect : Type := mkRect { origin : Point; size : Size }.

Definition point_zero : Point := mkPoint zero zero.
Definition size_zero : Size := mkSize zero zero.
Definition xywh (x y width height : f64) : Rect := mkRect (mkPoint x y) (mkSize width height).
Definition min_x (r : Rect) : f64 := x (origin r).
Definition min_y (r : Rect) : f64 := y (origin r).
Definition max_x (r : Rect) : f64 := f64_add (x (origin r)) (width (size r)).
Definition max_y (r : Rect) : f64 := f64_add (y (origin r)) (height (size r)).
Definition mid_x (r : Rect) : f64 := f64_add (x (origin r)) (f64_div (width (size r)) two).
Definition mid_y (r : Rect) : f64 := f64_add (y (origin r)) (f64_div (height (size r)) two).

(** 160 by 120 points. *)
Definition MIN_ITEM_SIZE : Size := mkSize 0x4064000000000000 0x405e000000000000.
Definition DEFAULT_MIN_LEAF : Size := MIN_ITEM_SIZE.

(** ** The partition *)

Definition axis_length (r : Rect) (axis : SplitAxis) : f64 :=
  match axis with Horizontal => width (size r) | Vertical => height (size r) end.
Definition axis_origin (r : Rect) (axis : SplitAxis) : f64 :=
  match axis with Horizontal => min_x r | Vertical => min_y r end.
Definition sub_rect (r : Rect) (axis : SplitAxis) (origin extent : f64) : Rect :=
  match axis with
  | Horizontal => xywh origin (min_y r) extent (height (size r))
  | Vertical => xywh (min_x r) origin (width (size r)) extent
  end.
Definition trailing_edge (r : Rect) (axis : SplitAxis) : f64 :=
  match axis with Horizontal => max_x r | Vertical => max_y r end.
Definition finite_or (v d : f64) : f64 := if is_finite v then v else d.
Definition clamp_leaf (r : Rect) (min_leaf : Size) : Rect :=
  xywh (finite_or (min_x r) zero) (finite_or (min_y r) zero)
    (if is_finite (width (size r)) then f64_max (width (size r)) (width min_leaf) else width min_leaf)
    (if is_finite (height (size r)) then f64_max (height (size r)) (height min_leaf) else height min_leaf).

(** The first pass: what the fixed bands take, the flex sum and count, and each band's extent. *)
Record Reserve : Type := mkReserve { fixed_total : f64; flex_sum_ : f64; flex_count : Z; reserved : list (option f64) }.
Definition reserve (total : f64) (r : Reserve) (c : Child) : Reserve :=
  match weight c with
  | Fixed points =>
    let remaining := f64_max (f64_sub total (fixed_total r)) zero in
    let extent := f64_min (f64_max points zero) remaining in
    mkReserve (f64_add (fixed_total r) extent) (flex_sum_ r) (flex_count r) (reserved r ++ [Some extent])
  | Flex w =>
    mkReserve (fixed_total r) (f64_add (flex_sum_ r) (f64_max w zero)) (flex_count r + 1) (reserved r ++ [None])
  end.

Definition extents (children : list Child) (total : f64) : list f64 :=
  let r := foldl (reserve total) (mkReserve zero zero 0 []) children in
  let flex_budget := f64_max (f64_sub total (fixed_total r)) zero in
  zip_with (fun c band =>
    match weight c with
    | Fixed _ => default zero band
    | Flex w =>
      if f64_lt zero (flex_sum_ r) then f64_div (f64_mul flex_budget (f64_max w zero)) (flex_sum_ r)
      else if 0 <? flex_count r then f64_div flex_budget (f64_from_u32 (flex_count r))
      else zero
    end) children (reserved r).

(** ** The solver *)

Abbreviation SolvedLayout := (gmap RawUuid Rect).

Fixpoint place (t : SplitNode) (rect : Rect) (min_leaf : Size) (into : SolvedLayout) : SolvedLayout :=
  match t with
  | Leaf id => <[id := clamp_leaf rect min_leaf]> into
  | Split _ axis children =>
    (fix go (cs : list Child) (lengths : list f64) (cursor : f64) (into : SolvedLayout) {struct cs} : SolvedLayout :=
       match cs, lengths with
       | c :: cs, extent :: lengths =>
         go cs lengths (f64_add cursor extent) (place (node c) (sub_rect rect axis cursor extent) min_leaf into)
       | _, _ => into
       end) children (extents children (axis_length rect axis)) (axis_origin rect axis) into
  end.
Definition solve (root : SplitNode) (rect : Rect) (min_leaf : Size) : SolvedLayout := place root rect min_leaf ∅.

(** ** The seams *)

Definition DIVIDER_THICKNESS : f64 := 0x4030000000000000.
Definition PIXEL_SLACK : f64 := 0x3fe0000000000000.
Definition WEIGHT_SLACK : f64 := 0x3f40624dd2f1a9fc.

Record Divider : Type := mkDivider {
  d_split : RawUuid;
  d_child_index : nat;
  d_axis : SplitAxis;
  d_rect : Rect;
  parent_span : f64;
  flex_sum : f64;
  leading_weight : f64;
  trailing_weight : f64;
}.

Definition axis_min_extent (d : Divider) : f64 :=
  match d_axis d with Horizontal => width DEFAULT_MIN_LEAF | Vertical => height DEFAULT_MIN_LEAF end.
Definition extent_of (d : Divider) (w : f64) : f64 :=
  if f64_lt zero (parent_span d) && f64_lt zero (flex_sum d) then f64_mul (f64_div w (flex_sum d)) (parent_span d) else zero.
Definition can_shrink (d : Divider) (w : f64) : bool :=
  if f64_le (leading_weight d) zero || f64_le (trailing_weight d) zero then false
  else if f64_lt zero (parent_span d) then f64_lt (f64_add (axis_min_extent d) PIXEL_SLACK) (extent_of d w)
  else f64_lt (f64_add MIN_WEIGHT WEIGHT_SLACK) w.
Definition can_move_toward_leading (d : Divider) : bool := can_shrink d (leading_weight d).
Definition can_move_toward_trailing (d : Divider) : bool := can_shrink d (trailing_weight d).

Definition weight_delta (d : Divider) (pixel_increment : f64) : f64 :=
  if negb (is_finite (parent_span d)) || f64_le (parent_span d) zero || negb (is_finite (flex_sum d))
     || f64_le (flex_sum d) zero || negb (is_finite pixel_increment)
  then zero
  else f64_mul (f64_div pixel_increment (parent_span d)) (flex_sum d).

Definition clamped_leading_weight (d : Divider) (proposed : f64) : f64 :=
  if f64_le (parent_span d) zero || f64_le (flex_sum d) zero then proposed
  else
    let pair_sum := f64_add (leading_weight d) (trailing_weight d) in
    let floor_weight := f64_max (f64_mul (f64_div (axis_min_extent d) (parent_span d)) (flex_sum d)) MIN_WEIGHT in
    let lower := f64_min floor_weight (leading_weight d) in
    let upper := f64_max (f64_sub pair_sum floor_weight) (leading_weight d) in
    f64_min (f64_max proposed lower) upper.

Definition handle_rect (seam : f64) (axis : SplitAxis) (parent : Rect) (thickness : f64) : Rect :=
  let half := f64_div thickness two in
  match axis with
  | Horizontal => xywh (f64_sub seam half) (min_y parent) thickness (height (size parent))
  | Vertical => xywh (min_x parent) (f64_sub seam half) (width (size parent)) thickness
  end.

Definition divider_flex_sum (children : list Child) : f64 :=
  let '(sum, count) :=
    foldl (fun '(sum, count) (c : Child) =>
             match flex (weight c) with
             | Some w => (f64_add sum (f64_max w zero), count + 1)
             | None => (sum, count)
             end) (zero, 0) children in
  if f64_lt zero sum then sum else if 0 <? count then f64_from_u32 count else one.

Fixpoint child_rects (rect : Rect) (axis : SplitAxis) (cursor : f64) (lengths : list f64) : list Rect :=
  match lengths with
  | [] => []
  | extent :: lengths => sub_rect rect axis cursor extent :: child_rects rect axis (f64_add cursor extent) lengths
  end.

(** The seams of one split, from adjacent pairs of children and of their rectangles. *)
Fixpoint seams (id : RawUuid) (axis : SplitAxis) (rect : Rect) (thickness parent_span flex_sum : f64) (index : nat)
    (children : list Child) (rects : list Rect) : list Divider :=
  match children, rects with
  | leading :: (trailing :: _) as children, leading_rect :: (_ :: _) as rects =>
    mkDivider id index axis (handle_rect (trailing_edge leading_rect axis) axis rect thickness) parent_span flex_sum
      (default zero (flex (weight leading))) (default zero (flex (weight trailing)))
    :: seams id axis rect thickness parent_span flex_sum (S index) children rects
  | _, _ => []
  end.

Fixpoint collect_dividers (t : SplitNode) (rect : Rect) (thickness : f64) (into : list Divider) : list Divider :=
  match t with
  | Leaf _ => into
  | Split id axis children =>
    let parent_span := axis_length rect axis in
    let rects := child_rects rect axis (axis_origin rect axis) (extents children parent_span) in
    let into := into ++ seams id axis rect thickness parent_span (divider_flex_sum children) 0 children rects in
    (fix go (cs : list Child) (rects : list Rect) (into : list Divider) {struct cs} : list Divider :=
       match cs, rects with
       | c :: cs, r :: rects => go cs rects (collect_dividers (node c) r thickness into)
       | _, _ => into
       end) children rects into
  end.
Definition dividers (root : SplitNode) (rect : Rect) (thickness : f64) : list Divider :=
  collect_dividers root rect thickness [].

(** ** Focus by direction *)

Definition EPSILON : f64 := 0x3fe0000000000000.

Inductive FocusDirection : Type := GoLeft | GoRight | GoUp | GoDown | GoNext | GoPrevious.
Definition ALL_DIRECTIONS : list FocusDirection := [GoLeft; GoRight; GoUp; GoDown; GoNext; GoPrevious].
Definition direction_index (d : FocusDirection) : Z :=
  match d with GoLeft => 0 | GoRight => 1 | GoUp => 2 | GoDown => 3 | GoNext => 4 | GoPrevious => 5 end.
Definition direction_from_index (index : Z) : option FocusDirection := ALL_DIRECTIONS !! Z.to_nat index.
Definition is_directional (d : FocusDirection) : bool := match d with GoLeft | GoRight | GoUp | GoDown => true | _ => false end.

Definition is_on_requested_side (candidate source : Rect) (d : FocusDirection) : bool :=
  match d with
  | GoLeft => f64_lt (mid_x candidate) (f64_add (min_x source) EPSILON)
  | GoRight => f64_lt (f64_sub (max_x source) EPSILON) (mid_x candidate)
  | GoUp => f64_lt (mid_y candidate) (f64_add (min_y source) EPSILON)
  | GoDown => f64_lt (f64_sub (max_y source) EPSILON) (mid_y candidate)
  | GoNext | GoPrevious => false
  end.
Definition cross_axis_overlap (candidate source : Rect) (d : FocusDirection) : f64 :=
  match d with
  | GoLeft | GoRight =>
    f64_max (f64_sub (f64_min (max_y candidate) (max_y source)) (f64_max (min_y candidate) (min_y source))) zero
  | GoUp | GoDown =>
    f64_max (f64_sub (f64_min (max_x candidate) (max_x source)) (f64_max (min_x candidate) (min_x source))) zero
  | GoNext | GoPrevious => zero
  end.
Definition axial_distance (candidate source : Rect) (d : FocusDirection) : f64 :=
  match d with
  | GoLeft => f64_max (f64_sub (min_x source) (max_x candidate)) zero
  | GoRight => f64_max (f64_sub (min_x candidate) (max_x source)) zero
  | GoUp => f64_max (f64_sub (min_y source) (max_y candidate)) zero
  | GoDown => f64_max (f64_sub (min_y candidate) (max_y source)) zero
  | GoNext | GoPrevious => infinity
  end.

(** The order of [PaneId]: lexicographic in the sixteen bytes. *)
Definition pane_le (a b : RawUuid) : Prop := bytes_compare a b <> Gt.
#[export] Instance pane_le_dec : RelDecision pane_le := fun a b => decide (bytes_compare a b <> Gt).

(** One candidate against the best so far: its pane, overlap and distance. *)
Definition consider (pane : RawUuid) (source : Rect) (d : FocusDirection)
    (best : option (RawUuid * f64 * f64)) (candidate : RawUuid * Rect) : option (RawUuid * f64 * f64) :=
  let '(id, rect) := candidate in
  if bool_decide (id = pane) || negb (is_on_requested_side rect source d) then best
  else
    let overlap := cross_axis_overlap rect source d in
    if f64_le overlap zero then best
    else
      let distance := axial_distance rect source d in
      let better :=
        match best with
        | None => true
        | Some (_, best_overlap, best_distance) =>
          f64_lt (f64_add best_overlap EPSILON) overlap ||
          f64_le (f64_abs (f64_sub overlap best_overlap)) EPSILON && f64_lt distance best_distance
        end in
      if better then Some (id, overlap, distance) else best.
Definition directional_neighbor (pane : RawUuid) (source : Rect) (d : FocusDirection) (solved : SolvedLayout) : option RawUuid :=
  (fun b => b.1.1) <$> foldl (consider pane source d) None (btree_by pane_le solved).

Definition cycle (panes : list RawUuid) (from : RawUuid) (forward : bool) : option RawUuid :=
  '(index, _) ← list_find (eq from) panes;
  let count := length panes in
  panes !! (if forward then S index mod count else (index + count - 1) mod count)%nat.

(** Top to bottom, then left to right, then by pane. *)
Definition reading_order (a b : RawUuid * Rect) : comparison :=
  if f64_lt EPSILON (f64_abs (f64_sub (min_y a.2) (min_y b.2))) then total_cmp (min_y a.2) (min_y b.2)
  else if f64_lt EPSILON (f64_abs (f64_sub (min_x a.2) (min_x b.2))) then total_cmp (min_x a.2) (min_x b.2)
  else bytes_compare a.1 b.1.
Definition reading_le (a b : RawUuid * Rect) : Prop := reading_order a b <> Gt.
#[export] Instance reading_le_dec : RelDecision reading_le := fun a b => decide (reading_order a b <> Gt).

Definition neighbor (pane : RawUuid) (d : FocusDirection) (solved : SolvedLayout) : option RawUuid :=
  source ← solved !! pane;
  if is_directional d then directional_neighbor pane source d solved
  else cycle (merge_sort reading_le (btree_by pane_le solved)).*1 pane (match d with GoNext => true | _ => false end).
