(* ===== verification/LayoutLaws.v ===== *)
(** * LayoutLaws: a solved layout holds the tree's panes, its seams are its adjacent siblings, and focus
    moves to a pane that is there *)

From stdpp Require Import gmap sorting.
From S2P Require Import Prelude BTree Message Document Cells Float Tree TreeLaws Layout.

(** ** The partition *)

Lemma reserve_length total l : forall r,
  length (reserved (foldl (reserve total) r l)) = (length (reserved r) + length l)%nat.
Proof.
  induction l as [|c l IH]; intros r; cbn; [lia|]. rewrite IH. unfold reserve. destruct (weight c); cbn; rewrite length_app; cbn; lia.
Qed.
Lemma extents_length children total : length (extents children total) = length children.
Proof. unfold extents. rewrite length_zip_with, reserve_length. cbn. lia. Qed.

Lemma child_rects_length rect axis lengths : forall cursor, length (child_rects rect axis cursor lengths) = length lengths.
Proof. induction lengths as [|e l IH]; intros cursor; cbn; [done|]. by rewrite IH. Qed.

(** ** Frames *)

Definition frame_ok (min_leaf : Size) (r : Rect) : Prop :=
  is_finite (x (origin r)) = true /\ is_finite (y (origin r)) = true /\
  is_finite (width (size r)) = true /\ f64_le (width min_leaf) (width (size r)) = true /\
  is_finite (height (size r)) = true /\ f64_le (height min_leaf) (height (size r)) = true.

Lemma is_finite_not_nan v : is_finite v = true -> is_nan v = false.
Proof. unfold is_finite, is_nan. by destruct (of_bits v). Qed.
Lemma finite_or_finite v d : is_finite d = true -> is_finite (finite_or v d) = true.
Proof. unfold finite_or. by destruct (is_finite v) eqn:E. Qed.
Lemma clamp_side v m : is_finite m = true ->
  is_finite (if is_finite v then f64_max v m else m) = true /\ f64_le m (if is_finite v then f64_max v m else m) = true.
Proof.
  intros Hm. pose proof (is_finite_not_nan m Hm) as Hn. destruct (is_finite v) eqn:E; [|by split; [|apply f64_le_refl]].
  split; [|by apply f64_max_floor]. unfold f64_max. by repeat case_match.
Qed.
Lemma clamp_leaf_ok rect min_leaf :
  is_finite (width min_leaf) = true -> is_finite (height min_leaf) = true -> frame_ok min_leaf (clamp_leaf rect min_leaf).
Proof.
  intros Hw Hh. unfold frame_ok, clamp_leaf. cbn. destruct (clamp_side (width (size rect)) _ Hw), (clamp_side (height (size rect)) _ Hh).
  by rewrite !finite_or_finite.
Qed.

(** The loop of [place] over a split's children. *)
Fixpoint place_children (axis : SplitAxis) (rect : Rect) (min_leaf : Size) (cs : list Child) (lengths : list f64)
    (cursor : f64) (into : SolvedLayout) : SolvedLayout :=
  match cs, lengths with
  | c :: cs, extent :: lengths =>
    place_children axis rect min_leaf cs lengths (f64_add cursor extent)
      (place (node c) (sub_rect rect axis cursor extent) min_leaf into)
  | _, _ => into
  end.
Lemma place_split id axis children rect min_leaf into :
  place (Split id axis children) rect min_leaf into =
  place_children axis rect min_leaf children (extents children (axis_length rect axis)) (axis_origin rect axis) into.
Proof.
  cbn [place]. generalize (extents children (axis_length rect axis)), (axis_origin rect axis). revert into.
  induction children as [|c l IH]; intros into [|e lengths] cursor; done.
Qed.

Lemma place_spec t rect min_leaf into :
  dom (place t rect min_leaf into) = list_to_set (leaves t) ∪ dom into /\
  (is_finite (width min_leaf) = true -> is_finite (height min_leaf) = true ->
   map_Forall (fun _ => frame_ok min_leaf) into -> map_Forall (fun _ => frame_ok min_leaf) (place t rect min_leaf into)).
Proof.
  revert rect into. induction t as [id|id axis children IH]; intros rect into.
  - cbn. split; [rewrite dom_insert_L; set_solver|]. intros. apply map_Forall_insert_2; [by apply clamp_leaf_ok|done].
  - rewrite place_split. pose proof (extents_length children (axis_length rect axis)) as Hlen.
    revert Hlen. generalize (extents children (axis_length rect axis)), (axis_origin rect axis). cbn [leaves]. revert into.
    induction IH as [|c l Hc _ IHl]; intros into lengths cursor Hlen; cbn; [split; [set_solver|done]|].
    destruct lengths as [|e lengths]; [done|]. cbn in Hlen.
    destruct (IHl (place (node c) (sub_rect rect axis cursor e) min_leaf into) lengths (f64_add cursor e) ltac:(lia)) as [-> H2].
    destruct (Hc (sub_rect rect axis cursor e) into) as [-> H1]. split; [|auto]. rewrite list_to_set_app_L. set_solver.
Qed.

(** C40: A solved layout has a frame for exactly the panes of the tree; with a finite floor every frame is
    finite and at least the floor on each side, whatever the weights and the bound are. *)
Theorem solve_frames_every_pane root rect min_leaf :
  is_finite (width min_leaf) = true -> is_finite (height min_leaf) = true ->
  dom (solve root rect min_leaf) = list_to_set (all_pane_ids root) /\
  forall id r, solve root rect min_leaf !! id = Some r -> frame_ok min_leaf r.
Proof.
  intros Hw Hh. unfold solve. destruct (place_spec root rect min_leaf ∅) as [Hd Hf]. rewrite Hd, all_pane_ids_leaves.
  split; [set_solver|]. intros id r. by apply (Hf Hw Hh).
Qed.
Lemma solve_frames_every_pane_witness :
  exists r, solve (Examples.stairs 3) (xywh zero zero nan infinity) MIN_ITEM_SIZE !! Examples.uid 0 = Some r /\ frame_ok MIN_ITEM_SIZE r.
Proof.
  destruct (solve_frames_every_pane (Examples.stairs 3) (xywh zero zero nan infinity) MIN_ITEM_SIZE eq_refl eq_refl) as [_ H].
  destruct (solve (Examples.stairs 3) (xywh zero zero nan infinity) MIN_ITEM_SIZE !! Examples.uid 0) as [r|] eqn:E.
  - exists r. split; [reflexivity|]. exact (H _ _ E).
  - exfalso. revert E. vm_compute. discriminate.
Defined.

(** ** Seams *)

(** Every adjacent pair of siblings, the split's own before its children's. *)
Fixpoint adjacent (t : SplitNode) : list (RawUuid * nat) :=
  match t with
  | Leaf _ => []
  | Split id _ children =>
    map (fun i => (id, i)) (seq 0 (pred (length children))) ++ concat (map (fun c => adjacent (node c)) children)
  end.
Definition seam_key (d : Divider) : RawUuid * nat := (d_split d, d_child_index d).

Lemma seams_keys id axis rect thickness span sum children : forall index rects,
  length rects = length children ->
  map seam_key (seams id axis rect thickness span sum index children rects) =
  map (fun i => (id, i)) (seq index (pred (length children))).
Proof.
  induction children as [|c children IH]; intros index rects Hlen; [done|].
  destruct rects as [|r rects]; [done|]. destruct children as [|d children]; [by destruct rects|].
  destruct rects as [|r' rects]; [done|].
  change (seam_key (mkDivider id index axis (handle_rect (trailing_edge r axis) axis rect thickness) span sum
      (default zero (flex (weight c))) (default zero (flex (weight d)))) ::
    map seam_key (seams id axis rect thickness span sum (S index) (d :: children) (r' :: rects)) =
    (id, index) :: map (fun i => (id, i)) (seq (S index) (length children))).
  rewrite IH by (cbn in *; lia). done.
Qed.

Lemma collect_dividers_keys t rect thickness into :
  map seam_key (collect_dividers t rect thickness into) = map seam_key into ++ adjacent t.
Proof.
  revert rect into. induction t as [id|id axis children IH]; intros rect into; [by rewrite app_nil_r|].
  cbn [collect_dividers adjacent]. set (rects := child_rects rect axis _ _).
  assert (Hlen : length rects = length children) by (by unfold rects; rewrite child_rects_length, extents_length).
  set (into' := into ++ _). rewrite (app_assoc (map seam_key into)).
  assert (E : map seam_key into' = map seam_key into ++ map (fun i => (id, i)) (seq 0 (pred (length children)))).
  { unfold into'. by rewrite map_app, seams_keys. }
  rewrite <- E. clear E. clearbody into' rects. revert into' rects Hlen.
  induction IH as [|c l Hc _ IHl]; intros into' rects Hlen; [by rewrite app_nil_r|].
  destruct rects as [|r rects]; [done|]. cbn. rewrite IHl by (cbn in Hlen; lia). by rewrite Hc, app_assoc.
Qed.

(** ** Focus *)

Lemma consider_from pane source d l : forall best id o dist,
  foldl (consider pane source d) best l = Some (id, o, dist) ->
  best = Some (id, o, dist) \/
  exists r, (id, r) ∈ l /\ id <> pane /\ is_on_requested_side r source d = true /\ f64_le (cross_axis_overlap r source d) zero = false.
Proof.
  induction l as [|[id' r'] l IH]; intros best id o dist; cbn; [by left|]. intros H. apply IH in H as [H|(r & Hr & H)].
  - revert H. destruct (bool_decide (id' = pane) || negb (is_on_requested_side r' source d)) eqn:E; [by left|].
    apply orb_false_iff in E as [E1%bool_decide_eq_false E2%negb_false_iff].
    destruct (f64_le (cross_axis_overlap r' source d) zero) eqn:E3; [by left|].
    destruct (match best with None => true | _ => _ end); [|by left]. intros [= <- <- <-]. right. exists r'.
    split; [left|]. done.
  - right. exists r. split; [by right|done].
Qed.

(** A directional move lands on another pane of the layout, on the side asked for and overlapping the
    source across the movement. *)
Lemma directional_neighbor_is_there pane source d solved id :
  directional_neighbor pane source d solved = Some id ->
  id <> pane /\ exists r, solved !! id = Some r /\ is_on_requested_side r source d = true /\
    f64_le (cross_axis_overlap r source d) zero = false.
Proof.
  unfold directional_neighbor. destruct (foldl _ None _) as [[[id' o] dist]|] eqn:E; [|done]. intros [= <-].
  apply consider_from in E as [E|(r & Hr & Hne & Hside & Hov)]; [done|]. split; [done|]. exists r. split; [|done].
  by apply (elem_of_btree_by pane_le).
Qed.

Lemma cycle_spec panes from forward i :
  NoDup panes -> panes !! i = Some from ->
  cycle panes from forward =
  panes !! (if forward then S i mod length panes else (i + length panes - 1) mod length panes)%nat.
Proof.
  intros Hnd Hi. unfold cycle.
  assert (E : list_find (eq from) panes = Some (i, from)); [|by rewrite E].
  apply list_find_Some. split; [done|]. split; [done|]. intros j y Hj Hlt <-.
  apply (NoDup_lookup _ _ _ _ Hnd Hj) in Hi. lia.
Qed.

(** Moving focus stays in the layout and can be undone by cycling: a directional move goes to another
    pane of the layout that lies on the side asked for; cycling a list without repetition answers one of
    its panes, and one step forward and one back, in either order, come back. *)
Theorem focus_moves_within_the_layout panes pane other solved :
  (forall d, is_directional d = true -> neighbor pane d solved = Some other ->
     other <> pane /\ exists source r, solved !! pane = Some source /\ solved !! other = Some r /\
       is_on_requested_side r source d = true) /\
  (NoDup panes -> pane ∈ panes ->
   exists next previous, cycle panes pane true = Some next /\ cycle panes pane false = Some previous /\
     next ∈ panes /\ previous ∈ panes /\
     cycle panes next false = Some pane /\ cycle panes previous true = Some pane).
Proof.
  split.
  - intros d Hd. unfold neighbor. destruct (solved !! pane) as [source|] eqn:E; [|done]. cbn. rewrite Hd. intros H.
    apply directional_neighbor_is_there in H as (Hne & r & Hr & Hside & _). eauto 6.
  - intros Hnd [i Hi]%list_elem_of_lookup. pose proof (lookup_lt_Some _ _ _ Hi) as Hlt. set (n := length panes) in *.
    assert (Hnext : (S i mod n < n)%nat) by (apply Nat.mod_upper_bound; lia).
    assert (Hprev : ((i + n - 1) mod n < n)%nat) by (apply Nat.mod_upper_bound; lia).
    destruct (lookup_lt_is_Some_2 panes _ Hnext) as [next En], (lookup_lt_is_Some_2 panes _ Hprev) as [previous Ep].
    exists next, previous. rewrite !(cycle_spec panes pane _ i), (cycle_spec panes next _ _ Hnd En), (cycle_spec panes previous _ _ Hnd Ep) by done.
    fold n. split; [done|]. split; [done|]. split; [by eapply list_elem_of_lookup_2|]. split; [by eapply list_elem_of_lookup_2|].
    assert (Hs : (S i mod n = if decide (S i = n) then 0 else S i)%nat)
      by (destruct (decide (S i = n)) as [->|]; [apply Nat.Div0.mod_same|apply Nat.mod_small; lia]).
    assert (Hp : ((i + n - 1) mod n = if decide (i = 0) then n - 1 else i - 1)%nat).
    { destruct (decide (i = 0%nat)) as [->|]; [apply Nat.mod_small; lia|].
      replace (i + n - 1)%nat with (i - 1 + 1 * n)%nat by lia. rewrite Nat.Div0.mod_add. apply Nat.mod_small. lia. }
    rewrite Hs, Hp. split.
    + destruct (decide (S i = n)); [rewrite Nat.mod_small by lia; by replace (0 + n - 1)%nat with i by lia|].
      replace (S i + n - 1)%nat with (i + 1 * n)%nat by lia. by rewrite Nat.Div0.mod_add, Nat.mod_small by lia.
    + destruct (decide (i = 0%nat)) as [->|]; [replace (S (n - 1)) with n by lia; by rewrite Nat.Div0.mod_same|].
      replace (S (i - 1)) with i by lia. by rewrite Nat.mod_small by lia.
Qed.

Lemma focus_moves_within_the_layout_witness :
  exists next previous, cycle [Examples.uid 1; Examples.uid 2; Examples.uid 3] (Examples.uid 1) true = Some next /\
    cycle [Examples.uid 1; Examples.uid 2; Examples.uid 3] (Examples.uid 1) false = Some previous /\ next <> previous.
Proof.
  assert (N : NoDup [Examples.uid 1; Examples.uid 2; Examples.uid 3]) by (refine (bool_decide_unpack _ _); vm_compute; exact I).
  destruct (focus_moves_within_the_layout [Examples.uid 1; Examples.uid 2; Examples.uid 3] (Examples.uid 1) (Examples.uid 2) ∅) as [_ H].
  destruct (H N (list_elem_of_here _ _)) as (n & p & Hn & Hp & _). exists n, p. split; [exact Hn|]. split; [exact Hp|].
  intros E. rewrite E in Hn. rewrite <- Hn in Hp. vm_compute in Hp. discriminate.
Defined.

(** Three frames in a circle: each precedes the next and the last precedes the first. *)
Definition around (n : Z) (x y : f64) : RawUuid * Rect := (Examples.uid n, xywh x y one one).
Lemma reading_order_is_not_an_order :
  let a := around 1 two zero in let b := around 2 one 0x3fdccccccccccccd in let c := around 3 zero 0x3feccccccccccccd in
  reading_order b a = Lt /\ reading_order c b = Lt /\ reading_order a c = Lt.
Proof. vm_compute. done. Qed.
