(* ===== verification/Identity.v ===== *)
(** * Identity: the identities of the workspace and where fresh ones come from

    Models [slopdesk-ids/src/identity.rs].  An identity is sixteen bytes; the code's distinct newtypes are
    one type here.  The program holds no entropy: an operation that needs a fresh identity takes an
    [IdSource], here a class over the state of an arbitrary one. *)

From S2P Require Import Prelude Bytes Message Cells.

(** ** Text *)

Definition hex_digit (nibble : Z) : byte :=
  if nibble <? 10 then byte_of_Z (48 + nibble) else byte_of_Z (55 + nibble).
Definition hyphen : byte := Byte.x2d.
Definition hex_pair (b : byte) : list byte :=
  [hex_digit (Z.shiftr (byte_to_Z b) 4); hex_digit (Z.land (byte_to_Z b) 15)].

Fixpoint uuid_text_from (index : nat) (raw : list byte) : list byte :=
  match raw with
  | [] => []
  | b :: raw =>
    (match index with 4 | 6 | 8 | 10 => [hyphen] | _ => [] end)%nat ++ hex_pair b ++ uuid_text_from (S index) raw
  end.
Definition uuid_text (raw : RawUuid) : list byte := uuid_text_from 0 raw.

(** [char::to_digit(16)] of a character given by its UTF-8 bytes. *)
Definition to_digit (c : list byte) : option Z :=
  match c with
  | [b] =>
    let v := byte_to_Z b in
    if (48 <=? v) && (v <=? 57) then Some (v - 48)
    else if (65 <=? v) && (v <=? 70) then Some (v - 55)
    else if (97 <=? v) && (v <=? 102) then Some (v - 87)
    else None
  | _ => None
  end.

Fixpoint parse_digits (index : nat) (chars : list (list byte)) (digits : list Z) : option (list Z) :=
  match chars with
  | [] => Some digits
  | c :: chars =>
    if decide (c = [hyphen])
    then match index with
         | 8 | 13 | 18 | 23 => parse_digits (S index) chars digits
         | _ => None
         end%nat
    else
      value ← to_digit c;
      if (length digits <? 32)%nat then parse_digits (S index) chars (digits ++ [value]) else None
  end.

Fixpoint pair_digits (digits : list Z) : list byte :=
  match digits with
  | high :: low :: digits => byte_of_Z (Z.lor (Z.shiftl high 4) low) :: pair_digits digits
  | _ => []
  end.

Definition parse_uuid (text : list byte) : option RawUuid :=
  if negb (zlen text =? 36) then None
  else
    digits ← parse_digits 0 (default [] (utf8_chars text)) [];
    if negb (length digits =? 32)%nat then None else Some (pair_digits digits).

(** ** Fresh identities *)

Class IdSource (S : Type) : Type := {
  mint_pane : S -> RawUuid * S;
  mint_tab : S -> RawUuid * S;
  mint_session : S -> RawUuid * S;
  mint_split : S -> RawUuid * S;
}.

(** A counter for every kind, as the tests supply. *)
Definition counted (n : Z) : RawUuid * Z := (byte_of_Z 1 :: replicate 7 (byte_of_Z 0) ++ to_be_bytes 8 n, n + 1).
#[export] Instance counter_source : IdSource Z :=
  {| mint_pane := counted; mint_tab := counted; mint_session := counted; mint_split := counted |}.

(** ** Round trip *)

Lemma hex_digit_ascii n : 0 <= n < 16 -> 48 <= byte_to_Z (hex_digit n) <= 70 /\ to_digit [hex_digit n] = Some n.
Proof.
  intros Hn. assert (H : n ∈ seqZ 0 16) by (apply elem_of_seqZ; lia). revert H. clear.
  assert (A : Forall (fun n => 48 <= byte_to_Z (hex_digit n) <= 70 /\ to_digit [hex_digit n] = Some n) (seqZ 0 16)).
  { repeat constructor; vm_compute; try done; congruence. }
  rewrite Forall_forall in A. apply A.
Qed.

Definition ascii (l : list byte) : Prop := Forall (fun b => byte_to_Z b <= 127) l.
Lemma ascii_chars l : ascii l -> utf8_chars l = Some (map (fun b => [b]) l).
Proof.
  induction 1 as [|b l Hb _ IH]; [done|]. cbn [utf8_chars]. unfold byte_in.
  pose proof (byte_to_Z_range b). destruct (Z.leb_spec 0 (byte_to_Z b)); [|lia].
  destruct (Z.leb_spec (byte_to_Z b) 0x7F); [|lia]. cbn. by rewrite IH.
Qed.

Definition nibble_ok (b : byte) : bool :=
  let h := Z.shiftr (byte_to_Z b) 4 in let l := Z.land (byte_to_Z b) 15 in
  (0 <=? h) && (h <? 16) && (0 <=? l) && (l <? 16) && Byte.eqb (byte_of_Z (Z.lor (Z.shiftl h 4) l)) b.
Lemma nibbles b : 0 <= Z.shiftr (byte_to_Z b) 4 < 16 /\ 0 <= Z.land (byte_to_Z b) 15 < 16 /\
  byte_of_Z (Z.lor (Z.shiftl (Z.shiftr (byte_to_Z b) 4) 4) (Z.land (byte_to_Z b) 15)) = b.
Proof.
  pose proof (forallb_all_bytes nibble_ok ltac:(vm_compute; reflexivity) b) as H. unfold nibble_ok in H.
  rewrite !andb_true_iff in H. destruct H as [H E]. apply Byte.byte_dec_bl in E. split; [lia|]. split; [lia|done].
Qed.

Lemma hex_not_hyphen n : 0 <= n < 16 -> [hex_digit n] <> [hyphen].
Proof. intros Hn E. injection E as E. destruct (hex_digit_ascii n Hn) as [H _].
  assert (H45 : byte_to_Z hyphen = 45) by reflexivity. rewrite E in H. lia. Qed.

Lemma parse_pair b index l digits :
  (length digits < 31)%nat ->
  parse_digits index (map (fun b => [b]) (hex_pair b ++ l)) digits =
  parse_digits (S (S index)) (map (fun b => [b]) l)
    (digits ++ [Z.shiftr (byte_to_Z b) 4; Z.land (byte_to_Z b) 15]).
Proof.
  intros Hlen. destruct (nibbles b) as (H1 & H2 & _). cbn [hex_pair app map].
  destruct (hex_digit_ascii _ H1) as [_ D1], (hex_digit_ascii _ H2) as [_ D2].
  pose proof (hex_not_hyphen _ H1). pose proof (hex_not_hyphen _ H2).
  cbn [parse_digits]. rewrite decide_False, D1 by done. cbn [mbind option_bind].
  destruct (Nat.ltb_spec (length digits) 32); [|lia]. cbn [parse_digits]. rewrite decide_False, D2 by done.
  cbn [mbind option_bind]. rewrite length_app. cbn [length].
  destruct (Nat.ltb_spec (length digits + 1) 32); [|lia]. by rewrite <- app_assoc.
Qed.

Definition split_byte (b : byte) : list Z := [Z.shiftr (byte_to_Z b) 4; Z.land (byte_to_Z b) 15].
Lemma pair_digits_split raw : pair_digits (concat (map split_byte raw)) = raw.
Proof. induction raw as [|b raw IH]; [done|]. cbn. destruct (nibbles b) as (_ & _ & ->). by rewrite IH. Qed.

(** What the parser's position is before the byte at an index, and where it stops. *)
Definition position (index : nat) : nat :=
  (2 * index + (if (4 <? index)%nat then 1 else 0) + (if (6 <? index)%nat then 1 else 0)
   + (if (8 <? index)%nat then 1 else 0) + (if (10 <? index)%nat then 1 else 0))%nat.

Lemma parse_text raw : forall index digits,
  (index + length raw = 16)%nat -> length digits = (2 * index)%nat ->
  parse_digits (position index) (map (fun b => [b]) (uuid_text_from index raw)) digits =
  Some (digits ++ concat (map split_byte raw)).
Proof.
  induction raw as [|b raw IH]; intros index digits Hlen Hd; cbn [uuid_text_from].
  { cbn. by rewrite app_nil_r. }
  cbn in Hlen. assert (Hi : (index < 16)%nat) by lia.
  assert (E : parse_digits (position index) (map (fun b => [b])
      ((match index with 4 | 6 | 8 | 10 => [hyphen] | _ => [] end)%nat ++ hex_pair b ++ uuid_text_from (S index) raw)) digits =
    parse_digits (position (S index)) (map (fun b => [b]) (uuid_text_from (S index) raw)) (digits ++ split_byte b)).
  { unfold split_byte. do 16 (destruct index as [|index]; [cbn [app position]; first [apply parse_pair; lia |
      cbn -[hex_pair parse_digits]; cbn [parse_digits]; rewrite decide_True by done; cbn -[hex_pair parse_digits Nat.mul]; apply parse_pair; lia]|]).
    lia. }
  rewrite E, IH by (rewrite ?length_app; cbn; lia). cbn. by rewrite <- app_assoc.
Qed.

Lemma uuid_text_shape raw index : (index + length raw = 16)%nat ->
  ascii (uuid_text_from index raw) /\
  (length (uuid_text_from index raw) + position index = 36)%nat.
Proof.
  revert index. induction raw as [|b raw IH]; intros index Hlen.
  { cbn in Hlen. replace index with 16%nat by lia. split; [constructor|done]. }
  cbn in Hlen. destruct (IH (S index) ltac:(lia)) as [Ha Hl]. destruct (nibbles b) as (H1 & H2 & _). cbn [uuid_text_from].
  split.
  - apply Forall_app. split; [do 11 (destruct index as [|index]; [repeat constructor; vm_compute; congruence|]); constructor|].
    constructor; [by destruct (hex_digit_ascii _ H1); lia|]. constructor; [by destruct (hex_digit_ascii _ H2); lia|]. done.
  - rewrite !length_app. do 16 (destruct index as [|index]; [cbn in *; lia|]). lia.
Qed.

(** The canonical text of an identity parses back to it. *)
Lemma uuid_text_parses raw : length raw = 16%nat -> zlen (uuid_text raw) = 36 /\ parse_uuid (uuid_text raw) = Some raw.
Proof.
  intros Hlen. destruct (uuid_text_shape raw 0 ltac:(lia)) as [Ha Hl]. unfold uuid_text, parse_uuid, zlen.
  cbn in Hl. assert (E : length (uuid_text_from 0 raw) = 36%nat) by lia. rewrite E. split; [done|]. cbn [Z.of_nat Z.eqb].
  rewrite (ascii_chars _ Ha). cbn [default from_option id]. pose proof (parse_text raw 0 [] ltac:(lia) eq_refl) as H.
  cbn [position] in H. change (position 0) with 0%nat in H. rewrite H. cbn [mbind option_bind app].
  assert (Hd : forall l, length (concat (map split_byte l)) = (2 * length l)%nat) by (induction l; cbn; lia).
  rewrite Hd, Hlen. cbn. by rewrite pair_digits_split.
Qed.
