(* ===== verification/Workspace.v ===== *)
(** * Workspace: sessions, tabs, panes, and the repairs of a hand-edited file

    Models [slopdesk-tree/src/session.rs] and [workspace.rs].  A pane's spec lives in its session's side
    table; the invariant is that the table's keys are the tree's panes and the detached ones.  Text is its
    UTF-8 bytes.  The order of a side table is the order of its keys; nothing here depends on it but the
    video panes a launch drops, which are dropped in that order. *)

From stdpp Require Import gmap.
From S2P Require Import Prelude Bytes BTree Message Document Cells Float Tree Layout Identity.

Definition str (s : string) : list byte := String.list_byte_of_string s.

(** ** Panes *)

Inductive PaneKind : Type := Terminal | Desktop.

Definition ALL_PANE_KINDS : list PaneKind := [Terminal; Desktop].
Definition RETIRED_RAW_VALUES : list (list byte) :=
  [str "claudeCode"; str "web"; str "chooser"; str "remoteGUI"; str "systemDialog"].
Definition pane_kind_from_byte (b : byte) : PaneKind := if byte_to_Z b =? 1 then Desktop else Terminal.
Definition pane_kind_as_byte (k : PaneKind) : byte := byte_of_Z match k with Terminal => 0 | Desktop => 1 end.
Definition raw (k : PaneKind) : list byte := match k with Terminal => str "terminal" | Desktop => str "desktop" end.
Definition from_raw (s : list byte) : option PaneKind :=
  if decide (s = str "terminal") then Some Terminal
  else if decide (s = str "desktop") then Some Desktop
  else if bool_decide (s ∈ RETIRED_RAW_VALUES) then Some Terminal
  else None.
Definition is_video (k : PaneKind) : bool := match k with Desktop => true | Terminal => false end.
Definition can_receive_text (k : PaneKind) : bool := match k with Terminal => true | Desktop => false end.

Record PaneSpec : Type := mkSpec {
  spec_kind : PaneKind;
  spec_title : list byte;
  video : option VideoEndpoint;
  user_renamed : bool;
}.
Definition spec_new (k : PaneKind) (t : list byte) : PaneSpec := mkSpec k t None false.

(** *** Working directories *)

Definition slash : byte := Byte.x2f.

(** The characters of a text, as code points are written; a character of [char::is_whitespace]. *)
Definition chars (s : list byte) : list (list byte) := default [] (utf8_chars s).
Definition WHITE_SPACE : list (list byte) :=
  map (map byte_of_Z)
    ([[9]; [10]; [11]; [12]; [13]; [32]; [194; 133]; [194; 160]; [225; 154; 128]] ++
     map (fun n => [226; 128; n]) [128; 129; 130; 131; 132; 133; 134; 135; 136; 137; 138; 168; 169; 175] ++
     [[226; 129; 159]; [227; 128; 128]]).
Fixpoint trim_start_chars (l : list (list byte)) : list (list byte) :=
  match l with
  | c :: l' => if bool_decide (c ∈ WHITE_SPACE) then trim_start_chars l' else l
  | [] => []
  end.
(** [str::trim]. *)
Definition trim (s : list byte) : list byte := concat (reverse (trim_start_chars (reverse (trim_start_chars (chars s))))).

(** [str::split('/')]. *)
Fixpoint split_slash (s : list byte) : list (list byte) :=
  match s with
  | [] => [[]]
  | b :: s =>
    if decide (b = slash) then [] :: split_slash s
    else match split_slash s with part :: parts => (b :: part) :: parts | [] => [[b]] end
  end.
Definition last_part (s : list byte) : option (list byte) :=
  snd <$> list_find (.≠ []) (reverse (split_slash s)).

Fixpoint strip_slashes_rev (s : list byte) : list byte :=
  match s with
  | b :: (_ :: _) as s' => if decide (b = slash) then strip_slashes_rev s' else s
  | _ => s
  end.
Definition strip_trailing_slashes (s : list byte) : list byte := reverse (strip_slashes_rev (reverse s)).

Definition cwd_display_name (cwd : option (list byte)) : option (list byte) :=
  cwd ← cwd;
  let path := trim cwd in
  if decide (path = []) then None
  else
    let trimmed := strip_trailing_slashes path in
    if decide (trimmed = [slash]) then Some [slash]
    else Some (default trimmed (last_part trimmed)).

Definition starts_with (p s : list byte) : bool := bool_decide (p `prefix_of` s).
Definition strip_prefix (p s : list byte) : option (list byte) :=
  if bool_decide (p `prefix_of` s) then Some (drop (length p) s) else None.
Definition ends_with_slash (s : list byte) : bool := bool_decide (last s = Some slash).

(** What a path below a home root becomes; [None] when the root does not match. *)
Definition collapse_under (path root : list byte) : option (list byte) :=
  after_root ← strip_prefix root path;
  Some (if decide (after_root = []) then path
        else if starts_with [slash] after_root then path
        else match list_find (eq slash) after_root with
             | Some (i, _) => str "~/" ++ drop (S i) after_root
             | None => str "~"
             end).
Definition tilde_collapsed (path : list byte) : list byte :=
  if bool_decide (path = str "~") || starts_with (str "~/") path then path
  else match collapse_under path (str "/Users/") with
       | Some p => p
       | None => default path (collapse_under path (str "/home/"))
       end.
Definition cwd_badge_path (cwd : list byte) : list byte :=
  if decide (cwd = []) then []
  else let collapsed := tilde_collapsed cwd in
       if ends_with_slash collapsed then collapsed else collapsed ++ [slash].

Fixpoint has_triple_dash (s : list byte) : bool :=
  match s with
  | [] => false
  | _ :: s' => starts_with [hyphen; hyphen; hyphen] s || has_triple_dash s'
  end.
Definition looks_like_transient_plugin_cwd (path : list byte) : bool := existsb has_triple_dash (split_slash path).

(** ** Tabs and sessions *)

Record Tab : Type := mkTab {
  tab_id : RawUuid;
  tab_title : list byte;
  root : SplitNode;
  active_pane : option RawUuid;
  zoomed_pane : option RawUuid;
}.
Definition tab_new (id : RawUuid) (root : SplitNode) : Tab := mkTab id [] root (first_leaf_id root) None.
Definition tab_panes (t : Tab) : list RawUuid := all_pane_ids (root t).
Definition tab_contains (id : RawUuid) (t : Tab) : bool := contains id (root t).

Record DetachedPane : Type := mkDetached { pane : RawUuid; origin_tab : option RawUuid }.

Abbreviation Specs := (gmap RawUuid PaneSpec).

Record Session : Type := mkSession {
  session_id : RawUuid;
  session_name : list byte;
  tabs : list Tab;
  active_tab_index : nat;
  specs : Specs;
  detached : list DetachedPane;
}.

Definition with_tabs (s : Session) (l : list Tab) : Session :=
  mkSession (session_id s) (session_name s) l (active_tab_index s) (specs s) (detached s).
Definition with_index (s : Session) (i : nat) : Session :=
  mkSession (session_id s) (session_name s) (tabs s) i (specs s) (detached s).
Definition with_specs (s : Session) (m : Specs) : Session :=
  mkSession (session_id s) (session_name s) (tabs s) (active_tab_index s) m (detached s).
Definition with_detached (s : Session) (l : list DetachedPane) : Session :=
  mkSession (session_id s) (session_name s) (tabs s) (active_tab_index s) (specs s) l.
Definition with_name (s : Session) (n : list byte) : Session :=
  mkSession (session_id s) n (tabs s) (active_tab_index s) (specs s) (detached s).

Definition session_single_pane (id : RawUuid) (name : list byte) (tab pane : RawUuid) (spec : PaneSpec) : Session :=
  mkSession id name [tab_new tab (Leaf pane)] 0 {[pane := spec]} [].

Definition session_panes (s : Session) : list RawUuid := concat (map tab_panes (tabs s)).
Definition leaf_id_set (s : Session) : gset RawUuid := list_to_set (session_panes s).
Definition detached_id_set (s : Session) : gset RawUuid := list_to_set (map pane (detached s)).
Definition session_is_detached (id : RawUuid) (s : Session) : bool := existsb (fun e => bool_decide (pane e = id)) (detached s).
Definition session_contains (id : RawUuid) (s : Session) : bool := existsb (tab_contains id) (tabs s).
Definition session_spec_for (id : RawUuid) (s : Session) : option PaneSpec :=
  if session_contains id s || session_is_detached id s then specs s !! id else None.
Definition tab_index_containing (id : RawUuid) (s : Session) : option nat :=
  fst <$> list_find (fun t => tab_contains id t = true) (tabs s).

(** *** Where a new tab lands *)

Inductive NewTabPosition : Type := Auto | End | AfterCurrent.
Definition ALL_POSITIONS : list NewTabPosition := [Auto; End; AfterCurrent].
Definition position_from_byte (b : byte) : NewTabPosition :=
  match byte_to_Z b with 1 => End | 2 => AfterCurrent | _ => Auto end.
Definition position_as_byte (p : NewTabPosition) : byte :=
  byte_of_Z match p with Auto => 0 | End => 1 | AfterCurrent => 2 end.
Definition position_raw (p : NewTabPosition) : list byte :=
  match p with Auto => str "auto" | End => str "end" | AfterCurrent => str "after-current" end.
Definition position_from_raw (s : list byte) : option NewTabPosition :=
  snd <$> list_find (fun p => position_raw p = s) ALL_POSITIONS.
Definition position_from_raw_or_default (s : list byte) : NewTabPosition := default Auto (position_from_raw s).

Definition insertion_index (p : NewTabPosition) (active_index tab_count : nat) : nat :=
  match p with
  | Auto | End => tab_count
  | AfterCurrent =>
    if (tab_count =? 0)%nat then 0%nat
    else S (if (active_index <? tab_count)%nat then active_index else tab_count - 1)%nat
  end.
(** [usize::try_from(v).unwrap_or(0)] of an [i64]; the answer always fits back. *)
Definition insertion_index_signed (p : NewTabPosition) (active_index tab_count : Z) : Z :=
  Z.of_nat (insertion_index p (Z.to_nat active_index) (Z.to_nat tab_count)).
Definition new_tab_index (s : Session) (p : NewTabPosition) : nat :=
  insertion_index p (active_tab_index s) (length (tabs s)).

(** ** The workspace *)

Definition DEFAULT_PANE_TITLE : list byte := str "Terminal".
Definition DEFAULT_SESSION_NAME : list byte := str "Local".
Definition DEFAULT_DESKTOP_PANE_TITLE : list byte := str "Desktop".
Definition CURRENT_SCHEMA_VERSION : Z := 12.

Record TreeWorkspace : Type := mkWorkspace {
  schema_version : Z;
  sessions : list Session;
  active_session_id : option RawUuid;
}.
Definition workspace_new (l : list Session) (active : option RawUuid) : TreeWorkspace :=
  mkWorkspace CURRENT_SCHEMA_VERSION l active.
Definition with_sessions (ws : TreeWorkspace) (l : list Session) : TreeWorkspace :=
  mkWorkspace (schema_version ws) l (active_session_id ws).
Definition with_active_session (ws : TreeWorkspace) (a : option RawUuid) : TreeWorkspace :=
  mkWorkspace (schema_version ws) (sessions ws) a.

Definition single_pane (session tab pane : RawUuid) (spec : PaneSpec) : TreeWorkspace :=
  workspace_new [session_single_pane session DEFAULT_SESSION_NAME tab pane spec] (Some session).
Definition seeded_spec : PaneSpec := spec_new Terminal DEFAULT_PANE_TITLE.
Definition default_workspace (session tab pane : RawUuid) : TreeWorkspace := single_pane session tab pane seeded_spec.

Definition workspace_panes (ws : TreeWorkspace) : list RawUuid := concat (map session_panes (sessions ws)).
Definition detached_pane_ids (ws : TreeWorkspace) : list RawUuid := concat (map (fun s => map pane (detached s)) (sessions ws)).
Definition is_detached (id : RawUuid) (ws : TreeWorkspace) : bool := existsb (session_is_detached id) (sessions ws).
Definition workspace_contains (id : RawUuid) (ws : TreeWorkspace) : bool := existsb (session_contains id) (sessions ws).

(** [Iterator::find_map]. *)
Fixpoint find_map {A B} (f : A -> option B) (l : list A) : option B :=
  match l with [] => None | a :: l => match f a with Some b => Some b | None => find_map f l end end.

Definition spec_for (id : RawUuid) (ws : TreeWorkspace) : option PaneSpec := find_map (session_spec_for id) (sessions ws).
Definition location_of (id : RawUuid) (ws : TreeWorkspace) : option (RawUuid * RawUuid) :=
  find_map (fun s => (fun p => (session_id s, tab_id p.2)) <$> list_find (fun t => tab_contains id t = true) (tabs s)) (sessions ws).
Definition active_session_index (ws : TreeWorkspace) : option nat :=
  let first := match sessions ws with [] => None | _ => Some 0%nat end in
  match active_session_id ws with
  | None => first
  | Some id => match list_find (fun s => session_id s = id) (sessions ws) with Some (i, _) => Some i | None => first end
  end.

Definition expected_specs (s : Session) : gset RawUuid := leaf_id_set s ∪ detached_id_set s.
Definition invariant_holds (ws : TreeWorkspace) : bool :=
  forallb (fun s => bool_decide (dom (specs s) = expected_specs s)) (sessions ws).

(** *** Repairing the side table *)

(** [detached.retain(..)], with the set of panes already kept. *)
Fixpoint retain_detached (leaves : gset RawUuid) (m : Specs) (seen : gset RawUuid) (l : list DetachedPane) : list DetachedPane :=
  match l with
  | [] => []
  | e :: l =>
    if decide (pane e ∉ leaves /\ is_Some (m !! pane e) /\ pane e ∉ seen)
    then e :: retain_detached leaves m ({[pane e]} ∪ seen) l
    else retain_detached leaves m seen l
  end.

(** The seeding of the leaves without a spec adds what is missing and overwrites nothing: a left-biased
    union. *)
Definition repair_specs (s : Session) : Session :=
  let leaves := leaf_id_set s in
  let s := with_detached s (retain_detached leaves (specs s) ∅ (detached s)) in
  let keep := leaves ∪ detached_id_set s in
  with_specs s (filter (fun p => p.1 ∈ keep) (specs s) ∪ gset_to_gmap seeded_spec leaves).
Definition normalizing_specs (ws : TreeWorkspace) : TreeWorkspace := with_sessions ws (map repair_specs (sessions ws)).

(** *** Repairing the selections *)

Definition in_tab (t : Tab) (p : option RawUuid) : bool :=
  match p with Some id => bool_decide (id ∈ (list_to_set (tab_panes t) : gset RawUuid)) | None => false end.
Definition repair_tab (t : Tab) : Tab :=
  mkTab (tab_id t) (tab_title t) (root t)
    (if in_tab t (active_pane t) then active_pane t else first_leaf_id (root t))
    (if in_tab t (zoomed_pane t) then zoomed_pane t else None).

Section Active.
Context {I : Type} `{IdSource I}.

Definition repair_session (s : Session) (ids : I) : Session * I :=
  let '(s, ids) :=
    match tabs s with
    | [] =>
      let '(tab, ids) := mint_tab ids in
      let '(pane, ids) := mint_pane ids in
      (with_tabs (with_specs s (<[pane := seeded_spec]> (specs s))) [tab_new tab (Leaf pane)], ids)
    | _ => (s, ids)
    end in
  let s := if (length (tabs s) <=? active_tab_index s)%nat then with_index s 0 else s in
  (with_tabs s (map repair_tab (tabs s)), ids).

Fixpoint repair_sessions (l : list Session) (ids : I) : list Session * I :=
  match l with
  | [] => ([], ids)
  | s :: l =>
    let '(s, ids) := repair_session s ids in
    let '(l, ids) := repair_sessions l ids in
    (s :: l, ids)
  end.

Definition mint_default (ids : I) : TreeWorkspace * I :=
  let '(session, ids) := mint_session ids in
  let '(tab, ids) := mint_tab ids in
  let '(pane, ids) := mint_pane ids in
  (default_workspace session tab pane, ids).

Definition normalizing_active (ws : TreeWorkspace) (ids : I) : TreeWorkspace * I :=
  match sessions ws with
  | [] => mint_default ids
  | _ =>
    let '(l, ids) := repair_sessions (sessions ws) ids in
    let names_a_session :=
      match active_session_id ws with Some id => existsb (fun s => bool_decide (session_id s = id)) l | None => false end in
    (mkWorkspace (schema_version ws) l
       (if names_a_session then active_session_id ws else session_id <$> head l), ids)
  end.

Definition normalized (ws : TreeWorkspace) (ids : I) : TreeWorkspace * I := normalizing_active (normalizing_specs ws) ids.
End Active.

(** *** Dropping the video panes at launch *)

Definition video_panes (s : Session) : list RawUuid :=
  map fst (filter (fun p => is_video (spec_kind p.2) = true) (btree_by pane_le (specs s))).
Fixpoint remove_all (ids : list RawUuid) (t : SplitNode) : option SplitNode :=
  match ids with
  | [] => Some t
  | id :: ids => if contains id t then pruned ← removing id t; remove_all ids pruned else remove_all ids t
  end.
Definition with_root (t : Tab) (r : SplitNode) : Tab := mkTab (tab_id t) (tab_title t) r (active_pane t) (zoomed_pane t).
Definition drop_video (s : Session) : Session :=
  match video_panes s with
  | [] => s
  | ids =>
    let s := with_detached s (filter (fun e => pane e ∉ ids) (detached s)) in
    let s := with_specs s (foldl (fun m id => delete id m) (specs s) ids) in
    with_tabs s (omap (fun t => with_root t <$> remove_all ids (root t)) (tabs s))
  end.
Definition dropping_video_panes (ws : TreeWorkspace) : TreeWorkspace := with_sessions ws (map drop_video (sessions ws)).
