(* ===== verification/TreeOps.v ===== *)
(** * TreeOps: what an intent does to the arrangement

    Models [slopdesk-tree/src/tree_ops.rs].  Every operation takes a workspace and answers a new one, and
    answers its input where it does not apply.  A closure that edits a value in place and reports whether it
    did is a function to an [option]: [None] is the edit that declined.  The sources of identities are
    threaded; the code mints before it looks at the result, and so does the model. *)

From stdpp Require Import gmap sorting.
From S2P Require Import Prelude Bytes BTree Message Document Cells Float Tree Layout Identity Workspace.

Definition REFOCUS_BOUND : f64 := 0x408f400000000000.

(** ** Locating *)

(** [iter().enumerate().find_map(..)]. *)
Fixpoint find_map_index {A B} (f : A -> option B) (index : nat) (l : list A) : option (nat * B) :=
  match l with
  | [] => None
  | a :: l => match f a with Some b => Some (index, b) | None => find_map_index f (S index) l end
  end.
Definition locate (ws : TreeWorkspace) (pane : RawUuid) : option (nat * nat) :=
  find_map_index (tab_index_containing pane) 0 (sessions ws).
Definition tab_position (tab : RawUuid) (l : list Tab) : option nat :=
  fst <$> list_find (fun t => tab_id t = tab) l.
Definition locate_tab (ws : TreeWorkspace) (tab : RawUuid) : option (nat * nat) :=
  find_map_index (fun s => tab_position tab (tabs s)) 0 (sessions ws).
Definition session_position (id : RawUuid) (ws : TreeWorkspace) : option nat :=
  fst <$> list_find (fun s => session_id s = id) (sessions ws).

Definition put_session (ws : TreeWorkspace) (i : nat) (s : Session) : TreeWorkspace := with_sessions ws (<[i := s]> (sessions ws)).
Definition put_tab (s : Session) (j : nat) (t : Tab) : Session := with_tabs s (<[j := t]> (tabs s)).

Definition editing_session (ws : TreeWorkspace) (i : nat) (edit : Session -> option Session) : TreeWorkspace :=
  match sessions ws !! i with
  | Some s => match edit s with Some s' => put_session ws i s' | None => ws end
  | None => ws
  end.
Definition editing_tab (ws : TreeWorkspace) (i j : nat) (edit : Tab -> option Tab) : TreeWorkspace :=
  editing_session ws i (fun s => t ← tabs s !! j; t' ← edit t; Some (put_tab s j t')).

(** [Vec::remove]. *)
Definition remove_at {A} (i : nat) (l : list A) : list A := take i l ++ drop (S i) l.

Fixpoint first_neighbor (pane : RawUuid) (solved : SolvedLayout) (l : list FocusDirection) : option RawUuid :=
  match l with
  | [] => None
  | d :: l =>
    match neighbor pane d solved with
    | Some found => if decide (found = pane) then first_neighbor pane solved l else Some found
    | None => first_neighbor pane solved l
    end
  end.
Definition neighbour (pane : RawUuid) (t : Tab) : option RawUuid :=
  let solved := solve (root t) (mkRect point_zero (mkSize REFOCUS_BOUND REFOCUS_BOUND)) size_zero in
  match first_neighbor pane solved [GoLeft; GoRight; GoUp; GoDown] with
  | Some found => Some found
  | None => snd <$> list_find (.≠ pane) (all_pane_ids (root t))
  end.

(** ** Tab editing *)

Definition with_panes (t : Tab) (root : SplitNode) (active zoomed : option RawUuid) : Tab :=
  mkTab (tab_id t) (tab_title t) root active zoomed.
(** The tab with a new tree, the pane focused and the zoom left. *)
Definition regrown (t : Tab) (root : SplitNode) (pane : RawUuid) : Tab := with_panes t root (Some pane) None.

Definition clear_zoom (pane : RawUuid) (t : Tab) : option RawUuid :=
  if decide (zoomed_pane t = Some pane) then None else zoomed_pane t.
Definition refocused (pane : RawUuid) (t : Tab) (next : option RawUuid) : option RawUuid :=
  if decide (active_pane t = Some pane) then next else active_pane t.

(** [prune_leaf_from_tab]. *)
Definition prune_leaf_from_tab (s : Session) (source : RawUuid) (index : nat) : Session :=
  match tabs s !! index with
  | None => s
  | Some t =>
    match removing source (root t) with
    | Some pruned => put_tab s index (with_panes t pruned (refocused source t (first_leaf_id pruned)) (clear_zoom source t))
    | None => with_tabs s (remove_at index (tabs s))
    end
  end.

Section Ops.
Context {I : Type} `{IdSource I}.

(** *** Split and close *)

Definition split_pane (ws : TreeWorkspace) (target : RawUuid) (axis : SplitAxis) (spec : PaneSpec) (before : bool)
    (pane : RawUuid) (ids : I) : TreeWorkspace * I :=
  match locate ws target with
  | None => (ws, ids)
  | Some (i, j) =>
    let '(fresh_split, ids) := mint_split ids in
    (editing_session ws i (fun s =>
       t ← tabs s !! j;
       root ← splitting (root t) target axis pane before fresh_split;
       Some (with_specs (put_tab s j (regrown t root pane)) (<[pane := spec]> (specs s)))), ids)
  end.

Definition cascade_after_tab_removal (ws : TreeWorkspace) (i removed_tab_index : nat) (successor : option RawUuid)
    (ids : I) : TreeWorkspace * I :=
  match sessions ws !! i with
  | None => (ws, ids)
  | Some s =>
    match tabs s with
    | [] =>
      match detached s with
      | _ :: _ => (ws, ids)
      | [] =>
        let next := with_sessions ws (remove_at i (sessions ws)) in
        match sessions next with
        | [] => mint_default ids
        | _ =>
          (if decide (active_session_id next = Some (session_id s))
           then with_active_session next
                  (session_id <$> (sessions next !! Nat.min i (pred (length (sessions next)))))
           else next, ids)
        end
      end
    | _ =>
      (editing_session ws i (fun s =>
         Some (with_index s (default (Nat.min removed_tab_index (pred (length (tabs s))))
                               (id ← successor; tab_position id (tabs s))))), ids)
    end
  end.

Definition close_pane (ws : TreeWorkspace) (target : RawUuid) (successor : option RawUuid) (ids : I) : TreeWorkspace * I :=
  match locate ws target with
  | None => (ws, ids)
  | Some (i, j) =>
    match s ← sessions ws !! i; t ← tabs s !! j; Some (s, t) with
    | None => (ws, ids)
    | Some (s, t) =>
      let refocus := neighbour target t in
      let pruned := removing target (root t) in
      let s := with_specs s (delete target (specs s)) in
      match pruned with
      | None =>
        let next := put_session ws i (with_tabs s (remove_at j (tabs s))) in
        let '(next, ids) := cascade_after_tab_removal next i j successor ids in
        normalized next ids
      | Some root =>
        let active := refocused target t (match refocus with Some f => Some f | None => first_leaf_id root end) in
        (normalizing_specs (put_session ws i (put_tab s j (with_panes t root active (clear_zoom target t)))), ids)
      end
    end
  end.

(** *** Dividers *)

Definition active_tab_position (ws : TreeWorkspace) : option (nat * nat) :=
  i ← active_session_index ws;
  s ← sessions ws !! i;
  if (active_tab_index s <? length (tabs s))%nat then Some (i, active_tab_index s) else None.
Definition set_divider_weight (ws : TreeWorkspace) (split : RawUuid) (leading_index : nat) (leading_weight : f64) : TreeWorkspace :=
  match active_tab_position ws with
  | None => ws
  | Some (i, j) =>
    editing_tab ws i j (fun t => Some (with_root t (setting_divider_weight (root t) split leading_index leading_weight)))
  end.

(** *** Move, swap, dock *)

Definition swap_panes (ws : TreeWorkspace) (a b : RawUuid) : TreeWorkspace :=
  if decide (a = b) then ws
  else match locate ws a, locate ws b with
       | Some at_a, Some at_b =>
         if decide (at_a = at_b) then editing_tab ws at_a.1 at_a.2 (fun t => Some (with_root t (swapping a b (root t)))) else ws
       | _, _ => ws
       end.

(** A relocated tree that is not too deep and not the one it started from. *)
Definition relocated (t : Tab) (source : RawUuid) (tree : SplitNode) : option Tab :=
  if (MAX_DEPTH <? depth tree)%nat || is_structurally_equal tree (root t) then None
  else Some (with_panes t tree (Some source) (zoomed_pane t)).

Definition move_leaf (ws : TreeWorkspace) (source target : RawUuid) (axis : SplitAxis) (before : bool) (ids : I)
    : TreeWorkspace * I :=
  if decide (source = target) then (ws, ids)
  else match locate ws source, locate ws target with
       | Some from, Some to =>
         if decide (from = to)
         then
           let '(fresh_split, ids) := mint_split ids in
           (editing_tab ws from.1 from.2 (fun t =>
              pruned ← removing source (root t);
              tree ← inserting_beside pruned source target axis before fresh_split;
              relocated t source tree), ids)
         else (ws, ids)
       | _, _ => (ws, ids)
       end.

Definition move_leaf_to_root_edge (ws : TreeWorkspace) (source : RawUuid) (edge : PaneDropEdge) (ids : I) : TreeWorkspace * I :=
  match locate ws source with
  | None => (ws, ids)
  | Some (i, j) =>
    let '(fresh_split, ids) := mint_split ids in
    (editing_tab ws i j (fun t =>
       if (leaf_count (root t) <=? 1)%nat then None
       else
         pruned ← removing source (root t);
         relocated t source (inserting_at_root pruned source (edge_axis edge) (inserts_before edge) fresh_split)), ids)
  end.

(** The end of a move between tabs: the source leaves its tab, the destination, found again by its
    identity, takes the grown tree and is selected. *)
Definition land (s : Session) (source : RawUuid) (source_tab : nat) (destination : RawUuid) (grown : SplitNode) : option Session :=
  let s := prune_leaf_from_tab s source source_tab in
  index ← tab_position destination (tabs s);
  t ← tabs s !! index;
  Some (with_index (put_tab s index (regrown t grown source)) index).

Definition move_leaf_across_tabs (ws : TreeWorkspace) (source target : RawUuid) (axis : SplitAxis) (before : bool) (ids : I)
    : TreeWorkspace * I :=
  if decide (source = target) then (ws, ids)
  else match locate ws source, locate ws target with
       | Some (source_session, source_tab), Some (target_session, target_tab) =>
         if negb (source_session =? target_session)%nat then (ws, ids)
         else if (source_tab =? target_tab)%nat then move_leaf ws source target axis before ids
         else
           let '(fresh_split, ids) := mint_split ids in
           (editing_session ws source_session (fun s =>
              destination ← tabs s !! target_tab;
              grown ← inserting_beside (root destination) source target axis before fresh_split;
              if (MAX_DEPTH <? depth grown)%nat then None
              else land s source source_tab (tab_id destination) grown), ids)
       | _, _ => (ws, ids)
       end.

Definition move_leaf_to_tab_root_edge (ws : TreeWorkspace) (source destination : RawUuid) (edge : PaneDropEdge) (ids : I)
    : TreeWorkspace * I :=
  match locate ws source with
  | None => (ws, ids)
  | Some (i, source_tab) =>
    match s ← sessions ws !! i; tab_position destination (tabs s) with
    | None => (ws, ids)
    | Some target_index =>
      if (source_tab =? target_index)%nat then move_leaf_to_root_edge ws source edge ids
      else
        let '(fresh_split, ids) := mint_split ids in
        (editing_session ws i (fun s =>
           target_tab ← tabs s !! target_index;
           let grown := inserting_at_root (root target_tab) source (edge_axis edge) (inserts_before edge) fresh_split in
           if (MAX_DEPTH <? depth grown)%nat then None
           else land s source source_tab (tab_id target_tab) grown), ids)
    end
  end.

(** *** Re-tile *)

Inductive TileLayout : Type := EvenHorizontal | EvenVertical | MainVertical | MainHorizontal | Tiled.
Definition ALL_LAYOUTS : list TileLayout := [EvenHorizontal; EvenVertical; MainVertical; MainHorizontal; Tiled].
Definition layout_index (l : TileLayout) : Z :=
  match l with EvenHorizontal => 0 | EvenVertical => 1 | MainVertical => 2 | MainHorizontal => 3 | Tiled => 4 end.
Definition layout_from_index (index : Z) : option TileLayout := ALL_LAYOUTS !! Z.to_nat index.

Definition even_child (n : SplitNode) : Child := mkChild (Flex one) n.

Definition flat_split (axis : SplitAxis) (leaves : list RawUuid) (ids : I) : SplitNode * I :=
  match leaves with
  | [only] => (Leaf only, ids)
  | _ => let '(id, ids) := mint_split ids in (Split id axis (map (fun p => even_child (Leaf p)) leaves), ids)
  end.

Definition main_split (outer inner : SplitAxis) (leaves : list RawUuid) (ids : I) : SplitNode * I :=
  match leaves with
  | [] => flat_split outer leaves ids
  | first :: rest =>
    let '(companion, ids) := flat_split inner rest ids in
    let '(id, ids) := mint_split ids in
    (Split id outer [even_child (Leaf first); even_child companion], ids)
  end.

(** [while step * step < count { step += 1 }] and [while rows * cols < count { rows += 1 }]: at most
    [count] rounds, the fuel. *)
Fixpoint grow_cols (fuel count cols : nat) : nat :=
  match fuel with O => cols | S fuel => if (cols * cols <? count)%nat then grow_cols fuel count (S cols) else cols end.
Fixpoint grow_rows (fuel count cols rows : nat) : nat :=
  match fuel with O => rows | S fuel => if (rows * cols <? count)%nat then grow_rows fuel count cols (S rows) else rows end.

Definition row_widths (count rows : nat) : list nat :=
  foldl (fun widths index => alter S (index mod rows)%nat widths) (replicate rows 0%nat) (seq 0 count).

Fixpoint tile_rows (widths : list nat) (start : nat) (leaves : list RawUuid) (ids : I) : list SplitNode * I :=
  match widths with
  | [] => ([], ids)
  | width :: widths =>
    let e := Nat.min (start + width) (length leaves) in
    let '(here, ids) :=
      if (start <=? e)%nat
      then let '(n, ids) := flat_split Horizontal (take (e - start) (drop start leaves)) ids in ([n], ids)
      else ([], ids) in
    let '(rest, ids) := tile_rows widths e leaves ids in
    (here ++ rest, ids)
  end.

Definition tiled (leaves : list RawUuid) (ids : I) : SplitNode * I :=
  let count := length leaves in
  let cols := grow_cols count count 1 in
  let rows := grow_rows count count cols 1 in
  let '(row_nodes, ids) := tile_rows (row_widths count rows) 0 leaves ids in
  match row_nodes with
  | [only] => (only, ids)
  | _ => let '(id, ids) := mint_split ids in (Split id Vertical (map even_child row_nodes), ids)
  end.

Definition rebuild (layout : TileLayout) (leaves : list RawUuid) (ids : I) : SplitNode * I :=
  match layout with
  | EvenHorizontal => flat_split Horizontal leaves ids
  | EvenVertical => flat_split Vertical leaves ids
  | MainVertical => main_split Horizontal Vertical leaves ids
  | MainHorizontal => main_split Vertical Horizontal leaves ids
  | Tiled => tiled leaves ids
  end.

(** *** Focus *)

Definition focus_pane (ws : TreeWorkspace) (target : RawUuid) : TreeWorkspace :=
  match locate ws target with
  | None => ws
  | Some (i, j) =>
    match s ← sessions ws !! i; t ← tabs s !! j; Some (s, t) with
    | None => ws
    | Some (s, t) =>
      let zoomed := if decide (zoomed_pane t = Some target) then zoomed_pane t else None in
      with_active_session
        (put_session ws i (put_tab (with_index s j) j (with_panes t (root t) (Some target) zoomed)))
        (Some (session_id s))
    end
  end.

(** *** Tabs *)

Definition new_tab (ws : TreeWorkspace) (spec : PaneSpec) (position : NewTabPosition) (tab pane : RawUuid) : TreeWorkspace :=
  match active_session_index ws with
  | None => ws
  | Some i =>
    editing_session ws i (fun s =>
      let index := new_tab_index s position in
      Some (with_specs (with_index (with_tabs s (insert_at index (tab_new tab (Leaf pane)) (tabs s))) index)
              (<[pane := spec]> (specs s))))
  end.

Definition adopt_specs (m : Specs) (into : Specs) (l : list RawUuid) : Specs :=
  foldl (fun into id => match m !! id with Some spec => <[id := spec]> into | None => into end) into l.
Definition insert_tab (ws : TreeWorkspace) (tab : Tab) (m : Specs) (position : NewTabPosition) : TreeWorkspace :=
  match active_session_index ws with
  | None => ws
  | Some i =>
    normalizing_specs
      (editing_session ws i (fun s =>
         let index := new_tab_index s position in
         Some (with_index (with_tabs (with_specs s (adopt_specs m (specs s) (tab_panes tab)))
                             (insert_at index tab (tabs s))) index)))
  end.

Definition close_tab (ws : TreeWorkspace) (tab : RawUuid) (successor : option RawUuid) (ids : I) : TreeWorkspace * I :=
  match locate_tab ws tab with
  | None => (ws, ids)
  | Some (i, j) =>
    match s ← sessions ws !! i; t ← tabs s !! j; Some (s, t) with
    | None => (ws, ids)
    | Some (s, closing) =>
      let s := with_specs s (foldl (fun m id => delete id m) (specs s) (tab_panes closing)) in
      let next := put_session ws i (with_tabs s (remove_at j (tabs s))) in
      let '(next, ids) := cascade_after_tab_removal next i j successor ids in
      normalized next ids
    end
  end.

Definition rename_tab (ws : TreeWorkspace) (tab : RawUuid) (title : list byte) : TreeWorkspace :=
  match locate_tab ws tab with
  | None => ws
  | Some (i, j) =>
    editing_tab ws i j (fun t => Some (mkTab (tab_id t) title (root t) (active_pane t) (zoomed_pane t)))
  end.

(** *** Sessions *)

Definition insert_session (ws : TreeWorkspace) (s : Session) (make_active : bool) : TreeWorkspace :=
  let next := with_sessions ws (sessions ws ++ [s]) in
  if make_active then with_active_session next (Some (session_id s)) else next.

Definition close_session (ws : TreeWorkspace) (session : RawUuid) (ids : I) : TreeWorkspace * I :=
  match session_position session ws with
  | None => (ws, ids)
  | Some i =>
    let next := with_sessions ws (remove_at i (sessions ws)) in
    match sessions next with
    | [] => mint_default ids
    | _ =>
      let next :=
        if decide (active_session_id next = Some session)
        then with_active_session next (session_id <$> (sessions next !! Nat.min i (pred (length (sessions next)))))
        else next in
      normalized next ids
    end
  end.

Definition select_session (ws : TreeWorkspace) (session : RawUuid) : TreeWorkspace :=
  if existsb (fun s => bool_decide (session_id s = session)) (sessions ws) then with_active_session ws (Some session) else ws.

Definition rename_session (ws : TreeWorkspace) (session : RawUuid) (name : list byte) : TreeWorkspace :=
  match session_position session ws with
  | None => ws
  | Some i => editing_session ws i (fun s => Some (with_name s name))
  end.

(** *** The side table *)

Definition detached_position (ws : TreeWorkspace) (target : RawUuid) : option nat :=
  fst <$> list_find (fun s => session_is_detached target s = true) (sessions ws).
Definition updating_spec (ws : TreeWorkspace) (target : RawUuid) (transform : PaneSpec -> PaneSpec) : TreeWorkspace :=
  match (match locate ws target with Some (i, _) => Some i | None => detached_position ws target end) with
  | None => ws
  | Some i =>
    editing_session ws i (fun s =>
      spec ← specs s !! target; Some (with_specs s (<[target := transform spec]> (specs s))))
  end.

(** *** Detach and reattach *)

Definition detach_pane (ws : TreeWorkspace) (target : RawUuid) (ids : I) : TreeWorkspace * I :=
  match locate ws target with
  | None => (ws, ids)
  | Some (i, j) =>
    match s ← sessions ws !! i; t ← tabs s !! j; Some (s, tab_id t) with
    | None => (ws, ids)
    | Some (s, origin) =>
      let s := prune_leaf_from_tab s target j in
      let s := with_detached s (detached s ++ [mkDetached target (Some origin)]) in
      let s := with_index s (Nat.min (active_tab_index s) (pred (length (tabs s)))) in
      normalized (put_session ws i s) ids
    end
  end.

Definition detached_owner (ws : TreeWorkspace) (target : RawUuid) : option nat :=
  index ← detached_position ws target;
  let video :=
    match s ← sessions ws !! index; session_spec_for target s with Some spec => is_video (spec_kind spec) | None => false end in
  if video then None else Some index.

(** The dock at the origin tab, when there is one and it is not too deep. *)
Definition redock (s : Session) (origin : option RawUuid) (target fresh_split : RawUuid) : option Session :=
  origin ← origin;
  index ← tab_position origin (tabs s);
  existing ← tabs s !! index;
  let grown := inserting_at_root (root existing) target Horizontal false fresh_split in
  if (depth grown <=? MAX_DEPTH)%nat
  then Some (with_index (put_tab s index (regrown existing grown target)) index)
  else None.

Definition reattach_pane (ws : TreeWorkspace) (target tab : RawUuid) (ids : I) : TreeWorkspace * I :=
  match detached_owner ws target with
  | None => (ws, ids)
  | Some i =>
    let '(fresh_split, ids) := mint_split ids in
    match sessions ws !! i with
    | None => (ws, ids)
    | Some s =>
      let origin := '(_, e) ← list_find (fun e => pane e = target) (detached s); origin_tab e in
      let s := with_detached s (filter (fun e => pane e <> target) (detached s)) in
      let s' :=
        match redock s origin target fresh_split with
        | Some docked => docked
        | None =>
          let grown := tabs s ++ [tab_new tab (Leaf target)] in
          with_index (with_tabs s grown) (pred (length grown))
        end in
      (with_active_session (put_session ws i s') (Some (session_id s)), ids)
    end
  end.

Definition mint_detached_pane (ws : TreeWorkspace) (spec : PaneSpec) (pane : RawUuid) : TreeWorkspace :=
  match active_session_index ws with
  | None => ws
  | Some i =>
    editing_session ws i (fun s =>
      origin ← (match tabs s !! active_tab_index s with Some t => Some t | None => head (tabs s) end);
      Some (with_detached (with_specs s (<[pane := spec]> (specs s)))
              (detached s ++ [mkDetached pane (Some (tab_id origin))])))
  end.

Definition close_detached_pane (ws : TreeWorkspace) (target : RawUuid) : TreeWorkspace :=
  match detached_position ws target with
  | None => ws
  | Some i =>
    editing_session ws i (fun s =>
      Some (with_specs (with_detached s (filter (fun e => pane e <> target) (detached s))) (delete target (specs s))))
  end.

Definition break_pane_to_tab (ws : TreeWorkspace) (target tab : RawUuid) : TreeWorkspace :=
  match locate ws target with
  | None => ws
  | Some (i, j) =>
    editing_session ws i (fun s =>
      source ← tabs s !! j;
      if (leaf_count (root source) <=? 1)%nat then None
      else
        pruned ← removing target (root source);
        let s := put_tab s j (with_panes source pruned (refocused target source (first_leaf_id pruned)) (clear_zoom target source)) in
        let grown := tabs s ++ [tab_new tab (Leaf target)] in
        Some (with_index (with_tabs s grown) (pred (length grown))))
  end.

(** *** The launch restore *)

Fixpoint reattach_all (ws : TreeWorkspace) (l : list RawUuid) (ids : I) : TreeWorkspace * I :=
  match l with
  | [] => (ws, ids)
  | pane :: l =>
    let '(tab, ids) := mint_tab ids in
    let '(ws, ids) := reattach_pane ws pane tab ids in
    reattach_all ws l ids
  end.
Definition restore_index (ws : TreeWorkspace) (entry : RawUuid * nat) : TreeWorkspace :=
  match list_find (fun s => session_id s = entry.1) (sessions ws) with
  | Some (i, s) => if (entry.2 <? length (tabs s))%nat then put_session ws i (with_index s entry.2) else ws
  | None => ws
  end.

Definition redocking_detached_panes (ws : TreeWorkspace) (ids : I) : TreeWorkspace * I :=
  let next := dropping_video_panes ws in
  if forallb (fun s => match detached s with [] => true | _ => false end) (sessions next) then normalized next ids
  else
    let active_session := active_session_id next in
    let active_tabs := map (fun s => (session_id s, active_tab_index s)) (sessions next) in
    let '(next, ids) := reattach_all next (detached_pane_ids next) ids in
    let next := with_active_session next active_session in
    normalized (foldl restore_index next active_tabs) ids.

Inductive RepairPass : Type := PassSpecs | PassActive | PassNormalized | PassLaunchRestore.
Definition ALL_PASSES : list RepairPass := [PassSpecs; PassActive; PassNormalized; PassLaunchRestore].
Definition ffi_byte (p : RepairPass) : byte :=
  byte_of_Z match p with PassSpecs => 0 | PassActive => 1 | PassNormalized => 2 | PassLaunchRestore => 3 end.
Definition pass_from_byte (b : byte) : option RepairPass := snd <$> list_find (fun p => ffi_byte p = b) ALL_PASSES.
Definition saturating_mul_2 (n : Z) : Z := Z.min (n * 2) usize_max.
Definition minted_ids (sessions detached : Z) : Z :=
  saturating_add_usize (saturating_add_usize 3 (saturating_mul_2 sessions)) (saturating_mul_2 detached).

Definition run_pass (ws : TreeWorkspace) (pass : RepairPass) (ids : I) : TreeWorkspace * I :=
  match pass with
  | PassSpecs => (normalizing_specs ws, ids)
  | PassActive => normalizing_active ws ids
  | PassNormalized => normalized ws ids
  | PassLaunchRestore => redocking_detached_panes ws ids
  end.
End Ops.
