(* ===== verification/WorkspaceLaws.v ===== *)
(** * WorkspaceLaws: a well-formed workspace, and the repair that makes one

    A workspace is well formed when every session has a tab, every tab a tree whose splits have two
    children at least and a focus and a zoom inside it, every side table has the panes of its session for
    keys, no identity of a session, a tab or a pane occurs twice, and the selection names a session.  The
    repair of a loaded file establishes the part of it the file can lack and leaves a well-formed workspace
    alone. *)

From stdpp Require Import gmap sorting.
From S2P Require Import Prelude Bytes BTree Message Document Cells Float Tree TreeLaws Layout Identity Workspace.

(** ** Sources whose identities are new *)

Class FreshSource (I : Type) `{IdSource I} : Type := {
  fresh : I -> gset RawUuid -> Prop;
  fresh_pane ids used : fresh ids used -> (mint_pane ids).1 ∉ used /\ fresh (mint_pane ids).2 ({[(mint_pane ids).1]} ∪ used);
  fresh_tab ids used : fresh ids used -> (mint_tab ids).1 ∉ used /\ fresh (mint_tab ids).2 ({[(mint_tab ids).1]} ∪ used);
  fresh_session ids used :
    fresh ids used -> (mint_session ids).1 ∉ used /\ fresh (mint_session ids).2 ({[(mint_session ids).1]} ∪ used);
  fresh_split ids used : fresh ids used -> fresh (mint_split ids).2 used;
  fresh_mono ids used used' : used' ⊆ used -> fresh ids used -> fresh ids used';
}.

(** ** Lists of lists *)

Section Concat.
Context {A B : Type} (f : A -> list B).
Notation all l := (concat (map f l)).

Lemma concat_insert l i a a' : l !! i = Some a -> f a ++ all (<[i := a']> l) ≡ₚ f a' ++ all l.
Proof.
  revert i. induction l as [|x l IH]; intros [|i] Hi; cbn in *; [done|done|injection Hi as ->|].
  - by rewrite !(assoc_L (++)), (Permutation_app_comm (f a)).
  - rewrite (Permutation_app_swap_app (f a)), (IH _ Hi). by rewrite Permutation_app_swap_app.
Qed.
Lemma concat_remove l i a : l !! i = Some a -> f a ++ all (take i l ++ drop (S i) l) ≡ₚ all l.
Proof.
  revert i. induction l as [|x l IH]; intros [|i] Hi; cbn in *; [done|done|by injection Hi as ->|].
  rewrite (Permutation_app_swap_app (f a)). by rewrite (IH _ Hi).
Qed.
Lemma concat_insert_at l i a : all (take i l ++ a :: drop i l) ≡ₚ f a ++ all l.
Proof.
  rewrite map_app, concat_app. cbn. rewrite Permutation_app_swap_app. f_equiv.
  by rewrite <- concat_app, <- map_app, take_drop.
Qed.
Lemma concat_snoc l a : all (l ++ [a]) ≡ₚ f a ++ all l.
Proof. rewrite map_app, concat_app. cbn. rewrite app_nil_r. apply Permutation_app_comm. Qed.

Lemma elem_of_all x l : x ∈ all l <-> exists a, a ∈ l /\ x ∈ f a.
Proof.
  rewrite list_elem_of_In, in_concat. split.
  - intros (k & Hk & Hx). apply in_map_iff in Hk as (a & <- & Ha). exists a. by rewrite !list_elem_of_In.
  - intros (a & Ha & Hx). exists (f a). split; [|by apply list_elem_of_In].
    apply in_map. by apply list_elem_of_In.
Qed.
Lemma NoDup_all_at l i a : NoDup (all l) -> l !! i = Some a -> NoDup (f a).
Proof. intros Hnd Hi. rewrite <- (concat_remove _ _ _ Hi) in Hnd. by apply NoDup_app in Hnd as [? _]. Qed.

Lemma NoDup_edit l i a a' :
  NoDup (all l) -> l !! i = Some a -> NoDup (f a') -> (forall x, x ∈ f a' -> x ∈ f a \/ x ∉ all l) -> NoDup (all (<[i := a']> l)).
Proof.
  intros Hnd Hi Ha' Hnew. pose proof (concat_remove _ _ _ Hi) as E. rewrite insert_take_drop by by eapply lookup_lt_Some.
  assert (E' : all (take i l ++ a' :: drop (S i) l) ≡ₚ f a' ++ all (take i l ++ drop (S i) l)).
  { rewrite !map_app, !concat_app. cbn. by rewrite Permutation_app_swap_app. }
  rewrite E'. rewrite <- E in Hnd. apply NoDup_app in Hnd as (_ & Hdis & Hrest). apply NoDup_app.
  split; [done|]. split; [|done]. intros x Hx Hr. destruct (Hnew x Hx) as [H|H]; [by apply (Hdis x)|].
  apply H. rewrite <- E. apply elem_of_app. by right.
Qed.

(** Two places sharing an element are one place. *)
Lemma all_same_place l i j a b x :
  NoDup (all l) -> l !! i = Some a -> l !! j = Some b -> x ∈ f a -> x ∈ f b -> i = j.
Proof.
  intros Hnd Hi Hj Ha Hb. destruct (decide (i = j)) as [|Hne]; [done|]. exfalso.
  rewrite <- (concat_remove _ _ _ Hi) in Hnd. apply NoDup_app in Hnd as (_ & Hdis & _). apply (Hdis x Ha), elem_of_all.
  exists b. split; [|done]. apply elem_of_app. destruct (Nat.lt_ge_cases j i).
  - left. apply list_elem_of_lookup. exists j. by rewrite lookup_take_lt.
  - right. apply list_elem_of_lookup. exists (j - S i)%nat. rewrite lookup_drop. by replace (S i + (j - S i))%nat with j by lia.
Qed.
End Concat.

Lemma filter_ne_perm (p : RawUuid) l : NoDup l -> p ∈ l -> l ≡ₚ p :: filter (.≠ p) l.
Proof.
  intros Hnd Hp. apply NoDup_Permutation; [done| |].
  - apply NoDup_cons. split; [|by apply NoDup_filter]. rewrite list_elem_of_filter. naive_solver.
  - intros x. rewrite elem_of_cons, list_elem_of_filter. destruct (decide (x = p)); naive_solver.
Qed.

(** ** Well-formed *)

Definition tids (s : Session) : list RawUuid := map tab_id (tabs s).
Definition sinv (s : Session) : list RawUuid := session_panes s ++ map pane (detached s).
#[global] Arguments sinv : simpl never.
#[global] Arguments tids : simpl never.
Definition all_tids (ws : TreeWorkspace) : list RawUuid := concat (map tids (sessions ws)).
Definition inventory (ws : TreeWorkspace) : list RawUuid := concat (map sinv (sessions ws)).

Definition tab_ok (t : Tab) : Prop :=
  arity_ok (root t) = true /\ (exists a, active_pane t = Some a /\ a ∈ leaves (root t)) /\
  (forall z, zoomed_pane t = Some z -> z ∈ leaves (root t)).

(** What every operation hands to the repair: the table and the trees are right, the selections may not be. *)
Definition pre_ok (s : Session) : Prop :=
  Forall (fun t => arity_ok (root t) = true) (tabs s) /\ dom (specs s) = list_to_set (sinv s).
Definition session_ok (s : Session) : Prop :=
  tabs s <> [] /\ (active_tab_index s < length (tabs s))%nat /\ Forall tab_ok (tabs s) /\ dom (specs s) = list_to_set (sinv s).

Definition unique (ws : TreeWorkspace) : Prop :=
  NoDup (map session_id (sessions ws)) /\ NoDup (all_tids ws) /\ NoDup (inventory ws).
Definition ws_pre (ws : TreeWorkspace) : Prop := sessions ws <> [] /\ Forall pre_ok (sessions ws) /\ unique ws.
Definition ws_wf (ws : TreeWorkspace) : Prop :=
  sessions ws <> [] /\ Forall session_ok (sessions ws) /\ unique ws /\
  exists id, active_session_id ws = Some id /\ id ∈ map session_id (sessions ws).

Definition used (ws : TreeWorkspace) : gset RawUuid :=
  list_to_set (map session_id (sessions ws)) ∪ list_to_set (all_tids ws) ∪ list_to_set (inventory ws).

Lemma session_panes_leaves s : session_panes s = concat (map (fun t => leaves (root t)) (tabs s)).
Proof. unfold session_panes. f_equal. apply map_ext. intros t. apply all_pane_ids_leaves. Qed.
Lemma sinv_leaves s : sinv s = concat (map (fun t => leaves (root t)) (tabs s)) ++ map pane (detached s).
Proof. unfold sinv. by rewrite session_panes_leaves. Qed.
Lemma expected_specs_sinv s : expected_specs s = list_to_set (sinv s).
Proof. unfold expected_specs, leaf_id_set, detached_id_set, sinv. by rewrite list_to_set_app_L. Qed.
Lemma session_ok_pre s : session_ok s -> pre_ok s.
Proof. intros (_ & _ & Ht & Hd). split; [|done]. eapply Forall_impl; [done|]. by intros t [? _]. Qed.
Lemma ws_wf_pre ws : ws_wf ws -> ws_pre ws.
Proof. intros (Hn & Hs & Hu & _). split; [done|]. split; [|done]. eapply Forall_impl; [done|]. apply session_ok_pre. Qed.

Lemma invariant_holds_spec ws :
  invariant_holds ws = true <-> Forall (fun s => dom (specs s) = list_to_set (sinv s)) (sessions ws).
Proof.
  unfold invariant_holds. rewrite forallb_forall, Forall_forall. setoid_rewrite <- list_elem_of_In.
  split; intros H s Hs; specialize (H s Hs); rewrite bool_decide_eq_true, ?expected_specs_sinv in *; done.
Qed.


(** ** The side table *)

Lemma retain_detached_spec leaves m seen l :
  let l' := retain_detached leaves m seen l in
  (forall e, e ∈ l' -> e ∈ l /\ pane e ∉ leaves /\ is_Some (m !! pane e) /\ pane e ∉ seen) /\ NoDup (map pane l') /\
  ((forall e, e ∈ l -> pane e ∉ leaves /\ is_Some (m !! pane e) /\ pane e ∉ seen) -> NoDup (map pane l) -> l' = l).
Proof.
  revert seen. induction l as [|e l IH]; intros seen; cbn [retain_detached].
  { split; [by intros e ?%elem_of_nil|]. split; [constructor|done]. }
  destruct (decide _) as [(H1 & H2 & H3)|Hno].
  - destruct (IH ({[pane e]} ∪ seen)) as (Ha & Hb & Hc). split; [|split].
    + intros x [->|Hx]%elem_of_cons; [split; [left|done]|]. destruct (Ha x Hx) as (? & ? & ? & ?). split; [by right|]. set_solver.
    + cbn. apply NoDup_cons. split; [|done]. intros (x & E & Hx)%list_elem_of_fmap. destruct (Ha x Hx) as (_ & _ & _ & ?). set_solver.
    + cbn. intros Hall [Hne Hnd]%NoDup_cons. f_equal. apply Hc; [|done]. intros x Hx.
      destruct (Hall x ltac:(by right)) as (? & ? & ?). split; [done|]. split; [done|].
      intros [E%elem_of_singleton|?]%elem_of_union; [|done]. apply Hne. rewrite <- E. by apply (list_elem_of_fmap_2 pane).
  - destruct (IH seen) as (Ha & Hb & _). split; [|split; [done|]].
    + intros x Hx. destruct (Ha x Hx) as (? & ?). split; [by right|done].
    + intros Hall. destruct Hno. apply Hall. left.
Qed.

Lemma repair_specs_dom s : dom (specs (repair_specs s)) = list_to_set (sinv (repair_specs s)).
Proof.
  unfold repair_specs, sinv, leaf_id_set, detached_id_set. cbn. set (leaves := list_to_set (session_panes s)).
  destruct (retain_detached_spec leaves (specs s) ∅ (detached s)) as (Ha & _ & _). cbn zeta in Ha.
  set (l' := retain_detached leaves (specs s) ∅ (detached s)) in *. change (session_panes _) with (session_panes s).
  rewrite dom_union_L, dom_gset_to_gmap, list_to_set_app_L. fold leaves.
  assert (Hd : dom (filter (fun p => p.1 ∈ leaves ∪ list_to_set (map pane l')) (specs s)) = (leaves ∪ list_to_set (map pane l')) ∩ dom (specs s)).
  { apply dom_filter_L. intros id. rewrite elem_of_intersection, elem_of_dom. unfold is_Some. cbn. naive_solver. }
  rewrite Hd. assert (Hsub : list_to_set (map pane l') ⊆ dom (specs s)).
  { intros id Hid. apply elem_of_list_to_set, list_elem_of_fmap in Hid as (e & -> & He). apply elem_of_dom, (Ha e He). }
  set_solver.
Qed.

Lemma repair_specs_arity s :
  Forall (fun t => arity_ok (root t) = true) (tabs s) -> pre_ok (repair_specs s).
Proof. intros H. split; [done|apply repair_specs_dom]. Qed.

Lemma repair_specs_id s : dom (specs s) = list_to_set (sinv s) -> NoDup (sinv s) -> repair_specs s = s.
Proof.
  intros Hd Hnd. unfold repair_specs. unfold sinv in Hnd. apply NoDup_app in Hnd as (_ & Hdis & Hnd).
  destruct (retain_detached_spec (leaf_id_set s) (specs s) ∅ (detached s)) as (_ & _ & Hk). cbn zeta in Hk.
  rewrite Hk; [|intros e He|done].
  - destruct s as [id nm ts ix m det]. unfold with_specs, with_detached. cbn in *. f_equal. apply map_eq. intros p.
    rewrite lookup_union. unfold leaf_id_set, detached_id_set, session_panes, sinv, session_panes in *. cbn in *.
    destruct (m !! p) as [spec|] eqn:E.
    + rewrite (map_lookup_filter_Some_2 _ _ _ spec); [by rewrite union_Some_l|done|]. cbn.
      assert (Hp : p ∈ dom m) by by apply elem_of_dom. rewrite Hd in Hp. set_solver.
    + rewrite map_lookup_filter_None_2 by by left. rewrite (left_id_L None (∪)). apply lookup_gset_to_gmap_None.
      intros Hp. apply not_elem_of_dom in E. apply E. rewrite Hd. set_solver.
  - assert (Hpe : pane e ∈ map pane (detached s)) by by apply (list_elem_of_fmap_2 pane).
    split; [|split; [|set_solver]].
    + intros Hl%elem_of_list_to_set. by apply (Hdis (pane e)).
    + apply elem_of_dom. rewrite Hd. unfold sinv. set_solver.
Qed.

Lemma sinv_at ws s : unique ws -> s ∈ sessions ws -> NoDup (sinv s) /\ NoDup (tids s).
Proof.
  intros (_ & Ht & Hs) [i Hi]%list_elem_of_lookup. split; by eapply NoDup_all_at.
Qed.
Lemma normalizing_specs_id ws :
  Forall (fun s => dom (specs s) = list_to_set (sinv s)) (sessions ws) -> unique ws -> normalizing_specs ws = ws.
Proof.
  intros Hd Hu. destruct ws as [v l a]. unfold normalizing_specs, with_sessions. cbn in *. f_equal.
  rewrite <- (map_id l) at 2. apply map_ext_Forall. rewrite Forall_forall in *. intros s Hs.
  apply repair_specs_id; [by apply Hd|]. by apply (sinv_at (mkWorkspace v l a)).
Qed.

(** ** The selections *)

Lemma in_tab_spec t p : in_tab t (Some p) = true <-> p ∈ leaves (root t).
Proof. unfold in_tab, tab_panes. by rewrite all_pane_ids_leaves, bool_decide_eq_true, elem_of_list_to_set. Qed.

Lemma repair_tab_ok t : arity_ok (root t) = true -> tab_ok (repair_tab t).
Proof.
  intros Ha. unfold repair_tab. split; [done|]. cbn. split.
  - destruct (in_tab t (active_pane t)) eqn:E.
    + destruct (active_pane t) as [a|]; [|done]. exists a. split; [done|]. by apply in_tab_spec.
    + destruct (first_leaf_head _ Ha) as (a & -> & Hh). exists a. split; [done|]. by apply head_Some_elem_of.
  - intros z Hz. destruct (in_tab t (zoomed_pane t)) eqn:E; [|done]. rewrite Hz in E. by apply in_tab_spec.
Qed.
Lemma repair_tab_id t : tab_ok t -> repair_tab t = t.
Proof.
  intros (_ & (a & Ea & Ha) & Hz). destruct t as [id ti r ac zo]. unfold repair_tab. cbn in *. subst ac.
  change (mkTab id ti r (Some a) zo) with (mkTab id ti r (Some a) zo).
  rewrite (proj2 (in_tab_spec (mkTab id ti r (Some a) zo) a)) by done. f_equal. destruct zo as [z|]; [|done].
  by rewrite (proj2 (in_tab_spec (mkTab id ti r (Some a) (Some z)) z)) by by apply Hz.
Qed.

Section Selections.
Context {I : Type} `{IdSource I}.

Lemma repair_session_ok s ids : pre_ok s -> session_ok (repair_session s ids).1 /\ session_id (repair_session s ids).1 = session_id s.
Proof.
  intros [Ha Hd]. unfold repair_session. destruct (tabs s) as [|t0 ts] eqn:Et.
  - destruct (mint_tab ids) as [tab ids1]. destruct (mint_pane ids1) as [p ids2].
    set (s1 := with_tabs (with_specs s (<[p := seeded_spec]> (specs s))) [tab_new tab (Leaf p)]).
    assert (Hgo : forall s2, tabs s2 = tabs s1 -> session_id s2 = session_id s -> specs s2 = specs s1 -> detached s2 = detached s1 ->
      (active_tab_index s2 < 1)%nat ->
      session_ok (with_tabs s2 (map repair_tab (tabs s2))) /\ session_id (with_tabs s2 (map repair_tab (tabs s2))) = session_id s).
    { intros s2 E1 E2 E3 E4 Hx. split; [|done]. unfold session_ok. cbn. rewrite E1, E3. cbn. split; [done|]. split; [done|].
      split; [constructor; [by apply repair_tab_ok|constructor]|]. rewrite dom_insert_L, Hd, !sinv_leaves, Et. cbn.
      rewrite ?E1, ?E4. cbn. set_solver. }
    cbn [fst snd]. change (length (tabs s1)) with 1%nat. destruct (Nat.leb_spec 1 (active_tab_index s1)); apply Hgo; done || (cbn; lia).
  - assert (Hlen : (0 < length (tabs s))%nat) by (rewrite Et; cbn; lia). rewrite <- Et in *. clear Et t0 ts.
    assert (Hgo : forall s1, tabs s1 = tabs s -> session_id s1 = session_id s -> specs s1 = specs s -> detached s1 = detached s ->
      (active_tab_index s1 < length (tabs s))%nat ->
      session_ok (with_tabs s1 (map repair_tab (tabs s1))) /\ session_id s1 = session_id s).
    { intros s1 E1 E2 E3 E4 Hx. split; [|done]. unfold session_ok. cbn. rewrite E1, E3, length_map.
      split; [by destruct (tabs s); cbn in *; [lia|]|]. split; [done|]. split.
      - apply Forall_map. eapply Forall_impl; [done|]. intros t. apply repair_tab_ok.
      - rewrite Hd, !sinv_leaves. cbn. by rewrite ?E1, ?E4, map_map. }
    cbn. destruct (Nat.leb_spec (length (tabs s)) (active_tab_index s)); by apply Hgo.
Qed.

(** A session with a tab keeps its panes and its tabs, mints nothing, and stays itself if it was right. *)
Lemma repair_session_keeps s ids :
  tabs s <> [] ->
  sinv (repair_session s ids).1 = sinv s /\ tids (repair_session s ids).1 = tids s /\ (repair_session s ids).2 = ids /\
  (session_ok s -> (repair_session s ids).1 = s).
Proof.
  intros Hne. unfold repair_session. destruct (tabs s) as [|t0 ts] eqn:Et; [done|]. clear Hne. cbn.
  assert (Hr : forall s1, tabs s1 = tabs s -> detached s1 = detached s ->
    sinv (with_tabs s1 (map repair_tab (tabs s1))) = sinv s /\ tids (with_tabs s1 (map repair_tab (tabs s1))) = tids s).
  { intros s1 E1 E2. rewrite !sinv_leaves. unfold tids. cbn. by rewrite E1, E2, !map_map. }
  destruct (Nat.leb_spec (length (tabs s)) (active_tab_index s)) as [Hge|Hlt].
  - destruct (Hr (with_index s 0)) as [-> ->]; [done..|]. split; [done|]. split; [done|]. split; [done|].
    intros (_ & Hx & _). lia.
  - destruct (Hr s) as [-> ->]; [done..|]. split; [done|]. split; [done|]. split; [done|]. intros (_ & _ & Ht & _).
    destruct s as [id nm l ix m det]. unfold with_tabs. cbn in *. f_equal. rewrite <- (map_id l) at 2.
    apply map_ext_Forall. eapply Forall_impl; [done|]. intros t. apply repair_tab_id.
Qed.

Lemma repair_sessions_ok l ids :
  Forall pre_ok l ->
  Forall session_ok (repair_sessions l ids).1 /\ map session_id (repair_sessions l ids).1 = map session_id l.
Proof.
  intros Hl. revert ids. induction Hl as [|s l Hs _ IH]; intros ids; cbn; [done|].
  pose proof (repair_session_ok s ids Hs) as [H1 H2]. destruct (repair_session s ids) as [s' ids1]. cbn in *.
  destruct (IH ids1) as [H3 H4]. destruct (repair_sessions l ids1) as [l' ids2]. cbn in *. rewrite H2, H4. auto.
Qed.

(** The selection repair of a workspace whose tables and trees are right. *)
Lemma normalizing_active_ok ws ids :
  Forall pre_ok (sessions ws) ->
  let ws' := (normalizing_active ws ids).1 in
  sessions ws' <> [] /\ Forall session_ok (sessions ws') /\
  (exists id, active_session_id ws' = Some id /\ id ∈ map session_id (sessions ws')).
Proof.
  intros Hs. unfold normalizing_active. destruct (sessions ws) as [|s0 l0] eqn:El.
  - unfold mint_default. destruct (mint_session ids) as [a i1]. destruct (mint_tab i1) as [b i2]. destruct (mint_pane i2) as [c i3].
    cbn. split; [done|]. split; [|exists a; split; [done|left]]. constructor; [|constructor]. repeat split; cbn; [done|lia| |].
    + constructor; [|constructor]. split; [done|]. split; [exists c; split; [done|left]|done].
    + rewrite sinv_leaves. cbn. rewrite dom_singleton_L. set_solver.
  - rewrite <- El. destruct (repair_sessions_ok (sessions ws) ids) as [H1 H2]; [by rewrite El|].
    assert (Hlen : length (repair_sessions (sessions ws) ids).1 = S (length l0)).
    { rewrite <- (length_map session_id), H2, El. cbn. by rewrite length_map. }
    destruct (repair_sessions (sessions ws) ids) as [l' ids']. cbn in *. destruct l' as [|s' l']; [done|].
    split; [done|]. split; [done|]. destruct (active_session_id ws) as [id|]; [|exists (session_id s'); split; [done|left]].
    destruct (existsb _ (s' :: l')) eqn:E; [|exists (session_id s'); split; [done|left]].
    exists id. split; [done|]. apply existsb_exists in E as (x & Hx & Hid%bool_decide_eq_true).
    rewrite <- Hid. apply (list_elem_of_fmap_2 session_id). by apply list_elem_of_In.
Qed.
End Selections.

(** ** Uniqueness through the repair *)

Section Fresh.
Context {I : Type} `{FreshSource I}.

(** What the repair of some sessions adds: tabs and panes that were not there. *)
Definition added (U : gset RawUuid) (new old minted : list RawUuid) : Prop :=
  new ≡ₚ minted ++ old /\ NoDup minted /\ forall x, x ∈ minted -> x ∉ U.

Lemma added_nil U l : added U l l [].
Proof. split; [done|]. split; [constructor|set_solver]. Qed.

Lemma repair_session_fresh s ids U :
  fresh ids U ->
  exists tm pm, added U (tids (repair_session s ids).1) (tids s) tm /\ added U (sinv (repair_session s ids).1) (sinv s) pm /\
    fresh (repair_session s ids).2 (list_to_set tm ∪ list_to_set pm ∪ U) /\
    (tabs s <> [] -> tm = [] /\ pm = [] /\ (repair_session s ids).2 = ids).
Proof.
  intros Hf. destruct (decide (tabs s = [])) as [Et|Hne].
  - destruct (fresh_tab ids U Hf) as [Ht Hf1]. destruct (mint_tab ids) as [tab ids1] eqn:Em. cbn in *.
    destruct (fresh_pane ids1 _ Hf1) as [Hp Hf2]. destruct (mint_pane ids1) as [p ids2] eqn:Ep. cbn in *.
    exists [tab], [p]. unfold repair_session. rewrite Et, Em, Ep. cbn -[Nat.leb].
    assert (Hs : forall s2, tabs s2 = [tab_new tab (Leaf p)] -> detached s2 = detached s ->
      tids (with_tabs s2 (map repair_tab (tabs s2))) = [tab] /\ sinv (with_tabs s2 (map repair_tab (tabs s2))) = p :: sinv s).
    { intros s2 E1 E2. rewrite !sinv_leaves. unfold tids. cbn. by rewrite E1, E2, Et. }
    assert (Hg : tids s = []) by (unfold tids; by rewrite Et). rewrite Hg.
    set (s2 := if (1 <=? _)%nat then _ else _).
    destruct (Hs s2) as [-> ->]; [by unfold s2; destruct (1 <=? _)%nat..|].
    split; [split; [done|split; [apply NoDup_singleton|set_solver]]|].
    split; [split; [done|split; [apply NoDup_singleton|set_solver]]|]. split; [|done].
    eapply fresh_mono, Hf2. set_solver.
  - destruct (repair_session_keeps s ids Hne) as (-> & -> & -> & _). exists [], [].
    split; [apply added_nil|]. split; [apply added_nil|]. split; [|done]. eapply fresh_mono, Hf. set_solver.
Qed.

Lemma added_app U new1 old1 m1 new2 old2 m2 :
  added U new1 old1 m1 -> added (list_to_set m1 ∪ U) new2 old2 m2 -> added U (new1 ++ new2) (old1 ++ old2) (m1 ++ m2).
Proof.
  intros (E1 & N1 & F1) (E2 & N2 & F2). split; [|split].
  - rewrite E1, E2. rewrite <- !app_assoc. f_equiv. rewrite !app_assoc. f_equiv. apply Permutation_app_comm.
  - apply NoDup_app. split; [done|]. split; [|done]. intros x Hx Hx2. apply (F2 x Hx2). set_solver.
  - intros x [Hx|Hx]%elem_of_app; [by apply F1|]. specialize (F2 x Hx). set_solver.
Qed.
Lemma added_mono U U' new old m : U' ⊆ U -> added U new old m -> added U' new old m.
Proof. intros Hs (? & ? & Hf). split; [done|]. split; [done|]. intros x Hx. specialize (Hf x Hx). set_solver. Qed.

Lemma repair_sessions_fresh l ids U :
  fresh ids U ->
  exists tm pm, added U (concat (map tids (repair_sessions l ids).1)) (concat (map tids l)) tm /\
    added U (concat (map sinv (repair_sessions l ids).1)) (concat (map sinv l)) pm /\
    (Forall (fun s => tabs s <> []) l -> tm = [] /\ pm = [] /\ (repair_sessions l ids).2 = ids).
Proof.
  revert ids U. induction l as [|s l IH]; intros ids U Hf; cbn.
  { exists [], []. split; [apply added_nil|]. split; [apply added_nil|done]. }
  destruct (repair_session_fresh s ids U Hf) as (tm & pm & Ht & Hp & Hf1 & Hk).
  destruct (repair_session s ids) as [s' ids1]. cbn in *.
  destruct (IH ids1 _ Hf1) as (tm' & pm' & Ht' & Hp' & Hk'). destruct (repair_sessions l ids1) as [l' ids2]. cbn in *.
  exists (tm ++ tm'), (pm ++ pm'). split; [|split].
  - apply added_app; [done|]. eapply added_mono, Ht'. set_solver.
  - apply added_app; [done|]. eapply added_mono, Hp'. set_solver.
  - intros [Hs Hl]%Forall_cons. destruct (Hk Hs) as (-> & -> & ->). by destruct (Hk' Hl) as (-> & -> & ->).
Qed.

Lemma added_nodup U new old m : added U new old m -> list_to_set old ⊆ U -> NoDup old -> NoDup new.
Proof.
  intros (E & N & F) Hs Hn. rewrite E. apply NoDup_app. split; [done|]. split; [|done].
  intros x Hx Ho. apply (F x Hx). set_solver.
Qed.

(** The repair of what an operation leaves: a well-formed workspace with the same panes, and new ones only
    for sessions left without a tab. *)
Lemma normalized_pre U ws ids :
  ws_pre ws -> used ws ⊆ U -> fresh ids U ->
  ws_wf (normalized ws ids).1 /\
  exists tm pm, added U (all_tids (normalized ws ids).1) (all_tids ws) tm /\
    added U (inventory (normalized ws ids).1) (inventory ws) pm /\
    (Forall (fun s => tabs s <> []) (sessions ws) -> pm = [] /\ (normalized ws ids).2 = ids).
Proof.
  intros (Hne & Hs & Hu) HU Hf. unfold normalized. unfold used in HU.
  rewrite normalizing_specs_id; [|eapply Forall_impl; [done|]; by intros s [_ ?]|done].
  destruct (normalizing_active_ok ws ids Hs) as (H1 & H2 & H3).
  assert (Hids : map session_id (sessions (normalizing_active ws ids).1) = map session_id (sessions ws) /\
    exists tm pm, added U (all_tids (normalizing_active ws ids).1) (all_tids ws) tm /\
      added U (inventory (normalizing_active ws ids).1) (inventory ws) pm /\
      (Forall (fun s => tabs s <> []) (sessions ws) -> tm = [] /\ pm = [] /\ (normalizing_active ws ids).2 = ids)).
  { unfold normalizing_active, all_tids, inventory. destruct (sessions ws) as [|s0 l0] eqn:El; [done|]. rewrite <- El in *.
    destruct (repair_sessions_ok (sessions ws) ids Hs) as [_ Hids].
    destruct (repair_sessions_fresh (sessions ws) ids U Hf) as (tm & pm & Ha & Hb & Hc).
    destruct (repair_sessions (sessions ws) ids) as [l' ids']. cbn in *. split; [done|]. by exists tm, pm. }
  destruct Hids as (Hids & tm & pm & Ht & Hp & Hk). destruct Hu as (U1 & U2 & U3). split.
  - split; [done|]. split; [done|]. split; [|done]. split; [by rewrite Hids|]. split.
    + eapply added_nodup; [done| |done]. set_solver.
    + eapply added_nodup; [done| |done]. set_solver.
  - exists tm, pm. split; [done|]. split; [done|]. intros Hall. by destruct (Hk Hall) as (_ & ? & ?).
Qed.
End Fresh.

Lemma repair_sessions_id {I} `{IdSource I} l (ids : I) : Forall session_ok l -> repair_sessions l ids = (l, ids).
Proof.
  intros Hl. revert ids. induction Hl as [|s l Hs _ IH]; intros ids; cbn; [done|].
  destruct (repair_session_keeps s ids (proj1 Hs)) as (_ & _ & H2 & H1). specialize (H1 Hs).
  destruct (repair_session s ids) as [s' ids']. cbn in *. subst. by rewrite IH.
Qed.

Lemma normalized_wf_id {I} `{IdSource I} ws (ids : I) : ws_wf ws -> normalized ws ids = (ws, ids).
Proof.
  intros (Hne & Hs & Hu & id & Ha & Hid). unfold normalized.
  rewrite normalizing_specs_id; [|eapply Forall_impl; [done|]; by intros s (_ & _ & _ & ?)|done].
  unfold normalizing_active. rewrite repair_sessions_id by done.
  assert (E : match active_session_id ws with Some id => existsb (fun s => bool_decide (session_id s = id)) (sessions ws) | None => false end = true).
  { rewrite Ha. apply existsb_exists. apply list_elem_of_fmap in Hid as (s & -> & Hin).
    exists s. split; [by apply list_elem_of_In|]. by apply bool_decide_eq_true. }
  destruct ws as [v [|s l] a]; [done|]. cbn in *. by rewrite E.
Qed.

(** ** The claims *)

Definition selected (ws : TreeWorkspace) : Prop :=
  exists id, active_session_id ws = Some id /\ id ∈ map session_id (sessions ws).

(** C39: The repair of a loaded workspace.  Whatever its tables, detached lists and selections hold, over
    trees whose splits have two children at least the repair ends with a session, a tab in every session,
    every focus and zoom inside its tab, a side table whose keys are exactly the panes, and a selected
    session; and a workspace that is well formed is answered as it is, with nothing minted. *)
Theorem workspace_repair {I} `{IdSource I} ws (ids : I) :
  (Forall (fun s => Forall (fun t => arity_ok (root t) = true) (tabs s)) (sessions ws) ->
   let ws' := (normalized ws ids).1 in
   sessions ws' <> [] /\ Forall session_ok (sessions ws') /\ invariant_holds ws' = true /\ selected ws') /\
  (ws_wf ws -> normalized ws ids = (ws, ids)).
Proof.
  split; [|apply normalized_wf_id]. intros Ha ws'.
  destruct (normalizing_active_ok (normalizing_specs ws) ids) as (H1 & H2 & H3).
  { cbn. apply Forall_map. eapply Forall_impl; [done|]. intros s. apply repair_specs_arity. }
  split; [done|]. split; [done|]. split; [|done]. apply invariant_holds_spec. eapply Forall_impl; [done|].
  by intros s (_ & _ & _ & ?).
Qed.

(** A file with an orphan spec, a pane without one, a pane both tiled and detached, and nothing selected. *)
Definition broken_workspace : TreeWorkspace :=
  let uid := Examples.uid in
  workspace_new
    [mkSession (uid 1) [] [mkTab (uid 2) [] (Leaf (uid 3)) (Some (uid 9)) (Some (uid 9))] 7
       {[uid 8 := spec_new Desktop (str "orphan")]} [mkDetached (uid 3) None; mkDetached (uid 4) None];
     mkSession (uid 5) [] [] 0 ∅ []] (Some (uid 77)).
Lemma workspace_repair_witness :
  let ws' := (normalized broken_workspace 0).1 in
  sessions ws' <> [] /\ Forall session_ok (sessions ws') /\ invariant_holds ws' = true /\ selected ws'.
Proof.
  destruct (workspace_repair broken_workspace 0) as [H _]. apply H.
  repeat first [apply Forall_nil_2 | apply Forall_cons_2]; vm_compute; reflexivity.
Defined.
