(* ===== verification/OpsLaws.v ===== *)
(** * OpsLaws: the operations keep a workspace well formed and account for every pane

    For every operation of [tree_ops.rs], from a well-formed workspace and with identities that are new: the
    result is well formed, and its panes are those it started from, less the ones the operation removes,
    plus the ones it brings.  [U] is everything already in use, in the workspace and beyond it (the
    closed tabs of the document), so that what an operation mints is new to all of it. *)

From stdpp Require Import gmap sorting.
From S2P Require Import Prelude Bytes BTree Message Document Cells Float Tree TreeLaws Layout LayoutLaws Identity Workspace WorkspaceLaws TreeOps.

(** ** Locating *)

Lemma find_map_index_some {A B} (f : A -> option B) l k i b :
  find_map_index f k l = Some (i, b) -> (k <= i)%nat /\ exists a, l !! (i - k)%nat = Some a /\ f a = Some b.
Proof.
  revert k. induction l as [|a l IH]; intros k; cbn; [done|]. destruct (f a) as [b'|] eqn:E.
  - intros [= <- <-]. split; [done|]. exists a. by rewrite Nat.sub_diag.
  - intros (Hk & a' & Ha & Hf)%IH. split; [lia|]. exists a'. by replace (i - k)%nat with (S (i - S k)) by lia.
Qed.
Lemma find_map_index_none {A B} (f : A -> option B) l k : find_map_index f k l = None <-> Forall (fun a => f a = None) l.
Proof.
  revert k. induction l as [|a l IH]; intros k; cbn; [done|]. rewrite Forall_cons. destruct (f a); [naive_solver|]. rewrite IH. naive_solver.
Qed.

Lemma tab_index_some p s j : tab_index_containing p s = Some j -> exists t, tabs s !! j = Some t /\ p ∈ leaves (root t).
Proof.
  unfold tab_index_containing. destruct (list_find (fun t : Tab => tab_contains p t = true) (tabs s)) as [[k t]|] eqn:E; [|done].
  intros [= <-]. apply list_find_Some in E as (Ht & Hc & _). exists t. split; [done|]. by apply contains_leaves.
Qed.
Lemma tab_index_none p s : tab_index_containing p s = None <-> p ∉ session_panes s.
Proof.
  unfold tab_index_containing. rewrite session_panes_leaves.
  destruct (list_find (fun t : Tab => tab_contains p t = true) (tabs s)) as [[k t]|] eqn:E.
  - split; [done|]. intros H. exfalso. apply H, elem_of_all. apply list_find_Some in E as (Ht & Hc & _).
    exists t. split; [by eapply list_elem_of_lookup_2|]. by apply contains_leaves.
  - split; [|done]. intros _ (t & Ht & Hp)%elem_of_all. apply list_find_None in E. rewrite Forall_forall in E.
    apply (E t Ht). by apply contains_leaves.
Qed.

Lemma locate_some ws p i j : locate ws p = Some (i, j) ->
  exists s t, sessions ws !! i = Some s /\ tabs s !! j = Some t /\ p ∈ leaves (root t).
Proof.
  unfold locate. intros (_ & s & Hs & Hj)%find_map_index_some. rewrite Nat.sub_0_r in Hs.
  apply tab_index_some in Hj as (t & Ht & Hp). by exists s, t.
Qed.
Lemma locate_none ws p : locate ws p = None <-> p ∉ workspace_panes ws.
Proof.
  unfold locate. rewrite find_map_index_none. unfold workspace_panes. rewrite Forall_forall. split.
  - intros H (s & Hs & Hp)%elem_of_all. by apply (tab_index_none p s) in Hp; [|apply H].
  - intros H s Hs. apply tab_index_none. intros Hp. apply H, elem_of_all. by exists s.
Qed.

Lemma list_find_position {A} (P : A -> Prop) `{!forall x, Decision (P x)} l i :
  fst <$> list_find P l = Some i -> exists a, l !! i = Some a /\ P a.
Proof. destruct (list_find P l) as [[k a]|] eqn:E; [|done]. intros [= <-]. apply list_find_Some in E as (? & ? & _). by exists a. Qed.

(** With the tabs' identities distinct, a position is the tab. *)
Lemma tab_position_of l t : NoDup (map tab_id l) -> t ∈ l -> exists k, tab_position (tab_id t) l = Some k /\ l !! k = Some t.
Proof.
  intros Hnd [k Hk]%list_elem_of_lookup. exists k. split; [|done]. unfold tab_position.
  assert (E : list_find (fun t' => tab_id t' = tab_id t) l = Some (k, t)); [|by rewrite E].
  apply list_find_Some. split; [done|]. split; [done|]. intros j t' Hj Hlt E.
  assert (j = k); [|lia]. apply (NoDup_lookup (map tab_id l) _ _ (tab_id t)); [done|..]; by rewrite list_lookup_fmap, ?Hj, ?Hk; cbn; rewrite ?E.
Qed.

(** ** What an edit of one session amounts to *)

Record edit (ws : TreeWorkspace) (i : nat) (s s' : Session) (removed brought : list RawUuid) : Prop := {
  e_at : sessions ws !! i = Some s;
  e_id : session_id s' = session_id s;
  e_tids : NoDup (tids s');
  e_tids_new : forall x, x ∈ tids s' -> x ∈ tids s \/ x ∉ all_tids ws;
  e_perm : removed ++ sinv s' ≡ₚ brought ++ sinv s;
  e_brought : NoDup brought;
  e_new : forall x, x ∈ brought -> x ∉ inventory ws;
}.

Lemma sinv_sub ws i s x : sessions ws !! i = Some s -> x ∈ sinv s -> x ∈ inventory ws.
Proof. intros Hi Hx. apply elem_of_all. exists s. split; [by eapply list_elem_of_lookup_2|done]. Qed.
Lemma tids_sub ws i s x : sessions ws !! i = Some s -> x ∈ tids s -> x ∈ all_tids ws.
Proof. intros Hi Hx. apply elem_of_all. exists s. split; [by eapply list_elem_of_lookup_2|done]. Qed.

Lemma put_session_ids ws i s s' :
  sessions ws !! i = Some s -> session_id s' = session_id s -> map session_id (sessions (put_session ws i s')) = map session_id (sessions ws).
Proof.
  intros Hi Hid. cbn. apply list_eq. intros j. rewrite !list_lookup_fmap. destruct (decide (i = j)) as [<-|Hne].
  - rewrite list_lookup_insert_eq by by eapply lookup_lt_Some. rewrite Hi. cbn. by rewrite Hid.
  - by rewrite list_lookup_insert_ne.
Qed.

Section EditLaws.
Context (ws : TreeWorkspace) (i : nat) (s s' : Session) (removed brought : list RawUuid).
Context (Hwf : ws_wf ws) (He : edit ws i s s' removed brought).

Lemma edit_inventory : removed ++ inventory (put_session ws i s') ≡ₚ brought ++ inventory ws.
Proof.
  destruct He as [Hi _ _ _ Hp _ _]. pose proof (concat_insert sinv _ _ _ s' Hi) as E.
  apply (Permutation_app_inv_l (sinv s)). change (inventory (put_session ws i s')) with (concat (map sinv (<[i:=s']> (sessions ws)))).
  rewrite (Permutation_app_swap_app (sinv s)), E, app_assoc, Hp. rewrite <- app_assoc.
  by rewrite (Permutation_app_swap_app (sinv s)).
Qed.

Lemma edit_sinv : NoDup (sinv s') /\ forall x, x ∈ sinv s' -> x ∈ sinv s \/ x ∉ inventory ws.
Proof.
  destruct He as [Hi _ _ _ Hp Hb Hn]. split.
  - assert (Hnd : NoDup (removed ++ sinv s')); [|by apply NoDup_app in Hnd as (_ & _ & ?)]. rewrite Hp. apply NoDup_app.
    split; [done|]. split; [|by apply (sinv_at ws); [apply Hwf|eapply list_elem_of_lookup_2]].
    intros x Hx Hs. apply (Hn x Hx). by eapply sinv_sub.
  - intros x Hx. assert (H : x ∈ removed ++ sinv s') by (apply elem_of_app; by right). rewrite Hp in H.
    apply elem_of_app in H as [H|H]; [right; by apply Hn|by left].
Qed.

Lemma edit_unique : unique (put_session ws i s').
Proof.
  destruct He as [Hi Hid Ht Htn _ _ _]. destruct Hwf as (_ & _ & (U1 & U2 & U3) & _). split; [|split].
  - by rewrite (put_session_ids ws i s).
  - by eapply NoDup_edit.
  - destruct edit_sinv. by eapply NoDup_edit.
Qed.

Lemma edit_each (P : Session -> Prop) : Forall P (sessions ws) -> P s' -> Forall P (sessions (put_session ws i s')).
Proof. intros Hall Hp. apply Forall_insert; done. Qed.

Lemma edit_pre : pre_ok s' -> ws_pre (put_session ws i s').
Proof.
  intros Hp. split; [|split; [|apply edit_unique]].
  - cbn. intros E. apply (f_equal length) in E. rewrite length_insert in E. destruct Hwf as [Hne _]. by apply Hne, nil_length_inv.
  - apply edit_each; [|done]. by apply ws_wf_pre.
Qed.
Lemma edit_wf : session_ok s' -> ws_wf (put_session ws i s').
Proof.
  intros Hs. destruct (edit_pre (session_ok_pre _ Hs)) as (Hne & _ & Hu). split; [done|].
  split; [apply edit_each; [apply Hwf|done]|]. split; [done|]. destruct Hwf as (_ & _ & _ & id & Ha & Hid).
  exists id. split; [done|]. by rewrite (put_session_ids ws i s) by apply He.
Qed.
Lemma edit_tids x : x ∈ all_tids (put_session ws i s') -> x ∈ all_tids ws \/ x ∈ tids s'.
Proof.
  intros (s1 & [j Hj]%list_elem_of_lookup & Hx)%elem_of_all. cbn in Hj. destruct (decide (i = j)) as [<-|Hne].
  - rewrite list_lookup_insert_eq in Hj by by eapply lookup_lt_Some, He. injection Hj as <-. by right.
  - rewrite list_lookup_insert_ne in Hj by done. left. by eapply tids_sub.
Qed.
End EditLaws.

(** ** What an operation amounts to *)

(** [mints] says whether the operation may leave a session without a tab, or the workspace without a
    session, and so have the repair seed one with a pane of its own. *)
Record effect (mints : bool) (U : gset RawUuid) (ws ws' : TreeWorkspace) (removed brought : list RawUuid) : Prop := {
  eff_wf : ws_wf ws';
  eff_inv : exists minted, removed ++ inventory ws' ≡ₚ minted ++ brought ++ inventory ws /\
    (forall x, x ∈ minted -> x ∉ U) /\ (mints = false -> minted = []);
  eff_tids : forall x, x ∈ all_tids ws' -> x ∈ all_tids ws \/ x ∉ U;
}.

Lemma effect_none {b} U ws : ws_wf ws -> effect b U ws ws [] [].
Proof. intros Hw. constructor; [done| |by left]. exists []. split; [done|]. split; [set_solver|done]. Qed.

Lemma effect_edit {b} U ws i s s' removed brought :
  ws_wf ws -> edit ws i s s' removed brought -> session_ok s' -> (forall x, x ∈ tids s' -> x ∈ tids s \/ x ∉ U) ->
  effect b U ws (put_session ws i s') removed brought.
Proof.
  intros Hw He Hs Ht. constructor; [by eapply edit_wf| |].
  - exists []. split; [by eapply edit_inventory|]. split; [set_solver|done].
  - intros x Hx. apply (edit_tids ws i s s' removed brought) in Hx as [Hx|Hx]; [by left| |done].
    destruct (Ht x Hx); [left; eapply tids_sub; [apply He|done]|by right].
Qed.

Lemma effect_activate {b} U ws ws' removed brought id :
  effect b U ws ws' removed brought -> id ∈ map session_id (sessions ws') -> effect b U ws (with_active_session ws' (Some id)) removed brought.
Proof. intros [(H1 & H2 & H3 & _) Hi Ht] Hid. constructor; [|done|done]. split; [done|]. split; [done|]. split; [done|]. by exists id. Qed.

Section Normalized.
Context {I : Type} `{FreshSource I}.

(** An edit that may leave its session without a tab, then the repair. *)
Lemma effect_repaired U ws i s s' removed brought (ids : I) :
  ws_wf ws -> edit ws i s s' removed brought -> pre_ok s' -> used ws ⊆ U -> (forall x, x ∈ tids s' -> x ∈ tids s) ->
  (forall x, x ∈ brought -> x ∈ U) -> fresh ids U ->
  effect true U ws (normalized (put_session ws i s') ids).1 removed brought.
Proof.
  intros Hw He Hp HU Ht Hb Hf. pose proof (edit_pre _ _ _ _ _ _ Hw He Hp) as Hpre.
  pose proof (edit_inventory _ _ _ _ _ _ He) as Hinv. pose proof (edit_tids ws i s s' removed brought He) as Htids.
  assert (HU' : used (put_session ws i s') ⊆ U).
  { unfold used in *. rewrite (put_session_ids ws i s) by apply He. intros x. rewrite !elem_of_union, !elem_of_list_to_set.
    intros [[Hx|Hx]|Hx]; [set_solver| |].
    - destruct (Htids x Hx) as [|Hx']; [set_solver|]. apply Ht in Hx'. apply (tids_sub ws i s) in Hx'; [set_solver|apply He].
    - assert (Hx' : x ∈ removed ++ inventory (put_session ws i s')) by (apply elem_of_app; by right).
      rewrite Hinv in Hx'. apply elem_of_app in Hx' as [|]; [by apply Hb|set_solver]. }
  destruct (normalized_pre U _ ids Hpre HU' Hf) as (Hn & tm & pm & (Et & _ & Ft) & (Ep & _ & Fp) & _).
  constructor; [done| |].
  - exists pm. split; [|done]. rewrite Ep, (Permutation_app_swap_app removed), Hinv. done.
  - intros x. rewrite Et. intros [Hx|Hx]%elem_of_app; [right; by apply Ft|]. apply Htids in Hx as [|Hx]; [by left|].
    left. eapply tids_sub; [apply He|by apply Ht].
Qed.
End Normalized.

(** ** Editing a tab of a session *)

Lemma put_tab_tids s j t t' : tabs s !! j = Some t -> tab_id t' = tab_id t -> tids (put_tab s j t') = tids s.
Proof.
  intros Ht Hid. unfold tids. cbn. apply list_eq. intros k. rewrite !list_lookup_fmap. destruct (decide (j = k)) as [<-|Hne].
  - rewrite list_lookup_insert_eq by by eapply lookup_lt_Some. rewrite Ht. cbn. by rewrite Hid.
  - by rewrite list_lookup_insert_ne.
Qed.
Lemma put_tab_sinv s j t t' removed brought :
  tabs s !! j = Some t -> removed ++ leaves (root t') ≡ₚ brought ++ leaves (root t) ->
  removed ++ sinv (put_tab s j t') ≡ₚ brought ++ sinv s.
Proof.
  intros Ht Hp. rewrite !sinv_leaves. cbn. pose proof (concat_insert (fun t => leaves (root t)) _ _ _ t' Ht) as E.
  rewrite !(app_assoc _ (concat _)). f_equiv. apply (Permutation_app_inv_l (leaves (root t))).
  rewrite (Permutation_app_swap_app (leaves (root t))), E, app_assoc, Hp, <- app_assoc.
  by rewrite (Permutation_app_swap_app (leaves (root t))).
Qed.

Lemma session_at ws i s : ws_wf ws -> sessions ws !! i = Some s ->
  session_ok s /\ NoDup (sinv s) /\ NoDup (tids s) /\ (forall x, x ∈ sinv s -> x ∈ inventory ws).
Proof.
  intros (_ & Hs & Hu & _) Hi. pose proof (list_elem_of_lookup_2 _ _ _ Hi) as Hin. rewrite Forall_forall in Hs.
  destruct (sinv_at ws s Hu Hin). split; [by apply Hs|]. split; [done|]. split; [done|]. intros x. by eapply sinv_sub.
Qed.
Lemma tab_at s j t : session_ok s -> NoDup (sinv s) -> tabs s !! j = Some t -> tab_ok t /\ NoDup (leaves (root t)) /\ (forall x, x ∈ leaves (root t) -> x ∈ sinv s).
Proof.
  intros (_ & _ & Ht & _) Hnd Hj. split; [by eapply Forall_lookup_1|]. rewrite sinv_leaves in *. apply NoDup_app in Hnd as (Hnd & _).
  split; [by eapply (NoDup_all_at (fun t => leaves (root t)))|]. intros x Hx. apply elem_of_app. left.
  apply elem_of_all. exists t. split; [by eapply list_elem_of_lookup_2|done].
Qed.

Lemma tab_edit ws i j s t t' m k removed brought :
  ws_wf ws -> sessions ws !! i = Some s -> tabs s !! j = Some t -> tab_id t' = tab_id t -> tab_ok t' ->
  removed ++ leaves (root t') ≡ₚ brought ++ leaves (root t) -> NoDup brought -> (forall x, x ∈ brought -> x ∉ inventory ws) ->
  dom m = list_to_set (sinv (put_tab s j t')) -> (k < length (tabs s))%nat ->
  let s' := with_index (with_specs (put_tab s j t') m) k in
  edit ws i s s' removed brought /\ session_ok s'.
Proof.
  intros Hw Hi Hj Hid Hok Hp Hb Hn Hd Hk s'. destruct (session_at ws i s Hw Hi) as ((Hne & Hix & Ht & _) & Hnd & Htn & _).
  assert (E : tids s' = tids s) by apply (put_tab_tids s j t t' Hj Hid). split.
  - constructor; [done|done|by rewrite E|rewrite E; by left|by apply (put_tab_sinv s j t t')|done|done].
  - split; [|split; [|split]].
    + cbn. intros E'. apply (f_equal length) in E'. rewrite length_insert in E'. by apply Hne, nil_length_inv.
    + cbn. by rewrite length_insert.
    + cbn. by apply Forall_insert.
    + done.
Qed.

(** An edit of a tab that keeps its panes. *)
Lemma effect_same_panes U ws i j edit :
  ws_wf ws ->
  (forall s t t', sessions ws !! i = Some s -> tabs s !! j = Some t -> edit t = Some t' -> tab_ok t -> NoDup (leaves (root t)) ->
     tab_id t' = tab_id t /\ tab_ok t' /\ leaves (root t') ≡ₚ leaves (root t)) ->
  effect false U ws (editing_tab ws i j edit) [] [].
Proof.
  intros Hw Hedit. unfold editing_tab, editing_session. destruct (sessions ws !! i) as [s|] eqn:Hi; [|by apply effect_none].
  destruct (tabs s !! j) as [t|] eqn:Hj; [|by apply effect_none]. cbn. destruct (edit t) as [t'|] eqn:Et; [|by apply effect_none]. cbn.
  destruct (session_at ws i s Hw Hi) as (Hs & Hnd & Htn & _). destruct (tab_at s j t Hs Hnd Hj) as (Ht & Hn & _).
  destruct (Hedit s t t' eq_refl Hj Et Ht Hn) as (Hid & Hok & Hp).
  pose proof (put_tab_sinv s j t t' [] [] Hj Hp) as E. cbn in E.
  destruct (tab_edit ws i j s t t' (specs s) (active_tab_index s) [] [] Hw Hi Hj Hid Hok) as [He Ho];
    [done|constructor|set_solver| |apply Hs|].
  { destruct Hs as (_ & _ & _ & ->). by apply list_to_set_perm_L. }
  apply (effect_edit U ws i s); [done|done|done|]. intros x. left. by rewrite <- (put_tab_tids s j t t').
Qed.

(** *** Trees grown and pruned *)

Lemma inserted_perm t p target axis before fresh :
  NoDup (leaves t) -> target ∈ leaves t -> leaves (insert_beside_impl p target axis before fresh t) ≡ₚ p :: leaves t.
Proof. intros Hn Ht. rewrite insert_leaves by done. by apply beside_perm. Qed.

Lemma regrown_ok t r p : arity_ok r = true -> p ∈ leaves r -> tab_ok (regrown t r p).
Proof. intros Ha Hp. split; [done|]. split; [by exists p|done]. Qed.

Lemma pruned_ok p t r next :
  tab_ok t -> removing p (root t) = Some r -> (forall x, next = Some x -> x ∈ leaves r) -> is_Some next ->
  tab_ok (with_panes t r (refocused p t next) (clear_zoom p t)).
Proof.
  intros (Ha & (a & Ea & Hin) & Hz) Hr Hnext [nx Hsome]. pose proof (removing_some _ _ _ Hr) as El. split; [|split].
  - cbn. by eapply removing_shape.
  - cbn. unfold refocused. destruct (decide _) as [|Hne]; [exists nx; auto|]. exists a. split; [done|].
    rewrite El. apply list_elem_of_filter. split; [|done]. congruence.
  - cbn. unfold clear_zoom. destruct (decide _) as [|Hne]; [done|]. intros z Ez. rewrite El. apply list_elem_of_filter.
    split; [congruence|by apply Hz].
Qed.

Lemma first_leaf_in {k} t : shape_with k t = true -> exists x, first_leaf_id t = Some x /\ x ∈ leaves t.
Proof. intros Ht. destruct (first_leaf_head t Ht) as (x & E & Hh). exists x. split; [done|]. by apply head_Some_elem_of. Qed.

Lemma removed_perm p t r : NoDup (leaves t) -> p ∈ leaves t -> removing p t = Some r -> p :: leaves r ≡ₚ leaves t.
Proof. intros Hn Hp Hr. rewrite (removing_some _ _ _ Hr). symmetry. by apply filter_ne_perm. Qed.
Lemma removed_all p t : arity_ok t = true -> NoDup (leaves t) -> removing p t = None -> leaves t = [p].
Proof.
  intros Ha Hn Hr. apply (removing_none (k := false) p t) in Hr; [|done]. pose proof (leaves_nonempty t Ha). destruct (leaves t) as [|x [|y l]]; [done| |].
  - by apply Forall_cons in Hr as [<- _].
  - apply Forall_cons in Hr as [<- [<- _]%Forall_cons]. apply NoDup_cons in Hn as [Hn _]. set_solver.
Qed.

(** The focus a close falls back to is another pane of the tab. *)
Lemma first_neighbor_in pane solved l f : first_neighbor pane solved l = Some f -> (forall d, d ∈ l -> is_directional d = true) -> f ∈ dom solved.
Proof.
  intros Hf Hd. induction l as [|d l IH]; cbn in Hf; [done|].
  assert (Hd' : forall d', d' ∈ l -> is_directional d' = true) by (intros; apply Hd; by right).
  destruct (neighbor pane d solved) as [g|] eqn:E; [|by apply IH]. destruct (decide (g = pane)); [by apply IH|].
  injection Hf as ->. unfold neighbor in E. destruct (solved !! pane) as [src|]; [|done]. cbn in E.
  rewrite (Hd d ltac:(left)) in E. apply directional_neighbor_is_there in E as (_ & r & Hr & _). by eapply elem_of_dom_2.
Qed.
Lemma first_neighbor_ne pane solved l f : first_neighbor pane solved l = Some f -> f <> pane.
Proof. induction l as [|d l IH]; cbn; [done|]. destruct (neighbor pane d solved); [|done]. destruct (decide _); [done|]. by intros [= <-]. Qed.
Lemma neighbour_in pane t f : neighbour pane t = Some f -> f <> pane /\ f ∈ leaves (root t).
Proof.
  unfold neighbour. set (solved := solve (root t) _ _). destruct (first_neighbor pane solved _) as [g|] eqn:E.
  - intros [= <-]. pose proof (first_neighbor_ne _ _ _ _ E) as Hne. split; [done|].
    apply first_neighbor_in in E; [|intros d Hd; by repeat (apply elem_of_cons in Hd as [->|Hd]; [done|]); apply elem_of_nil in Hd].
    unfold solved, solve in E. rewrite (proj1 (place_spec _ _ _ _)) in E. set_solver.
  - rewrite all_pane_ids_leaves. destruct (list_find (.≠ pane) (leaves (root t))) as [[k x]|] eqn:El; [|done]. intros [= <-].
    apply list_find_Some in El as (Hx & Hne & _). split; [done|by eapply list_elem_of_lookup_2].
Qed.

(** ** Splitting, dividers, swapping, moving within a tab *)

Section Operations.
Context {I : Type} `{FreshSource I} (U : gset RawUuid) (ws : TreeWorkspace).
Context (Hw : ws_wf ws) (HU : used ws ⊆ U).

Lemma inventory_used x : x ∈ inventory ws -> x ∈ U.
Proof. unfold used in HU. set_solver. Qed.

Lemma split_pane_effect target axis spec before p ids :
  p ∉ inventory ws ->
  effect false U ws (split_pane ws target axis spec before p ids).1 [] (if locate ws target then [p] else []).
Proof.
  intros Hp. unfold split_pane. destruct (locate ws target) as [[i j]|] eqn:El; [|by apply effect_none].
  apply locate_some in El as (s & t & Hi & Hj & Hin). destruct (mint_split ids) as [fs ids']. cbn.
  destruct (session_at ws i s Hw Hi) as (Hs & Hnd & Htn & Hsub). destruct (tab_at s j t Hs Hnd Hj) as ((Ha & _) & Hn & Hls).
  unfold editing_session. rewrite Hi. cbn. rewrite Hj. cbn. unfold splitting.
  rewrite (proj2 (contains_leaves target (root t))) by done. cbn.
  set (r := insert_beside_impl p target axis before fs (root t)).
  assert (Er : leaves r ≡ₚ p :: leaves (root t)) by by apply inserted_perm.
  assert (Hok : tab_ok (regrown t r p)) by (apply regrown_ok; [by apply beside_shape|rewrite Er; left]).
  destruct (tab_edit ws i j s t (regrown t r p) (<[p:=spec]> (specs s)) (active_tab_index s) [] [p] Hw Hi Hj) as [He Ho];
    [done|done|done|apply NoDup_singleton|set_solver| |apply Hs|].
  { rewrite dom_insert_L. destruct Hs as (_ & _ & _ & ->).
    rewrite (list_to_set_perm_L _ _ (put_tab_sinv s j t (regrown t r p) [] [p] Hj Er)). set_solver. }
  apply (effect_edit U ws i s); [done|done|done|]. intros x. left. by rewrite <- (put_tab_tids s j t (regrown t r p)).
Qed.

Lemma with_root_same t r : tab_ok t -> arity_ok r = true -> leaves r ≡ₚ leaves (root t) -> tab_ok (with_root t r).
Proof.
  intros (_ & (a & Ea & Hin) & Hz) Ha Hp. split; [done|]. split; [exists a; split; [done|]; cbn; by rewrite Hp|].
  intros z Ez. cbn. rewrite Hp. by apply Hz.
Qed.

Lemma set_divider_weight_effect split index w : effect false U ws (set_divider_weight ws split index w) [] [].
Proof.
  unfold set_divider_weight. destruct (active_tab_position ws) as [[i j]|]; [|by apply effect_none].
  apply effect_same_panes; [done|]. intros s t t' _ _ [= <-] Ht _. split; [done|].
  destruct (map_split_keeps (k := false) split (fun cs => adjust_pair cs index (fun _ _ => w)) (root t)) as (Hl & _ & Ha).
  { intros l. apply adjust_pair_nodes. }
  assert (E : leaves (setting_divider_weight (root t) split index w) ≡ₚ leaves (root t)) by (unfold setting_divider_weight; by rewrite Hl).
  split; [|done]. apply with_root_same; [done|by apply Ha, Ht|done].
Qed.

Lemma swap_panes_effect a b : effect false U ws (swap_panes ws a b) [] [].
Proof.
  unfold swap_panes. destruct (decide (a = b)); [by apply effect_none|].
  destruct (locate ws a) as [[i j]|]; [|by apply effect_none]. destruct (locate ws b) as [p|]; [|by apply effect_none].
  destruct (decide _); [|by apply effect_none]. apply effect_same_panes; [done|]. intros s t t' _ _ [= <-] Ht Hn. split; [done|].
  destruct (swapping_keeps (k := false) a b (root t)) as (_ & Ha & He & Hnd).
  assert (E : leaves (swapping a b (root t)) ≡ₚ leaves (root t)) by (apply NoDup_Permutation; auto).
  split; [|done]. apply with_root_same; [done|rewrite Ha; apply Ht|done].
Qed.

(** A pane pruned from a tree and put back is the tree's panes again. *)
Lemma relocated_ok t source tree t' :
  tab_ok t -> arity_ok tree = true -> leaves tree ≡ₚ leaves (root t) -> source ∈ leaves (root t) ->
  relocated t source tree = Some t' -> tab_id t' = tab_id t /\ tab_ok t' /\ leaves (root t') ≡ₚ leaves (root t).
Proof.
  intros (_ & _ & Hz) Ha Hp Hs. unfold relocated. destruct (_ || _); [done|]. intros [= <-]. split; [done|]. split; [|done].
  split; [done|]. split; [exists source; split; [done|]; cbn; by rewrite Hp|]. intros z Ez. cbn. rewrite Hp. by apply Hz.
Qed.

Lemma move_leaf_effect source target axis before ids : effect false U ws (move_leaf ws source target axis before ids).1 [] [].
Proof.
  unfold move_leaf. destruct (decide (source = target)) as [|Hne]; [by apply effect_none|].
  destruct (locate ws source) as [[i j]|] eqn:Es; [|by apply effect_none]. destruct (locate ws target) as [to|] eqn:Et; [|by apply effect_none].
  destruct (decide _) as [<-|]; [|by apply effect_none]. destruct (mint_split ids) as [fs ids']. cbn.
  apply effect_same_panes; [done|]. intros s t t' Hi Hj Hedit Ht Hn.
  apply locate_some in Es as (s1 & t1 & Hi1 & Hj1 & Hs). apply locate_some in Et as (s2 & t2 & Hi2 & Hj2 & Htg).
  assert (s1 = s) by congruence. assert (s2 = s) by congruence. subst. assert (t1 = t) by congruence. assert (t2 = t) by congruence. subst.
  destruct (removing source (root t)) as [r|] eqn:Er; [|done]. cbn in Hedit. unfold inserting_beside in Hedit.
  pose proof (removing_some _ _ _ Er) as El. assert (Htr : target ∈ leaves r) by (rewrite El; by apply list_elem_of_filter).
  rewrite (proj2 (contains_leaves _ _) Htr) in Hedit. cbn in Hedit.
  apply relocated_ok in Hedit; [done|done| | |done].
  - apply beside_shape. eapply removing_shape; [apply Ht|done].
  - rewrite inserted_perm; [by apply removed_perm| |done]. rewrite El. by apply NoDup_filter.
Qed.

Lemma move_leaf_to_root_edge_effect source edge ids : effect false U ws (move_leaf_to_root_edge ws source edge ids).1 [] [].
Proof.
  unfold move_leaf_to_root_edge. destruct (locate ws source) as [[i j]|] eqn:Es; [|by apply effect_none].
  destruct (mint_split ids) as [fs ids']. cbn. apply effect_same_panes; [done|]. intros s t t' Hi Hj Hedit Ht Hn.
  apply locate_some in Es as (s1 & t1 & Hi1 & Hj1 & Hs). assert (s1 = s) by congruence. subst. assert (t1 = t) by congruence. subst.
  destruct (_ <=? 1)%nat; [done|]. destruct (removing source (root t)) as [r|] eqn:Er; [|done]. cbn in Hedit.
  apply relocated_ok in Hedit; [done|done| | |done].
  - apply root_shape. eapply removing_shape; [apply Ht|done].
  - rewrite root_leaves_perm. by apply removed_perm.
Qed.
End Operations.
