(* ===== verification/TabLaws.v ===== *)
(** * TabLaws: the operations that move panes between tabs, detach them and bring them back

    The rest of the operations of [tree_ops.rs] that keep a session: moves between tabs, breaking a pane
    out, detaching, reattaching and closing detached panes, new tabs, focus and names. *)

From stdpp Require Import gmap sorting.
From S2P Require Import Prelude Bytes BTree Message Document Cells Float Tree TreeLaws Layout LayoutLaws Identity Workspace WorkspaceLaws TreeOps OpsLaws.

(** ** Pruning a pane from a session's tab *)

Record pruned_to (p : RawUuid) (j : nat) (s s1 : Session) : Prop := {
  pr_id : session_id s1 = session_id s;
  pr_index : active_tab_index s1 = active_tab_index s;
  pr_specs : specs s1 = specs s;
  pr_detached : detached s1 = detached s;
  pr_perm : p :: sinv s1 ≡ₚ sinv s;
  pr_nodup : NoDup (tids s1);
  pr_tids : forall x, x ∈ tids s1 -> x ∈ tids s;
  pr_tabs : Forall tab_ok (tabs s1);
  pr_others : forall k d, tabs s !! k = Some d -> k <> j -> d ∈ tabs s1;
}.

Lemma elem_of_remove_at {A} (l : list A) j k d : l !! k = Some d -> k <> j -> d ∈ remove_at j l.
Proof.
  intros Hd Hne. unfold remove_at. apply elem_of_app. destruct (Nat.lt_ge_cases k j).
  - left. apply list_elem_of_lookup. exists k. by rewrite lookup_take_lt.
  - right. apply list_elem_of_lookup. exists (k - S j)%nat. rewrite lookup_drop. by replace (S j + (k - S j))%nat with k by lia.
Qed.
Lemma remove_at_sublist {A} (l : list A) j : remove_at j l `sublist_of` l.
Proof. unfold remove_at. rewrite <- delete_take_drop. apply sublist_delete. Qed.
Lemma remove_at_sub {A} (l : list A) j x : x ∈ remove_at j l -> x ∈ l.
Proof. intros Hx. eapply elem_of_sublist; [done|apply remove_at_sublist]. Qed.
Lemma map_remove_at {A B} (f : A -> B) l j : map f (remove_at j l) = remove_at j (map f l).
Proof. unfold remove_at. by rewrite map_app, firstn_map, skipn_map. Qed.

(** Taking a whole tab out of a session. *)
Lemma without_tab s j t :
  session_ok s -> NoDup (tids s) -> tabs s !! j = Some t ->
  leaves (root t) ++ sinv (with_tabs s (remove_at j (tabs s))) ≡ₚ sinv s /\
  NoDup (tids (with_tabs s (remove_at j (tabs s)))) /\
  (forall x, x ∈ tids (with_tabs s (remove_at j (tabs s))) -> x ∈ tids s) /\
  Forall tab_ok (remove_at j (tabs s)).
Proof.
  intros (_ & _ & Ht & _) Hnd Hj. split; [|split; [|split]].
  - rewrite !sinv_leaves. cbn. rewrite app_assoc. f_equiv. by apply (concat_remove (fun t => leaves (root t))).
  - unfold tids in *. cbn. rewrite map_remove_at. eapply sublist_NoDup; [done|apply remove_at_sublist].
  - intros x. unfold tids. cbn. rewrite map_remove_at. apply remove_at_sub.
  - rewrite Forall_forall in *. intros x Hx. apply Ht. by eapply remove_at_sub.
Qed.

Lemma prune_spec p j s t :
  session_ok s -> NoDup (sinv s) -> NoDup (tids s) -> tabs s !! j = Some t -> p ∈ leaves (root t) ->
  pruned_to p j s (prune_leaf_from_tab s p j).
Proof.
  intros Hs Hnd Htn Hj Hp. destruct (tab_at s j t Hs Hnd Hj) as (Ht & Hn & _). unfold prune_leaf_from_tab. rewrite Hj.
  destruct (removing p (root t)) as [r|] eqn:Er.
  - set (t' := with_panes t r _ _). assert (E : tids (put_tab s j t') = tids s) by by apply (put_tab_tids s j t).
    constructor; try done; [|by rewrite E|by rewrite E| |].
    + apply (put_tab_sinv s j t t' [p] [] Hj). by apply removed_perm.
    + cbn. apply Forall_insert; [apply Hs|]. apply pruned_ok; [done|done| |].
      * intros x Hx. destruct (first_leaf_in (k := false) r) as (y & Ey & Hy); [by eapply removing_shape; [apply Ht|]|]. congruence.
      * destruct (first_leaf_in (k := false) r) as (y & Ey & Hy); [by eapply removing_shape; [apply Ht|]|]. by eexists.
    + intros k d Hd Hne. cbn. apply list_elem_of_lookup. exists k. by rewrite list_lookup_insert_ne.
  - apply removed_all in Er; [|apply Ht|done]. destruct (without_tab s j t Hs Htn Hj) as (Hperm & H2 & H3 & H4).
    rewrite Er in Hperm. constructor; try done. intros k d Hd Hne. cbn. by eapply elem_of_remove_at.
Qed.

(** ** Landing in another tab *)

Lemma land_edit ws i s p j k d grown s' :
  ws_wf ws -> sessions ws !! i = Some s -> (exists t, tabs s !! j = Some t /\ p ∈ leaves (root t)) -> tabs s !! k = Some d -> k <> j ->
  arity_ok grown = true -> leaves grown ≡ₚ p :: leaves (root d) -> land s p j (tab_id d) grown = Some s' ->
  edit ws i s s' [] [] /\ session_ok s' /\ tids s' ⊆ tids s.
Proof.
  intros Hw Hi (t & Hj & Hp) Hk Hne Ha Hg. destruct (session_at ws i s Hw Hi) as (Hs & Hnd & Htn & _).
  destruct (prune_spec p j s t Hs Hnd Htn Hj Hp) as [Pid Pix Psp Pdet Pperm Pnd Ptids Ptabs Pothers].
  unfold land. set (s1 := prune_leaf_from_tab s p j) in *.
  destruct (tab_position_of (tabs s1) d Pnd (Pothers k d Hk Hne)) as (n & -> & Hn). cbn. rewrite Hn. cbn. intros [= <-].
  pose proof (put_tab_sinv s1 n d (regrown d grown p) [] [p] Hn Hg) as E. cbn [app] in E. rewrite Pperm in E.
  assert (Et : tids (put_tab s1 n (regrown d grown p)) = tids s1) by by apply (put_tab_tids s1 n d).
  set (s2 := put_tab s1 n (regrown d grown p)) in *. change (tids (with_index s2 n)) with (tids s2). split; [|split].
  - constructor; [done|by cbn|change (NoDup (tids s2)); by rewrite Et| |by cbn; change (sinv s2 ≡ₚ sinv s)|constructor|set_solver].
    intros x Hx. left. apply Ptids. by rewrite <- Et.
  - split; [|split; [|split]]; cbn.
    + intros E'. apply (f_equal length) in E'. rewrite length_insert in E'. apply lookup_lt_Some in Hn. cbn in E'. lia.
    + rewrite length_insert. by eapply lookup_lt_Some.
    + apply Forall_insert; [done|]. apply regrown_ok; [done|]. rewrite Hg. left.
    + rewrite Psp. destruct Hs as (_ & _ & _ & ->). change (list_to_set (sinv s) =@{gset RawUuid} list_to_set (sinv s2)). by apply list_to_set_perm_L.
  - intros x. rewrite Et. apply Ptids.
Qed.

Lemma effect_of_edit {b} U ws i s s' removed brought :
  ws_wf ws -> edit ws i s s' removed brought /\ session_ok s' /\ tids s' ⊆ tids s ->
  effect b U ws (put_session ws i s') removed brought.
Proof. intros Hw (He & Hs & Ht). apply (effect_edit U ws i s s'); [done|done|done|]. intros x Hx. left. by apply Ht. Qed.

(** An edit of one session by a function that may decline. *)
Lemma effect_session U ws i f :
  ws_wf ws ->
  (forall s s', sessions ws !! i = Some s -> f s = Some s' -> edit ws i s s' [] [] /\ session_ok s' /\ tids s' ⊆ tids s) ->
  effect false U ws (editing_session ws i f) [] [].
Proof.
  intros Hw Hf. unfold editing_session. destruct (sessions ws !! i) as [s|] eqn:Hi; [|by apply effect_none].
  destruct (f s) as [s'|] eqn:Ef; [|by apply effect_none]. apply (effect_of_edit U ws i s); [done|by apply Hf].
Qed.

Section Tabs.
Context {I : Type} `{FreshSource I} (U : gset RawUuid) (ws : TreeWorkspace).
Context (Hw : ws_wf ws) (HU : used ws ⊆ U).

Lemma located p i j s : locate ws p = Some (i, j) -> sessions ws !! i = Some s -> exists t, tabs s !! j = Some t /\ p ∈ leaves (root t).
Proof. intros (s' & t & Hi & Hj & Hp)%locate_some Hs. assert (s' = s) by congruence. subst. by exists t. Qed.

Lemma move_leaf_across_tabs_effect source target axis before ids :
  effect false U ws (move_leaf_across_tabs ws source target axis before ids).1 [] [].
Proof.
  unfold move_leaf_across_tabs. destruct (decide (source = target)); [by apply effect_none|].
  destruct (locate ws source) as [[i j]|] eqn:Es; [|by apply effect_none].
  destruct (locate ws target) as [[i' k]|] eqn:Et; [|by apply effect_none].
  destruct (Nat.eqb_spec i i') as [<-|]; [|by apply effect_none]. cbn [negb].
  destruct (Nat.eqb_spec j k) as [<-|Hne]; [by apply move_leaf_effect|].
  destruct (mint_split ids) as [fs ids']. cbn. apply effect_session; [done|]. intros s s' Hi Hedit.
  pose proof (located _ _ _ _ Es Hi) as Hs. destruct (located _ _ _ _ Et Hi) as (d & Hk & Ht). rewrite Hk in Hedit. cbn in Hedit.
  unfold inserting_beside in Hedit. rewrite (proj2 (contains_leaves _ _) Ht) in Hedit. cbn in Hedit.
  case_match; [done|]. destruct (session_at ws i s Hw Hi) as (Hok & Hnd & _).
  destruct (tab_at s k d Hok Hnd Hk) as ((Ha & _) & Hn & _). refine (land_edit ws i s source j k d _ s' Hw Hi Hs Hk (not_eq_sym Hne) _ _ Hedit).
  - by apply beside_shape.
  - by apply inserted_perm.
Qed.

Lemma move_leaf_to_tab_root_edge_effect source destination edge ids :
  effect false U ws (move_leaf_to_tab_root_edge ws source destination edge ids).1 [] [].
Proof.
  unfold move_leaf_to_tab_root_edge. destruct (locate ws source) as [[i j]|] eqn:Es; [|by apply effect_none].
  destruct (sessions ws !! i) as [s|] eqn:Hi; cbn; [|by apply effect_none].
  destruct (tab_position destination (tabs s)) as [k|] eqn:Ek; [|by apply effect_none].
  destruct (Nat.eqb_spec j k) as [<-|Hne]; [by apply move_leaf_to_root_edge_effect|].
  destruct (mint_split ids) as [fs ids']. cbn. apply effect_session; [done|]. intros s0 s' Hi0 Hedit.
  assert (s0 = s) by congruence. subst s0. apply list_find_position in Ek as (d & Hk & _). rewrite Hk in Hedit. cbn in Hedit.
  case_match; [done|]. destruct (session_at ws i s Hw Hi) as (Hok & Hnd & _).
  destruct (tab_at s k d Hok Hnd Hk) as ((Ha & _) & Hn & _). refine (land_edit ws i s source j k d _ s' Hw Hi (located _ _ _ _ Es Hi) Hk (not_eq_sym Hne) _ _ Hedit).
  - by apply root_shape.
  - apply root_leaves_perm.
Qed.

(** A tab put anywhere among the tabs of what is left of a session. *)
Lemma tab_added s t n :
  sinv (with_tabs s (insert_at n t (tabs s))) ≡ₚ leaves (root t) ++ sinv s /\
  tids (with_tabs s (insert_at n t (tabs s))) ≡ₚ tab_id t :: tids s.
Proof.
  rewrite !sinv_leaves. unfold tids. cbn. split.
  - rewrite app_assoc. f_equiv. apply (concat_insert_at (fun t => leaves (root t))).
  - by rewrite insert_at_perm.
Qed.
Lemma insert_at_end {A} (l : list A) a : l ++ [a] = insert_at (length l) a l.
Proof. unfold insert_at. by rewrite take_ge, drop_ge by done. Qed.
Lemma tab_new_ok tab r : arity_ok r = true -> tab_ok (tab_new tab r).
Proof. intros Ha. split; [done|]. split; [|done]. cbn. by apply (first_leaf_in (k := false)). Qed.

Lemma tid_new id : id ∉ U -> id ∉ all_tids ws.
Proof. unfold used in HU. set_solver. Qed.

Lemma tab_inserted V i s s1 t n m k removed brought :
  sessions ws !! i = Some s -> session_id s1 = session_id s -> NoDup (tids s1) -> (forall x, x ∈ tids s1 -> x ∈ tids s) ->
  Forall tab_ok (tabs s1) -> tab_ok t -> tab_id t ∉ all_tids ws -> tab_id t ∉ V -> removed ++ leaves (root t) ++ sinv s1 ≡ₚ brought ++ sinv s ->
  NoDup brought -> (forall x, x ∈ brought -> x ∉ inventory ws) ->
  dom m = list_to_set (leaves (root t) ++ sinv s1) -> (k <= length (tabs s1))%nat ->
  effect false V ws (put_session ws i (with_index (with_specs (with_tabs s1 (insert_at n t (tabs s1))) m) k)) removed brought.
Proof.
  intros Hi Hid Hnd Hsub Htabs Ht Hall Hnew Hp Hb Hbn Hd Hk. destruct (tab_added s1 t n) as [E1 E2].
  set (s2 := with_tabs s1 _) in *. assert (El : tabs s2 ≡ₚ t :: tabs s1) by apply insert_at_perm.
  assert (Ht2 : forall x, x ∈ tids s2 -> x ∈ tids s \/ x = tab_id t).
  { intros x. rewrite E2. intros [->|Hx]%elem_of_cons; [by right|left; by apply Hsub]. }
  apply (effect_edit V ws i s _ removed brought); [done| | |].
  - constructor; [done|done| | | |done|done].
    + change (NoDup (tids s2)). rewrite E2. apply NoDup_cons. split; [|done]. intros Hx%Hsub. apply Hall. by eapply tids_sub.
    + intros x [Hx| ->]%Ht2; [by left|by right].
    + change (removed ++ sinv s2 ≡ₚ brought ++ sinv s). by rewrite E1.
  - split; [|split; [|split]].
    + intros E. change (tabs s2 = []) in E. rewrite E in El. by apply Permutation_nil_cons in El.
    + change (k < length (tabs s2))%nat. rewrite El. cbn. lia.
    + change (Forall tab_ok (tabs s2)). rewrite El. by constructor.
    + change (dom m = list_to_set (sinv s2)). rewrite Hd. symmetry. by apply list_to_set_perm_L.
  - intros x [Hx| ->]%Ht2; [by left|by right].
Qed.

(** The same at the end, for a pane of its own that has a spec already. *)
Lemma leaf_appended i s s1 p tab :
  sessions ws !! i = Some s -> session_id s1 = session_id s -> NoDup (tids s1) -> (forall x, x ∈ tids s1 -> x ∈ tids s) ->
  Forall tab_ok (tabs s1) -> tab ∉ U -> p :: sinv s1 ≡ₚ sinv s -> specs s1 = specs s ->
  let grown := tabs s1 ++ [tab_new tab (Leaf p)] in
  effect false U ws (put_session ws i (with_index (with_tabs s1 grown) (pred (length grown)))) [] [].
Proof.
  intros Hi Hid Hnd Hsub Htabs Hnew Hp Hsp grown. unfold grown. rewrite length_app, Nat.add_1_r. cbn [pred].
  rewrite (insert_at_end (tabs s1)). destruct (session_at ws i s Hw Hi) as ((_ & _ & _ & Hd) & _).
  refine (tab_inserted U i s s1 (tab_new tab (Leaf p)) (length (tabs s1)) (specs s1) (length (tabs s1)) [] []
    Hi Hid Hnd Hsub Htabs (tab_new_ok tab (Leaf p) eq_refl) (tid_new _ Hnew) Hnew Hp (NoDup_nil_2) _ _ (le_n _)); [set_solver|].
  rewrite Hsp, Hd. symmetry. by apply list_to_set_perm_L.
Qed.

Lemma break_pane_to_tab_effect target tab : tab ∉ U -> effect false U ws (break_pane_to_tab ws target tab) [] [].
Proof.
  intros Htab. unfold break_pane_to_tab. destruct (locate ws target) as [[i j]|] eqn:El; [|by apply effect_none].
  unfold editing_session. destruct (sessions ws !! i) as [s|] eqn:Hi; [|by apply effect_none].
  destruct (located _ _ _ _ El Hi) as (t & Hj & Hp). rewrite Hj. cbn [mbind option_bind].
  destruct (leaf_count (root t) <=? 1)%nat; [by apply effect_none|].
  destruct (removing target (root t)) as [r|] eqn:Er; [|by apply effect_none]. cbn [mbind option_bind].
  destruct (session_at ws i s Hw Hi) as (Hok & Hnd & Htn & Hsub). pose proof (prune_spec target j s t Hok Hnd Htn Hj Hp) as Hpr.
  unfold prune_leaf_from_tab in Hpr. rewrite Hj, Er in Hpr. destruct Hpr as [Pid Pix Psp Pdet Pperm Pnd Ptids Ptabs _].
  by apply (leaf_appended i s).
Qed.

(** *** Detaching and reattaching *)

Lemma detached_edit target i j s t k :
  sessions ws !! i = Some s -> tabs s !! j = Some t -> target ∈ leaves (root t) ->
  let s1 := prune_leaf_from_tab s target j in
  let s2 := with_index (with_detached s1 (detached s1 ++ [mkDetached target (Some (tab_id t))])) k in
  edit ws i s s2 [] [] /\ pre_ok s2 /\ tids s2 ⊆ tids s.
Proof.
  intros Hi Hj Hp s1 s2. destruct (session_at ws i s Hw Hi) as (Hok & Hnd & Htn & Hsub).
  destruct (prune_spec target j s t Hok Hnd Htn Hj Hp) as [Pid Pix Psp Pdet Pperm Pnd Ptids Ptabs _]. fold s1 in Pid, Pix, Psp, Pdet, Pperm, Pnd, Ptids, Ptabs.
  assert (E : sinv s2 ≡ₚ sinv s).
  { rewrite <- Pperm, !sinv_leaves. cbn. rewrite map_app. cbn. rewrite app_assoc. by rewrite (Permutation_app_comm _ [target]). }
  split; [|split; [|exact Ptids]].
  - constructor; [done|by cbn|done|by left; apply Ptids|done|constructor|set_solver].
  - split; cbn; [eapply Forall_impl; [done|]; by intros d [? _]|]. rewrite Psp. destruct Hok as (_ & _ & _ & ->).
    change (list_to_set (sinv s) =@{gset RawUuid} list_to_set (sinv s2)). by apply list_to_set_perm_L.
Qed.
Lemma detach_pane_effect target ids : fresh ids U -> effect true U ws (detach_pane ws target ids).1 [] [].
Proof.
  intros Hf. unfold detach_pane. destruct (locate ws target) as [[i j]|] eqn:El; [|by apply effect_none].
  destruct (sessions ws !! i) as [s|] eqn:Hi; [|by apply effect_none]. destruct (located _ _ _ _ El Hi) as (t & Hj & Hp).
  cbn [mbind option_bind]. rewrite Hj. cbn [mbind option_bind]. cbn zeta.
  match goal with |- context [normalized (put_session _ _ (with_index _ ?k))] => destruct (detached_edit target i j s t k Hi Hj Hp) as (He & Hpre & Ht) end.
  apply (effect_repaired U ws i s); [done|exact He|exact Hpre|done|exact Ht|set_solver|done].
Qed.

(** The pane is detached afterwards: the repair keeps the lists of the detached. *)
Lemma repair_sessions_detached l (ids : I) : map detached (repair_sessions l ids).1 = map detached l.
Proof.
  revert ids. induction l as [|s l IH]; intros ids; [done|]. cbn.
  destruct (repair_session s ids) as [s' ids1] eqn:E. specialize (IH ids1). destruct (repair_sessions l ids1) as [l' ids2]. cbn in *. f_equal; [|done].
  unfold repair_session in E. destruct (tabs s); [destruct (mint_tab ids) as [tab ids3], (mint_pane ids3) as [pane ids4]|];
    injection E as <- _; by case_match.
Qed.
Lemma normalized_detached ws1 (ids : I) : ws_pre ws1 -> detached_pane_ids (normalized ws1 ids).1 = detached_pane_ids ws1.
Proof.
  intros (Hne & Hs & Hu). unfold normalized. rewrite normalizing_specs_id; [|eapply Forall_impl; [done|]; by intros s [_ ?]|done].
  unfold normalizing_active. destruct (sessions ws1) as [|s0 l0] eqn:El; [done|]. rewrite <- El. pose proof (repair_sessions_detached (sessions ws1) ids) as E.
  destruct (repair_sessions (sessions ws1) ids) as [l ids']. cbn [fst] in *. unfold detached_pane_ids. cbn.
  assert (G : forall k, map (fun s => map pane (detached s)) k = map (map pane) (map detached k)) by (intros k; by rewrite map_map).
  by rewrite !G, E.
Qed.
Lemma detach_pane_detaches target ids : is_Some (locate ws target) -> target ∈ detached_pane_ids (detach_pane ws target ids).1.
Proof.
  intros [[i j] El]. unfold detach_pane. rewrite El. apply locate_some in El as (s & t & Hi & Hj & Hp).
  rewrite Hi. cbn [mbind option_bind]. rewrite Hj. cbn [mbind option_bind]. cbn zeta.
  match goal with |- context [normalized (put_session _ _ (with_index _ ?k))] => destruct (detached_edit target i j s t k Hi Hj Hp) as (He & Hpre & _) end.
  rewrite normalized_detached by exact (edit_pre ws i s _ [] [] Hw He Hpre).
  apply elem_of_all. eexists. split; [apply list_elem_of_lookup; exists i; cbn; apply list_lookup_insert_eq; by eapply lookup_lt_Some|].
  cbn. rewrite map_app. apply elem_of_app. right. by left.
Qed.
(** A detached pane taken out of its session's list. *)
Lemma session_is_detached_spec p s : session_is_detached p s = true <-> p ∈ map pane (detached s).
Proof.
  unfold session_is_detached. rewrite existsb_exists, list_elem_of_fmap. split.
  - intros (e & He & Hp%bool_decide_eq_true). exists e. split; [done|]. by apply list_elem_of_In.
  - intros (e & -> & He). exists e. split; [by apply list_elem_of_In|]. by apply bool_decide_eq_true.
Qed.
Lemma map_pane_filter p l : map pane (filter (fun e => pane e <> p) l) = filter (.≠ p) (map pane l).
Proof.
  induction l as [|e l IH]; [done|]. cbn [map]. rewrite !filter_cons. destruct (decide (pane e <> p)); cbn; by rewrite <- IH.
Qed.
Lemma undetached p s :
  NoDup (sinv s) -> p ∈ map pane (detached s) ->
  p :: sinv (with_detached s (filter (fun e => pane e <> p) (detached s))) ≡ₚ sinv s.
Proof.
  rewrite !sinv_leaves. intros (_ & _ & Hnd)%NoDup_app Hp. cbn. rewrite map_pane_filter.
  rewrite Permutation_middle. f_equiv. symmetry. by apply filter_ne_perm.
Qed.
Lemma detached_position_some p i : detached_position ws p = Some i -> exists s, sessions ws !! i = Some s /\ p ∈ map pane (detached s).
Proof. unfold detached_position. intros (s & Hi & Hd)%list_find_position. exists s. split; [done|]. by apply session_is_detached_spec. Qed.

Lemma redock_edit i s p origin fs s' :
  sessions ws !! i = Some s -> p ∈ map pane (detached s) ->
  redock (with_detached s (filter (fun e => pane e <> p) (detached s))) origin p fs = Some s' ->
  edit ws i s s' [] [] /\ session_ok s' /\ tids s' ⊆ tids s.
Proof.
  intros Hi Hp. destruct (session_at ws i s Hw Hi) as (Hok & Hnd & Htn & Hsub). pose proof (undetached p s Hnd Hp) as E.
  unfold redock. set (s1 := with_detached s _) in *. destruct origin as [origin|]; [|done]. cbn [mbind option_bind].
  destruct (tab_position origin (tabs s1)) as [n|] eqn:En; [|done]. cbn [mbind option_bind].
  apply list_find_position in En as (t & Ht & _). rewrite Ht. cbn [mbind option_bind].
  set (grown := inserting_at_root _ _ _ _ _). destruct (depth grown <=? MAX_DEPTH)%nat; [|done]. intros [= <-].
  assert (Hg : leaves grown ≡ₚ p :: leaves (root t)) by apply root_leaves_perm.
  pose proof (put_tab_sinv s1 n t (regrown t grown p) [] [p] Ht Hg) as E2. cbn [app] in E2. rewrite E in E2.
  assert (Et : tids (put_tab s1 n (regrown t grown p)) = tids s) by by apply (put_tab_tids s1 n t).
  set (s2 := put_tab s1 n _) in *. destruct Hok as (_ & _ & Htabs & Hd). split; [|split].
  - constructor; [done|done|change (NoDup (tids s2)); by rewrite Et| |by change (sinv s2 ≡ₚ sinv s)|constructor|set_solver].
    change (tids (with_index s2 n)) with (tids s2). rewrite Et. by left.
  - assert (Hlen : length (tabs s2) = length (tabs s)) by apply length_insert. pose proof (lookup_lt_Some _ _ _ Ht) as Hlt.
    split; [|split; [|split]].
    + intros E'. change (tabs s2 = []) in E'. rewrite E' in Hlen. cbn in *. lia.
    + change (n < length (tabs s2))%nat. rewrite Hlen. done.
    + cbn. apply Forall_insert; [done|]. apply regrown_ok; [|rewrite Hg; left]. apply root_shape.
      by apply (Forall_lookup_1 _ _ _ _ Htabs Ht).
    + change (dom (specs s) = list_to_set (sinv s2)). rewrite Hd. symmetry. by apply list_to_set_perm_L.
  - change (tids (with_index s2 n)) with (tids s2). by rewrite Et.
Qed.

Lemma in_ids i s s' : sessions ws !! i = Some s -> session_id s' = session_id s -> session_id s ∈ map session_id (sessions (put_session ws i s')).
Proof. intros Hi Hid. rewrite (put_session_ids ws i s) by done. apply (list_elem_of_fmap_2 session_id). by eapply list_elem_of_lookup_2. Qed.

Lemma reattach_pane_effect target tab ids : tab ∉ U -> effect false U ws (reattach_pane ws target tab ids).1 [] [].
Proof.
  intros Htab. unfold reattach_pane, detached_owner. destruct (detached_position ws target) as [i|] eqn:Ed; [|by apply effect_none].
  cbn [mbind option_bind]. apply detached_position_some in Ed as (s & Hi & Hp). rewrite Hi. cbn [mbind option_bind].
  destruct (match session_spec_for target s with Some _ => _ | None => _ end); [by apply effect_none|].
  destruct (mint_split ids) as [fs ids']. rewrite Hi. cbn [fst].
  destruct (session_at ws i s Hw Hi) as (Hok & Hnd & Htn & Hsub). set (origin := _ ≫= _). set (s1 := with_detached s _).
  destruct (redock s1 origin target fs) as [s'|] eqn:Er.
  - apply (redock_edit i s) in Er; [|done|done]. apply effect_activate; [by apply (effect_of_edit U ws i s)|].
    apply (in_ids i s s'); [done|apply Er].
  - apply effect_activate; [|by apply (in_ids i s)]. apply (leaf_appended i s s1); try done; [|by apply undetached]. apply Hok.
Qed.

Lemma active_session_found : exists i s, active_session_index ws = Some i /\ sessions ws !! i = Some s.
Proof.
  destruct Hw as (Hne & _ & _ & id & Ha & Hid). unfold active_session_index. rewrite Ha.
  destruct (list_find (fun s => session_id s = id) (sessions ws)) as [[i s]|] eqn:E.
  - apply list_find_Some in E as (Hi & _). by exists i, s.
  - apply list_find_None in E. apply list_elem_of_fmap in Hid as (s & -> & Hs). rewrite Forall_forall in E. by apply E in Hs.
Qed.

Lemma mint_detached_pane_effect spec p :
  p ∉ inventory ws -> effect false U ws (mint_detached_pane ws spec p) [] [p].
Proof.
  intros Hp. unfold mint_detached_pane. destruct active_session_found as (i & s & -> & Hi). unfold editing_session. rewrite Hi.
  destruct (session_at ws i s Hw Hi) as (Hok & Hnd & Htn & Hsub).
  destruct (match tabs s !! active_tab_index s with Some t => Some t | None => head (tabs s) end) as [o|] eqn:Eo.
  2:{ destruct Hok as (_ & Hx & _). apply lookup_lt_is_Some in Hx as [o Ho]. by rewrite Ho in Eo. }
  cbn [mbind option_bind]. set (s2 := with_detached _ _).
  assert (E : sinv s2 ≡ₚ p :: sinv s).
  { rewrite !sinv_leaves. cbn. rewrite map_app. cbn. rewrite app_assoc. by rewrite (Permutation_app_comm _ [p]). }
  apply (effect_of_edit U ws i s); [done|]. split; [|split; [|done]].
  - constructor; [done|done|done|by left|by rewrite E|apply NoDup_singleton|set_solver].
  - destruct Hok as (H1 & H2 & H3 & H4). split; [done|]. split; [done|]. split; [done|]. cbn.
    rewrite dom_insert_L, H4, (list_to_set_perm_L _ _ E). set_solver.
Qed.

Lemma close_detached_pane_effect target :
  effect false U ws (close_detached_pane ws target) (if detached_position ws target then [target] else []) [].
Proof.
  unfold close_detached_pane. destruct (detached_position ws target) as [i|] eqn:Ed; [|by apply effect_none].
  apply detached_position_some in Ed as (s & Hi & Hp). unfold editing_session. rewrite Hi.
  destruct (session_at ws i s Hw Hi) as (Hok & Hnd & Htn & Hsub). pose proof (undetached target s Hnd Hp) as E.
  set (s1 := with_detached s _) in *. apply (effect_of_edit U ws i s); [done|]. split; [|split; [|done]].
  - constructor; [done|done|done|by left|by cbn [app]|constructor|set_solver].
  - destruct Hok as (H1 & H2 & H3 & H4). split; [done|]. split; [done|]. split; [done|]. cbn. change (sinv (with_specs _ _)) with (sinv s1).
    rewrite dom_delete_L, H4. rewrite <- E in Hnd. apply NoDup_cons in Hnd as [Hn _].
    rewrite <- (list_to_set_perm_L _ _ E). cbn. set_solver.
Qed.

(** *** New tabs *)

Lemma new_tab_index_le s position : session_ok s -> (new_tab_index s position <= length (tabs s))%nat.
Proof. intros (_ & Hx & _). unfold new_tab_index, insertion_index. repeat case_match; lia. Qed.

Lemma new_tab_effect spec position tab p :
  tab ∉ U -> p ∉ inventory ws -> effect false U ws (new_tab ws spec position tab p) [] [p].
Proof.
  intros Htab Hp. unfold new_tab. destruct active_session_found as (i & s & -> & Hi). unfold editing_session. rewrite Hi.
  destruct (session_at ws i s Hw Hi) as (Hok & Hnd & Htn & Hsub). pose proof (new_tab_index_le s position Hok) as Hx.
  set (m := <[p := spec]> (specs s)). set (n := new_tab_index s position) in *.
  refine (tab_inserted U i s s (tab_new tab (Leaf p)) n m n [] [p]
    Hi eq_refl Htn (fun _ h => h) _ (tab_new_ok tab (Leaf p) eq_refl) (tid_new _ Htab) Htab _ (NoDup_singleton p) _ _ Hx); [apply Hok|done|set_solver|].
  unfold m. rewrite dom_insert_L. destruct Hok as (_ & _ & _ & ->). set_solver.
Qed.
(** A tab that comes from elsewhere, with or without the specs of its panes. *)
Lemma repair_specs_reseeds s :
  NoDup (sinv s) -> (forall p, p ∈ map pane (detached s) -> is_Some (specs s !! p)) ->
  exists m, repair_specs s = with_specs s m /\ dom m = list_to_set (sinv s).
Proof.
  intros Hnd Hd. pose proof (repair_specs_dom s) as Hdom.
  assert (E : retain_detached (leaf_id_set s) (specs s) ∅ (detached s) = detached s).
  { unfold sinv in Hnd. apply NoDup_app in Hnd as (_ & Hdis & Hnd).
    destruct (retain_detached_spec (leaf_id_set s) (specs s) ∅ (detached s)) as (_ & _ & Hk). apply Hk; [|done].
    intros e He. assert (Hp : pane e ∈ map pane (detached s)) by by apply (list_elem_of_fmap_2 pane).
    split; [|split; [by apply Hd|set_solver]]. intros Hl%elem_of_list_to_set. by apply (Hdis (pane e)). }
  unfold repair_specs in *. rewrite E in *. destruct s as [id nm l ix m det]. eexists. split; [reflexivity|].
  unfold sinv, session_panes in *. cbn in *. exact Hdom.
Qed.
Lemma adopt_specs_dom m into l p : p ∈ dom (adopt_specs m into l) -> p ∈ dom into \/ p ∈ l.
Proof.
  revert into. induction l as [|q l IH]; intros into; cbn; [by left|]. intros [Hp|Hp]%IH; [|right; by right].
  destruct (m !! q); [|by left]. apply dom_insert in Hp. set_solver.
Qed.
Lemma adopt_specs_keeps m into l p : p ∈ dom into -> p ∈ dom (adopt_specs m into l).
Proof. revert into. induction l as [|q l IH]; intros into Hp; cbn; [done|]. apply IH. destruct (m !! q); [|done]. rewrite dom_insert. set_solver. Qed.

Lemma insert_tab_effect V t m position :
  tab_ok t -> tab_id t ∉ all_tids ws -> tab_id t ∉ V -> NoDup (leaves (root t)) -> (forall x, x ∈ leaves (root t) -> x ∉ inventory ws) ->
  effect false V ws (insert_tab ws t m position) [] (leaves (root t)).
Proof.
  intros Ht Hall Htab Hn Hnew. unfold insert_tab. destruct active_session_found as (i & s & -> & Hi). unfold editing_session. rewrite Hi.
  destruct (session_at ws i s Hw Hi) as (Hok & Hnd & Htn & Hsub). pose proof (new_tab_index_le s position Hok) as Hx.
  set (n := new_tab_index s position) in *. set (m0 := adopt_specs m (specs s) (tab_panes t)).
  set (s2 := with_index _ n). destruct (tab_added s t n) as [E _].
  assert (Hnd2 : NoDup (sinv s2)).
  { change (sinv s2) with (sinv (with_tabs s (insert_at n t (tabs s)))). rewrite E. apply NoDup_app. split; [done|].
    split; [|done]. intros x Hxl Hxs. by apply (Hnew x), Hsub. }
  destruct (repair_specs_reseeds s2 Hnd2) as (m' & Em & Hdm).
  { intros p Hp. apply elem_of_dom, adopt_specs_keeps. destruct Hok as (_ & _ & _ & ->). rewrite sinv_leaves. set_solver. }
  assert (En : normalizing_specs (put_session ws i s2) = put_session ws i (with_specs s2 m')).
  { unfold normalizing_specs, put_session, with_sessions. cbn. f_equal. apply list_eq. intros k. rewrite list_lookup_fmap.
    destruct (decide (i = k)) as [<-|Hne].
    - rewrite !list_lookup_insert_eq by by eapply lookup_lt_Some. cbn. by rewrite Em.
    - rewrite !list_lookup_insert_ne by done. destruct (sessions ws !! k) as [s'|] eqn:Hk; [|done]. cbn. f_equal.
      destruct (session_at ws k s' Hw Hk) as ((_ & _ & _ & ?) & ? & _). by apply repair_specs_id. }
  rewrite En. refine (tab_inserted V i s s t n m' n [] (leaves (root t)) Hi eq_refl Htn (fun _ h => h) _ Ht Hall Htab _ Hn Hnew _ Hx).
  - apply Hok.
  - done.
  - rewrite Hdm. apply list_to_set_perm_L. exact E.
Qed.

(** *** Focus, selection and names *)

Lemma focus_pane_effect target : effect false U ws (focus_pane ws target) [] [].
Proof.
  unfold focus_pane. destruct (locate ws target) as [[i j]|] eqn:El; [|by apply effect_none].
  apply locate_some in El as (s & t & Hi & Hj & Hp). rewrite Hi. cbn [mbind option_bind]. rewrite Hj. cbn [mbind option_bind].
  set (t' := with_panes t _ _ _). destruct (session_at ws i s Hw Hi) as (Hok & Hnd & Htn & Hsub).
  destruct (tab_at s j t Hok Hnd Hj) as ((Ha & _ & Hz) & Hn & _).
  assert (Ht : tab_ok t').
  { split; [done|]. split; [by exists target|]. cbn. destruct (decide _) as [E|]; [|done]. rewrite E. by intros z [= <-]. }
  destruct (tab_edit ws i j s t t' (specs s) j [] [] Hw Hi Hj eq_refl Ht) as [He Ho];
    [done|constructor|set_solver| |by eapply lookup_lt_Some|].
  { destruct Hok as (_ & _ & _ & ->). apply list_to_set_perm_L. symmetry. by apply (put_tab_sinv s j t t' [] [] Hj). }
  apply effect_activate; [|by apply (in_ids i s)].
  apply (effect_edit U ws i s); [done|exact He|exact Ho|]. intros x. left. by rewrite <- (put_tab_tids s j t t').
Qed.

Lemma select_session_effect id : effect false U ws (select_session ws id) [] [].
Proof.
  unfold select_session. destruct (existsb _ _) eqn:E; [|by apply effect_none]. apply effect_activate; [by apply effect_none|].
  apply existsb_exists in E as (s & Hs & Hid%bool_decide_eq_true). rewrite <- Hid. apply (list_elem_of_fmap_2 session_id). by apply list_elem_of_In.
Qed.

Lemma rename_tab_effect tab title : effect false U ws (rename_tab ws tab title) [] [].
Proof.
  unfold rename_tab. destruct (locate_tab ws tab) as [[i j]|]; [|by apply effect_none].
  apply effect_same_panes; [done|]. by intros s t t' _ _ [= <-] Ht _.
Qed.

Lemma relabelled i s s' :
  sessions ws !! i = Some s -> session_id s' = session_id s -> tabs s' = tabs s -> detached s' = detached s ->
  active_tab_index s' = active_tab_index s -> dom (specs s') = dom (specs s) ->
  edit ws i s s' [] [] /\ session_ok s' /\ tids s' ⊆ tids s.
Proof.
  intros Hi Hid Ht Hd Hx Hs. destruct (session_at ws i s Hw Hi) as ((H1 & H2 & H3 & H4) & Hnd & Htn & Hsub).
  assert (E : sinv s' = sinv s) by (rewrite !sinv_leaves; by rewrite Ht, Hd). assert (Et : tids s' = tids s) by (unfold tids; by rewrite Ht).
  split; [|split; [|by rewrite Et]].
  - constructor; [done|done|by rewrite Et|rewrite Et; by left|by rewrite E|constructor|set_solver].
  - split; [by rewrite Ht|]. split; [by rewrite Ht, Hx|]. split; [by rewrite Ht|]. by rewrite Hs, E.
Qed.
Lemma rename_session_effect id name : effect false U ws (rename_session ws id name) [] [].
Proof.
  unfold rename_session. destruct (session_position id ws) as [i|]; [|by apply effect_none].
  apply effect_session; [done|]. intros s s' Hi [= <-]. by apply relabelled.
Qed.
Lemma updating_spec_effect target transform : effect false U ws (updating_spec ws target transform) [] [].
Proof.
  unfold updating_spec. destruct (match locate ws target with Some _ => _ | None => _ end) as [i|]; [|by apply effect_none].
  apply effect_session; [done|]. intros s s' Hi. destruct (specs s !! target) as [spec|] eqn:E; [|done]. intros [= <-].
  apply relabelled; try done. apply dom_insert_lookup_L. by eexists.
Qed.
End Tabs.
