(* ===== verification/CloseLaws.v ===== *)
(** * CloseLaws: closing panes, tabs and sessions

    What a close takes with it: a tab that loses its last pane, a session that loses its last tab, and the
    default that takes the place of the last session. *)

From stdpp Require Import gmap sorting.
From S2P Require Import Prelude Bytes BTree Message Document Cells Float Tree TreeLaws Layout LayoutLaws Identity Workspace WorkspaceLaws TreeOps OpsLaws TabLaws.

Section Closing.
Context {I : Type} `{FreshSource I} (U : gset RawUuid) (ws : TreeWorkspace).
Context (Hw : ws_wf ws) (HU : used ws ⊆ U).

(** *** A session gone *)

Lemma dropped_sessions i s :
  sessions ws !! i = Some s ->
  let l := remove_at i (sessions ws) in
  sinv s ++ concat (map sinv l) ≡ₚ inventory ws /\ Forall session_ok l /\
  NoDup (map session_id l) /\ NoDup (concat (map tids l)) /\ NoDup (concat (map sinv l)) /\
  (forall x, x ∈ concat (map tids l) -> x ∈ all_tids ws).
Proof.
  intros Hi l. destruct Hw as (_ & Hs & (U1 & U2 & U3) & _).
  pose proof (concat_remove sinv _ _ _ Hi) as E1. pose proof (concat_remove tids _ _ _ Hi) as E2. fold (remove_at i (sessions ws)) in *.
  split; [exact E1|]. split; [|split; [|split; [|split]]].
  - rewrite Forall_forall in *. intros x Hx. apply Hs. by eapply remove_at_sub.
  - unfold l. rewrite map_remove_at. eapply sublist_NoDup; [exact U1|apply remove_at_sublist].
  - unfold all_tids in U2. rewrite <- E2 in U2. by apply NoDup_app in U2 as (_ & _ & ?).
  - unfold inventory in U3. rewrite <- E1 in U3. by apply NoDup_app in U3 as (_ & _ & ?).
  - intros x Hx. unfold all_tids. rewrite <- E2. apply elem_of_app. by right.
Qed.

Definition without_session (i : nat) (id : RawUuid) : TreeWorkspace :=
  let next := with_sessions ws (remove_at i (sessions ws)) in
  if decide (active_session_id next = Some id)
  then with_active_session next (session_id <$> (sessions next !! Nat.min i (pred (length (sessions next)))))
  else next.

Lemma without_session_effect i s removed :
  sessions ws !! i = Some s -> removed ≡ₚ sinv s -> remove_at i (sessions ws) <> [] ->
  effect true U ws (without_session i (session_id s)) removed [].
Proof.
  intros Hi Hr Hne. destruct (dropped_sessions i s Hi) as (Hp & Hs & U1 & U2 & U3 & Ht). unfold without_session. cbn [active_session_id sessions with_sessions].
  set (l := remove_at i (sessions ws)) in *.
  assert (Hgo : forall a, (exists id, a = Some id /\ id ∈ map session_id l) ->
    effect true U ws (mkWorkspace (schema_version ws) l a) removed []).
  { intros a Ha. constructor.
    - split; [done|]. split; [done|]. split; [done|]. destruct Ha as (id & -> & Hid). by exists id.
    - exists []. split; [|by split; [set_solver|]]. cbn. rewrite Hr. exact Hp.
    - intros x Hx. left. by apply Ht. }
  destruct (decide _) as [E|E]; apply Hgo.
  - assert (Hlt : (Nat.min i (pred (length l)) < length l)%nat) by (destruct l; [done|cbn; lia]).
    apply lookup_lt_is_Some in Hlt as [s' Hs']. rewrite Hs'. exists (session_id s'). split; [done|].
    apply (list_elem_of_fmap_2 session_id). by eapply list_elem_of_lookup_2.
  - destruct Hw as (_ & _ & _ & id & Ha & Hid). exists id. split; [done|]. unfold l.
    apply list_elem_of_fmap in Hid as (s' & -> & [k Hk]%list_elem_of_lookup). apply (list_elem_of_fmap_2 session_id).
    apply (elem_of_remove_at _ _ k); [done|]. intros ->. assert (s' = s) by congruence. subst. by apply E.
Qed.

Lemma default_effect i s removed ids :
  sessions ws !! i = Some s -> removed ≡ₚ sinv s -> remove_at i (sessions ws) = [] -> fresh ids U ->
  effect true U ws (mint_default ids).1 removed [].
Proof.
  intros Hi Hr Hnil Hf. destruct (dropped_sessions i s Hi) as (Hp & _). rewrite Hnil in Hp. cbn in Hp. rewrite app_nil_r in Hp.
  unfold mint_default. destruct (fresh_session ids U Hf) as [Hs Hf1]. destruct (mint_session ids) as [a ids1]. cbn [fst snd] in *.
  destruct (fresh_tab ids1 _ Hf1) as [Ht Hf2]. destruct (mint_tab ids1) as [b ids2]. cbn [fst snd] in *.
  destruct (fresh_pane ids2 _ Hf2) as [Hc _]. destruct (mint_pane ids2) as [c ids3]. cbn [fst snd] in *.
  constructor.
  - split; [done|]. split; [|split].
    + constructor; [|constructor]. split; [done|]. split; [cbn; lia|]. split; [constructor; [by apply tab_new_ok|constructor]|].
      rewrite sinv_leaves. cbn. rewrite dom_singleton_L. set_solver.
    + split; [|split]; cbn; apply NoDup_singleton.
    + exists a. split; [done|left].
  - exists [c]. split; [|by split; [set_solver|]]. cbn. rewrite Hr, <- Hp. apply Permutation_app_comm.
  - intros x Hx. right. apply list_elem_of_singleton in Hx as ->. set_solver.
Qed.

Lemma close_session_effect id ids :
  fresh ids U ->
  effect true U ws (close_session ws id ids).1
    (from_option sinv [] (i ← session_position id ws; sessions ws !! i)) [].
Proof.
  intros Hf. unfold close_session. destruct (session_position id ws) as [i|] eqn:Ei; [|by apply effect_none].
  apply list_find_position in Ei as (s & Hi & <-). cbn [mbind option_bind]. rewrite Hi. cbn [from_option].
  pose proof (without_session_effect i s (sinv s) Hi (Permutation_refl _)) as Hw1. unfold without_session in Hw1.
  destruct (sessions (with_sessions ws (remove_at i (sessions ws)))) as [|s0 l] eqn:El.
  - by apply (default_effect i s).
  - cbn in El. rewrite normalized_wf_id; [apply Hw1; by rewrite El|]. apply Hw1. by rewrite El.
Qed.

(** *** A tab gone *)

Lemma put_put i s1 s2 : put_session (put_session ws i s1) i s2 = put_session ws i s2.
Proof. unfold put_session, with_sessions. cbn. by rewrite list_insert_insert_eq. Qed.
Lemma remove_insert {A} (l : list A) i a : remove_at i (<[i := a]> l) = remove_at i l.
Proof. unfold remove_at. by rewrite take_insert_ge, drop_insert_lt by lia. Qed.

Lemma tab_closed i j s t m successor ids :
  sessions ws !! i = Some s -> tabs s !! j = Some t -> fresh ids U ->
  let s1 := with_tabs (with_specs s m) (remove_at j (tabs s)) in
  dom m = list_to_set (sinv s1) ->
  effect true U ws (let '(next, ids) := cascade_after_tab_removal (put_session ws i s1) i j successor ids in normalized next ids).1
    (leaves (root t)) [].
Proof.
  intros Hi Hj Hf s1 Hm. destruct (session_at ws i s Hw Hi) as (Hok & Hnd & Htn & Hsub).
  destruct (without_tab s j t Hok Htn Hj) as (Hp & Hn1 & Ht1 & Hok1). change (sinv (with_tabs s _)) with (sinv s1) in Hp.
  change (tids (with_tabs s _)) with (tids s1) in *.
  assert (He : forall k, edit ws i s (with_index s1 k) (leaves (root t)) []).
  { intros k. constructor; [done|done|done|by left; apply Ht1|done|constructor|set_solver]. }
  assert (Hlt : (i < length (sessions ws))%nat) by by eapply lookup_lt_Some.
  unfold cascade_after_tab_removal, editing_session. cbn [sessions put_session with_sessions]. rewrite list_lookup_insert_eq by done.
  destruct (tabs s1) as [|t0 ts] eqn:Et.
  - destruct (detached s1) as [|e l] eqn:Ed.
    + rewrite remove_insert. assert (Hr : leaves (root t) ≡ₚ sinv s).
      { rewrite <- Hp, (sinv_leaves s1), Et, Ed. cbn. by rewrite app_nil_r. }
      change (with_sessions (put_session ws i s1)) with (with_sessions ws).
      pose proof (without_session_effect i s _ Hi Hr) as G1. pose proof (default_effect i s _ ids Hi Hr) as G2.
      unfold without_session in G1. cbn [sessions with_sessions] in G1. change (session_id s1) with (session_id s).
      destruct (remove_at i (sessions ws)) as [|s0 l].
      * specialize (G2 eq_refl Hf). destruct (mint_default ids) as [next ids']. cbn [fst] in *.
        rewrite normalized_wf_id; [exact G2|apply G2].
      * specialize (G1 ltac:(done)). rewrite normalized_wf_id; [exact G1|apply G1].
    + pose proof (effect_repaired U ws i s s1 _ _ ids Hw (He (active_tab_index s1))) as G. apply G; try done; [|set_solver].
      split; [by rewrite Et|done].
  - set (k := default _ _).
    assert (Hk : (k < length (tabs s1))%nat).
    { unfold k. rewrite <- Et. destruct (id ← successor; tab_position id (tabs s1)) as [n|] eqn:En; cbn [default from_option id].
      - destruct successor as [x|]; [|done]. cbn in En. apply list_find_position in En as (t' & Ht' & _). by eapply lookup_lt_Some.
      - rewrite Et. cbn. lia. }
    rewrite put_put. assert (G : effect true U ws (put_session ws i (with_index s1 k)) (leaves (root t)) []).
    { apply (effect_edit U ws i s); [done|apply He| |by left; apply Ht1].
      split; [change (tabs s1 <> []); by rewrite Et|]. split; [done|]. split; [exact Hok1|]. exact Hm. }
    rewrite normalized_wf_id; [exact G|apply G].
Qed.

Lemma delete_all_dom (m : Specs) l : dom (foldl (fun m id => delete id m) m l) = dom m ∖ list_to_set l.
Proof. revert m. induction l as [|x l IH]; intros m; cbn; [set_solver|]. rewrite IH, dom_delete_L. set_solver. Qed.

(** The table without the panes of the tab. *)
Lemma closed_specs i j s t m :
  sessions ws !! i = Some s -> tabs s !! j = Some t -> dom m = dom (specs s) ∖ list_to_set (leaves (root t)) ->
  dom m = list_to_set (sinv (with_tabs (with_specs s m) (remove_at j (tabs s)))).
Proof.
  intros Hi Hj Hm. destruct (session_at ws i s Hw Hi) as (Hok & Hnd & Htn & _).
  destruct (without_tab s j t Hok Htn Hj) as (Hp & _). rewrite <- Hp in Hnd. apply NoDup_app in Hnd as (_ & Hdis & _).
  rewrite Hm. destruct Hok as (_ & _ & _ & ->). rewrite <- (list_to_set_perm_L _ _ Hp), list_to_set_app_L.
  change (sinv (with_tabs (with_specs s m) _)) with (sinv (with_tabs s (remove_at j (tabs s)))). apply set_eq. intros x. rewrite elem_of_difference, elem_of_union, !elem_of_list_to_set. specialize (Hdis x). clear -Hdis. tauto.
Qed.

Definition tab_at_position (i j : nat) : option Tab := s ← sessions ws !! i; tabs s !! j.
Lemma close_tab_effect tab successor ids :
  fresh ids U ->
  effect true U ws (close_tab ws tab successor ids).1
    (from_option (fun t => leaves (root t)) [] ('(i, j) ← locate_tab ws tab; tab_at_position i j)) [].
Proof.
  intros Hf. unfold close_tab. destruct (locate_tab ws tab) as [[i j]|] eqn:El; [|by apply effect_none].
  cbn [mbind option_bind]. unfold tab_at_position. destruct (sessions ws !! i) as [s|] eqn:Hi; cbn [mbind option_bind]; [|by apply effect_none].
  destruct (tabs s !! j) as [t|] eqn:Hj; cbn [mbind option_bind from_option]; [|by apply effect_none].
  set (m := foldl _ (specs s) _). apply (tab_closed i j s t m); [done|done|done|]. apply (closed_specs i j s t m); [done|done|].
  unfold m. rewrite delete_all_dom. unfold tab_panes. by rewrite all_pane_ids_leaves.
Qed.

Lemma close_pane_effect target successor ids :
  fresh ids U -> effect true U ws (close_pane ws target successor ids).1 (if locate ws target then [target] else []) [].
Proof.
  intros Hf. unfold close_pane. destruct (locate ws target) as [[i j]|] eqn:El; [|by apply effect_none].
  apply locate_some in El as (s & t & Hi & Hj & Hp). rewrite Hi. cbn [mbind option_bind]. rewrite Hj. cbn [mbind option_bind].
  destruct (session_at ws i s Hw Hi) as (Hok & Hnd & Htn & _). destruct (tab_at s j t Hok Hnd Hj) as (Ht & Hn & Hls).
  destruct (removing target (root t)) as [r|] eqn:Er.
  - set (t' := with_panes t r _ _). set (m := delete target (specs s)).
    destruct (first_leaf_in (k := false) r) as (f & Ef & Hfl); [by eapply removing_shape; [apply Ht|]|].
    assert (Hperm : [target] ++ leaves (root t') ≡ₚ [] ++ leaves (root t)) by by apply removed_perm.
    assert (Hok' : tab_ok t').
    { apply pruned_ok; [done|done| |].
      - intros x. destruct (neighbour target t) as [y|] eqn:Ey; [|congruence]. intros [= <-]. apply neighbour_in in Ey as [Hne Hy].
        rewrite (removing_some _ _ _ Er). by apply list_elem_of_filter.
      - destruct (neighbour target t); rewrite ?Ef; by eexists. }
    destruct (tab_edit ws i j s t t' m (active_tab_index s) [target] [] Hw Hi Hj eq_refl Hok' Hperm) as [He Ho];
      [constructor|set_solver| |apply Hok|].
    { pose proof (put_tab_sinv s j t t' _ _ Hj Hperm) as E. cbn [app] in E. rewrite <- E in Hnd. apply NoDup_cons in Hnd as [Hnt _].
      unfold m. rewrite dom_delete_L. destruct Hok as (_ & _ & _ & ->). rewrite <- (list_to_set_perm_L _ _ E). cbn. set_solver. }
    assert (G : effect true U ws (put_session ws i (put_tab (with_specs s m) j t')) [target] []).
    { apply (effect_edit U ws i s); [done|exact He|exact Ho|]. intros x. left. by rewrite <- (put_tab_tids s j t t'). }
    cbn [fst]. rewrite normalizing_specs_id; [exact G| |apply G].
    destruct G as [(_ & Hs & _) _ _]. eapply Forall_impl; [exact Hs|]. by intros s' (_ & _ & _ & ?).
  - apply removed_all in Er; [|apply Ht|done]. rewrite <- Er.
    apply (tab_closed i j s t (delete target (specs s))); [done|done|done|]. apply (closed_specs i j s t); [done|done|].
    rewrite dom_delete_L, Er. cbn. by rewrite (right_id_L ∅ (∪)).
Qed.

(** *** A session brought in *)

Lemma insert_session_effect s make_active :
  session_ok s -> session_id s ∉ map session_id (sessions ws) -> NoDup (tids s) -> (forall x, x ∈ tids s -> x ∉ U) -> NoDup (sinv s) -> (forall x, x ∈ sinv s -> x ∉ inventory ws) ->
  effect false U ws (insert_session ws s make_active) [] (sinv s).
Proof.
  intros Hs Hid Htn Htu Hnd Hnew.
  assert (G : effect false U ws (with_sessions ws (sessions ws ++ [s])) [] (sinv s)).
  { pose proof (concat_snoc sinv (sessions ws) s) as E1. pose proof (concat_snoc tids (sessions ws) s) as E2.
    destruct Hw as (Hne & Hall & (U1 & U2 & U3) & id & Ha & Hin). constructor.
    - split; [cbn; by destruct (sessions ws)|]. split; [cbn; apply Forall_app; split; [done|by constructor]|]. split; [split; [|split]|].
      + cbn. rewrite map_app, Permutation_app_comm. cbn. by apply NoDup_cons.
      + unfold all_tids. cbn. rewrite E2. apply NoDup_app. split; [done|]. split; [|done]. intros x Hx Hx2. apply (Htu x Hx).
        unfold used, all_tids in HU. set_solver.
      + unfold inventory. cbn. rewrite E1. apply NoDup_app. split; [done|]. by split.
      + exists id. split; [done|]. cbn. rewrite map_app. set_solver.
    - exists []. split; [|by split; [set_solver|]]. cbn. exact E1.
    - intros x. unfold all_tids. cbn. rewrite E2. intros [Hx|Hx]%elem_of_app; [right; by apply Htu|by left]. }
  unfold insert_session. destruct make_active; [|done]. apply effect_activate; [done|]. cbn. rewrite map_app. set_solver.
Qed.
End Closing.
