(* ===== verification/Requests.v ===== *)
(** * Requests: every operation on the workspace, as one request

    One constructor per public operation of [tree_ops.rs] that edits a workspace while the program runs
    (the launch restore is the load's), what each takes away and brings in, and the theorem over all of
    them. *)

From stdpp Require Import gmap sorting.
From S2P Require Import Prelude Bytes BTree Message Document Cells Float Tree TreeLaws Layout LayoutLaws Identity Workspace WorkspaceLaws TreeOps OpsLaws TabLaws CloseLaws.

Inductive Request : Type :=
| SplitPane (target : RawUuid) (axis : SplitAxis) (spec : PaneSpec) (before : bool) (pane : RawUuid)
| ClosePane (target : RawUuid) (successor : option RawUuid)
| SetDividerWeight (split : RawUuid) (leading_index : nat) (leading_weight : f64)
| SwapPanes (a b : RawUuid)
| MoveLeaf (source target : RawUuid) (axis : SplitAxis) (before : bool)
| MoveLeafToRootEdge (source : RawUuid) (edge : PaneDropEdge)
| MoveLeafAcrossTabs (source target : RawUuid) (axis : SplitAxis) (before : bool)
| MoveLeafToTabRootEdge (source destination : RawUuid) (edge : PaneDropEdge)
| FocusPane (target : RawUuid)
| NewTab (spec : PaneSpec) (position : NewTabPosition) (tab pane : RawUuid)
| InsertTab (tab : Tab) (m : Specs) (position : NewTabPosition)
| CloseTab (tab : RawUuid) (successor : option RawUuid)
| RenameTab (tab : RawUuid) (title : list byte)
| InsertSession (session : Session) (make_active : bool)
| CloseSession (session : RawUuid)
| SelectSession (session : RawUuid)
| RenameSession (session : RawUuid) (name : list byte)
| UpdateSpec (target : RawUuid) (transform : PaneSpec -> PaneSpec)
| DetachPane (target : RawUuid)
| ReattachPane (target tab : RawUuid)
| MintDetachedPane (spec : PaneSpec) (pane : RawUuid)
| CloseDetachedPane (target : RawUuid)
| BreakPaneToTab (target tab : RawUuid).

Definition perform {I} `{IdSource I} (ws : TreeWorkspace) (r : Request) (ids : I) : TreeWorkspace * I :=
  match r with
  | SplitPane target axis spec before pane => split_pane ws target axis spec before pane ids
  | ClosePane target successor => close_pane ws target successor ids
  | SetDividerWeight split index w => (set_divider_weight ws split index w, ids)
  | SwapPanes a b => (swap_panes ws a b, ids)
  | MoveLeaf source target axis before => move_leaf ws source target axis before ids
  | MoveLeafToRootEdge source edge => move_leaf_to_root_edge ws source edge ids
  | MoveLeafAcrossTabs source target axis before => move_leaf_across_tabs ws source target axis before ids
  | MoveLeafToTabRootEdge source destination edge => move_leaf_to_tab_root_edge ws source destination edge ids
  | FocusPane target => (focus_pane ws target, ids)
  | NewTab spec position tab pane => (new_tab ws spec position tab pane, ids)
  | InsertTab tab m position => (insert_tab ws tab m position, ids)
  | CloseTab tab successor => close_tab ws tab successor ids
  | RenameTab tab title => (rename_tab ws tab title, ids)
  | InsertSession session make_active => (insert_session ws session make_active, ids)
  | CloseSession session => close_session ws session ids
  | SelectSession session => (select_session ws session, ids)
  | RenameSession session name => (rename_session ws session name, ids)
  | UpdateSpec target transform => (updating_spec ws target transform, ids)
  | DetachPane target => detach_pane ws target ids
  | ReattachPane target tab => reattach_pane ws target tab ids
  | MintDetachedPane spec pane => (mint_detached_pane ws spec pane, ids)
  | CloseDetachedPane target => (close_detached_pane ws target, ids)
  | BreakPaneToTab target tab => (break_pane_to_tab ws target tab, ids)
  end.

(** The panes a request takes out of the workspace, and those it brings in. *)
Definition takes (ws : TreeWorkspace) (r : Request) : list RawUuid :=
  match r with
  | ClosePane target _ => if locate ws target then [target] else []
  | CloseTab tab _ => from_option (fun t => leaves (root t)) [] ('(i, j) ← locate_tab ws tab; tab_at_position ws i j)
  | CloseSession session => from_option sinv [] (i ← session_position session ws; sessions ws !! i)
  | CloseDetachedPane target => if detached_position ws target then [target] else []
  | _ => []
  end.
Definition gives (ws : TreeWorkspace) (r : Request) : list RawUuid :=
  match r with
  | SplitPane target _ _ _ pane => if locate ws target then [pane] else []
  | NewTab _ _ _ pane | MintDetachedPane _ pane => [pane]
  | InsertTab tab _ _ => leaves (root tab)
  | InsertSession session _ => sinv session
  | _ => []
  end.
Definition may_empty (r : Request) : bool :=
  match r with ClosePane _ _ | CloseTab _ _ | CloseSession _ | DetachPane _ => true | _ => false end.

(** What a request must bring: identities that are new, and whole tabs and sessions that are well formed. *)
Definition admissible (U : gset RawUuid) (r : Request) : Prop :=
  match r with
  | SplitPane _ _ _ _ pane | MintDetachedPane _ pane => pane ∉ U
  | NewTab _ _ tab pane => tab ∉ U /\ pane ∉ U
  | InsertTab tab _ _ => tab_ok tab /\ tab_id tab ∉ U /\ NoDup (leaves (root tab)) /\ forall x, x ∈ leaves (root tab) -> x ∉ U
  | InsertSession s _ =>
    session_ok s /\ session_id s ∉ U /\ NoDup (tids s) /\ (forall x, x ∈ tids s -> x ∉ U) /\
    NoDup (sinv s) /\ forall x, x ∈ sinv s -> x ∉ U
  | ReattachPane _ tab | BreakPaneToTab _ tab => tab ∉ U
  | _ => True
  end.

Section Requests.
Context {I : Type} `{FreshSource I}.

Lemma effect_may {b} U ws ws' removed brought : effect false U ws ws' removed brought -> effect b U ws ws' removed brought.
Proof. intros [Hw (m & Hm & Hn & E) Ht]. constructor; [done| |done]. exists m. split; [done|]. split; [done|]. intros _. by apply E. Qed.

Lemma perform_effect U ws r (ids : I) :
  ws_wf ws -> used ws ⊆ U -> fresh ids U -> admissible U r ->
  effect (may_empty r) U ws (perform ws r ids).1 (takes ws r) (gives ws r).
Proof.
  intros Hw HU Hf. assert (Hinv : forall x, x ∉ U -> x ∉ inventory ws) by (intros x Hx Hi; by apply Hx, (inventory_used U ws)).
  destruct r; cbn [perform fst takes gives admissible may_empty]; intros Ha.
  - apply split_pane_effect; auto.
  - by apply close_pane_effect.
  - by apply set_divider_weight_effect.
  - by apply swap_panes_effect.
  - by apply move_leaf_effect.
  - by apply move_leaf_to_root_edge_effect.
  - by apply move_leaf_across_tabs_effect.
  - by apply move_leaf_to_tab_root_edge_effect.
  - by apply focus_pane_effect.
  - apply new_tab_effect; naive_solver.
  - destruct Ha as (? & ? & ? & ?). apply (insert_tab_effect U); auto. by apply (tid_new U).
  - by apply close_tab_effect.
  - by apply rename_tab_effect.
  - destruct Ha as (? & ? & ? & ? & ? & ?). apply insert_session_effect; auto. unfold used in HU. set_solver.
  - by apply close_session_effect.
  - by apply select_session_effect.
  - by apply rename_session_effect.
  - by apply updating_spec_effect.
  - by apply detach_pane_effect.
  - by apply reattach_pane_effect.
  - apply mint_detached_pane_effect; auto.
  - by apply close_detached_pane_effect.
  - by apply break_pane_to_tab_effect.
Qed.
End Requests.

(** Every operation keeps the workspace well formed and accounts for every pane.  With identities that
    are new to [U], which holds all that are in use, the result of any request is well formed (a session, a
    tab in each, focus and zoom inside their tabs, side tables whose keys are the panes, nothing twice, a
    selection that exists); its panes, tiled and detached, are those before less what the request closes
    plus what it brings, so a move, a swap, a detach or a re-dock never loses or repeats one; and only a
    request that can empty a session seeds a pane of its own, which is new. *)
Theorem operations_account_for_every_pane {I} `{FreshSource I} U ws r (ids : I) :
  ws_wf ws -> used ws ⊆ U -> fresh ids U -> admissible U r ->
  let ws' := (perform ws r ids).1 in
  ws_wf ws' /\
  (exists seeded, takes ws r ++ inventory ws' ≡ₚ seeded ++ gives ws r ++ inventory ws /\
     (forall x, x ∈ seeded -> x ∉ U) /\ (may_empty r = false -> seeded = [])) /\
  (forall x, x ∈ all_tids ws' -> x ∈ all_tids ws \/ x ∉ U).
Proof. intros Hw HU Hf Ha. by destruct (perform_effect U ws r ids Hw HU Hf Ha). Qed.

(** A source of identities that counts in unary: as long as no identity in use. *)
Definition unary (n : nat) : RawUuid * nat := (replicate n (byte_of_Z 0), S n).
#[export] Instance unary_source : IdSource nat :=
  {| mint_pane := unary; mint_tab := unary; mint_session := unary; mint_split := unary |}.
Lemma unary_fresh (n : nat) (X : gset RawUuid) :
  (forall x : RawUuid, x ∈ X -> (length x < n)%nat) ->
  (unary n).1 ∉ X /\ forall x : RawUuid, x ∈ {[(unary n).1]} ∪ X -> (length x < (unary n).2)%nat.
Proof.
  intros Hx. cbn. split; [intros Hn%Hx; rewrite length_replicate in Hn; lia|].
  intros x [->%elem_of_singleton|H%Hx]%elem_of_union; [rewrite length_replicate|]; lia.
Qed.
#[export] Instance unary_fresh_source : FreshSource nat.
Proof.
  apply (Build_FreshSource nat _ (fun n X => forall x : RawUuid, x ∈ X -> (length x < n)%nat)).
  - intros n X. apply unary_fresh.
  - intros n X. apply unary_fresh.
  - intros n X. apply unary_fresh.
  - intros n X Hx x H%Hx. cbn. lia.
  - intros n X Y Hs Hx x Hin. apply Hx. by apply Hs.
Defined.

(** Two tabs, the first with two panes; one pane detached. *)
Definition two_tabs : TreeWorkspace :=
  let uid := Examples.uid in
  let spec := spec_new Terminal (str "shell") in
  workspace_new
    [mkSession (uid 1) (str "main")
       [mkTab (uid 2) [] (Split (uid 9) Horizontal [leaf_child (uid 3); leaf_child (uid 4)]) (Some (uid 3)) None;
        mkTab (uid 5) [] (Leaf (uid 6)) (Some (uid 6)) None] 0
       {[uid 3 := spec; uid 4 := spec; uid 6 := spec; uid 7 := spec]} [mkDetached (uid 7) (Some (uid 2))]] (Some (uid 1)).
Lemma two_tabs_wf : ws_wf two_tabs.
Proof.
  split; [discriminate|]. split; [|split].
  - apply Forall_cons_2; [|apply Forall_nil_2]. split; [discriminate|]. split; [cbn; lia|]. split.
    + repeat first [apply Forall_nil_2 | apply Forall_cons_2]; (split; [vm_compute; reflexivity|]); (split; [|discriminate]);
        (eexists; split; [reflexivity|]); apply list_elem_of_here.
    + refine (bool_decide_unpack _ _); by vm_compute.
  - split; [|split]; (refine (bool_decide_unpack _ _); by vm_compute).
  - eexists. split; [reflexivity|]. apply list_elem_of_here.
Qed.
Lemma two_tabs_fresh : forall x : RawUuid, x ∈ used two_tabs -> (length x < 17)%nat.
Proof. change (set_Forall (fun x : RawUuid => (length x < 17)%nat) (used two_tabs)). refine (bool_decide_unpack _ _); by vm_compute. Qed.

Lemma operations_account_for_every_pane_witness :
  let ws' := (perform two_tabs (ClosePane (Examples.uid 3) None) 17%nat).1 in
  ws_wf ws' /\ exists seeded, [Examples.uid 3] ++ inventory ws' ≡ₚ seeded ++ inventory two_tabs.
Proof.
  assert (Hf : fresh 17%nat (used two_tabs)) by exact two_tabs_fresh.
  destruct (operations_account_for_every_pane (used two_tabs) two_tabs (ClosePane (Examples.uid 3) None) 17%nat
    two_tabs_wf (reflexivity _) Hf Logic.I) as (H1 & (seeded & H2 & _) & _).
  split; [exact H1|]. exists seeded. exact H2.
Defined.
