(* ===== verification/RetileLaws.v ===== *)
(** * RetileLaws: re-tiling keeps the panes and their order

    The five layouts of [tree_ops.rs] rebuild a tab's tree from its panes.  Each gives a tree of those panes
    in that order, with the shape the tree's operations rely on and every share equal; the grid has as few
    columns as hold the panes in a square, and rows that differ by one at most. *)

From stdpp Require Import gmap.
From S2P Require Import Prelude Bytes BTree Message Document Cells Float Tree TreeLaws Layout Identity Workspace TreeOps.

Section Retile.
Context {I : Type} `{IdSource I}.

(** ** The counting loops *)

Lemma grow_cols_spec fuel count cols :
  (1 <= cols)%nat -> (count <= fuel + cols)%nat ->
  let c := grow_cols fuel count cols in
  (cols <= c)%nat /\ (count <= c * c)%nat /\ (c = cols \/ ((c - 1) * (c - 1) < count)%nat).
Proof.
  revert cols. induction fuel as [|fuel IH]; intros cols Hc Hf; cbn [grow_cols].
  - split; [done|]. split; [nia|by left].
  - destruct (Nat.ltb_spec (cols * cols) count) as [Hlt|Hge]; [|split; [done|split; [done|by left]]].
    destruct (IH (S cols) ltac:(lia) ltac:(lia)) as (H1 & H2 & H3). split; [lia|]. split; [done|]. right.
    destruct H3 as [H3|H3]; [rewrite H3; replace (S cols - 1)%nat with cols by lia; lia|lia].
Qed.
Lemma grow_rows_spec fuel count cols rows :
  (1 <= cols)%nat -> (1 <= rows)%nat -> (count <= fuel + rows)%nat ->
  let r := grow_rows fuel count cols rows in
  (rows <= r)%nat /\ (count <= r * cols)%nat /\ (r = rows \/ ((r - 1) * cols < count)%nat).
Proof.
  revert rows. induction fuel as [|fuel IH]; intros rows Hc Hr Hf; cbn [grow_rows].
  - split; [done|]. split; [nia|by left].
  - destruct (Nat.ltb_spec (rows * cols) count) as [Hlt|Hge]; [|split; [done|split; [done|by left]]].
    destruct (IH (S rows) ltac:(lia) ltac:(lia) ltac:(lia)) as (H1 & H2 & H3). split; [lia|]. split; [done|]. right.
    destruct H3 as [H3|H3]; [rewrite H3; replace (S rows - 1)%nat with rows by lia; lia|lia].
Qed.

(** The width of a row: the base, and one more for the first few. *)
Definition near_equal (count rows r : nat) : nat := (count / rows + (if r <? count mod rows then 1 else 0))%nat.

Lemma near_equal_step count rows r :
  (r < rows)%nat ->
  near_equal (S count) rows r = (if decide (r = (count mod rows)%nat) then S (near_equal count rows r) else near_equal count rows r).
Proof.
  intros Hr. unfold near_equal. pose proof (Nat.div_mod_eq count rows) as E. pose proof (Nat.mod_upper_bound count rows ltac:(lia)) as Hm.
  set (q := (count / rows)%nat) in *. set (m := (count mod rows)%nat) in *.
  destruct (decide (S m = rows)) as [Hfull|Hpart].
  - assert (E1 : (S count = rows * S q + 0)%nat) by nia.
    rewrite <- (Nat.div_unique (S count) rows (S q) 0), <- (Nat.mod_unique (S count) rows (S q) 0) by lia.
    destruct (Nat.ltb_spec r 0), (Nat.ltb_spec r m), (decide (r = m)); lia.
  - assert (E1 : (S count = rows * q + S m)%nat) by lia.
    rewrite <- (Nat.div_unique (S count) rows q (S m)), <- (Nat.mod_unique (S count) rows q (S m)) by lia.
    destruct (Nat.ltb_spec r (S m)), (Nat.ltb_spec r m), (decide (r = m)); lia.
Qed.

Lemma sum_list_bump l k v : l !! k = Some v -> sum_list (alter S k l) = S (sum_list l).
Proof. revert k. induction l as [|x l IH]; intros [|k] Hk; try done. change (x + sum_list (alter S k l) = S (x + sum_list l))%nat. rewrite (IH _ Hk). lia. Qed.
Lemma row_widths_spec count rows :
  (1 <= rows)%nat ->
  length (row_widths count rows) = rows /\ sum_list (row_widths count rows) = count /\
  forall r, (r < rows)%nat -> row_widths count rows !! r = Some (near_equal count rows r).
Proof.
  intros Hrows. unfold row_widths. induction count as [|n IH].
  - cbn. rewrite length_replicate. split; [done|]. split; [|].
    + induction rows as [|rows IH]; [lia|]. cbn. destruct rows; [done|]. apply IH. lia.
    + intros r Hr. unfold near_equal. rewrite Nat.Div0.div_0_l, Nat.Div0.mod_0_l. by apply lookup_replicate_2.
  - rewrite seq_S, foldl_app. cbn [foldl plus]. destruct IH as (Hl & Hs & Hlook). set (l := foldl _ _ (seq 0 n)) in *.
    pose proof (Nat.mod_upper_bound n rows ltac:(lia)) as Hm. split; [by rewrite length_alter|]. split.
    + by rewrite (sum_list_bump _ _ _ (Hlook _ Hm)), Hs.
    + intros r Hr. rewrite near_equal_step by done. destruct (decide (r = (n mod rows)%nat)) as [->|Hne].
      * by rewrite list_lookup_alter_eq, Hlook.
      * by rewrite list_lookup_alter_ne, Hlook.
Qed.

(** ** The pieces *)

Lemma even_leaves l : leaves_of (map (fun p => even_child (Leaf p)) l) = l.
Proof. unfold leaves_of. rewrite map_map. cbn. induction l as [|p l IH]; [done|]. cbn. by rewrite IH. Qed.
Lemma flat_split_spec axis l ids :
  l <> [] ->
  let t := (flat_split axis l ids).1 in
  leaves t = l /\ shape_ok t = true /\ (depth t <= 2)%nat /\ forall other, other <> axis -> same_axis other t = false.
Proof.
  intros Hl. unfold flat_split. destruct l as [|a [|b l]]; [done| |]; [cbn; auto|]. destruct (mint_split ids) as [id ids']. cbn [fst].
  split; [apply even_leaves|]. split; [|split].
  - apply shape_split. split; [cbn; lia|]. apply Forall_map. apply Forall_forall. intros p _. apply leaf_child_ok.
  - apply depth_split. apply Forall_map, Forall_forall. intros p _. cbn. lia.
  - intros other Hne. cbn. apply bool_decide_eq_false. congruence.
Qed.
Lemma flat_split_child axis inner l ids :
  l <> [] -> inner <> axis ->
  let c := even_child (flat_split inner l ids).1 in
  child_shape_ok true axis c /\ leaves (node c) = l /\ (depth (node c) <= 2)%nat.
Proof.
  intros Hl Hne. destruct (flat_split_spec inner l ids Hl) as (H1 & H2 & H3 & H4). split; [split; [exact H2|]|by split].
  cbn. apply H4. congruence.
Qed.

Lemma main_split_spec outer inner l ids :
  (2 <= length l)%nat -> inner <> outer ->
  let t := (main_split outer inner l ids).1 in leaves t = l /\ shape_ok t = true /\ (depth t <= 3)%nat.
Proof.
  intros Hl Hne. destruct l as [|first rest]; [cbn in Hl; lia|]. unfold main_split.
  assert (Hr : rest <> []) by (intros ->; cbn in Hl; lia). pose proof (flat_split_child outer inner rest ids Hr Hne) as (H1 & H2 & H3).
  destruct (flat_split inner rest ids) as [companion ids1]. cbn [fst] in *. destruct (mint_split ids1) as [id ids2]. cbn [fst].
  split; [|split].
  - cbn in *. by rewrite app_nil_r, H2.
  - apply shape_split. split; [cbn; lia|]. apply Forall_cons_2; [apply leaf_child_ok|]. by apply Forall_cons_2.
  - apply depth_split. apply Forall_cons_2; [cbn; lia|]. by apply Forall_cons_2.
Qed.

Lemma tile_rows_spec widths start l ids :
  Forall (fun w => (1 <= w)%nat) widths -> (start + sum_list widths = length l)%nat ->
  let nodes := (tile_rows widths start l ids).1 in
  length nodes = length widths /\ concat (map leaves nodes) = drop start l /\
  Forall (fun t => child_shape_ok true Vertical (even_child t) /\ (depth t <= 2)%nat) nodes.
Proof.
  intros Hw. revert start ids. induction Hw as [|w widths Hw _ IH]; intros start ids Hsum.
  - cbn in *. rewrite drop_ge by lia. done.
  - change (sum_list (w :: widths)) with (w + sum_list widths)%nat in Hsum. cbn [tile_rows].
    replace (Nat.min (start + w) (length l)) with (start + w)%nat by lia.
    destruct (Nat.leb_spec start (start + w)) as [_|]; [|lia]. replace (start + w - start)%nat with w by lia.
    set (slice := take w (drop start l)).
    assert (Hne : slice <> []). { intros E. apply (f_equal length) in E. unfold slice in E. rewrite length_take, length_drop in E. cbn in E. lia. }
    pose proof (flat_split_child Vertical Horizontal slice ids Hne ltac:(done)) as (H1 & H2 & H3).
    destruct (flat_split Horizontal slice ids) as [n ids1]. cbn [fst] in *.
    destruct (IH (start + w)%nat ids1 ltac:(lia)) as (G1 & G2 & G3).
    destruct (tile_rows widths (start + w) l ids1) as [rest ids2]. cbn [fst app length map concat] in *.
    split; [by rewrite G1|]. split; [|by constructor].
    cbn in H2. rewrite H2, G2. unfold slice. rewrite (Nat.add_comm start w), <- skipn_skipn. apply take_drop.
Qed.

Lemma tiled_spec l ids :
  (2 <= length l)%nat ->
  let t := (tiled l ids).1 in leaves t = l /\ shape_ok t = true /\ (depth t <= 3)%nat.
Proof.
  intros Hl. unfold tiled. set (count := length l) in *.
  destruct (grow_cols_spec count count 1) as (C1 & C2 & _); [lia..|]. set (cols := grow_cols count count 1) in *.
  destruct (grow_rows_spec count count cols 1) as (R1 & R2 & R3); [lia..|]. set (rows := grow_rows count count cols 1) in *.
  assert (Hrows : (rows <= count)%nat) by nia.
  destruct (row_widths_spec count rows R1) as (W1 & W2 & W3).
  assert (Hpos : Forall (fun w => (1 <= w)%nat) (row_widths count rows)).
  { apply Forall_lookup. intros r w Hr. pose proof (lookup_lt_Some _ _ _ Hr) as Hlt. rewrite W1 in Hlt. rewrite W3 in Hr by done.
    injection Hr as <-. unfold near_equal. pose proof (Nat.div_le_lower_bound count rows 1 ltac:(lia) ltac:(lia)). lia. }
  destruct (tile_rows_spec (row_widths count rows) 0 l ids Hpos) as (T1 & T2 & T3); [by rewrite W2|].
  destruct (tile_rows (row_widths count rows) 0 l ids) as [nodes ids1]. cbn [fst] in *. rewrite W1 in T1. rewrite drop_0 in T2.
  assert (Hmany : (2 <= length nodes)%nat -> let t := (let '(id, ids2) := mint_split ids1 in (Split id Vertical (map even_child nodes), ids2)).1 in
    leaves t = l /\ shape_ok t = true /\ (depth t <= 3)%nat).
  { intros Hn. destruct (mint_split ids1) as [id ids2]. cbn [fst]. split; [|split].
    - cbn [leaves]. rewrite map_map. exact T2.
    - apply shape_split. rewrite length_map. split; [done|]. apply Forall_map. eapply Forall_impl; [exact T3|]. by intros t [? _].
    - apply depth_split. apply Forall_map. eapply Forall_impl; [exact T3|]. by intros t [_ ?]. }
  destruct nodes as [|a [|b nodes]]; [cbn in T1; lia| |apply Hmany; cbn; lia].
  cbn in T2. rewrite app_nil_r in T2. apply Forall_cons in T3 as [[[Hs _] Hd] _]. cbn in Hs. cbn [fst]. split; [done|]. split; [done|]. lia.
Qed.
End Retile.

(** Re-tiling a tab of two panes at least.  Every layout gives a tree of exactly those panes in that
    order, with two children to a split at least, no split along its parent's axis, and three levels at
    most.  The grid takes the fewest columns whose square holds the panes and the fewest rows of that many,
    and row [r] holds the base width and one more for the first few. *)
Theorem retiling_keeps_the_panes {I} `{IdSource I} layout l (ids : I) :
  (2 <= length l)%nat ->
  (let t := (rebuild layout l ids).1 in leaves t = l /\ shape_ok t = true /\ (depth t <= 3)%nat) /\
  (let count := length l in let cols := grow_cols count count 1 in let rows := grow_rows count count cols 1 in
   (count <= cols * cols)%nat /\ ((cols - 1) * (cols - 1) < count)%nat /\
   (count <= rows * cols)%nat /\ ((rows - 1) * cols < count)%nat /\
   sum_list (row_widths count rows) = count /\
   forall r, (r < rows)%nat -> row_widths count rows !! r = Some (near_equal count rows r)).
Proof.
  intros Hl. split.
  - assert (Hne : l <> []) by (intros ->; cbn in Hl; lia).
    pose proof (flat_split_spec Horizontal l ids Hne) as (A1 & A2 & A3 & _). pose proof (flat_split_spec Vertical l ids Hne) as (B1 & B2 & B3 & _).
    destruct layout; cbn [rebuild]; [split; [done|split; [done|lia]]|split; [done|split; [done|lia]]| | |by apply tiled_spec];
      by apply main_split_spec.
  - cbn zeta. destruct (grow_cols_spec (length l) (length l) 1) as (C1 & C2 & C3); [lia..|]. set (cols := grow_cols _ _ 1) in *.
    destruct (grow_rows_spec (length l) (length l) cols 1) as (R1 & R2 & R3); [lia..|]. set (rows := grow_rows _ _ cols 1) in *.
    destruct (row_widths_spec (length l) rows R1) as (_ & W2 & W3). repeat split; try done; [|].
    + destruct C3 as [->|?]; [cbn; lia|done].
    + destruct R3 as [->|?]; [cbn; lia|done].
Qed.

(** Seven panes tile as three, two and two. *)
Lemma retiling_keeps_the_panes_witness :
  let l := map Examples.uid [1; 2; 3; 4; 5; 6; 7] in
  leaves (rebuild Tiled l 0).1 = l /\ row_widths 7 (grow_rows 7 7 (grow_cols 7 7 1) 1) = [3; 2; 2]%nat.
Proof.
  intros l. assert (Hl : (2 <= length l)%nat) by (cbn; lia).
  destruct (retiling_keeps_the_panes Tiled l 0 Hl) as ((H & _) & _). split; [exact H|reflexivity].
Defined.
