(* ===== verification/MintLaws.v ===== *)
(** * MintLaws: the pool a repair pass is given is never short

    [RepairPass::minted_ids] tells the caller how many identities to pre-mint; one short and an identity
    would be used twice.  The counting source tells what a pass spends. *)

From stdpp Require Import gmap sorting.
From S2P Require Import Prelude Bytes BTree Message Document Cells Float Tree TreeLaws Layout Identity Workspace WorkspaceLaws TreeOps OpsLaws.

Lemma spent_session s (n : Z) : n <= (repair_session s n).2 <= n + 2.
Proof. unfold repair_session. destruct (tabs s); cbn; lia. Qed.
Lemma spent_sessions l (n : Z) :
  length (repair_sessions l n).1 = length l /\ n <= (repair_sessions l n).2 <= n + 2 * zlen l.
Proof.
  revert n. induction l as [|s l IH]; intros n; [cbn; lia|]. cbn [repair_sessions]. pose proof (spent_session s n) as Hs.
  destruct (repair_session s n) as [s' n1]. cbn [snd] in Hs. destruct (IH n1) as [Hl Hn].
  destruct (repair_sessions l n1) as [l' n2]. cbn [fst snd] in *. rewrite !length_cons. lia.
Qed.
Lemma spent_active ws (n : Z) : n <= (normalizing_active ws n).2 <= n + 3 + 2 * zlen (sessions ws).
Proof.
  unfold normalizing_active. destruct (sessions ws) as [|s l] eqn:E; [cbn; lia|]. pose proof (spent_sessions (s :: l) n) as [_ H].
  destruct (repair_sessions (s :: l) n) as [l' n']. cbn [snd] in *. lia.
Qed.
Lemma spent_normalized ws (n : Z) : n <= (normalized ws n).2 <= n + 3 + 2 * zlen (sessions ws).
Proof.
  unfold normalized. pose proof (spent_active (normalizing_specs ws) n) as H. cbn [sessions normalizing_specs with_sessions] in H. by rewrite length_map in H.
Qed.

Lemma reattach_sessions ws target tab (n : Z) :
  length (sessions (reattach_pane ws target tab n).1) = length (sessions ws) /\ n <= (reattach_pane ws target tab n).2 <= n + 1.
Proof.
  unfold reattach_pane. destruct (detached_owner ws target) as [i|]; [|cbn; lia]. cbn [mint_split counter_source counted].
  destruct (sessions ws !! i) as [s|]; cbn; [|lia]. rewrite length_insert. lia.
Qed.
Lemma spent_reattaching ws l (n : Z) :
  length (sessions (reattach_all ws l n).1) = length (sessions ws) /\ n <= (reattach_all ws l n).2 <= n + 2 * zlen l.
Proof.
  revert ws n. induction l as [|p l IH]; intros ws n; [cbn; lia|]. cbn [reattach_all mint_tab counter_source]. unfold counted.
  set (tab := _ :: _). pose proof (reattach_sessions ws p tab (n + 1)) as [H1 H2].
  destruct (reattach_pane ws p tab (n + 1)) as [ws1 n1]. cbn [fst snd] in *. destruct (IH ws1 n1) as [H3 H4].
  rewrite length_cons. lia.
Qed.
Lemma restore_index_sessions l ws : length (sessions (foldl restore_index ws l)) = length (sessions ws).
Proof.
  revert ws. induction l as [|[id k] l IH]; intros ws; cbn [foldl]; [done|]. rewrite IH. unfold restore_index.
  destruct (list_find _ _) as [[i s]|]; [|done]. destruct (_ <? _)%nat; [|done]. cbn. apply length_insert.
Qed.

Lemma drop_video_detached s : (length (detached (drop_video s)) <= length (detached s))%nat.
Proof. unfold drop_video. destruct (video_panes s); [done|]. cbn. apply length_filter. Qed.
Lemma dropping_detached ws : (length (detached_pane_ids (dropping_video_panes ws)) <= length (detached_pane_ids ws))%nat.
Proof.
  unfold detached_pane_ids, dropping_video_panes. cbn. induction (sessions ws) as [|s l IH]; [done|]. cbn [map concat].
  rewrite !length_app, !length_map. pose proof (drop_video_detached s). cbn in *. lia.
Qed.

(** A repair pass spends no more identities than its ceiling, whatever the workspace holds, as long as
    the ceiling is a number of the machine. *)
Theorem minted_ids_is_a_ceiling ws pass (n : Z) :
  3 + 2 * zlen (sessions ws) + 2 * zlen (detached_pane_ids ws) <= usize_max ->
  n <= (run_pass ws pass n).2 <= n + minted_ids (zlen (sessions ws)) (zlen (detached_pane_ids ws)).
Proof.
  intros Hmax. assert (E : minted_ids (zlen (sessions ws)) (zlen (detached_pane_ids ws)) = 3 + 2 * zlen (sessions ws) + 2 * zlen (detached_pane_ids ws)).
  { unfold minted_ids, saturating_mul_2, saturating_add_usize. lia. }
  rewrite E. assert (H0 : 0 <= zlen (sessions ws) /\ 0 <= zlen (detached_pane_ids ws)) by lia.
  destruct pass; cbn [run_pass snd].
  - lia.
  - pose proof (spent_active ws n). lia.
  - pose proof (spent_normalized ws n). lia.
  - unfold redocking_detached_panes. set (ws1 := dropping_video_panes ws).
    assert (Hs1 : length (sessions ws1) = length (sessions ws)) by apply length_map. pose proof (dropping_detached ws) as Hd. fold ws1 in Hd.
    destruct (forallb _ _).
    + pose proof (spent_normalized ws1 n) as H. lia.
    + destruct (spent_reattaching ws1 (detached_pane_ids ws1) n) as [H1 H2].
      destruct (reattach_all ws1 (detached_pane_ids ws1) n) as [ws2 n2]. cbn [fst snd] in *.
      set (ws3 := foldl restore_index _ _). pose proof (spent_normalized ws3 n2) as H3.
      assert (Hs3 : length (sessions ws3) = length (sessions ws2)) by (unfold ws3; by rewrite restore_index_sessions).
      lia.
Qed.

(** The broken workspace costs nine of its eleven. *)
Lemma minted_ids_is_a_ceiling_witness :
  (run_pass broken_workspace PassLaunchRestore 0).2 <= 0 + minted_ids (zlen (sessions broken_workspace)) (zlen (detached_pane_ids broken_workspace)).
Proof. apply (minted_ids_is_a_ceiling broken_workspace PassLaunchRestore 0). vm_compute. discriminate. Defined.
