(* ===== verification/TabOrder.v ===== *)
(** * TabOrder: the order the sidebar draws, and the tab a close moves to

    Models [slopdesk-tree/src/tab_ordering.rs].  Text is its UTF-8 bytes and a character the bytes of its
    code point, whose order is the order of the code points.  The Unicode table behind
    [char::to_lowercase] is a parameter, [lower]: the first character of the lower-case mapping. *)

From stdpp Require Import gmap sorting.
From S2P Require Import Prelude Bytes BTree Message Document Cells Float Tree TreeLaws Layout Identity Workspace.

Definition OTHER_SECTION_HEADER : list byte := str "Other".

(** ** Keys *)

Definition normalized_project_key (key : option (list byte)) : option (list byte) :=
  key ← key;
  let folded := strip_trailing_slashes (trim key) in
  if decide (folded = []) then None else Some folded.
Definition project_section_header (key : option (list byte)) : list byte :=
  match trim <$> key with
  | None => OTHER_SECTION_HEADER
  | Some [] => OTHER_SECTION_HEADER
  | Some trimmed => default trimmed (last_part trimmed)
  end.

Definition project_key_of (project_key cwd : option (list byte)) : option (list byte) :=
  let plain (s : list byte) := negb (looks_like_transient_plugin_cwd s) in
  match project_key with
  | Some key => if bool_decide (key <> []) && plain key then Some key else (c ← cwd; if plain c then Some c else None)
  | None => c ← cwd; if plain c then Some c else None
  end.
Definition pane_project_key (pane : RawUuid) (project_key cwd : RawUuid -> option (list byte)) : option (list byte) :=
  project_key_of (project_key pane) (cwd pane).
Definition tab_project_key (tab : RawUuid) (s : Session) (pane_key : RawUuid -> option (list byte)) : option (list byte) :=
  '(_, t) ← list_find (fun t => tab_id t = tab) (tabs s);
  match active_pane t ≫= pane_key with
  | Some key => Some key
  | None => find_map pane_key (tab_panes t)
  end.

(** ** The comparison *)

Definition then_with (a b : comparison) : comparison := match a with Eq => b | c => c end.

(** A code point whose encoding starts with a byte below 128 is that byte. *)
Definition is_ascii_digit (c : list byte) : bool :=
  match c with b :: _ => (48 <=? byte_to_Z b) && (byte_to_Z b <=? 57) | [] => false end.
Fixpoint take_digits (l : list (list byte)) : list (list byte) * list (list byte) :=
  match l with
  | c :: l' => if is_ascii_digit c then let '(run, rest) := take_digits l' in (c :: run, rest) else ([], l)
  | [] => ([], [])
  end.
Definition zero_digit : list byte := str "0".
Fixpoint trim_zeros (run : list (list byte)) : list (list byte) :=
  match run with c :: run' => if decide (c = zero_digit) then trim_zeros run' else run | [] => [] end.
Definition compare_digit_runs (lhs rhs : list (list byte)) : comparison :=
  let significant_lhs := trim_zeros lhs in
  let significant_rhs := trim_zeros rhs in
  then_with (Nat.compare (length significant_lhs) (length significant_rhs))
    (then_with (bytes_compare (concat significant_lhs) (concat significant_rhs))
       (Nat.compare (length lhs) (length rhs))).

Section Order.
Context (lower : list byte -> list byte).

(** One turn of the loop takes a character at least from each side: the fuel is the length of one. *)
Fixpoint natural_loop (fuel : nat) (l r : list (list byte)) : comparison :=
  match l, r with
  | [], [] => Eq
  | [], _ :: _ => Lt
  | _ :: _, [] => Gt
  | a :: l', b :: r' =>
    match fuel with
    | O => Eq
    | S fuel =>
      if is_ascii_digit a && is_ascii_digit b
      then let '(run_left, l) := take_digits l in
           let '(run_right, r) := take_digits r in
           then_with (compare_digit_runs run_left run_right) (natural_loop fuel l r)
      else then_with (bytes_compare (lower a) (lower b)) (natural_loop fuel l' r')
    end
  end.
Definition natural_compare (lhs rhs : list byte) : comparison := natural_loop (length (chars lhs)) (chars lhs) (chars rhs).

Definition section_ordering (lhs rhs : option (list byte)) : comparison :=
  match lhs, rhs with
  | None, None => Eq
  | None, Some _ => Gt
  | Some _, None => Lt
  | Some lkey, Some rkey =>
    then_with (natural_compare (project_section_header lhs) (project_section_header rhs)) (natural_compare lkey rkey)
  end.
Definition section_precedes (lhs rhs : option (list byte)) : bool :=
  match section_ordering lhs rhs with Lt => true | _ => false end.

(** ** Sections *)

Section Buckets.
Context {A : Type} (project_key : A -> option (list byte)).

Definition bucket_of (e : A) : option (list byte) := normalized_project_key (project_key e).

Fixpoint file_into (bucket : option (list byte)) (e : A) (sections : list (option (list byte) * list A)) :
    list (option (list byte) * list A) :=
  match sections with
  | [] => [(bucket, [e])]
  | (key, l) :: sections =>
    if decide (key = bucket) then (key, l ++ [e]) :: sections else (key, l) :: file_into bucket e sections
  end.
Definition section_le (a b : option (list byte) * list A) : Prop := section_ordering a.1 b.1 <> Gt.
#[export] Instance section_le_dec : RelDecision section_le := fun a b => decide (section_ordering a.1 b.1 <> Gt).
(** [sort_by] is stable, and so is the merge sort. *)
Definition bucketed_by_project (elements : list A) : list (option (list byte) * list A) :=
  merge_sort section_le (foldl (fun sections e => file_into (bucket_of e) e sections) [] elements).
End Buckets.

Definition project_grouped_tab_order (tabs : list RawUuid) (project_key : RawUuid -> option (list byte)) : list RawUuid :=
  concat (map snd (bucketed_by_project project_key tabs)).
End Order.

(** ** The tab after a close *)

(** The element after a target, else the one before it. *)
Definition neighbour (target : RawUuid) (l : list RawUuid) : option RawUuid :=
  '(index, _) ← list_find (eq target) l;
  match l !! S index with
  | Some next => Some next
  | None => match index with O => None | S before => l !! before end
  end.

Definition successor_after_close (closing : RawUuid) (display_order : list RawUuid)
    (project_key : RawUuid -> option (list byte)) (focus_history : list RawUuid) : option RawUuid :=
  '(closing_index, _) ← list_find (eq closing) display_order;
  let survivors := filter (fun tab : RawUuid => tab <> closing) display_order in
  match survivors with
  | [] => None
  | _ =>
    match list_find (fun tab : RawUuid => tab <> closing /\ tab ∈ survivors) focus_history with
    | Some (_, recent) => Some recent
    | None =>
      let section := normalized_project_key (project_key closing) in
      let siblings := filter (fun tab : RawUuid => normalized_project_key (project_key tab) = section) display_order in
      match neighbour closing siblings with
      | Some sibling => Some sibling
      | None =>
        match neighbour closing display_order with
        | Some next => Some next
        | None => survivors !! Nat.min closing_index (pred (length survivors))
        end
      end
    end
  end.

(** ** The sections partition the elements *)

Section Partition.
Context (lower : list byte -> list byte) {A : Type} (project_key : A -> option (list byte)).
Notation bucket := (bucket_of project_key).

(** What the filing builds: a section to a key, each the elements of its key in the order they came. *)
Definition filed (elements : list A) (sections : list (option (list byte) * list A)) : Prop :=
  NoDup (map fst sections) /\
  (forall e, e ∈ elements -> bucket e ∈ map fst sections) /\
  Forall (fun s => s.2 = filter (fun e => bucket e = s.1) elements /\ s.2 <> []) sections.

Lemma file_into_keys b (e : A) l :
  map fst (file_into b e l) = if bool_decide (b ∈ map fst l) then map fst l else map fst l ++ [b].
Proof.
  induction l as [|[k es] l IH]; cbn; [by rewrite bool_decide_eq_false_2 by set_solver|].
  destruct (decide (k = b)) as [->|Hne]; [by rewrite bool_decide_eq_true_2 by left|]. cbn. rewrite IH.
  rewrite (bool_decide_ext (b ∈ k :: map fst l) (b ∈ map fst l)) by set_solver. by destruct (bool_decide _).
Qed.
Lemma file_into_elem b (e : A) l s :
  NoDup (map fst l) -> s ∈ file_into b e l ->
  (s ∈ l /\ s.1 <> b) \/ (exists es, (b, es) ∈ l /\ s = (b, es ++ [e])) \/ (b ∉ map fst l /\ s = (b, [e])).
Proof.
  induction l as [|[k es] l IH]; cbn; intros Hnd Hs.
  - apply list_elem_of_singleton in Hs as ->. right. right. split; [set_solver|done].
  - apply NoDup_cons in Hnd as [Hk Hnd]. destruct (decide (k = b)) as [->|Hne].
    + apply elem_of_cons in Hs as [->|Hs]; [right; left; exists es; split; [left|done]|]. left. split; [by right|].
      intros E. apply Hk. rewrite <- E. by apply (list_elem_of_fmap_2 fst).
    + apply elem_of_cons in Hs as [->|Hs]; [left; split; [left|done]|].
      destruct (IH Hnd Hs) as [[H1 H2]|[(es' & H1 & H2)|[H1 H2]]]; [left; split; [by right|done]|right; left|right; right].
      * exists es'. split; [by right|done].
      * split; [|done]. set_solver.
Qed.

Lemma filed_all elements :
  filed elements (foldl (fun sections e => file_into (bucket e) e sections) [] elements).
Proof.
  induction elements as [|e elements IH] using rev_ind; [split; [constructor|split; [set_solver|constructor]]|].
  rewrite foldl_app. cbn [foldl]. destruct IH as (Hnd & Hin & Hall). set (l := foldl _ [] elements) in *. split; [|split].
  - rewrite file_into_keys. destruct (bool_decide _) eqn:E; [done|]. apply bool_decide_eq_false in E.
    apply NoDup_app. split; [done|]. split; [set_solver|apply NoDup_singleton].
  - intros x Hx. rewrite file_into_keys. apply elem_of_app in Hx as [Hx%Hin|Hx]; [by destruct (bool_decide _); set_solver|].
    apply list_elem_of_singleton in Hx as ->. destruct (bool_decide _) eqn:E; [by apply bool_decide_eq_true in E|set_solver].
  - rewrite Forall_forall in *. intros s Hs. rewrite filter_app, filter_cons, filter_nil.
    apply file_into_elem in Hs as [[H1 H2]|[(es & H1 & ->)|[H1 ->]]]; [| | |done]; cbn [fst snd].
    + rewrite decide_False by congruence. rewrite app_nil_r. by apply Hall.
    + rewrite decide_True by done. destruct (Hall _ H1) as [E _]. cbn in E. rewrite E. split; [done|]. by intros [_ ?]%app_eq_nil.
    + rewrite decide_True by done. split; [|done]. assert (E : filter (fun x => bucket x = bucket e) elements = []).
      { apply elem_of_nil_inv. intros x [E Hx]%list_elem_of_filter. apply H1. rewrite <- E. by apply Hin. }
      by rewrite E.
Qed.

Lemma sections_filed elements : filed elements (bucketed_by_project lower project_key elements).
Proof.
  unfold bucketed_by_project. destruct (filed_all elements) as (H1 & H2 & H3).
  pose proof (merge_sort_Permutation (section_le lower) (foldl (fun sections e => file_into (bucket e) e sections) [] elements)) as Hp.
  split; [by rewrite Hp|]. split; [intros e He; rewrite Hp; by apply H2|]. by rewrite Hp.
Qed.
End Partition.

