(* ===== verification/OrderLaws.v ===== *)
(** * OrderLaws: the order of the sections is one, and the close stays inside it

    The comparison of [tab_ordering.rs] is a total preorder, so the sort of the sections is well defined;
    what is drawn is the tabs, section by section, each in the order its tabs were made; and the tab a close
    moves to is one of those that stay. *)

From stdpp Require Import gmap sorting.
From S2P Require Import Prelude Bytes BTree Message Document Cells Float Tree TreeLaws Layout Identity Workspace TabOrder.

(** ** Comparators *)

Record comparator {A} (c : A -> A -> comparison) : Prop := {
  cmp_opp a b : c b a = CompOpp (c a b);
  cmp_lt a b d : c a b = Lt -> c b d = Lt -> c a d = Lt;
  cmp_eq a b d : c a b = Eq -> c a d = c b d;
}.

Lemma comparator_le {A} (c : A -> A -> comparison) a b d : comparator c -> c a b <> Gt -> c b d <> Gt -> c a d <> Gt.
Proof.
  intros H Hab Hbd. destruct (c a b) eqn:E; [|clear Hab|done].
  - by rewrite (cmp_eq c H a b d E).
  - destruct (c b d) eqn:E2; [| |done].
    + assert (E3 : c d b = Eq) by by rewrite (cmp_opp c H b d), E2.
      rewrite (cmp_opp c H d a). rewrite (cmp_eq c H d b a E3), (cmp_opp c H a b), E. done.
    + by rewrite (cmp_lt c H a b d E E2).
Qed.
Lemma comparator_total {A} (c : A -> A -> comparison) a b : comparator c -> c a b <> Gt \/ c b a <> Gt.
Proof. intros H. rewrite (cmp_opp c H a b). destruct (c a b); naive_solver. Qed.

Lemma comparator_on {A B} (f : A -> B) (c : B -> B -> comparison) : comparator c -> comparator (fun a b => c (f a) (f b)).
Proof. intros [H1 H2 H3]. constructor; intros; [apply H1|by eapply H2|by apply H3]. Qed.
Lemma comparator_then {A} (c1 c2 : A -> A -> comparison) :
  comparator c1 -> comparator c2 -> comparator (fun a b => then_with (c1 a b) (c2 a b)).
Proof.
  intros C1 C2. constructor.
  - intros a b. rewrite (cmp_opp c1 C1 a b), (cmp_opp c2 C2 a b). by destruct (c1 a b).
  - intros a b d. destruct (c1 a b) eqn:E1, (c1 b d) eqn:E2; cbn; try done.
    + rewrite (cmp_eq c1 C1 a b d E1), E2. cbn. by apply (cmp_lt c2 C2).
    + by rewrite (cmp_eq c1 C1 a b d E1), E2.
    + intros _ _. assert (E3 : c1 d b = Eq) by by rewrite (cmp_opp c1 C1 b d), E2.
      by rewrite (cmp_opp c1 C1 d a), (cmp_eq c1 C1 d b a E3), (cmp_opp c1 C1 a b), E1.
    + by rewrite (cmp_lt c1 C1 a b d E1 E2).
  - intros a b d. destruct (c1 a b) eqn:E1; cbn; [|done..]. intros E2. by rewrite (cmp_eq c1 C1 a b d E1), (cmp_eq c2 C2 a b d E2).
Qed.

Lemma nat_comparator : comparator Nat.compare.
Proof.
  constructor.
  - intros a b. apply Nat.compare_antisym.
  - intros a b d. rewrite !Nat.compare_lt_iff. lia.
  - by intros a b d ->%Nat.compare_eq_iff.
Qed.
Lemma byte_comparator : comparator (fun a b => Z.compare (byte_to_Z a) (byte_to_Z b)).
Proof.
  apply (comparator_on byte_to_Z Z.compare). constructor.
  - intros a b. apply Z.compare_antisym.
  - intros a b d. rewrite !Z.compare_lt_iff. lia.
  - by intros a b d ->%Z.compare_eq_iff.
Qed.

(** Lists, element by element, the shorter first. *)
Fixpoint lex {A} (c : A -> A -> comparison) (l r : list A) : comparison :=
  match l, r with
  | [], [] => Eq
  | [], _ :: _ => Lt
  | _ :: _, [] => Gt
  | a :: l, b :: r => then_with (c a b) (lex c l r)
  end.
Lemma lex_comparator {A} (c : A -> A -> comparison) : comparator c -> comparator (lex c).
Proof.
  intros C. constructor.
  - induction a as [|a l IH]; intros [|b r]; cbn; try done. rewrite (cmp_opp c C a b), IH. by destruct (c a b).
  - induction a as [|a l IH]; intros [|b r] [|d t]; cbn; try done.
    destruct (c a b) eqn:E1; cbn; [|intros _|done].
    + rewrite (cmp_eq c C a b d E1). destruct (c b d); cbn; [apply IH|done|done].
    + destruct (c b d) eqn:E2; cbn; [|by rewrite (cmp_lt c C a b d E1 E2)|done].
      intros _. assert (E3 : c d b = Eq) by by rewrite (cmp_opp c C b d), E2.
      by rewrite (cmp_opp c C d a), (cmp_eq c C d b a E3), (cmp_opp c C a b), E1.
  - induction a as [|a l IH]; intros [|b r] [|d t]; cbn; try done.
    destruct (c a b) eqn:E1; cbn; [|done..]. intros E2. by rewrite (cmp_eq c C a b d E1), (IH _ t E2).
Qed.

Lemma bytes_compare_lex a b : bytes_compare a b = lex (fun a b => Z.compare (byte_to_Z a) (byte_to_Z b)) a b.
Proof. revert b. induction a as [|x a IH]; intros [|y b]; cbn; try done. rewrite IH. by destruct (_ ?= _). Qed.
Lemma comparator_ext {A} (c d : A -> A -> comparison) : (forall a b, c a b = d a b) -> comparator d -> comparator c.
Proof. intros E [H1 H2 H3]. constructor; intros *; rewrite !E; eauto. Qed.
Lemma bytes_comparator : comparator bytes_compare.
Proof. eapply comparator_ext; [apply bytes_compare_lex|]. apply lex_comparator, byte_comparator. Qed.
Lemma runs_comparator : comparator compare_digit_runs.
Proof.
  unfold compare_digit_runs.
  apply (comparator_then (fun a b => Nat.compare (length (trim_zeros a)) (length (trim_zeros b)))).
  - apply (comparator_on (fun a => length (trim_zeros a)) Nat.compare), nat_comparator.
  - apply (comparator_then (fun a b => bytes_compare (concat (trim_zeros a)) (concat (trim_zeros b)))).
    + apply (comparator_on (fun a => concat (trim_zeros a)) bytes_compare), bytes_comparator.
    + apply (comparator_on length Nat.compare), nat_comparator.
Qed.

(** ** The natural comparison is lexicographic on runs and characters *)

Section Natural.
Context (lower : list byte -> list byte).
(** Lower-casing leaves the ASCII digits and maps nothing else to one. *)
Context (Hdigit : forall c, is_ascii_digit (lower c) = is_ascii_digit c).

Inductive token : Type := Run (first : list byte) (rest : list (list byte)) | Char (c : list byte).
Definition token_compare (s t : token) : comparison :=
  match s, t with
  | Run a l, Run b r => compare_digit_runs (a :: l) (b :: r)
  | Run a _, Char b | Char a, Run b _ | Char a, Char b => bytes_compare (lower a) (lower b)
  end.
(** A run is of digits and a character is none. *)
Definition token_ok (t : token) : Prop := match t with Run a _ => is_ascii_digit a = true | Char c => is_ascii_digit c = false end.

Fixpoint tokens (fuel : nat) (l : list (list byte)) : list token :=
  match fuel, l with
  | S fuel, c :: l' =>
    if is_ascii_digit c then let '(run, rest) := take_digits l' in Run c run :: tokens fuel rest else Char c :: tokens fuel l'
  | _, _ => []
  end.

Lemma digits_alike a b c :
  is_ascii_digit a = true -> is_ascii_digit b = true -> is_ascii_digit c = false ->
  bytes_compare a c = bytes_compare b c /\ bytes_compare c a = bytes_compare c b /\ bytes_compare a c <> Eq.
Proof.
  unfold is_ascii_digit. destruct a as [|x a], b as [|y b]; try done. intros Hx Hy Hc.
  destruct c as [|z c]; cbn; [done|].
  destruct (Z.compare_spec (byte_to_Z x) (byte_to_Z z)), (Z.compare_spec (byte_to_Z y) (byte_to_Z z)),
    (Z.compare_spec (byte_to_Z z) (byte_to_Z x)), (Z.compare_spec (byte_to_Z z) (byte_to_Z y)); try lia; done.
Qed.

(** On well-formed tokens the comparison is total. *)
Definition sound_token : Type := { t : token | token_ok t }.
Definition head_char (t : token) : list byte := match t with Run a _ => lower a | Char c => lower c end.
Lemma head_digit t : token_ok t -> is_ascii_digit (head_char t) = match t with Run _ _ => true | Char _ => false end.
Proof. destruct t; cbn; by rewrite Hdigit. Qed.
Lemma token_comparator : comparator (fun s t : sound_token => token_compare (proj1_sig s) (proj1_sig t)).
Proof.
  pose proof runs_comparator as R. pose proof bytes_comparator as B. constructor.
  - intros [[a l|a] Ha] [[b r|b] Hb]; cbn [token_compare proj1_sig]; first [apply (cmp_opp _ R)|apply (cmp_opp _ B)].
  - intros [s Hs] [t Ht] [u Hu]. cbn [proj1_sig]. apply head_digit in Hs, Ht, Hu.
    destruct s as [a l|a], t as [b r|b], u as [d v|d]; cbn [token_compare head_char] in *; try apply (cmp_lt _ B).
    + apply (cmp_lt _ R).
    + intros _ H. by destruct (digits_alike (lower a) (lower b) (lower d)) as (-> & _ & _).
    + intros H1 H2. destruct (digits_alike (lower a) (lower d) (lower b)) as (_ & E & _); [done..|].
      rewrite (cmp_opp _ B (lower a) (lower b)), H1, H2 in E. done.
    + intros H _. by destruct (digits_alike (lower b) (lower d) (lower a)) as (_ & <- & _).
  - intros [s Hs] [t Ht] [u Hu]. cbn [proj1_sig]. apply head_digit in Hs, Ht, Hu.
    destruct s as [a l|a], t as [b r|b], u as [d v|d]; cbn [token_compare head_char] in *; try apply (cmp_eq _ B).
    + apply (cmp_eq _ R).
    + intros _. by destruct (digits_alike (lower a) (lower b) (lower d)) as (-> & _ & _).
    + intros H. by destruct (digits_alike (lower a) (lower a) (lower b)) as (_ & _ & []).
    + intros H. destruct (digits_alike (lower b) (lower b) (lower a)) as (_ & _ & E); [done..|].
      rewrite (cmp_opp _ B (lower a) (lower b)), H in E. done.
Qed.

Lemma take_digits_length l : (length (take_digits l).2 <= length l)%nat.
Proof. induction l as [|c l IH]; cbn; [done|]. destruct (is_ascii_digit c); [|done]. destruct (take_digits l). cbn in *. lia. Qed.
Lemma tokens_ok fuel l : Forall token_ok (tokens fuel l).
Proof.
  revert l. induction fuel as [|fuel IH]; intros [|c l]; try constructor. cbn [tokens].
  destruct (is_ascii_digit c) eqn:E; [|by constructor]. destruct (take_digits l). by constructor.
Qed.

(** The loop is the lexicographic comparison of the tokens, whatever the fuel past the lengths. *)
Lemma natural_loop_tokens fuel n m l r :
  (length l <= fuel)%nat -> (length l <= n)%nat -> (length r <= m)%nat ->
  natural_loop lower fuel l r = lex token_compare (tokens n l) (tokens m r).
Proof.
  revert n m l r. induction fuel as [|fuel IH]; intros n m l r Hf Hn Hm.
  { destruct l; [|cbn in Hf; lia]. destruct n; destruct r as [|b r]; cbn; try (by destruct m);
      (destruct m; [cbn in Hm; lia|]); cbn; destruct (is_ascii_digit b); try done; by destruct (take_digits r). }
  destruct l as [|a l].
  { destruct n; destruct r as [|b r]; cbn; try (by destruct m);
      (destruct m; [cbn in Hm; lia|]); cbn; destruct (is_ascii_digit b); try done; by destruct (take_digits r). }
  destruct n as [|n]; [cbn in Hn; lia|]. cbn [length] in Hf, Hn. destruct r as [|b r].
  { cbn. destruct m; cbn; destruct (is_ascii_digit a); try done; by destruct (take_digits l). }
  destruct m as [|m]; [cbn in Hm; lia|]. cbn [length] in Hm. cbn [natural_loop tokens take_digits].
  pose proof (take_digits_length l) as Ll. pose proof (take_digits_length r) as Lr.
  destruct (is_ascii_digit a) eqn:Ea, (is_ascii_digit b) eqn:Eb; cbn [andb].
  - destruct (take_digits l) as [run1 l1], (take_digits r) as [run2 r1]. cbn [fst snd lex token_compare] in *. by rewrite (IH n m) by lia.
  - destruct (take_digits l) as [run1 l1]. cbn [lex token_compare].
    destruct (digits_alike (lower a) (lower a) (lower b)) as (_ & _ & E); rewrite ?Hdigit; [done..|]. by destruct (bytes_compare _ _).
  - destruct (take_digits r) as [run2 r1]. cbn [lex token_compare].
    destruct (digits_alike (lower b) (lower b) (lower a)) as (_ & _ & E); rewrite ?Hdigit; [done..|].
    pose proof (cmp_opp _ bytes_comparator (lower b) (lower a)) as O. by destruct (bytes_compare (lower b) _), (bytes_compare (lower a) _).
  - cbn [lex token_compare]. by rewrite (IH n m) by lia.
Qed.

Definition sound_tokens (l : list (list byte)) : list sound_token :=
  let fix go l := match l return Forall token_ok l -> list sound_token with
    | [] => fun _ => []
    | t :: l => fun H => exist _ t (Forall_inv H) :: go l (Forall_inv_tail H)
    end in go (tokens (length l) l) (tokens_ok (length l) l).
Lemma natural_comparator : comparator (natural_compare lower).
Proof.
  pose proof (lex_comparator _ token_comparator) as L.
  apply (comparator_on (fun s => sound_tokens (chars s))) in L. refine (comparator_ext _ _ _ L). intros a b. cbn beta.
  unfold natural_compare. rewrite (natural_loop_tokens _ (length (chars a)) (length (chars b))) by done. unfold sound_tokens.
  generalize (tokens_ok (length (chars a)) (chars a)), (tokens_ok (length (chars b)) (chars b)).
  generalize (tokens (length (chars a)) (chars a)), (tokens (length (chars b)) (chars b)).
  induction l as [|s l IH]; intros [|t r] H1 H2; cbn; try done. f_equal. apply IH.
Qed.

Lemma section_comparator : comparator (section_ordering lower).
Proof.
  pose proof natural_comparator as N.
  assert (C : comparator (fun a b : list byte => then_with (natural_compare lower (project_section_header (Some a)) (project_section_header (Some b)))
    (natural_compare lower a b))).
  { apply (comparator_then (fun a b => natural_compare lower (project_section_header (Some a)) (project_section_header (Some b)))); [|done].
    apply (comparator_on (fun a => project_section_header (Some a)) (natural_compare lower)), N. }
  constructor.
  - intros [a|] [b|]; cbn [section_ordering]; try done. apply (cmp_opp _ C a b).
  - intros [a|] [b|] [d|]; cbn [section_ordering]; try done. apply (cmp_lt _ C a b d).
  - intros [a|] [b|] [d|]; cbn [section_ordering]; try done. apply (cmp_eq _ C a b d).
Qed.
End Natural.

(** ** What is drawn *)

Lemma file_into_perm {A} b (e : A) l : concat (map snd (file_into b e l)) ≡ₚ e :: concat (map snd l).
Proof.
  induction l as [|[k es] l IH]; cbn; [done|]. destruct (decide (k = b)); cbn.
  - rewrite <- app_assoc. cbn [app]. symmetry. apply Permutation_middle.
  - by rewrite IH, <- Permutation_middle.
Qed.
Lemma bucketed_perm lower {A} (key : A -> option (list byte)) elements :
  concat (map snd (bucketed_by_project lower key elements)) ≡ₚ elements.
Proof.
  unfold bucketed_by_project. rewrite (merge_sort_Permutation (section_le lower)).
  induction elements as [|e elements IH] using rev_ind; [done|]. rewrite foldl_app. cbn [foldl].
  by rewrite file_into_perm, IH, Permutation_app_comm.
Qed.

(** What the sidebar draws.  Lower-casing permitting (it leaves the digits alone and makes none), the
    sections come in the order of their headers, a total preorder with the keyless one last; no key has
    two sections; a section is exactly the tabs of its key, in the order they were made; and the whole is
    the tabs, each once. *)
Theorem sections_are_drawn_in_order lower tabs (key : RawUuid -> option (list byte)) :
  (forall c, is_ascii_digit (lower c) = is_ascii_digit c) ->
  let sections := bucketed_by_project lower key tabs in
  StronglySorted (fun a b => section_ordering lower a.1 b.1 <> Gt) sections /\
  (forall a b, section_ordering lower b a = CompOpp (section_ordering lower a b)) /\
  NoDup (map fst sections) /\
  Forall (fun s => s.2 = filter (fun tab : RawUuid => normalized_project_key (key tab) = s.1) tabs /\ s.2 <> []) sections /\
  project_grouped_tab_order lower tabs key ≡ₚ tabs.
Proof.
  intros Hd sections. pose proof (section_comparator lower Hd) as C. destruct (sections_filed lower key tabs) as (H1 & _ & H3).
  split; [|split; [apply (cmp_opp _ C)|split; [exact H1|split; [exact H3|apply bucketed_perm]]]].
  assert (Transitive (section_le lower (A := RawUuid))) by (intros a b d; by apply comparator_le).
  assert (Total (section_le lower (A := RawUuid))) by (intros a b; by apply comparator_total).
  apply (StronglySorted_merge_sort (section_le lower)).
Qed.

(** ** The tab after a close *)

Lemma list_find_eq_nodup (x : RawUuid) l i : NoDup l -> l !! i = Some x -> list_find (eq x) l = Some (i, x).
Proof.
  intros Hnd Hi. apply list_find_Some. split; [done|]. split; [done|]. intros j y Hj Hlt <-.
  pose proof (NoDup_lookup _ _ _ _ Hnd Hi Hj). lia.
Qed.
Lemma neighbour_other target l :
  NoDup l -> target ∈ l -> l <> [target] -> exists t, neighbour target l = Some t /\ t ∈ l /\ t <> target.
Proof.
  intros Hnd [i Hi]%list_elem_of_lookup Hl. unfold neighbour. rewrite (list_find_eq_nodup _ _ _ Hnd Hi). cbn [mbind option_bind].
  assert (Hne : forall j t, l !! j = Some t -> j <> i -> t ∈ l /\ t <> target).
  { intros j t Hj Hji. split; [by eapply list_elem_of_lookup_2|]. intros ->. apply Hji. by eapply NoDup_lookup. }
  destruct (l !! S i) as [t|] eqn:En; [exists t; split; [done|]; apply (Hne (S i)); [done|lia]|].
  destruct i as [|i].
  - exfalso. destruct l as [|x [|y l]]; try done. cbn in Hi. apply Hl. by injection Hi as ->.
  - destruct (lookup_lt_is_Some_2 l i) as [t Ht]; [apply lookup_lt_Some in Hi; lia|]. exists t. split; [done|].
    apply (Hne i); [done|lia].
Qed.
Lemma neighbour_inside target l t : neighbour target l = Some t -> t ∈ l.
Proof.
  unfold neighbour. destruct (list_find _ _) as [[i x]|]; [|done]. cbn [mbind option_bind]. destruct (l !! S i) eqn:E.
  - intros [= <-]. by eapply list_elem_of_lookup_2.
  - destruct i; [done|]. intros H. by eapply list_elem_of_lookup_2.
Qed.

(** The tab a close moves to.  It is another tab of the order, and there is one exactly when the closing
    tab is in the order with another; it is the most recently focused survivor if the history has one, and
    otherwise a tab of the same project as long as the project has one left. *)
Theorem the_close_stays_near closing order (key : RawUuid -> option (list byte)) history :
  NoDup order ->
  let other t := t <> closing /\ t ∈ order in
  let near t := normalized_project_key (key t) = normalized_project_key (key closing) in
  match successor_after_close closing order key history with
  | None => closing ∉ order \/ order = [closing]
  | Some t =>
    other t /\ closing ∈ order /\
    (forall i recent, history !! i = Some recent -> other recent -> (forall j h, history !! j = Some h -> (j < i)%nat -> ~ other h) -> t = recent) /\
    ((forall h, h ∈ history -> ~ other h) -> (exists s, other s /\ near s) -> near t)
  end.
Proof.
  intros Hnd other near. unfold successor_after_close.
  destruct (decide (closing ∈ order)) as [Hin|Hout].
  2:{ destruct (list_find (eq closing) order) as [[i x]|] eqn:E; [|cbn; by left].
      apply list_find_Some in E as (Hi & <- & _). exfalso. by apply Hout, (list_elem_of_lookup_2 _ i). }
  pose proof Hin as [i Hi]%list_elem_of_lookup. rewrite (list_find_eq_nodup _ _ _ Hnd Hi). cbn [mbind option_bind].
  set (survivors := filter (fun t : RawUuid => t <> closing) order).
  assert (Hs : forall t, t ∈ survivors <-> other t) by (intros t; unfold survivors; by rewrite list_elem_of_filter).
  destruct survivors as [|s0 sl] eqn:Es.
  { right. assert (Hall : forall t, t ∈ order -> t = closing).
    { intros t Ht. destruct (decide (t = closing)); [done|]. exfalso. by apply (not_elem_of_nil t), Hs. }
    destruct order as [|a [|b l]]; [done|f_equal; apply Hall; left|]. apply NoDup_cons in Hnd as [Ha _]. exfalso. apply Ha.
    rewrite (Hall a ltac:(left)), <- (Hall b ltac:(right; left)). left. }
  rewrite <- Es in *. assert (Hmany : order <> [closing]).
  { intros ->. assert (H : s0 ∈ s0 :: sl) by left. rewrite <- Es in H. apply Hs in H as [Hne H]. by apply list_elem_of_singleton in H. }
  destruct (list_find (fun t : RawUuid => t <> closing /\ t ∈ survivors) history) as [[k recent]|] eqn:Eh.
  - apply list_find_Some in Eh as (Hk & [Hr1 Hr2] & Hfirst). split; [by apply Hs|]. split; [done|]. split.
    + intros j r Hj Ho Hmin. destruct (Nat.lt_trichotomy j k) as [Hlt|[->|Hlt]]; [|congruence|].
      * exfalso. apply (Hfirst j r Hj Hlt). split; [apply Ho|by apply Hs].
      * exfalso. apply (Hmin k recent Hk Hlt). by apply Hs.
    + intros Hno _. exfalso. apply (Hno recent); [by eapply list_elem_of_lookup_2|by apply Hs].
  - apply list_find_None in Eh. rewrite Forall_forall in Eh.
    assert (Hno : forall h, h ∈ history -> ~ other h) by (intros h Hh [Ho1 Ho2]; apply (Eh h Hh); split; [done|by apply Hs]).
    assert (Hrec : forall t, other t -> (near t \/ ~ exists s, other s /\ near s) ->
      other t /\ closing ∈ order /\
      (forall i recent, history !! i = Some recent -> other recent -> (forall j h, history !! j = Some h -> (j < i)%nat -> ~ other h) -> t = recent) /\
      ((forall h, h ∈ history -> ~ other h) -> (exists s, other s /\ near s) -> near t)).
    { intros t Ht Hn. split; [done|]. split; [done|]. split; [|tauto].
      intros j r Hj Ho. exfalso. apply (Hno r); [by eapply list_elem_of_lookup_2|done]. }
    set (siblings := filter (fun t : RawUuid => normalized_project_key (key t) = normalized_project_key (key closing)) order).
    assert (Hsib : closing ∈ siblings /\ NoDup siblings) by (split; [by apply list_elem_of_filter|by apply NoDup_filter]).
    destruct (decide (siblings = [closing])) as [E|Hne].
    + rewrite E. assert (En : neighbour closing [closing] = None) by (unfold neighbour; cbn; by destruct (decide _)). rewrite En.
      destruct (neighbour_other closing order Hnd Hin Hmany) as (t & -> & Ht & Htc). apply Hrec; [done|]. right.
      intros (s & [Ho1 Ho2] & Hn). assert (H : s ∈ siblings) by by apply list_elem_of_filter. rewrite E in H. by apply list_elem_of_singleton in H.
    + destruct (neighbour_other closing siblings (proj2 Hsib) (proj1 Hsib) Hne) as (t & -> & Ht & Htc).
      apply list_elem_of_filter in Ht as [Hn Ho]. apply Hrec; [done|by left].
Qed.

(** A lower-casing of the ASCII letters. *)
Definition ascii_lower (c : list byte) : list byte :=
  match c with [b] => if (65 <=? byte_to_Z b) && (byte_to_Z b <=? 90) then [byte_of_Z (byte_to_Z b + 32)] else c | _ => c end.
Lemma ascii_lower_digits c : is_ascii_digit (ascii_lower c) = is_ascii_digit c.
Proof.
  destruct c as [|b [|]]; [done| |done].
  assert (H : forallb (fun b => Bool.eqb (is_ascii_digit (ascii_lower [b])) (is_ascii_digit [b])) all_bytes = true) by (vm_compute; reflexivity).
  by apply eqb_prop, (forallb_all_bytes _ H b).
Qed.

Definition sample_key (tab : RawUuid) : option (list byte) :=
  if decide (tab = Examples.uid 1) then Some (str "/w/app10/") else if decide (tab = Examples.uid 2) then None
  else if decide (tab = Examples.uid 3) then Some (str "/w/App2") else Some (str "/w/app10").
Lemma sections_are_drawn_in_order_witness :
  let tabs := map Examples.uid [1; 2; 3; 4] in
  project_grouped_tab_order ascii_lower tabs sample_key = map Examples.uid [3; 1; 4; 2] /\
  project_grouped_tab_order ascii_lower tabs sample_key ≡ₚ tabs.
Proof.
  intros tabs. destruct (sections_are_drawn_in_order ascii_lower tabs sample_key ascii_lower_digits) as (_ & _ & _ & _ & H).
  split; [vm_compute; reflexivity|exact H].
Defined.
Lemma the_close_stays_near_witness :
  let order := map Examples.uid [3; 1; 4; 2] in
  successor_after_close (Examples.uid 1) order sample_key [] = Some (Examples.uid 4) /\
  normalized_project_key (sample_key (Examples.uid 4)) = normalized_project_key (sample_key (Examples.uid 1)).
Proof.
  intros order. assert (Hn : NoDup order) by (refine (bool_decide_unpack _ _); vm_compute; exact I).
  pose proof (the_close_stays_near (Examples.uid 1) order sample_key [] Hn) as H. cbn zeta in H.
  assert (E : successor_after_close (Examples.uid 1) order sample_key [] = Some (Examples.uid 4)) by (vm_compute; reflexivity).
  split; [exact E|]. rewrite E in H. destruct H as (_ & _ & _ & H). apply H; [by intros h ?%elem_of_nil|].
  exists (Examples.uid 4). split; [split; [by intros [=]|refine (bool_decide_unpack _ _); vm_compute; exact I]|vm_compute; reflexivity].
Defined.

(** Two projects whose names differ by case only are neither before nor after each other. *)
Lemma case_only_keys_tie : section_ordering ascii_lower (Some (str "/w/App")) (Some (str "/w/app")) = Eq.
Proof. vm_compute. reflexivity. Qed.
