(* ===== verification/Budget.v ===== *)
(** * Budget: how much of its input a parser may take

    [yields] of [Bytes.v] says what a parser answers; [takes] adds how far it may advance.  A payload that
    must be read to its end is then no longer than its parser's budget. *)

From stdpp Require Import gmap strings.
From S2P Require Import Prelude Bytes Message Document Cells.
#[local] Open Scope Z_scope.

Definition takes {A} (p : Parser A) (P : A -> Prop) (budget : Z) : Prop :=
  forall r a r', rd_ok r -> p r = Ok (a, r') -> P a /\ rd_advances r r' /\ rd_offset r' <= rd_offset r + budget.

Lemma takes_yields {A} (p : Parser A) P n : takes p P n -> yields p P.
Proof. intros H r a r' Hok E. by destruct (H r a r' Hok E) as (? & ? & _). Qed.

Lemma takes_weaken {A} (p : Parser A) (P Q : A -> Prop) m n : takes p P m -> (forall a, P a -> Q a) -> m <= n -> takes p Q n.
Proof. intros H HPQ Hmn r a r' Hok E. destruct (H r a r' Hok E) as (? & ? & ?). split; [auto|]. split; [done|lia]. Qed.

Lemma takes_within {A} (p : Parser A) P m n : takes p P m -> m = n -> takes p P n.
Proof. by intros ? <-. Qed.

Lemma takes_ret {A} (a : A) (P : A -> Prop) : P a -> takes (mret a) P 0.
Proof.
  intros Ha r a' r' Hok E. unfold mret, parser_ret in E. simplify_eq.
  split; [done|]. split; [by apply rd_advances_refl|lia].
Qed.

Lemma takes_fail {A} e (P : A -> Prop) n : takes (parser_fail e) P n.
Proof. by intros r a r' _ E. Qed.

Lemma takes_lift {A} (m : wresult A) (P : A -> Prop) : (forall a, m = Ok a -> P a) -> takes (parser_lift m) P 0.
Proof.
  intros H r a r' Hok E. unfold parser_lift in E. destruct m; [|done]. simplify_eq.
  split; [auto|]. split; [by apply rd_advances_refl|lia].
Qed.

Lemma takes_bind {A B} (p : Parser A) (k : A -> Parser B) P Q m n :
  takes p P m -> (forall a, P a -> takes (k a) Q n) -> takes (p ≫= k) Q (m + n).
Proof.
  intros Hp Hk r b r' Hok E. unfold mbind, parser_bind in E. destruct (p r) as [[a r1]|] eqn:Ep; [|done].
  destruct (Hp _ _ _ Hok Ep) as (Ha & Hadv & Ho).
  destruct (Hk _ Ha _ _ _ (rd_advances_ok _ _ Hok Hadv) E) as (Hb & Hadv' & Ho').
  split; [done|]. split; [by eapply rd_advances_trans|lia].
Qed.

Lemma takes_next_byte : takes next_byte (fun _ => True) 1.
Proof.
  intros r b r' Hok E. destruct (yields_next_byte r b r' Hok E) as [? ?]. split; [done|]. split; [done|].
  unfold next_byte in E. destruct (get _ _); [|done]. simplify_eq. cbn. lia.
Qed.

Lemma takes_bytes_remaining : takes read_bytes_remaining (fun _ => True) 0.
Proof.
  intros r n r' Hok E. unfold read_bytes_remaining in E. simplify_eq. split; [done|]. split; [by apply rd_advances_refl|lia].
Qed.

Lemma takes_be_loop w n value : takes (read_be_loop w n value) (fun _ => True) (Z.of_nat n).
Proof.
  revert value. induction n as [|n IH]; intros value; cbn [read_be_loop].
  - eapply takes_within; [by apply takes_ret|lia].
  - eapply takes_within; [eapply takes_bind; [apply takes_next_byte|]; intros; apply IH|lia].
Qed.

Lemma takes_with {A} (p : Parser A) (P : A -> Prop) n : takes p (fun _ => True) n -> yields p P -> takes p P n.
Proof. intros H Hy r a r' Hok E. destruct (H r a r' Hok E) as (_ & ? & ?). by destruct (Hy r a r' Hok E). Qed.

Lemma takes_read_u32 : takes read_u32 (u_range 32) 4.
Proof. apply takes_with; [apply (takes_be_loop 32 4)|apply yields_read_u32]. Qed.
Lemma takes_read_u64 : takes read_u64 (u_range 64) 8.
Proof. apply takes_with; [apply (takes_be_loop 64 8)|apply yields_read_u64]. Qed.
Lemma takes_read_u16 : takes read_u16 (u_range 16) 2.
Proof.
  apply takes_with; [|apply yields_read_u16]. eapply takes_within; [|reflexivity].
  eapply (takes_bind _ _ _ _ 1 1); [apply takes_next_byte|]. intros b0 _.
  eapply (takes_bind _ _ _ _ 1 0); [apply takes_next_byte|]. intros b1 _. by apply takes_ret.
Qed.
Lemma takes_read_bool : takes read_bool (fun _ => True) 1.
Proof. eapply (takes_bind _ _ _ _ 1 0); [apply takes_next_byte|]. intros. by apply takes_ret. Qed.

Lemma takes_read_bytes k : 0 <= k -> takes (read_bytes k) (fun bs => zlen bs = k) k.
Proof.
  intros Hk r bs r' Hok E. destruct (yields_read_bytes k Hk r bs r' Hok E) as [? ?]. split; [done|]. split; [done|].
  unfold read_bytes, checked_add_usize in E. destruct (_ <=? usize_max); [|done].
  destruct (get_range _ _ _); [|done]. simplify_eq. cbn. lia.
Qed.

Lemma takes_uuid : takes read_uuid is_uuid 16.
Proof.
  eapply (takes_bind _ _ _ _ 16 0); [by apply takes_read_bytes|]. intros bs Hbs. apply takes_lift. intros a H. unfold is_uuid.
  case_decide as E; [|done]. unfold SESSION_ID_BYTE_COUNT in E. injection H as <-. lia.
Qed.

Lemma takes_read_many {A} (p : Parser A) P n k :
  takes p P k -> takes (read_many p n) (fun l => length l = n /\ Forall P l) (Z.of_nat n * k).
Proof.
  intros Hp. induction n as [|n IH]; cbn [read_many]; [by apply takes_ret|].
  eapply takes_within; [|instantiate (1 := k + (Z.of_nat n * k + 0)); lia].
  eapply takes_bind; [exact Hp|]. intros x Hx. eapply takes_bind; [exact IH|]. intros xs [Hl Hxs].
  apply takes_ret. cbn. split; [by rewrite Hl|by constructor].
Qed.

#[export] Hint Resolve takes_next_byte takes_bytes_remaining takes_read_u16 takes_read_u32 takes_read_u64 takes_read_bool
  takes_uuid : takes.

(** Fields one after the other; what is left is the sum of their budgets. *)
Ltac take_fields :=
  eapply takes_within; [repeat (eapply takes_bind; [solve [eauto with takes]|]; intros); by apply takes_ret|reflexivity].

(** A payload read to its end is within the budget. *)
Lemma run_takes {A} (p : Parser A) P n what data x :
  takes p P n -> run_parser (a ← p; _ ← read_end what; mret a) data = Ok x -> P x /\ zlen data <= n.
Proof.
  intros Hp. unfold run_parser, mbind, parser_bind. destruct (p (reader_new data)) as [[a r]|e] eqn:E; [|done].
  destruct (Hp (reader_new data) a r ltac:(unfold rd_ok; cbn; lia) E) as (Ha & [Ed Hadv] & Ho). cbn in Ed, Ho.
  unfold read_end, mbind, parser_bind, read_bytes_remaining, bytes_remaining.
  destruct (Z.eqb_spec (zlen (rd_data r) - rd_offset r) 0) as [Hz|]; cbn [negb]; [|done].
  intros [= <-]. split; [done|]. rewrite Ed in Hz. lia.
Qed.

(** ** A document *)

Lemma takes_key : takes read_key key_ok 18.
Proof.
  eapply takes_within; [|instantiate (1 := 1 + (16 + (1 + 0))); reflexivity].
  eapply takes_bind; [apply takes_next_byte|]. intros k _. eapply takes_bind; [apply takes_uuid|]. intros id Hid.
  eapply takes_bind; [apply takes_next_byte|]. intros f _. by apply takes_ret.
Qed.

Lemma takes_entry : takes read_entry entry_ok (22 + 2147483647).
Proof.
  eapply takes_within; [|instantiate (1 := 18 + (4 + (0 + 2147483647))); reflexivity].
  eapply takes_bind; [apply takes_key|]. intros key Hk. eapply takes_bind; [apply takes_read_u32|]. intros n [Hn _].
  eapply takes_bind; [apply takes_bytes_remaining|]. intros left _.
  destruct (Z.ltb_spec MAX_ENTRY_VALUE_BYTES n) as [|Hmax]; [apply takes_fail|]. destruct (left <? n); [apply takes_fail|]. cbn [orb].
  unfold MAX_ENTRY_VALUE_BYTES in Hmax. eapply (takes_weaken _ _ _ (n + 0)); [|intros e H; exact H|lia].
  eapply takes_bind; [by apply takes_read_bytes|]. intros v Hv. cbn beta in Hv. apply takes_ret. split; [done|]. cbn. unfold MAX_ENTRY_VALUE_BYTES. lia.
Qed.

Lemma takes_entries n :
  0 <= n -> takes (read_entries n) (fun l => zlen l = n /\ n <= 65536 /\ Forall entry_ok l) (65536 * (22 + 2147483647)).
Proof.
  intros Hn. unfold read_entries. destruct (Z.ltb_spec MAX_ENTRY_COUNT n) as [|Hc]; [apply takes_fail|]. unfold MAX_ENTRY_COUNT in Hc.
  eapply (takes_bind _ _ _ _ 0); [apply takes_bytes_remaining|]. intros left _. destruct (_ <? _); [apply takes_fail|].
  eapply takes_weaken; [apply takes_read_many, takes_entry| |]; [|lia]. intros l [El HF]. cbn beta. split; [lia|done].
Qed.

Lemma from_entries_ok l : zlen l <= 65536 -> Forall entry_ok l -> state_ok (from_entries l).
Proof.
  intros Hl Hok. unfold from_entries.
  assert (H : forall s : HostWorkspaceState, (forall k v, s !! k = Some v -> key_ok k /\ zlen v <= MAX_ENTRY_VALUE_BYTES) ->
    let s' := foldl (fun s e => <[entry_key e := entry_value e]> s) s l in
    (size s' <= size s + length l)%nat /\ forall k v, s' !! k = Some v -> key_ok k /\ zlen v <= MAX_ENTRY_VALUE_BYTES).
  { clear Hl. induction Hok as [|e l He _ IH]; intros s Hs; cbn [foldl length]; [split; [lia|done]|].
    destruct (IH (<[entry_key e := entry_value e]> s)) as [IH1 IH2].
    { intros k v. rewrite lookup_insert_Some. intros [[<- <-]|[_ Hk]]; [exact He|by apply Hs]. }
    split; [|exact IH2]. cbv zeta in *. rewrite map_size_insert in IH1. destruct (s !! entry_key e); cbn in IH1; lia. }
  destruct (H ∅) as [H1 H2]; [intros k v; by rewrite lookup_empty|]. split; [|exact H2].
  cbv zeta in *. rewrite map_size_empty in H1. unfold MAX_ENTRY_COUNT. lia.
Qed.

(** What [decode_snapshot] answers, on any bytes. *)
Lemma snapshot_decoded data s :
  decode_snapshot data = Ok s -> state_ok s /\ zlen data <= 4 + 65536 * (22 + 2147483647).
Proof.
  intros H. unfold decode_snapshot in H.
  apply (run_takes (count ← read_u32; entries ← read_entries count; mret (from_entries entries)) state_ok _
           "workspace snapshot: trailing bytes"); [|].
  - eapply takes_bind; [apply takes_read_u32|]. intros n [Hn _].
    eapply takes_within; [eapply takes_bind; [by apply takes_entries|]|by rewrite Z.add_0_r].
    intros l (El & Hl & HF). apply takes_ret. apply from_entries_ok; [lia|done].
  - rewrite <- H. unfold run_parser, read_snapshot, mbind, parser_bind, mret, parser_ret.
    destruct (read_u32 _) as [[n r]|]; [|done]. by destruct (read_entries n r) as [[l r']|].
Qed.
