(* ===== verification/Intent.v ===== *)
(** * Intent: the arguments of a topology intent on the wire

    Models [slopdesk-wire/src/document/intent.rs]: the twenty-seven ops with their bytes, and the encoder
    and the decoder of each argument payload.  A decoder reads its fields and then insists on the end of
    the payload ([whole]).  The instances of [Payload] say what each writer and reader promise each other;
    [IntentArgs] gathers the arguments of every op, read by the decoder the applier runs for it. *)

From stdpp Require Import base list strings pretty.
From S2P Require Import Prelude Bytes Message Document Cells Budget Verbs Float Tree Workspace.

(** ** The ops *)

Inductive WorkspaceIntentOp : Type :=
| OpAdoptWorkspace | OpRenamePane | OpRenameTab | OpRenameSession | OpClosePane | OpCloseTab | OpSplitPane
| OpMovePane | OpReorderTabs | OpFocusTab | OpFocusPane | OpSetSyncInput | OpSpawnPane | OpSpawnTab | OpSetZoom
| OpDetachPane | OpReattachPane | OpSetDividerWeight | OpNewSession | OpCloseSession | OpReopenClosedTab
| OpBreakPaneToTab | OpSwapPanes | OpDockPaneAtTabEdge | OpSetTabLayout | OpSpawnDetachedPane | OpSetPaneVideoTarget.
#[export] Instance op_eq_dec : EqDecision WorkspaceIntentOp.
Proof. solve_decision. Defined.

Definition ALL_OPS : list WorkspaceIntentOp :=
  [OpAdoptWorkspace; OpRenamePane; OpRenameTab; OpRenameSession; OpClosePane; OpCloseTab; OpSplitPane;
   OpMovePane; OpReorderTabs; OpFocusTab; OpFocusPane; OpSetSyncInput; OpSpawnPane; OpSpawnTab; OpSetZoom;
   OpDetachPane; OpReattachPane; OpSetDividerWeight; OpNewSession; OpCloseSession; OpReopenClosedTab;
   OpBreakPaneToTab; OpSwapPanes; OpDockPaneAtTabEdge; OpSetTabLayout; OpSpawnDetachedPane; OpSetPaneVideoTarget].

Definition op_from_byte (b : byte) : option WorkspaceIntentOp :=
  if 26 <? byte_to_Z b then None
  else
    match byte_to_Z b with
    | 0 => Some OpAdoptWorkspace | 1 => Some OpRenamePane | 2 => Some OpRenameTab | 3 => Some OpRenameSession
    | 4 => Some OpClosePane | 5 => Some OpCloseTab | 6 => Some OpSplitPane | 7 => Some OpMovePane
    | 8 => Some OpReorderTabs | 9 => Some OpFocusTab | 10 => Some OpFocusPane | 11 => Some OpSetSyncInput
    | 12 => Some OpSpawnPane | 13 => Some OpSpawnTab | 14 => Some OpSetZoom | 15 => Some OpDetachPane
    | 16 => Some OpReattachPane | 17 => Some OpSetDividerWeight | 18 => Some OpNewSession | 19 => Some OpCloseSession
    | 20 => Some OpReopenClosedTab | 21 => Some OpBreakPaneToTab | 22 => Some OpSwapPanes
    | 23 => Some OpDockPaneAtTabEdge | 24 => Some OpSetTabLayout | 25 => Some OpSpawnDetachedPane
    | _ => Some OpSetPaneVideoTarget
    end.
Definition op_as_byte (op : WorkspaceIntentOp) : byte :=
  byte_of_Z
    match op with
    | OpAdoptWorkspace => 0 | OpRenamePane => 1 | OpRenameTab => 2 | OpRenameSession => 3 | OpClosePane => 4
    | OpCloseTab => 5 | OpSplitPane => 6 | OpMovePane => 7 | OpReorderTabs => 8 | OpFocusTab => 9
    | OpFocusPane => 10 | OpSetSyncInput => 11 | OpSpawnPane => 12 | OpSpawnTab => 13 | OpSetZoom => 14
    | OpDetachPane => 15 | OpReattachPane => 16 | OpSetDividerWeight => 17 | OpNewSession => 18
    | OpCloseSession => 19 | OpReopenClosedTab => 20 | OpBreakPaneToTab => 21 | OpSwapPanes => 22
    | OpDockPaneAtTabEdge => 23 | OpSetTabLayout => 24 | OpSpawnDetachedPane => 25 | OpSetPaneVideoTarget => 26
    end.

Definition MAX_NAME_BYTES : Z := 512.
Definition MAX_TAB_COUNT : Z := 4096.
Definition MAX_BLOB_BYTES : Z := 16384.

(** ** The arguments *)

Record SplitArgs : Type := mkSplitArgs {
  sp_target : RawUuid; sp_axis : SplitAxis; sp_before : bool; sp_new_pane : RawUuid; sp_spawn_cwd : list byte;
}.
Record MoveArgs : Type := mkMoveArgs { mv_source : RawUuid; mv_target : RawUuid; mv_axis : SplitAxis; mv_before : bool }.
Record SpawnTabArgs : Type := mkSpawnTabArgs {
  st_session : RawUuid; st_new_pane : RawUuid; st_position : NewTabPosition; st_spawn_cwd : list byte;
}.
Record NewSessionArgs : Type := mkNewSessionArgs {
  ns_session : RawUuid; ns_new_pane : RawUuid; ns_name : list byte; ns_spawn_cwd : list byte;
}.
Record DockArgs : Type := mkDockArgs { dk_source : RawUuid; dk_tab : RawUuid; dk_edge : PaneDropEdge }.
Record SpawnDetachedArgs : Type := mkSpawnDetachedArgs { sd_new_pane : RawUuid; sd_kind : PaneKind; sd_video : list byte }.

(** ** Writers *)

Definition put_name (w : ByteWriter) (name : list byte) : ByteWriter :=
  let bytes := encode_string name MAX_NAME_BYTES in
  put_bytes (put_u16 w (u16_try_from_or_max (zlen bytes))) bytes.
Definition put_blob (w : ByteWriter) (blob : list byte) : ByteWriter :=
  let length := u16_try_from_or_max (zlen blob) in
  put_bytes (put_u16 w length) (take (Z.to_nat length) blob).

Definition encode_identity (id : RawUuid) : list byte := id.
Definition put_rename (w : ByteWriter) (a : RawUuid * list byte) : ByteWriter := put_name (put_bytes w a.1) a.2.
Definition encode_name (id : RawUuid) (name : list byte) : list byte := into_vec (put_rename writer_new (id, name)).
Definition put_flag (w : ByteWriter) (a : RawUuid * bool) : ByteWriter := put_bool (put_bytes w a.1) a.2.
Definition encode_flag (id : RawUuid) (flag : bool) : list byte := into_vec (put_flag writer_new (id, flag)).

Definition put_split (w : ByteWriter) (a : SplitArgs) : ByteWriter :=
  let w := put_bytes w (sp_target a) in
  let w := put_u8 w (axis_as_byte (sp_axis a)) in
  let w := put_bool w (sp_before a) in
  let w := put_bytes w (sp_new_pane a) in
  put_name w (sp_spawn_cwd a).
Definition encode_split (target : RawUuid) (axis : SplitAxis) (before : bool) (new_pane : RawUuid) (spawn_cwd : list byte) :
    list byte := into_vec (put_split writer_new (mkSplitArgs target axis before new_pane spawn_cwd)).

Definition put_move (w : ByteWriter) (a : MoveArgs) : ByteWriter :=
  let w := put_bytes w (mv_source a) in
  let w := put_bytes w (mv_target a) in
  let w := put_u8 w (axis_as_byte (mv_axis a)) in
  put_bool w (mv_before a).
Definition encode_move (source target : RawUuid) (axis : SplitAxis) (before : bool) : list byte :=
  into_vec (put_move writer_new (mkMoveArgs source target axis before)).

Definition put_reorder (w : ByteWriter) (a : RawUuid * list RawUuid) : ByteWriter :=
  let count := Z.min (zlen a.2) 65535 in
  let w := put_bytes w a.1 in
  let w := put_u16 w (u16_try_from_or_max count) in
  foldl put_bytes w (take (Z.to_nat count) a.2).
Definition encode_reorder_tabs (session : RawUuid) (tab_order : list RawUuid) : list byte :=
  into_vec (put_reorder writer_new (session, tab_order)).

Definition put_spawn_tab (w : ByteWriter) (a : SpawnTabArgs) : ByteWriter :=
  let w := put_bytes w (st_session a) in
  let w := put_bytes w (st_new_pane a) in
  let w := put_u8 w (position_as_byte (st_position a)) in
  put_name w (st_spawn_cwd a).
Definition encode_spawn_tab (session new_pane : RawUuid) (position : NewTabPosition) (spawn_cwd : list byte) : list byte :=
  into_vec (put_spawn_tab writer_new (mkSpawnTabArgs session new_pane position spawn_cwd)).

Definition put_new_session (w : ByteWriter) (a : NewSessionArgs) : ByteWriter :=
  let w := put_bytes w (ns_session a) in
  let w := put_bytes w (ns_new_pane a) in
  let w := put_name w (ns_name a) in
  put_name w (ns_spawn_cwd a).
Definition encode_new_session (new_session new_pane : RawUuid) (name spawn_cwd : list byte) : list byte :=
  into_vec (put_new_session writer_new (mkNewSessionArgs new_session new_pane name spawn_cwd)).

Definition put_swap (w : ByteWriter) (a : RawUuid * RawUuid) : ByteWriter := put_bytes (put_bytes w a.1) a.2.
Definition encode_swap_panes (first second : RawUuid) : list byte := into_vec (put_swap writer_new (first, second)).

Definition put_dock (w : ByteWriter) (a : DockArgs) : ByteWriter :=
  put_u8 (put_bytes (put_bytes w (dk_source a)) (dk_tab a)) (edge_as_byte (dk_edge a)).
Definition encode_dock_at_tab_edge (source tab : RawUuid) (edge : PaneDropEdge) : list byte :=
  into_vec (put_dock writer_new (mkDockArgs source tab edge)).

Definition encode_set_tab_layout (tab : RawUuid) (layout : WorkspaceLayoutNode) : list byte :=
  into_vec (put_bytes (put_bytes writer_new tab) (encode_layout layout)).

Definition put_spawn_detached (w : ByteWriter) (a : SpawnDetachedArgs) : ByteWriter :=
  put_blob (put_u8 (put_bytes w (sd_new_pane a)) (pane_kind_as_byte (sd_kind a))) (sd_video a).
Definition encode_spawn_detached_pane (new_pane : RawUuid) (kind : PaneKind) (video : option VideoEndpoint) : list byte :=
  into_vec (put_spawn_detached writer_new (mkSpawnDetachedArgs new_pane kind (default [] (encode_video_target <$> video)))).
Definition put_video (w : ByteWriter) (a : RawUuid * list byte) : ByteWriter := put_blob (put_bytes w a.1) a.2.
Definition encode_set_pane_video_target (pane : RawUuid) (video : option VideoEndpoint) : list byte :=
  into_vec (put_video writer_new (pane, default [] (encode_video_target <$> video))).

Definition put_reopen (w : ByteWriter) (a : Z * NewTabPosition) : ByteWriter :=
  put_u8 (put_u16 w (truncating_u16 a.1)) (position_as_byte a.2).
Definition encode_reopen_closed_tab (lifo_index : Z) (position : NewTabPosition) : list byte :=
  into_vec (put_reopen writer_new (lifo_index, position)).
Definition put_divider (w : ByteWriter) (a : RawUuid * Z * f64) : ByteWriter :=
  put_u64 (put_u16 (put_bytes w a.1.1) (truncating_u16 a.1.2)) a.2.
Definition encode_divider_weight (split : RawUuid) (leading_index : Z) (leading_weight : f64) : list byte :=
  into_vec (put_divider writer_new (split, leading_index, leading_weight)).

(** ** Readers *)

Definition read_name (context : string) : Parser (list byte) :=
  declared ← read_u16;
  if MAX_NAME_BYTES <? declared
  then parser_fail (malformed (context +:+ ": name " +:+ show declared +:+ " > " +:+ show MAX_NAME_BYTES))
  else
    bytes ← read_bytes declared;
    parser_lift (if utf8_valid bytes then Ok bytes else Err (malformed (context +:+ ": name is not valid UTF-8"))).
Definition read_blob (context : string) : Parser (list byte) :=
  declared ← read_u16;
  if MAX_BLOB_BYTES <? declared
  then parser_fail (malformed (context +:+ ": blob " +:+ show declared +:+ " > " +:+ show MAX_BLOB_BYTES))
  else read_bytes declared.
Definition expect_end (context : string) : Parser unit := read_end (context +:+ ": trailing bytes").

(** The fields, and then nothing. *)
Definition whole {A} (context : string) (p : Parser A) (data : list byte) : wresult A :=
  run_parser (a ← p; _ ← expect_end context; mret a) data.

(** An enum's byte, with its default. *)
Definition read_as {A} (from_byte : byte -> A) : Parser A := b ← read_u8; mret (from_byte b).

Definition decode_identity (data : list byte) : wresult RawUuid := whole "intent identity" read_uuid data.
Definition read_rename : Parser (RawUuid * list byte) := id ← read_uuid; name ← read_name "intent rename"; mret (id, name).
Definition decode_name (data : list byte) : wresult (RawUuid * list byte) := whole "intent rename" read_rename data.
Definition read_flag : Parser (RawUuid * bool) := id ← read_uuid; flag ← read_bool; mret (id, flag).
Definition decode_flag (data : list byte) : wresult (RawUuid * bool) := whole "intent flag" read_flag data.

Definition read_split : Parser SplitArgs :=
  target ← read_uuid;
  axis ← read_as axis_from_byte;
  before ← read_bool;
  new_pane ← read_uuid;
  spawn_cwd ← read_name "intent split";
  mret (mkSplitArgs target axis before new_pane spawn_cwd).
Definition decode_split (data : list byte) : wresult SplitArgs := whole "intent split" read_split data.
Definition read_move : Parser MoveArgs :=
  source ← read_uuid; target ← read_uuid; axis ← read_as axis_from_byte; before ← read_bool;
  mret (mkMoveArgs source target axis before).
Definition decode_move (data : list byte) : wresult MoveArgs := whole "intent move" read_move data.

Definition read_reorder : Parser (RawUuid * list RawUuid) :=
  session ← read_uuid;
  count ← read_u16;
  if MAX_TAB_COUNT <? count
  then parser_fail (malformed ("intent reorderTabs: count " +:+ show count +:+ " > " +:+ show MAX_TAB_COUNT))
  else
    left ← read_bytes_remaining;
    if left <? count * SESSION_ID_BYTE_COUNT
    then parser_fail (malformed ("intent reorderTabs: " +:+ show count +:+ " tabs need " +:+
                                 show (count * SESSION_ID_BYTE_COUNT) +:+ " bytes"))
    else tabs ← read_many read_uuid (Z.to_nat count); mret (session, tabs).
Definition decode_reorder_tabs (data : list byte) : wresult (RawUuid * list RawUuid) :=
  whole "intent reorderTabs" read_reorder data.

Definition read_spawn_tab : Parser SpawnTabArgs :=
  session ← read_uuid; new_pane ← read_uuid; position ← read_as position_from_byte; spawn_cwd ← read_name "intent spawnTab";
  mret (mkSpawnTabArgs session new_pane position spawn_cwd).
Definition decode_spawn_tab (data : list byte) : wresult SpawnTabArgs := whole "intent spawnTab" read_spawn_tab data.
Definition read_new_session : Parser NewSessionArgs :=
  session ← read_uuid; new_pane ← read_uuid; name ← read_name "intent newSession"; spawn_cwd ← read_name "intent newSession";
  mret (mkNewSessionArgs session new_pane name spawn_cwd).
Definition decode_new_session (data : list byte) : wresult NewSessionArgs := whole "intent newSession" read_new_session data.
Definition read_swap : Parser (RawUuid * RawUuid) := first ← read_uuid; second ← read_uuid; mret (first, second).
Definition decode_swap_panes (data : list byte) : wresult (RawUuid * RawUuid) := whole "intent swapPanes" read_swap data.
Definition read_dock : Parser DockArgs :=
  source ← read_uuid; tab ← read_uuid; edge ← read_as edge_from_byte; mret (mkDockArgs source tab edge).
Definition decode_dock_at_tab_edge (data : list byte) : wresult DockArgs := whole "intent dockPaneAtTabEdge" read_dock data.

(** The layout is answered still encoded, and nothing need follow: it is all that is left. *)
Definition read_tab_layout : Parser (RawUuid * list byte) :=
  tab ← read_uuid;
  left ← read_bytes_remaining;
  if MAX_BLOB_BYTES <? left
  then parser_fail (malformed ("intent setTabLayout: blob " +:+ show left +:+ " > " +:+ show MAX_BLOB_BYTES))
  else blob ← remaining; mret (tab, blob).
Definition decode_set_tab_layout (data : list byte) : wresult (RawUuid * list byte) := run_parser read_tab_layout data.

Definition read_spawn_detached : Parser SpawnDetachedArgs :=
  new_pane ← read_uuid; kind ← read_as pane_kind_from_byte; video ← read_blob "intent spawnDetachedPane";
  mret (mkSpawnDetachedArgs new_pane kind video).
Definition decode_spawn_detached_pane (data : list byte) : wresult SpawnDetachedArgs :=
  whole "intent spawnDetachedPane" read_spawn_detached data.
Definition read_video : Parser (RawUuid * list byte) :=
  pane ← read_uuid; video ← read_blob "intent setPaneVideoTarget"; mret (pane, video).
Definition decode_set_pane_video_target (data : list byte) : wresult (RawUuid * list byte) :=
  whole "intent setPaneVideoTarget" read_video data.
Definition read_reopen : Parser (Z * NewTabPosition) :=
  lifo_index ← read_u16; position ← read_as position_from_byte; mret (lifo_index, position).
Definition decode_reopen_closed_tab (data : list byte) : wresult (Z * NewTabPosition) :=
  whole "intent reopenClosedTab" read_reopen data.
Definition read_divider : Parser (RawUuid * Z * f64) :=
  split ← read_uuid; leading_index ← read_u16; leading_weight ← read_u64; mret (split, leading_index, leading_weight).
Definition decode_divider_weight (data : list byte) : wresult (RawUuid * Z * f64) :=
  whole "intent setDividerWeight" read_divider data.

(** ** Every op with its arguments *)

Inductive IntentArgs : Type :=
| AUpload (state : HostWorkspaceState)
| AName (id : RawUuid) (name : list byte)
| AIdentity (id : RawUuid)
| ASplit (a : SplitArgs)
| AMove (a : MoveArgs)
| AReorder (session : RawUuid) (tab_order : list RawUuid)
| AFlag (id : RawUuid) (flag : bool)
| ASpawnTab (a : SpawnTabArgs)
| ADivider (split : RawUuid) (leading_index : Z) (leading_weight : f64)
| ANewSession (a : NewSessionArgs)
| AReopen (lifo_index : Z) (position : NewTabPosition)
| ASwap (first second : RawUuid)
| ADock (a : DockArgs)
| ALayout (tab : RawUuid) (layout : WorkspaceLayoutNode)
| ASpawnDetached (new_pane : RawUuid) (kind : PaneKind) (video : option VideoEndpoint)
| AVideo (pane : RawUuid) (video : option VideoEndpoint).

Definition encode_args (a : IntentArgs) : list byte :=
  match a with
  | AUpload state => encode_snapshot state
  | AName id name => encode_name id name
  | AIdentity id => encode_identity id
  | ASplit a => encode_split (sp_target a) (sp_axis a) (sp_before a) (sp_new_pane a) (sp_spawn_cwd a)
  | AMove a => encode_move (mv_source a) (mv_target a) (mv_axis a) (mv_before a)
  | AReorder session tab_order => encode_reorder_tabs session tab_order
  | AFlag id flag => encode_flag id flag
  | ASpawnTab a => encode_spawn_tab (st_session a) (st_new_pane a) (st_position a) (st_spawn_cwd a)
  | ADivider split index weight => encode_divider_weight split index weight
  | ANewSession a => encode_new_session (ns_session a) (ns_new_pane a) (ns_name a) (ns_spawn_cwd a)
  | AReopen index position => encode_reopen_closed_tab index position
  | ASwap first second => encode_swap_panes first second
  | ADock a => encode_dock_at_tab_edge (dk_source a) (dk_tab a) (dk_edge a)
  | ALayout tab layout => encode_set_tab_layout tab layout
  | ASpawnDetached pane kind video => encode_spawn_detached_pane pane kind video
  | AVideo pane video => encode_set_pane_video_target pane video
  end.

(** A blob that is there must decode; none is no target. *)
Definition optional_target (blob : list byte) : option (option VideoEndpoint) :=
  match blob with [] => Some None | _ => Some <$> decode_video_target blob end.

(** What the applier reads of an op's payload, the blobs inside it decoded. *)
Definition decode_args (op : WorkspaceIntentOp) (data : list byte) : option IntentArgs :=
  match op with
  | OpAdoptWorkspace => AUpload <$> ok (decode_snapshot data)
  | OpRenamePane | OpRenameTab | OpRenameSession => '(id, name) ← ok (decode_name data); Some (AName id name)
  | OpClosePane | OpCloseTab | OpFocusTab | OpFocusPane | OpDetachPane | OpReattachPane | OpCloseSession | OpBreakPaneToTab =>
    AIdentity <$> ok (decode_identity data)
  | OpSplitPane | OpSpawnPane => ASplit <$> ok (decode_split data)
  | OpMovePane => AMove <$> ok (decode_move data)
  | OpReorderTabs => '(session, order) ← ok (decode_reorder_tabs data); Some (AReorder session order)
  | OpSetSyncInput | OpSetZoom => '(id, flag) ← ok (decode_flag data); Some (AFlag id flag)
  | OpSpawnTab => ASpawnTab <$> ok (decode_spawn_tab data)
  | OpSetDividerWeight => '(split, index, weight) ← ok (decode_divider_weight data); Some (ADivider split index weight)
  | OpNewSession => ANewSession <$> ok (decode_new_session data)
  | OpReopenClosedTab => '(index, position) ← ok (decode_reopen_closed_tab data); Some (AReopen index position)
  | OpSwapPanes => '(first, second) ← ok (decode_swap_panes data); Some (ASwap first second)
  | OpDockPaneAtTabEdge => ADock <$> ok (decode_dock_at_tab_edge data)
  | OpSetTabLayout => '(tab, blob) ← ok (decode_set_tab_layout data); ALayout tab <$> ok (decode_layout blob)
  | OpSpawnDetachedPane =>
    a ← ok (decode_spawn_detached_pane data); ASpawnDetached (sd_new_pane a) (sd_kind a) <$> optional_target (sd_video a)
  | OpSetPaneVideoTarget => '(pane, blob) ← ok (decode_set_pane_video_target data); AVideo pane <$> optional_target blob
  end.

(** ** What the writers and the readers promise each other *)

Definition name_ok (name : list byte) : Prop := utf8_valid name = true /\ zlen name <= MAX_NAME_BYTES.
Definition blob_ok (blob : list byte) : Prop := zlen blob <= MAX_BLOB_BYTES.
(** A text or a blob behind its length. *)
Definition sized (text : list byte) : list byte := to_be_bytes 2 (zlen text) ++ text.

Lemma put_name_all name w : name_ok name -> put_name w name = put_all w [to_be_bytes 2 (zlen name); name].
Proof.
  intros [_ Hl]. unfold put_name, encode_string, clamp_utf8. rewrite (proj2 (Z.leb_le _ _)) by done.
  unfold u16_try_from_or_max, MAX_NAME_BYTES in *. rewrite (proj2 (Z.leb_le _ _)) by lia. done.
Qed.
Lemma put_blob_all blob w : blob_ok blob -> put_blob w blob = put_all w [to_be_bytes 2 (zlen blob); blob].
Proof.
  unfold blob_ok, MAX_BLOB_BYTES. intros Hl. unfold put_blob, u16_try_from_or_max. rewrite (proj2 (Z.leb_le _ _)) by lia.
  by rewrite Nat2Z.id, firstn_all.
Qed.

Lemma runs_name n context name : name_ok name -> runs_at (read_name context) n (sized name) name.
Proof.
  intros [Hu Hl]. unfold MAX_NAME_BYTES in *. eapply runs_bind; [apply runs_read_u16; unfold u_range; lia|].
  unfold MAX_NAME_BYTES. rewrite (proj2 (Z.ltb_ge _ _)) by lia. eapply runs_lift; [by apply runs_read_bytes|]. by rewrite Hu.
Qed.
Lemma yields_name context : yields (read_name context) name_ok.
Proof.
  eapply yields_bind; [apply yields_read_u16|]. intros k Hk. destruct (Z.ltb_spec MAX_NAME_BYTES k); [apply yields_fail|].
  eapply yields_bind; [by apply yields_read_bytes; apply Hk|]. intros bs Hbs. cbn beta in Hbs.
  apply yields_lift. intros a. destruct (utf8_valid bs) eqn:E; intros; simplify_eq. split; [done|lia].
Qed.
Lemma runs_blob n context blob : blob_ok blob -> runs_at (read_blob context) n (sized blob) blob.
Proof.
  unfold blob_ok, MAX_BLOB_BYTES. intros Hl. eapply runs_bind; [apply runs_read_u16; unfold u_range; lia|].
  unfold MAX_BLOB_BYTES. rewrite (proj2 (Z.ltb_ge _ _)) by lia. by apply runs_read_bytes.
Qed.
Lemma yields_blob context : yields (read_blob context) blob_ok.
Proof.
  eapply yields_bind; [apply yields_read_u16|]. intros k Hk. destruct (Z.ltb_spec MAX_BLOB_BYTES k); [apply yields_fail|].
  eapply yields_weaken; [by apply yields_read_bytes; apply Hk|]. intros bs Hbs. cbn beta in Hbs. unfold blob_ok. lia.
Qed.

Lemma runs_as {A} (from_byte : byte -> A) (as_byte : A -> byte) n v :
  from_byte (as_byte v) = v -> runs_at (read_as from_byte) n [as_byte v] v.
Proof. intros E. rewrite <- E at 2. apply (runs_map read_u8 from_byte). apply runs_read_u8. Qed.
Lemma yields_as {A} (from_byte : byte -> A) : yields (read_as from_byte) (fun _ => True).
Proof. eapply yields_bind; [apply yields_read_u8|]. intros b _. by apply yields_ret. Qed.
Lemma runs_axis n a : runs_at (read_as axis_from_byte) n [axis_as_byte a] a.
Proof. apply runs_as. by destruct a. Qed.
Lemma runs_edge n e : runs_at (read_as edge_from_byte) n [edge_as_byte e] e.
Proof. apply runs_as. by destruct e. Qed.
Lemma runs_tab_position n p : runs_at (read_as position_from_byte) n [position_as_byte p] p.
Proof. apply runs_as. by destruct p. Qed.
Lemma runs_pane_kind n k : runs_at (read_as pane_kind_from_byte) n [pane_kind_as_byte k] k.
Proof. apply runs_as. by destruct k. Qed.
#[export] Hint Resolve runs_name yields_name runs_blob yields_blob yields_as runs_axis runs_edge runs_tab_position
  runs_pane_kind runs_read_u64 yields_read_u64 : fields.

Ltac args := cbn -[to_be_bytes cast_unsigned sized app concat name_ok blob_ok byte_of_Z read_as read_name read_blob] in *.

#[export] Program Instance identity_payload : Payload RawUuid := {
  put_payload w id := put_bytes w id; read_payload := read_uuid; payload_ok := is_uuid; payload_bytes id := id;
}.
Next Obligation. intros id _ buf. reflexivity. Qed.
Next Obligation. eauto with fields. Qed.
Next Obligation. eauto with fields. Qed.

#[export] Program Instance rename_payload : Payload (RawUuid * list byte) := {
  put_payload := put_rename; read_payload := read_rename; payload_ok a := is_uuid a.1 /\ name_ok a.2;
  payload_bytes a := concat [a.1; sized a.2];
}.
Next Obligation.
  intros a [_ Hn] buf. unfold put_rename. rewrite put_name_all by done.
  exact (put_all_owned buf [a.1; to_be_bytes 2 (zlen a.2); a.2]).
Qed.
Next Obligation. intros [] n [? ?]. unfold read_rename. args. run_fields. Qed.
Next Obligation. unfold read_rename. yield_fields. by apply yields_ret. Qed.

#[export] Program Instance flag_payload : Payload (RawUuid * bool) := {
  put_payload := put_flag; read_payload := read_flag; payload_ok a := is_uuid a.1;
  payload_bytes a := concat [a.1; [byte_of_Z (if a.2 then 1 else 0)]];
}.
Next Obligation. intros a _ buf. exact (put_all_owned buf [a.1; [byte_of_Z (if a.2 then 1 else 0)]]). Qed.
Next Obligation. intros [] n ?. unfold read_flag. args. run_fields. Qed.
Next Obligation. unfold read_flag. yield_fields. by apply yields_ret. Qed.

#[export] Program Instance split_payload : Payload SplitArgs := {
  put_payload := put_split; read_payload := read_split;
  payload_ok a := is_uuid (sp_target a) /\ is_uuid (sp_new_pane a) /\ name_ok (sp_spawn_cwd a);
  payload_bytes a := concat [sp_target a; [axis_as_byte (sp_axis a)]; [byte_of_Z (if sp_before a then 1 else 0)];
                       sp_new_pane a; sized (sp_spawn_cwd a)];
}.
Next Obligation.
  intros a (_ & _ & Hn) buf. unfold put_split. rewrite put_name_all by done.
  exact (put_all_owned buf [sp_target a; [axis_as_byte (sp_axis a)]; [byte_of_Z (if sp_before a then 1 else 0)];
                       sp_new_pane a; to_be_bytes 2 (zlen (sp_spawn_cwd a)); sp_spawn_cwd a]).
Qed.
Next Obligation. intros [] n (? & ? & ?). unfold read_split. args. run_fields. Qed.
Next Obligation. unfold read_split. yield_fields. by apply yields_ret. Qed.

#[export] Program Instance move_payload : Payload MoveArgs := {
  put_payload := put_move; read_payload := read_move; payload_ok a := is_uuid (mv_source a) /\ is_uuid (mv_target a);
  payload_bytes a := concat [mv_source a; mv_target a; [axis_as_byte (mv_axis a)]; [byte_of_Z (if mv_before a then 1 else 0)]];
}.
Next Obligation.
  intros a _ buf.
  exact (put_all_owned buf [mv_source a; mv_target a; [axis_as_byte (mv_axis a)]; [byte_of_Z (if mv_before a then 1 else 0)]]).
Qed.
Next Obligation. intros [] n [? ?]. unfold read_move. args. run_fields. Qed.
Next Obligation. unfold read_move. yield_fields. by apply yields_ret. Qed.

#[export] Program Instance reorder_payload : Payload (RawUuid * list RawUuid) := {
  put_payload := put_reorder; read_payload := read_reorder;
  payload_ok a := is_uuid a.1 /\ Forall is_uuid a.2 /\ zlen a.2 <= MAX_TAB_COUNT;
  payload_bytes a := a.1 ++ to_be_bytes 2 (zlen a.2) ++ concat (map id a.2);
}.
Next Obligation.
  intros a (_ & _ & Hl) buf. unfold MAX_TAB_COUNT in Hl. unfold put_reorder. rewrite Z.min_l, Nat2Z.id, firstn_all by lia.
  unfold u16_try_from_or_max. rewrite (proj2 (Z.leb_le _ _)) by lia.
  change (put_u16 (put_bytes (mkWriter (Owned buf)) a.1) (zlen a.2)) with (mkWriter (Owned ((buf ++ a.1) ++ to_be_bytes 2 (zlen a.2)))).
  rewrite (appends_foldl put_bytes id a.2 ltac:(intros; apply appends_slice)). by rewrite <- !app_assoc.
Qed.
Next Obligation.
  intros [s l] n (? & Hl & Hc). unfold read_reorder. cbn [fst snd] in *. unfold MAX_TAB_COUNT in *.
  eapply runs_bind; [eauto with fields|]. eapply runs_bind; [apply runs_read_u16; unfold u_range; lia|].
  unfold MAX_TAB_COUNT. rewrite (proj2 (Z.ltb_ge 4096 _)) by lia. apply runs_remaining. intros left Hleft.
  assert (E : zlen (concat (map id l)) = zlen l * SESSION_ID_BYTE_COUNT).
  { clear -Hl. unfold SESSION_ID_BYTE_COUNT. induction Hl as [|u l Hu Hl IH]; [done|]. unfold is_uuid in Hu.
    cbn [map concat id length]. rewrite length_app. lia. }
  rewrite (proj2 (Z.ltb_ge left _)) by lia. rewrite Nat2Z.id. eapply (runs_map (read_many read_uuid (length l)) (fun tabs => (s, tabs))).
  apply runs_read_many. intros u k Hu. apply runs_cell_uuid. by eapply Forall_forall in Hl.
Qed.
Next Obligation.
  unfold read_reorder. eapply yields_bind; [eauto with fields|]. intros s Hs. eapply yields_bind; [eauto with fields|].
  intros count Hc. destruct (Z.ltb_spec MAX_TAB_COUNT count); [apply yields_fail|].
  eapply yields_bind; [apply yields_bytes_remaining|]. intros left _. destruct (left <? _); [apply yields_fail|].
  eapply yields_bind; [apply yields_read_many, yields_cell_uuid|]. intros l [Hl HF]. apply yields_ret. unfold u_range in Hc.
  cbn [fst snd]. split; [done|]. split; [done|]. lia.
Qed.

#[export] Program Instance spawn_tab_payload : Payload SpawnTabArgs := {
  put_payload := put_spawn_tab; read_payload := read_spawn_tab;
  payload_ok a := is_uuid (st_session a) /\ is_uuid (st_new_pane a) /\ name_ok (st_spawn_cwd a);
  payload_bytes a := concat [st_session a; st_new_pane a; [position_as_byte (st_position a)]; sized (st_spawn_cwd a)];
}.
Next Obligation.
  intros a (_ & _ & Hn) buf. unfold put_spawn_tab. rewrite put_name_all by done.
  exact (put_all_owned buf [st_session a; st_new_pane a; [position_as_byte (st_position a)];
                       to_be_bytes 2 (zlen (st_spawn_cwd a)); st_spawn_cwd a]).
Qed.
Next Obligation. intros [] n (? & ? & ?). unfold read_spawn_tab. args. run_fields. Qed.
Next Obligation. unfold read_spawn_tab. yield_fields. by apply yields_ret. Qed.

#[export] Program Instance new_session_payload : Payload NewSessionArgs := {
  put_payload := put_new_session; read_payload := read_new_session;
  payload_ok a := is_uuid (ns_session a) /\ is_uuid (ns_new_pane a) /\ name_ok (ns_name a) /\ name_ok (ns_spawn_cwd a);
  payload_bytes a := concat [ns_session a; ns_new_pane a; sized (ns_name a); sized (ns_spawn_cwd a)];
}.
Next Obligation.
  intros a (_ & _ & Hn & Hc) buf. unfold put_new_session. rewrite !put_name_all by done.
  exact (put_all_owned buf [ns_session a; ns_new_pane a; to_be_bytes 2 (zlen (ns_name a)); ns_name a;
                       to_be_bytes 2 (zlen (ns_spawn_cwd a)); ns_spawn_cwd a]).
Qed.
Next Obligation. intros [] n (? & ? & ? & ?). unfold read_new_session. args. run_fields. Qed.
Next Obligation. unfold read_new_session. yield_fields. by apply yields_ret. Qed.

#[export] Program Instance swap_payload : Payload (RawUuid * RawUuid) := {
  put_payload := put_swap; read_payload := read_swap; payload_ok a := is_uuid a.1 /\ is_uuid a.2;
  payload_bytes a := concat [a.1; a.2];
}.
Next Obligation. intros a _ buf. exact (put_all_owned buf [a.1; a.2]). Qed.
Next Obligation. intros [] n [? ?]. unfold read_swap. args. run_fields. Qed.
Next Obligation. unfold read_swap. yield_fields. by apply yields_ret. Qed.

#[export] Program Instance dock_payload : Payload DockArgs := {
  put_payload := put_dock; read_payload := read_dock; payload_ok a := is_uuid (dk_source a) /\ is_uuid (dk_tab a);
  payload_bytes a := concat [dk_source a; dk_tab a; [edge_as_byte (dk_edge a)]];
}.
Next Obligation. intros a _ buf. exact (put_all_owned buf [dk_source a; dk_tab a; [edge_as_byte (dk_edge a)]]). Qed.
Next Obligation. intros [] n [? ?]. unfold read_dock. args. run_fields. Qed.
Next Obligation. unfold read_dock. yield_fields. by apply yields_ret. Qed.

#[export] Program Instance spawn_detached_payload : Payload SpawnDetachedArgs := {
  put_payload := put_spawn_detached; read_payload := read_spawn_detached;
  payload_ok a := is_uuid (sd_new_pane a) /\ blob_ok (sd_video a);
  payload_bytes a := concat [sd_new_pane a; [pane_kind_as_byte (sd_kind a)]; sized (sd_video a)];
}.
Next Obligation.
  intros a [_ Hb] buf. unfold put_spawn_detached. rewrite put_blob_all by done.
  exact (put_all_owned buf [sd_new_pane a; [pane_kind_as_byte (sd_kind a)]; to_be_bytes 2 (zlen (sd_video a)); sd_video a]).
Qed.
Next Obligation. intros [] n [? ?]. unfold read_spawn_detached. args. run_fields. Qed.
Next Obligation. unfold read_spawn_detached. yield_fields. by apply yields_ret. Qed.

(** The same type as a rename's arguments, so no instance. *)
Program Definition video_payload : Payload (RawUuid * list byte) := {|
  put_payload := put_video; read_payload := read_video; payload_ok a := is_uuid a.1 /\ blob_ok a.2;
  payload_bytes a := concat [a.1; sized a.2];
|}.
Next Obligation.
  intros a [_ Hb] buf. unfold put_video. rewrite put_blob_all by done.
  exact (put_all_owned buf [a.1; to_be_bytes 2 (zlen a.2); a.2]).
Qed.
Next Obligation. intros [] n [? ?]. unfold read_video. args. run_fields. Qed.
Next Obligation. unfold read_video. yield_fields. by apply yields_ret. Qed.

Lemma truncating_u16_id v : u_range 16 v -> truncating_u16 v = v.
Proof. unfold u_range, truncating_u16. intros. change 0xFFFF with (Z.ones 16). rewrite Z.land_ones by lia. apply Z.mod_small. lia. Qed.

#[export] Program Instance reopen_payload : Payload (Z * NewTabPosition) := {
  put_payload := put_reopen; read_payload := read_reopen; payload_ok a := u_range 16 a.1;
  payload_bytes a := concat [to_be_bytes 2 a.1; [position_as_byte a.2]];
}.
Next Obligation.
  intros a Ha buf. unfold put_reopen. rewrite truncating_u16_id by done.
  exact (put_all_owned buf [to_be_bytes 2 a.1; [position_as_byte a.2]]).
Qed.
Next Obligation. intros [i p] n ?. unfold read_reopen. args. run_fields. Qed.
Next Obligation. unfold read_reopen. yield_fields. by apply yields_ret. Qed.

#[export] Program Instance divider_payload : Payload (RawUuid * Z * f64) := {
  put_payload := put_divider; read_payload := read_divider;
  payload_ok a := is_uuid a.1.1 /\ u_range 16 a.1.2 /\ u_range 64 a.2;
  payload_bytes a := concat [a.1.1; to_be_bytes 2 a.1.2; to_be_bytes 8 a.2];
}.
Next Obligation.
  intros a (_ & Hi & _) buf. unfold put_divider. rewrite truncating_u16_id by done.
  exact (put_all_owned buf [a.1.1; to_be_bytes 2 a.1.2; to_be_bytes 8 a.2]).
Qed.
Next Obligation. intros [ [s i] w] n (? & ? & ?). unfold read_divider. args. run_fields. Qed.
Next Obligation. unfold read_divider. yield_fields. by apply yields_ret. Qed.

(** ** A payload and nothing else *)

(** [p] at position [n] reads [bs] and answers an error because of the [rest] that follows. *)
Definition refuses_at {A} (p : Parser A) (n : Z) (bs rest : list byte) (e : WireError) : Prop :=
  forall pre, zlen pre = n -> zlen (pre ++ bs ++ rest) <= usize_max -> p (mkReader (pre ++ bs ++ rest) n) = Err e.

Lemma refuses_bind {A B} (p : Parser A) (k : A -> Parser B) n bs1 bs2 rest v e :
  runs_at p n bs1 v -> refuses_at (k v) (n + zlen bs1) bs2 rest e -> refuses_at (p ≫= k) n (bs1 ++ bs2) rest e.
Proof.
  intros H1 H2 pre Hn Hmax. unfold mbind, parser_bind. rewrite <- app_assoc in *. rewrite H1 by done.
  rewrite app_assoc in *. by rewrite H2 by len_lia.
Qed.
Lemma refuses_end {B} what (k : unit -> Parser B) n rest : rest <> [] -> refuses_at (read_end what ≫= k) n [] rest (malformed what).
Proof.
  intros Hr pre Hn _. unfold read_end, mbind, parser_bind, read_bytes_remaining, bytes_remaining. cbn [rd_data rd_offset app].
  destruct (Z.eqb_spec (zlen (pre ++ rest) - n) 0); [|done]. destruct rest; [done|]. rewrite length_app in *. cbn [length] in *. lia.
Qed.
Lemma run_refuses {A} (p : Parser A) bs rest e : refuses_at p 0 bs rest e -> zlen (bs ++ rest) <= usize_max -> run_parser p (bs ++ rest) = Err e.
Proof. intros Hr Hmax. unfold run_parser, reader_new. pose proof (Hr [] eq_refl Hmax) as E. cbn [app] in E. by rewrite E. Qed.

Section Whole.
Context {A : Type} (P : Payload A) (context : string).
Notation decode := (whole context read_payload).
Notation encode x := (into_vec (put_payload writer_new x)).

Lemma whole_roundtrip x : payload_ok x -> zlen (encode x) <= usize_max -> decode (encode x) = Ok x.
Proof.
  intros Hok. rewrite (into_vec_appends _ _ (payload_appends x Hok)). intros Hmax.
  apply run_ends; [|done]. apply (ends_finish read_payload (fun y => y)). by apply payload_runs.
Qed.

Lemma whole_trailing x rest :
  payload_ok x -> rest <> [] -> zlen (encode x ++ rest) <= usize_max ->
  decode (encode x ++ rest) = Err (malformed (context +:+ ": trailing bytes")).
Proof.
  intros Hok Hr. rewrite (into_vec_appends _ _ (payload_appends x Hok)). intros Hmax.
  apply run_refuses; [|done]. rewrite <- (app_nil_r (payload_bytes x)). eapply refuses_bind; [by apply payload_runs|]. by apply refuses_end.
Qed.

Lemma whole_answer x rest :
  payload_ok x -> zlen (encode x ++ rest) <= usize_max ->
  ok (decode (encode x ++ rest)) = match rest with [] => Some x | _ => None end.
Proof.
  intros Hok Hmax. destruct rest as [|b rest].
  - rewrite app_nil_r in *. by rewrite whole_roundtrip.
  - by rewrite whole_trailing.
Qed.

Lemma whole_then {B} x rest (k : A -> option B) :
  payload_ok x -> zlen (encode x ++ rest) <= usize_max ->
  ok (decode (encode x ++ rest)) ≫= k = match rest with [] => k x | _ => None end.
Proof. intros Hok Hmax. rewrite whole_answer by done. by destruct rest. Qed.
Lemma whole_map {B} x rest (f : A -> B) :
  payload_ok x -> zlen (encode x ++ rest) <= usize_max ->
  f <$> ok (decode (encode x ++ rest)) = match rest with [] => Some (f x) | _ => None end.
Proof. intros Hok Hmax. rewrite whole_answer by done. by destruct rest. Qed.

Lemma whole_decoded data x : decode data = Ok x -> payload_ok x.
Proof.
  unfold whole, run_parser, mbind, parser_bind. destruct (read_payload (reader_new data)) as [ [y r]|e] eqn:E; [|done].
  destruct (expect_end context r) as [ [[] r']|e]; [|done]. intros [= <-].
  eapply payload_yields; [|exact E]. unfold rd_ok. cbn. lia.
Qed.
Lemma whole_bound {B} data (k : A -> option B) y : ok (decode data) ≫= k = Some y -> exists x, payload_ok x /\ k x = Some y.
Proof. destruct (decode data) as [x|] eqn:E; [|done]. intros Hk. exists x. split; [by eapply whole_decoded|done]. Qed.
Lemma whole_mapped {B} data (f : A -> B) y : f <$> ok (decode data) = Some y -> exists x, payload_ok x /\ y = f x.
Proof. destruct (decode data) as [x|] eqn:E; [|done]. intros [= <-]. exists x. split; [by eapply whole_decoded|done]. Qed.
End Whole.

(** ** Blobs *)

Lemma snapshot_trailing s rest :
  state_ok s -> rest <> [] -> zlen (encode_snapshot s ++ rest) <= usize_max -> ok (decode_snapshot (encode_snapshot s ++ rest)) = None.
Proof.
  intros Hs Hr. destruct (entries_ok s Hs) as [Hn Hok]. destruct (count_fits (zlen (sorted_entries s)) ltac:(lia)) as [Ec Hu].
  rewrite encode_snapshot_bytes, Ec. intros Hmax. unfold decode_snapshot.
  rewrite (run_refuses _ _ _ (malformed "workspace snapshot: trailing bytes")); [done| |done].
  unfold read_snapshot. eapply refuses_bind; [by apply runs_read_u32|]. rewrite <- (app_nil_r (concat _)).
  eapply refuses_bind; [by apply runs_read_entries|]. by apply refuses_end.
Qed.

Lemma layout_trailing l rest :
  layout_ok (S MAX_LAYOUT_DEPTH) l -> rest <> [] -> zlen (encode_layout l ++ rest) <= usize_max ->
  ok (decode_layout (encode_layout l ++ rest)) = None.
Proof.
  intros Hl Hr. unfold encode_layout. rewrite (into_vec_appends _ _ (appends_layout _ _ Hl)). intros Hmax. unfold decode_layout.
  rewrite (run_refuses _ _ _ (malformed "workspace layout: trailing bytes")); [done| |done].
  rewrite <- (app_nil_r (layout_bytes l)). eapply refuses_bind; [by apply runs_layout|]. by apply refuses_end.
Qed.

Lemma yields_u16_string : yields read_u16_prefixed_string text_ok.
Proof.
  eapply yields_bind; [apply yields_read_u16|]. intros k Hk. eapply yields_bind; [by apply yields_read_bytes; apply Hk|].
  intros bs Hbs. cbn beta in Hbs. apply yields_lift. intros a. destruct (utf8_valid bs) eqn:E; intros; simplify_eq.
  unfold u_range in Hk. split; [done|]. unfold MAX_STRING_BYTES. lia.
Qed.
#[export] Hint Resolve yields_u16_string yields_read_u32 yields_bytes_remaining : fields.

Lemma video_target_decoded data e : decode_video_target data = Some e -> endpoint_ok e.
Proof.
  unfold decode_video_target, run_parser. match goal with |- context [match ?p (reader_new data) with _ => _ end] =>
    assert (Hy : yields p endpoint_ok); [|destruct (p (reader_new data)) as [ [x r]|err] eqn:E; [|done] ] end.
  - yield_fields. destruct (negb _); [apply yields_fail|]. apply yields_ret. unfold endpoint_ok. cbn. split; [done|]. split; [done|].
    split; [done|]. repeat case_match; by simplify_eq.
  - cbn. intros [= <-]. eapply Hy; [|exact E]. unfold rd_ok. cbn. lia.
Qed.

Lemma optional_target_roundtrip v :
  (forall e, v = Some e -> endpoint_ok e) -> optional_target (default [] (encode_video_target <$> v)) = Some v.
Proof.
  destruct v as [e|]; [|done]. intros Hv. pose proof (video_target_roundtrip e (Hv e eq_refl)) as E. unfold optional_target.
  change (default [] (encode_video_target <$> Some e)) with (encode_video_target e).
  revert E. destruct (encode_video_target e) as [|b blob]; intros E; [by vm_compute in E|by rewrite E].
Qed.
Lemma optional_target_decoded blob v e : optional_target blob = Some v -> v = Some e -> endpoint_ok e.
Proof.
  unfold optional_target. destruct blob as [|b blob]; [by intros [= <-]|]. destruct (decode_video_target (b :: blob)) as [e'|] eqn:E; [|done].
  cbn. intros [= <-] [= <-]. by eapply video_target_decoded.
Qed.

(** The applier's decoder of a layout, after the tab. *)
Lemma tab_layout_read tab blob :
  is_uuid tab -> zlen (tab ++ blob) <= usize_max ->
  decode_set_tab_layout (tab ++ blob) =
    (if MAX_BLOB_BYTES <? zlen blob
     then Err (malformed ("intent setTabLayout: blob " +:+ show (zlen blob) +:+ " > " +:+ show MAX_BLOB_BYTES)) else Ok (tab, blob)).
Proof.
  intros Ht Hmax. unfold decode_set_tab_layout, run_parser, reader_new.
  pose proof (runs_cell_uuid 0 tab Ht [] blob eq_refl Hmax) as E. cbn [app] in E. unfold read_tab_layout, mbind, parser_bind. rewrite E.
  unfold read_bytes_remaining, bytes_remaining. cbn [rd_data rd_offset].
  replace (zlen (tab ++ blob) - (0 + zlen tab)) with (zlen blob) by (rewrite length_app; lia).
  destruct (MAX_BLOB_BYTES <? zlen blob); [done|].
  pose proof (ends_remaining (0 + zlen tab) blob tab ltac:(lia) Hmax) as E2. by rewrite E2.
Qed.

(** ** The theorem *)

Definition target_ok (v : option VideoEndpoint) : Prop := match v with Some e => endpoint_ok e | None => True end.
Definition text_valid (text : list byte) : Prop := utf8_valid text = true.
(** Fields of their width; a name of any length. *)
Definition args_ok (a : IntentArgs) : Prop :=
  match a with
  | AUpload state => state_ok state
  | AName id name => is_uuid id /\ text_valid name
  | AIdentity id | AFlag id _ => is_uuid id
  | ASplit a => is_uuid (sp_target a) /\ is_uuid (sp_new_pane a) /\ text_valid (sp_spawn_cwd a)
  | AMove a => is_uuid (mv_source a) /\ is_uuid (mv_target a)
  | AReorder session order => is_uuid session /\ Forall is_uuid order /\ zlen order <= MAX_TAB_COUNT
  | ASpawnTab a => is_uuid (st_session a) /\ is_uuid (st_new_pane a) /\ text_valid (st_spawn_cwd a)
  | ADivider split index weight => is_uuid split /\ u_range 16 index /\ u_range 64 weight
  | ANewSession a => is_uuid (ns_session a) /\ is_uuid (ns_new_pane a) /\ text_valid (ns_name a) /\ text_valid (ns_spawn_cwd a)
  | AReopen index _ => u_range 16 index
  | ASwap first second => is_uuid first /\ is_uuid second
  | ADock a => is_uuid (dk_source a) /\ is_uuid (dk_tab a)
  | ALayout tab layout => is_uuid tab /\ layout_ok (S MAX_LAYOUT_DEPTH) layout
  | ASpawnDetached pane _ video | AVideo pane video => is_uuid pane /\ target_ok video
  end.
(** A layout or a target whose bytes stay under the cap of a blob. *)
Definition fits (a : IntentArgs) : Prop :=
  match a with
  | ALayout _ layout => zlen (encode_layout layout) <= MAX_BLOB_BYTES
  | ASpawnDetached _ _ (Some e) | AVideo _ (Some e) => zlen (encode_video_target e) <= MAX_BLOB_BYTES
  | _ => True
  end.
(** Names cut at a character boundary within the cap. *)
Definition clamped (a : IntentArgs) : IntentArgs :=
  let cut name := clamp_utf8 name MAX_NAME_BYTES in
  match a with
  | AName id name => AName id (cut name)
  | ASplit a => ASplit (mkSplitArgs (sp_target a) (sp_axis a) (sp_before a) (sp_new_pane a) (cut (sp_spawn_cwd a)))
  | ASpawnTab a => ASpawnTab (mkSpawnTabArgs (st_session a) (st_new_pane a) (st_position a) (cut (st_spawn_cwd a)))
  | ANewSession a => ANewSession (mkNewSessionArgs (ns_session a) (ns_new_pane a) (cut (ns_name a)) (cut (ns_spawn_cwd a)))
  | _ => a
  end.
(** The shape of each op's arguments. *)
Definition belongs (op : WorkspaceIntentOp) (a : IntentArgs) : bool :=
  match a with
  | AUpload _ => bool_decide (op = OpAdoptWorkspace)
  | AName _ _ => bool_decide (op ∈ [OpRenamePane; OpRenameTab; OpRenameSession])
  | AIdentity _ =>
    bool_decide (op ∈ [OpClosePane; OpCloseTab; OpFocusTab; OpFocusPane; OpDetachPane; OpReattachPane; OpCloseSession; OpBreakPaneToTab])
  | ASplit _ => bool_decide (op ∈ [OpSplitPane; OpSpawnPane])
  | AMove _ => bool_decide (op = OpMovePane)
  | AReorder _ _ => bool_decide (op = OpReorderTabs)
  | AFlag _ _ => bool_decide (op ∈ [OpSetSyncInput; OpSetZoom])
  | ASpawnTab _ => bool_decide (op = OpSpawnTab)
  | ADivider _ _ _ => bool_decide (op = OpSetDividerWeight)
  | ANewSession _ => bool_decide (op = OpNewSession)
  | AReopen _ _ => bool_decide (op = OpReopenClosedTab)
  | ASwap _ _ => bool_decide (op = OpSwapPanes)
  | ADock _ => bool_decide (op = OpDockPaneAtTabEdge)
  | ALayout _ _ => bool_decide (op = OpSetTabLayout)
  | ASpawnDetached _ _ _ => bool_decide (op = OpSpawnDetachedPane)
  | AVideo _ _ => bool_decide (op = OpSetPaneVideoTarget)
  end.

Lemma clamp_name name : text_valid name -> name_ok (clamp_utf8 name MAX_NAME_BYTES).
Proof.
  unfold text_valid, utf8_valid, name_ok. destruct (utf8_chars name) eqn:E; [|done]. intros _.
  destruct (clamp_utf8_prefix name _ MAX_NAME_BYTES ltac:(done) E) as (n & _ & H1 & H2 & _). unfold utf8_valid. by rewrite H1.
Qed.
Lemma clamp_short name max : zlen name <= max -> clamp_utf8 name max = name.
Proof. intros. unfold clamp_utf8. by rewrite (proj2 (Z.leb_le _ _)) by done. Qed.
Lemma put_name_cut w name : text_valid name -> put_name w (clamp_utf8 name MAX_NAME_BYTES) = put_name w name.
Proof. intros [_ Hl]%clamp_name. unfold put_name, encode_string. by rewrite (clamp_short (clamp_utf8 name _)). Qed.

Lemma encode_clamped a : args_ok a -> encode_args (clamped a) = encode_args a.
Proof.
  destruct a; try done; cbn [args_ok clamped encode_args]; intros; destruct_and?;
    unfold encode_name, encode_split, encode_spawn_tab, encode_new_session, put_rename, put_split, put_spawn_tab, put_new_session;
    cbn [fst snd sp_target sp_axis sp_before sp_new_pane sp_spawn_cwd st_session st_new_pane st_position st_spawn_cwd
         ns_session ns_new_pane ns_name ns_spawn_cwd]; by rewrite !put_name_cut.
Qed.

(** [op] is one of those [belongs] allows: the others are contradictions. *)
Ltac each_op Hop :=
  apply bool_decide_eq_true in Hop;
  lazymatch type of Hop with
  | _ ∈ _ => repeat (apply elem_of_cons in Hop; destruct Hop as [->|Hop]); [..|by apply elem_of_nil in Hop]
  | _ => subst
  end.

Definition target_blob (v : option VideoEndpoint) : list byte := default [] (encode_video_target <$> v).

Lemma layout_answer tab l rest :
  is_uuid tab -> layout_ok (S MAX_LAYOUT_DEPTH) l -> zlen (encode_layout l) <= MAX_BLOB_BYTES ->
  zlen (encode_set_tab_layout tab l ++ rest) <= usize_max ->
  decode_args OpSetTabLayout (encode_set_tab_layout tab l ++ rest) = match rest with [] => Some (ALayout tab l) | _ => None end.
Proof.
  intros Ht Hl Hfit. change (encode_set_tab_layout tab l) with (tab ++ encode_layout l). rewrite <- app_assoc. intros Hmax.
  assert (Hmax' : zlen (encode_layout l ++ rest) <= usize_max) by (rewrite length_app in Hmax; lia).
  unfold decode_args. rewrite tab_layout_read by done. destruct rest as [|b rest].
  - rewrite app_nil_r in *. rewrite (proj2 (Z.ltb_ge _ _)) by done. cbn -[decode_layout].
    by rewrite (proj1 (layout_roundtrip_and_bound l [] Hl Hmax')).
  - destruct (MAX_BLOB_BYTES <? _); [done|]. cbn -[decode_layout]. by rewrite layout_trailing.
Qed.

Ltac answered P context x :=
  first [ refine (eq_trans (whole_then P context x _ _ _ _) _) | refine (eq_trans (whole_map P context x _ _ _ _) _) ];
  [cbn; split_and?; try apply clamp_name; assumption|assumption|by case_match].

Lemma args_answer op a rest :
  args_ok a -> fits a -> belongs op a = true -> zlen (encode_args a ++ rest) <= usize_max ->
  decode_args op (encode_args a ++ rest) = match rest with [] => Some (clamped a) | _ => None end.
Proof.
  intros Hok Hfit Hop. rewrite <- (encode_clamped a Hok).
  destruct a as [state|i name|i|a|a|i order|i flag|a|i index weight|a|index position|i j|a|i layout|i kind v|i v];
    cbn [args_ok fits belongs clamped encode_args] in *; intros Hmax; destruct_and?; each_op Hop; cbn [decode_args].
  all: try answered rename_payload "intent rename"%string (i, clamp_utf8 name MAX_NAME_BYTES).
  all: try answered identity_payload "intent identity"%string i.
  all: try answered split_payload "intent split"%string
    (mkSplitArgs (sp_target a) (sp_axis a) (sp_before a) (sp_new_pane a) (clamp_utf8 (sp_spawn_cwd a) MAX_NAME_BYTES)).
  all: try answered flag_payload "intent flag"%string (i, flag).
  - destruct rest; [by rewrite app_nil_r, snapshot_roundtrip|by rewrite snapshot_trailing].
  - destruct a as [source target axis before]. answered move_payload "intent move"%string (mkMoveArgs source target axis before).
  - answered reorder_payload "intent reorderTabs"%string (i, order).
  - answered spawn_tab_payload "intent spawnTab"%string
      (mkSpawnTabArgs (st_session a) (st_new_pane a) (st_position a) (clamp_utf8 (st_spawn_cwd a) MAX_NAME_BYTES)).
  - answered divider_payload "intent setDividerWeight"%string (i, index, weight).
  - answered new_session_payload "intent newSession"%string
      (mkNewSessionArgs (ns_session a) (ns_new_pane a) (clamp_utf8 (ns_name a) MAX_NAME_BYTES) (clamp_utf8 (ns_spawn_cwd a) MAX_NAME_BYTES)).
  - answered reopen_payload "intent reopenClosedTab"%string (index, position).
  - answered swap_payload "intent swapPanes"%string (i, j).
  - destruct a as [source tab edge]. answered dock_payload "intent dockPaneAtTabEdge"%string (mkDockArgs source tab edge).
  - by apply layout_answer.
  - refine (eq_trans (whole_then spawn_detached_payload "intent spawnDetachedPane"%string (mkSpawnDetachedArgs i kind (target_blob v)) _ _ _ Hmax) _).
    { split; [assumption|]. by destruct v. }
    destruct rest; [|done]. cbn [sd_video sd_new_pane sd_kind]. unfold target_blob. rewrite optional_target_roundtrip; [done|]. by intros e ->.
  - refine (eq_trans (whole_then video_payload "intent setPaneVideoTarget"%string (i, target_blob v) _ _ _ Hmax) _).
    { split; [assumption|]. by destruct v. }
    destruct rest; [|done]. cbn [snd fst]. unfold target_blob. rewrite optional_target_roundtrip; [done|]. by intros e ->.
Qed.

(** What was decoded is within the limits, for every op: its fields of their width ([args_ok], a decoded
    document's cells among them), and the caps as numbers. *)
Definition limits (a : IntentArgs) : Prop :=
  args_ok a /\
  match a with
  | AUpload state => Z.of_nat (size state) <= 65536 /\ forall key v, state !! key = Some v -> zlen v <= 2147483647
  | AName _ name => zlen name <= 512
  | ASplit a => zlen (sp_spawn_cwd a) <= 512
  | ASpawnTab a => zlen (st_spawn_cwd a) <= 512
  | ANewSession a => zlen (ns_name a) <= 512 /\ zlen (ns_spawn_cwd a) <= 512
  | AReorder _ order => zlen order <= 4096
  | ALayout _ layout => layout_ok 13 layout
  | AMove _ | AIdentity _ | AFlag _ _ | ADivider _ _ _ | AReopen _ _ | ASwap _ _ | ADock _ | ASpawnDetached _ _ _ | AVideo _ _ => True
  end.

(** The longest payload an op's decoder can accept: a name counts its length and 512 bytes, a blob its
    length and 16384, the layout 16384 with nothing before it but the tab. *)
Definition payload_cap (op : WorkspaceIntentOp) : Z :=
  match op with
  | OpAdoptWorkspace => 4 + 65536 * (22 + 2147483647)
  | OpRenamePane | OpRenameTab | OpRenameSession => 16 + (2 + 512)
  | OpClosePane | OpCloseTab | OpFocusTab | OpFocusPane | OpDetachPane | OpReattachPane | OpCloseSession | OpBreakPaneToTab => 16
  | OpSplitPane | OpSpawnPane => 16 + 1 + 1 + 16 + (2 + 512)
  | OpMovePane => 16 + 16 + 1 + 1
  | OpReorderTabs => 16 + 2 + 4096 * 16
  | OpSetSyncInput | OpSetZoom => 16 + 1
  | OpSpawnTab => 16 + 16 + 1 + (2 + 512)
  | OpSetDividerWeight => 16 + 2 + 8
  | OpNewSession => 16 + 16 + (2 + 512) + (2 + 512)
  | OpReopenClosedTab => 2 + 1
  | OpSwapPanes => 16 + 16
  | OpDockPaneAtTabEdge => 16 + 16 + 1
  | OpSetTabLayout => 16 + 16384
  | OpSpawnDetachedPane => 16 + 1 + (2 + 16384)
  | OpSetPaneVideoTarget => 16 + (2 + 16384)
  end.

(** *** The readers' budgets *)

Lemma takes_name context : takes (read_name context) (fun _ => True) (2 + 512).
Proof.
  eapply takes_bind; [apply takes_read_u16|]. intros k [Hk _]. destruct (Z.ltb_spec MAX_NAME_BYTES k) as [|Hc]; [apply takes_fail|].
  unfold MAX_NAME_BYTES in Hc. eapply (takes_weaken _ _ _ (k + 0)); [|intros a H; exact H|lia].
  eapply takes_bind; [by apply takes_read_bytes|]. intros bs _. by apply takes_lift.
Qed.
Lemma takes_blob context : takes (read_blob context) (fun _ => True) (2 + 16384).
Proof.
  eapply takes_bind; [apply takes_read_u16|]. intros k [Hk _]. destruct (Z.ltb_spec MAX_BLOB_BYTES k) as [|Hc]; [apply takes_fail|].
  unfold MAX_BLOB_BYTES in Hc. by eapply (takes_weaken _ _ _ k); [apply takes_read_bytes| |].
Qed.
Lemma takes_as {A} (from_byte : byte -> A) : takes (read_as from_byte) (fun _ => True) 1.
Proof. eapply (takes_bind _ _ _ _ 1 0); [apply takes_next_byte|]. intros. by apply takes_ret. Qed.
Lemma takes_reorder : takes read_reorder (fun _ => True) (16 + 2 + 4096 * 16).
Proof.
  eapply takes_within; [|instantiate (1 := 16 + (2 + (0 + 4096 * 16))); reflexivity].
  eapply takes_bind; [apply takes_uuid|]. intros session _. eapply takes_bind; [apply takes_read_u16|]. intros k [Hk _].
  destruct (Z.ltb_spec MAX_TAB_COUNT k) as [|Hc]; [apply takes_fail|]. unfold MAX_TAB_COUNT in Hc.
  eapply takes_bind; [apply takes_bytes_remaining|]. intros left _. destruct (_ <? _); [apply takes_fail|].
  eapply (takes_weaken _ (fun _ => True) _ (Z.of_nat (Z.to_nat k) * 16 + 0)); [|done|lia].
  eapply takes_bind; [apply takes_read_many, takes_uuid|]. intros. by apply takes_ret.
Qed.
#[export] Hint Resolve takes_name takes_blob takes_as : takes.

Ltac decoded P context :=
  intros E; first [ apply (whole_bound P context) in E | apply (whole_mapped P context) in E ];
  destruct E as [x [Hx E] ]; destruct_and?; destruct x; cbn in *; simplify_eq;
  unfold limits, name_ok, MAX_NAME_BYTES, MAX_TAB_COUNT in *; destruct_and?; (split; [cbn; split_and?; done|reflexivity]).

Lemma run_yields {A} (p : Parser A) (P : A -> Prop) data x : yields p P -> run_parser p data = Ok x -> P x.
Proof.
  intros Hy. unfold run_parser. destruct (p (reader_new data)) as [ [y r]|e] eqn:E; [|done]. intros [= <-].
  eapply Hy; [|exact E]. unfold rd_ok. cbn. lia.
Qed.
Lemma layout_decoded blob l : ok (decode_layout blob) = Some l -> layout_ok (S MAX_LAYOUT_DEPTH) l.
Proof.
  destruct (decode_layout blob) eqn:E; [|done]. intros [= <-].
  exact (proj2 (layout_roundtrip_and_bound (leaf 1) blob eq_refl ltac:(by vm_compute)) _ E).
Qed.
Lemma tab_layout_decoded data tab blob : decode_set_tab_layout data = Ok (tab, blob) -> is_uuid tab /\ zlen data <= 16 + 16384.
Proof.
  unfold decode_set_tab_layout, run_parser, read_tab_layout, mbind, parser_bind.
  destruct (read_uuid (reader_new data)) as [ [id r]|e] eqn:E; [|done].
  destruct (takes_uuid (reader_new data) id r ltac:(unfold rd_ok; cbn; lia) E) as (Hu & [Ed _] & Ho). cbn in Ed, Ho.
  unfold read_bytes_remaining, bytes_remaining. destruct (Z.ltb_spec MAX_BLOB_BYTES (zlen (rd_data r) - rd_offset r)) as [|Hc]; [done|].
  unfold MAX_BLOB_BYTES in Hc. rewrite Ed in Hc. unfold remaining. intros [= <- _]. split; [done|lia].
Qed.

Lemma args_decoded op data a : decode_args op data = Some a -> limits a /\ belongs op a = true.
Proof.
  destruct op; cbn [decode_args].
  all: try (decoded identity_payload "intent identity"%string; fail).
  all: try (decoded rename_payload "intent rename"%string; fail).
  all: try (decoded split_payload "intent split"%string; fail).
  all: try (decoded flag_payload "intent flag"%string; fail).
  - intros (x & Hx & ->)%fmap_Some. destruct (decode_snapshot data) as [s|] eqn:E; [|done]. injection Hx as <-.
    apply snapshot_decoded in E as [Hok _]. split; [|done]. split; [exact Hok|]. destruct Hok as [Hn Hv]. split; [exact Hn|].
    intros key v Hk. by apply (Hv key v).
  - decoded move_payload "intent move"%string.
  - decoded reorder_payload "intent reorderTabs"%string.
  - decoded spawn_tab_payload "intent spawnTab"%string.
  - intros ([ [i k] w] & (Hu & Hk & Hw) & [= <-])%(whole_bound divider_payload "intent setDividerWeight"%string). by split.
  - decoded new_session_payload "intent newSession"%string.
  - decoded reopen_payload "intent reopenClosedTab"%string.
  - decoded swap_payload "intent swapPanes"%string.
  - decoded dock_payload "intent dockPaneAtTabEdge"%string.
  - destruct (decode_set_tab_layout data) as [ [tab blob]|] eqn:E; [|done]. cbn. intros (l & Hl%layout_decoded & ->)%fmap_Some.
    apply tab_layout_decoded in E as [Hu _]. by split.
  - intros (x & Hx & (v & Hv & ->)%fmap_Some)%(whole_bound spawn_detached_payload "intent spawnDetachedPane"%string).
    destruct Hx as [Hu _]. cbn. repeat split; [done|]. destruct v; [|done]. by eapply optional_target_decoded.
  - intros ([i b] & [Hu _] & (v & Hv & ->)%fmap_Some)%(whole_bound video_payload "intent setPaneVideoTarget"%string).
    cbn. repeat split; [done|]. destruct v; [|done]. by eapply optional_target_decoded.
Qed.

(** An op's decoder reads its payload to the end of it. *)
Lemma whole_takes {A} context (p : Parser A) n data : takes p (fun _ => True) n -> is_Some (ok (whole context p data)) -> zlen data <= n.
Proof.
  intros Hp. unfold whole. destruct (run_parser _ data) as [x|] eqn:E; [|by intros [? ?] ].
  intros _. by apply (run_takes _ _ _ _ _ _ Hp E).
Qed.
Lemma bind_some {A B} (m : option A) (k : A -> option B) b : m ≫= k = Some b -> is_Some m.
Proof. destruct m; [by eexists|done]. Qed.
Lemma map_some {A B} (m : option A) (f : A -> B) b : f <$> m = Some b -> is_Some m.
Proof. destruct m; [by eexists|done]. Qed.

Ltac counted :=
  intros E; first [apply bind_some in E | apply map_some in E];
  refine (whole_takes _ _ _ _ _ E); take_fields.

Lemma payload_length op data a : decode_args op data = Some a -> zlen data <= payload_cap op.
Proof.
  destruct op; cbn [decode_args payload_cap].
  all: try (counted; fail).
  all: intros E; first [apply bind_some in E | apply map_some in E].
  all: try (refine (whole_takes _ _ _ _ _ E); eapply takes_weaken; [apply takes_uuid|done|done]).
  - destruct (decode_snapshot data) as [s|] eqn:Ed; [|by destruct E]. by apply snapshot_decoded in Ed as [_ Hl].
  - exact (whole_takes _ _ _ _ takes_reorder E).
  - destruct (decode_set_tab_layout data) as [ [tab blob]|] eqn:Ed; [|by destruct E]. by apply tab_layout_decoded in Ed as [_ Hl].
Qed.

(** C27: The arguments of every op survive the wire, a name cut to its cap at a character boundary, and any
    byte after them is refused.  Whatever bytes a peer sends, what the decoder of an op answers is of that
    op's shape and within the limits: identities of sixteen bytes, names of valid UTF-8 of at most 512
    bytes, at most 4096 tabs, layouts at most 12 splits deep, an uploaded document of at most 65536 cells
    whose keys and values fit their fields, numbers of their width.  And the payload it was read from is no
    longer than the op's cap, the blobs of a layout or a target at most 16384 bytes of it.  The bytes of the
    ops are told apart. *)
Theorem intent_arguments_roundtrip op a rest data :
  args_ok a -> fits a -> belongs op a = true -> zlen (encode_args a ++ rest) <= usize_max ->
  decode_args op (encode_args a ++ rest) = match rest with [] => Some (clamped a) | _ => None end /\
  (forall a', decode_args op data = Some a' -> limits a' /\ belongs op a' = true /\ zlen data <= payload_cap op) /\
  (forall b, op_from_byte b = Some op <-> b = op_as_byte op).
Proof.
  intros Hok Hf Hb Hmax. split; [by apply args_answer|].
  split; [intros a' E; destruct (args_decoded op data a' E); split; [done|split; [done|by eapply payload_length] ]|].
  intros b. split; [|intros ->; by destruct op]. unfold op_from_byte. pose proof (byte_to_Z_range b) as Hr.
  destruct (Z.ltb_spec 26 (byte_to_Z b)) as [|Hle]; [done|]. rewrite <- (byte_of_Z_to_Z b) at 2.
  assert (Hin : byte_to_Z b ∈ map Z.of_nat (seq 0 27)) by (apply list_elem_of_In, in_map_iff; exists (Z.to_nat (byte_to_Z b)); split; [lia|apply in_seq; lia]).
  revert Hin. generalize (byte_to_Z b). clear. intros z Hin. cbn [seq map] in Hin.
  repeat (apply elem_of_cons in Hin; destruct Hin as [->|Hin]); [..|by apply elem_of_nil in Hin]; cbn; by intros [= <-].
Qed.

Definition sample_split : IntentArgs := ASplit (mkSplitArgs (id_of 1) Vertical true (id_of 2) mac_text).
Lemma intent_arguments_roundtrip_witness :
  decode_args OpSplitPane (encode_args sample_split) = Some sample_split /\
  decode_args OpSplitPane (encode_args sample_split ++ [Byte.x00]) = None.
Proof.
  assert (Hok : args_ok sample_split) by (repeat split; by vm_compute).
  pose proof (proj1 (intent_arguments_roundtrip OpSplitPane sample_split [] [] Hok I eq_refl ltac:(by vm_compute))) as H1.
  pose proof (proj1 (intent_arguments_roundtrip OpSplitPane sample_split [Byte.x00] [] Hok I eq_refl ltac:(by vm_compute))) as H2.
  rewrite app_nil_r in H1. split; [exact H1|exact H2].
Defined.
