(* ===== verification/Topology.v ===== *)
(** * Topology: the arrangement as cells of the document

    Models [slopdesk-wire/src/document/topology.rs] with the rest of the field vocabulary of [fields.rs]:
    the workspace with the facts the host keeps beside it, the entries it is written as, and how it is read
    back from a document nobody vouches for.  A [BTreeMap] is a [gmap], read in key order where the code
    iterates. *)

From stdpp Require Import gmap sorting.
From S2P Require Import Prelude Bytes BTree Message Document Cells Liveness Float Tree Layout Identity Workspace TabOrder.

(** ** Fields of the objects other than panes *)

Definition SESSION_ORDER : byte := Byte.x00.
Definition ACTIVE_SESSION_ID : byte := Byte.x01.
Definition HOST_DISPLAY_NAME : byte := Byte.x02.
Definition LAYOUT_PRESETS : byte := Byte.x03.
Definition LAUNCH_PRESETS : byte := Byte.x04.
Definition SESSION_TEMPLATES : byte := Byte.x05.
Definition CLOSED_TAB_RING : byte := Byte.x06.
Definition UNATTACHED_SESSION_ID : byte := Byte.x07.

Definition SESSION_NAME : byte := Byte.x00.
Definition TAB_ORDER : byte := Byte.x01.
Definition ACTIVE_TAB_ID : byte := Byte.x02.
Definition DETACHED_PANES : byte := Byte.x03.
Definition FOCUS_MRU : byte := Byte.x04.

Definition TAB_TITLE : byte := Byte.x00.
Definition TAB_SESSION_ID : byte := Byte.x01.
Definition LAYOUT_STRUCTURE : byte := Byte.x02.
Definition ACTIVE_PANE_ID : byte := Byte.x03.
Definition ZOOMED_PANE_ID : byte := Byte.x04.
Definition SYNC_INPUT_ARMED : byte := Byte.x05.

Definition WEIGHT : byte := Byte.x00.

Definition session_key (id : RawUuid) (f : byte) : WorkspaceKey := key_of Document.Session id f.
Definition tab_key (id : RawUuid) (f : byte) : WorkspaceKey := key_of Document.Tab id f.
Definition weight_key (id : RawUuid) : WorkspaceKey := key_of Document.SplitNode id WEIGHT.

Definition CLOSED_TAB_RING_CAP : nat := 25.
Definition FOCUS_MRU_CAP : nat := 16.
Definition RESERVED_ROOT_FIELDS : list byte := [LAYOUT_PRESETS; LAUNCH_PRESETS; SESSION_TEMPLATES].

(** ** The topology *)

Record ClosedTab : Type := mkClosedTab { closed_session_id : RawUuid; closed_tab : Tab; closed_specs : Specs }.

Record WorkspaceTopology : Type := mkTopology {
  tree : TreeWorkspace;
  sync_input_tabs : gset RawUuid;
  focus_mru : gmap RawUuid (list RawUuid);
  closed_tabs : list ClosedTab;
  unattached_session_id : option RawUuid;
  host_display_name : list byte;
  spawn_cwd : gmap RawUuid (list byte);
}.
Definition topology_new (ws : TreeWorkspace) : WorkspaceTopology := mkTopology ws ∅ ∅ [] None [] ∅.

Definition closed_tab_ring (t : WorkspaceTopology) : list RawUuid := map (fun c => tab_id (closed_tab c)) (closed_tabs t).

(** ** As entries *)

(** The shape without the weights. *)
Fixpoint layout_of (n : SplitNode) : WorkspaceLayoutNode :=
  match n with
  | Leaf id => Cells.Leaf id
  | Split id axis children => Cells.Split id axis (map (fun c => layout_of (node c)) children)
  end.
Fixpoint append_weights (n : SplitNode) : list WorkspaceEntry :=
  match n with
  | Leaf _ => []
  | Split id _ children =>
    mkEntry (weight_key id) (encode_weights (map weight children)) :: concat (map (fun c => append_weights (node c)) children)
  end.

Definition optional (key : WorkspaceKey) (value : option (list byte)) : list WorkspaceEntry :=
  match value with Some v => [mkEntry key v] | None => [] end.

Definition append_root (t : WorkspaceTopology) : list WorkspaceEntry :=
  [mkEntry (root_key SESSION_ORDER) (encode_uuid_list (map session_id (sessions (tree t))));
   mkEntry (root_key CLOSED_TAB_RING) (encode_uuid_list (closed_tab_ring t));
   mkEntry (root_key HOST_DISPLAY_NAME) (encode_string (host_display_name t) MAX_STRING_BYTES)] ++
  optional (root_key ACTIVE_SESSION_ID) (encode_uuid <$> active_session_id (tree t)) ++
  optional (root_key UNATTACHED_SESSION_ID) (encode_uuid <$> unattached_session_id t).

Definition append_session (t : WorkspaceTopology) (s : Session) : list WorkspaceEntry :=
  let key := session_key (session_id s) in
  [mkEntry (key SESSION_NAME) (encode_string (session_name s) MAX_STRING_BYTES);
   mkEntry (key TAB_ORDER) (encode_uuid_list (map tab_id (tabs s)));
   mkEntry (key DETACHED_PANES) (encode_detached_panes (map (fun e => (pane e, origin_tab e)) (detached s)));
   mkEntry (key FOCUS_MRU) (encode_uuid_list (default [] (focus_mru t !! session_id s)))] ++
  optional (key ACTIVE_TAB_ID) ((fun tab => encode_uuid (tab_id tab)) <$> tabs s !! active_tab_index s).

Definition append_tab (t : WorkspaceTopology) (tab : Tab) (session : RawUuid) : list WorkspaceEntry :=
  let key := tab_key (tab_id tab) in
  [mkEntry (key TAB_TITLE) (encode_string (tab_title tab) MAX_STRING_BYTES);
   mkEntry (key TAB_SESSION_ID) (encode_uuid session);
   mkEntry (key LAYOUT_STRUCTURE) (encode_layout (layout_of (root tab)))] ++
  optional (key ACTIVE_PANE_ID) (encode_uuid <$> active_pane tab) ++
  optional (key ZOOMED_PANE_ID) (encode_uuid <$> zoomed_pane tab) ++
  (if bool_decide (tab_id tab ∈ sync_input_tabs t) then [mkEntry (key SYNC_INPUT_ARMED) (encode_bool true)] else []).

Definition append_pane (t : WorkspaceTopology) (id : RawUuid) (spec : PaneSpec) : list WorkspaceEntry :=
  let key := pane_key id in
  [mkEntry (key KIND) (encode_u8 (pane_kind_as_byte (spec_kind spec)));
   mkEntry (key TITLE) (encode_string (spec_title spec) MAX_STRING_BYTES)] ++
  (if user_renamed spec then [mkEntry (key USER_RENAMED) (encode_bool true)] else []) ++
  optional (key VIDEO_TARGET) (encode_video_target <$> video spec) ++
  optional (key SPAWN_CWD) ((fun cwd => encode_string cwd MAX_STRING_BYTES) <$> spawn_cwd t !! id).

Definition append_specs (t : WorkspaceTopology) (m : Specs) : list WorkspaceEntry :=
  concat (map (fun p => append_pane t p.1 p.2) (btree_by pane_le m)).

Definition entries (t : WorkspaceTopology) : list WorkspaceEntry :=
  append_root t ++
  concat (map (fun s =>
    append_session t s ++
    concat (map (fun tab => append_tab t tab (session_id s) ++ append_weights (root tab)) (tabs s)) ++
    append_specs t (specs s)) (sessions (tree t))) ++
  concat (map (fun c =>
    append_tab t (closed_tab c) (closed_session_id c) ++ append_weights (root (closed_tab c)) ++
    append_specs t (closed_specs c)) (closed_tabs t)).

(** ** One cell of a document *)

Definition state_string (state : HostWorkspaceState) (key : WorkspaceKey) : option (list byte) := state !! key ≫= decode_string.
Definition state_bool (state : HostWorkspaceState) (key : WorkspaceKey) : bool := default false (state !! key ≫= decode_bool).
Definition state_uuid (state : HostWorkspaceState) (key : WorkspaceKey) : option RawUuid := state !! key ≫= decode_uuid.
Definition state_uuid_list (state : HostWorkspaceState) (key : WorkspaceKey) : option (list RawUuid) :=
  state !! key ≫= decode_uuid_list.
Definition state_detached_panes (state : HostWorkspaceState) (key : WorkspaceKey) : option (list (RawUuid * option RawUuid)) :=
  state !! key ≫= decode_detached_panes.

Definition project_key_for_pane (state : HostWorkspaceState) (id : RawUuid) : option (list byte) :=
  TabOrder.pane_project_key id (fun pane => state_string state (pane_key pane PROJECT_KEY))
    (fun pane => state_string state (pane_key pane CWD)).

(** ** Read back *)

Section Read.
Context (state : HostWorkspaceState).

(** The weights of a split come from its own cell; a cell that is missing or does not match is even. *)
Fixpoint read_split_node (n : WorkspaceLayoutNode) : SplitNode :=
  match n with
  | Cells.Leaf id => Leaf id
  | Cells.Split id axis children =>
    let stored :=
      weights ← state !! weight_key id ≫= decode_weights;
      if decide (length weights = length children) then Some weights else None in
    Split id axis
      ((fix go (index : nat) (l : list WorkspaceLayoutNode) : list Child :=
          match l with
          | [] => []
          | c :: l =>
            mkChild (repaired (default default_weight (stored ≫= fun weights => weights !! index))) (read_split_node c) :: go (S index) l
          end) 0%nat children)
  end.

Definition read_spec (id : RawUuid) : PaneSpec :=
  let key := pane_key id in
  mkSpec (pane_kind_from_byte (default Byte.x00 (state !! key KIND ≫= decode_u8)))
    (default DEFAULT_PANE_TITLE (state_string state (key TITLE)))
    (state !! key VIDEO_TARGET ≫= decode_video_target)
    (state_bool state (key USER_RENAMED)).
Definition read_spawn_cwd (id : RawUuid) : option (list byte) := state_string state (pane_key id SPAWN_CWD).

Definition pane_at (id : RawUuid) (leaves : gset RawUuid) (f : byte) : option RawUuid :=
  pane ← state_uuid state (tab_key id f); if decide (pane ∈ leaves) then Some pane else None.
Definition read_tab (id : RawUuid) : option Tab :=
  blob ← state !! tab_key id LAYOUT_STRUCTURE;
  layout ← ok (decode_layout blob);
  let root := read_split_node layout in
  let leaves := list_to_set (all_pane_ids root) in
  Some (mkTab id (default [] (state_string state (tab_key id TAB_TITLE))) root
          (match pane_at id leaves ACTIVE_PANE_ID with Some pane => Some pane | None => first_leaf_id root end)
          (pane_at id leaves ZOOMED_PANE_ID)).

Definition insert_specs (m : Specs) (panes : list RawUuid) : Specs := foldl (fun m pane => <[pane := read_spec pane]> m) m panes.
(** A detached pane that is a leaf too, or is there already, is skipped. *)
Fixpoint read_detached_panes (m : Specs) (l : list (RawUuid * option RawUuid)) : Specs * list DetachedPane :=
  match l with
  | [] => (m, [])
  | (pane, origin) :: l =>
    if decide (is_Some (m !! pane)) then read_detached_panes m l
    else let '(m, rest) := read_detached_panes (<[pane := read_spec pane]> m) l in (m, mkDetached pane origin :: rest)
  end.
Definition read_session (id : RawUuid) : option Session :=
  let tab_ids := default [] (state_uuid_list state (session_key id TAB_ORDER)) in
  let tabs := omap read_tab tab_ids in
  match tabs with
  | [] => None
  | _ =>
    let leaf_specs := foldl (fun m t => insert_specs m (tab_panes t)) ∅ tabs in
    let '(specs, detached) :=
      read_detached_panes leaf_specs (default [] (state_detached_panes state (session_key id DETACHED_PANES))) in
    let active_tab_index :=
      default 0%nat (raw ← state_uuid state (session_key id ACTIVE_TAB_ID); fst <$> list_find (fun t => tab_id t = raw) tabs) in
    Some (mkSession id (default [] (state_string state (session_key id SESSION_NAME))) tabs active_tab_index specs detached)
  end.

Definition read_focus (m : gmap RawUuid (list RawUuid)) (s : Session) : gmap RawUuid (list RawUuid) :=
  match state_uuid_list state (session_key (session_id s) FOCUS_MRU) with
  | Some ((_ :: _) as ids) => <[session_id s := ids]> m
  | _ => m
  end.
Definition read_armed (armed : gset RawUuid) (t : Tab) : gset RawUuid :=
  if state_bool state (tab_key (tab_id t) SYNC_INPUT_ARMED) then {[tab_id t]} ∪ armed else armed.
Definition read_cwd (m : gmap RawUuid (list byte)) (id : RawUuid) : gmap RawUuid (list byte) :=
  match read_spawn_cwd id with Some cwd => <[id := cwd]> m | None => m end.

Definition read_closed (live : gset RawUuid) (tab : RawUuid) : option ClosedTab :=
  if decide (tab ∈ live) then None
  else
    t ← read_tab tab;
    owner ← state_uuid state (tab_key tab TAB_SESSION_ID);
    Some (mkClosedTab owner t (insert_specs ∅ (tab_panes t))).

Definition from_document : option WorkspaceTopology :=
  session_ids ← state_uuid_list state (root_key SESSION_ORDER);
  let sessions := omap read_session session_ids in
  match sessions with
  | [] => None
  | _ =>
    let live := list_to_set (concat (map (fun s => map tab_id (tabs s)) sessions)) in
    let ring := default [] (state_uuid_list state (root_key CLOSED_TAB_RING)) in
    let closed := omap (read_closed live) ring in
    let live_cwds := foldl read_cwd ∅ (concat (map (fun s => map fst (btree_by pane_le (specs s))) sessions)) in
    Some (mkTopology (workspace_new sessions (state_uuid state (root_key ACTIVE_SESSION_ID)))
            (foldl read_armed ∅ (concat (map tabs sessions)))
            (foldl read_focus ∅ sessions)
            closed
            (state_uuid state (root_key UNATTACHED_SESSION_ID))
            (default [] (state_string state (root_key HOST_DISPLAY_NAME)))
            (foldl read_cwd live_cwds (concat (map (fun c => tab_panes (closed_tab c)) closed))))
  end.
End Read.

(** ** Written *)

Definition is_topology (key : WorkspaceKey) : bool :=
  match kind_from_byte (kind key) with
  | Some Root => negb (bool_decide (field key ∈ RESERVED_ROOT_FIELDS))
  | Some (Document.Session | Document.Tab | Document.SplitNode) => true
  | Some Pane => bool_decide (field key ∈ TOPOLOGY_FIELDS)
  | Some Project | None => false
  end.

Definition write_topology (state : HostWorkspaceState) (t : WorkspaceTopology) : HostWorkspaceState :=
  let next := entries t in
  let supplied : gset WorkspaceKey := list_to_set (map entry_key next) in
  let state :=
    foldl (fun state key => if is_topology key && bool_decide (key ∉ supplied) then (set_or_clear state key None).1 else state)
      state (keys state) in
  foldl (fun state e => set state (entry_key e) (entry_value e)) state next.
