(* ===== verification/TopologyLaws.v ===== *)
(** * TopologyLaws: an arrangement written into a document is read back as it was

    The entries of a topology are a function of the cell's key, so what [write_topology] leaves in the
    document can be looked up object by object; reading it back goes through the same cells. *)

From stdpp Require Import gmap sorting.
From S2P Require Import Prelude Bytes BTree Message Document Cells Liveness Float Tree TreeLaws Layout Identity Workspace WorkspaceLaws TabOrder Topology.

(** ** The objects of a topology *)

Definition all_tabs (t : WorkspaceTopology) : list (Tab * RawUuid) :=
  concat (map (fun s => map (fun tab => (tab, session_id s)) (tabs s)) (sessions (tree t))) ++
  map (fun c => (closed_tab c, closed_session_id c)) (closed_tabs t).
Definition all_specs (t : WorkspaceTopology) : list (RawUuid * PaneSpec) :=
  concat (map (fun s => btree_by pane_le (specs s)) (sessions (tree t))) ++
  concat (map (fun c => btree_by pane_le (closed_specs c)) (closed_tabs t)).
Fixpoint splits (n : SplitNode) : list (RawUuid * list SplitWeight) :=
  match n with
  | Leaf _ => []
  | Split id _ children => (id, map weight children) :: concat (map (fun c => splits (node c)) children)
  end.
Definition all_splits (t : WorkspaceTopology) : list (RawUuid * list SplitWeight) :=
  concat (map (fun p => splits (root p.1)) (all_tabs t)).

(** What an object has in each field. *)
Definition root_cell (t : WorkspaceTopology) (f : byte) : option (list byte) :=
  match f with
  | Byte.x00 => Some (encode_uuid_list (map session_id (sessions (tree t))))
  | Byte.x06 => Some (encode_uuid_list (closed_tab_ring t))
  | Byte.x02 => Some (encode_string (host_display_name t) MAX_STRING_BYTES)
  | Byte.x01 => encode_uuid <$> active_session_id (tree t)
  | Byte.x07 => encode_uuid <$> unattached_session_id t
  | _ => None
  end.
Definition session_cell (t : WorkspaceTopology) (s : Session) (f : byte) : option (list byte) :=
  match f with
  | Byte.x00 => Some (encode_string (session_name s) MAX_STRING_BYTES)
  | Byte.x01 => Some (encode_uuid_list (map tab_id (tabs s)))
  | Byte.x03 => Some (encode_detached_panes (map (fun e => (pane e, origin_tab e)) (detached s)))
  | Byte.x04 => Some (encode_uuid_list (default [] (focus_mru t !! session_id s)))
  | Byte.x02 => (fun tab => encode_uuid (tab_id tab)) <$> tabs s !! active_tab_index s
  | _ => None
  end.
Definition tab_cell (t : WorkspaceTopology) (tab : Tab) (session : RawUuid) (f : byte) : option (list byte) :=
  match f with
  | Byte.x00 => Some (encode_string (tab_title tab) MAX_STRING_BYTES)
  | Byte.x01 => Some (encode_uuid session)
  | Byte.x02 => Some (encode_layout (layout_of (root tab)))
  | Byte.x03 => encode_uuid <$> active_pane tab
  | Byte.x04 => encode_uuid <$> zoomed_pane tab
  | Byte.x05 => if bool_decide (tab_id tab ∈ sync_input_tabs t) then Some (encode_bool true) else None
  | _ => None
  end.
Definition pane_cell (t : WorkspaceTopology) (id : RawUuid) (spec : PaneSpec) (f : byte) : option (list byte) :=
  match f with
  | Byte.x00 => Some (encode_u8 (pane_kind_as_byte (spec_kind spec)))
  | Byte.x01 => Some (encode_string (spec_title spec) MAX_STRING_BYTES)
  | Byte.x02 => if user_renamed spec then Some (encode_bool true) else None
  | Byte.x14 => encode_video_target <$> video spec
  | Byte.x15 => (fun cwd => encode_string cwd MAX_STRING_BYTES) <$> spawn_cwd t !! id
  | _ => None
  end.

(** ** The entries, object by object *)

Lemma elem_optional e key v : e ∈ optional key v <-> v = Some (entry_value e) /\ entry_key e = key.
Proof.
  unfold optional. destruct v as [v|]; [|set_solver]. rewrite list_elem_of_singleton. destruct e; cbn. naive_solver.
Qed.
Lemma elem_armed e key v (b : bool) : e ∈ (if b then [mkEntry key v] else []) <-> (if b then Some v else None) = Some (entry_value e) /\ entry_key e = key.
Proof. destruct b; [|set_solver]. rewrite list_elem_of_singleton. destruct e; cbn. naive_solver. Qed.

(** A cell function against the list of its fields. *)
Ltac cells :=
  match goal with |- ?e ∈ _ <-> _ => destruct e as [k v] end; cbn [entry_key entry_value];
  rewrite ?elem_of_app, ?elem_of_cons, ?elem_of_nil, ?elem_optional, ?elem_armed; cbn [entry_key entry_value];
  split; [naive_solver|intros (f & -> & Hf); destruct f; try discriminate Hf; naive_solver].

Lemma elem_root t e : e ∈ append_root t <-> exists f, entry_key e = root_key f /\ root_cell t f = Some (entry_value e).
Proof. unfold append_root. cells. Qed.
Lemma elem_session t s e :
  e ∈ append_session t s <-> exists f, entry_key e = session_key (session_id s) f /\ session_cell t s f = Some (entry_value e).
Proof. unfold append_session. cells. Qed.
Lemma elem_tab t tab o e :
  e ∈ append_tab t tab o <-> exists f, entry_key e = tab_key (tab_id tab) f /\ tab_cell t tab o f = Some (entry_value e).
Proof. unfold append_tab. cells. Qed.
Lemma elem_pane t id spec e :
  e ∈ append_pane t id spec <-> exists f, entry_key e = pane_key id f /\ pane_cell t id spec f = Some (entry_value e).
Proof. unfold append_pane. cells. Qed.

Lemma elem_weights n e :
  e ∈ append_weights n <-> exists id ws, (id, ws) ∈ splits n /\ e = mkEntry (weight_key id) (encode_weights ws).
Proof.
  induction n as [id|id axis l IH] using SplitNode_ind; cbn [append_weights splits]; [set_solver|].
  rewrite elem_of_cons, elem_of_all. split.
  - intros [->|(c & Hc & He)]; [exists id, (map weight l); set_solver|].
    rewrite Forall_forall in IH. apply IH in He as (i & w & Hin & ->); [|done]. exists i, w. split; [|done].
    apply elem_of_cons. right. apply elem_of_all. eauto.
  - intros (i & w & Hin & ->). apply elem_of_cons in Hin as [[= -> ->]|(c & Hc & Hin)%elem_of_all]; [by left|right].
    exists c. split; [done|]. rewrite Forall_forall in IH. apply IH; [done|]. eauto.
Qed.
Lemma elem_specs t m e :
  e ∈ append_specs t m <-> exists id spec, (id, spec) ∈ btree_by pane_le m /\ e ∈ append_pane t id spec.
Proof.
  unfold append_specs. rewrite elem_of_all. split.
  - intros ([id spec] & Hin & He). eauto.
  - intros (id & spec & Hin & He). by exists (id, spec).
Qed.

(** What a place in the topology puts in the document. *)
Inductive says (t : WorkspaceTopology) (e : WorkspaceEntry) : Prop :=
| says_root f : entry_key e = root_key f -> root_cell t f = Some (entry_value e) -> says t e
| says_session s f : s ∈ sessions (tree t) -> entry_key e = session_key (session_id s) f -> session_cell t s f = Some (entry_value e) -> says t e
| says_tab tab o f : (tab, o) ∈ all_tabs t -> entry_key e = tab_key (tab_id tab) f -> tab_cell t tab o f = Some (entry_value e) -> says t e
| says_weights id ws : (id, ws) ∈ all_splits t -> entry_key e = weight_key id -> entry_value e = encode_weights ws -> says t e
| says_pane id spec f : (id, spec) ∈ all_specs t -> entry_key e = pane_key id f -> pane_cell t id spec f = Some (entry_value e) -> says t e.

Lemma elem_all_tabs t tab o :
  (tab, o) ∈ all_tabs t <-> (exists s, s ∈ sessions (tree t) /\ tab ∈ tabs s /\ o = session_id s) \/
                            (exists c, c ∈ closed_tabs t /\ tab = closed_tab c /\ o = closed_session_id c).
Proof.
  unfold all_tabs. rewrite elem_of_app, elem_of_all. setoid_rewrite list_elem_of_fmap. split.
  - intros [(s & Hs & y & [= -> ->] & Hy)|(c & [= -> ->] & Hc)]; [left|right]; eauto.
  - intros [(s & Hs & Ht & ->)|(c & Hc & -> & ->)]; [left|right]; eauto 10.
Qed.
Lemma elem_all_specs t p :
  p ∈ all_specs t <-> (exists s, s ∈ sessions (tree t) /\ p ∈ btree_by pane_le (specs s)) \/
                      (exists c, c ∈ closed_tabs t /\ p ∈ btree_by pane_le (closed_specs c)).
Proof. unfold all_specs. by rewrite elem_of_app, !elem_of_all. Qed.
Lemma elem_all_splits t p : p ∈ all_splits t <-> exists tab o, (tab, o) ∈ all_tabs t /\ p ∈ splits (root tab).
Proof.
  unfold all_splits. rewrite elem_of_all. split; [intros ([tab o] & H1 & H2); eauto|].
  intros (tab & o & H1 & H2). by exists (tab, o).
Qed.

#[local] Opaque append_root append_session append_tab append_weights append_specs append_pane.
Lemma entries_say t e : e ∈ entries t <-> says t e.
Proof.
  unfold entries. repeat first [setoid_rewrite elem_of_app | setoid_rewrite elem_of_all].
  setoid_rewrite elem_weights. setoid_rewrite elem_specs. setoid_rewrite elem_pane. setoid_rewrite elem_tab.
  setoid_rewrite elem_root. setoid_rewrite elem_session. split.
  - intros [(f & ? & ?)|[(s & Hs & [(f & ? & ?)|[(tab & Ht & [(f & ? & ?)|(i & w & ? & ->)])|(i & sp & ? & f & ? & ?)]])|
      (c & Hc & [(f & ? & ?)|[(i & w & ? & ->)|(i & sp & ? & f & ? & ?)]])]].
    + by eapply says_root.
    + by eapply says_session.
    + eapply says_tab; [apply elem_all_tabs; left; eauto|done..].
    + eapply says_weights; [apply elem_all_splits; do 2 eexists; split; [apply elem_all_tabs; left; eauto|done]|done..].
    + eapply says_pane; [apply elem_all_specs; left; eauto|done..].
    + eapply says_tab; [apply elem_all_tabs; right; eauto|done..].
    + eapply says_weights; [apply elem_all_splits; do 2 eexists; split; [apply elem_all_tabs; right; eauto|done]|done..].
    + eapply says_pane; [apply elem_all_specs; right; eauto|done..].
  - destruct e as [k v]. cbn. intros [f ? ?|s f ? ? ?|tab o f Ht ? ?|i w Hw ? ?|i sp f Hp ? ?]; cbn in *; subst.
    + left; eauto.
    + right; left. exists s. split; [done|]. left; eauto.
    + apply elem_all_tabs in Ht as [(s & ? & ? & ->)|(c & ? & -> & ->)].
      * right; left. exists s. split; [done|]. right; left. exists tab. split; [done|]. left; eauto.
      * right; right. exists c. split; [done|]. left; eauto.
    + apply elem_all_splits in Hw as (tab & o & [(s & ? & ? & ->)|(c & ? & -> & ->)]%elem_all_tabs & Hw).
      * right; left. exists s. split; [done|]. right; left. exists tab. split; [done|]. right; eauto.
      * right; right. exists c. split; [done|]. right; left; eauto.
    + apply elem_all_specs in Hp as [(s & ? & ?)|(c & ? & ?)].
      * right; left. exists s. split; [done|]. right; right. exists i, sp. split; [done|]. eauto.
      * right; right. exists c. split; [done|]. right; right. exists i, sp. split; [done|]. eauto.
Qed.
#[local] Transparent append_root append_session append_tab append_weights append_specs append_pane.

(** ** No two objects of a kind share an identity *)

Record identities_unique (t : WorkspaceTopology) : Prop := {
  unique_sessions : NoDup (map session_id (sessions (tree t)));
  unique_tabs : NoDup (map (fun p => tab_id p.1) (all_tabs t));
  unique_panes : NoDup (map fst (all_specs t));
  unique_splits : NoDup (map fst (all_splits t));
}.

Lemma NoDup_map_same {A B} (f : A -> B) l x y : NoDup (map f l) -> x ∈ l -> y ∈ l -> f x = f y -> x = y.
Proof.
  intros Hnd (i & Hi)%list_elem_of_lookup (j & Hj)%list_elem_of_lookup E.
  assert (i = j) as ->; [|congruence].
  eapply (NoDup_lookup _ _ _ (f x) Hnd); rewrite list_lookup_fmap; [by rewrite Hi|by rewrite Hj, E].
Qed.

Lemma key_of_inj k k' i i' f f' : key_of k i f = key_of k' i' f' -> k = k' /\ i = i' /\ f = f'.
Proof. intros [= Hk -> ->]. split; [|done]. destruct k, k'; done || (by vm_compute in Hk). Qed.

Section Unique.
Context (t : WorkspaceTopology) (Hu : identities_unique t).

Lemma says_functional e e' : says t e -> says t e' -> entry_key e = entry_key e' -> entry_value e = entry_value e'.
Proof.
  destruct Hu as [Hs Ht Hp Hw].
  intros [f K V|s f Is K V|tab o f It K V|i w Iw K V|i sp f Ip K V] [f' K' V'|s' f' Is' K' V'|tab' o' f' It' K' V'|i' w' Iw' K' V'|i' sp' f' Ip' K' V'];
    rewrite K, K'; intros (E & Ei & Ef)%key_of_inj; try discriminate E; subst.
  - congruence.
  - assert (s = s') as -> by by eapply NoDup_map_same. congruence.
  - assert ((tab, o) = (tab', o')) as [= -> ->] by by eapply (NoDup_map_same _ _ _ _ Ht). congruence.
  - assert ((i', w) = (i', w')) as [= ->] by by eapply (NoDup_map_same _ _ _ _ Hw). congruence.
  - assert ((i', sp) = (i', sp')) as [= ->] by by eapply (NoDup_map_same _ _ _ _ Hp). congruence.
Qed.
End Unique.

(** ** Writing *)

Lemma foldl_set_entries l (s : HostWorkspaceState) key :
  (forall e e', e ∈ l -> e' ∈ l -> entry_key e = entry_key e' -> entry_value e = entry_value e') ->
  (forall v, mkEntry key v ∈ l -> foldl (fun s e => set s (entry_key e) (entry_value e)) s l !! key = Some v) /\
  ((forall v, mkEntry key v ∉ l) -> foldl (fun s e => set s (entry_key e) (entry_value e)) s l !! key = s !! key).
Proof.
  intros Hf. assert (G : forall s, (exists v, mkEntry key v ∈ l /\ foldl (fun s e => set s (entry_key e) (entry_value e)) s l !! key = Some v) \/
    (forall v, mkEntry key v ∉ l) /\ foldl (fun s e => set s (entry_key e) (entry_value e)) s l !! key = s !! key).
  { clear Hf s. induction l as [|[k w] l IH]; intros s; cbn [foldl entry_key entry_value]; [right; split; [set_solver|done]|].
    destruct (IH (set s k w)) as [(v & Hv & E)|[Hn E]]; [left; exists v; split; [set_solver|done]|].
    rewrite E. unfold set. destruct (decide (k = key)) as [->|Hne].
    - left. exists w. rewrite lookup_insert_eq. split; [by left|done].
    - right. rewrite lookup_insert_ne by done. split; [|done]. intros v [[= -> _]|]%elem_of_cons; [done|by eapply Hn]. }
  destruct (G s) as [(v & Hv & E)|[Hn E]]; split.
  - intros v' Hv'. rewrite E. by rewrite (Hf _ _ Hv Hv' eq_refl : v = v').
  - intros Hn. by destruct (Hn v).
  - intros v Hv. by destruct (Hn v).
  - done.
Qed.

Lemma foldl_clear_lookup (p : WorkspaceKey -> bool) l (s : HostWorkspaceState) key :
  foldl (fun s k => if p k then (set_or_clear s k None).1 else s) s l !! key = if decide (key ∈ l /\ p key = true) then None else s !! key.
Proof.
  revert s. induction l as [|k l IH]; intros s; cbn [foldl].
  - rewrite decide_False; [done|]. by intros [?%elem_of_nil _].
  - rewrite IH. destruct (decide (key ∈ l /\ p key = true)) as [H|H].
    + rewrite decide_True; [done|]. by destruct H; split; [right|].
    + destruct (decide (k = key)) as [->|Hne].
      * destruct (p key) eqn:Ep; [|rewrite decide_False; [done|by intros [_ ?] ] ]. rewrite decide_True by (split; [by left|done]).
        cbn. apply lookup_delete_eq.
      * rewrite decide_False; [|intros [ [->|?]%elem_of_cons ?]; [done|by apply H] ].
        destruct (p k); cbn; [by rewrite lookup_delete_ne|done].
Qed.

Lemma topology_entries t e : says t e -> is_topology (entry_key e) = true.
Proof.
  intros [f K V|s f Is K V|tab o f It K V|i w Iw K V|i sp f Ip K V]; rewrite K; try done.
  - destruct f; try discriminate V; by vm_compute.
  - destruct f; try discriminate V; by vm_compute.
Qed.

(** After a write every cell of the topology half says what the topology says, and no other cell moved. *)
Lemma write_lookup state t key : identities_unique t ->
  (is_topology key = false -> write_topology state t !! key = state !! key) /\
  (forall v, says t (mkEntry key v) -> write_topology state t !! key = Some v) /\
  (is_topology key = true -> (forall v, ~ says t (mkEntry key v)) -> write_topology state t !! key = None).
Proof.
  intros Hu. unfold write_topology.
  assert (Hf : forall e e', e ∈ entries t -> e' ∈ entries t -> entry_key e = entry_key e' -> entry_value e = entry_value e').
  { intros e e' H1%entries_say H2%entries_say. by apply (says_functional t Hu). }
  match goal with |- context [foldl (fun state e => set state (entry_key e) (entry_value e)) ?s0 _] =>
    pose proof (fun k => foldl_set_entries (entries t) s0 k Hf) as G; set (s := s0) in * end.
  assert (Hs : s !! key = if decide (key ∈ keys state /\ is_topology key && bool_decide (key ∉ (list_to_set (map entry_key (entries t)) : gset WorkspaceKey)) = true)
    then None else state !! key) by exact (foldl_clear_lookup _ _ _ _).
  split; [|split].
  - intros Hk. rewrite (proj2 (G key)); [|intros v H%entries_say%topology_entries; cbn in *; congruence].
    rewrite Hs, Hk. cbn [andb]. rewrite decide_False; [done|]. by intros [_ ?].
  - intros v Hv%entries_say. by apply (proj1 (G key)).
  - intros Hk Hn. rewrite (proj2 (G key)); [|intros v H%entries_say; by apply (Hn v)]. rewrite Hs, Hk. cbn [andb].
    destruct (state !! key) as [w|] eqn:E; [|by match goal with |- context [decide ?P] => destruct (decide P) end].
    rewrite decide_True; [done|]. split; [apply elem_of_keys_by; by eexists|]. apply bool_decide_eq_true.
    rewrite elem_of_list_to_set. intros ([k v] & -> & Hin%entries_say)%list_elem_of_fmap. by apply (Hn v).
Qed.

(** ** Looking an object up *)

Section Written.
Context (state : HostWorkspaceState) (t : WorkspaceTopology) (Hu : identities_unique t).
Notation w := (write_topology state t).

Lemma cell_written key c :
  is_topology key = true -> (forall v, c = Some v -> says t (mkEntry key v)) -> (forall v, says t (mkEntry key v) -> c = Some v) -> w !! key = c.
Proof.
  intros Hk H1 H2. destruct (write_lookup state t key Hu) as (_ & A & B). destruct c as [v|]; [by apply A, H1|].
  apply B; [done|]. intros v Hv. by apply H2 in Hv.
Qed.

(** One object is one cell function. *)
Ltac written :=
  intros v [? K V|? ? Is K V|? ? ? It K V|? ? Iw K V|? ? ? Ip K V]; cbn in K, V; apply key_of_inj in K as (K & Ei & Ef); try discriminate K; subst.

Lemma root_written f : is_topology (root_key f) = true -> w !! root_key f = root_cell t f.
Proof. intros Hk. apply cell_written; [done|intros v ?; by eapply says_root|]. by written. Qed.
Lemma session_written s f : s ∈ sessions (tree t) -> w !! session_key (session_id s) f = session_cell t s f.
Proof.
  intros Hs. apply cell_written; [done|intros v ?; by eapply says_session|]. written.
  by rewrite (NoDup_map_same session_id _ _ _ (unique_sessions t Hu) Hs Is Ei).
Qed.
Lemma tab_written tab o f : (tab, o) ∈ all_tabs t -> w !! tab_key (tab_id tab) f = tab_cell t tab o f.
Proof.
  intros Ht. apply cell_written; [done|intros v ?; by eapply says_tab|]. written.
  by assert ((tab, o) = (tab0, o0)) as [= -> ->] by by apply (NoDup_map_same (fun p => tab_id p.1) _ _ _ (unique_tabs t Hu)).
Qed.
Lemma weights_written id ws : (id, ws) ∈ all_splits t -> w !! weight_key id = Some (encode_weights ws).
Proof.
  intros Hw. apply cell_written; [done|intros v [= <-]; by eapply says_weights|]. written.
  by assert ((id0, ws) = (id0, ws0)) as [= ->] by by apply (NoDup_map_same fst _ _ _ (unique_splits t Hu)).
Qed.
Lemma pane_written id spec f :
  (id, spec) ∈ all_specs t -> is_topology (pane_key id f) = true -> w !! pane_key id f = pane_cell t id spec f.
Proof.
  intros Hp Hk. apply cell_written; [done|intros v ?; by eapply says_pane|]. written.
  by assert ((id0, spec) = (id0, spec0)) as [= ->] by by apply (NoDup_map_same fst _ _ _ (unique_panes t Hu)).
Qed.
End Written.

(** ** A topology that fits its cells *)

Definition weights_fit (n : SplitNode) : Prop := Forall (fun p => Forall Cells.weight_ok p.2) (splits n).
Record tab_fits (p : Tab * RawUuid) : Prop := {
  fit_tab : tab_ok p.1;
  fit_ids : is_uuid (tab_id p.1) /\ is_uuid p.2;
  fit_title : text_ok (tab_title p.1);
  fit_layout : layout_ok (S MAX_LAYOUT_DEPTH) (layout_of (root p.1)) /\ zlen (encode_layout (layout_of (root p.1))) <= usize_max;
  fit_weights : weights_ok (root p.1) = true /\ weights_fit (root p.1);
}.
Definition target_fits (v : option VideoEndpoint) : Prop := match v with Some e => endpoint_ok e | None => True end.
Definition spec_fits (t : WorkspaceTopology) (p : RawUuid * PaneSpec) : Prop :=
  is_uuid p.1 /\ text_ok (spec_title p.2) /\ target_fits (video p.2) /\ (forall cwd, spawn_cwd t !! p.1 = Some cwd -> text_ok cwd).
Record session_fits (s : Session) : Prop := {
  fit_session : session_ok s;
  fit_session_id : is_uuid (session_id s);
  fit_session_name : text_ok (session_name s);
  fit_tabs : zlen (tabs s) <= 65535;
  fit_detached : zlen (detached s) <= 65535 /\ Forall (fun e => detached_ok (pane e, origin_tab e)) (detached s);
  fit_panes : NoDup (sinv s);
}.
(** What the host keeps beside the tree names what is there. *)
Record topology_ok (t : WorkspaceTopology) : Prop := {
  top_version : schema_version (tree t) = CURRENT_SCHEMA_VERSION;
  top_sessions : sessions (tree t) <> [] /\ Forall session_fits (sessions (tree t)) /\ zlen (sessions (tree t)) <= 65535;
  top_active : forall id, active_session_id (tree t) = Some id -> is_uuid id;
  top_unattached : forall id, unattached_session_id t = Some id -> is_uuid id;
  top_name : text_ok (host_display_name t);
  top_unique : identities_unique t;
  top_tabs : Forall tab_fits (all_tabs t);
  top_specs : Forall (spec_fits t) (all_specs t);
  top_closed : Forall (fun c => dom (closed_specs c) = list_to_set (leaves (root (closed_tab c)))) (closed_tabs t) /\ zlen (closed_tabs t) <= 65535;
  top_armed : forall id, id ∈ sync_input_tabs t -> id ∈ all_tids (tree t);
  top_focus : forall id ring, focus_mru t !! id = Some ring ->
    id ∈ map session_id (sessions (tree t)) /\ ring <> [] /\ zlen ring <= 65535 /\ Forall is_uuid ring;
  top_cwds : forall id cwd, spawn_cwd t !! id = Some cwd -> id ∈ map fst (all_specs t);
}.

(** ** Reading back *)

#[local] Arguments write_topology : simpl never.
#[local] Arguments encode_uuid_list : simpl never.
#[local] Arguments encode_layout : simpl never.
Section Back.
Context (state : HostWorkspaceState) (t : WorkspaceTopology) (Ht : topology_ok t).
Notation w := (write_topology state t).
#[local] Notation Hu := (top_unique t Ht).

Lemma read_node n levels :
  (forall p, p ∈ splits n -> p ∈ all_splits t) -> layout_ok levels (layout_of n) -> weights_ok n = true -> weights_fit n ->
  read_split_node w (layout_of n) = n.
Proof.
  revert levels. induction n as [id|id axis l IH] using SplitNode_ind; intros levels Hin Hl Hw Hf; [done|].
  destruct levels as [|levels]; [done|]. destruct Hl as (_ & Hn & Hl). cbn [layout_of read_split_node].
  apply Forall_cons in Hf as [Hf0 Hf]. cbn in Hf0. rewrite length_map in Hn.
  rewrite (weights_written state t Hu id (map weight l)) by (apply Hin; by left).
  change (Some (encode_weights (map weight l)) ≫= decode_weights) with (decode_weights (encode_weights (map weight l))).
  rewrite weights_roundtrip by (rewrite ?length_map; done). cbn [mbind option_bind]. rewrite decide_True by by rewrite !length_map.
  f_equal. apply weights_split in Hw.
  assert (G : forall l' pre : list Child, map weight l = map weight pre ++ map weight l' -> (forall c, c ∈ l' -> c ∈ l) ->
    (fix go (index : nat) (k : list WorkspaceLayoutNode) : list Child :=
       match k with
       | [] => []
       | c :: k => mkChild (repaired (default default_weight (Some (map weight l) ≫= fun weights => weights !! index))) (read_split_node w c) :: go (S index) k
       end) (length pre) (map (fun c => layout_of (node c)) l') = l'); [|by apply (G l []) ].
  intros l'. induction l' as [|c l' IHl]; intros pre E Hs; [done|]. cbn [map]. f_equal.
  - assert (Hc : c ∈ l) by (apply Hs; by left). rewrite Forall_forall in IH, Hw. rewrite Forall_forall in Hl.
    destruct (Hw c Hc) as [Hwc Hnc]. cbn [mbind option_bind]. rewrite E, lookup_app_r, length_map, Nat.sub_diag by (rewrite length_map; lia).
    cbn [map lookup list_lookup default from_option Datatypes.id]. rewrite repaired_id by done. rewrite (IH c Hc levels); [by destruct c| | |done|].
    + intros p Hp. apply Hin. cbn [splits]. apply elem_of_cons. right. apply elem_of_all. eauto.
    + apply Hl. apply list_elem_of_fmap. eauto.
    + unfold weights_fit in *. rewrite Forall_forall in *. intros p Hp. apply Hf, elem_of_all. eauto.
  - rewrite <- (IHl (pre ++ [c])) at 2; [by rewrite length_app, Nat.add_1_r| |].
    + by rewrite E, map_app, <- app_assoc.
    + intros d Hd. apply Hs. by right.
Qed.

Lemma layout_leaves n levels p : layout_ok levels (layout_of n) -> p ∈ leaves n -> is_uuid p.
Proof.
  revert levels. induction n as [id|id axis l IH] using SplitNode_ind; intros [|levels]; try done; cbn.
  - by intros ? ->%list_elem_of_singleton.
  - intros (_ & _ & Hl) (c & Hc & Hp)%elem_of_all. rewrite Forall_forall in IH. rewrite Forall_forall in Hl. eapply IH; [done| |done].
    apply Hl, list_elem_of_fmap. eauto.
Qed.

Lemma read_text text key : w !! key = Some (encode_string text MAX_STRING_BYTES) -> text_ok text -> state_string w key = Some text.
Proof. intros E Hx. unfold state_string. rewrite E. exact (string_roundtrip text Hx). Qed.

Lemma read_pane id spec : (id, spec) ∈ all_specs t -> read_spec w id = spec.
Proof.
  intros Hin. pose proof (top_specs t Ht) as Hf. rewrite Forall_forall in Hf. destruct (Hf _ Hin) as (_ & Htitle & Hv & _). cbn in *.
  unfold read_spec, state_string, state_bool. rewrite !(pane_written state t Hu id spec) by done. unfold pane_cell.
  destruct spec as [k title v r]. cbn [spec_kind spec_title video user_renamed] in *. f_equal.
  - by destruct k.
  - change (default DEFAULT_PANE_TITLE (decode_string (encode_string title MAX_STRING_BYTES)) = title). by rewrite string_roundtrip.
  - destruct v as [e|]; [|done]. by apply video_target_roundtrip.
  - by destruct r.
Qed.

Lemma read_place tab o : (tab, o) ∈ all_tabs t -> read_tab w (tab_id tab) = Some tab.
Proof.
  intros Hin. pose proof (top_tabs t Ht) as Hf. rewrite Forall_forall in Hf. destruct (Hf _ Hin) as [Ho _ Hti [Hl Hs] [Hw Hwf] ]. cbn [fst snd] in *.
  unfold read_tab, pane_at, state_string, state_uuid. rewrite !(tab_written state t Hu tab o) by done.
  unfold LAYOUT_STRUCTURE, ACTIVE_PANE_ID, ZOOMED_PANE_ID, TAB_TITLE. cbn [tab_cell mbind option_bind]. rewrite (proj1 (layout_roundtrip_and_bound _ [] Hl Hs)). cbn [ok mbind option_bind].
  rewrite (read_node (root tab) (S MAX_LAYOUT_DEPTH)); [|intros p Hp; apply elem_all_splits; eauto|done..].
  destruct Ho as (_ & (a & Ea & Ha) & Hz). destruct tab as [i title r a' z]. cbn [tab_id tab_title root active_pane zoomed_pane] in *. subst a'.
  assert (Hd : forall p, p ∈ leaves r ->
    (if decide (p ∈ (list_to_set (all_pane_ids r) : gset RawUuid)) then Some p else None) = Some p /\ decode_uuid (encode_uuid p) = Some p).
  { intros p Hp. split; [|by apply uuid_roundtrip, (layout_leaves r (S MAX_LAYOUT_DEPTH))].
    rewrite decide_True; [done|]. by rewrite elem_of_list_to_set, all_pane_ids_leaves. }
  f_equal. f_equal.
  - cbn [default from_option id]. change (default [] (decode_string (encode_string title MAX_STRING_BYTES)) = title). by rewrite string_roundtrip.
  - destruct (Hd a Ha) as [E1 E2]. cbn [fmap option_fmap option_map mbind option_bind]. rewrite E2. cbn [mbind option_bind]. by rewrite E1.
  - destruct z as [z|]; [|done]. destruct (Hd z (Hz z eq_refl)) as [E1 E2]. cbn [fmap option_fmap option_map mbind option_bind]. rewrite E2. cbn [mbind option_bind]. by rewrite E1.
Qed.

(** *** Side tables *)

Lemma insert_specs_lookup m l p : insert_specs w m l !! p = if decide (p ∈ l) then Some (read_spec w p) else m !! p.
Proof.
  revert m. induction l as [|x l IH]; intros m; cbn [insert_specs foldl]; [done|]. fold (insert_specs w (<[x := read_spec w x]> m) l).
  rewrite IH. destruct (decide (p ∈ l)) as [Hp|Hp]; [by rewrite decide_True by by right|]. destruct (decide (x = p)) as [->|Hne].
  - rewrite decide_True by by left. apply lookup_insert_eq.
  - rewrite decide_False by by intros [->|?]%elem_of_cons. by apply lookup_insert_ne.
Qed.
Lemma insert_tabs_specs l m : foldl (fun m tab => insert_specs w m (tab_panes tab)) m l = insert_specs w m (concat (map tab_panes l)).
Proof. revert m. induction l as [|x l IH]; intros m; [done|]. cbn. rewrite IH. unfold insert_specs. by rewrite foldl_app. Qed.

Lemma read_detached_all m l :
  NoDup (map fst l) -> (forall p, p ∈ map fst l -> m !! p = None) ->
  read_detached_panes w m l = (insert_specs w m (map fst l), map (fun x => mkDetached x.1 x.2) l).
Proof.
  revert m. induction l as [|[p o] l IH]; intros m Hnd Hm; [done|]. cbn [read_detached_panes]. apply NoDup_cons in Hnd as [Hp Hnd]. cbn in Hp.
  rewrite decide_False by (rewrite Hm by (by left); by intros [? ?]). rewrite IH; [done..|].
  intros q Hq. rewrite lookup_insert_ne; [apply Hm; by right|]. by intros ->.
Qed.

Lemma read_table m (l : list RawUuid) :
  dom m = list_to_set l -> (forall id spec, m !! id = Some spec -> (id, spec) ∈ all_specs t) -> insert_specs w ∅ l = m.
Proof.
  intros Hd Hin. apply map_eq. intros p. rewrite insert_specs_lookup, lookup_empty. destruct (m !! p) as [spec|] eqn:E.
  - rewrite decide_True; [by rewrite (read_pane p spec) by by apply Hin|]. rewrite <- (elem_of_list_to_set (C := gset RawUuid)), <- Hd.
    by eapply elem_of_dom_2.
  - rewrite decide_False; [done|]. rewrite <- (elem_of_list_to_set (C := gset RawUuid)), <- Hd. by apply not_elem_of_dom.
Qed.

Lemma omap_back {A B} (f : B -> option A) (g : A -> B) l : (forall x, x ∈ l -> f (g x) = Some x) -> omap f (map g l) = l.
Proof.
  induction l as [|x l IH]; intros Hl; [done|]. cbn. rewrite Hl by by left. f_equal. apply IH. intros y Hy. apply Hl. by right.
Qed.
Lemma find_position {A} (f : A -> RawUuid) l i x : NoDup (map f l) -> l !! i = Some x -> list_find (fun y => f y = f x) l = Some (i, x).
Proof.
  intros Hnd Hi. apply list_find_Some. split; [done|]. split; [done|]. intros j y Hj Hlt E.
  assert (j = i); [|lia]. eapply (NoDup_lookup _ _ _ (f x) Hnd); rewrite list_lookup_fmap; [by rewrite Hj; cbn; rewrite E|by rewrite Hi].
Qed.

Lemma session_tab s tab : s ∈ sessions (tree t) -> tab ∈ tabs s -> (tab, session_id s) ∈ all_tabs t.
Proof. intros. apply elem_all_tabs. left. eauto. Qed.
Lemma session_spec s id spec : s ∈ sessions (tree t) -> specs s !! id = Some spec -> (id, spec) ∈ all_specs t.
Proof. intros Hs Hi. apply elem_all_specs. left. exists s. split; [done|]. by apply elem_of_btree_by. Qed.

Lemma read_back_session s : s ∈ sessions (tree t) -> read_session w (session_id s) = Some s.
Proof.
  intros Hs. destruct (top_sessions t Ht) as (_ & Hf & _). rewrite Forall_forall in Hf. destruct (Hf s Hs) as [Hok Hid Hname Hn [Hdn Hdok] Hnd].
  destruct Hok as (Hne & Hidx & Htabs & Hdom). pose proof (top_tabs t Ht) as Hfit. rewrite Forall_forall in Hfit.
  assert (Hu16 : Forall is_uuid (map tab_id (tabs s))).
  { apply Forall_forall. intros x (tab & -> & Hin)%list_elem_of_fmap. apply (Hfit _ (session_tab s tab Hs Hin)). }
  assert (Htnd : NoDup (map tab_id (tabs s))).
  { pose proof (unique_tabs t Hu) as H. unfold all_tabs in H. rewrite map_app in H. apply NoDup_app in H as [H _].
    apply list_elem_of_lookup in Hs as [i Hi]. rewrite concat_map, map_map in H.
    apply (NoDup_all_at _ _ i s H) in Hi. by rewrite map_map in Hi. }
  unfold read_session, state_uuid_list, state_string, state_uuid, state_detached_panes. rewrite !(session_written state t Hu s) by done.
  unfold SESSION_NAME, TAB_ORDER, ACTIVE_TAB_ID, DETACHED_PANES. cbn [session_cell mbind option_bind].
  rewrite uuid_list_roundtrip by (rewrite ?length_map; done). cbn [default from_option Datatypes.id].
  rewrite (omap_back (read_tab w) tab_id (tabs s)) by (intros tab Hin; eapply read_place; by apply session_tab).
  rewrite insert_tabs_specs, detached_roundtrip by (rewrite ?length_map; done || by apply Forall_fmap). cbn [default from_option Datatypes.id].
  change (concat (map tab_panes (tabs s))) with (session_panes s). unfold sinv in Hnd. apply NoDup_app in Hnd as (_ & Hdis & Hnd).
  rewrite read_detached_all; rewrite map_map; cbn [fst snd].
  2:{ exact Hnd. }
  2:{ intros p Hp. rewrite insert_specs_lookup, lookup_empty, decide_False; [done|]. intros Hp'. by apply (Hdis p). }
  assert (Es : insert_specs w (insert_specs w ∅ (session_panes s)) (map pane (detached s)) = specs s).
  { unfold insert_specs. rewrite <- foldl_app. apply read_table; [done|]. intros id spec Hi. by eapply session_spec. }
  change (map (fun x => pane x) (detached s)) with (map pane (detached s)). rewrite Es. apply lookup_lt_is_Some in Hidx as [tab Etab]. rewrite Etab.
  assert (Huid : is_uuid (tab_id tab)) by (apply (Hfit _ (session_tab s tab Hs (list_elem_of_lookup_2 _ _ _ Etab)))).
  cbn [fmap option_fmap option_map mbind option_bind]. rewrite uuid_roundtrip by done. cbn [mbind option_bind].
  rewrite (find_position tab_id _ _ _ Htnd Etab), string_roundtrip by done. rewrite !map_map. cbn [fst snd].
  replace (map (fun x => mkDetached (pane x) (origin_tab x)) (detached s)) with (detached s)
    by (symmetry; etrans; [|apply map_id]; apply map_ext; by intros []).
  destruct (tabs s) eqn:Et; [done|]. rewrite <- Et. by destruct s.
Qed.

(** *** The facts beside the tree *)

Lemma foldl_focus l m i :
  foldl (read_focus w) m l !! i =
  match (if decide (i ∈ map session_id l) then state_uuid_list w (session_key i FOCUS_MRU) else None) with
  | Some ((_ :: _) as ids) => Some ids
  | _ => m !! i
  end.
Proof.
  revert m. induction l as [|s l IH]; intros m; [done|]. cbn [foldl map]. rewrite IH.
  assert (R : read_focus w m s !! i =
    match (if decide (session_id s = i) then state_uuid_list w (session_key i FOCUS_MRU) else None) with
    | Some ((_ :: _) as ids) => Some ids | _ => m !! i end).
  { unfold read_focus. destruct (decide (session_id s = i)) as [<-|Hne].
    - destruct (state_uuid_list w (session_key (session_id s) FOCUS_MRU)) as [ [|x r]|]; [done|apply lookup_insert_eq|done].
    - destruct (state_uuid_list w (session_key (session_id s) FOCUS_MRU)) as [ [|x r]|]; [done|by apply lookup_insert_ne|done]. }
  rewrite R. destruct (decide (i ∈ map session_id l)) as [Hin|Hin]; [rewrite (decide_True (P := i ∈ session_id s :: map session_id l)) by by right|].
  - destruct (state_uuid_list w (session_key i FOCUS_MRU)) as [ [|x r]|]; by destruct (decide (session_id s = i)).
  - destruct (decide (session_id s = i)) as [<-|Hne]; [by rewrite (decide_True (P := session_id s ∈ session_id s :: map session_id l)) by by left|].
    by rewrite (decide_False (P := i ∈ session_id s :: map session_id l)) by by intros [->|?]%elem_of_cons.
Qed.
Lemma foldl_armed l X i :
  i ∈ foldl (read_armed w) X l <-> i ∈ X \/ (i ∈ map tab_id l /\ state_bool w (tab_key i SYNC_INPUT_ARMED) = true).
Proof.
  revert X. induction l as [|tab l IH]; intros X; cbn [foldl map]; [set_solver|]. rewrite IH, elem_of_cons. unfold read_armed.
  destruct (state_bool w (tab_key (tab_id tab) SYNC_INPUT_ARMED)) eqn:E.
  - rewrite elem_of_union, elem_of_singleton. split; [intros [ [->|?]|[? ?] ]; tauto|intros [?|[ [->|?] ?] ]; tauto].
  - split; [tauto|]. intros [?|[ [->|?] ?] ]; [tauto|congruence|tauto].
Qed.
Lemma foldl_cwd l m i :
  foldl (read_cwd w) m l !! i = if decide (i ∈ l) then match read_spawn_cwd w i with Some c => Some c | None => m !! i end else m !! i.
Proof.
  revert m. induction l as [|x l IH]; intros m; [done|]. cbn [foldl]. rewrite IH. unfold read_cwd at 1 2.
  destruct (decide (x = i)) as [->|Hne].
  - rewrite (decide_True (P := i ∈ i :: l)) by by left. destruct (read_spawn_cwd w i) as [c|]; [rewrite lookup_insert_eq|]; by destruct (decide _).
  - assert (E : (match read_spawn_cwd w x with Some cwd => <[x := cwd]> m | None => m end) !! i = m !! i)
      by (destruct (read_spawn_cwd w x); [by apply lookup_insert_ne|done]).
    unfold read_cwd. rewrite E. destruct (decide (i ∈ l)); [rewrite decide_True by by right|rewrite decide_False by by intros [->|?]%elem_of_cons]; done.
Qed.

Definition live_tabs : gset RawUuid := list_to_set (concat (map (fun s => map tab_id (tabs s)) (sessions (tree t)))).

Lemma closed_not_live c : c ∈ closed_tabs t -> tab_id (closed_tab c) ∉ live_tabs.
Proof.
  intros Hc Hl. pose proof (unique_tabs t Hu) as H. unfold all_tabs in H. rewrite map_app in H. apply NoDup_app in H as (_ & H & _).
  apply (H (tab_id (closed_tab c))).
  - rewrite concat_map, map_map. apply elem_of_list_to_set, elem_of_all in Hl as (s & Hs & Hin). apply elem_of_all. exists s.
    split; [done|]. by rewrite map_map.
  - rewrite map_map. apply list_elem_of_fmap. by exists c.
Qed.
Lemma closed_place c : c ∈ closed_tabs t -> (closed_tab c, closed_session_id c) ∈ all_tabs t.
Proof. intros Hc. apply elem_all_tabs. right. eauto. Qed.

Lemma read_back_closed c : c ∈ closed_tabs t -> read_closed w live_tabs (tab_id (closed_tab c)) = Some c.
Proof.
  intros Hc. pose proof (closed_place c Hc) as Hp. unfold read_closed. rewrite decide_False by by apply closed_not_live.
  rewrite (read_place _ _ Hp). cbn [mbind option_bind]. unfold state_uuid. rewrite (tab_written state t Hu _ _ _ Hp).
  unfold TAB_SESSION_ID. cbn [tab_cell mbind option_bind]. pose proof (top_tabs t Ht) as Hf. rewrite Forall_forall in Hf.
  destruct (Hf _ Hp) as [_ [_ Ho] _ _ _]. cbn in Ho. rewrite uuid_roundtrip by done. cbn [mbind option_bind]. f_equal.
  destruct (top_closed t Ht) as [Hd _]. rewrite Forall_forall in Hd. rewrite (read_table (closed_specs c)); [by destruct c| |].
  - unfold tab_panes. rewrite all_pane_ids_leaves. by apply Hd.
  - intros id spec Hi. apply elem_all_specs. right. exists c. split; [done|]. by apply elem_of_btree_by.
Qed.

Lemma read_back_focus : foldl (read_focus w) ∅ (sessions (tree t)) = focus_mru t.
Proof.
  apply map_eq. intros i. rewrite foldl_focus, lookup_empty. destruct (decide (i ∈ map session_id (sessions (tree t)))) as [Hin|Hin].
  - apply list_elem_of_fmap in Hin as (s & -> & Hs). unfold state_uuid_list. rewrite (session_written state t Hu s) by done.
    unfold FOCUS_MRU. cbn [session_cell mbind option_bind]. destruct (focus_mru t !! session_id s) as [ring|] eqn:E; cbn [default from_option].
    + destruct (top_focus t Ht _ _ E) as (_ & Hne & Hn & Hr). unfold Datatypes.id. rewrite uuid_list_roundtrip by done. by destruct ring.
    + by rewrite uuid_list_roundtrip.
  - destruct (focus_mru t !! i) as [ring|] eqn:E; [|done]. by destruct (top_focus t Ht _ _ E).
Qed.
Lemma read_back_armed : foldl (read_armed w) ∅ (concat (map tabs (sessions (tree t)))) = sync_input_tabs t.
Proof.
  apply set_eq. intros i. rewrite foldl_armed.
  assert (E : forall tab o, (tab, o) ∈ all_tabs t -> state_bool w (tab_key (tab_id tab) SYNC_INPUT_ARMED) = bool_decide (tab_id tab ∈ sync_input_tabs t)).
  { intros tab o Hin. unfold state_bool. rewrite (tab_written state t Hu _ _ _ Hin). unfold SYNC_INPUT_ARMED. cbn [tab_cell].
    by destruct (bool_decide _). }
  assert (Hm : i ∈ map tab_id (concat (map tabs (sessions (tree t)))) <-> i ∈ all_tids (tree t)).
  { unfold all_tids, tids. by rewrite concat_map, map_map. }
  rewrite Hm. split.
  - intros [?%elem_of_empty|[Hi Hb] ]; [done|]. apply elem_of_all in Hi as (s & Hs & (tab & -> & Htab)%list_elem_of_fmap).
    rewrite (E tab (session_id s)) in Hb by by apply session_tab. by apply bool_decide_eq_true in Hb.
  - intros Hi. right. pose proof (top_armed t Ht i Hi) as Hin. split; [done|].
    apply elem_of_all in Hin as (s & Hs & (tab & -> & Htab)%list_elem_of_fmap).
    rewrite (E tab (session_id s)) by by apply session_tab. by apply bool_decide_eq_true.
Qed.

Lemma read_back_cwds :
  foldl (read_cwd w) (foldl (read_cwd w) ∅ (concat (map (fun s => map fst (btree_by pane_le (specs s))) (sessions (tree t)))))
    (concat (map (fun c => tab_panes (closed_tab c)) (closed_tabs t))) = spawn_cwd t.
Proof.
  apply map_eq. intros i. rewrite !foldl_cwd, lookup_empty.
  set (live := concat (map (fun s => map fst (btree_by pane_le (specs s))) (sessions (tree t)))).
  set (closed := concat (map (fun c => tab_panes (closed_tab c)) (closed_tabs t))).
  assert (Hin : i ∈ map fst (all_specs t) <-> i ∈ live \/ i ∈ closed).
  { unfold all_specs, live, closed. rewrite map_app, elem_of_app, !concat_map, !map_map. f_equiv. rewrite !elem_of_all.
    destruct (top_closed t Ht) as [Hd _]. rewrite Forall_forall in Hd. split; intros (c & Hc & Hi); exists c; (split; [done|]).
    - apply list_elem_of_fmap in Hi as ([i' spec] & -> & Hi%elem_of_btree_by%elem_of_dom_2). rewrite (Hd c Hc) in Hi.
      apply elem_of_list_to_set in Hi. unfold tab_panes. by rewrite all_pane_ids_leaves.
    - unfold tab_panes in Hi. rewrite all_pane_ids_leaves in Hi. apply (elem_of_list_to_set (C := gset RawUuid)) in Hi.
      rewrite <- (Hd c Hc) in Hi. apply elem_of_dom in Hi as [spec Hi]. apply list_elem_of_fmap. exists (i, spec). split; [done|]. by apply elem_of_btree_by. }
  assert (E : i ∈ live \/ i ∈ closed -> read_spawn_cwd w i = spawn_cwd t !! i).
  { intros ([i' spec] & -> & Hp)%Hin%list_elem_of_fmap. unfold read_spawn_cwd, state_string.
    rewrite (pane_written state t Hu _ _ _ Hp) by done. unfold SPAWN_CWD. cbn [pane_cell fst]. pose proof (top_specs t Ht) as Hf.
    rewrite Forall_forall in Hf. destruct (Hf _ Hp) as (_ & _ & _ & Hc). cbn [fst] in Hc.
    destruct (spawn_cwd t !! i') as [cwd|] eqn:Ec; [|done]. cbn [fmap option_fmap option_map mbind option_bind]. by rewrite string_roundtrip by by apply Hc. }
  destruct (decide (i ∈ closed)) as [Hc|Hc]; [|destruct (decide (i ∈ live)) as [Hl|Hl] ].
  - rewrite E by by right. destruct (spawn_cwd t !! i) eqn:Ec; [done|]. by destruct (decide (i ∈ live)).
  - rewrite E by by left. by destruct (spawn_cwd t !! i).
  - destruct (spawn_cwd t !! i) as [cwd|] eqn:Ec; [|done]. apply (top_cwds t Ht) in Ec. tauto.
Qed.

Lemma read_back : from_document w = Some t.
Proof.
  destruct (top_sessions t Ht) as (Hne & Hs & Hsn). destruct (top_closed t Ht) as [_ Hcn]. rewrite Forall_forall in Hs.
  pose proof (top_tabs t Ht) as Hf. rewrite Forall_forall in Hf.
  unfold from_document, state_uuid_list, state_uuid, state_string. rewrite !(root_written state t Hu) by done.
  unfold SESSION_ORDER, CLOSED_TAB_RING, HOST_DISPLAY_NAME, ACTIVE_SESSION_ID, UNATTACHED_SESSION_ID. cbn [root_cell mbind option_bind].
  unfold closed_tab_ring. rewrite !uuid_list_roundtrip; [|rewrite length_map; done|apply Forall_fmap, Forall_forall|rewrite length_map; done|apply Forall_fmap, Forall_forall].
  2:{ intros s Hin. apply (Hs s Hin). }
  2:{ intros c Hc. apply (Hf _ (closed_place c Hc)). }
  cbn [mbind option_bind default from_option]. unfold Datatypes.id.
  rewrite (omap_back (read_session w) session_id) by apply read_back_session. fold live_tabs.
  rewrite (omap_back (read_closed w live_tabs) (fun c => tab_id (closed_tab c))) by apply read_back_closed.
  rewrite read_back_focus, read_back_armed, read_back_cwds, string_roundtrip by apply (top_name t Ht).
  assert (Ea : (encode_uuid <$> active_session_id (tree t)) ≫= decode_uuid = active_session_id (tree t)).
  { pose proof (top_active t Ht) as H. destruct (active_session_id _); [|done]. cbn. by rewrite uuid_roundtrip by by apply H. }
  assert (Eu : (encode_uuid <$> unattached_session_id t) ≫= decode_uuid = unattached_session_id t).
  { pose proof (top_unattached t Ht) as H. destruct (unattached_session_id _); [|done]. cbn. by rewrite uuid_roundtrip by by apply H. }
  rewrite Ea, Eu. unfold workspace_new. rewrite <- (top_version t Ht). destruct (sessions (tree t)) eqn:E; [done|]. rewrite <- E.
  by destruct t as [ [] ].
Qed.
End Back.

(** C26: An arrangement written into any document is read back exactly as it was: the sessions with their
    tabs, trees, weights, focus and zoom, the side tables, the detached panes, the reopen ring, the focus
    history, the armed tabs and the start directories.  The write leaves every cell outside the topology
    half as it is, and inside it leaves exactly the entries of the arrangement, so nothing of what was
    closed stays behind. *)
Theorem topology_roundtrip state t :
  topology_ok t ->
  from_document (write_topology state t) = Some t /\
  (forall key, is_topology key = false -> write_topology state t !! key = state !! key) /\
  (forall key v, is_topology key = true -> write_topology state t !! key = Some v <-> mkEntry key v ∈ entries t).
Proof.
  intros Ht. split; [by apply read_back|]. split.
  - intros key. by apply (write_lookup state t key (top_unique t Ht)).
  - intros key v Hk. rewrite entries_say. destruct (write_lookup state t key (top_unique t Ht)) as (_ & A & B). split; [|apply A].
    intros E. destruct (decide (key ∈ map entry_key (entries t))) as [Hin|Hn].
    + apply list_elem_of_fmap in Hin as ([k v'] & -> & Hv'%entries_say). cbn in *. rewrite (A v' Hv') in E. by injection E as ->.
    + rewrite B in E; [done..|]. intros v' Hv'%entries_say. apply Hn, list_elem_of_fmap. by exists (mkEntry key v').
Qed.

(** ** A workspace with one of everything *)

Module Sample.
Import Examples.
Definition mac_title : list byte := str "Mac".
Definition pane_spec (title : list byte) : PaneSpec := spec_new Terminal title.
Definition screen : PaneSpec := mkSpec Desktop mac_title (Some (mkEndpoint 7 mac_title [] (Some 1))) true.
Definition front : Tab := mkTab (uid 10) mac_title (Split (uid 30) Vertical (Examples.pair one two)) (Some (uid 2)) (Some (uid 1)).
Definition back : Tab := mkTab (uid 11) [] (Leaf (uid 3)) (Some (uid 3)) None.
Definition gone : Tab := mkTab (uid 12) [] (Leaf (uid 4)) (Some (uid 4)) None.
Definition work : Session :=
  mkSession (uid 20) mac_title [front; back] 1
    {[uid 1 := pane_spec []; uid 2 := pane_spec mac_title; uid 3 := pane_spec []; uid 5 := screen]} [mkDetached (uid 5) (Some (uid 10))].
Definition topology : WorkspaceTopology :=
  mkTopology (workspace_new [work] (Some (uid 20))) {[uid 10]} {[uid 20 := [uid 11; uid 10]]}
    [mkClosedTab (uid 20) gone {[uid 4 := pane_spec []]}] (Some (uid 21)) mac_title {[uid 4 := mac_title]}.
End Sample.

Ltac by_deciding := refine (bool_decide_unpack _ _); vm_compute; exact I.
Lemma mac_text_fits : text_ok Sample.mac_title.
Proof. split; by vm_compute. Qed.
Lemma endpoint_fits : endpoint_ok (mkEndpoint 7 Sample.mac_title [] (Some 1)).
Proof.
  unfold endpoint_ok, u_range. cbn [window_id title app_name display_id]. split; [lia|]. split; [exact mac_text_fits|].
  split; [split; by vm_compute|lia].
Qed.
Lemma sample_unique : identities_unique Sample.topology.
Proof. constructor; by_deciding. Qed.
Lemma front_fits : tab_fits (Sample.front, Examples.uid 20).
Proof.
  constructor.
  - split; [by vm_compute|]. split; [exists (Examples.uid 2); split; [done|by_deciding]|]. intros z [= <-]. by_deciding.
  - by split.
  - exact mac_text_fits.
  - split; [|by vm_compute]. repeat split; [by vm_compute|]. by repeat constructor.
  - split; [by vm_compute|]. by repeat constructor.
Qed.
Lemma lone_fits id pane : is_uuid id -> is_uuid pane -> tab_fits (mkTab id [] (Leaf pane) (Some pane) None, Examples.uid 20).
Proof.
  intros Hi Hp. constructor; cbn [fst snd tab_id tab_title root].
  - split; [done|]. split; [exists pane; split; [done|by left]|done].
  - by split.
  - split; by vm_compute.
  - split; [exact Hp|]. change (encode_layout (layout_of (Leaf pane))) with (byte_of_Z 0 :: pane). cbn [length]. unfold is_uuid, usize_max in *. lia.
  - split; [done|]. constructor.
Qed.
Lemma plain_spec_fits (id : RawUuid) title : is_uuid id -> text_ok title -> spec_fits Sample.topology (id, Sample.pane_spec title).
Proof.
  intros Hi Hx. split; [done|]. split; [done|]. split; [done|]. intros cwd Hc. cbn [fst] in Hc.
  change (({[Examples.uid 4 := Sample.mac_title]} : gmap RawUuid (list byte)) !! id = Some cwd) in Hc.
  apply lookup_singleton_Some in Hc as [_ <-]. exact mac_text_fits.
Qed.

Lemma sample_ok : topology_ok Sample.topology.
Proof.
  constructor.
  - done.
  - split; [done|]. split; [|by vm_compute]. apply Forall_singleton. constructor; cbn [Sample.work session_name session_id tabs detached].
    + split; [done|]. split; [cbn; lia|]. split; [|by_deciding].
      refine (Forall_cons_2 _ _ _ (fit_tab _ front_fits) (Forall_cons_2 _ _ _ (fit_tab _ (lone_fits (Examples.uid 11) (Examples.uid 3) eq_refl eq_refl)) (Forall_nil_2 _))).
    + done.
    + exact mac_text_fits.
    + by vm_compute.
    + split; [by vm_compute|]. apply Forall_singleton. repeat split; by vm_compute.
    + by_deciding.
  - by intros id [= <-].
  - by intros id [= <-].
  - exact mac_text_fits.
  - exact sample_unique.
  - change (all_tabs Sample.topology) with [(Sample.front, Examples.uid 20); (Sample.back, Examples.uid 20); (Sample.gone, Examples.uid 20)].
    refine (Forall_cons_2 _ _ _ front_fits (Forall_cons_2 _ _ _ (lone_fits (Examples.uid 11) (Examples.uid 3) eq_refl eq_refl)
      (Forall_cons_2 _ _ _ (lone_fits (Examples.uid 12) (Examples.uid 4) eq_refl eq_refl) (Forall_nil_2 _)))).
  - assert (E : all_specs Sample.topology = [(Examples.uid 1, Sample.pane_spec []); (Examples.uid 2, Sample.pane_spec Sample.mac_title);
      (Examples.uid 3, Sample.pane_spec []); (Examples.uid 5, Sample.screen); (Examples.uid 4, Sample.pane_spec [])]) by by vm_compute.
    rewrite E. assert (Hn : text_ok []) by (split; by vm_compute).
    apply Forall_cons_2; [by apply plain_spec_fits|]. apply Forall_cons_2; [by apply plain_spec_fits, mac_text_fits|].
    apply Forall_cons_2; [by apply plain_spec_fits|]. apply Forall_cons_2; [|apply Forall_cons_2; [by apply plain_spec_fits|by apply Forall_nil_2] ].
    split; [done|]. split; [exact mac_text_fits|]. split; [|intros cwd Hc; by vm_compute in Hc].
    exact endpoint_fits.
  - split; [|by vm_compute]. apply Forall_singleton. by_deciding.
  - intros id Hid. change (id ∈ ({[Examples.uid 10]} : gset RawUuid)) in Hid. apply elem_of_singleton in Hid as ->. by_deciding.
  - intros id ring Hr.
    change (({[Examples.uid 20 := [Examples.uid 11; Examples.uid 10]]} : gmap RawUuid (list RawUuid)) !! id = Some ring) in Hr.
    apply lookup_singleton_Some in Hr as [<- <-]. split; [by_deciding|]. split; [done|]. split; [by vm_compute|]. by repeat constructor.
  - intros id cwd Hc. change (({[Examples.uid 4 := Sample.mac_title]} : gmap RawUuid (list byte)) !! id = Some cwd) in Hc.
    apply lookup_singleton_Some in Hc as [<- <-]. by_deciding.
Qed.

Lemma topology_roundtrip_witness : from_document (write_topology state_new Sample.topology) = Some Sample.topology.
Proof. exact (proj1 (topology_roundtrip state_new Sample.topology sample_ok)). Defined.
