(* ===== verification/Apply.v ===== *)
(** * Apply: a client's request becomes a new topology, or a refusal

    Models [slopdesk-wire/src/document/apply.rs]: the gate every result passes ([accept]), the side maps
    after a removal ([pruned]), the focus history, the reopen ring, and one handler for each of the
    twenty-seven ops, over the operations of [TreeOps] and the argument decoders of [Intent].  The source
    of identities is threaded; the Unicode lower-case table of the tab order is a parameter.  The
    handlers carry the names of the tree operations they run, so they live in a module. *)

From stdpp Require Import gmap sorting.
From S2P Require Import Prelude Bytes BTree Message Document Cells Liveness Verbs HostDoc Float Tree Layout Identity Workspace TreeOps TabOrder Intent Topology.

Abbreviation Outcome := (IntentOutcome (Topology := WorkspaceTopology)).
Definition outcome_topology (o : Outcome) : option WorkspaceTopology := match o with OApplied t => Some t | _ => None end.
Definition is_applied (o : Outcome) : bool := match o with OApplied _ => true | _ => false end.

Definition DEFAULT_VIDEO_TITLE : list byte := DEFAULT_DESKTOP_PANE_TITLE.
Definition no_project_keys (pane : RawUuid) : option (list byte) := None.

(** ** The topology with a part of it replaced *)

Definition with_tree (t : WorkspaceTopology) (ws : TreeWorkspace) : WorkspaceTopology :=
  mkTopology ws (sync_input_tabs t) (focus_mru t) (closed_tabs t) (unattached_session_id t) (host_display_name t) (spawn_cwd t).
Definition with_armed (t : WorkspaceTopology) (armed : gset RawUuid) : WorkspaceTopology :=
  mkTopology (tree t) armed (focus_mru t) (closed_tabs t) (unattached_session_id t) (host_display_name t) (spawn_cwd t).
Definition with_focus (t : WorkspaceTopology) (focus : gmap RawUuid (list RawUuid)) : WorkspaceTopology :=
  mkTopology (tree t) (sync_input_tabs t) focus (closed_tabs t) (unattached_session_id t) (host_display_name t) (spawn_cwd t).
Definition with_closed (t : WorkspaceTopology) (closed : list ClosedTab) : WorkspaceTopology :=
  mkTopology (tree t) (sync_input_tabs t) (focus_mru t) closed (unattached_session_id t) (host_display_name t) (spawn_cwd t).
Definition with_cwds (t : WorkspaceTopology) (cwds : gmap RawUuid (list byte)) : WorkspaceTopology :=
  mkTopology (tree t) (sync_input_tabs t) (focus_mru t) (closed_tabs t) (unattached_session_id t) (host_display_name t) cwds.

(** ** Acceptance *)

Definition accept (next : WorkspaceTopology) : Outcome :=
  if negb (invariant_holds (tree next)) then OInvalid
  else if existsb (fun s => existsb (fun tab => MAX_DEPTH <? depth (root tab))%nat (tabs s)) (sessions (tree next)) then OInvalid
  else OApplied next.

Definition live_tab_ids (ws : TreeWorkspace) : gset RawUuid := list_to_set (concat (map (fun s => map tab_id (tabs s)) (sessions ws))).
Definition pruned (t : WorkspaceTopology) : WorkspaceTopology :=
  let live_tabs := live_tab_ids (tree t) in
  let live_panes : gset RawUuid :=
    ⋃ (map (fun s => dom (specs s)) (sessions (tree t))) ∪ ⋃ (map (fun c => dom (closed_specs c)) (closed_tabs t)) in
  let focus :=
    foldl (fun m s =>
      match filter (fun tab => tab ∈ live_tabs) (default [] (focus_mru t !! session_id s)) with
      | [] => m
      | kept => <[session_id s := kept]> m
      end) ∅ (sessions (tree t)) in
  mkTopology (tree t)
    (filter (fun tab => tab ∈ live_tabs) (sync_input_tabs t))
    focus
    (filter (fun c => tab_id (closed_tab c) ∉ live_tabs) (closed_tabs t))
    (unattached_session_id t) (host_display_name t)
    (filter (fun p => p.1 ∈ live_panes) (spawn_cwd t)).

Definition has_tab_id (tab : RawUuid) (s : Session) : bool := existsb (fun candidate => bool_decide (tab_id candidate = tab)) (tabs s).
Definition noting_focus (t : WorkspaceTopology) (tab : RawUuid) : WorkspaceTopology :=
  match list_find (fun s => has_tab_id tab s = true) (sessions (tree t)) with
  | None => t
  | Some (_, s) =>
    let ring := filter (fun id : RawUuid => id <> tab) (default [] (focus_mru t !! session_id s)) in
    with_focus t (<[session_id s := take FOCUS_MRU_CAP (tab :: ring)]> (focus_mru t))
  end.

(** ** Lookups *)

Definition has_pane (t : WorkspaceTopology) (pane : RawUuid) : bool := workspace_contains pane (tree t) || is_detached pane (tree t).
Definition has_tab (t : WorkspaceTopology) (tab : RawUuid) : bool := existsb (has_tab_id tab) (sessions (tree t)).
Definition has_session (t : WorkspaceTopology) (session : RawUuid) : bool :=
  existsb (fun s => bool_decide (session_id s = session)) (sessions (tree t)).
Definition is_free (t : WorkspaceTopology) (pane : RawUuid) : bool :=
  negb (has_pane t pane) && negb (existsb (fun c => tab_contains pane (closed_tab c)) (closed_tabs t)).
Definition session_of_tab (t : WorkspaceTopology) (tab : RawUuid) : option (nat * nat) :=
  find_map_index (fun s => tab_position tab (tabs s)) 0 (sessions (tree t)).
Definition tab_of_pane (t : WorkspaceTopology) (pane : RawUuid) : option RawUuid := snd <$> location_of pane (tree t).
Definition find_tab (t : WorkspaceTopology) (tab : RawUuid) : option Tab :=
  snd <$> list_find (fun candidate => tab_id candidate = tab) (concat (map tabs (sessions (tree t)))).

(** ** The reopen ring *)

Definition capturing (t : WorkspaceTopology) (tab : RawUuid) : WorkspaceTopology :=
  match list_find (fun s => has_tab_id tab s = true) (sessions (tree t)) with
  | None => t
  | Some (_, s) =>
    match list_find (fun candidate => tab_id candidate = tab) (tabs s) with
    | None => t
    | Some (_, found) =>
      let kept := list_to_map (omap (fun pane => (fun spec => (pane, spec)) <$> specs s !! pane) (tab_panes found)) in
      let ring := closed_tabs t ++ [mkClosedTab (session_id s) found kept] in
      with_closed t (drop (length ring - CLOSED_TAB_RING_CAP) ring)
    end
  end.
Definition sole_leaf (t : WorkspaceTopology) (tab : RawUuid) : option RawUuid :=
  found ← find_tab t tab;
  if (leaf_count (root found) =? 1)%nat then head (all_pane_ids (root found)) else None.

Section Apply.
Context (lower : list byte -> list byte) {I : Type} `{IdSource I}.

Definition successor_after_closing (t : WorkspaceTopology) (closing : RawUuid) (project_key : RawUuid -> option (list byte)) : option RawUuid :=
  '(_, s) ← list_find (fun s => has_tab_id closing s = true) (sessions (tree t));
  let rest :=
    let ring := default [] (focus_mru t !! session_id s) in
    match list_find (fun tab : RawUuid => tab <> closing /\ tab ∈ map tab_id (tabs s)) ring with
    | Some (_, recent) => Some recent
    | None =>
      let tab_key tab := tab_project_key tab s project_key in
      let order := project_grouped_tab_order lower (map tab_id (tabs s)) tab_key in
      successor_after_close closing order tab_key ring
    end in
  match tabs s !! active_tab_index s with
  | Some active => if decide (tab_id active = closing) then rest else Some (tab_id active)
  | None => rest
  end.

(** ** The handlers *)

(** A split's new pane, and the focus it takes. *)
Definition inserting (t : WorkspaceTopology) (pane target : RawUuid) (axis : SplitAxis) (before : bool) (cwd : list byte) (ids : I) : Outcome * I :=
  let '(grown, ids) := TreeOps.split_pane (tree t) target axis (spec_new Terminal DEFAULT_PANE_TITLE) before pane ids in
  if negb (workspace_contains pane grown) then (OInvalid, ids)
  else
    let next := with_tree t grown in
    let next := if decide (cwd = []) then next else with_cwds next (<[pane := cwd]> (spawn_cwd next)) in
    let next := match tab_of_pane next pane with Some tab => noting_focus next tab | None => next end in
    (accept next, ids).

Fixpoint contains_split_in (split : RawUuid) (n : SplitNode) : bool :=
  match n with
  | Leaf _ => false
  | Split id _ children => bool_decide (id = split) || existsb (fun c => contains_split_in split (node c)) children
  end.
Definition contains_split (t : WorkspaceTopology) (split : RawUuid) : bool :=
  existsb (fun tab => contains_split_in split (root tab)) (concat (map tabs (sessions (tree t)))).

(** The leaves of a layout, when it is one a tab may hold. *)
Fixpoint valid_leaves (n : WorkspaceLayoutNode) : option (list RawUuid) :=
  match n with
  | Cells.Leaf id => Some [id]
  | Cells.Split _ _ children =>
    if (length children <? 2)%nat then None
    else
      out ← (fix go (l : list WorkspaceLayoutNode) : option (list RawUuid) :=
               match l with
               | [] => Some []
               | c :: l => here ← valid_leaves c; rest ← go l; Some (here ++ rest)
               end) children;
      if decide (base.size (list_to_set out : gset RawUuid) = length out) then Some out else None
  end.
Fixpoint rebuilt (n : WorkspaceLayoutNode) : SplitNode :=
  match n with
  | Cells.Leaf id => Leaf id
  | Cells.Split id axis children => Split id axis (map (fun c => mkChild (Flex one) (rebuilt c)) children)
  end.

Definition born_title (kind : PaneKind) (video : option VideoEndpoint) : list byte :=
  let plain := if is_video kind then DEFAULT_VIDEO_TITLE else DEFAULT_PANE_TITLE in
  match video with
  | Some endpoint => if decide (title endpoint = []) then plain else title endpoint
  | None => plain
  end.

End Apply.

Module Handlers.
Section Handlers.
Context (lower : list byte -> list byte) {I : Type} `{IdSource I}.

Definition adopt (args : list byte) (t : WorkspaceTopology) (pristine : bool) : Outcome :=
  if negb pristine then OStale
  else
    match decode_snapshot args with
    | Err _ => OInvalid
    | Ok state =>
      match from_document state with
      | None => OInvalid
      | Some uploaded =>
        accept (pruned (mkTopology (tree uploaded) (sync_input_tabs uploaded) (focus_mru uploaded) (closed_tabs uploaded)
                          (unattached_session_id t) (host_display_name t) (spawn_cwd uploaded)))
      end
    end.

Definition rename_pane (args : list byte) (t : WorkspaceTopology) : Outcome :=
  match decode_name args with
  | Err _ => OInvalid
  | Ok (pane, title) =>
    if negb (has_pane t pane) then ONotFound
    else accept (with_tree t (updating_spec (tree t) pane (fun spec => mkSpec (spec_kind spec) title (video spec) true)))
  end.
Definition rename_tab (args : list byte) (t : WorkspaceTopology) : Outcome :=
  match decode_name args with
  | Err _ => OInvalid
  | Ok (tab, title) => if negb (has_tab t tab) then ONotFound else accept (with_tree t (TreeOps.rename_tab (tree t) tab title))
  end.
Definition rename_session (args : list byte) (t : WorkspaceTopology) : Outcome :=
  match decode_name args with
  | Err _ => OInvalid
  | Ok (session, name) =>
    if negb (has_session t session) then ONotFound else accept (with_tree t (TreeOps.rename_session (tree t) session name))
  end.

Definition close_pane (args : list byte) (t : WorkspaceTopology) (ids : I) (project_key : RawUuid -> option (list byte)) : Outcome * I :=
  match decode_identity args with
  | Err _ => (OInvalid, ids)
  | Ok pane =>
    if negb (has_pane t pane) then (ONotFound, ids)
    else if is_detached pane (tree t) then (accept (pruned (with_tree t (close_detached_pane (tree t) pane))), ids)
    else
      let owning := tab_of_pane t pane in
      let successor := tab ← owning; successor_after_closing lower t tab project_key in
      let next :=
        match owning with
        | Some tab => if decide (sole_leaf t tab = Some pane) then capturing t tab else t
        | None => t
        end in
      let '(closed, ids) := TreeOps.close_pane (tree next) pane successor ids in
      (accept (pruned (with_tree next closed)), ids)
  end.
Definition close_tab (args : list byte) (t : WorkspaceTopology) (ids : I) (project_key : RawUuid -> option (list byte)) : Outcome * I :=
  match decode_identity args with
  | Err _ => (OInvalid, ids)
  | Ok tab =>
    if negb (has_tab t tab) then (ONotFound, ids)
    else
      let next := capturing t tab in
      let successor := successor_after_closing lower next tab project_key in
      let '(closed, ids) := TreeOps.close_tab (tree next) tab successor ids in
      (accept (pruned (with_tree next closed)), ids)
  end.

Definition split_pane (args : list byte) (t : WorkspaceTopology) (ids : I) : Outcome * I :=
  match decode_split args with
  | Err _ => (OInvalid, ids)
  | Ok a =>
    if negb (workspace_contains (sp_target a) (tree t)) then (ONotFound, ids)
    else if negb (is_free t (sp_new_pane a)) then (OInvalid, ids)
    else inserting t (sp_new_pane a) (sp_target a) (sp_axis a) (sp_before a) (sp_spawn_cwd a) ids
  end.
Definition spawn_pane (args : list byte) (t : WorkspaceTopology) (ids : I) : Outcome * I :=
  match decode_split args with
  | Err _ => (OInvalid, ids)
  | Ok a =>
    match found ← find_tab t (sp_target a); match active_pane found with Some pane => Some pane | None => first_leaf_id (root found) end with
    | None => (ONotFound, ids)
    | Some target =>
      if negb (is_free t (sp_new_pane a)) then (OInvalid, ids)
      else inserting t (sp_new_pane a) target (sp_axis a) (sp_before a) (sp_spawn_cwd a) ids
    end
  end.

Definition move_pane (args : list byte) (t : WorkspaceTopology) (ids : I) : Outcome * I :=
  match decode_move args with
  | Err _ => (OInvalid, ids)
  | Ok (mkMoveArgs source target axis before) =>
    if negb (workspace_contains source (tree t)) || negb (workspace_contains target (tree t)) then (ONotFound, ids)
    else if decide (source = target) then (OInvalid, ids)
    else
      let '(moved, ids) := move_leaf_across_tabs (tree t) source target axis before ids in
      let next := with_tree t moved in
      if decide (tab_of_pane next source = tab_of_pane next target) then (accept next, ids) else (OInvalid, ids)
  end.

Definition reorder_tabs (args : list byte) (t : WorkspaceTopology) : Outcome :=
  match decode_reorder_tabs args with
  | Err _ => OInvalid
  | Ok (session, wanted) =>
    match list_find (fun s => session_id s = session) (sessions (tree t)) with
    | None => ONotFound
    | Some (index, s) =>
      if negb (bool_decide ((list_to_set wanted : gset RawUuid) = list_to_set (map tab_id (tabs s)))) ||
         negb (length wanted =? length (tabs s))%nat then OInvalid
      else
        let active := tab_id <$> tabs s !! active_tab_index s in
        let reordered := omap (fun id => snd <$> list_find (fun tab => tab_id tab = id) (tabs s)) wanted in
        let position := id ← active; fst <$> list_find (eq id) wanted in
        accept (with_tree t (put_session (tree t) index (with_index (with_tabs s reordered) (default 0%nat position))))
    end
  end.

Definition focus_tab (args : list byte) (t : WorkspaceTopology) : Outcome :=
  match decode_identity args with
  | Err _ => OInvalid
  | Ok tab =>
    match '(i, j) ← session_of_tab t tab; s ← sessions (tree t) !! i; Some (i, j, s) with
    | None => ONotFound
    | Some (i, j, s) =>
      accept (noting_focus (with_tree t (with_active_session (put_session (tree t) i (with_index s j)) (Some (session_id s)))) tab)
    end
  end.
Definition focus_pane (args : list byte) (t : WorkspaceTopology) : Outcome :=
  match decode_identity args with
  | Err _ => OInvalid
  | Ok pane =>
    if negb (workspace_contains pane (tree t)) then ONotFound
    else
      let next := with_tree t (TreeOps.focus_pane (tree t) pane) in
      accept (match tab_of_pane next pane with Some tab => noting_focus next tab | None => next end)
  end.

Definition set_sync_input (args : list byte) (t : WorkspaceTopology) : Outcome :=
  match decode_flag args with
  | Err _ => OInvalid
  | Ok (tab, armed) =>
    if negb (has_tab t tab) then ONotFound
    else accept (with_armed t (if armed : bool then {[tab]} ∪ sync_input_tabs t else sync_input_tabs t ∖ {[tab]}))
  end.

Definition spawn_tab (args : list byte) (t : WorkspaceTopology) (ids : I) : Outcome * I :=
  match decode_spawn_tab args with
  | Err _ => (OInvalid, ids)
  | Ok a =>
    if negb (has_session t (st_session a)) then (ONotFound, ids)
    else if negb (is_free t (st_new_pane a)) then (OInvalid, ids)
    else
      let next := with_tree t (select_session (tree t) (st_session a)) in
      let '(tab, ids) := mint_tab ids in
      let grown := new_tab (tree next) (spec_new Terminal DEFAULT_PANE_TITLE) (st_position a) tab (st_new_pane a) in
      if negb (workspace_contains (st_new_pane a) grown) then (OInvalid, ids)
      else
        let next := with_tree next grown in
        let next := if decide (st_spawn_cwd a = []) then next else with_cwds next (<[st_new_pane a := st_spawn_cwd a]> (spawn_cwd next)) in
        (accept (noting_focus next tab), ids)
  end.

Definition set_zoom (args : list byte) (t : WorkspaceTopology) : Outcome :=
  match decode_flag args with
  | Err _ => OInvalid
  | Ok (pane, zoomed) =>
    match '(i, j) ← locate (tree t) pane; s ← sessions (tree t) !! i; tab ← tabs s !! j; Some (i, j, s, tab) with
    | None => ONotFound
    | Some (i, j, s, tab) =>
      accept (with_tree t (put_session (tree t) i (put_tab s j
        (with_panes tab (root tab) (active_pane tab) (if zoomed : bool then Some pane else None)))))
    end
  end.

Definition detach_pane (args : list byte) (t : WorkspaceTopology) (ids : I) : Outcome * I :=
  match decode_identity args with
  | Err _ => (OInvalid, ids)
  | Ok pane =>
    if negb (workspace_contains pane (tree t)) then (ONotFound, ids)
    else let '(next, ids) := TreeOps.detach_pane (tree t) pane ids in (accept (pruned (with_tree t next)), ids)
  end.
Definition reattach_pane (args : list byte) (t : WorkspaceTopology) (ids : I) : Outcome * I :=
  match decode_identity args with
  | Err _ => (OInvalid, ids)
  | Ok pane =>
    if negb (is_detached pane (tree t)) then (ONotFound, ids)
    else
      let '(tab, ids) := mint_tab ids in
      let '(next, ids) := TreeOps.reattach_pane (tree t) pane tab ids in
      if is_detached pane next then (OInvalid, ids) else (accept (pruned (with_tree t next)), ids)
  end.

Definition set_divider_weight (args : list byte) (t : WorkspaceTopology) : Outcome :=
  match decode_divider_weight args with
  | Err _ => OInvalid
  | Ok (split, index, weight) =>
    if negb (is_finite weight) || f64_lt weight MIN_WEIGHT then OInvalid
    else if negb (contains_split t split) then ONotFound
    else accept (with_tree t (TreeOps.set_divider_weight (tree t) split (Z.to_nat index) weight))
  end.

Definition new_session (args : list byte) (t : WorkspaceTopology) (ids : I) : Outcome * I :=
  match decode_new_session args with
  | Err _ => (OInvalid, ids)
  | Ok a =>
    if has_session t (ns_session a) || negb (is_free t (ns_new_pane a)) then (OInvalid, ids)
    else
      let next := if decide (ns_spawn_cwd a = []) then t else with_cwds t (<[ns_new_pane a := ns_spawn_cwd a]> (spawn_cwd t)) in
      let '(tab, ids) := mint_tab ids in
      let name := if decide (ns_name a = []) then DEFAULT_SESSION_NAME else ns_name a in
      let session := session_single_pane (ns_session a) name tab (ns_new_pane a) (spec_new Terminal DEFAULT_PANE_TITLE) in
      (accept (noting_focus (with_tree next (insert_session (tree next) session true)) tab), ids)
  end.
Definition close_session (args : list byte) (t : WorkspaceTopology) (ids : I) : Outcome * I :=
  match decode_identity args with
  | Err _ => (OInvalid, ids)
  | Ok session =>
    if negb (has_session t session) then (ONotFound, ids)
    else let '(next, ids) := TreeOps.close_session (tree t) session ids in (accept (pruned (with_tree t next)), ids)
  end.

Definition reopen_closed_tab (args : list byte) (t : WorkspaceTopology) : Outcome :=
  match decode_reopen_closed_tab args with
  | Err _ => OInvalid
  | Ok (lifo_index, position) =>
    let from_end := S (Z.to_nat lifo_index) in
    if (length (closed_tabs t) <? from_end)%nat then OApplied t
    else
      let array_index := (length (closed_tabs t) - from_end)%nat in
      match closed_tabs t !! array_index with
      | None => OApplied t
      | Some restored =>
        let next := with_closed t (remove_at array_index (closed_tabs t)) in
        let ws :=
          if existsb (fun s => bool_decide (session_id s = closed_session_id restored)) (sessions (tree next))
          then select_session (tree next) (closed_session_id restored) else tree next in
        match active_session_index ws with
        | None => ONotFound
        | Some index =>
          let tab := tab_id (closed_tab restored) in
          let ws := insert_tab ws (closed_tab restored) (closed_specs restored) position in
          let landed := match sessions ws !! index with Some s => has_tab_id tab s | None => false end in
          if negb landed then OInvalid else accept (noting_focus (with_tree next ws) tab)
        end
      end
  end.

Definition break_pane_to_tab (args : list byte) (t : WorkspaceTopology) (ids : I) : Outcome * I :=
  match decode_identity args with
  | Err _ => (OInvalid, ids)
  | Ok pane =>
    match tab_of_pane t pane with
    | None => (ONotFound, ids)
    | Some origin =>
      let '(tab, ids) := mint_tab ids in
      let next := with_tree t (TreeOps.break_pane_to_tab (tree t) pane tab) in
      match tab_of_pane next pane with
      | Some landed => if decide (landed = origin) then (OInvalid, ids) else (accept (noting_focus next landed), ids)
      | None => (OInvalid, ids)
      end
    end
  end.

Definition swap_panes (args : list byte) (t : WorkspaceTopology) : Outcome :=
  match decode_swap_panes args with
  | Err _ => OInvalid
  | Ok (a, b) =>
    if negb (workspace_contains a (tree t)) || negb (workspace_contains b (tree t)) then ONotFound
    else if decide (a = b) then OInvalid
    else accept (with_tree t (TreeOps.swap_panes (tree t) a b))
  end.

Definition dock_pane_at_tab_edge (args : list byte) (t : WorkspaceTopology) (ids : I) : Outcome * I :=
  match decode_dock_at_tab_edge args with
  | Err _ => (OInvalid, ids)
  | Ok (mkDockArgs source tab edge) =>
    if negb (workspace_contains source (tree t)) || negb (has_tab t tab) then (ONotFound, ids)
    else
      let '(docked, ids) := move_leaf_to_tab_root_edge (tree t) source tab edge ids in
      let next := with_tree t docked in
      if decide (tab_of_pane next source = Some tab) then (accept (pruned next), ids) else (OInvalid, ids)
  end.

Definition set_tab_layout (args : list byte) (t : WorkspaceTopology) : Outcome :=
  match decode_set_tab_layout args with
  | Err _ => OInvalid
  | Ok (tab, blob) =>
    match decode_layout blob with
    | Err _ => OInvalid
    | Ok layout =>
      match '(i, j) ← session_of_tab t tab; s ← sessions (tree t) !! i; target ← tabs s !! j; Some (i, j, s, target) with
      | None => ONotFound
      | Some (i, j, s, target) =>
        let current := all_pane_ids (root target) in
        match valid_leaves layout with
        | None => OInvalid
        | Some leaves =>
          if negb (length leaves =? length current)%nat ||
             negb (bool_decide ((list_to_set leaves : gset RawUuid) = list_to_set current)) then OInvalid
          else accept (with_tree t (put_session (tree t) i (put_tab s j (with_panes target (rebuilt layout) (active_pane target) None))))
        end
      end
    end
  end.

Definition spawn_detached_pane (args : list byte) (t : WorkspaceTopology) : Outcome :=
  match decode_spawn_detached_pane args with
  | Err _ => OInvalid
  | Ok a =>
    if negb (is_free t (sd_new_pane a)) then OInvalid
    else
      match optional_target (sd_video a) with
      | None => OInvalid
      | Some v =>
        let spec := mkSpec (sd_kind a) (born_title (sd_kind a) v) v false in
        let grown := mint_detached_pane (tree t) spec (sd_new_pane a) in
        if negb (is_detached (sd_new_pane a) grown) then OInvalid else accept (with_tree t grown)
      end
  end.

Definition set_pane_video_target (args : list byte) (t : WorkspaceTopology) : Outcome :=
  match decode_set_pane_video_target args with
  | Err _ => OInvalid
  | Ok (pane, blob) =>
    match optional_target blob with
    | None => OInvalid
    | Some v =>
      match '(i, s) ← list_find (fun s => is_Some (specs s !! pane)) (sessions (tree t)); spec ← specs s !! pane; Some (i, s, spec) with
      | None => ONotFound
      | Some (i, s, spec) =>
        let tracking := match video spec with Some current => bool_decide (spec_title spec = title current) | None => true end in
        let name := if negb (user_renamed spec) && tracking then born_title (spec_kind spec) v else spec_title spec in
        accept (with_tree t (put_session (tree t) i
          (with_specs s (<[pane := mkSpec (spec_kind spec) name v (user_renamed spec)]> (specs s)))))
      end
    end
  end.
End Handlers.
End Handlers.

Section Dispatch.
Context (lower : list byte -> list byte) {I : Type} `{IdSource I}.

Definition apply (op : byte) (args : list byte) (t : WorkspaceTopology) (ids : I) (pristine : bool)
    (project_key : RawUuid -> option (list byte)) : Outcome * I :=
  match op_from_byte op with
  | None => (OUnknownOp, ids)
  | Some op =>
    match op with
    | OpAdoptWorkspace => (Handlers.adopt args t pristine, ids)
    | OpRenamePane => (Handlers.rename_pane args t, ids)
    | OpRenameTab => (Handlers.rename_tab args t, ids)
    | OpRenameSession => (Handlers.rename_session args t, ids)
    | OpClosePane => Handlers.close_pane lower args t ids project_key
    | OpCloseTab => Handlers.close_tab lower args t ids project_key
    | OpSplitPane => Handlers.split_pane args t ids
    | OpSpawnPane => Handlers.spawn_pane args t ids
    | OpMovePane => Handlers.move_pane args t ids
    | OpReorderTabs => (Handlers.reorder_tabs args t, ids)
    | OpFocusTab => (Handlers.focus_tab args t, ids)
    | OpFocusPane => (Handlers.focus_pane args t, ids)
    | OpSetSyncInput => (Handlers.set_sync_input args t, ids)
    | OpSpawnTab => Handlers.spawn_tab args t ids
    | OpSetZoom => (Handlers.set_zoom args t, ids)
    | OpDetachPane => Handlers.detach_pane args t ids
    | OpReattachPane => Handlers.reattach_pane args t ids
    | OpSetDividerWeight => (Handlers.set_divider_weight args t, ids)
    | OpNewSession => Handlers.new_session args t ids
    | OpCloseSession => Handlers.close_session args t ids
    | OpReopenClosedTab => (Handlers.reopen_closed_tab args t, ids)
    | OpBreakPaneToTab => Handlers.break_pane_to_tab args t ids
    | OpSwapPanes => (Handlers.swap_panes args t, ids)
    | OpDockPaneAtTabEdge => Handlers.dock_pane_at_tab_edge args t ids
    | OpSetTabLayout => (Handlers.set_tab_layout args t, ids)
    | OpSpawnDetachedPane => (Handlers.spawn_detached_pane args t, ids)
    | OpSetPaneVideoTarget => (Handlers.set_pane_video_target args t, ids)
    end
  end.
End Dispatch.
