(* ===== verification/ApplyLaws.v ===== *)
(** * ApplyLaws: whatever a peer asks, the document keeps a well-formed workspace

    From a well-formed topology and with identities that are new, every intent but the bootstrap upload is
    refused or ends in a well-formed topology whose panes are accounted for. *)

From stdpp Require Import gmap sorting.
From S2P Require Import Prelude Bytes BTree Message Document Cells Liveness Verbs HostDoc Float Tree TreeLaws Layout LayoutLaws Identity Workspace WorkspaceLaws TreeOps OpsLaws TabLaws CloseLaws Requests TabOrder Intent Topology Apply.

(** ** Well formed *)

Definition live_tabs (ws : TreeWorkspace) : list Tab := concat (map tabs (sessions ws)).
Definition shallow (ws : TreeWorkspace) : Prop := Forall (fun tab => (depth (root tab) <= MAX_DEPTH)%nat) (live_tabs ws).

Definition closed_leaves (c : ClosedTab) : list RawUuid := leaves (root (closed_tab c)).
Definition ring_panes (l : list ClosedTab) : list RawUuid := concat (map closed_leaves l).
Definition closed_ok (c : ClosedTab) : Prop := tab_ok (closed_tab c) /\ dom (closed_specs c) = list_to_set (closed_leaves c).

(** The reopen ring: whole tabs, none of them and none of their panes twice; and bounded. *)
Record ring_sound (l : list ClosedTab) : Prop := {
  ring_closed : Forall closed_ok l;
  ring_ids : NoDup (map (fun c => tab_id (closed_tab c)) l);
  ring_nodup : NoDup (ring_panes l);
}.
Definition ring_ok (l : list ClosedTab) : Prop := ring_sound l /\ (length l <= CLOSED_TAB_RING_CAP)%nat.
(** Nothing on the ring is on screen too. *)
Definition apart (ws : TreeWorkspace) (l : list ClosedTab) : Prop :=
  forall c, c ∈ l -> tab_id (closed_tab c) ∉ all_tids ws /\ forall x, x ∈ closed_leaves c -> x ∉ inventory ws.

Record topology_wf (t : WorkspaceTopology) : Prop := {
  wf_tree : ws_wf (tree t);
  wf_shallow : shallow (tree t);
  wf_ring : ring_ok (closed_tabs t);
  wf_apart : apart (tree t) (closed_tabs t);
}.

(** [U] holds every identity in use, the ring's included. *)
Definition covers (U : gset RawUuid) (t : WorkspaceTopology) : Prop :=
  used (tree t) ⊆ U /\ forall c, c ∈ closed_tabs t -> tab_id (closed_tab c) ∈ U /\ forall x, x ∈ closed_leaves c -> x ∈ U.

(** What an applied intent did to the panes: [removed] left the tree and [brought] came in, the repair may
    have minted, and the ring holds what it held or what was removed. *)
Record change (U : gset RawUuid) (t t' : WorkspaceTopology) (removed brought : list RawUuid) : Prop := {
  change_wf : topology_wf t';
  change_panes : exists minted, removed ++ inventory (tree t') ≡ₚ minted ++ brought ++ inventory (tree t) /\ forall x, x ∈ minted -> x ∉ U;
  change_ring : forall x, x ∈ ring_panes (closed_tabs t') -> x ∈ ring_panes (closed_tabs t) \/ x ∈ removed;
}.

(** ** The gate and the side maps *)

Lemma accept_applied next t' : accept next = OApplied t' -> t' = next /\ shallow (tree next).
Proof.
  unfold accept. destruct (negb _); [done|]. destruct (existsb _ _) eqn:E; [done|]. intros [= <-]. split; [done|].
  apply Forall_forall. intros tab (s & Hs & Htab)%elem_of_all. destruct (Nat.le_gt_cases (depth (root tab)) MAX_DEPTH) as [|Hgt]; [done|exfalso].
  assert (existsb (fun s => existsb (fun tab => MAX_DEPTH <? depth (root tab))%nat (tabs s)) (sessions (tree next)) = true); [|congruence].
  apply existsb_exists. exists s. split; [by apply list_elem_of_In|]. apply existsb_exists. exists tab. split; [by apply list_elem_of_In|].
  by apply Nat.ltb_lt.
Qed.

(** The same tree, and nothing new on the ring. *)
Definition side (t next : WorkspaceTopology) : Prop := tree next = tree t /\ closed_tabs next `sublist_of` closed_tabs t.
Lemma side_refl t : side t t.
Proof. by split. Qed.
Lemma side_trans t1 t2 t3 : side t1 t2 -> side t2 t3 -> side t1 t3.
Proof. intros [E1 S1] [E2 S2]. split; [congruence|by etrans]. Qed.
Lemma filter_sublist {A} (P : A -> Prop) `{!forall x, Decision (P x)} l : filter P l `sublist_of` l.
Proof. induction l as [|x l IH]; [done|]. rewrite filter_cons. case_decide; by constructor. Qed.
Lemma side_pruned t : side t (pruned t).
Proof. split; [done|]. apply filter_sublist. Qed.
Lemma side_noting t tab : side t (noting_focus t tab).
Proof. unfold noting_focus. destruct (list_find _ _) as [[? ?]|]; by split. Qed.
Lemma side_cwds t m : side t (with_cwds t m).
Proof. by split. Qed.
Lemma side_armed t m : side t (with_armed t m).
Proof. by split. Qed.

Lemma ring_sublist l k : k `sublist_of` l -> ring_sound l -> ring_sound k.
Proof.
  intros Hs [H2 H3 H4]. constructor.
  - rewrite Forall_forall in *. intros c Hc. apply H2. by eapply elem_of_sublist.
  - refine (sublist_NoDup _ _ H3 _). by apply (fmap_sublist (fun c => tab_id (closed_tab c)) k l).
  - clear -Hs H4. induction Hs as [|x l k Hs IH|x l k Hs IH]; [done|..]; unfold ring_panes in *; cbn in *.
    + apply NoDup_app in H4 as (Hx & Hd & Hk). apply NoDup_app. split; [done|]. split; [|by apply IH].
      intros y Hy Hl. apply (Hd y Hy). apply elem_of_all in Hl as (c & Hc & ?). apply elem_of_all. exists c. split; [|done].
      by eapply elem_of_sublist.
    + apply NoDup_app in H4 as (_ & _ & Hk). by apply IH.
Qed.
Lemma ring_panes_sublist l k x : k `sublist_of` l -> x ∈ ring_panes k -> x ∈ ring_panes l.
Proof. intros Hs (c & Hc & Hx)%elem_of_all. apply elem_of_all. exists c. split; [|done]. by eapply elem_of_sublist. Qed.

(** ** From a workspace's law to a topology's *)

Lemma covers_inventory U t x : covers U t -> x ∈ inventory (tree t) -> x ∈ U.
Proof. intros [HU _] Hx. unfold used in HU. set_solver. Qed.
Lemma pruned_closed t c : c ∈ closed_tabs (pruned t) -> c ∈ closed_tabs t /\ tab_id (closed_tab c) ∉ all_tids (tree t).
Proof. cbn. intros [Hn Hc]%list_elem_of_filter. split; [done|]. intros Hx. apply Hn. by apply elem_of_list_to_set. Qed.

(** A ring that only shrinks: [V] holds its identities, and what the operation minted is outside [U] too. *)
Lemma change_by_effect {b} V U t next t' ws' removed brought :
  topology_wf t -> effect b V (tree t) ws' removed brought -> side (with_tree t ws') next ->
  (forall x, b = true -> x ∉ V -> x ∉ U) ->
  (forall c, c ∈ closed_tabs next -> tab_id (closed_tab c) ∈ V /\ forall x, x ∈ closed_leaves c -> (b = true -> x ∈ V) /\ x ∉ brought) ->
  accept next = OApplied t' -> change U t t' removed brought.
Proof.
  intros [Hw Hsh [Hr Hcap] Hap] [Hw' (m & Hp & Hm & Hb) Ht] [Et Hs] HV Hring [-> Hd]%accept_applied. cbn in Et, Hs.
  rewrite <- Et in *. constructor.
  - constructor; [done|done| |].
    + split; [by eapply ring_sublist|]. pose proof (sublist_length _ _ Hs). lia.
    + intros c Hc. destruct (Hring c Hc) as [H1 H2]. destruct (Hap c (elem_of_sublist _ _ _ Hc Hs)) as [H3 H4].
      split; [intros [?|?]%Ht; [by apply H3|done]|]. intros x Hx Hi. destruct (H2 x Hx) as [HxV Hxb].
      assert (Hi' : x ∈ removed ++ inventory (tree next)) by (apply elem_of_app; by right). rewrite Hp in Hi'.
      apply elem_of_app in Hi' as [Hi'|[Hi'|Hi']%elem_of_app]; [|done|by apply (H4 x)].
      destruct b; [by apply (Hm x Hi'), HxV|]. rewrite (Hb eq_refl) in Hi'. by apply elem_of_nil in Hi'.
  - exists m. split; [done|]. intros x Hx. destruct b; [apply HV; [done|by apply Hm]|]. rewrite (Hb eq_refl) in Hx. by apply elem_of_nil in Hx.
  - intros x Hx. left. by eapply ring_panes_sublist.
Qed.
Lemma change_of_effect {b} U t next t' ws' removed brought :
  topology_wf t -> covers U t -> effect b U (tree t) ws' removed brought -> side (with_tree t ws') next ->
  (forall x, x ∈ brought -> x ∉ ring_panes (closed_tabs t)) ->
  accept next = OApplied t' -> change U t t' removed brought.
Proof.
  intros Ht [_ HU] He Hs Hb. refine (change_by_effect U U t next t' ws' removed brought Ht He Hs _ _); [done|].
  intros c Hc. assert (Hc' : c ∈ closed_tabs t) by (eapply elem_of_sublist; [exact Hc|apply Hs]). destruct (HU c Hc') as [H1 H2].
  split; [done|]. intros x Hx. split; [intros _; by apply H2|]. intros Hxb. apply (Hb x Hxb), elem_of_all. by exists c.
Qed.

(** ** The tab a close captures *)

Lemma live_tab ws s tab :
  ws_wf ws -> s ∈ sessions ws -> tab ∈ tabs s ->
  tab_ok tab /\ tab_id tab ∈ all_tids ws /\ NoDup (leaves (root tab)) /\
  forall x, x ∈ leaves (root tab) -> x ∈ inventory ws /\ x ∈ dom (specs s).
Proof.
  intros Hw [i Hi]%list_elem_of_lookup [j Hj]%list_elem_of_lookup. destruct (session_at ws i s Hw Hi) as (Hs & Hnd & _).
  destruct (tab_at s j tab Hs Hnd Hj) as (Hok & Hn & Hl). split; [done|]. split; [|split; [done|]].
  - apply (tids_sub ws i s); [done|]. apply (list_elem_of_fmap_2 tab_id). by eapply list_elem_of_lookup_2.
  - intros x Hx%Hl. split; [by apply (sinv_sub ws i s)|]. destruct Hs as (_ & _ & _ & ->). by apply elem_of_list_to_set.
Qed.
Lemma kept_dom (m : Specs) l :
  (forall x, x ∈ l -> x ∈ dom m) ->
  dom (list_to_map (omap (fun pane => (fun spec => (pane, spec)) <$> m !! pane) l) : Specs) = list_to_set l.
Proof.
  induction l as [|x l IH]; intros Hl; [by cbn; rewrite dom_empty_L|]. cbn.
  assert (Hx : x ∈ dom m) by (apply Hl; left). apply elem_of_dom in Hx as [spec ->]. cbn. rewrite dom_insert_L, IH; [done|]. intros y Hy. apply Hl. by right.
Qed.
Lemma capturing_spec t tab :
  ws_wf (tree t) ->
  capturing t tab = t \/
  exists s found, s ∈ sessions (tree t) /\ found ∈ tabs s /\ tab_id found = tab /\ exists c, closed_tab c = found /\ closed_ok c /\
    let ring := closed_tabs t ++ [c] in capturing t tab = with_closed t (drop (length ring - CLOSED_TAB_RING_CAP) ring).
Proof.
  intros Hw. unfold capturing. destruct (list_find _ (sessions (tree t))) as [[i s]|] eqn:Es; [|by left].
  destruct (list_find _ (tabs s)) as [[j found]|] eqn:Et; [|by left]. right. exists s, found.
  apply list_find_Some in Es as (Hi & _). apply list_find_Some in Et as (Hj & Hid & _).
  apply list_elem_of_lookup_2 in Hi, Hj. split; [done|]. split; [done|]. split; [done|]. eexists. split; [|split; [|reflexivity]]; [done|].
  destruct (live_tab (tree t) s found Hw Hi Hj) as (Hok & _ & _ & Hl). split; [done|]. cbn. unfold closed_leaves, tab_panes. cbn.
  rewrite kept_dom, all_pane_ids_leaves; [done|]. rewrite all_pane_ids_leaves. intros x Hx. by apply Hl.
Qed.

(** A pane that left is not there any more. *)
Lemma removed_gone (U : gset RawUuid) removed inv minted inv0 (x : RawUuid) :
  removed ++ inv ≡ₚ minted ++ inv0 -> (forall y, y ∈ minted -> y ∉ U) -> NoDup inv0 -> x ∈ U -> x ∈ removed -> x ∉ inv.
Proof.
  intros Hp Hm Hnd HU [r Hr]%elem_of_Permutation [k Hk]%elem_of_Permutation. rewrite Hr, Hk in Hp. cbn in Hp.
  rewrite <- Permutation_middle in Hp. assert (Hx : x ∈ minted ++ inv0) by (rewrite <- Hp; left).
  apply elem_of_app in Hx as [Hx|[l Hl]%elem_of_Permutation]; [by apply (Hm x)|]. rewrite Hl in Hp, Hnd. apply NoDup_cons in Hnd as [Hn _].
  rewrite <- Permutation_middle in Hp. apply Permutation_cons_inv in Hp.
  assert (Hx : x ∈ minted ++ l) by (rewrite <- Hp; left). apply elem_of_app in Hx as [Hx|Hx]; [by apply (Hm x)|done].
Qed.

Lemma ring_grown t c :
  topology_wf t -> closed_ok c -> tab_id (closed_tab c) ∈ all_tids (tree t) -> NoDup (closed_leaves c) ->
  (forall x, x ∈ closed_leaves c -> x ∈ inventory (tree t)) -> ring_sound (closed_tabs t ++ [c]).
Proof.
  intros [_ _ [[R1 R2 R3] _] Hap] Hc Hid Hn Hl. constructor.
  - apply Forall_app. split; [done|]. by apply Forall_cons_2; [|apply Forall_nil_2].
  - rewrite map_app. cbn. apply NoDup_app. split; [done|]. split; [|apply NoDup_singleton].
    intros x (d & -> & Hd)%list_elem_of_fmap E%list_elem_of_singleton. destruct (Hap d Hd) as [H _]. apply H. by rewrite E.
  - unfold ring_panes. rewrite map_app, concat_app. cbn. rewrite app_nil_r. apply NoDup_app. split; [done|]. split; [|done].
    intros x (d & Hd & Hx)%elem_of_all Hx'. destruct (Hap d Hd) as [_ H]. by apply (H x Hx), Hl.
Qed.

(** A close that may capture the tab it ends; the prune drops what is live again. *)
Lemma change_of_capture U t tab t' ws' removed :
  topology_wf t -> covers U t -> effect true U (tree t) ws' removed [] ->
  (forall s found, s ∈ sessions (tree t) -> found ∈ tabs s -> tab_id found = tab -> forall x, x ∈ leaves (root found) -> x ∈ removed) ->
  accept (pruned (with_tree (capturing t tab) ws')) = OApplied t' -> change U t t' removed [].
Proof.
  intros Ht HU He Hrem. destruct (capturing_spec t tab (wf_tree _ Ht)) as [->|(s & found & Hs & Hf & Hid & c & Ec & Hc & ->)].
  { apply (change_of_effect (b := true) U t _ t' ws'); [done|done|done|by apply side_pruned|by intros x ?%elem_of_nil]. }
  set (ring := closed_tabs t ++ [c]). cbn zeta. destruct (live_tab (tree t) s found (wf_tree _ Ht) Hs Hf) as (_ & Hlive & Hnd & Hl).
  assert (El : closed_leaves c = leaves (root found)) by (unfold closed_leaves; by rewrite Ec).
  assert (Hring : ring_sound ring).
  { apply (ring_grown t c); rewrite ?Ec, ?El; [done|done|done|done|]. intros x Hx. by apply Hl. }
  set (kept := drop _ ring). assert (Hdrop : kept `sublist_of` ring) by apply sublist_drop.
  assert (Hlen : (length kept <= CLOSED_TAB_RING_CAP)%nat) by (unfold kept; rewrite length_drop; lia). clearbody kept.
  intros [-> Hd]%accept_applied. destruct He as [Hw' (m & Hp & Hm & _) Htids]. cbn [pruned with_tree with_closed tree closed_tabs] in *.
  pose proof (fun c Hc => pruned_closed (with_tree (with_closed t kept) ws') c Hc) as Hin.
  pose proof (filter_sublist (fun c => tab_id (closed_tab c) ∉ live_tab_ids ws') kept) as Hsub.
  assert (Hwhere : forall d x, d ∈ kept -> x ∈ closed_leaves d -> x ∈ ring_panes (closed_tabs t) \/ (d = c /\ x ∈ removed)).
  { intros d x Hd' Hx. apply (elem_of_sublist _ _ _ Hd') in Hdrop. unfold ring in Hdrop. apply elem_of_app in Hdrop as [Hd2|Hd2%list_elem_of_singleton].
    - left. apply elem_of_all. by exists d.
    - right. subst d. split; [done|]. apply (Hrem s found Hs Hf Hid). by rewrite <- El. }
  pose proof (wf_tree _ Ht) as (_ & _ & (_ & _ & Hinv) & _). constructor.
  - constructor; [done|done| |].
    + split; [eapply ring_sublist; [exact Hsub|by eapply ring_sublist]|]. pose proof (sublist_length _ _ Hsub) as Hle. cbn in Hle |- *. lia.
    + intros d Hd'. destruct (Hin d Hd') as [Hk Hno]. split; [done|]. cbn in Hk. intros x Hx. destruct (Hwhere d x Hk Hx) as [Hx'|[Ed Hx']].
      * apply elem_of_all in Hx' as (e & He & Hx'). destruct (wf_apart _ Ht e He) as [_ Ha]. destruct HU as [_ HUr]. destruct (HUr e He) as [_ HxU].
        intros Hi. assert (Hi' : x ∈ removed ++ inventory ws') by (apply elem_of_app; by right). rewrite Hp in Hi'. cbn in Hi'.
        apply elem_of_app in Hi' as [Hi'|Hi']; [by apply (Hm x Hi'), HxU|by apply (Ha x Hx')].
      * subst d. apply (removed_gone U removed (inventory ws') m (inventory (tree t)) x Hp Hm Hinv); [|done].
        apply (covers_inventory U t x HU). apply Hl. by rewrite <- El.
  - by exists m.
  - intros x (d & Hd' & Hx)%elem_of_all. destruct (Hin d Hd') as [Hk _]. destruct (Hwhere d x Hk Hx) as [?|[_ ?]]; [by left|by right].
Qed.

(** ** What the lookups find *)

Lemma workspace_contains_spec p ws : workspace_contains p ws = true <-> p ∈ workspace_panes ws.
Proof.
  unfold workspace_contains, workspace_panes. rewrite existsb_exists, elem_of_all. setoid_rewrite <- list_elem_of_In.
  apply exist_proper. intros s. f_equiv. unfold session_contains. rewrite session_panes_leaves, existsb_exists, elem_of_all.
  setoid_rewrite <- list_elem_of_In. apply exist_proper. intros tab. f_equiv. apply contains_leaves.
Qed.
Lemma is_detached_spec p ws : is_detached p ws = true <-> exists s, s ∈ sessions ws /\ p ∈ map pane (detached s).
Proof.
  unfold is_detached. rewrite existsb_exists. setoid_rewrite <- list_elem_of_In. apply exist_proper. intros s. f_equiv. apply session_is_detached_spec.
Qed.
Lemma has_pane_spec t p : has_pane t p = true <-> p ∈ inventory (tree t).
Proof.
  unfold has_pane. rewrite orb_true_iff, workspace_contains_spec, is_detached_spec. unfold workspace_panes, inventory.
  rewrite !elem_of_all. unfold sinv. split.
  - intros [(s & Hs & Hp)|(s & Hs & Hp)]; exists s; (split; [done|]); apply elem_of_app; [by left|by right].
  - intros (s & Hs & [Hp|Hp]%elem_of_app); [left|right]; by exists s.
Qed.
Lemma is_free_spec t p : is_free t p = true -> p ∉ inventory (tree t) /\ p ∉ ring_panes (closed_tabs t).
Proof.
  unfold is_free. rewrite andb_true_iff, !negb_true_iff. intros [H1 H2]. split.
  - intros Hp%has_pane_spec. congruence.
  - intros (c & Hc & Hp)%elem_of_all. assert (E : existsb (fun c => tab_contains p (closed_tab c)) (closed_tabs t) = true); [|congruence].
    apply existsb_exists. exists c. split; [by apply list_elem_of_In|]. by apply contains_leaves.
Qed.
Lemma contained_located p ws : workspace_contains p ws = true -> exists x, locate ws p = Some x.
Proof. intros Hp%workspace_contains_spec. destruct (locate ws p) as [x|] eqn:E; [by exists x|]. by apply locate_none in E. Qed.
Lemma detached_located p ws : is_detached p ws = true -> exists i, detached_position ws p = Some i.
Proof.
  intros (s & Hs & Hp)%is_detached_spec. unfold detached_position. destruct (list_find _ _) as [[i s']|] eqn:E; [by exists i|].
  apply list_find_None in E. rewrite Forall_forall in E. destruct (E s Hs). by apply session_is_detached_spec.
Qed.

Lemma has_tab_id_spec tab s : has_tab_id tab s = true <-> exists found, found ∈ tabs s /\ tab_id found = tab.
Proof.
  unfold has_tab_id. rewrite existsb_exists. setoid_rewrite <- list_elem_of_In. setoid_rewrite bool_decide_eq_true. done.
Qed.
Lemma has_tab_spec t tab : has_tab t tab = true <-> exists s found, s ∈ sessions (tree t) /\ found ∈ tabs s /\ tab_id found = tab.
Proof.
  unfold has_tab. rewrite existsb_exists. setoid_rewrite <- list_elem_of_In. setoid_rewrite has_tab_id_spec. naive_solver.
Qed.

(** An identity of a tab names one tab. *)
Lemma same_tab ws s1 s2 t1 t2 :
  ws_wf ws -> s1 ∈ sessions ws -> s2 ∈ sessions ws -> t1 ∈ tabs s1 -> t2 ∈ tabs s2 -> tab_id t1 = tab_id t2 -> t1 = t2.
Proof.
  intros (_ & _ & (_ & U2 & _) & _) [i Hi]%list_elem_of_lookup [k Hk]%list_elem_of_lookup H1 H2 E.
  assert (Hx1 : tab_id t1 ∈ tids s1) by by apply (list_elem_of_fmap_2 tab_id).
  assert (Hx2 : tab_id t1 ∈ tids s2) by (rewrite E; by apply (list_elem_of_fmap_2 tab_id)).
  assert (i = k) as <- by by eapply (all_same_place tids). assert (s1 = s2) as <- by congruence.
  apply list_elem_of_lookup in H1 as [j Hj], H2 as [l Hl]. pose proof (NoDup_all_at tids _ _ _ U2 Hi) as Hnd.
  assert (j = l); [|congruence]. apply (NoDup_lookup (tids s1) _ _ (tab_id t1)); [done|..]; unfold tids; rewrite list_lookup_fmap.
  - by rewrite Hj.
  - by rewrite Hl, E.
Qed.
Lemma find_tab_some t tab found :
  find_tab t tab = Some found -> exists s, s ∈ sessions (tree t) /\ found ∈ tabs s /\ tab_id found = tab.
Proof.
  unfold find_tab. destruct (list_find _ _) as [[i f]|] eqn:E; [|done]. intros [= ->].
  apply list_find_Some in E as (Hi & Hid & _). apply list_elem_of_lookup_2, elem_of_all in Hi as (s & ? & ?). by exists s.
Qed.
Lemma tab_position_none tab l : tab_position tab l = None -> forall found, found ∈ l -> tab_id found <> tab.
Proof.
  unfold tab_position. destruct (list_find _ _) as [[? ?]|] eqn:E; [done|]. intros _ found Hf.
  apply list_find_None in E. rewrite Forall_forall in E. by apply E.
Qed.
Lemma locate_tab_some ws tab i j :
  locate_tab ws tab = Some (i, j) -> exists s found, sessions ws !! i = Some s /\ tabs s !! j = Some found /\ tab_id found = tab.
Proof.
  intros (_ & s & Hi & Hj)%find_map_index_some. apply list_find_position in Hj as (found & Hf & Hid). rewrite Nat.sub_0_r in Hi. by exists s, found.
Qed.
Lemma has_tab_located t tab : has_tab t tab = true -> exists x, locate_tab (tree t) tab = Some x.
Proof.
  intros (s & found & Hs & Hf & Hid)%has_tab_spec. unfold locate_tab. destruct (find_map_index _ _ _) as [x|] eqn:E; [by exists x|].
  apply find_map_index_none in E. rewrite Forall_forall in E. by destruct (tab_position_none tab (tabs s) (E s Hs) found Hf).
Qed.
