(* ===== verification/HandlerLaws.v ===== *)
(** * HandlerLaws: one law for every intent a client may send

    What an applied intent closes and what it brings, handler by handler, and the theorem over the
    dispatcher: a well-formed topology in, a refusal or a well-formed topology out, every pane accounted
    for. *)

From stdpp Require Import gmap sorting.
From S2P Require Import Prelude Bytes BTree Message Document Cells Liveness Verbs HostDoc Float Tree TreeLaws Layout LayoutLaws Identity Workspace WorkspaceLaws TreeOps OpsLaws TabLaws CloseLaws Requests TabOrder Intent Topology Apply ApplyLaws.

(** ** What an intent closes and what it brings *)

Definition restored_by (t : WorkspaceTopology) (lifo_index : Z) : option ClosedTab :=
  let from_end := S (Z.to_nat lifo_index) in
  if (length (closed_tabs t) <? from_end)%nat then None else closed_tabs t !! (length (closed_tabs t) - from_end)%nat.

Definition closed_by (t : WorkspaceTopology) (op : WorkspaceIntentOp) (args : list byte) : list RawUuid :=
  match op, decode_identity args with
  | OpClosePane, Ok pane => [pane]
  | OpCloseTab, Ok tab => takes (tree t) (CloseTab tab None)
  | OpCloseSession, Ok session => takes (tree t) (CloseSession session)
  | _, _ => []
  end.
Definition brought_by (t : WorkspaceTopology) (op : WorkspaceIntentOp) (args : list byte) : list RawUuid :=
  match op with
  | OpSplitPane | OpSpawnPane => match decode_split args with Ok a => [sp_new_pane a] | Err _ => [] end
  | OpSpawnTab => match decode_spawn_tab args with Ok a => [st_new_pane a] | Err _ => [] end
  | OpNewSession => match decode_new_session args with Ok a => [ns_new_pane a] | Err _ => [] end
  | OpSpawnDetachedPane => match decode_spawn_detached_pane args with Ok a => [sd_new_pane a] | Err _ => [] end
  | OpReopenClosedTab =>
    match decode_reopen_closed_tab args with Ok (lifo_index, _) => from_option closed_leaves [] (restored_by t lifo_index) | Err _ => [] end
  | _ => []
  end.

(** ** Edits the handlers make themselves *)

Section Edits.
Context (U : gset RawUuid) (ws : TreeWorkspace) (Hw : ws_wf ws).

Lemma rearranged i s l k :
  sessions ws !! i = Some s -> l ≡ₚ tabs s -> (k < length l)%nat ->
  edit ws i s (with_index (with_tabs s l) k) [] [] /\ session_ok (with_index (with_tabs s l) k) /\ tids (with_index (with_tabs s l) k) ⊆ tids s.
Proof.
  intros Hi Hl Hk. destruct (session_at ws i s Hw Hi) as ((H1 & H2 & H3 & H4) & Hnd & Htn & Hsub). set (s' := with_index _ k).
  assert (Et : tids s' ≡ₚ tids s) by (unfold tids; cbn; by rewrite Hl).
  assert (E : sinv s' ≡ₚ sinv s).
  { rewrite !sinv_leaves. cbn. f_equiv. change (concat (map (fun t => leaves (root t)) l) ≡ₚ concat (map (fun t => leaves (root t)) (tabs s))).
    by rewrite Hl. }
  split; [|split; [|intros x; by rewrite Et]].
  - constructor; [done|done|by rewrite Et|intros x; rewrite Et; by left|done|constructor|by intros x ?%elem_of_nil].
  - split; [|split; [|split]]; cbn.
    + intros ->. cbn in Hk. lia.
    + done.
    + by rewrite Hl.
    + rewrite H4. symmetry. by apply list_to_set_perm_L.
Qed.

(** A tab replaced by one with the same panes. *)
Lemma retabbed i j s tab tab' :
  sessions ws !! i = Some s -> tabs s !! j = Some tab -> tab_id tab' = tab_id tab -> tab_ok tab' -> leaves (root tab') ≡ₚ leaves (root tab) ->
  effect false U ws (put_session ws i (put_tab s j tab')) [] [].
Proof.
  intros Hi Hj Hid Hok Hp. destruct (session_at ws i s Hw Hi) as (Hs & Hnd & _).
  pose proof (put_tab_sinv s j tab tab' [] [] Hj Hp) as E.
  destruct (tab_edit ws i j s tab tab' (specs s) (active_tab_index s) [] [] Hw Hi Hj Hid Hok Hp) as [He Ho];
    [constructor|by intros x ?%elem_of_nil| |apply Hs|].
  { destruct Hs as (_ & _ & _ & ->). symmetry. by apply list_to_set_perm_L. }
  apply (effect_edit U ws i s); [done|exact He|exact Ho|]. intros x. left. by rewrite <- (put_tab_tids s j tab tab').
Qed.
End Edits.

(** Nothing but the side of the sessions has moved. *)
Lemma effect_from {b} U ws ws1 ws' removed brought :
  sessions ws1 = sessions ws -> effect b U ws1 ws' removed brought -> effect b U ws ws' removed brought.
Proof. intros E [H1 H2 H3]. constructor; [done| |]; unfold inventory, all_tids in *; by rewrite <- E. Qed.
Lemma select_session_sessions ws id : sessions (select_session ws id) = sessions ws.
Proof. unfold select_session. by case_match. Qed.
Lemma used_from ws ws1 : sessions ws1 = sessions ws -> used ws1 = used ws.
Proof. intros E. unfold used, inventory, all_tids. by rewrite E. Qed.

(** As many as there are distinct means none twice. *)
Lemma size_le_length (l : list RawUuid) : (base.size (list_to_set l : gset RawUuid) <= length l)%nat.
Proof.
  induction l as [|x l IH]; [done|]. cbn. rewrite size_union_alt, size_singleton.
  pose proof (subseteq_size (list_to_set l ∖ {[x]} : gset RawUuid) (list_to_set l)). set_solver by lia.
Qed.
Lemma size_NoDup (l : list RawUuid) : base.size (list_to_set l : gset RawUuid) = length l -> NoDup l.
Proof.
  induction l as [|x l IH]; [constructor|]. cbn. pose proof (size_le_length l). intros E. destruct (decide (x ∈ (list_to_set l : gset RawUuid))) as [Hx|Hx].
  - replace ({[x]} ∪ list_to_set l : gset RawUuid) with (list_to_set l : gset RawUuid) in E by set_solver. lia.
  - rewrite size_union, size_singleton in E by set_solver. apply NoDup_cons. split; [set_solver|]. apply IH. lia.
Qed.
Lemma same_set_perm (l k : list RawUuid) : NoDup k -> length l = length k -> (list_to_set l : gset RawUuid) = list_to_set k -> l ≡ₚ k.
Proof.
  intros Hk Hl E. apply NoDup_Permutation; [|done|set_solver]. apply size_NoDup. rewrite E, Hl. by apply size_list_to_set.
Qed.

(** ** A layout a tab may hold *)

Fixpoint layout_node_ind (P : WorkspaceLayoutNode -> Prop) (Hl : forall id, P (Cells.Leaf id))
    (Hs : forall id axis children, Forall P children -> P (Cells.Split id axis children)) (n : WorkspaceLayoutNode) : P n :=
  match n with
  | Cells.Leaf id => Hl id
  | Cells.Split id axis children =>
    Hs id axis children
      ((fix go (l : list WorkspaceLayoutNode) : Forall P l :=
          match l with [] => Forall_nil_2 P | c :: l => Forall_cons_2 P c l (layout_node_ind P Hl Hs c) (go l) end) children)
  end.
Lemma valid_layout n out : valid_leaves n = Some out -> NoDup out /\ leaves (rebuilt n) = out /\ arity_ok (rebuilt n) = true.
Proof.
  revert out. induction n as [id|id axis children IH] using layout_node_ind; intros out; cbn [valid_leaves].
  { intros [= <-]. split; [apply NoDup_singleton|done]. }
  destruct (Nat.ltb_spec (length children) 2) as [|Hlen]; [done|].
  match goal with |- (_ ← ?go children; _) = _ -> _ => set (walk := go) end.
  assert (G : forall k l, Forall (fun n => forall out, valid_leaves n = Some out -> NoDup out /\ leaves (rebuilt n) = out /\ arity_ok (rebuilt n) = true) k ->
    walk k = Some l -> concat (map (fun c => leaves (node c)) (map (fun c => mkChild (Flex one) (rebuilt c)) k)) = l /\
    Forall (fun c => arity_ok (node c) = true) (map (fun c => mkChild (Flex one) (rebuilt c)) k)).
  { induction k as [|c k IHk]; intros l Hk; cbn; [intros [= <-]; by split|].
    apply Forall_cons in Hk as [Hc Hk]. destruct (valid_leaves c) as [here|] eqn:Ec; [|done]. cbn.
    destruct (walk k) as [rest|] eqn:Ek; [|done]. cbn. intros [= <-]. destruct (Hc here eq_refl) as (_ & El & Ea).
    destruct (IHk rest Hk eq_refl) as [Er Ha]. rewrite El. split; [by f_equal|]. by apply Forall_cons. }
  destruct (walk children) as [l|] eqn:El; [|done]. cbn [mbind option_bind]. case_decide as Hs; [|done]. intros [= <-].
  destruct (G children l IH El) as [E Ha]. split; [by apply size_NoDup|]. split; [by cbn [rebuilt leaves]|].
  cbn [rebuilt]. apply shape_split. split; [by rewrite length_map|]. eapply Forall_impl; [exact Ha|]. by intros c Hc; split.
Qed.

(** ** The handlers *)

Section Handling.
Context {I : Type} `{FreshSource I} (lower : list byte -> list byte).
Context (U : gset RawUuid) (t t' : WorkspaceTopology) (Ht : topology_wf t) (HU : covers U t).

Lemma tree_wf : ws_wf (tree t).
Proof. apply Ht. Qed.
Lemma tree_used : used (tree t) ⊆ U.
Proof. apply HU. Qed.
#[local] Hint Resolve tree_wf tree_used : core.
Lemma plain {b} next ws' :
  effect b U (tree t) ws' [] [] -> side (with_tree t ws') next -> accept next = OApplied t' -> change U t t' [] [].
Proof. intros He Hs. apply (change_of_effect (b := b) U t next t' ws'); [done|done|done|done|]. by intros x ?%elem_of_nil. Qed.
(** One free pane. *)
Lemma grown_by_one {b} next ws' p :
  is_free t p = true -> effect b U (tree t) ws' [] [p] -> side (with_tree t ws') next -> accept next = OApplied t' -> change U t t' [] [p].
Proof.
  intros [_ Hf]%is_free_spec He Hs. apply (change_of_effect (b := b) U t next t' ws'); [done|done|done|done|]. by intros x ->%list_elem_of_singleton.
Qed.
Lemma side_if (P : Prop) `{Decision P} next m : side (with_tree t (tree next)) next -> side (with_tree t (tree next)) (if decide P then next else with_cwds next m).
Proof. by case_decide. Qed.

Lemma rename_pane_change args : Handlers.rename_pane args t = OApplied t' -> change U t t' [] [].
Proof.
  unfold Handlers.rename_pane. destruct (decode_name args) as [[pane name]|]; [|done]. destruct (negb _); [done|].
  eapply (plain (b := false)); [|apply side_refl]. by apply updating_spec_effect.
Qed.
Lemma rename_tab_change args : Handlers.rename_tab args t = OApplied t' -> change U t t' [] [].
Proof.
  unfold Handlers.rename_tab. destruct (decode_name args) as [[tab name]|]; [|done]. destruct (negb _); [done|].
  eapply (plain (b := false)); [|apply side_refl]. by apply rename_tab_effect.
Qed.
Lemma rename_session_change args : Handlers.rename_session args t = OApplied t' -> change U t t' [] [].
Proof.
  unfold Handlers.rename_session. destruct (decode_name args) as [[session name]|]; [|done]. destruct (negb _); [done|].
  eapply (plain (b := false)); [|apply side_refl]. by apply rename_session_effect.
Qed.

Lemma reorder_tabs_change args : Handlers.reorder_tabs args t = OApplied t' -> change U t t' [] [].
Proof.
  unfold Handlers.reorder_tabs. destruct (decode_reorder_tabs args) as [[session wanted]|]; [|done].
  destruct (list_find _ _) as [[i s]|] eqn:Es; [|done]. apply list_find_Some in Es as (Hi & _).
  destruct (negb _ || _) eqn:Ew; [done|]. apply orb_false_iff in Ew as [E1%negb_false_iff%bool_decide_eq_true E2%negb_false_iff%Nat.eqb_eq].
  destruct (session_at (tree t) i s tree_wf Hi) as (Hok & _ & Htn & _).
  assert (Hp : wanted ≡ₚ map tab_id (tabs s)) by (apply same_set_perm; [done|by rewrite length_map|done]).
  set (pick := fun id => snd <$> list_find (fun tab => tab_id tab = id) (tabs s)).
  assert (Hl : omap pick wanted ≡ₚ tabs s).
  { rewrite Hp. assert (E : omap pick (map tab_id (tabs s)) = tabs s); [|by rewrite E].
    assert (G : forall l, (forall tab, tab ∈ l -> pick (tab_id tab) = Some tab) -> omap pick (map tab_id l) = l).
    { induction l as [|x l IH]; intros Hpick; [done|]. cbn. rewrite (Hpick x) by left. f_equal. apply IH. intros y Hy. apply Hpick. by right. }
    apply G. intros tab Hin. destruct (tab_position_of (tabs s) tab Htn Hin) as (k & Hk & Hkt). unfold tab_position in Hk. unfold pick.
    destruct (list_find _ _) as [[k' x]|] eqn:E; [|done]. cbn in Hk |- *. injection Hk as ->. apply list_find_Some in E as (E & _). congruence. }
  eapply (plain (b := false)); [|apply side_refl]. apply (effect_of_edit U _ i s); [done|]. apply rearranged; [apply tree_wf|done|done|].
  rewrite Hl. destruct Hok as (Hne & _ & _). assert (Hlen : (0 < length (tabs s))%nat) by (destruct (tabs s); [done|cbn; lia]).
  destruct (tab_id <$> _) as [id|]; [|done]. cbn. destruct (list_find (eq id) wanted) as [[k x]|] eqn:Ef; [|done]. cbn.
  apply list_find_Some in Ef as (Hk%lookup_lt_Some & _). lia.
Qed.

Lemma focus_tab_change args : Handlers.focus_tab args t = OApplied t' -> change U t t' [] [].
Proof.
  unfold Handlers.focus_tab. destruct (decode_identity args) as [tab|]; [|done].
  destruct (session_of_tab t tab) as [[i j]|] eqn:El; [|done]. apply (locate_tab_some (tree t)) in El as (s & found & Hi & Hj & Hid).
  cbn [mbind option_bind]. rewrite Hi. cbn [mbind option_bind]. eapply (plain (b := false)); [|apply side_noting].
  apply effect_activate; [|by apply (in_ids (tree t) i s)].
  apply (effect_of_edit U _ i s); [done|]. apply (rearranged (tree t) tree_wf i s (tabs s) j Hi); [done|by eapply lookup_lt_Some].
Qed.
Lemma focus_pane_change args : Handlers.focus_pane args t = OApplied t' -> change U t t' [] [].
Proof.
  unfold Handlers.focus_pane. destruct (decode_identity args) as [pane|]; [|done]. destruct (negb _); [done|]. cbn zeta.
  eapply plain; [by apply focus_pane_effect|]. destruct (tab_of_pane _ _); [apply side_noting|apply side_refl].
Qed.
Lemma set_sync_input_change args : Handlers.set_sync_input args t = OApplied t' -> change U t t' [] [].
Proof.
  unfold Handlers.set_sync_input. destruct (decode_flag args) as [[tab armed]|]; [|done]. destruct (negb _); [done|].
  apply (plain (b := false) _ (tree t)); [by apply effect_none|by split].
Qed.
Lemma located_tab i j s tab :
  sessions (tree t) !! i = Some s -> tabs s !! j = Some tab -> tab_ok tab /\ NoDup (leaves (root tab)).
Proof.
  intros Hi Hj. destruct (session_at (tree t) i s tree_wf Hi) as (Hs & Hnd & _). destruct (tab_at s j tab Hs Hnd Hj) as (? & ? & _). done.
Qed.
Lemma set_zoom_change args : Handlers.set_zoom args t = OApplied t' -> change U t t' [] [].
Proof.
  unfold Handlers.set_zoom. destruct (decode_flag args) as [[pane zoomed]|]; [|done].
  destruct (locate (tree t) pane) as [[i j]|] eqn:El; [|done]. apply locate_some in El as (s & tab & Hi & Hj & Hp).
  cbn [mbind option_bind]. rewrite Hi. cbn [mbind option_bind]. rewrite Hj. cbn [mbind option_bind].
  destruct (located_tab i j s tab Hi Hj) as ((Ha & Hf & _) & _).
  eapply (plain (b := false)); [|apply side_refl]. apply (retabbed U (tree t) tree_wf i j s tab); [done|done|done| |done].
  split; [done|]. split; [done|]. cbn. by destruct zoomed; [intros z [= <-]|].
Qed.
Lemma set_tab_layout_change args : Handlers.set_tab_layout args t = OApplied t' -> change U t t' [] [].
Proof.
  unfold Handlers.set_tab_layout. destruct (decode_set_tab_layout args) as [[tab blob]|]; [|done].
  destruct (decode_layout blob) as [layout|]; [|done].
  destruct (session_of_tab t tab) as [[i j]|] eqn:El; [|done]. apply (locate_tab_some (tree t)) in El as (s & target & Hi & Hj & _).
  cbn [mbind option_bind]. rewrite Hi. cbn [mbind option_bind]. rewrite Hj. cbn [mbind option_bind].
  destruct (located_tab i j s target Hi Hj) as ((Ha & (a & Hact & Hfoc) & _) & Hn). rewrite all_pane_ids_leaves.
  destruct (valid_leaves layout) as [out|] eqn:Ev; [|done]. apply valid_layout in Ev as (Hnd & Hl & Hshape).
  destruct (negb _ || _) eqn:E; [done|]. apply orb_false_iff in E as [E1%negb_false_iff%Nat.eqb_eq E2%negb_false_iff%bool_decide_eq_true].
  assert (Hp : leaves (rebuilt layout) ≡ₚ leaves (root target)) by (rewrite Hl; by apply same_set_perm).
  eapply (plain (b := false)); [|apply side_refl]. apply (retabbed U (tree t) tree_wf i j s target); [done|done|done| |done].
  split; [done|]. split; [|done]. exists a. split; [done|]. cbn. by rewrite Hp.
Qed.
Lemma set_pane_video_target_change args : Handlers.set_pane_video_target args t = OApplied t' -> change U t t' [] [].
Proof.
  unfold Handlers.set_pane_video_target. destruct (decode_set_pane_video_target args) as [[pane blob]|]; [|done].
  destruct (optional_target blob) as [v|]; [|done].
  destruct (list_find _ _) as [[i s]|] eqn:Es; [|done]. apply list_find_Some in Es as (Hi & Hs & _).
  cbn [mbind option_bind]. destruct (specs s !! pane) as [spec|] eqn:Esp; [|done]. cbn [mbind option_bind].
  eapply (plain (b := false)); [|apply side_refl]. apply (effect_of_edit U _ i s); [done|]. apply (relabelled U); try done.
  cbn. by apply dom_insert_lookup_L.
Qed.
Lemma swap_panes_change args : Handlers.swap_panes args t = OApplied t' -> change U t t' [] [].
Proof.
  unfold Handlers.swap_panes. destruct (decode_swap_panes args) as [[a b]|]; [|done]. destruct (_ || _); [done|]. case_decide; [done|].
  eapply (plain (b := false)); [|apply side_refl]. by apply swap_panes_effect.
Qed.
Lemma set_divider_weight_change args : Handlers.set_divider_weight args t = OApplied t' -> change U t t' [] [].
Proof.
  unfold Handlers.set_divider_weight. destruct (decode_divider_weight args) as [[[split index] w]|]; [|done]. destruct (_ || _); [done|].
  destruct (negb _); [done|]. eapply (plain (b := false)); [|apply side_refl]. by apply set_divider_weight_effect.
Qed.

Lemma move_pane_change args (ids : I) : (Handlers.move_pane args t ids).1 = OApplied t' -> change U t t' [] [].
Proof.
  unfold Handlers.move_pane. destruct (decode_move args) as [[source target axis before]|]; [|done]. destruct (_ || _); [done|]. case_decide; [done|].
  pose proof (move_leaf_across_tabs_effect U (tree t) tree_wf source target axis before ids) as He.
  destruct (move_leaf_across_tabs _ _ _ _ _ _) as [moved ids']. case_decide; [|done]. eapply plain; [exact He|apply side_refl].
Qed.
Lemma dock_pane_change args (ids : I) : (Handlers.dock_pane_at_tab_edge args t ids).1 = OApplied t' -> change U t t' [] [].
Proof.
  unfold Handlers.dock_pane_at_tab_edge. destruct (decode_dock_at_tab_edge args) as [[source tab edge]|]; [|done]. destruct (_ || _); [done|].
  pose proof (move_leaf_to_tab_root_edge_effect U (tree t) tree_wf source tab edge ids) as He.
  destruct (move_leaf_to_tab_root_edge _ _ _ _ _) as [docked ids']. case_decide; [|done]. eapply plain; [exact He|apply side_pruned].
Qed.
Lemma detach_pane_change args (ids : I) : fresh ids U -> (Handlers.detach_pane args t ids).1 = OApplied t' -> change U t t' [] [].
Proof.
  intros Hf. unfold Handlers.detach_pane. destruct (decode_identity args) as [pane|]; [|done]. destruct (negb _); [done|].
  pose proof (detach_pane_effect U (tree t) tree_wf tree_used pane ids Hf) as He.
  destruct (TreeOps.detach_pane _ _ _) as [next ids']. eapply plain; [exact He|apply side_pruned].
Qed.
Lemma reattach_pane_change args (ids : I) : fresh ids U -> (Handlers.reattach_pane args t ids).1 = OApplied t' -> change U t t' [] [].
Proof.
  intros Hf. unfold Handlers.reattach_pane. destruct (decode_identity args) as [pane|]; [|done]. destruct (negb _); [done|].
  destruct (fresh_tab ids U Hf) as [Hn _]. destruct (mint_tab ids) as [tab ids'].
  pose proof (reattach_pane_effect U (tree t) tree_wf tree_used pane tab ids' Hn) as He.
  destruct (TreeOps.reattach_pane _ _ _ _) as [next ids'']. destruct (is_detached _ _); [done|]. eapply plain; [exact He|apply side_pruned].
Qed.
Lemma break_pane_change args (ids : I) : fresh ids U -> (Handlers.break_pane_to_tab args t ids).1 = OApplied t' -> change U t t' [] [].
Proof.
  intros Hf. unfold Handlers.break_pane_to_tab. destruct (decode_identity args) as [pane|]; [|done]. destruct (tab_of_pane t pane); [|done].
  destruct (fresh_tab ids U Hf) as [Hn _]. destruct (mint_tab ids) as [tab ids'].
  pose proof (break_pane_to_tab_effect U (tree t) tree_wf tree_used pane tab Hn) as He. cbn zeta.
  destruct (tab_of_pane _ _); [|done]. case_decide; [done|]. eapply plain; [exact He|apply side_noting].
Qed.

(** *** What brings a pane *)

Lemma inserting_change p target axis before cwd (ids : I) :
  is_free t p = true -> (inserting t p target axis before cwd ids).1 = OApplied t' -> change U t t' [] [p].
Proof.
  intros Hfree. pose proof (is_free_spec t p Hfree) as [Hp _]. unfold inserting.
  pose proof (split_pane_effect U (tree t) tree_wf tree_used target axis (spec_new Terminal DEFAULT_PANE_TITLE) before p ids Hp) as He.
  destruct (TreeOps.split_pane _ _ _ _ _ _ _) as [ws' ids'] eqn:Eg. destruct (workspace_contains p ws') eqn:Ec; [|done]. cbn [negb]. cbn in He.
  destruct (locate (tree t) target) as [x|] eqn:El.
  - cbn zeta. eapply (grown_by_one (b := false)); [done|exact He|].
    eapply (side_trans _ (if decide (cwd = []) then _ else _)); [|by destruct (tab_of_pane _ p); [apply side_noting|apply side_refl]].
    case_decide; by split.
  - exfalso. unfold TreeOps.split_pane in Eg. rewrite El in Eg. injection Eg as <- _. apply Hp.
    apply has_pane_spec. unfold has_pane. by rewrite Ec.
Qed.
Lemma split_pane_change args (ids : I) :
  (Handlers.split_pane args t ids).1 = OApplied t' -> change U t t' [] (brought_by t OpSplitPane args).
Proof.
  unfold Handlers.split_pane, brought_by. destruct (decode_split args) as [a|]; [|done]. destruct (negb _); [done|].
  destruct (is_free t _) eqn:Ef; [|done]. by apply inserting_change.
Qed.
Lemma spawn_pane_change args (ids : I) :
  (Handlers.spawn_pane args t ids).1 = OApplied t' -> change U t t' [] (brought_by t OpSpawnPane args).
Proof.
  unfold Handlers.spawn_pane, brought_by. destruct (decode_split args) as [a|]; [|done].
  destruct (find_tab t (sp_target a) ≫= _) as [target|]; [|done]. destruct (is_free t _) eqn:Ef; [|done]. by apply inserting_change.
Qed.

Lemma spawn_tab_change args (ids : I) :
  fresh ids U -> (Handlers.spawn_tab args t ids).1 = OApplied t' -> change U t t' [] (brought_by t OpSpawnTab args).
Proof.
  intros Hf. unfold Handlers.spawn_tab, brought_by. destruct (decode_spawn_tab args) as [a|]; [|done]. destruct (negb _); [done|].
  destruct (is_free t _) eqn:Ef; [|done]. cbn [negb]. pose proof (is_free_spec t _ Ef) as [Hp _].
  destruct (fresh_tab ids U Hf) as [Hn _]. destruct (mint_tab ids) as [tab ids'] . cbn in Hn.
  set (ws := select_session (tree t) (st_session a)). assert (Es : sessions ws = sessions (tree t)) by apply select_session_sessions.
  assert (Hws : ws_wf ws) by (apply (eff_wf _ _ _ _ _ _ (select_session_effect U (tree t) tree_wf (st_session a)))).
  assert (HuU : used ws ⊆ U) by (rewrite (used_from (tree t)); [apply tree_used|done]).
  assert (He : effect false U (tree t) (new_tab ws (spec_new Terminal DEFAULT_PANE_TITLE) (st_position a) tab (st_new_pane a)) [] [st_new_pane a]).
  { apply (effect_from U _ ws); [done|]. apply new_tab_effect; [done|done|done|]. unfold inventory in *. by rewrite Es. }
  cbn [with_tree tree]. fold ws. destruct (negb _); [done|]. eapply (grown_by_one (b := false)); [done|exact He|].
  eapply side_trans; [|apply side_noting]. case_decide; by split.
Qed.

Lemma single_session_ok id nm tab p spec : session_ok (session_single_pane id nm tab p spec) /\ sinv (session_single_pane id nm tab p spec) = [p].
Proof.
  assert (E : sinv (session_single_pane id nm tab p spec) = [p]) by done. split; [|done].
  split; [done|]. split; [cbn; lia|]. split; [apply Forall_cons_2; [by apply tab_new_ok|apply Forall_nil_2]|].
  rewrite E. cbn. rewrite dom_singleton_L. set_solver.
Qed.
Lemma new_session_change args (ids : I) :
  fresh ids U -> (Handlers.new_session args t ids).1 = OApplied t' -> change U t t' [] (brought_by t OpNewSession args).
Proof.
  intros Hf. unfold Handlers.new_session, brought_by. destruct (decode_new_session args) as [a|]; [|done].
  destruct (_ || _) eqn:E; [done|]. apply orb_false_iff in E as [Es Ef%negb_false_iff]. pose proof (is_free_spec t _ Ef) as [Hp _].
  destruct (fresh_tab ids U Hf) as [Hn _]. destruct (mint_tab ids) as [tab ids']. cbn zeta. cbn [fst] in *.
  set (s := session_single_pane _ _ _ _ _). assert (Hs : session_ok s /\ sinv s = [ns_new_pane a]) by apply single_session_ok. destruct Hs as [Hs Ei].
  pose proof (insert_session_effect U (tree t) tree_wf tree_used s true Hs) as He. rewrite Ei in He.
  eapply (grown_by_one (b := false)); [exact Ef|apply He|].
  - cbn. intros (s1 & E & Hs1)%list_elem_of_fmap. assert (has_session t (ns_session a) = true); [|congruence].
    apply existsb_exists. exists s1. split; [by apply list_elem_of_In|by apply bool_decide_eq_true].
  - apply NoDup_singleton.
  - cbn. by intros x ->%list_elem_of_singleton.
  - apply NoDup_singleton.
  - by intros x ->%list_elem_of_singleton.
  - eapply side_trans; [|apply side_noting]. case_decide; by split.
Qed.

Lemma spawn_detached_change args :
  Handlers.spawn_detached_pane args t = OApplied t' -> change U t t' [] (brought_by t OpSpawnDetachedPane args).
Proof.
  unfold Handlers.spawn_detached_pane, brought_by. destruct (decode_spawn_detached_pane args) as [a|]; [|done].
  destruct (is_free t _) eqn:Ef; [|done]. cbn [negb]. destruct (optional_target _) as [v|]; [|done]. cbn zeta. destruct (negb _); [done|].
  eapply (grown_by_one (b := false)); [done| |apply side_refl]. apply mint_detached_pane_effect; [done|done|]. by apply is_free_spec.
Qed.

(** *** What closes *)

Lemma capturing_tree tab : tree (capturing t tab) = tree t.
Proof. unfold capturing. repeat case_match; done. Qed.
Lemma sole_leaf_spec tab p : sole_leaf t tab = Some p ->
  exists s found, s ∈ sessions (tree t) /\ found ∈ tabs s /\ tab_id found = tab /\ leaves (root found) = [p].
Proof.
  unfold sole_leaf. destruct (find_tab t tab) as [found|] eqn:E; [|done]. cbn [mbind option_bind].
  apply find_tab_some in E as (s & Hs & Hf & Hid). destruct (Nat.eqb_spec (leaf_count (root found)) 1) as [Hn|]; [|done].
  rewrite all_pane_ids_leaves. intros Hh. exists s, found. split; [done|]. split; [done|]. split; [done|].
  rewrite leaf_count_leaves in Hn. destruct (leaves (root found)) as [|x [|y l]]; [done|by injection Hh as ->|]. cbn in Hn. lia.
Qed.
Lemma closing next ws' removed :
  effect true U (tree t) ws' removed [] -> side (with_tree t ws') next -> accept next = OApplied t' -> change U t t' removed [].
Proof. intros He Hs. apply (change_of_effect (b := true) U t next t' ws'); [done|done|done|done|]. by intros x ?%elem_of_nil. Qed.

Lemma close_pane_change args (ids : I) key :
  fresh ids U -> (Handlers.close_pane lower args t ids key).1 = OApplied t' -> change U t t' (closed_by t OpClosePane args) [].
Proof.
  intros Hf. unfold Handlers.close_pane, closed_by. destruct (decode_identity args) as [pane|]; [|done].
  destruct (has_pane t pane) eqn:Eh; [|done]. cbn [negb]. destruct (is_detached pane (tree t)) eqn:Ed.
  { cbn [fst]. apply detached_located in Ed as [i Ed]. pose proof (close_detached_pane_effect U (tree t) tree_wf tree_used pane) as He. rewrite Ed in He.
    eapply closing; [by apply effect_may|apply side_pruned]. }
  unfold has_pane in Eh. rewrite Ed, orb_false_r in Eh. apply contained_located in Eh as [at_ Eat].
  set (successor := _ ≫= _). pose proof (fun ids => close_pane_effect U (tree t) tree_wf tree_used pane successor ids) as He.
  specialize (He ids Hf). rewrite Eat in He. cbn zeta. destruct (tab_of_pane t pane) as [tab|]; [case_decide as Es|].
  - rewrite capturing_tree. destruct (TreeOps.close_pane _ _ _ _) as [ws' ids']. apply (change_of_capture U t tab); [done|done|done|].
    intros s found Hs Hfo Hid x Hx. apply sole_leaf_spec in Es as (s2 & found2 & Hs2 & Hfo2 & Hid2 & El).
    assert (found = found2) as -> by (apply (same_tab (tree t) s s2); [done|done|done|done|done|by rewrite Hid2]). by rewrite El in Hx.
  - destruct (TreeOps.close_pane _ _ _ _) as [ws' ids']. eapply closing; [exact He|apply side_pruned].
  - destruct (TreeOps.close_pane _ _ _ _) as [ws' ids']. eapply closing; [exact He|apply side_pruned].
Qed.
Lemma close_tab_change args (ids : I) key :
  fresh ids U -> (Handlers.close_tab lower args t ids key).1 = OApplied t' -> change U t t' (closed_by t OpCloseTab args) [].
Proof.
  intros Hf. unfold Handlers.close_tab, closed_by. destruct (decode_identity args) as [tab|]; [|done].
  destruct (has_tab t tab) eqn:Eh; [|done]. cbn [negb]. cbn zeta. rewrite capturing_tree. set (successor := successor_after_closing _ _ _ _).
  pose proof (close_tab_effect U (tree t) tree_wf tree_used tab successor ids Hf) as He.
  destruct (TreeOps.close_tab _ _ _ _) as [ws' ids']. apply (change_of_capture U t tab); [done|done|exact He|].
  intros s found Hs Hfo Hid x Hx. apply has_tab_located in Eh as [[i j] El]. cbn [takes]. rewrite El. cbn [mbind option_bind].
  apply locate_tab_some in El as (s2 & found2 & Hi & Hj & Hid2). unfold tab_at_position. rewrite Hi. cbn [mbind option_bind]. rewrite Hj. cbn [from_option].
  assert (found = found2) as ->; [|done].
  apply (same_tab (tree t) s s2); [done|done|by eapply list_elem_of_lookup_2|done|by eapply list_elem_of_lookup_2|by rewrite Hid2].
Qed.
Lemma close_session_change args (ids : I) :
  fresh ids U -> (Handlers.close_session args t ids).1 = OApplied t' -> change U t t' (closed_by t OpCloseSession args) [].
Proof.
  intros Hf. unfold Handlers.close_session, closed_by. destruct (decode_identity args) as [session|]; [|done]. destruct (negb _); [done|].
  pose proof (close_session_effect U (tree t) tree_wf tree_used session ids Hf) as He.
  destruct (TreeOps.close_session _ _ _) as [ws' ids']. eapply closing; [exact He|apply side_pruned].
Qed.

(** *** What comes back *)

Lemma concat_singletons {A B} (f : A -> B) l : concat (map (fun a => [f a]) l) = map f l.
Proof. induction l as [|a l IH]; [done|]. cbn. by rewrite IH. Qed.

Lemma reopen_change args :
  Handlers.reopen_closed_tab args t = OApplied t' -> change U t t' [] (brought_by t OpReopenClosedTab args).
Proof.
  unfold Handlers.reopen_closed_tab, brought_by, restored_by. destruct (decode_reopen_closed_tab args) as [[lifo position]|]; [|done].
  assert (Hsame : change U t t [] []).
  { constructor; [done| |by left]. exists []. split; [done|]. by intros x ?%elem_of_nil. }
  cbn zeta. destruct (_ <? _)%nat; [by intros [= <-]|]. set (n := (length (closed_tabs t) - S (Z.to_nat lifo))%nat).
  destruct (closed_tabs t !! n) as [c|] eqn:Ec; [|by intros [= <-]]. cbn [from_option]. cbn [with_closed tree].
  set (ws := if existsb _ _ then _ else _). assert (Es : sessions ws = sessions (tree t)) by (unfold ws; destruct (existsb _ _); [apply select_session_sessions|done]).
  assert (Hws : ws_wf ws).
  { unfold ws. destruct (existsb _ _); [|done]. by apply (eff_wf _ _ _ _ _ _ (select_session_effect U (tree t) tree_wf (closed_session_id c))). }
  destruct (active_session_index ws) as [index|]; [|done]. destruct (negb _); [done|].
  pose proof (remove_at_sublist (closed_tabs t) n) as Hsub.
  pose proof Ht as [_ _ [[R1 R2 R3] _] Hap]. assert (Hin : c ∈ closed_tabs t) by by eapply list_elem_of_lookup_2.
  destruct (Hap c Hin) as [Ha1 Ha2]. pose proof HU as [HUu HUr]. rewrite Forall_forall in R1. destruct (R1 c Hin) as [Hok _].
  pose proof (concat_remove closed_leaves (closed_tabs t) n c Ec) as Ep. change (concat (map closed_leaves (closed_tabs t))) with (ring_panes (closed_tabs t)) in Ep.
  rewrite <- Ep in R3. apply NoDup_app in R3 as (Hnd & Hdis & _).
  set (V := U ∖ {[tab_id (closed_tab c)]}).
  assert (He : effect false V (tree t) (insert_tab ws (closed_tab c) (closed_specs c) position) [] (closed_leaves c)).
  { apply (effect_from V _ ws); [done|]. apply (insert_tab_effect U ws); try done; unfold inventory, all_tids in *; rewrite ?Es; try done.
    - by rewrite (used_from (tree t)).
    - unfold V. set_solver. }
  eapply (change_by_effect V U t); [done|exact He|eapply side_trans; [|apply side_noting]; by split|done|].
  intros d Hd. assert (Hd' : d ∈ remove_at n (closed_tabs t)).
  { unfold noting_focus in Hd. by destruct (list_find _ _) as [[? ?]|]. }
  clear Hd. destruct (HUr d (remove_at_sub _ _ _ Hd')) as [Hd1 Hd2]. split.
  - apply elem_of_difference. split; [done|]. intros E%elem_of_singleton.
    pose proof (concat_remove (fun c => [tab_id (closed_tab c)]) (closed_tabs t) n c Ec) as Eq. rewrite !concat_singletons in Eq.
    rewrite <- Eq in R2. cbn in R2. apply NoDup_cons in R2 as [R2 _]. apply R2. rewrite <- E.
    by apply (list_elem_of_fmap_2 (fun c => tab_id (closed_tab c))).
  - intros x Hx. split; [done|]. intros Hxc. apply (Hdis x Hxc), elem_of_all. by exists d.
Qed.

Lemma adopt_change args : Handlers.adopt args t false = OApplied t' -> False.
Proof. done. Qed.
Lemma apply_change kind op args (ids : I) pristine key :
  op_from_byte op = Some kind -> (kind = OpAdoptWorkspace -> pristine = false) -> fresh ids U ->
  (apply lower op args t ids pristine key).1 = OApplied t' -> change U t t' (closed_by t kind args) (brought_by t kind args).
Proof.
  intros Eop Had Hf. unfold apply. rewrite Eop.
  destruct kind; cbn [fst]; unfold closed_by; rewrite ?(Had eq_refl); [done|..|by apply spawn_detached_change|];
    first
      [ by apply rename_pane_change | by apply rename_tab_change | by apply rename_session_change | by apply close_pane_change
      | by apply close_tab_change | by apply split_pane_change | by apply move_pane_change | by apply reorder_tabs_change
      | by apply focus_tab_change | by apply focus_pane_change | by apply set_sync_input_change | by apply spawn_pane_change
      | by apply spawn_tab_change | by apply set_zoom_change | by apply detach_pane_change | by apply reattach_pane_change
      | by apply set_divider_weight_change | by apply new_session_change | by apply close_session_change | by apply reopen_change
      | by apply break_pane_change | by apply swap_panes_change | by apply dock_pane_change | by apply set_tab_layout_change
      | by apply set_pane_video_target_change ].
Qed.
End Handling.

(** C3: Whatever a client asks, the host keeps a whole workspace.  From a well-formed topology (its tree, the
    depth of its tabs, its reopen ring and the two apart), with a source of identities new to [U], which
    holds all that are in use, an applied intent other than the bootstrap upload ends in a well-formed
    topology again, whatever its arguments decode to.  The panes it ends with are those before, less exactly
    the ones the intent closes (the pane named, the panes of the tab or of the session named) and with
    exactly the ones it brings (the pane the client proposed, or the panes of the tab it reopens); what the
    repair seeds besides is new; and the ring holds what it held or what was closed. *)
Theorem intents_keep_the_workspace_whole {I : Type} `{FreshSource I} lower U t t' kind op args (ids : I) pristine key :
  topology_wf t -> covers U t -> fresh ids U ->
  op_from_byte op = Some kind -> (kind = OpAdoptWorkspace -> pristine = false) ->
  (apply lower op args t ids pristine key).1 = OApplied t' ->
  topology_wf t' /\
  (exists seeded, closed_by t kind args ++ inventory (tree t') ≡ₚ seeded ++ brought_by t kind args ++ inventory (tree t) /\
     forall x, x ∈ seeded -> x ∉ U) /\
  (forall x, x ∈ ring_panes (closed_tabs t') -> x ∈ ring_panes (closed_tabs t) \/ x ∈ closed_by t kind args).
Proof.
  intros Ht HU Hf Hop Had E.
  by destruct (apply_change lower U t t' Ht HU kind op args ids pristine key Hop Had Hf E).
Qed.

(** ** A tab that comes back *)

Module Reopening.
Import Examples.
Definition shelved : ClosedTab :=
  mkClosedTab (uid 1) (mkTab (uid 20) [] (Leaf (uid 21)) (Some (uid 21)) None) {[uid 21 := spec_new Terminal (str "old")]}.
Definition before : WorkspaceTopology := mkTopology two_tabs ∅ ∅ [shelved] None [] ∅.
Definition taken : gset RawUuid := {[uid 20; uid 21]} ∪ used two_tabs.
Definition request : list byte := encode_reopen_closed_tab 0 End.
Definition outcome : Outcome := (apply (fun c => c) (op_as_byte OpReopenClosedTab) request before 17%nat false no_project_keys).1.
Definition after : WorkspaceTopology := default before (outcome_topology outcome).
End Reopening.

Lemma shelved_ok : closed_ok Reopening.shelved.
Proof.
  split; [split; [done|]; split; [|done]; exists (Examples.uid 21); split; [done|by left]|].
  refine (bool_decide_unpack _ _). by vm_compute.
Qed.
Lemma before_wf : topology_wf Reopening.before.
Proof.
  constructor; [exact two_tabs_wf| | |].
  - unfold shallow. refine (bool_decide_unpack _ _). by vm_compute.
  - split; [|cbn; unfold CLOSED_TAB_RING_CAP; lia]. constructor.
    + apply Forall_singleton, shelved_ok.
    + apply NoDup_singleton.
    + apply NoDup_singleton.
  - intros c ->%list_elem_of_singleton. split; [refine (bool_decide_unpack _ _); by vm_compute|].
    intros x ->%list_elem_of_singleton. refine (bool_decide_unpack _ _). by vm_compute.
Qed.
Lemma taken_covers : covers Reopening.taken Reopening.before.
Proof.
  split; [apply union_subseteq_r|]. intros c ->%list_elem_of_singleton. split; [refine (bool_decide_unpack _ _); by vm_compute|].
  intros x ->%list_elem_of_singleton. refine (bool_decide_unpack _ _). by vm_compute.
Qed.
Lemma taken_short : fresh 17%nat Reopening.taken.
Proof.
  change (set_Forall (fun x : RawUuid => (length x < 17)%nat) Reopening.taken). refine (bool_decide_unpack _ _). by vm_compute.
Qed.
Lemma applied_default o t : is_applied o = true -> o = OApplied (default t (outcome_topology o)).
Proof. by destruct o. Qed.

Lemma intents_keep_the_workspace_whole_witness :
  topology_wf Reopening.after /\
  exists seeded, inventory (tree Reopening.after) ≡ₚ seeded ++ [Examples.uid 21] ++ inventory two_tabs.
Proof.
  assert (E : Reopening.outcome = OApplied Reopening.after) by (apply applied_default; by vm_compute).
  destruct (intents_keep_the_workspace_whole (fun c => c) Reopening.taken Reopening.before Reopening.after OpReopenClosedTab
    (op_as_byte OpReopenClosedTab) Reopening.request 17%nat false no_project_keys before_wf taken_covers taken_short
    eq_refl (fun _ => eq_refl) E) as (H1 & (seeded & H2 & _) & _).
  split; [exact H1|]. exists seeded. exact H2.
Defined.
