(* ===== verification/HostIntent.v ===== *)
(** * HostIntent: a client's intent, from the document to the shells

    The host's [apply_intent] ([HostDoc]) with the projection of [Topology] and the applier of [Apply] in the
    place of its arguments: what the section under the document's lock does to the document, and which
    shells the host then kills ([topology_pane_ids] of [slopdesk-hostserver/src/workspace.rs]). *)

From stdpp Require Import gmap sorting.
From S2P Require Import Prelude Bytes BTree Message Document Cells Liveness Verbs HostDoc Float Tree TreeLaws Layout LayoutLaws Identity Workspace WorkspaceLaws TreeOps OpsLaws TabLaws CloseLaws Requests TabOrder Intent Topology TopologyLaws Apply ApplyLaws HandlerLaws.

(** Every pane the topology places: a detached pane is in no tab. *)
Definition topology_pane_ids (t : WorkspaceTopology) : gset RawUuid := list_to_set (workspace_panes (tree t)).

Section Host.
Context (lower : list byte -> list byte) {I : Type} `{IdSource I}.
Definition apply_op (ids : I) (op : byte) (args : list byte) (t : WorkspaceTopology) (pristine : bool)
    (key : RawUuid -> option (list byte)) : Outcome := (apply lower op args t ids pristine key).1.
Definition host_intent (ids : I) (h : Host) (op : byte) (args : list byte) : Host * WorkspaceIntentStatus * gset RawUuid * list Effect :=
  HostDoc.apply_intent from_document (apply_op ids) project_key_for_pane write_topology topology_pane_ids h op args.
End Host.

(** ** Placed and owned *)

Lemma placed_owned ws x : x ∈ workspace_panes ws -> x ∈ inventory ws.
Proof.
  intros (s & Hs & Hx)%elem_of_all. apply elem_of_all. exists s. split; [done|]. unfold sinv. apply elem_of_app. by left.
Qed.
Lemma owned_cases ws x : x ∈ inventory ws -> x ∈ workspace_panes ws \/ x ∈ detached_pane_ids ws.
Proof.
  intros (s & Hs & [Hx|Hx]%elem_of_app)%elem_of_all; [left|right]; apply elem_of_all; by exists s.
Qed.

(** What leaves the tabs was closed or is detached now; and what was closed out of a tab has left. *)
Lemma gone_closed U t t' removed brought x :
  topology_wf t -> covers U t -> change U t t' removed brought ->
  x ∈ topology_pane_ids t ∖ topology_pane_ids t' ->
  x ∈ removed \/ (x ∈ workspace_panes (tree t) /\ x ∈ detached_pane_ids (tree t')).
Proof.
  intros Ht HU [_ (m & Hp & Hm) _]. unfold topology_pane_ids. rewrite elem_of_difference, !elem_of_list_to_set. intros [Hx Hn].
  assert (Hi : x ∈ m ++ brought ++ inventory (tree t)) by (apply elem_of_app; right; apply elem_of_app; right; by apply placed_owned).
  rewrite <- Hp in Hi. apply elem_of_app in Hi as [Hi|Hi]; [by left|right]. split; [done|]. by destruct (owned_cases _ _ Hi).
Qed.
Lemma closed_gone U t t' removed x :
  topology_wf t -> covers U t -> change U t t' removed [] -> x ∈ removed -> x ∈ workspace_panes (tree t) ->
  x ∈ topology_pane_ids t ∖ topology_pane_ids t'.
Proof.
  intros Ht HU [_ (m & Hp & Hm) _] Hr Hx. unfold topology_pane_ids. rewrite elem_of_difference, !elem_of_list_to_set. split; [done|].
  intros Hx'%placed_owned. pose proof (wf_tree _ Ht) as (_ & _ & (_ & _ & Hnd) & _). apply placed_owned in Hx.
  apply (removed_gone U removed (inventory (tree t')) m (inventory (tree t)) x Hp Hm Hnd); [by apply (covers_inventory U t)|done|done].
Qed.
Lemma closed_or_brought t kind args : brought_by t kind args = [] \/ closed_by t kind args = [].
Proof. destruct kind; first [by left | by right]. Qed.

(** ** One intent, under the document's lock *)

Lemma written_state h next :
  let h' := if decide (write_topology (d_state (doc h)) next = d_state (doc h)) then h else replace_state h (write_topology (d_state (doc h)) next) in
  d_state (doc h') = write_topology (d_state (doc h)) next /\ pristine (doc h') = pristine (doc h) /\ has_store (doc h') = has_store (doc h).
Proof. case_decide; [done|]. unfold replace_state, bump. by rewrite doc_offers. Qed.

(** ** What an applied intent may have been *)

(** The bootstrap: an upload a pristine host takes over.  The panes and tabs are the client's; the host keeps its own
    name and its own session; and nothing is checked but that every session has a spec for exactly its panes and
    that no tab is deeper than the cap. *)
Definition bootstraps (t t' : WorkspaceTopology) (args : list byte) : Prop :=
  (exists state uploaded, decode_snapshot args = Ok state /\ from_document state = Some uploaded /\ tree t' = tree uploaded) /\
  host_display_name t' = host_display_name t /\ unattached_session_id t' = unattached_session_id t /\
  invariant_holds (tree t') = true /\ shallow (tree t').

(** Any other request: the arrangement stays well-formed; a shell that is killed belonged to a pane of a tab that
    the intent closed or that is detached afterwards; and a pane closed out of a tab loses its shell. *)
Definition rearranges (t t' : WorkspaceTopology) (closed : list RawUuid) (gone : gset RawUuid) : Prop :=
  topology_wf t' /\
  (forall x, x ∈ gone -> x ∈ closed \/ (x ∈ workspace_panes (tree t) /\ x ∈ detached_pane_ids (tree t'))) /\
  (forall x, x ∈ closed -> x ∈ workspace_panes (tree t) -> x ∈ gone).

Lemma adopt_bootstraps args t t' : Handlers.adopt args t true = OApplied t' -> bootstraps t t' args.
Proof.
  unfold Handlers.adopt. cbn [negb]. destruct (decode_snapshot args) as [state|] eqn:Ed; [|done].
  destruct (from_document state) as [uploaded|] eqn:Eu; [|done]. intros Ha. pose proof (accept_applied _ _ Ha) as [-> Hs].
  split; [by exists state, uploaded|]. split; [done|]. split; [done|]. split; [|exact Hs].
  unfold accept in Ha. by destruct (invariant_holds _).
Qed.
Lemma change_rearranges U t t' kind args :
  topology_wf t -> covers U t -> change U t t' (closed_by t kind args) (brought_by t kind args) ->
  rearranges t t' (closed_by t kind args) (topology_pane_ids t ∖ topology_pane_ids t').
Proof.
  intros Ht HU Hc. split; [apply Hc|]. split.
  - intros x. by apply (gone_closed U t t' _ _ x Ht HU Hc).
  - intros x Hx. destruct (closed_or_brought t kind args) as [Eb|Ec]; [|by rewrite Ec in Hx; apply elem_of_nil in Hx].
    rewrite Eb in Hc. by apply (closed_gone U t t' _ x Ht HU Hc).
Qed.
Lemma applied_is {I : Type} `{FreshSource I} lower U t t' kind op args (ids : I) pristine key :
  topology_wf t -> covers U t -> fresh ids U -> op_from_byte op = Some kind ->
  (apply lower op args t ids pristine key).1 = OApplied t' ->
  if decide (kind = OpAdoptWorkspace)
  then pristine = true /\ bootstraps t t' args
  else rearranges t t' (closed_by t kind args) (topology_pane_ids t ∖ topology_pane_ids t').
Proof.
  intros Ht HU Hf Hop Ha. destruct (decide (kind = OpAdoptWorkspace)) as [->|Hk].
  - unfold apply in Ha. rewrite Hop in Ha. destruct pristine; [|done]. split; [done|]. by apply adopt_bootstraps.
  - apply (change_rearranges U); [done|done|]. by eapply (apply_change lower U t t' Ht HU kind op args ids pristine key).
Qed.

(** C4: What an intent does to the document and to the shells.  Let the document hold a well-formed arrangement,
    and let the identities the host mints be new to [U], which holds all that are in use.  An intent is refused,
    and then the host is as it was, nothing is killed and nothing saved; or it is applied, the document stops
    being pristine and becomes the write of an arrangement, which reads back as that arrangement when its texts
    and identities fit the cells, and it is what is saved; and the shells killed are those of the panes that were
    in a tab and are in none now.  If the intent was not the bootstrap upload, the arrangement is well-formed,
    every shell killed belonged to a pane of a tab that the intent closed or that is detached afterwards, and
    every pane the intent closed out of a tab loses its shell.  The bootstrap upload is applied only to a pristine
    document: the panes are the client's, the host keeps its own name and session, and of the arrangement only
    that each session has a spec for exactly its panes and the depth of its tabs are sure (it may place one pane in
    two tabs, [a_bootstrap_can_place_a_pane_twice]). *)
Theorem an_intent_reaches_the_document {I : Type} `{FreshSource I} lower U h t kind op args (ids : I) :
  from_document (d_state (doc h)) = Some t -> topology_wf t -> covers U t -> fresh ids U -> op_from_byte op = Some kind ->
  let '(h', status, gone, saves) := host_intent lower ids h op args in
  (h' = h /\ status <> Applied /\ gone = ∅ /\ saves = []) \/
  (status = Applied /\ pristine (doc h') = false /\ exists t',
     d_state (doc h') = write_topology (d_state (doc h)) t' /\
     (topology_ok t' -> from_document (d_state (doc h')) = Some t') /\
     saves = (if has_store (doc h) then [ESave (d_state (doc h'))] else []) /\
     gone = topology_pane_ids t ∖ topology_pane_ids t' /\
     if decide (kind = OpAdoptWorkspace)
     then pristine (doc h) = true /\ bootstraps t t' args
     else rearranges t t' (closed_by t kind args) gone).
Proof.
  intros Hd Ht HU Hf Hop. unfold host_intent, HostDoc.apply_intent. rewrite Hd. unfold apply_op.
  destruct (apply lower op args t ids _ _).1 as [t'| | | | ] eqn:E; [right|by left..]. split; [done|].
  pose proof (applied_is lower U t t' kind op args ids _ _ Ht HU Hf Hop E) as Hc.
  set (h1 := with_doc h (with_pristine (doc h) false)).
  pose proof (written_state h1 t') as (Es & Ep & Eh). cbn zeta in Es, Ep, Eh |- *. change (d_state (doc h1)) with (d_state (doc h)) in *.
  rewrite Ep, Eh, Es. split; [done|]. exists t'. split_and!; [done|apply read_back|done|done|exact Hc].
Qed.

(** ** A host that serves two tabs *)

Module Serving.
Import Examples.
Definition stored : HostWorkspaceState := write_topology state_new (topology_new two_tabs).
Definition host : Host := mkHost (install (doc_new (uid 99)) stored false true) [] ∅.
Definition ask (kind : WorkspaceIntentOp) (pane : RawUuid) : Host * WorkspaceIntentStatus * gset RawUuid * list Effect :=
  host_intent (fun c => c) 17%nat host (op_as_byte kind) (encode_identity pane).
Definition document_after (kind : WorkspaceIntentOp) (pane : RawUuid) : option WorkspaceTopology := from_document (d_state (doc (ask kind pane).1.1.1)).
Definition status_of (kind : WorkspaceIntentOp) (pane : RawUuid) : WorkspaceIntentStatus := (ask kind pane).1.1.2.
Definition killed (kind : WorkspaceIntentOp) (pane : RawUuid) : gset RawUuid := (ask kind pane).1.2.
Definition panes_after (kind : WorkspaceIntentOp) (pane : RawUuid) : option (list RawUuid * list RawUuid) :=
  (fun t => (workspace_panes (tree t), detached_pane_ids (tree t))) <$> document_after kind pane.
End Serving.

Lemma stored_reads : from_document (d_state (doc Serving.host)) = Some (topology_new two_tabs).
Proof. by vm_compute. Qed.
Lemma two_tabs_topology_wf : topology_wf (topology_new two_tabs).
Proof.
  constructor; [exact two_tabs_wf| | |].
  - unfold shallow. refine (bool_decide_unpack _ _). by vm_compute.
  - split; [|cbn; lia]. constructor; [apply Forall_nil_2|apply NoDup_nil_2|apply NoDup_nil_2].
  - by intros c Hc%elem_of_nil.
Qed.
Lemma two_tabs_covered : covers (used two_tabs) (topology_new two_tabs).
Proof. split; [done|]. by intros c Hc%elem_of_nil. Qed.

Lemma an_intent_reaches_the_document_witness :
  (Serving.ask OpClosePane (Examples.uid 3)).1.1.2 = Applied /\ Examples.uid 3 ∈ (Serving.ask OpClosePane (Examples.uid 3)).1.2.
Proof.
  assert (E : (Serving.ask OpClosePane (Examples.uid 3)).1.1.2 = Applied) by by vm_compute. split; [exact E|].
  assert (Hf : fresh 17%nat (used two_tabs)) by exact two_tabs_fresh.
  pose proof (an_intent_reaches_the_document (fun c => c) (used two_tabs) Serving.host (topology_new two_tabs) OpClosePane
    (op_as_byte OpClosePane) (encode_identity (Examples.uid 3)) 17%nat stored_reads two_tabs_topology_wf two_tabs_covered Hf eq_refl) as G.
  change (host_intent _ _ _ _ _) with (Serving.ask OpClosePane (Examples.uid 3)) in G.
  destruct (Serving.ask OpClosePane (Examples.uid 3)) as [ [ [h' status] gone] saves]. cbn [fst snd] in *.
  destruct G as [(_ & Hn & _)|(_ & _ & t' & _ & _ & _ & _ & G)]; [by destruct Hn|].
  rewrite decide_False in G by discriminate. apply G; refine (bool_decide_unpack _ _); by vm_compute.
Defined.

(** *** The bootstrap upload

    A host that has only been seeded takes an upload whose two tabs hold one pane, and kills the shells of its own
    panes: the pane stands twice in the document it then serves. *)
Module Uploading.
Import Examples.
Definition twice : TreeWorkspace :=
  workspace_new
    [mkSession (uid 1) (str "main")
       [mkTab (uid 2) [] (Leaf (uid 6)) (Some (uid 6)) None; mkTab (uid 5) [] (Leaf (uid 6)) (Some (uid 6)) None] 0
       {[uid 6 := spec_new Terminal (str "shell")]} []] (Some (uid 1)).
Definition upload : list byte := encode_snapshot (write_topology state_new (topology_new twice)).
Definition seeded : Host := mkHost (install (doc_new (uid 99)) Serving.stored true true) [] ∅.
Definition answer : Host * WorkspaceIntentStatus * gset RawUuid * list Effect :=
  host_intent (fun c => c) 17%nat seeded (op_as_byte OpAdoptWorkspace) upload.
End Uploading.

Lemma a_bootstrap_can_place_a_pane_twice :
  Uploading.answer.1.1.2 = Applied /\ Uploading.answer.1.2 = {[Examples.uid 3; Examples.uid 4]} /\
  (fun t => workspace_panes (tree t)) <$> from_document (d_state (doc Uploading.answer.1.1.1)) = Some [Examples.uid 6; Examples.uid 6].
Proof.
  split; [by vm_compute|]. split; [|by vm_compute]. refine (bool_decide_unpack _ _). by vm_compute.
Qed.

(** ** Detached panes *)

Lemma close_detached_places ws p : workspace_panes (close_detached_pane ws p) = workspace_panes ws.
Proof.
  unfold close_detached_pane. destruct (detached_position ws p) as [i|]; [|done]. unfold editing_session.
  destruct (sessions ws !! i) as [s|] eqn:Hi; [|done]. unfold workspace_panes, put_session. cbn. f_equal.
  apply list_eq. intros k. rewrite !list_lookup_fmap. destruct (decide (i = k)) as [<-|Hne]; [|by rewrite list_lookup_insert_ne].
  by rewrite list_lookup_insert_eq, Hi by by eapply lookup_lt_Some.
Qed.
Lemma detached_is_not_placed ws p : ws_wf ws -> p ∈ detached_pane_ids ws -> p ∉ workspace_panes ws.
Proof.
  intros Hw (s & Hs & Hp)%elem_of_all (s2 & Hs2 & Hp2)%elem_of_all. apply list_elem_of_lookup in Hs as [i Hi], Hs2 as [k Hk].
  pose proof Hw as (_ & _ & (_ & _ & U3) & _). assert (i = k) as <-.
  { apply (all_same_place sinv (sessions ws) i k s s2 p U3 Hi Hk); unfold sinv; apply elem_of_app; [by right|by left]. }
  assert (s2 = s) as -> by congruence. destruct (session_at ws i s Hw Hi) as (_ & Hnd & _). unfold sinv in Hnd.
  apply NoDup_app in Hnd as (_ & Hd & _). by apply (Hd p).
Qed.
Lemma detach_places {I : Type} `{FreshSource I} t args p (ids : I) t' :
  ws_wf (tree t) -> decode_identity args = Ok p -> (Handlers.detach_pane args t ids).1 = OApplied t' ->
  p ∈ workspace_panes (tree t) /\ p ∈ detached_pane_ids (tree t').
Proof.
  intros Hw Hd. unfold Handlers.detach_pane. rewrite Hd. destruct (workspace_contains p (tree t)) eqn:Ec; [|done]. cbn [negb].
  pose proof (detach_pane_detaches (used (tree t)) (tree t) Hw (reflexivity _) p ids) as Hin. apply workspace_contains_spec in Ec as Hp. apply contained_located in Ec as [x Ex].
  destruct (TreeOps.detach_pane (tree t) p ids) as [ws' ids']. intros [-> _]%accept_applied. split; [done|]. apply Hin. by exists x.
Qed.

(** C5: The host's idea of a placed pane is the tabs' only, and detached panes fall on the wrong side of it both
    ways.  When a pane is detached, which the tree operation promises its process survives, the pane is always
    among those whose shell the host kills, although the document goes on listing it as detached; and when a
    detached pane is closed, and so leaves the document, no shell is killed at all, so its own runs on with no
    entry anywhere. *)
Theorem detached_panes_are_reaped_the_wrong_way {I : Type} `{FreshSource I} lower U h t args p (ids : I) :
  from_document (d_state (doc h)) = Some t -> topology_wf t -> covers U t -> fresh ids U -> decode_identity args = Ok p ->
  (let '(h', status, gone, _) := host_intent lower ids h (op_as_byte OpDetachPane) args in
   status = Applied -> p ∈ gone /\
   exists t', d_state (doc h') = write_topology (d_state (doc h)) t' /\ p ∈ detached_pane_ids (tree t')) /\
  (let '(h', status, gone, _) := host_intent lower ids h (op_as_byte OpClosePane) args in
   p ∈ detached_pane_ids (tree t) -> status = Applied -> gone = ∅ /\
   exists t', d_state (doc h') = write_topology (d_state (doc h)) t' /\ p ∉ inventory (tree t')).
Proof.
  intros Hd Ht HU Hf Hdec. pose proof (wf_tree _ Ht) as Hw. unfold host_intent, HostDoc.apply_intent. rewrite Hd. unfold apply_op. split.
  - destruct (apply lower (op_as_byte OpDetachPane) args t ids _ _).1 as [t'| | | | ] eqn:E; [|done..]. intros _.
    change ((Handlers.detach_pane args t ids).1 = OApplied t') in E. pose proof (detach_pane_change U t t' Ht HU args ids Hf E) as [Hwf' _ _].
    destruct (detach_places t args p ids t' Hw Hdec E) as [Hp Hp']. split.
    + unfold topology_pane_ids. rewrite elem_of_difference, !elem_of_list_to_set. split; [done|]. by apply detached_is_not_placed; [apply Hwf'|].
    + exists t'. split; [|done]. apply (written_state (with_doc h (with_pristine (doc h) false)) t').
  - destruct (apply lower (op_as_byte OpClosePane) args t ids _ _).1 as [t'| | | | ] eqn:E; [|done..]. intros Hp _.
    match type of E with (apply _ _ _ _ _ _ ?key).1 = _ => change ((Handlers.close_pane lower args t ids key).1 = OApplied t') in E;
      pose proof (close_pane_change lower U t t' Ht HU args ids key Hf E) as [_ (m & Hperm & Hm) _] end.
    unfold closed_by in Hperm. rewrite Hdec in Hperm. assert (Hi : p ∈ inventory (tree t)).
    { apply elem_of_all in Hp as (s & Hs & Hp). apply elem_of_all. exists s. split; [done|]. unfold sinv. apply elem_of_app. by right. }
    split.
    + unfold Handlers.close_pane in E. rewrite Hdec in E. destruct (negb _); [done|].
      assert (Ed : is_detached p (tree t) = true) by (apply is_detached_spec; by apply elem_of_all in Hp). rewrite Ed in E.
      apply accept_applied in E as [-> _]. unfold topology_pane_ids. cbn. rewrite close_detached_places. apply difference_diag_L.
    + exists t'. split; [apply (written_state (with_doc h (with_pristine (doc h) false)) t')|].
      pose proof Hw as (_ & _ & (_ & _ & Hnd) & _).
      apply (removed_gone U [p] (inventory (tree t')) m (inventory (tree t)) p Hperm Hm Hnd); [by apply (covers_inventory U t)|by left].
Qed.
Lemma detached_panes_are_reaped_the_wrong_way_witness :
  (Serving.status_of OpDetachPane (Examples.uid 3) = Applied /\ Examples.uid 3 ∈ Serving.killed OpDetachPane (Examples.uid 3)) /\
  (Serving.status_of OpClosePane (Examples.uid 7) = Applied /\ Serving.killed OpClosePane (Examples.uid 7) = ∅).
Proof.
  assert (Hf : fresh 17%nat (used two_tabs)) by exact two_tabs_fresh.
  assert (E1 : Serving.status_of OpDetachPane (Examples.uid 3) = Applied) by (vm_compute; reflexivity).
  assert (E2 : Serving.status_of OpClosePane (Examples.uid 7) = Applied) by (vm_compute; reflexivity).
  assert (Hp : Examples.uid 7 ∈ detached_pane_ids two_tabs) by (refine (bool_decide_unpack _ _); by vm_compute).
  pose proof (fun p => detached_panes_are_reaped_the_wrong_way (fun c => c) (used two_tabs) Serving.host (topology_new two_tabs)
    (encode_identity p) p 17%nat stored_reads two_tabs_topology_wf two_tabs_covered Hf) as G.
  destruct (G (Examples.uid 3) eq_refl) as [G1 _]. destruct (G (Examples.uid 7) eq_refl) as [_ G2]. clear G.
  change (host_intent _ _ _ _ _) with (Serving.ask OpDetachPane (Examples.uid 3)) in G1.
  change (host_intent _ _ _ _ _) with (Serving.ask OpClosePane (Examples.uid 7)) in G2.
  unfold Serving.status_of, Serving.killed in *.
  destruct (Serving.ask OpDetachPane (Examples.uid 3)) as [ [ [h1 status1] gone1] saves1].
  destruct (Serving.ask OpClosePane (Examples.uid 7)) as [ [ [h2 status2] gone2] saves2]. cbn [fst snd] in *.
  exact (conj (conj E1 (proj1 (G1 E1))) (conj E2 (proj1 (G2 Hp E2)))).
Defined.

(** A source that fails answers zeros, and nothing downstream refuses them. *)
#[export] Instance zero_source : IdSource unit :=
  {| mint_pane _ := (replicate 16 (byte_of_Z 0), tt); mint_tab _ := (replicate 16 (byte_of_Z 0), tt);
     mint_session _ := (replicate 16 (byte_of_Z 0), tt); mint_split _ := (replicate 16 (byte_of_Z 0), tt) |}.
Definition spawned (pane : RawUuid) (t : WorkspaceTopology) : option WorkspaceTopology :=
  outcome_topology (apply (fun c => c) (op_as_byte OpSpawnTab) (encode_spawn_tab (Examples.uid 1) pane End []) t tt false no_project_keys).1.
Lemma a_failed_mint_is_accepted_twice :
  (fun t => all_tids (tree t)) <$> (spawned (Examples.uid 40) (topology_new two_tabs) ≫= spawned (Examples.uid 41)) =
  Some [Examples.uid 2; Examples.uid 5; replicate 16 (byte_of_Z 0); replicate 16 (byte_of_Z 0)].
Proof. vm_compute. reflexivity. Qed.
