(* ===== verification/Staging.v ===== *)
(** * Staging: an intent shown before the host has answered

    Models [stage_intent] and what it uses of [slopdesk-wire/src/document/mirror.rs]: a replica runs the
    host's own applier ([Apply]) on the arrangement it shows, with identities from a pool of its own, and
    stages the difference of the two projections as a patch ([Mirror]). *)

From stdpp Require Import gmap sorting.
From S2P Require Import Prelude Bytes BTree Message Document Cells Liveness Mirror Verbs HostDoc Float Tree TreeLaws Identity Workspace WorkspaceLaws Intent Topology TopologyLaws Apply HandlerLaws HostIntent.

(** ** The pool of identities *)

Definition Pool : Type := list RawUuid * nat.
(** Past the end the last one repeats; an empty pool answers zeros. *)
Definition take_id (p : Pool) : RawUuid * Pool :=
  (default (replicate 16 (byte_of_Z 0)) (match p.1 !! p.2 with Some id => Some id | None => last p.1 end), (p.1, S p.2)).
#[export] Instance pool_source : IdSource Pool :=
  {| mint_pane := take_id; mint_tab := take_id; mint_session := take_id; mint_split := take_id |}.

(** ** The staging *)

Definition patch_between (current next : WorkspaceTopology) : WorkspaceStateDiff :=
  topology_diff (write_topology state_new current) (write_topology state_new next).
Definition mirror_topology (m : WorkspaceMirror) : option WorkspaceTopology := from_document (resolved m).

Definition stage_intent (lower : list byte -> list byte) (m : WorkspaceMirror) (id : RawUuid) (op : byte) (args : list byte)
    (minted : list RawUuid) (now : Z) : WorkspaceMirror * bool :=
  let shown := resolved m in
  match from_document shown with
  | None => (m, false)
  | Some current =>
    match outcome_topology (apply lower op args current (minted, 0%nat) true (project_key_for_pane shown)).1 with
    | None => (m, false)
    | Some next => (stage_patch m id (patch_between current next) now, true)
    end
  end.

(** ** What a staged patch says *)

Lemma staged_says before after id now k :
  patch_says k (mkPatch id (from_entries (sets (topology_diff before after))) (list_to_set (deletes (topology_diff before after))) now None) =
  if decide (after !! k = before !! k) then None else Some (after !! k).
Proof.
  unfold patch_says, topology_diff. cbn [patch_sets patch_deletes]. unfold from_entries. rewrite foldl_set_lookup, lookup_empty.
  destruct (list_find _ _) as [[i e]|] eqn:E.
  - apply list_find_Some in E as (Hi & <- & _). assert (Hin : e ∈ sets (diff_from after before)) by (apply elem_of_reverse, list_elem_of_lookup; eauto).
    destruct e as [key v]. apply elem_of_diff_sets in Hin as [Ha Hb]. cbn. rewrite Ha. by rewrite decide_False by congruence.
  - apply list_find_None in E. rewrite Forall_forall in E.
    assert (Hs : forall v, after !! k = Some v -> before !! k = Some v).
    { intros v Hv. destruct (decide (before !! k = Some v)) as [|Hn]; [done|]. exfalso.
      apply (E (mkEntry k v)); [|done]. apply elem_of_reverse. by apply elem_of_diff_sets. }
    destruct (decide (k ∈ _)) as [Hd|Hd]; rewrite elem_of_list_to_set, elem_of_diff_deletes in Hd.
    + destruct Hd as [-> [v Hv]]. by rewrite decide_False by congruence.
    + destruct (after !! k) as [v|]; [by rewrite (Hs v eq_refl), decide_True|]. rewrite decide_True; [done|].
      symmetry. apply eq_None_not_Some. intros Hb. by apply Hd.
Qed.
Lemma filter_keeps {A} (P : A -> Prop) `{!forall x, Decision (P x)} l : Forall P l -> filter P l = l.
Proof. induction 1 as [|x l Hx _ IH]; [done|]. by rewrite filter_cons, decide_True, IH. Qed.
Lemma staged_lookup m before after id now k :
  mirror_ok m -> is_pending m id = false ->
  resolved (stage_patch m id (topology_diff before after) now) !! k =
  if decide (after !! k = before !! k) then resolved m !! k else after !! k.
Proof.
  intros Hok Hid. unfold stage_patch. rewrite (filter_keeps (fun p => intent_id p <> id)).
  2:{ apply bool_decide_eq_false in Hid. apply Forall_forall. intros p Hp Ep. apply Hid, Exists_exists. by exists p. }
  unfold resolved. cbn [pending with_pending mirror_entries fast_path]. rewrite foldl_app. cbn [foldl].
  rewrite apply_patch_lookup by apply (stage_patch_ok before after id now).
  fold (from_entries (sets (topology_diff before after))). rewrite (staged_says before after id now k). by case_decide.
Qed.

(** The topology half of a write does not depend on what was there. *)
Lemma write_canonical s1 s2 t k : identities_unique t -> is_topology k = true -> write_topology s1 t !! k = write_topology s2 t !! k.
Proof.
  intros Hu Hk. destruct (write_lookup s1 t k Hu) as (_ & A1 & B1). destruct (write_lookup s2 t k Hu) as (_ & A2 & B2).
  destruct (decide (k ∈ map entry_key (entries t))) as [Hin|Hn].
  - apply list_elem_of_fmap in Hin as ([k' v] & -> & Hv%entries_say). cbn in *. by rewrite (A1 v Hv), (A2 v Hv).
  - assert (Hno : forall v, ~ says t (mkEntry k v)) by (intros v Hv%entries_say; apply Hn, list_elem_of_fmap; by exists (mkEntry k v)).
    by rewrite (B1 Hk Hno), (B2 Hk Hno).
Qed.

Lemma write_again s t : identities_unique t -> write_topology (write_topology s t) t = write_topology s t.
Proof.
  intros Hu. apply map_eq. intros k. destruct (is_topology k) eqn:Hk; [by apply write_canonical|].
  by rewrite (proj1 (write_lookup (write_topology s t) t k Hu)).
Qed.

(** The patch on top of a document that shows one arrangement is the write of the other. *)
Lemma staged_is_written m t t' id now :
  mirror_ok m -> is_pending m id = false -> identities_unique t -> identities_unique t' -> write_topology (resolved m) t = resolved m ->
  resolved (stage_patch m id (patch_between t t') now) = write_topology (resolved m) t'.
Proof.
  intros Hok Hid Hu Hu' Hw. apply map_eq. intros k. unfold patch_between. rewrite staged_lookup by done.
  destruct (is_topology k) eqn:Hk.
  - rewrite (write_canonical state_new (resolved m) t' k Hu' Hk), (write_canonical state_new (resolved m) t k Hu Hk), Hw. by case_decide.
  - rewrite (proj1 (write_lookup state_new t' k Hu')), (proj1 (write_lookup state_new t k Hu)), (proj1 (write_lookup (resolved m) t' k Hu')) by done.
    by rewrite decide_True.
Qed.

(** C6: What a replica shows for an intent it has not had the answer to is what the host will have written.
    When the document the replica shows (truth, overlay and earlier patches) is one an arrangement was written
    into, an intent its own applier takes is staged, and the document shown from then on is exactly the write
    of the new arrangement: it reads back as that arrangement, no cell outside the topology half has moved,
    and none of the old arrangement is left.  So a host that holds the document shown, and whose applier
    answers the same arrangement, publishes cell for cell the document the replica shows already. *)
Theorem the_overlay_is_the_write_to_come lower m t t' id op args minted now :
  mirror_ok m -> is_pending m id = false -> topology_ok t -> topology_ok t' -> write_topology (resolved m) t = resolved m ->
  (apply lower op args t (minted, 0%nat) true (project_key_for_pane (resolved m))).1 = OApplied t' ->
  let '(m', staged) := stage_intent lower m id op args minted now in
  staged = true /\ is_pending m' id = true /\ resolved m' = write_topology (resolved m) t' /\ mirror_topology m' = Some t' /\
  forall (I : Type) (source : IdSource I) (ids : I) h,
    d_state (doc h) = resolved m ->
    (apply lower op args t ids (pristine (doc h)) (project_key_for_pane (d_state (doc h)))).1 = OApplied t' ->
    d_state (doc (host_intent lower ids h op args).1.1.1) = resolved m'.
Proof.
  intros Hok Hid Ht Ht' Hw Ha. assert (Hr : from_document (resolved m) = Some t) by (rewrite <- Hw; by apply read_back).
  unfold stage_intent. rewrite Hr, Ha. cbn [outcome_topology].
  pose proof (staged_is_written m t t' id now Hok Hid (top_unique t Ht) (top_unique t' Ht') Hw) as E.
  split; [done|]. split.
  { apply bool_decide_eq_true. unfold stage_patch. cbn [pending with_pending]. apply Exists_app. right. by apply Exists_cons_hd. }
  split; [exact E|]. unfold mirror_topology. rewrite E. split; [by apply read_back|].
  intros I S ids h Hd Hh. unfold host_intent, HostDoc.apply_intent, apply_op. rewrite Hd in Hh |- *. rewrite Hr, Hh.
  destruct (written_state (with_doc h (with_pristine (doc h) false)) t') as (Es & _). cbn zeta in Es.
  cbn [fst]. rewrite <- Hd. exact Es.
Qed.

(** ** A replica that arms a tab *)

Module Arming.
Import Examples.
Definition mirror : WorkspaceMirror := mkMirror (Some (uid 99)) 1 (write_topology state_new Sample.topology) ∅ [] 0.
Definition armed : WorkspaceTopology := with_armed Sample.topology ({[uid 11]} ∪ {[uid 10]}).
Definition request : list byte := encode_flag (uid 11) true.
Definition staged : WorkspaceMirror * bool := stage_intent (fun c => c) mirror (uid 50) (op_as_byte OpSetSyncInput) request [] 0.
End Arming.

Lemma armed_ok : topology_ok Arming.armed.
Proof.
  destruct sample_ok as [H1 H2 H3 H4 H5 [U1 U2 U3 U4] H7 H8 H9 H10 H11 H12]. constructor; try assumption.
  - by constructor.
  - intros id [->%elem_of_singleton|Hid]%elem_of_union; [by_deciding|]. by apply H10.
Qed.
Lemma the_overlay_is_the_write_to_come_witness :
  Arming.staged.2 = true /\ mirror_topology Arming.staged.1 = Some Arming.armed.
Proof.
  assert (Hok : mirror_ok Arming.mirror) by (constructor; [by apply Forall_nil_2|done]).
  assert (Hid : is_pending Arming.mirror (Examples.uid 50) = false) by (vm_compute; reflexivity).
  assert (Hw : write_topology (resolved Arming.mirror) Sample.topology = resolved Arming.mirror).
  { change (resolved Arming.mirror) with (write_topology state_new Sample.topology). exact (write_again state_new Sample.topology sample_unique). }
  assert (Ha : (apply (fun c => c) (op_as_byte OpSetSyncInput) Arming.request Sample.topology (([], 0%nat) : Pool) true
    (project_key_for_pane (resolved Arming.mirror))).1 = OApplied Arming.armed) by (vm_compute; reflexivity).
  pose proof (the_overlay_is_the_write_to_come (fun c => c) Arming.mirror Sample.topology Arming.armed (Examples.uid 50)
    (op_as_byte OpSetSyncInput) Arming.request [] 0 Hok Hid sample_ok armed_ok Hw Ha) as G.
  change (stage_intent _ _ _ _ _ _ _) with Arming.staged in G. destruct Arming.staged as [m' staged].
  exact (conj (proj1 G) (proj1 (proj2 (proj2 (proj2 G))))).
Defined.
